(* ===== verification/_CoqProject ===== *)
-Q . S2P
Prelude.v
GoStrings.v
GoPath.v
Glob.v
Regexp.v
Lru.v
AwsTypes.v
CatalogTypes.v
GoEncoding.v
Awserror.v
Policy.v
CacheKeys.v
GoNet.v
Endpoint.v
IamResources.v
IamMapper.v
Config.v
ConfigPolicy.v
ConfigLoad.v
GoTime.v
Credentials.v
Sigv4Canonical.v
Sigv4Body.v
Sigv4Request.v
Sigv4Verify.v
Sigv4Soundness.v
Sigv4Resign.v
AuditEvent.v
Metrics.v
PipelineKeys.v
Pipeline.v
PipelineSafety.v
PipelineOutcomes.v
PipelineAudit.v
PipelinePolicy.v
Connections.v
AuditWriter.v
ProxyNet.v
ProxyFront.v
WireIndex.v
RestRoute.v
JsonDecode.v
JsonRoundTrip.v
Decoder.v
DecoderSoundness.v
DecoderForward.v
Adapter.v
AdapterSoundness.v
ChildEnv.v
CatalogStore.v
CatalogAccess.v
CatalogPlan.v
CatalogPlanSoundness.v
CatalogLookup.v
CatalogBuild.v
CatalogRoundTrip.v
CatalogSources.v
CatalogEvidence.v
Files.v
SessionDir.v
Pki.v
Redact.v
Child.v
Version.v
