(* ===== verification/Prelude.v ===== *)
(** * Kordn: a verification development

    Kordn runs a command whose AWS requests all pass through a local proxy.  The
    proxy authenticates each request (SigV4, with credentials made for the run),
    decodes it, maps it to the IAM actions and resources it needs, evaluates
    those against the configured policy, writes the decision to an audit log,
    and only then signs the request again with the real credentials and sends
    it.  This library models that program, the Go code under src/internal, and
    proves what makes it correct.  Every definition that models code keeps the
    name it has there.

    ** The parts, and how they interact

    The main path of a request is the handler [handlePipeline] of
    proxy/server.go.  It calls, through interfaces, the authenticator (package
    sigv4), the decoder (awsrequest), the mapper (iammap, which asks
    iammap/iamliveadapter, which asks iamlivecatalog), the policy engine
    (policy), the audit writer (audit), the re-signer (sigv4) and the round
    tripper, and answers the client itself with the denials of awserror.  It
    keeps mappings and decisions in caches (cache).  Around it are the proxy's
    front (destinations, addresses, connection slots), the certificate authority
    that terminates the client's TLS (pki), the configuration (config), the
    credentials (credentials), and the supervisor of the child with its
    environment and session directory (runtime).

    In this library a file holds a Module of its own name and requires the files
    it builds on.  The clients of a part are proved against what it promises: the
    pipeline against the answers its calls may give ([PipelineSafety.wp]), the
    users of the cache against the class [Lru.Cache], the adapter and the visitors
    against the function the Go interface asks for, the mapper against a
    classifier and a lookup that may also panic; and the theorems of the parts
    discharge those (PipelinePolicy for the engine, CatalogLookup for the catalog,
    [IamMapper.commercial_wellNamed] for the classifier).

    ** What models what

    Shared ground.
    - Prelude (this file): errors and results; [G], code that may return early
      and that polls a context, with its rules ([gwp], [cancellable], [steady]);
      list lemmas; tactics and the hint database [kordn].
    - GoStrings, GoEncoding, GoNet, GoPath, GoTime, Regexp: what the program uses
      of Go's strings, utf8, unicode, sort, strconv, encoding/json, encoding/xml,
      encoding/hex, net/textproto, net, path/filepath, time and regexp.  Strings
      are sequences of bytes.  Go's Unicode tables beyond ASCII are the class
      [UnicodeTables].

    Policy and decision.
    - Glob: policy/glob.go.  Policy: policy/decision.go, engine.go (the copy of the
      policy by reflection, [NewEngine]'s compilation and hash, [Evaluate] with
      its polls).  Config, ConfigLoad: config/schema.go, validate.go, load.go;
      ConfigPolicy relates the two validators and the two hashes.
    - Lru, CacheKeys: cache/lru.go, keys.go.

    Requests.
    - AwsTypes: the contracts of awsrequest (types.go, protocol.go, the endpoint
      of endpoint.go).  Endpoint: endpoint.go and endpoint_catalog.go, also as
      interleaved callers.
    - Sigv4Canonical (canonical.go), Sigv4Body and Sigv4Request (payload.go: the
      capture of a body, and the store of captured bodies, their readers and
      descriptors), Sigv4Verify (verify.go), Sigv4Resign (resign.go), with the
      soundness of verification in Sigv4Soundness and of re-signing in
      Sigv4Resign.  The HTTP request, the store of bodies and the file system are
      one explicit state; an error is [Bad], and [None] is a run without enough
      fuel.
    - WireIndex (wire_index.go), RestRoute (decode_restjson.go's routes),
      JsonDecode (decode_json.go's token descent), Decoder (decode_json.go,
      decode_query.go, decode_restjson.go, decode_restxml.go); theorems in
      DecoderSoundness, JsonRoundTrip, DecoderForward.
    - IamResources (iammap/resources.go, normalize.go), IamMapper (mapper.go,
      errors.go, dependencies.go and the adapter's result types), Adapter
      (iamliveadapter/adapter.go, types.go) with AdapterSoundness, Version
      (iammap/data/version.go).
    - The catalog (iamlivecatalog/catalog.go, types.go, validation.go):
      CatalogTypes (public evidence), CatalogStore (the compact store and its
      views), CatalogAccess (accessors and visitors), CatalogSources (decoded
      sources to the temporary graph), CatalogBuild (the graph to the store),
      CatalogPlan (the static plans); theorems in CatalogPlanSoundness,
      CatalogRoundTrip, CatalogEvidence and CatalogLookup.
    - Awserror: awserror/encode.go, json.go, xml.go, reasons.go.

    The proxy.
    - Pipeline: [handlePipeline] of proxy/server.go and all it calls, as data: a
      [prog] is a program over typed calls whose answers are free, so that a
      theorem about every answer is one about any component, network and
      interleaving with other requests.  PipelineKeys: its cache keys.  Theorems
      in PipelineSafety (the rules and the protocol), PipelineOutcomes,
      PipelineAudit, PipelinePolicy.
    - Connections: the connection slots of server.go, a transition system over
      the interleavings of its goroutines.  ProxyNet: transport.go's policy on
      addresses, resolution and dialling.  ProxyFront: auth.go, limits.go,
      connect.go and the classification of a destination.

    Around it.
    - AuditEvent (audit/event.go, summary.go and what jsonl.go and redact.go say of
      identities and resources), AuditWriter (jsonl.go: queue, goroutine, Write,
      Flush and Close as a transition system), Redact (redact.go).  Metrics:
      observe/metrics.go.
    - Credentials: credentials/fake.go, identity.go, provider.go.
    - Files: what sessiondir.go and ca.go use of package os.  SessionDir
      (runtime/sessiondir.go), ChildEnv (env.go), Child (child.go,
      terminal_unix.go, signals_unix.go).  Pki (pki/ca.go, leafcache.go).

    ** What the theorems show

    - Nothing is sent unless authorised: [PipelineOutcomes.forwarded_authorised]
      (each send has behind it a verification, decoding, mapping, allowing
      decision, accepted audit event and new signature of this request),
      [PipelinePolicy.forwarded_granted] and [decisions_kept_honestly] (with the
      real engine, cached or not), [pipeline_refines_protocol],
      [pipeline_answers_once], [PipelineAudit.pipeline_events_valid].
    - The engine and the matcher mean what they should:
      [Policy.Evaluate_allow_iff], [Evaluate_fails_closed], [Glob.MatchGlob_correct].
    - What is verified is what is forwarded: [Sigv4Soundness.Verify_sound],
      [Verify_binds], [Sigv4Resign.Resign_forwards], [verified_resigns],
      [DecoderForward.forwarded_query_agrees].
    - What is decided on is what was asked: [DecoderSoundness.Decode_sound],
      [decoded_operation_pinned], [Decode_errors_say_known],
      [JsonRoundTrip.json_roundtrip], [Endpoint.classifyCommercialHost_sound],
      [Classify_concurrent], [IamMapper.Map_fails_closed],
      [IamResources.resourceForContext_sound], [AdapterSoundness.lookup_exact],
      [CatalogLookup.catalog_lookup_exact], [CatalogEvidence.evidence_read_back],
      [CatalogPlanSoundness.plans_end].
    - State under concurrency: [AuditWriter.audit_log_in_order],
      [audit_decisions_durable], [audit_writer_deadlock] (a defect),
      [Connections.connection_slots_accounted], [Lru.lru_refines_spec].
    - Boundaries: [ConfigLoad.Load_sound], [ProxyNet.DialValidated_pinned],
      [Awserror.Encode_outcomes], [ChildEnv.child_env_exact],
      [Pki.leaves_for_their_names], [ca_files_exact],
      [SessionDir.stale_cleanup_confined], [Redact.registered_values_redacted],
      [Child.child_supervised].

    Where the code falls short of what it says, the model does too, and a lemma or
    an example shows it: [AuditWriter.audit_writer_deadlock],
    [Connections.connection_slots_leak], [PipelinePolicy.panic_denial_is_remembered],
    [DecoderForward.plus_disagrees], [Pki.expired_leaf_served] and others, each in
    the file of its part.

    ** Parameters, and what is asked of them

    Code that is not the program's is an argument, with its documented behaviour as
    a hypothesis where a theorem needs it, and a concrete instance in the witness:
    SHA-256 and HMAC (any functions; what would need collision resistance says
    "or a collision"), IDNA's [ToASCII], [http.ParseTime], net/url's parser for
    the proxy variables, the XML tokenizer, the iteration of a Go map (some
    permutation of its entries), the YAML decoder, the AWS SDK's signer, loader,
    STS client and credential provider, the DNS resolver and dialer, readers (a
    read fills its buffer or ends), temporary names (new ones), keys, random
    source, ASN.1 and PEM of the authority (a parsed certificate has the fields
    of its template).  File systems are finite maps with an oracle for the
    operations that fail, or, for the configuration, what the code asks of them.
    Clocks are the time they read.  [context.Err] is a function of the number of
    polls made so far, and [context.WithTimeout] any later context.

    ** Bounds and fuel

    Integers are [Z]; where Go's width matters (the cache's and the metrics'
    counters, the shapes' uint16, the catalog's uint32 indexes, numbers in JSON,
    byte sums) the wrap-around or the check is written out.  Loops over data are
    structural.  Fuel, where a loop is not, and why it is enough:
    - the capture of a body: [Sigv4Body.enough] of its limits, since each turn
      reads a byte or counts towards the reader's last error
      ([NewBody] then yields an outcome; [Verify_ends] for the whole verification);
    - the walks of a path to the root in ConfigLoad: any path has enough fuel, and
      more changes nothing ([ends_step] and the lemmas after it);
    - JSON: twice the length of the body and two, since every call consumes a token;
    - the dependency walk of a plan: one more than there are actions, since an
      action on the stack is not entered again ([plans_end]); the code's own bound
      of steps is part of the model;
    - a chain of conditions: one more than there are conditions, since the code
      refuses to see one twice;
    - names in a template, trailing slashes, decimal digits and groups of an IPv6
      address: the length of the text or the width of the number.
    In Child the run is a function of the finite list of what its select receives,
    and has no result as long as it would go on waiting ([child_supervised] says
    when it has one).

    ** What is not modelled

    - Input and output themselves: sockets, TLS, net/http's server and transport,
      processes, signals and ioctls, tunnelling of bytes (proxy/tunnel.go beyond
      the guards the pipeline uses), the front handlers ServeHTTP, handleConnect and
      handleHTTP of server.go, which string the modelled parts together over
      sockets, and opening the audit log.
    - Text of third parties: the archive, hash and JSON decoding of the embedded
      catalog (embed.go, parse's reading), the JSON text of audit events, YAML.
    - Code nothing calls: the second plan compiler over the public graph
      (compileStaticPlans, buildOccurrenceIndex), readBoundedBody of awsrequest.
    - The wiring: package app and the command line; test fakes.
    - Locks, where every operation takes one: such an operation is a single step.
      Where they matter (AuditWriter, Connections, Endpoint) they are in the model. *)

From Stdlib Require Import ZArith Lia Ascii Permutation.
From stdpp Require Import sorting base gmap strings option list.

#[global] Set Default Goal Selector "!".

Declare Scope go_scope.
Delimit Scope go_scope with go.
#[global] Open Scope Z_scope.

(** ** Errors

    A Go error is kept structurally: [errors.New] carries its message,
    [fmt.Errorf] its format, the printed arguments and the wrapped cause. *)

Inductive error :=
| ErrNew (msg : string)
| ErrFmt (fmt : string) (args : list string)
| ErrWrap (fmt : string) (args : list string) (cause : error).

(** [T, error] results. *)
Inductive result (A : Type) :=
| Ok (a : A)
| Err (e : error).
Arguments Ok {A} a.
Arguments Err {A} e.

#[export] Instance result_ret : MRet result := @Ok.
#[export] Instance result_bind : MBind result := fun A B f r =>
  match r with Ok a => f a | Err e => Err e end.

Definition is_ok {A} (r : result A) : bool :=
  match r with Ok _ => true | Err _ => false end.

(** A Go [error] result: [None] is [nil]. *)
Definition err_nil (e : option error) : bool :=
  match e with None => true | Some _ => false end.

Lemma result_bind_ok {A B} (r : result A) (f : A -> result B) b :
  (r ≫= f) = Ok b <-> exists a, r = Ok a /\ f a = Ok b.
Proof.
  destruct r as [a|e]; simpl; split.
  - intros H. exists a. done.
  - intros (a' & H & H'). injection H as ->. done.
  - done.
  - intros (a' & H & _). done.
Qed.

(** A validator that rejects on [c] and otherwise continues with [k]. *)
Lemma reject_None {E} (c : bool) (e : E) (k : option E) :
  (if c then Some e else k) = None <-> c = false /\ k = None.
Proof. destruct c; naive_solver. Qed.

Lemma reject_match_None {E F} (o : option E) (f : E -> F) (k : option F) :
  match o with Some e => Some (f e) | None => k end = None <-> o = None /\ k = None.
Proof. destruct o; naive_solver. Qed.

Lemma eqb_true_str (s t : string) : (s =? t)%string = true <-> s = t.
Proof. apply String.eqb_eq. Qed.

Lemma eqb_false_str (s t : string) : (s =? t)%string = false <-> s <> t.
Proof. apply String.eqb_neq. Qed.

(** ** Code that may return early and that polls a context

    [G R A] is a computation of a function body: it threads the number of
    [ctx.Err()] observations made so far and either falls through with an [A]
    ([inr]) or executes a [return] with an [R] ([inl]). *)

Inductive ctx_error := Canceled | DeadlineExceeded.
#[export] Instance ctx_error_eq_dec : EqDecision ctx_error.
Proof. solve_decision. Defined.

(** What the n-th call of [ctx.Err()] observes. *)
Definition context := nat -> option ctx_error.

Definition Background : context := fun _ => None.

(** Documented behaviour of [context.Context]: once [Err] is non-nil it stays
    non-nil. *)
Definition ctx_monotone (c : context) : Prop :=
  forall n m, (n <= m)%nat -> c n <> None -> c m <> None.

Definition G (R A : Type) := nat -> (R + A) * nat.

#[export] Instance G_ret R : MRet (G R) := fun A a n => (inr a, n).
#[export] Instance G_bind R : MBind (G R) := fun A B f m n =>
  match m n with
  | (inl r, n') => (inl r, n')
  | (inr a, n') => f a n'
  end.

(** [return r]. *)
Definition greturn {R A} (r : R) : G R A := fun n => (inl r, n).

(** [ctx.Err()]. *)
Definition ctx_Err {R} (c : context) : G R (option ctx_error) :=
  fun n => (inr (c n), S n).

(** [if err := ctx.Err(); err != nil { return r }]. *)
Definition poll {R} (c : context) (r : ctx_error -> R) : G R unit :=
  e ← ctx_Err c;
  match e with
  | Some e => greturn (r e)
  | None => mret tt
  end.

(** [for _, x := range xs { body }] over loop state [S]. *)
Fixpoint grange {R S X} (xs : list X) (body : X -> S -> G R S) (s : S) : G R S :=
  match xs with
  | [] => mret s
  | x :: xs => body x s ≫= grange xs body
  end.

(** A call of a function that itself polls. *)
Definition call {R A} (m : nat -> A * nat) : G R A := fun n =>
  let (a, n') := m n in (inr a, n').

(** A nil context never reports cancellation, like [Background]. *)
Definition ctxOf (c : option context) : context :=
  match c with Some c => c | None => Background end.

(** A function body whose every path ends in [return]. *)
Definition grun {R} (m : G R R) (n : nat) : R * nat :=
  match m n with
  | (inl r, n') => (r, n')
  | (inr r, n') => (r, n')
  end.

(** Inside [G], every poll of [Background] falls through and observes nothing,
    so the computation is the one of its pure reading. *)
Lemma poll_none {R} (c : context) (r : ctx_error -> R) n :
  c n = None -> poll c r n = (inr tt, S n).
Proof. intros H. unfold poll, ctx_Err, mbind, G_bind. by rewrite H. Qed.

Lemma poll_some {R} (c : context) (r : ctx_error -> R) n e :
  c n = Some e -> poll c r n = (inl (r e), S n).
Proof. intros H. unfold poll, ctx_Err, mbind, G_bind. by rewrite H. Qed.

(** ** Cancellable computations

    [cancellable c bad m a]: [m] either falls through with the value [a] having
    seen no cancellation, or returns [bad] having seen one.  [settles] is the
    same for a body that ends in [return r]. *)

Section Cancellable.
Context {R : Type} (c : context) (bad : R).

Definition quiet (n n' : nat) : Prop :=
  (n <= n')%nat /\ forall k, (n <= k < n')%nat -> c k = None.
Definition fired (n n' : nat) : Prop :=
  exists k, (n <= k < n')%nat /\ c k <> None.

Definition cancellable {A} (m : G R A) (a : A) : Prop := forall n,
  exists n', (m n = (inr a, n') /\ quiet n n') \/ (m n = (inl bad, n') /\ fired n n').
Definition settles {A} (m : G R A) (r : R) : Prop := forall n,
  exists n', (m n = (inl r, n') /\ quiet n n') \/ (m n = (inl bad, n') /\ fired n n').

Lemma cancellable_ret {A} (a : A) : cancellable (mret a) a.
Proof. intros n. exists n. left. split; [done|]. split; [lia|]. intros k; lia. Qed.

Lemma settles_return {A} (r : R) : settles (@greturn R A r) r.
Proof. intros n. exists n. left. split; [done|]. split; [lia|]. intros k; lia. Qed.

Lemma cancellable_poll : cancellable (poll c (fun _ => bad)) tt.
Proof.
  intros n. exists (S n). destruct (c n) as [e|] eqn:E.
  - right. rewrite (poll_some _ _ _ e) by done. split; [done|].
    exists n. split; [lia|congruence].
  - left. rewrite poll_none by done. split; [done|]. split; [lia|].
    intros k Hk. by replace k with n by lia.
Qed.

Lemma quiet_trans n1 n2 n3 : quiet n1 n2 -> quiet n2 n3 -> quiet n1 n3.
Proof.
  intros [H1 Q1] [H2 Q2]. split; [lia|]. intros k Hk.
  destruct (decide (k < n2)%nat); [apply Q1|apply Q2]; lia.
Qed.
Lemma fired_l n1 n2 n3 : fired n1 n2 -> (n2 <= n3)%nat -> fired n1 n3.
Proof. intros (k & Hk & Hc) H. exists k. split; [lia|done]. Qed.
Lemma fired_r n1 n2 n3 : (n1 <= n2)%nat -> fired n2 n3 -> fired n1 n3.
Proof. intros H (k & Hk & Hc). exists k. split; [lia|done]. Qed.

Lemma cancellable_bind {A B} (m : G R A) (f : A -> G R B) a b :
  cancellable m a -> cancellable (f a) b -> cancellable (m ≫= f) b.
Proof.
  intros Hm Hf n. destruct (Hm n) as (n1 & [[E Q]|[E F]]).
  - destruct (Hf n1) as (n2 & H). exists n2. unfold mbind, G_bind. rewrite E.
    destruct H as [[-> Q']|[-> F]]; [left|right]; (split; [done|]).
    + by eapply quiet_trans.
    + eapply fired_r; [apply Q|done].
  - exists n1. right. unfold mbind, G_bind. by rewrite E.
Qed.

Lemma settles_bind {A B} (m : G R A) (f : A -> G R B) a r :
  cancellable m a -> settles (f a) r -> settles (m ≫= f) r.
Proof.
  intros Hm Hf n. destruct (Hm n) as (n1 & [[E Q]|[E F]]).
  - destruct (Hf n1) as (n2 & H). exists n2. unfold mbind, G_bind. rewrite E.
    destruct H as [[-> Q']|[-> F]]; [left|right]; (split; [done|]).
    + by eapply quiet_trans.
    + eapply fired_r; [apply Q|done].
  - exists n1. right. unfold mbind, G_bind. by rewrite E.
Qed.

Lemma cancellable_grange {S X} (xs : list X) (body : X -> S -> G R S) (f : S -> X -> S) s :
  (forall x s, cancellable (body x s) (f s x)) ->
  cancellable (grange xs body s) (foldl f s xs).
Proof.
  intros Hb. revert s. induction xs as [|x xs IH]; intros s; [apply cancellable_ret|].
  cbn [grange foldl]. eapply cancellable_bind; [apply Hb|apply IH].
Qed.

(** A settled body run to completion. *)
Lemma grun_settles (m : G R R) r n :
  settles m r ->
  ((grun m n).1 = r /\ quiet n (grun m n).2) \/
  ((grun m n).1 = bad /\ fired n (grun m n).2).
Proof.
  intros H. destruct (H n) as (n' & [[E Q]|[E F]]); unfold grun; rewrite E; [left|right]; done.
Qed.
End Cancellable.

#[export] Hint Resolve cancellable_ret cancellable_poll settles_return : kordn.

(** ** What a body may return

    [gwp m QR Q]: whatever the context does, [m] returns only values of [QR]
    and falls through only with values of [Q]. *)

Section Gwp.
Context {R : Type} (QR : R -> Prop).

Definition gwp {A} (m : G R A) (Q : A -> Prop) : Prop :=
  forall n, match (m n).1 with inl r => QR r | inr a => Q a end.

Lemma gwp_ret {A} (a : A) (Q : A -> Prop) : Q a -> gwp (mret a) Q.
Proof. intros H n. exact H. Qed.

Lemma gwp_return {A} (r : R) (Q : A -> Prop) : QR r -> gwp (greturn r) Q.
Proof. intros H n. exact H. Qed.

Lemma gwp_bind {A B} (m : G R A) (f : A -> G R B) (P : A -> Prop) (Q : B -> Prop) :
  gwp m P -> (forall a, P a -> gwp (f a) Q) -> gwp (m ≫= f) Q.
Proof.
  intros Hm Hf n. specialize (Hm n). unfold mbind, G_bind.
  destruct (m n) as [[r|a] n']; cbn [fst] in *; [done|]. by apply Hf.
Qed.

Lemma gwp_poll (c : context) (r : ctx_error -> R) (Q : unit -> Prop) :
  (forall e, QR (r e)) -> Q tt -> gwp (poll c r) Q.
Proof.
  intros Hr HQ n. destruct (c n) as [e|] eqn:E.
  - rewrite (poll_some _ _ _ e) by done. apply Hr.
  - by rewrite poll_none.
Qed.

Lemma gwp_call {A} (m : nat -> A * nat) (Q : A -> Prop) :
  (forall n, Q (m n).1) -> gwp (call m) Q.
Proof. intros H n. unfold call. specialize (H n). by destruct (m n). Qed.

Lemma gwp_grange {S X} (xs : list X) (body : X -> S -> G R S) (I : S -> Prop) s :
  I s -> (forall x s, x ∈ xs -> I s -> gwp (body x s) I) -> gwp (grange xs body s) I.
Proof.
  revert s. induction xs as [|x xs IH]; intros s Hs Hb; [by apply gwp_ret|].
  cbn [grange]. eapply gwp_bind; [apply Hb; [left|done]|]. intros s' Hs'. apply IH; [done|].
  intros x' s'' Hx'. apply Hb. by right.
Qed.

(** The same, with an invariant that knows what has been visited. *)
Lemma gwp_grange_visited {S X} (xs : list X) (body : X -> S -> G R S) (I : list X -> S -> Prop) s :
  I [] s ->
  (forall seen x s, (exists rest, xs = seen ++ x :: rest) -> I seen s ->
     gwp (body x s) (I (seen ++ [x]))) ->
  gwp (grange xs body s) (I xs).
Proof.
  intros Hs Hb. assert (forall rest seen s, xs = seen ++ rest -> I seen s ->
    gwp (grange rest body s) (I xs)) as H; [|by apply (H xs [] s)].
  clear s Hs. induction rest as [|x rest IH]; intros seen s E Hs.
  - rewrite app_nil_r in E. subst seen. by apply gwp_ret.
  - cbn [grange]. eapply gwp_bind; [apply Hb; [by exists rest|exact Hs]|].
    intros s' Hs'. apply (IH (seen ++ [x])); [by rewrite <-app_assoc|done].
Qed.

Lemma gwp_weaken {A} (m : G R A) (P Q : A -> Prop) :
  gwp m P -> (forall a, P a -> Q a) -> gwp m Q.
Proof. intros Hm H n. specialize (Hm n). destruct (m n).1; auto. Qed.

Lemma gwp_true {A B} (m : G R A) (f : A -> G R B) Q :
  gwp m (fun _ => True) -> (forall a, gwp (f a) Q) -> gwp (m ≫= f) Q.
Proof. intros Hm Hf. eapply gwp_bind; [exact Hm|]. intros a _. apply Hf. Qed.

Lemma gwp_grun (m : G R R) n : gwp m QR -> QR (grun m n).1.
Proof. intros H. specialize (H n). unfold grun. by destruct (m n) as [[r|r] n']. Qed.
End Gwp.

(** ** Steady computations

    A computation that polls a context is [steady] when what it comes to is
    settled as long as no poll observes a cancellation: it has one value for all
    contexts that stay quiet while it runs. *)

Definition steady {X} (m : context -> nat -> X * nat) : Prop :=
  exists v, forall c n, (n <= (m c n).2)%nat /\ (quiet c n (m c n).2 -> (m c n).1 = v).

Lemma quiet_Background n n' : (n <= n')%nat -> quiet Background n n'.
Proof. by intros H. Qed.
Lemma quiet_l c n1 n2 n3 : quiet c n1 n3 -> (n1 <= n2 <= n3)%nat -> quiet c n1 n2.
Proof. intros [_ H] Hn. split; [lia|]. intros k Hk. apply H. lia. Qed.
Lemma quiet_r c n1 n2 n3 : quiet c n1 n3 -> (n1 <= n2 <= n3)%nat -> quiet c n2 n3.
Proof. intros [_ H] Hn. split; [lia|]. intros k Hk. apply H. lia. Qed.

(** The value, and where a steady computation ends. *)
Lemma steady_value {X} (m : context -> nat -> X * nat) : steady m ->
  forall c n, (n <= (m c n).2)%nat /\ (quiet c n (m c n).2 -> (m c n).1 = (m Background 0%nat).1).
Proof.
  intros [v H] c n. destruct (H c n) as [Hn Hq]. split; [done|]. intros Q. rewrite Hq by done.
  destruct (H Background 0%nat) as [Hn0 Hq0]. symmetry. by apply Hq0, quiet_Background.
Qed.
Lemma steady_Background {X} (m : context -> nat -> X * nat) n : steady m -> (m Background n).1 = (m Background 0%nat).1.
Proof. intros H. destruct (steady_value m H Background n) as [Hn Hq]. by apply Hq, quiet_Background. Qed.

Lemma steady_seq {X Y} (m : context -> nat -> X * nat) (f : context -> X -> nat -> Y * nat) :
  steady m -> (forall x, steady (fun c => f c x)) -> steady (fun c n => let (x, n') := m c n in f c x n').
Proof.
  intros [v Hm] Hf. destruct (Hf v) as [w Hw]. exists w. intros c n. destruct (Hm c n) as [Hn Hv].
  destruct (m c n) as [x n1]. cbn [fst snd] in *. pose proof (steady_value _ (Hf x) c n1) as [Hn1 _].
  split; [lia|]. intros Q. assert (x = v) as -> by (apply Hv; by eapply quiet_l). destruct (Hw c n1) as [_ H].
  apply H. eapply quiet_r; [exact Q|lia].
Qed.
Lemma steady_const {X} (x : X) : steady (fun _ n => (x, n)).
Proof. exists x. intros c n. split; [done|done]. Qed.
(** A poll: what is done when it falls through is all that counts. *)
Lemma steady_check {X} (x : ctx_error -> X) (m : context -> nat -> X * nat) :
  steady m -> steady (fun c n => match c n with Some e => (x e, S n) | None => m c (S n) end).
Proof.
  intros [v Hm]. exists v. intros c n. destruct (c n) as [e|] eqn:E; cbn [fst snd].
  - split; [lia|]. intros [_ Q]. specialize (Q n). rewrite E in Q. discriminate Q. lia.
  - destruct (Hm c (S n)) as [Hn Hv]. split; [lia|]. intros Q. apply Hv. eapply quiet_r; [exact Q|lia].
Qed.
Lemma steady_ext {X} (m m' : context -> nat -> X * nat) : (forall c n, m' c n = m c n) -> steady m -> steady m'.
Proof. intros E [v H]. exists v. intros c n. rewrite E. apply H. Qed.

Section SteadyG.
Context {R : Type}.

Lemma steady_ret {A} (a : A) : steady (fun _ : context => (mret a : G R A)).
Proof. apply steady_const. Qed.
Lemma steady_greturn {A} (r : R) : steady (fun _ : context => (greturn r : G R A)).
Proof. apply steady_const. Qed.
Lemma steady_poll (r : ctx_error -> R) : steady (fun c => poll c r).
Proof.
  eapply steady_ext; [|exact (steady_check (fun e => inl (r e)) (fun _ n => (inr tt, n)) (steady_const _))].
  intros c n. unfold poll, ctx_Err, mbind, G_bind. by destruct (c n).
Qed.
Lemma steady_bind {A B} (m : context -> G R A) (f : context -> A -> G R B) :
  steady m -> (forall a, steady (fun c => f c a)) -> steady (fun c => m c ≫= f c).
Proof.
  intros Hm Hf. eapply steady_ext; [|exact (steady_seq m (fun c x n => match x with inl r => (inl r, n) | inr a => f c a n end) Hm
    (fun x => match x with inl r => steady_const (inl r) | inr a => Hf a end))].
  intros c n. unfold mbind, G_bind. by destruct (m c n) as [[r|a] n'].
Qed.
Lemma steady_call {A} (m : context -> nat -> A * nat) : steady m -> steady (fun c => (call (m c) : G R A)).
Proof.
  intros Hm. eapply steady_ext; [|exact (steady_seq m (fun _ x n => (inr x, n)) Hm (fun x => steady_const (inr x)))].
  intros c n. unfold call. by destruct (m c n).
Qed.
Lemma steady_grange {S X} (xs : list X) (body : context -> X -> S -> G R S) (s : S) :
  (forall x s, steady (fun c => body c x s)) -> steady (fun c => grange xs (body c) s).
Proof.
  intros Hb. revert s. induction xs as [|x xs IH]; intros s; [apply steady_ret|]. cbn [grange].
  apply (steady_bind (fun c => body c x s) (fun c => grange xs (body c))); [apply Hb|exact IH].
Qed.
Lemma steady_grun (m : context -> G R R) : steady m -> steady (fun c => grun (m c)).
Proof.
  intros Hm. eapply steady_ext; [|exact (steady_seq m (fun _ x n => (match x with inl r => r | inr r => r end, n)) Hm
    (fun x => steady_const _))].
  intros c n. unfold grun. by destruct (m c n) as [[r|r] n'].
Qed.
End SteadyG.

(** Steadiness by the shape of the code. *)
Ltac steadily := repeat first
  [ assumption | apply steady_ret | apply steady_greturn | apply steady_poll | apply steady_const
  | match goal with |- steady (fun c => grun _) => refine (steady_grun _ _) end
  | match goal with |- steady (fun c => call _) => refine (steady_call _ _) end
  | match goal with |- steady (fun c => grange _ _ _) => refine (steady_grange _ _ _ _); intros end
  | match goal with |- steady (fun c => _ ≫= _) => refine (steady_bind _ _ _ _); [|intros] end
  | match goal with |- steady (fun c => match ?x with _ => _ end) => destruct x end
  | solve [eauto with kordn] ].

(** ** Booleans over lists *)

Lemma existsb_negb {A} (p : A -> bool) l :
  existsb (fun x => negb (p x)) l = negb (forallb p l).
Proof. induction l as [|x l IH]; simpl; [done|]. rewrite IH. by destruct (p x). Qed.

Lemma existsb_forallb {A} (p : A -> bool) l :
  existsb p l = negb (forallb (fun x => negb (p x)) l).
Proof. induction l as [|x l IH]; simpl; [done|]. rewrite IH. by destruct (p x). Qed.

Lemma existsb_elem {A} (p : A -> bool) l : existsb p l = true <-> exists x, x ∈ l /\ p x = true.
Proof.
  rewrite existsb_exists. by setoid_rewrite <-list_elem_of_In.
Qed.

Lemma existsb_elem_false {A} (p : A -> bool) l :
  existsb p l = false <-> forall x, x ∈ l -> p x = false.
Proof.
  rewrite <-not_true_iff_false, existsb_elem. split.
  - intros H x Hx. apply not_true_iff_false. intros E. apply H. by exists x.
  - intros H (x & Hx & E). by rewrite H in E.
Qed.

(** Two lists with the same images have the same [existsb]. *)
Lemma existsb_matching {A B} (p : A -> bool) (q : B -> bool) l m :
  (forall x, x ∈ l -> exists y, y ∈ m /\ q y = p x) ->
  (forall y, y ∈ m -> exists x, x ∈ l /\ p x = q y) ->
  existsb p l = existsb q m.
Proof.
  intros H1 H2. apply eq_iff_eq_true. rewrite !existsb_elem. split.
  - intros (x & Hx & E). destruct (H1 x Hx) as (y & Hy & E'). exists y. by rewrite E'.
  - intros (y & Hy & E). destruct (H2 y Hy) as (x & Hx & E'). exists x. by rewrite E'.
Qed.

Lemma forallb_fmap {A B} (f : A -> B) (p : B -> bool) l :
  forallb p (f <$> l) = forallb (fun x => p (f x)) l.
Proof. induction l as [|x l IH]; simpl; [done|]. by rewrite <-IH. Qed.

Lemma forallb_ext_in {A} (p q : A -> bool) l :
  (forall x, x ∈ l -> p x = q x) -> forallb p l = forallb q l.
Proof.
  intros H. induction l as [|x l IH]; simpl; [done|].
  rewrite H, IH; [done| |left]. intros y Hy. apply H. by right.
Qed.

Lemma forallb_Permutation {A} (p : A -> bool) l1 l2 :
  Permutation l1 l2 -> forallb p l1 = forallb p l2.
Proof.
  induction 1 as [|x l1 l2 _ IH|x y l|l1 l2 l3 _ IH1 _ IH2]; simpl; try congruence.
  by rewrite !andb_assoc, (andb_comm (p x)).
Qed.

(** ** Filters and duplicate-free images *)

Lemma filter_fmap {A B} (f : A -> B) (P : B -> Prop) `{forall x, Decision (P x)} (l : list A) :
  filter P (f <$> l) = f <$> filter (fun x => P (f x)) l.
Proof.
  induction l as [|x l IH]; [done|]. rewrite fmap_cons, !filter_cons.
  destruct (decide (P (f x))); rewrite ?fmap_cons; congruence.
Qed.

Lemma NoDup_fmap_inj {A B} (f : A -> B) (l : list A) x y :
  NoDup (f <$> l) -> x ∈ l -> y ∈ l -> f x = f y -> x = y.
Proof.
  induction l as [|a l IH]; intros Hn Hx Hy E; [by apply not_elem_of_nil in Hx|].
  rewrite fmap_cons in Hn. apply NoDup_cons in Hn as [Ha Hn].
  apply elem_of_cons in Hx as [->|Hx]; apply elem_of_cons in Hy as [->|Hy]; auto.
  - destruct Ha. rewrite E. by apply list_elem_of_fmap_2.
  - destruct Ha. rewrite <-E. by apply list_elem_of_fmap_2.
Qed.

Lemma NoDup_filter_fmap {A B} (f : A -> B) (P : A -> Prop) `{forall x, Decision (P x)} (l : list A) :
  NoDup (f <$> l) -> NoDup (f <$> filter P l).
Proof.
  induction l as [|x l IH]; [done|]. rewrite fmap_cons, filter_cons.
  intros [Hx Hn]%NoDup_cons. case_decide; [|auto].
  rewrite fmap_cons. apply NoDup_cons. split; [|auto].
  intros (y & E & [_ Hy]%list_elem_of_filter)%list_elem_of_fmap. destruct Hx. rewrite E.
  by apply list_elem_of_fmap_2.
Qed.

Lemma filter_ext_in {A} (P Q : A -> Prop) `{forall x, Decision (P x)}
    `{forall x, Decision (Q x)} (l : list A) :
  (forall x, x ∈ l -> P x <-> Q x) -> filter P l = filter Q l.
Proof.
  induction l as [|x l IH]; intros E; [done|]. rewrite !filter_cons.
  rewrite IH by (intros y Hy; apply E; by right).
  pose proof (E x ltac:(left)). repeat case_decide; tauto || done.
Qed.

(** Equal images under [f] match up the images under a [g] that [f] determines. *)
Lemma fmap_Permutation_via {A B C} (f : A -> B) (g : A -> C) (l1 l2 : list A) :
  (forall x y, x ∈ l1 -> y ∈ l2 -> f x = f y -> g x = g y) ->
  Permutation (f <$> l1) (f <$> l2) -> Permutation (g <$> l1) (g <$> l2).
Proof.
  revert l2. induction l1 as [|x l1 IH]; intros l2 Hfg Hp.
  - rewrite fmap_nil in Hp. apply Permutation_nil in Hp. by apply fmap_nil_inv in Hp as ->.
  - rewrite fmap_cons in Hp. assert (f x ∈ f <$> l2) as Hx by (rewrite <-Hp; left).
    apply list_elem_of_fmap in Hx as (y & E & Hy).
    apply elem_of_Permutation in Hy as (l2' & Hl2). rewrite Hl2, !fmap_cons in *.
    rewrite E in Hp. apply (Permutation_cons_inv (a := f y)) in Hp.
    rewrite (Hfg x y); [|by left|rewrite Hl2; by left|done]. f_equiv. apply IH; [|done].
    intros x' y' Hx' Hy'. apply Hfg; [by right|]. rewrite Hl2. by right.
Qed.

(** ** Tactics *)

Create HintDb kordn.
#[export] Hint Rewrite @reject_None @reject_match_None eqb_true_str eqb_false_str
  andb_true_iff andb_false_iff orb_true_iff orb_false_iff negb_true_iff negb_false_iff
  : kordn.

Ltac bool_hyps :=
  repeat match goal with
  | H : (_ && _)%bool = true |- _ => apply andb_true_iff in H as [? ?]
  | H : (_ || _)%bool = false |- _ => apply orb_false_iff in H as [? ?]
  | H : negb _ = true |- _ => apply negb_true_iff in H
  | H : negb _ = false |- _ => apply negb_false_iff in H
  end.

(** Case analysis on the first [if] of the goal or of a hypothesis. *)
Ltac case_if :=
  match goal with
  | |- context [if ?b then _ else _] => destruct b eqn:?
  | H : context [if ?b then _ else _] |- _ => destruct b eqn:?
  end.
