(* ===== verification/GoStrings.v ===== *)
(** * The parts of Go's string, UTF-8 and Unicode packages the program uses

    A Go [string] is a sequence of bytes: Rocq's [string] of 8-bit [ascii].
    Lengths and bytes are [Z].  [decode] is the iteration of [range s]
    ([unicode/utf8] decoding: an invalid byte yields U+FFFD and width 1).
    Behaviour that depends on Go's generated Unicode tables outside ASCII goes
    through the class [UnicodeTables]; ASCII behaviour is exact. *)

From Stdlib Require Import ZArith Lia Ascii.
From stdpp Require Import sorting base gmap strings list.
From S2P Require Import Prelude.

Open Scope Z_scope.

(** ** Bytes *)

Definition ord (a : ascii) : Z := Z.of_N (N_of_ascii a).
Arguments ord _%_char_scope.
Definition chr (z : Z) : ascii := ascii_of_N (Z.to_N z).

Definition slen (s : string) : Z := Z.of_nat (String.length s).

(** [s[i]]; [None] is the run-time panic. *)
Definition byte_at (s : string) (i : Z) : option Z :=
  if i <? 0 then None else ord <$> String.get (Z.to_nat i) s.

(** The bytes of a string ([[]byte(s)]). *)
Fixpoint bytes (s : string) : list Z :=
  match s with
  | EmptyString => []
  | String c s => ord c :: bytes s
  end.

Fixpoint bytes_all (p : Z -> bool) (s : string) : bool :=
  match s with
  | EmptyString => true
  | String c s => p (ord c) && bytes_all p s
  end.

Fixpoint bytes_any (p : Z -> bool) (s : string) : bool :=
  match s with
  | EmptyString => false
  | String c s => p (ord c) || bytes_any p s
  end.

Fixpoint map_bytes (f : Z -> Z) (s : string) : string :=
  match s with
  | EmptyString => EmptyString
  | String c s => String (chr (f (ord c))) (map_bytes f s)
  end.

Definition between (lo hi r : Z) : bool := (lo <=? r) && (r <=? hi).
Definition is_lower (r : Z) : bool := between (ord "a") (ord "z") r.
Definition is_upper (r : Z) : bool := between (ord "A") (ord "Z") r.
Definition is_digit (r : Z) : bool := between (ord "0") (ord "9") r.
Definition is_alnum (r : Z) : bool := is_lower r || is_upper r || is_digit r.

(** Membership of a byte or rune in an ASCII set given as a string. *)
Definition in_set (cs : string) (r : Z) : bool := bytes_any (Z.eqb r) cs.

(** ** strings: searching and cutting *)

Definition HasPrefix (s p : string) : bool := String.prefix p s.
Definition rev_string (s : string) : string :=
  String.string_of_list_ascii (rev (String.list_ascii_of_string s)).
Definition HasSuffix (s p : string) : bool :=
  String.prefix (rev_string p) (rev_string s).

Fixpoint str_drop (n : nat) (s : string) : string :=
  match n, s with
  | O, _ => s
  | S n, EmptyString => EmptyString
  | S n, String _ s => str_drop n s
  end.
Fixpoint str_take (n : nat) (s : string) : string :=
  match n, s with
  | O, _ => EmptyString
  | S n, EmptyString => EmptyString
  | S n, String c s => String c (str_take n s)
  end.

Definition TrimPrefix (s p : string) : string :=
  if HasPrefix s p then str_drop (String.length p) s else s.
Definition TrimSuffix (s p : string) : string :=
  if HasSuffix s p then str_take (String.length s - String.length p) s else s.

(** [strings.IndexByte]: -1 when absent. *)
Fixpoint index_byte (s : string) (c : Z) : option nat :=
  match s with
  | EmptyString => None
  | String a s => if ord a =? c then Some O else S <$> index_byte s c
  end.
Definition IndexByte (s : string) (c : Z) : Z :=
  match index_byte s c with Some n => Z.of_nat n | None => -1 end.

(** [strings.Count] with a one-byte separator. *)
Fixpoint count_byte (s : string) (c : Z) : Z :=
  match s with
  | EmptyString => 0
  | String a s => (if ord a =? c then 1 else 0) + count_byte s c
  end.

(** [strings.Split] with a one-byte separator. *)
Fixpoint split_byte (sep : Z) (s : string) : list string :=
  match s with
  | EmptyString => [EmptyString]
  | String a s =>
    if ord a =? sep then EmptyString :: split_byte sep s
    else match split_byte sep s with
         | p :: ps => String a p :: ps
         | [] => [String a EmptyString]
         end
  end.

(** [strings.SplitN(s, sep, S n)] with a one-byte separator. *)
Fixpoint splitn_byte (sep : Z) (n : nat) (s : string) : list string :=
  match n with
  | O => [s]
  | S n' =>
    match index_byte s sep with
    | None => [s]
    | Some i => str_take i s :: splitn_byte sep n' (str_drop (S i) s)
    end
  end.
(** [strings.SplitN(s, sep, n)] for [n > 0]. *)
Definition SplitN (s : string) (sep : ascii) (n : nat) : list string :=
  splitn_byte (ord sep) (n - 1) s.
Arguments SplitN _%_string_scope _%_char_scope _%_nat_scope.
Definition Split (s : string) (sep : ascii) : list string := split_byte (ord sep) s.
Arguments Split _%_string_scope _%_char_scope.

Fixpoint Join (xs : list string) (sep : string) : string :=
  match xs with
  | [] => EmptyString
  | [x] => x
  | x :: xs => (x ++ sep ++ Join xs sep)%string
  end.

(** [strings.ContainsAny(s, chars)] with ASCII [chars]. *)
Definition ContainsAny (s chars : string) : bool := bytes_any (in_set chars) s.

Fixpoint Contains (s sub : string) : bool :=
  HasPrefix s sub ||
  match s with
  | EmptyString => false
  | String _ s => Contains s sub
  end.

(** [strings.Index]. *)
Fixpoint Index (s sub : string) : option nat :=
  if HasPrefix s sub then Some 0%nat
  else match s with EmptyString => None | String _ s => S <$> Index s sub end.
(** [strings.LastIndexAny] of one-byte characters. *)
Fixpoint LastIndexAny (s chars : string) : option nat :=
  match s with
  | EmptyString => None
  | String c s =>
    match LastIndexAny s chars with
    | Some k => Some (S k)
    | None => if in_set chars (ord c) then Some 0%nat else None
    end
  end.
(** [strings.LastIndexByte]. *)
Definition LastIndexByte (s : string) (c : ascii) : option nat := LastIndexAny s (String c EmptyString).
(** [strings.Cut] at a byte. *)
Definition Cut (s : string) (sep : ascii) : string * string * bool :=
  match index_byte s (ord sep) with
  | Some i => (str_take i s, str_drop (S i) s, true)
  | None => (s, EmptyString, false)
  end.

(** [strings.Trim] with an ASCII cutset. *)
Fixpoint trim_left_set (cs s : string) : string :=
  match s with
  | EmptyString => EmptyString
  | String a s' => if in_set cs (ord a) then trim_left_set cs s' else s
  end.
Definition Trim (s cs : string) : string :=
  rev_string (trim_left_set cs (rev_string (trim_left_set cs s))).

(** ** UTF-8 *)

Definition RuneError : Z := 65533.

Definition is_cont (b : Z) : bool := between 128 191 b.

Definition two_ok (b0 b1 : Z) : bool := between 194 223 b0 && is_cont b1.
Definition three_ok (b0 b1 b2 : Z) : bool :=
  (((b0 =? 224) && between 160 191 b1) ||
   ((between 225 236 b0 || between 238 239 b0) && is_cont b1) ||
   ((b0 =? 237) && between 128 159 b1)) && is_cont b2.
Definition four_ok (b0 b1 b2 b3 : Z) : bool :=
  (((b0 =? 240) && between 144 191 b1) ||
   (between 241 243 b0 && is_cont b1) ||
   ((b0 =? 244) && between 128 143 b1)) && is_cont b2 && is_cont b3.

(** The runes of [range s], each with its width in bytes. *)
Fixpoint decode (s : string) : list (Z * Z) :=
  match s with
  | EmptyString => []
  | String c0 s1 =>
    let b0 := ord c0 in
    if b0 <? 128 then (b0, 1) :: decode s1 else
    match s1 with
    | EmptyString => [(RuneError, 1)]
    | String c1 s2 =>
      let b1 := ord c1 in
      if two_ok b0 b1 then ((b0 - 192) * 64 + (b1 - 128), 2) :: decode s2 else
      match s2 with
      | EmptyString => (RuneError, 1) :: decode s1
      | String c2 s3 =>
        let b2 := ord c2 in
        if three_ok b0 b1 b2
        then ((b0 - 224) * 4096 + (b1 - 128) * 64 + (b2 - 128), 3) :: decode s3 else
        match s3 with
        | EmptyString => (RuneError, 1) :: decode s1
        | String c3 s4 =>
          let b3 := ord c3 in
          if four_ok b0 b1 b2 b3
          then ((b0 - 240) * 262144 + (b1 - 128) * 4096 + (b2 - 128) * 64 + (b3 - 128), 4)
                 :: decode s4
          else (RuneError, 1) :: decode s1
        end
      end
    end
  end.

Definition runes (s : string) : list Z := (decode s).*1.

(** [utf8.ValidString]. *)
Definition ValidString (s : string) : bool :=
  forallb (fun rw => negb ((rw.1 =? RuneError) && (rw.2 =? 1))) (decode s).

(** [utf8.AppendRune]: surrogates and out-of-range runes become U+FFFD. *)
Definition encode_rune (r : Z) : string :=
  let cont z := chr (128 + z mod 64) in
  let three r := String (chr (224 + r / 4096))
                   (String (cont (r / 64)) (String (cont r) EmptyString)) in
  if (0 <=? r) && (r <? 128) then String (chr r) EmptyString
  else if (128 <=? r) && (r <? 2048)
  then String (chr (192 + r / 64)) (String (cont r) EmptyString)
  else if (r <? 0) || (1114111 <? r) || between 55296 57343 r then three RuneError
  else if r <? 65536 then three r
  else String (chr (240 + r / 262144))
         (String (cont (r / 4096)) (String (cont (r / 64)) (String (cont r) EmptyString))).

(** ** unicode *)

(** [unicode.IsSpace] and [unicode.IsControl] are closed sets. *)
Definition IsSpace (r : Z) : bool :=
  between 9 13 r || (r =? 32) || (r =? 133) || (r =? 160) || (r =? 5760) ||
  between 8192 8202 r || (r =? 8232) || (r =? 8233) || (r =? 8239) ||
  (r =? 8287) || (r =? 12288).
Definition IsControl (r : Z) : bool := between 0 31 r || between 127 159 r.

(** Go's generated Unicode tables, consulted only for runes outside ASCII. *)
Class UnicodeTables := {
  tbl_lower : Z -> Z;
  tbl_upper : Z -> Z;
  tbl_letter : Z -> bool;
  tbl_digit : Z -> bool;
  (** same orbit of [unicode.SimpleFold] *)
  tbl_fold : Z -> Z -> bool;
}.

(** A table that knows no letter outside ASCII, for concrete runs. *)
Definition ascii_tables : UnicodeTables :=
  {| tbl_lower := fun r => r; tbl_upper := fun r => r;
     tbl_letter := fun _ => false; tbl_digit := fun _ => false;
     tbl_fold := Z.eqb |}.

Definition ascii_lower (r : Z) : Z := if is_upper r then r + 32 else r.
Definition ascii_upper (r : Z) : Z := if is_lower r then r - 32 else r.

Definition is_ascii (s : string) : bool := bytes_all (fun b => b <? 128) s.

Section Unicode.
Context `{U : UnicodeTables}.

Definition rune_lower (r : Z) : Z := if r <? 128 then ascii_lower r else tbl_lower r.
Definition rune_upper (r : Z) : Z := if r <? 128 then ascii_upper r else tbl_upper r.
Definition IsLetter (r : Z) : bool :=
  if r <? 128 then is_lower r || is_upper r else tbl_letter r.
Definition IsDigit (r : Z) : bool :=
  if r <? 256 then is_digit r else tbl_digit r.

(** [strings.Map]: negative results drop the rune. *)
Fixpoint map_runes (f : Z -> Z) (rs : list Z) : string :=
  match rs with
  | [] => EmptyString
  | r :: rs => let r' := f r in
    if r' <? 0 then map_runes f rs else (encode_rune r' ++ map_runes f rs)%string
  end.

Definition ToLower (s : string) : string :=
  if is_ascii s then map_bytes ascii_lower s else map_runes rune_lower (runes s).
Definition ToUpper (s : string) : string :=
  if is_ascii s then map_bytes ascii_upper s else map_runes rune_upper (runes s).

(** [strings.EqualFold]: rune-wise equality under simple case folding. *)
Definition fold_eq (a b : Z) : bool :=
  (a =? b) ||
  if (a <? 128) && (b <? 128) then ascii_lower a =? ascii_lower b else tbl_fold a b.
Fixpoint list_eqb2 (p : Z -> Z -> bool) (xs ys : list Z) : bool :=
  match xs, ys with
  | [], [] => true
  | x :: xs, y :: ys => p x y && list_eqb2 p xs ys
  | _, _ => false
  end.
Definition EqualFold (s t : string) : bool := list_eqb2 fold_eq (runes s) (runes t).
End Unicode.

(** ** Trimming of white space *)

(** [strings.TrimSpace(s) == ""]: every rune is white space. *)
Definition blank (s : string) : bool := forallb IsSpace (runes s).

(** [strings.TrimSpace]. *)
Fixpoint trim_left_space (rws : list (Z * Z)) (s : string) : string :=
  match rws with
  | [] => s
  | (r, w) :: rws => if IsSpace r then trim_left_space rws (str_drop (Z.to_nat w) s) else s
  end.
(** The length of the text up to the last rune that is not white space. *)
Fixpoint content_length (rws : list (Z * Z)) (pos best : Z) : Z :=
  match rws with
  | [] => best
  | (r, w) :: rws => content_length rws (pos + w) (if IsSpace r then best else pos + w)
  end.
Definition TrimSpace (s : string) : string :=
  let s := trim_left_space (decode s) s in
  str_take (Z.to_nat (content_length (decode s) 0 0)) s.

(** [strings.Fields], over the decoded runes and the text they came from. *)
Fixpoint fields_loop (rws : list (Z * Z)) (s cur : string) : list string :=
  match rws with
  | [] => if (cur =? "")%string then [] else [cur]
  | (r, w) :: rws =>
    let rest := str_drop (Z.to_nat w) s in
    if IsSpace r
    then (if (cur =? "")%string then [] else [cur]) ++ fields_loop rws rest EmptyString
    else fields_loop rws rest (cur ++ str_take (Z.to_nat w) s)%string
  end.
Definition Fields (s : string) : list string := fields_loop (decode s) s EmptyString.

(** [url.PathUnescape]; [None] is an escape error. *)
Definition unhex (c : Z) : option Z :=
  if is_digit c then Some (c - ord "0")
  else if between (ord "a") (ord "f") c then Some (c - ord "a" + 10)
  else if between (ord "A") (ord "F") c then Some (c - ord "A" + 10)
  else None.
Fixpoint PathUnescape (s : string) : option string :=
  match s with
  | EmptyString => Some EmptyString
  | String c s1 =>
    if ord c =? ord "%" then
      match s1 with
      | String h (String l s2) =>
        match unhex (ord h), unhex (ord l) with
        | Some h, Some l => String (chr (h * 16 + l)) <$> PathUnescape s2
        | _, _ => None
        end
      | _ => None
      end
    else String c <$> PathUnescape s1
  end.

(** ** sort.Strings and decimal text *)

Definition str_leb (s t : string) : bool := String.leb s t.
Definition str_ltb (s t : string) : bool := String.ltb s t.

Section Sort.
Context {A : Type} (leb : A -> A -> bool).
Fixpoint insert_sorted (x : A) (l : list A) : list A :=
  match l with
  | [] => [x]
  | y :: l' => if leb x y then x :: l else y :: insert_sorted x l'
  end.
Definition sort_by (l : list A) : list A := foldr insert_sorted [] l.
End Sort.

Definition sort_strings : list string -> list string := sort_by str_leb.

(** [strconv.Itoa] on non-negative values. *)
Fixpoint itoa_fuel (fuel : nat) (n : Z) (acc : string) : string :=
  match fuel with
  | O => acc
  | S f =>
    let acc' := String (chr (48 + n mod 10)) acc in
    if n <? 10 then acc' else itoa_fuel f (n / 10) acc'
  end.
Definition Itoa (n : Z) : string := itoa_fuel (S (Z.to_nat (Z.log2 n))) n EmptyString.

(** ** Lemmas: bytes *)

(** Closed byte constants, for [lia]. *)
Ltac ords :=
  repeat match goal with
  | |- context [ord (Ascii ?a ?b ?c ?d ?e ?f ?g ?h)] =>
    let x := constr:(ord (Ascii a b c d e f g h)) in
    let v := eval vm_compute in x in change x with v
  | H : context [ord (Ascii ?a ?b ?c ?d ?e ?f ?g ?h)] |- _ =>
    let x := constr:(ord (Ascii a b c d e f g h)) in
    let v := eval vm_compute in x in change x with v in H
  end.
Ltac zbool :=
  unfold two_ok, three_ok, four_ok in *; unfold is_alnum in *;
  unfold is_lower, is_upper, is_digit, is_cont in *; unfold between in *;
  ords; lia.

Lemma ord_range a : 0 <= ord a < 256.
Proof.
  unfold ord. pose proof (N_ascii_bounded a). lia.
Qed.

Lemma ord_inj a b : ord a = ord b -> a = b.
Proof.
  unfold ord. intros H. apply N2Z.inj in H.
  rewrite <-(ascii_N_embedding a), <-(ascii_N_embedding b). by rewrite H.
Qed.

Lemma ord_chr z : 0 <= z < 256 -> ord (chr z) = z.
Proof.
  intros H. unfold ord, chr. rewrite N_ascii_embedding; lia.
Qed.

Lemma chr_ord a : chr (ord a) = a.
Proof. apply ord_inj, ord_chr, ord_range. Qed.

Lemma bytes_all_app p s t :
  bytes_all p (s ++ t) = bytes_all p s && bytes_all p t.
Proof. induction s as [|c s IH]; simpl; [done|]. by rewrite IH, andb_assoc. Qed.

Lemma bytes_any_app p s t :
  bytes_any p (s ++ t) = bytes_any p s || bytes_any p t.
Proof. induction s as [|c s IH]; simpl; [done|]. by rewrite IH, orb_assoc. Qed.

Lemma bytes_all_weaken (p q : Z -> bool) s :
  (forall r, 0 <= r < 256 -> p r = true -> q r = true) ->
  bytes_all p s = true -> bytes_all q s = true.
Proof.
  intros Hpq. induction s as [|c s IH]; simpl; [done|].
  intros H. bool_hyps. rewrite (Hpq (ord c)), IH; auto using ord_range.
Qed.

Lemma bytes_any_all p s : bytes_any p s = negb (bytes_all (fun r => negb (p r)) s).
Proof.
  induction s as [|c s IH]; simpl; [done|].
  rewrite IH. destruct (p (ord c)), (bytes_all _ s); done.
Qed.

Lemma map_bytes_length f s : String.length (map_bytes f s) = String.length s.
Proof. induction s; simpl; auto. Qed.

Lemma map_bytes_id f s :
  (forall r, 0 <= r < 256 -> f r = r) -> map_bytes f s = s.
Proof.
  intros Hf. induction s as [|c s IH]; simpl; [done|].
  by rewrite Hf, chr_ord, IH by apply ord_range.
Qed.

Lemma bytes_length s : List.length (bytes s) = String.length s.
Proof. induction s; simpl; auto. Qed.

Lemma slen_bytes s : slen s = Z.of_nat (List.length (bytes s)).
Proof. by rewrite bytes_length. Qed.

Lemma bytes_app s t : bytes (s ++ t) = bytes s ++ bytes t.
Proof. induction s as [|c s IH]; simpl; [done|]. by rewrite IH. Qed.

Lemma bytes_inj s t : bytes s = bytes t -> s = t.
Proof.
  revert t. induction s as [|c s IH]; intros [|d t] H; simpl in H; try done.
  injection H as H1 H2. by rewrite (ord_inj _ _ H1), (IH _ H2).
Qed.

Lemma bytes_range s : Forall (fun b => 0 <= b < 256) (bytes s).
Proof. induction s; simpl; constructor; auto using ord_range. Qed.

Lemma bytes_all_forallb p s : bytes_all p s = forallb p (bytes s).
Proof. induction s as [|c s IH]; simpl; [done|]. by rewrite IH. Qed.

Lemma bytes_map_bytes f s :
  (forall r, 0 <= r < 256 -> 0 <= f r < 256) -> bytes (map_bytes f s) = f <$> bytes s.
Proof.
  intros Hf. induction s as [|c s IH]; simpl; [done|].
  by rewrite ord_chr, IH by apply Hf, ord_range.
Qed.

Lemma slen_nonneg s : 0 <= slen s.
Proof. unfold slen. lia. Qed.

Lemma str_app_assoc (a b c : string) : ((a ++ b) ++ c)%string = (a ++ b ++ c)%string.
Proof.
  induction a as [|x a IH]; [done|].
  change (String x ((a ++ b) ++ c) = String x (a ++ b ++ c))%string. by rewrite IH.
Qed.

Lemma str_app_nil_r (a : string) : (a ++ "")%string = a.
Proof.
  induction a as [|x a IH]; [done|].
  change (String x (a ++ "") = String x a)%string. by rewrite IH.
Qed.

Lemma length_append s t :
  String.length (s ++ t) = (String.length s + String.length t)%nat.
Proof. induction s as [|c s IH]; simpl; [done|]. by rewrite IH. Qed.

Lemma slen_app s t : slen (s ++ t) = slen s + slen t.
Proof. unfold slen. rewrite length_append. lia. Qed.

(** ** Lemmas: UTF-8 *)

Lemma string_len_ind (P : string -> Prop) :
  (forall s, (forall t, (String.length t < String.length s)%nat -> P t) -> P s) ->
  forall s, P s.
Proof.
  intros H s. remember (String.length s) as n eqn:En.
  revert s En. induction (lt_wf n) as [n _ IH]. intros s ->.
  apply H. intros t Ht. by apply (IH _ Ht).
Qed.

Lemma decode_ascii_cons c s :
  ord c < 128 -> decode (String c s) = (ord c, 1) :: decode s.
Proof. intros H. simpl. by rewrite (proj2 (Z.ltb_lt _ _) H). Qed.

Lemma decode_head_wide c s :
  128 <= ord c -> exists r w l, decode (String c s) = (r, w) :: l /\ 128 <= r.
Proof.
  intros H. cbn [decode].
  destruct (Z.ltb_spec (ord c) 128); [lia|].
  destruct s as [|c1 s2]; [by eexists _, _, _|].
  destruct (two_ok (ord c) (ord c1)) eqn:E2; [eexists _, _, _; split; [done|zbool]|].
  destruct s2 as [|c2 s3]; [by eexists _, _, _|].
  destruct (three_ok (ord c) (ord c1) (ord c2)) eqn:E3;
    [eexists _, _, _; split; [done|zbool]|].
  destruct s3 as [|c3 s4]; [by eexists _, _, _|].
  destruct (four_ok _ _ _ _) eqn:E4;
    [eexists _, _, _; split; [done|zbool]|by eexists _, _, _].
Qed.

(** A rune test that only ASCII runes pass is a test of every byte. *)
Lemma runes_all_ascii (p : Z -> bool) s :
  (forall r, 128 <= r -> p r = false) ->
  forallb p (runes s) = bytes_all p s.
Proof.
  intros Hp. induction s as [|c s IH]; [done|].
  destruct (Z.ltb_spec (ord c) 128) as [Hc|Hc].
  - unfold runes. rewrite decode_ascii_cons by done.
    cbn [fmap list_fmap fst forallb bytes_all]. by rewrite <-IH.
  - destruct (decode_head_wide c s Hc) as (r & w & l & E & Hr).
    unfold runes. rewrite E. cbn [fmap list_fmap fst forallb bytes_all].
    by rewrite (Hp r Hr), (Hp (ord c) Hc).
Qed.

Lemma runes_ascii_cons c s : ord c < 128 -> runes (String c s) = ord c :: runes s.
Proof. intros H. unfold runes. by rewrite decode_ascii_cons. Qed.

Lemma is_ascii_valid s : is_ascii s = true -> ValidString s = true.
Proof.
  unfold is_ascii, ValidString. induction s as [|c s IH]; [done|].
  cbn [bytes_all]. intros H. bool_hyps.
  rewrite decode_ascii_cons by lia. cbn [forallb].
  rewrite IH by done. unfold RuneError. cbn [fst snd]. lia.
Qed.

Lemma is_ascii_runes_all p s :
  is_ascii s = true -> forallb p (runes s) = bytes_all p s.
Proof.
  unfold is_ascii. induction s as [|c s IH]; [done|].
  cbn [bytes_all]. intros H. bool_hyps.
  rewrite runes_ascii_cons by lia. cbn [forallb]. by rewrite IH.
Qed.

(** ** Lemmas: order and sorting of strings *)

Lemma ascii_compare_ord a b : Ascii.compare a b = Z.compare (ord a) (ord b).
Proof. unfold Ascii.compare, ord. by rewrite N2Z.inj_compare. Qed.

Lemma str_leb_cons a s b t :
  str_leb (String a s) (String b t)
  = if ord a =? ord b then str_leb s t else ord a <? ord b.
Proof.
  unfold str_leb, String.leb. cbn [String.compare].
  rewrite ascii_compare_ord.
  destruct (Z.compare_spec (ord a) (ord b)) as [->|H|H].
  - by rewrite Z.eqb_refl.
  - destruct (Z.eqb_spec (ord a) (ord b)); [lia|].
    symmetry. by apply Z.ltb_lt.
  - destruct (Z.eqb_spec (ord a) (ord b)); [lia|].
    symmetry. by apply Z.ltb_ge, Z.lt_le_incl.
Qed.

Lemma str_leb_trans s t u : str_leb s t = true -> str_leb t u = true -> str_leb s u = true.
Proof.
  revert t u. induction s as [|a s IH]; intros t u.
  - by destruct u.
  - destruct t as [|b t]; [done|]. destruct u as [|c u]; [done|].
    rewrite !str_leb_cons.
    destruct (Z.eqb_spec (ord a) (ord b)) as [Eab|];
      destruct (Z.eqb_spec (ord b) (ord c)) as [Ebc|];
      destruct (Z.eqb_spec (ord a) (ord c)) as [Eac|]; try lia.
    apply IH.
Qed.

Lemma str_leb_total s t : str_leb s t = true \/ str_leb t s = true.
Proof. apply String.leb_total. Qed.

Lemma str_leb_antisym s t : str_leb s t = true -> str_leb t s = true -> s = t.
Proof. apply String.leb_antisym. Qed.

Section SortFacts.
Context {A : Type} (leb : A -> A -> bool).
Hypothesis leb_total : forall x y, leb x y = true \/ leb y x = true.
Hypothesis leb_trans : forall x y z, leb x y = true -> leb y z = true -> leb x z = true.

Lemma insert_sorted_perm x l : Permutation (insert_sorted leb x l) (x :: l).
Proof.
  induction l as [|y l IH]; simpl; [done|].
  case_if; [done|]. rewrite IH. apply perm_swap.
Qed.

Lemma sort_by_perm l : Permutation (sort_by leb l) l.
Proof.
  induction l as [|x l IH]; [done|].
  change (sort_by leb (x :: l)) with (insert_sorted leb x (sort_by leb l)).
  by rewrite insert_sorted_perm, IH.
Qed.

Lemma insert_sorted_sorted x l :
  StronglySorted (fun a b => leb a b = true) l ->
  StronglySorted (fun a b => leb a b = true) (insert_sorted leb x l).
Proof.
  induction 1 as [|y l Hs IH Hall]; simpl; [by repeat constructor|].
  case_if.
  - constructor; [by constructor|]. constructor; [done|].
    eapply Forall_impl; [exact Hall|]. intros z Hz. eauto.
  - constructor; [done|]. rewrite insert_sorted_perm.
    constructor; [|done]. destruct (leb_total y x); congruence.
Qed.

Lemma sort_by_sorted l : StronglySorted (fun a b => leb a b = true) (sort_by leb l).
Proof.
  induction l as [|x l IH]; [constructor|]. by apply insert_sorted_sorted.
Qed.

Lemma sort_by_id l :
  StronglySorted (fun a b => leb a b = true) l -> sort_by leb l = l.
Proof.
  induction 1 as [|x l Hs IH Hall]; [done|].
  change (sort_by leb (x :: l)) with (insert_sorted leb x (sort_by leb l)).
  rewrite IH. destruct l as [|y l]; [done|]. simpl.
  by rewrite (Forall_inv Hall).
Qed.

Hypothesis leb_antisym : forall x y, leb x y = true -> leb y x = true -> x = y.

Lemma sort_by_unique l1 l2 :
  Permutation l1 l2 -> sort_by leb l1 = sort_by leb l2.
Proof.
  intros Hp. eapply (StronglySorted_unique_strong (fun a b => leb a b = true)).
  - intros x y _ _. apply leb_antisym.
  - apply sort_by_sorted.
  - apply sort_by_sorted.
  - by rewrite !sort_by_perm.
Qed.
End SortFacts.

Lemma sort_strings_perm l : Permutation (sort_strings l) l.
Proof. apply sort_by_perm. Qed.

Lemma sort_strings_unique l1 l2 :
  Permutation l1 l2 -> sort_strings l1 = sort_strings l2.
Proof.
  apply sort_by_unique; [apply str_leb_total|apply str_leb_trans|apply str_leb_antisym].
Qed.

Lemma sort_strings_sorted l :
  StronglySorted (fun a b => str_leb a b = true) (sort_strings l).
Proof. apply sort_by_sorted; [apply str_leb_total|apply str_leb_trans]. Qed.

Lemma sort_strings_length l : List.length (sort_strings l) = List.length l.
Proof. apply Permutation_length, sort_strings_perm. Qed.

(** ** Lemmas: searching *)

Lemma index_byte_lt s c n : index_byte s c = Some n -> (n < String.length s)%nat.
Proof.
  revert n. induction s as [|a s IH]; intros n; cbn [index_byte]; [done|].
  case_if; [intros [= <-]; simpl; lia|].
  destruct (index_byte s c) as [m|]; [|done]. intros [= <-].
  specialize (IH m eq_refl). simpl. lia.
Qed.

Lemma index_byte_split s c n :
  index_byte s c = Some n ->
  exists l a r, s = (l ++ String a r)%string /\ String.length l = n /\ ord a = c /\
    count_byte l c = 0.
Proof.
  revert n. induction s as [|b s IH]; intros n; simpl; [done|].
  destruct (Z.eqb_spec (ord b) c) as [E|E].
  - intros [= <-]. by exists EmptyString, b, s.
  - destruct (index_byte s c) as [m|]; [|done]. intros [= <-].
    destruct (IH m eq_refl) as (l & a & r & -> & Hl & Ha & Hc).
    exists (String b l), a, r. simpl. rewrite Hl, Hc.
    destruct (Z.eqb_spec (ord b) c); done.
Qed.

Lemma count_byte_app s t c : count_byte (s ++ t) c = count_byte s c + count_byte t c.
Proof. induction s as [|b s IH]; simpl; [done|]. rewrite IH. lia. Qed.

Lemma count_byte_nonneg s c : 0 <= count_byte s c.
Proof. induction s as [|a s IH]; cbn; [lia|]. destruct (ord a =? c); lia. Qed.

Lemma index_byte_app l a r :
  count_byte l (ord a) = 0 -> index_byte (l ++ String a r) (ord a) = Some (String.length l).
Proof.
  induction l as [|b l IH]; simpl; intros H.
  - by rewrite Z.eqb_refl.
  - pose proof (count_byte_nonneg l (ord a)).
    destruct (ord b =? ord a); [lia|]. by rewrite IH by lia.
Qed.

Lemma str_take_app l r : str_take (String.length l) (l ++ r) = l.
Proof. induction l as [|b l IH]; [by destruct r|]. cbn. by f_equal. Qed.
Lemma str_drop_app l a r : str_drop (S (String.length l)) (l ++ String a r) = r.
Proof. induction l as [|b l IH]; [done|]. exact IH. Qed.

Lemma Cut_join s sep k v : Cut s sep = (k, v, true) <-> s = (k ++ String sep v)%string /\ count_byte k (ord sep) = 0.
Proof.
  unfold Cut. split.
  - destruct (index_byte s (ord sep)) as [i|] eqn:E; [|done]. intros [= <- <-].
    apply index_byte_split in E as (l & b & r & -> & <- & Hb & Hc). apply ord_inj in Hb as ->.
    rewrite str_take_app. split; [|done]. do 2 f_equal. exact (eq_sym (str_drop_app l sep r)).
  - intros [-> Hc]. rewrite index_byte_app by done. by rewrite str_take_app, str_drop_app.
Qed.

(** The first cut of [SplitN]. *)
Lemma splitn_byte_app a n p r : count_byte p (ord a) = 0 ->
  splitn_byte (ord a) (S n) (p ++ String a r) = p :: splitn_byte (ord a) n r.
Proof. intros Hc. cbn [splitn_byte]. rewrite index_byte_app by done. by rewrite str_take_app, str_drop_app. Qed.

Lemma splitn_byte_cons a n s p q ps :
  splitn_byte (ord a) (S n) s = p :: q :: ps <->
  exists r, s = (p ++ String a r)%string /\ count_byte p (ord a) = 0 /\
            splitn_byte (ord a) n r = q :: ps.
Proof.
  cbn [splitn_byte]. split.
  - destruct (index_byte s (ord a)) as [i|] eqn:E; [|done]. intros [= <- H].
    apply index_byte_split in E as (l & b & r & -> & <- & Hb & Hc). apply ord_inj in Hb as ->.
    exists r. rewrite <-H, str_take_app. split_and!; [done..|]. f_equal. exact (eq_sym (str_drop_app l a r)).
  - intros (r & -> & Hc & <-). rewrite index_byte_app by done. by rewrite str_take_app, str_drop_app.
Qed.

(** A string followed by a separator it does not contain is determined. *)
Lemma app_sep_inj a s1 t1 s2 t2 :
  count_byte s1 (ord a) = 0 -> count_byte s2 (ord a) = 0 ->
  (s1 ++ String a t1 = s2 ++ String a t2)%string -> s1 = s2 /\ t1 = t2.
Proof.
  intros H1 H2 E. pose proof (index_byte_app s1 a t1 H1) as E1. rewrite E in E1.
  rewrite (index_byte_app s2 a t2 H2) in E1. injection E1 as E1. split.
  - by rewrite <-(str_take_app s1 (String a t1)), E, <-E1, str_take_app.
  - by rewrite <-(str_drop_app s1 a t1), E, <-E1, str_drop_app.
Qed.

(** ** Lemmas: decimal numerals *)

(** Reading a decimal numeral back. *)
Fixpoint decimal (acc : Z) (s : string) : Z :=
  match s with
  | EmptyString => acc
  | String c s => decimal (acc * 10 + (ord c - ord "0")) s
  end.

Lemma itoa_fuel_decimal fuel : forall n acc a,
  0 <= n < 2 ^ Z.of_nat fuel ->
  exists k, 0 <= k /\ decimal a (itoa_fuel fuel n acc) = decimal (a * 10 ^ k + n) acc.
Proof.
  induction fuel as [|fuel IH]; intros n acc a Hn; cbn [itoa_fuel].
  - exists 0. cbn in Hn. split; [done|]. f_equal. lia.
  - pose proof (Z.mod_pos_bound n 10 ltac:(lia)) as Hm.
    pose proof (Z.div_mod n 10 ltac:(lia)) as Hdm.
    destruct (Z.ltb_spec n 10) as [Hlt|Hge].
    + exists 1. split; [done|]. cbn [decimal]. f_equal. ords. rewrite ord_chr by lia.
      rewrite (Z.mod_small n 10) by lia. lia.
    + destruct (IH (n / 10) (String (chr (48 + n mod 10)) acc) a) as (k & Hk & E).
      { split; [apply Z.div_pos; lia|]. rewrite Nat2Z.inj_succ, Z.pow_succ_r in Hn by lia.
        apply Z.div_lt_upper_bound; lia. }
      exists (k + 1). split; [lia|]. rewrite E. cbn [decimal]. f_equal. ords.
      rewrite ord_chr by lia. rewrite Z.pow_add_r by lia. lia.
Qed.

Lemma Itoa_decimal n : 0 <= n -> decimal 0 (Itoa n) = n.
Proof.
  intros Hn. unfold Itoa.
  destruct (itoa_fuel_decimal (S (Z.to_nat (Z.log2 n))) n EmptyString 0) as (k & _ & ->); [|done].
  split; [done|]. rewrite Nat2Z.inj_succ, Z2Nat.id by apply Z.log2_nonneg.
  destruct (Z.eq_dec n 0) as [->|]; [done|]. apply Z.log2_spec. lia.
Qed.

Lemma Itoa_inj n m : 0 <= n -> 0 <= m -> Itoa n = Itoa m -> n = m.
Proof. intros Hn Hm E. by rewrite <-(Itoa_decimal n Hn), E, Itoa_decimal. Qed.

Lemma itoa_fuel_digits fuel : forall n acc c,
  0 <= n -> is_digit c = false -> count_byte (itoa_fuel fuel n acc) c = count_byte acc c.
Proof.
  induction fuel as [|fuel IH]; intros n acc c Hn Hc; cbn [itoa_fuel]; [done|].
  pose proof (Z.mod_pos_bound n 10 ltac:(lia)) as Hm.
  assert (count_byte (String (chr (48 + n mod 10)) acc) c = count_byte acc c) as E.
  { cbn [count_byte]. rewrite ord_chr by lia. unfold is_digit, between in Hc. revert Hc. ords.
    destruct (Z.eqb_spec (48 + n mod 10) c); [|done]. intros Hc. lia. }
  case_if; [done|]. rewrite IH; [done| |done]. apply Z.div_pos; lia.
Qed.

Lemma Itoa_count n c : 0 <= n -> is_digit c = false -> count_byte (Itoa n) c = 0.
Proof. intros. unfold Itoa. by rewrite itoa_fuel_digits. Qed.

Lemma str_app_length_inj s1 s2 t1 t2 :
  String.length s1 = String.length s2 -> (s1 ++ t1 = s2 ++ t2)%string -> s1 = s2 /\ t1 = t2.
Proof.
  intros Hl E. split.
  - rewrite <-(str_take_app s1 t1), E, Hl. apply str_take_app.
  - revert s2 Hl E. induction s1 as [|a s1 IH]; intros [|b s2] Hl E; try done.
    injection Hl as Hl. injection E as -> E. by apply (IH s2).
Qed.

(** ** Lemmas: affixes *)

Lemma list_ascii_app s t :
  String.list_ascii_of_string (s ++ t) =
  (String.list_ascii_of_string s ++ String.list_ascii_of_string t)%list.
Proof.
  induction s as [|a s IH]; [done|]. exact (f_equal (cons a) IH).
Qed.

Lemma string_of_list_app l m :
  String.string_of_list_ascii (l ++ m) =
  (String.string_of_list_ascii l ++ String.string_of_list_ascii m)%string.
Proof. induction l as [|a l IH]; [done|]. exact (f_equal (String a) IH). Qed.

Lemma rev_string_app s t : rev_string (s ++ t) = (rev_string t ++ rev_string s)%string.
Proof. unfold rev_string. by rewrite list_ascii_app, rev_app_distr, string_of_list_app. Qed.

Lemma rev_string_involutive s : rev_string (rev_string s) = s.
Proof.
  unfold rev_string. rewrite String.list_ascii_of_string_of_list_ascii, rev_involutive.
  apply String.string_of_list_ascii_of_string.
Qed.

Lemma HasPrefix_app s p : HasPrefix s p = true <-> exists t, s = (p ++ t)%string.
Proof.
  revert s. induction p as [|a p IH]; intros s.
  - split; intros _; [by exists s|by destruct s].
  - destruct s as [|b s].
    + split; [done|]. intros [t E]. discriminate E.
    + change (HasPrefix (String b s) (String a p))
        with (if ascii_dec a b then HasPrefix s p else false).
      destruct (ascii_dec a b) as [->|Hn].
      * rewrite IH. split; intros [t E]; exists t; [by rewrite E|by injection E as ->].
      * split; [done|]. intros [t E]. by injection E as <- _.
Qed.

Lemma HasSuffix_app s p : HasSuffix s p = true <-> exists t, s = (t ++ p)%string.
Proof.
  change (HasSuffix s p) with (HasPrefix (rev_string s) (rev_string p)).
  rewrite HasPrefix_app. split.
  - intros [t E]. exists (rev_string t).
    rewrite <-(rev_string_involutive s), E, rev_string_app. by rewrite rev_string_involutive.
  - intros [t ->]. exists (rev_string t). apply rev_string_app.
Qed.

Lemma str_length_app s t : String.length (s ++ t) = (String.length s + String.length t)%nat.
Proof. pose proof (slen_app s t). unfold slen in *. lia. Qed.

Lemma TrimSuffix_app s p : HasSuffix s p = true -> s = (TrimSuffix s p ++ p)%string.
Proof.
  intros H. unfold TrimSuffix. rewrite H. apply HasSuffix_app in H as [t ->].
  rewrite str_length_app. replace (_ - _)%nat with (String.length t) by lia.
  by rewrite str_take_app.
Qed.

(** ** Lemmas: splitting *)

Lemma split_byte_cons_sep sep a s :
  ord a = sep -> split_byte sep (String a s) = EmptyString :: split_byte sep s.
Proof. intros H. cbn. by rewrite (proj2 (Z.eqb_eq _ _) H). Qed.

Lemma split_byte_nonnil sep s : split_byte sep s <> [].
Proof.
  induction s as [|a s IH]; cbn; [done|]. case_if; [done|]. by destruct (split_byte sep s).
Qed.

(** Bytes that pass a test in every part, or are the separator. *)
Lemma split_byte_bytes sep p s :
  forallb (bytes_all p) (split_byte sep s) = bytes_all (fun c => p c || (c =? sep)) s.
Proof.
  induction s as [|a s IH]; [done|]. cbn [split_byte bytes_all].
  destruct (ord a =? sep) eqn:E.
  - cbn [forallb bytes_all andb]. rewrite IH. by rewrite orb_true_r.
  - rewrite orb_false_r, <-IH.
    destruct (split_byte sep s) as [|q qs] eqn:Es; [by destruct (split_byte_nonnil sep s)|].
    cbn [forallb bytes_all]. by rewrite andb_assoc.
Qed.

Lemma Join_split a s : Join (split_byte (ord a) s) (String a EmptyString) = s.
Proof.
  induction s as [|b s IH]; [done|]. cbn [split_byte].
  destruct (split_byte (ord a) s) as [|q qs] eqn:Es; [by destruct (split_byte_nonnil (ord a) s)|].
  destruct (ord b =? ord a) eqn:E.
  - apply Z.eqb_eq, ord_inj in E as ->.
    change (Join ("" :: q :: qs) (String a "")) with (String a (Join (q :: qs) (String a ""))).
    by rewrite IH.
  - rewrite <-IH. by destruct qs.
Qed.

Lemma split_byte_app a s t :
  split_byte (ord a) (s ++ String a t) = split_byte (ord a) s ++ split_byte (ord a) t.
Proof.
  induction s as [|b s IH].
  - change ("" ++ String a t)%string with (String a t). by rewrite split_byte_cons_sep.
  - change (String b s ++ String a t)%string with (String b (s ++ String a t)). cbn [split_byte].
    destruct (ord b =? ord a); [by rewrite IH|]. rewrite IH.
    by destruct (split_byte (ord a) s) as [|q qs] eqn:Es; [destruct (split_byte_nonnil (ord a) s)|].
Qed.

Lemma bytes_all_count (p : Z -> bool) s c :
  bytes_all p s = true -> p c = false -> count_byte s c = 0.
Proof.
  intros H Hc. induction s as [|a s IH]; [done|]. cbn in *. bool_hyps.
  destruct (Z.eqb_spec (ord a) c); [congruence|]. by rewrite IH.
Qed.

Lemma split_byte_plain a s : count_byte s (ord a) = 0 -> split_byte (ord a) s = [s].
Proof.
  induction s as [|b s IH]; intros H; [done|]. cbn [split_byte count_byte] in *.
  pose proof (count_byte_nonneg s (ord a)).
  destruct (ord b =? ord a); [lia|]. by rewrite IH.
Qed.

Lemma split_byte_part a s part : part ∈ split_byte (ord a) s -> count_byte part (ord a) = 0.
Proof.
  intros H. apply (bytes_all_count (fun c => negb (c =? ord a))); [|by rewrite Z.eqb_refl].
  assert (forallb (bytes_all (fun c => negb (c =? ord a))) (split_byte (ord a) s) = true) as Hall.
  { rewrite split_byte_bytes. rewrite bytes_all_forallb. apply forallb_forall. intros c _.
    by destruct (c =? ord a). }
  rewrite forallb_forall in Hall. by apply Hall, list_elem_of_In.
Qed.

(** Splitting undoes joining strings that do not hold the separator. *)
Lemma split_Join a l :
  l <> [] -> Forall (fun s => count_byte s (ord a) = 0) l ->
  split_byte (ord a) (Join l (String a EmptyString)) = l.
Proof.
  intros Hn Hl. induction Hl as [|s l Hs Hl IH]; [done|].
  destruct l as [|s' l]; [by apply split_byte_plain|].
  change (Join (s :: s' :: l) (String a "")) with
    (s ++ String a (Join (s' :: l) (String a "")))%string.
  by rewrite split_byte_app, split_byte_plain, IH.
Qed.

Lemma Join_sep_inj a l1 l2 :
  l1 <> [] -> l2 <> [] ->
  Forall (fun s => count_byte s (ord a) = 0) l1 -> Forall (fun s => count_byte s (ord a) = 0) l2 ->
  Join l1 (String a EmptyString) = Join l2 (String a EmptyString) -> l1 = l2.
Proof.
  intros N1 N2 F1 F2 E. rewrite <-(split_Join a l1 N1 F1), <-(split_Join a l2 N2 F2). by rewrite E.
Qed.
