(* ===== verification/GoPath.v ===== *)
(** * Paths (the Go packages path and path/filepath, on Unix)

    What the source uses of them: [Clean], [Dir], [Base], [Join] and [IsAbs], and
    the theory of cleaned paths as stacks of components. *)

From Stdlib Require Import ZArith Lia Ascii.
From stdpp Require Import base gmap sets strings list.
From S2P Require Import Prelude GoStrings.

Module GoPath.

(** The stack of components [Clean] keeps, innermost first. *)
Fixpoint cleanStack (rooted : bool) (parts stack : list string) : list string :=
  match parts with
  | [] => stack
  | part :: parts =>
    let stack :=
      if (part =? "")%string || (part =? ".")%string then stack
      else if (part =? "..")%string then
        match stack with
        | top :: below => if (top =? "..")%string then part :: stack else below
        | [] => if rooted then [] else [part]
        end
      else part :: stack in
    cleanStack rooted parts stack
  end.
Definition Clean (path : string) : string :=
  let rooted := HasPrefix path "/" in
  let body := Join (rev (cleanStack rooted (Split path "/") [])) "/" in
  if rooted then String "/" body else if (body =? "")%string then "." else body.

Definition IsAbs (path : string) : bool := HasPrefix path "/".
Definition FilepathJoin (elems : list string) : string :=
  match List.filter (fun e => negb (e =? "")%string) elems with
  | [] => EmptyString
  | elems => Clean (Join elems "/")
  end.

Fixpoint last_slash (s : string) : option nat :=
  match s with
  | EmptyString => None
  | String a s =>
    match last_slash s with
    | Some n => Some (S n)
    | None => if ord a =? ord "/" then Some O else None
    end
  end.
Definition Dir (path : string) : string :=
  Clean (match last_slash path with Some i => str_take (S i) path | None => EmptyString end).

Fixpoint trimSlashes (fuel : nat) (s : string) : string :=
  match fuel with
  | O => s
  | S fuel => if HasSuffix s "/" then trimSlashes fuel (TrimSuffix s "/") else s
  end.
Definition Base (path : string) : string :=
  if (path =? "")%string then "."
  else
    let path := trimSlashes (String.length path) path in
    let path := match last_slash path with Some i => str_drop (S i) path | None => path end in
    if (path =? "")%string then "/" else path.

(** ** Cleaned paths *)

Definition component (c : string) : Prop :=
  c <> "" /\ c <> "." /\ count_byte c (ord "/") = 0.

(** A cleaned list of components, innermost first: names over leading [..]. *)
Inductive clean_stack (rooted : bool) : list string -> Prop :=
| cs_nil : clean_stack rooted []
| cs_up l : rooted = false -> Forall (fun c => c = "..") l -> clean_stack rooted (".." :: l)
| cs_name c l : component c -> c <> ".." -> clean_stack rooted l -> clean_stack rooted (c :: l).

Lemma ups_clean l : Forall (fun c => c = "..") l -> clean_stack false l.
Proof. destruct 1 as [|c l -> H]; [constructor|by constructor]. Qed.

Lemma Split_plain s c : c ∈ Split s "/" -> count_byte c (ord "/") = 0.
Proof. apply split_byte_part. Qed.

Lemma cleanStack_clean rooted parts : (forall c, c ∈ parts -> count_byte c (ord "/") = 0) ->
  forall stack, clean_stack rooted stack -> clean_stack rooted (cleanStack rooted parts stack).
Proof.
  induction parts as [|c parts IH]; intros Hp stack Hs; cbn [cleanStack]; [done|].
  apply IH; [set_solver|]. destruct (c =? "")%string eqn:E1; [done|]. destruct (c =? ".")%string eqn:E2; [done|].
  cbn [orb]. apply eqb_false_str in E1, E2. destruct (c =? "..")%string eqn:E3.
  - apply eqb_true_str in E3 as ->. destruct Hs as [|l Hr Hl|n l Hn Hne Hl].
    + destruct rooted; [constructor|by constructor].
    + cbn. constructor; [done|]. by constructor.
    + rewrite (proj2 (eqb_false_str n "..")) by done. done.
  - apply eqb_false_str in E3. constructor; [|done..]. split_and!; [done..|]. apply Hp. set_solver.
Qed.

(** Cleaning a cleaned list gives it back. *)
Lemma cleanStack_push rooted l : forall stack, clean_stack rooted (rev l ++ stack) ->
  cleanStack rooted l stack = rev l ++ stack.
Proof.
  induction l as [|c l IH]; intros stack H; cbn [cleanStack rev]; [done|].
  cbn [rev] in H. rewrite <-app_assoc in *. cbn [app] in *.
  assert (clean_stack rooted (c :: stack)) as Hc.
  { clear IH. induction (rev l) as [|x m IHm]; [done|]. apply IHm. cbn in H. inversion H; subst; [|done].
    by apply ups_clean. }
  assert (c <> "" /\ c <> ".") as [Hc1 Hc2] by (inversion Hc as [| |? ? [? []]]; by subst).
  rewrite (proj2 (eqb_false_str c "")), (proj2 (eqb_false_str c ".")) by done. cbn [orb].
  destruct (c =? "..")%string eqn:E; [|by apply IH].
  apply eqb_true_str in E as ->. inversion Hc as [|l' Hr Hl|]; [subst|done].
  destruct stack as [|t stack]; [cbn; by apply IH|].
  apply Forall_cons in Hl as [-> Hl]. cbn. by apply IH.
Qed.

Lemma Clean_parts s : exists (rooted : bool) (l : list string), Clean s = (if rooted then String "/" (Join (rev l) "/")
    else if bool_decide (l = []) then "." else Join (rev l) "/") /\
  clean_stack rooted l /\ rooted = HasPrefix s "/".
Proof.
  exists (HasPrefix s "/"), (cleanStack (HasPrefix s "/") (Split s "/") []).
  pose proof (cleanStack_clean (HasPrefix s "/") (Split s "/") (Split_plain s) [] (cs_nil _)) as H.
  split_and!; [|done..]. unfold Clean. destruct (HasPrefix s "/") eqn:E; [done|].
  destruct (cleanStack false (Split s "/") []) as [|c l] eqn:Ec; [done|].
  rewrite bool_decide_eq_false_2 by done.
  assert (Join (rev (c :: l)) "/" <> "") as Hne.
  { assert (forall m x, x <> "" -> Join (m ++ [x]) "/" <> "") as Hj.
    { intros [|y [|z m]] x Hx; cbn; [done|..]; destruct y; done. }
    cbn [rev]. apply Hj. inversion H as [| |? ? []]; by subst. }
  by rewrite (proj2 (eqb_false_str _ _) Hne).
Qed.

(** The path of a cleaned stack. *)
Definition render (rooted : bool) (l : list string) : string :=
  if rooted then String "/" (Join (rev l) "/")
  else if bool_decide (l = []) then "." else Join (rev l) "/".

Lemma clean_stack_elem rooted l c : clean_stack rooted l -> c ∈ l -> component c.
Proof.
  induction 1 as [|l Hr Hl|n l Hn _ _ IH]; [by intros ?%elem_of_nil| |intros [->|H]%elem_of_cons; auto].
  intros H. assert (c = "..") as -> by (apply elem_of_cons in H as [->|H]; [done|]; by rewrite Forall_forall in Hl; apply Hl).
  done.
Qed.

Lemma clean_stack_tail rooted l : clean_stack rooted l -> clean_stack rooted (tail l).
Proof.
  destruct 1 as [|l -> Hl|]; [constructor| |done]. by apply ups_clean.
Qed.

Lemma Join_snoc m c sep : m <> [] -> Join (m ++ [c]) sep = (Join m sep ++ sep ++ c)%string.
Proof.
  intros Hm. destruct m as [|x m]; [done|]. clear Hm. revert x. induction m as [|y m IH]; intros x; [done|].
  change (Join ((x :: y :: m) ++ [c]) sep) with (x ++ sep ++ Join ((y :: m) ++ [c]) sep)%string.
  rewrite IH. change (Join (x :: y :: m) sep) with (x ++ sep ++ Join (y :: m) sep)%string.
  by rewrite !str_app_assoc.
Qed.

Lemma rev_clean_plain rooted l : clean_stack rooted l ->
  Forall (fun s => count_byte s (ord "/") = 0) (rev l).
Proof.
  intros H. apply Forall_forall. intros x Hx. apply list_elem_of_In, in_rev, list_elem_of_In in Hx.
  by destruct (clean_stack_elem _ _ _ H Hx) as (_ & _ & ?).
Qed.

Lemma rev_nonnil {A} (l : list A) : l <> [] -> rev l <> [].
Proof. intros H E. apply H. by rewrite <-(rev_involutive l), E. Qed.

Lemma Split_rendered rooted l : clean_stack rooted l -> l <> [] -> Split (Join (rev l) "/") "/" = rev l.
Proof. intros H Hl. apply (split_Join "/"); [by apply rev_nonnil|by eapply rev_clean_plain]. Qed.

Lemma rendered_relative rooted l : clean_stack rooted l -> l <> [] -> HasPrefix (Join (rev l) "/") "/" = false.
Proof.
  intros H Hl. destruct (rev l) as [|c m] eqn:E; [by apply rev_nonnil in Hl|].
  assert (component c) as (Hc & _ & Hn).
  { apply (clean_stack_elem rooted l); [done|]. apply list_elem_of_In, in_rev. rewrite E. by left. }
  destruct c as [|a c]; [done|]. cbn [count_byte] in Hn. pose proof (count_byte_nonneg c (ord "/")).
  assert (a <> "/"%char) by (intros ->; change (ord "/" =? ord "/") with true in Hn; cbn in Hn; lia).
  destruct (HasPrefix _ _) eqn:Ep; [|done]. apply HasPrefix_app in Ep as (t & Ep).
  change ("/" ++ t)%string with (String "/" t) in Ep.
  destruct m as [|y m]; [by injection Ep|].
  change (Join (String a c :: y :: m) "/") with (String a (c ++ "/" ++ Join (y :: m) "/")%string) in Ep.
  by injection Ep.
Qed.

Lemma rendered_nonempty rooted l : clean_stack rooted l -> l <> [] -> Join (rev l) "/" <> "".
Proof.
  intros H Hl E. pose proof (Split_rendered rooted l H Hl) as Es. rewrite E in Es. cbn in Es.
  assert ("" ∈ rev l) as Hin by (rewrite <-Es; by left).
  apply list_elem_of_In, in_rev, list_elem_of_In in Hin.
  by destruct (clean_stack_elem _ _ "" H Hin).
Qed.

Lemma cleanStack_render rooted l extra : clean_stack rooted l ->
  cleanStack rooted (rev l ++ replicate extra "") [] = l.
Proof.
  intros H.
  assert (forall parts stack, cleanStack rooted (parts ++ replicate extra "") stack = cleanStack rooted parts stack) as E.
  { induction parts as [|c parts IH]; intros stack; [|apply IH].
    cbn [app cleanStack]. induction extra as [|n IH]; [done|]. exact IH. }
  rewrite E, cleanStack_push; [by rewrite rev_involutive, app_nil_r|]. by rewrite rev_involutive, app_nil_r.
Qed.

Lemma abs_prefix x : HasPrefix (String "/" x) "/" = true.
Proof. apply HasPrefix_app. by exists x. Qed.

(** [Clean] of a rendered stack, possibly with a trailing slash. *)
Lemma Clean_render rooted l : clean_stack rooted l -> Clean (render rooted l) = render rooted l.
Proof.
  intros H. unfold render. destruct rooted.
  - unfold Clean. rewrite abs_prefix.
    unfold Split. rewrite split_byte_cons_sep by done.
    assert (cleanStack true (split_byte (ord "/") (Join (rev l) "/")) [] = l) as E.
    { destruct l as [|c l]; [done|]. change (split_byte (ord "/") ?x) with (Split x "/").
      rewrite (Split_rendered true) by done.
      rewrite <-(app_nil_r (rev (c :: l))). by apply (cleanStack_render true (c :: l) 0). }
    cbn [cleanStack]. change (("" =? "")%string || _) with true. cbv iota. by rewrite E.
  - destruct (decide (l = [])) as [->|Hl]; [done|]. rewrite bool_decide_eq_false_2 by done.
    unfold Clean. rewrite (rendered_relative false) by done. rewrite (Split_rendered false) by done.
    assert (cleanStack false (rev l) [] = l) as ->.
    { rewrite <-(app_nil_r (rev l)). by apply (cleanStack_render false l 0). }
    rewrite (proj2 (eqb_false_str _ _)); [done|]. by apply (rendered_nonempty false).
Qed.

Lemma Clean_rendered s : exists rooted l, Clean s = render rooted l /\ clean_stack rooted l.
Proof. destruct (Clean_parts s) as (r & l & E & H & _). by exists r, l. Qed.

Lemma Clean_idem s : Clean (Clean s) = Clean s.
Proof. destruct (Clean_rendered s) as (r & l & -> & H). by apply Clean_render. Qed.

Lemma last_slash_none c : count_byte c (ord "/") = 0 -> last_slash c = None.
Proof.
  induction c as [|a c IH]; [done|]. cbn [count_byte last_slash]. pose proof (count_byte_nonneg c (ord "/")).
  destruct (ord a =? ord "/"); [lia|]. intros H1. by rewrite IH by lia.
Qed.

Lemma last_slash_app x c : count_byte c (ord "/") = 0 ->
  last_slash (x ++ String "/" c) = Some (String.length x).
Proof.
  intros H. induction x as [|a x IH].
  - change ("" ++ String "/" c)%string with (String "/" c). cbn [last_slash].
    rewrite (last_slash_none c H). done.
  - change (String a x ++ String "/" c)%string with (String a (x ++ String "/" c)).
    cbn [last_slash]. by rewrite IH.
Qed.

Lemma take_slash x c : str_take (S (String.length x)) (x ++ String "/" c) = (x ++ "/")%string.
Proof.
  induction x as [|a x IH]; [done|].
  change (String a x ++ String "/" c)%string with (String a (x ++ String "/" c)).
  change (String a x ++ "/")%string with (String a (x ++ "/")). cbn [String.length str_take]. by rewrite <-IH.
Qed.

Lemma Split_slash x : Split (x ++ "/") "/" = Split x "/" ++ [""].
Proof. apply (split_byte_app "/" x ""). Qed.

(** [Dir] of a cleaned path drops its last component. *)
Lemma Dir_render rooted l : clean_stack rooted l -> Dir (render rooted l) = render rooted (tail l).
Proof.
  intros H. destruct l as [|c l]; [by destruct rooted|]. cbn [tail].
  pose proof (clean_stack_tail _ _ H) as Ht. cbn [tail] in Ht.
  destruct (clean_stack_elem rooted (c :: l) c H ltac:(set_solver)) as (Hc & _ & Hn).
  unfold render. rewrite !bool_decide_eq_false_2 by done. cbn [rev].
  destruct (decide (l = [])) as [->|Hl].
  { cbn [rev app Join]. unfold Dir. destruct rooted.
    - change (String "/" c) with ("" ++ String "/" c)%string. rewrite last_slash_app, take_slash by done. done.
    - by rewrite last_slash_none. }
  rewrite Join_snoc by by apply rev_nonnil.
  change ("/" ++ c)%string with (String "/" c).
  pose proof (Split_rendered rooted l Ht Hl) as Es.
  pose proof (cleanStack_render rooted l 1 Ht) as Ec. cbn [replicate] in Ec.
  unfold Dir. destruct rooted.
  - change (String "/" (Join (rev l) "/" ++ String "/" c)) with
      (String "/" (Join (rev l) "/") ++ String "/" c)%string.
    rewrite last_slash_app, take_slash by done. unfold Clean.
    change (String "/" (Join (rev l) "/") ++ "/")%string with (String "/" (Join (rev l) "/" ++ "/")).
    rewrite abs_prefix. unfold Split at 1. rewrite split_byte_cons_sep by done.
    change (split_byte (ord "/") ?x) with (Split x "/"). rewrite Split_slash, Es.
    cbn [cleanStack]. change (("" =? "")%string || _) with true. cbv iota. by rewrite Ec.
  - rewrite last_slash_app, take_slash by done. unfold Clean.
    assert (HasPrefix (Join (rev l) "/" ++ "/") "/" = false) as ->.
    { pose proof (rendered_relative false l Ht Hl) as Hr. destruct (HasPrefix (_ ++ _) _) eqn:E; [|done].
      apply HasPrefix_app in E as (t & E). pose proof (rendered_nonempty false l Ht Hl) as Hne.
      destruct (Join (rev l) "/") as [|a j]; [done|].
      injection E as -> _. rewrite abs_prefix in Hr. done. }
    rewrite Split_slash, Es, Ec. rewrite bool_decide_eq_false_2 by done.
    rewrite (proj2 (eqb_false_str (Join (rev l) "/") "")); [done|]. by apply (rendered_nonempty false).
Qed.

End GoPath.
