(* ===== verification/Glob.v ===== *)
(** * Policy globs (internal/policy/glob.go)

    [CompileGlob]/[CompileActionGlob] with [validateGlobPattern], and the
    two-row dynamic-programming matcher [Match] exactly as written: two
    fixed-size rows that are swapped after every value byte (so the written
    row still holds the values of two rounds ago), and the step counter that
    aborts the match.  [glob_spec] is the declarative meaning of a pattern;
    [Match_spec] shows that the matcher decides it, hence that the step limit
    is never reached and that stale row contents are never read. *)

From Stdlib Require Import ZArith Lia Ascii.
From stdpp Require Import base gmap strings list.
From S2P Require Import Prelude GoStrings.

Module Glob.

Definition MaxGlobLength : Z := 512.
Definition maxGlobSteps : Z := (MaxGlobLength + 1) * (MaxGlobLength + 1).

Record Glob := mkGlob { pattern : string; action : bool }.

#[export] Instance Glob_eq_dec : EqDecision Glob.
Proof. solve_decision. Defined.

(** The zero value [Glob{}]. *)
Definition zeroGlob : Glob := mkGlob EmptyString false.

(** ** Compilation *)

Definition asciiLower (s : string) : string :=
  map_bytes (fun c => if between (ord "A") (ord "Z") c then c + (ord "a" - ord "A") else c) s.

(** The rune test shared by [validateGlobPattern] and [Match]. *)
Definition actionRune (r : Z) : bool :=
  negb ((127 <? r) ||
        negb ((r =? ord ":") || (r =? ord "*") || (r =? ord "?") ||
              is_lower r || is_upper r || is_digit r || (r =? ord "-"))).

Definition unsupportedRune (r : Z) : bool :=
  IsSpace r || IsControl r || in_set "[](){}|+^$\" r.

Definition validateGlobPattern (pattern : string) (action : bool) : option error :=
  if (slen pattern =? 0) || (MaxGlobLength <? slen pattern) || negb (ValidString pattern)
  then Some (ErrNew "glob is empty, too long, or not valid UTF-8")
  else if existsb unsupportedRune (runes pattern)
  then Some (ErrNew "glob contains unsupported syntax")
  else if action then
    let colon := IndexByte pattern (ord ":") in
    if negb (pattern =? "*")%string &&
       ((colon <=? 0) || (colon =? slen pattern - 1) ||
        negb (count_byte pattern (ord ":") =? 1))
    then Some (ErrNew "action glob must use service:operation form")
    else if existsb (fun r => negb (actionRune r)) (runes pattern)
    then Some (ErrNew "action glob contains unsupported characters")
    else None
  else None.

Definition compileGlob (pattern : string) (action : bool) : result Glob :=
  match validateGlobPattern pattern action with
  | Some err => Err err
  | None =>
    let pattern := if action then asciiLower pattern else pattern in
    Ok (mkGlob pattern action)
  end.

Definition CompileGlob (pattern : string) : result Glob := compileGlob pattern false.
Definition CompileActionGlob (pattern : string) : result Glob := compileGlob pattern true.

(** ** Matching *)

(** [steps++; if steps > maxGlobSteps { return false }]; [None] is that return. *)
Definition tick (steps : Z) : option Z :=
  let steps := steps + 1 in
  if maxGlobSteps <? steps then None else Some steps.

(** The loop that fills row 0 ([ixs] are the remaining pattern indices). *)
Fixpoint firstRow (pat : list Z) (ixs : list nat) (previous : list bool) (steps : Z)
  : option (list bool * Z) :=
  match ixs with
  | [] => Some (previous, steps)
  | i :: ixs =>
    steps ← tick steps;
    let b := (previous !!! (i - 1)%nat) && ((pat !!! (i - 1)%nat) =? ord "*") in
    firstRow pat ixs (<[i := b]> previous) steps
  end.

(** The value of one cell, from the row above and the cell to the left. *)
Definition cell (p x : Z) (previous current : list bool) (i : nat) : bool :=
  if p =? ord "*" then (previous !!! i) || (current !!! (i - 1)%nat)
  else if p =? ord "?" then previous !!! (i - 1)%nat
  else (previous !!! (i - 1)%nat) && (p =? x).

Fixpoint nextRow (pat : list Z) (x : Z) (ixs : list nat) (previous current : list bool)
    (steps : Z) : option (list bool * Z) :=
  match ixs with
  | [] => Some (current, steps)
  | i :: ixs =>
    steps ← tick steps;
    let b := cell (pat !!! (i - 1)%nat) x previous current i in
    nextRow pat x ixs previous (<[i := b]> current) steps
  end.

(** The loop over the value's bytes; the rows are swapped after each. *)
Fixpoint matchRows (pat value : list Z) (previous current : list bool) (steps : Z)
  : option (list bool) :=
  match value with
  | [] => Some previous
  | x :: value =>
    let current := <[0%nat := false]> current in
    '(current, steps) ← nextRow pat x (seq 1 (List.length pat)) previous current steps;
    matchRows pat value current previous steps
  end.

(** [var row [MaxGlobLength + 1]bool]. *)
Definition zeroRow : list bool := replicate (Z.to_nat (MaxGlobLength + 1)) false.

Definition matchBytes (pat value : list Z) : bool :=
  let previous := <[0%nat := true]> zeroRow in
  match firstRow pat (seq 1 (List.length pat)) previous 0 with
  | None => false
  | Some (previous, steps) =>
    match matchRows pat value previous zeroRow steps with
    | None => false
    | Some previous => previous !!! List.length pat
    end
  end.

Definition Match (g : Glob) (value : string) : bool :=
  if (pattern g =? "")%string || (MaxGlobLength <? slen value) || negb (ValidString value)
  then false
  else if existsb IsControl (runes value) then false
  else if action g && existsb (fun r => negb (actionRune r)) (runes value) then false
  else
    let value := if action g then asciiLower value else value in
    matchBytes (bytes (pattern g)) (bytes value).

Definition MatchGlob (pattern value : string) : bool :=
  match CompileGlob pattern with Ok g => Match g value | Err _ => false end.
Definition MatchActionGlob (pattern value : string) : bool :=
  match CompileActionGlob pattern with Ok g => Match g value | Err _ => false end.
Definition GlobMatch (pattern value : string) : bool := MatchGlob pattern value.

Example match_ex1 : MatchGlob "arn:aws:s3:::a*/b?" "arn:aws:s3:::axyz/bq" = true.
Proof. vm_compute. reflexivity. Qed.
Example match_ex2 : MatchActionGlob "S3:Get*" "s3:getobject" = true.
Proof. vm_compute. reflexivity. Qed.
Example match_ex3 : MatchGlob "a*b" "ac" = false.
Proof. vm_compute. reflexivity. Qed.

(** ** The declarative meaning of a pattern

    A pattern matches when the value splits into one segment per pattern
    byte: any segment for ['*'], one byte for ['?'], the byte itself
    otherwise. *)

Definition seg_ok (c : Z) (seg : list Z) : Prop :=
  if c =? ord "*" then True
  else if c =? ord "?" then List.length seg = 1%nat
  else seg = [c].

Definition glob_spec (pat value : list Z) : Prop :=
  exists segs, Forall2 seg_ok pat segs /\ value = concat segs.

Lemma glob_spec_nil v : glob_spec [] v <-> v = [].
Proof.
  split.
  - intros (segs & H & ->). by apply Forall2_nil_inv_l in H as ->.
  - intros ->. exists []. by split; [constructor|].
Qed.

Lemma glob_spec_snoc p c v :
  glob_spec (p ++ [c]) v <-> exists v1 v2, v = v1 ++ v2 /\ glob_spec p v1 /\ seg_ok c v2.
Proof.
  split.
  - intros (segs & H & ->).
    apply Forall2_app_inv_l in H as (s1 & s2 & H1 & H2 & ->).
    apply Forall2_cons_inv_l in H2 as (s & s' & Hs & H' & ->).
    apply Forall2_nil_inv_l in H' as ->.
    exists (concat s1), s. rewrite concat_app. simpl. rewrite app_nil_r.
    repeat split; [|done]. by exists s1.
  - intros (v1 & v2 & -> & (segs & H & ->) & Hc).
    exists (segs ++ [v2]). rewrite concat_app. simpl. rewrite app_nil_r.
    split; [|done]. apply Forall2_app; [done|]. by repeat constructor.
Qed.

Lemma glob_spec_star p v x :
  glob_spec (p ++ [ord "*"]) (v ++ [x]) <->
  glob_spec (p ++ [ord "*"]) v \/ glob_spec p (v ++ [x]).
Proof.
  rewrite !glob_spec_snoc. split.
  - intros (v1 & v2 & E & H1 & _). destruct v2 as [|y v2 _] using rev_ind.
    + right. by rewrite app_nil_r in E; subst.
    + left. rewrite app_assoc in E. apply app_inj_tail in E as [-> ->].
      by exists v1, v2.
  - intros [(v1 & v2 & -> & H1 & _)|H].
    + exists v1, (v2 ++ [x]). by rewrite app_assoc.
    + exists (v ++ [x]), []. by rewrite app_nil_r.
Qed.

Lemma glob_spec_one p c v x :
  c <> ord "*" ->
  glob_spec (p ++ [c]) (v ++ [x]) <-> glob_spec p v /\ (c = ord "?" \/ c = x).
Proof.
  intros Hc. rewrite glob_spec_snoc.
  unfold seg_ok. apply Z.eqb_neq in Hc as ->. split.
  - intros (v1 & v2 & E & H1 & H2).
    assert (exists y, v2 = [y] /\ (c = ord "?" \/ c = y)) as (y & -> & Hy).
    { destruct (Z.eqb_spec c (ord "?")).
      - destruct v2 as [|y [|? ?]]; try done. exists y. auto.
      - exists c. auto. }
    apply app_inj_tail in E as [-> ->]. auto.
  - intros (H1 & Hcx). exists v, [x]. repeat split; [done|].
    destruct (Z.eqb_spec c (ord "?")); [done|]. by destruct Hcx as [?| ->].
Qed.

Lemma glob_spec_empty p c :
  glob_spec (p ++ [c]) [] <-> glob_spec p [] /\ c = ord "*".
Proof.
  rewrite glob_spec_snoc. unfold seg_ok. split.
  - intros (v1 & v2 & E & H1 & H2). symmetry in E.
    apply app_eq_nil in E as [-> ->]. split; [done|].
    destruct (Z.eqb_spec c (ord "*")); [done|].
    by destruct (c =? ord "?").
  - intros (H1 & ->). by exists [], [].
Qed.

(** ** The rows of the matcher *)

(** Row [r] answers, for every pattern prefix, whether it matches [w];
    columns from [k] on are unconstrained. *)
Definition row_upto (k : nat) (pat w : list Z) (r : list bool) : Prop :=
  List.length r = Z.to_nat (MaxGlobLength + 1) /\
  forall i, (i < k)%nat -> (i <= List.length pat)%nat ->
    (r !!! i = true <-> glob_spec (take i pat) w).

Lemma row_insert k pat w r b :
  (k <= List.length pat)%nat -> (List.length pat <= Z.to_nat MaxGlobLength)%nat ->
  row_upto k pat w r -> (b = true <-> glob_spec (take k pat) w) ->
  row_upto (S k) pat w (<[k := b]> r).
Proof.
  intros Hk Hn (Hlen & H) Hb. split; [by rewrite length_insert|].
  intros i Hi Hi'. destruct (decide (i = k)) as [->|Hne].
  - rewrite list_lookup_total_insert_eq; [done|]. unfold MaxGlobLength in *. lia.
  - rewrite list_lookup_total_insert_ne by done. apply H; lia.
Qed.

Lemma tick_ok steps : 0 <= steps < maxGlobSteps -> tick steps = Some (steps + 1).
Proof.
  intros H. unfold tick. destruct (Z.ltb_spec maxGlobSteps (steps + 1)); [lia|done].
Qed.

Lemma take_prefix_snoc (pat : list Z) k :
  (k < List.length pat)%nat -> take (S k) pat = take k pat ++ [pat !!! k].
Proof.
  intros H. destruct (lookup_lt_is_Some_2 pat k H) as [x Hx].
  rewrite (take_S_r _ _ _ Hx). by rewrite (list_lookup_total_correct _ _ _ Hx).
Qed.

Lemma cell_spec pat w x previous current i :
  (i < List.length pat)%nat ->
  row_upto (S (List.length pat)) pat w previous ->
  row_upto (S i) pat (w ++ [x]) current ->
  cell (pat !!! i) x previous current (S i) = true <->
  glob_spec (take (S i) pat) (w ++ [x]).
Proof.
  intros Hi (_ & Hp) (_ & Hc). unfold cell.
  replace (S i - 1)%nat with i by lia.
  rewrite take_prefix_snoc by done.
  destruct (Z.eqb_spec (pat !!! i) (ord "*")) as [E|E].
  - rewrite E, glob_spec_star, orb_true_iff, <-E, <-take_prefix_snoc by done.
    rewrite Hp, Hc by lia. done.
  - rewrite glob_spec_one by done.
    destruct (Z.eqb_spec (pat !!! i) (ord "?")) as [E'|E'].
    + rewrite Hp by lia. split; [auto|tauto].
    + rewrite andb_true_iff, Z.eqb_eq, Hp by lia. tauto.
Qed.

Lemma firstRow_spec pat m k r steps :
  (k + m = S (List.length pat))%nat -> (0 < k)%nat ->
  (List.length pat <= Z.to_nat MaxGlobLength)%nat ->
  0 <= steps -> steps + Z.of_nat m <= maxGlobSteps ->
  row_upto k pat [] r ->
  exists r', firstRow pat (seq k m) r steps = Some (r', steps + Z.of_nat m) /\
    row_upto (S (List.length pat)) pat [] r'.
Proof.
  revert k r steps. induction m as [|m IH]; intros k r steps Hk Hk0 Hn H0 Hs Hr; simpl.
  - exists r. rewrite Z.add_0_r. split; [done|]. by replace k with (S (List.length pat)) in Hr by lia.
  - rewrite tick_ok by lia. simpl.
    destruct k as [|k]; [lia|]. replace (S k - 1)%nat with k by lia.
    assert (row_upto (S (S k)) pat []
      (<[S k := (r !!! k) && ((pat !!! k) =? ord "*")]> r)) as Hr'.
    { apply row_insert; [lia|done|done|]. destruct Hr as (_ & Hr).
      rewrite andb_true_iff, Z.eqb_eq, take_prefix_snoc, glob_spec_empty by lia.
      rewrite Hr by lia. done. }
    destruct (IH (S (S k)) _ (steps + 1) ltac:(lia) ltac:(lia) Hn ltac:(lia) ltac:(lia) Hr')
      as (r' & E & H').
    exists r'. rewrite E. split; [|done]. f_equal. f_equal. lia.
Qed.

Lemma nextRow_spec pat w x m k previous current steps :
  (k + m = S (List.length pat))%nat -> (0 < k)%nat ->
  (List.length pat <= Z.to_nat MaxGlobLength)%nat ->
  0 <= steps -> steps + Z.of_nat m <= maxGlobSteps ->
  row_upto (S (List.length pat)) pat w previous ->
  row_upto k pat (w ++ [x]) current ->
  exists r', nextRow pat x (seq k m) previous current steps
             = Some (r', steps + Z.of_nat m) /\
    row_upto (S (List.length pat)) pat (w ++ [x]) r'.
Proof.
  revert k current steps.
  induction m as [|m IH]; intros k current steps Hk Hk0 Hn H0 Hs Hp Hc; simpl.
  - exists current. rewrite Z.add_0_r. split; [done|].
    by replace k with (S (List.length pat)) in Hc by lia.
  - rewrite tick_ok by lia. simpl.
    destruct k as [|k]; [lia|]. replace (S k - 1)%nat with k by lia.
    assert (row_upto (S (S k)) pat (w ++ [x])
      (<[S k := cell (pat !!! k) x previous current (S k)]> current)) as Hc'.
    { apply row_insert; [lia|done|done|]. apply cell_spec; [lia|done|done]. }
    destruct (IH (S (S k)) _ (steps + 1) ltac:(lia) ltac:(lia) Hn ltac:(lia) ltac:(lia) Hp Hc')
      as (r' & E & H').
    exists r'. rewrite E. split; [|done]. f_equal. f_equal. lia.
Qed.

Lemma matchRows_spec pat value w previous current steps :
  (List.length pat <= Z.to_nat MaxGlobLength)%nat ->
  List.length current = Z.to_nat (MaxGlobLength + 1) ->
  0 <= steps ->
  steps + Z.of_nat (List.length value * List.length pat) <= maxGlobSteps ->
  row_upto (S (List.length pat)) pat w previous ->
  exists r, matchRows pat value previous current steps = Some r /\
    row_upto (S (List.length pat)) pat (w ++ value) r.
Proof.
  intros Hn. revert w previous current steps.
  induction value as [|x value IH]; intros w previous current steps Hc H0 Hs Hp.
  - exists previous. by rewrite app_nil_r.
  - cbn [matchRows]. cbn [List.length] in Hs.
    assert (row_upto 1 pat (w ++ [x]) (<[0%nat := false]> current)) as Hc1.
    { split; [by rewrite length_insert|]. intros i Hi _.
      assert (i = 0%nat) as -> by lia.
      rewrite list_lookup_total_insert_eq by (rewrite Hc; unfold MaxGlobLength; lia).
      split; [done|]. intros H. apply glob_spec_nil in H. by destruct w. }
    destruct (nextRow_spec pat w x (List.length pat) 1 previous _ steps
      ltac:(lia) ltac:(lia) Hn H0 ltac:(lia) Hp Hc1) as (r & E & Hr).
    rewrite E. simpl.
    destruct (IH (w ++ [x]) r previous (steps + Z.of_nat (List.length pat))
      ltac:(apply Hp) ltac:(lia) ltac:(lia) Hr) as (r' & E' & Hr').
    exists r'. by rewrite E', <-app_assoc in *.
Qed.

Lemma matchBytes_spec pat value :
  Z.of_nat (List.length pat) <= MaxGlobLength ->
  Z.of_nat (List.length value) <= MaxGlobLength ->
  matchBytes pat value = true <-> glob_spec pat value.
Proof.
  intros Hp Hv. unfold matchBytes.
  assert (row_upto 1 pat [] (<[0%nat := true]> zeroRow)) as H0.
  { split; [by rewrite length_insert; unfold zeroRow; rewrite length_replicate|].
    intros i Hi _. assert (i = 0%nat) as -> by lia.
    rewrite list_lookup_total_insert_eq
      by (unfold zeroRow; rewrite length_replicate; unfold MaxGlobLength; lia).
    simpl. by rewrite glob_spec_nil. }
  destruct (firstRow_spec pat (List.length pat) 1 _ 0
    ltac:(lia) ltac:(lia) ltac:(unfold MaxGlobLength in *; lia) ltac:(lia)
    ltac:(unfold maxGlobSteps, MaxGlobLength in *; lia) H0) as (r & E & Hr).
  rewrite E.
  destruct (matchRows_spec pat value [] r zeroRow (0 + Z.of_nat (List.length pat)))
    as (r' & E' & (_ & Hr')).
  - unfold MaxGlobLength in *. lia.
  - unfold zeroRow. by rewrite length_replicate.
  - lia.
  - unfold maxGlobSteps, MaxGlobLength in *. nia.
  - done.
  - rewrite E'. rewrite Hr' by lia. rewrite firstn_all. done.
Qed.

(** ** Compiled patterns *)

Lemma asciiLower_length s : slen (asciiLower s) = slen s.
Proof. unfold slen, asciiLower. by rewrite map_bytes_length. Qed.

Lemma asciiLower_bytes s : bytes (asciiLower s) = ascii_lower <$> bytes s.
Proof.
  unfold asciiLower. rewrite bytes_map_bytes; [done|].
  intros r Hr. case_if; zbool.
Qed.

Lemma asciiLower_idem s : asciiLower (asciiLower s) = asciiLower s.
Proof.
  apply bytes_inj. rewrite !asciiLower_bytes, <-list_fmap_compose.
  apply list_fmap_ext. intros _ r _. simpl. unfold ascii_lower.
  repeat case_if; zbool.
Qed.

(** The values a glob accepts for matching at all. *)
Definition value_ok (action : bool) (value : string) : bool :=
  (slen value <=? MaxGlobLength) && ValidString value &&
  negb (existsb IsControl (runes value)) &&
  (negb action || forallb actionRune (runes value)).

(** The value the pattern is compared with. *)
Definition fold_value (action : bool) (value : string) : string :=
  if action then asciiLower value else value.

Lemma Match_unfold g v :
  Match g v = negb (pattern g =? "")%string && value_ok (action g) v &&
              matchBytes (bytes (pattern g)) (bytes (fold_value (action g) v)).
Proof.
  unfold Match, value_ok, fold_value. rewrite existsb_negb, Z.leb_antisym.
  destruct (pattern g =? "")%string, (MaxGlobLength <? slen v), (ValidString v),
    (existsb IsControl (runes v)), (action g), (forallb actionRune (runes v)); done.
Qed.

Lemma compileGlob_inv p a g :
  compileGlob p a = Ok g ->
  g = mkGlob (if a then asciiLower p else p) a /\ validateGlobPattern p a = None /\
  0 < slen p <= MaxGlobLength /\ ValidString p = true.
Proof.
  unfold compileGlob. destruct (validateGlobPattern p a) eqn:E; [done|].
  intros [= <-]. repeat split; unfold validateGlobPattern in E.
  all: destruct (Z.eqb_spec (slen p) 0), (Z.ltb_spec MaxGlobLength (slen p)),
    (ValidString p) eqn:?; try done.
  pose proof (slen_nonneg p). lia.
Qed.

Lemma compiled_length p a g :
  compileGlob p a = Ok g -> 0 < slen (pattern g) <= MaxGlobLength.
Proof.
  intros (-> & _ & H & _)%compileGlob_inv. simpl.
  destruct a; [by rewrite asciiLower_length|done].
Qed.

Lemma fold_value_length a v : slen (fold_value a v) = slen v.
Proof. destruct a; [apply asciiLower_length|done]. Qed.

Lemma Match_compiled p a g v :
  compileGlob p a = Ok g ->
  Match g v = true <->
  value_ok a v = true /\ glob_spec (bytes (pattern g)) (bytes (fold_value a v)).
Proof.
  intros H. pose proof (compiled_length _ _ _ H) as Hlen.
  assert (action g = a) as Ha by (by apply compileGlob_inv in H as (-> & _)).
  rewrite Match_unfold, Ha, !andb_true_iff, negb_true_iff.
  assert ((pattern g =? "")%string = false) as ->.
  { destruct (String.eqb_spec (pattern g) ""); [|done].
    rewrite e in Hlen. cbv in Hlen. by destruct Hlen. }
  split.
  - intros [[_ Hv] Hm]. split; [done|]. apply matchBytes_spec; [| |done].
    + rewrite <-slen_bytes. lia.
    + rewrite <-slen_bytes, fold_value_length. unfold value_ok in Hv. bool_hyps. lia.
  - intros [Hv Hm]. split; [done|]. apply matchBytes_spec; [| |done].
    + rewrite <-slen_bytes. lia.
    + rewrite <-slen_bytes, fold_value_length. unfold value_ok in Hv. bool_hyps. lia.
Qed.

(** Patterns without operators denote exactly one value. *)
Lemma glob_spec_literal p v :
  Forall (fun c => c <> ord "*" /\ c <> ord "?") p -> glob_spec p v <-> v = p.
Proof.
  intros Hp. split.
  - intros (segs & H & ->). induction H as [|c seg p segs Hc H IH]; [done|].
    apply Forall_cons in Hp as [[H1 H2] Hp]. simpl. rewrite IH by done.
    unfold seg_ok in Hc. apply Z.eqb_neq in H1, H2. rewrite H1, H2 in Hc. by subst.
  - intros ->. exists ((fun c => [c]) <$> p). split.
    + induction Hp as [|c p [H1 H2] Hp IH]; constructor; [|done].
      unfold seg_ok. apply Z.eqb_neq in H1, H2. by rewrite H1, H2.
    + clear Hp. induction p as [|c p IH]; [done|]. simpl. f_equal. exact IH.
Qed.

Lemma value_ok_lower a v :
  is_ascii v = true -> value_ok a (asciiLower v) = value_ok a v.
Proof.
  intros Hv. assert (is_ascii (asciiLower v) = true) as Hl.
  { revert Hv. unfold is_ascii. rewrite !bytes_all_forallb, asciiLower_bytes, !forallb_fmap.
    rewrite !forallb_forall. intros H r Hr. apply H in Hr.
    unfold ascii_lower. case_if; zbool. }
  unfold value_ok. rewrite asciiLower_length, !is_ascii_valid by done.
  assert (forall p, (forall r, 0 <= r < 256 -> p (ascii_lower r) = p r) ->
    forallb p (runes (asciiLower v)) = forallb p (runes v)) as Hp.
  { intros p Hp. rewrite !is_ascii_runes_all by done.
    rewrite !bytes_all_forallb, asciiLower_bytes, forallb_fmap.
    pose proof (bytes_range v) as Hr. induction Hr as [|r l Hr H IH]; [done|].
    cbn [forallb]. by rewrite Hp, IH. }
  rewrite (Hp actionRune).
  - rewrite !(existsb_forallb IsControl), Hp; [done|].
    intros r Hr. unfold IsControl, ascii_lower. case_if; zbool.
  - intros r Hr. unfold actionRune, ascii_lower. case_if; zbool.
Qed.

(** ** Case folding of actions *)

Lemma lower_forallb (p : Z -> bool) v :
  (forall r, 0 <= r < 256 -> p (ascii_lower r) = p r) ->
  forallb p (bytes (asciiLower v)) = forallb p (bytes v).
Proof.
  intros Hp. rewrite asciiLower_bytes, forallb_fmap. apply forallb_ext_in.
  intros r Hr. apply Hp. eapply Forall_forall in Hr; [|apply bytes_range]. done.
Qed.

Lemma actionRune_ascii r : 128 <= r -> actionRune r = false.
Proof. intros H. unfold actionRune. zbool. Qed.

Lemma actionRune_lower r : 0 <= r < 256 -> actionRune (ascii_lower r) = actionRune r.
Proof. intros Hr. unfold actionRune, ascii_lower. case_if; zbool. Qed.

Lemma actionRunes_lower v :
  forallb actionRune (runes (asciiLower v)) = forallb actionRune (runes v).
Proof.
  rewrite !runes_all_ascii by apply actionRune_ascii.
  rewrite !bytes_all_forallb. apply lower_forallb, actionRune_lower.
Qed.

Lemma actionRunes_is_ascii v :
  forallb actionRune (runes v) = true -> is_ascii v = true.
Proof.
  rewrite runes_all_ascii by apply actionRune_ascii.
  apply bytes_all_weaken. intros r _ H. unfold actionRune in H. zbool.
Qed.

Lemma value_ok_action_lower v : value_ok true (asciiLower v) = value_ok true v.
Proof.
  destruct (forallb actionRune (runes v)) eqn:E.
  - by apply value_ok_lower, actionRunes_is_ascii.
  - unfold value_ok. simpl. by rewrite actionRunes_lower, E, !andb_false_r.
Qed.

Lemma Match_action_fold p g v w :
  compileGlob p true = Ok g -> asciiLower v = asciiLower w -> Match g v = Match g w.
Proof.
  intros (-> & _)%compileGlob_inv Hvw. rewrite !Match_unfold. cbn [action].
  by rewrite <-(value_ok_action_lower v), <-(value_ok_action_lower w),
    Hvw; unfold fold_value; rewrite Hvw.
Qed.

(** ** The form of action patterns *)

Lemma action_pattern_form p :
  validateGlobPattern p true = None ->
  forallb actionRune (runes p) = true /\
  (p = "*" \/ exists svc op, p = (svc ++ ":" ++ op)%string /\
     svc <> "" /\ op <> "" /\ count_byte svc (ord ":") = 0 /\ count_byte op (ord ":") = 0).
Proof.
  unfold validateGlobPattern. repeat case_if; try done. intros _.
  rewrite existsb_negb in *. bool_hyps. split; [done|].
  destruct (String.eqb_spec p "*") as [|Hp]; [by left|right].
  cbn [negb andb] in *. unfold IndexByte in *.
  destruct (index_byte p (ord ":")) as [n|] eqn:E; [|bool_hyps; lia].
  apply index_byte_split in E as (l & a & r & -> & Hl & Ha & Hc).
  assert (a = ":"%char) as -> by (by apply ord_inj).
  exists l, r. rewrite count_byte_app in *. cbn [count_byte] in *.
  rewrite Z.eqb_refl in *. bool_hyps.
  assert (slen (l ++ String ":" r) = Z.of_nat (String.length l) + 1 + slen r) as Hs.
  { rewrite slen_app. unfold slen. simpl. lia. }
  repeat split; try done; [| |lia].
  - intros ->. simpl in *. lia.
  - intros ->. rewrite Hs in *. change (slen "") with 0 in *. lia.
Qed.

(** ** Claims *)

(** C22. The matcher decides the declarative meaning: a resource (or action)
    pattern matches a value exactly when the pattern is valid, the value is a
    bounded, valid UTF-8 string without control characters (and, for actions,
    made of action characters), and the (for actions ASCII-folded) value
    splits into one segment per pattern byte. *)
Theorem MatchGlob_correct (action : bool) (p v : string) :
  (if action then MatchActionGlob p v else MatchGlob p v) = true <->
  validateGlobPattern p action = None /\ value_ok action v = true /\
  glob_spec (bytes (fold_value action p)) (bytes (fold_value action v)).
Proof.
  assert ((if action then MatchActionGlob p v else MatchGlob p v)
    = match compileGlob p action with Ok g => Match g v | Err _ => false end) as ->
    by (by destruct action).
  destruct (compileGlob p action) as [g|e] eqn:E.
  - rewrite (Match_compiled _ _ _ _ E). apply compileGlob_inv in E as (-> & H & _).
    unfold fold_value. simpl. tauto.
  - unfold compileGlob in E. destruct (validateGlobPattern p action); [|done].
    split; [done|]. by intros (? & _).
Qed.

(** Action matching ignores ASCII case, of the value and of the pattern. *)
Theorem MatchActionGlob_ignores_case (p v w : string) :
  asciiLower v = asciiLower w ->
  MatchActionGlob p v = MatchActionGlob p w.
Proof.
  intros H. unfold MatchActionGlob, CompileActionGlob.
  destruct (compileGlob p true) as [g|e] eqn:E; [|done].
  by apply (Match_action_fold p).
Qed.

Lemma MatchActionGlob_ignores_case_witness :
  asciiLower "S3:GetObject" = asciiLower "s3:getobject" /\
  MatchActionGlob "s3:Get*" "S3:GetObject" = MatchActionGlob "s3:Get*" "s3:getobject".
Proof.
  split; [vm_compute; reflexivity|].
  apply (MatchActionGlob_ignores_case "s3:Get*"). vm_compute. reflexivity.
Defined.

(** A resource pattern without operators matches exactly one value, the
    pattern itself: an exact ARN in a rule cannot match a different ARN. *)
Theorem MatchGlob_literal (p v : string) :
  bytes_any (fun c => (c =? ord "*") || (c =? ord "?")) p = false ->
  MatchGlob p v = true -> v = p.
Proof.
  intros Hp H. unfold MatchGlob, CompileGlob in H.
  destruct (compileGlob p false) as [g|e] eqn:E; [|done].
  rewrite (Match_compiled _ _ _ _ E) in H. apply compileGlob_inv in E as (-> & _).
  destruct H as [_ H]. apply bytes_inj. revert H. apply glob_spec_literal.
  rewrite bytes_any_all, bytes_all_forallb in Hp.
  apply negb_false_iff in Hp. rewrite forallb_forall in Hp.
  apply Forall_forall. intros c Hc. apply list_elem_of_In, Hp in Hc. lia.
Qed.

Lemma MatchGlob_literal_witness :
  MatchGlob "arn:aws:s3:::bucket" "arn:aws:s3:::bucket" = true /\
  "arn:aws:s3:::bucket" = "arn:aws:s3:::bucket".
Proof.
  split; [vm_compute; reflexivity|].
  apply (MatchGlob_literal "arn:aws:s3:::bucket"); vm_compute; reflexivity.
Defined.

(** An accepted action pattern is ["*"] or [service:operation] with both
    parts non-empty and no further separator, contains action characters only
    (so it is ASCII), and is stored lower-cased within the length bound. *)
Theorem CompileActionGlob_form (p : string) (g : Glob) :
  CompileActionGlob p = Ok g ->
  pattern g = asciiLower p /\ 0 < slen (pattern g) <= MaxGlobLength /\
  is_ascii p = true /\
  (p = "*" \/ exists svc op, p = (svc ++ ":" ++ op)%string /\
     svc <> "" /\ op <> "" /\ count_byte svc (ord ":") = 0 /\ count_byte op (ord ":") = 0).
Proof.
  intros H. pose proof (compiled_length _ _ _ H).
  apply compileGlob_inv in H as (-> & Hv & _).
  apply action_pattern_form in Hv as [Ha Hf].
  repeat split; try done; [apply H0..|]. by apply actionRunes_is_ascii.
Qed.

Lemma CompileActionGlob_form_witness :
  pattern (mkGlob "s3:get*" true) = asciiLower "s3:Get*" /\
  is_ascii "s3:Get*" = true.
Proof.
  destruct (CompileActionGlob_form "s3:Get*" (mkGlob "s3:get*" true)) as (H & _ & H' & _).
  - vm_compute. reflexivity.
  - exact (conj H H').
Defined.

End Glob.
