(* ===== verification/Regexp.v ===== *)
(** * Regular expressions (Go's package [regexp])

    The expressions the program compiles are all anchored at both ends, so
    [MatchString] asks whether a whole string is in a language.  The matcher
    works by derivatives; [matches_spec] relates it to the languages.
    Expressions are over bytes: the only class with bytes beyond ASCII is a
    negated one under [+], for which bytes and runes agree. *)

From Stdlib Require Import ZArith Lia Ascii.
From stdpp Require Import base strings list.
From S2P Require Import Prelude GoStrings.

Module Regexp.

Inductive re :=
| Never
| Empty
| Class (p : Z -> bool)
| Cat (r s : re)
| Alt (r s : re)
| Star (r : re).

(** The language of an expression. *)
Inductive lang : re -> string -> Prop :=
| l_empty : lang Empty EmptyString
| l_class p a : p (ord a) = true -> lang (Class p) (String a EmptyString)
| l_cat r s x y : lang r x -> lang s y -> lang (Cat r s) (x ++ y)
| l_left r s x : lang r x -> lang (Alt r s) x
| l_right r s x : lang s x -> lang (Alt r s) x
| l_nil r : lang (Star r) EmptyString
| l_more r x y : lang r x -> lang (Star r) y -> lang (Star r) (x ++ y).

(** Concatenation and union that absorb trivial operands. *)
Definition cat (r s : re) : re :=
  match r with
  | Never => Never
  | Empty => s
  | _ => Cat r s
  end.
Definition alt (r s : re) : re :=
  match r, s with
  | Never, _ => s
  | _, Never => r
  | _, _ => Alt r s
  end.

Fixpoint nullable (r : re) : bool :=
  match r with
  | Never | Class _ => false
  | Empty | Star _ => true
  | Cat r s => nullable r && nullable s
  | Alt r s => nullable r || nullable s
  end.

Fixpoint deriv (c : Z) (r : re) : re :=
  match r with
  | Never | Empty => Never
  | Class p => if p c then Empty else Never
  | Cat r s => if nullable r then alt (cat (deriv c r) s) (deriv c s) else cat (deriv c r) s
  | Alt r s => alt (deriv c r) (deriv c s)
  | Star r => cat (deriv c r) (Star r)
  end.

Fixpoint matches (r : re) (s : string) : bool :=
  match s with
  | EmptyString => nullable r
  | String a s => matches (deriv (ord a) r) s
  end.

(** Literal text, and the repetitions [+], [{n}] and [{0,n}]. *)
Definition lit (s : string) : re := foldr (fun c r => cat (Class (Z.eqb c)) r) Empty (bytes s).
Definition plus (r : re) : re := Cat r (Star r).
Fixpoint times (n : nat) (r : re) : re := match n with O => Empty | S n => cat r (times n r) end.
Fixpoint upto (n : nat) (r : re) : re :=
  match n with O => Empty | S n => Alt Empty (Cat r (upto n r)) end.

(** ** Correctness *)

Lemma lang_cat_inv r s x : lang (Cat r s) x <-> exists y z, x = (y ++ z)%string /\ lang r y /\ lang s z.
Proof. split; [inversion 1; eauto|by intros (y & z & -> & H1 & H2); constructor]. Qed.

Lemma lang_alt_inv r s x : lang (Alt r s) x <-> lang r x \/ lang s x.
Proof. split; [inversion 1; eauto|intros [H|H]; [by apply l_left|by apply l_right]]. Qed.

Lemma lang_never x : ~ lang Never x.
Proof. inversion 1. Qed.

Lemma lang_cat r s x : lang (cat r s) x <-> lang (Cat r s) x.
Proof.
  destruct r; cbn [cat]; try done; rewrite lang_cat_inv.
  - split; [by intros ?%lang_never|by intros (y & z & _ & ?%lang_never & _)].
  - split; [intros H; exists "", x; split_and!; [done|constructor|done]|].
    intros (y & z & -> & Hy & Hz). by inversion Hy.
Qed.

Lemma lang_alt r s x : lang (alt r s) x <-> lang (Alt r s) x.
Proof.
  pose proof (lang_never x). rewrite lang_alt_inv.
  destruct r, s; cbn [alt]; rewrite ?lang_alt_inv; naive_solver.
Qed.

Lemma app_nil_str (x y : string) : (x ++ y)%string = EmptyString -> x = EmptyString /\ y = EmptyString.
Proof. destruct x; [done|discriminate]. Qed.

Lemma nullable_spec r : nullable r = true <-> lang r EmptyString.
Proof.
  induction r as [| |p|r IHr s IHs|r IHr s IHs|r IH]; cbn.
  - split; [done|by inversion 1].
  - split; [constructor|done].
  - split; [done|by inversion 1].
  - rewrite andb_true_iff, IHr, IHs, lang_cat_inv. split.
    + intros [H1 H2]. by exists "", "".
    + intros (y & z & E & H1 & H2). symmetry in E. apply app_nil_str in E as [-> ->]. done.
  - by rewrite orb_true_iff, IHr, IHs, lang_alt_inv.
  - split; [constructor|done].
Qed.

(** The words of a star that begin with a byte. *)
Lemma star_cons r a x : lang (Star r) (String a x) ->
  exists y z, x = (y ++ z)%string /\ lang r (String a y) /\ lang (Star r) z.
Proof.
  remember (Star r) as t eqn:Et. remember (String a x) as w eqn:Ew. intros H. revert Et x Ew.
  induction H as [| | | | | |r' u v Hu _ Hv IH]; intros Et x' Ew; try discriminate.
  destruct u as [|b u]; [by apply IH|].
  injection Et as ->. injection Ew as -> <-. exists u, v. by split_and!.
Qed.

Lemma deriv_spec r a : forall x, lang (deriv (ord a) r) x <-> lang r (String a x).
Proof.
  induction r as [| |p|r IHr s IHs|r IHr s IHs|r IH]; intros x; cbn [deriv].
  - split; inversion 1.
  - split; inversion 1.
  - destruct (p (ord a)) eqn:E.
    + split; [inversion 1; by constructor|inversion 1; constructor].
    + split; [inversion 1|inversion 1; congruence].
  - assert (lang (cat (deriv (ord a) r) s) x <->
      exists y z, x = (y ++ z)%string /\ lang r (String a y) /\ lang s z) as Hc.
    { rewrite lang_cat, lang_cat_inv. by setoid_rewrite IHr. }
    rewrite lang_cat_inv. destruct (nullable r) eqn:En.
    + rewrite lang_alt, lang_alt_inv, Hc, IHs. split.
      * intros [(y & z & -> & H1 & H2)|H]; [by exists (String a y), z|].
        exists "", (String a x). apply nullable_spec in En. done.
      * intros ([|b y] & z & E & H1 & H2); [right; by rewrite E|].
        injection E as <- ->. left. eauto.
    + rewrite Hc. split.
      * intros (y & z & -> & H1 & H2). by exists (String a y), z.
      * intros ([|b y] & z & E & H1 & H2).
        -- apply nullable_spec in H1. congruence.
        -- injection E as <- ->. eauto.
  - by rewrite lang_alt, !lang_alt_inv, IHr, IHs.
  - rewrite lang_cat, lang_cat_inv. split.
    + intros (y & z & -> & H1 & H2). apply IH in H1.
      change (String a (y ++ z)) with (String a y ++ z)%string. by constructor.
    + intros H. apply star_cons in H as (y & z & -> & H1 & H2). exists y, z. by rewrite IH.
Qed.

Lemma matches_spec r s : matches r s = true <-> lang r s.
Proof.
  revert r. induction s as [|a s IH]; intros r; cbn; [apply nullable_spec|].
  by rewrite IH, deriv_spec.
Qed.

(** *** The languages of repetitions *)

Lemma lang_class_inv p x : lang (Class p) x -> exists a, x = String a EmptyString /\ p (ord a) = true.
Proof. inversion 1. eauto. Qed.

Lemma str_cons_app a y : (String a EmptyString ++ y)%string = String a y.
Proof. reflexivity. Qed.

Lemma lang_star_class p s : lang (Star (Class p)) s <-> bytes_all p s = true.
Proof.
  split.
  - remember (Star (Class p)) as t eqn:Et. induction 1 as [| | | | | |r x y Hx _ _ IH]; try discriminate; [done|].
    injection Et as ->. apply lang_class_inv in Hx as (a & -> & Ha). rewrite str_cons_app. cbn. by rewrite Ha, IH.
  - induction s as [|a s IH]; [constructor|]. cbn. intros [H1 H2]%andb_true_iff.
    change (String a s) with (String a "" ++ s)%string. constructor; [by constructor|auto].
Qed.

Lemma lang_plus_class p s : lang (plus (Class p)) s <-> s <> EmptyString /\ bytes_all p s = true.
Proof.
  unfold plus. rewrite lang_cat_inv. split.
  - intros (y & z & -> & Hy & Hz). apply lang_class_inv in Hy as (a & -> & Ha). apply lang_star_class in Hz.
    rewrite str_cons_app. split; [done|]. cbn. by rewrite Ha, Hz.
  - destruct s as [|a s]; [by intros []|]. intros [_ H]. cbn in H. apply andb_true_iff in H as [H1 H2].
    exists (String a ""), s. split_and!; [done|by constructor|by apply lang_star_class].
Qed.

Lemma lang_upto_class n p s : lang (upto n (Class p)) s <-> (String.length s <= n)%nat /\ bytes_all p s = true.
Proof.
  revert s. induction n as [|n IH]; intros s; cbn [upto].
  - split; [inversion 1; by split|]. destruct s; [constructor|cbn; lia].
  - rewrite lang_alt_inv, lang_cat_inv. split.
    + intros [H|(y & z & -> & Hy & Hz)]; [inversion H; split; [cbn; lia|done]|].
      apply lang_class_inv in Hy as (a & -> & Ha). apply IH in Hz as [Hl Hz]. rewrite str_cons_app. cbn. rewrite Ha, Hz. split; [lia|done].
    + destruct s as [|a s]; [left; constructor|]. cbn. intros [Hl [H1 H2]%andb_true_iff]. right.
      exists (String a ""), s. split_and!; [done|by constructor|]. apply IH. split; [lia|done].
Qed.

Lemma lang_times_class n p s : lang (times n (Class p)) s <-> String.length s = n /\ bytes_all p s = true.
Proof.
  revert s. induction n as [|n IH]; intros s; cbn [times].
  - split; [inversion 1; by split|]. destruct s; [constructor|cbn; lia].
  - rewrite lang_cat, lang_cat_inv. split.
    + intros (y & z & -> & Hy & Hz). apply lang_class_inv in Hy as (a & -> & Ha). apply IH in Hz as [Hl Hz].
      rewrite str_cons_app. cbn. rewrite Ha, Hz. split; [lia|done].
    + destruct s as [|a s]; [cbn; lia|]. cbn. intros [Hl [H1 H2]%andb_true_iff].
      exists (String a ""), s. split_and!; [done|by constructor|]. apply IH. split; [lia|done].
Qed.

Lemma lang_lit t s : lang (lit t) s <-> s = t.
Proof.
  revert s. induction t as [|a t IH]; intros s; unfold lit; cbn.
  - split; [by inversion 1|intros ->; constructor].
  - fold (lit t). rewrite lang_cat_inv. split.
    + intros (y & z & -> & Hy & Hz). apply lang_class_inv in Hy as (b & -> & Hb). apply Z.eqb_eq, ord_inj in Hb as ->.
      apply IH in Hz as ->. done.
    + intros ->. exists (String a ""), t. split_and!; [done|constructor; apply Z.eqb_refl|by apply IH].
Qed.
End Regexp.
