(* ===== verification/Lru.v ===== *)
(** * The bounded LRU cache (internal/cache/lru.go)

    The state keeps what the Go code keeps: a map from keys to list elements
    and a doubly linked [container/list], here the sequence of element
    identities (front first) and a store from identities to the entries they
    hold, so that replacing [item.Value] is visible through both.  A nil
    [*LRU] is [None].  The mutex makes every method atomic, so a concurrent
    history is a sequence of operations ([run]).

    The promise to clients is [spec_step] on a most-recently-used-first
    association list; [run_refines] shows that every history of the
    implementation returns exactly what the specification returns. *)

From Stdlib Require Import ZArith Lia.
From stdpp Require Import base gmap fin_maps list strings.
From S2P Require Import Prelude GoStrings.

Module Lru.

(** [uint64] increment. *)
Definition u64_incr (n : Z) : Z := (n + 1) mod 2 ^ 64.

Record Stats := mkStats {
  Hits : Z; Misses : Z; Evictions : Z; Size : Z; Capacity_ : Z
}.

Section LRU.
Context {K V : Type} `{Countable K}.

Record LRU := mkLRU {
  capacity : Z;
  items : gmap K nat;
  order : list nat;
  elems : gmap nat (K * V);
  fresh_elem : nat;
  hits : Z; misses : Z; evictions : Z;
}.

Definition NewLRU (capacity : Z) : result LRU :=
  if capacity <=? 0 then Err (ErrNew "cache capacity must be positive")
  else Ok (mkLRU capacity ∅ [] ∅ 0 0 0 0).

(** [container/list]: moving an element that is not in the list does
    nothing; [Back] of an empty list is nil. *)
Definition MoveToFront (e : nat) (l : list nat) : list nat :=
  if bool_decide (e ∈ l) then e :: filter (fun x => x <> e) l else l.
Definition list_Remove (e : nat) (l : list nat) : list nat :=
  filter (fun x => x <> e) l.

Definition Get (c : option LRU) (key : K) : option V * option LRU :=
  match c with
  | None => (None, None)
  | Some c =>
    match items c !! key with
    | None =>
      (None, Some (mkLRU (capacity c) (items c) (order c) (elems c) (fresh_elem c)
                     (hits c) (u64_incr (misses c)) (evictions c)))
    | Some item =>
      (snd <$> elems c !! item,
       Some (mkLRU (capacity c) (items c) (MoveToFront item (order c)) (elems c)
               (fresh_elem c) (u64_incr (hits c)) (misses c) (evictions c)))
    end
  end.

Definition Add (c : option LRU) (key : K) (value : V) : (bool * bool) * option LRU :=
  match c with
  | None => ((false, false), None)
  | Some c =>
    match items c !! key with
    | Some item =>
      ((true, false),
       Some (mkLRU (capacity c) (items c) (MoveToFront item (order c))
               (<[item := (key, value)]> (elems c)) (fresh_elem c)
               (hits c) (misses c) (evictions c)))
    | None =>
      let item := fresh_elem c in
      let elems' := <[item := (key, value)]> (elems c) in
      let order' := item :: order c in
      let items' := <[key := item]> (items c) in
      let c' := mkLRU (capacity c) items' order' elems' (S item)
                  (hits c) (misses c) (evictions c) in
      if Z.of_nat (List.length order') <=? capacity c then ((false, false), Some c')
      else
        match last order' with
        | None => ((false, false), Some c')
        | Some oldest =>
          match elems' !! oldest with
          | None => ((false, false), Some c') (* unreachable: an element holds an entry *)
          | Some old =>
            ((false, true),
             Some (mkLRU (capacity c) (delete old.1 items') (list_Remove oldest order')
                     elems' (S item) (hits c) (misses c) (u64_incr (evictions c))))
          end
        end
    end
  end.

Definition Put (c : option LRU) (key : K) (value : V) : option LRU := (Add c key value).2.

Definition Remove (c : option LRU) (key : K) : bool * option LRU :=
  match c with
  | None => (false, None)
  | Some c =>
    match items c !! key with
    | None => (false, Some c)
    | Some item =>
      (true, Some (mkLRU (capacity c) (delete key (items c)) (list_Remove item (order c))
                     (elems c) (fresh_elem c) (hits c) (misses c) (evictions c)))
    end
  end.

Definition Len (c : option LRU) : Z :=
  match c with None => 0 | Some c => Z.of_nat (size (items c)) end.

Definition Capacity (c : option LRU) : Z :=
  match c with None => 0 | Some c => capacity c end.

Definition StatsOf (c : option LRU) : Stats :=
  match c with
  | None => mkStats 0 0 0 0 0
  | Some c => mkStats (hits c) (misses c) (evictions c)
                (Z.of_nat (size (items c))) (capacity c)
  end.

Definition Clear (c : option LRU) : option LRU :=
  match c with
  | None => None
  | Some c => Some (mkLRU (capacity c) ∅ [] (elems c) (fresh_elem c)
                      (hits c) (misses c) (evictions c))
  end.

Definition Snapshot (c : option LRU) : list V :=
  match c with
  | None => []
  | Some c => omap (fun e => snd <$> elems c !! e) (order c)
  end.

(** ** Histories *)

Inductive op :=
| OGet (k : K) | OAdd (k : K) (v : V) | ORemove (k : K) | OLen | OSnapshot | OClear.
Inductive out :=
| RGet (v : option V) | RAdd (replaced evicted : bool) | RRemove (present : bool)
| RLen (n : Z) | RSnapshot (vs : list V) | RClear.

Definition step (c : option LRU) (o : op) : out * option LRU :=
  match o with
  | OGet k => let '(v, c') := Get c k in (RGet v, c')
  | OAdd k v => let '((r, e), c') := Add c k v in (RAdd r e, c')
  | ORemove k => let '(b, c') := Remove c k in (RRemove b, c')
  | OLen => (RLen (Len c), c)
  | OSnapshot => (RSnapshot (Snapshot c), c)
  | OClear => (RClear, Clear c)
  end.

Fixpoint run (c : option LRU) (ops : list op) : list out * option LRU :=
  match ops with
  | [] => ([], c)
  | o :: ops =>
    let '(r, c') := step c o in
    let '(rs, c'') := run c' ops in (r :: rs, c'')
  end.

(** ** The specification: a most-recently-used-first association list *)

Definition without (k : K) (l : list (K * V)) : list (K * V) :=
  filter (fun kv => kv.1 <> k) l.
Definition assoc (k : K) (l : list (K * V)) : option V :=
  snd <$> List.find (fun kv => bool_decide (kv.1 = k)) l.

Definition spec_step (cap : Z) (l : list (K * V)) (o : op) : out * list (K * V) :=
  match o with
  | OGet k =>
    match assoc k l with
    | Some v => (RGet (Some v), (k, v) :: without k l)
    | None => (RGet None, l)
    end
  | OAdd k v =>
    match assoc k l with
    | Some _ => (RAdd true false, (k, v) :: without k l)
    | None =>
      if Z.of_nat (List.length l) <? cap then (RAdd false false, (k, v) :: l)
      else (RAdd false true, (k, v) :: removelast l)
    end
  | ORemove k =>
    match assoc k l with
    | Some _ => (RRemove true, without k l)
    | None => (RRemove false, l)
    end
  | OLen => (RLen (Z.of_nat (List.length l)), l)
  | OSnapshot => (RSnapshot l.*2, l)
  | OClear => (RClear, [])
  end.

Fixpoint spec_run (cap : Z) (l : list (K * V)) (ops : list op) : list out * list (K * V) :=
  match ops with
  | [] => ([], l)
  | o :: ops =>
    let '(r, l') := spec_step cap l o in
    let '(rs, l'') := spec_run cap l' ops in (r :: rs, l'')
  end.
End LRU.
Arguments LRU K V {_ _}.
Arguments op K V : clear implicits.
Arguments out V : clear implicits.

Example lru_ex :
  (run (match NewLRU 2 with Ok c => Some c | Err _ => None end)
     [OAdd "a" 1; OAdd "b" 2; OGet "a"; OAdd "c" 3; OGet "b"; OSnapshot]).1
  = [RAdd false false; RAdd false false; RGet (Some 1); RAdd false true; RGet None;
     RSnapshot [3; 1]].
Proof. vm_compute. reflexivity. Qed.

(** ** The representation invariant

    [z] pairs every list element with the entry it holds, in list order. *)

Section Refinement.
Context {K V : Type} `{Countable K}.
Implicit Types (c : LRU K V) (z : list (nat * (K * V))) (l : list (K * V)).

Record rep c z : Prop := {
  rep_order : order c = z.*1;
  rep_ids : NoDup z.*1;
  rep_keys : NoDup z.*2.*1;
  rep_elems : forall p, p ∈ z -> elems c !! p.1 = Some p.2 /\ (p.1 < fresh_elem c)%nat;
  rep_items : forall k e, items c !! k = Some e <-> exists v, (e, (k, v)) ∈ z;
}.

Lemma assoc_cons k k' v l :
  assoc k ((k', v) :: l) = if decide (k' = k) then Some v else assoc k l.
Proof.
  unfold assoc. simpl.
  destruct (decide (k' = k)); [rewrite bool_decide_true by done|rewrite bool_decide_false by done]; done.
Qed.

Lemma assoc_Some k v l : NoDup l.*1 -> assoc k l = Some v <-> (k, v) ∈ l.
Proof.
  induction l as [|[k' v'] l IH]; intros Hn.
  - split; [done|]. by intros ?%not_elem_of_nil.
  - apply NoDup_cons in Hn as [Hk Hn]. rewrite assoc_cons, elem_of_cons.
    case_decide as E; subst.
    + split; [intros [= ->]; by left|]. intros [[= ->]|Hin]; [done|].
      destruct Hk. by apply (list_elem_of_fmap_2 fst _ (k, v)).
    + rewrite IH by done. split; [by right|]. intros [[= -> ->]|?]; done.
Qed.

Lemma assoc_None k l : assoc k l = None <-> k ∉ l.*1.
Proof.
  induction l as [|[k' v'] l IH]; [split; [intros _ ?%not_elem_of_nil|]; done|].
  rewrite assoc_cons. cbn. rewrite not_elem_of_cons. case_decide; subst; [naive_solver|].
  rewrite IH. naive_solver.
Qed.

Lemma without_fmap k z :
  without k z.*2 = (filter (fun p => p.2.1 <> k) z).*2.
Proof. exact (filter_fmap snd (fun kv : K * V => kv.1 <> k) z). Qed.

Lemma ids_fmap e z :
  filter (fun x => x <> e) z.*1 = (filter (fun p => p.1 <> e) z).*1.
Proof. exact (filter_fmap fst (fun x => x <> e) z). Qed.

(** In a well-formed state the element and the key select the same entry. *)
Lemma same_entry z e k v :
  NoDup z.*1 -> NoDup z.*2.*1 -> (e, (k, v)) ∈ z ->
  filter (fun p => p.1 <> e) z = filter (fun p => p.2.1 <> k) z.
Proof.
  intros Hi Hk Hin. apply filter_ext_in.
  intros [e' [k' v']] Hin'. simpl. split; intros Hne E; apply Hne; subst.
  - rewrite <-list_fmap_compose in Hk.
    by pose proof (NoDup_fmap_inj _ _ _ _ Hk Hin Hin' eq_refl) as [= -> ->].
  - by pose proof (NoDup_fmap_inj _ _ _ _ Hi Hin Hin' eq_refl) as [= -> ->].
Qed.

Lemma rep_keys2 z : NoDup z.*2.*1 <-> NoDup ((fun p => p.2.1) <$> z).
Proof. by rewrite <-list_fmap_compose. Qed.

Lemma rep_assoc c z k :
  rep c z -> assoc k z.*2 = items c !! k ≫= fun e => snd <$> elems c !! e.
Proof.
  intros R. destruct (items c !! k) as [e|] eqn:E; simpl.
  - apply (rep_items _ _ R) in E as (v & Hin).
    destruct (rep_elems _ _ R _ Hin) as [Hv _]. simpl in Hv. rewrite Hv. simpl.
    apply assoc_Some; [apply R|]. by apply (list_elem_of_fmap_2 snd _ (e, (k, v))).
  - apply assoc_None. intros Hin.
    apply list_elem_of_fmap in Hin as ([k' v'] & -> & Hin).
    apply list_elem_of_fmap in Hin as ([e kv] & Hkv & Hin).
    simpl in E, Hkv. subst kv. assert (items c !! k' = Some e); [|congruence].
    apply (rep_items _ _ R). eauto.
Qed.

Lemma rep_lookup c z k e v :
  rep c z -> (e, (k, v)) ∈ z -> items c !! k = Some e /\ elems c !! e = Some (k, v).
Proof.
  intros R Hin. split; [apply (rep_items _ _ R); eauto|]. by apply (rep_elems _ _ R _ Hin).
Qed.

Lemma rep_size c z : rep c z -> size (items c) = List.length z.
Proof.
  intros R.
  assert (items c = list_to_map ((fun p => (p.2.1, p.1)) <$> z)) as ->.
  { apply map_eq. intros k. apply option_eq. intros e.
    rewrite (rep_items _ _ R), <-elem_of_list_to_map.
    - rewrite list_elem_of_fmap. split.
      + intros (v & Hin). by exists (e, (k, v)).
      + intros ([e' [k' v]] & [= -> ->] & Hin). eauto.
    - rewrite <-list_fmap_compose. apply rep_keys2, R. }
  rewrite map_size_list_to_map; [by rewrite length_fmap|].
  rewrite <-list_fmap_compose. apply rep_keys2, R.
Qed.

(** Moving an entry to the front, possibly with a new value. *)
Lemma rep_front c z e k v v' c' :
  rep c z -> (e, (k, v)) ∈ z ->
  items c' = items c -> order c' = MoveToFront e (order c) ->
  elems c' = <[e := (k, v')]> (elems c) -> fresh_elem c' = fresh_elem c ->
  rep c' ((e, (k, v')) :: filter (fun p => p.1 <> e) z).
Proof.
  intros R Hin Ei Eo Ee Ef.
  assert (e ∈ order c) as He.
  { rewrite (rep_order _ _ R). by apply (list_elem_of_fmap_2 fst _ (e, (k, v))). }
  split.
  - rewrite Eo. unfold MoveToFront. rewrite bool_decide_true by done.
    by rewrite (rep_order _ _ R), ids_fmap.
  - cbn. apply NoDup_cons. split; [|apply NoDup_filter_fmap, R].
    intros (p & -> & [Hp _]%list_elem_of_filter)%list_elem_of_fmap. done.
  - cbn. rewrite (same_entry z e k v) by (done || apply R).
    apply NoDup_cons. split; [|apply rep_keys2, NoDup_filter_fmap, rep_keys2, R].
    intros (kv & -> & (p & -> & [Hp _]%list_elem_of_filter)%list_elem_of_fmap)%list_elem_of_fmap. done.
  - intros p [->|[Hp Hpz]%list_elem_of_filter]%elem_of_cons; rewrite Ee, Ef; simpl.
    + rewrite lookup_insert_eq. split; [done|]. by apply (rep_elems _ _ R _ Hin).
    + rewrite lookup_insert_ne by done. by apply R.
  - intros k' e'. rewrite Ei, (rep_items _ _ R). split.
    + intros (w & Hw). destruct (decide (e' = e)) as [->|Hne].
      * pose proof (NoDup_fmap_inj fst _ _ _ (rep_ids _ _ R) Hw Hin eq_refl) as [= -> ->].
        exists v'. by left.
      * exists w. right. by apply list_elem_of_filter.
    + intros (w & [[= -> -> ->]|[_ Hw]%list_elem_of_filter]%elem_of_cons); eauto.
Qed.

(** Deleting an entry. *)
Lemma rep_delete c z e k v c' :
  rep c z -> (e, (k, v)) ∈ z ->
  items c' = delete k (items c) -> order c' = list_Remove e (order c) ->
  elems c' = elems c -> fresh_elem c' = fresh_elem c ->
  rep c' (filter (fun p => p.1 <> e) z).
Proof.
  intros R Hin Ei Eo Ee Ef. split.
  - rewrite Eo. unfold list_Remove. by rewrite (rep_order _ _ R), ids_fmap.
  - apply NoDup_filter_fmap, R.
  - rewrite (same_entry z e k v) by (done || apply R).
    apply rep_keys2, NoDup_filter_fmap, rep_keys2, R.
  - intros p [_ Hp]%list_elem_of_filter. rewrite Ee, Ef. by apply R.
  - intros k' e'. rewrite Ei. rewrite (same_entry z e k v) by (done || apply R).
    rewrite lookup_delete. case_decide as E.
    + subst. split; [done|]. by intros (w & [Hw _]%list_elem_of_filter).
    + rewrite (rep_items _ _ R). split; intros (w & Hw); exists w.
      * apply list_elem_of_filter. simpl. by split.
      * by apply list_elem_of_filter in Hw as [_ ?].
Qed.

(** Pushing a fresh entry. *)
Lemma rep_push c z k v c' :
  rep c z -> items c !! k = None ->
  items c' = <[k := fresh_elem c]> (items c) -> order c' = fresh_elem c :: order c ->
  elems c' = <[fresh_elem c := (k, v)]> (elems c) -> fresh_elem c' = S (fresh_elem c) ->
  rep c' ((fresh_elem c, (k, v)) :: z).
Proof.
  intros R Hk Ei Eo Ee Ef.
  assert (forall p, p ∈ z -> p.1 <> fresh_elem c) as Hfresh.
  { intros p Hp. pose proof (rep_elems _ _ R _ Hp). lia. }
  split.
  - rewrite Eo, (rep_order _ _ R). done.
  - cbn. apply NoDup_cons. split; [|apply R].
    intros (p & E & Hp)%list_elem_of_fmap. by apply (Hfresh p).
  - cbn. apply NoDup_cons. split; [|apply R].
    apply assoc_None. by rewrite (rep_assoc _ _ _ R), Hk.
  - intros p [->|Hp]%elem_of_cons; rewrite Ee, Ef; simpl.
    + rewrite lookup_insert_eq. split; [done|lia].
    + rewrite lookup_insert_ne by (symmetry; auto).
      destruct (rep_elems _ _ R _ Hp). split; [done|lia].
  - intros k' e'. rewrite Ei, lookup_insert. case_decide as E.
    + subst. split.
      * intros [= <-]. exists v. by left.
      * intros (w & [[= -> ->]|Hw]%elem_of_cons); [done|].
        assert (items c !! k' = Some e') by (apply (rep_items _ _ R); eauto). congruence.
    + rewrite (rep_items _ _ R). split; intros (w & Hw); exists w; [by right|].
      apply elem_of_cons in Hw as [[= -> -> ->]|?]; done.
Qed.

Lemma filter_head_last (z0 : list (nat * (K * V))) x e kv :
  NoDup (z0 ++ [(e, kv)]).*1 -> x.1 <> e ->
  filter (fun p => p.1 <> e) (x :: z0 ++ [(e, kv)]) = x :: z0.
Proof.
  intros Hn Hx. rewrite filter_cons_True by done. f_equal.
  rewrite fmap_app in Hn. apply NoDup_app in Hn as (_ & Hne & _).
  rewrite filter_app, filter_cons_False, filter_nil, app_nil_r by (simpl; tauto).
  transitivity (filter (fun _ => True) z0).
  - apply filter_ext_in. intros p Hp. split; [done|]. intros _ E.
    apply (Hne p.1); [by apply list_elem_of_fmap_2|]. rewrite E. cbn. by left.
  - clear. induction z0 as [|p z0 IH]; [done|]. rewrite filter_cons_True by done. congruence.
Qed.

Lemma rep_empty c : order c = [] -> items c = ∅ -> rep c [].
Proof.
  intros Eo Ei. split; [done|constructor|constructor| |].
  - by intros p ?%not_elem_of_nil.
  - intros k e. rewrite Ei, lookup_empty. split; [done|].
    by intros (w & ?%not_elem_of_nil).
Qed.

(** ** One step *)

Definition bounded c z : Prop :=
  rep c z /\ 0 < capacity c /\ Z.of_nat (List.length z) <= capacity c.

Lemma get_refines c z k :
  bounded c z -> exists c' z',
    step (Some c) (OGet k) = ((spec_step (capacity c) z.*2 (OGet k)).1, Some c') /\
    bounded c' z' /\ z'.*2 = (spec_step (capacity c) z.*2 (OGet k)).2 /\
    capacity c' = capacity c.
Proof.
  intros (R & Hpos & Hb). cbn [step Get spec_step]. rewrite (rep_assoc _ _ _ R).
  destruct (items c !! k) as [e|] eqn:E; cbn [mbind option_bind].
  - apply (rep_items _ _ R) in E as (v & Hin).
    destruct (rep_lookup _ _ _ _ _ R Hin) as [_ He]. rewrite He. cbn.
    eexists _, ((e, (k, v)) :: filter (fun p => p.1 <> e) z). split; [done|].
    split; [|split; [|done]].
    + split; [|split; [done|]].
      * eapply rep_front; try done. cbn. by rewrite insert_id.
      * cbn. pose proof (length_filter_lt (fun p => p.1 <> e) z _ Hin ltac:(simpl; tauto)). lia.
    + cbn. by rewrite without_fmap, (same_entry z e k v) by (done || apply R).
  - eexists _, z. split; [done|]. split; [|done]. split; [|done].
    by destruct R; split.
Qed.

Lemma remove_refines c z k :
  bounded c z -> exists c' z',
    step (Some c) (ORemove k) = ((spec_step (capacity c) z.*2 (ORemove k)).1, Some c') /\
    bounded c' z' /\ z'.*2 = (spec_step (capacity c) z.*2 (ORemove k)).2 /\
    capacity c' = capacity c.
Proof.
  intros (R & Hpos & Hb). cbn [step Remove spec_step]. rewrite (rep_assoc _ _ _ R).
  destruct (items c !! k) as [e|] eqn:E; cbn [mbind option_bind].
  - apply (rep_items _ _ R) in E as (v & Hin).
    destruct (rep_lookup _ _ _ _ _ R Hin) as [_ He]. rewrite He. cbn.
    eexists _, (filter (fun p => p.1 <> e) z). split; [done|]. split; [|split; [|done]].
    + split; [|split; [done|]]; [by eapply rep_delete|].
      cbn. pose proof (length_filter_lt (fun p => p.1 <> e) z _ Hin ltac:(simpl; tauto)). lia.
    + cbn. by rewrite without_fmap, (same_entry z e k v) by (done || apply R).
  - by eexists _, z.
Qed.

Lemma add_refines c z k v :
  bounded c z -> exists c' z',
    step (Some c) (OAdd k v) = ((spec_step (capacity c) z.*2 (OAdd k v)).1, Some c') /\
    bounded c' z' /\ z'.*2 = (spec_step (capacity c) z.*2 (OAdd k v)).2 /\
    capacity c' = capacity c.
Proof.
  intros (R & Hpos & Hb). cbn [step Add spec_step]. rewrite (rep_assoc _ _ _ R).
  destruct (items c !! k) as [e|] eqn:E; cbn [mbind option_bind].
  { apply (rep_items _ _ R) in E as (w & Hin).
    destruct (rep_lookup _ _ _ _ _ R Hin) as [_ He]. rewrite He. cbn.
    eexists _, ((e, (k, v)) :: filter (fun p => p.1 <> e) z). split; [done|].
    split; [|split; [|done]].
    + split; [|split; [done|]]; [by eapply rep_front|].
      cbn. pose proof (length_filter_lt (fun p => p.1 <> e) z _ Hin ltac:(simpl; tauto)). lia.
    + cbn. by rewrite without_fmap, (same_entry z e k w) by (done || apply R). }
  set (c1 := mkLRU (capacity c) _ _ _ _ _ _ _).
  assert (rep c1 ((fresh_elem c, (k, v)) :: z)) as R1 by (by eapply rep_push).
  cbn [List.length]. rewrite (rep_order _ _ R), !length_fmap.
  destruct (Z.leb_spec (Z.of_nat (S (List.length z))) (capacity c)),
    (Z.ltb_spec (Z.of_nat (List.length z)) (capacity c)); try lia.
  { eexists _, ((fresh_elem c, (k, v)) :: z). split; [done|]. split; [|done].
    split; [done|]. cbn. lia. }
  destruct z as [|[e [ko vo]] z0 _] using rev_ind; [simpl in *; lia|].
  assert (rep c1 ((fresh_elem c, (k, v)) :: z0 ++ [(e, (ko, vo))])) as R2 by done.
  destruct (rep_elems _ _ R2 (e, (ko, vo)) ltac:(set_solver)) as [He _].
  assert (fresh_elem c <> e).
  { pose proof (rep_elems _ _ R (e, (ko, vo)) ltac:(set_solver)) as [_ Hlt]. simpl in Hlt. lia. }
  rewrite fmap_app. cbn [fmap list_fmap fst]. rewrite app_comm_cons, last_snoc.
  change (elems c1 !! e = Some (ko, vo)) in He. unfold c1 in He. cbn [elems] in He. rewrite He.
  eexists _, ((fresh_elem c, (k, v)) :: z0). split; [done|]. split; [|split; [|done]].
  - split; [|split; [done|]].
    + rewrite <-(filter_head_last z0 (fresh_elem c, (k, v)) e (ko, vo)) by (apply R || done).
      eapply (rep_delete c1 _ e ko vo); try done; [set_solver|].
      cbn. rewrite (rep_order _ _ R), fmap_app. done.
    + rewrite length_app in Hb. cbn in *. lia.
  - cbn. rewrite fmap_app. cbn. by rewrite removelast_last.
Qed.

Lemma step_refines c z o :
  bounded c z -> exists c' z',
    step (Some c) o = ((spec_step (capacity c) z.*2 o).1, Some c') /\
    bounded c' z' /\ z'.*2 = (spec_step (capacity c) z.*2 o).2 /\
    capacity c' = capacity c.
Proof.
  intros B. destruct o as [k|k v|k| | |].
  - by apply get_refines.
  - by apply add_refines.
  - by apply remove_refines.
  - exists c, z. split; [|done]. cbn. rewrite (rep_size c z), length_fmap by apply B. done.
  - exists c, z. split; [|done]. cbn. f_equal. f_equal.
    destruct B as (R & _). rewrite (rep_order _ _ R).
    pose proof (rep_elems _ _ R) as He. clear R.
    induction z as [|[e kv] z IH]; [done|]. cbn.
    destruct (He (e, kv) ltac:(left)) as [Hkv _]. simpl in Hkv. rewrite Hkv. cbn. f_equal.
    apply IH. intros p Hp. apply He. by right.
  - destruct B as (R & Hpos & _). eexists _, []. split; [done|].
    split; [|done]. split; [|split; [done|cbn; lia]].
    by apply rep_empty.
Qed.

Lemma run_refines c z ops :
  bounded c z -> exists c' z',
    run (Some c) ops = ((spec_run (capacity c) z.*2 ops).1, Some c') /\
    bounded c' z' /\ z'.*2 = (spec_run (capacity c) z.*2 ops).2 /\
    capacity c' = capacity c.
Proof.
  revert c z. induction ops as [|o ops IH]; intros c z B; [by exists c, z|].
  destruct (step_refines c z o B) as (c1 & z1 & E1 & B1 & Ez & Ec).
  destruct (IH c1 z1 B1) as (c2 & z2 & E2 & B2 & Ez2 & Ec2).
  exists c2, z2. cbn [run spec_run]. rewrite E1, E2, Ec, Ez in *.
  destruct (spec_step _ _ o) as [r l1]. cbn [snd fst] in *.
  destruct (spec_run _ l1 ops) as [rs l2]. cbn in *. split; [done|]. split; [done|]. split; [done|congruence].
Qed.

Lemma new_bounded cap c : NewLRU cap = Ok c -> bounded c [] /\ capacity c = cap.
Proof.
  unfold NewLRU. destruct (Z.leb_spec cap 0); [done|]. intros [= <-].
  split; [|done]. split; [|cbn; lia]. by apply rep_empty.
Qed.
End Refinement.

(** ** What the specification retains *)

Section Retention.
Context {K V : Type} `{Countable K}.
Implicit Types (l : list (K * V)) (k : K) (v : V).

(** [k ↦ v] is resident with at most [n] more recently used entries. *)
Definition resident k v (n : nat) l : Prop :=
  exists l1 l2, l = l1 ++ (k, v) :: l2 /\ k ∉ l1.*1 /\ (List.length l1 <= n)%nat.

(** The operation neither removes nor replaces [k]. *)
Definition harmless k (o : op K V) : bool :=
  match o with
  | OGet _ | OLen | OSnapshot => true
  | OAdd k' _ => negb (bool_decide (k' = k))
  | ORemove k' => negb (bool_decide (k' = k))
  | OClear => false
  end.

Lemma assoc_resident k v n l : resident k v n l -> assoc k l = Some v.
Proof.
  intros (l1 & l2 & -> & Hk & _). induction l1 as [|[k' v'] l1 IH]; cbn -[assoc].
  - rewrite assoc_cons. by case_decide.
  - cbn in Hk. apply not_elem_of_cons in Hk as [Hne Hk].
    rewrite assoc_cons. case_decide; [congruence|]. by apply IH.
Qed.

Lemma without_app k l1 l2 : without k (l1 ++ l2) = without k l1 ++ without k l2.
Proof. unfold without. apply filter_app. Qed.

Lemma resident_without k k' v n l :
  k' <> k -> resident k v n l -> resident k v n (without k' l).
Proof.
  intros Hne (l1 & l2 & -> & Hk & Hn). exists (without k' l1), (without k' l2).
  rewrite without_app. unfold without. rewrite (filter_cons_True _ (k, v)) by done.
  split; [done|]. split.
  - intros (p & -> & [_ Hp]%list_elem_of_filter)%list_elem_of_fmap.
    apply Hk. by apply list_elem_of_fmap_2.
  - pose proof (length_filter (fun kv => kv.1 <> k') l1). lia.
Qed.

Lemma resident_push k k' v v' n l :
  k' <> k -> resident k v n l -> resident k v (S n) ((k', v') :: l).
Proof.
  intros Hne (l1 & l2 & -> & Hk & Hn). exists ((k', v') :: l1), l2. split; [done|]. split.
  - cbn. apply not_elem_of_cons. split; [congruence|done].
  - cbn. lia.
Qed.

Lemma resident_removelast k v n l :
  resident k v n l -> (S n < List.length l)%nat -> resident k v n (removelast l).
Proof.
  intros (l1 & l2 & -> & Hk & Hn) Hl. exists l1, (removelast l2). split; [|done].
  rewrite length_app in Hl. cbn in Hl.
  rewrite removelast_app by done. destruct l2; [simpl in *; lia|done].
Qed.

Lemma resident_step cap k v n l (o : op K V) :
  resident k v n l -> harmless k o = true ->
  Z.of_nat (List.length l) <= cap -> Z.of_nat (S n) < cap ->
  resident k v (S n) (spec_step cap l o).2 .
Proof.
  intros R Ho Hl Hn. assert (resident k v (S n) l) as R'.
  { destruct R as (l1 & l2 & -> & ? & ?). exists l1, l2. repeat split; [done|lia]. }
  destruct o as [k'|k' v'|k'| | |]; try done; cbn [spec_step harmless] in *.
  - destruct (assoc k' l) as [w|] eqn:E; [|done].
    destruct (decide (k' = k)) as [->|Hne].
    + rewrite (assoc_resident _ _ _ _ R) in E. injection E as <-.
      exists [], (without k l). split; [done|]. split; [apply not_elem_of_nil|cbn; lia].
    + apply resident_push; [done|]. by apply resident_without.
  - apply negb_true_iff, bool_decide_eq_false in Ho.
    destruct (assoc k' l) as [w|] eqn:E.
    + apply resident_push; [done|]. by apply resident_without.
    + destruct (Z.ltb_spec (Z.of_nat (List.length l)) cap).
      * by apply resident_push.
      * apply resident_push; [done|]. apply resident_removelast; [done|lia].
  - apply negb_true_iff, bool_decide_eq_false in Ho.
    destruct (assoc k' l); [by apply resident_without|done].
Qed.

Lemma spec_step_length cap l (o : op K V) :
  0 < cap -> NoDup l.*1 -> Z.of_nat (List.length l) <= cap ->
  NoDup (spec_step cap l o).2.*1 /\ Z.of_nat (List.length (spec_step cap l o).2) <= cap.
Proof.
  intros Hc Hn Hl.
  assert (forall k v, assoc k l = Some v ->
    (S (List.length (without k l)) <= List.length l)%nat) as Hlen.
  { intros k v E. apply assoc_Some in E; [|done].
    pose proof (length_filter_lt (fun kv => kv.1 <> k) l _ E ltac:(simpl; tauto)).
    unfold without. lia. }
  assert (forall k, NoDup (without k l).*1) as Hw by (intros; by apply NoDup_filter_fmap).
  assert (forall k v, NoDup ((k, v) :: without k l).*1) as Hcw.
  { intros k v. cbn. apply NoDup_cons. split; [|done].
    by intros (p & -> & [Hp _]%list_elem_of_filter)%list_elem_of_fmap. }
  destruct o as [k'|k' v'|k'| | |]; cbn [spec_step]; try done.
  - destruct (assoc k' l) as [w|] eqn:E; [|done]. split; [apply Hcw|].
    specialize (Hlen _ _ E). cbn. lia.
  - destruct (assoc k' l) as [w|] eqn:E.
    + split; [apply Hcw|]. specialize (Hlen _ _ E). cbn. lia.
    + apply assoc_None in E.
      destruct (Z.ltb_spec (Z.of_nat (List.length l)) cap); cbn.
      * split; [by apply NoDup_cons|lia].
      * destruct l as [|p l0 _] using rev_ind; [simpl in *; lia|].
        rewrite removelast_last. rewrite fmap_app in *. apply NoDup_app in Hn as (Hn & _ & _).
        split; [|rewrite length_app in *; cbn in *; lia].
        apply NoDup_cons. split; [|done]. intros Hin. apply E. apply elem_of_app. by left.
  - destruct (assoc k' l) as [w|] eqn:E; [|done]. split; [apply Hw|].
    specialize (Hlen _ _ E). cbn. lia.
  - cbn. split; [constructor|lia].
Qed.

Lemma resident_run cap k v (ops : list (op K V)) :
  forall n l, resident k v n l -> forallb (harmless k) ops = true ->
  NoDup l.*1 -> Z.of_nat (List.length l) <= cap ->
  Z.of_nat (n + List.length ops) < cap ->
  assoc k (spec_run cap l ops).2 = Some v.
Proof.
  induction ops as [|o ops IH]; intros n l R Ho Hnd Hl Hn; [by eapply assoc_resident|].
  cbn [forallb] in Ho. bool_hyps. cbn [spec_run List.length] in *.
  pose proof (resident_step cap k v n l o R ltac:(done) Hl ltac:(lia)) as R'.
  destruct (spec_step_length cap l o ltac:(lia) Hnd Hl) as [Hnd' Hl'].
  destruct (spec_step cap l o) as [r l1]. cbn [snd] in *.
  specialize (IH (S n) l1 R' ltac:(done) Hnd' Hl' ltac:(lia)).
  by destruct (spec_run cap l1 ops).
Qed.

Lemma spec_run_app cap l (ops1 ops2 : list (op K V)) :
  spec_run cap l (ops1 ++ ops2) =
  let '(rs1, l1) := spec_run cap l ops1 in
  let '(rs2, l2) := spec_run cap l1 ops2 in (rs1 ++ rs2, l2).
Proof.
  revert l. induction ops1 as [|o ops1 IH]; intros l; cbn [spec_run app].
  - by destruct (spec_run cap l ops2).
  - destruct (spec_step cap l o) as [r l1]. rewrite IH.
    destruct (spec_run cap l1 ops1) as [rs1 l2]. by destruct (spec_run cap l2 ops2).
Qed.

Lemma spec_run_length cap l (ops : list (op K V)) :
  0 < cap -> NoDup l.*1 -> Z.of_nat (List.length l) <= cap ->
  NoDup (spec_run cap l ops).2.*1 /\ Z.of_nat (List.length (spec_run cap l ops).2) <= cap.
Proof.
  intros Hc. revert l. induction ops as [|o ops IH]; intros l Hn Hl; [done|].
  cbn [spec_run]. destruct (spec_step_length cap l o Hc Hn Hl) as [Hn' Hl'].
  destruct (spec_step cap l o) as [r l1]. specialize (IH l1 Hn' Hl').
  by destruct (spec_run cap l1 ops).
Qed.

Lemma add_resident cap k v l :
  resident k v 0 (spec_step cap l (OAdd k v)).2.
Proof.
  cbn [spec_step]. destruct (assoc k l); [|case_if]; cbn;
    eexists [], _; (split; [done|]); (split; [apply not_elem_of_nil|cbn; lia]).
Qed.
End Retention.

(** ** The promise to clients

    A client that only gets and puts needs no more than this: what a cache
    returns was put there. *)

Class Cache (C K V : Type) := {
  cache_get : C -> K -> option V * C;
  cache_put : C -> K -> V -> C;
  cache_inv : C -> Prop;
  cache_get_inv c k : cache_inv c -> cache_inv (cache_get c k).2;
  cache_put_inv c k v : cache_inv c -> cache_inv (cache_put c k v);
  cache_get_get c k k' :
    cache_inv c -> (cache_get (cache_get c k).2 k').1 = (cache_get c k').1;
  cache_get_put c k v k' v' :
    cache_inv c -> (cache_get (cache_put c k v) k').1 = Some v' ->
    (k' = k /\ v' = v) \/ (cache_get c k').1 = Some v';
}.

Section Interface.
Context {K V : Type} `{Countable K}.
Implicit Types (c : LRU K V) (z : list (nat * (K * V))) (l : list (K * V)) (k : K) (v : V).

Definition lru_inv (c : option (LRU K V)) : Prop :=
  match c with None => True | Some c => exists z, bounded c z end.

Lemma Get_assoc c z k : bounded c z -> (Get (Some c) k).1 = assoc k z.*2.
Proof.
  intros B. destruct (get_refines c z k B) as (c' & z' & E & _). cbn [step] in E.
  destruct (Get (Some c) k) as [r c0]. cbn [spec_step] in E.
  destruct (assoc k z.*2); cbn in E; by injection E as -> _.
Qed.

Lemma Get_bounded c z k : bounded c z -> exists c' z',
  (Get (Some c) k).2 = Some c' /\ bounded c' z' /\
  z'.*2 = (spec_step (capacity c) z.*2 (OGet k)).2.
Proof.
  intros B. destruct (get_refines c z k B) as (c' & z' & E & B' & Ez & _).
  exists c', z'. cbn [step] in E. destruct (Get (Some c) k) as [r c0]. by injection E as _ ->.
Qed.

Lemma Put_bounded c z k v : bounded c z -> exists c' z',
  Put (Some c) k v = Some c' /\ bounded c' z' /\
  z'.*2 = (spec_step (capacity c) z.*2 (OAdd k v)).2.
Proof.
  intros B. destruct (add_refines c z k v B) as (c' & z' & E & B' & Ez & _).
  exists c', z'. unfold Put. cbn [step] in E.
  destruct (Add (Some c) k v) as [[r1 r2] c0]. by injection E as _ ->.
Qed.

Lemma assoc_without k k' l : assoc k (without k' l : list (K * V)) = if decide (k = k') then None else assoc k l.
Proof.
  induction l as [|[k0 v0] l IH]; [by case_decide|]. unfold without in *. rewrite filter_cons.
  cbn [fst]. destruct (decide (k0 <> k')); rewrite !assoc_cons, IH; repeat case_decide; naive_solver.
Qed.

Lemma assoc_app k (l1 l2 : list (K * V)) v : assoc k l1 = Some v -> assoc k (l1 ++ l2) = Some v.
Proof.
  induction l1 as [|[k0 v0] l1 IH]; [done|]. cbn [app]. rewrite !assoc_cons.
  case_decide; [done|auto].
Qed.

Lemma assoc_removelast k (l : list (K * V)) v :
  assoc k (removelast l) = Some v -> assoc k l = Some v.
Proof.
  intros Ha. destruct l as [|x l]; [done|].
  rewrite (app_removelast_last x (l := x :: l)) by done. by apply assoc_app.
Qed.

#[export] Program Instance lru_cache : Cache (option (LRU K V)) K V := {|
  cache_get := Get; cache_put := Put; cache_inv := lru_inv;
|}.
Next Obligation.
  intros [c|] k; [|done]. intros [z B]. destruct (Get_bounded c z k B) as (c' & z' & -> & B' & _).
  by exists z'.
Qed.
Next Obligation.
  intros [c|] k v; [|done]. intros [z B].
  destruct (Put_bounded c z k v B) as (c' & z' & -> & B' & _). by exists z'.
Qed.
Next Obligation.
  intros [c|] k k'; [|done]. intros [z B].
  destruct (Get_bounded c z k B) as (c' & z' & E & B' & Ez). rewrite E.
  rewrite (Get_assoc c' z'), (Get_assoc c z) by done. rewrite Ez. cbn [spec_step].
  destruct (assoc k z.*2) as [v|] eqn:Ha; cbn [snd]; [|done].
  rewrite assoc_cons, assoc_without. repeat case_decide; naive_solver.
Qed.
Next Obligation.
  intros [c|] k v k' v'; [|done]. intros [z B].
  destruct (Put_bounded c z k v B) as (c' & z' & E & B' & Ez). rewrite E.
  rewrite (Get_assoc c' z'), (Get_assoc c z) by done. rewrite Ez. cbn [spec_step].
  destruct (assoc k z.*2) as [w|] eqn:Ha; [|case_if]; cbn [snd]; rewrite assoc_cons;
    (case_decide as Hk; [intros [= ->]; by left|right]).
  - rewrite assoc_without in *. by case_decide.
  - done.
  - by apply assoc_removelast.
Qed.

Lemma NewLRU_inv cap c : NewLRU cap = Ok c -> lru_inv (Some c) /\ forall k, (Get (Some c) k).1 = None.
Proof.
  intros Hc. destruct (new_bounded _ _ Hc) as [B _]. split; [by exists []|].
  intros k. by rewrite (Get_assoc c []).
Qed.
End Interface.

(** ** Claims *)

Section Claims.
Context {K V : Type} `{Countable K}.

(** C24. Refinement: on every history of operations a new cache returns
    exactly what the most-recently-used-first specification returns, and its
    snapshot is the specification's list. *)
Theorem lru_refines_spec (cap : Z) (c : LRU K V) (ops : list (op K V)) :
  NewLRU cap = Ok c ->
  (run (Some c) ops).1 = (spec_run cap [] ops).1 /\
  Snapshot (run (Some c) ops).2 = (spec_run cap [] ops).2.*2.
Proof.
  intros Hc. destruct (new_bounded _ _ Hc) as [B Ec].
  destruct (run_refines c [] ops B) as (c' & z' & E & B' & Ez & _).
  rewrite E, <-Ec. cbn [fst snd]. split; [done|].
  destruct (step_refines c' z' OSnapshot B') as (? & ? & Hs & _).
  cbn in Hs. injection Hs as Hs. cbn [fmap list_fmap] in Ez. by rewrite <-Ez.
Qed.

(** The capacity bound is an invariant: after any history the cache
    holds at most its fixed capacity of entries. *)
Theorem lru_never_exceeds_capacity (cap : Z) (c : LRU K V) (ops : list (op K V)) :
  NewLRU cap = Ok c ->
  0 <= Len (run (Some c) ops).2 <= cap /\ Capacity (run (Some c) ops).2 = cap.
Proof.
  intros Hc. destruct (new_bounded _ _ Hc) as [B Ec].
  destruct (run_refines c [] ops B) as (c' & z' & E & (R & Hp & Hl) & _ & Ec').
  rewrite E. cbn [snd Len Capacity]. rewrite (rep_size _ _ R). lia.
Qed.

(** Recency: after [Add k v], an entry survives any history of fewer
    than [cap] operations that does not itself remove or replace it,
    whatever was in the cache before. *)
Theorem lru_keeps_recent (cap : Z) (c : LRU K V) (before after : list (op K V)) (k : K) (v : V) :
  NewLRU cap = Ok c ->
  forallb (harmless k) after = true ->
  Z.of_nat (List.length after) < cap ->
  (Get (run (Some c) (before ++ OAdd k v :: after)).2 k).1 = Some v.
Proof.
  intros Hc Ha Hn. destruct (new_bounded _ _ Hc) as [B Ec].
  destruct (run_refines c [] (before ++ OAdd k v :: after) B) as (c' & z' & E & B' & Ez & Ec').
  rewrite E. cbn [snd].
  assert (assoc k z'.*2 = Some v) as Hk.
  { rewrite Ez, spec_run_app, Ec.
    destruct (spec_run_length cap ([] : list (K * V)) before ltac:(destruct B; lia) ltac:(constructor)
      ltac:(destruct B; cbn; lia)) as [Hn1 Hl1]. cbn [fmap list_fmap].
    destruct (spec_run cap [] before) as [rs l1]. cbn [snd] in *.
    cbn [spec_run].
    destruct (spec_step_length cap l1 (OAdd k v) ltac:(destruct B; lia) Hn1 Hl1) as [Hn2 Hl2].
    pose proof (add_resident cap k v l1) as R.
    destruct (spec_step cap l1 (OAdd k v)) as [r l2]. cbn [snd] in *.
    pose proof (resident_run cap k v after 0 l2 R Ha Hn2 Hl2 ltac:(lia)) as Hres.
    by destruct (spec_run cap l2 after). }
  destruct (get_refines c' z' k B') as (c2 & z2 & Hs & _).
  cbn [step spec_step] in Hs. rewrite Hk in Hs. cbn [fst] in Hs.
  destruct (Get (Some c') k) as [o c3]. cbn. by injection Hs.
Qed.
End Claims.

Lemma lru_refines_spec_witness :
  (run (match NewLRU 2 with Ok c => Some c | Err _ => None end)
     [OAdd "a" 1; OAdd "b" 2; OAdd "c" 3; OGet "a"]).1
  = [RAdd false false; RAdd false false; RAdd false true; RGet None].
Proof.
  exact (proj1 (lru_refines_spec 2 _ [OAdd "a" 1; OAdd "b" 2; OAdd "c" 3; OGet "a"] eq_refl)).
Defined.

Lemma lru_never_exceeds_capacity_witness :
  0 <= Len (run (match NewLRU 2 with Ok c => Some c | Err _ => None end)
     [OAdd "a" 1; OAdd "b" 2; OAdd "c" 3]).2 <= 2.
Proof.
  exact (proj1 (lru_never_exceeds_capacity 2 _ [OAdd "a" 1; OAdd "b" 2; OAdd "c" 3] eq_refl)).
Defined.

Lemma lru_keeps_recent_witness :
  (Get (run (match NewLRU 2 with Ok c => Some c | Err _ => None end)
     ([OAdd "a" 1; OAdd "b" 2] ++ OAdd "c" 3 :: [OAdd "d" 4])).2 "c").1 = Some 3.
Proof.
  exact (lru_keeps_recent 2 _ [OAdd "a" 1; OAdd "b" 2] [OAdd "d" 4] "c" 3
    eq_refl eq_refl eq_refl).
Defined.

End Lru.
