(* ===== verification/AwsTypes.v ===== *)
(** * The shared request contracts (internal/awsrequest: protocol.go, types.go,
      the endpoint identity of endpoint.go)

    Go's string enumerations stay strings, with their [Valid]/[Supported]
    predicates.  A [map[string]Value] of decoded parameters is the association
    list of its entries in some iteration order: what the code computes from it
    is a function of that order unless proved otherwise.  A nil pointer or a
    nil map is [None]. *)

From Stdlib Require Import ZArith Lia Ascii.
From Stdlib Require Import SpecFloat.
From stdpp Require Import base gmap strings list.
From S2P Require Import Prelude GoStrings.

Module AwsTypes.

(** ** protocol.go *)

Definition ProtocolJSON10 : string := "json1.0".
Definition ProtocolJSON11 : string := "json1.1".
Definition ProtocolQuery : string := "query".
Definition ProtocolEC2Query : string := "ec2-query".
Definition ProtocolRESTJSON : string := "rest-json".
Definition ProtocolRESTXML : string := "rest-xml".

Definition mem_str (s : string) (l : list string) : bool := existsb (String.eqb s) l.

(** [AWSProtocol.Supported]. *)
Definition protocolSupported (p : string) : bool :=
  mem_str p [ProtocolJSON10; ProtocolJSON11; ProtocolQuery; ProtocolEC2Query;
             ProtocolRESTJSON; ProtocolRESTXML].

Definition SigningHeaderV4 : string := "header-sigv4".
(** [SigningScheme.Supported]. *)
Definition schemeSupported (s : string) : bool := (s =? SigningHeaderV4)%string.

Definition PayloadHashSHA256 : string := "sha256".
Definition PayloadHashEmpty : string := "empty".
Definition PayloadHashUnsigned : string := "unsigned-payload".
(** [PayloadHashMode.Supported] and [Valid]. *)
Definition payloadValid (m : string) : bool :=
  mem_str m [PayloadHashSHA256; PayloadHashEmpty; PayloadHashUnsigned].

(** ** Decoded parameter values *)

Inductive Value := mkValue {
  Kind : string;
  StringV : string;
  BoolV : bool;
  IntV : Z;
  FloatV : spec_float;
  ObjectV : list (string * Value);
  ArrayV : list Value;
}.

Definition ValueNull : string := "null".
Definition ValueString : string := "string".
Definition ValueBoolean : string := "boolean".
Definition ValueInteger : string := "integer".
Definition ValueNumber : string := "number".
Definition ValueObject : string := "object".
Definition ValueArray : string := "array".

Definition vstring (s : string) : Value := mkValue ValueString s false 0 (S754_zero false) [] [].
Definition vobject (o : list (string * Value)) : Value :=
  mkValue ValueObject EmptyString false 0 (S754_zero false) o [].
Definition varray (a : list Value) : Value :=
  mkValue ValueArray EmptyString false 0 (S754_zero false) [] a.

(** [1.7976931348623157e+308], the largest float64. *)
Definition max_float64 : spec_float := S754_finite false 9007199254740991 971.

Definition notFinite (f : spec_float) : bool :=
  negb (SFeqb f f) || SFltb max_float64 f || SFltb f (SFopp max_float64).

(** [Value.validate]. *)
Fixpoint validateValue (v : Value) (depth : Z) : option error :=
  if 64 <? depth then Some (ErrNew "parameter value nesting exceeds 64 levels")
  else if mem_str (Kind v) [ValueNull; ValueString; ValueBoolean; ValueInteger] then None
  else if (Kind v =? ValueNumber)%string then
    if notFinite (FloatV v) then Some (ErrNew "number parameter is not finite") else None
  else if (Kind v =? ValueObject)%string then
    (fix entries (l : list (string * Value)) : option error :=
       match l with
       | [] => None
       | (key, value) :: l =>
         if blank key then Some (ErrNew "object parameter key is empty")
         else match validateValue value (depth + 1) with
              | Some err => Some (ErrWrap "object parameter %q: %w" [key] err)
              | None => entries l
              end
       end) (ObjectV v)
  else if (Kind v =? ValueArray)%string then
    (fix entries (i : Z) (l : list Value) : option error :=
       match l with
       | [] => None
       | value :: l =>
         match validateValue value (depth + 1) with
         | Some err => Some (ErrWrap "array parameter %d: %w" [Itoa i] err)
         | None => entries (i + 1) l
         end
       end) 0 (ArrayV v)
  else Some (ErrFmt "unsupported parameter value kind %q" [Kind v]).

(** [Value.Validate]. *)
Definition Value_Validate (v : Value) : option error := validateValue v 0.

(** ** endpoint.go: identities *)

Definition ScopeRegional : string := "regional".
Definition ScopeGlobal : string := "global".

Record AWSEndpoint := mkEndpoint {
  ep_Partition : string;
  ep_Host : string;
  ep_Service : string;
  ep_SigningService : string;
  ep_SigningRegion : string;
  ep_Region : string;
  ep_Global : bool;
  ep_Scope : string;
  ep_FIPS : bool;
  ep_DualStack : bool;
  ep_AccountID : string;
}.

#[export] Instance AWSEndpoint_eq_dec : EqDecision AWSEndpoint.
Proof. solve_decision. Defined.

Definition zeroEndpoint : AWSEndpoint :=
  mkEndpoint "" "" "" "" "" "" false "" false false "".

Definition IsGlobal (e : AWSEndpoint) : bool :=
  ep_Global e || (ep_Scope e =? ScopeGlobal)%string.

Definition EffectiveScope (e : AWSEndpoint) : string :=
  if IsGlobal e then ScopeGlobal else ScopeRegional.

(** [label == "" || len(label) > 63 || label[0] == '-' || label[len-1] == '-'] *)
Definition badLabelShape (label : string) : bool :=
  (label =? "")%string || (63 <? slen label) ||
  bool_decide (byte_at label 0 = Some (ord "-")) ||
  bool_decide (byte_at label (slen label - 1) = Some (ord "-")).

Definition lowerDNSRune (r : Z) : bool := is_lower r || is_digit r || (r =? ord "-").
Definition mixedDNSRune (r : Z) : bool :=
  is_upper r || is_lower r || is_digit r || (r =? ord "-").

(** The loop over DNS labels shared by the validators: [shape] and [syntax] are
    the two errors it returns. *)
Fixpoint checkLabels (okRune : Z -> bool) (shape syntax : string) (labels : list string)
  : option error :=
  match labels with
  | [] => None
  | label :: labels =>
    if badLabelShape label then Some (ErrNew shape)
    else if existsb (fun r => negb (okRune r)) (runes label) then Some (ErrNew syntax)
    else checkLabels okRune shape syntax labels
  end.

Definition ValidateSigningService (value : string) : option error :=
  if (value =? "")%string || (128 <? slen value)
  then Some (ErrNew "signing service must be non-empty and bounded")
  else checkLabels mixedDNSRune
         "signing service must contain non-empty DNS-like labels"
         "signing service contains unsupported syntax" (Split value ".").

Definition validSigningIdentity (value : string) : bool :=
  err_nil (ValidateSigningService value).

Definition validSigningRegion (value : string) : bool :=
  if (value =? "")%string || (64 <? slen value) then false
  else forallb lowerDNSRune (runes value).

Definition validateEndpointAccountID (value : string) : option error :=
  if (value =? "")%string then None
  else if negb (slen value =? 12)
  then Some (ErrNew "endpoint account ID must be exactly 12 ASCII digits")
  else if existsb (fun r => negb (is_digit r)) (runes value)
  then Some (ErrNew "endpoint account ID must be exactly 12 ASCII digits")
  else None.

(** decode_json.go *)
Definition validateCallerAccountID (account : string) : option error :=
  if (account =? "")%string then None
  else if negb (slen account =? 12)
  then Some (ErrNew "must be empty or exactly 12 ASCII digits")
  else if negb (bytes_all is_digit account)
  then Some (ErrNew "must be empty or exactly 12 ASCII digits")
  else None.

Definition validOperation (s : string) : bool :=
  if (s =? "")%string then false
  else forallb (fun r => is_upper r || is_lower r || is_digit r) (runes s).

Definition EndpointIdentityEqual (a b : AWSEndpoint) : bool :=
  let serviceMatch := (ep_SigningService a =? "")%string || (ep_SigningService b =? "")%string ||
                      (ep_SigningService a =? ep_SigningService b)%string in
  let regionMatch := (ep_SigningRegion a =? "")%string || (ep_SigningRegion b =? "")%string ||
                     (ep_SigningRegion a =? ep_SigningRegion b)%string in
  (ep_Partition a =? ep_Partition b)%string && (ep_Host a =? ep_Host b)%string &&
  (ep_Service a =? ep_Service b)%string && (ep_Region a =? ep_Region b)%string &&
  (EffectiveScope a =? EffectiveScope b)%string &&
  Bool.eqb (ep_FIPS a) (ep_FIPS b) && Bool.eqb (ep_DualStack a) (ep_DualStack b) &&
  (ep_AccountID a =? ep_AccountID b)%string && serviceMatch && regionMatch.

Definition SameEndpoint (a b : AWSEndpoint) : bool := EndpointIdentityEqual a b.

Section Validators.
Context `{U : UnicodeTables}.

Definition validateEndpointService (value : string) : option error :=
  if (value =? "")%string || (253 <? slen value) || negb (value =? ToLower value)%string
  then Some (ErrNew "must be a lowercase DNS-like API prefix")
  else checkLabels lowerDNSRune "must contain non-empty DNS-like labels"
         "must contain only ASCII DNS-like labels" (Split value ".").

(** [AWSEndpoint.Validate]. *)
Definition Endpoint_Validate (e : AWSEndpoint) : option error :=
  if blank (ep_Partition e) then Some (ErrNew "endpoint partition is required")
  else if blank (ep_Host e) then Some (ErrNew "endpoint host is required")
  else if (253 <? slen (ep_Host e)) || negb (ep_Host e =? ToLower (ep_Host e))%string ||
          HasSuffix (ep_Host e) "."
  then Some (ErrNew "endpoint host must be normalized to lowercase without a trailing dot")
  else if bytes_any (fun c => in_set " :/" c || (c =? 9) || (c =? 13) || (c =? 10)) (ep_Host e)
  then Some (ErrNew "endpoint host must be a normalized DNS host without a port")
  else match checkLabels lowerDNSRune "endpoint host contains an invalid DNS label"
               "endpoint host contains a non-ASCII DNS label" (Split (ep_Host e) ".") with
  | Some err => Some err
  | None =>
  match validateEndpointService (ep_Service e) with
  | Some err => Some (ErrWrap "endpoint service: %w" [] err)
  | None =>
  if negb (ep_SigningService e =? "")%string && negb (validSigningIdentity (ep_SigningService e))
  then Some (ErrNew "endpoint signing service is invalid")
  else if negb (ep_SigningRegion e =? "")%string && negb (validSigningRegion (ep_SigningRegion e))
  then Some (ErrNew "endpoint signing Region is invalid")
  else if negb (ep_SigningService e =? "")%string && (ep_SigningRegion e =? "")%string
  then Some (ErrNew "endpoint signing Region is required with signing service")
  else if negb (ep_SigningRegion e =? "")%string && (ep_SigningService e =? "")%string
  then Some (ErrNew "endpoint signing service is required with signing Region")
  else match validateEndpointAccountID (ep_AccountID e) with
  | Some err => Some err
  | None =>
  if negb (ep_Scope e =? "")%string && negb (ep_Scope e =? ScopeRegional)%string &&
     negb (ep_Scope e =? ScopeGlobal)%string
  then Some (ErrFmt "unsupported endpoint scope %q" [ep_Scope e])
  else if (ep_Scope e =? ScopeRegional)%string && ep_Global e
  then Some (ErrNew "regional endpoint scope conflicts with global endpoint")
  else if negb (IsGlobal e) && blank (ep_Region e)
  then Some (ErrNew "regional endpoint Region is required")
  else if IsGlobal e && negb (ep_Region e =? "")%string
  then Some (ErrNew "global endpoint Region must be empty")
  else if negb (ep_SigningService e =? "")%string && negb (IsGlobal e) &&
          negb (ep_SigningRegion e =? ep_Region e)%string
  then Some (ErrNew "regional endpoint signing Region disagrees with endpoint Region")
  else None
  end end end.
End Validators.

(** ** IAM requirements and mapping results *)

Definition ScopeExact : string := "exact".
Definition ScopeSet : string := "set".
Definition ScopeKnownGlobal : string := "known_global".
Definition ScopeUnresolved : string := "unresolved".

(** [ScopeKind.Valid]. *)
Definition scopeValid (s : string) : bool :=
  mem_str s [ScopeExact; ScopeSet; ScopeKnownGlobal; ScopeUnresolved].

Record IAMRequirement := mkRequirement {
  Action : string;
  Resources : list string;
  ScopeKind : string;
  Dependent : bool;
  ConditionHint : list (string * list string);
}.

#[export] Instance IAMRequirement_eq_dec : EqDecision IAMRequirement.
Proof. solve_decision. Defined.

Definition actionPartRune (r : Z) : bool :=
  is_lower r || is_upper r || is_digit r || (r =? ord "-") || (r =? ord "*") || (r =? ord "?").

(** The duplicate-resource loop of [IAMRequirement.Validate]. *)
Fixpoint checkResources (i : Z) (resources : list string) (seen : list string) : option error :=
  match resources with
  | [] => None
  | resource :: resources =>
    if (resource =? "")%string then Some (ErrFmt "resource %d is empty" [Itoa i])
    else if mem_str resource seen then Some (ErrFmt "resource %q is duplicated" [resource])
    else checkResources (i + 1) resources (resource :: seen)
  end.

Definition Requirement_Validate (r : IAMRequirement) : option error :=
  let colon := IndexByte (Action r) (ord ":") in
  if blank (Action r) then Some (ErrNew "IAM action is required")
  else if (colon <=? 0) || (colon =? slen (Action r) - 1) ||
          negb (count_byte (Action r) (ord ":") =? 1)
  then Some (ErrNew "IAM action must contain exactly one service:operation separator")
  else if existsb (fun part => existsb (fun c => negb (actionPartRune c)) (runes part))
            (Split (Action r) ":")
  then Some (ErrFmt "IAM action %q contains unsupported syntax" [Action r])
  else if negb (scopeValid (ScopeKind r))
  then Some (ErrFmt "unsupported IAM scope %q" [ScopeKind r])
  else match checkResources 0 (Resources r) [] with
  | Some err => Some err
  | None =>
    if (ScopeKind r =? ScopeExact)%string then
      if negb (Z.of_nat (List.length (Resources r)) =? 1)
      then Some (ErrNew "exact IAM scope requires one resource") else None
    else if (ScopeKind r =? ScopeSet)%string then
      if Z.of_nat (List.length (Resources r)) =? 0
      then Some (ErrNew "set IAM scope requires at least one resource") else None
    else if (ScopeKind r =? ScopeKnownGlobal)%string then
      if negb (bool_decide (Resources r = ["*"]))
      then Some (ErrNew "known_global IAM scope requires resource *") else None
    else None
  end.

Definition ConfidenceHigh : string := "high".
(** [MappingConfidence.Valid]. *)
Definition confidenceValid (c : string) : bool :=
  mem_str c [ConfidenceHigh; "medium"; "low"; "unknown"; "unsupported"].

Record MappingEvidence := mkEvidence { Source : string; Field : string; EvValue : string }.

Record MappingResult := mkMapping {
  map_Service : string;
  map_Operation : string;
  Requirements : list IAMRequirement;
  MapperVersion : string;
  IamLiveVersion : string;
  AuthorizationDataVersion : string;
  Confidence : string;
  Evidence : list MappingEvidence;
}.

Fixpoint checkRequirements (i : Z) (rs : list IAMRequirement) : option error :=
  match rs with
  | [] => None
  | r :: rs =>
    match Requirement_Validate r with
    | Some err => Some (ErrWrap "requirement %d: %w" [Itoa i] err)
    | None => checkRequirements (i + 1) rs
    end
  end.

Fixpoint checkEvidence (i : Z) (es : list MappingEvidence) : option error :=
  match es with
  | [] => None
  | e :: es =>
    if blank (Source e) || blank (Field e)
    then Some (ErrFmt "evidence %d has no source or field" [Itoa i])
    else checkEvidence (i + 1) es
  end.

(** [MappingResult.Validate]. *)
Definition Mapping_Validate (m : MappingResult) : option error :=
  if blank (map_Service m) || blank (map_Operation m)
  then Some (ErrNew "mapping service and operation are required")
  else if negb (confidenceValid (Confidence m))
  then Some (ErrFmt "unsupported mapping confidence %q" [Confidence m])
  else if blank (MapperVersion m) then Some (ErrNew "mapper version is required")
  else if Z.of_nat (List.length (Requirements m)) =? 0
  then Some (ErrNew "mapping must contain at least one IAM requirement")
  else match checkRequirements 0 (Requirements m) with
  | Some err => Some err
  | None => checkEvidence 0 (Evidence m)
  end.

(** ** Decoded requests *)

Record DecodedAWSRequest := mkDecoded {
  Partition : string;
  EndpointHost : string;
  Service : string;
  SigningService : string;
  SigningRegion : string;
  Region : string;
  Scope : string;
  FIPS : bool;
  DualStack : bool;
  AccountID : string;
  CallerAccountID : string;
  Protocol : string;
  Operation : string;
  Method : string;
  CanonicalPath : string;
  CanonicalQuery : gmap string (list string);
  Headers : option (gmap string (list string));
  Parameters : list (string * Value);
  PayloadHashMode : string;
  PayloadBytes : Z;
}.

Fixpoint checkParameters (ps : list (string * Value)) : option error :=
  match ps with
  | [] => None
  | (key, value) :: ps =>
    if blank key then Some (ErrNew "request parameter name is empty")
    else match Value_Validate value with
         | Some err => Some (ErrWrap "parameter %q: %w" [key] err)
         | None => checkParameters ps
         end
  end.

(** The endpoint identity a decoded request carries
    ([DecodedAWSRequest.Validate], [iammap.decodedEndpoint]). *)
Definition requestEndpoint (r : DecodedAWSRequest) : AWSEndpoint :=
  mkEndpoint (Partition r) (EndpointHost r) (Service r) (SigningService r) (SigningRegion r)
    (Region r) (Region r =? "")%string (Scope r) (FIPS r) (DualStack r) (AccountID r).

Section Decoded.
Context `{U : UnicodeTables}.

(** [DecodedAWSRequest.Validate]. *)
Definition Decoded_Validate (r : DecodedAWSRequest) : option error :=
  match validateCallerAccountID (CallerAccountID r) with
  | Some err => Some (ErrWrap "caller account ID: %w" [] err)
  | None =>
  if blank (Partition r) || blank (EndpointHost r) || blank (Service r) || blank (Operation r)
  then Some (ErrNew "decoded request endpoint, service, and operation are required")
  else match Endpoint_Validate (requestEndpoint r) with
  | Some err => Some (ErrWrap "endpoint: %w" [] err)
  | None =>
  if negb (protocolSupported (Protocol r))
  then Some (ErrFmt "unsupported AWS protocol %q" [Protocol r])
  else if negb (mem_str (ToUpper (Method r))
                  ["GET"; "POST"; "PUT"; "PATCH"; "DELETE"; "HEAD"; "OPTIONS"])
  then Some (ErrFmt "unsupported HTTP method %q" [Method r])
  else if (CanonicalPath r =? "")%string ||
          negb (bool_decide (byte_at (CanonicalPath r) 0 = Some (ord "/")))
  then Some (ErrNew "canonical path must be absolute")
  else if negb (payloadValid (PayloadHashMode r))
  then Some (ErrFmt "unsupported payload mode %q" [PayloadHashMode r])
  else if PayloadBytes r <? 0 then Some (ErrNew "payload size cannot be negative")
  else checkParameters (Parameters r)
  end end.

(** ** Decoder evidence *)

Definition EvidenceUnknown : string := "unknown".
Definition EvidenceAuthoritative : string := "authoritative".
Definition EvidenceValidated : string := "validated".

Record DecodeFailureEvidence := mkFailureEvidence {
  ev_Service : string;
  ev_Protocol : string;
  ProtocolAvailable : bool;
  ProtocolCertainty : string;
  ev_Operation : string;
  OperationAvailable : bool;
  OperationCertainty : string;
}.

(** [DecodeFailureEvidence{ProtocolCertainty: EvidenceUnknown,
    OperationCertainty: EvidenceUnknown}]. *)
Definition unknownEvidence : DecodeFailureEvidence :=
  mkFailureEvidence "" "" false EvidenceUnknown "" false EvidenceUnknown.

Definition validEvidenceService (value : string) : bool :=
  (slen value <=? 128) && err_nil (validateEndpointService value).
Definition validEvidenceOperation (value : string) : bool :=
  (slen value <=? 128) && validOperation value.

(** [DecodeFailureEvidence.Validate]. *)
Definition Evidence_Validate (e : DecodeFailureEvidence) : option error :=
  if negb (ev_Service e =? "")%string && negb (validEvidenceService (ev_Service e))
  then Some (ErrFmt "invalid evidence service %q" [ev_Service e])
  else
    let operation :=
      if OperationAvailable e then
        if negb (ProtocolAvailable e) || (ev_Service e =? "")%string ||
           negb (validEvidenceOperation (ev_Operation e)) ||
           negb (OperationCertainty e =? EvidenceValidated)%string
        then Some (ErrNew "available operation evidence is not validated") else None
      else if negb (ev_Operation e =? "")%string ||
              (negb (OperationCertainty e =? "")%string &&
               negb (OperationCertainty e =? EvidenceUnknown)%string)
      then Some (ErrNew "unavailable operation evidence must be empty and unknown")
      else None in
    if ProtocolAvailable e then
      if (ev_Service e =? "")%string || negb (protocolSupported (ev_Protocol e)) ||
         negb (ProtocolCertainty e =? EvidenceAuthoritative)%string
      then Some (ErrNew "available protocol evidence is not authoritative")
      else operation
    else if negb (ev_Protocol e =? "")%string ||
            (negb (ProtocolCertainty e =? "")%string &&
             negb (ProtocolCertainty e =? EvidenceUnknown)%string)
    then Some (ErrNew "unavailable protocol evidence must be empty and unknown")
    else operation.

(** An error chain as [errors.As] walks it. *)
Inductive chain :=
| CPlain (e : error)
| CWrap (msg : string) (cause : chain)
| CDecodeFailure (evidence : DecodeFailureEvidence) (cause : chain).

Definition NewDecodeFailureError (evidence : DecodeFailureEvidence) (cause : option chain)
  : option chain :=
  match cause with
  | None => None
  | Some cause =>
    let pc := if negb (ProtocolAvailable evidence) && (ProtocolCertainty evidence =? "")%string
              then EvidenceUnknown else ProtocolCertainty evidence in
    let oc := if negb (OperationAvailable evidence) && (OperationCertainty evidence =? "")%string
              then EvidenceUnknown else OperationCertainty evidence in
    let evidence := mkFailureEvidence (ev_Service evidence) (ev_Protocol evidence)
      (ProtocolAvailable evidence) pc (ev_Operation evidence) (OperationAvailable evidence) oc in
    let evidence := if err_nil (Evidence_Validate evidence) then evidence else unknownEvidence in
    Some (CDecodeFailure evidence cause)
  end.

(** [errors.As(err, &failure)]: the first decode failure of the chain. *)
Fixpoint asDecodeFailure (err : chain) : option DecodeFailureEvidence :=
  match err with
  | CPlain _ => None
  | CWrap _ cause => asDecodeFailure cause
  | CDecodeFailure ev _ => Some ev
  end.

Definition DecodeFailureEvidenceFromError (err : option chain) : option DecodeFailureEvidence :=
  match err with
  | None => None
  | Some err =>
    match asDecodeFailure err with
    | Some ev => if err_nil (Evidence_Validate ev) then Some ev else None
    | None => None
    end
  end.

Definition evidenceConflict (existing evidence : DecodeFailureEvidence) : bool :=
  (negb (ev_Service existing =? "")%string && negb (ev_Service evidence =? "")%string &&
   negb (ev_Service existing =? ev_Service evidence)%string) ||
  (ProtocolAvailable existing && ProtocolAvailable evidence &&
   negb (ev_Protocol existing =? ev_Protocol evidence)%string) ||
  (OperationAvailable existing && OperationAvailable evidence &&
   negb (ev_Operation existing =? ev_Operation evidence)%string).

Definition AttachDecodeFailureEvidence (err : option chain) (evidence : DecodeFailureEvidence)
  : option chain :=
  match err with
  | None => None
  | Some _ =>
    if negb (err_nil (Evidence_Validate evidence)) then err
    else match DecodeFailureEvidenceFromError err with
    | Some existing =>
      if evidenceConflict existing evidence then NewDecodeFailureError unknownEvidence err
      else
        let service := if (ev_Service existing =? "")%string then ev_Service evidence
                       else ev_Service existing in
        let takeP := negb (ProtocolAvailable existing) && ProtocolAvailable evidence in
        let takeO := negb (OperationAvailable existing) && OperationAvailable evidence in
        let merged := mkFailureEvidence service
          (if takeP then ev_Protocol evidence else ev_Protocol existing)
          (if takeP then true else ProtocolAvailable existing)
          (if takeP then ProtocolCertainty evidence else ProtocolCertainty existing)
          (if takeO then ev_Operation evidence else ev_Operation existing)
          (if takeO then true else OperationAvailable existing)
          (if takeO then OperationCertainty evidence else OperationCertainty existing) in
        NewDecodeFailureError merged err
    | None => NewDecodeFailureError evidence err
    end
  end.
End Decoded.

(** ** Well-formed values, independently of iteration order *)

Inductive wf_value : Z -> Value -> Prop :=
| wf_leaf d v : d <= 64 ->
    mem_str (Kind v) [ValueNull; ValueString; ValueBoolean; ValueInteger] = true ->
    wf_value d v
| wf_number d v : d <= 64 -> Kind v = ValueNumber -> notFinite (FloatV v) = false ->
    wf_value d v
| wf_object d v : d <= 64 -> Kind v = ValueObject ->
    (forall k x, (k, x) ∈ ObjectV v -> blank k = false /\ wf_value (d + 1) x) ->
    wf_value d v
| wf_array d v : d <= 64 -> Kind v = ValueArray ->
    (forall x, x ∈ ArrayV v -> wf_value (d + 1) x) ->
    wf_value d v.

Fixpoint value_size (v : Value) : nat :=
  S ((fix sum (l : list (string * Value)) : nat :=
        match l with [] => O | (_, x) :: l => (value_size x + sum l)%nat end) (ObjectV v) +
     (fix sum (l : list Value) : nat :=
        match l with [] => O | x :: l => (value_size x + sum l)%nat end) (ArrayV v)).

Lemma value_ind (P : Value -> Prop) :
  (forall v, (forall k x, (k, x) ∈ ObjectV v -> P x) -> (forall x, x ∈ ArrayV v -> P x) -> P v) ->
  forall v, P v.
Proof.
  intros HP v. remember (value_size v) as n eqn:En. revert v En.
  induction (lt_wf n) as [n _ IH]. intros v ->. apply HP.
  - intros k x Hin. eapply IH; [|reflexivity].
    destruct v as [? ? ? ? ? o a]. cbn [value_size ObjectV ArrayV] in *. clear IH HP.
    set (sa := (fix sum (l : list Value) : nat := _) a). clearbody sa.
    induction o as [|[k' y] o IHo]; [by apply not_elem_of_nil in Hin|].
    apply elem_of_cons in Hin as [[= -> ->]|Hin]; [lia|]. specialize (IHo Hin). lia.
  - intros x Hin. eapply IH; [|reflexivity].
    destruct v as [? ? ? ? ? o a]. cbn [value_size ObjectV ArrayV] in *. clear IH HP.
    match goal with |- (_ < S (?so + _))%nat => generalize so end. intros so.
    induction a as [|y a IHa]; [by apply not_elem_of_nil in Hin|].
    apply elem_of_cons in Hin as [->|Hin]; [lia|]. specialize (IHa Hin). lia.
Qed.

Lemma mem_str_In s l : mem_str s l = true <-> s ∈ l.
Proof.
  unfold mem_str. rewrite existsb_exists. split.
  - intros (x & Hx & ->%String.eqb_eq). by apply list_elem_of_In.
  - intros Hs%list_elem_of_In. exists s. split; [done|]. apply String.eqb_refl.
Qed.

Ltac wf_inv :=
  inversion 1; cbn [Kind FloatV ObjectV ArrayV] in *; first [assumption | congruence | discriminate].

Lemma validateValue_spec v : forall d, validateValue v d = None <-> wf_value d v.
Proof.
  induction v as [v IHo IHa] using value_ind. intros d.
  destruct v as [kind str b i f obj arr].
  cbn [validateValue Kind StringV BoolV IntV FloatV ObjectV ArrayV] in *.
  destruct (Z.ltb_spec 64 d) as [Hd|Hd].
  { split; [done|]. inversion 1; lia. }
  destruct (mem_str kind _) eqn:El.
  { split; [|done]. intros _. by apply wf_leaf. }
  destruct (String.eqb_spec kind ValueNumber) as [->|Hnum].
  { destruct (notFinite f) eqn:Ef; split; try done.
    - wf_inv.
    - intros _. by apply wf_number. }
  destruct (String.eqb_spec kind ValueObject) as [->|Hobj].
  { match goal with |- ?g obj = None <-> _ => set (entries := g) end.
    assert (entries obj = None <->
      forall k x, (k, x) ∈ obj -> blank k = false /\ wf_value (d + 1) x) as He.
    { clear El Hnum. induction obj as [|[k x] obj IH].
      - split; [|done]. by intros _ k x ?%not_elem_of_nil.
      - cbn [entries]. assert (IH' := IH ltac:(intros k' x' ?; apply (IHo k'); by right)).
        destruct (blank k) eqn:Eb.
        { split; [done|]. intros Hall. destruct (Hall k x ltac:(left)). congruence. }
        pose proof (IHo k x ltac:(left) (d + 1)) as Hx.
        destruct (validateValue x (d + 1)) as [e|].
        { split; [done|]. intros Hall. destruct (Hall k x ltac:(left)) as [_ Hw].
          by apply Hx in Hw. }
        rewrite IH'. split.
        + intros Hall k' x' [[= -> ->]|Hin]%elem_of_cons; [split; [done|by apply Hx]|auto].
        + intros Hall k' x' Hin. apply Hall. by right. }
    rewrite He. split.
    - intros Hall. by apply wf_object.
    - wf_inv. }
  destruct (String.eqb_spec kind ValueArray) as [->|Harr].
  { match goal with |- ?g 0 arr = None <-> _ => set (entries := g) end.
    assert (forall i, entries i arr = None <-> forall x, x ∈ arr -> wf_value (d + 1) x) as He.
    { clear El Hnum Hobj. induction arr as [|x arr IH]; intros j.
      - split; [|done]. by intros _ x ?%not_elem_of_nil.
      - cbn [entries]. assert (IH' := IH ltac:(intros x' ?; apply IHa; by right)).
        pose proof (IHa x ltac:(left) (d + 1)) as Hx.
        destruct (validateValue x (d + 1)) as [e|].
        { split; [done|]. intros Hall. specialize (Hall x ltac:(left)). by apply Hx in Hall. }
        rewrite IH'. split.
        + intros Hall x' [->|Hin]%elem_of_cons; [by apply Hx|auto].
        + intros Hall x' Hin. apply Hall. by right. }
    rewrite He. split.
    - intros Hall. by apply wf_array.
    - wf_inv. }
  split; [done|]. wf_inv.
Qed.

(** ** Well-formed requirements *)

Lemma checkResources_spec rs : forall i seen,
  checkResources i rs seen = None <->
  EmptyString ∉ rs /\ NoDup rs /\ (forall r, r ∈ rs -> r ∉ seen).
Proof.
  induction rs as [|r rs IH]; intros i seen; cbn [checkResources].
  - split; [|done]. intros _. repeat split; [apply not_elem_of_nil|constructor|].
    by intros r ?%not_elem_of_nil.
  - destruct (String.eqb_spec r "") as [->|Hr].
    { split; [done|]. intros (Hn & _). destruct Hn. by left. }
    destruct (mem_str r seen) eqn:Em.
    { split; [done|]. intros (_ & _ & Hs). destruct (Hs r ltac:(left)). by apply mem_str_In. }
    assert (r ∉ seen) as Hns by (by rewrite <-mem_str_In, Em).
    rewrite IH, NoDup_cons, not_elem_of_cons. split.
    + intros (Hn & Hd & Hs). repeat split; try done.
      * intros Hin. apply (Hs r Hin). by left.
      * intros x [->|Hx]%elem_of_cons; [done|]. intros Hx'. apply (Hs x Hx). by right.
    + intros ((_ & Hn) & (Hr' & Hd) & Hs). repeat split; try done.
      intros x Hx [->|Hx']%elem_of_cons; [done|]. apply (Hs x); [by right|done].
Qed.

(** The scope of a requirement agrees with its resources. *)
Definition scope_matches (r : IAMRequirement) : Prop :=
  (ScopeKind r = ScopeExact /\ List.length (Resources r) = 1%nat) \/
  (ScopeKind r = ScopeSet /\ Resources r <> []) \/
  (ScopeKind r = ScopeKnownGlobal /\ Resources r = ["*"]) \/
  ScopeKind r = ScopeUnresolved.

Lemma scopeValid_cases s :
  scopeValid s = true <->
  s = ScopeExact \/ s = ScopeSet \/ s = ScopeKnownGlobal \/ s = ScopeUnresolved.
Proof.
  unfold scopeValid. rewrite mem_str_In, !elem_of_cons.
  pose proof (not_elem_of_nil s). tauto.
Qed.

Lemma Requirement_Validate_inv r :
  Requirement_Validate r = None ->
  count_byte (Action r) (ord ":") = 1 /\ scopeValid (ScopeKind r) = true /\
  (0 < IndexByte (Action r) (ord ":") < slen (Action r) - 1) /\
  EmptyString ∉ Resources r /\ NoDup (Resources r) /\ scope_matches r.
Proof.
  unfold Requirement_Validate. intros E.
  destruct (blank (Action r)); [done|].
  destruct ((IndexByte (Action r) (ord ":") <=? 0) || _ || _) eqn:Ea; [done|].
  destruct (existsb _ _); [done|].
  destruct (scopeValid (ScopeKind r)) eqn:Es; [|done].
  destruct (checkResources 0 (Resources r) []) eqn:Er; [done|].
  apply checkResources_spec in Er as (He & Hd & _). cbn [negb] in E.
  bool_hyps. split; [lia|]. split; [done|]. split.
  { unfold IndexByte in *. destruct (index_byte (Action r) (ord ":")) as [n|] eqn:Ei; [|lia].
    apply index_byte_lt in Ei. unfold slen in *. lia. }
  split; [done|]. split; [done|]. unfold scope_matches.
  apply scopeValid_cases in Es as [Es|[Es|[Es|Es]]]; rewrite Es in *; cbn in E.
  - left. split; [done|]. case_if; [done|]. lia.
  - right; left. split; [done|]. intros Hn. by rewrite Hn in E.
  - right; right; left. split; [done|].
    destruct (bool_decide (Resources r = ["*"])) eqn:Eb; [|done].
    by apply bool_decide_eq_true in Eb.
  - by right; right; right.
Qed.

(** ** Evidence *)

Section EvidenceFacts.
Context `{U : UnicodeTables}.

Lemma unknownEvidence_valid : Evidence_Validate unknownEvidence = None.
Proof. reflexivity. Qed.

Lemma NewDecodeFailureError_valid ev err :
  exists ev', NewDecodeFailureError ev (Some err) = Some (CDecodeFailure ev' err) /\
    Evidence_Validate ev' = None.
Proof.
  unfold NewDecodeFailureError. cbv zeta.
  set (ev' := mkFailureEvidence _ _ _ _ _ _ _).
  destruct (Evidence_Validate ev') eqn:E; cbn [err_nil].
  - exists unknownEvidence. by rewrite unknownEvidence_valid.
  - by exists ev'.
Qed.

Lemma FromError_New ev err :
  exists ev', DecodeFailureEvidenceFromError (NewDecodeFailureError ev (Some err)) = Some ev' /\
    Evidence_Validate ev' = None.
Proof.
  destruct (NewDecodeFailureError_valid ev err) as (ev' & -> & Hv).
  exists ev'. cbn. by rewrite Hv.
Qed.

(** Everything [a] makes available is available, unchanged, in [b]. *)
Definition evidence_extends (a b : DecodeFailureEvidence) : Prop :=
  (ev_Service a <> "" -> ev_Service b = ev_Service a) /\
  (ProtocolAvailable a = true -> ProtocolAvailable b = true /\ ev_Protocol b = ev_Protocol a) /\
  (OperationAvailable a = true -> OperationAvailable b = true /\ ev_Operation b = ev_Operation a).

Lemma evidence_extends_trans a b c :
  evidence_extends a b -> evidence_extends b c -> evidence_extends a c.
Proof.
  intros (A1 & A2 & A3) (B1 & B2 & B3). split; [|split].
  - intros H. specialize (A1 H). rewrite <-A1 in H. by rewrite B1.
  - intros H. destruct (A2 H) as [H1 H2]. destruct (B2 H1). split; congruence.
  - intros H. destruct (A3 H) as [H1 H2]. destruct (B3 H1). split; congruence.
Qed.

(** What [Evidence_Validate] accepts, as a proposition. *)
Definition protocol_wf (svc : string) (available : bool) (p certainty : string) : Prop :=
  if available
  then svc <> "" /\ protocolSupported p = true /\ certainty = EvidenceAuthoritative
  else p = "" /\ (certainty = "" \/ certainty = EvidenceUnknown).
Definition operation_wf (proto available : bool) (o certainty : string) : Prop :=
  if available
  then proto = true /\ validEvidenceOperation o = true /\ certainty = EvidenceValidated
  else o = "" /\ (certainty = "" \/ certainty = EvidenceUnknown).
Definition evidence_wf (e : DecodeFailureEvidence) : Prop :=
  (ev_Service e = "" \/ validEvidenceService (ev_Service e) = true) /\
  protocol_wf (ev_Service e) (ProtocolAvailable e) (ev_Protocol e) (ProtocolCertainty e) /\
  operation_wf (ProtocolAvailable e) (OperationAvailable e) (ev_Operation e)
    (OperationCertainty e).

Lemma Evidence_Validate_spec e : Evidence_Validate e = None <-> evidence_wf e.
Proof.
  unfold Evidence_Validate, evidence_wf, protocol_wf, operation_wf. cbv zeta.
  rewrite reject_None.
  destruct (ProtocolAvailable e), (OperationAvailable e);
    autorewrite with kordn; rewrite ?not_false_iff_true; intuition (try congruence);
    destruct (decide (ev_Service e = "")); intuition congruence.
Qed.

Lemma New_wf ev err :
  evidence_wf ev -> exists ev',
    NewDecodeFailureError ev (Some err) = Some (CDecodeFailure ev' err) /\
    evidence_wf ev' /\ evidence_extends ev ev'.
Proof.
  intros Hwf. unfold NewDecodeFailureError. cbv zeta.
  set (ev' := mkFailureEvidence _ _ _ _ _ _ _).
  assert (evidence_wf ev') as Hwf'.
  { subst ev'. unfold evidence_wf, protocol_wf, operation_wf in *.
    destruct ev as [s p pa pc o oa oc]. cbn in *.
    destruct pa, oa; cbn; repeat case_if; intuition auto. }
  rewrite (proj2 (Evidence_Validate_spec ev') Hwf'). cbn [err_nil].
  exists ev'. split; [done|]. split; [done|]. by subst ev'.
Qed.

Lemma merge_service existing ev :
  negb (ev_Service existing =? "")%string && negb (ev_Service ev =? "")%string &&
  negb (ev_Service existing =? ev_Service ev)%string = false ->
  let svc := if (ev_Service existing =? "")%string then ev_Service ev
             else ev_Service existing in
  (ev_Service existing <> "" -> svc = ev_Service existing) /\
  (ev_Service ev <> "" -> svc = ev_Service ev) /\
  (svc = ev_Service existing \/ svc = ev_Service ev).
Proof.
  intros H svc. subst svc.
  destruct (String.eqb_spec (ev_Service existing) ""),
    (String.eqb_spec (ev_Service ev) ""),
    (String.eqb_spec (ev_Service existing) (ev_Service ev)); try done; tauto.
Qed.

Lemma merge_protocol s1 s2 svc pa1 pa2 p1 p2 c1 c2 :
  protocol_wf s1 pa1 p1 c1 -> protocol_wf s2 pa2 p2 c2 ->
  (s1 <> "" -> svc = s1) -> (s2 <> "" -> svc = s2) ->
  pa1 && pa2 && negb (p1 =? p2)%string = false ->
  let t := negb pa1 && pa2 in
  protocol_wf svc (if t then true else pa1) (if t then p2 else p1) (if t then c2 else c1) /\
  (pa1 = true -> (if t then true else pa1) = true /\ (if t then p2 else p1) = p1) /\
  (pa2 = true -> (if t then true else pa1) = true /\ (if t then p2 else p1) = p2).
Proof.
  unfold protocol_wf. intros W V S1 S2 Hc.
  destruct pa1, pa2; cbn [negb andb] in *; destruct_and?; repeat split; try done;
    try (intros ->; naive_solver); try naive_solver.
  apply negb_false_iff, eqb_true_str in Hc. done.
Qed.

Lemma merge_operation pa1 pa pa2 oa1 oa2 o1 o2 c1 c2 :
  operation_wf pa1 oa1 o1 c1 -> operation_wf pa2 oa2 o2 c2 ->
  (pa2 = true -> pa = true) ->
  oa1 && oa2 && negb (o1 =? o2)%string = false -> (pa1 = true -> pa = true) ->
  let t := negb oa1 && oa2 in
  operation_wf pa (if t then true else oa1) (if t then o2 else o1) (if t then c2 else c1) /\
  (oa1 = true -> (if t then true else oa1) = true /\ (if t then o2 else o1) = o1) /\
  (oa2 = true -> (if t then true else oa1) = true /\ (if t then o2 else o1) = o2).
Proof.
  unfold operation_wf. intros W V S2 Hc S1.
  destruct oa1, oa2; cbn [negb andb] in *; destruct_and?; repeat split; try done;
    try naive_solver.
  apply negb_false_iff, eqb_true_str in Hc. done.
Qed.

Lemma merged_wf existing ev :
  evidence_wf existing -> evidence_wf ev -> evidenceConflict existing ev = false ->
  forall err, exists ev', DecodeFailureEvidenceFromError (Some err) = Some existing ->
    DecodeFailureEvidenceFromError (AttachDecodeFailureEvidence (Some err) ev) = Some ev' /\
    evidence_extends existing ev' /\ evidence_extends ev ev'.
Proof.
  intros Hx He Hc err.
  set (takeP := negb (ProtocolAvailable existing) && ProtocolAvailable ev).
  set (takeO := negb (OperationAvailable existing) && OperationAvailable ev).
  set (m := mkFailureEvidence
    (if (ev_Service existing =? "")%string then ev_Service ev else ev_Service existing)
    (if takeP then ev_Protocol ev else ev_Protocol existing)
    (if takeP then true else ProtocolAvailable existing)
    (if takeP then ProtocolCertainty ev else ProtocolCertainty existing)
    (if takeO then ev_Operation ev else ev_Operation existing)
    (if takeO then true else OperationAvailable existing)
    (if takeO then OperationCertainty ev else OperationCertainty existing)).
  assert (evidence_wf m /\ evidence_extends existing m /\ evidence_extends ev m) as (Hm & X1 & X2).
  { unfold evidenceConflict in Hc. bool_hyps.
    destruct (merge_service existing ev) as (S1 & S2 & S3); [done|].
    destruct Hx as (W1 & W2 & W3), He as (V1 & V2 & V3).
    destruct (merge_protocol _ _ _ _ _ _ _ _ _ W2 V2 S1 S2) as (P1 & P2 & P3); [done|].
    destruct (merge_operation _ (if takeP then true else ProtocolAvailable existing)
      _ _ _ _ _ _ _ W3 V3) as (O1 & O2 & O3);
      [intros Hp; by destruct (P3 Hp)|done|intros Hp; by destruct (P2 Hp)|].
    subst m takeP takeO. unfold evidence_wf, evidence_extends. cbn in *.
    split; [|done]. split; [|done]. destruct S3 as [-> | ->]; [apply W1|apply V1]. }
  destruct (New_wf m err Hm) as (ev' & Hnew & Hwf' & Hext).
  exists ev'. intros Hfrom. unfold AttachDecodeFailureEvidence.
  rewrite (proj2 (Evidence_Validate_spec ev) He). cbn [err_nil negb].
  rewrite Hfrom, Hc. cbv zeta. fold takeP takeO m. rewrite Hnew.
  cbn. rewrite (proj2 (Evidence_Validate_spec ev') Hwf'). cbn [err_nil].
  split; [done|]. split; by eapply evidence_extends_trans.
Qed.

Lemma From_wf err ev : DecodeFailureEvidenceFromError err = Some ev -> evidence_wf ev.
Proof.
  unfold DecodeFailureEvidenceFromError. destruct err as [err|]; [|done].
  destruct (asDecodeFailure err) as [ev'|]; [|done].
  destruct (Evidence_Validate ev') eqn:E; [done|]. intros [= <-].
  by apply Evidence_Validate_spec.
Qed.
End EvidenceFacts.

(** ** Claims *)

(** [Value.Validate] accepts exactly the finitely nested (at most 64
    levels), finite-numbered values with non-blank object keys; in particular
    acceptance does not depend on the iteration order of object maps. *)
Theorem Value_Validate_correct (v : Value) : Value_Validate v = None <-> wf_value 0 v.
Proof. apply validateValue_spec. Qed.

(** A requirement that passes [IAMRequirement.Validate] names one
    service:operation pair, lists distinct non-empty resources, and has a
    scope that agrees with them: exactly one for [exact], at least one for
    [set], exactly ["*"] for [known_global]. *)
Theorem Requirement_Validate_sound (r : IAMRequirement) :
  Requirement_Validate r = None ->
  count_byte (Action r) (ord ":") = 1 /\
  (0 < IndexByte (Action r) (ord ":") < slen (Action r) - 1) /\
  EmptyString ∉ Resources r /\ NoDup (Resources r) /\ scope_matches r.
Proof. intros H%Requirement_Validate_inv. tauto. Qed.

Lemma Requirement_Validate_sound_witness :
  scope_matches (mkRequirement "s3:GetObject" ["arn:aws:s3:::b/k"] ScopeExact false []).
Proof.
  apply (Requirement_Validate_sound
    (mkRequirement "s3:GetObject" ["arn:aws:s3:::b/k"] ScopeExact false [])).
  vm_compute. reflexivity.
Defined.

(** Attaching evidence to a decode failure is monotone: when the valid
    new evidence does not contradict the evidence the error already carries,
    the resulting error carries valid evidence that preserves everything both
    make available; when it contradicts it, the result carries no service,
    protocol or operation at all. *)
Theorem AttachDecodeFailureEvidence_monotone `{U : UnicodeTables} (err : chain)
    (existing ev : DecodeFailureEvidence) :
  DecodeFailureEvidenceFromError (Some err) = Some existing ->
  Evidence_Validate ev = None ->
  (if evidenceConflict existing ev
   then DecodeFailureEvidenceFromError (AttachDecodeFailureEvidence (Some err) ev)
        = Some unknownEvidence
   else exists ev',
     DecodeFailureEvidenceFromError (AttachDecodeFailureEvidence (Some err) ev) = Some ev' /\
     evidence_extends existing ev' /\ evidence_extends ev ev').
Proof.
  intros Hfrom Hev. destruct (evidenceConflict existing ev) eqn:Hc.
  - unfold AttachDecodeFailureEvidence. rewrite Hev. cbn [err_nil negb].
    by rewrite Hfrom, Hc.
  - destruct (merged_wf existing ev (From_wf _ _ Hfrom)
      (proj1 (Evidence_Validate_spec ev) Hev) Hc err) as (ev' & H).
    exists ev'. by apply H.
Qed.

Lemma AttachDecodeFailureEvidence_monotone_witness :
  let _ := ascii_tables in
  exists ev',
    DecodeFailureEvidenceFromError (AttachDecodeFailureEvidence
      (Some (CDecodeFailure (mkFailureEvidence "s3" "" false "unknown" "" false "unknown")
               (CPlain (ErrNew "bad"))))
      (mkFailureEvidence "s3" "rest-xml" true "authoritative" "" false "unknown")) = Some ev' /\
    evidence_extends (mkFailureEvidence "s3" "" false "unknown" "" false "unknown") ev' /\
    evidence_extends (mkFailureEvidence "s3" "rest-xml" true "authoritative" "" false "unknown") ev'.
Proof.
  intros U.
  exact (AttachDecodeFailureEvidence_monotone
    (CDecodeFailure (mkFailureEvidence "s3" "" false "unknown" "" false "unknown")
       (CPlain (ErrNew "bad")))
    (mkFailureEvidence "s3" "" false "unknown" "" false "unknown")
    (mkFailureEvidence "s3" "rest-xml" true "authoritative" "" false "unknown")
    eq_refl eq_refl).
Defined.

End AwsTypes.
