(* ===== verification/CatalogTypes.v ===== *)
(** * The catalog's evidence (iamlivecatalog/types.go)

    The values that the catalog hands to its consumers: the wire of each
    operation (module [WireTypes]), and the IAM evidence of its mappings, action
    definitions and static plans (module [CatalogTypes]).  A Go map is an
    association list in one order of iteration.  [Clone] copies a value and drops
    what is private to the catalog; values are immutable here, so the copying
    itself has no counterpart. *)

From Stdlib Require Import ZArith Lia.
From stdpp Require Import base strings list.
From S2P Require Import Prelude.

Module WireTypes.

Definition EvidenceKnown : string := "known".
Definition EvidenceAbsent : string := "absent".
Definition EvidencePermissionless : string := "permissionless".
Definition EvidenceUndocumented : string := "undocumented".
Definition EvidenceContradictory : string := "contradictory".

Record QueryBinding := mkBinding { Member : string; LocationName : string; Required : bool }.
Record Route := mkRoute {
  r_Method : string; URI : string; ResponseCode : Z; QueryDiscriminator : string; r_TargetPrefix : string; JSONVersion : string;
}.
Record WireOperation := mkWireOperation {
  Name : string; State : string; op_Route : Route; op_QueryBindings : list QueryBinding;
}.
Record WireService := mkWireService {
  EndpointPrefix : string; APIVersion : string; TargetPrefix : string; Protocols : list string; ws_Protocol : string;
  ws_Operations : list WireOperation;
}.
End WireTypes.

Module CatalogTypes.
Export WireTypes.

(** ** IAM evidence *)

(** A Go map in an order of iteration, and an assignment to it. *)
Fixpoint mapSet {V} (m : list (string * V)) (k : string) (v : V) : list (string * V) :=
  match m with
  | [] => [(k, v)]
  | (k', v') :: m => if (k' =? k)%string then (k, v) :: m else (k', v') :: mapSet m k v
  end.
Fixpoint mapGet {V} (m : list (string * V)) (k : string) : option V :=
  match m with
  | [] => None
  | (k', v) :: m => if (k' =? k)%string then Some v else mapGet m k
  end.

Inductive Condition := mkCondition (LHS Op RHS : string) (And : option Condition).
Record ResourceMapping := mkResourceMapping {
  rm_occurrenceID : Z; rm_Parameter : string; Template : string; rm_Condition : option Condition;
}.
Record ActionMapping := mkMappingEvidence {
  occurrenceID : Z; m_Action : string; m_State : string; m_Resources : list ResourceMapping;
  ResourceARNMappings : list (string * string); m_Condition : option Condition;
  ConditionMappings : list (string * ResourceMapping); conditionMappingOrder : list string;
  ARNOverride : string; Notice : string;
}.
Record ResourceTypeDef := mkResourceTypeDef {
  rt_occurrenceID : Z; rt_Name : string; ConditionKeys : list string; DependentActions : list string;
  dependentActionIDs : list Z;
}.
Record ActionDefinition := mkDefinition {
  def_occurrenceID : Z; def_Service : string; def_Name : string; AccessLevel : string; Description : string;
  def_Resources : list ResourceTypeDef; def_State : string;
}.

(** ** Operations and services *)

Record mappingSpan := mkMappingSpan { sp_start : Z; sp_count : Z }.
Record Operation := mkOperation {
  o_occurrenceID : Z; o_Service : string; o_Name : string; InputShape : string; OutputShape : string;
  o_Route : Route; o_QueryBindings : list QueryBinding; Mappings : list ActionMapping;
  MappingState : string; o_State : string; mappingSpans : list mappingSpan;
}.
Record ServiceModel := mkService {
  s_Key : string; s_ID : string; s_EndpointPrefix : string; SigningName : string; s_TargetPrefix : string;
  s_APIVersion : string; s_Protocols : list string; s_Protocol : string; Aliases : list string;
  Operations : list Operation;
}.
Record ServiceIdentity := mkIdentity { id_EndpointPrefix : string; id_SigningName : string }.

(** ** Static plans *)

Definition ValidationMissing : string := "missing".
Definition ValidationContradictory : string := "contradictory".
Definition ValidationAmbiguous : string := "ambiguous".
Definition ValidationCyclic : string := "cyclic".
Definition ValidationExtra : string := "extra".
Definition ValidationIncomplete : string := "incomplete".

Record ValidationDiagnostic := mkDiagnostic {
  d_Code : string; d_Service : string; d_Operation : string; d_Action : string; RelatedAction : string;
  d_Occurrence : Z; RelatedOccur : Z; d_Detail : string;
}.
(** The consumers' [Action] has the same fields. *)
Record ActionReference := mkAction { act_Service : string; act_Name : string }.
Record StaticMapping := mkStaticMapping {
  s_Action : ActionReference; s_Mapping : ActionMapping; s_Definition : ActionDefinition; s_Dependent : bool;
}.
Record StaticPlan := mkPlan {
  pl_Service : string; pl_Operation : string; pl_Occurrence : Z; pl_Mappings : list StaticMapping;
  Diagnostics : list ValidationDiagnostic;
}.
(** [StaticPlan.Valid] and [StaticMapping.Occurrence]. *)
Definition Plan_Valid (p : StaticPlan) : bool := (List.length (Diagnostics p) =? 0)%nat.
Definition Occurrence (m : StaticMapping) : Z := occurrenceID (s_Mapping m).
Record OperationOccurrence := mkOccurrence { oc_Service : WireService; oc_Operation : Operation; Plan : StaticPlan }.

(** ** Copies *)

Definition ActionMapping_Clone (m : ActionMapping) : ActionMapping :=
  mkMappingEvidence (occurrenceID m) (m_Action m) (m_State m) (m_Resources m) (ResourceARNMappings m) (m_Condition m)
    (ConditionMappings m) [] (ARNOverride m) (Notice m).
Definition Operation_Clone (o : Operation) : Operation :=
  mkOperation (o_occurrenceID o) (o_Service o) (o_Name o) (InputShape o) (OutputShape o) (o_Route o) (o_QueryBindings o)
    (ActionMapping_Clone <$> Mappings o) (MappingState o) (o_State o) [].
Definition StaticPlan_Clone (p : StaticPlan) : StaticPlan :=
  mkPlan (pl_Service p) (pl_Operation p) (pl_Occurrence p)
    ((fun m => mkStaticMapping (s_Action m) (ActionMapping_Clone (s_Mapping m)) (s_Definition m) (s_Dependent m)) <$> pl_Mappings p)
    (Diagnostics p).
Definition OperationOccurrence_Clone (o : OperationOccurrence) : OperationOccurrence :=
  mkOccurrence (oc_Service o) (Operation_Clone (oc_Operation o)) (StaticPlan_Clone (Plan o)).

Lemma mapGet_set {V} (m : list (string * V)) k v k' :
  mapGet (mapSet m k v) k' = if (k =? k')%string then Some v else mapGet m k'.
Proof.
  induction m as [|[k1 v1] m IH]; cbn; [done|]. destruct (String.eqb_spec k1 k) as [->|Hne]; cbn.
  - by destruct (k =? k')%string.
  - destruct (String.eqb_spec k1 k') as [->|]; [|done]. destruct (String.eqb_spec k k') as [->|]; [|done]. done.
Qed.
Lemma mapSet_fresh {V} (m : list (string * V)) k v : k ∉ m.*1 -> mapSet m k v = m ++ [(k, v)].
Proof.
  induction m as [|[k1 v1] m IH]; cbn; [done|]. intros [Hne Hn]%not_elem_of_cons.
  destruct (String.eqb_spec k1 k) as [->|_]; [done|]. by rewrite IH.
Qed.
End CatalogTypes.
