(* ===== verification/GoEncoding.v ===== *)
(** * Text encodings of Go's standard library the program relies on

    [encoding/json] string quoting (with the default HTML escaping), arrays of
    strings, [encoding/xml] text escaping, [encoding/hex], and
    [net/textproto.CanonicalMIMEHeaderKey] with the header map operations built
    on it. *)

From Stdlib Require Import ZArith Lia Ascii.
From stdpp Require Import base gmap strings list.
From S2P Require Import Prelude GoStrings.

(** The byte of a double quote, as a one-byte string. *)
Definition dquote : string := String (chr 34) EmptyString.

Definition hex_digit (n : Z) : ascii := chr (if n <? 10 then 48 + n else 87 + n).

(** [hex.EncodeToString]. *)
Fixpoint hex_encode (s : string) : string :=
  match s with
  | EmptyString => EmptyString
  | String c s => String (hex_digit (ord c / 16)) (String (hex_digit (ord c mod 16)) (hex_encode s))
  end.

(** ** encoding/json *)

Definition json_u00 (b : Z) : string :=
  ("\u00" ++ String (hex_digit (b / 16)) (String (hex_digit (b mod 16)) EmptyString))%string.

(** One rune of a quoted string; [w] is its width in the input, so that an
    invalid byte is recognised. *)
Definition json_rune (rw : Z * Z) : string :=
  let (r, w) := rw in
  if (r =? 34) || (r =? 92) then String (chr 92) (String (chr r) EmptyString)
  else if r =? 8 then "\b" else if r =? 12 then "\f"
  else if r =? 10 then "\n" else if r =? 13 then "\r" else if r =? 9 then "\t"
  else if (r <? 32) || (r =? 60) || (r =? 62) || (r =? 38) then json_u00 r
  else if (r =? RuneError) && (w =? 1) then "\ufffd"
  else if r =? 8232 then "\u2028" else if r =? 8233 then "\u2029"
  else encode_rune r.

Definition json_quote (s : string) : string :=
  (dquote ++ foldr (fun rw acc => json_rune rw ++ acc) EmptyString (decode s) ++ dquote)%string.

Definition json_strings (l : list string) : string :=
  ("[" ++ Join (json_quote <$> l) "," ++ "]")%string.

Definition json_bool (b : bool) : string := if b then "true" else "false".

(** [{"k1":v1,"k2":v2,...}] from encoded values. *)
Definition json_object (fields : list (string * string)) : string :=
  ("{" ++ Join ((fun kv => (json_quote kv.1 ++ ":" ++ kv.2)%string) <$> fields) "," ++ "}")%string.

(** ** encoding/xml *)

(** Runes [encoding/xml] considers representable. *)
Definition xml_char (r : Z) : bool :=
  (r =? 9) || (r =? 10) || (r =? 13) || between 32 55295 r || between 57344 65533 r ||
  between 65536 1114111 r.

Definition xml_rune (rw : Z * Z) : string :=
  let (r, w) := rw in
  if r =? 34 then "&#34;" else if r =? 39 then "&#39;" else if r =? 38 then "&amp;"
  else if r =? 60 then "&lt;" else if r =? 62 then "&gt;"
  else if r =? 9 then "&#x9;" else if r =? 10 then "&#xA;" else if r =? 13 then "&#xD;"
  else if negb (xml_char r) || ((r =? RuneError) && (w =? 1)) then encode_rune RuneError
  else encode_rune r.

Definition xml_escape (s : string) : string :=
  foldr (fun rw acc => (xml_rune rw ++ acc)%string) EmptyString (decode s).

Definition xml_element (name content : string) : string :=
  ("<" ++ name ++ ">" ++ content ++ "</" ++ name ++ ">")%string.

(** ** net/http headers *)

(** RFC 7230 token bytes. *)
Definition token_byte (b : Z) : bool := is_alnum b || in_set "!#$%&'*+-.^_`|~" b.

Fixpoint canonical_key_from (upper : bool) (s : string) : string :=
  match s with
  | EmptyString => EmptyString
  | String c s =>
    let b := ord c in
    let b' := if upper then ascii_upper b else ascii_lower b in
    String (chr b') (canonical_key_from (b' =? ord "-") s)
  end.

(** [textproto.CanonicalMIMEHeaderKey]: a key that is not a token is returned
    unchanged. *)
Definition CanonicalHeaderKey (key : string) : string :=
  if bytes_all token_byte key then canonical_key_from true key else key.

Abbreviation header := (gmap string (list string)).

Definition header_Set (h : header) (key value : string) : header :=
  <[CanonicalHeaderKey key := [value]]> h.
Definition header_Values (h : header) (key : string) : list string :=
  default [] (h !! CanonicalHeaderKey key).
Definition header_Get (h : header) (key : string) : string :=
  match header_Values h key with v :: _ => v | [] => EmptyString end.

(** ** strconv *)

(** [strconv.Atoi]: a sign is taken, and the number has to fit an int. *)
Definition Atoi (s : string) : option Z :=
  let '(sign, digits) := match s with
    | String c rest => if ord c =? ord "-" then (-1, rest) else if ord c =? ord "+" then (1, rest) else (1, s)
    | EmptyString => (1, s)
    end in
  if (digits =? "")%string || negb (bytes_all is_digit digits) then None
  else let v := sign * decimal 0 digits in
       if between (- 2 ^ 63) (2 ^ 63 - 1) v then Some v else None.

Example canonical_ex : CanonicalHeaderKey "x-amzn-ErrorType" = "X-Amzn-Errortype".
Proof. vm_compute. reflexivity. Qed.
Example json_ex : json_quote "a<b" = (dquote ++ "a\u003cb" ++ dquote)%string.
Proof. vm_compute. reflexivity. Qed.

(** ** Lemmas *)

Lemma hex_digit_ord n : 0 <= n < 16 -> ord (hex_digit n) = if n <? 10 then 48 + n else 87 + n.
Proof. intros H. unfold hex_digit. apply ord_chr. case_if; lia. Qed.

Lemma hex_digit_inj a b : 0 <= a < 16 -> 0 <= b < 16 -> hex_digit a = hex_digit b -> a = b.
Proof.
  intros Ha Hb H. apply (f_equal ord) in H. rewrite !hex_digit_ord in H by done.
  repeat case_if; lia.
Qed.

Lemma hex_encode_inj s t : hex_encode s = hex_encode t -> s = t.
Proof.
  revert t. induction s as [|c s IH]; intros [|d t] H; cbn [hex_encode] in H; try done.
  injection H as H1 H2 H3. pose proof (ord_range c). pose proof (ord_range d).
  apply hex_digit_inj in H1; [|split; [apply Z.div_pos|apply Z.div_lt_upper_bound]; lia..].
  apply hex_digit_inj in H2; [|apply Z.mod_pos_bound; lia..].
  rewrite (IH _ H3). f_equal. apply ord_inj.
  rewrite (Z.div_mod (ord c) 16), (Z.div_mod (ord d) 16) by lia. congruence.
Qed.

(** Bytes that both encodings copy. *)
Definition plain_byte (b : Z) : bool :=
  between 32 127 b && negb (in_set "<>&\'" b) && negb (b =? 34).

Lemma encode_ascii r : 0 <= r < 128 -> encode_rune r = String (chr r) EmptyString.
Proof.
  intros H. unfold encode_rune. destruct (Z.leb_spec 0 r), (Z.ltb_spec r 128); try lia. done.
Qed.

Lemma plain_byte_cases b : plain_byte b = true ->
  32 <= b < 128 /\ b <> 34 /\ b <> 39 /\ b <> 38 /\ b <> 60 /\ b <> 62 /\ b <> 92.
Proof.
  unfold plain_byte, in_set, between. cbn [bytes_any].
  ords.
  lia.
Qed.

Lemma json_quote_plain s : bytes_all plain_byte s = true ->
  json_quote s = (dquote ++ s ++ dquote)%string.
Proof.
  intros H. unfold json_quote. f_equal. f_equal.
  induction s as [|c s IH]; [done|]. cbn [bytes_all] in H. bool_hyps.
  destruct (plain_byte_cases (ord c)) as (? & ? & ? & ? & ? & ? & ?); [done|].
  rewrite decode_ascii_cons by lia. cbn [foldr]. rewrite IH by done.
  assert (json_rune (ord c, 1) = String c EmptyString) as ->; [|done].
  unfold json_rune, RuneError.
  repeat match goal with |- context [if ?b then _ else _] =>
    replace b with false by (symmetry; lia) end.
  rewrite encode_ascii by lia. by rewrite chr_ord.
Qed.

Lemma xml_escape_plain s : bytes_all plain_byte s = true -> xml_escape s = s.
Proof.
  induction s as [|c s IH]; [done|]. cbn [bytes_all]. intros H. bool_hyps.
  destruct (plain_byte_cases (ord c)) as (? & ? & ? & ? & ? & ? & ?); [done|].
  unfold xml_escape. rewrite decode_ascii_cons by lia. cbn [foldr].
  fold (xml_escape s). rewrite IH by done.
  assert (xml_rune (ord c, 1) = String c EmptyString) as ->; [|done].
  unfold xml_rune, RuneError, xml_char, between.
  repeat match goal with |- context [if ?b then _ else _] =>
    replace b with false by (symmetry; lia) end.
  rewrite encode_ascii by lia. by rewrite chr_ord.
Qed.
