(* ===== verification/Awserror.v ===== *)
(** * Local failure reasons and denial responses (internal/awserror)

    [reasons.go]: the closed set of reason codes.  [encode.go], [json.go],
    [xml.go]: the protocol-native 403 responses.  The only outcomes of [Encode]
    are an upstream response returned unchanged, nil, or a local 403. *)

From Stdlib Require Import ZArith Lia Ascii.
From stdpp Require Import base gmap strings list.
From S2P Require Import Prelude GoStrings GoEncoding AwsTypes.

Module Awserror.
Import AwsTypes.

(** ** reasons.go *)

Definition ReasonExplicitDeny : string := "explicit_deny".
Definition ReasonPolicyNoMatchingAllow : string := "policy_no_matching_allow".
Definition ReasonAWSRequiredWildcardNotApproved : string := "aws_required_wildcard_not_approved".
Definition ReasonUnknownEndpoint : string := "unknown_endpoint".
Definition ReasonUnsupportedPartition : string := "unsupported_partition".
Definition ReasonUnknownOperation : string := "unknown_operation".
Definition ReasonMappingLowConfidence : string := "mapping_low_confidence".
Definition ReasonResourceUnresolved : string := "resource_unresolved".
Definition ReasonDependentPermissionUnresolved : string := "dependent_permission_unresolved".
Definition ReasonInvalidInboundSignature : string := "invalid_inbound_signature".
Definition ReasonUnsupportedSigningScheme : string := "unsupported_signing_scheme".
Definition ReasonUnsupportedPayloadMode : string := "unsupported_payload_mode".
Definition ReasonRequestTooLarge : string := "request_too_large".
Definition ReasonAuditUnavailable : string := "audit_unavailable".
Definition ReasonUpstreamCredentialUnavailable : string := "upstream_credential_unavailable".
Definition ReasonUpstreamTransportError : string := "upstream_transport_error".
Definition ReasonInternalFailClosed : string := "internal_fail_closed".
Definition ReasonAllRequirementsAllowed : string := "all_requirements_allowed".

Definition allReasonCodes : list string :=
  [ReasonExplicitDeny; ReasonPolicyNoMatchingAllow; ReasonAWSRequiredWildcardNotApproved;
   ReasonUnknownEndpoint; ReasonUnsupportedPartition; ReasonUnknownOperation;
   ReasonMappingLowConfidence; ReasonResourceUnresolved; ReasonDependentPermissionUnresolved;
   ReasonInvalidInboundSignature; ReasonUnsupportedSigningScheme; ReasonUnsupportedPayloadMode;
   ReasonRequestTooLarge; ReasonAuditUnavailable; ReasonUpstreamCredentialUnavailable;
   ReasonUpstreamTransportError; ReasonInternalFailClosed; ReasonAllRequirementsAllowed].

(** [ReasonCode.Valid]. *)
Definition reasonValid (r : string) : bool := mem_str r allReasonCodes.

(** ** encode.go *)

Definition ClassificationLocalDeny : string := "local_deny".
Definition ClassificationUpstreamAccessDenied : string := "upstream_access_denied".
Definition ClassificationUpstreamError : string := "upstream_error".

Record Response := mkResponse {
  StatusCode : Z;
  Status : string;
  ProtoMajor : Z;
  ProtoMinor : Z;
  Header : header;
  ContentLength : Z;
  Body : string;
}.

Record Denial := mkDenial {
  Service : string;
  Operation : string;
  ReasonCode : string;
  Reason : string;
  EventID : string;
  RequestID : string;
  Classification : string;
  UpstreamResponse : option Response;
}.

(** [IsLocalPolicyDeny]: whether this denial may be encoded by Kordn. *)
Definition IsLocalPolicyDeny (d : Denial) : bool :=
  (Classification d =? ClassificationLocalDeny)%string.

Definition tokenRune (r : Z) : bool :=
  negb ((127 <? r) || (r <? 33) || (r =? ord "/") || (r =? ord "\") || (r =? ord "<") ||
        (r =? ord ">") || (r =? 34) || (r =? ord "'") || (r =? ord "&") || (r =? ord "?") ||
        (r =? ord "#") || (r =? ord "%")).

Definition boundedToken (value : string) (limit : Z) : bool :=
  if (value =? "")%string || (limit <? slen value) then false
  else forallb tokenRune (runes value).

Definition normalizeDenial (denial : Denial) : option Denial :=
  let '(mkDenial svc op code reason event request class upstream) := denial in
  if negb (reason =? "")%string &&
     (negb (reasonValid reason) || (reasonValid code && negb (reason =? code)%string))
  then None
  else
  let code := if negb (reason =? "")%string then reason else code in
  if negb (request =? "")%string && (negb (event =? "")%string && negb (event =? request)%string)
  then None
  else
  let event := if negb (request =? "")%string then request else event in
  if negb (boundedToken svc 128) || negb (boundedToken op 128) || negb (reasonValid code) ||
     (code =? ReasonAllRequirementsAllowed)%string || negb (boundedToken event 128)
  then None
  else Some (mkDenial svc op code reason event request ClassificationLocalDeny upstream).

Definition denialMessage (denial : Denial) : string :=
  ("Kordn denied " ++ Service denial ++ ":" ++ Operation denial ++ " (" ++ ReasonCode denial ++
   "); event " ++ EventID denial)%string.

(** The digit loop of [itoa]; [buf[i:]] is [acc].  Twenty digits suffice for
    any [int]. *)
Fixpoint itoaLoop (fuel : nat) (value : Z) (acc : string) : string :=
  match fuel with
  | O => acc
  | S fuel =>
    if 0 <? value then itoaLoop fuel (value / 10) (String (chr (ord "0" + value mod 10)) acc)
    else acc
  end.
Definition itoa (value : Z) : string :=
  if value =? 0 then "0" else itoaLoop 20 value EmptyString.

Definition setBody (header : header) (body contentType : string) : Response :=
  let header := header_Set header "Content-Type" contentType in
  let header := header_Set header "Content-Length" (itoa (slen body)) in
  mkResponse 403 "403 Forbidden" 1 1 header (slen body) body.

(** ** json.go *)

Definition encodeJSON (protocol : string) (denial : Denial) : Response :=
  let body := json_object [("__type", json_quote "AccessDeniedException");
                           ("message", json_quote (denialMessage denial))] in
  let header := header_Set ∅ "x-amzn-ErrorType" "AccessDeniedException" in
  let header := header_Set header "x-amzn-RequestId" (EventID denial) in
  let contentType := if (protocol =? ProtocolJSON10)%string then "application/x-amz-json-1.0"
                     else "application/x-amz-json-1.1" in
  setBody header body contentType.

Definition encodeRESTJSON (denial : Denial) : Response :=
  let body := json_object [("message", json_quote (denialMessage denial))] in
  let header := header_Set ∅ "x-amzn-ErrorType" "AccessDeniedException" in
  let header := header_Set header "x-amzn-RequestId" (EventID denial) in
  setBody header body "application/json".

(** ** xml.go *)

Definition encodeQueryXML (denial : Denial) : Response :=
  let body := xml_element "ErrorResponse"
    (xml_element "Error"
       (xml_element "Type" (xml_escape "Sender") ++ xml_element "Code" (xml_escape "AccessDenied") ++
        xml_element "Message" (xml_escape (denialMessage denial))) ++
     xml_element "RequestId" (xml_escape (EventID denial)))%string in
  setBody ∅ body "text/xml".

Definition encodeRESTXML (denial : Denial) : Response :=
  let body := xml_element "Error"
    (xml_element "Code" (xml_escape "AccessDenied") ++
     xml_element "Message" (xml_escape (denialMessage denial)) ++
     xml_element "RequestId" (xml_escape (EventID denial)))%string in
  setBody (header_Set ∅ "x-amz-request-id" (EventID denial)) body "application/xml".

Definition encodeLocal (protocol : string) (denial : Denial) : option Response :=
  if mem_str protocol [ProtocolJSON10; ProtocolJSON11] then Some (encodeJSON protocol denial)
  else if (protocol =? ProtocolRESTJSON)%string then Some (encodeRESTJSON denial)
  else if mem_str protocol [ProtocolQuery; ProtocolEC2Query] then Some (encodeQueryXML denial)
  else if (protocol =? ProtocolRESTXML)%string then Some (encodeRESTXML denial)
  else None.

Definition Encode (protocol : string) (denial : Denial) : option Response :=
  if (Classification denial =? ClassificationUpstreamAccessDenied)%string ||
     (Classification denial =? ClassificationUpstreamError)%string
  then UpstreamResponse denial
  else if negb (Classification denial =? ClassificationLocalDeny)%string ||
          negb (protocolSupported protocol)
  then None
  else match normalizeDenial denial with
  | None => None
  | Some denial => encodeLocal protocol denial
  end.

Definition EncodeDenial (protocol service operation reason eventID classification : string)
  : option Response :=
  Encode protocol (mkDenial service operation reason "" eventID "" classification None).

(** ** Facts *)

Lemma tokenRune_wide r : 128 <= r -> tokenRune r = false.
Proof. intros H. unfold tokenRune. ords. lia. Qed.

Lemma tokenRune_plain r : tokenRune r = true -> plain_byte r = true.
Proof.
  unfold tokenRune, plain_byte, in_set, between. cbn [bytes_any].
  ords.
  lia.
Qed.

Lemma boundedToken_safe v n : boundedToken v n = true ->
  bytes_all plain_byte v = true /\ 0 < slen v <= n.
Proof.
  unfold boundedToken. destruct (String.eqb_spec v ""), (Z.ltb_spec n (slen v)); try done.
  cbn [orb]. rewrite runes_all_ascii by apply tokenRune_wide. intros Ht. split.
  - revert Ht. apply bytes_all_weaken. intros r _. apply tokenRune_plain.
  - split; [|done]. destruct v; [done|]. unfold slen. simpl. lia.
Qed.

Lemma reasonValid_safe r : reasonValid r = true -> bytes_all plain_byte r = true.
Proof.
  intros Hr. apply mem_str_In in Hr.
  assert (Forall (fun c => bytes_all plain_byte c = true) allReasonCodes) as Hall
    by (repeat constructor).
  eapply Forall_forall in Hall; [exact Hall|done].
Qed.

Lemma normalizeDenial_inv d d' : normalizeDenial d = Some d' ->
  boundedToken (Service d') 128 = true /\ boundedToken (Operation d') 128 = true /\
  boundedToken (EventID d') 128 = true /\ reasonValid (ReasonCode d') = true /\
  ReasonCode d' <> ReasonAllRequirementsAllowed /\ IsLocalPolicyDeny d' = true /\
  Service d' = Service d /\ Operation d' = Operation d.
Proof.
  unfold normalizeDenial. destruct d as [svc op code reason event request class up].
  cbv zeta. destruct (negb (reason =? "")%string && _); [done|].
  destruct (negb (request =? "")%string && _); [done|].
  destruct (negb (boundedToken svc 128) || _ || _ || _ || _) eqn:E; [done|].
  intros [= <-]. cbn. autorewrite with kordn in E. destruct_and!. done.
Qed.

Lemma denialMessage_safe d :
  boundedToken (Service d) 128 = true -> boundedToken (Operation d) 128 = true ->
  boundedToken (EventID d) 128 = true -> reasonValid (ReasonCode d) = true ->
  bytes_all plain_byte (denialMessage d) = true.
Proof.
  intros H1%boundedToken_safe H2%boundedToken_safe H3%boundedToken_safe H4%reasonValid_safe.
  unfold denialMessage. rewrite !bytes_all_app.
  destruct H1 as [-> _], H2 as [-> _], H3 as [-> _]. by rewrite H4.
Qed.

Lemma itoaLoop_decimal fuel : forall v acc a,
  0 <= v < 10 ^ Z.of_nat fuel ->
  exists k, 0 <= k /\ decimal a (itoaLoop fuel v acc) = decimal (a * 10 ^ k + v) acc /\
    (0 < v -> itoaLoop fuel v acc <> "").
Proof.
  induction fuel as [|fuel IH]; intros v acc a Hv; cbn [itoaLoop].
  - exists 0. cbn in Hv. replace (a * 10 ^ 0 + v) with a by lia. split; [done|]. split; [done|lia].
  - destruct (Z.ltb_spec 0 v) as [Hp|Hp].
    + pose proof (Z.mod_pos_bound v 10 ltac:(lia)) as Hm.
      pose proof (Z.div_mod v 10 ltac:(lia)) as Hdm.
      destruct (IH (v / 10) (String (chr (ord "0" + v mod 10)) acc) a) as (k & Hk & E & Hne).
      { split; [apply Z.div_pos; lia|]. apply Z.div_lt_upper_bound; [lia|].
        rewrite Nat2Z.inj_succ, Z.pow_succ_r in Hv by lia. lia. }
      exists (k + 1). split; [lia|]. split.
      * rewrite E. cbn [decimal]. f_equal. ords. rewrite ord_chr by lia.
        rewrite Z.pow_add_r by lia. lia.
      * intros _. destruct (Z.ltb_spec 0 (v / 10)); [by apply Hne|].
        destruct fuel; cbn [itoaLoop]; [done|].
        destruct (Z.ltb_spec 0 (v / 10)); [lia|done].
    + exists 0. replace v with 0 by lia. split; [done|]. split; [f_equal; lia|lia].
Qed.

Lemma itoa_decimal v : 0 <= v < 10 ^ 20 -> decimal 0 (itoa v) = v.
Proof.
  intros Hv. unfold itoa. destruct (Z.eqb_spec v 0) as [->|Hne]; [reflexivity|].
  destruct (itoaLoop_decimal 20 v "" 0 Hv) as (k & Hk & -> & _). cbn. lia.
Qed.

(** What each protocol puts on the wire, with nothing escaped. *)
Definition wire_body (protocol message event : string) : string :=
  let q s := (dquote ++ s ++ dquote)%string in
  if mem_str protocol [ProtocolJSON10; ProtocolJSON11] then
    ("{" ++ q "__type" ++ ":" ++ q "AccessDeniedException" ++ "," ++ q "message" ++ ":" ++
     q message ++ "}")%string
  else if (protocol =? ProtocolRESTJSON)%string then
    ("{" ++ q "message" ++ ":" ++ q message ++ "}")%string
  else if mem_str protocol [ProtocolQuery; ProtocolEC2Query] then
    ("<ErrorResponse><Error><Type>Sender</Type><Code>AccessDenied</Code><Message>" ++ message ++
     "</Message></Error><RequestId>" ++ event ++ "</RequestId></ErrorResponse>")%string
  else
    ("<Error><Code>AccessDenied</Code><Message>" ++ message ++ "</Message><RequestId>" ++ event ++
     "</RequestId></Error>")%string.

Lemma setBody_spec h body ct :
  StatusCode (setBody h body ct) = 403 /\ ContentLength (setBody h body ct) = slen body /\
  Body (setBody h body ct) = body /\
  header_Get (Header (setBody h body ct)) "Content-Length" = itoa (slen body).
Proof.
  repeat split. unfold setBody, header_Get, header_Values. cbn [Header].
  unfold header_Set at 1. by rewrite lookup_insert_eq.
Qed.

Lemma encodeLocal_spec protocol d :
  protocolSupported protocol = true ->
  bytes_all plain_byte (denialMessage d) = true -> bytes_all plain_byte (EventID d) = true ->
  exists h ct, encodeLocal protocol d
    = Some (setBody h (wire_body protocol (denialMessage d) (EventID d)) ct).
Proof.
  intros Hp Hm He. unfold encodeLocal, wire_body.
  unfold encodeJSON, encodeRESTJSON, encodeQueryXML, encodeRESTXML.
  rewrite !(json_quote_plain (denialMessage d)), !(xml_escape_plain (denialMessage d)),
    !(xml_escape_plain (EventID d)) by done.
  destruct (mem_str protocol [ProtocolJSON10; ProtocolJSON11]) eqn:E1.
  { eexists _, _. f_equal. }
  destruct (protocol =? ProtocolRESTJSON)%string eqn:E2.
  { eexists _, _. f_equal. }
  destruct (mem_str protocol [ProtocolQuery; ProtocolEC2Query]) eqn:E3.
  { eexists _, _. f_equal. f_equal. unfold xml_element. rewrite !str_app_assoc. reflexivity. }
  destruct (protocol =? ProtocolRESTXML)%string eqn:E4.
  { eexists _, _. f_equal. f_equal. unfold xml_element. rewrite !str_app_assoc. reflexivity. }
  unfold protocolSupported, mem_str in *. cbn [existsb] in *.
  rewrite E2, E4 in Hp. rewrite !orb_false_r in *. bool_hyps.
  destruct (protocol =? ProtocolJSON10)%string, (protocol =? ProtocolJSON11)%string,
    (protocol =? ProtocolQuery)%string, (protocol =? ProtocolEC2Query)%string; done.
Qed.

(** ** Claims *)

(** C25. [Encode] returns an upstream response by identity, and otherwise
    either nothing or a local denial: a 403 for a supported protocol whose
    declared length is the length of its body, whose body is the protocol's
    fixed template around the denial message, and whose message consists of
    bytes that need no escaping (no quote, angle bracket, ampersand, backslash
    or control byte), so that metadata cannot inject structure. *)
Theorem Encode_outcomes (protocol : string) (d : Denial) (resp : Response) :
  Encode protocol d = Some resp ->
  (Classification d <> ClassificationLocalDeny /\ UpstreamResponse d = Some resp) \/
  (Classification d = ClassificationLocalDeny /\ protocolSupported protocol = true /\
   exists d', normalizeDenial d = Some d' /\
     ReasonCode d' <> ReasonAllRequirementsAllowed /\
     StatusCode resp = 403 /\
     Body resp = wire_body protocol (denialMessage d') (EventID d') /\
     bytes_all plain_byte (denialMessage d') = true /\
     bytes_all plain_byte (EventID d') = true /\
     ContentLength resp = slen (Body resp) /\
     (slen (Body resp) < 10 ^ 20 ->
      decimal 0 (header_Get (Header resp) "Content-Length") = slen (Body resp))).
Proof.
  unfold Encode. intros H.
  destruct ((Classification d =? ClassificationUpstreamAccessDenied)%string ||
    (Classification d =? ClassificationUpstreamError)%string) eqn:Eu.
  { left. split; [|done]. intros E. by rewrite E in Eu. }
  right. destruct (String.eqb_spec (Classification d) ClassificationLocalDeny) as [El|]; [|done].
  destruct (protocolSupported protocol) eqn:Ep; [|done]. cbn [negb orb] in H.
  destruct (normalizeDenial d) as [d'|] eqn:En; [|done].
  split; [done|]. split; [done|]. exists d'. split; [done|].
  destruct (normalizeDenial_inv d d' En) as (T1 & T2 & T3 & T4 & T5 & _).
  pose proof (denialMessage_safe d' T1 T2 T3 T4) as Hm.
  destruct (boundedToken_safe _ _ T3) as [He _].
  destruct (encodeLocal_spec protocol d' Ep Hm He) as (h & ct & E).
  rewrite E in H. injection H as <-.
  destruct (setBody_spec h (wire_body protocol (denialMessage d') (EventID d')) ct)
    as (S1 & S2 & S3 & S4).
  rewrite S1, S2, S3, S4. repeat split; try done.
  intros Hlt. apply itoa_decimal. split; [apply slen_nonneg|done].
Qed.

Lemma Encode_outcomes_witness :
  exists resp, Encode ProtocolRESTXML
    (mkDenial "s3" "GetObject" ReasonExplicitDeny "" "evt-1" "" ClassificationLocalDeny None)
    = Some resp /\ StatusCode resp = 403.
Proof.
  eexists. split; [vm_compute; reflexivity|].
  destruct (Encode_outcomes ProtocolRESTXML
    (mkDenial "s3" "GetObject" ReasonExplicitDeny "" "evt-1" "" ClassificationLocalDeny None) _
    ltac:(vm_compute; reflexivity)) as [[H _]|(_ & _ & d' & _ & _ & H & _)].
  - destruct H. reflexivity.
  - exact H.
Defined.

End Awserror.
