(* ===== verification/Policy.v ===== *)
(** * The policy engine (internal/policy: decision.go, engine.go)

    A policy is copied out of a reflected value ([gval]), compiled to rules
    with validated globs and constraint sets, and evaluated against one mapped
    request.  [Evaluate] is the whole Go body, with every [ctx.Err()] poll; a
    nil engine or context is [None].  [sha256] is the digest the policy hash is
    built on. *)

From Stdlib Require Import ZArith Lia Ascii.
From stdpp Require Import sorting base gmap strings list.
From S2P Require Import Prelude GoStrings GoEncoding Glob AwsTypes Awserror.

Module Policy.
Import Glob.Glob AwsTypes.AwsTypes Awserror.Awserror.

(** ** decision.go *)

Definition DecisionAllow : string := "allow".
Definition DecisionDeny : string := "deny".

(** [DecisionResult.Valid]. *)
Definition resultValid (r : string) : bool := (r =? DecisionAllow)%string || (r =? DecisionDeny)%string.

Record DecisionInput := mkInput {
  RunID : string;
  Endpoint : AWSEndpoint;
  Request : option DecodedAWSRequest;
  Mapping : option MappingResult;
  PolicyHash : string;
  in_MapperVersion : string;
}.

Record Decision := mkDecision {
  Result : string;
  ReasonCode : string;
  MatchedRuleIDs : list string;
}.

#[export] Instance Decision_eq_dec : EqDecision Decision.
Proof. solve_decision. Defined.

(** [Decision.Valid]. *)
Definition Decision_Valid (d : Decision) : bool :=
  if negb (resultValid (Result d)) || negb (reasonValid (ReasonCode d)) then false
  else if (Result d =? DecisionAllow)%string
  then (ReasonCode d =? ReasonAllRequirementsAllowed)%string
  else negb (ReasonCode d =? ReasonAllRequirementsAllowed)%string.

(** ** Limits *)

Definition maxPolicyRules : Z := 10000.
Definition maxRuleValues : Z := 1000.
Definition maxRequirements : Z := 1000.
Definition maxRequirementValues : Z := 1000.
Definition maxMapperTextLength : Z := 512.
Definition maxConditionHintItems : Z := 1000.
Definition maxEvaluationCombos : Z := 100000.

Definition len {A} (l : list A) : Z := Z.of_nat (List.length l).

(** ** Reflected policy values *)

Inductive gval :=
| GNil                                       (** the invalid reflect.Value *)
| GPtr (p : option gval)
| GStruct (fields : list (string * gval))
| GSlice (vs : list gval)
| GStr (s : string)
| GBool (b : bool)
| GOther.

(** [FieldByName]; the zero Value when there is no such field. *)
Definition FieldByName (fields : list (string * gval)) (name : string) : gval :=
  match List.find (fun kv => (kv.1 =? name)%string) fields with
  | Some kv => kv.2
  | None => GNil
  end.

Record ruleSnapshot := mkRuleSnapshot {
  ID : string; Effect : string;
  Actions : list string; rs_Resources : list string; Regions : list string;
  Accounts : list string; Partitions : list string;
  Wildcard : bool;
}.
Record policySnapshot := mkPolicySnapshot {
  defaultValue : string;
  ps_rules : list ruleSnapshot;
}.

Definition stringField (v : list (string * gval)) (name : string) : result string :=
  match FieldByName v name with
  | GStr s => Ok s
  | _ => Err (ErrFmt "rule %s field is invalid" [name])
  end.

Fixpoint stringValues (name : string) (vs : list gval) : result (list string) :=
  match vs with
  | [] => Ok []
  | GStr s :: vs => out ← stringValues name vs; Ok (s :: out)
  | _ :: _ => Err (ErrFmt "rule %s values are invalid" [name])
  end.

Definition stringSliceField (v : list (string * gval)) (name : string) : result (list string) :=
  match FieldByName v name with
  | GSlice vs => stringValues name vs
  | _ => Err (ErrFmt "rule %s field is invalid" [name])
  end.

(** The rule loop body of [copyPolicy]. *)
Definition copyRule (rv : gval) : result ruleSnapshot :=
  match (match rv with GPtr None => None | GPtr (Some v) => Some v | v => Some v end) with
  | None => Err (ErrNew "nil rule")
  | Some (GStruct rv) =>
    id ← stringField rv "ID";
    effect ← stringField rv "Effect";
    actions ← stringSliceField rv "Actions";
    resources ← stringSliceField rv "Resources";
    regions ← stringSliceField rv "Regions";
    accounts ← stringSliceField rv "Accounts";
    partitions ← stringSliceField rv "Partitions";
    match FieldByName rv "AllowAWSRequiredWildcard" with
    | GBool flag => Ok (mkRuleSnapshot id effect actions resources regions accounts partitions flag)
    | _ => Err (ErrNew "rule wildcard field is invalid")
    end
  | Some _ => Err (ErrNew "rule must be a struct")
  end.

Fixpoint copyRules (rvs : list gval) : result (list ruleSnapshot) :=
  match rvs with
  | [] => Ok []
  | rv :: rvs => rule ← copyRule rv; rules ← copyRules rvs; Ok (rule :: rules)
  end.

Definition copyPolicy (input : gval) : result policySnapshot :=
  match input with
  | GNil | GPtr None => Err (ErrNew "policy is nil")
  | _ =>
    match (match input with GPtr (Some v) => v | v => v end) with
    | GStruct fields =>
      match FieldByName fields "Default", FieldByName fields "Rules" with
      | GStr default, GSlice rules =>
        rules ← copyRules rules; Ok (mkPolicySnapshot default rules)
      | _, _ => Err (ErrNew "unsupported policy type")
      end
    | _ => Err (ErrNew "policy must be a struct")
    end
  end.

(** ** Compilation *)

Record compiledRule := mkRule {
  id : string;
  effect : string;
  actions : list Glob;
  resources : list Glob;
  regions : gset string;
  accounts : gset string;
  partitions : gset string;
  allowAWSRequiredWildcard : bool;
}.

Record Engine := mkEngine {
  defaultDeny : bool;
  rules : list compiledRule;
  hash : string;
}.

Definition identStart (r : Z) : bool := is_upper r || is_lower r || is_digit r.

Fixpoint identRunes (first allowPunctuation : bool) (rs : list Z) : bool :=
  match rs with
  | [] => true
  | r :: rs =>
    if first && negb (identStart r) then false
    else if identStart r then identRunes false allowPunctuation rs
    else if allowPunctuation && ((r =? ord ".") || (r =? ord "_") || (r =? ord "-"))
    then identRunes false allowPunctuation rs
    else false
  end.
Definition validIdentifier (value : string) (allowPunctuation : bool) : bool :=
  identRunes true allowPunctuation (runes value).

(** [value[0]] and [value[len-1]] of the non-empty strings it is called on. *)
Definition validRegion (value : string) : bool :=
  match byte_at value 0, byte_at value (slen value - 1) with
  | Some first, Some final =>
    if (maxMapperTextLength <? slen value) || (first <? ord "a") || (ord "z" <? first) then false
    else if (final <? ord "0") || (ord "9" <? final) then false
    else if negb (forallb (fun r => is_lower r || is_digit r || (r =? ord "-")) (runes value))
    then false
    else bytes_any (Z.eqb (ord "-")) value
  | _, _ => false
  end.

Definition validAccount (value : string) : bool :=
  if negb (slen value =? 12) then false else forallb is_digit (runes value).

Definition validPartition (value : string) : bool :=
  mem_str value ["aws"; "aws-us-gov"; "aws-cn"; "aws-iso"; "aws-iso-b"; "aws-iso-f"].

Fixpoint constraintLoop (values : list string) (destination : gset string) (label : string)
    (valid : string -> bool) : result (gset string) :=
  match values with
  | [] => Ok destination
  | value :: values =>
    if (value =? "")%string || negb (valid value)
    then Err (ErrFmt "invalid %s constraint" [label])
    else if bool_decide (value ∈ destination)
    then Err (ErrFmt "duplicate %s constraint" [label])
    else constraintLoop values ({[value]} ∪ destination) label valid
  end.
Definition compileConstraintSet (values : list string) (label : string) (valid : string -> bool)
  : result (gset string) :=
  if maxRuleValues <? len values then Err (ErrFmt "%s constraints exceed limit" [label])
  else constraintLoop values ∅ label valid.

(** The action and resource loops of [compileRule]. *)
Fixpoint compileActions (values : list string) (seen : list string) : result (list Glob) :=
  match values with
  | [] => Ok []
  | value :: values =>
    let key := asciiLower value in
    if mem_str key seen then Err (ErrNew "rule actions contain duplicates")
    else match CompileActionGlob value with
         | Err err => Err (ErrWrap "action: %w" [] err)
         | Ok glob => globs ← compileActions values (key :: seen); Ok (glob :: globs)
         end
  end.
Fixpoint compileResources (values : list string) (seen : list string) : result (list Glob) :=
  match values with
  | [] => Ok []
  | value :: values =>
    if mem_str value seen then Err (ErrNew "rule resources contain duplicates")
    else match CompileGlob value with
         | Err err => Err (ErrWrap "resource: %w" [] err)
         | Ok glob => globs ← compileResources values (value :: seen); Ok (glob :: globs)
         end
  end.

Definition compileRule (source : ruleSnapshot) : result compiledRule :=
  if (slen (ID source) =? 0) || (128 <? slen (ID source)) || negb (validIdentifier (ID source) true)
  then Err (ErrNew "rule ID is invalid")
  else if negb (Effect source =? "allow")%string && negb (Effect source =? "deny")%string
  then Err (ErrNew "rule effect is invalid")
  else if (Effect source =? "deny")%string && Wildcard source
  then Err (ErrNew "wildcard acknowledgement is only valid on allow rules")
  else if (len (Actions source) =? 0) || (maxRuleValues <? len (Actions source)) ||
          (len (rs_Resources source) =? 0) || (maxRuleValues <? len (rs_Resources source))
  then Err (ErrNew "rule action and resource lists are out of bounds")
  else
    actions ← compileActions (Actions source) [];
    resources ← compileResources (rs_Resources source) [];
    regions ← compileConstraintSet (Regions source) "region" validRegion;
    accounts ← compileConstraintSet (Accounts source) "account" validAccount;
    partitions ← compileConstraintSet (Partitions source) "partition" validPartition;
    Ok (mkRule (ID source) (Effect source) actions resources regions accounts partitions
          (Wildcard source)).

(** The rule loop of [NewEngine]. *)
Fixpoint compileRules (index : Z) (sources : list ruleSnapshot) (seenIDs : list string)
  : result (list compiledRule) :=
  match sources with
  | [] => Ok []
  | source :: sources =>
    match compileRule source with
    | Err err => Err (ErrWrap "rule %d: %w" [Itoa index] err)
    | Ok rule =>
      if mem_str (id rule) seenIDs then Err (ErrFmt "rule %q is duplicated" [id rule])
      else rules ← compileRules (index + 1) sources (id rule :: seenIDs); Ok (rule :: rules)
    end
  end.

Definition idLeb (a b : compiledRule) : bool := str_leb (id a) (id b).

(** ** The policy hash *)

Fixpoint dedup_from (seen values : list string) : list string :=
  match values with
  | [] => []
  | v :: values => if mem_str v seen then dedup_from seen values else v :: dedup_from (v :: seen) values
  end.
Definition dedup_strings (values : list string) : list string := dedup_from [] values.

Definition normalizeValues (values : list string) (lower : bool) : list string :=
  sort_strings (dedup_strings (if lower then asciiLower <$> values else values)).

Definition canonicalRule (r : ruleSnapshot) : string :=
  json_object
    [("id", json_quote (ID r)); ("effect", json_quote (Effect r));
     ("actions", json_strings (normalizeValues (Actions r) true));
     ("resources", json_strings (normalizeValues (rs_Resources r) false));
     ("regions", json_strings (normalizeValues (Regions r) false));
     ("accounts", json_strings (normalizeValues (Accounts r) false));
     ("partitions", json_strings (normalizeValues (Partitions r) false));
     ("allowAwsRequiredWildcard", json_bool (Wildcard r))].

Definition canonicalPolicy (policy : policySnapshot) : string :=
  json_object
    [("default", json_quote (defaultValue policy));
     ("rules", ("[" ++ Join (canonicalRule <$>
        sort_by (fun a b => str_leb (ID a) (ID b)) (ps_rules policy)) "," ++ "]")%string)].

Section Engine.
Context (sha256 : string -> string).

Definition snapshotPolicyHash (policy : policySnapshot) : string :=
  ("sha256:" ++ hex_encode (sha256 (canonicalPolicy policy)))%string.

Definition NewEngine (input : gval) : result Engine :=
  policy ← copyPolicy input;
  if negb (defaultValue policy =? "deny")%string
  then Err (ErrNew "policy default must be deny")
  else if maxPolicyRules <? len (ps_rules policy) then Err (ErrNew "policy has too many rules")
  else
    rules ← compileRules 0 (ps_rules policy) [];
    Ok (mkEngine true (sort_by idLeb rules) (snapshotPolicyHash policy)).
End Engine.

(** [Engine.PolicyHash], on a possibly nil engine. *)
Definition Engine_PolicyHash (e : option Engine) : string :=
  match e with None => EmptyString | Some e => hash e end.

(** ** Matching one resource *)

Record arnContext := mkARN {
  arn_partition : string; arn_service : string; arn_region : string;
  arn_account : string; arn_resource : string;
}.

Definition arnServiceRune (r : Z) : bool :=
  is_lower r || is_upper r || is_digit r || (r =? ord "-").

Definition parseARN (value : string) : result arnContext :=
  match SplitN value ":" 6 with
  | [p0; p1; p2; p3; p4; p5] =>
    if negb (p0 =? "arn")%string || negb (validPartition p1) || (p2 =? "")%string ||
       (p5 =? "")%string
    then Err (ErrNew "malformed ARN")
    else if negb (p3 =? "")%string && negb (validRegion p3)
    then Err (ErrNew "malformed ARN region")
    else if negb (p4 =? "")%string && negb (validAccount p4)
    then Err (ErrNew "malformed ARN account")
    else if negb (forallb arnServiceRune (runes p2)) then Err (ErrNew "malformed ARN service")
    else Ok (mkARN p1 p2 p3 p4 p5)
  | _ => Err (ErrNew "malformed ARN")
  end.

Definition constraintMatches (values : gset string) (value : string) : bool :=
  if Z.of_nat (size values) =? 0 then true else bool_decide (value ∈ values).

Definition ruleHasLiteralStar (resources : list Glob) : bool :=
  existsb (fun resource => (pattern resource =? "*")%string) resources.

(** [req] is [input.Request], which [Evaluate] has checked to be non-nil. *)
Definition ruleMatches (rule : compiledRule) (action resource scope : string)
    (req : DecodedAWSRequest) : bool :=
  if negb (existsb (fun glob => Match glob action) (actions rule)) then false
  else if negb (existsb (fun glob => Match glob resource) (resources rule)) then false
  else if HasPrefix resource "arn:" then
    match parseARN resource with
    | Err _ => false
    | Ok arn =>
      if negb (arn_partition arn =? Partition req)%string then false
      else if negb (arn_region arn =? "")%string && negb (arn_region arn =? Region req)%string
      then false
      else constraintMatches (regions rule) (arn_region arn) &&
           constraintMatches (accounts rule) (arn_account arn) &&
           constraintMatches (partitions rule) (arn_partition arn)
    end
  else if (resource =? "*")%string && (scope =? ScopeKnownGlobal)%string then
    constraintMatches (regions rule) (Region req) &&
    constraintMatches (accounts rule) (CallerAccountID req) &&
    constraintMatches (partitions rule) (Partition req)
  else if negb (Z.of_nat (size (regions rule)) =? 0) ||
          negb (Z.of_nat (size (accounts rule)) =? 0) ||
          negb (Z.of_nat (size (partitions rule)) =? 0)
  then false
  else true.

(** ** Evaluation *)

Definition internalDecision : Decision :=
  mkDecision DecisionDeny ReasonInternalFailClosed [].
Definition deny (reason : string) : Decision := mkDecision DecisionDeny reason [].

Definition bool_str (b : bool) : string := if b then "true" else "false".
Definition nul : string := String (chr 0) EmptyString.

Definition requirementKey (r : IAMRequirement) : string :=
  (asciiLower (Action r) ++ nul ++ ScopeKind r ++ nul ++ bool_str (Dependent r) ++ nul ++
   Join (Resources r) nul)%string.

Definition sortResources (r : IAMRequirement) : IAMRequirement :=
  mkRequirement (Action r) (sort_strings (Resources r)) (ScopeKind r) (Dependent r)
    (ConditionHint r).

Definition keyLeb (a b : IAMRequirement) : bool := str_leb (requirementKey a) (requirementKey b).

Definition snapshotRequirements (values : list IAMRequirement) : list IAMRequirement :=
  sort_by keyLeb (sortResources <$> values).

(** Ordered enumeration of a [map[string]struct{}] of rule IDs. *)
Definition sortedIDs (values : gset string) : list string := sort_strings (elements values).

Section Evaluate.
Context `{U : UnicodeTables}.

(** [DecisionInput.Validate]: on success the request and mapping it found
    to be non-nil. *)
Definition Input_Validate (i : DecisionInput) : result (DecodedAWSRequest * MappingResult) :=
  if (RunID i =? "")%string || (PolicyHash i =? "")%string || (in_MapperVersion i =? "")%string
  then Err (ErrNew "run, policy hash, and mapper version are required")
  else match Endpoint_Validate (Endpoint i) with
  | Some err => Err (ErrWrap "endpoint: %w" [] err)
  | None =>
  match Request i, Mapping i with
  | Some req, Some mapping =>
    match Decoded_Validate req with
    | Some err => Err (ErrWrap "request: %w" [] err)
    | None =>
    match Mapping_Validate mapping with
    | Some err => Err (ErrWrap "mapping: %w" [] err)
    | None =>
    if negb (Partition req =? ep_Partition (Endpoint i))%string ||
       negb (EndpointHost req =? ep_Host (Endpoint i))%string ||
       negb (AwsTypes.AwsTypes.Service req =? ep_Service (Endpoint i))%string
    then Err (ErrNew "request endpoint does not match decision endpoint")
    else if negb (map_Service mapping =? AwsTypes.AwsTypes.Service req)%string ||
            negb (map_Operation mapping =? AwsTypes.AwsTypes.Operation req)%string
    then Err (ErrNew "mapping service and operation do not match decoded request")
    else if negb (MapperVersion mapping =? in_MapperVersion i)%string
    then Err (ErrNew "mapper version does not match mapping")
    else Ok (req, mapping)
    end end
  | _, _ => Err (ErrNew "request and mapping are required")
  end end.

(** The resource loop of [validateEvaluationInput]. *)
Fixpoint checkEvalResources (resources : list string) : option error :=
  match resources with
  | [] => None
  | resource :: resources =>
    if (slen resource =? 0) || (MaxGlobLength <? slen resource) || negb (ValidString resource)
    then Some (ErrNew "requirement resource is out of bounds")
    else if existsb IsControl (runes resource)
    then Some (ErrNew "requirement resource contains control syntax")
    else if HasPrefix resource "arn:" then
      match parseARN resource with
      | Err err => Some err
      | Ok _ => checkEvalResources resources
      end
    else checkEvalResources resources
  end.

(** The condition-hint loop. *)
Fixpoint checkHints (hints : list (string * list string)) : option error :=
  match hints with
  | [] => None
  | (key, values) :: hints =>
    if (slen key =? 0) || (MaxGlobLength <? slen key) || negb (ValidString key) ||
       (maxRequirementValues <? len values)
    then Some (ErrNew "condition hint is out of bounds")
    else if existsb (fun value => (MaxGlobLength <? slen value) || negb (ValidString value)) values
    then Some (ErrNew "condition hint value is out of bounds")
    else checkHints hints
  end.

(** The requirement loop; [combos] counts resources so far. *)
Fixpoint checkEvalRequirements (service : string) (combos : Z) (rs : list IAMRequirement)
  : option error :=
  match rs with
  | [] => None
  | r :: rs =>
    if (slen (Action r) =? 0) || (MaxGlobLength <? slen (Action r)) ||
       ContainsAny (Action r) "*?"
    then Some (ErrNew "requirement action is out of bounds or not concrete")
    else match CompileActionGlob (Action r) with
    | Err err => Some err
    | Ok _ =>
    if maxRequirementValues <? len (Resources r)
    then Some (ErrNew "requirement resources are out of bounds")
    else
      let combos := combos + len (Resources r) in
      if maxEvaluationCombos <? combos
      then Some (ErrNew "requirement combinations exceed limit")
      else
        let parts := SplitN (Action r) ":" 2 in
        if negb (len parts =? 2) ||
           (negb (Dependent r) && negb (EqualFold (parts !!! 0%nat) service))
        then Some (ErrNew "requirement action service disagrees with mapping")
        else match checkEvalResources (Resources r) with
        | Some err => Some err
        | None =>
          if maxConditionHintItems <? len (ConditionHint r)
          then Some (ErrNew "condition hints are out of bounds")
          else match checkHints (ConditionHint r) with
          | Some err => Some err
          | None => checkEvalRequirements service combos rs
          end
        end
    end
  end.

Definition validateEvaluationInput (endpoint : AWSEndpoint) (req : DecodedAWSRequest)
    (mapping : MappingResult) : option error :=
  if (len (Requirements mapping) =? 0) || (maxRequirements <? len (Requirements mapping))
  then Some (ErrNew "requirements are out of bounds")
  else if (maxMapperTextLength <? slen (map_Service mapping)) ||
          (maxMapperTextLength <? slen (map_Operation mapping)) ||
          (maxMapperTextLength <? slen (MapperVersion mapping))
  then Some (ErrNew "mapping text is out of bounds")
  else match checkEvalRequirements (map_Service mapping) 0 (Requirements mapping) with
  | Some err => Some err
  | None =>
    if negb (Bool.eqb (IsGlobal endpoint) (Region req =? "")%string) ||
       negb (ep_Region endpoint =? Region req)%string
    then Some (ErrNew "endpoint and request scope disagree")
    else None
  end.

(** The first unresolved requirement decides the denial. *)
Fixpoint unresolvedDecision (rs : list IAMRequirement) : option Decision :=
  match rs with
  | [] => None
  | r :: rs =>
    if (ScopeKind r =? ScopeUnresolved)%string
    then Some (deny (if Dependent r then ReasonDependentPermissionUnresolved
                     else ReasonResourceUnresolved))
    else unresolvedDecision rs
  end.

Record evalState := mkEval {
  matched : gset string;
  wildcardMissing : bool;
  uncovered : bool;
  explicitDeny : bool;
}.

(** State of the rule scan of one resource. *)
Record scanState := mkScan {
  ruleIndex : Z;
  covered : bool;
  sawUnacknowledged : bool;
  s_matched : gset string;
  s_explicitDeny : bool;
}.

Definition applyRule (req : DecodedAWSRequest) (requirement : IAMRequirement)
    (resource : string) (rule : compiledRule) (s : scanState) : scanState :=
  let s := mkScan (ruleIndex s + 1) (covered s) (sawUnacknowledged s) (s_matched s)
             (s_explicitDeny s) in
  if negb (ruleMatches rule (Action requirement) resource (ScopeKind requirement) req) then s
  else
    let matched := {[id rule]} ∪ s_matched s in
    if (effect rule =? "deny")%string
    then mkScan (ruleIndex s) (covered s) (sawUnacknowledged s) matched true
    else if (ScopeKind requirement =? ScopeKnownGlobal)%string then
      if allowAWSRequiredWildcard rule && ruleHasLiteralStar (resources rule)
      then mkScan (ruleIndex s) true (sawUnacknowledged s) matched (s_explicitDeny s)
      else mkScan (ruleIndex s) (covered s) true matched (s_explicitDeny s)
    else mkScan (ruleIndex s) true (sawUnacknowledged s) matched (s_explicitDeny s).

(** The body of the rule loop, polling every 64 rules. *)
Definition scanRule (ctx : context) (req : DecodedAWSRequest) (requirement : IAMRequirement)
    (resource : string) (rule : compiledRule) (s : scanState) : G Decision scanState :=
  _ ← (if Z.land (ruleIndex s) 63 =? 0 then poll ctx (fun _ => internalDecision) else mret tt);
  mret (applyRule req requirement resource rule s).

(** What the resource loop does with a finished scan. *)
Definition finishResource (s : scanState) (st : evalState) : evalState :=
  if covered s
  then mkEval (s_matched s) (wildcardMissing st) (uncovered st) (s_explicitDeny s)
  else if sawUnacknowledged s
  then mkEval (s_matched s) true (uncovered st) (s_explicitDeny s)
  else mkEval (s_matched s) (wildcardMissing st) true (s_explicitDeny s).

Definition scanResource (ctx : context) (e : Engine) (req : DecodedAWSRequest)
    (requirement : IAMRequirement) (resource : string) (st : evalState) : G Decision evalState :=
  _ ← poll ctx (fun _ => internalDecision);
  s ← grange (rules e) (scanRule ctx req requirement resource)
        (mkScan 0 false false (matched st) (explicitDeny st));
  mret (finishResource s st).

Definition scanRequirement (ctx : context) (e : Engine) (req : DecodedAWSRequest)
    (requirement : IAMRequirement) (st : evalState) : G Decision evalState :=
  grange (Resources requirement) (scanResource ctx e req requirement) st.

Definition finalDecision (ctx : context) (st : evalState) : G Decision Decision :=
  if explicitDeny st
  then greturn (mkDecision DecisionDeny ReasonExplicitDeny (sortedIDs (matched st)))
  else if wildcardMissing st
  then greturn (mkDecision DecisionDeny ReasonAWSRequiredWildcardNotApproved
                  (sortedIDs (matched st)))
  else if uncovered st
  then greturn (mkDecision DecisionDeny ReasonPolicyNoMatchingAllow (sortedIDs (matched st)))
  else
    _ ← poll ctx (fun _ => internalDecision);
    greturn (mkDecision DecisionAllow ReasonAllRequirementsAllowed (sortedIDs (matched st))).

Definition evaluateBody (e : Engine) (ctx : context) (input : DecisionInput)
  : G Decision Decision :=
  _ ← poll ctx (fun _ => internalDecision);
  match Input_Validate input with
  | Err _ => greturn internalDecision
  | Ok (req, mapping) =>
    if negb (PolicyHash input =? hash e)%string then greturn internalDecision
    else if negb (Confidence mapping =? ConfidenceHigh)%string
    then greturn (deny ReasonMappingLowConfidence)
    else match validateEvaluationInput (Endpoint input) req mapping with
    | Some _ => greturn internalDecision
    | None =>
      let requirements := snapshotRequirements (Requirements mapping) in
      match unresolvedDecision requirements with
      | Some d => greturn d
      | None =>
        st ← grange requirements (scanRequirement ctx e req) (mkEval ∅ false false false);
        finalDecision ctx st
      end
    end
  end.

Definition Evaluate (e : option Engine) (ctx : option context) (input : DecisionInput)
  : Decision :=
  match e, ctx with
  | Some e, Some ctx => (grun (evaluateBody e ctx input) 0).1
  | _, _ => internalDecision
  end.
End Evaluate.

(** ** The pure reading of an evaluation *)

Section Pure.
Context `{U : UnicodeTables}.

Definition pureScan (e : Engine) (req : DecodedAWSRequest) (requirement : IAMRequirement)
    (resource : string) (s : scanState) : scanState :=
  foldl (fun s rule => applyRule req requirement resource rule s) s (rules e).

Definition pureResource e req requirement (st : evalState) (resource : string) : evalState :=
  finishResource
    (pureScan e req requirement resource (mkScan 0 false false (matched st) (explicitDeny st))) st.

Definition pureRequirement e req (st : evalState) (requirement : IAMRequirement) : evalState :=
  foldl (pureResource e req requirement) st (Resources requirement).

Definition pureState e req (requirements : list IAMRequirement) : evalState :=
  foldl (pureRequirement e req) (mkEval ∅ false false false) requirements.

Definition pureFinal (st : evalState) : Decision :=
  if explicitDeny st then mkDecision DecisionDeny ReasonExplicitDeny (sortedIDs (matched st))
  else if wildcardMissing st
  then mkDecision DecisionDeny ReasonAWSRequiredWildcardNotApproved (sortedIDs (matched st))
  else if uncovered st
  then mkDecision DecisionDeny ReasonPolicyNoMatchingAllow (sortedIDs (matched st))
  else mkDecision DecisionAllow ReasonAllRequirementsAllowed (sortedIDs (matched st)).

Definition pureEvaluate (e : Engine) (input : DecisionInput) : Decision :=
  match Input_Validate input with
  | Err _ => internalDecision
  | Ok (req, mapping) =>
    if negb (PolicyHash input =? hash e)%string then internalDecision
    else if negb (Confidence mapping =? ConfidenceHigh)%string
    then deny ReasonMappingLowConfidence
    else match validateEvaluationInput (Endpoint input) req mapping with
    | Some _ => internalDecision
    | None =>
      let requirements := snapshotRequirements (Requirements mapping) in
      match unresolvedDecision requirements with
      | Some d => d
      | None => pureFinal (pureState e req requirements)
      end
    end
  end.

Lemma scanRule_cancellable ctx req requirement resource rule s :
  cancellable ctx internalDecision (scanRule ctx req requirement resource rule s)
    (applyRule req requirement resource rule s).
Proof.
  unfold scanRule. eapply (cancellable_bind _ _ _ _ tt); [|auto with kordn].
  case_if; auto with kordn.
Qed.

Lemma scanResource_cancellable ctx e req requirement resource st :
  cancellable ctx internalDecision (scanResource ctx e req requirement resource st)
    (pureResource e req requirement st resource).
Proof.
  unfold scanResource. eapply (cancellable_bind _ _ _ _ tt); [auto with kordn|].
  eapply cancellable_bind; [|apply cancellable_ret].
  apply (cancellable_grange _ _ _ _ (fun s rule => applyRule req requirement resource rule s)).
  intros. apply scanRule_cancellable.
Qed.

Lemma state_cancellable ctx e req requirements :
  cancellable ctx internalDecision
    (grange requirements (scanRequirement ctx e req) (mkEval ∅ false false false))
    (pureState e req requirements).
Proof.
  apply (cancellable_grange _ _ _ _ (pureRequirement e req)). intros requirement st.
  apply (cancellable_grange _ _ _ _ (pureResource e req requirement)). intros.
  apply scanResource_cancellable.
Qed.

Lemma finalDecision_settles ctx st :
  settles ctx internalDecision (finalDecision ctx st) (pureFinal st).
Proof.
  unfold finalDecision, pureFinal. repeat case_if; auto with kordn.
  eapply (settles_bind _ _ _ _ tt); auto with kordn.
Qed.

Lemma evaluateBody_settles ctx e input :
  settles ctx internalDecision (evaluateBody e ctx input) (pureEvaluate e input).
Proof.
  unfold evaluateBody, pureEvaluate.
  eapply (settles_bind _ _ _ _ tt); [auto with kordn|].
  destruct (Input_Validate input) as [[req mapping]|]; [|auto with kordn].
  destruct (negb (PolicyHash input =? hash e)%string); [auto with kordn|].
  destruct (negb (Confidence mapping =? ConfidenceHigh)%string); [auto with kordn|].
  destruct (validateEvaluationInput _ _ _); [auto with kordn|]. cbv zeta.
  destruct (unresolvedDecision _); [auto with kordn|].
  eapply settles_bind; [apply state_cancellable|apply finalDecision_settles].
Qed.

(** Cancellation aside, evaluation is the pure function. *)
Lemma Evaluate_cases e ctx input :
  Evaluate (Some e) (Some ctx) input = pureEvaluate e input \/
  (Evaluate (Some e) (Some ctx) input = internalDecision /\ exists n, ctx n <> None).
Proof.
  unfold Evaluate.
  destruct (grun_settles _ _ _ _ 0 (evaluateBody_settles ctx e input)) as [[H _]|[H (k & _ & F)]].
  - by left.
  - right. split; [done|]. by exists k.
Qed.

Lemma Evaluate_quiet e ctx input :
  (forall n, ctx n = None) -> Evaluate (Some e) (Some ctx) input = pureEvaluate e input.
Proof. intros Hq. destruct (Evaluate_cases e ctx input) as [H|[_ [n Hn]]]; [done|]. by destruct Hn. Qed.
End Pure.

(** ** What the rule scan computes *)

Section Scan.
Context `{U : UnicodeTables}.
Implicit Types (e : Engine) (req : DecodedAWSRequest) (r : IAMRequirement).

(** The rule matches one resource of a requirement. *)
Definition applies (req : DecodedAWSRequest) (r : IAMRequirement) (resource : string)
    (rule : compiledRule) : bool :=
  ruleMatches rule (Action r) resource (ScopeKind r) req.
Definition denies req r resource rule : bool :=
  applies req r resource rule && (effect rule =? "deny")%string.
(** For an AWS-required wildcard the allow rule must acknowledge it
    explicitly and list the literal ["*"]. *)
Definition acknowledged (r : IAMRequirement) (rule : compiledRule) : bool :=
  negb (ScopeKind r =? ScopeKnownGlobal)%string ||
  (allowAWSRequiredWildcard rule && ruleHasLiteralStar (resources rule)).
Definition grants req r resource rule : bool :=
  applies req r resource rule && negb (effect rule =? "deny")%string && acknowledged r rule.
Definition unacknowledged req r resource rule : bool :=
  applies req r resource rule && negb (effect rule =? "deny")%string && negb (acknowledged r rule).

Definition ids_of (rules : list compiledRule) : gset string := list_to_set (id <$> rules).

Lemma scan_spec req r resource rules s :
  let s' := foldl (fun s rule => applyRule req r resource rule s) s rules in
  covered s' = covered s || existsb (grants req r resource) rules /\
  sawUnacknowledged s' = sawUnacknowledged s || existsb (unacknowledged req r resource) rules /\
  s_explicitDeny s' = s_explicitDeny s || existsb (denies req r resource) rules /\
  s_matched s' = ids_of (filter (fun rule => applies req r resource rule = true) rules)
                 ∪ s_matched s.
Proof.
  revert s. induction rules as [|rule rules IH]; intros s; cbn [foldl existsb].
  - rewrite !orb_false_r. repeat split; try done. unfold ids_of. cbn. set_solver.
  - specialize (IH (applyRule req r resource rule s)). cbv zeta in IH |- *.
    destruct IH as (-> & -> & -> & ->).
    rewrite filter_cons. unfold grants, unacknowledged, denies, acknowledged, applies, applyRule.
    cbv zeta. destruct (ruleMatches rule _ _ _ _); cbn [negb andb];
      [rewrite decide_True by done|rewrite decide_False by done].
    + destruct (effect rule =? "deny")%string; [|destruct (ScopeKind r =? ScopeKnownGlobal)%string;
        [destruct (allowAWSRequiredWildcard rule && ruleHasLiteralStar (resources rule))|]];
        cbn; rewrite ?orb_true_r, ?orb_false_r; repeat split; try done;
        unfold ids_of; cbn; set_solver.
    + cbn. repeat split; done.
Qed.
Lemma applies_snapshot req r resource rule :
  grants req (sortResources r) resource rule = grants req r resource rule /\
  denies req (sortResources r) resource rule = denies req r resource rule /\
  unacknowledged req (sortResources r) resource rule = unacknowledged req r resource rule /\
  applies req (sortResources r) resource rule = applies req r resource rule.
Proof. done. Qed.

(** The requirement and resource loops, flattened. *)
Definition targets (rs : list IAMRequirement) : list (IAMRequirement * string) :=
  rs ≫= fun r => (fun resource => (r, resource)) <$> Resources r.

Lemma targets_cons r rs :
  targets (r :: rs) = ((fun resource => (r, resource)) <$> Resources r) ++ targets rs.
Proof. done. Qed.

Lemma foldl_pair {A B C} (f : A -> B -> C -> A) (b : B) (cs : list C) a :
  foldl (fun a p => f a p.1 p.2) a ((fun c => (b, c)) <$> cs) = foldl (fun a c => f a b c) a cs.
Proof. revert a. induction cs as [|c cs IH]; intros a; [done|]. apply IH. Qed.

Lemma pureState_targets e req rs :
  pureState e req rs =
  foldl (fun st p => pureResource e req p.1 st p.2) (mkEval ∅ false false false) (targets rs).
Proof.
  unfold pureState. generalize (mkEval ∅ false false false).
  induction rs as [|r rs IH]; intros st; [done|].
  rewrite targets_cons, foldl_app.
  rewrite (foldl_pair (fun st r resource => pureResource e req r st resource)). apply IH.
Qed.

Lemma elem_of_targets rs r resource :
  (r, resource) ∈ targets rs <-> r ∈ rs /\ resource ∈ Resources r.
Proof.
  unfold targets. rewrite list_elem_of_bind. split.
  - intros (r' & (resource' & [= -> ->] & ?)%list_elem_of_fmap & ?). done.
  - intros [? ?]. exists r. split; [|done]. apply list_elem_of_fmap. by exists resource.
Qed.

(** Per target: granted, denied, or why not. *)
Definition granted e req (p : IAMRequirement * string) : bool :=
  existsb (grants req p.1 p.2) (rules e).
Definition denied e req (p : IAMRequirement * string) : bool :=
  existsb (denies req p.1 p.2) (rules e).
Definition blocked e req (p : IAMRequirement * string) : bool :=
  negb (granted e req p) && existsb (unacknowledged req p.1 p.2) (rules e).
Definition unmatched e req (p : IAMRequirement * string) : bool :=
  negb (granted e req p) && negb (existsb (unacknowledged req p.1 p.2) (rules e)).
Definition matching e req (ps : list (IAMRequirement * string)) : gset string :=
  ids_of (filter (fun rule => existsb (fun p => applies req p.1 p.2 rule) ps = true) (rules e)).

Lemma elem_of_ids_of x rs : x ∈ ids_of rs <-> exists rule, rule ∈ rs /\ id rule = x.
Proof.
  unfold ids_of. rewrite elem_of_list_to_set, list_elem_of_fmap. naive_solver.
Qed.

Lemma resource_spec e req p st :
  let st' := pureResource e req p.1 st p.2 in
  explicitDeny st' = explicitDeny st || denied e req p /\
  wildcardMissing st' = wildcardMissing st || blocked e req p /\
  uncovered st' = uncovered st || unmatched e req p /\
  matched st' = matching e req [p] ∪ matched st.
Proof.
  unfold pureResource, finishResource, pureScan. cbv zeta.
  destruct (scan_spec req p.1 p.2 (rules e) (mkScan 0 false false (matched st) (explicitDeny st)))
    as (Hc & Hu & Hd & Hm).
  rewrite Hc, Hu. cbn [covered sawUnacknowledged orb].
  unfold blocked, unmatched, granted, denied.
  assert (matching e req [p] =
    ids_of (filter (fun rule => applies req p.1 p.2 rule = true) (rules e))) as ->.
  { unfold matching. f_equal. apply filter_ext_in. intros rule _. cbn. by rewrite orb_false_r. }
  destruct (existsb (grants req p.1 p.2) (rules e)), (existsb (unacknowledged req p.1 p.2) (rules e));
    cbn; rewrite Hd, Hm, ?orb_false_r, ?orb_true_r; done.
Qed.

Lemma matching_app e req ps qs : matching e req (ps ++ qs) = matching e req ps ∪ matching e req qs.
Proof.
  apply set_eq. intros x. rewrite elem_of_union. unfold matching. rewrite !elem_of_ids_of.
  setoid_rewrite list_elem_of_filter. setoid_rewrite existsb_app.
  setoid_rewrite orb_true_iff. naive_solver.
Qed.

Lemma targets_spec e req ps st :
  let st' := foldl (fun st p => pureResource e req p.1 st p.2) st ps in
  explicitDeny st' = explicitDeny st || existsb (denied e req) ps /\
  wildcardMissing st' = wildcardMissing st || existsb (blocked e req) ps /\
  uncovered st' = uncovered st || existsb (unmatched e req) ps /\
  matched st' = matching e req ps ∪ matched st.
Proof.
  revert st. induction ps as [|p ps IH]; intros st; cbv zeta; cbn [foldl existsb].
  - rewrite !orb_false_r. repeat split; try done. apply set_eq. intros x.
    rewrite elem_of_union. unfold matching. rewrite elem_of_ids_of. cbn.
    setoid_rewrite list_elem_of_filter. naive_solver.
  - destruct (IH (pureResource e req p.1 st p.2)) as (-> & -> & -> & ->).
    destruct (resource_spec e req p st) as (-> & -> & -> & ->).
    rewrite !orb_assoc. repeat split; try done.
    rewrite (matching_app e req [p] ps : matching e req (p :: ps) = _). set_solver.
Qed.

(** The decision on a list of resolved requirements. *)
Lemma pureFinal_spec e req rs :
  let ps := targets rs in
  pureFinal (pureState e req rs) =
  if existsb (denied e req) ps
  then mkDecision DecisionDeny ReasonExplicitDeny (sortedIDs (matching e req ps))
  else if existsb (blocked e req) ps
  then mkDecision DecisionDeny ReasonAWSRequiredWildcardNotApproved
         (sortedIDs (matching e req ps))
  else if existsb (unmatched e req) ps
  then mkDecision DecisionDeny ReasonPolicyNoMatchingAllow (sortedIDs (matching e req ps))
  else mkDecision DecisionAllow ReasonAllRequirementsAllowed (sortedIDs (matching e req ps)).
Proof.
  cbv zeta. rewrite pureState_targets. unfold pureFinal.
  destruct (targets_spec e req (targets rs) (mkEval ∅ false false false)) as (-> & -> & -> & ->).
  cbn [matched wildcardMissing uncovered explicitDeny orb]. by rewrite (right_id_L ∅ (∪)).
Qed.

Lemma unresolvedDecision_None rs :
  unresolvedDecision rs = None <-> forall r, r ∈ rs -> ScopeKind r <> ScopeUnresolved.
Proof.
  induction rs as [|r rs IH]; cbn [unresolvedDecision].
  - split; [|done]. intros _ r Hr. by apply not_elem_of_nil in Hr.
  - setoid_rewrite elem_of_cons. case_if.
    + apply eqb_true_str in Heqb. naive_solver.
    + apply eqb_false_str in Heqb. rewrite IH. naive_solver.
Qed.

Lemma unresolvedDecision_denies rs d :
  unresolvedDecision rs = Some d ->
  d = deny ReasonDependentPermissionUnresolved \/ d = deny ReasonResourceUnresolved.
Proof.
  induction rs as [|r rs IH]; cbn [unresolvedDecision]; [done|]. case_if; [|done].
  intros [= <-]. destruct (Dependent r); auto.
Qed.

Lemma elem_of_snapshot r rs :
  r ∈ snapshotRequirements rs <-> exists r0, r0 ∈ rs /\ r = sortResources r0.
Proof.
  unfold snapshotRequirements. rewrite sort_by_perm, list_elem_of_fmap. naive_solver.
Qed.

Lemma elem_of_sort_strings (x : string) l : x ∈ sort_strings l <-> x ∈ l.
Proof. by rewrite sort_strings_perm. Qed.
End Scan.

(** ** What an evaluation decides *)

Section Decides.
Context `{U : UnicodeTables}.

(** The request passes every validation that precedes the rule scan. *)
Definition admissible (e : Engine) (input : DecisionInput) (req : DecodedAWSRequest)
    (mapping : MappingResult) : Prop :=
  Input_Validate input = Ok (req, mapping) /\
  PolicyHash input = hash e /\
  Confidence mapping = ConfidenceHigh /\
  validateEvaluationInput (Endpoint input) req mapping = None.

Definition resolved (mapping : MappingResult) : Prop :=
  forall r, r ∈ Requirements mapping -> ScopeKind r <> ScopeUnresolved.

Lemma pureEvaluate_admissible e input req mapping :
  admissible e input req mapping ->
  pureEvaluate e input =
  match unresolvedDecision (snapshotRequirements (Requirements mapping)) with
  | Some d => d
  | None => pureFinal (pureState e req (snapshotRequirements (Requirements mapping)))
  end.
Proof.
  intros (Hi & Hh & Hc & Hv). unfold pureEvaluate. rewrite Hi, Hh, Hc, Hv.
  rewrite !String.eqb_refl. done.
Qed.

Lemma pureEvaluate_inadmissible e input :
  (forall req mapping, ~ admissible e input req mapping) ->
  pureEvaluate e input = internalDecision \/ pureEvaluate e input = deny ReasonMappingLowConfidence.
Proof.
  intros Hn. unfold pureEvaluate. destruct (Input_Validate input) as [[req mapping]|] eqn:Hi; [|auto].
  destruct (PolicyHash input =? hash e)%string eqn:Hh; [|auto].
  destruct (Confidence mapping =? ConfidenceHigh)%string eqn:Hc; [|auto].
  destruct (validateEvaluationInput _ _ _) eqn:Hv; [auto|].
  destruct (Hn req mapping). split_and!; try done; by apply eqb_true_str.
Qed.

(** The snapshot changes no target's verdict. *)
Lemma targets_snapshot r resource rs :
  (r, resource) ∈ targets (snapshotRequirements rs) <->
  exists r0, (r0, resource) ∈ targets rs /\ r = sortResources r0.
Proof.
  rewrite elem_of_targets, elem_of_snapshot. setoid_rewrite elem_of_targets. split.
  - intros [(r0 & Hr & ->) Hs]. exists r0. cbn in Hs. by rewrite elem_of_sort_strings in Hs.
  - intros (r0 & [Hr Hs] & ->). split; [eauto|]. cbn. by apply elem_of_sort_strings.
Qed.

Lemma existsb_snapshot (f : IAMRequirement * string -> bool) rs :
  (forall r resource, f (sortResources r, resource) = f (r, resource)) ->
  existsb f (targets (snapshotRequirements rs)) = existsb f (targets rs).
Proof.
  intros Hf. apply existsb_matching.
  - intros [r resource] (r0 & Hr & ->)%targets_snapshot. by exists (r0, resource).
  - intros [r resource] Hr. exists (sortResources r, resource). split; [|done].
    apply targets_snapshot. eauto.
Qed.

Lemma matching_snapshot e req rs :
  matching e req (targets (snapshotRequirements rs)) = matching e req (targets rs).
Proof.
  unfold matching. f_equal. apply filter_ext_in. intros rule _.
  by rewrite existsb_snapshot.
Qed.

Lemma pureFinal_snapshot e req rs :
  let ps := targets rs in
  pureFinal (pureState e req (snapshotRequirements rs)) =
  if existsb (denied e req) ps
  then mkDecision DecisionDeny ReasonExplicitDeny (sortedIDs (matching e req ps))
  else if existsb (blocked e req) ps
  then mkDecision DecisionDeny ReasonAWSRequiredWildcardNotApproved
         (sortedIDs (matching e req ps))
  else if existsb (unmatched e req) ps
  then mkDecision DecisionDeny ReasonPolicyNoMatchingAllow (sortedIDs (matching e req ps))
  else mkDecision DecisionAllow ReasonAllRequirementsAllowed (sortedIDs (matching e req ps)).
Proof.
  cbv zeta. rewrite pureFinal_spec. cbv zeta. by rewrite !existsb_snapshot, matching_snapshot.
Qed.

Lemma snapshot_resolved rs :
  unresolvedDecision (snapshotRequirements rs) = None <->
  forall r, r ∈ rs -> ScopeKind r <> ScopeUnresolved.
Proof.
  rewrite unresolvedDecision_None. setoid_rewrite elem_of_snapshot. split.
  - intros H r Hr. apply (H (sortResources r)). eauto.
  - intros H r (r0 & Hr & ->). by apply (H r0).
Qed.

Lemma decided_allow e req ps :
  existsb (denied e req) ps = false -> existsb (blocked e req) ps = false ->
  existsb (unmatched e req) ps = false ->
  forall p, p ∈ ps -> granted e req p = true /\ denied e req p = false.
Proof.
  rewrite !existsb_elem_false. intros Hd Hb Hu p Hp.
  specialize (Hb p Hp). specialize (Hu p Hp). unfold blocked, unmatched in *.
  split; [|auto]. destruct (granted e req p); [done|].
  destruct (existsb _ _); discriminate.
Qed.

Lemma existsb_false_of {A} (f : A -> bool) ps :
  (forall p, p ∈ ps -> f p = false) -> existsb f ps = false.
Proof. by rewrite existsb_elem_false. Qed.

Lemma pureFinal_allow e req rs :
  Result (pureFinal (pureState e req (snapshotRequirements rs))) = DecisionAllow <->
  forall p, p ∈ targets rs -> granted e req p = true /\ denied e req p = false.
Proof.
  rewrite pureFinal_snapshot. cbv zeta. split.
  - destruct (existsb (denied e req) _) eqn:Hd; [done|].
    destruct (existsb (blocked e req) _) eqn:Hb; [done|].
    destruct (existsb (unmatched e req) _) eqn:Hu; [done|]. intros _. by apply decided_allow.
  - intros H. rewrite !existsb_false_of; [done|..]; intros p Hp; destruct (H p Hp) as [Hg Hd];
      unfold unmatched, blocked; by rewrite ?Hg.
Qed.

(** What a quiet evaluation has checked of a request it allows. *)
Definition allowedBy (e : Engine) (req : DecodedAWSRequest) (mapping : MappingResult) : Prop :=
  forall r, r ∈ Requirements mapping ->
    ScopeKind r <> ScopeUnresolved /\
    forall resource, resource ∈ Resources r ->
      (exists rule, rule ∈ rules e /\ grants req r resource rule = true) /\
      (forall rule, rule ∈ rules e -> denies req r resource rule = false).

Lemma pureEvaluate_allow e input : Result (pureEvaluate e input) = DecisionAllow ->
  exists req mapping, admissible e input req mapping /\ allowedBy e req mapping.
Proof.
  intros Ha.
  assert (exists req mapping, admissible e input req mapping) as (req & mapping & Hadm).
  { unfold pureEvaluate in Ha. destruct (Input_Validate input) as [[req mapping]|] eqn:Hi; [|done].
    destruct (PolicyHash input =? hash e)%string eqn:Hh; [|done].
    destruct (Confidence mapping =? ConfidenceHigh)%string eqn:Hc; [|done].
    destruct (validateEvaluationInput _ _ _) eqn:Hv; [done|].
    exists req, mapping. split_and!; try done; by apply eqb_true_str. }
  exists req, mapping. split; [done|]. rewrite (pureEvaluate_admissible _ _ _ _ Hadm) in Ha.
  destruct (unresolvedDecision _) as [d|] eqn:Hu.
  { by destruct (unresolvedDecision_denies _ _ Hu) as [-> | ->]. }
  rewrite snapshot_resolved in Hu. rewrite pureFinal_allow in Ha.
  intros r Hr. split; [by apply Hu|]. intros resource Hs.
  destruct (Ha (r, resource)) as [Hg Hd]; [by apply elem_of_targets|].
  split; [by apply existsb_elem|]. by apply existsb_elem_false.
Qed.

(** C2. With a context that is never cancelled, [Evaluate] allows a request
    exactly when the input is admissible (validated, of this policy's hash,
    mapped with high confidence, within the bounds), every requirement's
    scope is resolved, and each resource of each requirement is granted by
    some rule (an AWS-required wildcard only by a rule that acknowledges it)
    and denied by none. *)
Theorem Evaluate_allow_iff (e : Engine) (ctx : context) (input : DecisionInput) :
  (forall n, ctx n = None) ->
  Result (Evaluate (Some e) (Some ctx) input) = DecisionAllow <->
  exists req mapping, admissible e input req mapping /\
    forall r, r ∈ Requirements mapping ->
      ScopeKind r <> ScopeUnresolved /\
      forall resource, resource ∈ Resources r ->
        (exists rule, rule ∈ rules e /\ grants req r resource rule = true) /\
        (forall rule, rule ∈ rules e -> denies req r resource rule = false).
Proof.
  intros Hq. rewrite Evaluate_quiet by done. split.
  - apply pureEvaluate_allow.
  - intros (req & mapping & Hadm & H). rewrite (pureEvaluate_admissible _ _ _ _ Hadm).
    destruct (unresolvedDecision _) as [d|] eqn:Hu.
    { exfalso. assert (resolved mapping) as Hres by (intros r Hr; by apply H).
      apply snapshot_resolved in Hres. congruence. }
    apply pureFinal_allow. intros [r resource] [Hr Hs]%elem_of_targets.
    destruct (H r Hr) as [_ Hall]. destruct (Hall resource Hs) as [Hg Hd].
    split; [by apply existsb_elem|]. by apply existsb_elem_false.
Qed.
(** On an admissible, fully resolved request the reason follows a fixed
    precedence: an explicit deny, then an unacknowledged AWS-required
    wildcard, then a resource no allow rule covers, and allow only when none
    applies; the reported rule IDs are exactly those of the rules that match
    some resource, sorted and without repetition. *)
Theorem Evaluate_reason (e : Engine) (ctx : context) (input : DecisionInput)
    (req : DecodedAWSRequest) (mapping : MappingResult) :
  (forall n, ctx n = None) -> admissible e input req mapping -> resolved mapping ->
  let ps := targets (Requirements mapping) in
  let d := Evaluate (Some e) (Some ctx) input in
  ReasonCode d =
    (if existsb (denied e req) ps then ReasonExplicitDeny
     else if existsb (blocked e req) ps then ReasonAWSRequiredWildcardNotApproved
     else if existsb (unmatched e req) ps then ReasonPolicyNoMatchingAllow
     else ReasonAllRequirementsAllowed) /\
  (forall x, x ∈ MatchedRuleIDs d <->
     exists rule p, rule ∈ rules e /\ p ∈ ps /\ applies req p.1 p.2 rule = true /\ id rule = x) /\
  StronglySorted (fun a b => str_leb a b = true) (MatchedRuleIDs d) /\
  NoDup (MatchedRuleIDs d).
Proof.
  intros Hq Hadm Hres. cbv zeta. rewrite Evaluate_quiet by done.
  rewrite (pureEvaluate_admissible _ _ _ _ Hadm).
  apply snapshot_resolved in Hres. rewrite Hres, pureFinal_snapshot. cbv zeta.
  set (ids := matching e req (targets (Requirements mapping))).
  assert (forall b1 b2 b3 : bool, MatchedRuleIDs (
    if b1 then mkDecision DecisionDeny ReasonExplicitDeny (sortedIDs ids)
    else if b2 then mkDecision DecisionDeny ReasonAWSRequiredWildcardNotApproved (sortedIDs ids)
    else if b3 then mkDecision DecisionDeny ReasonPolicyNoMatchingAllow (sortedIDs ids)
    else mkDecision DecisionAllow ReasonAllRequirementsAllowed (sortedIDs ids)) = sortedIDs ids)
    as -> by (by intros [] [] []).
  split; [by repeat case_match|]. split_and!.
  - intros x. unfold sortedIDs, ids. rewrite elem_of_sort_strings, elem_of_elements.
    unfold matching. rewrite elem_of_ids_of. setoid_rewrite list_elem_of_filter.
    setoid_rewrite existsb_elem. naive_solver.
  - apply sort_strings_sorted.
  - unfold sortedIDs. rewrite sort_strings_perm. apply NoDup_elements.
Qed.

(** C4. Evaluation fails closed under cancellation and misuse: whatever the
    context does, the decision is either the one of the uncancelled run or,
    only after a poll observed a cancellation, the internal denial; a nil
    engine or context denies; and every decision is well formed. *)
Theorem Evaluate_fails_closed (e : option Engine) (ctx : option context) (input : DecisionInput) :
  Decision_Valid (Evaluate e ctx input) = true /\
  match e, ctx with
  | Some _, Some c =>
    Evaluate e ctx input = Evaluate e (Some Background) input \/
    (Evaluate e ctx input = internalDecision /\ exists n, c n <> None)
  | _, _ => Evaluate e ctx input = internalDecision
  end.
Proof.
  assert (forall e, Decision_Valid (pureEvaluate e input) = true) as Hpure.
  { intros e'. unfold pureEvaluate. destruct (Input_Validate input) as [[req mapping]|]; [|done].
    destruct (negb (PolicyHash input =? hash e')%string); [done|].
    destruct (negb (Confidence mapping =? ConfidenceHigh)%string); [done|].
    destruct (validateEvaluationInput _ _ _); [done|]. cbv zeta.
    destruct (unresolvedDecision _) as [d|] eqn:Hu.
    { by destruct (unresolvedDecision_denies _ _ Hu) as [-> | ->]. }
    unfold pureFinal. by repeat case_if. }
  destruct e as [e|], ctx as [c|]; try (split; reflexivity).
  destruct (Evaluate_cases e c input) as [H|[H Hf]]; rewrite H; (split; [auto using Hpure|]).
  - left. by rewrite Evaluate_quiet.
  - by right.
Qed.

Definition withHash (h : string) (i : DecisionInput) : DecisionInput :=
  mkInput (RunID i) (Endpoint i) (Request i) (Mapping i) h (in_MapperVersion i).

Lemma Input_Validate_hash h h' i r :
  h <> "" -> Input_Validate (withHash h' i) = Ok r -> Input_Validate (withHash h i) = Ok r.
Proof.
  intros Hh. unfold Input_Validate. cbn [withHash RunID Endpoint Request Mapping PolicyHash in_MapperVersion].
  apply eqb_false_str in Hh. rewrite Hh, orb_false_r.
  destruct (RunID i =? "")%string; [done|]. destruct (h' =? "")%string; done.
Qed.

(** Adding deny rules to a policy never turns a denial into an allow
    (the input carries the hash of the policy it is evaluated against). *)
Theorem Evaluate_deny_monotone (e e' : Engine) (ctx : context) (input : DecisionInput) :
  (forall n, ctx n = None) -> hash e <> "" ->
  (forall rule, rule ∈ rules e -> rule ∈ rules e') ->
  (forall rule, rule ∈ rules e' -> rule ∈ rules e \/ effect rule = "deny") ->
  Result (Evaluate (Some e') (Some ctx) (withHash (hash e') input)) = DecisionAllow ->
  Result (Evaluate (Some e) (Some ctx) (withHash (hash e) input)) = DecisionAllow.
Proof.
  intros Hq Hh Hsub Hsup. rewrite !Evaluate_quiet by done. unfold pureEvaluate.
  destruct (Input_Validate (withHash (hash e') input)) as [[req mapping]|] eqn:Hi; [|done].
  rewrite (Input_Validate_hash _ _ _ _ Hh Hi). cbn [withHash PolicyHash Endpoint].
  rewrite !String.eqb_refl. cbn [negb].
  destruct (negb (Confidence mapping =? ConfidenceHigh)%string); [done|].
  destruct (validateEvaluationInput _ _ _); [done|]. cbv zeta.
  destruct (unresolvedDecision _); [done|]. rewrite !pureFinal_allow.
  intros H p Hp. destruct (H p Hp) as [Hg Hd]. unfold granted, denied in *. split.
  - apply existsb_elem in Hg as (rule & Hr & Hg). apply existsb_elem. exists rule.
    split; [|done]. destruct (Hsup rule Hr) as [|He]; [done|].
    unfold grants in Hg. rewrite He in Hg. cbn in Hg. by rewrite andb_false_r in Hg.
  - rewrite existsb_elem_false in *. auto.
Qed.
End Decides.

(** ** Compiling a policy *)

Section Compile.
Context (sha256 : string -> string).

(** What [compileRule] guarantees of the rule it returns. *)
Definition rule_wf (rule : compiledRule) : Prop :=
  (effect rule = "allow" \/ effect rule = "deny") /\
  (allowAWSRequiredWildcard rule = true -> effect rule = "allow") /\
  (0 < slen (id rule) <= 128) /\
  (0 < len (actions rule) <= maxRuleValues) /\
  (0 < len (resources rule) <= maxRuleValues) /\
  (forall g, g ∈ actions rule ++ resources rule -> 0 < slen (pattern g) <= MaxGlobLength) /\
  (forall region, region ∈ regions rule -> validRegion region = true) /\
  (forall account, account ∈ accounts rule -> validAccount account = true) /\
  (forall partition, partition ∈ partitions rule -> validPartition partition = true).

Lemma compileActions_spec values seen globs :
  compileActions values seen = Ok globs ->
  List.length globs = List.length values /\
  forall g, g ∈ globs -> exists v, v ∈ values /\ CompileActionGlob v = Ok g.
Proof.
  revert seen globs. induction values as [|v values IH]; intros seen globs; cbn [compileActions].
  - intros [= <-]. split; [done|]. intros g Hg. by apply not_elem_of_nil in Hg.
  - case_match; [done|]. destruct (CompileActionGlob v) as [g|] eqn:Hg; [|done].
    intros (globs' & H' & [= <-])%result_bind_ok. apply IH in H' as [Hl Hin].
    split; [cbn; lia|]. intros g' [->|Hg']%elem_of_cons; [exists v; by split; [left|]|].
    destruct (Hin _ Hg') as (v' & ? & ?). exists v'. split; [by right|done].
Qed.

Lemma compileResources_spec values seen globs :
  compileResources values seen = Ok globs ->
  List.length globs = List.length values /\
  forall g, g ∈ globs -> exists v, v ∈ values /\ CompileGlob v = Ok g.
Proof.
  revert seen globs. induction values as [|v values IH]; intros seen globs; cbn [compileResources].
  - intros [= <-]. split; [done|]. intros g Hg. by apply not_elem_of_nil in Hg.
  - case_match; [done|]. destruct (CompileGlob v) as [g|] eqn:Hg; [|done].
    intros (globs' & H' & [= <-])%result_bind_ok. apply IH in H' as [Hl Hin].
    split; [cbn; lia|]. intros g' [->|Hg']%elem_of_cons; [exists v; by split; [left|]|].
    destruct (Hin _ Hg') as (v' & ? & ?). exists v'. split; [by right|done].
Qed.

Lemma constraintLoop_spec values destination label valid out :
  constraintLoop values destination label valid = Ok out ->
  out = list_to_set values ∪ destination /\ forall v, v ∈ values -> valid v = true.
Proof.
  revert destination. induction values as [|v values IH]; intros destination; cbn [constraintLoop].
  - intros [= <-]. split; [set_solver|]. intros v Hv. by apply not_elem_of_nil in Hv.
  - destruct ((v =? "")%string || negb (valid v)) eqn:Hb; [done|].
    bool_hyps. case_bool_decide; [done|]. intros [-> Hv]%IH. split; [cbn; set_solver|].
    intros w [->|Hw]%elem_of_cons; auto.
Qed.

Lemma compileConstraintSet_spec values label valid out :
  compileConstraintSet values label valid = Ok out ->
  out = list_to_set values /\ forall v, v ∈ values -> valid v = true.
Proof.
  unfold compileConstraintSet. case_if; [done|]. intros [-> Hv]%constraintLoop_spec.
  split; [set_solver|done].
Qed.

Lemma compileRule_inv source rule :
  compileRule source = Ok rule ->
  id rule = ID source /\ effect rule = Effect source /\
  allowAWSRequiredWildcard rule = Wildcard source /\
  compileActions (Actions source) [] = Ok (actions rule) /\
  compileResources (rs_Resources source) [] = Ok (resources rule) /\
  compileConstraintSet (Regions source) "region" validRegion = Ok (regions rule) /\
  compileConstraintSet (Accounts source) "account" validAccount = Ok (accounts rule) /\
  compileConstraintSet (Partitions source) "partition" validPartition = Ok (partitions rule) /\
  ((slen (ID source) =? 0) || (128 <? slen (ID source)) || negb (validIdentifier (ID source) true))
    = false /\
  negb (Effect source =? "allow")%string && negb (Effect source =? "deny")%string = false /\
  (Effect source =? "deny")%string && Wildcard source = false /\
  ((len (Actions source) =? 0) || (maxRuleValues <? len (Actions source)) ||
   (len (rs_Resources source) =? 0) || (maxRuleValues <? len (rs_Resources source))) = false.
Proof.
  unfold compileRule. do 4 (case_match; [done|]).
  intros (a & ? & (r & ? & (g & ? & (c & ? & (p & ? & [= <-])%result_bind_ok)%result_bind_ok)
    %result_bind_ok)%result_bind_ok)%result_bind_ok. done.
Qed.

Lemma compileRule_wf source rule : compileRule source = Ok rule -> rule_wf rule.
Proof.
  intros (Hid & He & Hw & Ha & Hr & Hg & Hc & Hp & B1 & B2 & B3 & B4)%compileRule_inv.
  apply compileActions_spec in Ha as [La Ha]. apply compileResources_spec in Hr as [Lr Hr].
  apply compileConstraintSet_spec in Hg as [Eg Hg], Hc as [Ec Hc], Hp as [Ep Hp].
  unfold rule_wf. rewrite Hid, He, Hw, Eg, Ec, Ep. unfold len in *. rewrite La, Lr.
  setoid_rewrite elem_of_list_to_set. bool_hyps. pose proof (slen_nonneg (ID source)).
  split_and!; try lia; try done.
  - apply andb_false_iff in B2 as [H'|H']; apply negb_false_iff, eqb_true_str in H'; auto.
  - intros HW. rewrite HW, andb_true_r in B3.
    apply andb_false_iff in B2 as [H'|H']; apply negb_false_iff, eqb_true_str in H'; [done|].
    by rewrite H' in B3.
  - intros g [Hin|Hin]%elem_of_app.
    + destruct (Ha g Hin) as (v & _ & Hv). eapply compiled_length, Hv.
    + destruct (Hr g Hin) as (v & _ & Hv). eapply compiled_length, Hv.
Qed.

(** The rule loop, without its index and its set of seen IDs. *)
Lemma compileRules_spec index sources seen rs :
  compileRules index sources seen = Ok rs <->
  Forall2 (fun source rule => compileRule source = Ok rule) sources rs /\
  NoDup (id <$> rs) /\ (forall x, x ∈ id <$> rs -> x ∉ seen).
Proof.
  revert index seen rs. induction sources as [|source sources IH]; intros index seen rs;
    cbn [compileRules].
  - split.
    + intros [= <-]. split_and!; [constructor..|]. intros x Hx. by apply not_elem_of_nil in Hx.
    + intros (H & _). by inversion H.
  - destruct (compileRule source) as [rule|err] eqn:Hr.
    2: { split; [done|]. intros (H & _). inversion H. congruence. }
    destruct (mem_str (id rule) seen) eqn:Hm.
    { split; [done|]. intros (H & _ & Hn). inversion H as [|? rule' ? ? Hr' ?]; subst.
      rewrite Hr in Hr'. injection Hr' as <-. apply mem_str_In in Hm.
      destruct (Hn (id rule)); [by left|done]. }
    rewrite result_bind_ok. setoid_rewrite IH. split.
    + intros (rs' & (HF & Hnd & Hns) & [= <-]). split_and!; [by constructor|..].
      * rewrite fmap_cons. apply NoDup_cons. split; [|done]. intros Hx.
        destruct (Hns _ Hx). by left.
      * intros x. rewrite fmap_cons. intros [->|Hx]%elem_of_cons.
        -- intros Hs. apply mem_str_In in Hs. congruence.
        -- intros Hs. destruct (Hns _ Hx). by right.
    + intros (H & Hnd & Hns). inversion H as [|? rule' ? rs' Hr' HF]; subst.
      rewrite Hr in Hr'. injection Hr' as <-. rewrite fmap_cons in Hnd, Hns.
      apply NoDup_cons in Hnd as [Hx Hnd]. exists rs'. split_and!; try done.
      intros x Hx'. apply not_elem_of_cons. split; [by intros ->|].
      apply Hns. by right.
Qed.
Lemma compileRules_ids sources rs :
  Forall2 (fun source rule => compileRule source = Ok rule) sources rs ->
  id <$> rs = ID <$> sources.
Proof.
  induction 1 as [|source rule sources rs H _ IH]; [done|]. rewrite !fmap_cons, IH.
  by apply compileRule_inv in H as (-> & _).
Qed.

Lemma idLeb_total a b : idLeb a b = true \/ idLeb b a = true.
Proof. apply str_leb_total. Qed.
Lemma idLeb_trans a b c : idLeb a b = true -> idLeb b c = true -> idLeb a c = true.
Proof. apply str_leb_trans. Qed.

(** Sorting by a key that no two members share is independent of the order. *)
Lemma sort_by_key_unique {A} (key : A -> string) (l1 l2 : list A) :
  NoDup (key <$> l1) -> Permutation l1 l2 ->
  sort_by (fun a b => str_leb (key a) (key b)) l1 = sort_by (fun a b => str_leb (key a) (key b)) l2.
Proof.
  set (leb := fun a b => str_leb (key a) (key b)). intros Hn Hp.
  assert (forall x y, leb x y = true \/ leb y x = true) by (intros; apply str_leb_total).
  assert (forall x y z, leb x y = true -> leb y z = true -> leb x z = true)
    by (intros x y z; apply str_leb_trans).
  apply (StronglySorted_unique_strong (fun a b => leb a b = true)).
  - intros x y Hx Hy Hxy Hyx. rewrite sort_by_perm in Hx. rewrite sort_by_perm, <-Hp in Hy.
    apply (NoDup_fmap_inj key l1); try done. by apply str_leb_antisym.
  - by apply sort_by_sorted.
  - by apply sort_by_sorted.
  - by rewrite !sort_by_perm.
Qed.

(** A compiled engine denies by default and holds exactly the policy's
    rules, each compiled and well formed, in order of their distinct IDs. *)
Theorem NewEngine_sound (input : gval) (e : Engine) :
  NewEngine sha256 input = Ok e ->
  exists policy rs,
    copyPolicy input = Ok policy /\ defaultValue policy = "deny" /\ defaultDeny e = true /\
    hash e = snapshotPolicyHash sha256 policy /\
    Forall2 (fun source rule => compileRule source = Ok rule) (ps_rules policy) rs /\
    Permutation (rules e) rs /\ len (rules e) <= maxPolicyRules /\
    StronglySorted (fun a b => idLeb a b = true) (rules e) /\ NoDup (id <$> rules e) /\
    (forall rule, rule ∈ rules e -> rule_wf rule).
Proof.
  unfold NewEngine. intros (policy & Hp & H)%result_bind_ok. exists policy.
  destruct (defaultValue policy =? "deny")%string eqn:Hd; [|done]. cbn [negb] in H.
  destruct (maxPolicyRules <? len (ps_rules policy)) eqn:Hl; [done|].
  apply result_bind_ok in H as (rs & Hrs & [= <-]). exists rs. cbn [defaultDeny rules hash].
  apply compileRules_spec in Hrs as (HF & Hn & _).
  pose proof (sort_by_perm idLeb rs) as Hperm.
  apply eqb_true_str in Hd. split_and!; try done.
  - unfold len in *. rewrite Hperm, <-(Forall2_length _ _ _ HF). lia.
  - apply sort_by_sorted; [apply idLeb_total|apply idLeb_trans].
  - by rewrite Hperm.
  - intros rule. rewrite Hperm. intros [k Hk]%list_elem_of_lookup.
    destruct (Forall2_lookup_r _ _ _ _ _ HF Hk) as (source & _ & Hs).
    by apply (compileRule_wf source).
Qed.

(** The order in which a policy lists its rules is immaterial: a
    reordered policy compiles to the very same engine, hash included. *)
Theorem NewEngine_order_independent (input1 input2 : gval) (p1 p2 : policySnapshot) (e : Engine) :
  copyPolicy input1 = Ok p1 -> copyPolicy input2 = Ok p2 ->
  defaultValue p1 = defaultValue p2 -> Permutation (ps_rules p1) (ps_rules p2) ->
  NewEngine sha256 input1 = Ok e -> NewEngine sha256 input2 = Ok e.
Proof.
  intros H1 H2 Hd Hp. unfold NewEngine. rewrite H1, H2. cbn [mbind result_bind]. rewrite <-Hd.
  assert (len (ps_rules p2) = len (ps_rules p1)) as -> by (unfold len; by rewrite Hp).
  destruct (negb _); [done|]. destruct (maxPolicyRules <? _); [done|].
  intros (rs & (HF & Hn & _)%compileRules_spec & [= <-])%result_bind_ok.
  destruct (Permutation_Forall2 Hp HF) as (rs' & Hrs & HF').
  apply result_bind_ok. exists rs'. split.
  - apply compileRules_spec. split_and!; [done|by rewrite <-Hrs|].
    intros x _ Hx. by apply not_elem_of_nil in Hx.
  - f_equal. f_equal; [by apply (sort_by_key_unique id); [rewrite <-Hrs|]|].
    unfold snapshotPolicyHash, canonicalPolicy. rewrite <-Hd.
    rewrite (sort_by_key_unique ID (ps_rules p1) (ps_rules p2)); [done| |done].
    by rewrite <-(compileRules_ids _ _ HF).
Qed.
End Compile.

(** ** ARNs *)

Section Arn.
(** The ARN's fields, as [parseARN] requires them. *)
Definition arn_wf (a : arnContext) : Prop :=
  validPartition (arn_partition a) = true /\
  arn_service a <> "" /\ bytes_all arnServiceRune (arn_service a) = true /\
  (arn_region a = "" \/ validRegion (arn_region a) = true) /\
  (arn_account a = "" \/ validAccount (arn_account a) = true) /\
  arn_resource a <> "".

Definition renderARN (a : arnContext) : string :=
  ("arn:" ++ arn_partition a ++ ":" ++ arn_service a ++ ":" ++ arn_region a ++ ":" ++
   arn_account a ++ ":" ++ arn_resource a)%string.

Lemma validPartition_colon s : validPartition s = true -> count_byte s (ord ":") = 0.
Proof.
  unfold validPartition. rewrite mem_str_In, !elem_of_cons.
  intros [->|[->|[->|[->|[->|[->|H]]]]]]; [reflexivity..|]. by apply not_elem_of_nil in H.
Qed.

Lemma validRegion_colon s : validRegion s = true -> count_byte s (ord ":") = 0.
Proof.
  unfold validRegion. destruct (byte_at s 0), (byte_at s (slen s - 1)); try done.
  case_match; [done|]. case_match; [done|].
  destruct (forallb _ _) eqn:E; [|done]. intros _. rewrite runes_all_ascii in E.
  - by apply (bytes_all_count _ _ _ E).
  - intros r Hr. unfold is_lower, is_digit, between. zbool.
Qed.

Lemma is_digit_wide r : 128 <= r -> is_digit r = false.
Proof. intros H. unfold is_digit, between. zbool. Qed.

Lemma validAccount_colon s : validAccount s = true -> count_byte s (ord ":") = 0.
Proof.
  unfold validAccount. case_match; [done|]. rewrite runes_all_ascii by apply is_digit_wide.
  intros E. by apply (bytes_all_count _ _ _ E).
Qed.

Lemma arnService_bytes s : forallb arnServiceRune (runes s) = bytes_all arnServiceRune s.
Proof.
  apply runes_all_ascii. intros r Hr. unfold arnServiceRune, is_lower, is_upper, is_digit, between.
  zbool.
Qed.

(** [parseARN] accepts exactly the renderings of well-formed ARN
    contexts, and returns the context rendered. *)
Theorem parseARN_roundtrip (value : string) (a : arnContext) :
  parseARN value = Ok a <-> value = renderARN a /\ arn_wf a.
Proof.
  split.
  - unfold parseARN. destruct (SplitN value ":" 6) as [|p0 [|p1 [|p2 [|p3 [|p4 [|p5 [|]]]]]]] eqn:E;
      try done.
    unfold SplitN in E. cbn [Nat.sub] in E.
    apply splitn_byte_cons in E as (r0 & -> & _ & E). apply splitn_byte_cons in E as (r1 & -> & _ & E).
    apply splitn_byte_cons in E as (r2 & -> & _ & E). apply splitn_byte_cons in E as (r3 & -> & _ & E).
    apply splitn_byte_cons in E as (r4 & -> & _ & [= ->]).
    do 4 (case_match; [done|]). intros [= <-]. bool_hyps.
    rewrite arnService_bytes in *. autorewrite with kordn in *. subst p0.
    split; [done|]. unfold arn_wf. cbn. repeat split; try done.
  - intros [-> (Hp & Hs & Hsb & Hr & Ha & Hres)]. unfold parseARN.
    assert (SplitN (renderARN a) ":" 6 = ["arn"; arn_partition a; arn_service a; arn_region a;
      arn_account a; arn_resource a]) as ->.
    { unfold SplitN, renderARN. cbn [Nat.sub].
      apply splitn_byte_cons. eexists. split; [reflexivity|]. split; [reflexivity|].
      apply splitn_byte_cons. eexists. split; [reflexivity|]. split; [by apply validPartition_colon|].
      apply splitn_byte_cons. eexists. split; [reflexivity|].
      split; [by apply (bytes_all_count _ _ _ Hsb)|].
      apply splitn_byte_cons. eexists. split; [reflexivity|].
      split; [destruct Hr as [->|Hr]; [done|by apply validRegion_colon]|].
      apply splitn_byte_cons. eexists. split; [reflexivity|].
      split; [destruct Ha as [->|Ha]; [done|by apply validAccount_colon]|]. done. }
    rewrite arnService_bytes, Hp, Hsb. apply eqb_false_str in Hs, Hres. rewrite Hs, Hres.
    destruct a as [p s r c x]. cbn in *.
    destruct Hr as [->|Hr]; [|rewrite Hr, andb_false_r]; cbn;
      (destruct Ha as [->|Ha]; [|rewrite Ha, andb_false_r]); done.
Qed.
End Arn.

(** ** The order in which a mapping lists its requirements *)

Section Order.
Context `{U : UnicodeTables}.

Definition withRequirements (m : MappingResult) (rs : list IAMRequirement) : MappingResult :=
  mkMapping (map_Service m) (map_Operation m) rs (MapperVersion m) (IamLiveVersion m)
    (AuthorizationDataVersion m) (Confidence m) (Evidence m).
Definition withMapping (i : DecisionInput) (m : MappingResult) : DecisionInput :=
  mkInput (RunID i) (Endpoint i) (Request i) (Some m) (PolicyHash i) (in_MapperVersion i).

Lemma checkRequirements_None i rs :
  checkRequirements i rs = None <-> forall r, r ∈ rs -> Requirement_Validate r = None.
Proof.
  revert i. induction rs as [|r rs IH]; intros i; cbn [checkRequirements].
  - split; [|done]. intros _ r Hr. by apply not_elem_of_nil in Hr.
  - setoid_rewrite elem_of_cons. destruct (Requirement_Validate r) eqn:E.
    + split; [done|]. intros H. rewrite H in E; naive_solver.
    + rewrite IH. naive_solver.
Qed.

(** The per-requirement part of the evaluation bounds. *)
Definition evalRequirementOk (service : string) (r : IAMRequirement) : Prop :=
  checkEvalRequirements service (- len (Resources r)) [r] = None.

Lemma len_nonneg {A} (l : list A) : 0 <= len l.
Proof. unfold len. lia. Qed.

Definition combos (rs : list IAMRequirement) : Z := foldr (fun r n => len (Resources r) + n) 0 rs.

Lemma combos_cons r rs : combos (r :: rs) = len (Resources r) + combos rs.
Proof. done. Qed.

Lemma combos_nonneg rs : 0 <= combos rs.
Proof.
  induction rs as [|r rs IH]; [done|]. rewrite combos_cons.
  pose proof (len_nonneg (Resources r)). lia.
Qed.

Lemma combos_perm rs rs' : Permutation rs rs' -> combos rs = combos rs'.
Proof. induction 1; rewrite ?combos_cons; lia. Qed.

Lemma checkEvalRequirements_None service n rs :
  0 <= n <= maxEvaluationCombos ->
  checkEvalRequirements service n rs = None <->
  (forall r, r ∈ rs -> evalRequirementOk service r) /\ n + combos rs <= maxEvaluationCombos.
Proof.
  revert n. induction rs as [|r rs IH]; intros n Hn.
  - cbn. split; [|done]. intros _. split; [|lia]. intros r Hr. by apply not_elem_of_nil in Hr.
  - setoid_rewrite elem_of_cons. unfold evalRequirementOk.
    pose proof (len_nonneg (Resources r)) as Hl. pose proof (combos_nonneg rs) as Hc.
    rewrite combos_cons.
    assert (checkEvalRequirements service n (r :: rs) = None <->
      checkEvalRequirements service (- len (Resources r)) [r] = None /\
      n + len (Resources r) <= maxEvaluationCombos /\
      checkEvalRequirements service (n + len (Resources r)) rs = None) as ->.
    { cbn [checkEvalRequirements].
      assert (maxEvaluationCombos <? - len (Resources r) + len (Resources r) = false) as ->
        by (unfold maxEvaluationCombos; lia).
      destruct (_ || _ || ContainsAny _ _); [naive_solver|].
      destruct (CompileActionGlob (Action r)); [|naive_solver].
      destruct (maxRequirementValues <? len (Resources r)); [naive_solver|].
      destruct (Z.ltb_spec maxEvaluationCombos (n + len (Resources r))).
      { split; [done|]. intros (_ & ? & _). lia. }
      destruct (negb _ || _); [naive_solver|].
      destruct (checkEvalResources (Resources r)); [naive_solver|].
      destruct (maxConditionHintItems <? len (ConditionHint r)); [naive_solver|].
      destruct (checkHints (ConditionHint r)); [naive_solver|].
      split; [intros; split_and!; [done|lia|done]|]. by intros (_ & _ & ?). }
    split.
    + intros (Hr & Hb & Hrs). apply IH in Hrs as [Hrs Hs]; [|lia]. split; [|lia].
      intros r' [->|Hr']; [done|]. by apply Hrs.
    + intros [Hr Hs]. split; [apply Hr; by left|]. split; [lia|]. apply IH; [lia|].
      split; [|lia]. intros r' Hr'. apply Hr. by right.
Qed.

Section Permuted.
Context (m : MappingResult) (rs : list IAMRequirement) (Hp : Permutation (Requirements m) rs).

Lemma Mapping_Validate_permuted :
  Mapping_Validate m = None <-> Mapping_Validate (withRequirements m rs) = None.
Proof.
  unfold Mapping_Validate, withRequirements. cbn [map_Service map_Operation Requirements
    MapperVersion Confidence Evidence]. rewrite <-(Permutation_length Hp).
  rewrite !reject_None, !reject_match_None, !checkRequirements_None. by setoid_rewrite Hp.
Qed.

Lemma validateEvaluationInput_permuted endpoint req :
  validateEvaluationInput endpoint req m = None <->
  validateEvaluationInput endpoint req (withRequirements m rs) = None.
Proof.
  unfold validateEvaluationInput, withRequirements. cbn [map_Service map_Operation Requirements
    MapperVersion]. unfold len at 1 2. rewrite (Permutation_length Hp). fold (len rs).
  rewrite !reject_None, !reject_match_None.
  rewrite !checkEvalRequirements_None by (unfold maxEvaluationCombos; lia).
  rewrite (combos_perm _ _ Hp). setoid_rewrite Hp. done.
Qed.

Lemma Input_Validate_permuted input :
  Mapping input = Some m ->
  forall req, Input_Validate input = Ok (req, m) <->
    Input_Validate (withMapping input (withRequirements m rs)) = Ok (req, withRequirements m rs).
Proof.
  intros Hm req. unfold Input_Validate. cbn [withMapping RunID Endpoint Request Mapping PolicyHash
    in_MapperVersion]. rewrite Hm. destruct (_ || _ || _); [done|].
  destruct (Endpoint_Validate _); [done|]. destruct (Request input) as [req'|]; [|done].
  destruct (Decoded_Validate req'); [done|].
  pose proof Mapping_Validate_permuted as HV.
  destruct (Mapping_Validate m), (Mapping_Validate (withRequirements m rs));
    [split; done|naive_solver|naive_solver|].
  change (map_Service (withRequirements m rs)) with (map_Service m).
  change (map_Operation (withRequirements m rs)) with (map_Operation m).
  change (MapperVersion (withRequirements m rs)) with (MapperVersion m).
  destruct (_ || _ || _); [done|]. destruct (_ || _); [done|]. destruct (negb _); [done|].
  naive_solver.
Qed.
End Permuted.
(** A requirement that passed validation has no NUL in its action, so its
    sort key determines its scope and whether it is dependent. *)
Definition keyed (r : IAMRequirement) : Prop :=
  count_byte (asciiLower (Action r)) 0 = 0 /\ scopeValid (ScopeKind r) = true.

Lemma requirementKey_inj r1 r2 :
  keyed r1 -> keyed r2 -> requirementKey r1 = requirementKey r2 ->
  ScopeKind r1 = ScopeKind r2 /\ Dependent r1 = Dependent r2.
Proof.
  intros [Ha1 Hs1] [Ha2 Hs2] E. unfold requirementKey in E.
  apply app_sep_inj in E as [_ E]; [|exact Ha1|exact Ha2].
  apply scopeValid_cases in Hs1, Hs2.
  apply app_sep_inj in E as [Es E];
    [|destruct Hs1 as [->|[->|[->| ->]]]; reflexivity|destruct Hs2 as [->|[->|[->| ->]]]; reflexivity].
  apply app_sep_inj in E as [Eb _]; [|by destruct (Dependent r1)|by destruct (Dependent r2)].
  split; [done|]. by destruct (Dependent r1), (Dependent r2).
Qed.

Lemma unresolvedDecision_keys rs1 rs2 :
  Forall keyed rs1 -> Forall keyed rs2 -> requirementKey <$> rs1 = requirementKey <$> rs2 ->
  unresolvedDecision rs1 = unresolvedDecision rs2.
Proof.
  intros H1. revert rs2. induction H1 as [|r1 rs1 Hr1 _ IH]; intros [|r2 rs2] H2 E; try done.
  rewrite !fmap_cons in E. injection E as E Es. inversion H2; subst.
  destruct (requirementKey_inj r1 r2) as [E1 E2]; [done..|]. cbn [unresolvedDecision].
  by rewrite E1, E2, (IH rs2).
Qed.

Lemma snapshot_keys rs1 rs2 :
  Permutation rs1 rs2 ->
  requirementKey <$> snapshotRequirements rs1 = requirementKey <$> snapshotRequirements rs2.
Proof.
  intros Hp. apply (StronglySorted_unique_strong (fun a b => str_leb a b = true)).
  - intros x y _ _. apply str_leb_antisym.
  - apply (StronglySorted_fmap _ (fun a b => keyLeb a b = true)); [done|].
    apply sort_by_sorted; [intros; apply str_leb_total|intros x y z; apply str_leb_trans].
  - apply (StronglySorted_fmap _ (fun a b => keyLeb a b = true)); [done|].
    apply sort_by_sorted; [intros; apply str_leb_total|intros x y z; apply str_leb_trans].
  - apply fmap_Permutation. unfold snapshotRequirements. rewrite !sort_by_perm. by rewrite Hp.
Qed.

Lemma action_nul v g : CompileActionGlob v = Ok g -> count_byte (asciiLower v) 0 = 0.
Proof.
  intros H. apply compileGlob_inv in H as (_ & Hv & _).
  apply action_pattern_form in Hv as [Hv _]. rewrite <-actionRunes_lower in Hv.
  rewrite runes_all_ascii in Hv by apply actionRune_ascii.
  by apply (bytes_all_count _ _ _ Hv).
Qed.

Lemma keyed_snapshot service rs :
  (forall r, r ∈ rs -> Requirement_Validate r = None /\ evalRequirementOk service r) ->
  Forall keyed (snapshotRequirements rs).
Proof.
  intros H. apply Forall_forall. intros r (r0 & Hr & ->)%elem_of_snapshot.
  destruct (H r0 Hr) as [Hv He]. split; cbn [sortResources Action ScopeKind].
  - unfold evalRequirementOk in He. cbn [checkEvalRequirements] in He.
    destruct (_ || _ || ContainsAny _ _); [done|].
    destruct (CompileActionGlob (Action r0)) as [g|] eqn:Hg; [|done]. by apply action_nul in Hg.
  - unfold Requirement_Validate in Hv. cbv zeta in Hv. do 3 (case_match; [done|]).
    by destruct (scopeValid (ScopeKind r0)).
Qed.

Lemma targets_perm rs rs' : Permutation rs rs' -> Permutation (targets rs) (targets rs').
Proof. intros Hp. unfold targets. by rewrite Hp. Qed.

Lemma existsb_perm {A} (f : A -> bool) l l' : Permutation l l' -> existsb f l = existsb f l'.
Proof. intros Hp. apply existsb_matching; intros x Hx; exists x; by rewrite Hp in *. Qed.

Lemma matching_perm e req ps ps' : Permutation ps ps' -> matching e req ps = matching e req ps'.
Proof.
  intros Hp. unfold matching. f_equal. apply filter_ext_in. intros rule _.
  by rewrite (existsb_perm _ _ _ Hp).
Qed.

Lemma Input_Validate_mapping i req m :
  Input_Validate i = Ok (req, m) -> Mapping i = Some m /\ Mapping_Validate m = None.
Proof.
  unfold Input_Validate. destruct (_ || _ || _); [done|]. destruct (Endpoint_Validate _); [done|].
  destruct (Request i), (Mapping i) as [m'|]; try done. destruct (Decoded_Validate _); [done|].
  destruct (Mapping_Validate m') eqn:E; [done|]. do 3 (case_match; [done|]). by intros [= <- <-].
Qed.

Lemma accepted_requirements endpoint req m :
  Mapping_Validate m = None -> validateEvaluationInput endpoint req m = None ->
  forall r, r ∈ Requirements m -> Requirement_Validate r = None /\ evalRequirementOk (map_Service m) r.
Proof.
  unfold Mapping_Validate, validateEvaluationInput. rewrite !reject_None, !reject_match_None.
  rewrite checkRequirements_None, checkEvalRequirements_None by (unfold maxEvaluationCombos; lia).
  intros (_ & _ & _ & _ & Hr & _) (_ & _ & [He _] & _). auto.
Qed.

(** The snapshot's decision, up to the order of the requirements. *)
Lemma pureDecision_perm e req rs1 rs2 :
  Forall keyed (snapshotRequirements rs2) -> Permutation rs1 rs2 ->
  match unresolvedDecision (snapshotRequirements rs1) with
  | Some d => d
  | None => pureFinal (pureState e req (snapshotRequirements rs1))
  end =
  match unresolvedDecision (snapshotRequirements rs2) with
  | Some d => d
  | None => pureFinal (pureState e req (snapshotRequirements rs2))
  end.
Proof.
  intros Hk Hp. assert (Forall keyed (snapshotRequirements rs1)) as Hk1.
  { unfold snapshotRequirements in *. rewrite !sort_by_perm in *. by rewrite Hp. }
  rewrite (unresolvedDecision_keys _ (snapshotRequirements rs2)) by auto using snapshot_keys.
  destruct (unresolvedDecision _); [done|]. rewrite !pureFinal_snapshot. cbv zeta.
  apply targets_perm in Hp. by rewrite !(existsb_perm _ _ _ Hp), (matching_perm _ _ _ _ Hp).
Qed.

(** The decision does not depend on the order in which the mapper lists
    a request's requirements, although one of them (the first unresolved in
    the snapshot's order) names the reason. *)
Theorem Evaluate_order_independent (e : Engine) (ctx : context) (input : DecisionInput)
    (m : MappingResult) (rs : list IAMRequirement) :
  (forall n, ctx n = None) -> Mapping input = Some m -> Permutation (Requirements m) rs ->
  Evaluate (Some e) (Some ctx) (withMapping input (withRequirements m rs)) =
  Evaluate (Some e) (Some ctx) input.
Proof.
  intros Hq Hm Hp. rewrite !Evaluate_quiet by done. unfold pureEvaluate.
  pose proof (Input_Validate_permuted m rs Hp input Hm) as Hi.
  cbn [withMapping PolicyHash Endpoint].
  destruct (Input_Validate input) as [[req m']|err] eqn:Ei.
  - pose proof (Input_Validate_mapping _ _ _ Ei) as (Hm' & Hv). rewrite Hm in Hm'.
    injection Hm' as <-. destruct (Hi req) as [Hi' _]. rewrite (Hi' eq_refl).
    cbn [withRequirements Confidence Requirements].
    destruct (negb (PolicyHash input =? hash e)%string); [done|].
    destruct (negb (Confidence m =? ConfidenceHigh)%string); [done|].
    pose proof (validateEvaluationInput_permuted m rs Hp (Endpoint input) req) as He.
    destruct (validateEvaluationInput (Endpoint input) req m) eqn:E1,
      (validateEvaluationInput (Endpoint input) req (withRequirements m rs)) eqn:E2;
      [done|naive_solver|naive_solver|].
    apply pureDecision_perm; [|by symmetry]. apply (keyed_snapshot (map_Service m)).
    by apply (accepted_requirements (Endpoint input) req).
  - destruct (Input_Validate (withMapping _ _)) as [[req m']|] eqn:E2; [|done].
    pose proof (Input_Validate_mapping _ _ _ E2) as ([= <-] & _).
    by destruct (Hi req) as [_ Hi2]; specialize (Hi2 eq_refl).
Qed.
End Order.

(** ** Concrete inputs *)

Section Samples.
#[local] Instance sample_tables : UnicodeTables := ascii_tables.

Definition sampleRule (id effect : string) (actions resources : list string) : gval :=
  GPtr (Some (GStruct
    [("ID", GStr id); ("Effect", GStr effect);
     ("Actions", GSlice (GStr <$> actions)); ("Resources", GSlice (GStr <$> resources));
     ("Regions", GSlice []); ("Accounts", GSlice []); ("Partitions", GSlice []);
     ("AllowAWSRequiredWildcard", GBool false)])).
Definition samplePolicy (rules : list gval) : gval :=
  GPtr (Some (GStruct [("Default", GStr "deny"); ("Rules", GSlice rules)])).
Definition allowRead : gval :=
  sampleRule "allow-read" "allow" ["s3:Get*"] ["arn:aws:s3:::bucket/*"].
Definition denySecret : gval :=
  sampleRule "deny-secret" "deny" ["s3:*"] ["arn:aws:s3:::bucket/secret/*"].
Definition sampleDigest (s : string) : string := "d".
Definition compiled (g : gval) : Engine :=
  match NewEngine sampleDigest g with Ok e => e | Err _ => mkEngine true [] "none" end.

Definition readEngine : Engine := compiled (samplePolicy [allowRead]).
Definition bothEngine : Engine := compiled (samplePolicy [denySecret; allowRead]).

Definition sampleRequest : DecodedAWSRequest :=
  mkDecoded "aws" "s3.us-east-1.amazonaws.com" "s3" "s3" "us-east-1" "us-east-1" ScopeRegional
    false false "" "123456789012" "rest-xml" "GetObject" "GET" "/bucket/key" ∅ None []
    PayloadHashEmpty 0.
Definition readKey (resource : string) : IAMRequirement :=
  mkRequirement "s3:GetObject" [resource] ScopeExact false [].
Definition sampleMapping : MappingResult :=
  mkMapping "s3" "GetObject"
    [readKey "arn:aws:s3:::bucket/key"; readKey "arn:aws:s3:::bucket/other"]
    "m1" "" "" ConfidenceHigh [].
Definition sampleInput (e : Engine) : DecisionInput :=
  mkInput "run" (requestEndpoint sampleRequest) (Some sampleRequest) (Some sampleMapping) (hash e) "m1".

Example bothEngine_rules : id <$> rules bothEngine = ["allow-read"; "deny-secret"].
Proof. vm_compute. reflexivity. Qed.

Lemma sample_admissible : admissible readEngine (sampleInput readEngine) sampleRequest sampleMapping.
Proof. split_and!; vm_compute; reflexivity. Qed.

Lemma Evaluate_allow_iff_witness :
  exists req mapping, admissible readEngine (sampleInput readEngine) req mapping.
Proof.
  destruct (proj1 (Evaluate_allow_iff readEngine Background (sampleInput readEngine)
    (fun _ => eq_refl))) as (req & mapping & H & _).
  - vm_compute. reflexivity.
  - exists req, mapping. exact H.
Defined.

Lemma Evaluate_reason_witness :
  NoDup (MatchedRuleIDs (Evaluate (Some readEngine) (Some Background) (sampleInput readEngine))) /\
  ReasonCode (Evaluate (Some readEngine) (Some Background) (sampleInput readEngine)) =
    ReasonAllRequirementsAllowed.
Proof.
  destruct (Evaluate_reason readEngine Background (sampleInput readEngine) sampleRequest
    sampleMapping (fun _ => eq_refl) sample_admissible) as (H & _ & _ & Hn).
  - intros r [->|[->|H%not_elem_of_nil]%elem_of_cons]%elem_of_cons; done.
  - split; [exact Hn|]. rewrite H. vm_compute. reflexivity.
Defined.

Lemma Evaluate_deny_monotone_witness :
  Result (Evaluate (Some readEngine) (Some Background) (withHash (hash readEngine)
    (sampleInput bothEngine))) = DecisionAllow.
Proof.
  apply (Evaluate_deny_monotone readEngine bothEngine).
  - done.
  - vm_compute. done.
  - intros rule Hr.
    assert (rules bothEngine = rules readEngine ++ drop 1 (rules bothEngine)) as ->
      by (vm_compute; reflexivity). by apply elem_of_app; left.
  - intros rule Hr.
    assert (rules bothEngine = rules readEngine ++ drop 1 (rules bothEngine)) as E
      by (vm_compute; reflexivity).
    rewrite E in Hr. apply elem_of_app in Hr as [Hr|Hr]; [by left|right].
    assert (Forall (fun r => effect r = "deny") (drop 1 (rules bothEngine))) as HF
      by (vm_compute; repeat constructor).
    by apply (proj1 (Forall_forall _ _) HF).
  - vm_compute. reflexivity.
Defined.

Lemma NewEngine_sound_witness :
  exists policy, copyPolicy (samplePolicy [denySecret; allowRead]) = Ok policy /\
    hash bothEngine = snapshotPolicyHash sampleDigest policy.
Proof.
  destruct (NewEngine_sound sampleDigest (samplePolicy [denySecret; allowRead]) bothEngine)
    as (policy & rs & H & _ & _ & Hh & _).
  - vm_compute. reflexivity.
  - exists policy. exact (conj H Hh).
Defined.

Lemma NewEngine_order_independent_witness :
  NewEngine sampleDigest (samplePolicy [allowRead; denySecret]) = Ok bothEngine.
Proof.
  refine (NewEngine_order_independent sampleDigest (samplePolicy [denySecret; allowRead])
    (samplePolicy [allowRead; denySecret]) _ _ bothEngine eq_refl eq_refl eq_refl _ _).
  - apply perm_swap.
  - vm_compute. reflexivity.
Defined.

Lemma Evaluate_order_independent_witness :
  Result (Evaluate (Some readEngine) (Some Background)
    (withMapping (sampleInput readEngine) (withRequirements sampleMapping
      [readKey "arn:aws:s3:::bucket/other"; readKey "arn:aws:s3:::bucket/key"]))) = DecisionAllow.
Proof.
  rewrite (Evaluate_order_independent readEngine Background (sampleInput readEngine)
    sampleMapping).
  - vm_compute. reflexivity.
  - done.
  - done.
  - apply perm_swap.
Defined.
End Samples.

End Policy.
