(* ===== verification/CacheKeys.v ===== *)
(** * Cache keys and the run's caches (internal/cache/keys.go)

    Keys are digests of a length-prefixed rendering of their parts.  [sha256]
    is the digest; "two keys are equal" is therefore always read up to an
    explicit digest collision.  [RequirementsKey] takes an [interface{}] apart
    by reflection; [rval] is the reflected value, [Sprint] is [fmt.Sprint] on
    values whose types have no [String] or [Error] method.  The caches
    themselves are those of Lru.v. *)

From Stdlib Require Import ZArith Lia Ascii.
From stdpp Require Import sorting base gmap strings list.
From S2P Require Import Prelude GoStrings GoEncoding Lru AwsTypes.

Module CacheKeys.
Import Lru.Lru AwsTypes.AwsTypes.

Definition nul : string := String (chr 0) EmptyString.

(** One iteration of [CanonicalKey]. *)
Definition keyPart (p : string) : string := (Itoa (slen p) ++ ":" ++ p ++ nul)%string.
Definition CanonicalKey (parts : list string) : string :=
  foldl (fun b p => (b ++ keyPart p)%string) EmptyString parts.

(** ** Reflected values *)

Inductive rval :=
| RInvalid
| RNilPtr
| RPtr (addr : string) (v : rval)
| RStr (s : string)
| RBool (b : bool)
| RSlice (vs : list rval)
| RMap (kvs : list (rval * rval))
| RStruct (fields : list (string * rval)).

(** [fmt.Sprint]; a pointer to a composite prints as its contents only at the
    top, below it prints its address. *)
Fixpoint sprint (top : bool) (v : rval) : string :=
  match v with
  | RInvalid | RNilPtr => "<nil>"
  | RPtr addr v =>
    match v with
    | RSlice _ | RMap _ | RStruct _ => if top then ("&" ++ sprint false v)%string else addr
    | _ => addr
    end
  | RStr s => s
  | RBool b => if b then "true" else "false"
  | RSlice vs => ("[" ++ Join (sprint false <$> vs) " " ++ "]")%string
  | RMap kvs =>
    ("map[" ++ Join ((fun kv => kv.1 ++ ":" ++ kv.2)%string <$>
       sort_by (fun a b => str_leb a.1 b.1)
         ((fun kv => (sprint false kv.1, sprint false kv.2)) <$> kvs)) " " ++ "]")%string
  | RStruct fields => ("{" ++ Join ((fun f => sprint false f.2) <$> fields) " " ++ "}")%string
  end.
Definition Sprint (v : rval) : string := sprint true v.

(** [FieldByName]; the requirement structs export every field read, so
    [CanInterface] always holds. *)
Definition FieldByName (fields : list (string * rval)) (name : string) : option rval :=
  snd <$> List.find (fun kv => (kv.1 =? name)%string) fields.

Definition printedField (fields : list (string * rval)) (name : string) : string :=
  match FieldByName fields name with Some f => Sprint f | None => EmptyString end.

(** The rendering of [ConditionHint]. *)
Definition conditionEntry (kv : rval * rval) : string :=
  let vals := match kv.2 with RSlice vs => Sprint <$> vs | _ => [] end in
  CanonicalKey [Sprint kv.1; Join (sort_strings vals) nul].
Definition conditionsKey (kvs : list (rval * rval)) : string :=
  Join (conditionEntry <$> sort_by (fun a b => str_leb (Sprint a.1) (Sprint b.1)) kvs) nul.

(** The loop body of [RequirementsKey]; a nil pointer contributes nothing. *)
Definition requirementItem (r : rval) : option string :=
  match (match r with RNilPtr => None | RPtr _ v => Some v | v => Some v end) with
  | None => None
  | Some (RStruct fields) =>
    let resources := match FieldByName fields "Resources" with
                     | Some (RSlice vs) => Sprint <$> vs | _ => [] end in
    let conditions := match FieldByName fields "ConditionHint" with
                      | Some (RMap kvs) => conditionsKey kvs | _ => EmptyString end in
    Some (CanonicalKey [printedField fields "Action"; printedField fields "ScopeKind";
                        printedField fields "Dependent"; Join (sort_strings resources) nul;
                        conditions])
  | Some r => Some (Sprint r)
  end.

Record EndpointKey := mkEndpointKey {
  ek_RunID : string; ek_Host : string; ek_Partition : string; ek_Region : string;
  ek_Service : string; ek_Account : string; ek_Operation : string;
}.
Record LeafKey := mkLeafKey { lk_RunID : string; lk_Host : string; lk_Identity : string }.
Record OperationKey := mkOperationKey {
  ok_RunID : string; ok_Service : string; ok_Operation : string; ok_MapperVersion : string;
  ok_DataVersion : string;
}.
Record DecisionKey := mkDecisionKey {
  dk_RunID : string; dk_Endpoint : EndpointKey; dk_PolicyHash : string;
  dk_MapperVersion : string; dk_Requirements : string;
}.

Section Keys.
Context (sha256 : string -> string).

Definition HashKey (parts : list string) : string := hex_encode (sha256 (CanonicalKey parts)).

Definition RequirementsKey (reqs : rval) : string :=
  let parts := ["requirements"] in
  match (match reqs with RNilPtr => None | RPtr _ v => Some v | v => Some v end) with
  | Some (RSlice rs) => HashKey (parts ++ sort_strings (omap requirementItem rs))
  | _ => HashKey parts
  end.

Definition EndpointKey_String (k : EndpointKey) : string :=
  HashKey ["endpoint"; ek_RunID k; ek_Host k; ek_Partition k; ek_Region k; ek_Service k;
           ek_Account k; ek_Operation k].
Definition LeafKey_String (k : LeafKey) : string :=
  HashKey ["leaf"; lk_RunID k; lk_Host k; lk_Identity k].
Definition OperationKey_String (k : OperationKey) : string :=
  HashKey ["operation"; ok_RunID k; ok_Service k; ok_Operation k; ok_MapperVersion k;
           ok_DataVersion k].
Definition DecisionKey_String (k : DecisionKey) : string :=
  HashKey ["decision"; dk_RunID k; EndpointKey_String (dk_Endpoint k); dk_PolicyHash k;
           dk_MapperVersion k; dk_Requirements k].
End Keys.

(** ** The caches of a run *)

Section RunCaches.
Context {V : Type}.

Record RunCaches := mkRunCaches {
  Endpoints : option (LRU string V);
  Leaves : option (LRU string V);
  Operations : option (LRU string V);
  Decisions : option (LRU string V);
}.
Record CacheOptions := mkCacheOptions {
  EndpointCapacity : Z; LeafCapacity : Z; OperationCapacity : Z; DecisionCapacity : Z;
}.

Definition defaultCapacity (n : Z) : Z := if n <=? 0 then 256 else n.

Definition NewRunCaches (o : CacheOptions) : result RunCaches :=
  e ← NewLRU (defaultCapacity (EndpointCapacity o));
  l ← NewLRU (defaultCapacity (LeafCapacity o));
  op ← NewLRU (defaultCapacity (OperationCapacity o));
  d ← NewLRU (defaultCapacity (DecisionCapacity o));
  Ok (mkRunCaches (Some e) (Some l) (Some op) (Some d)).

(** [RunCaches.Clear], on a possibly nil receiver. *)
Definition RunCaches_Clear (c : option RunCaches) : option RunCaches :=
  match c with
  | None => None
  | Some c => Some (mkRunCaches (Clear (Endpoints c)) (Clear (Leaves c)) (Clear (Operations c))
                      (Clear (Decisions c)))
  end.
End RunCaches.

(** ** Canonical keys are a code *)

Lemma CanonicalKey_foldl acc parts :
  foldl (fun b p => (b ++ keyPart p)%string) acc parts = (acc ++ CanonicalKey parts)%string.
Proof.
  unfold CanonicalKey. revert acc. induction parts as [|p parts IH]; intros acc; cbn [foldl].
  - by rewrite str_app_nil_r.
  - rewrite IH, (IH (EmptyString ++ keyPart p)%string). by rewrite str_app_assoc.
Qed.

Lemma CanonicalKey_cons p parts :
  CanonicalKey (p :: parts) = (keyPart p ++ CanonicalKey parts)%string.
Proof. unfold CanonicalKey at 1. cbn [foldl]. by rewrite CanonicalKey_foldl. Qed.

Lemma keyPart_inj p q s t : (keyPart p ++ s = keyPart q ++ t)%string -> p = q /\ s = t.
Proof.
  unfold keyPart. rewrite !str_app_assoc. intros E.
  apply (app_sep_inj ":") in E as [El E];
    [|apply Itoa_count; [apply slen_nonneg|done]|apply Itoa_count; [apply slen_nonneg|done]].
  apply Itoa_inj in El; [|apply slen_nonneg..]. unfold slen in El.
  apply str_app_length_inj in E as [-> E]; [|lia]. split; [done|]. by injection E.
Qed.

Lemma keyPart_length p : 0 < slen (keyPart p).
Proof.
  unfold keyPart. rewrite !slen_app. pose proof (slen_nonneg (Itoa (slen p))).
  pose proof (slen_nonneg p). pose proof (slen_nonneg nul). change (slen ":") with 1. lia.
Qed.

Lemma CanonicalKey_nonempty p ps : EmptyString <> CanonicalKey (p :: ps).
Proof.
  rewrite CanonicalKey_cons. intros E%(f_equal slen). rewrite slen_app in E.
  pose proof (keyPart_length p). pose proof (slen_nonneg (CanonicalKey ps)).
  change (slen "") with 0 in E. lia.
Qed.

(** No two lists of parts, whatever bytes they hold, share a canonical key. *)
Lemma CanonicalKey_inj ps qs : CanonicalKey ps = CanonicalKey qs -> ps = qs.
Proof.
  revert qs. induction ps as [|p ps IH]; intros [|q qs]; [done|..].
  - intros E. by apply CanonicalKey_nonempty in E.
  - intros E. symmetry in E. by apply CanonicalKey_nonempty in E.
  - rewrite !CanonicalKey_cons. intros [-> E]%keyPart_inj. f_equal. by apply IH.
Qed.

(** ** Keys identify what they are built from *)

Section Identify.
Context (sha256 : string -> string).

Definition collision : Prop := exists x y, x <> y /\ sha256 x = sha256 y.

Lemma HashKey_inj ps qs : HashKey sha256 ps = HashKey sha256 qs -> ps = qs \/ collision.
Proof.
  intros H%hex_encode_inj. destruct (decide (CanonicalKey ps = CanonicalKey qs)) as [E|Hne].
  - left. by apply CanonicalKey_inj.
  - right. by eexists _, _.
Qed.

(** The keys of the four caches. *)
Inductive cacheKey :=
| KEndpoint (k : EndpointKey) | KLeaf (k : LeafKey)
| KOperation (k : OperationKey) | KDecision (k : DecisionKey).
Definition keyString (k : cacheKey) : string :=
  match k with
  | KEndpoint k => EndpointKey_String sha256 k
  | KLeaf k => LeafKey_String sha256 k
  | KOperation k => OperationKey_String sha256 k
  | KDecision k => DecisionKey_String sha256 k
  end.

(** Cache keys identify what they are built from: two endpoint, leaf,
    operation or decision keys with the same string are the same key of the
    same kind, unless the digest collides on two different inputs. *)
Theorem cacheKey_identifies (k1 k2 : cacheKey) :
  keyString k1 = keyString k2 -> k1 = k2 \/ collision.
Proof.
  destruct k1 as [[]|[]|[]|[? e1 ? ? ?]], k2 as [[]|[]|[]|[? e2 ? ? ?]]; cbn [keyString];
    intros [E|Hc]%HashKey_inj; try (by right); try discriminate E.
  4: injection E as -> Ee -> -> ->; apply HashKey_inj in Ee as [Ee|Hc]; [|by right];
    destruct e1, e2; cbn in Ee; injection Ee as -> -> -> -> -> -> ->; by left.
  all: cbn in E; simplify_eq; by left.
Qed.
End Identify.

Lemma cacheKey_identifies_witness :
  KLeaf (mkLeafKey "r" ("a" ++ "") "i") = KLeaf (mkLeafKey "r" "a" "i") \/
  collision (fun s => s).
Proof. apply (cacheKey_identifies (fun s => s)). vm_compute. reflexivity. Defined.

(** ** Requirement keys *)

Section Requirements.
Context (sha256 : string -> string).

(** What reflection sees of a [[]IAMRequirement]. *)
Definition reflectRequirement (r : IAMRequirement) : rval :=
  RStruct [("Action", RStr (Action r)); ("Resources", RSlice (RStr <$> Resources r));
           ("ScopeKind", RStr (ScopeKind r)); ("Dependent", RBool (Dependent r));
           ("ConditionHint", RMap ((fun kv => (RStr kv.1, RSlice (RStr <$> kv.2))) <$>
                                     ConditionHint r))].
Definition reflectRequirements (rs : list IAMRequirement) : rval :=
  RSlice (reflectRequirement <$> rs).

(** The part of a requirement that its key retains: the resources as a
    sorted list and the rendered conditions. *)
Definition conditionKey (r : IAMRequirement) : string :=
  conditionsKey ((fun kv => (RStr kv.1, RSlice (RStr <$> kv.2))) <$> ConditionHint r).
Definition retained (r : IAMRequirement) : string * string * bool * list string * string :=
  (Action r, ScopeKind r, Dependent r, sort_strings (Resources r), conditionKey r).

(** No resource is empty or contains a NUL, as evaluation demands. *)
Definition plainResources (r : IAMRequirement) : Prop :=
  forall s, s ∈ Resources r -> s <> "" /\ count_byte s 0 = 0.

Definition itemOf (r : IAMRequirement) : string :=
  CanonicalKey [Action r; ScopeKind r; if Dependent r then "true" else "false";
                Join (sort_strings (Resources r)) nul; conditionKey r].

Lemma requirementItem_of r : requirementItem (reflectRequirement r) = Some (itemOf r).
Proof.
  unfold itemOf, requirementItem, reflectRequirement, printedField. cbn.
  rewrite <-list_fmap_compose. do 2 f_equal. f_equal. f_equal. f_equal. f_equal.
  f_equal. f_equal. apply list_fmap_id.
Qed.

Lemma Join_nul_inj l1 l2 :
  (forall s, s ∈ l1 -> s <> "" /\ count_byte s 0 = 0) ->
  (forall s, s ∈ l2 -> s <> "" /\ count_byte s 0 = 0) ->
  Join l1 nul = Join l2 nul -> l1 = l2.
Proof.
  intros H1 H2 E.
  assert (forall l, (forall s, s ∈ l -> s <> "" /\ count_byte s 0 = 0) -> Join l nul = "" -> l = []) as Hnil.
  { intros [|x l] H Ej; [done|]. destruct (H x) as [Hx _]; [by left|].
    by destruct l, x. }
  destruct l1 as [|x l1]; [symmetry; by apply Hnil|].
  destruct l2 as [|y l2]; [by apply Hnil|].
  apply (Join_sep_inj (chr 0)); try done;
    apply Forall_forall; intros s Hs; [apply (H1 s)|apply (H2 s)]; exact Hs.
Qed.

Lemma itemOf_retained r1 r2 :
  plainResources r1 -> plainResources r2 -> itemOf r1 = itemOf r2 <-> retained r1 = retained r2.
Proof.
  intros H1 H2. unfold itemOf, retained. split.
  - intros E%CanonicalKey_inj. injection E as -> -> Ed Er ->.
    apply Join_nul_inj in Er as ->.
    + by destruct (Dependent r1), (Dependent r2).
    + intros s. rewrite sort_strings_perm. apply H1.
    + intros s. rewrite sort_strings_perm. apply H2.
  - intros [= -> -> -> -> ->]. done.
Qed.

Lemma RequirementsKey_items rs :
  RequirementsKey sha256 (reflectRequirements rs) =
  HashKey sha256 ("requirements" :: sort_strings (itemOf <$> rs)).
Proof.
  unfold RequirementsKey, reflectRequirements. cbn [app]. do 3 f_equal.
  induction rs as [|r rs IH]; [done|]. rewrite !fmap_cons. cbn [omap list_omap].
  rewrite requirementItem_of. by f_equal.
Qed.

Lemma RequirementsKey_retained (rs1 rs2 : list IAMRequirement) :
  (forall r, r ∈ rs1 ++ rs2 -> plainResources r) ->
  RequirementsKey sha256 (reflectRequirements rs1) = RequirementsKey sha256 (reflectRequirements rs2) ->
  Permutation (retained <$> rs1) (retained <$> rs2) \/ collision sha256.
Proof.
  intros Hpl. rewrite !RequirementsKey_items. intros [[= E]|Hc]%HashKey_inj; [left|by right].
  apply (fmap_Permutation_via itemOf retained).
  - intros x y Hx Hy. apply itemOf_retained; apply Hpl, elem_of_app; auto.
  - by rewrite <-(sort_strings_perm (itemOf <$> rs1)), E, sort_strings_perm.
Qed.

(** [RequirementsKey] sees a requirement list as a set of requirements:
    listing the requirements, or the resources of one, in another order gives
    the same key; and when no resource is empty or holds a NUL, equal keys
    mean the same multiset of action, scope, dependence, resource set and
    conditions, unless the digest collides. *)
Theorem RequirementsKey_identifies (rs1 rs2 : list IAMRequirement) :
  (forall r, r ∈ rs1 ++ rs2 -> plainResources r) ->
  (Permutation (retained <$> rs1) (retained <$> rs2) ->
   RequirementsKey sha256 (reflectRequirements rs1) =
   RequirementsKey sha256 (reflectRequirements rs2)) /\
  (RequirementsKey sha256 (reflectRequirements rs1) =
   RequirementsKey sha256 (reflectRequirements rs2) ->
   Permutation (retained <$> rs1) (retained <$> rs2) \/ collision sha256).
Proof.
  intros Hpl. split; [|by apply RequirementsKey_retained]. rewrite !RequirementsKey_items.
  assert (forall r1 r2, r1 ∈ rs1 -> r2 ∈ rs2 -> itemOf r1 = itemOf r2 <-> retained r1 = retained r2)
    as Hi by (intros; apply itemOf_retained; apply Hpl, elem_of_app; auto).
  - intros Hp. f_equal. f_equal. apply sort_strings_unique.
    apply (fmap_Permutation_via retained itemOf); [|done]. intros x y Hx Hy. by apply Hi.
Qed.
End Requirements.

Lemma RequirementsKey_identifies_witness :
  let r1 := mkRequirement "s3:GetObject" ["arn:a"; "arn:b"] ScopeSet false [] in
  let r1' := mkRequirement "s3:GetObject" ["arn:b"; "arn:a"] ScopeSet false [] in
  let r2 := mkRequirement "kms:Decrypt" ["*"] ScopeKnownGlobal true [] in
  RequirementsKey (fun s => s) (reflectRequirements [r1; r2]) =
  RequirementsKey (fun s => s) (reflectRequirements [r2; r1']).
Proof.
  intros r1 r1' r2. apply (RequirementsKey_identifies (fun s => s) [r1; r2] [r2; r1']).
  - intros r Hr s Hs. apply list_elem_of_In in Hr, Hs.
    repeat (destruct Hr as [<-|Hr]; [repeat (destruct Hs as [<-|Hs]; [done|]); done|]). done.
  - apply perm_swap.
Defined.

End CacheKeys.
