(* ===== verification/GoNet.v ===== *)
(** * Network text of Go's standard library the program relies on

    [net.ParseIP]: an IPv4 address in dotted decimal, or an IPv6 address
    without a zone, following [net/netip.ParseAddr]. *)

From Stdlib Require Import ZArith Lia Ascii.
From stdpp Require Import base gmap strings list.
From S2P Require Import Prelude GoStrings.

(** One dotted-decimal field: digits, no leading zero, at most 255. *)
Definition ipv4_field (s : string) : bool :=
  (0 <? slen s) && bytes_all is_digit s &&
  negb ((1 <? slen s) && bool_decide (byte_at s 0 = Some (ord "0"))) &&
  (slen s <=? 3) && (decimal 0 s <=? 255).

Definition parseIPv4 (s : string) : option (list Z) :=
  let fields := Split s "." in
  if (List.length fields =? 4)%nat && forallb ipv4_field fields then Some (decimal 0 <$> fields)
  else None.

Definition is_hex (c : Z) : bool := is_digit c || between (ord "a") (ord "f") c || between (ord "A") (ord "F") c.

(** The length of the leading run of hexadecimal digits. *)
Fixpoint hex_run (s : string) : nat :=
  match s with
  | EmptyString => O
  | String c s => if is_hex (ord c) then S (hex_run s) else O
  end.

(** The value of the digits of a group. *)
Fixpoint hex_value (acc : Z) (s : string) : Z :=
  match s with
  | EmptyString => acc
  | String c s => hex_value (acc * 16 + default 0 (unhex (ord c))) s
  end.

(** The group loop of [parseIPv6]: [ip] are the bytes filled in, [ellipsis] the
    position at which ["::"] was seen.  Every turn consumes a byte, so
    [S (length s)] turns suffice. *)
Fixpoint ipv6_groups (fuel : nat) (s : string) (ip : list Z) (ellipsis : option nat)
  : option (list Z * option nat) :=
  match fuel with
  | O => None
  | S fuel =>
    let i := List.length ip in
    if (16 <=? i)%nat then if (s =? "")%string then Some (ip, ellipsis) else None
    else
      let off := hex_run s in
      if (off =? 0)%nat || (4 <? off)%nat then None
      else
        let acc := hex_value 0 (str_take off s) in
        let ip' := ip ++ [acc / 256; acc mod 256] in
        match str_drop off s with
        | EmptyString => Some (ip', ellipsis)
        | String c rest =>
          if ord c =? ord "." then
            if (bool_decide (ellipsis = None) && negb (i =? 12)%nat) || (16 <? i + 4)%nat then None
            else match parseIPv4 s with Some v4 => Some (ip ++ v4, ellipsis) | None => None end
          else if negb (ord c =? ord ":") then None
          else match rest with
               | EmptyString => None
               | String c' rest' =>
                 if ord c' =? ord ":" then
                   if bool_decide (ellipsis <> None) then None
                   else if (rest' =? "")%string then Some (ip', Some (i + 2)%nat)
                   else ipv6_groups fuel rest' ip' (Some (i + 2)%nat)
                 else ipv6_groups fuel rest ip' ellipsis
               end
        end
  end.

(** The gap at the ellipsis is filled with zeros; without one, and with no room
    for one, sixteen bytes are required. *)
Definition expandIPv6 (p : list Z * option nat) : option (list Z) :=
  let (ip, ellipsis) := p in
  let i := List.length ip in
  if (i <? 16)%nat then
    match ellipsis with
    | Some e => Some (take e ip ++ replicate (16 - i) 0 ++ drop e ip)
    | None => None
    end
  else match ellipsis with Some _ => None | None => Some ip end.

(** [parseIPv6] of a string without a zone. *)
Definition parseIPv6 (s : string) : option (list Z) :=
  if HasPrefix s "::" then
    let rest := str_drop 2 s in
    if (rest =? "")%string then Some (replicate 16 0)
    else ipv6_groups (S (String.length rest)) rest [] (Some 0%nat) ≫= expandIPv6
  else ipv6_groups (S (String.length s)) s [] None ≫= expandIPv6.

(** [net.ParseIP]: the first of ['.'], [':'] and ['%'] decides; an address with
    a zone is rejected.  The bytes are four or sixteen. *)
Fixpoint ip_separator (s : string) : option Z :=
  match s with
  | EmptyString => None
  | String c s => if in_set ".:%" (ord c) then Some (ord c) else ip_separator s
  end.
Definition ParseAddr (s : string) : option (list Z) :=
  match ip_separator s with
  | Some c =>
    if c =? ord "." then parseIPv4 s
    else if c =? ord ":" then if bytes_any (Z.eqb (ord "%")) s then None else parseIPv6 s
    else None
  | None => None
  end.

(** [net.ParseIP(s) != nil]. *)
Definition ParseIP (s : string) : bool := bool_decide (ParseAddr s <> None).

(** [net.IP.IsLoopback]; [To4] also unwraps an IPv4-mapped address. *)
Definition IsLoopback (ip : list Z) : bool :=
  match ip with
  | [a; _; _; _] => a =? 127
  | _ =>
    match drop 12 ip with
    | [a; _; _; _] =>
      if bool_decide (take 12 ip = replicate 10 0 ++ [255; 255]) then a =? 127
      else bool_decide (ip = replicate 15 0 ++ [1])
    | _ => false
    end
  end.

(** The position of the last colon. *)
Fixpoint last_index (s : string) (c : Z) : option nat :=
  match s with
  | EmptyString => None
  | String a s =>
    match last_index s c with
    | Some n => Some (S n)
    | None => if ord a =? c then Some O else None
    end
  end.

(** [net.SplitHostPort]: host and port, [None] for any of its errors. *)
Definition SplitHostPort (hostport : string) : option (string * string) :=
  let has c s := bytes_any (Z.eqb (ord c)) s in
  match last_index hostport (ord ":") with
  | None => None
  | Some i =>
    let port := str_drop (S i) hostport in
    if HasPrefix hostport "[" then
      match index_byte hostport (ord "]") with
      | None => None
      | Some e =>
        if (S e =? String.length hostport)%nat || negb (S e =? i)%nat then None
        else if has "["%char (str_drop 1 hostport) || has "]"%char (str_drop (S e) hostport) then None
        else Some (str_drop 1 (str_take e hostport), port)
      end
    else
      let host := str_take i hostport in
      if has ":"%char host || has "["%char hostport || has "]"%char hostport then None
      else Some (host, port)
  end.

Example loopback_ex :
  ((fun s => default false (IsLoopback <$> ParseAddr s)) <$>
     ["127.0.0.1"; "::1"; "::ffff:127.9.9.9"; "128.0.0.1"; "::2"; "0:0:0:0:0:0:0:1"]) =
  [true; true; true; false; false; true].
Proof. vm_compute. reflexivity. Qed.

Example SplitHostPort_ex :
  (SplitHostPort <$> ["127.0.0.1:0"; "[::1]:80"; "::1:80"; "[::1]"; "localhost"; ":1"]) =
  [Some ("127.0.0.1", "0"); Some ("::1", "80"); None; None; None; Some ("", "1")].
Proof. vm_compute. reflexivity. Qed.

Example ParseIP_ex :
  (ParseIP <$> ["1.2.3.4"; "1.2.3"; "01.2.3.4"; "256.1.1.1"; "::1"; "fe80::1"; "::"; "1:2:3:4:5:6:7:8";
                "::ffff:1.2.3.4"; "1:2:3:4:5:6:7::"; "1:2"; "fe80::1%eth0"; "s3.amazonaws.com"]) =
  [true; false; false; false; true; true; true; true; true; true; false; false; false].
Proof. vm_compute. reflexivity. Qed.
