(* ===== verification/Endpoint.v ===== *)
(** * Endpoint classification (internal/awsrequest: endpoint.go, endpoint_catalog.go)

    From an authority to an [AWSEndpoint]: normalisation of the host, the index
    of endpoint families compiled from the catalog's service identities, the
    classification of a normalised host against it, and the classifier with its
    positive and negative caches.

    [ToASCII] is [idna.Lookup.ToASCII] (golang.org/x/net).  Go slices share
    their backing array: [classifyRegionalAmazonBody] trims ["-fips"] from a
    label in place, so it returns the body as it leaves it, which is what the
    second call of [classifyAmazonAWSEndpoint] sees. *)

From Stdlib Require Import ZArith Lia Ascii.
From stdpp Require Import sorting base gmap strings list.
From S2P Require Import Prelude GoStrings GoNet Lru AwsTypes.

Module Endpoint.
Import Lru.Lru AwsTypes.AwsTypes.

(** ** NormalizeEndpointHost *)

(** [strings.TrimSpace(s) != s] for a non-empty [s]. *)
Definition trimmable (s : string) : bool :=
  match runes s with
  | [] => false
  | r :: rs => IsSpace r || IsSpace (List.last rs r)
  end.

(** The digit loop over the port's runes. *)
Fixpoint portLoop (value : Z) (rs : list Z) : result Z :=
  match rs with
  | [] => Ok value
  | r :: rs =>
    if negb (is_digit r) then Err (ErrNew "endpoint authority port is malformed")
    else let value := value * 10 + (r - ord "0") in
         if 65535 <? value then Err (ErrNew "endpoint authority port is invalid")
         else portLoop value rs
  end.

(** [host, port] of an authority with exactly one colon. *)
Definition splitAuthority (authority : string) : result (string * Z) :=
  match SplitN authority ":" 2 with
  | [host; portText] =>
    if 5 <? slen portText then Err (ErrNew "endpoint authority port is invalid")
    else if (host =? "")%string || (portText =? "")%string
    then Err (ErrNew "endpoint authority port is malformed")
    else
      value ← portLoop 0 (runes portText);
      if value =? 0 then Err (ErrNew "endpoint authority port is invalid") else Ok (host, value)
  | _ => Err (ErrNew "endpoint authority port is malformed")
  end.

Section Normalize.
Context `{U : UnicodeTables} (ToASCII : string -> result string).

Definition NormalizeEndpointHost (authority : string) : result (string * Z) :=
  if (authority =? "")%string || trimmable authority ||
     bytes_any (fun c => in_set "/@" c || (c =? 0) || (c =? 13) || (c =? 10)) authority
  then Err (ErrNew "endpoint authority is malformed")
  else if HasPrefix authority "[" then Err (ErrNew "IPv6 endpoint is not an AWS DNS endpoint")
  else
    hp ← (if count_byte authority (ord ":") =? 1 then splitAuthority authority
          else if bytes_any (Z.eqb (ord ":")) authority
          then Err (ErrNew "endpoint authority IPv6 form is malformed")
          else Ok (authority, 443));
    let host := TrimSuffix hp.1 "." in
    if (host =? "")%string || HasSuffix host "." || (253 <? slen host)
    then Err (ErrNew "endpoint hostname is malformed")
    else match ToASCII host with
    | Err _ => Err (ErrNew "endpoint hostname is not valid IDNA")
    | Ok ascii =>
      if (ascii =? "")%string || (253 <? slen ascii)
      then Err (ErrNew "endpoint hostname is not valid IDNA")
      else
        let ascii := ToLower ascii in
        if ParseIP ascii then Err (ErrNew "endpoint hostname must be DNS")
        else match checkLabels lowerDNSRune "endpoint hostname has an invalid label"
                     "endpoint hostname has a non-ASCII label" (Split ascii ".") with
        | Some err => Err err
        | None => Ok (ascii, hp.2)
        end
    end.

Definition NormalizeHost (host : string) : result (string * Z) := NormalizeEndpointHost host.

(** [labels[i] == "amazonaws" && labels[i+1] == "com"] for some [i]. *)
Fixpoint amazonPair (labels : list string) : bool :=
  match labels with
  | a :: ((b :: _) as labels) =>
    ((a =? "amazonaws")%string && (b =? "com")%string) || amazonPair labels
  | _ => false
  end.

(** The last two labels, when there are two. *)
Definition lastTwo (labels : list string) : option (string * string) :=
  match rev labels with
  | b :: a :: _ => Some (a, b)
  | _ => None
  end.

Definition LooksLikeAWSHost (authority : string) : bool :=
  match NormalizeEndpointHost authority with
  | Err _ => false
  | Ok (host, _) =>
    let labels := Split host "." in
    if amazonPair labels then true
    else bool_decide (lastTwo labels = Some ("api", "aws"))
  end.
End Normalize.

(** ** Regions *)

Definition supportedRegions : list string :=
  ["af-south-1"; "ap-east-1"; "ap-northeast-1"; "ap-northeast-2"; "ap-northeast-3"; "ap-south-1";
   "ap-south-2"; "ap-southeast-1"; "ap-southeast-2"; "ap-southeast-3"; "ap-southeast-4";
   "ap-southeast-5"; "ap-southeast-7"; "ca-central-1"; "ca-west-1"; "eu-central-1"; "eu-central-2";
   "eu-north-1"; "eu-south-1"; "eu-south-2"; "eu-west-1"; "eu-west-2"; "eu-west-3"; "il-central-1";
   "me-central-1"; "me-south-1"; "mx-central-1"; "sa-east-1"; "us-east-1"; "us-east-2"; "us-west-1";
   "us-west-2"].
Definition supportedRegion (region : string) : bool := mem_str region supportedRegions.

(** [^[a-z]{2}(?:-[a-z0-9]+)+-[0-9]+$]: dash-separated parts, since no class
    contains a dash. *)
Fixpoint regionTail (parts : list string) : bool :=
  match parts with
  | [] => false
  | [last] => (0 <? slen last) && bytes_all is_digit last
  | part :: parts =>
    (0 <? slen part) && bytes_all (fun c => is_lower c || is_digit c) part && regionTail parts
  end.
Definition regionPattern (region : string) : bool :=
  match Split region "-" with
  | p0 :: p1 :: p2 :: parts =>
    (slen p0 =? 2) && bytes_all is_lower p0 && regionTail (p1 :: p2 :: parts)
  | _ => false
  end.
Definition validCommercialRegion (region : string) : bool :=
  regionPattern region && supportedRegion region.

Definition validAccountLabel (value : string) : bool :=
  (slen value =? 12) && err_nil (validateEndpointAccountID value).

(** ** Shapes: bits of a uint16 *)

Definition shapeRegional : Z := 1.
Definition shapeRegionalFIPS : Z := 2.
Definition shapeRegionalFIPSLabel : Z := 4.
Definition shapeRegionalFIPSLabelDualStack : Z := 8.
Definition shapeRegionalDualStack : Z := 16.
Definition shapeRegionalFIPSDualStack : Z := 32.
Definition shapeRegionalAPIAWS : Z := 64.
Definition shapeRegionalFIPSAPIAWS : Z := 128.
Definition shapeGlobal : Z := 256.
Definition shapeGlobalFIPSLabel : Z := 512.
Definition shapeGlobalFIPSSuffix : Z := 1024.
Definition shapeRegionalGlobal : Z := 2048.
Definition shapeAccountRegional : Z := 4096.
Definition shapeAccountRegionalDualStack : Z := 8192.

Definition shapesOf (l : list Z) : Z := foldl Z.lor 0 l.
Definition regionalShapes : Z :=
  shapesOf [shapeRegional; shapeRegionalFIPS; shapeRegionalDualStack; shapeRegionalFIPSDualStack;
            shapeRegionalAPIAWS; shapeRegionalFIPSAPIAWS].
(** [shapes & shape != 0]. *)
Definition allows (shapes shape : Z) : bool := negb (Z.land shapes shape =? 0).

Record endpointFamily := mkFamily {
  DNSPrefix : string;
  fam_Service : string;
  fam_SigningService : string;
  fam_SigningRegion : string;
  Shapes : Z;
  AccountLabel : bool;
}.

(** ** endpoint_catalog.go *)

Record endpointOverride := mkOverride {
  shapes : Z; signingRegion : string; accountLabel : bool;
}.

Definition globalForms : list Z := [shapeGlobal; shapeGlobalFIPSLabel; shapeGlobalFIPSSuffix].
Definition endpointOverrides : list (string * endpointOverride) := [
  ("sts", mkOverride (shapesOf (regionalShapes :: globalForms)) "us-east-1" false);
  ("iam", mkOverride (shapesOf globalForms) "us-east-1" false);
  ("s3", mkOverride (shapesOf [regionalShapes; shapeGlobal]) "us-east-1" false);
  ("ec2", mkOverride (shapesOf [regionalShapes; shapeRegionalFIPSLabel;
                                shapeRegionalFIPSLabelDualStack]) "" false);
  ("route53", mkOverride (shapesOf globalForms) "us-east-1" false);
  ("organizations", mkOverride (shapesOf (regionalShapes :: globalForms)) "us-east-1" false);
  ("monitoring", mkOverride regionalShapes "" false);
  ("budgets", mkOverride shapeGlobal "us-east-1" false);
  ("ce", mkOverride shapeRegionalGlobal "us-east-1" false);
  ("cloudfront", mkOverride shapeGlobal "us-east-1" false);
  ("s3-control", mkOverride (shapesOf [shapeAccountRegional; shapeAccountRegionalDualStack]) "" true)].

Record ServiceIdentity := mkIdentity { EndpointPrefix : string; SigningName : string }.

Definition validateSigningName (name : string) : option error :=
  if negb (validSigningIdentity name)
  then Some (ErrNew "signing name must be a bounded lowercase SigV4 service identity") else None.

Definition familyOf (prefix signing : string) : endpointFamily :=
  match List.find (fun kv => (kv.1 =? prefix)%string) endpointOverrides with
  | Some (_, o) => mkFamily prefix prefix signing (signingRegion o) (shapes o) (accountLabel o)
  | None => mkFamily prefix prefix signing "" regionalShapes false
  end.

Section Catalog.
Context `{U : UnicodeTables}.

Definition validateEndpointPrefix (prefix : string) : option error :=
  if (prefix =? "")%string || negb (prefix =? ToLower prefix)%string || (253 <? slen prefix)
  then Some (ErrNew "endpoint prefix must be lowercase and non-empty")
  else checkLabels lowerDNSRune "endpoint prefix contains an invalid DNS label"
         "endpoint prefix contains a non-ASCII DNS label" (Split prefix ".").

(** The identity loop of [compileEndpointIdentityViews]. *)
Fixpoint compileIdentities (services : list ServiceIdentity) (identities : gmap string string)
  : result (gmap string string) :=
  match services with
  | [] => Ok identities
  | service :: services =>
    let prefix := EndpointPrefix service in
    match validateEndpointPrefix prefix with
    | Some err => Err (ErrWrap "catalog endpoint prefix %q: invalid endpoint prefix: %w" [prefix] err)
    | None =>
      let signing := if (SigningName service =? "")%string then prefix else SigningName service in
      match validateSigningName signing with
      | Some err => Err (ErrWrap "catalog endpoint prefix %q: invalid signing name: %w" [prefix] err)
      | None =>
        match identities !! prefix with
        | Some prior =>
          if negb (prior =? signing)%string
          then Err (ErrFmt "catalog endpoint prefix %q has ambiguous signing names %q and %q"
                      [prefix; prior; signing])
          else compileIdentities services (<[prefix := signing]> identities)
        | None => compileIdentities services (<[prefix := signing]> identities)
        end
      end
    end
  end.

(** The families are built from the finished identities one by one, in an
    order that does not matter: each key is written once. *)
Definition compileEndpointIdentityViews (services : list ServiceIdentity)
  : result (gmap string endpointFamily) :=
  match services with
  | [] => Err (ErrNew "catalog endpoint identity is empty")
  | _ =>
    match compileIdentities services ∅ with
    | Err err => Err err
    | Ok identities =>
      Ok (map_imap (fun prefix signing => Some (familyOf prefix signing)) identities)
    end
  end.
End Catalog.

(** ** Classifying a normalised host *)

Definition scopeFor (global : bool) : string := if global then ScopeGlobal else ScopeRegional.

Definition awsEndpointWithAccount (family : endpointFamily) (host region : string)
    (global fips dualstack : bool) (account : string) : AWSEndpoint :=
  let signingRegion := if negb global then region else fam_SigningRegion family in
  mkEndpoint "aws" host (fam_Service family) (fam_SigningService family) signingRegion region global
    (scopeFor global) fips dualstack account.
Definition awsEndpoint (family : endpointFamily) (host region : string)
    (global fips dualstack : bool) : AWSEndpoint :=
  awsEndpointWithAccount family host region global fips dualstack "".

(** [labels[len-1]] and [labels[:len-1]] of a non-empty slice. *)
Definition lastLabel (labels : list string) : string := List.last labels EmptyString.

Notation families := (gmap string endpointFamily).

(** [family, ok := families[prefix]], the prefix check and the shape check. *)
Definition lookupFamily (fs : families) (prefix : string) (shape : Z) : option endpointFamily :=
  match fs !! prefix with
  | Some family =>
    if negb (DNSPrefix family =? prefix)%string || negb (allows (Shapes family) shape) then None
    else Some family
  | None => None
  end.

(** [append(l[:len-1], TrimSuffix(l[len-1], "-fips"))]. *)
Definition trimLastFips (labels : list string) : list string :=
  removelast labels ++ [TrimSuffix (lastLabel labels) "-fips"].
Definition endsFips (labels : list string) : bool :=
  negb (bool_decide (labels = [])) && HasSuffix (lastLabel labels) "-fips".
Definition startsFips (labels : list string) : bool :=
  match labels with l0 :: _ => (l0 =? "fips")%string | [] => false end.

Definition classifyAPIAWSEndpoint (host : string) (body : list string) (fs : families)
  : option AWSEndpoint :=
  if (List.length body <? 2)%nat then None
  else
    let region := lastLabel body in
    if negb (validCommercialRegion region) then None
    else
      let prefixLabels := removelast body in
      let fips := endsFips prefixLabels in
      let prefixLabels := if fips then trimLastFips prefixLabels else prefixLabels in
      let shape := if fips then shapeRegionalFIPSAPIAWS else shapeRegionalAPIAWS in
      family ← lookupFamily fs (Join prefixLabels ".") shape;
      Some (awsEndpoint family host region false fips true).

Definition classifyGlobalAmazonEndpoint (host : string) (body : list string) (fs : families)
  : option AWSEndpoint :=
  match body with
  | [] => None
  | _ =>
    if startsFips body then
      if (List.length body =? 1)%nat then None
      else
        family ← lookupFamily fs (Join (drop 1 body) ".") shapeGlobalFIPSLabel;
        Some (awsEndpoint family host "" true true false)
    else if endsFips body then
      family ← lookupFamily fs (Join (trimLastFips body) ".") shapeGlobalFIPSSuffix;
      Some (awsEndpoint family host "" true true false)
    else
      family ← lookupFamily fs (Join body ".") shapeGlobal;
      Some (awsEndpoint family host "" true false false)
  end.

(** The [switch] over the prefix labels: the labels it goes on with, the flags
    [fips] and [dualstack], the shape, and the prefix labels as stored in the
    shared array afterwards. *)
Definition regionalLayout (prefixLabels : list string)
  : list string * bool * bool * Z * list string :=
  if (2 <=? List.length prefixLabels)%nat && (lastLabel prefixLabels =? "dualstack")%string then
    let inner := removelast prefixLabels in
    if startsFips inner
    then (drop 1 inner, true, true, shapeRegionalFIPSLabelDualStack, prefixLabels)
    else if endsFips inner
    then (trimLastFips inner, true, true, shapeRegionalFIPSDualStack,
          trimLastFips inner ++ ["dualstack"])
    else (inner, false, true, shapeRegionalDualStack, prefixLabels)
  else if startsFips prefixLabels
  then (drop 1 prefixLabels, true, false, shapeRegionalFIPSLabel, prefixLabels)
  else if endsFips prefixLabels
  then (trimLastFips prefixLabels, true, false, shapeRegionalFIPS, trimLastFips prefixLabels)
  else (prefixLabels, false, false, shapeRegional, prefixLabels).

(** The result, and [body] as it is left. *)
Definition classifyRegionalAmazonBody (host : string) (body : list string) (fs : families)
    (account : string) : option AWSEndpoint * list string :=
  if (List.length body <? 2)%nat then (None, body)
  else
    let region := lastLabel body in
    if negb (validCommercialRegion region) then (None, body)
    else
      let special :=
        match fs !! Join (removelast body) "." with
        | Some family =>
          if allows (Shapes family) shapeRegionalGlobal then Some family else None
        | None => None
        end in
      match special with
      | Some family =>
        if negb (account =? "")%string then (None, body)
        else (Some (awsEndpointWithAccount family host "" true false false ""), body)
      | None =>
        let '(prefixLabels, fips, dualstack, shape, stored) := regionalLayout (removelast body) in
        let body := stored ++ [region] in
        if negb (account =? "")%string && fips then (None, body)
        else
          let shape := if negb (account =? "")%string
                       then if dualstack then shapeAccountRegionalDualStack else shapeAccountRegional
                       else shape in
          match lookupFamily fs (Join prefixLabels ".") shape with
          | None => (None, body)
          | Some family =>
            if negb (account =? "")%string && negb (AccountLabel family) then (None, body)
            else (Some (awsEndpointWithAccount family host region false fips dualstack account), body)
          end
      end.

Definition classifyAmazonAWSEndpoint (host : string) (body : list string) (fs : families)
  : option AWSEndpoint :=
  match classifyGlobalAmazonEndpoint host body fs with
  | Some endpoint => Some endpoint
  | None =>
    match body with
    | account :: ((_ :: _) as rest) =>
      if validAccountLabel account then
        match classifyRegionalAmazonBody host rest fs account with
        | (Some endpoint, _) => Some endpoint
        | (None, rest') => (classifyRegionalAmazonBody host (account :: rest') fs "").1
        end
      else (classifyRegionalAmazonBody host body fs "").1
    | _ => (classifyRegionalAmazonBody host body fs "").1
    end
  end.

Definition classifyCommercialHost (host : string) (fs : families) : option AWSEndpoint :=
  let labels := Split host "." in
  if (List.length labels <? 3)%nat then None
  else
    let body := take (List.length labels - 2) labels in
    if bool_decide (lastTwo labels = Some ("amazonaws", "com"))
    then classifyAmazonAWSEndpoint host body fs
    else if bool_decide (lastTwo labels = Some ("api", "aws"))
    then classifyAPIAWSEndpoint host body fs
    else None.

(** ** The classifier *)

Record Classifier := mkClassifier {
  positive : option (LRU string AWSEndpoint);
  negative : option (LRU string unit);
  catalog : families;
}.

Definition newClassifier (index : option families) (capacity : Z) : result Classifier :=
  match index with
  | None => Err (ErrNew "endpoint identity index is unavailable")
  | Some fs =>
    if Z.of_nat (size fs) =? 0 then Err (ErrNew "endpoint identity index is unavailable")
    else
      let capacity := if capacity <=? 0 then 256 else capacity in
      positive ← NewLRU capacity;
      negative ← NewLRU capacity;
      Ok (mkClassifier (Some positive) (Some negative) fs)
  end.

Definition unsupported : error := ErrNew "unsupported AWS endpoint".

Section Classify.
Context `{U : UnicodeTables} (ToASCII : string -> result string).

(** [positive.Get], then [negative.Get]; a hit in either decides. *)
Definition consult (c : Classifier) (host : string) : option (result AWSEndpoint) * Classifier :=
  let (hit, positive') := Get (positive c) host in
  match hit with
  | Some endpoint => (Some (Ok endpoint), mkClassifier positive' (negative c) (catalog c))
  | None =>
    let (miss, negative') := Get (negative c) host in
    (match miss with Some _ => Some (Err unsupported) | None => None end,
     mkClassifier positive' negative' (catalog c))
  end.

(** The uncached work, and where its outcome is put. *)
Definition compute (c : Classifier) (host : string) : result AWSEndpoint * Classifier :=
  match classifyCommercialHost host (catalog c) with
  | None => (Err unsupported,
             mkClassifier (positive c) (Put (negative c) host tt) (catalog c))
  | Some endpoint =>
    (Ok endpoint, mkClassifier (Put (positive c) host endpoint) (negative c) (catalog c))
  end.

Definition Classify (c : option Classifier) (authority : string)
  : result AWSEndpoint * option Classifier :=
  match c with
  | None => (Err (ErrNew "endpoint classifier is unavailable"), None)
  | Some c =>
    match NormalizeEndpointHost ToASCII authority with
    | Err _ => (Err unsupported, Some c)
    | Ok (host, port) =>
      if negb (port =? 443) then (Err unsupported, Some c)
      else match consult c host with
      | (Some r, c) => (r, Some c)
      | (None, c) =>
        (* c.mu is held from here *)
        match consult c host with
        | (Some r, c) => (r, Some c)
        | (None, c) => let (r, c) := compute c host in (r, Some c)
        end
      end
    end
  end.
End Classify.

(** ** What a classified host looks like *)

Inductive style :=
| Regional | RegionalFIPS | RegionalFIPSLabel | RegionalDualStack | RegionalFIPSDualStack
| RegionalFIPSLabelDualStack | APIAWS | FIPSAPIAWS | GlobalPlain | GlobalFIPSLabel
| GlobalFIPSSuffix | RegionalGlobal | AccountRegional | AccountRegionalDualStack.

Definition bit (st : style) : Z :=
  match st with
  | Regional => shapeRegional | RegionalFIPS => shapeRegionalFIPS
  | RegionalFIPSLabel => shapeRegionalFIPSLabel | RegionalDualStack => shapeRegionalDualStack
  | RegionalFIPSDualStack => shapeRegionalFIPSDualStack
  | RegionalFIPSLabelDualStack => shapeRegionalFIPSLabelDualStack
  | APIAWS => shapeRegionalAPIAWS | FIPSAPIAWS => shapeRegionalFIPSAPIAWS
  | GlobalPlain => shapeGlobal | GlobalFIPSLabel => shapeGlobalFIPSLabel
  | GlobalFIPSSuffix => shapeGlobalFIPSSuffix | RegionalGlobal => shapeRegionalGlobal
  | AccountRegional => shapeAccountRegional
  | AccountRegionalDualStack => shapeAccountRegionalDualStack
  end.

Definition addFips (labels : list string) : list string :=
  removelast labels ++ [(lastLabel labels ++ "-fips")%string].

(** How a style dresses the labels of the catalog prefix. *)
Definition dressed (st : style) (prefix : list string) : list string :=
  match st with
  | Regional | APIAWS | GlobalPlain | RegionalGlobal | AccountRegional => prefix
  | RegionalFIPS | FIPSAPIAWS | GlobalFIPSSuffix => addFips prefix
  | RegionalFIPSLabel | GlobalFIPSLabel => "fips" :: prefix
  | RegionalDualStack | AccountRegionalDualStack => prefix ++ ["dualstack"]
  | RegionalFIPSDualStack => addFips prefix ++ ["dualstack"]
  | RegionalFIPSLabelDualStack => "fips" :: prefix ++ ["dualstack"]
  end.

Definition is_global (st : style) : bool :=
  match st with GlobalPlain | GlobalFIPSLabel | GlobalFIPSSuffix | RegionalGlobal => true | _ => false end.
(** The host carries a region label. *)
Definition has_region (st : style) : bool :=
  match st with GlobalPlain | GlobalFIPSLabel | GlobalFIPSSuffix => false | _ => true end.
Definition is_fips (st : style) : bool :=
  match st with
  | RegionalFIPS | RegionalFIPSLabel | RegionalFIPSDualStack | RegionalFIPSLabelDualStack
  | FIPSAPIAWS | GlobalFIPSLabel | GlobalFIPSSuffix => true
  | _ => false
  end.
Definition is_dualstack (st : style) : bool :=
  match st with
  | RegionalDualStack | RegionalFIPSDualStack | RegionalFIPSLabelDualStack | APIAWS | FIPSAPIAWS
  | AccountRegionalDualStack => true
  | _ => false
  end.
Definition has_account (st : style) : bool :=
  match st with AccountRegional | AccountRegionalDualStack => true | _ => false end.
Definition suffixLabels (st : style) : list string :=
  match st with APIAWS | FIPSAPIAWS => ["api"; "aws"] | _ => ["amazonaws"; "com"] end.

(** The labels of the host of a style, prefix, region and account. *)
Definition hostLabels (st : style) (prefix : list string) (region account : string) : list string :=
  (if has_account st then [account] else []) ++ dressed st prefix ++
  (if has_region st then [region] else []) ++ suffixLabels st.

(** The endpoint of such a host. *)
Definition endpointOf (st : style) (family : endpointFamily) (host region account : string)
  : AWSEndpoint :=
  awsEndpointWithAccount family host (if is_global st then "" else region) (is_global st)
    (is_fips st) (is_dualstack st) (if has_account st then account else "").

(** [ep] is the reading of [host], split into [labels], by some family. *)
Definition reads (fs : families) (host : string) (labels : list string) (ep : AWSEndpoint) : Prop :=
  exists st prefix family region account,
    fs !! Join prefix "." = Some family /\
    allows (Shapes family) (bit st) = true /\
    labels = hostLabels st prefix region account /\
    (has_region st = true -> validCommercialRegion region = true) /\
    (has_account st = true -> validAccountLabel account = true /\ AccountLabel family = true) /\
    ep = endpointOf st family host region account.

Section Sound.
Context (fs : families) (host : string).

Lemma lookupFamily_Some prefix shape family :
  lookupFamily fs prefix shape = Some family ->
  fs !! prefix = Some family /\ allows (Shapes family) shape = true.
Proof.
  unfold lookupFamily. destruct (fs !! prefix) as [f|]; [|done].
  destruct (negb (DNSPrefix f =? prefix)%string); [done|]. cbn [orb].
  destruct (allows (Shapes f) shape) eqn:E; [|done]. by intros [= ->].
Qed.

Lemma removelast_lastLabel labels :
  labels <> [] -> labels = removelast labels ++ [lastLabel labels].
Proof. apply app_removelast_last. Qed.

Lemma addFips_trim labels : endsFips labels = true -> addFips (trimLastFips labels) = labels.
Proof.
  unfold endsFips. intros [Hn Hs]%andb_true_iff. bool_hyps. case_bool_decide; [done|].
  unfold addFips, trimLastFips, lastLabel. rewrite removelast_last, List.last_last.
  rewrite <-TrimSuffix_app by done. symmetry. by apply removelast_lastLabel.
Qed.

Lemma startsFips_cons labels : startsFips labels = true -> labels = "fips" :: drop 1 labels.
Proof. destruct labels as [|l0 ls]; [done|]. by intros ->%eqb_true_str. Qed.

(** The switch undoes a dressing, and leaves the array as stored. *)
Lemma regionalLayout_spec L P fips dual shape stored :
  regionalLayout L = (P, fips, dual, shape, stored) ->
  exists st, has_region st = true /\ is_global st = false /\ has_account st = false /\
    suffixLabels st = ["amazonaws"; "com"] /\
    shape = bit st /\ fips = is_fips st /\ dual = is_dualstack st /\ L = dressed st P.
Proof.
  unfold regionalLayout. destruct (_ && (lastLabel L =? "dualstack")%string) eqn:Ed.
  - apply andb_true_iff in Ed as [Hl Hd%eqb_true_str].
    assert (L = removelast L ++ ["dualstack"]) as HL.
    { rewrite <-Hd. apply removelast_lastLabel. by destruct L. }
    destruct (startsFips (removelast L)) eqn:Es; [|destruct (endsFips (removelast L)) eqn:Ee];
      intros [= <- <- <- <- <-].
    + exists RegionalFIPSLabelDualStack. repeat split; try done. rewrite HL at 1.
      by rewrite (startsFips_cons _ Es) at 1.
    + exists RegionalFIPSDualStack. repeat split; try done. cbn [dressed].
      by rewrite addFips_trim.
    + by exists RegionalDualStack.
  - destruct (startsFips L) eqn:Es; [|destruct (endsFips L) eqn:Ee];
      intros [= <- <- <- <- <-].
    + exists RegionalFIPSLabel. repeat split; try done. by apply startsFips_cons.
    + exists RegionalFIPS. repeat split; try done. cbn [dressed]. by rewrite addFips_trim.
    + by exists Regional.
Qed.

Lemma dressed_account st P shape :
  has_region st = true -> is_global st = false -> is_fips st = false -> has_account st = false ->
  suffixLabels st = ["amazonaws"; "com"] ->
  shape = (if is_dualstack st then shapeAccountRegionalDualStack else shapeAccountRegional) ->
  exists st', has_region st' = true /\ is_global st' = false /\ is_fips st' = false /\
    has_account st' = true /\ suffixLabels st' = ["amazonaws"; "com"] /\
    shape = bit st' /\ is_dualstack st' = is_dualstack st /\ dressed st' P = dressed st P.
Proof.
  intros H1 H2 H3 H4 H5 ->. destruct st; try discriminate;
    [by exists AccountRegional|by exists AccountRegionalDualStack].
Qed.

Lemma classifyRegional_sound body account ep :
  (account = "" \/ validAccountLabel account = true) ->
  (classifyRegionalAmazonBody host body fs account).1 = Some ep ->
  reads fs host ((if (account =? "")%string then [] else [account]) ++ body ++ ["amazonaws"; "com"]) ep.
Proof.
  intros Hacc. unfold classifyRegionalAmazonBody.
  destruct (List.length body <? 2)%nat eqn:Hl; [done|].
  assert (body = removelast body ++ [lastLabel body]) as Hb.
  { apply removelast_lastLabel. by destruct body. }
  destruct (validCommercialRegion (lastLabel body)) eqn:Hr; [|done]. cbn [negb].
  destruct (match fs !! Join (removelast body) "." with Some f => if allows (Shapes f) shapeRegionalGlobal
    then Some f else None | None => None end) as [family|] eqn:Hsp.
  - destruct (account =? "")%string; [|done]. cbn [negb fst]. intros [= <-].
    destruct (fs !! Join (removelast body) ".") as [f|] eqn:Hf; [|done].
    destruct (allows (Shapes f) shapeRegionalGlobal) eqn:Ha; [|done]. injection Hsp as ->.
    exists RegionalGlobal, (removelast body), family, (lastLabel body), "".
    repeat split; try done. unfold hostLabels. cbn. by rewrite Hb at 1; rewrite <-app_assoc.
  - destruct (regionalLayout (removelast body)) as [[[[P fips] dual] shape] stored] eqn:Hlay.
    apply regionalLayout_spec in Hlay as (st & Hst1 & Hst2 & Hst3 & Hst4 & -> & -> & -> & HL).
    destruct (account =? "")%string eqn:Ha; cbn [negb andb].
    + destruct (lookupFamily fs (Join P ".") (bit st)) as [f|] eqn:Hf; [|done]. cbn [fst].
      intros [= <-]. apply lookupFamily_Some in Hf as [Hf Hs]. apply eqb_true_str in Ha as ->.
      exists st, P, f, (lastLabel body), "". unfold hostLabels, endpointOf.
      rewrite Hst1, Hst2, Hst3, Hst4. repeat split; try done.
      rewrite <-HL. cbn. by rewrite Hb at 1; rewrite <-app_assoc.
    + destruct (is_fips st) eqn:Hfips; [done|].
      destruct (lookupFamily fs (Join P ".") _) as [f|] eqn:Hf; [|done].
      destruct (AccountLabel f) eqn:Hal; [|done]. cbn [fst negb]. intros [= <-].
      destruct Hacc as [->|Hacc]; [done|].
      destruct (dressed_account st P _ Hst1 Hst2 Hfips Hst3 Hst4 eq_refl)
        as (st' & H1 & H2 & H3 & H4 & H5 & Hs & Hd & HP).
      rewrite Hs in Hf. apply lookupFamily_Some in Hf as [Hf Hs'].
      exists st', P, f, (lastLabel body), account. unfold hostLabels, endpointOf.
      rewrite H1, H2, H3, H4, H5, Hd, HP. repeat split; try done.
      rewrite <-HL. cbn. by rewrite Hb at 1; rewrite <-app_assoc.
Qed.

Lemma classifyGlobal_sound body ep :
  classifyGlobalAmazonEndpoint host body fs = Some ep ->
  reads fs host (body ++ ["amazonaws"; "com"]) ep.
Proof.
  unfold classifyGlobalAmazonEndpoint. destruct body as [|b0 bs]; [done|].
  set (body := b0 :: bs). destruct (startsFips body) eqn:Es; [|destruct (endsFips body) eqn:Ee].
  - destruct (List.length body =? 1)%nat; [done|].
    destruct (lookupFamily fs _ _) as [f|] eqn:Hf; [|done]. intros [= <-].
    apply lookupFamily_Some in Hf as [Hf Hs].
    exists GlobalFIPSLabel, (drop 1 body), f, "", "". repeat split; try done.
    unfold hostLabels. cbn [has_account has_region dressed suffixLabels app].
    by rewrite (startsFips_cons _ Es) at 1.
  - destruct (lookupFamily fs _ _) as [f|] eqn:Hf; [|done]. intros [= <-].
    apply lookupFamily_Some in Hf as [Hf Hs].
    exists GlobalFIPSSuffix, (trimLastFips body), f, "", "". repeat split; try done.
    unfold hostLabels. cbn [has_account has_region dressed suffixLabels app].
    by rewrite addFips_trim.
  - destruct (lookupFamily fs _ _) as [f|] eqn:Hf; [|done]. intros [= <-].
    apply lookupFamily_Some in Hf as [Hf Hs].
    by exists GlobalPlain, body, f, "", "".
Qed.

Lemma classifyAPI_sound body ep :
  classifyAPIAWSEndpoint host body fs = Some ep -> reads fs host (body ++ ["api"; "aws"]) ep.
Proof.
  unfold classifyAPIAWSEndpoint. destruct (List.length body <? 2)%nat eqn:Hl; [done|].
  assert (body = removelast body ++ [lastLabel body]) as Hb.
  { apply removelast_lastLabel. by destruct body. }
  destruct (validCommercialRegion (lastLabel body)) eqn:Hr; [|done]. cbn [negb].
  destruct (endsFips (removelast body)) eqn:Ee;
    (destruct (lookupFamily fs _ _) as [f|] eqn:Hf; [|done]); intros [= <-];
    apply lookupFamily_Some in Hf as [Hf Hs].
  - exists FIPSAPIAWS, (trimLastFips (removelast body)), f, (lastLabel body), "".
    repeat split; try done. unfold hostLabels. cbn [has_account has_region dressed suffixLabels app].
    rewrite addFips_trim by done. by rewrite Hb at 1; rewrite <-app_assoc.
  - exists APIAWS, (removelast body), f, (lastLabel body), "".
    repeat split; try done. unfold hostLabels. cbn [has_account has_region dressed suffixLabels app].
    by rewrite Hb at 1; rewrite <-app_assoc.
Qed.

(** ** Account labels *)

Lemma account_digits a : validAccountLabel a = true -> bytes_all is_digit a = true.
Proof.
  unfold validAccountLabel, validateEndpointAccountID. intros [Hl H]%andb_true_iff.
  destruct (String.eqb_spec a "") as [->|_]; [done|]. rewrite Hl in H. cbn [negb] in H.
  rewrite existsb_negb in H. destruct (forallb is_digit (runes a)) eqn:E; [|done].
  rewrite runes_all_ascii in E; [done|]. intros r Hr. unfold is_digit, between. zbool.
Qed.

Lemma account_not_fips a :
  validAccountLabel a = true -> a <> "fips" /\ HasSuffix a "-fips" = false.
Proof.
  intros H%account_digits. split; [by intros ->|].
  destruct (HasSuffix a "-fips") eqn:E; [|done]. apply HasSuffix_app in E as [t ->].
  rewrite bytes_all_app in H. by rewrite andb_false_r in H.
Qed.

(** No catalog prefix starts with an account label. *)
Definition no_account_prefix : Prop := forall a rest,
  validAccountLabel a = true -> fs !! Join (a :: rest) "." = None.

Lemma trimLastFips_head a l :
  validAccountLabel a = true -> endsFips (a :: l) = true ->
  exists l', trimLastFips (a :: l) = a :: l'.
Proof.
  intros Ha He. destruct l as [|b l].
  - apply account_not_fips in Ha as [_ Ha]. unfold endsFips, lastLabel in He. cbn [List.last] in He.
    by rewrite Ha, andb_false_r in He.
  - by eexists.
Qed.

Lemma regionalLayout_account a l P fips dual shape stored :
  validAccountLabel a = true ->
  regionalLayout (a :: l) = (P, fips, dual, shape, stored) -> exists P', P = a :: P'.
Proof.
  intros Ha. assert (forall l, startsFips (a :: l) = false) as Hs.
  { intros l'. apply eqb_false_str. by apply account_not_fips. }
  unfold regionalLayout. destruct (_ && (lastLabel (a :: l) =? "dualstack")%string) eqn:Ed.
  - destruct l as [|b l]; [done|].
    change (removelast (a :: b :: l)) with (a :: removelast (b :: l)). rewrite Hs.
    destruct (endsFips (a :: removelast (b :: l))) eqn:Ee; intros [= <- <- <- <- <-]; [|eauto].
    by apply trimLastFips_head.
  - rewrite Hs. destruct (endsFips (a :: l)) eqn:Ee; intros [= <- <- <- <- <-]; [|eauto].
    by apply trimLastFips_head.
Qed.

Lemma classifyRegional_account_prefix a l :
  no_account_prefix -> validAccountLabel a = true ->
  (classifyRegionalAmazonBody host (a :: l) fs "").1 = None.
Proof.
  intros Hn Ha. unfold classifyRegionalAmazonBody. destruct l as [|b l]; [done|].
  destruct (_ <? 2)%nat; [done|]. destruct (negb _); [done|].
  change (removelast (a :: b :: l)) with (a :: removelast (b :: l)).
  rewrite Hn by done.
  destruct (regionalLayout (a :: removelast (b :: l))) as [[[[P fips] dual] shape] stored] eqn:E.
  apply regionalLayout_account in E as [P' ->]; [|done]. cbn [String.eqb negb andb].
  unfold lookupFamily. by rewrite Hn.
Qed.

Lemma lastTwo_spec labels a b :
  lastTwo labels = Some (a, b) -> labels = take (List.length labels - 2) labels ++ [a; b].
Proof.
  unfold lastTwo. destruct (rev labels) as [|y [|x l]] eqn:E; [done..|]. intros [= -> ->].
  rewrite <-(rev_involutive labels), E. cbn [rev]. rewrite <-app_assoc. cbn [app].
  rewrite length_app. cbn [List.length]. replace (_ + 2 - 2)%nat with (List.length (rev l)) by lia.
  by rewrite take_app_length.
Qed.

Lemma classify_reads ep :
  no_account_prefix -> classifyCommercialHost host fs = Some ep ->
  reads fs host (Split host ".") ep.
Proof.
  intros Hn. unfold classifyCommercialHost. destruct (_ <? 3)%nat; [done|].
  case_bool_decide as H1; [|case_bool_decide as H2; [|done]].
  - intros Hc0. rewrite (lastTwo_spec _ _ _ H1). revert Hc0.
    set (body := take (List.length (Split host ".") - 2) (Split host ".")).
    unfold classifyAmazonAWSEndpoint.
    destruct (classifyGlobalAmazonEndpoint host body fs) as [e|] eqn:Hg.
    { intros [= ->]. by apply classifyGlobal_sound. }
    assert ((classifyRegionalAmazonBody host body fs "").1 = Some ep ->
      reads fs host (body ++ ["amazonaws"; "com"]) ep) as Hplain.
    { intros H. exact (classifyRegional_sound body "" ep (or_introl eq_refl) H). }
    destruct body as [|a [|b rest]]; try done. destruct (validAccountLabel a) eqn:Ha; [|done].
    pose proof (classifyRegional_sound (b :: rest) a ep (or_intror Ha)) as Hs.
    destruct (classifyRegionalAmazonBody host (b :: rest) fs a) as [[e|] rest'] eqn:Hc.
    + intros [= ->]. specialize (Hs eq_refl).
      destruct (String.eqb_spec a "") as [->|_]; [done|]. exact Hs.
    + by rewrite classifyRegional_account_prefix.
  - intros Hc0. rewrite (lastTwo_spec _ _ _ H2). by apply classifyAPI_sound.
Qed.

(** C20. Whatever host is classified, its labels are exactly a catalog
    prefix dressed in one of the reviewed shapes the prefix allows, with a
    supported region and, for account-qualified shapes only, an account label,
    and the endpoint returned is the reading of that host (scope, FIPS,
    dual-stack, region, signing identity, account), provided no catalog prefix
    starts with a twelve-digit label. *)
Theorem classifyCommercialHost_sound (ep : AWSEndpoint) :
  no_account_prefix -> classifyCommercialHost host fs = Some ep ->
  exists st prefix family region account,
    fs !! Join prefix "." = Some family /\
    allows (Shapes family) (bit st) = true /\
    host = Join (hostLabels st prefix region account) "." /\
    (has_region st = true -> validCommercialRegion region = true) /\
    (has_account st = true -> validAccountLabel account = true /\ AccountLabel family = true) /\
    ep = endpointOf st family host region account.
Proof.
  intros Hn Hc. destruct (classify_reads ep Hn Hc)
    as (st & P & f & region & account & Hf & Ha & Hl & Hr & Hacc & Hep).
  exists st, P, f, region, account. split_and!; try done.
  rewrite <-Hl. symmetry. apply (Join_split ".").
Qed.
End Sound.

(** ** Every classification is a valid endpoint *)

Lemma checkLabels_None ok shape syntax labels :
  checkLabels ok shape syntax labels = None <->
  Forall (fun l => badLabelShape l = false /\ forallb ok (runes l) = true) labels.
Proof.
  induction labels as [|l labels IH]; cbn [checkLabels]; [by split|].
  rewrite Forall_cons, <-IH, existsb_negb.
  destruct (badLabelShape l), (forallb ok (runes l)); naive_solver.
Qed.

Lemma lowerDNS_bytes s : forallb lowerDNSRune (runes s) = bytes_all lowerDNSRune s.
Proof.
  apply runes_all_ascii. intros r Hr. unfold lowerDNSRune, is_lower, is_digit, between. zbool.
Qed.

(** A dotted name of valid lower-case labels. *)
Definition dnsName (s : string) : Prop :=
  Forall (fun l => badLabelShape l = false /\ forallb lowerDNSRune (runes l) = true) (Split s ".").

Lemma dnsName_bytes s :
  dnsName s -> bytes_all (fun c => lowerDNSRune c || (c =? ord ".")) s = true.
Proof.
  unfold dnsName, Split. intros H. rewrite <-split_byte_bytes. apply forallb_forall.
  intros l Hl%list_elem_of_In. rewrite <-lowerDNS_bytes. by apply (proj1 (Forall_forall _ _) H).
Qed.

Lemma dnsName_no_trailing_dot s : dnsName s -> HasSuffix s "." = false.
Proof.
  intros H. destruct (HasSuffix s ".") eqn:E; [|done]. apply HasSuffix_app in E as [t ->].
  unfold dnsName, Split in H. change (t ++ ".")%string with (t ++ String "." "")%string in H.
  rewrite split_byte_app in H. apply Forall_app in H as [_ H]. apply Forall_cons in H as [[H _] _].
  done.
Qed.

Lemma dnsName_nonempty s : dnsName s -> s <> "".
Proof. intros H ->. apply Forall_cons in H as [[H _] _]. done. Qed.

Section Valid.
Context `{U : UnicodeTables}.

Lemma dnsName_lower s : dnsName s -> ToLower s = s.
Proof.
  intros H%dnsName_bytes. unfold ToLower.
  assert (is_ascii s = true) as ->.
  { revert H. apply bytes_all_weaken. intros r _ H. unfold lowerDNSRune in H. zbool. }
  assert (forall f, (forall r, lowerDNSRune r || (r =? ord ".") = true -> f r = r) -> map_bytes f s = s)
    as Hm; [|apply Hm; intros r Hr; unfold ascii_lower; unfold lowerDNSRune in Hr; case_if; zbool].
  intros f Hf. induction s as [|c s IH]; [done|]. cbn [bytes_all] in H.
  apply andb_true_iff in H as [Hc H]. cbn [map_bytes]. by rewrite Hf, chr_ord, IH.
Qed.

(** What the signing identity rests on: the family was compiled. *)
Definition compiled_family (prefix : string) (family : endpointFamily) : Prop :=
  exists signing, family = familyOf prefix signing /\
    validateEndpointPrefix prefix = None /\ validateSigningName signing = None.

Lemma compileIdentities_spec services ids ids' :
  (forall p s, ids !! p = Some s -> validateEndpointPrefix p = None /\ validateSigningName s = None) ->
  compileIdentities services ids = Ok ids' ->
  forall p s, ids' !! p = Some s -> validateEndpointPrefix p = None /\ validateSigningName s = None.
Proof.
  revert ids. induction services as [|service services IH]; intros ids Hids; cbn [compileIdentities].
  { by intros [= <-]. }
  destruct (validateEndpointPrefix (EndpointPrefix service)) eqn:Hp; [done|].
  destruct (validateSigningName _) eqn:Hs; [done|].
  set (signing := if (SigningName service =? "")%string then EndpointPrefix service
                  else SigningName service) in *.
  assert (compileIdentities services (<[EndpointPrefix service := signing]> ids) = Ok ids' ->
    forall p s, ids' !! p = Some s -> validateEndpointPrefix p = None /\ validateSigningName s = None)
    as Hgo.
  { apply IH. intros p s [[<- <-]|[_ ?]]%lookup_insert_Some; auto. }
  destruct (ids !! EndpointPrefix service); [case_match; [done|]|]; exact Hgo.
Qed.

Lemma compiled_families services (fs : families) :
  compileEndpointIdentityViews services = Ok fs ->
  forall p f, fs !! p = Some f -> compiled_family p f.
Proof.
  unfold compileEndpointIdentityViews. destruct services as [|s0 services]; [done|].
  destruct (compileIdentities (s0 :: services) ∅) as [ids|] eqn:E; [|done]. intros [= <-] p f Hf.
  rewrite map_lookup_imap in Hf. destruct (ids !! p) as [signing|] eqn:Hi; [|done].
  injection Hf as <-. exists signing. split; [done|].
  eapply (compileIdentities_spec _ _ _ _ E); [done..]. Unshelve. by intros ? ? ?%lookup_empty_Some.
Qed.

(** A family that allows a global shape signs in us-east-1. *)
Lemma global_signing_region prefix signing st :
  is_global st = true -> allows (Shapes (familyOf prefix signing)) (bit st) = true ->
  fam_SigningRegion (familyOf prefix signing) = "us-east-1".
Proof.
  intros Hg. unfold familyOf, endpointOverrides. cbn [List.find fst].
  repeat (match goal with |- context [(?a =? prefix)%string] => destruct (a =? prefix)%string end;
    [cbn [Shapes fam_SigningRegion shapes signingRegion]; destruct st; done|]).
  destruct st; done.
Qed.

Lemma portLoop_range value rs v :
  0 <= value <= 65535 -> portLoop value rs = Ok v -> 0 <= v <= 65535.
Proof.
  revert value. induction rs as [|r rs IH]; intros value Hv; cbn [portLoop]; [intros [= <-]; done|].
  destruct (is_digit r) eqn:Hd; [|done]. cbn [negb].
  destruct (Z.ltb_spec 65535 (value * 10 + (r - ord "0"))); [done|]. apply IH.
  split; [|done]. zbool.
Qed.

Section WithIDNA.
Context (ToASCII : string -> result string).
(** [idna.ToASCII] returns ASCII text. *)
Hypothesis ToASCII_ascii : forall s t, ToASCII s = Ok t -> is_ascii t = true.

Lemma splitAuthority_port authority host port :
  splitAuthority authority = Ok (host, port) -> 1 <= port <= 65535.
Proof.
  unfold splitAuthority. destruct (SplitN authority ":" 2) as [|h [|t [|]]]; try done.
  do 2 (case_match; [done|]). intros (v & Hv & Hret)%result_bind_ok.
  apply portLoop_range in Hv; [|done]. destruct (Z.eqb_spec v 0); [done|].
  injection Hret as _ <-. lia.
Qed.

Lemma ToLower_length s : is_ascii s = true -> slen (ToLower s) = slen s.
Proof. intros H. unfold ToLower. rewrite H. unfold slen. by rewrite map_bytes_length. Qed.

Lemma Normalize_spec authority host port :
  NormalizeEndpointHost ToASCII authority = Ok (host, port) ->
  dnsName host /\ slen host <= 253 /\ ParseIP host = false /\ 1 <= port <= 65535.
Proof.
  unfold NormalizeEndpointHost. do 2 (case_match; [done|]).
  intros ((h & p) & Hp & Hrest)%result_bind_ok. cbn [fst snd] in Hrest.
  destruct (_ || _ || _) in Hrest; [done|].
  destruct (ToASCII (TrimSuffix h ".")) as [ascii|] eqn:Ha; [|done].
  destruct (_ || _) eqn:Hl in Hrest; [done|]. apply orb_false_iff in Hl as [_ Hl].
  destruct (ParseIP (ToLower ascii)) eqn:Hip; [done|].
  destruct (checkLabels _ _ _ _) eqn:Hc; [done|]. injection Hrest as <- <-.
  apply checkLabels_None in Hc. split_and!; try done.
  - rewrite ToLower_length by eauto. lia.
  - destruct (count_byte authority (ord ":") =? 1).
    + apply splitAuthority_port in Hp. lia.
    + destruct (bytes_any (Z.eqb (ord ":")) authority); [discriminate Hp|]. injection Hp as _ <-. lia.
  - destruct (count_byte authority (ord ":") =? 1).
    + apply splitAuthority_port in Hp. lia.
    + destruct (bytes_any (Z.eqb (ord ":")) authority); [discriminate Hp|]. injection Hp as _ <-. lia.
Qed.

Lemma bytes_any_excluded p q s :
  (forall c, 0 <= c < 256 -> p c = true -> q c = false) -> bytes_all p s = true ->
  bytes_any q s = false.
Proof.
  intros Hpq. induction s as [|a s IH]; cbn [bytes_all bytes_any]; [done|].
  intros [Ha Hs]%andb_true_iff. by rewrite Hpq, IH by (done || apply ord_range).
Qed.

Lemma dnsName_not_blank s : dnsName s -> blank s = false.
Proof.
  intros H. pose proof (dnsName_nonempty s H) as Hne. apply dnsName_bytes in H.
  unfold blank. destruct s as [|c s]; [done|]. cbn [bytes_all] in H.
  apply andb_true_iff in H as [Hc _]. unfold runes. rewrite decode_ascii_cons.
  - cbn [fmap list_fmap forallb fst].
    assert (IsSpace (ord c) = false) as ->; [|done].
    unfold IsSpace, lowerDNSRune in *. zbool.
  - unfold lowerDNSRune in Hc. zbool.
Qed.

Lemma supported_regions_ok region :
  validCommercialRegion region = true ->
  validSigningRegion region = true /\ blank region = false /\ (region =? "")%string = false.
Proof.
  unfold validCommercialRegion, supportedRegion. intros [_ H%mem_str_In]%andb_true_iff.
  assert (forallb (fun r => validSigningRegion r && negb (blank r) && negb (r =? "")%string)
    supportedRegions = true) as Hall by (vm_compute; reflexivity).
  rewrite forallb_forall in Hall. apply list_elem_of_In in H. apply Hall in H.
  by bool_hyps.
Qed.

Lemma hostByte_plain c :
  lowerDNSRune c || (c =? ord ".") = true ->
  in_set " :/" c || (c =? 9) || (c =? 13) || (c =? 10) = false.
Proof. intros Hok. unfold lowerDNSRune in Hok. unfold in_set. cbn [bytes_any]. zbool. Qed.

Lemma prefix_service prefix :
  validateEndpointPrefix prefix = None -> validateEndpointService prefix = None.
Proof.
  unfold validateEndpointPrefix, validateEndpointService.
  rewrite !reject_None, !checkLabels_None, !orb_false_iff. tauto.
Qed.

Lemma signing_valid name : validateSigningName name = None -> validSigningIdentity name = true.
Proof. unfold validateSigningName. by destruct (validSigningIdentity name). Qed.

Lemma signing_nonempty name : validSigningIdentity name = true -> (name =? "")%string = false.
Proof. by destruct name. Qed.

Lemma endpointOf_valid (fs : families) st prefix family region account host port authority :
  (forall p f, fs !! p = Some f -> compiled_family p f) ->
  fs !! prefix = Some family -> allows (Shapes family) (bit st) = true ->
  (has_region st = true -> validCommercialRegion region = true) ->
  (has_account st = true -> validAccountLabel account = true) ->
  NormalizeEndpointHost ToASCII authority = Ok (host, port) ->
  Endpoint_Validate (endpointOf st family host region account) = None.
Proof.
  intros Hfs Hf Ha Hr Hacc Hn. apply Normalize_spec in Hn as (Hd & Hlen & _).
  destruct (Hfs _ _ Hf) as (signing & -> & Hp & Hs).
  unfold Endpoint_Validate, endpointOf, awsEndpointWithAccount, IsGlobal.
  cbn [ep_Partition ep_Host ep_Service ep_SigningService ep_SigningRegion ep_Region ep_Global
       ep_Scope ep_FIPS ep_DualStack ep_AccountID].
  assert (fam_Service (familyOf prefix signing) = prefix /\
          fam_SigningService (familyOf prefix signing) = signing) as [-> ->].
  { unfold familyOf. by destruct (List.find _ _) as [[]|]. }
  change (blank "aws") with false. rewrite dnsName_not_blank, dnsName_lower, dnsName_no_trailing_dot
    by done. rewrite String.eqb_refl.
  rewrite (bytes_any_excluded _ _ _ (fun c Hc => hostByte_plain c) (dnsName_bytes _ Hd)).
  rewrite (proj2 (checkLabels_None _ _ _ _) Hd), (prefix_service _ Hp).
  pose proof (signing_valid _ Hs) as Hsv. rewrite (signing_nonempty _ Hsv), Hsv.
  assert (253 <? slen host = false) as -> by lia. cbn [orb andb negb].
  destruct (is_global st) eqn:Hg.
  - rewrite (global_signing_region _ _ _ Hg Ha). destruct st; try discriminate Hg; reflexivity.
  - assert (has_region st = true) as Hreg by (by destruct st).
    destruct (supported_regions_ok region (Hr Hreg)) as (Hv & Hb & He).
    cbn [negb]. rewrite He, Hv, Hb, String.eqb_refl. cbn [orb andb negb scopeFor].
    change (ScopeRegional =? "")%string with false.
    change (ScopeRegional =? ScopeRegional)%string with true.
    change (ScopeRegional =? ScopeGlobal)%string with false. cbn [orb andb negb].
    destruct (has_account st); [|by rewrite String.eqb_refl].
    specialize (Hacc eq_refl). unfold validAccountLabel in Hacc.
    apply andb_true_iff in Hacc as [_ Hacc].
    destruct (validateEndpointAccountID account); [done|]. by rewrite String.eqb_refl.
Qed.

Lemma amazonPair_app l : amazonPair (l ++ ["amazonaws"; "com"]) = true.
Proof.
  induction l as [|a l IH]; [done|]. destruct l as [|b l];
    [cbn; by destruct (a =? "amazonaws")%string|].
  cbn [app amazonPair] in *. by rewrite IH, orb_true_r.
Qed.

Lemma lastTwo_app l a b : lastTwo (l ++ [a; b]) = Some (a, b).
Proof. unfold lastTwo. by rewrite rev_app_distr. Qed.

(** With an index compiled from service identities, the endpoint of
    every classified authority passes [AWSEndpoint.Validate], carries the
    normalised host (a lower-case DNS name, no IP literal) and the authority
    is also one that [LooksLikeAWSHost] keeps from being relayed. *)
Theorem classified_endpoint_valid (services : list ServiceIdentity) (fs : families)
    (authority host : string) (port : Z) (ep : AWSEndpoint) :
  compileEndpointIdentityViews services = Ok fs -> no_account_prefix fs ->
  NormalizeEndpointHost ToASCII authority = Ok (host, port) ->
  classifyCommercialHost host fs = Some ep ->
  Endpoint_Validate ep = None /\ ep_Host ep = host /\ dnsName host /\ ParseIP host = false /\
  LooksLikeAWSHost ToASCII authority = true.
Proof.
  intros Hc Hn Hnorm Hcl. pose proof (Normalize_spec _ _ _ Hnorm) as (Hd & _ & Hip & _).
  pose proof (classify_reads _ _ _ Hn Hcl) as (st & P & f & region & account & Hf & Ha & Hl & Hr & Hacc & ->).
  split_and!; try done.
  - eapply (endpointOf_valid fs); try done; [by apply (compiled_families services)|].
    intros H. by apply Hacc.
  - unfold LooksLikeAWSHost. rewrite Hnorm, Hl. unfold hostLabels. rewrite !app_assoc.
    destruct st; cbn [suffixLabels]; rewrite ?amazonPair_app; try done;
      case_if; try done; by rewrite lastTwo_app.
Qed.
End WithIDNA.
End Valid.

(** ** The caches are transparent *)

Section Transparent.
Context `{U : UnicodeTables} (ToASCII : string -> result string).

(** What a classifier without caches would answer. *)
Definition classification (fs : families) (authority : string) : result AWSEndpoint :=
  match NormalizeEndpointHost ToASCII authority with
  | Err _ => Err unsupported
  | Ok (host, port) =>
    if negb (port =? 443) then Err unsupported
    else match classifyCommercialHost host fs with
         | Some ep => Ok ep
         | None => Err unsupported
         end
  end.

Definition verdict (fs : families) (host : string) : result AWSEndpoint :=
  match classifyCommercialHost host fs with Some ep => Ok ep | None => Err unsupported end.

(** Both caches hold only what classification says. *)
Record caches_ok (c : Classifier) : Prop := {
  ok_pos_inv : cache_inv (positive c);
  ok_neg_inv : cache_inv (negative c);
  ok_pos : forall h ep, (cache_get (positive c) h).1 = Some ep ->
           classifyCommercialHost h (catalog c) = Some ep;
  ok_neg : forall h u, (cache_get (negative c) h).1 = Some u ->
           classifyCommercialHost h (catalog c) = None;
}.

Lemma newClassifier_ok index capacity c :
  newClassifier index capacity = Ok c -> caches_ok c /\ index = Some (catalog c).
Proof.
  unfold newClassifier. destruct index as [fs|]; [|done]. destruct (_ =? 0); [done|].
  intros (pos & Hp & (neg & Hn & [= <-])%result_bind_ok)%result_bind_ok.
  apply NewLRU_inv in Hp as [Ip Gp], Hn as [In Gn]. split; [|done].
  split; cbn [positive negative catalog]; try done.
  - intros h ep E. change ((Get (Some pos) h).1 = Some ep) in E. by rewrite Gp in E.
  - intros h u E. change ((Get (Some neg) h).1 = Some u) in E. by rewrite Gn in E.
Qed.

(** The four ways a classifier's caches are touched. *)
Definition getPositive (c : Classifier) (host : string) : Classifier :=
  mkClassifier (cache_get (positive c) host).2 (negative c) (catalog c).
Definition getNegative (c : Classifier) (host : string) : Classifier :=
  mkClassifier (positive c) (cache_get (negative c) host).2 (catalog c).

Lemma getPositive_ok c host : caches_ok c -> caches_ok (getPositive c host).
Proof.
  intros [Ip In Hp Hn]. split; cbn [positive negative catalog getPositive]; try done.
  - by apply cache_get_inv.
  - intros h ep. rewrite cache_get_get by done. apply Hp.
Qed.

Lemma getNegative_ok c host : caches_ok c -> caches_ok (getNegative c host).
Proof.
  intros [Ip In Hp Hn]. split; cbn [positive negative catalog getNegative]; try done.
  - by apply cache_get_inv.
  - intros h u. rewrite cache_get_get by done. apply Hn.
Qed.

Lemma compute_ok c host :
  caches_ok c -> caches_ok (compute c host).2 /\ (compute c host).1 = verdict (catalog c) host /\
  catalog (compute c host).2 = catalog c.
Proof.
  intros [Ip In Hp Hn]. unfold compute, verdict.
  destruct (classifyCommercialHost host (catalog c)) as [ep|] eqn:E; (split; [|done]);
    split; cbn [positive negative catalog snd]; try done.
  - exact (cache_put_inv (positive c) host ep Ip).
  - intros h e Hg. destruct (cache_get_put (positive c) host ep h e Ip Hg) as [[-> ->]|Hg']; auto.
  - exact (cache_put_inv (negative c) host tt In).
  - intros h u Hg. destruct (cache_get_put (negative c) host tt h u In Hg) as [[-> _]|Hg']; eauto.
Qed.

Lemma consult_ok c host r c' :
  caches_ok c -> consult c host = (r, c') ->
  caches_ok c' /\ catalog c' = catalog c /\
  (forall v, r = Some v -> v = verdict (catalog c) host).
Proof.
  intros Hok. unfold consult.
  destruct (Get (positive c) host) as [hit pos] eqn:Ep.
  assert (pos = (cache_get (positive c) host).2) as -> by (by cbn; rewrite Ep).
  destruct hit as [ep|].
  - intros [= <- <-]. split; [by apply (getPositive_ok c host)|]. split; [done|].
    intros v [= <-]. unfold verdict. rewrite (ok_pos c Hok host ep); [done|].
    cbn. by rewrite Ep.
  - destruct (Get (negative c) host) as [miss neg] eqn:En.
    assert (neg = (cache_get (negative c) host).2) as -> by (by cbn; rewrite En).
    intros [= <- <-]. split; [by apply (getNegative_ok (getPositive c host)), getPositive_ok|].
    split; [done|]. destruct miss as [u|]; [|done]. intros v [= <-].
    unfold verdict. rewrite (ok_neg c Hok host u); [done|]. cbn. by rewrite En.
Qed.

Lemma Classify_ok c authority :
  caches_ok c -> exists c', Classify ToASCII (Some c) authority =
    (classification (catalog c) authority, Some c') /\ caches_ok c' /\ catalog c' = catalog c.
Proof.
  intros Hok. unfold Classify, classification.
  destruct (NormalizeEndpointHost ToASCII authority) as [[host port]|err]; [|by exists c].
  destruct (negb (port =? 443)); [by exists c|].
  destruct (consult c host) as [r1 c1] eqn:E1.
  destruct (consult_ok _ _ _ _ Hok E1) as (Hok1 & Hc1 & Hv1).
  destruct r1 as [v|]; [exists c1; by rewrite (Hv1 v eq_refl)|].
  destruct (consult c1 host) as [r2 c2] eqn:E2.
  destruct (consult_ok _ _ _ _ Hok1 E2) as (Hok2 & Hc2 & Hv2).
  destruct r2 as [v|].
  { exists c2. rewrite (Hv2 v eq_refl), Hc1. split; [done|]. split; [done|congruence]. }
  destruct (compute_ok c2 host Hok2) as (Hok3 & Hr & Hc3).
  destruct (compute c2 host) as [r c3]. cbn [fst snd] in *. exists c3.
  rewrite Hr, Hc2, Hc1. split; [done|]. split; [done|congruence].
Qed.

(** A history of calls. *)
Fixpoint classifyAll (c : option Classifier) (authorities : list string)
  : list (result AWSEndpoint) * option Classifier :=
  match authorities with
  | [] => ([], c)
  | a :: authorities =>
    let (r, c) := Classify ToASCII c a in
    let (rs, c) := classifyAll c authorities in (r :: rs, c)
  end.

(** The caches are transparent: whatever was classified before, and
    whatever the capacity evicted, a new classifier answers every authority
    of any history exactly as an uncached classification would. *)
Theorem Classify_transparent (index : option families) (capacity : Z) (c : Classifier)
    (authorities : list string) :
  newClassifier index capacity = Ok c ->
  (classifyAll (Some c) authorities).1 = classification (catalog c) <$> authorities.
Proof.
  intros [Hok _]%newClassifier_ok. revert c Hok.
  induction authorities as [|a authorities IH]; intros c Hok; [done|]. cbn [classifyAll].
  destruct (Classify_ok c a Hok) as (c' & -> & Hok' & Hcat). specialize (IH c' Hok').
  destruct (classifyAll (Some c') authorities) as [rs c'']. cbn [fst] in *.
  by rewrite fmap_cons, IH, Hcat.
Qed.
End Transparent.

(** ** Concurrent callers

    Each cache method is atomic (the LRU's own mutex); [c.mu] serialises the
    second look and the computation.  A configuration is the shared classifier,
    the holder of [c.mu] and the program counter of every goroutine calling
    [Classify]. *)

Inductive pc :=
| PStart
| PNegative (host : string)      (** missed [positive], before [negative.Get] *)
| PLock (host : string)          (** missed both, before [c.mu.Lock] *)
| PPositive2 (host : string)     (** holds [c.mu] from here *)
| PNegative2 (host : string)
| PCompute (host : string)
| PDone (r : result AWSEndpoint).

Definition holds_mu (p : pc) : bool :=
  match p with PPositive2 _ | PNegative2 _ | PCompute _ => true | _ => false end.

Definition is_running (p : pc) : bool := match p with PDone _ => false | _ => true end.

Record config := mkConfig {
  shared : Classifier;
  mu : option nat;
  threads : list (string * pc);
}.

Section Concurrent.
Context `{U : UnicodeTables} (ToASCII : string -> result string).

(** One atomic step of goroutine [t]: the new shared state, lock and counter;
    [None] when it is blocked or done. *)
Definition tstep (t : nat) (c : Classifier) (mu : option nat) (authority : string) (p : pc)
  : option (Classifier * option nat * pc) :=
  match p with
  | PStart =>
    match NormalizeEndpointHost ToASCII authority with
    | Err _ => Some (c, mu, PDone (Err unsupported))
    | Ok (host, port) =>
      if negb (port =? 443) then Some (c, mu, PDone (Err unsupported))
      else Some (getPositive c host, mu,
                 match (Get (positive c) host).1 with
                 | Some ep => PDone (Ok ep) | None => PNegative host end)
    end
  | PNegative host =>
    Some (getNegative c host, mu,
          match (Get (negative c) host).1 with
          | Some _ => PDone (Err unsupported) | None => PLock host end)
  | PLock host =>
    match mu with None => Some (c, Some t, PPositive2 host) | Some _ => None end
  | PPositive2 host =>
    match (Get (positive c) host).1 with
    | Some ep => Some (getPositive c host, None, PDone (Ok ep))
    | None => Some (getPositive c host, mu, PNegative2 host)
    end
  | PNegative2 host =>
    match (Get (negative c) host).1 with
    | Some _ => Some (getNegative c host, None, PDone (Err unsupported))
    | None => Some (getNegative c host, mu, PCompute host)
    end
  | PCompute host => let (r, c) := compute c host in Some (c, None, PDone r)
  | PDone _ => None
  end.

Inductive cstep : config -> config -> Prop :=
| cstep_thread t σ authority p c' mu' p' :
    threads σ !! t = Some (authority, p) ->
    tstep t (shared σ) (mu σ) authority p = Some (c', mu', p') ->
    cstep σ (mkConfig c' mu' (<[t := (authority, p')]> (threads σ))).

Definition reachable : config -> config -> Prop := rtc cstep.

Definition initial (c : Classifier) (authorities : list string) : config :=
  mkConfig c None ((fun a => (a, PStart)) <$> authorities).

(** What a counter knows: the host is the authority's, and a result is right. *)
Definition pc_ok (fs : families) (authority : string) (p : pc) : Prop :=
  match p with
  | PStart => True
  | PDone r => r = classification ToASCII fs authority
  | PNegative h | PLock h | PPositive2 h | PNegative2 h | PCompute h =>
    NormalizeEndpointHost ToASCII authority = Ok (h, 443)
  end.

Record cinv (fs : families) (σ : config) : Prop := {
  ci_caches : caches_ok (shared σ);
  ci_catalog : catalog (shared σ) = fs;
  ci_threads : forall t a p, threads σ !! t = Some (a, p) -> pc_ok fs a p;
  ci_mutex : forall t a p, threads σ !! t = Some (a, p) -> holds_mu p = true <-> mu σ = Some t;
  ci_holder : forall t, mu σ = Some t -> is_Some (threads σ !! t);
}.

Lemma classification_host fs authority host :
  NormalizeEndpointHost ToASCII authority = Ok (host, 443) ->
  classification ToASCII fs authority = verdict fs host.
Proof. intros H. unfold classification. by rewrite H. Qed.

Lemma released (t : nat) (m : option nat) :
  true = true <-> m = Some t -> forall t', t' <> t -> None = Some t' <-> m = Some t'.
Proof. intros [-> _] t' Hne; [|done]. split; [done|]. intros [= ->]. by destruct Hne. Qed.

(** One goroutine's step, seen alone. *)
Lemma tstep_ok t c m a p c' m' p' :
  caches_ok c -> pc_ok (catalog c) a p -> (holds_mu p = true <-> m = Some t) ->
  tstep t c m a p = Some (c', m', p') ->
  caches_ok c' /\ catalog c' = catalog c /\ pc_ok (catalog c) a p' /\
  (holds_mu p' = true <-> m' = Some t) /\ (forall t', t' <> t -> m' = Some t' <-> m = Some t').
Proof.
  intros Hok Hpc Hmu. destruct p as [|host|host|host|host|host|r]; cbn [tstep holds_mu pc_ok] in *.
  - destruct (NormalizeEndpointHost ToASCII a) as [[host port]|] eqn:En.
    + destruct (Z.eqb_spec port 443) as [->|Hne]; cbn [negb].
      * intros [= <- <- <-]. split; [by apply getPositive_ok|]. split; [done|].
        destruct (Get (positive c) host).1 as [ep|] eqn:Eg; (split; [|done]); cbn [pc_ok]; [|done].
        rewrite (classification_host _ _ host) by done. unfold verdict.
        by rewrite (ok_pos c Hok host ep).
      * intros [= <- <- <-]. split_and!; try done; cbn [pc_ok].
        unfold classification. rewrite En. by destruct (Z.eqb_spec port 443).
    + intros [= <- <- <-]. split_and!; try done; cbn [pc_ok].
      unfold classification. by rewrite En.
  - intros [= <- <- <-]. split; [by apply getNegative_ok|]. split; [done|].
    destruct (Get (negative c) host).1 as [u|] eqn:Eg; (split; [|done]); cbn [pc_ok]; [|done].
    rewrite (classification_host _ _ host) by done. unfold verdict.
    by rewrite (ok_neg c Hok host u).
  - destruct m as [t0|]; [done|]. intros [= <- <- <-]. split_and!; try done.
    intros t' Hne. split; [|done]. intros [= ->]. by destruct Hne.
  - destruct (Get (positive c) host).1 as [ep|] eqn:Eg; intros [= <- <- <-];
      (split; [by apply getPositive_ok|]); (split; [done|]); cbn [pc_ok holds_mu].
    + rewrite (classification_host _ _ host) by done. unfold verdict.
      rewrite (ok_pos c Hok host ep) by done. split_and!; [done..|]. by apply released.
    + by split_and!.
  - destruct (Get (negative c) host).1 as [u|] eqn:Eg; intros [= <- <- <-];
      (split; [by apply getNegative_ok|]); (split; [done|]); cbn [pc_ok holds_mu].
    + rewrite (classification_host _ _ host) by done. unfold verdict.
      rewrite (ok_neg c Hok host u) by done. split_and!; [done..|]. by apply released.
    + by split_and!.
  - destruct (compute_ok c host Hok) as (Hok' & Hr & Hc). destruct (compute c host) as [r c1].
    intros [= <- <- <-]. cbn [fst snd] in *. split; [done|]. split; [done|]. cbn [pc_ok holds_mu].
    rewrite (classification_host _ _ host) by done. rewrite Hr. split_and!; [done..|]. by apply released.
  - done.
Qed.

Lemma cinv_step fs σ σ' : cinv fs σ -> cstep σ σ' -> cinv fs σ'.
Proof.
  intros [Hok Hcat Hth Hmx Hh] Hs. destruct Hs as [t σ a p c' m' p' Ht Hstep].
  destruct (tstep_ok t (shared σ) (mu σ) a p c' m' p') as (Hok' & Hc' & Hp' & Hm' & Hother);
    [done|rewrite Hcat; by eapply Hth|by eapply Hmx|done|].
  split; cbn [shared mu threads]; [done|congruence|..].
  - intros t' a' q. rewrite list_lookup_insert_Some.
    intros [(<- & [= <- <-] & _)|[_ ?]]; [by rewrite <-Hcat|by eapply Hth].
  - intros t' a' q. rewrite list_lookup_insert_Some.
    intros [(<- & [= <- <-] & _)|[Hne Ht']]; [done|]. rewrite Hother by done. by eapply Hmx.
  - intros t' Hm. apply lookup_lt_is_Some. rewrite length_insert. apply lookup_lt_is_Some.
    destruct (decide (t' = t)) as [->|Hne]; [by eexists|]. apply Hh. by apply Hother.
Qed.

Lemma cinv_reachable fs σ σ' : cinv fs σ -> reachable σ σ' -> cinv fs σ'.
Proof. intros Hi Hr. induction Hr; [done|]. eauto using cinv_step. Qed.

Lemma cinv_initial c authorities : caches_ok c -> cinv (catalog c) (initial c authorities).
Proof.
  intros Hok. split; cbn [initial shared mu threads]; try done.
  - intros t a p H. apply list_lookup_fmap_Some in H as (x & [= -> ->] & _). done.
  - intros t a p H. apply list_lookup_fmap_Some in H as (x & [= -> ->] & _). done.
Qed.

(** C23. Under every interleaving of goroutines calling [Classify] on one new
    classifier: a call that has returned returned the uncached
    classification of its authority; at most one goroutine is past [c.mu];
    and until every call has returned some goroutine can step. *)
Theorem Classify_concurrent (index : option families) (capacity : Z) (c : Classifier)
    (authorities : list string) (σ : config) :
  newClassifier index capacity = Ok c ->
  reachable (initial c authorities) σ ->
  (forall t a r, threads σ !! t = Some (a, PDone r) -> r = classification ToASCII (catalog c) a) /\
  (forall t1 t2 a1 a2 p1 p2, threads σ !! t1 = Some (a1, p1) -> threads σ !! t2 = Some (a2, p2) ->
     holds_mu p1 = true -> holds_mu p2 = true -> t1 = t2) /\
  ((forall t a p, threads σ !! t = Some (a, p) -> exists r, p = PDone r) \/ exists σ', cstep σ σ').
Proof.
  intros [Hok _]%newClassifier_ok Hr.
  pose proof (cinv_reachable _ _ _ (cinv_initial c authorities Hok) Hr) as [_ _ Hth Hmx Hh].
  split; [|split].
  - intros t a r Ht. exact (Hth t a (PDone r) Ht).
  - intros t1 t2 a1 a2 p1 p2 H1 H2 Hp1 Hp2. apply (Hmx _ _ _ H1) in Hp1.
    apply (Hmx _ _ _ H2) in Hp2. congruence.
  - clear Hr. destruct (mu σ) as [t|] eqn:Em.
    + right. destruct (Hh t eq_refl) as [[a p] Ht]. pose proof (proj2 (Hmx t a p Ht) eq_refl) as Hp.
      assert (exists x, tstep t (shared σ) (mu σ) a p = Some x) as [[[c' m'] p'] Hs].
      { destruct p; try done; cbn [tstep]; [by case_match; eexists|by case_match; eexists|].
        destruct (compute _ _); by eexists. }
      eexists. by econstructor.
    + destruct (existsb (fun ap => is_running ap.2) (threads σ)) eqn:He.
      2: { left. intros t a p Ht. rewrite existsb_elem_false in He.
           specialize (He (a, p) (list_elem_of_lookup_2 _ _ _ Ht)). cbn in He.
           destruct p; try done. by eexists. }
      right. apply existsb_elem in He as ([a p] & [t Ht]%list_elem_of_lookup & Hp). cbn in Hp.
      assert (exists x, tstep t (shared σ) (mu σ) a p = Some x) as [[[c' m'] p'] Hs].
      { pose proof (Hmx t a p Ht) as Hm. rewrite Em.
        destruct p; cbn [tstep]; try done; try (by eexists); 
          try (pose proof (proj1 Hm eq_refl); congruence).
        destruct (NormalizeEndpointHost _ _) as [[]|]; [case_match|]; by eexists. }
      eexists. by econstructor.
Qed.
End Concurrent.

(** ** Concrete inputs *)

Section Samples.
#[local] Instance sample_tables : UnicodeTables := ascii_tables.

(** An [idna.Lookup.ToASCII] that only knows names already in ASCII. *)
Definition asciiOnly (s : string) : result string :=
  if is_ascii s then Ok s else Err (ErrNew "idna: disallowed rune").

Definition sampleServices : list ServiceIdentity :=
  [mkIdentity "sts" ""; mkIdentity "s3" ""; mkIdentity "s3-control" "s3";
   mkIdentity "ce" ""; mkIdentity "api.ecr" "ecr"].
Definition sampleFamilies : families :=
  match compileEndpointIdentityViews sampleServices with Ok fs => fs | Err _ => ∅ end.
Definition sampleClassifier : Classifier :=
  match newClassifier (Some sampleFamilies) 2 with
  | Ok c => c | Err _ => mkClassifier None None ∅ end.

Definition summary (r : result AWSEndpoint) : option (string * string * string * string * bool) :=
  match r with
  | Ok ep => Some (ep_Service ep, ep_SigningService ep, ep_SigningRegion ep, ep_AccountID ep, ep_FIPS ep)
  | Err _ => None
  end.

Example classification_ex :
  (summary ∘ classification asciiOnly sampleFamilies) <$>
    ["STS.amazonaws.com:443"; "sts.eu-west-1.amazonaws.com."; "sts-fips.us-east-1.api.aws";
     "123456789012.s3-control.us-west-2.amazonaws.com"; "s3-control.us-west-2.amazonaws.com";
     "ce.us-east-1.amazonaws.com"; "api.ecr.us-east-1.amazonaws.com"; "sts.us-gov-west-1.amazonaws.com";
     "bucket.s3.us-east-1.amazonaws.com"; "sts.amazonaws.com:80"] =
  [Some ("sts", "sts", "us-east-1", "", false); Some ("sts", "sts", "eu-west-1", "", false);
   Some ("sts", "sts", "us-east-1", "", true);
   Some ("s3-control", "s3", "us-west-2", "123456789012", false); None;
   Some ("ce", "ce", "us-east-1", "", false); Some ("api.ecr", "ecr", "us-east-1", "", false);
   None; None; None].
Proof. vm_compute. reflexivity. Qed.

Lemma Join_head a rest : exists t, Join (a :: rest) "." = (a ++ t)%string.
Proof.
  destruct rest as [|b rest]; [|by eexists]. exists EmptyString. symmetry. apply str_app_nil_r.
Qed.

(** Twelve leading digits are a test on the prefix as a string. *)
Definition digits12 (s : string) : bool := bytes_all is_digit (str_take 12 s) && (12 <=? slen s).

Lemma Join_digits a rest : validAccountLabel a = true -> digits12 (Join (a :: rest) ".") = true.
Proof.
  intros Ha. destruct (Join_head a rest) as [t ->]. pose proof (account_digits a Ha) as Hd.
  unfold validAccountLabel in Ha. apply andb_true_iff in Ha as [Hl%Z.eqb_eq _].
  unfold digits12. replace 12%nat with (String.length a) by (unfold slen in Hl; lia).
  rewrite str_take_app, Hd, slen_app, Hl. pose proof (slen_nonneg t). cbn [andb]. lia.
Qed.

Lemma no_account_keys (fs : families) :
  forallb (fun kv => negb (digits12 kv.1)) (map_to_list fs) = true -> no_account_prefix fs.
Proof.
  intros H a rest Ha. destruct (fs !! Join (a :: rest) ".") as [f|] eqn:E; [|done].
  apply elem_of_map_to_list, list_elem_of_In in E. rewrite forallb_forall in H.
  specialize (H _ E). cbn [fst] in H. by rewrite Join_digits in H.
Qed.

Lemma sample_no_account : no_account_prefix sampleFamilies.
Proof. apply no_account_keys. vm_compute. reflexivity. Qed.

Definition sampleHost : string := "123456789012.s3-control.us-west-2.amazonaws.com".
Definition sampleEndpoint : AWSEndpoint :=
  mkEndpoint "aws" sampleHost "s3-control" "s3" "us-west-2" "us-west-2" false ScopeRegional false
    false "123456789012".

Lemma classifyCommercialHost_sound_witness :
  exists st prefix region account,
    sampleHost = Join (hostLabels st prefix region account) ".".
Proof.
  destruct (classifyCommercialHost_sound sampleFamilies sampleHost sampleEndpoint sample_no_account)
    as (st & P & f & region & account & _ & _ & H & _).
  - vm_compute. reflexivity.
  - exists st, P, region, account. exact H.
Defined.

Lemma classified_endpoint_valid_witness : Endpoint_Validate sampleEndpoint = None.
Proof.
  refine (proj1 (classified_endpoint_valid asciiOnly _ sampleServices sampleFamilies
    (sampleHost ++ ":443") sampleHost 443 sampleEndpoint _ sample_no_account _ _)).
  - intros s t. unfold asciiOnly. destruct (is_ascii s) eqn:E; [|done]. by intros [= <-].
  - vm_compute. reflexivity.
  - vm_compute. reflexivity.
  - vm_compute. reflexivity.
Defined.

Definition sampleHistory : list string :=
  ["sts.amazonaws.com"; "x.amazonaws.com"; "s3.amazonaws.com"; sampleHost; "sts.amazonaws.com"].

Lemma Classify_transparent_witness :
  (classifyAll asciiOnly (Some sampleClassifier) sampleHistory).1 =
  classification asciiOnly sampleFamilies <$> sampleHistory.
Proof.
  refine (Classify_transparent asciiOnly (Some sampleFamilies) 2 sampleClassifier sampleHistory _).
  vm_compute. reflexivity.
Defined.

Lemma Classify_concurrent_witness :
  exists σ', cstep asciiOnly (initial sampleClassifier sampleHistory) σ'.
Proof.
  destruct (Classify_concurrent asciiOnly (Some sampleFamilies) 2 sampleClassifier sampleHistory
    (initial sampleClassifier sampleHistory)) as (_ & _ & [H|H]).
  - vm_compute. reflexivity.
  - apply rtc_refl.
  - destruct (H 0%nat "sts.amazonaws.com" PStart eq_refl) as [r Hr]. discriminate Hr.
  - exact H.
Defined.

(** The in-place trim is visible: were a catalog prefix to start with a
    twelve-digit label, its [-fips] host would classify as the non-FIPS
    endpoint, since the account attempt has already trimmed the shared label. *)
Definition numericFamilies : families :=
  {["123456789012.svc" := mkFamily "123456789012.svc" "123456789012.svc" "svc" "" regionalShapes false]}.

Lemma account_attempt_drops_fips :
  let host := "123456789012.svc-fips.us-east-1.amazonaws.com" in
  ep_FIPS <$> classifyCommercialHost host numericFamilies = Some false /\
  ep_FIPS <$> (classifyRegionalAmazonBody host ["123456789012"; "svc-fips"; "us-east-1"]
                 numericFamilies "").1 = Some true.
Proof. split; vm_compute; reflexivity. Qed.
End Samples.

End Endpoint.
