(* ===== verification/IamResources.v ===== *)
(** * Resource resolution (internal/iammap: resources.go, normalize.go)

    From a decoded request and a catalog resource type to the ARNs a
    requirement is about.  Go maps are ranged over in an unspecified order: a
    parameter map is the list of its entries in the order a range visits them,
    and what a function returns for another order is what it returns for a
    permuted list.  Every [ctx.Err()] is a poll of the context. *)

From Stdlib Require Import ZArith Lia Ascii.
From stdpp Require Import sorting base gmap strings list.
From S2P Require Import Prelude GoStrings AwsTypes.

Module IamResources.
Import AwsTypes.AwsTypes.

(** An error result: a context's, or one of the package's own. *)
Inductive rerr := RCtx (e : ctx_error) | RErr (e : error).

(** [[]string, ScopeKind, error]. *)
Definition resolution : Type := (list string * string * option rerr).

Definition unresolved : resolution := ([], ScopeUnresolved, None).
Definition failed (msg : string) : resolution := ([], ScopeUnresolved, Some (RErr (ErrNew msg))).
Definition exactly (arn : string) : resolution := ([arn], ScopeExact, None).
Definition cancelled (e : ctx_error) : resolution := ([], ScopeUnresolved, Some (RCtx e)).

(** ** normalize.go *)

Definition normalizeOperation `{U : UnicodeTables} (s : string) : string :=
  let s := TrimSpace s in
  if (s =? "")%string then EmptyString
  else if existsb (fun r => negb (IsLetter r) && negb (IsDigit r)) (runes s) then EmptyString
  else s.

Definition canonicalAction `{U : UnicodeTables} (s : string) : string :=
  match SplitN s ":" 2 with
  | [p0; p1] => (ToLower p0 ++ ":" ++ p1)%string
  | _ => EmptyString
  end.

(** ** ARNs *)

Definition validResourcePart (s : string) : bool :=
  if (s =? "")%string || (1024 <? slen s) ||
     bytes_any (fun c => in_set "*?" c || (c =? 0) || (c =? 13) || (c =? 10)) s || Contains s "arn:"
  then false
  else negb (existsb IsControl (runes s)).

Definition validPartition (p : string) : bool := mem_str p ["aws"; "aws-cn"; "aws-us-gov"].

Definition validAccount (a : string) : bool :=
  if negb (slen a =? 12) then false else forallb is_digit (runes a).

Definition validRegion (p r : string) : bool :=
  if (p =? "aws")%string && (r =? "")%string then false
  else if (p =? "aws-cn")%string && negb (HasPrefix r "cn-") then false
  else if (p =? "aws-us-gov")%string && negb (HasPrefix r "us-gov-") then false
  else if (p =? "aws")%string && (HasPrefix r "cn-" || HasPrefix r "us-gov-") then false
  else if (r =? "")%string then false
  else if ContainsAny r "/:\*" || (32 <? slen r) then false
  else forallb (fun x => is_lower x || is_digit x || (x =? ord "-")) (runes r).

Definition renderARN (partition service region account resource : string) : string :=
  ("arn:" ++ partition ++ ":" ++ service ++ ":" ++ region ++ ":" ++ account ++ ":" ++ resource)%string.

Definition awsARN (partition service region account resource : string) : string :=
  if negb (validPartition partition) || (service =? "")%string ||
     negb (validResourcePart resource) || negb (validAccount account)
  then EmptyString
  else if (service =? "iam")%string then
    if negb (region =? "")%string then EmptyString
    else renderARN partition service region account resource
  else if negb (validRegion partition region) then EmptyString
  else renderARN partition service region account resource.

Definition bucketRune (r : Z) : bool :=
  is_lower r || is_digit r || (r =? ord ".") || (r =? ord "-").

Section S3.
Context `{U : UnicodeTables}.

Definition s3ARN (partition bucket key : string) : string :=
  if negb (validPartition partition) || negb (validResourcePart bucket) ||
     ContainsAny bucket "/:\" || (63 <? slen bucket) || negb (ToLower bucket =? bucket)%string
  then EmptyString
  else if negb (forallb bucketRune (runes bucket)) then EmptyString
  else
    let edge o := bool_decide (o = Some (ord ".")) || bool_decide (o = Some (ord "-")) in
    if (slen bucket <? 3) || edge (byte_at bucket 0) || edge (byte_at bucket (slen bucket - 1)) ||
       Contains bucket ".."
    then EmptyString
    else if negb (key =? "")%string && (negb (validResourcePart key) || HasPrefix key "/")
    then EmptyString
    else if existsb (fun part => (part =? ".")%string || (part =? "..")%string) (Split key "/")
    then EmptyString
    else if (key =? "")%string then ("arn:" ++ partition ++ ":s3:::" ++ bucket)%string
    else ("arn:" ++ partition ++ ":s3:::" ++ bucket ++ "/" ++ key)%string.
End S3.

Definition validARN (value partition service region account prefix : string) : bool :=
  match SplitN value ":" 6 with
  | [p0; p1; p2; p3; p4; p5] =>
    (p0 =? "arn")%string && (p1 =? partition)%string && (p2 =? service)%string &&
    (p3 =? region)%string && (p4 =? account)%string && HasPrefix p5 prefix && validResourcePart p5
  | _ => false
  end.

(** dependencies.go *)
Definition validateRoleARN (v partition : string) : result string :=
  let malformed := Err (ErrNew "malformed PassRole ARN") in
  if (2048 <? slen v) ||
     bytes_any (fun c => in_set "*?\" c || (c =? 0) || (c =? 13) || (c =? 10)) v ||
     negb (validPartition partition)
  then malformed
  else match SplitN v ":" 6 with
  | [p0; p1; p2; p3; p4; p5] =>
    if negb (p0 =? "arn")%string || negb (p1 =? partition)%string || negb (p2 =? "iam")%string ||
       negb (p3 =? "")%string || negb (validAccount p4) || negb (HasPrefix p5 "role/") ||
       (slen p5 =? 5) || negb (validResourcePart p5)
    then malformed else Ok v
  | _ => malformed
  end.

Definition s3PathParts (path : string) : string * string :=
  match PathUnescape path with
  | None => (EmptyString, EmptyString)
  | Some v =>
    match SplitN (TrimPrefix v "/") "/" 2 with
    | [p0; p1] => (p0, p1)
    | _ => (EmptyString, EmptyString)
    end
  end.

Section Ids.
Context `{U : UnicodeTables}.

Definition validID (s prefix : string) : bool :=
  if negb (HasPrefix s prefix) || (slen s <=? slen prefix) || (64 <? slen s) then false
  else negb (existsb (fun r => negb (IsLetter r) && negb (IsDigit r) && negb (r =? ord "-") &&
                               negb (r =? ord "_") && negb (r =? ord ".")) (runes s)).
End Ids.

(** ** PartiQL statements *)

Definition quoteBytes : string := ("\" ++ String (chr 34) "'`")%string.

Section Dynamo.
Context `{U : UnicodeTables}.

(** The [SELECT] loop: the fields after the first [FROM]. *)
Fixpoint afterFrom (fields : list string) : option (list string) :=
  match fields with
  | [] => None
  | f :: fields => if (ToUpper f =? "FROM")%string then Some fields else afterFrom fields
  end.

Definition parseDynamoStatement (statement : string) : option (string * string) :=
  match Fields statement with
  | f0 :: ((_ :: _) as fields) =>
    let kind := ToUpper f0 in
    let target :=
      if (kind =? "SELECT")%string then (fun fs => ("Select", fs)) <$> afterFrom fields
      else if (kind =? "DELETE")%string then
        Some ("Delete", match fields with
                        | f :: rest => if (ToUpper f =? "FROM")%string then rest else fields
                        | [] => [] end)
      else if (kind =? "INSERT")%string then
        match fields with
        | f :: rest => if negb (ToUpper f =? "INTO")%string then None else Some ("Insert", rest)
        | [] => None
        end
      else if (kind =? "UPDATE")%string then Some ("Update", fields)
      else None in
    match target with
    | Some (name, f :: _) =>
      let table := Trim f (quoteBytes ++ ",;") in
      if (table =? "")%string || ContainsAny table quoteBytes then None else Some (table, name)
    | _ => None
    end
  | _ => None
  end.

Definition validDynamoTableName (name : string) : bool :=
  if (name =? "")%string || (255 <? slen name) then false
  else forallb (fun r => is_lower r || is_upper r || is_digit r || (r =? ord ".") ||
                         (r =? ord "-") || (r =? ord "_")) (runes name).
End Dynamo.

(** ** Parameters *)

Section Parameters.
Context `{U : UnicodeTables}.

(** What the closure [walk] of [parameterStringContext] updates, and the
    polls made so far. *)
Record walkState := mkWalk { found : string; ambiguous : bool; polls : nat }.

Definition walkPoll (ctx : context) (s : walkState) : bool * walkState :=
  (bool_decide (is_Some (ctx (polls s))), mkWalk (found s) (ambiguous s) (S (polls s))).

(** [walk(v.Object, d)]. *)
Fixpoint walk (ctx : context) (want : string) (v : Value) (d : Z) (s : walkState) : walkState :=
  if (16 <? d) || ambiguous s then s
  else
    let (stop, s) := walkPoll ctx s in
    if stop : bool then s
    else
      (fix loop (m : list (string * Value)) (s : walkState) : walkState :=
         match m with
         | [] => s
         | (k, x) :: m =>
           let (stop, s) := walkPoll ctx s in
           if stop : bool then s
           else
             let descend s :=
               loop m (if (Kind x =? ValueObject)%string then walk ctx want x (d + 1) s else s) in
             if EqualFold k want then
               if negb (Kind x =? ValueString)%string || (StringV x =? "")%string ||
                  (negb (found s =? "")%string && negb (found s =? StringV x)%string)
               then mkWalk (found s) true (polls s)
               else descend (mkWalk (StringV x) (ambiguous s) (polls s))
             else descend s
         end) (ObjectV v) s.

(** [parameterStringContext]: the value and the polls made. *)
Fixpoint parameterStringContext (ctx : context) (p : list (string * Value)) (names : list string)
    (n : nat) : string * nat :=
  match names with
  | [] => (EmptyString, n)
  | want :: names =>
    if bool_decide (is_Some (ctx n)) then (EmptyString, S n)
    else
      let s := walk ctx want (vobject p) 0 (mkWalk EmptyString false (S n)) in
      if negb (ambiguous s) && negb (found s =? "")%string then (found s, polls s)
      else parameterStringContext ctx p names (polls s)
  end.
Definition parameterString (p : list (string * Value)) (names : list string) : string :=
  (parameterStringContext Background p names 0).1.

(** The array loop of [parameterStringsContext]; [None] is a returned nil. *)
Fixpoint stringItems (ctx : context) (xs : list Value) (n : nat) : option (list string) * nat :=
  match xs with
  | [] => (Some [], n)
  | x :: xs =>
    if bool_decide (is_Some (ctx n)) then (None, S n)
    else if negb (Kind x =? ValueString)%string then (None, S n)
    else let (r, n) := stringItems ctx xs (S n) in (cons (StringV x) <$> r, n)
  end.

Fixpoint parameterStringsContext (ctx : context) (p : list (string * Value)) (name : string)
    (n : nat) : list string * nat :=
  match p with
  | [] => ([], n)
  | (k, v) :: p =>
    if bool_decide (is_Some (ctx n)) then ([], S n)
    else if negb (EqualFold k name) then parameterStringsContext ctx p name (S n)
    else if (Kind v =? ValueArray)%string
    then let (r, n) := stringItems ctx (ArrayV v) (S n) in (default [] r, n)
    else if (Kind v =? ValueString)%string then (Fields (StringV v), S n)
    else parameterStringsContext ctx p name (S n)
  end.
Definition parameterStrings (p : list (string * Value)) (name : string) : list string :=
  (parameterStringsContext Background p name 0).1.

(** ** Resource types *)

Definition GR : Type -> Type := G resolution.
Definition param (ctx : context) (req : DecodedAWSRequest) (names : list string) : GR string :=
  call (parameterStringContext ctx (Parameters req) names).

Definition noCaller (req : DecodedAWSRequest) : bool :=
  (CallerAccountID req =? "")%string || (Region req =? "")%string.

(** [if a == "" { return failed } ; return exactly a]. *)
Definition finishARN (a msg : string) : GR resolution :=
  greturn (if (a =? "")%string then failed msg else exactly a).

Definition namedARNContext (ctx : context) (req : DecodedAWSRequest)
    (service name prefix : string) : GR resolution :=
  e ← ctx_Err ctx;
  match e with
  | Some _ =>
    (* the error returned is a second reading of ctx.Err() *)
    e ← ctx_Err ctx;
    greturn ([], ScopeUnresolved, RCtx <$> e)
  | None =>
    if noCaller req then greturn unresolved
    else
      n ← param ctx req [name];
      if (n =? "")%string then greturn unresolved
      else finishARN (awsARN (Partition req) service (Region req) (CallerAccountID req) (prefix ++ n))
             "invalid resource ARN"
  end.

(** The first [Statements] entry of the parameters, if it is an array. *)
Fixpoint findStatements (p : list (string * Value)) : option (list Value) :=
  match p with
  | [] => Some []
  | (key, value) :: p =>
    if EqualFold key "Statements"
    then if negb (Kind value =? ValueArray)%string then None else Some (ArrayV value)
    else findStatements p
  end.

(** The statement loop; [resources] in the order found, without repetition. *)
Definition statementStep (ctx : context) (req : DecodedAWSRequest) (want : string)
    (item : Value) (resources : list string) : GR (list string) :=
  _ ← poll ctx cancelled;
  if negb (Kind item =? ValueObject)%string then greturn unresolved
  else
    statement ← call (parameterStringContext ctx (ObjectV item) ["Statement"]);
    if (statement =? "")%string then greturn unresolved
    else match parseDynamoStatement statement with
    | None => greturn unresolved
    | Some (table, kind) =>
      if negb (ToLower ("dynamodb:PartiQL" ++ kind) =? want)%string then mret resources
      else if negb (validDynamoTableName table) then greturn (failed "invalid DynamoDB table name")
      else
        let arn := awsARN (Partition req) "dynamodb" (Region req) (CallerAccountID req)
                     ("table/" ++ table)%string in
        if (arn =? "")%string then greturn (failed "invalid DynamoDB table ARN")
        else mret (if mem_str arn resources then resources else resources ++ [arn])
    end.

Definition scoped (resources : list string) : resolution :=
  (resources, if (List.length resources =? 1)%nat then ScopeExact else ScopeSet, None).

Definition dynamoStatementARNs (ctx : context) (req : DecodedAWSRequest) (action : string)
  : GR resolution :=
  match findStatements (Parameters req) with
  | None => greturn unresolved
  | Some statements =>
    if (List.length statements =? 0)%nat || noCaller req then greturn unresolved
    else
      let want := ToLower action in
      resources ← grange statements (statementStep ctx req want) [];
      if (List.length resources =? 0)%nat then greturn unresolved
      else greturn (scoped (sort_strings resources))
  end.

Definition instanceStep (ctx : context) (req : DecodedAWSRequest) (id : string)
    (out : list string) : GR (list string) :=
  _ ← poll ctx cancelled;
  if negb (validID id "i-") then greturn (failed "invalid EC2 instance id")
  else
    let a := awsARN (Partition req) "ec2" (Region req) (CallerAccountID req) ("instance/" ++ id) in
    if (a =? "")%string then greturn (failed "invalid EC2 instance ARN")
    else mret (out ++ [a]).

(** The cases of the switch. *)
Definition objectCase (ctx : context) (req : DecodedAWSRequest) : GR resolution :=
  b ← param ctx req ["Bucket"];
  k ← param ctx req ["Key"];
  let '(b, k) := if (b =? "")%string || (k =? "")%string
                 then s3PathParts (CanonicalPath req) else (b, k) in
  if (b =? "")%string || (k =? "")%string then greturn unresolved
  else finishARN (s3ARN (Partition req) b k) "invalid S3 object ARN".

Definition bucketCase (ctx : context) (req : DecodedAWSRequest) : GR resolution :=
  b ← param ctx req ["Bucket"];
  let b := if (b =? "")%string then (s3PathParts (CanonicalPath req)).1 else b in
  if (b =? "")%string then greturn unresolved
  else finishARN (s3ARN (Partition req) b "") "invalid S3 bucket ARN".

Definition serviceCase (ctx : context) (req : DecodedAWSRequest) : GR resolution :=
  if noCaller req then greturn unresolved
  else
    cluster ← param ctx req ["Cluster"; "ClusterArn"];
    name ← param ctx req ["Service"; "ServiceName"];
    if (cluster =? "")%string || (name =? "")%string then greturn unresolved
    else finishARN (awsARN (Partition req) "ecs" (Region req) (CallerAccountID req)
           ("service/" ++ cluster ++ "/" ++ name)) "invalid ECS service ARN".

(** A name that may already be an ARN ([task-definition], [function]). *)
Definition nameOrARN (ctx : context) (req : DecodedAWSRequest)
    (param_ service prefix badARN bad : string) : GR resolution :=
  if noCaller req then greturn unresolved
  else
    n ← param ctx req [param_];
    if (n =? "")%string then greturn unresolved
    else if HasPrefix n "arn:" then
      if negb (validARN n (Partition req) service (Region req) (CallerAccountID req) prefix)
      then greturn (failed badARN) else greturn (exactly n)
    else finishARN (awsARN (Partition req) service (Region req) (CallerAccountID req) (prefix ++ n)) bad.

Definition instanceCase (ctx : context) (req : DecodedAWSRequest) : GR resolution :=
  if noCaller req then greturn unresolved
  else
    ids ← call (parameterStringsContext ctx (Parameters req) "InstanceIds");
    if (List.length ids =? 0)%nat then greturn unresolved
    else
      out ← grange ids (instanceStep ctx req) [];
      greturn (scoped out).

Definition datasetCase (ctx : context) (req : DecodedAWSRequest) : GR resolution :=
  name ← param ctx req ["DatasetId"; "Namespace"];
  if (name =? "")%string then greturn unresolved
  else if noCaller req then greturn unresolved
  else finishARN (awsARN (Partition req) "cloudwatch" (Region req) (CallerAccountID req)
         ("dataset/" ++ name)) "invalid CloudWatch dataset ARN".

Definition roleCase (ctx : context) (req : DecodedAWSRequest) : GR resolution :=
  if (AwsTypes.AwsTypes.Operation req =? "AssumeRole")%string then
    n ← param ctx req ["RoleArn"];
    if (n =? "")%string then greturn unresolved
    else match validateRoleARN n (Partition req) with
    | Err e => greturn ([], ScopeUnresolved, Some (RErr e))
    | Ok a => greturn (exactly a)
    end
  else if (CallerAccountID req =? "")%string then greturn unresolved
  else
    n ← param ctx req ["RoleName"];
    if (n =? "")%string then greturn unresolved
    else finishARN (awsARN (Partition req) "iam" "" (CallerAccountID req) ("role/" ++ n))
           "invalid IAM role".

Definition logStreamCase (ctx : context) (req : DecodedAWSRequest) : GR resolution :=
  if noCaller req then greturn unresolved
  else
    g ← param ctx req ["LogGroupName"];
    s ← param ctx req ["LogStreamName"];
    if (g =? "")%string || (s =? "")%string then greturn unresolved
    else finishARN (awsARN (Partition req) "logs" (Region req) (CallerAccountID req)
           ("log-group:" ++ g ++ ":log-stream:" ++ s)) "invalid log stream ARN".

Definition tableCase (ctx : context) (req : DecodedAWSRequest) (action : string) : GR resolution :=
  if (AwsTypes.AwsTypes.Service req =? "dynamodb")%string &&
     (AwsTypes.AwsTypes.Operation req =? "BatchExecuteStatement")%string
  then dynamoStatementARNs ctx req action
  else namedARNContext ctx req "dynamodb" "TableName" "table/".

Definition kindCase (ctx : context) (req : DecodedAWSRequest) (kind action : string) : GR resolution :=
  if (kind =? "object")%string then objectCase ctx req
  else if (kind =? "bucket")%string then bucketCase ctx req
  else if (kind =? "service")%string then serviceCase ctx req
  else if (kind =? "task")%string || (kind =? "task-definition")%string
  then nameOrARN ctx req "TaskDefinition" "ecs" "task-definition/"
         "invalid ECS task definition ARN" "invalid ECS task definition"
  else if (kind =? "instance")%string then instanceCase ctx req
  else if (kind =? "function")%string
  then nameOrARN ctx req "FunctionName" "lambda" "function:"
         "invalid Lambda function ARN" "invalid Lambda function"
  else if (kind =? "table")%string then tableCase ctx req action
  else if (kind =? "dataset")%string then datasetCase ctx req
  else if (kind =? "role")%string then roleCase ctx req
  else if (kind =? "log-group")%string
  then namedARNContext ctx req "logs" "LogGroupName" "log-group:"
  else if (kind =? "log-stream")%string then logStreamCase ctx req
  else greturn ([], ScopeUnresolved, Some (RErr (ErrFmt "unknown resource type %q" [kind]))).

Definition resourceBody (ctx : context) (req : DecodedAWSRequest) (kind action : string)
  : GR resolution :=
  _ ← poll ctx cancelled;
  let kind := TrimSuffix kind "*" in
  if (kind =? "global")%string then greturn (["*"], ScopeKnownGlobal, None)
  else kindCase ctx req kind action.

Definition resourceForContext (ctx : option context) (req : DecodedAWSRequest)
    (kind action : string) : nat -> resolution * nat :=
  grun (resourceBody (ctxOf ctx) req kind action).

(** [primary.ResourceType] is [kind]. *)
Definition resourceForPrimaryContext (ctx : option context) (req : DecodedAWSRequest)
    (kind action : string) : nat -> resolution * nat :=
  grun (_ ← poll (ctxOf ctx) cancelled;
        r ← call (resourceForContext (Some (ctxOf ctx)) req kind action); greturn r).

Definition resourceFor (req : DecodedAWSRequest) (kind action : string) : resolution :=
  (resourceForContext (Some Background) req kind action 0).1.
Definition resourceForPrimary (req : DecodedAWSRequest) (kind action : string) : resolution :=
  (resourceForPrimaryContext (Some Background) req kind action 0).1.
End Parameters.

(** ** What a resolution may be *)

(** No wildcard, NUL or line break. *)
Definition cleanByte (c : Z) : bool := negb (in_set "*?" c || (c =? 0) || (c =? 13) || (c =? 10)).
Definition clean (s : string) : Prop := s <> "" /\ bytes_all cleanByte s = true.

Definition cleanText (s : string) : Prop := bytes_all cleanByte s = true.

(** The parts of a request that are copied into its ARNs as they are. *)
Definition cleanScope (req : DecodedAWSRequest) : Prop :=
  cleanText (Partition req) /\ cleanText (Region req) /\ cleanText (CallerAccountID req).

(** [a] names one resource of the request: an ARN of the request's partition,
    its resource part without wildcards, in S3's account-less space, or an IAM
    role, or in the caller's account and the request's region; and no part of
    it has a wildcard when the request's partition, region and account have
    none. *)
Definition arn_ok (req : DecodedAWSRequest) (a : string) : Prop :=
  (exists service region account part,
    a = renderARN (Partition req) service region account part /\ clean part /\
    ((service = "s3" /\ region = "" /\ account = "") \/
     (service = "iam" /\ region = "" /\ validAccount account = true) \/
     (region = Region req /\ account = CallerAccountID req))) /\
  (cleanScope req -> cleanText a).

Definition resolution_ok (req : DecodedAWSRequest) (kind : string) (r : resolution) : Prop :=
  let '(resources, scope, err) := r in
  (scope = ScopeUnresolved /\ resources = []) \/
  (err = None /\ scope = ScopeKnownGlobal /\ resources = ["*"] /\ TrimSuffix kind "*" = "global") \/
  (err = None /\ scope = ScopeExact /\ exists a, resources = [a] /\ arn_ok req a) \/
  (err = None /\ scope = ScopeSet /\ (2 <= List.length resources)%nat /\ Forall (arn_ok req) resources).

Section Sound.
Context `{U : UnicodeTables} (req : DecodedAWSRequest) (kind : string).

Lemma unresolved_ok : resolution_ok req kind unresolved.
Proof. by left. Qed.
Lemma failed_ok msg : resolution_ok req kind (failed msg).
Proof. by left. Qed.
Lemma cancelled_ok e : resolution_ok req kind (cancelled e).
Proof. by left. Qed.
Lemma error_ok (e : option rerr) : resolution_ok req kind ([], ScopeUnresolved, e).
Proof. by left. Qed.

Lemma exactly_ok a : arn_ok req a -> resolution_ok req kind (exactly a).
Proof. intros H. right; right; left. split; [done|]. split; [done|]. by exists a. Qed.

Lemma bytes_any_negb (p : Z -> bool) s : bytes_any p s = negb (bytes_all (fun c => negb (p c)) s).
Proof. induction s as [|c s IH]; [done|]. cbn [bytes_any bytes_all]. rewrite IH. by destruct (p (ord c)). Qed.

Lemma validResourcePart_clean s : validResourcePart s = true -> clean s.
Proof.
  unfold validResourcePart. destruct (s =? "")%string eqn:He; [done|]. cbn [orb].
  destruct (1024 <? slen s); [done|]. cbn [orb]. rewrite bytes_any_negb.
  destruct (bytes_all _ s) eqn:Hb; [|done]. intros _. split; [by apply eqb_false_str|done].
Qed.

Lemma renderARN_clean partition service region account part :
  cleanText partition -> cleanText service -> cleanText region -> cleanText account -> cleanText part ->
  cleanText (renderARN partition service region account part).
Proof.
  unfold cleanText, renderARN. intros H1 H2 H3 H4 H5.
  rewrite !bytes_all_app, H1, H2, H3, H4, H5. reflexivity.
Qed.

Lemma awsARN_ok service region part : cleanText service ->
  (service = "iam" /\ region = "") \/ region = Region req ->
  awsARN (Partition req) service region (CallerAccountID req) part <> "" ->
  arn_ok req (awsARN (Partition req) service region (CallerAccountID req) part).
Proof.
  intros Hserv Hsp. unfold awsARN.
  destruct (negb (validPartition (Partition req)) || (service =? "")%string ||
            negb (validResourcePart part) || negb (validAccount (CallerAccountID req))) eqn:Hv; [done|].
  apply orb_false_iff in Hv as [[_ Hp]%orb_false_iff Ha]. bool_hyps.
  assert (clean part) as Hpart by by apply validResourcePart_clean.
  assert (arn_ok req (renderARN (Partition req) service region (CallerAccountID req) part)) as Hok.
  { split.
    - exists service, region, (CallerAccountID req), part. split_and!; [done..|].
      right. destruct Hsp as [[-> ->]|Hsp]; auto.
    - intros (H1 & H2 & H3). apply renderARN_clean; [done..| |done|apply Hpart].
      by destruct Hsp as [[_ ->]| ->]. }
  destruct (service =? "iam")%string; [by destruct (negb (region =? "")%string)|].
  by destruct (negb (validRegion (Partition req) region)).
Qed.

Lemma s3ARN_ok bucket key :
  s3ARN (Partition req) bucket key <> "" -> arn_ok req (s3ARN (Partition req) bucket key).
Proof.
  unfold s3ARN. destruct (negb (validPartition _) || negb (validResourcePart bucket) || _ || _ || _)
    eqn:Hv; [done|]. repeat apply orb_false_iff in Hv as [Hv ?]. bool_hyps.
  do 2 (case_match; [done|]). destruct (negb (key =? "")%string && _) eqn:Hk; [done|].
  case_match; [done|]. intros _.
  assert (clean bucket) as Hb by (by apply validResourcePart_clean).
  assert (forall part, clean part -> arn_ok req ("arn:" ++ Partition req ++ ":s3:::" ++ part)) as Hs3.
  { intros part Hpart. split; [exists "s3", "", "", part; split; [reflexivity|by auto]|]. intros (Hpart1 & _).
    apply (renderARN_clean _ "s3" "" "" part Hpart1); [reflexivity..|apply Hpart]. }
  destruct (key =? "")%string eqn:He; apply Hs3; [done|].
  cbn [negb andb] in Hk. apply orb_false_iff in Hk as [Hk _]. apply negb_false_iff in Hk.
  apply validResourcePart_clean in Hk as [_ Hk]. destruct Hb as [Hb1 Hb2].
  split; [by destruct bucket|]. rewrite bytes_all_app, Hb2. exact Hk.
Qed.

Lemma splitN6 v p0 p1 p2 p3 p4 p5 :
  SplitN v ":" 6 = [p0; p1; p2; p3; p4; p5] -> p0 = "arn" -> v = renderARN p1 p2 p3 p4 p5.
Proof.
  unfold SplitN. cbn [Nat.sub]. intros E ->.
  apply splitn_byte_cons in E as (r0 & -> & _ & E). apply splitn_byte_cons in E as (r1 & -> & _ & E).
  apply splitn_byte_cons in E as (r2 & -> & _ & E). apply splitn_byte_cons in E as (r3 & -> & _ & E).
  by apply splitn_byte_cons in E as (r4 & -> & _ & [= ->]).
Qed.

Lemma validARN_ok v service prefix : cleanText service ->
  validARN v (Partition req) service (Region req) (CallerAccountID req) prefix = true -> arn_ok req v.
Proof.
  unfold validARN. destruct (SplitN v ":" 6) as [|p0 [|p1 [|p2 [|p3 [|p4 [|p5 [|]]]]]]] eqn:E; try done.
  intros Hserv H. bool_hyps. autorewrite with kordn in *. subst p0 p1 p2 p3 p4.
  apply splitN6 in E; [|done]. assert (clean p5) as Hp by by apply validResourcePart_clean. rewrite E. split.
  - exists service, (Region req), (CallerAccountID req), p5. split_and!; [done|apply Hp..|by right; right].
  - intros (Hc1 & Hc2 & Hc3). apply renderARN_clean; [done..|apply Hp].
Qed.

(** The texts that hold none of a wider set of bytes. *)
Lemma wildcard_free_clean v :
  bytes_any (fun c => in_set "*?\" c || (c =? 0) || (c =? 13) || (c =? 10)) v = false -> cleanText v.
Proof.
  rewrite bytes_any_negb. intros H%negb_false_iff. eapply bytes_all_weaken; [|exact H].
  intros c Hc. unfold cleanByte, in_set. cbn [bytes_any]. zbool.
Qed.

Lemma validateRoleARN_ok v a : validateRoleARN v (Partition req) = Ok a -> arn_ok req a.
Proof.
  unfold validateRoleARN. destruct ((2048 <? slen v) || _ || _) eqn:Hv; [done|].
  destruct (SplitN v ":" 6) as [|p0 [|p1 [|p2 [|p3 [|p4 [|p5 [|]]]]]]] eqn:E; try done.
  case_match eqn:Hc; [done|]. intros [= <-]. apply orb_false_iff in Hv as [[_ Hv]%orb_false_iff _].
  repeat apply orb_false_iff in Hc as [Hc ?]. bool_hyps.
  autorewrite with kordn in *. subst p0 p1 p2 p3.
  split.
  - exists "iam", "", p4, p5. split; [by eapply splitN6|]. split; [by apply validResourcePart_clean|auto].
  - intros _. by apply wildcard_free_clean.
Qed.

(** The cases, as bodies that return only good resolutions. *)
Notation safe m := (gwp (resolution_ok req kind) m (resolution_ok req kind)).

Lemma safe_return r : resolution_ok req kind r -> safe (greturn r).
Proof. intros H. by apply gwp_return. Qed.

(** A step whose value is arbitrary. *)
Lemma gwp_any {A B} (m : GR A) (f : A -> GR B) Q :
  gwp (resolution_ok req kind) m (fun _ => True) ->
  (forall a, gwp (resolution_ok req kind) (f a) Q) -> gwp (resolution_ok req kind) (m ≫= f) Q.
Proof. intros Hm Hf. eapply gwp_bind; [exact Hm|]. intros a _. apply Hf. Qed.

Lemma any_poll ctx : gwp (resolution_ok req kind) (poll ctx cancelled) (fun _ => True).
Proof. apply gwp_poll; [apply cancelled_ok|done]. Qed.
Lemma any_call {A} (m : nat -> A * nat) : gwp (resolution_ok req kind) (call m) (fun _ => True).
Proof. by apply gwp_call. Qed.
Lemma any_ctx_Err ctx : gwp (resolution_ok req kind) (ctx_Err ctx) (fun _ => True).
Proof. by intros n. Qed.

Lemma safe_param ctx names (f : string -> GR resolution) :
  (forall v, safe (f v)) -> safe (n ← param ctx req names; f n).
Proof. apply gwp_any, any_call. Qed.

Lemma safe_finish a msg :
  (a <> "" -> arn_ok req a) -> safe (finishARN a msg).
Proof.
  intros H. apply safe_return. destruct (a =? "")%string eqn:E; [apply failed_ok|].
  apply exactly_ok, H. by apply eqb_false_str.
Qed.

Lemma safe_caller service part msg : cleanText service ->
  safe (finishARN (awsARN (Partition req) service (Region req) (CallerAccountID req) part) msg).
Proof. intros H. apply safe_finish. apply awsARN_ok; [done|by right]. Qed.

#[local] Hint Extern 1 (cleanText _) => reflexivity || assumption : core.
#[local] Hint Resolve unresolved_ok failed_ok error_ok exactly_ok safe_return safe_caller
  safe_param : core.

(** A conditional whose two branches are safe. *)
Lemma safe_if (b : bool) (m1 m2 : GR resolution) :
  (b = true -> safe m1) -> (b = false -> safe m2) -> safe (if b then m1 else m2).
Proof. destruct b; auto. Qed.

Lemma namedARN_safe ctx service name prefix : cleanText service -> safe (namedARNContext ctx req service name prefix).
Proof.
  intros Hs. unfold namedARNContext. apply gwp_any; [apply any_ctx_Err|]. intros [e|].
  - apply gwp_any; [apply any_ctx_Err|]. auto.
  - apply safe_if; [auto|]. intros _. apply safe_param. intros v. apply safe_if; auto.
Qed.

Lemma nameOrARN_safe ctx param_ service prefix badARN bad : cleanText service ->
  safe (nameOrARN ctx req param_ service prefix badARN bad).
Proof.
  intros Hs. unfold nameOrARN. apply safe_if; [auto|]. intros _. apply safe_param. intros v.
  apply safe_if; [auto|]. intros _. apply safe_if; [|auto]. intros _.
  apply safe_if; [auto|]. intros H%negb_false_iff. apply safe_return, exactly_ok.
  by eapply (validARN_ok _ service).
Qed.

Lemma objectCase_safe ctx : safe (objectCase ctx req).
Proof.
  unfold objectCase. apply safe_param. intros b. apply safe_param. intros k.
  destruct (if (b =? "")%string || (k =? "")%string then s3PathParts (CanonicalPath req)
            else (b, k)) as [b' k']. apply safe_if; [auto|]. intros _.
  apply safe_finish, s3ARN_ok.
Qed.

Lemma bucketCase_safe ctx : safe (bucketCase ctx req).
Proof.
  unfold bucketCase. apply safe_param. intros b. cbv zeta. apply safe_if; [auto|]. intros _.
  apply safe_finish, s3ARN_ok.
Qed.

Lemma serviceCase_safe ctx : safe (serviceCase ctx req).
Proof.
  unfold serviceCase. apply safe_if; [auto|]. intros _. apply safe_param. intros c.
  apply safe_param. intros n. apply safe_if; auto.
Qed.

Lemma datasetCase_safe ctx : safe (datasetCase ctx req).
Proof.
  unfold datasetCase. apply safe_param. intros n. apply safe_if; [auto|]. intros _.
  apply safe_if; auto.
Qed.

Lemma logStreamCase_safe ctx : safe (logStreamCase ctx req).
Proof.
  unfold logStreamCase. apply safe_if; [auto|]. intros _. apply safe_param. intros g.
  apply safe_param. intros s. apply safe_if; auto.
Qed.

Lemma roleCase_safe ctx : safe (roleCase ctx req).
Proof.
  unfold roleCase. apply safe_if; intros _.
  - apply safe_param. intros n. apply safe_if; [auto|]. intros _.
    destruct (validateRoleARN n (Partition req)) as [a|e] eqn:E; [|auto].
    apply safe_return, exactly_ok. by eapply validateRoleARN_ok.
  - apply safe_if; [auto|]. intros _. apply safe_param. intros n. apply safe_if; [auto|]. intros _.
    apply safe_finish, awsARN_ok; [reflexivity|by left].
Qed.

Ltac case_empty E :=
  match goal with |- context [(?x =? "")%string] => destruct (x =? "")%string eqn:E end.

(** Loops that collect ARNs. *)
Lemma scoped_ok out :
  out <> [] -> Forall (arn_ok req) out -> resolution_ok req kind (scoped out).
Proof.
  intros Hne Hall. unfold scoped. destruct out as [|a [|b out]]; [done|..].
  - right; right; left. split; [done|]. split; [done|]. exists a. split; [done|].
    by apply Forall_inv in Hall.
  - right; right; right. cbn. split; [done|]. split; [done|]. split; [lia|done].
Qed.

Lemma caller_arn service part : cleanText service ->
  (awsARN (Partition req) service (Region req) (CallerAccountID req) part =? "")%string = false ->
  arn_ok req (awsARN (Partition req) service (Region req) (CallerAccountID req) part).
Proof. intros Hs H%eqb_false_str. apply awsARN_ok; [done|by right|done]. Qed.

Lemma instanceStep_safe ctx id out :
  Forall (arn_ok req) out ->
  gwp (resolution_ok req kind) (instanceStep ctx req id out)
    (fun out' => Forall (arn_ok req) out' /\ out' <> []).
Proof.
  intros Hout. unfold instanceStep.
  apply gwp_any; [apply any_poll|]. intros _.
  case_match; [apply gwp_return, failed_ok|]. cbv zeta.
  case_empty E; [apply gwp_return, failed_ok|]. apply gwp_ret. split.
  - apply Forall_app. split; [done|]. apply Forall_singleton. by apply caller_arn.
  - by destruct out.
Qed.

Lemma statementStep_safe ctx want item out :
  Forall (arn_ok req) out ->
  gwp (resolution_ok req kind) (statementStep ctx req want item out) (Forall (arn_ok req)).
Proof.
  intros Hout. unfold statementStep.
  apply gwp_any; [apply any_poll|]. intros _.
  case_match; [apply gwp_return, unresolved_ok|].
  apply gwp_any; [apply any_call|]. intros statement.
  case_match; [apply gwp_return, unresolved_ok|].
  destruct (parseDynamoStatement statement) as [[table k]|]; [|apply gwp_return, unresolved_ok].
  case_match; [by apply gwp_ret|]. case_match; [apply gwp_return, failed_ok|]. cbv zeta.
  case_empty E; [apply gwp_return, failed_ok|]. apply gwp_ret.
  case_match; [done|]. apply Forall_app. split; [done|]. apply Forall_singleton. by apply caller_arn.
Qed.

Lemma instanceCase_safe ctx : safe (instanceCase ctx req).
Proof.
  unfold instanceCase. apply safe_if; [auto|]. intros _.
  apply gwp_any; [apply any_call|]. intros ids.
  apply safe_if; [auto|]. intros Hids.
  eapply (gwp_bind _ _ _ (fun out => Forall (arn_ok req) out /\ out <> [])).
  - destruct ids as [|id ids]; [done|]. cbn [grange].
    eapply gwp_bind; [by apply instanceStep_safe|]. intros out Hout.
    apply gwp_grange; [done|]. intros x s _ [Hs _]. by apply instanceStep_safe.
  - intros out [Hout Hne]. apply safe_return. by apply scoped_ok.
Qed.

Lemma dynamo_safe ctx action : safe (dynamoStatementARNs ctx req action).
Proof.
  unfold dynamoStatementARNs. destruct (findStatements _) as [statements|]; [|auto].
  apply safe_if; [auto|]. intros _. cbv zeta.
  eapply (gwp_bind _ _ _ (Forall (arn_ok req))).
  - apply gwp_grange; [constructor|]. intros x s _ Hs. by apply statementStep_safe.
  - intros out Hout. apply safe_if; [auto|]. intros Hne. apply safe_return, scoped_ok.
    + intros E. apply (f_equal List.length) in E. rewrite sort_strings_length in E. by rewrite E in Hne.
    + by rewrite sort_strings_perm.
Qed.

Lemma kindCase_safe ctx k action : safe (kindCase ctx req k action).
Proof.
  unfold kindCase.
  apply safe_if; intros _; [apply objectCase_safe|].
  apply safe_if; intros _; [apply bucketCase_safe|].
  apply safe_if; intros _; [apply serviceCase_safe|].
  apply safe_if; intros _; [by apply nameOrARN_safe|].
  apply safe_if; intros _; [apply instanceCase_safe|].
  apply safe_if; intros _; [by apply nameOrARN_safe|].
  apply safe_if; intros _.
  { apply safe_if; intros _; [apply dynamo_safe|by apply namedARN_safe]. }
  apply safe_if; intros _; [apply datasetCase_safe|].
  apply safe_if; intros _; [apply roleCase_safe|].
  apply safe_if; intros _; [by apply namedARN_safe|].
  apply safe_if; intros _; [apply logStreamCase_safe|auto].
Qed.

Lemma resourceBody_safe ctx action : safe (resourceBody ctx req kind action).
Proof.
  unfold resourceBody. apply gwp_any; [apply any_poll|]. intros _. cbv zeta.
  destruct (TrimSuffix kind "*" =? "global")%string eqn:E.
  - apply safe_return. right; left. by apply eqb_true_str in E.
  - apply kindCase_safe.
Qed.

Lemma resourceForPrimary_ok ctx action n :
  resolution_ok req kind (resourceForPrimaryContext ctx req kind action n).1.
Proof.
  apply (gwp_grun (resolution_ok req kind)). apply gwp_any; [apply any_poll|]. intros _.
  apply (gwp_bind _ _ _ (resolution_ok req kind)).
  - apply gwp_call. intros m. apply (gwp_grun (resolution_ok req kind)), resourceBody_safe.
  - intros r Hr. by apply gwp_return.
Qed.

End Sound.

(** ** Looking a parameter up by name *)

Section Lookup.
Context `{U : UnicodeTables}.

(** What a match contributes: its text, unless it is not a non-empty string. *)
Definition hit (x : Value) : option string :=
  if negb (Kind x =? ValueString)%string || (StringV x =? "")%string then None else Some (StringV x).

(** The matches of a name at depth at most sixteen, in traversal order. *)
Fixpoint hits (want : string) (v : Value) (d : Z) : list (option string) :=
  if 16 <? d then []
  else
    (fix loop (m : list (string * Value)) : list (option string) :=
       match m with
       | [] => []
       | (k, x) :: m =>
         (if EqualFold k want then [hit x] else []) ++
         (if (Kind x =? ValueObject)%string then hits want x (d + 1) else []) ++ loop m
       end) (ObjectV v).

(** The text all matches agree on. *)
Definition unanimous (hs : list (option string)) : option string :=
  match hs with
  | Some s :: hs => if forallb (fun h => bool_decide (h = Some s)) hs then Some s else None
  | _ => None
  end.

(** The closure's state as one value: [None] once ambiguous. *)
Definition progress (s : walkState) : option string :=
  if ambiguous s then None else Some (found s).
Definition absorb (o : option string) (h : option string) : option string :=
  match o, h with
  | Some f, Some s => if (f =? "")%string || (f =? s)%string then Some s else None
  | _, _ => None
  end.

Lemma absorb_None hs : foldl absorb None hs = None.
Proof. by induction hs. Qed.

Definition walkEntries (ctx : context) (want : string) (d : Z) :=
  fix loop (m : list (string * Value)) (s : walkState) : walkState :=
    match m with
    | [] => s
    | (k, x) :: m =>
      let (stop, s) := walkPoll ctx s in
      if stop : bool then s
      else
        let descend s :=
          loop m (if (Kind x =? ValueObject)%string then walk ctx want x (d + 1) s else s) in
        if EqualFold k want then
          if negb (Kind x =? ValueString)%string || (StringV x =? "")%string ||
             (negb (found s =? "")%string && negb (found s =? StringV x)%string)
          then mkWalk (found s) true (polls s)
          else descend (mkWalk (StringV x) (ambiguous s) (polls s))
        else descend s
    end.

Lemma walk_unfold ctx want v d s :
  walk ctx want v d s =
  if (16 <? d) || ambiguous s then s
  else let (stop, s) := walkPoll ctx s in if stop : bool then s else walkEntries ctx want d (ObjectV v) s.
Proof. by destruct v. Qed.

Definition hitEntries (want : string) (d : Z) :=
  fix loop (m : list (string * Value)) : list (option string) :=
    match m with
    | [] => []
    | (k, x) :: m =>
      (if EqualFold k want then [hit x] else []) ++
      (if (Kind x =? ValueObject)%string then hits want x (d + 1) else []) ++ loop m
    end.

Lemma hits_unfold want v d :
  hits want v d = if 16 <? d then [] else hitEntries want d (ObjectV v).
Proof. by destruct v. Qed.

Lemma walkEntries_spec want d m :
  (forall k x, (k, x) ∈ m -> forall d s,
     progress (walk Background want x d s) = foldl absorb (progress s) (hits want x d)) ->
  forall s, progress (walkEntries Background want d m s) =
            foldl absorb (progress s) (hitEntries want d m).
Proof.
  induction m as [|[k x] m IH]; intros Hx s; [done|]. cbn [walkEntries hitEntries walkPoll].
  rewrite bool_decide_false by (intros [? [=]]). rewrite !foldl_app.
  specialize (IH ltac:(intros k' x' Hin; apply (Hx k'); by right)).
  set (s0 := mkWalk (found s) (ambiguous s) (S (polls s))).
  assert (progress s0 = progress s) as <- by done.
  assert (forall s1, progress (walkEntries Background want d m
      (if (Kind x =? ValueObject)%string then walk Background want x (d + 1) s1 else s1)) =
    foldl absorb (foldl absorb (progress s1)
      (if (Kind x =? ValueObject)%string then hits want x (d + 1) else [])) (hitEntries want d m))
    as Hd.
  { intros s1. rewrite IH. f_equal. destruct (Kind x =? ValueObject)%string; [|done].
    apply (Hx k). by left. }
  destruct (EqualFold k want); [|exact (Hd s0)]. cbn [foldl].
  destruct (negb (Kind x =? ValueString)%string || (StringV x =? "")%string) eqn:Hbad; cbn [orb].
  - unfold hit. rewrite Hbad. assert (absorb (progress s0) None = None) as -> by (by destruct (progress s0)).
    by rewrite !absorb_None.
  - unfold hit. rewrite Hbad. destruct (_ && _) eqn:Hamb.
    + assert (absorb (progress s0) (Some (StringV x)) = None) as ->.
      { unfold progress, absorb. destruct (ambiguous s0); [done|].
        apply andb_true_iff in Hamb as [H1 H2]. apply negb_true_iff in H1, H2. by rewrite H1, H2. }
      by rewrite !absorb_None.
    + rewrite Hd. f_equal. f_equal. unfold progress, absorb. cbn [ambiguous found].
      destruct (ambiguous s0); [done|]. apply andb_false_iff in Hamb as [H|H];
        apply negb_false_iff in H; rewrite H, ?orb_true_r; done.
Qed.

Lemma walk_spec want v : forall d s,
  progress (walk Background want v d s) = foldl absorb (progress s) (hits want v d).
Proof.
  induction v as [v IH _] using value_ind. intros d s. rewrite walk_unfold, hits_unfold.
  destruct (16 <? d); [done|]. cbn [orb]. destruct (ambiguous s) eqn:Ha.
  - unfold progress. rewrite Ha. by rewrite absorb_None.
  - cbn [walkPoll]. rewrite bool_decide_false by (intros [? [=]]).
    rewrite walkEntries_spec; [done|]. intros k x Hin d' s'. by apply (IH k).
Qed.

(** ** Order *)

Definition good (h : option string) : Prop := h <> Some "".

Lemma absorb_Some f s :
  absorb (Some f) (Some s) = if decide (f = "" \/ f = s) then Some s else None.
Proof.
  cbn [absorb]. destruct (String.eqb_spec f ""), (String.eqb_spec f s); cbn [orb];
    case_decide; tauto || done.
Qed.

Lemma absorb_comm o h1 h2 :
  good h1 -> good h2 -> absorb (absorb o h1) h2 = absorb (absorb o h2) h1.
Proof.
  intros H1 H2. destruct o as [f|]; [|done]. destruct h1 as [s1|], h2 as [s2|]; try done.
  - assert (s1 <> "" /\ s2 <> "") as [Hs1 Hs2] by (unfold good in *; split; congruence).
    rewrite !absorb_Some. repeat (case_decide; rewrite ?absorb_Some); try done; naive_solver.
  - cbn [absorb]. by case_match.
  - cbn [absorb]. by case_match.
Qed.

Lemma foldl_absorb_perm h1 h2 o :
  Forall good h1 -> Permutation h1 h2 -> foldl absorb o h1 = foldl absorb o h2.
Proof.
  intros Hg Hp. revert o Hg.
  induction Hp as [|h l1 l2 _ IH|h h' l|l1 l2 l3 Hp1 IH1 _ IH2]; intros o Hg; cbn [foldl].
  - done.
  - apply IH. by apply Forall_inv_tail in Hg.
  - apply Forall_cons in Hg as [? Hg]. apply Forall_cons in Hg as [? _]. by rewrite absorb_comm.
  - rewrite IH1 by done. apply IH2. by rewrite <-Hp1.
Qed.

Lemma foldl_absorb_some s hs :
  s <> "" -> foldl absorb (Some s) hs =
  if forallb (fun h => bool_decide (h = Some s)) hs then Some s else None.
Proof.
  intros Hs%eqb_false_str. induction hs as [|h hs IH]; [done|]. cbn [foldl forallb].
  destruct h as [t|]; cbn [absorb].
  - rewrite Hs. cbn [orb]. destruct (String.eqb_spec s t) as [->|Hne].
    + by rewrite bool_decide_true.
    + rewrite bool_decide_false by congruence. by rewrite absorb_None.
  - rewrite bool_decide_false by done. by rewrite absorb_None.
Qed.

Lemma hits_good want v d : Forall good (hits want v d).
Proof.
  revert d. induction v as [v IH _] using value_ind. intros d. rewrite hits_unfold.
  destruct (16 <? d); [constructor|]. revert IH. generalize (ObjectV v) as m.
  induction m as [|[k x] m IHm]; intros IH; cbn [hitEntries]; [constructor|].
  apply Forall_app. split.
  { destruct (EqualFold k want); [|constructor]. apply Forall_singleton. unfold hit, good.
    destruct (String.eqb_spec (StringV x) "") as [->|Hne]; [by rewrite orb_true_r|].
    destruct (negb _ || _); congruence. }
  apply Forall_app. split.
  - destruct (Kind x =? ValueObject)%string; [|constructor]. apply (IH k). by left.
  - apply IHm. intros k' x' Hin. apply (IH k'). by right.
Qed.

(** The outcome of the traversal. *)
Lemma absorbed_unanimous hs :
  Forall good hs ->
  (match foldl absorb (Some "") hs with Some s => s | None => "" end) = default "" (unanimous hs).
Proof.
  intros Hg. destruct hs as [|[s|] hs]; [done|..]; cbn [foldl absorb unanimous].
  - apply Forall_inv in Hg. unfold good in Hg. cbn.
    assert (s <> "") as Hs by congruence. rewrite foldl_absorb_some by done. by case_match.
  - by rewrite absorb_None.
Qed.

(** The first name that resolves. *)
Fixpoint firstResolved (p : list (string * Value)) (names : list string) : string :=
  match names with
  | [] => EmptyString
  | want :: names =>
    match unanimous (hits want (vobject p) 0) with
    | Some s => s
    | None => firstResolved p names
    end
  end.

Lemma parameterString_first p names n :
  (parameterStringContext Background p names n).1 = firstResolved p names.
Proof.
  revert n. induction names as [|want names IH]; intros n; [done|].
  cbn [parameterStringContext firstResolved].
  rewrite bool_decide_false by (intros [? [=]]).
  pose proof (walk_spec want (vobject p) 0 (mkWalk EmptyString false (S n))) as Hw.
  set (s := walk Background want (vobject p) 0 (mkWalk EmptyString false (S n))) in *.
  change (progress (mkWalk EmptyString false (S n))) with (Some EmptyString) in Hw.
  pose proof (hits_good want (vobject p) 0) as Hg.
  destruct (hits want (vobject p) 0) as [|h hs]; cbn [unanimous].
  - cbn [foldl] in Hw. unfold progress in Hw. destruct (ambiguous s); [done|].
    injection Hw as Hf. rewrite Hf. cbn [negb andb String.eqb]. apply IH.
  - destruct h as [t|]; cbn [foldl absorb String.eqb orb] in Hw.
    + apply Forall_inv in Hg. unfold good in Hg. assert (t <> "") as Ht by congruence.
      rewrite foldl_absorb_some in Hw by done. unfold progress in Hw.
      destruct (forallb _ hs); destruct (ambiguous s); try done; [|apply IH].
      injection Hw as Hf. apply eqb_false_str in Ht. by rewrite Hf, Ht.
    + rewrite absorb_None in Hw. unfold progress in Hw.
      destruct (ambiguous s); [|done]. apply IH.
Qed.

(** The same map, nested maps included, ranged over in another order. *)
Inductive reordered : Value -> Value -> Prop :=
| reordered_value k s b i f o1 o2 o3 a :
    Forall2 (fun x y : string * Value => x.1 = y.1 /\ reordered x.2 y.2) o1 o2 ->
    Permutation o2 o3 ->
    reordered (mkValue k s b i f o1 a) (mkValue k s b i f o3 a).

Lemma reordered_refl v : reordered v v.
Proof.
  induction v as [v IH _] using value_ind. destruct v as [k s b i f o a].
  apply (reordered_value k s b i f o o o a); [|done]. cbn [ObjectV] in IH. clear -IH.
  induction o as [|[k x] o IHo]; constructor; [split; [done|]; apply (IH k); left|].
  apply IHo. intros k' x' Hin. apply (IH k'). by right.
Qed.

Lemma reordered_top m1 m2 : Permutation m1 m2 -> reordered (vobject m1) (vobject m2).
Proof.
  intros Hp. apply (reordered_value _ _ _ _ _ m1 m1 m2 []); [|done].
  clear Hp. induction m1 as [|[k x] m1 IH]; constructor; [|done]. split; [done|apply reordered_refl].
Qed.

Lemma hitEntries_perm want d m1 m2 :
  Permutation m1 m2 -> Permutation (hitEntries want d m1) (hitEntries want d m2).
Proof.
  induction 1 as [|[k x] m1 m2 _ IH|[k x] [k' x'] m|m1 m2 m3 _ IH1 _ IH2]; cbn [hitEntries]; [done|..].
  - by rewrite IH.
  - rewrite !app_assoc. f_equiv. rewrite <-!app_assoc. rewrite (app_assoc _ _ (_ ++ _)).
    rewrite (Permutation_app_comm (_ ++ _)). by rewrite <-!app_assoc.
  - by rewrite IH1.
Qed.

Lemma reordered_hits want v1 : forall v2 d,
  reordered v1 v2 -> Permutation (hits want v1 d) (hits want v2 d).
Proof.
  induction v1 as [v1 IH _] using value_ind. intros v2 d Hr. rewrite !hits_unfold.
  destruct (16 <? d); [done|]. destruct Hr as [k s b i f o1 o2 o3 a HF Hp]. cbn [ObjectV] in *.
  rewrite <-(hitEntries_perm want d o2 o3 Hp). clear Hp.
  induction HF as [|[k1 x1] [k2 x2] o1 o2 [Hk Hx] HF IHF]; [done|]. cbn [fst snd] in *. subst k2.
  cbn [hitEntries].
  assert (hit x1 = hit x2 /\ Kind x1 = Kind x2) as [-> ->] by (by destruct Hx).
  apply Permutation_app; [done|]. apply Permutation_app.
  - destruct (Kind x2 =? ValueObject)%string; [|done]. apply (IH k1); [by left|done].
  - apply IHF. intros k' x' Hin. apply (IH k'). by right.
Qed.

Lemma unanimous_perm hs1 hs2 :
  Forall good hs1 -> Permutation hs1 hs2 -> unanimous hs1 = unanimous hs2.
Proof.
  intros Hg Hp. assert (Forall good hs2) as Hg2 by (by rewrite <-Hp).
  pose proof (foldl_absorb_perm _ _ (Some "") Hg Hp) as E.
  destruct hs1 as [|[s1|] hs1], hs2 as [|[s2|] hs2]; try done;
    try (by apply Permutation_nil_cons in Hp); try (by symmetry in Hp; apply Permutation_nil_cons in Hp);
    cbn [foldl absorb String.eqb orb unanimous] in *; rewrite ?absorb_None in E; try done;
    apply Forall_inv in Hg, Hg2; unfold good in *;
    rewrite ?(foldl_absorb_some s1), ?(foldl_absorb_some s2) in E by congruence; done.
Qed.

(** [parameterString] is independent of Go's map iteration order: it
    returns the text of the first name all of whose matches, at any depth up
    to sixteen, are one and the same non-empty string, and the same for
    every order in which the map and the maps nested in it are ranged over. *)
Theorem parameterString_order_independent (p1 p2 : list (string * Value)) (names : list string) :
  reordered (vobject p1) (vobject p2) ->
  parameterString p1 names = firstResolved p1 names /\
  parameterString p2 names = parameterString p1 names.
Proof.
  intros Hr. unfold parameterString. rewrite !parameterString_first. split; [done|].
  induction names as [|want names IH]; [done|]. cbn [firstResolved]. rewrite IH.
  rewrite (unanimous_perm _ _ (hits_good want (vobject p1) 0) (reordered_hits want _ _ 0 Hr)). done.
Qed.
End Lookup.

(** ** Concrete inputs *)

Section Samples.
#[local] Instance sample_tables : UnicodeTables := ascii_tables.

Lemma parameterString_order_independent_witness :
  parameterString [("x", vobject [("bucket", vstring "b")]); ("Bucket", vstring "b")] ["Bucket"] = "b".
Proof.
  rewrite (proj2 (parameterString_order_independent
    [("Bucket", vstring "b"); ("x", vobject [("bucket", vstring "b")])] _ ["Bucket"]
    (reordered_top _ _ (perm_swap _ _ _)))).
  vm_compute. reflexivity.
Defined.

(** [parameterStrings] is not: the first key that folds to the name wins. *)
Lemma parameterStrings_order_dependent :
  let a := ("InstanceIds", varray [vstring "i-1"]) in
  let b := ("instanceids", varray [vstring "i-2"]) in
  parameterStrings [a; b] "InstanceIds" = ["i-1"] /\
  parameterStrings [b; a] "InstanceIds" = ["i-2"].
Proof. split; vm_compute; reflexivity. Qed.

Example s3PathParts_ex : s3PathParts "/bucket/a%2Fb/c" = ("bucket", "a/b/c").
Proof. vm_compute. reflexivity. Qed.
Example parseDynamoStatement_ex :
  parseDynamoStatement "select * from 'T1' where a = 1" = Some ("T1", "Select").
Proof. vm_compute. reflexivity. Qed.
End Samples.

End IamResources.
