(* ===== verification/IamMapper.v ===== *)
(** * The IAM mapper (internal/iammap: errors.go, dependencies.go, mapper.go;
    FindContext and the result types of iammap/iamliveadapter)

    [Map] turns a decoded request into the IAM requirements it needs, or into a
    [MappingError].  The endpoint classifier, the wire-lookup adapter and the
    pinned catalog's protocol table are interfaces in the Go code and arguments
    here; a call through an interface may panic ([called]).  [wctx] is what
    [context.WithTimeout] derives from the caller's context. *)

From Stdlib Require Import ZArith Lia Ascii.
From stdpp Require Import sorting base gmap strings list.
From S2P Require Import Prelude GoStrings GoEncoding AwsTypes IamResources.
From S2P Require Import CatalogTypes.
From S2P Require Import Endpoint.

Module IamMapper.
Import AwsTypes.AwsTypes IamResources.IamResources.

(** ** errors.go *)

Definition MappingFailureUnknownWireOperation : Z := 1.
Definition MappingFailureAmbiguousWireOperation : Z := 2.
Definition MappingFailureCatalogInconsistency : Z := 3.
Definition MappingFailureUnresolvedPrimaryResource : Z := 4.
Definition MappingFailureUnresolvedDependency : Z := 5.
Definition MappingFailureLowConfidence : Z := 6.
Definition MappingFailureCancellation : Z := 7.
Definition MappingFailureTimeout : Z := 8.
Definition MappingFailureInvalidResult : Z := 9.
Definition MappingFailurePanic : Z := 10.

(** The Go errors that meet here: a context's, a plain one, a [*MappingError],
    and the adapter's [*Failure]. *)
Inductive gerr :=
| GCtx (e : ctx_error)
| GPlain (e : error)
| GMapping (kind : Z) (stage : string) (cause : option gerr) (detail : string)
| GFailure (kind : Z) (static : bool) (detail : string) (cause : option gerr).

Definition kindString (k : Z) : string :=
  if k =? 1 then "unknown_wire_operation" else if k =? 2 then "ambiguous_wire_operation"
  else if k =? 3 then "catalog_inconsistency" else if k =? 4 then "unresolved_primary_resource"
  else if k =? 5 then "unresolved_dependency" else if k =? 6 then "low_confidence"
  else if k =? 7 then "cancellation" else if k =? 8 then "timeout"
  else if k =? 9 then "invalid_result" else if k =? 10 then "panic" else "invalid".

Definition mappingStages : list string :=
  ["context"; "input"; "mapper"; "wire"; "adapter"; "catalog"; "resource"; "dependency"; "result"].
Definition safeMappingStage (stage : string) : string :=
  if mem_str stage mappingStages then stage else EmptyString.

Definition labelRune (r : Z) : bool :=
  is_lower r || is_upper r || is_digit r || (r =? ord ":") || (r =? ord "-") || (r =? ord "_") ||
  (r =? ord " ").
Definition safeMappingDetail (detail : string) : string :=
  if 96 <? slen detail then EmptyString
  else if existsb (fun r => negb (labelRune r)) (runes detail) then EmptyString
  else detail.

(** [MappingError.Error]. *)
Definition mappingErrorText (kind : Z) (stage detail : string) : string :=
  if kind =? MappingFailureCatalogInconsistency
  then "mapping catalog: catalog_inconsistency (static catalog validation failed)"
  else
    let stage := safeMappingStage stage in
    let message := if negb (stage =? "")%string
                   then ("mapping " ++ stage ++ ": " ++ kindString kind)%string
                   else ("mapping " ++ kindString kind)%string in
    let detail := safeMappingDetail detail in
    if negb (detail =? "")%string then (message ++ ": " ++ detail)%string else message.

Definition mappingFailureWithDetail (kind : Z) (stage : string) (cause : option gerr)
    (detail : string) : gerr :=
  GMapping (if kind =? 0 then MappingFailureLowConfidence else kind) stage cause detail.
Definition mappingFailure (kind : Z) (stage : string) (cause : option gerr) : gerr :=
  mappingFailureWithDetail kind stage cause EmptyString.

(** [errors.Is(err, target)] for a context error. *)
Fixpoint errorsIsCtx (err : gerr) (target : ctx_error) : bool :=
  match err with
  | GCtx e => bool_decide (e = target)
  | GPlain _ => false
  | GMapping _ _ cause _ | GFailure _ _ _ cause =>
    match cause with Some c => errorsIsCtx c target | None => false end
  end.

Definition mappingContextFailure (err : option gerr) : option gerr :=
  match err with
  | None => None
  | Some e =>
    if errorsIsCtx e DeadlineExceeded then Some (mappingFailure MappingFailureTimeout "context" err)
    else if errorsIsCtx e Canceled then Some (mappingFailure MappingFailureCancellation "context" err)
    else None
  end.

(** ** iamliveadapter: failures and results *)

Definition FailureUnknownWireOperation : Z := 1.
Definition FailureAmbiguousWireOperation : Z := 2.
Definition FailureIncompleteWireIdentity : Z := 3.
Definition FailureCatalogInconsistency : Z := 4.
Definition FailureUnresolvedApplicability : Z := 5.
Definition FailureUnresolvedDependency : Z := 6.

Definition safeFailureDetail (value : string) : string :=
  let value := if 96 <? slen value then str_take 96 value else value in
  if existsb (fun r => negb (labelRune r)) (runes value) then "catalog evidence" else value.
Definition SafeDetail (static : bool) (detail : string) : string :=
  if negb static then EmptyString else safeFailureDetail detail.

(** [errors.As(err, &failure)]: kind and safe detail of the first [*Failure]. *)
Fixpoint asFailure (err : gerr) : option (Z * string) :=
  match err with
  | GCtx _ | GPlain _ => None
  | GFailure kind static detail _ => Some (kind, SafeDetail static detail)
  | GMapping _ _ cause _ => match cause with Some c => asFailure c | None => None end
  end.

(** [Action] has the fields of the catalog's [ActionReference]. *)
Abbreviation CatAction := CatalogTypes.CatalogTypes.ActionReference.
Abbreviation mkAction := CatalogTypes.CatalogTypes.mkAction.
Abbreviation act_Service := CatalogTypes.CatalogTypes.act_Service.
Abbreviation act_Name := CatalogTypes.CatalogTypes.act_Name.
Inductive Applicability := ApplicabilityUnknown | ApplicabilityInapplicable | ApplicabilityApplicable.
#[export] Instance Applicability_eq_dec : EqDecision Applicability.
Proof. solve_decision. Defined.

Record PrimaryOccurrence := mkPrimary {
  pr_Operation : string; pr_Action : CatAction; ResourceType : string; pr_Scope : string;
  DefinitionDependencies : list string;
}.
Record DependencyOccurrence := mkDependency {
  dep_Action : CatAction; dep_Resources : list string; ParameterNames : list string;
  dep_Applicability : Applicability;
}.
Record LookupResult := mkLookup {
  lk_Operation : string;
  PrimaryOccurrences : list PrimaryOccurrence;
  DependencyOccurrences : list DependencyOccurrence;
}.
Record WireIdentity := mkWire {
  w_Protocol : string; w_Method : string; w_Path : string;
  w_Query : gmap string (list string); w_Target : string;
}.

Definition cancelledAt (ctx : context) (n : nat) : bool := bool_decide (is_Some (ctx n)).

Section FindContext.
Context `{U : UnicodeTables}.

(** The closure [walk] of [FindContext]: values appended so far and polls. *)
Fixpoint findWalk (ctx : context) (want : list string) (key : string) (v : Value) (depth : Z)
    (s : list string * nat) : list string * nat :=
  let '(out, n) := s in
  if cancelledAt ctx n then (out, S n)
  else if 16 <? depth then (out, S n)
  else
    let out := if (Kind v =? ValueString)%string && mem_str (ToLower key) want &&
                  negb (StringV v =? "")%string
               then out ++ [StringV v] else out in
    let s := (out, S n) in
    let s := if (Kind v =? ValueObject)%string then
      (fix entries (m : list (string * Value)) (s : list string * nat) :=
         match m with
         | [] => s
         | (k, x) :: m => entries m (findWalk ctx want k x (depth + 1) s)
         end) (ObjectV v) s else s in
    if (Kind v =? ValueArray)%string then
      (fix items (a : list Value) (s : list string * nat) :=
         match a with
         | [] => s
         | item :: a =>
           let '(out, n) := s in
           if cancelledAt ctx n then (out, S n)
           else
             let s := (out, S n) in
             items a (if (Kind item =? ValueObject)%string then
               (* [for k, v := range item.Object { walk(k, v, depth+1) }] *)
               match item with
               | mkValue _ _ _ _ _ o _ =>
                 (fix inner (m : list (string * Value)) (s : list string * nat) :=
                    match m with
                    | [] => s
                    | (k, x) :: m => inner m (findWalk ctx want k x (depth + 1) s)
                    end) o s
               end else s)
         end) (ArrayV v) s
    else s.

Fixpoint findEntries (ctx : context) (want : list string) (m : list (string * Value))
    (s : list string * nat) : list string * nat :=
  match m with
  | [] => s
  | (key, v) :: m =>
    let '(out, n) := s in
    if cancelledAt ctx n then ([], S n)
    else findEntries ctx want m (findWalk ctx want key v 0 (out, S n))
  end.

Definition FindContext (ctx : context) (values : list (string * Value)) (names : list string)
    (n : nat) : list string * nat :=
  findEntries ctx (ToLower <$> names) values ([], n).
End FindContext.

(** ** dependencies.go *)

Definition validateDependencyARN `{U : UnicodeTables} (action value partition : string)
  : result string :=
  if (canonicalAction action =? "iam:PassRole")%string then validateRoleARN value partition
  else
    let malformed := Err (ErrNew "malformed dependent ARN") in
    match SplitN value ":" 6 with
    | [p0; p1; p2; p3; p4; p5] =>
      if negb (p0 =? "arn")%string || negb (p1 =? partition)%string || (p2 =? "")%string ||
         (p5 =? "")%string ||
         bytes_any (fun c => in_set "*?\" c || (c =? 0) || (c =? 13) || (c =? 10)) value ||
         negb (validPartition partition) || negb (validResourcePart p5)
      then malformed else Ok value
    | _ => malformed
    end.

(** What a function of the mapper returns: a value and an error. *)
Definition outcome (A : Type) : Type := (option A * option gerr).
Definition fails {A} (e : gerr) : outcome A := (None, Some e).
Definition unresolvedDependency {A} : outcome A :=
  fails (mappingFailure MappingFailureUnresolvedDependency "dependency" None).
Definition ctxFails {A} (e : ctx_error) : outcome A := fails (GCtx e).

Definition countOf (m : gmap string Z) (k : string) : Z := default 0 (m !! k).

Section Dependencies.
Context `{U : UnicodeTables}.
Notation D A := (G (outcome (list IAMRequirement)) A).

(** The loop over [expected]: counts by action, and the order of first
    appearance. *)
Definition expectStep (ctx : context) (wanted : string) (s : gmap string Z * list string)
  : D (gmap string Z * list string) :=
  _ ← poll ctx ctxFails;
  let want := canonicalAction wanted in
  if (want =? "")%string then greturn unresolvedDependency
  else
    let '(counts, order) := s in
    mret (<[want := countOf counts want + 1]> counts,
          if countOf counts want =? 0 then order ++ [want] else order).

(** The loop over [candidates]: counts, and the candidates of each action. *)
Definition groupStep (ctx : context) (candidate : DependencyOccurrence)
    (s : gmap string Z * gmap string (list DependencyOccurrence))
  : D (gmap string Z * gmap string (list DependencyOccurrence)) :=
  _ ← poll ctx ctxFails;
  let want := canonicalAction (act_Service (dep_Action candidate) ++ ":" ++
                               act_Name (dep_Action candidate)) in
  if (want =? "")%string then greturn unresolvedDependency
  else if bool_decide (dep_Applicability candidate = ApplicabilityUnknown)
  then greturn unresolvedDependency
  else
    let '(counts, grouped) := s in
    mret (<[want := countOf counts want + 1]> counts,
          <[want := default [] (grouped !! want) ++ [candidate]]> grouped).

(** The two loops that compare the counts; each failure is the same. *)
Definition countsAgree (expected candidates : gmap string Z) : bool :=
  (size candidates =? size expected)%nat &&
  forallb (fun kv => countOf candidates kv.1 =? kv.2) (map_to_list expected) &&
  forallb (fun kv => negb (countOf expected kv.1 =? 0)) (map_to_list candidates).

(** A validation loop: each value is replaced by its validated form. *)
Definition validateStep (ctx : context) (want partition : string) (value : string)
    (out : list string) : D (list string) :=
  _ ← poll ctx ctxFails;
  match validateDependencyARN want value partition with
  | Err _ => greturn unresolvedDependency
  | Ok v => if (v =? "")%string then greturn unresolvedDependency else mret (out ++ [v])
  end.

(** The loop of [sameStringsContext], over lists of equal length. *)
Fixpoint sameLoop (ctx : context) (a b : list string) (n : nat) : bool * nat :=
  match a, b with
  | x :: a, y :: b =>
    if cancelledAt ctx n then (false, S n)
    else if negb (x =? y)%string then (false, S n) else sameLoop ctx a b (S n)
  | _, _ => (true, n)
  end.
Definition sameStringsContext (ctx : context) (a b : list string) (n : nat) : bool * nat :=
  if negb (List.length a =? List.length b)%nat then (false, n) else sameLoop ctx a b n.

Definition roleNames : list string :=
  ["Role"; "RoleArn"; "TaskRoleArn"; "ExecutionRoleArn"; "IamRoleArn"].

(** The body of the loop over the candidates of one action. *)
Definition candidateStep (ctx : context) (req : DecodedAWSRequest) (want : string)
    (candidate : DependencyOccurrence) (out : list IAMRequirement) : D (list IAMRequirement) :=
  _ ← poll ctx ctxFails;
  if bool_decide (dep_Applicability candidate = ApplicabilityInapplicable) then mret out
  else
    let names := match ParameterNames candidate with [] => roleNames | ns => ns end in
    expected ← call (FindContext ctx (Parameters req) names);
    let actual := dep_Resources candidate in
    if (List.length expected =? 0)%nat || negb (List.length expected =? List.length actual)%nat
    then greturn unresolvedDependency
    else
      expected ← grange expected (validateStep ctx want (Partition req)) [];
      actual ← grange actual (validateStep ctx want (Partition req)) [];
      let expected := sort_strings expected in
      let actual := sort_strings actual in
      same ← call (sameStringsContext ctx expected actual);
      if negb same then greturn unresolvedDependency
      else mret (out ++ [mkRequirement want actual
                           (if (1 <? List.length actual)%nat then ScopeSet else ScopeExact) true []]).

Definition dependenciesBody (ctx : context) (req : DecodedAWSRequest) (expected : list string)
    (candidates : list DependencyOccurrence) : D (outcome (list IAMRequirement)) :=
  eo ← grange expected (expectStep ctx) (∅, []);
  cg ← grange candidates (groupStep ctx) (∅, ∅);
  let '(expectedCounts, order) := eo : gmap string Z * list string in
  let '(candidateCounts, grouped) := cg : gmap string Z * gmap string (list DependencyOccurrence) in
  if negb (countsAgree expectedCounts candidateCounts) then greturn unresolvedDependency
  else
    out ← grange order (fun want out =>
            grange (default [] (grouped !! want)) (candidateStep ctx req want) out) [];
    greturn (Some out, None).

Definition dependencies (ctx : context) (req : DecodedAWSRequest) (expected : list string)
    (candidates : list DependencyOccurrence) : nat -> outcome (list IAMRequirement) * nat :=
  grun (dependenciesBody ctx req expected candidates).
End Dependencies.

(** ** mapper.go *)

Definition MapperVersionConst : string := "kordn-iammap/v4".

(** A call through an interface: it returns, or it panics. *)
Inductive called (A : Type) := Returned (a : A) | Panicked.
Arguments Returned {A} a.
Arguments Panicked {A}.

Definition decodedEndpoint (req : option DecodedAWSRequest) : AWSEndpoint :=
  match req with
  | None => zeroEndpoint
  | Some req =>
    mkEndpoint (Partition req) (EndpointHost req) (AwsTypes.AwsTypes.Service req)
      (SigningService req) (SigningRegion req) (Region req) (Region req =? "")%string (Scope req)
      (FIPS req) (DualStack req) (AccountID req)
  end.

(** [sort.Slice] by action, then joined resources (a stable order among equal
    keys), after which each requirement's resources are sorted. *)
Definition requirementLeb (a b : IAMRequirement) : bool :=
  if negb (Action a =? Action b)%string then str_leb (Action a) (Action b)
  else str_leb (Join (Resources a) (String (chr 0) EmptyString))
               (Join (Resources b) (String (chr 0) EmptyString)).
Definition sortRequirements (v : list IAMRequirement) : list IAMRequirement :=
  (fun r => mkRequirement (Action r) (sort_strings (Resources r)) (ScopeKind r) (Dependent r)
              (ConditionHint r)) <$> sort_by requirementLeb v.

Record Mapper := mkMapper {
  classifier : string -> called (result AWSEndpoint);
  adapterVersion : string;
  (** [m.adapter.(wireLookupAdapter)]; [None] when the assertion fails. *)
  wireLookup : option (context -> string -> string -> WireIdentity -> list (string * Value) ->
                       nat -> called (LookupResult * option gerr) * nat);
}.

Section Map.
Context `{U : UnicodeTables}.
(** [awsrequest.AuthoritativeProtocol] and [data.AuthorizationDataVersion]:
    read off the pinned catalog. *)
Context (AuthoritativeProtocol : string -> option string) (dataVersion : string).

(** What [mapOne] ends in. *)
Definition ended : Type := called (outcome MappingResult).
Notation M A := (G ended A).
Definition returns (o : outcome MappingResult) : ended := Returned o.
Definition fail (kind : Z) (stage : string) (cause : option gerr) : ended :=
  Returned (fails (mappingFailure kind stage cause)).
Definition pollM (ctx : context) : M unit := poll ctx (fun e => returns (ctxFails e)).

(** A call that may panic. *)
Definition invoke {A} (c : called A) : M A :=
  match c with Returned a => mret a | Panicked => greturn Panicked end.
Definition invokeAt {A} (m : nat -> called A * nat) : M A := call m ≫= invoke.

Definition toGerr (e : rerr) : gerr :=
  match e with RCtx e => GCtx e | RErr e => GPlain e end.

(** The handling of a lookup error. *)
Definition lookupFailure (err : gerr) : ended :=
  match mappingContextFailure (Some err) with
  | Some _ => returns (fails err)
  | None =>
    match asFailure err with
    | Some (kind, detail) =>
      if (kind =? FailureUnknownWireOperation) || (kind =? FailureIncompleteWireIdentity)
      then fail MappingFailureUnknownWireOperation "wire" (Some err)
      else if kind =? FailureAmbiguousWireOperation
      then fail MappingFailureAmbiguousWireOperation "wire" (Some err)
      else if kind =? FailureUnresolvedApplicability
      then fail MappingFailureUnresolvedPrimaryResource "resource" (Some err)
      else if kind =? FailureUnresolvedDependency
      then returns (fails (mappingFailureWithDetail MappingFailureUnresolvedDependency "dependency"
             (Some err) detail))
      else fail MappingFailureCatalogInconsistency "catalog" (Some err)
    | None => fail MappingFailureCatalogInconsistency "catalog" (Some err)
    end
  end.

(** The target header of a JSON request; [None] is an unknown operation. *)
Definition wireTarget (req : DecodedAWSRequest) : option string :=
  if mem_str (Protocol req) [ProtocolJSON10; ProtocolJSON11] then
    match Headers req with
    | None => None
    | Some h => match header_Values h "X-Amz-Target" with [t] => Some t | _ => None end
    end
  else Some EmptyString.

(** The body of the loop over primary occurrences. *)
Definition primaryStep (ctx : context) (req : DecodedAWSRequest) (canonical : string)
    (primary : PrimaryOccurrence) (s : list IAMRequirement * list string)
  : M (list IAMRequirement * list string) :=
  _ ← pollM ctx;
  let action := canonicalAction (act_Service (pr_Action primary) ++ ":" ++
                                 act_Name (pr_Action primary)) in
  if (action =? "")%string || negb (pr_Operation primary =? canonical)%string
  then greturn (fail MappingFailureCatalogInconsistency "catalog" None)
  else
    r ← call (resourceForPrimaryContext (Some ctx) req (ResourceType primary) action);
    let '(res, scope, err) := r : resolution in
    match err with
    | Some e =>
      match mappingContextFailure (Some (toGerr e)) with
      | Some _ => greturn (returns (fails (toGerr e)))
      | None => greturn (fail MappingFailureUnresolvedPrimaryResource "resource" (Some (toGerr e)))
      end
    | None =>
      if (scope =? ScopeUnresolved)%string || (List.length res =? 0)%nat
      then greturn (fail MappingFailureUnresolvedPrimaryResource "resource" None)
      else if negb (pr_Scope primary =? "")%string && negb (scope =? pr_Scope primary)%string &&
              negb ((pr_Scope primary =? "exact")%string && (scope =? ScopeSet)%string)
      then greturn (fail MappingFailureCatalogInconsistency "catalog" None)
      else
        let '(reqs, deps) := s in
        mret (reqs ++ [mkRequirement action res scope false []],
              deps ++ DefinitionDependencies primary)
    end.

Definition dependencyStep (ctx : context) (d : IAMRequirement) (reqs : list IAMRequirement)
  : M (list IAMRequirement) :=
  _ ← pollM ctx;
  if (ScopeKind d =? ScopeUnresolved)%string
  then greturn (fail MappingFailureUnresolvedDependency "dependency" None)
  else mret (reqs ++ [d]).

Definition evidenceOf (req : DecodedAWSRequest) (canonical : string) : list MappingEvidence :=
  [mkEvidence "endpoint" "service" (AwsTypes.AwsTypes.Service req);
   mkEvidence "endpoint" "partition" (Partition req);
   mkEvidence "endpoint" "region" (Region req);
   mkEvidence "protocol" "protocol" (Protocol req);
   mkEvidence "decoder" "operation" canonical].

(** From the lookup's answer to the mapping. *)
Definition buildMapping (m : Mapper) (ctx : context) (req : DecodedAWSRequest)
    (lookup : LookupResult) : M ended :=
  let canonical := lk_Operation lookup in
  if (canonical =? "")%string || (List.length (PrimaryOccurrences lookup) =? 0)%nat
  then greturn (fail MappingFailureCatalogInconsistency "catalog" None)
  else
    rd ← grange (PrimaryOccurrences lookup) (primaryStep ctx req canonical) ([], []);
    _ ← pollM ctx;
    let '(reqs, expected) := rd : list IAMRequirement * list string in
    d ← call (dependencies ctx req expected (DependencyOccurrences lookup));
    let '(deps, err) := d : outcome (list IAMRequirement) in
    match err with
    | Some e => greturn (returns (fails e))
    | None =>
      reqs ← grange (default [] deps) (dependencyStep ctx) reqs;
      let r := mkMapping (AwsTypes.AwsTypes.Service req) canonical (sortRequirements reqs)
                 MapperVersionConst (adapterVersion m) dataVersion ConfidenceHigh
                 (evidenceOf req canonical) in
      match Mapping_Validate r with
      | Some e => greturn (fail MappingFailureInvalidResult "result" (Some (GPlain e)))
      | None => greturn (returns (Some r, None))
      end
    end.

Definition mapOneBody (m : Mapper) (ctx : context) (req : DecodedAWSRequest) : M ended :=
  _ ← pollM ctx;
  classified ← invoke (classifier m (EndpointHost req));
  match classified with
  | Err e => greturn (fail MappingFailureCatalogInconsistency "endpoint" (Some (GPlain e)))
  | Ok ep =>
    if negb (SameEndpoint ep (decodedEndpoint (Some req)))
    then greturn (fail MappingFailureCatalogInconsistency "endpoint" None)
    else if negb (ep_AccountID ep =? "")%string && negb (ep_AccountID ep =? CallerAccountID req)%string
    then greturn (fail MappingFailureCatalogInconsistency "account"
           (Some (GPlain (ErrNew "endpoint account disagrees with caller context"))))
    else if negb (bool_decide (AuthoritativeProtocol (AwsTypes.AwsTypes.Service req)
                               = Some (Protocol req)))
    then greturn (fail MappingFailureCatalogInconsistency "protocol" None)
    else
      let op := normalizeOperation (AwsTypes.AwsTypes.Operation req) in
      if (op =? "")%string then greturn (fail MappingFailureUnknownWireOperation "wire" None)
      else match wireTarget req with
      | None => greturn (fail MappingFailureUnknownWireOperation "wire" None)
      | Some target =>
        match wireLookup m with
        | None => greturn (fail MappingFailureCatalogInconsistency "adapter" None)
        | Some lookupFn =>
          let identity := mkWire (Protocol req) (Method req) (CanonicalPath req)
                            (CanonicalQuery req) target in
          a ← invokeAt (lookupFn ctx (AwsTypes.AwsTypes.Service req) op identity (Parameters req));
          let '(lookup, err) := a : LookupResult * option gerr in
          match err with
          | Some e => greturn (lookupFailure e)
          | None => buildMapping m ctx req lookup
          end
        end
      end
  end.

Definition mapOne (m : Mapper) (ctx : context) (req : DecodedAWSRequest) : nat -> ended * nat :=
  grun (mapOneBody m ctx req).

(** [Map]: [wctx] is the derived context with the mapper's timeout. *)
Definition MapBody (m : option Mapper) (ctx wctx : context) (req : option DecodedAWSRequest)
  : G (outcome MappingResult) (outcome MappingResult) :=
  match m with
  | None => greturn (fails (mappingFailure MappingFailureLowConfidence "mapper"
                              (Some (GPlain (ErrNew "mapper unavailable")))))
  | Some m =>
    match req with
    | None => greturn (fails (mappingFailure MappingFailureLowConfidence "input"
                                (Some (GPlain (ErrNew "decoded request is required")))))
    | Some req =>
      match Decoded_Validate req with
      | Some e => greturn (fails (mappingFailure MappingFailureLowConfidence "input" (Some (GPlain e))))
      | None =>
        _ ← poll ctx (fun e => (None, mappingContextFailure (Some (GCtx e))));
        r ← call (mapOne m wctx req);
        match r with
        | Panicked =>
          greturn (fails (mappingFailure MappingFailurePanic "mapper"
                     (Some (GMapping MappingFailurePanic EmptyString None EmptyString))))
        | Returned (result, Some err) =>
          greturn (match mappingContextFailure (Some err) with
                   | Some e => fails e | None => fails err end)
        | Returned (result, None) =>
          _ ← poll wctx (fun e => (None, mappingContextFailure (Some (GCtx e))));
          match result with
          | None => greturn (fails (mappingFailure MappingFailureInvalidResult "result"
                                      (Some (GPlain (ErrNew "nil mapping")))))
          | Some r => greturn (Some r, None)
          end
        end
      end
    end
  end.

Definition Map (m : option Mapper) (ctx : option context) (wctx : context)
    (req : option DecodedAWSRequest) : outcome MappingResult :=
  (grun (MapBody m (ctxOf ctx) wctx req) 0).1.
End Map.

(** ** Error texts *)

Lemma labelRune_bytes s : forallb labelRune (runes s) = bytes_all labelRune s.
Proof.
  apply runes_all_ascii. intros r Hr. unfold labelRune, is_lower, is_upper, is_digit, between. zbool.
Qed.

Definition printable (c : Z) : bool := between 32 126 c.

Lemma safeMappingDetail_spec d :
  slen (safeMappingDetail d) <= 96 /\ bytes_all printable (safeMappingDetail d) = true.
Proof.
  unfold safeMappingDetail. destruct (Z.ltb_spec 96 (slen d)); [by split|].
  rewrite existsb_negb, labelRune_bytes. destruct (bytes_all labelRune d) eqn:E; [|by split].
  split; [done|]. revert E. apply bytes_all_weaken. intros r _ H'.
  unfold labelRune, printable in *. zbool.
Qed.

Lemma safeMappingStage_cases stage :
  safeMappingStage stage = "" \/ safeMappingStage stage ∈ mappingStages.
Proof.
  unfold safeMappingStage. destruct (mem_str stage mappingStages) eqn:E; [right|by left].
  by apply mem_str_In.
Qed.

Lemma stage_text stage :
  slen (safeMappingStage stage) <= 10 /\ bytes_all printable (safeMappingStage stage) = true.
Proof.
  destruct (safeMappingStage_cases stage) as [->|Hin]; [by split|].
  assert (forallb (fun s => (slen s <=? 10) && bytes_all printable s) mappingStages = true) as HF
    by reflexivity.
  rewrite forallb_forall in HF. apply list_elem_of_In in Hin. apply HF in Hin. bool_hyps.
  split; [lia|done].
Qed.

Lemma kindString_text k : slen (kindString k) <= 27 /\ bytes_all printable (kindString k) = true.
Proof. unfold kindString. repeat case_if; split; done. Qed.

(** The text of a mapping error is bounded and printable whatever the
    stage, the detail and the cause: no request data can grow it past 160 bytes
    or put a control byte in it. *)
Theorem mappingErrorText_bounded (kind : Z) (stage detail : string) :
  slen (mappingErrorText kind stage detail) <= 160 /\
  bytes_all printable (mappingErrorText kind stage detail) = true.
Proof.
  unfold mappingErrorText. case_if; [by split|]. cbv zeta.
  destruct (stage_text stage) as [Ls Ps], (kindString_text kind) as [Lk Pk],
    (safeMappingDetail_spec detail) as [Ld Pd].
  split.
  - repeat case_if; rewrite ?slen_app; repeat match goal with
      |- context [slen ?s] => let v := eval vm_compute in (slen s) in
        match v with Z0 => change (slen s) with v | Zpos _ => change (slen s) with v end end; lia.
  - repeat case_if; rewrite ?bytes_all_app, ?Ps, ?Pk, ?Pd; done.
Qed.

(** ** Dependencies *)

(** How often an action occurs. *)
Definition occ (a : string) (l : list string) : Z := Z.of_nat (List.length (filter (fun x => x = a) l)).

Lemma occ_snoc a l x : occ a (l ++ [x]) = occ a l + (if decide (x = a) then 1 else 0).
Proof.
  unfold occ. rewrite filter_app, length_app. cbn [filter list_filter]. case_decide; cbn; lia.
Qed.

Lemma occ_pos a l : 0 < occ a l <-> a ∈ l.
Proof.
  unfold occ. split.
  - destruct (filter (fun x => x = a) l) as [|y ys] eqn:E; [cbn; lia|]. intros _.
    assert (y ∈ filter (fun x => x = a) l) as Hy by (rewrite E; left).
    by apply list_elem_of_filter in Hy as [-> ?].
  - intros Ha. assert (a ∈ filter (fun x => x = a) l) as Hin by (by apply list_elem_of_filter).
    destruct (filter _ l); [by apply not_elem_of_nil in Hin|]. cbn. lia.
Qed.

Lemma occ_cons a x l : occ a (x :: l) = occ a l + (if decide (x = a) then 1 else 0).
Proof. unfold occ. rewrite filter_cons. case_decide; cbn; lia. Qed.

Lemma occ_perm a l l' : Permutation l l' -> occ a l = occ a l'.
Proof. intros Hp. unfold occ. by rewrite Hp. Qed.

(** Equal multiplicities are a permutation. *)
Lemma occ_Permutation l1 l2 : (forall a, occ a l1 = occ a l2) -> Permutation l1 l2.
Proof.
  revert l2. induction l1 as [|x l1 IH]; intros l2 H.
  - destruct l2 as [|y l2]; [done|]. specialize (H y). rewrite occ_cons, decide_True in H by done.
    unfold occ in H. cbn in H. lia.
  - assert (x ∈ l2) as Hx.
    { apply occ_pos. rewrite <-H, occ_cons, decide_True by done. unfold occ. lia. }
    apply elem_of_Permutation in Hx as [l2' Hp]. rewrite Hp. f_equiv. apply IH. intros a.
    specialize (H a). rewrite (occ_perm _ _ _ Hp), !occ_cons in H. lia.
Qed.

(** The errors the package makes itself: a context's, to be wrapped by [Map],
    or a [*MappingError] of a kind in the closed set. *)
Definition mapper_error (e : gerr) : Prop :=
  match e with
  | GCtx _ => True
  | GMapping kind _ _ _ => 1 <= kind <= 10
  | _ => False
  end.

Section DependencyFacts.
Context `{U : UnicodeTables} (ctx : context) (req : DecodedAWSRequest).

Definition candidateAction (c : DependencyOccurrence) : string :=
  canonicalAction (act_Service (dep_Action c) ++ ":" ++ act_Name (dep_Action c)).

(** Every list of requirements is allowed of the early returns here: what
    matters is the value the loops fall through with. *)
Definition only_fails (o : outcome (list IAMRequirement)) : Prop :=
  exists e, o = (None, Some e) /\ mapper_error e.

Lemma unresolvedDependency_fails : only_fails unresolvedDependency.
Proof. eexists. split; [reflexivity|]. cbn. unfold MappingFailureUnresolvedDependency. lia. Qed.
Lemma ctxFails_fails e : only_fails (ctxFails e).
Proof. by eexists. Qed.
#[local] Hint Resolve unresolvedDependency_fails ctxFails_fails : core.

Lemma poll_fails : gwp only_fails (poll ctx ctxFails) (fun _ => True).
Proof. apply gwp_poll; auto. Qed.

Lemma countOf_insert m a b v : countOf (<[a := v]> m) b = if decide (a = b) then v else countOf m b.
Proof.
  unfold countOf. case_decide as E; [by rewrite E, lookup_insert_eq|by rewrite lookup_insert_ne].
Qed.

Definition expect_inv (seen : list string) (s : gmap string Z * list string) : Prop :=
  (forall a, countOf s.1 a = occ a (canonicalAction <$> seen)) /\
  (forall a, a ∈ s.2 <-> a ∈ canonicalAction <$> seen).

Lemma expectStep_ok wanted seen s :
  expect_inv seen s -> gwp only_fails (expectStep ctx wanted s) (expect_inv (seen ++ [wanted])).
Proof.
  intros [Hc Ho]. unfold expectStep. apply gwp_true; [apply poll_fails|]. intros _. cbv zeta.
  case_if; [by apply gwp_return|]. destruct s as [counts order]. cbn [fst snd] in *.
  apply gwp_ret. split; cbn [fst snd].
  - intros a. rewrite countOf_insert, fmap_app. cbn [fmap list_fmap]. rewrite occ_snoc, <-!Hc.
    repeat case_decide; subst; try done; lia.
  - intros a. rewrite fmap_app, elem_of_app. cbn [fmap list_fmap]. rewrite list_elem_of_singleton.
    destruct (countOf counts (canonicalAction wanted) =? 0) eqn:E.
    + rewrite elem_of_app, list_elem_of_singleton, Ho. done.
    + rewrite Ho. split; [by left|]. intros [?| ->]; [done|]. apply occ_pos. rewrite <-Hc.
      rewrite Hc in *. unfold occ in *. lia.
Qed.

Definition group_inv (seen : list DependencyOccurrence)
    (s : gmap string Z * gmap string (list DependencyOccurrence)) : Prop :=
  (forall a, countOf s.1 a = occ a (candidateAction <$> seen)) /\
  (forall a c, c ∈ default [] (s.2 !! a) -> c ∈ seen /\ candidateAction c = a).

Lemma groupStep_ok candidate seen s :
  group_inv seen s -> gwp only_fails (groupStep ctx candidate s) (group_inv (seen ++ [candidate])).
Proof.
  intros [Hc Hg]. unfold groupStep. apply gwp_true; [apply poll_fails|]. intros _. cbv zeta.
  case_if; [by apply gwp_return|]. case_if; [by apply gwp_return|].
  fold (candidateAction candidate). destruct s as [counts grouped]. cbn [fst snd] in *.
  apply gwp_ret. split; cbn [fst snd].
  - intros a. rewrite countOf_insert, fmap_app. cbn [fmap list_fmap]. rewrite occ_snoc, <-!Hc.
    repeat case_decide; subst; try done; lia.
  - intros a c. rewrite elem_of_app, list_elem_of_singleton.
    destruct (decide (candidateAction candidate = a)) as [<-|Hne].
    + rewrite lookup_insert_eq. cbn [from_option id]. rewrite elem_of_app, list_elem_of_singleton.
      intros [Hin| ->]; [|auto]. destruct (Hg _ _ Hin). auto.
    + rewrite lookup_insert_ne by done. intros Hin. destruct (Hg _ _ Hin). auto.
Qed.

Lemma countsAgree_spec expected candidates :
  countsAgree expected candidates = true -> forall a, countOf expected a = countOf candidates a.
Proof.
  unfold countsAgree. intros H a. bool_hyps. rewrite forallb_forall in *.
  destruct (expected !! a) as [c|] eqn:E.
  - assert (In (a, c) (map_to_list expected)) as Hin by (by apply list_elem_of_In, elem_of_map_to_list).
    specialize (H1 _ Hin). cbn in H1. unfold countOf at 1. rewrite E. cbn. lia.
  - destruct (candidates !! a) as [c|] eqn:E'; [|by unfold countOf; rewrite E, E'].
    assert (In (a, c) (map_to_list candidates)) as Hin by (by apply list_elem_of_In, elem_of_map_to_list).
    specialize (H0 _ Hin). unfold countOf in H0 at 1. cbn in H0. by rewrite E in H0.
Qed.

Lemma validateDependencyARN_id action value partition v :
  validateDependencyARN action value partition = Ok v -> v = value.
Proof.
  unfold validateDependencyARN, validateRoleARN. intros H. repeat (case_match; try done); by injection H as <-.
Qed.

Lemma validate_loop want values :
  gwp only_fails (grange values (validateStep ctx want (Partition req)) [])
    (fun out => out = values /\
       Forall (fun v => v <> "" /\ validateDependencyARN want v (Partition req) = Ok v) values).
Proof.
  eapply gwp_weaken; [apply (gwp_grange_visited _ values _ (fun seen out => out = seen /\
    Forall (fun v => v <> "" /\ validateDependencyARN want v (Partition req) = Ok v) seen))|].
  - by split.
  - intros seen x s _ [-> Hall]. unfold validateStep. apply gwp_true; [apply poll_fails|]. intros _.
    destruct (validateDependencyARN want x (Partition req)) as [v|] eqn:E; [|by apply gwp_return].
    pose proof (validateDependencyARN_id _ _ _ _ E) as ->. case_if; [by apply gwp_return|].
    apply gwp_ret. split; [done|]. apply Forall_app. split; [done|]. apply Forall_singleton.
    split; [by apply eqb_false_str|done].
  - done.
Qed.

Lemma sameStringsContext_true a b n : (sameStringsContext ctx a b n).1 = true -> a = b.
Proof.
  unfold sameStringsContext. destruct (List.length a =? List.length b)%nat eqn:E; [|done].
  apply Nat.eqb_eq in E. cbn [negb]. revert b n E.
  induction a as [|x a IH]; intros [|y b] n E; cbn [sameLoop]; try done.
  destruct (cancelledAt ctx n); [done|]. destruct (String.eqb_spec x y) as [->|]; [|done].
  cbn [negb]. intros H. injection E as E. by rewrite (IH b (S n)).
Qed.

(** A dependent requirement is an applicable candidate whose resources are
    the values the request itself supplies, validated and sorted. *)
Definition dependent_ok (candidates : list DependencyOccurrence) (r : IAMRequirement) : Prop :=
  exists candidate names n,
    candidate ∈ candidates /\ candidateAction candidate = Action r /\
    dep_Applicability candidate <> ApplicabilityInapplicable /\
    Permutation (Resources r) (dep_Resources candidate) /\
    Permutation (Resources r) (FindContext ctx (Parameters req) names n).1 /\
    StronglySorted (fun a b => str_leb a b = true) (Resources r) /\
    Resources r <> [] /\
    (forall v, v ∈ Resources r -> validateDependencyARN (Action r) v (Partition req) = Ok v) /\
    ScopeKind r = (if (1 <? List.length (Resources r))%nat then ScopeSet else ScopeExact) /\
    Dependent r = true.

Lemma candidateStep_ok candidates want candidate out :
  candidate ∈ candidates -> candidateAction candidate = want ->
  Forall (dependent_ok candidates) out ->
  gwp only_fails (candidateStep ctx req want candidate out) (Forall (dependent_ok candidates)).
Proof.
  intros Hin Hact Hout. unfold candidateStep. apply gwp_true; [apply poll_fails|]. intros _.
  case_bool_decide as Happ; [by apply gwp_ret|].
  set (names := match ParameterNames candidate with [] => roleNames | ns => ns end). cbv zeta.
  apply (gwp_bind _ _ _ (fun e => exists n, e = (FindContext ctx (Parameters req) names n).1)).
  { apply gwp_call. intros n. by exists n. }
  intros expected [n He]. destruct (_ || _) eqn:Hlen; [by apply gwp_return|].
  eapply gwp_bind; [apply validate_loop|]. intros e' [-> Hve].
  eapply gwp_bind; [apply validate_loop|]. intros a' [-> Hva].
  apply (gwp_bind _ _ _ (fun same => same = true -> sort_strings expected = sort_strings (dep_Resources candidate))).
  { apply gwp_call. intros k. apply sameStringsContext_true. }
  intros same Hsame. destruct same; cbn [negb]; [|by apply gwp_return]. specialize (Hsame eq_refl).
  apply gwp_ret. apply Forall_app. split; [done|]. apply Forall_singleton.
  exists candidate, names, n. cbn [Action Resources ScopeKind Dependent].
  split_and!; try done.
  - apply sort_strings_perm.
  - by rewrite <-He, <-Hsame, sort_strings_perm.
  - apply sort_strings_sorted.
  - intros E. apply orb_false_iff in Hlen as [Hl _]. rewrite <-Hsame in E.
    apply (f_equal List.length) in E. rewrite sort_strings_length in E. by rewrite E in Hl.
  - intros v Hv. rewrite sort_strings_perm in Hv. rewrite Forall_forall in Hva. by apply Hva.
Qed.

Definition deps_ok expected candidates (o : outcome (list IAMRequirement)) : Prop :=
  only_fails o \/
  exists out, o = (Some out, None) /\
    Permutation (canonicalAction <$> expected) (candidateAction <$> candidates) /\
    Forall (dependent_ok candidates) out.

Lemma gwp_or {R A} (P Q : R -> Prop) (m : G R A) (I : A -> Prop) : gwp P m I -> gwp (fun r => P r \/ Q r) m I.
Proof. intros H n. specialize (H n). destruct (m n).1; auto. Qed.

Lemma dependenciesBody_ok expected candidates :
  gwp (deps_ok expected candidates) (dependenciesBody ctx req expected candidates)
    (deps_ok expected candidates).
Proof.
  unfold dependenciesBody. eapply gwp_bind.
  { apply gwp_or. apply (gwp_grange_visited _ expected _ expect_inv).
    - split; [done|]. intros a. split; intros H; by apply not_elem_of_nil in H.
    - intros seen x s _. apply expectStep_ok. }
  intros [ec order] [Hec _]. eapply gwp_bind.
  { apply gwp_or. apply (gwp_grange_visited _ candidates _ group_inv).
    - split; [done|]. intros a c Hc. cbn in Hc. rewrite lookup_empty in Hc. by apply not_elem_of_nil in Hc.
    - intros seen x s _. apply groupStep_ok. }
  intros [cc grouped] [Hcc Hg]. cbn [fst snd] in *.
  destruct (countsAgree ec cc) eqn:Hag; cbn [negb].
  2: { apply gwp_return. by left. }
  eapply (gwp_bind _ _ _ (Forall (dependent_ok candidates))).
  - apply gwp_grange; [constructor|]. intros want s _ Hs. apply gwp_grange; [done|].
    intros candidate s' Hc Hs'. apply gwp_or. destruct (Hg want candidate Hc) as [Hin Hact].
    by apply candidateStep_ok.
  - intros out Hout. apply gwp_return. right. exists out. split; [done|]. split; [|done].
    apply occ_Permutation. intros a. rewrite <-Hec, <-Hcc. by apply countsAgree_spec.
Qed.

Lemma dependencies_ok expected candidates n :
  deps_ok expected candidates (dependencies ctx req expected candidates n).1.
Proof. apply (gwp_grun (deps_ok expected candidates)), dependenciesBody_ok. Qed.

(** Dependency evidence is matched by multiplicity and taken from the
    request: a success means the expected and the candidate actions are the
    same multiset, and every returned requirement is an applicable candidate
    whose resources are exactly the request's own values, each a validated
    ARN of the request's partition, sorted; anything else is an error and
    returns nothing. *)
Theorem dependencies_sound (expected : list string) (candidates : list DependencyOccurrence) (n : nat) :
  (exists e, (dependencies ctx req expected candidates n).1 = (None, Some e) /\ mapper_error e) \/
  (exists out, (dependencies ctx req expected candidates n).1 = (Some out, None) /\
     Permutation (canonicalAction <$> expected) (candidateAction <$> candidates) /\
     Forall (dependent_ok candidates) out).
Proof. exact (dependencies_ok expected candidates n). Qed.
End DependencyFacts.

(** ** Map *)

Section MapFacts.
Context `{U : UnicodeTables} (AuthoritativeProtocol : string -> option string) (dataVersion : string).

Definition requirement_ok (req : DecodedAWSRequest) (r : IAMRequirement) : Prop :=
  ScopeKind r <> ScopeUnresolved /\ Resources r <> [] /\
  (if Dependent r
   then forall v, v ∈ Resources r -> validateDependencyARN (Action r) v (Partition req) = Ok v
   else (ScopeKind r = ScopeKnownGlobal /\ Resources r = ["*"]) \/ Forall (arn_ok req) (Resources r)).

Definition mapping_ok (m : Mapper) (req : DecodedAWSRequest) (r : MappingResult) : Prop :=
  Mapping_Validate r = None /\
  map_Service r = AwsTypes.AwsTypes.Service req /\ Confidence r = ConfidenceHigh /\
  MapperVersion r = MapperVersionConst /\
  (forall q, q ∈ Requirements r -> requirement_ok req q) /\
  exists ep, classifier m (EndpointHost req) = Returned (Ok ep) /\
    SameEndpoint ep (decodedEndpoint (Some req)) = true /\
    (ep_AccountID ep = "" \/ ep_AccountID ep = CallerAccountID req) /\
    AuthoritativeProtocol (AwsTypes.AwsTypes.Service req) = Some (Protocol req).

(** Errors [Map] passes on, or turns into a timeout or a cancellation. *)
Definition reportable (e : gerr) : Prop := mapper_error e \/ mappingContextFailure (Some e) <> None.

(** How a run of [mapOne] may end. *)
Definition ended_ok (P : MappingResult -> Prop) (o : ended) : Prop :=
  match o with
  | Panicked => True
  | Returned (Some r, None) => P r
  | Returned (None, Some e) => reportable e
  | Returned _ => False
  end.

Section OneRun.
Context (m : Mapper) (req : DecodedAWSRequest) (P : MappingResult -> Prop).
Notation ok x Q := (gwp (ended_ok P) x Q).

Lemma fail_ok kind stage cause : 1 <= kind <= 10 -> ended_ok P (fail kind stage cause).
Proof. intros H. cbn. left. cbn. destruct (Z.eqb_spec kind 0); [lia|done]. Qed.

Lemma ctx_ok e : ended_ok P (returns (ctxFails e)).
Proof. left. done. Qed.

Lemma pollM_ok ctx : ok (pollM ctx) (fun _ => True).
Proof. apply gwp_poll; [apply ctx_ok|done]. Qed.

Lemma invoke_ok {A} (c : called A) : ok (invoke c) (fun a => c = Returned a).
Proof. destruct c; [by apply gwp_ret|by apply gwp_return]. Qed.

Lemma fails_contextual_ok e : mappingContextFailure (Some e) <> None -> ended_ok P (returns (fails e)).
Proof. intros H. right. done. Qed.

Lemma lookupFailure_ok e : ended_ok P (lookupFailure e).
Proof.
  unfold lookupFailure. destruct (mappingContextFailure (Some e)) eqn:E;
    [apply fails_contextual_ok; congruence|].
  destruct (asFailure e) as [[kind detail]|]; [|by apply fail_ok].
  repeat case_if; try (by apply fail_ok). cbn. left. done.
Qed.

Definition collected (s : list IAMRequirement * list string) : Prop := Forall (requirement_ok req) s.1.

Lemma resolution_requirement kind action res scope :
  resolution_ok req kind (res, scope, None) -> (scope =? ScopeUnresolved)%string = false ->
  (List.length res =? 0)%nat = false ->
  requirement_ok req (mkRequirement action res scope false []).
Proof.
  intros Hr Hs%eqb_false_str Hl. split; [done|]. split; [by destruct res|].
  cbn [Dependent Resources ScopeKind].
  destruct Hr as [[? _]|[(_ & -> & -> & _)|[(_ & -> & a & -> & Ha)|(_ & -> & _ & Ha)]]]; [done|..]; auto.
Qed.

Lemma primaryStep_ok ctx canonical primary s :
  collected s -> ok (primaryStep ctx req canonical primary s) collected.
Proof.
  intros Hs. unfold primaryStep. apply gwp_true; [apply pollM_ok|]. intros _. cbv zeta.
  case_if; [by apply gwp_return, fail_ok|].
  eapply gwp_bind; [apply gwp_call; intros n; apply resourceForPrimary_ok|].
  intros [[res scope] err] Hr. destruct err as [e|].
  - destruct (mappingContextFailure (Some (toGerr e))) eqn:E; apply gwp_return;
      [apply fails_contextual_ok; congruence|by apply fail_ok].
  - destruct ((scope =? ScopeUnresolved)%string || _) eqn:Hu; [by apply gwp_return, fail_ok|].
    apply orb_false_iff in Hu as [Hu Hl]. case_if; [by apply gwp_return, fail_ok|].
    destruct s as [reqs deps]. apply gwp_ret. unfold collected in *. cbn [fst] in *.
    apply Forall_app. split; [done|]. apply Forall_singleton. by eapply resolution_requirement.
Qed.

Lemma dependent_requirement ctx candidates d :
  dependent_ok ctx req candidates d -> ScopeKind d <> ScopeUnresolved -> requirement_ok req d.
Proof.
  intros (c & names & n & _ & _ & _ & _ & _ & _ & Hne & Hv & _ & Hd) Hs.
  split; [done|]. split; [done|]. by rewrite Hd.
Qed.

Lemma dependencyStep_ok ctx candidates d reqs :
  dependent_ok ctx req candidates d -> Forall (requirement_ok req) reqs ->
  ok (dependencyStep ctx d reqs) (Forall (requirement_ok req)).
Proof.
  intros Hd Hr. unfold dependencyStep. apply gwp_true; [apply pollM_ok|]. intros _.
  case_if; [by apply gwp_return, fail_ok|]. apply eqb_false_str in Heqb.
  apply gwp_ret, Forall_app. split; [done|]. apply Forall_singleton.
  by eapply dependent_requirement.
Qed.

Lemma sortRequirements_ok reqs :
  Forall (requirement_ok req) reqs -> forall q, q ∈ sortRequirements reqs -> requirement_ok req q.
Proof.
  intros Hr q (r & -> & Hin)%list_elem_of_fmap. rewrite sort_by_perm in Hin.
  apply (proj1 (Forall_forall _ _) Hr) in Hin as (Hs & Hne & Hd).
  split; [done|]. cbn [Resources Dependent ScopeKind Action]. split.
  - intros E. destruct Hne. apply (f_equal List.length) in E. rewrite sort_strings_length in E.
    by destruct (Resources r).
  - destruct (Dependent r).
    + intros v. rewrite sort_strings_perm. apply Hd.
    + destruct Hd as [[Hk Hres]|Hall]; [left; by rewrite Hres|right].
      by rewrite sort_strings_perm.
Qed.

Lemma buildMapping_ok ctx lookup :
  (forall r, Mapping_Validate r = None -> map_Service r = AwsTypes.AwsTypes.Service req ->
     Confidence r = ConfidenceHigh -> MapperVersion r = MapperVersionConst ->
     (forall q, q ∈ Requirements r -> requirement_ok req q) -> P r) ->
  ok (buildMapping dataVersion m ctx req lookup) (ended_ok P).
Proof.
  intros HP. unfold buildMapping. cbv zeta. case_if; [by apply gwp_return, fail_ok|].
  eapply gwp_bind; [apply (gwp_grange _ _ _ collected); [constructor|intros; by apply primaryStep_ok]|].
  intros [reqs expected] Hreqs. apply gwp_true; [apply pollM_ok|]. intros _.
  eapply gwp_bind; [apply gwp_call; intros n; apply dependencies_ok|].
  intros d [(e & -> & He)|(out & -> & _ & Hout)]; [apply gwp_return; by left|].
  eapply (gwp_bind _ _ _ (Forall (requirement_ok req))).
  - apply gwp_grange; [exact Hreqs|]. intros x s Hx Hs. eapply dependencyStep_ok; [|done].
    by apply (proj1 (Forall_forall _ _) Hout).
  - intros all Hall. destruct (Mapping_Validate _) eqn:Hv; [by apply gwp_return, fail_ok|].
    apply gwp_return. apply HP; try done. by apply sortRequirements_ok.
Qed.
End OneRun.

Lemma mapOneBody_ok m ctx req :
  gwp (ended_ok (mapping_ok m req)) (mapOneBody AuthoritativeProtocol dataVersion m ctx req)
    (ended_ok (mapping_ok m req)).
Proof.
  unfold mapOneBody. apply gwp_true; [apply pollM_ok|]. intros _.
  eapply gwp_bind; [apply invoke_ok|]. intros [ep|e] Hc; [|by apply gwp_return, fail_ok].
  destruct (SameEndpoint ep (decodedEndpoint (Some req))) eqn:Hsame; [|by apply gwp_return, fail_ok].
  cbn [negb]. destruct (_ && _) eqn:Hacc; [by apply gwp_return, fail_ok|].
  case_bool_decide as Hprot; cbn [negb]; [|by apply gwp_return, fail_ok]. cbv zeta.
  case_if; [by apply gwp_return, fail_ok|].
  destruct (wireTarget req) as [target|]; [|by apply gwp_return, fail_ok].
  destruct (wireLookup m) as [lookupFn|]; [|by apply gwp_return, fail_ok].
  apply gwp_true.
  { apply gwp_true; [by apply gwp_call|]. intros c. eapply gwp_weaken; [apply invoke_ok|done]. }
  intros [lookup [e|]]; [apply gwp_return, lookupFailure_ok|].
  apply buildMapping_ok. intros r H1 H2 H3 H4 H5. split_and!; try done.
  exists ep. split_and!; try done. apply andb_false_iff in Hacc as [H|H];
    apply negb_false_iff, eqb_true_str in H; auto.
Qed.

Lemma contextFailure_kind err e :
  mappingContextFailure (Some err) = Some e -> exists k c, e = GMapping k "context" c "" /\ 1 <= k <= 10.
Proof.
  unfold mappingContextFailure. repeat case_if; intros [= <-].
  - exists MappingFailureTimeout. by eexists.
  - exists MappingFailureCancellation. by eexists.
Qed.

Lemma ctx_contextFailure e : exists e', mappingContextFailure (Some (GCtx e)) = Some e'.
Proof. destruct e; by eexists. Qed.

(** The resources of a mapping in their whole text. *)
Definition wellNamed (ep : AWSEndpoint) : Prop := cleanText (ep_Partition ep) /\ cleanText (ep_Region ep).
Definition resources_clean (r : MappingResult) : Prop :=
  forall q a, q ∈ Requirements r -> a ∈ Resources q ->
    (ScopeKind q = ScopeKnownGlobal /\ a = "*") \/ cleanText a.

(** The endpoints of the repository's classifier are well named. *)
Lemma commercial_wellNamed fs host ep :
  Endpoint.Endpoint.no_account_prefix fs -> Endpoint.Endpoint.classifyCommercialHost host fs = Some ep ->
  wellNamed ep.
Proof.
  intros Hn (st & P & f & region & account & _ & _ & _ & Hr & _ & ->)%Endpoint.Endpoint.classify_reads; [|done].
  split; [reflexivity|]. cbn [Endpoint.Endpoint.endpointOf Endpoint.Endpoint.awsEndpointWithAccount ep_Region].
  destruct (Endpoint.Endpoint.is_global st) eqn:Hg; [reflexivity|].
  assert (Endpoint.Endpoint.validCommercialRegion region = true) as Hv by (apply Hr; by destruct st).
  unfold Endpoint.Endpoint.validCommercialRegion, Endpoint.Endpoint.supportedRegion in Hv.
  apply andb_true_iff in Hv as [_ Hv%mem_str_In].
  assert (forallb (bytes_all cleanByte) Endpoint.Endpoint.supportedRegions = true) as Hall by (vm_compute; reflexivity).
  rewrite forallb_forall in Hall. by apply Hall, list_elem_of_In.
Qed.

Lemma validateDependencyARN_clean action v partition a :
  validateDependencyARN action v partition = Ok a -> cleanText v.
Proof.
  unfold validateDependencyARN, validateRoleARN. destruct (canonicalAction action =? _)%string.
  - destruct (_ || _ || negb (validPartition partition)) eqn:E; [done|]. intros _.
    apply orb_false_iff in E as [[_ E]%orb_false_iff _]. by apply wildcard_free_clean.
  - destruct (SplitN v ":" 6) as [|p0 [|p1 [|p2 [|p3 [|p4 [|p5 [|]]]]]]]; try done.
    destruct (negb (p0 =? "arn")%string || _ || _ || _ || bytes_any _ v || _ || _) eqn:E; [done|]. intros _.
    apply orb_false_iff in E as [[[_ E]%orb_false_iff _]%orb_false_iff _]. by apply wildcard_free_clean.
Qed.

Lemma account_clean account : validateCallerAccountID account = None -> cleanText account.
Proof.
  unfold validateCallerAccountID. destruct (account =? "")%string eqn:E; [by apply eqb_true_str in E as ->|].
  destruct (negb (slen account =? 12)); [done|]. destruct (bytes_all is_digit account) eqn:Hd; [|done]. intros _.
  eapply bytes_all_weaken; [|exact Hd]. intros c Hc Hdig. unfold cleanByte, in_set. cbn [bytes_any]. zbool.
Qed.

(** A mapping made for a well-named endpoint names nothing but resources. *)
Lemma mapping_clean m req r ep : Decoded_Validate req = None -> mapping_ok m req r ->
  classifier m (EndpointHost req) = Returned (Ok ep) -> wellNamed ep -> resources_clean r.
Proof.
  intros Hv (_ & _ & _ & _ & Hq & ep' & Hc & Hs & _) Hep [Hp Hr]. rewrite Hc in Hep. injection Hep as ->.
  assert (cleanScope req) as Hscope.
  { unfold SameEndpoint, EndpointIdentityEqual in Hs. repeat apply andb_true_iff in Hs as [Hs ?].
    apply eqb_true_str in Hs. cbn [decodedEndpoint ep_Partition] in Hs.
    match goal with H : (ep_Region ep =? _)%string = true |- _ => apply eqb_true_str in H; cbn [decodedEndpoint ep_Region] in H; rename H into Hreg end.
    split_and!; [by rewrite <-Hs|by rewrite <-Hreg|]. apply account_clean.
    unfold Decoded_Validate in Hv. by destruct (validateCallerAccountID _). }
  intros q a (_ & _ & Hres)%Hq Ha. destruct (Dependent q).
  - right. by eapply validateDependencyARN_clean, Hres.
  - destruct Hres as [[Hk He]|Hall].
    + left. split; [done|]. rewrite He in Ha. by apply list_elem_of_singleton in Ha.
    + right. by apply (proj1 (Forall_forall _ _) Hall a Ha).
Qed.

(** What [Map] answers. *)
Definition map_answer (m : option Mapper) (req : option DecodedAWSRequest)
    (o : outcome MappingResult) : Prop :=
  (exists mp rq r, m = Some mp /\ req = Some rq /\ o = (Some r, None) /\
     Decoded_Validate rq = None /\ mapping_ok mp rq r /\
     (forall ep, classifier mp (EndpointHost rq) = Returned (Ok ep) -> wellNamed ep -> resources_clean r)) \/
  (exists kind stage cause detail, o = (None, Some (GMapping kind stage cause detail)) /\
     1 <= kind <= 10).

Lemma answer_fails m req kind stage cause detail :
  1 <= kind <= 10 ->
  map_answer m req (fails (mappingFailureWithDetail kind stage cause detail)).
Proof.
  intros H. right. eexists _, _, _, _. split; [reflexivity|]. by destruct (Z.eqb_spec kind 0); [lia|].
Qed.

Lemma answer_ctx m req err :
  mappingContextFailure (Some err) <> None -> map_answer m req (None, mappingContextFailure (Some err)).
Proof.
  intros H. destruct (mappingContextFailure (Some err)) as [e|] eqn:E; [|done].
  apply contextFailure_kind in E as (k & c & -> & Hk). right. by eexists _, _, _, _.
Qed.

Lemma answer_poll m req ctx :
  gwp (map_answer m req) (poll ctx (fun e => (None, mappingContextFailure (Some (GCtx e)))))
    (fun _ => True).
Proof. apply gwp_poll; [|done]. intros e. apply answer_ctx. by destruct (ctx_contextFailure e) as [? ->]. Qed.

End MapFacts.

End IamMapper.
