(* ===== verification/Config.v ===== *)
(** * Configuration (internal/config: schema.go, the validators and the policy
    identity of validate.go)

    The startup document as records, the semantic validators of its upstream,
    proxy and policy sections, and [CanonicalPolicy] with its hash.  Paths,
    the audit section and loading are in [ConfigLoad]. *)

From Stdlib Require Import ZArith Lia Ascii.
From stdpp Require Import sorting base gmap strings list.
From S2P Require Import Prelude GoStrings GoEncoding GoNet Regexp Glob AwsTypes Policy.

Module Config.
Import Regexp.Regexp AwsTypes.AwsTypes.

(** ** The document *)

Definition APIVersion : string := "kordn.dev/v1alpha1".
Definition Kind : string := "LocalRunPolicy".
Definition DefaultListen : string := "127.0.0.1:0".
Definition DefaultNonAWSTraffic : string := "tunnel".
Definition DefaultUpstreamProxy : string := "inherit".
Definition DefaultMaxInMemoryBodyBytes : Z := 8 * 1024 * 1024.
Definition DefaultMaxSpoolBodyBytes : Z := 64 * 1024 * 1024.
Definition DefaultRoleSessionName : string := "kordn-local".
Definition DefaultRoleDurationSeconds : Z := 3600.
Definition DefaultAuditPath : string := "~/.kordn/audit/events.jsonl".
Definition DefaultAuditLogResourceARNs : bool := true.
Definition DefaultAuditHashResourceNames : bool := false.

Definition EffectAllow : string := "allow".
Definition EffectDeny : string := "deny".
Definition PolicyDeny : string := "deny".
Definition FsyncBatch : string := "batch".
Definition FsyncDecision : string := "decision".
Definition AuditDeny : string := "deny".

Record Upstream := mkUpstream {
  Profile : string; AssumeRoleARN : string; ExternalID : string; SourceIdentity : string;
  RoleSessionName : string; DurationSeconds : Z; Region : string;
}.
Record Proxy := mkProxy {
  Listen : string; NonAWSTraffic : string; UpstreamProxy : string;
  MaxInMemoryBodyBytes : Z; MaxSpoolBodyBytes : Z;
}.
Record Rule := mkRule {
  ID : string; Effect : string; Actions : list string; Resources : list string;
  Regions : list string; Accounts : list string; Partitions : list string;
  AllowAWSRequiredWildcard : bool;
}.
Record Policy := mkPolicy { Default : string; Rules : list Rule }.
Record Audit := mkAudit {
  Path : string; Fsync : string; FailureMode : string;
  LogResourceARNs : bool; HashResourceNames : bool;
}.
Record Config := mkConfig {
  cfg_APIVersion : string; cfg_Kind : string; cfg_Upstream : Upstream; cfg_Proxy : Proxy;
  cfg_Policy : Policy; cfg_Audit : Audit; SourcePath : string; PolicyHash_ : string;
}.

(** ** Limits and patterns *)

Definition maxRules : Z := 10000.
Definition maxRuleList : Z := 1000.
Definition maxPatternLength : Z := 512.
Definition maxMemoryBodyBytes : Z := 64 * 1024 * 1024.
Definition maxSpoolBodyBytes : Z := 512 * 1024 * 1024.
Definition maxAuditPathLength : Z := 4096.
Definition maxProfileLength : Z := 64.

Definition lowerAlnum (c : Z) : bool := is_lower c || is_digit c.
Definition nameByte (c : Z) : bool := is_alnum c || in_set "._-" c.
Definition profilePattern : re := cat (Class is_alnum) (upto 63 (Class nameByte)).
Definition regionPattern : re :=
  cat (plus (Class lowerAlnum))
    (cat (plus (cat (lit "-") (plus (Class lowerAlnum)))) (cat (lit "-") (plus (Class is_digit)))).
Definition accountPattern : re := times 12 (Class is_digit).
Definition ruleIDPattern : re := cat (Class is_alnum) (upto 127 (Class nameByte)).
Definition partitionByte (c : Z) : bool := is_alnum c || (c =? ord "-").
Definition roleByte (c : Z) : bool := negb ((c =? 0) || (c =? 13) || (c =? 10)).
Definition roleARNPattern : re :=
  cat (lit "arn:") (cat (plus (Class partitionByte)) (cat (lit ":iam::")
    (cat (times 12 (Class is_digit)) (cat (lit ":role/") (plus (Class roleByte)))))).
Definition externalIDPattern : re := plus (Class (fun c => is_alnum c || in_set "_+=,.@:/-" c)).
Definition identityPattern : re := plus (Class (fun c => is_alnum c || in_set "_+=,.@-" c)).

Definition supportedPartition (partition : string) : bool :=
  mem_str partition ["aws"; "aws-us-gov"; "aws-cn"; "aws-iso"; "aws-iso-b"; "aws-iso-f"].

(** The first group of a match of [roleARNPattern], whose text has no colon. *)
Definition roleARNPartition (arn : string) : option string :=
  if matches roleARNPattern arn then
    match Split arn ":" with
    | _ :: partition :: _ => Some partition
    | _ => None
    end
  else None.

Section Validators.
Context `{U : UnicodeTables}.

(** ** The upstream section *)

Definition boundedText (lo hi : Z) (r : re) (s : string) : bool :=
  negb ((slen s <? lo) || (hi <? slen s) || negb (matches r s)).

Definition validateUpstream (up : Upstream) : option error :=
  if (Profile up =? "")%string then Some (ErrNew "an explicit profile is required")
  else if (maxProfileLength <? slen (Profile up)) || negb (matches profilePattern (Profile up))
  then Some (ErrNew "profile contains unsupported characters")
  else if EqualFold (Profile up) "default"
  then Some (ErrNew "the default profile is not permitted; choose an explicit shared-config profile")
  else if negb (matches regionPattern (Region up)) || (64 <? slen (Region up))
  then Some (ErrFmt "region %q is invalid" [Region up])
  else
    let role :=
      if (AssumeRoleARN up =? "")%string then
        if negb (ExternalID up =? "")%string || negb (SourceIdentity up =? "")%string
        then Some (ErrNew "externalId and sourceIdentity require assumeRoleArn")
        else None
      else
        match roleARNPartition (AssumeRoleARN up) with
        | Some partition =>
          if (2048 <? slen (AssumeRoleARN up)) || negb (supportedPartition partition)
          then Some (ErrNew "assumeRoleArn must be a valid IAM role ARN in a supported partition")
          else None
        | None => Some (ErrNew "assumeRoleArn must be a valid IAM role ARN in a supported partition")
        end in
    match role with
    | Some err => Some err
    | None =>
      if negb (boundedText 2 64 identityPattern (RoleSessionName up))
      then Some (ErrNew "roleSessionName must be 2-64 characters using the STS session-name character set")
      else if (DurationSeconds up <? 900) || (43200 <? DurationSeconds up)
      then Some (ErrNew "durationSeconds must be between 900 and 43200")
      else if negb (ExternalID up =? "")%string && negb (boundedText 2 1224 externalIDPattern (ExternalID up))
      then Some (ErrNew "externalId must be 2-1224 characters using the STS external-id character set")
      else if negb (SourceIdentity up =? "")%string && negb (boundedText 2 64 identityPattern (SourceIdentity up))
      then Some (ErrNew "sourceIdentity must be 2-64 characters using the STS source-identity character set")
      else None
    end.

(** ** The proxy section *)

Definition decimalPort (value : string) : bool :=
  if (value =? "")%string || (5 <? slen value) then false else forallb is_digit (runes value).

Fixpoint portNumber (acc : Z) (digits : list Z) : Z :=
  match digits with
  | [] => acc
  | d :: digits => portNumber (acc * 10 + (d - ord "0")) digits
  end.

Definition validateProxy (proxy : Proxy) : option error :=
  if (Listen proxy =? "")%string then Some (ErrNew "listen is required")
  else match SplitHostPort (Listen proxy) with
  | None => Some (ErrFmt "listen must be host:port: %w" [])
  | Some (host, port) =>
    if (host =? "")%string then Some (ErrNew "listen host is required")
    else if negb (default false (IsLoopback <$> ParseAddr host))
    then Some (ErrNew "listen must use an IPv4 or IPv6 loopback address")
    else if negb (decimalPort port)
    then Some (ErrNew "listen port must be a decimal number between 0 and 65535")
    else if 65535 <? portNumber 0 (runes port)
    then Some (ErrNew "listen port must be between 0 and 65535")
    else if (1 <? slen port) && bool_decide (byte_at port 0 = Some (ord "0"))
    then Some (ErrNew "listen port must use its normalized decimal form")
    else if negb (NonAWSTraffic proxy =? DefaultNonAWSTraffic)%string
    then Some (ErrFmt "nonAwsTraffic %q is unsupported; only tunnel is permitted" [NonAWSTraffic proxy])
    else if negb (UpstreamProxy proxy =? DefaultUpstreamProxy)%string && negb (UpstreamProxy proxy =? "none")%string
    then Some (ErrFmt "upstreamProxy %q is unsupported; use inherit or none" [UpstreamProxy proxy])
    else if (MaxInMemoryBodyBytes proxy <=? 0) || (maxMemoryBodyBytes <? MaxInMemoryBodyBytes proxy)
    then Some (ErrFmt "maxInMemoryBodyBytes must be between 1 and %d" [Itoa maxMemoryBodyBytes])
    else if (MaxSpoolBodyBytes proxy <=? 0) || (maxSpoolBodyBytes <? MaxSpoolBodyBytes proxy)
    then Some (ErrFmt "maxSpoolBodyBytes must be between 1 and %d" [Itoa maxSpoolBodyBytes])
    else if MaxSpoolBodyBytes proxy <? MaxInMemoryBodyBytes proxy
    then Some (ErrNew "maxSpoolBodyBytes must be at least maxInMemoryBodyBytes")
    else None
  end.
End Validators.

(** ** The policy section *)

Definition actionPartRune (r : Z) : bool :=
  is_lower r || is_upper r || is_digit r || in_set "-*?" r.
Definition validActionPart (value : string) : bool := forallb actionPartRune (runes value).

Definition validatePattern (value : string) : option error :=
  if (value =? "")%string || (maxPatternLength <? slen value)
  then Some (ErrNew "pattern is empty or too long")
  else if existsb (fun r => IsSpace r || IsControl r || in_set "[](){}|+^$\" r) (runes value)
  then Some (ErrFmt "pattern %q uses unsupported operator or control syntax" [value])
  else None.

Fixpoint stringSetLoop (values seen : list string) (label : string) (valid : string -> bool)
  : option error :=
  match values with
  | [] => None
  | value :: values =>
    if (value =? "")%string || negb (valid value)
    then Some (ErrFmt "%s %q is invalid" [label; value])
    else if mem_str value seen then Some (ErrFmt "%s %q is duplicated" [label; value])
    else stringSetLoop values (value :: seen) label valid
  end.
Definition validateStringSet (values : list string) (label : string) (valid : string -> bool)
  : option error :=
  if maxRuleList <? Policy.Policy.len values
  then Some (ErrFmt "%ss exceed maximum of %d entries" [label; Itoa maxRuleList])
  else stringSetLoop values [] label valid.

(** [service:operation], or a single star. *)
Definition actionForm (action : string) : bool :=
  if (action =? "*")%string then true
  else match Split action ":" with
       | [service; operation] =>
         negb (service =? "")%string && negb (operation =? "")%string &&
         validActionPart service && validActionPart operation
       | _ => false
       end.

Fixpoint validateActions (actions : list string) : option error :=
  match actions with
  | [] => None
  | action :: actions =>
    match validatePattern action with
    | Some err => Some (ErrWrap "action: %w" [] err)
    | None =>
      if negb (actionForm action)
      then Some (ErrFmt "action %q must use service:operation form" [action])
      else validateActions actions
    end
  end.
Fixpoint validateResources (resources : list string) : option error :=
  match resources with
  | [] => None
  | resource :: resources =>
    match validatePattern resource with
    | Some err => Some (ErrWrap "resource: %w" [] err)
    | None => validateResources resources
    end
  end.

Definition validateRule (rule : Rule) : option error :=
  if negb (matches ruleIDPattern (ID rule))
  then Some (ErrNew "id must match [A-Za-z0-9][A-Za-z0-9._-]{0,127}")
  else if negb (Effect rule =? EffectAllow)%string && negb (Effect rule =? EffectDeny)%string
  then Some (ErrFmt "effect %q is unsupported; only allow and deny are permitted" [Effect rule])
  else if (Effect rule =? EffectDeny)%string && AllowAWSRequiredWildcard rule
  then Some (ErrNew "allowAwsRequiredWildcard is only valid on allow rules")
  else if (Policy.Policy.len (Actions rule) =? 0) || (maxRuleList <? Policy.Policy.len (Actions rule))
  then Some (ErrNew "actions must contain between 1 and 1000 entries")
  else if (Policy.Policy.len (Resources rule) =? 0) || (maxRuleList <? Policy.Policy.len (Resources rule))
  then Some (ErrNew "resources must contain between 1 and 1000 entries")
  else match validateActions (Actions rule) with
  | Some err => Some err
  | None =>
  match validateResources (Resources rule) with
  | Some err => Some err
  | None =>
  match validateStringSet (Regions rule) "region" (matches regionPattern) with
  | Some err => Some err
  | None =>
  match validateStringSet (Accounts rule) "account" (matches accountPattern) with
  | Some err => Some err
  | None => validateStringSet (Partitions rule) "partition" supportedPartition
  end end end end.

Fixpoint validateRules (i : Z) (rules : list Rule) (seen : list string) : option error :=
  match rules with
  | [] => None
  | rule :: rules =>
    match validateRule rule with
    | Some err => Some (ErrWrap "rule %d: %w" [Itoa i] err)
    | None =>
      if mem_str (ID rule) seen then Some (ErrFmt "rule %q is duplicated" [ID rule])
      else validateRules (i + 1) rules (ID rule :: seen)
    end
  end.

Definition validatePolicy (policy : Policy) : option error :=
  if negb (Default policy =? PolicyDeny)%string
  then Some (ErrFmt "default must be deny, got %q" [Default policy])
  else if maxRules <? Policy.Policy.len (Rules policy)
  then Some (ErrFmt "rules exceed maximum of %d" [Itoa maxRules])
  else validateRules 0 (Rules policy) [].

(** ** The identity of a policy *)

Section Identity.
Context `{U : UnicodeTables} (sha256 : string -> string).

Definition normalizeSet (values : list string) (lower : bool) : list string :=
  sort_strings (Policy.Policy.dedup_strings (if lower then ToLower <$> values else values)).

(** The JSON of [canonicalRule] and [canonicalPolicy]. *)
Definition canonicalRule (rule : Rule) : string :=
  json_object
    [("id", json_quote (ID rule)); ("effect", json_quote (Effect rule));
     ("actions", json_strings (normalizeSet (Actions rule) true));
     ("resources", json_strings (normalizeSet (Resources rule) false));
     ("regions", json_strings (normalizeSet (Regions rule) false));
     ("accounts", json_strings (normalizeSet (Accounts rule) false));
     ("partitions", json_strings (normalizeSet (Partitions rule) false));
     ("allowAwsRequiredWildcard", json_bool (AllowAWSRequiredWildcard rule))].

Definition CanonicalPolicy (policy : Policy) : string :=
  json_object
    [("default", json_quote (Default policy));
     ("rules", ("[" ++ Join (canonicalRule <$>
        sort_by (fun a b => str_leb (ID a) (ID b)) (Rules policy)) "," ++ "]")%string)].

Definition PolicyHash (policy : Policy) : string :=
  ("sha256:" ++ hex_encode (sha256 (CanonicalPolicy policy)))%string.
Definition CanonicalPolicyHash (policy : Policy) : string := PolicyHash policy.
End Identity.

(** The policy as [reflect] shows it to the engine. *)
Definition gstrings (l : list string) : Policy.Policy.gval := Policy.Policy.GSlice (Policy.Policy.GStr <$> l).
Definition ruleValue (rule : Rule) : Policy.Policy.gval :=
  Policy.Policy.GStruct [("ID", Policy.Policy.GStr (ID rule)); ("Effect", Policy.Policy.GStr (Effect rule));
    ("Actions", gstrings (Actions rule)); ("Resources", gstrings (Resources rule));
    ("Regions", gstrings (Regions rule)); ("Accounts", gstrings (Accounts rule));
    ("Partitions", gstrings (Partitions rule));
    ("AllowAWSRequiredWildcard", Policy.Policy.GBool (AllowAWSRequiredWildcard rule))].
Definition policyValue (policy : Policy) : Policy.Policy.gval :=
  Policy.Policy.GStruct [("Default", Policy.Policy.GStr (Default policy));
    ("Rules", Policy.Policy.GSlice (ruleValue <$> Rules policy))].
End Config.
