(* ===== verification/ConfigPolicy.v ===== *)
(** * Configured policies and the policy engine (internal/config, internal/policy)

    The configuration package and the engine check and hash the same policy
    independently.  This file relates them: which validated policies the engine
    compiles, that both compute the same identity, and what that identity
    depends on. *)

From Stdlib Require Import ZArith Lia Ascii.
From stdpp Require Import sorting base gmap strings list.
From S2P Require Import Prelude GoStrings GoEncoding Regexp Glob AwsTypes Policy Config.

Module ConfigPolicy.
Import Regexp.Regexp Config.Config.
Notation engine_rule := Policy.Policy.compileRule.

(** The snapshot the engine takes of a rule and of a policy. *)
Definition snapshot (r : Rule) : Policy.Policy.ruleSnapshot :=
  Policy.Policy.mkRuleSnapshot (ID r) (Effect r) (Actions r) (Resources r) (Regions r)
    (Accounts r) (Partitions r) (AllowAWSRequiredWildcard r).
Definition snapshots (p : Policy) : Policy.Policy.policySnapshot :=
  Policy.Policy.mkPolicySnapshot (Default p) (snapshot <$> Rules p).

Lemma stringValues_str name l : Policy.Policy.stringValues name (Policy.Policy.GStr <$> l) = Ok l.
Proof. induction l as [|s l IH]; [done|]. cbn in *. by rewrite IH. Qed.

Lemma copyRule_value r : Policy.Policy.copyRule (ruleValue r) = Ok (snapshot r).
Proof. unfold Policy.Policy.copyRule, ruleValue. cbn. by rewrite !stringValues_str. Qed.

Lemma copyRules_value rs : Policy.Policy.copyRules (ruleValue <$> rs) = Ok (snapshot <$> rs).
Proof. induction rs as [|r rs IH]; [done|]. cbn [fmap list_fmap Policy.Policy.copyRules]. rewrite copyRule_value. cbn in *. by rewrite IH. Qed.

Lemma copyPolicy_value p : Policy.Policy.copyPolicy (policyValue p) = Ok (snapshots p).
Proof. unfold Policy.Policy.copyPolicy, policyValue. cbn. by rewrite copyRules_value. Qed.

(** ** What validation establishes *)

Lemma mem_str_false s l : AwsTypes.AwsTypes.mem_str s l = false <-> s ∉ l.
Proof.
  rewrite <-AwsTypes.AwsTypes.mem_str_In. destruct (AwsTypes.AwsTypes.mem_str s l); by split.
Qed.

Lemma stringSetLoop_spec values label valid : forall seen,
  stringSetLoop values seen label valid = None <->
  (forall v, v ∈ values -> v <> "" /\ valid v = true) /\ NoDup values /\ forall v, v ∈ values -> v ∉ seen.
Proof.
  induction values as [|v values IH]; intros seen; cbn [stringSetLoop].
  { split; [intros _|done]. split_and!; [set_solver|constructor|set_solver]. }
  rewrite reject_None, reject_None, IH, orb_false_iff, eqb_false_str, negb_false_iff, mem_str_false, NoDup_cons.
  set_solver.
Qed.

Lemma engine_constraintLoop_spec values label valid : forall dest,
  is_ok (Policy.Policy.constraintLoop values dest label valid) = true <->
  (forall v, v ∈ values -> v <> "" /\ valid v = true) /\ NoDup values /\ forall v, v ∈ values -> v ∉ dest.
Proof.
  induction values as [|v values IH]; intros dest; cbn [Policy.Policy.constraintLoop].
  { split; [intros _|done]. split_and!; [set_solver|constructor|set_solver]. }
  destruct (v =? "")%string eqn:Ev; cbn [orb].
  { split; [done|]. intros [H _]. destruct (H v ltac:(set_solver)) as [H1 _]. by apply eqb_true_str in Ev. }
  apply eqb_false_str in Ev. destruct (valid v) eqn:Evalid; cbn [negb].
  2: { split; [done|]. intros [H _]. destruct (H v ltac:(set_solver)). congruence. }
  destruct (bool_decide (v ∈ dest)) eqn:Ed.
  { split; [done|]. intros (_ & _ & H). apply bool_decide_eq_true in Ed. by destruct (H v ltac:(set_solver)). }
  apply bool_decide_eq_false in Ed. rewrite IH, NoDup_cons. set_solver.
Qed.

(** The engine's constraint sets are the configuration's, for another notion of
    a valid value. *)
Lemma constraints_agree values label1 label2 valid1 valid2 :
  validateStringSet values label1 valid1 = None ->
  is_ok (Policy.Policy.compileConstraintSet values label2 valid2) = true <->
  forall v, v ∈ values -> valid2 v = true.
Proof.
  unfold validateStringSet, Policy.Policy.compileConstraintSet. rewrite reject_None.
  intros [Hlen H]. apply stringSetLoop_spec in H as (H1 & H2 & _).
  unfold maxRuleList, Policy.Policy.maxRuleValues in *. rewrite Hlen, engine_constraintLoop_spec. set_solver.
Qed.

(** ** Actions *)

Lemma actionPart_bytes s : validActionPart s = bytes_all actionPartRune s.
Proof.
  apply runes_all_ascii. intros r Hr. unfold actionPartRune. unfold in_set. cbn [bytes_any]. zbool.
Qed.

Definition actionByte (c : Z) : bool := actionPartRune c || (c =? ord ":").

Lemma actionByte_ascii c : actionByte c = true -> c < 128.
Proof.
  unfold actionByte, actionPartRune, in_set. cbn [bytes_any]. intros H. zbool.
Qed.

Lemma actionForm_bytes a : actionForm a = true -> bytes_all actionByte a = true.
Proof.
  unfold actionForm. destruct (a =? "*")%string eqn:E; [by apply eqb_true_str in E as ->|].
  destruct (Split a ":") as [|s [|o [|]]] eqn:Es; try done. intros H. bool_hyps.
  rewrite actionPart_bytes in *. rewrite <-(Join_split ":" a). change (split_byte (ord ":") a) with (Split a ":").
  rewrite Es. cbn [Join]. rewrite !bytes_all_app.
  rewrite (bytes_all_weaken actionPartRune actionByte s), (bytes_all_weaken actionPartRune actionByte o); try done;
    intros r _ Hr; unfold actionByte; by rewrite Hr.
Qed.

Lemma action_is_ascii a : bytes_all actionByte a = true -> is_ascii a = true.
Proof. apply bytes_all_weaken. intros r _ H. apply actionByte_ascii in H. by apply Z.ltb_lt. Qed.

Lemma pattern_bounds v : validatePattern v = None ->
  0 < slen v <= 512 /\ existsb Glob.Glob.unsupportedRune (runes v) = false.
Proof.
  unfold validatePattern. rewrite !reject_None, orb_false_iff, eqb_false_str. intros ([H1 H2] & H3 & _).
  split; [|done]. unfold maxPatternLength in H2. pose proof (slen_nonneg v).
  destruct v; [done|]. unfold slen in *. cbn [String.length] in *. clear H3. apply Z.ltb_ge in H2. lia.
Qed.

Lemma IndexByte_app l a r : count_byte l (ord a) = 0 -> IndexByte (l ++ String a r) (ord a) = slen l.
Proof. intros H. unfold IndexByte. by rewrite index_byte_app. Qed.

Lemma actionPart_count s : bytes_all actionPartRune s = true -> count_byte s (ord ":") = 0.
Proof. intros H. by apply (bytes_all_count actionPartRune). Qed.

Lemma actionForm_colon a : actionForm a = true -> a = "*" \/
  0 < IndexByte a (ord ":") < slen a - 1 /\ count_byte a (ord ":") = 1.
Proof.
  unfold actionForm. destruct (a =? "*")%string eqn:E; [left; by apply eqb_true_str|]. intros H. right.
  destruct (Split a ":") as [|s [|o [|]]] eqn:Es; try done. bool_hyps. rewrite actionPart_bytes in *.
  assert (a = s ++ String ":" o)%string as -> by (rewrite <-(Join_split ":" a); change (split_byte (ord ":") a) with (Split a ":"); by rewrite Es).
  rewrite IndexByte_app by by apply actionPart_count.
  rewrite slen_app, count_byte_app. cbn [count_byte]. change (ord ":" =? ord ":") with true.
  rewrite !actionPart_count by done. cbn iota. split; [|done].
  destruct s, o; try done. unfold slen. cbn [String.length]. lia.
Qed.

(** A configured action is an action glob of the engine, which lowers it as
    [CanonicalPolicy] does. *)
Lemma action_compiles a : validatePattern a = None -> actionForm a = true ->
  is_ok (Glob.Glob.CompileActionGlob a) = true.
Proof.
  intros H Hf. apply pattern_bounds in H as [Hl Hu]. pose proof (actionForm_bytes a Hf) as Hb.
  pose proof (action_is_ascii a Hb) as Ha.
  unfold Glob.Glob.CompileActionGlob, Glob.Glob.compileGlob, Glob.Glob.validateGlobPattern, Glob.Glob.MaxGlobLength.
  rewrite (proj2 (Z.eqb_neq (slen a) 0)), (proj2 (Z.ltb_ge 512 (slen a))), is_ascii_valid, Hu by (done || lia).
  cbn [orb negb].
  assert (negb (a =? "*")%string && ((IndexByte a (ord ":") <=? 0) || (IndexByte a (ord ":") =? slen a - 1) ||
    negb (count_byte a (ord ":") =? 1)) = false) as ->.
  { destruct (actionForm_colon a Hf) as [->|[Hi Hc]]; [done|]. rewrite Hc. apply andb_false_iff. right. lia. }
  rewrite existsb_negb, is_ascii_runes_all by done.
  rewrite (bytes_all_weaken actionByte Glob.Glob.actionRune a); try done.
  intros r _ Hr. unfold actionByte, actionPartRune, in_set in Hr. cbn [bytes_any] in Hr.
  unfold Glob.Glob.actionRune. zbool.
Qed.

Section Lowering.
Context `{U : UnicodeTables}.

Lemma map_bytes_ext f g s : (forall r, 0 <= r < 256 -> f r = g r) -> map_bytes f s = map_bytes g s.
Proof. intros H. induction s as [|a s IH]; [done|]. cbn. by rewrite IH, H by apply ord_range. Qed.

Lemma action_lower a : actionForm a = true -> ToLower a = Glob.Glob.asciiLower a.
Proof.
  intros H. unfold ToLower. rewrite action_is_ascii by by apply actionForm_bytes.
  apply map_bytes_ext. intros r _. unfold ascii_lower, is_upper. by case_if.
Qed.
End Lowering.

Lemma validateActions_spec actions : validateActions actions = None ->
  forall a, a ∈ actions -> validatePattern a = None /\ actionForm a = true.
Proof.
  induction actions as [|a actions IH]; cbn [validateActions]; [set_solver|].
  rewrite reject_match_None, reject_None, negb_false_iff. intros (H1 & H2 & H3) b [->|Hb]%elem_of_cons; auto.
Qed.

Lemma validateResources_spec resources : validateResources resources = None ->
  forall r, r ∈ resources -> validatePattern r = None.
Proof.
  induction resources as [|a l IH]; cbn [validateResources]; [set_solver|].
  rewrite reject_match_None. intros (H1 & H3) b [->|Hb]%elem_of_cons; auto.
Qed.

(** The engine refuses a repeated action, letter case aside, and a repeated
    resource. *)
Lemma engine_compileActions_spec actions : forall seen,
  (forall a, a ∈ actions -> is_ok (Glob.Glob.CompileActionGlob a) = true) ->
  is_ok (Policy.Policy.compileActions actions seen) = true <->
  NoDup (Glob.Glob.asciiLower <$> actions) /\ forall a, a ∈ actions -> Glob.Glob.asciiLower a ∉ seen.
Proof.
  induction actions as [|a l IH]; intros seen Hc; cbn [Policy.Policy.compileActions fmap list_fmap].
  { split; [intros _|done]. split; [constructor|set_solver]. }
  pose proof (Hc a ltac:(set_solver)) as Ha. specialize (IH (Glob.Glob.asciiLower a :: seen) ltac:(set_solver)).
  destruct (AwsTypes.AwsTypes.mem_str _ _) eqn:Em.
  - apply AwsTypes.AwsTypes.mem_str_In in Em. split; [done|]. intros [_ H]. by destruct (H a ltac:(set_solver)).
  - apply mem_str_false in Em. destruct (Glob.Glob.CompileActionGlob a) as [g|]; [|done].
    rewrite NoDup_cons, list_elem_of_fmap.
    destruct (Policy.Policy.compileActions _ _) as [gs|]; cbn in *.
    + split; [intros _|done]. apply proj1 in IH. destruct (IH eq_refl) as [H1 H2].
      split; [split; [|done]|].
      * intros (b & E & Hb). specialize (H2 b Hb). set_solver.
      * intros b [->|Hb]%elem_of_cons; [done|]. specialize (H2 b Hb). set_solver.
    + split; [done|]. intros [[H1 H2] H3]. apply IH. split; [done|].
      intros b Hb [E|E]%elem_of_cons; [|by apply (H3 b); [set_solver|]]. apply H1. eauto.
Qed.

Lemma engine_compileResources_spec resources : forall seen,
  is_ok (Policy.Policy.compileResources resources seen) = true <->
  (forall r, r ∈ resources -> is_ok (Glob.Glob.CompileGlob r) = true) /\
  NoDup resources /\ forall r, r ∈ resources -> r ∉ seen.
Proof.
  induction resources as [|a l IH]; intros seen; cbn [Policy.Policy.compileResources].
  { split; [intros _|done]. split_and!; [set_solver|constructor|set_solver]. }
  specialize (IH (a :: seen)). rewrite NoDup_cons.
  destruct (AwsTypes.AwsTypes.mem_str _ _) eqn:Em.
  - apply AwsTypes.AwsTypes.mem_str_In in Em. split; [done|]. intros (_ & _ & H). by destruct (H a ltac:(set_solver)).
  - apply mem_str_false in Em. destruct (Glob.Glob.CompileGlob a) as [g|] eqn:Eg.
    + assert (is_ok (gs ← Policy.Policy.compileResources l (a :: seen); Ok (g :: gs)) =
        is_ok (Policy.Policy.compileResources l (a :: seen))) as ->
        by by destruct (Policy.Policy.compileResources _ _).
      rewrite IH. split.
      * intros (H1 & H2 & H3). split_and!; [|set_solver..]. intros r [->|Hr]%elem_of_cons; [by rewrite Eg|auto].
      * intros (H1 & [H2 H3] & H4). split_and!; set_solver.
    + split; [done|]. intros (H & _). specialize (H a ltac:(set_solver)). by rewrite Eg in H.
Qed.

Lemma resource_compiles r : validatePattern r = None ->
  is_ok (Glob.Glob.CompileGlob r) = ValidString r.
Proof.
  intros H. apply pattern_bounds in H as [Hl Hu].
  unfold Glob.Glob.CompileGlob, Glob.Glob.compileGlob, Glob.Glob.validateGlobPattern, Glob.Glob.MaxGlobLength.
  rewrite (proj2 (Z.eqb_neq (slen r) 0)), (proj2 (Z.ltb_ge 512 (slen r))), Hu by lia. by destruct (ValidString r).
Qed.

(** ** Identifiers, regions and accounts *)

Lemma regionPattern_form v : matches regionPattern v = true ->
  exists w d, v = (w ++ "-" ++ d)%string /\ d <> "" /\ bytes_all is_digit d = true /\
    bytes_all (fun c => lowerAlnum c || (c =? ord "-")) v = true.
Proof.
  rewrite matches_spec. unfold regionPattern. rewrite lang_cat, lang_cat_inv.
  intros (x & y & -> & Hx & Hy). apply lang_cat, lang_cat_inv in Hy as (m & z & -> & Hm & Hz).
  apply lang_cat, lang_cat_inv in Hz as (t & d & -> & Ht & Hd). apply lang_lit in Ht as ->.
  apply lang_plus_class in Hx as [_ Hx], Hd as [Hd1 Hd2].
  assert (bytes_all (fun c => lowerAlnum c || (c =? ord "-")) m = true) as Hm'.
  { assert (forall s, lang (Star (cat (lit "-") (plus (Class lowerAlnum)))) s ->
      bytes_all (fun c => lowerAlnum c || (c =? ord "-")) s = true) as Hstar.
    { intros s. remember (Star _) as r eqn:Er. induction 1 as [| | | | | |r' u u' Hu _ Hv IH]; try discriminate; [done|].
      injection Er as ->. apply lang_cat, lang_cat_inv in Hu as (t & k & -> & Ht & Hk). apply lang_lit in Ht as ->.
      apply lang_plus_class in Hk as [_ Hk]. rewrite !bytes_all_app, IH by done.
      rewrite (bytes_all_weaken lowerAlnum _ k); try done. intros r _ Hr. by rewrite Hr. }
    unfold plus in Hm. apply lang_cat_inv in Hm as (u & k & -> & Hu & Hk).
    rewrite bytes_all_app, (Hstar k Hk), andb_true_r.
    apply Hstar. rewrite <-(str_app_nil_r u). apply l_more; [done|constructor]. }
  exists (x ++ m)%string, d. split_and!; [by rewrite str_app_assoc|done..|].
  rewrite !bytes_all_app, Hm'. rewrite (bytes_all_weaken lowerAlnum _ x), (bytes_all_weaken is_digit _ d); try done.
  - intros r _ Hr. unfold lowerAlnum. by rewrite Hr, orb_true_r.
  - intros r _ Hr. by rewrite Hr.
Qed.

Lemma last_digit w d : d <> "" -> bytes_all is_digit d = true ->
  exists c, byte_at (w ++ d) (slen (w ++ d) - 1) = Some c /\ is_digit c = true.
Proof.
  intros Hd Ha. assert (exists e a, d = (e ++ String a "")%string) as (e & a & ->).
  { clear Ha. destruct d as [|b d]; [done|]. clear Hd. revert b. induction d as [|b' d IH]; intros b.
    - by exists "", b.
    - destruct (IH b') as (e & a & E). exists (String b e), a. rewrite E. done. }
  rewrite bytes_all_app in Ha. cbn in Ha. apply andb_true_iff in Ha as [_ Ha]. rewrite andb_true_r in Ha.
  exists (ord a). split; [|done]. unfold byte_at, slen. rewrite !str_length_app. cbn [String.length].
  rewrite (proj2 (Z.ltb_ge _ _)) by lia.
  replace (Z.to_nat _) with (String.length (w ++ e)) by (rewrite str_length_app; lia).
  rewrite <-str_app_assoc. clear. induction (w ++ e)%string as [|b s IH]; [done|]. exact IH.
Qed.

(** A configured region is one of the engine's if it starts with a letter. *)
Definition engine_region (v : string) : Prop :=
  slen v <= 512 /\ exists c, byte_at v 0 = Some c /\ is_lower c = true.

Lemma region_agrees v : matches regionPattern v = true ->
  Policy.Policy.validRegion v = true <-> engine_region v.
Proof.
  intros H. apply regionPattern_form in H as (w & d & Ev & Hd & Hdig & Hb).
  destruct (last_digit (w ++ "-") d Hd Hdig) as (l & El & Hl). rewrite str_app_assoc, <-Ev in El.
  assert (forallb (fun r => is_lower r || is_digit r || (r =? ord "-")) (runes v) = true) as Hr.
  { rewrite is_ascii_runes_all; [exact Hb|]. revert Hb. apply bytes_all_weaken. intros r _ Hr.
    unfold lowerAlnum in Hr. apply Z.ltb_lt. zbool. }
  assert (bytes_any (Z.eqb (ord "-")) v = true) as Hdash.
  { rewrite Ev, !bytes_any_app. cbn [bytes_any]. rewrite Z.eqb_refl. cbn. by rewrite orb_true_r. }
  unfold Policy.Policy.validRegion, engine_region. rewrite El, Hr, Hdash. cbn [negb].
  unfold Policy.Policy.maxMapperTextLength. unfold is_digit, between in Hl. bool_hyps.
  destruct (byte_at v 0) as [f|].
  - rewrite (proj2 (Z.ltb_ge l (ord "0"))), (proj2 (Z.ltb_ge (ord "9") l)) by lia. cbn [orb].
    unfold is_lower, between. split.
    + destruct (Z.ltb_spec 512 (slen v)); [done|]. destruct (Z.ltb_spec f (ord "a")); [done|].
      destruct (Z.ltb_spec (ord "z") f); [done|]. intros _. split; [lia|]. exists f. split; [done|]. lia.
    + intros [Hs (c & [= <-] & Hc)]. bool_hyps.
      rewrite (proj2 (Z.ltb_ge 512 (slen v))), (proj2 (Z.ltb_ge f _)), (proj2 (Z.ltb_ge _ f)) by lia. done.
  - split; [done|]. by intros [_ (c & E & _)].
Qed.

Lemma account_agrees v : matches accountPattern v = true -> Policy.Policy.validAccount v = true.
Proof.
  rewrite matches_spec. unfold accountPattern. rewrite lang_times_class. intros [Hl Hb].
  unfold Policy.Policy.validAccount. unfold slen. rewrite Hl. change (Z.of_nat 12 =? 12) with true. cbn [negb].
  rewrite is_ascii_runes_all; [done|]. revert Hb. apply bytes_all_weaken. intros r _ Hr. apply Z.ltb_lt. zbool.
Qed.

Lemma identRunes_false rs : Policy.Policy.identRunes false true rs = forallb nameByte rs.
Proof.
  induction rs as [|r rs IH]; [done|]. cbn [Policy.Policy.identRunes forallb andb].
  unfold nameByte, in_set. cbn [bytes_any]. unfold Policy.Policy.identStart, is_alnum.
  rewrite IH. unfold nameByte, in_set. cbn [bytes_any]. unfold is_alnum.
  destruct (is_lower r), (is_upper r), (is_digit r), (r =? ord "."), (r =? ord "_"), (r =? ord "-"); try done.
Qed.

Lemma ruleID_agrees v : matches ruleIDPattern v = true ->
  (slen v =? 0) || (128 <? slen v) || negb (Policy.Policy.validIdentifier v true) = false.
Proof.
  rewrite matches_spec. unfold ruleIDPattern. rewrite lang_cat, lang_cat_inv.
  intros (x & y & -> & Hx & Hy). apply lang_class_inv in Hx as (a & -> & Ha).
  apply lang_upto_class in Hy as [Hl Hb]. rewrite str_cons_app.
  assert (is_ascii y = true) as Hy.
  { revert Hb. apply bytes_all_weaken. intros r _ Hr. unfold nameByte, in_set in Hr. cbn [bytes_any] in Hr.
    apply Z.ltb_lt. zbool. }
  unfold Policy.Policy.validIdentifier. rewrite runes_ascii_cons by (unfold is_alnum in Ha; zbool).
  cbn [Policy.Policy.identRunes andb].
  assert (Policy.Policy.identStart (ord a) = true) as -> by (unfold Policy.Policy.identStart; zbool).
  cbn [negb]. rewrite identRunes_false, is_ascii_runes_all, Hb by done. unfold slen. cbn [String.length negb].
  rewrite (proj2 (Z.eqb_neq _ _)), (proj2 (Z.ltb_ge _ _)) by lia. done.
Qed.

(** ** Compilation *)

(** What the engine asks of a rule beyond what configuration validates. *)
Record compiles (r : Rule) : Prop := {
  c_actions : NoDup (Glob.Glob.asciiLower <$> Actions r);
  c_resources : NoDup (Resources r);
  c_text : forall s, s ∈ Resources r -> ValidString s = true;
  c_regions : forall v, v ∈ Regions r -> engine_region v;
}.

Lemma is_ok_bind {A B} (x : result A) (f : A -> result B) :
  is_ok (x ≫= f) = true <-> exists a, x = Ok a /\ is_ok (f a) = true.
Proof. destruct x; cbn; [naive_solver|]. split; [done|]. by intros (a & E & _). Qed.

Lemma is_ok_exists {A} (x : result A) : is_ok x = true <-> exists a, x = Ok a.
Proof. destruct x; cbn; naive_solver. Qed.

Lemma compileRule_agrees r : validateRule r = None ->
  is_ok (Policy.Policy.compileRule (snapshot r)) = true <-> compiles r.
Proof.
  unfold validateRule. rewrite !reject_None, negb_false_iff, !reject_match_None, !orb_false_iff.
  intros (Hid & Heff & Hwild & [Ha0 Ha1] & [Hr0 Hr1] & Hact & Hres & Hreg & Hacc & Hpart).
  unfold Policy.Policy.compileRule, snapshot. cbn [Policy.Policy.ID Policy.Policy.Effect Policy.Policy.Actions
    Policy.Policy.rs_Resources Policy.Policy.Regions Policy.Policy.Accounts Policy.Policy.Partitions Policy.Policy.Wildcard].
  rewrite (ruleID_agrees (ID r) Hid).
  change "allow" with EffectAllow. change "deny" with EffectDeny. rewrite Heff, Hwild, Ha0, Hr0.
  unfold Policy.Policy.maxRuleValues, maxRuleList in *. rewrite Ha1, Hr1. cbn [orb].
  pose proof (validateActions_spec _ Hact) as Hact'. pose proof (validateResources_spec _ Hres) as Hres'.
  pose proof (engine_compileActions_spec (Actions r) []
    (fun a Ha => action_compiles a (proj1 (Hact' a Ha)) (proj2 (Hact' a Ha)))) as HA.
  pose proof (engine_compileResources_spec (Resources r) []) as HR.
  pose proof (constraints_agree _ _ "region" _ Policy.Policy.validRegion Hreg) as HG.
  pose proof (constraints_agree _ _ "account" _ Policy.Policy.validAccount Hacc) as HC.
  pose proof (constraints_agree _ _ "partition" _ Policy.Policy.validPartition Hpart) as HP.
  assert (forall v, v ∈ Regions r -> matches regionPattern v = true) as HregV.
  { unfold validateStringSet in Hreg. apply reject_None in Hreg as [_ Hreg].
    apply stringSetLoop_spec in Hreg as (H & _). intros v Hv. by apply H. }
  assert (is_ok (Policy.Policy.compileConstraintSet (Accounts r) "account" Policy.Policy.validAccount) = true) as Hacc_ok.
  { apply HC. unfold validateStringSet in Hacc. apply reject_None in Hacc as [_ Hacc].
    apply stringSetLoop_spec in Hacc as (H & _). intros v Hv. apply account_agrees. by apply H. }
  assert (is_ok (Policy.Policy.compileConstraintSet (Partitions r) "partition" Policy.Policy.validPartition) = true) as Hpart_ok.
  { apply HP. unfold validateStringSet in Hpart. apply reject_None in Hpart as [_ Hpart].
    apply stringSetLoop_spec in Hpart as (H & _). intros v Hv. by apply H. }
  rewrite is_ok_exists in HA. rewrite is_ok_exists in HR. rewrite is_ok_exists in HG. apply is_ok_exists in Hacc_ok as [acc Eacc], Hpart_ok as [part Epart].
  split.
  - rewrite is_ok_bind. intros (acts & Eacts & H). apply is_ok_bind in H as (ress & Eress & H).
    apply is_ok_bind in H as (regs & Eregs & _).
    destruct (proj1 HA ltac:(eauto)) as [Hnd _]. destruct (proj1 HR ltac:(eauto)) as (Hc & Hnd2 & _).
    pose proof (proj1 HG ltac:(eauto)) as Hv.
    constructor; [done..| |].
    + intros s Hs. rewrite <-resource_compiles by auto. auto.
    + intros v Hv'. apply region_agrees; auto.
  - intros [Hnd Hnd2 Htext Hregs].
    destruct (proj2 HA) as [acts Eacts]; [split; [done|set_solver]|].
    destruct (proj2 HR) as [ress Eress].
    { split_and!; [|done|set_solver]. intros s Hs. rewrite resource_compiles by auto. auto. }
    destruct (proj2 HG) as [regs Eregs]; [intros v Hv; apply region_agrees; auto|].
    rewrite Eacts, Eress. cbn [mbind result_bind]. by rewrite Eregs, Eacc, Epart.
Qed.

Lemma validateRules_spec rules : forall i seen, validateRules i rules seen = None <->
  (forall r, r ∈ rules -> validateRule r = None) /\ NoDup (ID <$> rules) /\
  forall r, r ∈ rules -> ID r ∉ seen.
Proof.
  induction rules as [|r rules IH]; intros i seen; cbn [validateRules].
  { split; [intros _|done]. split_and!; [set_solver|constructor|set_solver]. }
  rewrite reject_match_None, reject_None, mem_str_false, IH. cbn [fmap list_fmap].
  rewrite NoDup_cons, list_elem_of_fmap. split.
  - intros (H1 & H2 & H3 & H4 & H5). split_and!; [set_solver| |done|set_solver].
    intros (x & E & Hx). specialize (H5 x Hx). set_solver.
  - intros (H1 & [H2 H3] & H4). split_and!; [set_solver..|].
    intros x Hx [E|E]%elem_of_cons; [|by apply (H4 x); [set_solver|]]. apply H2. eauto.
Qed.

Lemma compileRules_agree rules : forall i seen,
  (forall r, r ∈ rules -> validateRule r = None) -> NoDup (ID <$> rules) ->
  (forall r, r ∈ rules -> ID r ∉ seen) ->
  is_ok (Policy.Policy.compileRules i (snapshot <$> rules) seen) = true <->
  forall r, r ∈ rules -> compiles r.
Proof.
  induction rules as [|r rules IH]; intros i seen Hv Hnd Hseen; cbn [fmap list_fmap Policy.Policy.compileRules].
  { split; [set_solver|done]. }
  cbn [fmap list_fmap] in Hnd. apply NoDup_cons in Hnd as [Hn Hnd].
  pose proof (compileRule_agrees r ltac:(set_solver)) as Hr.
  destruct (Policy.Policy.compileRule (snapshot r)) as [rule|err] eqn:Erule.
  - assert (Policy.Policy.id rule = ID r) as ->.
    { unfold Policy.Policy.compileRule in Erule. repeat (case_if; [done|]).
      repeat (apply result_bind_ok in Erule as (? & _ & Erule)). by injection Erule as <-. }
    rewrite (proj2 (mem_str_false (ID r) seen)) by (apply Hseen; set_solver).
    assert (forall x : result (list Policy.Policy.compiledRule),
      is_ok (rs ← x; Ok (rule :: rs)) = is_ok x) as E by by intros [].
    rewrite E, IH; [|set_solver|done|].
    + apply proj1 in Hr. specialize (Hr eq_refl). set_solver.
    + intros x Hx [E'|E']%elem_of_cons; [|by apply (Hseen x); [set_solver|]].
      apply Hn, list_elem_of_fmap. eauto.
  - split; [done|]. intros H. apply Hr. set_solver.
Qed.

Lemma policy_rules p : validatePolicy p = None ->
  Default p = "deny" /\ Policy.Policy.len (Rules p) <= 10000 /\
  (forall r, r ∈ Rules p -> validateRule r = None) /\ NoDup (ID <$> Rules p).
Proof.
  unfold validatePolicy, maxRules. rewrite !reject_None, negb_false_iff, eqb_true_str.
  intros (H1 & H2%Z.ltb_ge & (H3 & H4 & _)%validateRules_spec). done.
Qed.

(** ** Identity *)

Lemma dedup_spec l : forall seen, NoDup (Policy.Policy.dedup_from seen l) /\
  forall s, s ∈ Policy.Policy.dedup_from seen l <-> s ∈ l /\ s ∉ seen.
Proof.
  induction l as [|x l IH]; intros seen; cbn [Policy.Policy.dedup_from].
  { split; [constructor|set_solver]. }
  destruct (AwsTypes.AwsTypes.mem_str x seen) eqn:E.
  - apply AwsTypes.AwsTypes.mem_str_In in E. destruct (IH seen) as [H1 H2]. split; [done|].
    intros s. rewrite H2. set_solver.
  - apply mem_str_false in E. destruct (IH (x :: seen)) as [H1 H2]. split.
    + apply NoDup_cons. split; [|done]. rewrite H2. set_solver.
    + intros s. rewrite !elem_of_cons, H2, elem_of_cons. destruct (decide (s = x)); set_solver.
Qed.

Section Identity.
Context `{U : UnicodeTables} (sha256 : string -> string).

Definition same_set (l m : list string) : Prop := forall s, s ∈ l <-> s ∈ m.
#[export] Instance same_set_equiv : Equivalence same_set.
Proof. split; unfold same_set; [done|intros l m H s; by rewrite (H s)|intros l m n H1 H2 s; by rewrite (H1 s)]. Qed.

(** Rules that say the same: the order and repetition of list entries and the
    letter case of actions do not matter. *)
Record rule_equiv (r s : Rule) : Prop := {
  re_id : ID r = ID s;
  re_effect : Effect r = Effect s;
  re_actions : same_set (ToLower <$> Actions r) (ToLower <$> Actions s);
  re_resources : same_set (Resources r) (Resources s);
  re_regions : same_set (Regions r) (Regions s);
  re_accounts : same_set (Accounts r) (Accounts s);
  re_partitions : same_set (Partitions r) (Partitions s);
  re_wildcard : AllowAWSRequiredWildcard r = AllowAWSRequiredWildcard s;
}.
#[export] Instance rule_equiv_equiv : Equivalence rule_equiv.
Proof.
  split.
  - intros r. by constructor.
  - intros r s []. by constructor.
  - intros r s t [] []. constructor; by etrans.
Qed.

Lemma dedup_sorted_ext l m : same_set l m ->
  sort_strings (Policy.Policy.dedup_strings l) = sort_strings (Policy.Policy.dedup_strings m).
Proof.
  intros H. apply sort_strings_unique. unfold Policy.Policy.dedup_strings.
  destruct (dedup_spec l []) as [N1 E1], (dedup_spec m []) as [N2 E2].
  apply NoDup_Permutation; [done..|]. intros s. rewrite E1, E2, (H s). done.
Qed.

#[export] Instance canonicalRule_proper : Proper (rule_equiv ==> eq) canonicalRule.
Proof.
  intros r s []. unfold canonicalRule, normalizeSet.
  rewrite (dedup_sorted_ext (ToLower <$> Actions r) (ToLower <$> Actions s)),
    (dedup_sorted_ext (Resources r) (Resources s)), (dedup_sorted_ext (Regions r) (Regions s)),
    (dedup_sorted_ext (Accounts r) (Accounts s)), (dedup_sorted_ext (Partitions r) (Partitions s)) by done.
  congruence.
Qed.

(** Policies that say the same, whatever the order of their rules. *)
Definition policy_equiv (p q : Policy) : Prop :=
  Default p = Default q /\ exists rules, Permutation (Rules p) rules /\ Forall2 rule_equiv rules (Rules q).

Lemma sort_by_fmap {A B} (f : A -> B) (leb : B -> B -> bool) l :
  sort_by leb (f <$> l) = f <$> sort_by (fun a b => leb (f a) (f b)) l.
Proof.
  induction l as [|x l IH]; [done|]. cbn [fmap list_fmap].
  change (sort_by leb (f x :: (f <$> l))) with (insert_sorted leb (f x) (sort_by leb (f <$> l))).
  change (sort_by (fun a b => leb (f a) (f b)) (x :: l)) with
    (insert_sorted (fun a b => leb (f a) (f b)) x (sort_by (fun a b => leb (f a) (f b)) l)).
  rewrite IH. generalize (sort_by (fun a b => leb (f a) (f b)) l) as m. clear.
  induction m as [|y m IH]; [done|]. cbn. case_if; [done|]. cbn in *. by rewrite IH.
Qed.

Lemma canonicalRules_sorted rules :
  canonicalRule <$> sort_by (fun a b => str_leb (ID a) (ID b)) rules =
  snd <$> sort_by (fun a b => str_leb a.1 b.1) ((fun r => (ID r, canonicalRule r)) <$> rules).
Proof. rewrite sort_by_fmap, <-list_fmap_compose. done. Qed.

(** The engine computes the configured identity. *)
Lemma snapshotHash_agrees p : validatePolicy p = None ->
  Policy.Policy.snapshotPolicyHash sha256 (snapshots p) = PolicyHash sha256 p.
Proof.
  intros H. apply policy_rules in H as (_ & _ & Hv & _).
  unfold Policy.Policy.snapshotPolicyHash, PolicyHash. do 3 f_equal.
  unfold Policy.Policy.canonicalPolicy, CanonicalPolicy, snapshots.
  cbn [Policy.Policy.defaultValue Policy.Policy.ps_rules]. rewrite sort_by_fmap.
  do 7 f_equal. rewrite <-list_fmap_compose.
  apply list_fmap_ext. intros i r Hr.
  assert (r ∈ Rules p) as Hin.
  { rewrite <-(sort_by_perm (fun a b => str_leb (ID a) (ID b)) (Rules p)). by eapply list_elem_of_lookup_2. }
  specialize (Hv r Hin). unfold validateRule in Hv.
  rewrite !reject_None, !reject_match_None in Hv. destruct Hv as (_ & _ & _ & _ & _ & Hact & _).
  change ((Policy.Policy.canonicalRule ∘ snapshot) r) with (Policy.Policy.canonicalRule (snapshot r)).
  unfold Policy.Policy.canonicalRule, canonicalRule, snapshot.
  cbn [Policy.Policy.ID Policy.Policy.Effect Policy.Policy.Actions Policy.Policy.rs_Resources
    Policy.Policy.Regions Policy.Policy.Accounts Policy.Policy.Partitions Policy.Policy.Wildcard].
  assert (Policy.Policy.normalizeValues (Actions r) true = normalizeSet (Actions r) true) as ->; [|done].
  unfold Policy.Policy.normalizeValues, normalizeSet. do 2 f_equal.
  apply list_fmap_ext. intros j a Ha. symmetry. apply action_lower.
  apply (validateActions_spec _ Hact). by eapply list_elem_of_lookup_2.
Qed.

(** Configuration and engine agree on a policy's identity: an engine
    compiled from a validated policy carries exactly the hash configuration
    computes, although each canonicalises the policy with its own code. *)
Theorem PolicyHash_agrees (p : Policy) (e : Policy.Policy.Engine) :
  validatePolicy p = None -> Policy.Policy.NewEngine sha256 (policyValue p) = Ok e ->
  Policy.Policy.hash e = PolicyHash sha256 p.
Proof.
  intros Hp. unfold Policy.Policy.NewEngine. rewrite copyPolicy_value. cbn [mbind result_bind].
  repeat (case_if; [done|]). intros (rs & _ & [= <-])%result_bind_ok. by apply snapshotHash_agrees.
Qed.

(** Which validated policies the engine compiles: exactly those without a
    repeated action or resource, with valid UTF-8 resources, and with regions
    that start with a letter. *)
Theorem validatePolicy_compiles (p : Policy) :
  validatePolicy p = None ->
  is_ok (Policy.Policy.NewEngine sha256 (policyValue p)) = true <-> forall r, r ∈ Rules p -> compiles r.
Proof.
  intros Hp. apply policy_rules in Hp as (Hd & Hl & Hv & Hnd).
  unfold Policy.Policy.NewEngine. rewrite copyPolicy_value. cbn [mbind result_bind].
  unfold snapshots. cbn [Policy.Policy.defaultValue Policy.Policy.ps_rules]. rewrite Hd. cbn [negb].
  unfold Policy.Policy.maxPolicyRules, Policy.Policy.len in *. rewrite length_fmap.
  rewrite (proj2 (Z.ltb_ge _ _)) by done. cbn.
  rewrite <-(compileRules_agree (Rules p) 0 [] Hv Hnd) by set_solver.
  by destruct (Policy.Policy.compileRules _ _ _).
Qed.

(** The identity of a policy depends on what it says only: reordering
    rules or list entries, repeating an entry and changing the letter case of
    an action leave the canonical policy, hence the hash, unchanged. *)
Theorem PolicyHash_canonical (p q : Policy) :
  NoDup (ID <$> Rules p) -> policy_equiv p q -> PolicyHash sha256 p = PolicyHash sha256 q.
Proof.
  intros Hnd [Hd (rules & Hp & HF)]. unfold PolicyHash, CanonicalPolicy. rewrite Hd. do 9 f_equal.
  rewrite !canonicalRules_sorted. f_equal.
  assert ((fun r => (ID r, canonicalRule r)) <$> rules = (fun r => (ID r, canonicalRule r)) <$> Rules q) as <-.
  { clear -HF. induction HF as [|r s l m Hrs _ IH]; [done|]. cbn [fmap list_fmap].
    f_equal; [|done]. rewrite (canonicalRule_proper r s Hrs). by rewrite (re_id _ _ Hrs). }
  f_equal. apply (Policy.Policy.sort_by_key_unique fst); [|by rewrite Hp].
  by rewrite <-list_fmap_compose.
Qed.
End Identity.

(** ** Concrete inputs *)

Definition sampleRule (id : string) (actions resources regions : list string) : Rule :=
  mkRule id "allow" actions resources regions [] [] false.
Definition readRule : Rule :=
  sampleRule "read" ["s3:Get*"; "s3:ListBucket"] ["arn:aws:s3:::b/*"; "arn:aws:s3:::b"] ["us-east-1"].
Definition listRule : Rule := sampleRule "list" ["ec2:Describe*"] ["*"] [].
Definition sampleConfigured : Policy := mkPolicy "deny" [readRule; listRule].
Definition reordered : Policy :=
  mkPolicy "deny" [listRule;
    sampleRule "read" ["s3:listbucket"; "S3:GET*"; "s3:get*"] ["arn:aws:s3:::b"; "arn:aws:s3:::b/*"] ["us-east-1"]].
Definition sampleEngine : Policy.Policy.Engine :=
  match Policy.Policy.NewEngine (fun s => s) (policyValue sampleConfigured) with
  | Ok e => e
  | Err _ => Policy.Policy.mkEngine true [] ""
  end.

Lemma PolicyHash_agrees_witness : let _ := ascii_tables in
  Policy.Policy.hash sampleEngine = PolicyHash (fun s => s) sampleConfigured.
Proof.
  exact (PolicyHash_agrees (U := ascii_tables) (fun s => s) sampleConfigured sampleEngine
    ltac:(vm_compute; reflexivity) ltac:(vm_compute; reflexivity)).
Defined.

Lemma validatePolicy_compiles_witness :
  (forall r, r ∈ Rules sampleConfigured -> compiles r) /\
  ~ (forall r, r ∈ Rules reordered -> compiles r).
Proof.
  split.
  - apply (proj1 (validatePolicy_compiles (fun s => s) sampleConfigured ltac:(vm_compute; reflexivity))).
    vm_compute. reflexivity.
  - intros H. apply (proj2 (validatePolicy_compiles (fun s => s) reordered ltac:(vm_compute; reflexivity))) in H.
    vm_compute in H. discriminate.
Defined.

Lemma PolicyHash_canonical_witness : let _ := ascii_tables in
  PolicyHash (fun s => s) sampleConfigured = PolicyHash (fun s => s) reordered.
Proof.
  apply PolicyHash_canonical; [apply NoDup_ListNoDup; repeat constructor; cbn; intuition discriminate|].
  split; [done|]. exists [listRule; readRule]. split; [apply perm_swap|].
  constructor; [done|]. constructor; [|done]. constructor; try done.
  - intros s. cbn. rewrite !elem_of_cons, elem_of_nil. intuition (subst; eauto).
  - intros s. cbn. rewrite !elem_of_cons, elem_of_nil. intuition (subst; eauto).
Defined.

(** Policies that configuration accepts and the engine refuses: a region that
    starts with a digit, and actions that differ in letter case only. *)
Example accepted_and_refused :
  (fun p => (validatePolicy p, is_ok (Policy.Policy.NewEngine (fun s => s) (policyValue p)))) <$>
    [mkPolicy "deny" [sampleRule "r" ["*"] ["*"] ["1a-b-1"]];
     mkPolicy "deny" [sampleRule "r" ["s3:Get*"; "s3:get*"] ["*"] []]] =
  [(None, false); (None, false)].
Proof. vm_compute. reflexivity. Qed.
End ConfigPolicy.
