(* ===== verification/ConfigLoad.v ===== *)
(** * Loading a configuration (internal/config: load.go, the paths and the audit
    section of validate.go)

    Paths as Go's [path/filepath] treats them on Unix, the checks of the audit
    path against the file system, the defaults, and [Load].  The file system is
    what the code asks it, the YAML decoder a parameter. *)

From Stdlib Require Import ZArith Lia Ascii.
From stdpp Require Import base gmap strings list.
From S2P Require Import Prelude GoStrings GoPath AwsTypes Config.

Module ConfigLoad.
Import AwsTypes.AwsTypes Config.Config.
Export GoPath.GoPath.

(** ** The file system, as the code asks it *)

Record FileInfo := mkInfo { regular : bool; isDir : bool; perm : Z; owned : bool }.
Inductive statResult := NotExist | StatFailed | Info (i : FileInfo).

Record Env := mkEnv {
  UserHomeDir : option string;
  Getwd : option string;
  TempDir : string;
  EvalSymlinks : string -> option string;
  Lstat : string -> statResult;
  Stat : string -> statResult;
  ReadFile : string -> option string;
}.

Section Env.
Context (env : Env).

Definition Abs (path : string) : option string :=
  if IsAbs path then Some (Clean path)
  else (fun wd => FilepathJoin [wd; path]) <$> Getwd env.

Definition expandPath (path : string) : result string :=
  let path := TrimSpace path in
  if (path =? "")%string then Err (ErrNew "path is empty")
  else if (path =? "~")%string || HasPrefix path "~/" || HasPrefix path "~\" then
    match UserHomeDir env with
    | None => Err (ErrFmt "resolve home directory: %w" [])
    | Some home =>
      if (path =? "~")%string then Ok home else Ok (FilepathJoin [home; str_drop 2 path])
    end
  else if HasPrefix path "~" then Err (ErrNew "only the current user's home marker is supported")
  else if HasPrefix path "$" || Contains path "${"
  then Err (ErrNew "environment-variable path expansion is not supported")
  else Ok (Clean path).

Definition canonicalExistingPath (path : string) : result string :=
  let path := TrimSpace path in
  if (path =? "")%string then Err (ErrNew "path is empty")
  else
    expanded ← expandPath path;
    match Abs expanded with
    | None => Err (ErrFmt "make path absolute: %w" [])
    | Some absolute =>
      match EvalSymlinks env absolute with
      | None => Err (ErrFmt "resolve symlinks: %w" [])
      | Some resolved => Ok (Clean resolved)
      end
    end.

Definition groupWritable (i : FileInfo) : bool := negb (Z.land (perm i) 18 =? 0). (* 0o022 *)

Definition validateOwnedMode (path : string) : option error :=
  match Stat env path with
  | NotExist | StatFailed => Some (ErrNew "stat")
  | Info info =>
    if negb (regular info) then Some (ErrNew "must be a regular file")
    else if groupWritable info then Some (ErrFmt "group/world-writable mode %04o is unsafe" [])
    else if negb (owned info) then Some (ErrNew "is not owned by the current user")
    else None
  end.

(** ** The audit path *)

Definition under (path root : string) : bool :=
  (path =? root)%string || HasPrefix path (root ++ "/").

Definition unsafeRuntimePath (path : string) : bool :=
  let path := Clean path in
  if (path =? "/")%string then true
  else
    let roots := [Clean (TempDir env); "/tmp"] ++
      match EvalSymlinks env (TempDir env) with Some c => [Clean c] | None => [] end in
    existsb (under path) roots || existsb (under path) ["/dev"; "/proc"; "/sys"].

(** The parent loop of [resolveTargetOrParent]; [suffix] has the innermost
    component last. *)
Fixpoint resolveLoop (fuel : nat) (candidate : string) (suffix : list string)
  : option (result (string * bool)) :=
  match fuel with
  | O => None
  | S fuel =>
    match Lstat env candidate with
    | Info _ =>
      match EvalSymlinks env candidate with
      | None => Some (Err (ErrNew "evaluate symlinks"))
      | Some resolved =>
        Some (Ok (Clean (foldr (fun part acc => FilepathJoin [acc; part]) resolved suffix), false))
      end
    | StatFailed => Some (Err (ErrNew "lstat"))
    | NotExist =>
      let parent := Dir candidate in
      if (parent =? candidate)%string then Some (Err (ErrNew "no existing parent for path"))
      else resolveLoop fuel parent (suffix ++ [Base candidate])
    end
  end.

Definition resolveTargetOrParent (fuel : nat) (path : string) : option (result (string * bool)) :=
  match Lstat env path with
  | Info _ =>
    match EvalSymlinks env path with
    | Some resolved => Some (Ok (Clean resolved, true))
    | None => Some (Err (ErrNew "evaluate symlinks"))
    end
  | StatFailed => Some (Err (ErrNew "lstat"))
  | NotExist => resolveLoop fuel path []
  end.

(** The two loops of [validateExistingAncestors]. *)
Fixpoint nearestLoop (fuel : nat) (current : string) : option (result string) :=
  match fuel with
  | O => None
  | S fuel =>
    match Stat env current with
    | Info info =>
      if negb (isDir info) then Some (Err (ErrFmt "audit parent %q is not a directory" [current]))
      else Some (Ok current)
    | StatFailed => Some (Err (ErrFmt "stat audit parent %q: %w" [current]))
    | NotExist =>
      let next := Dir current in
      if (next =? current)%string then Some (Err (ErrNew "path has no existing parent"))
      else nearestLoop fuel next
    end
  end.
Fixpoint ancestorLoop (fuel : nat) (current : string) : option (option error) :=
  match fuel with
  | O => None
  | S fuel =>
    match Stat env current with
    | NotExist | StatFailed => Some (Some (ErrFmt "stat audit parent %q: %w" [current]))
    | Info info =>
      if negb (isDir info) then Some (Some (ErrFmt "audit parent %q is not a directory" [current]))
      else if groupWritable info
      then Some (Some (ErrFmt "audit parent %q is group/world-writable" [current]))
      else
        let parent := Dir current in
        if (parent =? current)%string then Some None else ancestorLoop fuel parent
    end
  end.
Definition validateExistingAncestors (fuel : nat) (path : string) : option (option error) :=
  match nearestLoop fuel (Clean path) with
  | None => None
  | Some (Err err) => Some (Some err)
  | Some (Ok current) => ancestorLoop fuel current
  end.

(** The checks of an audit file that exists. *)
Definition auditFileError (resolved : string) : option error :=
  match Stat env resolved with
  | NotExist | StatFailed => Some (ErrFmt "stat audit path: %w" [])
  | Info info =>
    if negb (regular info) then Some (ErrNew "existing audit path must be a regular file")
    else if negb (Z.land (perm info) 63 =? 0) || negb (Z.land (perm info) 384 =? 384) (* 0o077, 0o600 *)
    then Some (ErrFmt "existing audit file mode %04o is unsafe; expected 0600" [])
    else if negb (owned info)
    then Some (ErrNew "existing audit file is not owned by the current user")
    else None
  end.

Definition withPath (a : Audit) (path : string) : Audit :=
  mkAudit path (Fsync a) (FailureMode a) (LogResourceARNs a) (HashResourceNames a).

(** [None] if the fuel runs out. *)
Definition normalizeAndValidateAudit (fuel : nat) (audit : Audit) : option (result Audit) :=
  if (Path audit =? "")%string || (maxAuditPathLength <? slen (Path audit))
  then Some (Err (ErrNew "path is required and must be bounded"))
  else if negb (Fsync audit =? FsyncBatch)%string && negb (Fsync audit =? FsyncDecision)%string
  then Some (Err (ErrFmt "fsync %q is unsupported; use batch or decision" [Fsync audit]))
  else if negb (FailureMode audit =? AuditDeny)%string
  then Some (Err (ErrFmt "failureMode %q is unsupported; only deny is permitted" [FailureMode audit]))
  else if LogResourceARNs audit && HashResourceNames audit
  then Some (Err (ErrNew "logResourceArns and hashResourceNames cannot both be enabled"))
  else match expandPath (Path audit) with
  | Err err => Some (Err err)
  | Ok expanded =>
  match Abs expanded with
  | None => Some (Err (ErrFmt "make path absolute: %w" []))
  | Some absolute =>
  let absolute := Clean absolute in
  if unsafeRuntimePath absolute then Some (Err (ErrFmt "audit path %q is unsafe" [absolute]))
  else match resolveTargetOrParent fuel absolute with
  | None => None
  | Some (Err err) => Some (Err (ErrWrap "resolve path: %w" [] err))
  | Some (Ok (resolved, exists_)) =>
  if unsafeRuntimePath resolved then Some (Err (ErrFmt "resolved audit path %q is unsafe" [resolved]))
  else match (if exists_ then auditFileError resolved else None) with
  | Some err => Some (Err err)
  | None =>
  match validateExistingAncestors fuel (Dir resolved) with
  | None => None
  | Some (Some err) => Some (Err err)
  | Some None => Some (Ok (withPath audit (Clean resolved)))
  end end end end end.

(** ** Documents *)

(** A [yaml.Node], with the fields the code reads. *)
Inductive nodeKind := ZeroNode | DocumentNode | SequenceNode | MappingNode | ScalarNode | AliasNode.
Inductive node := mkNode (kind : nodeKind) (tag value : string) (children : list node).
#[export] Instance nodeKind_eq_dec : EqDecision nodeKind.
Proof. solve_decision. Defined.
Definition kindOf (n : node) : nodeKind := let 'mkNode k _ _ _ := n in k.
Definition Tag (n : node) : string := let 'mkNode _ t _ _ := n in t.
Definition NodeValue (n : node) : string := let 'mkNode _ _ v _ := n in v.
Definition Content (n : node) : list node := let 'mkNode _ _ _ c := n in c.

(** The keys of a mapping node are its entries at even positions that have a
    value after them. *)
Fixpoint mapEntries (content : list node) : list (node * node) :=
  match content with
  | key :: value :: content => (key, value) :: mapEntries content
  | _ => []
  end.

Fixpoint checkKeys (entries : list (node * node)) : option error :=
  match entries with
  | [] => None
  | (key, _) :: entries =>
    if (NodeValue key =? "<<")%string then Some (ErrNew "YAML merge keys are not supported")
    else if negb (bool_decide (kindOf key = ScalarNode)) || negb (Tag key =? "!!str")%string
    then Some (ErrNew "mapping keys must be strings")
    else checkKeys entries
  end.

Fixpoint rejectNullNodes (n : node) : option error :=
  let 'mkNode kind tag _ content := n in
  if (tag =? "!!null")%string then Some (ErrNew "null values are not supported")
  else if bool_decide (kind = AliasNode) then Some (ErrNew "YAML aliases are not supported")
  else match (if bool_decide (kind = MappingNode) then checkKeys (mapEntries content) else None) with
  | Some err => Some err
  | None =>
    (fix go (content : list node) : option error :=
       match content with
       | [] => None
       | child :: content =>
         match rejectNullNodes child with Some err => Some err | None => go content end
       end) content
  end.

(** What a [Decode] call of the YAML decoder returns. *)
Inductive decoded (A : Type) := Document (a : A) | AtEOF | DecodeFailed.
Arguments Document {A} a.
Arguments AtEOF {A}.
Arguments DecodeFailed {A}.

(** The first value of a key, at the path's first name. *)
Definition lookupKey (n : node) (name : string) : option node :=
  snd <$> List.find (fun kv => (NodeValue kv.1 =? name)%string) (mapEntries (Content n)).
Fixpoint fieldAt (n : node) (path : list string) : bool :=
  match path with
  | [] => true
  | name :: path =>
    if negb (bool_decide (kindOf n = MappingNode)) then false
    else match lookupKey n name with None => false | Some next => fieldAt next path end
  end.
Definition hasField (root : node) (path : list string) : bool :=
  let root := match root with
              | mkNode DocumentNode _ _ [child] => child
              | root => root
              end in
  fieldAt root path.

Definition applyDefaults (cfg : Config) (root : node) : Config :=
  let has s f := hasField root [s; f] in
  let pick {A} (s f : string) (v d : A) := if negb (has s f) then d else v in
  let up := cfg_Upstream cfg in
  let px := cfg_Proxy cfg in
  let au := cfg_Audit cfg in
  mkConfig (cfg_APIVersion cfg) (cfg_Kind cfg)
    (mkUpstream (Profile up) (AssumeRoleARN up) (ExternalID up) (SourceIdentity up)
       (pick "upstream" "roleSessionName" (RoleSessionName up) DefaultRoleSessionName)
       (pick "upstream" "durationSeconds" (DurationSeconds up) DefaultRoleDurationSeconds)
       (Region up))
    (mkProxy (pick "proxy" "listen" (Listen px) DefaultListen)
       (pick "proxy" "nonAwsTraffic" (NonAWSTraffic px) DefaultNonAWSTraffic)
       (pick "proxy" "upstreamProxy" (UpstreamProxy px) DefaultUpstreamProxy)
       (pick "proxy" "maxInMemoryBodyBytes" (MaxInMemoryBodyBytes px) DefaultMaxInMemoryBodyBytes)
       (pick "proxy" "maxSpoolBodyBytes" (MaxSpoolBodyBytes px) DefaultMaxSpoolBodyBytes))
    (mkPolicy (pick "policy" "default" (Default (cfg_Policy cfg)) PolicyDeny) (Rules (cfg_Policy cfg)))
    (mkAudit (pick "audit" "path" (Path au) DefaultAuditPath)
       (pick "audit" "fsync" (Fsync au) FsyncBatch)
       (pick "audit" "failureMode" (FailureMode au) AuditDeny)
       (pick "audit" "logResourceArns" (LogResourceARNs au) DefaultAuditLogResourceARNs)
       (pick "audit" "hashResourceNames" (HashResourceNames au) DefaultAuditHashResourceNames))
    (SourcePath cfg) (PolicyHash_ cfg).

Section Load.
Context `{U : UnicodeTables} (sha256 : string -> string).
(** The YAML decoder: the results of its successive [Decode] calls into nodes;
    the typed, strict decoding of the first document, and what follows it. *)
Context (decodeNode : string -> nat -> decoded node).
Context (decodeFields : string -> option Config) (decodeTrailing : string -> decoded node).

Definition decodeRoot (data : string) : result node :=
  match decodeNode data 0 with
  | AtEOF | DecodeFailed => Err (ErrNew "yaml")
  | Document document =>
    if bool_decide (kindOf document = ZeroNode) then Err (ErrNew "empty YAML document")
    else match decodeNode data 1 with
    | Document _ => Err (ErrNew "multiple YAML documents are not supported")
    | DecodeFailed => Err (ErrFmt "trailing YAML document: %w" [])
    | AtEOF =>
      match document with
      | mkNode DocumentNode _ _ [child] => Ok child
      | mkNode DocumentNode _ _ _ => Err (ErrNew "invalid YAML document")
      | document => Ok document
      end
    end
  end.

Definition withAudit (c : Config) (a : Audit) : Config :=
  mkConfig (cfg_APIVersion c) (cfg_Kind c) (cfg_Upstream c) (cfg_Proxy c) (cfg_Policy c) a
    (SourcePath c) (PolicyHash_ c).
Definition withIdentity (c : Config) (source hash : string) : Config :=
  mkConfig (cfg_APIVersion c) (cfg_Kind c) (cfg_Upstream c) (cfg_Proxy c) (cfg_Policy c) (cfg_Audit c)
    source hash.

(** [Config.Validate] on a configuration that is not nil, with the
    configuration it leaves. *)
Definition Validate (fuel : nat) (c : Config) : option (result Config) :=
  if negb (cfg_APIVersion c =? APIVersion)%string
  then Some (Err (ErrFmt "apiVersion must be %q" [APIVersion]))
  else if negb (cfg_Kind c =? Kind)%string then Some (Err (ErrFmt "kind must be %q" [Kind]))
  else match validateUpstream (cfg_Upstream c) with
  | Some err => Some (Err (ErrWrap "upstream: %w" [] err))
  | None =>
  match validateProxy (cfg_Proxy c) with
  | Some err => Some (Err (ErrWrap "proxy: %w" [] err))
  | None =>
  match validatePolicy (cfg_Policy c) with
  | Some err => Some (Err (ErrWrap "policy: %w" [] err))
  | None =>
  match normalizeAndValidateAudit fuel (cfg_Audit c) with
  | None => None
  | Some (Err err) => Some (Err (ErrWrap "audit: %w" [] err))
  | Some (Ok audit) => Some (Ok (withAudit c audit))
  end end end end.

Definition Load (fuel : nat) (path : string) : option (result Config) :=
  match canonicalExistingPath path with
  | Err err => Some (Err (ErrWrap "config path: %w" [] err))
  | Ok canonical =>
  match validateOwnedMode canonical with
  | Some err => Some (Err (ErrWrap "config path: %w" [] err))
  | None =>
  match ReadFile env canonical with
  | None => Some (Err (ErrFmt "read config: %w" []))
  | Some data =>
  match decodeRoot data with
  | Err err => Some (Err (ErrWrap "decode config: %w" [] err))
  | Ok root =>
  if negb (bool_decide (kindOf root = MappingNode))
  then Some (Err (ErrNew "decode config: root must be a mapping"))
  else match rejectNullNodes root with
  | Some err => Some (Err (ErrWrap "decode config: %w" [] err))
  | None =>
  match decodeFields data with
  | None => Some (Err (ErrFmt "decode config fields: %w" []))
  | Some cfg =>
  match decodeTrailing data with
  | Document _ => Some (Err (ErrNew "decode config: multiple YAML documents are not supported"))
  | DecodeFailed => Some (Err (ErrFmt "decode config: trailing document: %w" []))
  | AtEOF =>
    let cfg := withIdentity (applyDefaults cfg root) canonical (PolicyHash_ cfg) in
    match Validate fuel cfg with
    | None => None
    | Some (Err err) => Some (Err err)
    | Some (Ok cfg) => Some (Ok (withIdentity cfg (SourcePath cfg) (PolicyHash sha256 (cfg_Policy cfg))))
    end
  end end end end end end end.
End Load.
End Env.
Arguments Document {A} a.
Arguments AtEOF {A}.
Arguments DecodeFailed {A}.

(** ** The walks towards the root *)

Inductive ancestor : string -> string -> Prop :=
| anc_self p : ancestor p p
| anc_up p q : ancestor (Dir p) q -> ancestor p q.

Lemma ancestor_root p q : Dir p = p -> ancestor p q -> q = p.
Proof. intros H. induction 1 as [|p q _ IH]; [done|]. rewrite H in IH. auto. Qed.

(** No one but its owner can write to a directory that exists. *)
Definition private (s : statResult) : Prop :=
  s = NotExist \/ exists i, s = Info i /\ isDir i = true /\ Z.land (perm i) 18 = 0.

Section Walks.
Context (env : Env).

Lemma nearestLoop_spec fuel : forall p c, nearestLoop env fuel p = Some (Ok c) ->
  forall q, ancestor p q -> Stat env q = NotExist \/ ancestor c q.
Proof.
  induction fuel as [|fuel IH]; intros p c; cbn [nearestLoop]; [done|].
  destruct (Stat env p) as [| |i] eqn:E; [|done|].
  - destruct (Dir p =? p)%string; [done|]. intros H q Hq. inversion Hq; subst; [by left|eauto].
  - destruct (negb (isDir i)); [done|]. intros [= <-] q Hq. by right.
Qed.

Lemma ancestorLoop_spec fuel : forall p, ancestorLoop env fuel p = Some None ->
  forall q, ancestor p q -> private (Stat env q).
Proof.
  induction fuel as [|fuel IH]; intros p; cbn [ancestorLoop]; [done|].
  destruct (Stat env p) as [| |i] eqn:E; [done|done|].
  destruct (isDir i) eqn:Ed; [|done]. cbn [negb]. unfold groupWritable.
  destruct (Z.land (perm i) 18 =? 0) eqn:Ew; [|done]. cbn [negb]. apply Z.eqb_eq in Ew.
  assert (private (Stat env p)) as Hp by (right; eauto).
  destruct (Dir p =? p)%string eqn:Er.
  - apply eqb_true_str in Er. intros _ q Hq. apply ancestor_root in Hq as ->; done.
  - intros H q Hq. inversion Hq; subst; [done|eauto].
Qed.

Lemma ancestors_private fuel p : validateExistingAncestors env fuel p = Some None ->
  forall q, ancestor (Clean p) q -> private (Stat env q).
Proof.
  unfold validateExistingAncestors. destruct (nearestLoop env fuel (Clean p)) as [[c|]|] eqn:E; try done.
  intros H q Hq. destruct (nearestLoop_spec _ _ _ E q Hq) as [Hn|Hc]; [by left|].
  by eapply ancestorLoop_spec.
Qed.

(** Each walk ends, with the same result for any sufficient fuel. *)
Definition ends {A} (f : nat -> option A) : Prop :=
  exists n r, forall fuel, (n <= fuel)%nat -> f fuel = Some r.

Lemma ends_const {A} (r : A) : ends (fun _ => Some r).
Proof. by exists O, r. Qed.

Lemma ends_step {A} (f g : nat -> option A) : ends g -> (forall fuel, f (S fuel) = g fuel) -> ends f.
Proof.
  intros (n & r & H) E. exists (S n), r. intros [|fuel] Hf; [lia|]. rewrite E. apply H. lia.
Qed.

Lemma ends_then {A B} (f : nat -> option A) (g : nat -> A -> option B) :
  ends f -> (forall a, ends (fun n => g n a)) -> ends (fun n => f n ≫= g n).
Proof.
  intros (n & a & Hf) Hg. destruct (Hg a) as (m & b & Hm). exists (n + m)%nat, b. intros fuel Hfuel.
  rewrite Hf by lia. cbn. apply Hm. lia.
Qed.

(** A walk that only goes on from a path to its directory, where they differ. *)
Lemma walk_ends {A X} (f : nat -> string -> X -> option A) :
  (forall p x, (exists r, forall fuel, f (S fuel) p x = Some r) \/
     Dir p <> p /\ exists y, forall fuel, f (S fuel) p x = f fuel (Dir p) y) ->
  forall p x, Clean p = p -> ends (fun n => f n p x).
Proof.
  intros Hf p x Hp. destruct (Clean_rendered p) as (rooted & l & E & Hl). rewrite Hp in E. subst p. clear Hp.
  revert x. induction l as [|c l IH]; intros x.
  - destruct (Hf (render rooted []) x) as [(r & Hr)|(Hne & _)];
      [exact (ends_step _ _ (ends_const r) Hr)|].
    by destruct rooted.
  - destruct (Hf (render rooted (c :: l)) x) as [(r & Hr)|(Hne & y & Hr)];
      [exact (ends_step _ _ (ends_const r) Hr)|].
    rewrite Dir_render in Hr by done. cbn [tail] in Hr.
    eapply ends_step; [apply (IH (clean_stack_tail _ _ Hl) y)|]. exact Hr.
Qed.

Lemma nearestLoop_ends p : Clean p = p -> ends (fun n => nearestLoop env n p).
Proof.
  intros Hp. apply (walk_ends (fun n p (_ : unit) => nearestLoop env n p)) with (x := tt); [|done].
  clear p Hp. intros p []. cbn [nearestLoop]. destruct (Stat env p) as [| |i]; [|left; eauto|].
  - destruct (Dir p =? p)%string eqn:E; [left; eauto|]. right. apply eqb_false_str in E. split; [done|by exists ()].
  - destruct (negb (isDir i)); left; eauto.
Qed.

Lemma ancestorLoop_ends p : Clean p = p -> ends (fun n => ancestorLoop env n p).
Proof.
  intros Hp. apply (walk_ends (fun n p (_ : unit) => ancestorLoop env n p)) with (x := tt); [|done].
  clear p Hp. intros p []. cbn [ancestorLoop]. destruct (Stat env p) as [| |i]; [left; eauto..|].
  destruct (negb (isDir i)); [left; eauto|]. destruct (groupWritable i); [left; eauto|].
  destruct (Dir p =? p)%string eqn:E; [left; eauto|]. right. apply eqb_false_str in E. split; [done|by exists ()].
Qed.

Lemma resolveLoop_ends p suffix : Clean p = p -> ends (fun n => resolveLoop env n p suffix).
Proof.
  intros Hp. apply (walk_ends (fun n p s => resolveLoop env n p s)); [|done].
  clear p Hp suffix. intros p suffix. cbn [resolveLoop]. destruct (Lstat env p) as [| |i]; [|left; eauto|].
  - destruct (Dir p =? p)%string eqn:E; [left; eauto|]. right. apply eqb_false_str in E. split; [done|eauto].
  - destruct (EvalSymlinks env p); left; eauto.
Qed.

Lemma resolveTargetOrParent_ends p : Clean p = p -> ends (fun n => resolveTargetOrParent env n p).
Proof.
  intros Hp. unfold resolveTargetOrParent. destruct (Lstat env p); [by apply resolveLoop_ends|apply ends_const|].
  destruct (EvalSymlinks env p); apply ends_const.
Qed.

Lemma validateExistingAncestors_ends p : ends (fun n => validateExistingAncestors env n p).
Proof.
  unfold validateExistingAncestors.
  destruct (nearestLoop_ends (Clean p) (Clean_idem p)) as (n & r & Hn).
  assert (forall m c, nearestLoop env m (Clean p) = Some (Ok c) -> Clean c = c) as Hc.
  { intros m. pose proof (Clean_idem p) as Hp. revert Hp. generalize (Clean p) as x. clear.
    induction m as [|m IH]; intros x Hx c; cbn [nearestLoop]; [done|].
    destruct (Stat env x) as [| |i]; [|done|].
    - destruct (Dir x =? x)%string; [done|]. intros H. apply (IH (Dir x)); [apply Clean_idem|done].
    - destruct (negb (isDir i)); [done|]. by intros [= <-]. }
  destruct r as [c|err].
  - specialize (Hc n c (Hn n ltac:(lia))). destruct (ancestorLoop_ends c Hc) as (k & r & Hk).
    exists (n + k)%nat, r. intros fuel Hf. rewrite Hn by lia. apply Hk. lia.
  - exists n, (Some err). intros fuel Hf. by rewrite Hn.
Qed.

Lemma resolve_clean n p r e : resolveTargetOrParent env n p = Some (Ok (r, e)) ->
  Clean r = r /\ (e = false -> Lstat env p = NotExist).
Proof.
  unfold resolveTargetOrParent.
  assert (forall n p suffix r e, resolveLoop env n p suffix = Some (Ok (r, e)) -> Clean r = r) as Hloop.
  { clear. induction n as [|n IH]; intros p suffix r e; cbn [resolveLoop]; [done|].
    destruct (Lstat env p); [|done|].
    - destruct (Dir p =? p)%string; [done|]. apply IH.
    - destruct (EvalSymlinks env p); [|done]. intros [= <- _]. apply Clean_idem. }
  destruct (Lstat env p) eqn:E; [|done|].
  - intros H. split; [by eapply Hloop|done].
  - destruct (EvalSymlinks env p); [|done]. intros [= <- <-]. split; [apply Clean_idem|done].
Qed.

Lemma normalizeAndValidateAudit_ends a : ends (fun n => normalizeAndValidateAudit env n a).
Proof.
  unfold normalizeAndValidateAudit. repeat (case_if; [apply ends_const|]).
  destruct (expandPath env (Path a)) as [expanded|]; [|apply ends_const].
  destruct (Abs env expanded) as [absolute|]; [|apply ends_const]. cbv zeta.
  destruct (unsafeRuntimePath env (Clean absolute)); [apply ends_const|].
  destruct (resolveTargetOrParent_ends (Clean absolute) (Clean_idem _)) as (n & r & Hn).
  destruct r as [[resolved e]|err]; [|exists n; eexists; intros fuel Hf; by rewrite Hn].
  destruct (validateExistingAncestors_ends (Dir resolved)) as (k & out & Hk).
  destruct (unsafeRuntimePath env resolved) eqn:E1;
    [exists n; eexists; intros fuel Hf; rewrite Hn, E1 by lia; reflexivity|].
  destruct (if e then auditFileError env resolved else None) eqn:E2;
    [exists n; eexists; intros fuel Hf; rewrite Hn, E1, E2 by lia; reflexivity|].
  destruct out; exists (n + k)%nat; eexists; intros fuel Hf; rewrite Hn, E1, E2, Hk by lia; reflexivity.
Qed.

(** What an accepted audit section satisfies. *)
Record audit_ok (a : Audit) : Prop := {
  au_fsync : Fsync a = FsyncBatch \/ Fsync a = FsyncDecision;
  au_failure : FailureMode a = AuditDeny;
  au_redaction : LogResourceARNs a && HashResourceNames a = false;
  au_clean : Clean (Path a) = Path a;
  au_safe : unsafeRuntimePath env (Path a) = false;
  au_private : forall q, ancestor (Dir (Path a)) q -> private (Stat env q);
}.

Lemma normalizeAndValidateAudit_ok n a a' :
  normalizeAndValidateAudit env n a = Some (Ok a') -> audit_ok a' /\
  exists absolute, Lstat env absolute = NotExist \/ auditFileError env (Path a') = None.
Proof.
  unfold normalizeAndValidateAudit. case_if; [done|].
  destruct (negb (Fsync a =? FsyncBatch)%string && _) eqn:E1; [done|].
  destruct (negb (FailureMode a =? AuditDeny)%string) eqn:E2; [done|].
  destruct (LogResourceARNs a && HashResourceNames a) eqn:E3; [done|].
  destruct (expandPath env (Path a)) as [expanded|]; [|done].
  destruct (Abs env expanded) as [absolute|]; [|done]. cbv zeta.
  destruct (unsafeRuntimePath env (Clean absolute)); [done|].
  destruct (resolveTargetOrParent env n (Clean absolute)) as [[[resolved e]|]|] eqn:Er; [|done..].
  destruct (unsafeRuntimePath env resolved) eqn:E4; [done|].
  destruct (if e then auditFileError env resolved else None) eqn:E5; [done|].
  destruct (validateExistingAncestors env n (Dir resolved)) as [[|]|] eqn:E6; [done| |done].
  intros [= <-]. apply resolve_clean in Er as [Hc He]. unfold withPath. rewrite Hc. split.
  - constructor; cbn; try done.
    + apply andb_false_iff in E1 as [E1|E1]; apply negb_false_iff, eqb_true_str in E1; auto.
    + by apply negb_false_iff, eqb_true_str in E2.
    + intros q Hq. eapply ancestors_private; [exact E6|]. unfold Dir at 1. by rewrite Clean_idem.
  - exists (Clean absolute). destruct e; [by right|left; auto].
Qed.
End Walks.

Section Claims.
Context `{U : UnicodeTables} (env : Env) (sha256 : string -> string).
Context (decodeNode : string -> nat -> decoded node).
Context (decodeFields : string -> option Config) (decodeTrailing : string -> decoded node).

(** Loading a configuration ends, whatever the file system answers: the
    walks towards the root stop after at most as many steps as the path has
    components. *)
Theorem Load_terminates (path : string) :
  exists n out, forall fuel, (n <= fuel)%nat ->
    Load env sha256 decodeNode decodeFields decodeTrailing fuel path = Some out.
Proof.
  unfold Load, Validate.
  assert (forall (r : result Config), exists n out, forall fuel, (n <= fuel)%nat -> Some r = Some out) as Hconst
    by (intros r; by exists O, r).
  destruct (canonicalExistingPath env path); [|apply Hconst].
  destruct (validateOwnedMode env a); [apply Hconst|]. destruct (ReadFile env a); [|apply Hconst].
  destruct (decodeRoot decodeNode s) as [root|]; [|apply Hconst]. case_if; [apply Hconst|].
  destruct (rejectNullNodes root); [apply Hconst|]. destruct (decodeFields s) as [cfg|]; [|apply Hconst].
  destruct (decodeTrailing s); [apply Hconst| |apply Hconst]. cbv zeta.
  repeat (case_if; [apply Hconst|]).
  destruct (validateUpstream _); [apply Hconst|]. destruct (validateProxy _); [apply Hconst|].
  destruct (validatePolicy _); [apply Hconst|].
  destruct (normalizeAndValidateAudit_ends env (cfg_Audit (withIdentity (applyDefaults cfg root) a (PolicyHash_ cfg))))
    as (n & r & Hn).
  destruct r as [au|err].
  - exists n. eexists. intros fuel Hf. rewrite Hn by done. reflexivity.
  - exists n. eexists. intros fuel Hf. rewrite Hn by done. reflexivity.
Qed.

(** C15. A loaded configuration is a decoded document with its defaults that
    passed every validator; it carries the identity of its policy, and its
    audit path lies outside temporary and kernel directories, below directories
    that only their owner can write to. *)
Theorem Load_sound (fuel : nat) (path : string) (cfg : Config) :
  Load env sha256 decodeNode decodeFields decodeTrailing fuel path = Some (Ok cfg) ->
  cfg_APIVersion cfg = APIVersion /\ cfg_Kind cfg = Kind /\
  validateUpstream (cfg_Upstream cfg) = None /\ validateProxy (cfg_Proxy cfg) = None /\
  validatePolicy (cfg_Policy cfg) = None /\ PolicyHash_ cfg = PolicyHash sha256 (cfg_Policy cfg) /\
  audit_ok env (cfg_Audit cfg) /\ validateOwnedMode env (SourcePath cfg) = None /\
  exists data root given, ReadFile env (SourcePath cfg) = Some data /\ decodeRoot decodeNode data = Ok root /\
    rejectNullNodes root = None /\ decodeFields data = Some given /\
    cfg_Upstream cfg = cfg_Upstream (applyDefaults given root) /\
    cfg_Proxy cfg = cfg_Proxy (applyDefaults given root) /\
    cfg_Policy cfg = cfg_Policy (applyDefaults given root).
Proof.
  unfold Load. destruct (canonicalExistingPath env path) as [canonical|]; [|done].
  destruct (validateOwnedMode env canonical) eqn:Em; [done|].
  destruct (ReadFile env canonical) as [data|] eqn:Ef; [|done].
  destruct (decodeRoot decodeNode data) as [root|] eqn:Er; [|done]. case_if; [done|].
  destruct (rejectNullNodes root) eqn:En; [done|]. destruct (decodeFields data) as [given|] eqn:Eg; [|done].
  destruct (decodeTrailing data); [done| |done]. unfold Validate. set (d := applyDefaults given root).
  cbn [cfg_APIVersion cfg_Kind cfg_Upstream cfg_Proxy cfg_Policy cfg_Audit withIdentity].
  destruct (negb (cfg_APIVersion d =? APIVersion)%string) eqn:E1; [done|].
  destruct (negb (cfg_Kind d =? Kind)%string) eqn:E2; [done|].
  destruct (validateUpstream (cfg_Upstream d)) eqn:E3; [done|].
  destruct (validateProxy (cfg_Proxy d)) eqn:E4; [done|].
  destruct (validatePolicy (cfg_Policy d)) eqn:E5; [done|].
  destruct (normalizeAndValidateAudit env fuel (cfg_Audit d)) as [[au|]|] eqn:E6; [|done..].
  intros [= <-]. cbn. apply negb_false_iff, eqb_true_str in E1, E2.
  apply normalizeAndValidateAudit_ok in E6 as [Hau _].
  split_and!; try done. by exists data, root, given.
Qed.
End Claims.

(** ** A concrete run *)

Definition directory (mode : Z) : statResult := Info (mkInfo false true mode true).
Definition sampleStat (path : string) : statResult :=
  if (path =? "/home/u/kordn.yaml")%string then Info (mkInfo true false 384 true)
  else if (path =? "/home/u")%string then directory 448
  else if mem_str path ["/home"; "/"] then directory 493
  else NotExist.
Definition sampleEnv : Env :=
  mkEnv (Some "/home/u") (Some "/") "/tmp" (fun p => Some p) sampleStat sampleStat (fun _ => Some "data").

Definition text (s : string) : node := mkNode ScalarNode "!!str" s [].
Definition mapping (l : list (string * node)) : node :=
  mkNode MappingNode "!!map" "" (foldr (fun kv acc => text kv.1 :: kv.2 :: acc) [] l).
Definition sampleRoot : node :=
  mapping [("apiVersion", text APIVersion); ("kind", text Kind);
    ("upstream", mapping [("profile", text "dev"); ("region", text "us-east-1")]);
    ("policy", mapping [("rules", mkNode SequenceNode "!!seq" "" [])])].
Definition sampleGiven : Config :=
  mkConfig APIVersion Kind (mkUpstream "dev" "" "" "" "" 0 "us-east-1") (mkProxy "" "" "" 0 0)
    (mkPolicy "" []) (mkAudit "" "" "" false false) "" "".
Definition sampleLoad : option (result Config) :=
  Load (U := ascii_tables) sampleEnv (fun s => s)
    (fun _ n => match n with O => Document (mkNode DocumentNode "" "" [sampleRoot]) | S _ => AtEOF end)
    (fun _ => Some sampleGiven) (fun _ => AtEOF) 8 "~/kordn.yaml".
Definition sampleLoaded : Config :=
  match sampleLoad with Some (Ok cfg) => cfg | _ => sampleGiven end.

Lemma Load_sound_witness : let _ := ascii_tables in
  Path (cfg_Audit sampleLoaded) = "/home/u/.kordn/audit/events.jsonl" /\
  MaxSpoolBodyBytes (cfg_Proxy sampleLoaded) = DefaultMaxSpoolBodyBytes /\
  validateProxy (cfg_Proxy sampleLoaded) = None /\ audit_ok sampleEnv (cfg_Audit sampleLoaded).
Proof.
  intros U. split; [vm_compute; reflexivity|]. split; [vm_compute; reflexivity|].
  assert (sampleLoad = Some (Ok sampleLoaded)) as H by (vm_compute; reflexivity).
  destruct (Load_sound (U := U) sampleEnv _ _ _ _ 8 "~/kordn.yaml" sampleLoaded H)
    as (_ & _ & _ & H1 & _ & _ & H2 & _). exact (conj H1 H2).
Defined.
End ConfigLoad.
