(* ===== verification/GoTime.v ===== *)
(** * Calendar time (Go's package [time])

    What internal/sigv4 uses of [time]: UTC instants as calendar fields, [Sub]
    with its saturation, [IsZero], and parsing and formatting with the layouts
    20060102 and 20060102T150405Z. *)

From Stdlib Require Import ZArith Lia Ascii.
From stdpp Require Import base strings list.
From S2P Require Import Prelude GoStrings.

Module GoTime.

(** A [time.Time] in UTC, to the nanosecond. *)
Record Time := mkTime {
  year : Z; month : Z; day : Z; hour : Z; minute : Z; second : Z; nsec : Z;
}.

#[export] Instance Time_eq_dec : EqDecision Time.
Proof. solve_decision. Defined.

Definition isLeap (y : Z) : bool := (y mod 4 =? 0) && (negb (y mod 100 =? 0) || (y mod 400 =? 0)).

Definition daysIn (m y : Z) : Z :=
  if m =? 2 then if isLeap y then 29 else 28
  else if (m =? 4) || (m =? 6) || (m =? 9) || (m =? 11) then 30
  else 31.

Definition valid_time (t : Time) : Prop :=
  0 <= year t <= 9999 /\ 1 <= month t <= 12 /\ 1 <= day t <= daysIn (month t) (year t) /\
  0 <= hour t < 24 /\ 0 <= minute t < 60 /\ 0 <= second t < 60 /\ 0 <= nsec t < 1000000000.

(** Days from the start of year 1, and nanoseconds from the zero [Time]. *)
Definition daysBeforeYear (y : Z) : Z :=
  let p := y - 1 in 365 * p + p / 4 - p / 100 + p / 400.
Definition daysBeforeMonth (m y : Z) : Z :=
  foldr (fun k acc => daysIn (Z.of_nat k) y + acc) 0 (seq 1 (Z.to_nat (m - 1))).
Definition instant (t : Time) : Z :=
  let days := daysBeforeYear (year t) + daysBeforeMonth (month t) (year t) + (day t - 1) in
  (days * 86400 + hour t * 3600 + minute t * 60 + second t) * 1000000000 + nsec t.

Definition zeroTime : Time := mkTime 1 1 1 0 0 0 0.
Definition IsZero (t : Time) : bool := instant t =? 0.

(** [Time.Sub]: a [Duration] is an [int64] of nanoseconds, and the difference
    saturates. *)
Definition Sub (t u : Time) : Z :=
  Z.max (- 2 ^ 63) (Z.min (2 ^ 63 - 1) (instant t - instant u)).

Definition Second : Z := 1000000000.
Definition Minute : Z := 60 * Second.
Definition Hour : Z := 60 * Minute.

(** [appendInt] of package [time]. *)
Fixpoint zeros (n : nat) : string :=
  match n with O => EmptyString | S n => String "0" (zeros n) end.
Definition padInt (x : Z) (width : nat) : string :=
  let digits := Itoa (Z.abs x) in
  let sign := if x <? 0 then "-" else "" in
  (sign ++ zeros (width - String.length digits) ++ digits)%string.

Definition formatDate (t : Time) : string :=
  (padInt (year t) 4 ++ padInt (month t) 2 ++ padInt (day t) 2)%string.
Definition formatAmz (t : Time) : string :=
  (formatDate t ++ "T" ++ padInt (hour t) 2 ++ padInt (minute t) 2 ++ padInt (second t) 2 ++ "Z")%string.

(** *** Parsing, chunk by chunk *)

Definition isDigitAt (s : string) (i : Z) : bool :=
  match byte_at s i with Some c => is_digit c | None => false end.

(** [getnum]: the number and the rest. *)
Definition getnum (s : string) (fixed : bool) : option (Z * string) :=
  match s with
  | EmptyString => None
  | String a s1 =>
    if negb (is_digit (ord a)) then None
    else if negb (isDigitAt s1 0) then if fixed then None else Some (ord a - ord "0", s1)
    else Some ((ord a - ord "0") * 10 + default 0 (byte_at s1 0) - ord "0", str_drop 1 s1)
  end.

Definition inRange (lo hi : Z) (p : option (Z * string)) : option (Z * string) :=
  match p with
  | Some (v, rest) => if between lo hi v then Some (v, rest) else None
  | None => None
  end.

(** Four digits of a year. *)
Definition getYear (s : string) : option (Z * string) :=
  let p := str_take 4 s in
  if (slen p =? 4) && bytes_all is_digit p then Some (decimal 0 p, str_drop 4 s) else None.

(** The digits at the start of a string, and the rest. *)
Fixpoint digitRun (s : string) : string * string :=
  match s with
  | EmptyString => (EmptyString, EmptyString)
  | String a s1 =>
    if is_digit (ord a) then let (d, r) := digitRun s1 in (String a d, r) else (EmptyString, s)
  end.

(** Fractional seconds after the seconds, which need no place in the layout:
    nine digits count, further ones are dropped. *)
Definition getFraction (s : string) : Z * string :=
  match s with
  | String a s1 =>
    if ((ord a =? ord ".") || (ord a =? ord ",")) && isDigitAt s1 0 then
      let (d, rest) := digitRun s1 in
      let d := str_take 9 d in
      (decimal 0 d * 10 ^ (9 - slen d), rest)
    else (0, s)
  | EmptyString => (0, s)
  end.

Definition skipByte (c : ascii) (s : string) : option string :=
  match s with
  | String a s => if ord a =? ord c then Some s else None
  | EmptyString => None
  end.

(** [time.Parse("20060102T150405Z", value)]. *)
Definition parseAmz (value : string) : option Time :=
  '(y, s) ← getYear value;
  '(m, s) ← inRange 1 12 (getnum s true);
  '(d, s) ← getnum s true;
  s ← skipByte "T" s;
  '(h, s) ← inRange 0 23 (getnum s false);
  '(mi, s) ← inRange 0 59 (getnum s true);
  '(sec, s) ← inRange 0 59 (getnum s true);
  let (ns, s) := getFraction s in
  s ← skipByte "Z" s;
  if negb (s =? "")%string then None
  else if between 1 (daysIn m y) d then Some (mkTime y m d h mi sec ns)
  else None.

(** ** Lemmas *)

Definition digits_of (s : string) (n : Z) : bool :=
  bytes_all is_digit s && (decimal 0 s =? n).

Lemma itoa_fuel_shape fuel : forall n acc k, 0 <= n < 10 ^ Z.of_nat (S k) -> bytes_all is_digit acc = true ->
  bytes_all is_digit (itoa_fuel fuel n acc) = true /\
  (String.length (itoa_fuel fuel n acc) <= S k + String.length acc)%nat.
Proof.
  induction fuel as [|fuel IH]; intros n acc k Hn Ha; cbn [itoa_fuel]; [split; [done|lia]|].
  assert (0 <= n mod 10 < 10) by (apply Z.mod_pos_bound; lia).
  assert (Hd : bytes_all is_digit (String (chr (48 + n mod 10)) acc) = true).
  { cbn [bytes_all]. rewrite Ha, ord_chr by lia. unfold is_digit, between. change (ord "0") with 48. change (ord "9") with 57. lia. }
  destruct (Z.ltb_spec n 10); [split; [done|cbn; lia]|].
  destruct k as [|k]; [cbn in Hn; lia|]. destruct (IH (n / 10) (String (chr (48 + n mod 10)) acc) k) as [H1 H2]; [|done|].
  - rewrite Nat2Z.inj_succ, Z.pow_succ_r in Hn by lia. split; [apply Z.div_pos; lia|]. apply Z.div_lt_upper_bound; lia.
  - split; [done|]. cbn [String.length] in H2. lia.
Qed.
Lemma zeros_shape k s : String.length (zeros k ++ s) = (k + String.length s)%nat /\
  decimal 0 (zeros k ++ s) = decimal 0 s /\ bytes_all is_digit (zeros k ++ s) = bytes_all is_digit s.
Proof.
  induction k as [|k (H1 & H2 & H3)]; [done|]. change (zeros (S k) ++ s)%string with (String "0" (zeros k ++ s)).
  cbn [String.length decimal bytes_all]. rewrite H1, H3. done.
Qed.
Lemma padInt_year n : 0 <= n <= 9999 -> exists a b c d,
  padInt n 4 = String a (String b (String c (String d EmptyString))) /\
  digits_of (padInt n 4) n = true.
Proof.
  intros Hn. unfold padInt. rewrite Z.abs_eq by lia. replace (n <? 0) with false by lia.
  destruct (itoa_fuel_shape (S (Z.to_nat (Z.log2 n))) n EmptyString 3) as [Hd Hl]; [cbn; lia|done|].
  change (itoa_fuel (S (Z.to_nat (Z.log2 n))) n EmptyString) with (Itoa n) in *. cbn [String.length] in Hl.
  destruct (zeros_shape (4 - String.length (Itoa n)) (Itoa n)) as (E1 & E2 & E3).
  change ("" ++ zeros (4 - String.length (Itoa n)) ++ Itoa n)%string with (zeros (4 - String.length (Itoa n)) ++ Itoa n)%string.
  unfold digits_of. rewrite E2, E3, Hd, Itoa_decimal by lia. rewrite Z.eqb_refl.
  destruct (zeros _ ++ Itoa n)%string as [|a [|b [|c [|d [|e s]]]]]; cbn [String.length] in E1; try lia. by exists a, b, c, d.
Qed.

Lemma padInt_two n rest fixed : 0 <= n < 100 -> getnum (padInt n 2 ++ rest) fixed = Some (n, rest).
Proof.
  intros Hn.
  assert (forallb (fun k => match padInt (Z.of_nat k) 2 with
    | String a (String b EmptyString) => is_digit (ord a) && is_digit (ord b) &&
        ((ord a - ord "0") * 10 + ord b - ord "0" =? Z.of_nat k)
    | _ => false end) (seq 0 100) = true) as H by (vm_compute; reflexivity).
  rewrite forallb_forall in H. specialize (H (Z.to_nat n) ltac:(apply in_seq; lia)).
  rewrite Z2Nat.id in H by lia.
  destruct (padInt n 2) as [|a [|b [|c s]]]; try discriminate.
  apply andb_true_iff in H as [H He]. apply andb_true_iff in H as [Ha Hb]. apply Z.eqb_eq in He.
  change ((String a (String b "") ++ rest)%string) with (String a (String b rest)).
  cbn [getnum]. rewrite Ha. unfold isDigitAt. change (byte_at (String b rest) 0) with (Some (ord b)).
  cbv iota. rewrite Hb. cbn [negb str_drop].
  change (default 0 (Some (ord b))) with (ord b). by rewrite He.
Qed.

Lemma getYear_pad n rest : 0 <= n <= 9999 -> getYear (padInt n 4 ++ rest) = Some (n, rest).
Proof.
  intros Hn. destruct (padInt_year n Hn) as (a & b & c & d & E & H). rewrite E in *.
  unfold digits_of in H. apply andb_true_iff in H as [H1 H2]. apply Z.eqb_eq in H2.
  set (p := String a (String b (String c (String d "")))) in *.
  unfold getYear. change (str_take 4 (p ++ rest)) with p. change (str_drop 4 (p ++ rest)) with rest.
  change (slen p =? 4) with true. by rewrite H1, H2.
Qed.

Lemma inRange_some lo hi v s : lo <= v <= hi -> inRange lo hi (Some (v, s)) = Some (v, s).
Proof. intros H. unfold inRange, between. by rewrite (proj2 (Z.leb_le lo v)), (proj2 (Z.leb_le v hi)) by lia. Qed.

Lemma daysIn_bound m y : daysIn m y <= 31.
Proof. unfold daysIn. repeat case_if; lia. Qed.

(** Parsing inverts formatting, on times of whole seconds. *)
Lemma parse_format t : valid_time t -> nsec t = 0 -> parseAmz (formatAmz t) = Some t.
Proof.
  intros (Hy & Hm & Hd & Hh & Hmi & Hs & _) Hn. pose proof (daysIn_bound (month t) (year t)).
  unfold parseAmz, formatAmz, formatDate. rewrite !str_app_assoc.
  rewrite getYear_pad by lia. cbn [mbind option_bind].
  rewrite padInt_two, inRange_some by lia. cbn [mbind option_bind].
  rewrite padInt_two by lia. cbn [mbind option_bind].
  match goal with |- context [skipByte "T" ("T" ++ ?s)%string] => change (skipByte "T" ("T" ++ s)%string) with (Some s) end.
  cbn [mbind option_bind].
  rewrite padInt_two, inRange_some by lia. cbn [mbind option_bind].
  rewrite padInt_two, inRange_some by lia. cbn [mbind option_bind].
  rewrite padInt_two, inRange_some by lia. cbn [mbind option_bind].
  cbn. unfold between. rewrite (proj2 (Z.leb_le 1 (day t))), (proj2 (Z.leb_le (day t) _)) by lia.
  cbn. destruct t. cbn in *. by subst.
Qed.

Lemma inRange_inv lo hi p v s : inRange lo hi p = Some (v, s) -> p = Some (v, s) /\ lo <= v <= hi.
Proof.
  unfold inRange, between. destruct p as [[v' s']|]; [|done]. destruct (_ && _) eqn:E; [|done].
  intros [= <- <-]. apply andb_true_iff in E as [?%Z.leb_le ?%Z.leb_le]. done.
Qed.

Lemma decimal_bound s : bytes_all is_digit s = true -> forall acc, 0 <= acc ->
  0 <= decimal acc s < (acc + 1) * 10 ^ slen s.
Proof.
  induction s as [|a s IH]; intros H acc Ha; cbn [decimal].
  - change (slen "") with 0. lia.
  - cbn [bytes_all] in H. apply andb_true_iff in H as [H1 H2].
    assert (0 <= ord a - 48 <= 9) as Hd.
    { unfold is_digit, between in H1. apply andb_true_iff in H1 as [?%Z.leb_le ?%Z.leb_le].
      change (ord "0") with 48 in *. change (ord "9") with 57 in *. lia. }
    specialize (IH H2 (acc * 10 + (ord a - 48)) ltac:(lia)).
    assert (slen (String a s) = slen s + 1) as -> by (unfold slen; cbn [String.length]; lia).
    rewrite Z.pow_add_r by (pose proof (slen_nonneg s); lia).
    pose proof (Z.pow_pos_nonneg 10 (slen s) ltac:(lia) (slen_nonneg s)).
    change (ord "0") with 48. change (10 ^ 1) with 10.
    assert ((acc * 10 + (ord a - 48) + 1) * 10 ^ slen s <= (10 * (acc + 1)) * 10 ^ slen s)
      by (apply Z.mul_le_mono_nonneg_r; lia). lia.
Qed.

Lemma bytes_all_take p n s : bytes_all p s = true -> bytes_all p (str_take n s) = true.
Proof.
  revert s. induction n as [|n IH]; intros [|a s]; cbn; try done.
  intros [-> H]%andb_true_iff. by apply IH.
Qed.

Lemma slen_take_le n s : slen (str_take n s) <= Z.of_nat n.
Proof.
  unfold slen. revert s. induction n as [|n IH]; intros [|a s]; cbn [str_take String.length]; try lia.
  specialize (IH s). lia.
Qed.

Lemma getFraction_range s : 0 <= (getFraction s).1 < 1000000000.
Proof.
  unfold getFraction. destruct s as [|a s]; [cbn; lia|]. destruct (_ && _); [|cbn; lia].
  destruct (digitRun s) as [d rest] eqn:E. cbn [fst].
  assert (bytes_all is_digit d = true) as Hd.
  { clear -E. revert d rest E. induction s as [|b s IH]; intros d rest; cbn; [by intros [= <- _]|].
    destruct (is_digit (ord b)) eqn:Eb; [|by intros [= <- _]].
    destruct (digitRun s) as [d' r']. intros [= <- _]. cbn. rewrite Eb. by eapply IH. }
  pose proof (decimal_bound _ (bytes_all_take is_digit 9 d Hd) 0 ltac:(lia)) as Hb.
  pose proof (slen_take_le 9 d). pose proof (slen_nonneg (str_take 9 d)).
  set (k := slen (str_take 9 d)) in *.
  assert (10 ^ k * 10 ^ (9 - k) = 1000000000) as Hk
    by (rewrite <-Z.pow_add_r by lia; replace (k + (9 - k)) with 9 by lia; done).
  pose proof (Z.pow_pos_nonneg 10 (9 - k) ltac:(lia) ltac:(lia)). nia.
Qed.

(** A parsed time has fields in range. *)
Lemma parseAmz_valid s t : parseAmz s = Some t -> valid_time t.
Proof.
  unfold parseAmz. intros H.
  apply bind_Some in H as ([y s1] & Hy & H). apply bind_Some in H as ([m s2] & Hm & H).
  apply bind_Some in H as ([d s3] & Hd & H). apply bind_Some in H as (s4 & _ & H).
  apply bind_Some in H as ([h s5] & Hh & H). apply bind_Some in H as ([mi s6] & Hmi & H).
  apply bind_Some in H as ([sec s7] & Hsec & H).
  destruct (getFraction s7) as [ns s8] eqn:Ef. pose proof (getFraction_range s7) as Hns. rewrite Ef in Hns.
  apply bind_Some in H as (s9 & _ & H).
  destruct (negb _); [done|]. unfold between in H. destruct (_ && _) eqn:Er; [|done]. injection H as <-.
  apply andb_true_iff in Er as [?%Z.leb_le ?%Z.leb_le].
  apply inRange_inv in Hm as [_ ?], Hh as [_ ?], Hmi as [_ ?], Hsec as [_ ?].
  assert (0 <= y <= 9999) as Hyr.
  { unfold getYear in Hy. destruct (_ && _) eqn:E; [|done]. injection Hy as <- _.
    apply andb_true_iff in E as [Hl%Z.eqb_eq Ha]. pose proof (decimal_bound _ Ha 0 ltac:(lia)) as Hb.
    rewrite Hl in Hb. change (10 ^ 4) with 10000 in Hb. cbn [str_take] in *. lia. }
  cbn [fst] in Hns. unfold valid_time. cbn [year month day hour minute second nsec]. lia.
Qed.
End GoTime.
