(* ===== verification/Credentials.v ===== *)
(** * Credentials (internal/credentials: fake.go, identity.go, provider.go)

    The credentials of a run, generated from random bytes; the checks of the
    upstream section the provider repeats; retrieval and the identity preflight
    with the AWS SDK's calls as parameters that may return, fail or panic.
    Base64 is modelled bit by bit. *)

From Stdlib Require Import ZArith Lia Ascii.
From stdpp Require Import base gmap strings list.
From S2P Require Import Prelude GoStrings Regexp AwsTypes GoTime Config.

Module Credentials.
Import Regexp.Regexp AwsTypes.AwsTypes GoTime.GoTime Config.Config.

(** ** The credentials of a run *)

Definition randomMaterialBytes : Z := 32.
Definition randomMaterialEncoded : Z := 43.
Definition accessKeyIDPrefix : string := "KORDN".
Definition accessKeyIDMinLength : Z := 16.
Definition accessKeyIDMaxLength : Z := 128.

Record FakeCredential := mkFake {
  AccessKeyID : string; SecretAccessKey : string; SessionToken : string; CreatedAt : Time;
}.
Record RunSecrets := mkSecrets {
  RunID : string; Fake : FakeCredential; ProxyUsername : string; ProxySecret : string;
}.

Definition FakeCredential_String (f : FakeCredential) : string :=
  "FakeCredential{AccessKeyID:[REDACTED] SecretAccessKey:[REDACTED] SessionToken:[REDACTED]}".

(** [base64.RawURLEncoding]. *)
Definition base64Alphabet : string :=
  "ABCDEFGHIJKLMNOPQRSTUVWXYZabcdefghijklmnopqrstuvwxyz0123456789-_".
Definition base64Char (v : Z) : ascii := default "A"%char (String.get (Z.to_nat v) base64Alphabet).
Fixpoint base64Encode (s : list Z) : string :=
  match s with
  | a :: b :: c :: s =>
    let v := a * 65536 + b * 256 + c in
    String (base64Char (v / 262144)) (String (base64Char (v / 4096 mod 64))
      (String (base64Char (v / 64 mod 64)) (String (base64Char (v mod 64)) (base64Encode s))))
  | [a; b] =>
    let v := a * 65536 + b * 256 in
    String (base64Char (v / 262144)) (String (base64Char (v / 4096 mod 64))
      (String (base64Char (v / 64 mod 64)) EmptyString))
  | [a] =>
    String (base64Char (a / 4)) (String (base64Char (a mod 4 * 16)) EmptyString)
  | [] => EmptyString
  end.

(** [randomMaterial], given what [rand.Read] yields. *)
Definition randomMaterial (random : option (list Z)) : result string :=
  match random with
  | None => Err (ErrNew "read cryptographic random source")
  | Some material =>
    let encoded := base64Encode material in
    if negb (slen encoded =? randomMaterialEncoded)
    then Err (ErrNew "encode cryptographic random source")
    else Ok encoded
  end.

Definition relabel {A} (msg : string) (r : result A) : result A :=
  match r with Ok a => Ok a | Err _ => Err (ErrNew msg) end.

(** [Generate], given the random source's successive outcomes and the time. *)
Definition Generate (random : nat -> option (list Z)) (now : Time) : result RunSecrets :=
  runID ← relabel "generate run identity" (randomMaterial (random 0%nat));
  accessSuffix ← relabel "generate fake access identity" (randomMaterial (random 1%nat));
  secret ← relabel "generate fake secret" (randomMaterial (random 2%nat));
  sessionToken ← relabel "generate fake session token" (randomMaterial (random 3%nat));
  proxySecret ← relabel "generate proxy credential" (randomMaterial (random 4%nat));
  let accessKeyID := (accessKeyIDPrefix ++ accessSuffix)%string in
  if (slen accessKeyID <? accessKeyIDMinLength) || (accessKeyIDMaxLength <? slen accessKeyID)
  then Err (ErrNew "generated fake access identity is outside AWS limits")
  else
    Ok (mkSecrets ("run-" ++ runID) (mkFake accessKeyID secret sessionToken now) "kordn" proxySecret).
Definition GenerateFakeCredential (random : nat -> option (list Z)) (now : Time) : result FakeCredential :=
  secrets ← Generate random now; Ok (Fake secrets).
Definition GenerateRunSecrets (random : nat -> option (list Z)) (now : Time) : result RunSecrets :=
  Generate random now.

(** ** The upstream provider *)

Definition providerProfilePattern : re := profilePattern.
Definition providerRegionPattern : re := regionPattern.
Definition providerRoleARNPattern : re := roleARNPattern.
Definition providerSessionPattern : re := identityPattern.
Definition providerExternalPattern : re := externalIDPattern.

Definition supportedRolePartition (roleARN : string) : bool :=
  match SplitN roleARN ":" 6 with
  | [_; partition; _; _; _; _] =>
    mem_str partition ["aws"; "aws-us-gov"; "aws-cn"; "aws-iso"; "aws-iso-b"; "aws-iso-f"]
  | _ => false
  end.

Definition validateProviderInput `{UnicodeTables} (up : Upstream) : option error :=
  if negb (matches providerProfilePattern (Profile up)) || EqualFold (Profile up) "default"
  then Some (ErrNew "upstream profile is invalid")
  else if negb (matches providerRegionPattern (Region up)) || (64 <? slen (Region up))
  then Some (ErrNew "upstream Region is invalid")
  else if (AssumeRoleARN up =? "")%string &&
          (negb (ExternalID up =? "")%string || negb (SourceIdentity up =? "")%string)
  then Some (ErrNew "fixed role options require an assume role ARN")
  else if (AssumeRoleARN up =? "")%string then None
  else if (2048 <? slen (AssumeRoleARN up)) || negb (matches providerRoleARNPattern (AssumeRoleARN up)) ||
          negb (supportedRolePartition (AssumeRoleARN up))
  then Some (ErrNew "fixed assume role ARN is invalid")
  else if (slen (RoleSessionName up) <? 2) || (64 <? slen (RoleSessionName up)) ||
          negb (matches providerSessionPattern (RoleSessionName up))
  then Some (ErrNew "fixed role session name is invalid")
  else if (DurationSeconds up <? 900) || (43200 <? DurationSeconds up)
  then Some (ErrNew "fixed role duration is outside STS limits")
  else if negb (ExternalID up =? "")%string &&
          ((slen (ExternalID up) <? 2) || (1224 <? slen (ExternalID up)) ||
           negb (matches providerExternalPattern (ExternalID up)))
  then Some (ErrNew "fixed external ID is invalid")
  else if negb (SourceIdentity up =? "")%string &&
          ((slen (SourceIdentity up) <? 2) || (64 <? slen (SourceIdentity up)) ||
           negb (matches providerSessionPattern (SourceIdentity up)))
  then Some (ErrNew "fixed source identity is invalid")
  else None.

(** A call into the SDK. *)
Inductive called (A : Type) := Returned (a : A) | Failed | Panicked.
Arguments Returned {A} a.
Arguments Failed {A}.
Arguments Panicked {A}.

Record aws_Credentials := mkAws { aws_AccessKeyID : string; aws_SecretAccessKey : string; aws_SessionToken : string }.

Definition usableCredentials (v : aws_Credentials) : bool :=
  negb (aws_AccessKeyID v =? "")%string && negb (aws_SecretAccessKey v =? "")%string.

(** [retrieveSafely]: a panic is an error. *)
Definition retrieveSafely (provider : option (called aws_Credentials)) : result aws_Credentials :=
  match provider with
  | Some (Returned v) => Ok v
  | _ => Err (ErrNew "upstream credentials unavailable")
  end.

(** [Provider.Retrieve] on a provider that may be nil. *)
Definition Retrieve (provider : option (called aws_Credentials)) : result aws_Credentials :=
  match retrieveSafely provider with
  | Ok v => if usableCredentials v then Ok v else Err (ErrNew "upstream credentials unavailable")
  | Err _ => Err (ErrNew "upstream credentials unavailable")
  end.

Record UpstreamIdentity := mkIdentity {
  AccountID : string; ARN : string; UserID : string; id_Profile : string; RoleARN : string;
}.
(** [sts.GetCallerIdentityOutput]: three string pointers. *)
Record CallerIdentity := mkCaller { Account : option string; Arn : option string; UserId : option string }.

Definition unsafeText (s : string) : bool := bytes_any (fun c => (c =? 0) || (c =? 13) || (c =? 10)) s.

Definition callerIdentitySafely (client : called (option CallerIdentity)) : result (option CallerIdentity) :=
  match client with
  | Returned output => Ok output
  | _ => Err (ErrNew "upstream identity preflight failed")
  end.

Definition PreflightIdentity (client : option (called (option CallerIdentity)))
    (provider : option (called aws_Credentials)) (profile roleARN : string) : result UpstreamIdentity :=
  match client, provider with
  | Some client, Some _ =>
    match retrieveSafely provider with
    | Err _ => Err (ErrNew "upstream credentials unavailable")
    | Ok v =>
      if negb (usableCredentials v) then Err (ErrNew "upstream credentials unavailable")
      else match callerIdentitySafely client with
      | Ok (Some (mkCaller (Some account) (Some arn) (Some user))) =>
        if existsb unsafeText [account; arn; user; profile; roleARN]
        then Err (ErrNew "upstream identity preflight returned unsafe metadata")
        else Ok (mkIdentity account arn user profile roleARN)
      | _ => Err (ErrNew "upstream identity preflight failed")
      end
    end
  | _, _ => Err (ErrNew "identity preflight unavailable")
  end.

(** The choices of [NewProviderWithOptions]: the configuration the SDK loads,
    the clients the factory makes for it and for the assumed role, and the
    outcome of the effective provider. *)
Definition NewProviderWithOptions `{UnicodeTables} (up : Upstream)
    (loaded : called bool) (* whether it has credentials *)
    (sourceSTS effectiveSTS : called (option (called (option CallerIdentity))))
    (effective : called aws_Credentials) : result UpstreamIdentity :=
  match validateProviderInput up with
  | Some err => Err err
  | None =>
    match loaded with
    | Failed | Panicked => Err (ErrNew "upstream credential configuration unavailable")
    | Returned false => Err (ErrNew "upstream credential provider unavailable")
    | Returned true =>
      match sourceSTS with
      | Returned (Some source) =>
        match Retrieve (Some effective) with
        | Err _ => Err (ErrNew "upstream credentials unavailable")
        | Ok _ =>
          let client := if negb (AssumeRoleARN up =? "")%string then effectiveSTS else sourceSTS in
          match client with
          | Returned (Some client) => PreflightIdentity (Some client) (Some effective) (Profile up) (AssumeRoleARN up)
          | _ => Err (ErrNew "upstream STS client unavailable")
          end
        end
      | _ => Err (ErrNew "upstream STS client unavailable")
      end
    end
  end.
Arguments Returned {A} a.
Arguments Failed {A}.
Arguments Panicked {A}.

(** ** Base64 *)

Definition base64Byte (c : Z) : bool := is_alnum c || (c =? ord "-") || (c =? ord "_").

(** The value of a character, inverting [base64Char]. *)
Definition base64Value (c : Z) : Z :=
  if is_upper c then c - ord "A"
  else if is_lower c then c - ord "a" + 26
  else if is_digit c then c - ord "0" + 52
  else if c =? ord "-" then 62 else 63.

Lemma base64Char_spec v : 0 <= v < 64 ->
  base64Byte (ord (base64Char v)) = true /\ base64Value (ord (base64Char v)) = v.
Proof.
  intros Hv.
  assert (forallb (fun n => base64Byte (ord (base64Char (Z.of_nat n))) &&
    (base64Value (ord (base64Char (Z.of_nat n))) =? Z.of_nat n)) (seq 0 64) = true) as H
    by (vm_compute; reflexivity).
  rewrite forallb_forall in H. specialize (H (Z.to_nat v) ltac:(apply in_seq; lia)).
  rewrite Z2Nat.id in H by lia. apply andb_true_iff in H as [H1 H2%Z.eqb_eq]. done.
Qed.

Lemma base64Char_inj v w : 0 <= v < 64 -> 0 <= w < 64 -> base64Char v = base64Char w -> v = w.
Proof.
  intros Hv Hw E. apply (f_equal (fun a => base64Value (ord a))) in E.
  by rewrite (proj2 (base64Char_spec v Hv)), (proj2 (base64Char_spec w Hw)) in E.
Qed.

Definition byte (z : Z) : Prop := 0 <= z < 256.

(** The four digits of three bytes. *)
Lemma base64_digits a b c : byte a -> byte b -> byte c -> let v := a * 65536 + b * 256 + c in
  0 <= v / 262144 < 64 /\ 0 <= v / 4096 mod 64 < 64 /\ 0 <= v / 64 mod 64 < 64 /\ 0 <= v mod 64 < 64 /\
  v = v / 262144 * 262144 + v / 4096 mod 64 * 4096 + v / 64 mod 64 * 64 + v mod 64.
Proof.
  intros Ha Hb Hc v. unfold byte in *.
  assert (0 <= v < 16777216) as Hv by (unfold v; lia).
  assert (v / 64 / 64 = v / 4096) as E1 by (by rewrite Z.div_div by lia).
  assert (v / 4096 / 64 = v / 262144) as E2 by (by rewrite Z.div_div by lia).
  pose proof (Z.div_mod v 64 ltac:(lia)). pose proof (Z.div_mod (v / 64) 64 ltac:(lia)).
  pose proof (Z.div_mod (v / 4096) 64 ltac:(lia)).
  pose proof (Z.mod_pos_bound v 64 ltac:(lia)). pose proof (Z.mod_pos_bound (v / 64) 64 ltac:(lia)).
  pose proof (Z.mod_pos_bound (v / 4096) 64 ltac:(lia)).
  split_and!; lia.
Qed.

Lemma base64_two a b : byte a -> byte b -> let v := a * 65536 + b * 256 in
  0 <= v / 262144 < 64 /\ 0 <= v / 4096 mod 64 < 64 /\ 0 <= v / 64 mod 64 < 64 /\
  v = v / 262144 * 262144 + v / 4096 mod 64 * 4096 + v / 64 mod 64 * 64.
Proof.
  intros Ha Hb v. pose proof (base64_digits a b 0 Ha Hb ltac:(unfold byte; lia)) as H. cbv zeta in H.
  rewrite Z.add_0_r in H. fold v in H.
  assert (v mod 64 = 0) as E.
  { unfold v. replace (a * 65536 + b * 256) with ((a * 1024 + b * 4) * 64) by lia. apply Z.mod_mul. lia. }
  rewrite E in H. lia.
Qed.

Lemma base64_one a : byte a -> 0 <= a / 4 < 64 /\ 0 <= a mod 4 * 16 < 64.
Proof.
  unfold byte. intros H. pose proof (Z.mod_pos_bound a 4 ltac:(lia)).
  pose proof (Z.div_mod a 4 ltac:(lia)). lia.
Qed.

Lemma base64_bytes s : (exists n, (List.length s <= n)%nat) -> Forall byte s -> bytes_all base64Byte (base64Encode s) = true.
Proof.
  intros [n Hn]. revert s Hn. induction n as [|n IH]; intros s Hn Hs.
  { by destruct s; [|cbn in Hn; lia]. }
  destruct s as [|a [|b [|c s]]]; [done| | |].
  - apply Forall_cons in Hs as [Ha _]. destruct (base64_one a Ha) as [H1 H2]. cbn [base64Encode bytes_all].
    by rewrite (proj1 (base64Char_spec _ H1)), (proj1 (base64Char_spec _ H2)).
  - apply Forall_cons in Hs as [Ha Hs]. apply Forall_cons in Hs as [Hb _].
    destruct (base64_two a b Ha Hb) as (H1 & H2 & H3 & _). cbn [base64Encode bytes_all].
    by rewrite (proj1 (base64Char_spec _ H1)), (proj1 (base64Char_spec _ H2)), (proj1 (base64Char_spec _ H3)).
  - apply Forall_cons in Hs as [Ha Hs]. apply Forall_cons in Hs as [Hb Hs]. apply Forall_cons in Hs as [Hc Hs].
    destruct (base64_digits a b c Ha Hb Hc) as (H1 & H2 & H3 & H4 & _). cbn [base64Encode bytes_all].
    rewrite (proj1 (base64Char_spec _ H1)), (proj1 (base64Char_spec _ H2)), (proj1 (base64Char_spec _ H3)),
      (proj1 (base64Char_spec _ H4)). cbn in Hn. cbn [andb]. apply IH; [lia|done].
Qed.

Lemma base64_inj n : forall s t, (List.length s <= n)%nat -> Forall byte s -> Forall byte t ->
  List.length s = List.length t -> base64Encode s = base64Encode t -> s = t.
Proof.
  induction n as [|n IH]; intros s t Hn Hs Ht El E.
  { destruct s; [by destruct t|cbn in Hn; lia]. }
  destruct s as [|a [|b [|c s]]], t as [|a' [|b' [|c' t]]]; try done.
  - apply Forall_cons in Hs as [Ha _], Ht as [Ha' _]. destruct (base64_one a Ha), (base64_one a' Ha').
    injection E as E1 E2. apply base64Char_inj in E1, E2; try done.
    pose proof (Z.div_mod a 4 ltac:(lia)). pose proof (Z.div_mod a' 4 ltac:(lia)). f_equal. lia.
  - apply Forall_cons in Hs as [Ha Hs], Ht as [Ha' Ht]. apply Forall_cons in Hs as [Hb _], Ht as [Hb' _].
    destruct (base64_two a b Ha Hb) as (H1 & H2 & H3 & H4).
    destruct (base64_two a' b' Ha' Hb') as (K1 & K2 & K3 & K4).
    injection E as E1 E2 E3. apply base64Char_inj in E1, E2, E3; try done.
    rewrite <-E1, <-E2, <-E3, <-H4 in K4. unfold byte in *. assert (a = a') by lia. subst. do 2 f_equal. lia.
  - apply Forall_cons in Hs as [Ha Hs], Ht as [Ha' Ht]. apply Forall_cons in Hs as [Hb Hs], Ht as [Hb' Ht].
    apply Forall_cons in Hs as [Hc Hs], Ht as [Hc' Ht].
    destruct (base64_digits a b c Ha Hb Hc) as (H1 & H2 & H3 & H4 & H5).
    destruct (base64_digits a' b' c' Ha' Hb' Hc') as (K1 & K2 & K3 & K4 & K5).
    cbn [base64Encode] in E. injection E as E1 E2 E3 E4 E. apply base64Char_inj in E1, E2, E3, E4; try done.
    rewrite <-E1, <-E2, <-E3, <-E4, <-H5 in K5. cbn in Hn, El.
    rewrite (IH s t) by (done || lia). unfold byte in *.
    assert (a = a') by lia. assert (b = b') by lia. assert (c = c') by lia. by subst.
Qed.

(** ** Generated credentials *)

Definition random_ok (random : nat -> option (list Z)) : Prop := forall n, exists material,
  random n = Some material /\ List.length material = 32%nat /\ Forall byte material.

Lemma base64_length s : List.length s = 32%nat -> slen (base64Encode s) = 43.
Proof. intros H. do 33 (destruct s as [|? s]; try discriminate). done. Qed.

Lemma randomMaterial_spec material : List.length material = 32%nat -> Forall byte material ->
  randomMaterial (Some material) = Ok (base64Encode material) /\
  slen (base64Encode material) = 43 /\ bytes_all base64Byte (base64Encode material) = true.
Proof.
  intros Hl Hb. unfold randomMaterial. rewrite base64_length by done. split_and!; [done..|].
  apply base64_bytes; [by eexists|done].
Qed.

Lemma Generate_spec random now : random_ok random -> exists m0 m1 m2 m3 m4,
  random 0%nat = Some m0 /\ random 1%nat = Some m1 /\ random 2%nat = Some m2 /\ random 3%nat = Some m3 /\
  random 4%nat = Some m4 /\
  Generate random now = Ok (mkSecrets ("run-" ++ base64Encode m0)
    (mkFake (accessKeyIDPrefix ++ base64Encode m1) (base64Encode m2) (base64Encode m3) now)
    "kordn" (base64Encode m4)) /\
  Forall (fun m => List.length m = 32%nat /\ Forall byte m) [m0; m1; m2; m3; m4].
Proof.
  intros H. destruct (H 0%nat) as (m0 & E0 & L0 & B0), (H 1%nat) as (m1 & E1 & L1 & B1),
    (H 2%nat) as (m2 & E2 & L2 & B2), (H 3%nat) as (m3 & E3 & L3 & B3), (H 4%nat) as (m4 & E4 & L4 & B4).
  exists m0, m1, m2, m3, m4. split_and!; [done..| |by repeat constructor].
  unfold Generate. rewrite E0, E1, E2, E3, E4.
  destruct (randomMaterial_spec m0 L0 B0) as (-> & _), (randomMaterial_spec m1 L1 B1) as (-> & Hl & _),
    (randomMaterial_spec m2 L2 B2) as (-> & _), (randomMaterial_spec m3 L3 B3) as (-> & _),
    (randomMaterial_spec m4 L4 B4) as (-> & _). cbn [mbind result_bind relabel].
  assert (slen (accessKeyIDPrefix ++ base64Encode m1) = 48) as -> by (rewrite slen_app, Hl; done). done.
Qed.

(** ** The provider's checks *)

Lemma role_partition arn p : roleARNPartition arn = Some p ->
  supportedRolePartition arn = supportedPartition p.
Proof.
  unfold roleARNPartition. destruct (matches roleARNPattern arn) eqn:E; [|done].
  apply matches_spec in E. unfold roleARNPattern in E.
  apply lang_cat, lang_cat_inv in E as (x & y & -> & Hx & E). apply lang_lit in Hx as ->.
  apply lang_cat, lang_cat_inv in E as (q & z & -> & [_ Hq]%lang_plus_class & E).
  apply lang_cat, lang_cat_inv in E as (x & w & -> & Hx & E). apply lang_lit in Hx as ->.
  apply lang_cat, lang_cat_inv in E as (acct & v & -> & [_ Ha]%lang_times_class & E).
  apply lang_cat, lang_cat_inv in E as (x & u & -> & Hx & _). apply lang_lit in Hx as ->.
  assert (count_byte q (ord ":") = 0) as Cq by by apply (bytes_all_count partitionByte).
  assert (count_byte acct (ord ":") = 0) as Ca by by apply (bytes_all_count is_digit).
  change ("arn:" ++ q ++ ":iam::" ++ acct ++ ":role/" ++ u)%string with
    ("arn" ++ String ":" (q ++ String ":" ("iam::" ++ acct ++ ":role/" ++ u)))%string.
  unfold Split. rewrite !split_byte_app, (split_byte_plain ":" q Cq). cbn [app split_byte].
  change (split_byte (ord ":") "arn") with ["arn"]. intros [= <-].
  unfold supportedRolePartition, SplitN. cbn [Nat.sub].
  rewrite (splitn_byte_app ":" 4 "arn") by done. rewrite (splitn_byte_app ":" 3 q) by done.
  change ("iam::" ++ acct ++ ":role/" ++ u)%string with
    ("iam" ++ String ":" ("" ++ String ":" (acct ++ String ":" ("role/" ++ u))))%string.
  rewrite (splitn_byte_app ":" 2 "iam"), (splitn_byte_app ":" 1 ""), (splitn_byte_app ":" 0 acct) by done.
  done.
Qed.

Section Claims.
Context `{U : UnicodeTables}.

Lemma boundedText_spec lo hi r s : negb (boundedText lo hi r s) = false ->
  (slen s <? lo) || (hi <? slen s) || negb (matches r s) = false.
Proof. unfold boundedText. by rewrite negb_involutive. Qed.

(** The provider repeats the checks of configuration with code of its own,
    and accepts every upstream section that configuration accepts: a validated
    configuration is never refused before the SDK is reached. *)
Theorem validateUpstream_accepted (up : Upstream) :
  validateUpstream up = None -> validateProviderInput up = None.
Proof.
  unfold validateUpstream. rewrite !reject_None. cbv zeta. intros (_ & Hp & Hd & Hr & H).
  apply orb_false_iff in Hp as [_ Hp].
  unfold validateProviderInput, providerProfilePattern, providerRegionPattern, providerRoleARNPattern,
    providerSessionPattern, providerExternalPattern.
  rewrite Hp, Hd, Hr. cbn [orb].
  destruct (AssumeRoleARN up =? "")%string eqn:Ea; cbn [andb].
  { destruct (negb (ExternalID up =? "")%string || negb (SourceIdentity up =? "")%string); [discriminate H|done]. }
  destruct (roleARNPartition (AssumeRoleARN up)) as [p|] eqn:Erole; [|discriminate H].
  pose proof (role_partition _ _ Erole) as Epart.
  assert (matches roleARNPattern (AssumeRoleARN up) = true) as Em.
  { unfold roleARNPartition in Erole. destruct (matches roleARNPattern (AssumeRoleARN up)); [done|discriminate Erole]. }
  destruct ((2048 <? slen (AssumeRoleARN up)) || negb (supportedPartition p)) eqn:Es; [discriminate H|].
  apply orb_false_iff in Es as [Es1 Es2]. rewrite !reject_None in H. destruct H as (H1 & H2 & H3 & H4 & _).
  rewrite Es1, Em, Epart, Es2. cbn [orb negb]. rewrite (boundedText_spec _ _ _ _ H1), H2.
  destruct (ExternalID up =? "")%string; cbn [negb andb] in *.
  - destruct (SourceIdentity up =? "")%string; cbn [negb andb] in *; [done|].
    by rewrite (boundedText_spec _ _ _ _ H4).
  - rewrite (boundedText_spec _ _ _ _ H3).
    destruct (SourceIdentity up =? "")%string; cbn [negb andb] in *; [done|].
    by rewrite (boundedText_spec _ _ _ _ H4).
Qed.
End Claims.

Definition sampleUpstream : Upstream :=
  mkUpstream "dev" "arn:aws:iam::123456789012:role/path/name" "" "ops@example" "kordn-local" 3600 "us-east-1".

Lemma validateUpstream_accepted_witness : let _ := ascii_tables in
  validateProviderInput sampleUpstream = None /\ matches regionPattern "us-east" = false.
Proof.
  split; [|vm_compute; reflexivity].
  exact (validateUpstream_accepted (U := ascii_tables) sampleUpstream ltac:(vm_compute; reflexivity)).
Defined.
End Credentials.
