(* ===== verification/Sigv4Canonical.v ===== *)
(** * SigV4 canonical requests (internal/sigv4: canonical.go, the error type of
    verify.go)

    The canonical request of AWS Signature Version 4: path, query, signed
    headers and payload hash.  [net/url]'s [EscapedPath] is modelled on the
    path rules the code relies on; SHA-256 is a parameter. *)

From Stdlib Require Import ZArith Lia Ascii.
From stdpp Require Import sorting base gmap strings list.
From S2P Require Import Prelude GoStrings GoEncoding.

Module Sigv4Canonical.

(** ** Errors *)

Record Error := mkError { Code : string; detail : string }.

Definition CodeMalformedRequest : string := "malformed_request".
Definition CodeMalformedAuthorization : string := "malformed_authorization".
Definition CodeMalformedCredential : string := "malformed_credential".
Definition CodeInvalidCredential : string := "invalid_credential".
Definition CodeInvalidSignature : string := "invalid_signature".
Definition CodeUnsupportedSigning : string := "unsupported_signing_scheme".
Definition CodeUnsupportedPayload : string := "unsupported_payload".
Definition CodeInvalidTimestamp : string := "invalid_timestamp".
Definition CodeStaleTimestamp : string := "stale_timestamp".
Definition CodeEndpointMismatch : string := "endpoint_mismatch".
Definition CodeOversizedBody : string := "oversized_body".
Definition CodeBodyReadFailure : string := "body_read_failure".

(** [Error.Error], on a possibly nil receiver. *)
Definition Error_text (e : option Error) : string :=
  match e with
  | None => "sigv4 verification failed"
  | Some e =>
    if (detail e =? "")%string then ("sigv4: " ++ Code e)%string
    else ("sigv4: " ++ Code e ++ ": " ++ detail e)%string
  end.

(** [T, error] with this package's error. *)
Inductive res (A : Type) :=
| Good (a : A)
| Bad (e : Error).
Arguments Good {A} a.
Arguments Bad {A} e.
#[export] Instance res_ret : MRet res := @Good.
#[export] Instance res_bind : MBind res := fun A B f r =>
  match r with Good a => f a | Bad e => Bad e end.

Definition newError {A} (code detail : string) : res A := Bad (mkError code detail).

(** ** Requests

    What the package reads of an [*http.Request].  [B] is the type of its body
    state, which canonicalisation does not read. *)

Record URL := mkURL {
  User : bool; (** user information is present *)
  u_Host : string; Path : string; RawPath : string; Opaque : string; RawQuery : string;
}.

Record Request (B : Type) := mkRequest {
  Method : string; Url : option URL; Host : string; Header : header;
  ContentLength : Z; BodyState : B;
}.
Arguments mkRequest {B}.
Arguments Method {B}.
Arguments Url {B}.
Arguments Host {B}.
Arguments Header {B}.
Arguments ContentLength {B}.
Arguments BodyState {B}.

(** ** Bytes *)

Definition isUnreserved (c : Z) : bool :=
  is_upper c || is_lower c || is_digit c ||
  (c =? ord "-") || (c =? ord ".") || (c =? ord "_") || (c =? ord "~").

Definition hexDigits : string := "0123456789ABCDEF".
Definition hexUpper (n : Z) : ascii := default "0"%char (String.get (Z.to_nat n) hexDigits).
Definition writeEscape (c : Z) : string :=
  String "%" (String (hexUpper (Z.shiftr c 4)) (String (hexUpper (Z.land c 15)) EmptyString)).

(** -1 when the byte is no hexadecimal digit. *)
Definition hexValue (c : Z) : Z :=
  if is_digit c then c - ord "0"
  else if between (ord "a") (ord "f") c then c - ord "a" + 10
  else if between (ord "A") (ord "F") c then c - ord "A" + 10
  else -1.

Definition isLowerHex (c : Z) : bool := is_digit c || between (ord "a") (ord "f") c.
Definition upperHex (c : Z) : Z := if between (ord "a") (ord "f") c then c - 32 else c.

(** ** The path *)

Fixpoint canonicalEscapedPath (escaped : string) : res string :=
  match escaped with
  | EmptyString => Good EmptyString
  | String a s1 =>
    let c := ord a in
    if c =? ord "/" then t ← canonicalEscapedPath s1; Good (String a t)
    else if c =? ord "%" then
      match s1 with
      | String h (String l s2) =>
        if (hexValue (ord h) <? 0) || (hexValue (ord l) <? 0)
        then newError CodeMalformedRequest "request path contains an invalid escape"
        else
          t ← canonicalEscapedPath s2;
          Good (String "%" (String (chr (upperHex (ord h))) (String (chr (upperHex (ord l))) t)))
      | _ => newError CodeMalformedRequest "request path contains an invalid escape"
      end
    else if isUnreserved c then t ← canonicalEscapedPath s1; Good (String a t)
    else t ← canonicalEscapedPath s1; Good (writeEscape c ++ t)%string
  end.

(** [net/url]: which bytes [escape] escapes in a path, and what [EscapedPath]
    accepts of a [RawPath]. *)
Definition shouldEscapePath (c : Z) : bool :=
  negb (is_alnum c || in_set "-_.~$&+,/:;=@" c).
Fixpoint escapePath (s : string) : string :=
  match s with
  | EmptyString => EmptyString
  | String a s =>
    if shouldEscapePath (ord a) then (writeEscape (ord a) ++ escapePath s)%string
    else String a (escapePath s)
  end.
Definition validEncodedPath (s : string) : bool :=
  bytes_all (fun c => in_set "!$&'()*+,;=:@[]%" c || negb (shouldEscapePath c)) s.
Definition EscapedPath (u : URL) : string :=
  if negb (RawPath u =? "")%string && validEncodedPath (RawPath u) &&
     bool_decide (PathUnescape (RawPath u) = Some (Path u))
  then RawPath u
  else if (Path u =? "*")%string then "*" else escapePath (Path u).

Section Requests.
Context {B : Type}.

Definition CanonicalURI (req : option (Request B)) : res string :=
  match req ≫= Url with
  | None => newError CodeMalformedRequest "request URL is unavailable"
  | Some u =>
    if negb (Opaque u =? "")%string
    then newError CodeMalformedRequest "opaque request URL is unsupported"
    else if negb (RawPath u =? "")%string &&
            negb (bool_decide (PathUnescape (RawPath u) = Some (Path u)))
    then newError CodeMalformedRequest "request path escaping is invalid"
    else
      let escaped := EscapedPath u in
      let escaped := if (escaped =? "")%string then "/" else escaped in
      match escaped with
      | String c _ =>
        if ord c =? ord "/" then canonicalEscapedPath escaped
        else newError CodeMalformedRequest "request path is not absolute"
      | EmptyString => newError CodeMalformedRequest "request path is not absolute"
      end
  end.
End Requests.

(** ** The query *)

Fixpoint percentDecodeQuery (value : string) : option string :=
  match value with
  | EmptyString => Some EmptyString
  | String a s1 =>
    if negb (ord a =? ord "%") then String a <$> percentDecodeQuery s1
    else
      match s1 with
      | String h (String l s2) =>
        if (hexValue (ord h) <? 0) || (hexValue (ord l) <? 0) then None
        else
          String (chr (Z.lor (Z.shiftl (hexValue (ord h)) 4) (hexValue (ord l))))
          <$> percentDecodeQuery s2
      | _ => None
      end
  end.

Fixpoint awsEncode (value : string) : string :=
  match value with
  | EmptyString => EmptyString
  | String a s =>
    if isUnreserved (ord a) then String a (awsEncode s)
    else (writeEscape (ord a) ++ awsEncode s)%string
  end.

(** A component split at its first [=]. *)
Definition cutQuery (part : string) : string * string :=
  match index_byte part (ord "=") with
  | Some at_ => (str_take at_ part, str_drop (S at_) part)
  | None => (part, EmptyString)
  end.

Fixpoint queryPairs (parts : list string) : res (list (string * string)) :=
  match parts with
  | [] => Good []
  | part :: parts =>
    let (key, value) := cutQuery part in
    match percentDecodeQuery key with
    | None => newError CodeMalformedRequest "request query contains an invalid escape"
    | Some decodedKey =>
      match percentDecodeQuery value with
      | None => newError CodeMalformedRequest "request query contains an invalid escape"
      | Some decodedValue =>
        pairs ← queryPairs parts;
        Good ((awsEncode decodedKey, awsEncode decodedValue) :: pairs)
      end
    end
  end.

(** The order [sort.SliceStable] sorts by. *)
Definition pairLeb (a b : string * string) : bool :=
  if (a.1 =? b.1)%string then str_leb a.2 b.2 else str_leb a.1 b.1.

Definition renderPair (p : string * string) : string := (p.1 ++ "=" ++ p.2)%string.

Definition canonicalRawQuery (raw : string) : res string :=
  if (raw =? "")%string then Good EmptyString
  else
    pairs ← queryPairs (Split raw "&");
    Good (Join (renderPair <$> sort_by pairLeb pairs) "&").

Definition CanonicalQuery {B} (req : option (Request B)) : res string :=
  match req ≫= Url with
  | None => newError CodeMalformedRequest "request URL is unavailable"
  | Some u => canonicalRawQuery (RawQuery u)
  end.

(** ** The signed headers *)

Definition headerNameByte (c : Z) : bool := (c =? ord "-") || is_lower c || is_digit c.
Definition validHeaderName (name : string) : bool :=
  negb (name =? "")%string && bytes_all headerNameByte name.

Definition validHeaderValue (value : string) : bool :=
  bytes_all (fun c => negb (((c <? 32) && negb (c =? 9)) || (c =? 127))) value.

(** The loop of [normalizeHeaderValue]: [space] is pending white space, [out]
    what has been written. *)
Fixpoint normalizeLoop (value : string) (space : bool) (out : string) : string :=
  match value with
  | EmptyString => out
  | String a value =>
    if (ord a =? 32) || (ord a =? 9) then normalizeLoop value true out
    else
      let out := if space && negb (out =? "")%string then (out ++ " ")%string else out in
      normalizeLoop value false (out ++ String a EmptyString)%string
  end.
Definition normalizeHeaderValue (value : string) : string := normalizeLoop value false EmptyString.

Section Headers.
Context `{U : UnicodeTables} {B : Type}.

(** [headerValues] over the header's entries in the order they are ranged over. *)
Fixpoint headerValuesIn (entries : list (string * list string)) (name : string)
  : list string * bool :=
  match entries with
  | [] => ([], false)
  | (key, values) :: entries =>
    let (rest, present) := headerValuesIn entries name in
    if EqualFold key name then (values ++ rest, true) else (rest, present)
  end.
Definition headerValues (h : header) (name : string) : list string * bool :=
  headerValuesIn (map_to_list h) name.

Definition signedHeaderValue (req : Request B) (name : string) : res string :=
  let (values, present) := headerValues (Header req) name in
  if (name =? "host")%string then
    if present && negb (Host req =? "")%string
    then newError CodeMalformedRequest "host header is ambiguous"
    else if present then
      match values with
      | [v] =>
        if (v =? "")%string then newError CodeMalformedRequest "host header is duplicated"
        else if negb (validHeaderValue v)
        then newError CodeMalformedRequest "host header contains invalid bytes"
        else Good v
      | _ => newError CodeMalformedRequest "host header is duplicated"
      end
    else if negb (Host req =? "")%string then Good (Host req)
    else
      match Url req with
      | Some u =>
        if negb (u_Host u =? "")%string then Good (u_Host u)
        else newError CodeMalformedRequest "signed host header is missing"
      | None => newError CodeMalformedRequest "signed host header is missing"
      end
  else if negb present && (name =? "content-length")%string && (0 <? ContentLength req)
  then Good (Itoa (ContentLength req))
  else
    match values with
    | [v] =>
      if negb present
      then newError CodeMalformedRequest "signed header is missing or duplicated"
      else if negb (validHeaderValue v)
      then newError CodeMalformedRequest "signed header contains invalid bytes"
      else Good v
    | _ => newError CodeMalformedRequest "signed header is missing or duplicated"
    end.

Definition headerLine (name value : string) : string :=
  (name ++ ":" ++ normalizeHeaderValue value ++ String (chr 10) EmptyString)%string.

(** The loop over the signed names; [last] is the empty string at first. *)
Fixpoint headerLines (req : Request B) (last : string) (seen signed : list string)
  : res string :=
  match signed with
  | [] => Good EmptyString
  | name :: signed =>
    if negb (validHeaderName name) || negb (name =? ToLower name)%string ||
       (negb (last =? "")%string && str_leb name last)
    then newError CodeMalformedAuthorization "signed headers are not sorted"
    else if existsb (String.eqb name) seen
    then newError CodeMalformedAuthorization "signed headers contain a duplicate"
    else
      value ← signedHeaderValue req name;
      out ← headerLines req name (name :: seen) signed;
      Good (headerLine name value ++ out)%string
  end.

Definition CanonicalHeaders (req : option (Request B)) (signed : list string)
  : res (string * string) :=
  match req with
  | None => newError CodeMalformedRequest "request is unavailable"
  | Some req =>
    if (List.length signed =? 0)%nat
    then newError CodeMalformedAuthorization "signed headers are empty"
    else
      out ← headerLines req EmptyString [] signed;
      Good (out, Join signed ";")
  end.
End Headers.

(** ** The canonical request *)

Record Canonical := mkCanonical {
  can_Method : string; can_URI : string; can_Query : string; can_Headers : string;
  SignedHeaders : string; PayloadHash : string; can_Request : string; Hash : string;
}.

Definition validPayloadHash (value : string) : bool :=
  if (value =? "UNSIGNED-PAYLOAD")%string || (slen value =? 64) then
    if negb (slen value =? 64) then true else bytes_all isLowerHex value
  else false.

Definition newline : string := String (chr 10) EmptyString.

Section Build.
Context `{U : UnicodeTables} {B : Type} (sha256 : string -> string).

Definition BuildCanonicalRequest (req : option (Request B)) (signed : list string)
    (payloadHash : string) : res Canonical :=
  match req with
  | None => newError CodeMalformedRequest "request URL is unavailable"
  | Some r =>
    match Url r with
    | None => newError CodeMalformedRequest "request URL is unavailable"
    | Some _ =>
      if bytes_any (fun c => (c =? 0) || (c =? 13) || (c =? 10) || (c =? 32)) (Method r) ||
         (Method r =? "")%string
      then newError CodeMalformedRequest "request method is invalid"
      else
        uri ← CanonicalURI req;
        query ← CanonicalQuery req;
        hn ← CanonicalHeaders req signed;
        let '(headers, names) := hn : string * string in
        if negb (validPayloadHash payloadHash)
        then newError CodeUnsupportedPayload "payload hash mode is unsupported"
        else
          let request := Join [Method r; uri; query; headers; names; payloadHash] newline in
          Good (mkCanonical (Method r) uri query headers names payloadHash request
                  (hex_encode (sha256 request)))
    end
  end.
End Build.

(** ** Percent encoding *)

(** A check of a property of every byte value. *)
Definition every_byte (p : Z -> bool) : bool := forallb (fun n => p (Z.of_nat n)) (seq 0 256).

Lemma every_byte_spec p c : every_byte p = true -> 0 <= c < 256 -> p c = true.
Proof.
  intros H Hc. unfold every_byte in H. rewrite forallb_forall in H.
  specialize (H (Z.to_nat c)). rewrite Z2Nat.id in H by lia. apply H, in_seq. lia.
Qed.

Definition escape_ok (c : Z) : bool :=
  match writeEscape c with
  | String p (String h (String l EmptyString)) =>
    (ord p =? ord "%") && (hexValue (ord h) =? c / 16) && (hexValue (ord l) =? c mod 16) &&
    (upperHex (ord h) =? ord h) && (upperHex (ord l) =? ord l)
  | _ => false
  end.

Lemma writeEscape_form c : 0 <= c < 256 -> exists h l,
  writeEscape c = String "%" (String h (String l EmptyString)) /\
  hexValue (ord h) = c / 16 /\ hexValue (ord l) = c mod 16 /\
  upperHex (ord h) = ord h /\ upperHex (ord l) = ord l.
Proof.
  intros Hc. assert (escape_ok c = true) as H
    by (apply (every_byte_spec escape_ok); [vm_compute; reflexivity|done]).
  unfold escape_ok, writeEscape in *. cbv iota beta in H. bool_hyps.
  eexists _, _. split_and!; [done|by apply Z.eqb_eq..].
Qed.

Lemma hexValue_unhex c : hexValue c = default (-1) (unhex c).
Proof. unfold hexValue, unhex. repeat case_if; done. Qed.

Lemma unhex_range c v : unhex c = Some v -> 0 <= v < 16.
Proof.
  unfold unhex, is_digit, between.
  change (ord "a") with 97. change (ord "f") with 102. change (ord "A") with 65.
  change (ord "F") with 70. change (ord "0") with 48. change (ord "9") with 57.
  repeat case_if; intros [= <-]; bool_hyps; lia.
Qed.

Lemma hexValue_range c : -1 <= hexValue c < 16.
Proof. rewrite hexValue_unhex. destruct (unhex c) eqn:E; cbn; [apply unhex_range in E|]; lia. Qed.

Lemma nibbles h l : 0 <= h < 16 -> 0 <= l < 16 -> Z.lor (Z.shiftl h 4) l = h * 16 + l.
Proof.
  intros Hh Hl. rewrite Z.shiftl_mul_pow2 by lia. change (2 ^ 4) with 16.
  assert (Z.land (h * 16) l = 0) as E.
  { apply Z.bits_inj'. intros n Hn. rewrite Z.land_spec, Z.bits_0. change 16 with (2 ^ 4).
    rewrite Z.mul_pow2_bits by lia. destruct (Z.ltb_spec n 4).
    - rewrite Z.testbit_neg_r by lia. done.
    - rewrite (Z.bits_above_log2 l); [apply andb_false_r|lia|].
      destruct (Z.eq_dec l 0) as [->|]; [change (Z.log2 0) with 0; lia|].
      assert (Z.log2 l < 4) by (apply Z.log2_lt_pow2; lia). lia. }
  pose proof (Z.add_lor_land (h * 16) l). lia.
Qed.

(** Query decoding and path unescaping agree: neither gives [+] a meaning. *)
Lemma percentDecode_unescape s : percentDecodeQuery s = PathUnescape s.
Proof.
  induction s as [s IH] using string_len_ind. destruct s as [|a s]; [done|].
  cbn [percentDecodeQuery PathUnescape]. destruct (ord a =? ord "%"); cbn [negb].
  - destruct s as [|h [|l s]]; [done|done|]. rewrite !hexValue_unhex.
    destruct (unhex (ord h)) as [vh|] eqn:Eh; [|done].
    destruct (unhex (ord l)) as [vl|] eqn:El; [|by rewrite orb_true_r].
    apply unhex_range in Eh, El. change (default (-1) (Some vh)) with vh. change (default (-1) (Some vl)) with vl.
    rewrite (proj2 (Z.ltb_ge vh 0)), (proj2 (Z.ltb_ge vl 0)) by lia. cbn [orb].
    rewrite nibbles, IH by first [lia | cbn; lia]. done.
  - rewrite IH by (cbn; lia). done.
Qed.

(** *** AWS encoding of a component *)

Definition encodedByte (c : Z) : bool := isUnreserved c || (c =? ord "%").

Lemma hexUpper_unreserved n : 0 <= n < 16 -> isUnreserved (ord (hexUpper n)) = true.
Proof.
  intros Hn.
  assert (every_byte (fun n => negb (n <? 16) || isUnreserved (ord (hexUpper n))) = true) as H
    by (vm_compute; reflexivity).
  apply (every_byte_spec _ n) in H; [|lia]. cbv beta in H. rewrite (proj2 (Z.ltb_lt n 16)) in H by lia. exact H.
Qed.

Lemma writeEscape_bytes c : 0 <= c < 256 -> bytes_all encodedByte (writeEscape c) = true.
Proof.
  intros Hc. assert (every_byte (fun c => bytes_all encodedByte (writeEscape c)) = true) as H
    by (vm_compute; reflexivity).
  exact (every_byte_spec _ c H Hc).
Qed.

Lemma unescape_escape c s : 0 <= c < 256 ->
  PathUnescape (writeEscape c ++ s) = String (chr c) <$> PathUnescape s.
Proof.
  intros Hc. destruct (writeEscape_form c Hc) as (h & l & -> & Hh & Hl & _).
  change ((String "%" (String h (String l "")) ++ s)%string) with (String "%" (String h (String l s))).
  cbn [PathUnescape]. change (ord "%" =? ord "%") with true. cbv iota.
  rewrite hexValue_unhex in Hh, Hl.
  pose proof (Z.mod_pos_bound c 16 ltac:(lia)). pose proof (Z.div_pos c 16 ltac:(lia) ltac:(lia)).
  destruct (unhex (ord h)); cbn in Hh; [|lia]. destruct (unhex (ord l)); cbn in Hl; [|lia].
  subst. do 3 f_equal. rewrite (Z.div_mod c 16) at 3 by lia. lia.
Qed.

Lemma unreserved_not_percent c : isUnreserved c = true -> (c =? ord "%") = false.
Proof. intros H. destruct (Z.eqb_spec c (ord "%")) as [->|]; [by vm_compute in H|done]. Qed.

Lemma unescape_awsEncode s : PathUnescape (awsEncode s) = Some s.
Proof.
  induction s as [|a s IH]; [done|]. cbn [awsEncode].
  destruct (isUnreserved (ord a)) eqn:E.
  - cbn [PathUnescape]. by rewrite (unreserved_not_percent _ E), IH.
  - rewrite unescape_escape, IH by apply ord_range. cbn. by rewrite chr_ord.
Qed.

Lemma awsEncode_inj s t : awsEncode s = awsEncode t -> s = t.
Proof. intros H. apply (f_equal PathUnescape) in H. rewrite !unescape_awsEncode in H. by injection H. Qed.

Lemma awsEncode_bytes s : bytes_all encodedByte (awsEncode s) = true.
Proof.
  induction s as [|a s IH]; [done|]. cbn [awsEncode]. destruct (isUnreserved (ord a)) eqn:E.
  - cbn [bytes_all]. unfold encodedByte at 1. by rewrite E, IH.
  - by rewrite bytes_all_app, IH, writeEscape_bytes by apply ord_range.
Qed.

Lemma awsEncode_count s c : encodedByte c = false -> count_byte (awsEncode s) c = 0.
Proof. apply bytes_all_count, awsEncode_bytes. Qed.

(** *** The path *)

(** What an escaped path denotes: separators, and bytes given directly or by an
    escape; [None] when an escape is invalid. *)
Inductive token := Slash | Byte (c : Z).
#[export] Instance token_eq_dec : EqDecision token.
Proof. solve_decision. Defined.

Fixpoint pathTokens (s : string) : option (list token) :=
  match s with
  | EmptyString => Some []
  | String a s1 =>
    if ord a =? ord "/" then cons Slash <$> pathTokens s1
    else if ord a =? ord "%" then
      match s1 with
      | String h (String l s2) =>
        match unhex (ord h), unhex (ord l) with
        | Some h, Some l => cons (Byte (h * 16 + l)) <$> pathTokens s2
        | _, _ => None
        end
      | _ => None
      end
    else cons (Byte (ord a)) <$> pathTokens s1
  end.

Definition tokenByte (t : token) : ascii := match t with Slash => "/" | Byte c => chr c end.
Definition tokenString (ts : list token) : string :=
  String.string_of_list_ascii (tokenByte <$> ts).

(** The bytes of a canonical path. *)
Definition pathByte (c : Z) : bool := encodedByte c || (c =? ord "/").

Lemma unescape_tokens s : PathUnescape s = tokenString <$> pathTokens s.
Proof.
  induction s as [s IH] using string_len_ind. destruct s as [|a s]; [done|].
  cbn [PathUnescape pathTokens]. destruct (Z.eqb_spec (ord a) (ord "/")) as [E|E].
  - apply ord_inj in E as ->. change (ord "/" =? ord "%") with false. cbv iota.
    rewrite IH by (cbn; lia). by destruct (pathTokens s).
  - destruct (ord a =? ord "%").
    + destruct s as [|h [|l s]]; [done|done|].
      destruct (unhex (ord h)), (unhex (ord l)); try done.
      rewrite IH by (cbn; lia). by destruct (pathTokens s).
    + rewrite IH by (cbn; lia). destruct (pathTokens s); [|done]. cbn.
      unfold tokenString. cbn. by rewrite chr_ord.
Qed.

Lemma upperHex_unhex c : 0 <= c < 256 -> unhex (ord (chr (upperHex c))) = unhex c.
Proof.
  intros Hc. assert (every_byte (fun c => bool_decide (unhex (ord (chr (upperHex c))) = unhex c)) = true) as H
    by (vm_compute; reflexivity).
  apply (every_byte_spec _ c) in H; [|done]. by apply bool_decide_eq_true in H.
Qed.

Lemma upperHex_idem c : 0 <= c < 256 -> upperHex (ord (chr (upperHex c))) = ord (chr (upperHex c)).
Proof.
  intros Hc. assert (every_byte (fun c => upperHex (ord (chr (upperHex c))) =? ord (chr (upperHex c))) = true) as H
    by (vm_compute; reflexivity).
  apply (every_byte_spec _ c) in H; [|done]. by apply Z.eqb_eq in H.
Qed.

Lemma upperHex_byte c : 0 <= c < 256 -> unhex c <> None ->
  isUnreserved (ord (chr (upperHex c))) = true.
Proof.
  intros Hc Hu. assert (every_byte (fun c => bool_decide (unhex c = None) ||
    isUnreserved (ord (chr (upperHex c)))) = true) as H by (vm_compute; reflexivity).
  apply (every_byte_spec _ c) in H; [|done]. cbv beta in H.
  rewrite bool_decide_eq_false_2 in H by done. exact H.
Qed.

Lemma hexValue_neg c : hexValue c <? 0 = bool_decide (unhex c = None).
Proof.
  rewrite hexValue_unhex. destruct (unhex c) as [v|] eqn:E; [|done].
  change (default (-1) (Some v)) with v. apply unhex_range in E.
  by rewrite bool_decide_eq_false_2, (proj2 (Z.ltb_ge v 0)) by (done || lia).
Qed.

(** The escape loop succeeds exactly on valid escapes; its output denotes the
    same tokens, is a fixed point, and is made of path bytes. *)
Definition canonicalises (s t : string) : Prop :=
  pathTokens t = pathTokens s /\ pathTokens s <> None /\ canonicalEscapedPath t = Good t /\
  bytes_all pathByte t = true.

Lemma canonicalises_plain a s t : ord a <> ord "%" ->
  (ord a = ord "/" \/ isUnreserved (ord a) = true) ->
  canonicalises s t -> canonicalises (String a s) (String a t).
Proof.
  intros Hp Ha (H1 & H2 & H3 & H4). unfold canonicalises.
  cbn [pathTokens canonicalEscapedPath bytes_all]. rewrite H1, H3, H4.
  rewrite (proj2 (Z.eqb_neq (ord a) (ord "%"))) by done.
  assert (pathByte (ord a) = true) as ->
    by (unfold pathByte, encodedByte; destruct Ha as [->| ->]; by rewrite ?orb_true_r).
  destruct (Z.eqb_spec (ord a) (ord "/")), (pathTokens s); try done.
  all: destruct Ha as [Ha|Ha]; [congruence|]; by rewrite Ha.
Qed.

Lemma canonicalises_escape h l s t :
  unhex (ord h) <> None -> unhex (ord l) <> None -> canonicalises s t ->
  canonicalises (String "%" (String h (String l s)))
    (String "%" (String (chr (upperHex (ord h))) (String (chr (upperHex (ord l))) t))).
Proof.
  intros Hh Hl (H1 & H2 & H3 & H4). unfold canonicalises.
  pose proof (ord_range h) as Rh. pose proof (ord_range l) as Rl.
  cbn [pathTokens canonicalEscapedPath bytes_all].
  change (ord "%" =? ord "/") with false. change (ord "%" =? ord "%") with true. cbv iota.
  rewrite !hexValue_neg, !upperHex_unhex by done.
  rewrite !(bool_decide_eq_false_2 (unhex (ord h) = None)), !(bool_decide_eq_false_2 (unhex (ord l) = None)) by done.
  cbn [orb]. rewrite H1, H3, H4, !upperHex_idem by done.
  unfold pathByte, encodedByte. rewrite !upperHex_byte by done.
  destruct (unhex (ord h)), (unhex (ord l)), (pathTokens s); try done.
  by rewrite !chr_ord.
Qed.

Lemma canonicalises_encoded a s t : ord a <> ord "%" -> ord a <> ord "/" ->
  canonicalises s t -> canonicalises (String a s) (writeEscape (ord a) ++ t).
Proof.
  intros Hp Hs (H1 & H2 & H3 & H4). unfold canonicalises. pose proof (ord_range a) as Ra.
  assert (bytes_all pathByte (writeEscape (ord a)) = true) as Hb.
  { apply (bytes_all_weaken encodedByte); [|by apply writeEscape_bytes].
    intros r _ Hr. unfold pathByte. by rewrite Hr. }
  rewrite bytes_all_app, Hb, H4.
  destruct (writeEscape_form (ord a) Ra) as (h & l & -> & Eh & El & Uh & Ul).
  change ((String "%" (String h (String l "")) ++ t)%string) with (String "%" (String h (String l t))).
  pose proof (Z.mod_pos_bound (ord a) 16 ltac:(lia)).
  pose proof (Z.div_pos (ord a) 16 ltac:(lia) ltac:(lia)).
  cbn [pathTokens canonicalEscapedPath].
  change (ord "%" =? ord "/") with false. change (ord "%" =? ord "%") with true. cbv iota.
  rewrite (proj2 (Z.eqb_neq (ord a) (ord "%"))), (proj2 (Z.eqb_neq (ord a) (ord "/"))) by done.
  rewrite (proj2 (Z.ltb_ge (hexValue (ord h)) 0)), (proj2 (Z.ltb_ge (hexValue (ord l)) 0)) by lia.
  rewrite Uh, Ul, !chr_ord, H1, H3. rewrite hexValue_unhex in Eh, El.
  destruct (unhex (ord h)); cbn in Eh; [|lia]. destruct (unhex (ord l)); cbn in El; [|lia].
  subst. replace (ord a / 16 * 16 + ord a mod 16) with (ord a)
    by (rewrite (Z.div_mod (ord a) 16) at 1; lia).
  by destruct (pathTokens s).
Qed.

Lemma canonicalEscapedPath_spec s :
  match canonicalEscapedPath s with
  | Good t => canonicalises s t
  | Bad e => pathTokens s = None /\ Code e = CodeMalformedRequest
  end.
Proof.
  induction s as [s IH] using string_len_ind. destruct s as [|a s]; [by split_and!|].
  cbn [canonicalEscapedPath pathTokens]. destruct (Z.eqb_spec (ord a) (ord "/")) as [E|E].
  - specialize (IH s ltac:(cbn; lia)). destruct (canonicalEscapedPath s); cbn [mbind res_bind].
    + apply canonicalises_plain; [rewrite E; by vm_compute|by left|done].
    + destruct IH as [-> ?]. done.
  - destruct (Z.eqb_spec (ord a) (ord "%")) as [Ep|Ep].
    + apply ord_inj in Ep as ->. destruct s as [|h [|l s]]; [done|done|].
      rewrite !hexValue_neg. specialize (IH s ltac:(cbn; lia)).
      destruct (unhex (ord h)) eqn:Eh; [|done]. destruct (unhex (ord l)) eqn:El; [|done].
      rewrite !bool_decide_eq_false_2 by done. cbn [orb].
      destruct (canonicalEscapedPath s); cbn [mbind res_bind];
        [|destruct IH as [-> ?]; done].
      apply canonicalises_escape; congruence || done.
    + specialize (IH s ltac:(cbn; lia)). destruct (isUnreserved (ord a)) eqn:Eu;
        (destruct (canonicalEscapedPath s); cbn [mbind res_bind]; [|destruct IH as [-> ?]; done]).
      * apply canonicalises_plain; [done|by right|done].
      * by apply canonicalises_encoded.
Qed.

Lemma unescape_escapePath s : PathUnescape (escapePath s) = Some s.
Proof.
  induction s as [|a s IH]; [done|]. cbn [escapePath].
  destruct (shouldEscapePath (ord a)) eqn:E.
  - rewrite unescape_escape, IH by apply ord_range. cbn. by rewrite chr_ord.
  - cbn [PathUnescape]. destruct (Z.eqb_spec (ord a) (ord "%")) as [Ep|Ep].
    + rewrite Ep in E. by vm_compute in E.
    + by rewrite IH.
Qed.

(** What a canonical URI is of its URL. *)
Definition canonical_uri_of (u : URL) (uri : string) : Prop :=
  PathUnescape uri = Some (if (Path u =? "")%string then "/" else Path u) /\
  HasPrefix uri "/" = true /\ bytes_all pathByte uri = true /\
  canonicalEscapedPath uri = Good uri /\
  (RawPath u <> "" -> validEncodedPath (RawPath u) = true -> pathTokens uri = pathTokens (RawPath u)).

Lemma EscapedPath_unescape u :
  EscapedPath u = "*" \/ PathUnescape (EscapedPath u) = Some (Path u).
Proof.
  unfold EscapedPath. case_if; [|case_if; [by left|right; apply unescape_escapePath]].
  bool_hyps. right. by apply bool_decide_eq_true in H0.
Qed.

Lemma CanonicalURI_spec {B} (req : Request B) uri :
  CanonicalURI (Some req) = Good uri ->
  exists u, Url req = Some u /\ Opaque u = "" /\ canonical_uri_of u uri.
Proof.
  unfold CanonicalURI. cbn [mbind option_bind]. destruct (Url req) as [u|]; [|done].
  destruct (Opaque u =? "")%string eqn:Eo; [|done]. apply eqb_true_str in Eo. cbn [negb].
  case_if; [done|]. rename Heqb into Hraw.
  set (e := if (EscapedPath u =? "")%string then "/" else EscapedPath u).
  intros Hg. exists u. split; [done|]. split; [done|].
  assert (exists s, e = String "/" s /\ canonicalEscapedPath e = Good uri) as (s & Es & Hc).
  { destruct e as [|a s]; [done|]. destruct (Z.eqb_spec (ord a) (ord "/")) as [E|]; [|done].
    apply ord_inj in E as ->. by exists s. }
  pose proof (canonicalEscapedPath_spec e) as Hspec. rewrite Hc in Hspec.
  destruct Hspec as (Ht & _ & Hf & Hb).
  assert (PathUnescape e = Some (if (Path u =? "")%string then "/" else Path u)) as Hd.
  { destruct (EscapedPath_unescape u) as [Ew|Ew]; [by subst e; rewrite Ew in Es|].
    subst e. destruct (EscapedPath u =? "")%string eqn:E0.
    - apply eqb_true_str in E0. rewrite E0 in Ew. injection Ew as Ep. by rewrite <-Ep.
    - rewrite Ew. destruct (Path u =? "")%string eqn:E1; [|done].
      apply eqb_true_str in E1. rewrite E1, Es in Ew. cbn [PathUnescape] in Ew.
      change (ord "/" =? ord "%") with false in Ew. cbv iota in Ew.
      by destruct (PathUnescape s). }
  unfold canonical_uri_of. split_and!; try done.
  - by rewrite unescape_tokens, Ht, <-unescape_tokens.
  - rewrite Es in Hc. cbn [canonicalEscapedPath] in Hc.
    change (ord "/" =? ord "/") with true in Hc. cbv iota in Hc.
    destruct (canonicalEscapedPath s); [|done]. injection Hc as <-. apply HasPrefix_app. by eexists.
  - intros Hr Hv. rewrite Ht. f_equal. subst e. unfold EscapedPath in *.
    apply eqb_false_str in Hr. rewrite Hr, Hv in *. cbn [negb andb] in *.
    apply negb_false_iff in Hraw. rewrite Hraw. by rewrite Hr.
Qed.

(** *** The query *)

(** A raw query as the multiset of decoded pairs it carries. *)
Definition decodePart (part : string) : option (string * string) :=
  let (key, value) := cutQuery part in
  k ← percentDecodeQuery key; v ← percentDecodeQuery value; Some (k, v).
Definition decodedPairs (raw : string) : option (list (string * string)) :=
  if (raw =? "")%string then Some [] else mapM decodePart (Split raw "&").

Definition encodePair (p : string * string) : string * string := (awsEncode p.1, awsEncode p.2).
Definition queryText (ps : list (string * string)) : string :=
  Join (renderPair <$> sort_by pairLeb (encodePair <$> ps)) "&".

Lemma queryPairs_spec parts :
  match mapM decodePart parts with
  | Some ps => queryPairs parts = Good (encodePair <$> ps)
  | None => exists e, queryPairs parts = Bad e /\ Code e = CodeMalformedRequest
  end.
Proof.
  induction parts as [|part parts IH]; [done|].
  change (mapM decodePart (part :: parts)) with
    ((let (key, value) := cutQuery part in
      k ← percentDecodeQuery key; v ← percentDecodeQuery value; Some (k, v)) ≫=
     (fun x => mapM decodePart parts ≫= (fun k => Some (x :: k)))).
  cbn [queryPairs]. destruct (cutQuery part) as [key value].
  destruct (percentDecodeQuery key) as [k|]; cbn [mbind option_bind]; [|by eexists].
  destruct (percentDecodeQuery value) as [v|]; cbn [mbind option_bind]; [|by eexists].
  destruct (mapM decodePart parts) as [ps|]; cbn [mbind option_bind].
  - by rewrite IH.
  - destruct IH as (e & -> & He). by exists e.
Qed.

Lemma canonicalRawQuery_spec raw :
  match decodedPairs raw with
  | Some ps => canonicalRawQuery raw = Good (queryText ps)
  | None => exists e, canonicalRawQuery raw = Bad e /\ Code e = CodeMalformedRequest
  end.
Proof.
  unfold decodedPairs, canonicalRawQuery. destruct (raw =? "")%string; [done|].
  pose proof (queryPairs_spec (Split raw "&")) as H. destruct (mapM decodePart _) as [ps|].
  - by rewrite H.
  - destruct H as (e & -> & He). by exists e.
Qed.

Lemma pairLeb_total a b : pairLeb a b = true \/ pairLeb b a = true.
Proof.
  unfold pairLeb. rewrite (String.eqb_sym b.1). destruct (a.1 =? b.1)%string; apply str_leb_total.
Qed.
Lemma pairLeb_antisym a b : pairLeb a b = true -> pairLeb b a = true -> a = b.
Proof.
  destruct a as [a1 a2], b as [b1 b2]. unfold pairLeb. cbn [fst snd]. rewrite (String.eqb_sym b1).
  destruct (String.eqb_spec a1 b1) as [->|Hn]; intros H1 H2.
  - by rewrite (str_leb_antisym _ _ H1 H2).
  - by destruct Hn; apply str_leb_antisym.
Qed.
Lemma pairLeb_trans a b c : pairLeb a b = true -> pairLeb b c = true -> pairLeb a c = true.
Proof.
  destruct a as [a1 a2], b as [b1 b2], c as [c1 c2]. unfold pairLeb. cbn [fst snd].
  destruct (String.eqb_spec a1 b1) as [->|H1], (String.eqb_spec b1 c1) as [->|H2]; try done.
  - apply str_leb_trans.
  - rewrite (proj2 (eqb_false_str a1 c1)) by done. done.
  - destruct (String.eqb_spec a1 c1) as [->|]; intros Ha Hb.
    + by destruct H1; apply str_leb_antisym.
    + by apply (str_leb_trans _ b1).
Qed.

Lemma sort_pairs_unique l1 l2 : Permutation l1 l2 -> sort_by pairLeb l1 = sort_by pairLeb l2.
Proof. apply sort_by_unique; [apply pairLeb_total|apply pairLeb_trans|apply pairLeb_antisym]. Qed.

Lemma renderPair_count p c : encodedByte c = false -> c <> ord "=" ->
  count_byte (renderPair (encodePair p)) c = 0.
Proof.
  intros Hc He. unfold renderPair, encodePair. cbn [fst snd].
  rewrite !count_byte_app, !awsEncode_count by done. cbn [count_byte].
  by rewrite (proj2 (Z.eqb_neq (ord "=") c)) by congruence.
Qed.

Lemma cutQuery_render k v : count_byte k (ord "=") = 0 -> cutQuery (renderPair (k, v)) = (k, v).
Proof.
  intros Hk. unfold cutQuery, renderPair. cbn [fst snd].
  change (k ++ "=" ++ v)%string with (k ++ String "=" v)%string.
  by rewrite index_byte_app, str_take_app, str_drop_app.
Qed.

Lemma decodePart_render p : decodePart (renderPair (encodePair p)) = Some p.
Proof.
  unfold decodePart, encodePair. rewrite cutQuery_render by (apply awsEncode_count; by vm_compute).
  rewrite !percentDecode_unescape, !unescape_awsEncode. by destruct p.
Qed.

Lemma encodePair_inj p q : encodePair p = encodePair q -> p = q.
Proof.
  destruct p, q. unfold encodePair. cbn. intros [= H1%awsEncode_inj H2%awsEncode_inj]. by subst.
Qed.

(** The rendered pairs of a sorted query, each free of the separator. *)
Lemma rendered_split ps : ps <> [] ->
  Split (queryText ps) "&" = renderPair <$> sort_by pairLeb (encodePair <$> ps).
Proof.
  intros Hn. unfold Split, queryText. pose proof (sort_by_perm pairLeb (encodePair <$> ps)) as Hp.
  apply split_Join.
  - destruct ps as [|p ps]; [done|]. intros E%fmap_nil_inv. rewrite E in Hp.
    by apply Permutation_nil in Hp.
  - apply Forall_fmap, List.Forall_forall. intros x Hx%list_elem_of_In. rewrite Hp in Hx.
    apply list_elem_of_fmap in Hx as (p & -> & _). by apply renderPair_count.
Qed.

Lemma queryText_nonempty ps : ps <> [] -> queryText ps <> "".
Proof.
  intros Hn E. pose proof (rendered_split ps Hn) as H. rewrite E in H.
  assert (Split "" "&" = [""]) as E0 by done. rewrite E0 in H.
  destruct (sort_by pairLeb (encodePair <$> ps)) as [|x l]; [done|]. injection H as H _.
  apply (f_equal (fun s => count_byte s (ord "="))) in H. unfold renderPair in H.
  rewrite !count_byte_app in H. change (count_byte "=" (ord "=")) with 1 in H.
  change (count_byte "" (ord "=")) with 0 in H.
  pose proof (count_byte_nonneg x.1 (ord "=")). pose proof (count_byte_nonneg x.2 (ord "=")). lia.
Qed.

Lemma mapM_rendered l : (forall x, x ∈ l -> exists p, x = encodePair p) ->
  exists ps, mapM decodePart (renderPair <$> l) = Some ps /\ encodePair <$> ps = l.
Proof.
  induction l as [|x l IH]; intros H; [by exists []|].
  destruct (H x) as [p ->]; [by left|]. destruct IH as (ps & E & El); [intros y Hy; apply H; by right|].
  exists (p :: ps). rewrite !fmap_cons, El. split; [|done]. cbn [mapM].
  rewrite decodePart_render. cbn. by rewrite E.
Qed.

(** Decoding a canonical query gives back the pairs, in the sorted order. *)
Lemma decodedPairs_queryText ps : exists ps',
  decodedPairs (queryText ps) = Some ps' /\ Permutation ps' ps.
Proof.
  destruct (decide (ps = [])) as [->|Hn]; [by exists []|].
  unfold decodedPairs. rewrite (proj2 (eqb_false_str _ _)) by (by apply queryText_nonempty).
  rewrite rendered_split by done.
  pose proof (sort_by_perm pairLeb (encodePair <$> ps)) as Hp.
  destruct (mapM_rendered (sort_by pairLeb (encodePair <$> ps))) as (ps' & E & El).
  { intros x Hx. rewrite Hp in Hx. apply list_elem_of_fmap in Hx as (p & -> & _). by exists p. }
  exists ps'. split; [done|]. rewrite <-El in Hp.
  rewrite <-(list_fmap_id ps'), <-(list_fmap_id ps).
  apply (fmap_Permutation_via encodePair id); [|done]. intros ????. apply encodePair_inj.
Qed.

Lemma queryText_perm ps qs : queryText ps = queryText qs <-> Permutation ps qs.
Proof.
  split.
  - intros E. destruct (decodedPairs_queryText ps) as (ps' & E1 & P1).
    destruct (decodedPairs_queryText qs) as (qs' & E2 & P2).
    rewrite E, E2 in E1. injection E1 as ->. by rewrite <-P1, <-P2.
  - intros Hp. unfold queryText. do 2 f_equal. apply sort_pairs_unique. by rewrite Hp.
Qed.

(** A canonical query identifies the query up to the order of its
    components: two raw queries have the same canonical form exactly when they
    carry the same multiset of decoded name/value pairs ([+] is itself, an
    absent value is the empty one); a canonical query is its own canonical
    form; and the only failure is an invalid escape. *)
Theorem canonicalRawQuery_identifies (raw1 raw2 q1 : string) :
  canonicalRawQuery raw1 = Good q1 ->
  (canonicalRawQuery raw2 = Good q1 <->
   exists ps1 ps2, decodedPairs raw1 = Some ps1 /\ decodedPairs raw2 = Some ps2 /\
     Permutation ps1 ps2) /\
  canonicalRawQuery q1 = Good q1.
Proof.
  intros H1. pose proof (canonicalRawQuery_spec raw1) as S1. pose proof (canonicalRawQuery_spec raw2) as S2.
  destruct (decodedPairs raw1) as [ps1|]; [|destruct S1 as (e & S1 & _); congruence].
  rewrite H1 in S1. injection S1 as ->. split.
  - destruct (decodedPairs raw2) as [ps2|].
    + rewrite S2. split.
      * intros [= E]. exists ps1, ps2. split_and!; [done..|]. by apply queryText_perm.
      * intros (? & ? & [= <-] & [= <-] & Hp). f_equal. by apply queryText_perm.
    + destruct S2 as (e & -> & _). split; [done|naive_solver].
  - destruct (decodedPairs_queryText ps1) as (ps' & E & Hp).
    pose proof (canonicalRawQuery_spec (queryText ps1)) as S3. rewrite E in S3. rewrite S3.
    f_equal. by apply queryText_perm.
Qed.

(** *** The signed headers and the whole request *)

Lemma normalizeLoop_count c v : c <> 32 -> forall space out,
  count_byte v c = 0 -> count_byte out c = 0 -> count_byte (normalizeLoop v space out) c = 0.
Proof.
  intros Hc. induction v as [|a v IH]; intros space out Hv Ho; [done|].
  cbn [normalizeLoop count_byte] in *. pose proof (count_byte_nonneg v c).
  destruct (Z.eqb_spec (ord a) c) as [|Ha]; [lia|].
  destruct ((ord a =? 32) || (ord a =? 9)); [by apply IH|].
  apply IH; [done|]. rewrite count_byte_app.
  assert (count_byte (String a "") c = 0) as -> by (cbn; by rewrite (proj2 (Z.eqb_neq (ord a) c))).
  destruct (space && negb (out =? "")%string); [|lia].
  rewrite count_byte_app, Ho. cbn [count_byte]. change (ord " ") with 32.
  by rewrite (proj2 (Z.eqb_neq 32 c)) by congruence.
Qed.

Lemma normalize_count c v : c <> 32 -> count_byte v c = 0 -> count_byte (normalizeHeaderValue v) c = 0.
Proof. intros. by apply normalizeLoop_count. Qed.

Lemma validHeaderName_count n c : validHeaderName n = true -> headerNameByte c = false ->
  count_byte n c = 0.
Proof. unfold validHeaderName. intros H Hc. bool_hyps. by apply (bytes_all_count headerNameByte). Qed.

Lemma validHeaderValue_newline v : validHeaderValue v = true -> count_byte v 10 = 0.
Proof. intros H. by apply (bytes_all_count _ _ _ H). Qed.

Section Binding.
Context `{U : UnicodeTables} {B : Type} (sha256 : string -> string).
Implicit Types r : Request B.

(** The host the code reads when there is no Host header holds no line break. *)
Definition host_clean r : Prop :=
  count_byte (Host r) 10 = 0 /\ forall u, Url r = Some u -> count_byte (u_Host u) 10 = 0.

Lemma signedHeaderValue_clean r name v :
  host_clean r -> signedHeaderValue r name = Good v -> count_byte v 10 = 0.
Proof.
  intros [H1 H2]. unfold signedHeaderValue. destruct (headerValues _ _) as [values present].
  destruct (name =? "host")%string.
  - destruct (present && _); [done|]. destruct present.
    + destruct values as [|v' [|]]; [done| |done]. repeat case_if; intros [= <-].
      apply validHeaderValue_newline. by apply negb_false_iff.
    + case_if; [by intros [= <-]|]. destruct (Url r) as [u|]; [|done].
      case_if; [|done]. intros [= <-]. by apply H2.
  - case_if; [intros [= <-]|].
    + bool_hyps. apply Itoa_count; [lia|done].
    + destruct values as [|v' [|]]; [done| |done]. repeat case_if; intros [= <-].
      apply validHeaderValue_newline. by apply negb_false_iff.
Qed.

(** One line of the header block, without its line break. *)
Definition lineText (nv : string * string) : string :=
  (nv.1 ++ ":" ++ normalizeHeaderValue nv.2)%string.
Fixpoint linesBlock (l : list (string * string)) : string :=
  match l with [] => EmptyString | nv :: l => (headerLine nv.1 nv.2 ++ linesBlock l)%string end.

Definition signed_as r (nv : string * string) : Prop :=
  validHeaderName nv.1 = true /\ signedHeaderValue r nv.1 = Good nv.2.

Lemma headerLines_spec r signed : forall last seen out,
  headerLines r last seen signed = Good out ->
  exists l, l.*1 = signed /\ out = linesBlock l /\ Forall (signed_as r) l.
Proof.
  induction signed as [|n signed IH]; intros last seen out; cbn [headerLines].
  { intros [= <-]. by exists []. }
  repeat case_if; try done. destruct (signedHeaderValue r n) as [v|] eqn:Ev; [|done].
  cbn [mbind res_bind]. destruct (headerLines r n (n :: seen) signed) as [o|] eqn:Eo; [|done].
  intros [= <-]. apply IH in Eo as (l & <- & -> & Hl). exists ((n, v) :: l).
  split_and!; [done..|]. constructor; [|done]. bool_hyps. by split.
Qed.

Lemma headerLine_text n v : headerLine n v = (lineText (n, v) ++ newline)%string.
Proof. unfold headerLine, lineText. cbn [fst snd]. by rewrite !str_app_assoc. Qed.

Lemma linesBlock_join l names p :
  (linesBlock l ++ newline ++ names ++ newline ++ p)%string =
  Join ((lineText <$> l) ++ [""; names; p]) newline.
Proof.
  induction l as [|nv l IH]; [done|]. cbn [linesBlock]. rewrite fmap_cons.
  destruct nv as [n v]. cbn [fst snd]. rewrite headerLine_text, !str_app_assoc, IH.
  by destruct (lineText <$> l).
Qed.

Lemma request_lines m u q l names p :
  Join [m; u; q; linesBlock l; names; p] newline =
  Join ([m; u; q] ++ (lineText <$> l) ++ [""; names; p]) newline.
Proof.
  change (Join [m; u; q; linesBlock l; names; p] newline) with
    (m ++ newline ++ u ++ newline ++ q ++ newline ++
     linesBlock l ++ newline ++ names ++ newline ++ p)%string.
  rewrite linesBlock_join. by destruct (lineText <$> l).
Qed.

Lemma lineText_clean r nv : host_clean r -> signed_as r nv -> count_byte (lineText nv) 10 = 0.
Proof.
  intros Hh [Hn Hv]. unfold lineText. rewrite !count_byte_app.
  rewrite (validHeaderName_count _ 10 Hn), (normalize_count 10) by
    (done || by apply (signedHeaderValue_clean r nv.1)). done.
Qed.

Lemma lineText_inj n v w :
  lineText (n, v) = lineText (n, w) -> normalizeHeaderValue v = normalizeHeaderValue w.
Proof.
  unfold lineText. cbn [fst snd]. intros E.
  apply str_app_length_inj in E as [_ E]; [|done]. by injection E.
Qed.

Lemma Join_count sep l c :
  count_byte sep c = 0 -> Forall (fun s => count_byte s c = 0) l -> count_byte (Join l sep) c = 0.
Proof.
  intros Hs H. induction H as [|s l Hs' H IH]; [done|]. destruct l as [|s' l]; [done|].
  change (Join (s :: s' :: l) sep) with (s ++ sep ++ Join (s' :: l) sep)%string.
  rewrite !count_byte_app, Hs', Hs. done.
Qed.

Lemma queryText_newline ps : count_byte (queryText ps) 10 = 0.
Proof.
  unfold queryText. apply Join_count; [done|]. apply Forall_fmap, List.Forall_forall.
  intros x Hx%list_elem_of_In. rewrite sort_by_perm in Hx.
  apply list_elem_of_fmap in Hx as (p & -> & _). by apply renderPair_count.
Qed.

Lemma validPayloadHash_newline p : validPayloadHash p = true -> count_byte p 10 = 0.
Proof.
  unfold validPayloadHash. case_if; [|done]. case_if.
  - intros _. bool_hyps. apply orb_true_iff in Heqb as [Hu|Hl]; [|congruence].
    by apply eqb_true_str in Hu as ->.
  - intros H. by apply (bytes_all_count _ _ 10 H).
Qed.

(** What a canonical request determines of the request. *)
Definition same_request r1 r2 (signed1 signed2 : list string) (p1 p2 : string) : Prop :=
  Method r1 = Method r2 /\ CanonicalURI (Some r1) = CanonicalURI (Some r2) /\
  CanonicalQuery (Some r1) = CanonicalQuery (Some r2) /\ signed1 = signed2 /\ p1 = p2 /\
  forall name, name ∈ signed1 -> exists v1 v2,
    signedHeaderValue r1 name = Good v1 /\ signedHeaderValue r2 name = Good v2 /\
    normalizeHeaderValue v1 = normalizeHeaderValue v2.

(** What one accepted canonical request consists of. *)
Definition built r (signed : list string) (payloadHash : string) (c : Canonical)
    (l : list (string * string)) : Prop :=
  CanonicalURI (Some r) = Good (can_URI c) /\ CanonicalQuery (Some r) = Good (can_Query c) /\
  l.*1 = signed /\ Forall (signed_as r) l /\ signed <> [] /\
  validPayloadHash payloadHash = true /\
  c = mkCanonical (Method r) (can_URI c) (can_Query c) (linesBlock l) (Join signed ";") payloadHash
        (Join [Method r; can_URI c; can_Query c; linesBlock l; Join signed ";"; payloadHash] newline)
        (hex_encode (sha256 (can_Request c))) /\
  count_byte (Method r) 10 = 0.

Lemma Build_inv r signed payloadHash c :
  BuildCanonicalRequest sha256 (Some r) signed payloadHash = Good c ->
  exists l, built r signed payloadHash c l.
Proof.
  unfold BuildCanonicalRequest. destruct (Url r) as [u|] eqn:Eu; [|done].
  case_if; [done|]. bool_hyps.
  destruct (CanonicalURI (Some r)) as [uri|] eqn:E1; [|done]. cbn [mbind res_bind].
  destruct (CanonicalQuery (Some r)) as [query|] eqn:E2; [|done]. cbn [mbind res_bind].
  unfold CanonicalHeaders. destruct (List.length signed =? 0)%nat eqn:En; [done|].
  destruct (headerLines r "" [] signed) as [out|] eqn:Eh; [|done]. cbn [mbind res_bind].
  case_if; [done|]. intros [= <-]. apply headerLines_spec in Eh as (l & El & -> & Hl).
  exists l. unfold built. cbn. split_and!; try done.
  - by destruct signed.
  - by apply negb_false_iff.
  - rewrite bytes_any_all in H. apply negb_false_iff in H.
    apply (bytes_all_count _ _ 10 H). done.
Qed.

Lemma canonical_text_clean r signed payloadHash c l :
  host_clean r -> built r signed payloadHash c l ->
  Forall (fun s => count_byte s (ord (chr 10)) = 0)
    ([Method r; can_URI c; can_Query c] ++ (lineText <$> l) ++ [""; Join signed ";"; payloadHash]).
Proof.
  intros Hh (Hu & Hq & <- & Hl & Hn & Hp & _ & Hm). change (ord (chr 10)) with 10.
  apply CanonicalURI_spec in Hu as (u & Eu & _ & _ & _ & Hb & _).
  rewrite !Forall_app. split_and!.
  - repeat (apply Forall_cons; split); [done| | |constructor].
    + by apply (bytes_all_count pathByte).
    + unfold CanonicalQuery in Hq. cbn [mbind option_bind] in Hq. rewrite Eu in Hq.
      pose proof (canonicalRawQuery_spec (RawQuery u)) as Hs. destruct (decodedPairs _) as [ps|].
      * rewrite Hq in Hs. injection Hs as ->. apply queryText_newline.
      * destruct Hs as (e & Hs & _). congruence.
  - apply Forall_fmap. eapply Forall_impl; [exact Hl|]. intros nv. by apply lineText_clean.
  - repeat (apply Forall_cons; split); [done| | |constructor].
    + apply Join_count; [done|]. apply Forall_fmap. eapply Forall_impl; [exact Hl|].
      intros nv [H _]. by apply (validHeaderName_count _ 10 H).
    + by apply validPayloadHash_newline.
Qed.

(** The lines of equal canonical requests match up. *)
Lemma built_inj r1 r2 signed1 signed2 p1 p2 c1 c2 l1 l2 :
  host_clean r1 -> host_clean r2 ->
  built r1 signed1 p1 c1 l1 -> built r2 signed2 p2 c2 l2 ->
  can_Request c1 = can_Request c2 ->
  Method r1 = Method r2 /\ can_URI c1 = can_URI c2 /\ can_Query c1 = can_Query c2 /\
  lineText <$> l1 = lineText <$> l2 /\ Join signed1 ";" = Join signed2 ";" /\ p1 = p2.
Proof.
  intros Hh1 Hh2 B1 B2 E.
  pose proof (canonical_text_clean _ _ _ _ _ Hh1 B1) as C1.
  pose proof (canonical_text_clean _ _ _ _ _ Hh2 B2) as C2.
  destruct B1 as (_ & _ & _ & _ & _ & _ & E1 & _), B2 as (_ & _ & _ & _ & _ & _ & E2 & _).
  apply (f_equal can_Request) in E1, E2. cbn [can_Request] in E1, E2.
  rewrite E1, E2, !request_lines in E. apply (Join_sep_inj (chr 10)) in E; [|done..].
  injection E as Em Eu Eq E. apply app_inj_2 in E as [El E]; [|done].
  injection E as En Ep. done.
Qed.

Lemma lines_match r1 r2 l1 : forall l2,
  Forall (signed_as r1) l1 -> Forall (signed_as r2) l2 -> l1.*1 = l2.*1 ->
  lineText <$> l1 = lineText <$> l2 ->
  forall name, name ∈ l1.*1 -> exists v1 v2,
    signedHeaderValue r1 name = Good v1 /\ signedHeaderValue r2 name = Good v2 /\
    normalizeHeaderValue v1 = normalizeHeaderValue v2.
Proof.
  induction l1 as [|[n1 v1] l1 IH]; intros [|[n2 v2] l2] F1 F2 En El name Hin; try done.
  - by apply not_elem_of_nil in Hin.
  - rewrite !fmap_cons in En, El. cbn [fst] in En. injection En as <- En. injection El as E0 El.
    apply Forall_cons in F1 as [[_ G1] F1], F2 as [[_ G2] F2].
    rewrite fmap_cons in Hin. apply elem_of_cons in Hin as [->|Hin].
    + exists v1, v2. split_and!; [done..|]. by apply lineText_inj in E0.
    + by apply (IH l2).
Qed.

Lemma signed_names_inj r1 r2 l1 l2 :
  Forall (signed_as r1) l1 -> Forall (signed_as r2) l2 -> l1.*1 <> [] -> l2.*1 <> [] ->
  Join l1.*1 ";" = Join l2.*1 ";" -> l1.*1 = l2.*1.
Proof.
  intros F1 F2 N1 N2. apply (Join_sep_inj ";"%char); [done..| |]; apply Forall_fmap.
  - eapply Forall_impl; [exact F1|]. intros nv [H _]. by apply (validHeaderName_count _ _ H).
  - eapply Forall_impl; [exact F2|]. intros nv [H _]. by apply (validHeaderName_count _ _ H).
Qed.

Lemma canonical_request_binds r1 r2 signed1 signed2 p1 p2 c1 c2 :
  host_clean r1 -> host_clean r2 ->
  BuildCanonicalRequest sha256 (Some r1) signed1 p1 = Good c1 ->
  BuildCanonicalRequest sha256 (Some r2) signed2 p2 = Good c2 ->
  can_Request c1 = can_Request c2 ->
  same_request r1 r2 signed1 signed2 p1 p2.
Proof.
  intros Hh1 Hh2 (l1 & B1)%Build_inv (l2 & B2)%Build_inv E.
  destruct (built_inj _ _ _ _ _ _ _ _ _ _ Hh1 Hh2 B1 B2 E) as (Em & Eu & Eq & El & En & Ep).
  destruct B1 as (Hu1 & Hq1 & <- & F1 & N1 & _), B2 as (Hu2 & Hq2 & <- & F2 & N2 & _).
  apply (signed_names_inj r1 r2) in En; [|done..].
  unfold same_request. rewrite Hu1, Hu2, Hq1, Hq2, Eu, Eq. split_and!; try done.
  by apply (lines_match r1 r2 l1 l2).
Qed.
End Binding.

(** A canonical URI is faithful to its URL: it percent-decodes to exactly
    the URL's path (an empty path is the root), starts with a slash, holds
    path bytes only, is its own canonical form, and, when the raw path is validly
    encoded, denotes the same separators and bytes, so that an encoded slash
    stays distinct from a separator. *)
Theorem CanonicalURI_sound {B} (req : Request B) (uri : string) :
  CanonicalURI (Some req) = Good uri ->
  exists u, Url req = Some u /\ Opaque u = "" /\ canonical_uri_of u uri.
Proof. apply CanonicalURI_spec. Qed.

(** ** Concrete inputs *)

Definition sampleURL (path rawPath query : string) : URL := mkURL false "" path rawPath "" query.
Definition sampleGet (path rawPath query : string) : Request unit :=
  mkRequest "GET" (Some (sampleURL path rawPath query)) "example.amazonaws.com" ∅ 0 tt.

Lemma CanonicalURI_sound_witness : exists u,
  Url (sampleGet "/a/b~é" "/a%2fb~%c3%a9" "") = Some u /\
  canonical_uri_of u "/a%2Fb~%C3%A9" /\ PathUnescape "/a%2Fb~%C3%A9" = Some (Path u).
Proof.
  destruct (CanonicalURI_sound (sampleGet "/a/b~é" "/a%2fb~%c3%a9" "") "/a%2Fb~%C3%A9" ltac:(vm_compute; reflexivity))
    as (u & [= <-] & _ & H).
  eexists. split; [reflexivity|]. split; [exact H|]. apply H.
Defined.

Lemma canonicalRawQuery_identifies_witness :
  canonicalRawQuery "b=x+y&a&%61=%20" = Good "a=&a=%20&b=x%2By" /\
  canonicalRawQuery "a=&a=%20&b=x%2By" = Good "a=&a=%20&b=x%2By" /\
  exists ps1 ps2, decodedPairs "b=x+y&a&%61=%20" = Some ps1 /\
    decodedPairs "a=%20&b=x%2by&a=" = Some ps2 /\ Permutation ps1 ps2.
Proof.
  destruct (canonicalRawQuery_identifies "b=x+y&a&%61=%20" "a=%20&b=x%2by&a=" "a=&a=%20&b=x%2By"
    ltac:(vm_compute; reflexivity)) as [H1 H2].
  split; [vm_compute; reflexivity|]. split; [exact H2|]. apply H1. vm_compute; reflexivity.
Defined.

(** A raw path that [net/url] does not accept as an encoding is re-encoded from
    the decoded path, and its encoded slash becomes a separator: the two
    different requests [/a%2Fb|] and [/a/b|] have one canonical URI. *)
Lemma encoded_slash_collapses :
  CanonicalURI (Some (sampleGet "/a/b|" "/a%2Fb|" "")) = Good "/a/b%7C" /\
  CanonicalURI (Some (sampleGet "/a/b|" "" "")) = Good "/a/b%7C".
Proof. by vm_compute. Qed.
End Sigv4Canonical.
