(* ===== verification/Sigv4Body.v ===== *)
(** * Bounded request bodies (internal/sigv4: payload.go)

    [NewBody] drains a reader into memory or, past a limit, into a private
    temporary file.  The reader is any [io.Reader]; the file system is the
    finite map of the files that exist, with an oracle for the operations that
    fail.  Removing a file is taken to succeed.  The readers of a captured
    body, their descriptors and [Close] are in [Sigv4Request]; runs are
    sequential. *)

From Stdlib Require Import ZArith Lia Ascii.
From stdpp Require Import base gmap strings list.
From S2P Require Import Prelude GoStrings GoEncoding Sigv4Canonical.

Module Sigv4Body.
Import Sigv4Canonical.Sigv4Canonical.

(** Two's-complement [int64]. *)
Definition int64 (z : Z) : Z := (z + 2 ^ 63) mod 2 ^ 64 - 2 ^ 63.

Definition defaultBodyMemory : Z := Z.shiftl 8 20.
Definition defaultBodySpool : Z := Z.shiftl 64 20.

Record BodyOptions := mkBodyOptions { MaxInMemoryBytes : Z; MaxSpoolBytes : Z }.

Definition DefaultBodyOptions : BodyOptions := mkBodyOptions defaultBodyMemory defaultBodySpool.

Definition normalizedBodyOptions (o : BodyOptions) : BodyOptions :=
  mkBodyOptions
    (if MaxInMemoryBytes o <=? 0 then MaxInMemoryBytes DefaultBodyOptions else MaxInMemoryBytes o)
    (if MaxSpoolBytes o <=? 0 then MaxSpoolBytes DefaultBodyOptions else MaxSpoolBytes o).

(** ** The environment: files and readers *)

Record FS := mkFS {
  files : gmap string string; (** path to contents *)
  ticks : nat;                (** fallible operations performed *)
}.

Inductive readErr := EOF | ReadFailed.

(** A reader fills a buffer: the count it reports, the buffer afterwards, its
    error and its next state. *)
Definition reader (R : Type) : Type := R -> string -> Z * string * option readErr * R.

(** What Go guarantees of any reader: the slice it is given keeps its length. *)
Definition keeps_length {R} (Read : reader R) : Prop := forall r buffer,
  String.length (Read r buffer).1.1.2 = String.length buffer.

Record Body := mkBody {
  memory : string; path : string; size : Z; hash : string; closed : bool;
}.

(** The locals of the loop of [NewBody]; [memCap] is [cap(result.memory)] and
    [spooled] says that [spool] is not nil. *)
Record capture := mkCapture {
  buffer : string; noProgress : Z; c_memory : string; memCap : Z; spooled : bool; c_path : string;
  c_size : Z; hashed : string;
}.

(** The contents and the capacity [append] grows to. *)
Definition appendBounded (dst : string) (cap : Z) (src : string) (max : Z) : string * Z :=
  let needed := slen dst + slen src in
  if needed <=? cap then ((dst ++ src)%string, cap)
  else
    let max := if 2 ^ 63 - 1 <? max then 2 ^ 63 - 1 else max in
    let nextCapacity := int64 (cap * 2) in
    let nextCapacity := if nextCapacity <? needed then needed else nextCapacity in
    let nextCapacity := if max <? nextCapacity then max else nextCapacity in
    let nextCapacity := if nextCapacity <? needed then needed else nextCapacity in
    ((dst ++ src)%string, nextCapacity).

Section Capture.
Context {R : Type} (Read : reader R).
(** The oracle for fallible file operations, and the name [os.CreateTemp]
    picks given the names that exist. *)
Context (fails : nat -> bool) (tempName : gset string -> string).
Context (sha256 : string -> string).

Definition tickFS (f : FS) : FS := mkFS (files f) (S (ticks f)).
Definition attempt (f : FS) : bool * FS := (negb (fails (ticks f)), tickFS f).

Definition CreateTemp (f : FS) : option string * FS :=
  if fails (ticks f) then (None, tickFS f)
  else
    let name := tempName (dom (files f)) in
    (Some name, mkFS (<[name := EmptyString]> (files f)) (S (ticks f))).
Definition WriteFile (name data : string) (f : FS) : bool * FS :=
  if fails (ticks f) then (false, tickFS f)
  else
    (true, mkFS (<[name := (default EmptyString (files f !! name) ++ data)%string]> (files f))
             (S (ticks f))).
Definition RemoveFile (name : string) (f : FS) : FS := mkFS (delete name (files f)) (ticks f).

(** [cleanup], on the paths that return an error. *)
Definition cleanup (c : capture) (f : FS) : FS :=
  if negb (c_path c =? "")%string then RemoveFile (c_path c) f else f.

(** Updates of the locals. *)
Definition setBuffer (c : capture) (b : string) : capture :=
  mkCapture b (noProgress c) (c_memory c) (memCap c) (spooled c) (c_path c) (c_size c) (hashed c).
Definition setProgress (c : capture) (n : Z) : capture :=
  mkCapture (buffer c) n (c_memory c) (memCap c) (spooled c) (c_path c) (c_size c) (hashed c).
Definition setMemory (c : capture) (m : string) (cap : Z) : capture :=
  mkCapture (buffer c) (noProgress c) m cap (spooled c) (c_path c) (c_size c) (hashed c).
Definition setSpool (c : capture) (name : string) : capture :=
  mkCapture (buffer c) (noProgress c) (c_memory c) (memCap c) true name (c_size c) (hashed c).
Definition setSize (c : capture) (n : Z) : capture :=
  mkCapture (buffer c) (noProgress c) (c_memory c) (memCap c) (spooled c) (c_path c) n (hashed c).
Definition hashMore (c : capture) (data : string) : capture :=
  mkCapture (buffer c) (noProgress c) (c_memory c) (memCap c) (spooled c) (c_path c) (c_size c)
    (hashed c ++ data)%string.

Definition spoolError (detail : string) : option Error := Some (mkError CodeBodyReadFailure detail).
Definition readFailure : Error := mkError CodeBodyReadFailure "request body read failed".
Definition oversized : Error := mkError CodeOversizedBody "request body exceeds limit".

(** Opening the spool and moving the memory to it, with the checks in between:
    the error, and the locals it leaves. *)
Definition openSpool (c : capture) (f : FS) : option Error * capture * FS :=
  let (name, f) := CreateTemp f in
  match name with
  | None => (spoolError "private body spool is unavailable", c, f)
  | Some name =>
    let c := setSpool c name in
    let (chmod, f) := attempt f in
    if negb chmod then (spoolError "private body spool permissions are unavailable", c, f)
    else
      let '(moved, c, f) :=
        if negb (c_memory c =? "")%string then
          let (written, f) := WriteFile name (c_memory c) f in
          (written, if written then setMemory c EmptyString 0 else c, f)
        else (true, c, f) in
      if negb moved then (spoolError "private body spool write failed", c, f)
      else
        let (stat, f) := attempt f in
        if negb stat then (spoolError "private body spool permissions are unavailable", c, f)
        else
          let (_, f) := attempt f in (* Sync, its error ignored *)
          (None, c, f)
  end.

(** Storing the bytes of one read, in memory or in the spool. *)
Definition store (o : BodyOptions) (c : capture) (data : string) (f : FS)
  : option Error * capture * FS :=
  if negb (spooled c) && (int64 (c_size c + slen data) <=? MaxInMemoryBytes o) then
    let (m, cap) := appendBounded (c_memory c) (memCap c) data (MaxInMemoryBytes o) in
    (None, setMemory c m cap, f)
  else
    let '(err, c, f) := if negb (spooled c) then openSpool c f else (None, c, f) in
    match err with
    | Some _ => (err, c, f)
    | None =>
      let (written, f) := WriteFile (c_path c) data f in
      (if written then None else spoolError "private body spool write failed", c, f)
    end.

(** How one turn of the loop ends: with a further turn, past the loop, or in a
    returned error. *)
Inductive turn :=
| Next (c : capture) (r : R) (f : FS)
| Finished (c : capture) (r : R) (f : FS)
| Stopped (e : Error) (r : R) (f : FS).

(** The end of a turn: what the loop makes of [err] and of an empty read. *)
Definition settle (c : capture) (n : Z) (err : option readErr) (r : R) (f : FS) : turn :=
  match err with
  | Some EOF => Finished c r f
  | Some ReadFailed => Stopped readFailure r (cleanup c f)
  | None =>
    if n =? 0 then
      let c := setProgress c (noProgress c + 1) in
      if 100 <=? noProgress c then Stopped readFailure r (cleanup c f) else Next c r f
    else Next (setProgress c 0) r f
  end.

(** The buffer the next read is given. *)
Definition readBuffer (remaining : Z) (b : string) : string :=
  if remaining =? 0 then str_take 1 b
  else if remaining <? slen b then str_take (Z.to_nat remaining) b
  else b.

(** One turn of the loop. *)
Definition captureTurn (o : BodyOptions) (c : capture) (r : R) (f : FS) : turn :=
  let remaining := int64 (MaxSpoolBytes o - c_size c) in
  if remaining <? 0 then Stopped oversized r (cleanup c f)
  else
    let '(n, b, err, r) := Read r (readBuffer remaining (buffer c)) in
    let c := setBuffer c b in
    if (n <? 0) || (slen b <? n) then Stopped readFailure r (cleanup c f)
    else if 0 <? n then
      if MaxSpoolBytes o <? int64 (c_size c + n) then Stopped oversized r (cleanup c f)
      else
        let data := str_take (Z.to_nat n) b in
        let '(failure, c, f) := store o (hashMore c data) data f in
        match failure with
        | Some e => Stopped e r (cleanup c f)
        | None => settle (setSize c (int64 (c_size c + n))) n err r f
        end
    else settle c n err r f.

Fixpoint captureLoop (fuel : nat) (o : BodyOptions) (c : capture) (r : R) (f : FS)
  : option turn :=
  match fuel with
  | O => None
  | S fuel =>
    match captureTurn o c r f with
    | Next c r f => captureLoop fuel o c r f
    | t => Some t
    end
  end.

(** After the loop: the digest, and rewinding the spool. *)
Definition finish (c : capture) (r : R) (f : FS) : res Body * R * FS :=
  let b := mkBody (c_memory c) (c_path c) (c_size c) (sha256 (hashed c)) false in
  if spooled c then
    let (sought, f) := attempt f in
    if sought then (Good b, r, f)
    else (newError CodeBodyReadFailure "private body spool is unavailable", r, cleanup c f)
  else (Good b, r, f).

Definition emptyCapture : capture :=
  mkCapture (String.string_of_list_ascii (replicate (Z.to_nat (32 * 1024)) "000"%char))
    0 EmptyString 0 false EmptyString 0 EmptyString.

(** [NewBody]; [None] if the fuel runs out before the loop ends. *)
Definition NewBody (fuel : nat) (o : BodyOptions) (r : R) (f : FS) : option (res Body * R * FS) :=
  if (MaxInMemoryBytes o <? 0) || (MaxSpoolBytes o <? 0)
  then Some (newError CodeMalformedRequest "body limits are invalid", r, f)
  else
    let o := normalizedBodyOptions o in
    if (MaxInMemoryBytes o <=? 0) || (MaxSpoolBytes o <=? 0) ||
       (MaxSpoolBytes o <? MaxInMemoryBytes o)
    then Some (newError CodeMalformedRequest "body limits are invalid", r, f)
    else
      match captureLoop fuel o emptyCapture r f with
      | None => None
      | Some (Finished c r f) => Some (finish c r f)
      | Some (Stopped e r f) => Some (Bad e, r, f)
      | Some (Next _ _ _) => None (* the loop does not end with a further turn *)
      end.
End Capture.

(** ** Lemmas *)

Lemma int64_small z : - 2 ^ 63 <= z < 2 ^ 63 -> int64 z = z.
Proof. intros H. unfold int64. rewrite Z.mod_small; lia. Qed.

Lemma str_take_length n s : slen (str_take n s) = Z.min (Z.of_nat n) (slen s).
Proof.
  unfold slen. revert s. induction n as [|n IH]; intros [|a s]; cbn [str_take String.length]; try lia.
  specialize (IH s). lia.
Qed.

Lemma readBuffer_length remaining b : 0 <= remaining -> 1 <= slen b ->
  1 <= slen (readBuffer remaining b) <= Z.max 1 remaining.
Proof.
  intros Hr Hb. unfold readBuffer. destruct (Z.eqb_spec remaining 0).
  - rewrite str_take_length. lia.
  - destruct (Z.ltb_spec remaining (slen b)); [rewrite str_take_length|]; lia.
Qed.

Lemma appendBounded_spec dst cap src max :
  slen dst <= cap <= max -> slen dst + slen src <= max -> max < 2 ^ 62 ->
  exists cap', appendBounded dst cap src max = ((dst ++ src)%string, cap') /\
    slen dst + slen src <= cap' <= max.
Proof.
  intros H1 H2 H3. pose proof (slen_nonneg dst). pose proof (slen_nonneg src).
  unfold appendBounded. case_if; [eexists; split; [done|lia]|].
  rewrite (proj2 (Z.ltb_ge (2 ^ 63 - 1) max)) by lia. rewrite int64_small by lia.
  eexists. split; [done|]. repeat case_if; lia.
Qed.

Section CaptureFacts.
Context {R : Type} (Read : reader R) (fails : nat -> bool) (tempName : gset string -> string).
Context (sha256 : string -> string).
Context (Hread : keeps_length Read).
(** [os.CreateTemp] picks a name that does not exist, and no name is empty. *)
Context (Hfresh : forall X, tempName X ∉ X) (Hname : forall X, tempName X <> "").

(** The limits, once normalised; a body of 2^62 bytes is beyond any input. *)
Definition limits_ok (o : BodyOptions) : Prop :=
  0 < MaxInMemoryBytes o <= MaxSpoolBytes o /\ MaxSpoolBytes o < 2 ^ 62.
Context (o : BodyOptions) (Ho : limits_ok o) (f0 : FS).

(** Where the captured bytes are: in memory within the memory limit, or beyond
    it in one new file. *)
Definition placed (c : capture) (f : FS) : Prop :=
  if spooled c then
    c_path c <> "" /\ files f0 !! c_path c = None /\ files f = <[c_path c := hashed c]> (files f0) /\
    c_memory c = "" /\ MaxInMemoryBytes o < c_size c
  else
    c_path c = "" /\ files f = files f0 /\ c_memory c = hashed c /\
    slen (c_memory c) <= memCap c <= MaxInMemoryBytes o.

Record loop_inv (c : capture) (f : FS) : Prop := {
  inv_size : c_size c = slen (hashed c);
  inv_limit : c_size c <= MaxSpoolBytes o;
  inv_progress : 0 <= noProgress c < 100;
  inv_buffer : 1 <= slen (buffer c);
  inv_placed : placed c f;
}.

(** What the loop has left to do: at most a hundred reads per missing byte. *)
Definition measure (c : capture) : Z := 100 * (MaxSpoolBytes o - c_size c) + (100 - noProgress c).

(** What may be left behind by a failure. *)
Definition removable (c : capture) (f : FS) : Prop :=
  if (c_path c =? "")%string then files f = files f0
  else files f0 !! c_path c = None /\ exists data, files f = <[c_path c := data]> (files f0).

Lemma cleanup_restores c f : removable c f -> files (cleanup c f) = files f0.
Proof.
  unfold removable, cleanup. destruct (c_path c =? "")%string; cbn [negb]; [done|].
  intros (Hn & data & E). cbn. rewrite E. by rewrite delete_insert_id.
Qed.

Lemma placed_removable c f : placed c f -> removable c f.
Proof.
  unfold placed, removable. destruct (spooled c).
  - intros (Hp & Hn & E & _). rewrite (proj2 (eqb_false_str _ _)) by done. eauto.
  - by intros (-> & -> & _).
Qed.

(** [openSpool] on locals that are in memory. *)
Lemma openSpool_spec c f err c' f' :
  c_path c = "" -> files f = files f0 ->
  openSpool fails tempName c f = (err, c', f') ->
  removable c' f' /\ match err with
  | Some e => Code e = CodeBodyReadFailure
  | None =>
    exists name cap, name <> "" /\ files f0 !! name = None /\
      c' = setSpool (setMemory c "" cap) name /\ files f' = <[name := c_memory c]> (files f0)
  end.
Proof.
  intros Hp Hf. unfold openSpool, CreateTemp. destruct (fails (ticks f)).
  { intros [= <- <- <-]. split; [|done]. unfold removable. by rewrite Hp. }
  set (name := tempName (dom (files f))).
  assert (files f0 !! name = None) as Hn.
  { rewrite <-Hf. apply not_elem_of_dom. apply Hfresh. }
  assert (name <> "") as Hne by apply Hname.
  assert (forall c1 g data, c_path c1 = name -> files g = <[name := data]> (files f0) -> removable c1 g) as Hrem.
  { intros c1 g data E1 E2. unfold removable. rewrite E1, (proj2 (eqb_false_str _ _)) by done. eauto. }
  cbn [attempt]. destruct (fails _); cbn [negb].
  { intros [= <- <- <-]. split; [|done]. apply (Hrem _ _ ""); [done|]. cbn. by rewrite Hf. }
  cbn [c_memory setSpool]. destruct (c_memory c =? "")%string eqn:Em; cbn [negb].
  - apply eqb_true_str in Em. cbn [attempt]. destruct (fails _); cbn [negb]; intros [= <- <- <-].
    + split; [|done]. apply (Hrem _ _ ""); [done|]. cbn. by rewrite Hf.
    + split; [apply (Hrem _ _ ""); [done|]; cbn; by rewrite Hf|].
      exists name, (memCap c). split_and!; [done..| |].
      * unfold setSpool, setMemory. cbn. by rewrite Em.
      * cbn. by rewrite Hf, Em.
  - unfold WriteFile. cbn [ticks files]. destruct (fails _); cbn [negb].
    { intros [= <- <- <-]. split; [|done]. apply (Hrem _ _ ""); [done|]. cbn. by rewrite Hf. }
    cbn [attempt tickFS files ticks]. rewrite lookup_insert_eq. cbn [default from_option id].
    rewrite insert_insert_eq.
    change ("" ++ c_memory c)%string with (c_memory c).
    destruct (fails _); cbn [negb]; intros [= <- <- <-].
    + split; [|done]. apply (Hrem _ _ (c_memory c)); [done|]. cbn. by rewrite Hf.
    + split; [apply (Hrem _ _ (c_memory c)); [done|]; cbn; by rewrite Hf|].
      exists name, 0. split_and!; [done..|]. cbn. by rewrite Hf.
Qed.

(** The locals [store] leaves alone. *)
Definition kept (c c' : capture) : Prop :=
  buffer c' = buffer c /\ noProgress c' = noProgress c /\ c_size c' = c_size c /\ hashed c' = hashed c.

Lemma store_memory_spec c data f cap' :
  placed c f -> spooled c = false ->
  slen (c_memory c) + slen data <= cap' <= MaxInMemoryBytes o ->
  placed (setSize (setMemory (hashMore c data) (c_memory c ++ data) cap') (c_size c + slen data)) f.
Proof.
  unfold placed. cbn. intros Hp Hs Hc. rewrite Hs in *. destruct Hp as (-> & -> & Em & _).
  rewrite slen_app, Em in *. split_and!; [done..|lia|lia].
Qed.

Lemma store_spec c data f err c' f' :
  placed c f -> c_size c = slen (hashed c) -> c_size c + slen data <= MaxSpoolBytes o ->
  store fails tempName o (hashMore c data) data f = (err, c', f') ->
  match err with
  | None => kept (hashMore c data) c' /\ placed (setSize c' (c_size c + slen data)) f'
  | Some e => removable c' f' /\ Code e = CodeBodyReadFailure
  end.
Proof.
  intros Hp Hs Hl. destruct Ho as [Hm Hb]. pose proof (slen_nonneg data). pose proof (slen_nonneg (hashed c)).
  unfold store. cbn [spooled hashMore c_size]. rewrite int64_small by lia.
  destruct (spooled c) eqn:Es; cbn [negb andb].
  - pose proof (placed_removable _ _ Hp) as Hrem. unfold placed, removable in Hp, Hrem. rewrite Es in Hp.
    destruct Hp as (Hne & Hn & E & Em & Hgt). unfold WriteFile. cbn [c_path hashMore].
    destruct (fails (ticks f)); intros [= <- <- <-]; [by split|]. split; [by split_and!|].
    unfold placed. cbn. rewrite Es, E, lookup_insert_eq. cbn. rewrite insert_insert_eq.
    split_and!; [done..|lia].
  - destruct (Z.leb_spec (c_size c + slen data) (MaxInMemoryBytes o)) as [Hle|Hgt].
    + cbn [c_memory memCap hashMore]. pose proof Hp as Hp'. unfold placed in Hp'. rewrite Es in Hp'.
      destruct Hp' as (_ & _ & Em & Hcap).
      destruct (appendBounded_spec (c_memory c) (memCap c) data (MaxInMemoryBytes o)) as (cap' & Ea & Hc);
        [lia|rewrite Em; lia|lia|].
      rewrite Ea. intros [= <- <- <-]. split; [by split_and!|]. by apply store_memory_spec.
    + pose proof Hp as Hp'. unfold placed in Hp'. rewrite Es in Hp'. destruct Hp' as (Ep & Ef & Em & _).
      destruct (openSpool fails tempName (hashMore c data) f) as [[err1 c1] f1] eqn:Eo.
      apply openSpool_spec in Eo as [Hrem Eo]; [|done..].
      destruct err1 as [e|]; [by intros [= <- <- <-]|].
      destruct Eo as (name & cap & Hne & Hn & -> & Ef1). unfold WriteFile. cbn [c_path setSpool].
      destruct (fails (ticks f1)); intros [= <- <- <-]; [by split|]. split; [by split_and!|].
      unfold placed. cbn. rewrite Ef1, lookup_insert_eq. cbn. rewrite insert_insert_eq, Em.
      split_and!; [done..|lia].
Qed.

(** One read, as the reader reports it. *)
Definition reads (r : R) (err : option readErr) (r' : R) (data : string) : Prop :=
  exists buf n b, Read r buf = (n, b, err, r') /\ 0 <= n <= slen b /\ data = str_take (Z.to_nat n) b.

Definition failure_ok (e : Error) (f : FS) : Prop :=
  files f = files f0 /\ (Code e = CodeOversizedBody \/ Code e = CodeBodyReadFailure).

Definition turn_ok (c : capture) (r : R) (t : turn) : Prop :=
  match t with
  | Next c' r' f' => loop_inv c' f' /\ 0 <= measure c' < measure c /\
      exists data, reads r None r' data /\ hashed c' = (hashed c ++ data)%string
  | Finished c' r' f' => loop_inv c' f' /\
      exists data, reads r (Some EOF) r' data /\ hashed c' = (hashed c ++ data)%string
  | Stopped e r' f' => failure_ok e f'
  end.

Lemma settle_spec c r n err r' f c0 :
  loop_inv c f -> (exists data, reads r err r' data /\ hashed c = (hashed c0 ++ data)%string) ->
  0 <= n -> c_size c = c_size c0 + n -> noProgress c = noProgress c0 -> 0 <= noProgress c0 < 100 ->
  turn_ok c0 r (settle c n err r' f).
Proof.
  intros Hi Hd Hn Hs Hp Hp0. pose proof (cleanup_restores c f (placed_removable _ _ (inv_placed _ _ Hi))) as Hc.
  unfold settle. destruct err as [[|]|]; [by split|by split; auto|].
  pose proof (inv_limit _ _ Hi). destruct (Z.eqb_spec n 0) as [->|].
  - cbn [noProgress setProgress]. destruct (Z.leb_spec 100 (noProgress c + 1)); [by split; auto|].
    split; [|split; [unfold measure; cbn; lia|done]].
    destruct Hi as [I1 I2 I3 I4 I5]. constructor; cbn; try done. lia.
  - split; [|split; [unfold measure; cbn; lia|done]].
    destruct Hi as [I1 I2 I3 I4 I5]. constructor; cbn; try done. 
Qed.

Lemma turn_spec c r f : loop_inv c f -> turn_ok c r (captureTurn Read fails tempName o c r f).
Proof.
  intros Hi. pose proof Hi as [Hs Hlim Hp Hb Hpl]. destruct Ho as [Hm Hbig].
  pose proof (slen_nonneg (hashed c)). unfold captureTurn.
  rewrite int64_small by lia. rewrite (proj2 (Z.ltb_ge (MaxSpoolBytes o - c_size c) 0)) by lia.
  set (buf := readBuffer _ _). pose proof (readBuffer_length (MaxSpoolBytes o - c_size c) (buffer c) ltac:(lia) Hb) as Hbuf.
  fold buf in Hbuf. pose proof (Hread r buf) as Hlen.
  destruct (Read r buf) as [[[n b] err] r'] eqn:Er. cbn in Hlen.
  assert (slen b = slen buf) as Hlb by (unfold slen; by rewrite Hlen).
  assert (removable (setBuffer c b) f) as Hrem by apply (placed_removable c f Hpl).
  destruct (Z.ltb_spec n 0); [by split; auto using cleanup_restores|].
  destruct (Z.ltb_spec (slen b) n); [by split; auto using cleanup_restores|]. cbn [orb].
  assert (reads r err r' (str_take (Z.to_nat n) b)) as Hreads.
  { exists buf, n, b. split_and!; [done|lia|lia|done]. }
  destruct (Z.ltb_spec 0 n).
  - cbn [c_size setBuffer]. rewrite int64_small by lia.
    destruct (Z.ltb_spec (MaxSpoolBytes o) (c_size c + n)); [by split; auto using cleanup_restores|].
    set (data := str_take (Z.to_nat n) b) in *.
    assert (slen data = n) as Hd by (unfold data; rewrite str_take_length; lia).
    destruct (store _ _ _ _ _ _) as [[failure c'] f'] eqn:Est.
    apply store_spec in Est; [|done|done|cbn; lia]. rewrite Hd in Est. cbn [c_size setBuffer] in Est.
    destruct failure as [e|]; [destruct Est; split; auto using cleanup_restores|].
    destruct Est as ((Kb & Kp & Ks & Kh) & Hpl'). cbn in Kb, Kp, Ks, Kh.
    rewrite Ks, int64_small by lia.
    apply settle_spec; try done.
    + constructor; cbn; rewrite ?Kb, ?Kp, ?Ks, ?Kh, ?slen_app; try done; lia.
    + exists data. cbn. by rewrite Kh.
  - replace n with 0 in * by lia. apply settle_spec; try done; [|exists ""|cbn; lia].
    + constructor; cbn; try done. lia.
    + split; [done|]. cbn. by rewrite str_app_nil_r.
Qed.

(** Everything a reader delivers until it reports the end. *)
Inductive drains : R -> string -> R -> Prop :=
| drains_end r r' data : reads r (Some EOF) r' data -> drains r data r'
| drains_more r r1 r' data rest : reads r None r1 data -> drains r1 rest r' -> drains r (data ++ rest) r'.

Lemma loop_spec fuel : forall c r f, loop_inv c f -> measure c < Z.of_nat fuel ->
  match captureLoop Read fails tempName fuel o c r f with
  | Some (Finished c' r' f') => loop_inv c' f' /\
      exists rest, drains r rest r' /\ hashed c' = (hashed c ++ rest)%string
  | Some (Stopped e _ f') => failure_ok e f'
  | _ => False
  end.
Proof.
  induction fuel as [|fuel IH]; intros c r f Hi Hf.
  { pose proof (inv_limit _ _ Hi). pose proof (inv_progress _ _ Hi). unfold measure in Hf. lia. }
  cbn [captureLoop]. pose proof (turn_spec c r f Hi) as Ht.
  destruct (captureTurn _ _ _ _ _ _ _) as [c1 r1 f1|c1 r1 f1|e r1 f1]; cbn [turn_ok] in Ht.
  - destruct Ht as (Hi1 & Hm & data & Hr & Eh). specialize (IH c1 r1 f1 Hi1 ltac:(lia)).
    destruct (captureLoop _ _ _ _ _ _ _ _) as [[|c' r' f'|]|]; try done.
    destruct IH as (Hi' & rest & Hd & E). split; [done|]. exists (data ++ rest)%string.
    split; [by eapply drains_more|]. by rewrite E, Eh, str_app_assoc.
  - destruct Ht as (Hi1 & data & Hr & Eh). split; [done|]. exists data.
    split; [by apply drains_end|done].
  - done.
Qed.

Lemma empty_inv : loop_inv emptyCapture f0.
Proof.
  destruct Ho as [Hm Hb]. constructor.
  - done.
  - cbn. lia.
  - done.
  - apply Z.leb_le. vm_compute. reflexivity.
  - unfold placed. cbn. split_and!; [done..|change (slen "") with 0; lia].
Qed.

(** A captured body: its digest and size are those of the bytes drained, which
    it keeps in memory up to the memory limit and in one new file beyond. *)
Definition captured (b : Body) (r r' : R) (f : FS) : Prop :=
  closed b = false /\ exists content, drains r content r' /\
  hash b = sha256 content /\ size b = slen content /\ size b <= MaxSpoolBytes o /\
  (if size b <=? MaxInMemoryBytes o
   then memory b = content /\ path b = "" /\ files f = files f0
   else memory b = "" /\ path b <> "" /\ files f0 !! path b = None /\ files f = <[path b := content]> (files f0)).

Lemma finish_spec c r r' f :
  loop_inv c f -> (exists rest, drains r rest r' /\ hashed c = rest) ->
  match finish fails sha256 c r' f with
  | (Good b, r1, f') => r1 = r' /\ captured b r r' f'
  | (Bad e, _, f') => failure_ok e f'
  end.
Proof.
  intros Hi (rest & Hd & <-). unfold finish. pose proof Hi as [Hs Hl _ _ Hp].
  pose proof (placed_removable _ _ Hp) as Hrem. unfold placed in Hp.
  destruct (spooled c) eqn:Es.
  - destruct Hp as (Hne & Hn & E & Em & Hgt). cbn [attempt]. destruct (fails (ticks f)); cbn [negb].
    + split; [by apply (cleanup_restores c)|by right].
    + split; [done|]. split; [done|]. exists (hashed c). cbn [hash size memory path].
      rewrite (proj2 (Z.leb_gt (c_size c) (MaxInMemoryBytes o))) by lia.
      by split_and!.
  - destruct Hp as (Ep & E & Em & Hcap). split; [done|]. split; [done|]. exists (hashed c).
    cbn [hash size memory path]. rewrite (proj2 (Z.leb_le (c_size c) (MaxInMemoryBytes o))) by (rewrite Hs, <-Em; lia).
    by split_and!.
Qed.
End CaptureFacts.

Section Claims.
Context {R : Type} (Read : reader R) (fails : nat -> bool) (tempName : gset string -> string).
Context (sha256 : string -> string).

(** The most turns the loop can take. *)
Definition enough (o : BodyOptions) : nat :=
  Z.to_nat (100 * MaxSpoolBytes (normalizedBodyOptions o) + 101).

Lemma NewBody_spec (o : BodyOptions) (r : R) (f : FS) (fuel : nat) :
  keeps_length Read -> (forall X, tempName X ∉ X) -> (forall X, tempName X <> "") ->
  MaxSpoolBytes (normalizedBodyOptions o) < 2 ^ 62 -> (enough o <= fuel)%nat ->
  exists out r' f', NewBody Read fails tempName sha256 fuel o r f = Some (out, r', f') /\
  match out with
  | Good b => captured Read sha256 (normalizedBodyOptions o) f b r r' f'
  | Bad e => files f' = files f /\
      Code e ∈ [CodeMalformedRequest; CodeOversizedBody; CodeBodyReadFailure]
  end.
Proof.
  intros Hread Hfresh Hname Hbig Hfuel. unfold NewBody.
  case_if; [eexists _, _, _; split; [done|]; split; [done|set_solver]|].
  case_if; [eexists _, _, _; split; [done|]; split; [done|set_solver]|].
  bool_hyps. set (n := normalizedBodyOptions o) in *.
  assert (limits_ok n) as Ho by (unfold limits_ok; lia).
  pose proof (loop_spec Read fails tempName Hread Hfresh Hname n Ho f fuel emptyCapture r f
    (empty_inv n Ho f)) as Hl.
  assert (measure n emptyCapture < Z.of_nat fuel) as Hm.
  { unfold enough in Hfuel. fold n in Hfuel. unfold limits_ok in Ho.
    change (measure n emptyCapture) with (100 * (MaxSpoolBytes n - 0) + (100 - 0)). lia. }
  specialize (Hl Hm).
  destruct (captureLoop _ _ _ _ _ _ _ _) as [[|c' r' f'|e r' f']|]; try done.
  - destruct Hl as (Hi & rest & Hd & E).
    pose proof (finish_spec Read fails sha256 n f c' r r' f' Hi ltac:(by exists rest)) as Hfin.
    destruct (finish _ _ _ _ _) as [[out r1] f1]. exists out, r1, f1. split; [done|].
    destruct out as [b|e]; [by destruct Hfin as [-> Hfin]|].
    destruct Hfin as [Hf [He|He]]; (split; [done|]; rewrite He; set_solver).
  - exists (Bad e), r', f'. split; [done|]. destruct Hl as [Hf [He|He]]; (split; [done|]; rewrite He; set_solver).
Qed.

(** Capturing a body ends: whatever the reader does (empty reads without
    end, false counts, errors) and whatever file operations fail, the loop is
    over after at most a hundred reads per byte of the limit. *)
Theorem NewBody_terminates (o : BodyOptions) (r : R) (f : FS) :
  keeps_length Read -> (forall X, tempName X ∉ X) -> (forall X, tempName X <> "") ->
  MaxSpoolBytes (normalizedBodyOptions o) < 2 ^ 62 ->
  forall fuel, (enough o <= fuel)%nat ->
  exists out, NewBody Read fails tempName sha256 fuel o r f = Some out.
Proof.
  intros H1 H2 H3 H4 fuel Hfuel.
  destruct (NewBody_spec o r f fuel H1 H2 H3 H4 Hfuel) as (out & r' & f' & E & _). eauto.
Qed.

(** What capturing yields: a body with the digest and the size of exactly
    the bytes the reader delivered up to its end, within the limit, held in
    memory or in one new private file; or an error of one of three classes that
    leaves no file behind. *)
Theorem NewBody_captures (o : BodyOptions) (r r' : R) (f f' : FS) (fuel : nat) (out : res Body) :
  keeps_length Read -> (forall X, tempName X ∉ X) -> (forall X, tempName X <> "") ->
  MaxSpoolBytes (normalizedBodyOptions o) < 2 ^ 62 -> (enough o <= fuel)%nat ->
  NewBody Read fails tempName sha256 fuel o r f = Some (out, r', f') ->
  match out with
  | Good b => captured Read sha256 (normalizedBodyOptions o) f b r r' f'
  | Bad e => files f' = files f /\
      Code e ∈ [CodeMalformedRequest; CodeOversizedBody; CodeBodyReadFailure]
  end.
Proof.
  intros H1 H2 H3 H4 Hfuel E.
  destruct (NewBody_spec o r f fuel H1 H2 H3 H4 Hfuel) as (out1 & r1 & f1 & E1 & H).
  rewrite E in E1. by injection E1 as <- <- <-.
Qed.
End Claims.

(** ** Concrete inputs *)

(** A reader of chunks, which ends after the last. *)
Definition chunkRead : reader (list string) := fun r b =>
  match r with
  | [] => (0, b, Some EOF, [])
  | chunk :: r =>
    let n := Nat.min (String.length chunk) (String.length b) in
    (Z.of_nat n, (str_take n chunk ++ str_drop n b)%string, None,
     if (n <? String.length chunk)%nat then str_drop n chunk :: r else r)
  end.

Lemma take_drop_length n s t : (n <= String.length s)%nat -> (n <= String.length t)%nat ->
  String.length (str_take n s ++ str_drop n t) = String.length t.
Proof.
  revert s t. induction n as [|n IH]; intros [|a s] [|b t]; cbn; try lia; intros H1 H2.
  all: first [done | by rewrite <-(IH s t) by lia].
Qed.

Lemma chunkRead_length : keeps_length chunkRead.
Proof. intros [|chunk r] b; [done|]. cbn. apply take_drop_length; lia. Qed.

(** A name longer than every existing one. *)
Definition longerName (X : gset string) : string := String "t" (Join (elements X) "").

Lemma Join_length x l : x ∈ l -> (String.length x <= String.length (Join l ""))%nat.
Proof.
  intros H. induction l as [|y l IH]; [by apply not_elem_of_nil in H|].
  assert (String.length (Join (y :: l) "") = String.length y + String.length (Join l ""))%nat as E.
  { destruct l as [|z l]; [cbn; lia|].
    change (Join (y :: z :: l) "") with (y ++ "" ++ Join (z :: l) "")%string. by rewrite !str_length_app. }
  apply elem_of_cons in H as [->|H]; [lia|]. specialize (IH H). lia.
Qed.

Lemma longerName_fresh X : longerName X ∉ X.
Proof.
  intros H. apply elem_of_elements, Join_length in H. unfold longerName in H at 1. cbn in H. lia.
Qed.

Definition sampleOptions : BodyOptions := mkBodyOptions 4 6.
Definition sampleCapture (chunks : list string) : option (res Body * list string * FS) :=
  NewBody chunkRead (fun _ => false) longerName (fun s => s) (enough sampleOptions) sampleOptions chunks (mkFS ∅ 0).

Lemma NewBody_terminates_witness : exists out,
  NewBody chunkRead (fun n => Nat.even n) longerName (fun s => s) (enough sampleOptions) sampleOptions
    [""; ""; "abc"; "defgh"] (mkFS ∅ 0) = Some out.
Proof.
  apply NewBody_terminates;
    [exact chunkRead_length|exact longerName_fresh|done|vm_compute; reflexivity|done].
Defined.

Lemma NewBody_captures_witness :
  captured chunkRead (fun s => s) sampleOptions (mkFS ∅ 0) (mkBody "" "t" 6 "abcdef" false) ["abc"; "def"] []
    (mkFS {["t" := "abcdef"]} 7) /\
  sampleCapture ["abcd"; "efg"] = Some (Bad oversized, [], mkFS ∅ 6).
Proof.
  split; [|vm_compute; reflexivity].
  exact (NewBody_captures chunkRead (fun _ => false) longerName (fun s => s) sampleOptions
    ["abc"; "def"] [] (mkFS ∅ 0) (mkFS {["t" := "abcdef"]} 7) (enough sampleOptions)
    (Good (mkBody "" "t" 6 "abcdef" false))
    chunkRead_length longerName_fresh ltac:(done) ltac:(vm_compute; reflexivity) ltac:(done)
    ltac:(vm_compute; reflexivity)).
Defined.
End Sigv4Body.
