(* ===== verification/Sigv4Request.v ===== *)
(** * Request bodies and their views (internal/sigv4: payload.go)

    A captured [Body] is shared: the request context, [GetBody], verification
    and re-signing hold the same pointer, and every reader is an independent
    view of it.  The model keeps a store of bodies, the descriptors their file
    readers hold, the file system, and a count of the [Close] calls the
    request's original stream receives.  Runs are sequential; the locks of the
    code are not modelled. *)

From Stdlib Require Import ZArith Lia Ascii.
From stdpp Require Import base gmap strings list.
From S2P Require Import Prelude GoStrings GoEncoding Sigv4Canonical Sigv4Body.

Module Sigv4Request.
Import Sigv4Canonical.Sigv4Canonical Sigv4Body.Sigv4Body.

(** ** Data *)

(** A reader over a captured body: [bodyErrorReader], [bytesReader] and
    [fileReader] with their offsets; [p] is the body's address, [fd] the
    descriptor. *)
Inductive view :=
| ErrorReader
| BytesReader (p : nat) (off : Z)
| FileReader (p fd : nat) (off : Z).

(** [req.Body]: nil or [http.NoBody], the caller's stream, or a view. *)
Inductive Stream (R : Type) := NoBody | Raw (r : R) | View (v : view).
Arguments NoBody {R}.
Arguments Raw {R} r.
Arguments View {R} v.

(** [req.GetBody]: nil, a caller's function with what it returns, or the
    function that makes a new view. *)
Inductive GetBodyFn (R : Type) := GetNil | GetCaller (o : option R) | GetView (p : nat).
Arguments GetNil {R}.
Arguments GetCaller {R} o.
Arguments GetView {R} p.

(** What a request holds: [req.Body], [req.GetBody], and the two values of its
    context, the body marker and the payload mode. *)
Record ReqBody (R : Type) := mkReqBody {
  stream : Stream R; getBody : GetBodyFn R; marker : option nat; payloadMode : option string;
}.
Arguments mkReqBody {R}.
Arguments stream {R}.
Arguments getBody {R}.
Arguments marker {R}.
Arguments payloadMode {R}.

(** A [Body] with its set of open file readers. *)
Record Cell := mkCell { content : Body; readers : gset nat }.

Record World := mkWorld {
  fsys : FS; cells : gmap nat Cell; nextBody : nat; nextFd : nat; closes : nat;
}.

(** Updates. *)
Definition setFS (w : World) (f : FS) : World :=
  mkWorld f (cells w) (nextBody w) (nextFd w) (closes w).
Definition setCell (w : World) (p : nat) (c : Cell) : World :=
  mkWorld (fsys w) (<[p := c]> (cells w)) (nextBody w) (nextFd w) (closes w).
Definition newCell (w : World) (c : Cell) : nat * World :=
  (nextBody w, mkWorld (fsys w) (<[nextBody w := c]> (cells w)) (S (nextBody w)) (nextFd w) (closes w)).

Definition setStream {R} (b : ReqBody R) (s : Stream R) : ReqBody R :=
  mkReqBody s (getBody b) (marker b) (payloadMode b).

(** ** Bodies *)

Section Bodies.
Context (fails : nat -> bool).

Definition Size (w : World) (p : nat) : Z :=
  match cells w !! p with Some c => size (content c) | None => 0 end.
Definition SHA256 (w : World) (p : nat) : string :=
  match cells w !! p with Some c => hex_encode (hash (content c)) | None => EmptyString end.
Definition SpoolPath (w : World) (p : nat) : string :=
  match cells w !! p with Some c => path (content c) | None => EmptyString end.

(** [Body.Reader]; [None] is an error. *)
Definition Reader (p : nat) (w : World) : option view * World :=
  match cells w !! p with
  | None => (None, w)
  | Some c =>
    if closed (content c) then (None, w)
    else if negb (path (content c) =? "")%string then
      let (opened, f) := attempt fails (fsys w) in
      let w := setFS w f in
      if negb opened || bool_decide (files f !! path (content c) = None) then (None, w)
      else
        let fd := nextFd w in
        let w := setCell w p (mkCell (content c) ({[fd]} ∪ readers c)) in
        (Some (FileReader p fd 0), mkWorld (fsys w) (cells w) (nextBody w) (S fd) (closes w))
    else (Some (BytesReader p 0), w)
  end.

Definition newReader (p : nat) (w : World) : view * World :=
  let (v, w) := Reader p w in (default ErrorReader v, w).

(** Closing a view: only a file reader has something to close. *)
Definition closeView (v : view) (w : World) : World :=
  match v with
  | FileReader p fd _ =>
    match cells w !! p with
    | Some c => setCell w p (mkCell (content c) (readers c ∖ {[fd]}))
    | None => w
    end
  | _ => w
  end.

(** [Body.Close]; the error a second call returns is the first one's, and
    removing a file succeeds. *)
Definition Close (p : nat) (w : World) : World :=
  match cells w !! p with
  | None => w
  | Some c =>
    let b := content c in
    if closed b then w
    else
      let w := setCell w p (mkCell (mkBody EmptyString (path b) (size b) (hash b) true) ∅) in
      if negb (path b =? "")%string then setFS w (RemoveFile (path b) (fsys w)) else w
  end.

(** [copy] into a buffer from data at an offset. *)
Definition copyFrom (data buf : string) (off : Z) : Z * string :=
  let rest := str_drop (Z.to_nat off) data in
  let n := Nat.min (String.length rest) (String.length buf) in
  (Z.of_nat n, (str_take n rest ++ str_drop n buf)%string).

(** Reading a view; [bytesReader.Read], and [os.File.Read] on a descriptor. *)
Definition viewRead (w : World) : reader view := fun v buf =>
  match v with
  | ErrorReader => (0, buf, Some ReadFailed, v)
  | BytesReader p off =>
    match cells w !! p with
    | Some c =>
      if closed (content c) then (0, buf, Some ReadFailed, v)
      else if slen (memory (content c)) <=? off then (0, buf, Some EOF, v)
      else let (n, buf) := copyFrom (memory (content c)) buf off in
           (n, buf, None, BytesReader p (off + n))
    | None => (0, buf, Some ReadFailed, v)
    end
  | FileReader p fd off =>
    match cells w !! p with
    | Some c =>
      if bool_decide (fd ∉ readers c) then (0, buf, Some ReadFailed, v)
      else
        let data := default EmptyString (files (fsys w) !! path (content c)) in
        if slen buf =? 0 then (0, buf, None, v)
        else if slen data <=? off then (0, buf, Some EOF, v)
        else let (n, buf) := copyFrom data buf off in
             (n, buf, None, FileReader p fd (off + n))
    | None => (0, buf, Some ReadFailed, v)
    end
  end.

(** [bytesReader.Seek]: the new position, with its view. *)
Definition Seek (w : World) (v : view) (offset whence : Z) : option (Z * view) :=
  match v with
  | BytesReader p off =>
    match cells w !! p with
    | Some c =>
      if closed (content c) then None
      else
        let len := slen (memory (content c)) in
        match (if whence =? 0 then Some offset
               else if whence =? 1 then Some (int64 (off + offset))
               else if whence =? 2 then Some (int64 (len + offset))
               else None) with
        | None => None
        | Some position =>
          if (position <? 0) || (len <? position) then None
          else Some (position, BytesReader p position)
        end
    | None => None
    end
  | _ => None (* files seek in the operating system *)
  end.
End Bodies.

(** ** Requests *)

Section Requests.
Context {R : Type} (Read : reader R).
Context (fails : nat -> bool) (tempName : gset string -> string).
Context (sha256 : string -> string) (fuel : nat).

Definition request := Request (ReqBody R).
Definition withBody (req : request) (b : ReqBody R) : request :=
  mkRequest (Method req) (Url req) (Host req) (Header req) (ContentLength req) b.
Definition withLength (req : request) (n : Z) : request :=
  mkRequest (Method req) (Url req) (Host req) (Header req) n (BodyState req).

(** A request in its world. *)
Definition state : Type := request * World.

(** Any [req.Body] as a reader. *)
Definition readStream (w : World) : reader (Stream R) := fun s buf =>
  match s with
  | NoBody => (0, buf, Some EOF, s)
  | Raw r => let '(n, buf, err, r) := Read r buf in (n, buf, err, Raw r)
  | View v => let '(n, buf, err, v) := viewRead w v buf in (n, buf, err, View v)
  end.

(** [req.Body.Close()] and [req.Body = http.NoBody], where there is a body. *)
Definition closeStream (st : state) : state :=
  let (req, w) := st in
  match stream (BodyState req) with
  | NoBody => (req, w)
  | Raw _ =>
    (withBody req (setStream (BodyState req) NoBody),
     mkWorld (fsys w) (cells w) (nextBody w) (nextFd w) (S (closes w)))
  | View v => (withBody req (setStream (BodyState req) NoBody), closeView v w)
  end.

Definition setRequestBody (st : state) (p : nat) : state :=
  let (req, w) := st in
  let req := withLength req (Size w p) in
  let (v, w) := newReader fails p w in
  (withBody req (mkReqBody (View v) (GetView p) (Some p) (payloadMode (BodyState req))), w).

Definition CloseBody (st : state) : state :=
  let (req, w) := st in
  match marker (BodyState req) with Some p => (req, Close p w) | None => (req, w) end.

Definition closeRequestBody (st : state) : state := CloseBody (closeStream st).

(** [NewBody] on a stream, with the body it allocates. *)
Definition captureStream (o : BodyOptions) (s : Stream R) (w : World) : option (res nat * World) :=
  match NewBody (readStream w) fails tempName sha256 fuel o s (fsys w) with
  | None => None
  | Some (Bad e, _, f) => Some (Bad e, setFS w f)
  | Some (Good b, _, f) => let (p, w) := newCell (setFS w f) (mkCell b ∅) in Some (Good p, w)
  end.

Definition CaptureRequestBody (o : BodyOptions) (st : state) : option (res nat * state) :=
  match marker (BodyState st.1) with
  | Some p =>
    let (req, w) := closeStream st in
    let (v, w) := Reader fails p w in
    match v with
    | None => Some (newError CodeBodyReadFailure "request body is unavailable", (req, w))
    | Some v =>
      let (v, w) := newReader fails p (closeView v w) in
      let b := BodyState req in
      Some (Good p, (withBody req (mkReqBody (View v) (GetView p) (marker b) (payloadMode b)), w))
    end
  | None =>
    if (MaxInMemoryBytes o <? 0) || (MaxSpoolBytes o <? 0)
    then Some (newError CodeMalformedRequest "body limits are invalid", st)
    else
      let o := normalizedBodyOptions o in
      let originalContentLength := ContentLength st.1 in
      if MaxSpoolBytes o <? originalContentLength
      then Some (newError CodeOversizedBody "request body exceeds limit", closeStream st)
      else
        match captureStream o (stream (BodyState st.1)) st.2 with
        | None => None
        | Some (out, w) =>
          let st := closeStream (st.1, w) in
          match out with
          | Bad e => Some (Bad e, st)
          | Good p =>
            let (req, w) := setRequestBody st p in
            Some (Good p, (if originalContentLength <? 0 then withLength req (-1) else req, w))
          end
        end
  end.
End Requests.

(** ** What a view delivers *)

Lemma str_take_drop n s : (str_take n s ++ str_drop n s)%string = s.
Proof.
  revert s. induction n as [|n IH]; intros [|a s]; [done..|].
  change (String a (str_take n s ++ str_drop n s) = String a s). by rewrite IH.
Qed.

Lemma str_drop_drop n m s : str_drop n (str_drop m s) = str_drop (m + n) s.
Proof. revert s. induction m as [|m IH]; intros [|a s]; cbn; try done; by destruct n. Qed.

Lemma str_drop_all n s : (String.length s <= n)%nat -> str_drop n s = EmptyString.
Proof. revert s. induction n as [|n IH]; intros [|a s]; cbn; intros H; try done; try lia. apply IH. lia. Qed.

Lemma str_take_prefix n s t : (n <= String.length s)%nat -> str_take n (str_take n s ++ t) = str_take n s.
Proof.
  revert s. induction n as [|n IH]; intros [|a s]; cbn; intros H; try done; try lia.
  f_equal. apply IH. lia.
Qed.

(** What is left to read of a view; [None] when reading fails. *)
Definition remaining (w : World) (v : view) : option string :=
  match v with
  | ErrorReader => None
  | BytesReader p off =>
    c ← cells w !! p;
    if closed (content c) then None else Some (str_drop (Z.to_nat off) (memory (content c)))
  | FileReader p fd off =>
    c ← cells w !! p;
    if bool_decide (fd ∉ readers c) then None
    else Some (str_drop (Z.to_nat off) (default EmptyString (files (fsys w) !! path (content c))))
  end.

Definition offset (v : view) : Z :=
  match v with ErrorReader => 0 | BytesReader _ off => off | FileReader _ _ off => off end.

Lemma copyFrom_spec data buf off n b : 0 <= off -> copyFrom data buf off = (n, b) ->
  0 <= n /\
  str_drop (Z.to_nat off) data = (str_take (Z.to_nat n) b ++ str_drop (Z.to_nat (off + n)) data)%string.
Proof.
  unfold copyFrom. intros Ho [= <- <-]. split; [lia|].
  rewrite Nat2Z.id, Z2Nat.inj_add, Nat2Z.id by lia. rewrite <-str_drop_drop.
  rewrite str_take_prefix by lia. by rewrite str_take_drop.
Qed.

(** One read of a view takes the next bytes of what remains. *)
Lemma viewRead_spec w v err v' data : 0 <= offset v -> reads (viewRead w) v err v' data ->
  0 <= offset v' /\
  match remaining w v with
  | None => err = Some ReadFailed
  | Some rest =>
    match err with
    | None => exists rest', rest = (data ++ rest')%string /\ remaining w v' = Some rest'
    | Some EOF => rest = data
    | Some ReadFailed => False
    end
  end.
Proof.
  intros Ho (buf & n & b & E & Hn & ->). destruct v as [|p off|p fd off];
    cbn [viewRead remaining offset] in E, Ho |- *.
  - by injection E as <- <- <- <-.
  - destruct (cells w !! p) as [c|] eqn:Ec; cbn; [|by injection E as <- <- <- <-].
    destruct (closed (content c)) eqn:Ecl; [by injection E as <- <- <- <-|].
    destruct (Z.leb_spec (slen (memory (content c))) off) as [Hl|Hl].
    { injection E as <- <- <- <-. split; [done|]. cbn. apply str_drop_all. unfold slen in Hl. lia. }
    destruct (copyFrom _ buf off) as [k b'] eqn:Ek. injection E as <- <- <- <-.
    apply copyFrom_spec in Ek as [Hk E]; [|done]. cbn [offset]. split; [lia|].
    exists (str_drop (Z.to_nat (off + k)) (memory (content c))). split; [exact E|].
    cbn. rewrite Ec. cbn. by rewrite Ecl.
  - destruct (cells w !! p) as [c|] eqn:Ec; cbn; [|by injection E as <- <- <- <-].
    destruct (bool_decide (fd ∉ readers c)) eqn:Efd; [by injection E as <- <- <- <-|].
    set (data := default "" (files (fsys w) !! path (content c))) in *.
    destruct (Z.eqb_spec (slen buf) 0).
    { injection E as <- <- <- <-. split; [done|]. exists (str_drop (Z.to_nat off) data). split; [done|].
      cbn. rewrite Ec. cbn. by rewrite Efd. }
    destruct (Z.leb_spec (slen data) off) as [Hl|Hl].
    { injection E as <- <- <- <-. split; [done|]. cbn. apply str_drop_all. unfold slen in Hl. lia. }
    destruct (copyFrom data buf off) as [k b'] eqn:Ek. injection E as <- <- <- <-.
    apply copyFrom_spec in Ek as [Hk E]; [|done]. cbn [offset]. split; [lia|].
    exists (str_drop (Z.to_nat (off + k)) data). split; [exact E|].
    cbn. rewrite Ec. cbn. by rewrite Efd.
Qed.

(** However it is read, a view delivers exactly what remains of it. *)
Lemma view_drains w v data v' : drains (viewRead w) v data v' -> 0 <= offset v ->
  remaining w v = Some data.
Proof.
  induction 1 as [v v' data Hr|v v1 v' data rest Hr _ IH]; intros Ho;
    apply viewRead_spec in Hr as [Ho1 Hr]; try done; destruct (remaining w v) as [x|]; try done.
  - by subst.
  - destruct Hr as (rest' & -> & E). specialize (IH Ho1). rewrite E in IH. by injection IH as ->.
Qed.

(** ** The store of bodies *)

Section Facts.
Context {R : Type} (Read : reader R).
Context (fails : nat -> bool) (tempName : gset string -> string).
Context (sha256 : string -> string) (fuel : nat).
Context (Hread : keeps_length Read).
Context (Hfresh : forall X, tempName X ∉ X) (Hname : forall X, tempName X <> "").

(** An open body holds some bytes: in memory, or in its file. *)
Definition holds (w : World) (c : Cell) (data : string) : Prop :=
  closed (content c) = false /\ hash (content c) = sha256 data /\ size (content c) = slen data /\
  if (path (content c) =? "")%string then memory (content c) = data
  else files (fsys w) !! path (content c) = Some data.
Definition holding (w : World) (p : nat) (data : string) : Prop :=
  exists c, cells w !! p = Some c /\ holds w c data.

(** A closed body keeps no bytes and no descriptor. *)
Definition released (c : Cell) : Prop :=
  closed (content c) = true /\ readers c = ∅ /\ memory (content c) = "".

Record world_ok (w : World) : Prop := {
  ok_next : forall p c, cells w !! p = Some c -> (p < nextBody w)%nat;
  ok_fds : forall p c fd, cells w !! p = Some c -> fd ∈ readers c -> (fd < nextFd w)%nat;
  ok_cell : forall p c, cells w !! p = Some c -> released c \/ exists data, holds w c data;
  ok_paths : forall p q c d, cells w !! p = Some c -> cells w !! q = Some d ->
    closed (content c) = false -> closed (content d) = false ->
    path (content c) <> "" -> path (content c) = path (content d) -> p = q;
}.

(** Opening and closing readers touches neither bodies nor files. *)
Record evolves (w w' : World) : Prop := {
  ev_files : files (fsys w') = files (fsys w);
  ev_closes : closes w' = closes w;
  ev_next : nextBody w' = nextBody w;
  ev_cells : forall q, content <$> cells w' !! q = content <$> cells w !! q;
}.

Lemma evolves_refl w : evolves w w.
Proof. by constructor. Qed.

Lemma evolves_trans w1 w2 w3 : evolves w1 w2 -> evolves w2 w3 -> evolves w1 w3.
Proof.
  intros [A1 A2 A3 A4] [B1 B2 B3 B4]. constructor; [congruence..|]. intros q. by rewrite B4.
Qed.

Lemma evolves_cell w w' q c : evolves w w' -> cells w' !! q = Some c ->
  exists d, cells w !! q = Some d /\ content d = content c.
Proof.
  intros H E. pose proof (ev_cells _ _ H q) as Eq. rewrite E in Eq.
  destruct (cells w !! q) as [d|]; [|done]. injection Eq as Eq. by exists d.
Qed.

Lemma holds_ext w w' c d data : files (fsys w') = files (fsys w) -> content d = content c ->
  holds w c data -> holds w' d data.
Proof. unfold holds. by intros -> ->. Qed.

Lemma evolves_holding w w' q data : evolves w w' -> holding w q data -> holding w' q data.
Proof.
  intros H (c & E & Hc). pose proof (ev_cells _ _ H q) as Eq. rewrite E in Eq.
  destruct (cells w' !! q) as [d|] eqn:Ed; [|done]. injection Eq as Eq.
  exists d. split; [done|]. by eapply holds_ext; [apply H|..].
Qed.

Lemma evolves_ok w w' : evolves w w' -> world_ok w ->
  (forall p c fd, cells w' !! p = Some c -> fd ∈ readers c -> (fd < nextFd w')%nat) ->
  (forall p c, cells w' !! p = Some c -> closed (content c) = true -> readers c = ∅) ->
  world_ok w'.
Proof.
  intros He Hw Hfd Hcl. constructor.
  - intros p c E. apply (evolves_cell _ _ _ _ He) in E as (d & E & _). rewrite (ev_next _ _ He).
    by eapply ok_next.
  - exact Hfd.
  - intros p c E. pose proof E as E'. apply (evolves_cell _ _ _ _ He) in E' as (d & E' & Ec).
    destruct (ok_cell _ Hw p d E') as [(H1 & H2 & H3)|(data & Hd)].
    + left. rewrite Ec in *. split_and!; [done|by eapply Hcl|done].
    + right. exists data. by eapply holds_ext; [apply He|..].
  - intros p q c d E1 E2. apply (evolves_cell _ _ _ _ He) in E1 as (c' & E1 & <-).
    apply (evolves_cell _ _ _ _ He) in E2 as (d' & E2 & <-). by eapply ok_paths.
Qed.

Lemma setFS_tick_evolves w n : evolves w (setFS w (mkFS (files (fsys w)) n)).
Proof. by constructor. Qed.

Lemma holding_open w p data : holding w p data -> exists c, cells w !! p = Some c /\
  closed (content c) = false.
Proof. intros (c & E & H & _). eauto. Qed.

(** [Reader]: a view at offset zero that delivers the body's bytes. *)
Lemma Reader_spec p w ov w' : world_ok w -> Reader fails p w = (ov, w') ->
  evolves w w' /\ world_ok w' /\
  forall v, ov = Some v -> offset v = 0 /\ exists data, holding w p data /\ remaining w' v = Some data.
Proof.
  intros Hw. unfold Reader. destruct (cells w !! p) as [c|] eqn:Ec;
    [|intros [= <- <-]; by split_and!; [apply evolves_refl|..]].
  destruct (closed (content c)) eqn:Ecl; [intros [= <- <-]; by split_and!; [apply evolves_refl|..]|].
  destruct (ok_cell _ Hw p c Ec) as [[]|(data & Hc)]; [congruence|].
  assert (holding w p data) as Hp by by exists c.
  pose proof Hc as (_ & _ & _ & Hd).
  destruct (path (content c) =? "")%string eqn:Ep; cbn [negb].
  { intros [= <- <-]. split_and!; [apply evolves_refl|done|]. intros v [= <-]. split; [done|].
    exists data. split; [done|]. cbn. rewrite Ec. cbn. rewrite Ecl. by rewrite Hd. }
  cbn [attempt]. destruct (negb _ || _).
  { intros [= <- <-]. split_and!; [apply setFS_tick_evolves|destruct Hw; by constructor|done]. }
  intros [= <- <-].
  assert (evolves w (mkWorld (tickFS (fsys w))
    (<[p := mkCell (content c) ({[nextFd w]} ∪ readers c)]> (cells w)) (nextBody w) (S (nextFd w)) (closes w))) as He.
  { constructor; [done..|]. intros q. cbn. destruct (decide (p = q)) as [->|].
    - by rewrite lookup_insert_eq, Ec.
    - by rewrite lookup_insert_ne. }
  split_and!; [done| |].
  - apply (evolves_ok _ _ He Hw); cbn; intros q d.
    + intros fd Eq Hfd. destruct (decide (p = q)) as [->|].
      * rewrite lookup_insert_eq in Eq. injection Eq as <-. cbn in Hfd.
        apply elem_of_union in Hfd as [->%elem_of_singleton|Hfd]; [lia|].
        pose proof (ok_fds _ Hw _ _ _ Ec Hfd). lia.
      * rewrite lookup_insert_ne in Eq by done. pose proof (ok_fds _ Hw _ _ _ Eq Hfd). lia.
    + intros Eq Hq. destruct (decide (p = q)) as [->|].
      * rewrite lookup_insert_eq in Eq. injection Eq as <-. cbn in Hq. congruence.
      * rewrite lookup_insert_ne in Eq by done. destruct (ok_cell _ Hw q d Eq) as [Hr|(? & Ho & _)]; [apply Hr|congruence].
  - intros v [= <-]. split; [done|]. exists data. split; [done|]. cbn. rewrite lookup_insert_eq. cbn.
    rewrite bool_decide_eq_false_2 by set_solver. by rewrite Hd.
Qed.

Lemma closeView_spec v w : world_ok w -> evolves w (closeView v w) /\ world_ok (closeView v w).
Proof.
  intros Hw. unfold closeView. destruct v as [| |p fd off]; try (by split; [apply evolves_refl|]).
  destruct (cells w !! p) as [c|] eqn:Ec; [|by split; [apply evolves_refl|]].
  assert (evolves w (setCell w p (mkCell (content c) (readers c ∖ {[fd]})))) as He.
  { constructor; [done..|]. intros q. cbn. destruct (decide (p = q)) as [->|].
    - by rewrite lookup_insert_eq, Ec.
    - by rewrite lookup_insert_ne. }
  split; [done|]. apply (evolves_ok _ _ He Hw); cbn; intros q d.
  - intros fd' Eq Hfd. destruct (decide (p = q)) as [->|].
    + rewrite lookup_insert_eq in Eq. injection Eq as <-. cbn in Hfd.
      apply elem_of_difference in Hfd as [Hfd _]. by eapply ok_fds.
    + rewrite lookup_insert_ne in Eq by done. by eapply ok_fds.
  - intros Eq Hq. destruct (decide (p = q)) as [->|].
    + rewrite lookup_insert_eq in Eq. injection Eq as <-. cbn in Hq |- *.
      destruct (ok_cell _ Hw q c Ec) as [(_ & -> & _)|(? & Ho & _)]; [set_solver|congruence].
    + rewrite lookup_insert_ne in Eq by done.
      destruct (ok_cell _ Hw q d Eq) as [Hr|(? & Ho & _)]; [apply Hr|congruence].
Qed.

Lemma newReader_spec p w v w' : world_ok w -> newReader fails p w = (v, w') ->
  evolves w w' /\ world_ok w' /\
  (v = ErrorReader \/ offset v = 0 /\ exists data, holding w p data /\ remaining w' v = Some data).
Proof.
  intros Hw. unfold newReader. destruct (Reader fails p w) as [ov w1] eqn:E. intros [= <- <-].
  apply Reader_spec in E as (H1 & H2 & H3); [|done]. split_and!; [done..|].
  destruct ov as [v|]; [right; by apply H3|by left].
Qed.

(** [Close]: the body's bytes, descriptors and file are gone; other bodies keep
    theirs. *)
Lemma Close_spec p w c : world_ok w -> cells w !! p = Some c ->
  world_ok (Close p w) /\ closes (Close p w) = closes w /\
  (exists c', cells (Close p w) !! p = Some c' /\ released c') /\
  (forall q, q <> p -> cells (Close p w) !! q = cells w !! q) /\
  (forall q data, q <> p -> holding w q data -> holding (Close p w) q data) /\
  files (fsys (Close p w)) =
    if closed (content c) || (path (content c) =? "")%string then files (fsys w)
    else delete (path (content c)) (files (fsys w)).
Proof.
  intros Hw Ec. unfold Close. rewrite Ec.
  destruct (closed (content c)) eqn:Ecl.
  { split_and!; try done. exists c. split; [done|].
    destruct (ok_cell _ Hw p c Ec) as [Hr|(? & Ho & _)]; [done|congruence]. }
  set (c' := mkCell (mkBody "" (path (content c)) (size (content c)) (hash (content c)) true) ∅).
  assert (released c') as Hrel by done.
  assert (forall f, (forall q d data, q <> p -> cells w !! q = Some d -> holds w d data ->
      path (content d) <> "" -> files f !! path (content d) = Some data) ->
    (forall q data, q <> p -> holding w q data -> holding (setFS (setCell w p c') f) q data) /\
    world_ok (setFS (setCell w p c') f)) as H.
  { intros f Hf.
    assert (forall q data, q <> p -> holding w q data -> holding (setFS (setCell w p c') f) q data) as Hh.
    { intros q data Hq (d & Eq & Hd). exists d. cbn. rewrite lookup_insert_ne by done. split; [done|].
      pose proof Hd as (H1 & H2 & H3 & H4). unfold holds. split_and!; try done. cbn.
      destruct (path (content d) =? "")%string eqn:Ep; [done|]. apply eqb_false_str in Ep. by eapply Hf. }
    split; [done|]. constructor; cbn.
    - intros q d Eq. destruct (decide (q = p)) as [->|]; [by eapply ok_next|].
      rewrite lookup_insert_ne in Eq by done. by eapply ok_next.
    - intros q d fd Eq Hfd. destruct (decide (q = p)) as [->|].
      + rewrite lookup_insert_eq in Eq. injection Eq as <-. cbn in Hfd. set_solver.
      + rewrite lookup_insert_ne in Eq by done. by eapply ok_fds.
    - intros q d Eq. destruct (decide (q = p)) as [->|].
      + rewrite lookup_insert_eq in Eq. injection Eq as <-. by left.
      + rewrite lookup_insert_ne in Eq by done.
        destruct (ok_cell _ Hw q d Eq) as [Hr|(data & Hd)]; [by left|right]. exists data.
        destruct (Hh q data ltac:(done) ltac:(by exists d)) as (d' & Ed' & Hd'). cbn in Ed'.
        rewrite lookup_insert_ne, Eq in Ed' by done. by injection Ed' as ->.
    - intros q1 q2 d1 d2 E1 E2 H1 H2 H3 H4.
      destruct (decide (q1 = p)) as [->|];
        [rewrite lookup_insert_eq in E1; injection E1 as <-; done|].
      destruct (decide (q2 = p)) as [->|];
        [rewrite lookup_insert_eq in E2; injection E2 as <-; done|].
      rewrite lookup_insert_ne in E1, E2 by done. by eapply ok_paths. }
  cbn [orb negb]. destruct (path (content c) =? "")%string eqn:Ep; cbn [negb].
  - destruct (H (fsys w)) as [Hh Hok].
    { intros q d data _ _ (_ & _ & _ & Hd) Hp. by rewrite (proj2 (eqb_false_str _ _) Hp) in Hd. }
    destruct w; cbn in *.
    split_and!; [done|done|exists c'; by rewrite lookup_insert_eq|
      intros q Hq; by rewrite lookup_insert_ne|done|done].
  - apply eqb_false_str in Ep.
    destruct (H (RemoveFile (path (content c)) (fsys w))) as [Hh Hok].
    { intros q d data Hq Eq (Hd1 & _ & _ & Hd) Hp. cbn.
      rewrite (proj2 (eqb_false_str _ _) Hp) in Hd. rewrite lookup_delete_ne; [done|].
      intros E. apply Hq. symmetry. by eapply (ok_paths _ Hw p q c d). }
    split_and!; [done|done|exists c'; cbn; by rewrite lookup_insert_eq|
      intros q Hq; cbn; by rewrite lookup_insert_ne|done|done].
Qed.

Lemma copyFrom_length data buf off n b : copyFrom data buf off = (n, b) -> String.length b = String.length buf.
Proof. unfold copyFrom. intros [= _ <-]. apply take_drop_length; lia. Qed.

Lemma viewRead_length w : keeps_length (viewRead w).
Proof.
  intros [|p off|p fd off] buf; cbn [viewRead]; [done| |]; destruct (cells w !! p) as [c|]; try done.
  - destruct (closed (content c)); [done|]. destruct (_ <=? off); [done|].
    destruct (copyFrom _ buf off) eqn:E. by apply copyFrom_length in E.
  - destruct (bool_decide _); [done|]. destruct (slen buf =? 0); [done|]. destruct (_ <=? off); [done|].
    destruct (copyFrom _ buf off) eqn:E. by apply copyFrom_length in E.
Qed.

Lemma readStream_length w : keeps_length (readStream Read w).
Proof.
  intros [|r|v] buf; cbn; [done| |].
  - pose proof (Hread r buf) as H. by destruct (Read r buf) as [[[n b] err] r'].
  - pose proof (viewRead_length w v buf) as H. by destruct (viewRead w v buf) as [[[n b] err] v'].
Qed.

(** A captured body at [p], new in the store, with the bytes the stream delivered
    in memory or in one new file. *)
Definition captured_at (w w' : World) (s : Stream R) (p : nat) (data : string) : Prop :=
  cells w !! p = None /\ (forall q, q <> p -> cells w' !! q = cells w !! q) /\
  (exists s', drains (readStream Read w) s data s') /\
  exists c, cells w' !! p = Some c /\ holds w' c data /\
    if (path (content c) =? "")%string then files (fsys w') = files (fsys w)
    else files (fsys w) !! path (content c) = None /\
         files (fsys w') = <[path (content c) := data]> (files (fsys w)).

(** Growing the store by a body whose file, if any, is new. *)
Lemma world_ok_grow w w' p c data : world_ok w -> nextBody w = p -> nextBody w' = S p ->
  nextFd w' = nextFd w -> cells w' = <[p := c]> (cells w) -> readers c = ∅ -> holds w' c data ->
  (if (path (content c) =? "")%string then files (fsys w') = files (fsys w)
   else files (fsys w) !! path (content c) = None /\
        files (fsys w') = <[path (content c) := data]> (files (fsys w))) ->
  world_ok w' /\ (forall q data', holding w q data' -> holding w' q data').
Proof.
  intros Hw Hp Hn Hfd Hc Hr Hh Hf.
  assert (cells w !! p = None) as Hnone.
  { destruct (cells w !! p) as [d|] eqn:E; [|done]. pose proof (ok_next _ Hw _ _ E). lia. }
  assert (forall d data', holds w d data' -> holds w' d data') as Hkeep.
  { intros d data' (H1 & H2 & H3 & H4). split_and!; try done.
    destruct (path (content d) =? "")%string; [done|].
    destruct (path (content c) =? "")%string; [by rewrite Hf|]. destruct Hf as [Hf1 ->].
    rewrite lookup_insert_ne; [done|]. intros E. congruence. }
  split.
  - constructor; rewrite ?Hc, ?Hn, ?Hfd.
    + intros q d. rewrite lookup_insert_Some. intros [[<- _]|[_ E]]; [lia|].
      pose proof (ok_next _ Hw _ _ E). lia.
    + intros q d fd. rewrite lookup_insert_Some. intros [[_ <-]|[_ E]] Hfd'; [set_solver|].
      by eapply ok_fds.
    + intros q d. rewrite lookup_insert_Some. intros [[_ <-]|[_ E]]; [right; eauto|].
      destruct (ok_cell _ Hw _ _ E) as [|[x Hx]]; [by left|right; eauto].
    + assert (forall q d, cells w !! q = Some d -> closed (content d) = false ->
        path (content d) <> "" -> path (content d) <> path (content c)) as Hdiff.
      { intros q d E Ho Hne Heq. destruct (ok_cell _ Hw _ _ E) as [[]|(x & _ & _ & _ & Hx)]; [congruence|].
        rewrite Heq in Hne, Hx. rewrite (proj2 (eqb_false_str _ _) Hne) in Hx, Hf.
        destruct Hf as [Hf _]. congruence. }
      intros q1 q2 d1 d2. rewrite !lookup_insert_Some.
      intros [[<- <-]|[N1 E1]] [[<- <-]|[N2 E2]] O1 O2 Hne Heq; try done.
      * exfalso. by apply (Hdiff q2 d2 E2 O2); [congruence|].
      * exfalso. by apply (Hdiff q1 d1 E1 O1).
      * by eapply ok_paths.
  - intros q data' (d & E & Hd). exists d. rewrite Hc, lookup_insert_ne by congruence. auto.
Qed.

Lemma captureStream_spec (o : BodyOptions) (s : Stream R) (w : World) :
  world_ok w -> MaxSpoolBytes (normalizedBodyOptions o) < 2 ^ 62 -> (enough o <= fuel)%nat ->
  exists out w', captureStream Read fails tempName sha256 fuel o s w = Some (out, w') /\
  world_ok w' /\ closes w' = closes w /\ (forall q data, holding w q data -> holding w' q data) /\
  match out with
  | Bad e => files (fsys w') = files (fsys w) /\ cells w' = cells w /\
      Code e ∈ [CodeMalformedRequest; CodeOversizedBody; CodeBodyReadFailure]
  | Good p => exists data, captured_at w w' s p data /\
      slen data <= MaxSpoolBytes (normalizedBodyOptions o)
  end.
Proof.
  intros Hw Hbig Hfuel.
  destruct (NewBody_spec (readStream Read w) fails tempName sha256 o s (fsys w) fuel
    (readStream_length w) Hfresh Hname Hbig Hfuel) as (out & s' & f & E & H).
  unfold captureStream. rewrite E. destruct out as [b|e].
  - destruct H as (Ecl & data & Hd & Eh & Es & Hmax & Hplace). cbn [newCell].
    set (c := mkCell b ∅). set (w' := mkWorld _ _ _ _ _). exists (Good (nextBody w)), w'.
    assert (holds w' c data /\
      if (path b =? "")%string then files (fsys w') = files (fsys w)
      else files (fsys w) !! path b = None /\ files (fsys w') = <[path b := data]> (files (fsys w))) as [Hh Hf].
    { unfold holds. cbn. destruct (size b <=? _).
      - destruct Hplace as (Em & Ep & Ef). by rewrite Ep.
      - destruct Hplace as (Em & Ep & En & Ef). rewrite (proj2 (eqb_false_str _ _) Ep).
        split_and!; try done. by rewrite Ef, lookup_insert_eq. }
    destruct (world_ok_grow w w' (nextBody w) c data Hw) as [Hok Hkeep]; try done.
    assert (cells w !! nextBody w = None) as Hnone.
    { destruct (cells w !! nextBody w) as [d|] eqn:Ed; [|done]. pose proof (ok_next _ Hw _ _ Ed). lia. }
    split_and!; try done. exists data. split; [|by rewrite <-Es].
    split_and!; [done| |by exists s'|exists c; split_and!; try done; cbn; by rewrite lookup_insert_eq].
    intros q Hq. cbn. by rewrite lookup_insert_ne.
  - destruct H as [Hf He]. exists (Bad e), (setFS w f). split_and!; try done.
    + destruct Hw. constructor; try done. intros p c Hc. destruct (ok_cell0 p c Hc) as [|[x Hx]]; [by left|].
      right. exists x. by apply (holds_ext w _ c c x).
    + intros q data (c & Ec & Hc). exists c. split; [done|]. by apply (holds_ext w _ c c data).
Qed.

(** Views stay with their body. *)
Definition views (p : nat) (v : view) : Prop :=
  match v with ErrorReader => True | BytesReader q _ => q = p | FileReader q _ _ => q = p end.

Lemma newReader_views p w v w' : newReader fails p w = (v, w') ->
  views p v /\ forall q, q <> p -> cells w' !! q = cells w !! q.
Proof.
  unfold newReader, Reader. destruct (cells w !! p) as [c|]; [|by intros [= <- <-]].
  destruct (closed (content c)); [by intros [= <- <-]|].
  destruct (negb (path (content c) =? "")%string); [|by intros [= <- <-]].
  cbn [attempt]. destruct (negb _ || _); intros [= <- <-]; [done|]. split; [done|].
  intros q Hq. cbn. by rewrite lookup_insert_ne.
Qed.

Lemma closeView_views p v w : views p v -> forall q, q <> p -> cells (closeView v w) !! q = cells w !! q.
Proof.
  intros Hv q Hq. destruct v as [| |p' fd off]; try done. cbn in Hv. subst. cbn.
  destruct (cells w !! p); [cbn|done]. by rewrite lookup_insert_ne.
Qed.

(** ** A request that was not captured yet *)

(** No marker, and a body of the caller's own. *)
Definition fresh (req : request (R := R)) : Prop :=
  marker (BodyState req) = None /\ forall v, stream (BodyState req) <> View v.
Definition opens (req : request (R := R)) : nat :=
  match stream (BodyState req) with Raw _ => 1 | _ => 0 end.

(** Same method, address and headers. *)
Definition same_head (req req' : request (R := R)) : Prop :=
  Method req' = Method req /\ Url req' = Url req /\ Host req' = Host req /\ Header req' = Header req.

(** The request with its body captured at [p] and a new view as its body. *)
Record captured_request (st st' : state (R := R)) (p : nat) (data : string) : Prop := {
  cr_head : same_head st.1 st'.1;
  cr_at : captured_at st.2 st'.2 (stream (BodyState st.1)) p data;
  cr_length : ContentLength st'.1 = if ContentLength st.1 <? 0 then -1 else slen data;
  cr_marker : marker (BodyState st'.1) = Some p;
  cr_getBody : getBody (BodyState st'.1) = GetView p;
  cr_mode : payloadMode (BodyState st'.1) = payloadMode (BodyState st.1);
  cr_view : exists v, stream (BodyState st'.1) = View v /\ views p v /\
    (v = ErrorReader \/ offset v = 0 /\ remaining st'.2 v = Some data);
}.

(** A request whose stream was closed, if it was, without being captured. *)
Definition refused_request (st st' : state (R := R)) : Prop :=
  same_head st.1 st'.1 /\ files (fsys st'.2) = files (fsys st.2) /\ cells st'.2 = cells st.2 /\
  marker (BodyState st'.1) = None /\
  ((stream (BodyState st'.1) = stream (BodyState st.1) /\ closes st'.2 = closes st.2) \/
   (stream (BodyState st'.1) = NoBody /\ closes st'.2 = (opens st.1 + closes st.2)%nat)).

Lemma captured_at_evolves w w1 w2 s p data : captured_at w w1 s p data -> evolves w1 w2 ->
  (forall q, q <> p -> cells w2 !! q = cells w1 !! q) -> captured_at w w2 s p data.
Proof.
  intros (H1 & H2 & H3 & c & Ec & Hc & Hf) He Hq. split_and!; [done| |done|].
  - intros q Hne. rewrite Hq by done. by apply H2.
  - destruct (evolves_holding _ _ p data He ltac:(by exists c)) as (c2 & Ec2 & Hc2).
    pose proof (evolves_cell _ _ p c2 He Ec2) as (d & Ed & Ecd). rewrite Ec in Ed. injection Ed as <-.
    exists c2. rewrite <-Ecd, (ev_files _ _ He). by split_and!.
Qed.

Lemma closeStream_fresh req w w' : fresh req -> files (fsys w') = files (fsys w) ->
  cells w' = cells w -> closes w' = closes w -> refused_request (req, w) (closeStream (req, w')).
Proof.
  intros [Hm Hv] Hf Hc Hcl. unfold refused_request, closeStream.
  destruct (stream (BodyState req)) as [|r|v] eqn:Es; cbn; rewrite ?Es.
  - split_and!; try done. by left.
  - split_and!; try done. right. unfold opens. rewrite Es. by rewrite Hcl.
  - by destruct (Hv v).
Qed.

Lemma closeStream_ok (st : state (R := R)) : world_ok st.2 -> world_ok (closeStream st).2.
Proof.
  destruct st as [req w]. cbn. intros Hw. destruct (stream (BodyState req)); cbn; [done| |].
  - by destruct Hw.
  - by apply closeView_spec.
Qed.

(** Closing the stream of a request that has no view leaves bodies alone. *)
Lemma closeStream_other (req : request (R := R)) w : (forall v, stream (BodyState req) <> View v) ->
  exists req1 n, closeStream (req, w) = (req1, mkWorld (fsys w) (cells w) (nextBody w) (nextFd w) n) /\
  n = (opens req + closes w)%nat /\ same_head req req1 /\ ContentLength req1 = ContentLength req /\
  payloadMode (BodyState req1) = payloadMode (BodyState req).
Proof.
  intros Hv. unfold closeStream, opens. destruct (stream (BodyState req)) as [|r|v] eqn:Es.
  - exists req, (closes w). split_and!; try done. by destruct w.
  - by eexists _, _.
  - by destruct (Hv v).
Qed.

Lemma setRequestBody_spec (req req' : request (R := R)) w0 w w' s p data :
  world_ok w -> captured_at w0 w s p data -> setRequestBody fails (req, w) p = (req', w') ->
  world_ok w' /\ captured_at w0 w' s p data /\ closes w' = closes w /\ same_head req req' /\
  ContentLength req' = slen data /\ marker (BodyState req') = Some p /\
  getBody (BodyState req') = GetView p /\ payloadMode (BodyState req') = payloadMode (BodyState req) /\
  exists v, stream (BodyState req') = View v /\ views p v /\
    (v = ErrorReader \/ offset v = 0 /\ remaining w' v = Some data).
Proof.
  intros Hw Hat. unfold setRequestBody. destruct (newReader fails p w) as [v w2] eqn:E.
  intros [= <- <-]. pose proof (newReader_views _ _ _ _ E) as [Hv Hq].
  apply newReader_spec in E as (He & Hw2 & Hr); [|done].
  pose proof Hat as (_ & _ & _ & c & Ec & Hc & _). pose proof Hc as (_ & _ & Es & _).
  split_and!; try done.
  - by eapply captured_at_evolves.
  - apply He.
  - cbn. unfold Size. by rewrite Ec.
  - exists v. split_and!; [done..|]. destruct Hr as [->|(Ho & data' & (c' & Ec' & Hc') & Hr)]; [by left|].
    right. split; [done|]. rewrite Hr. f_equal. rewrite Ec in Ec'. injection Ec' as <-.
    destruct Hc as (_ & _ & _ & H1), Hc' as (_ & _ & _ & H2).
    destruct (path (content c) =? "")%string; congruence.
Qed.

Lemma CaptureRequestBody_spec (o : BodyOptions) (st : state (R := R)) :
  fresh st.1 -> world_ok st.2 -> MaxSpoolBytes (normalizedBodyOptions o) < 2 ^ 62 ->
  (enough (normalizedBodyOptions o) <= fuel)%nat ->
  exists out st', CaptureRequestBody Read fails tempName sha256 fuel o st = Some (out, st') /\
  world_ok st'.2 /\
  match out with
  | Good p => exists data, captured_request st st' p data /\
      closes st'.2 = (opens st.1 + closes st.2)%nat /\
      slen data <= MaxSpoolBytes (normalizedBodyOptions o)
  | Bad e => refused_request st st' /\
      Code e ∈ [CodeMalformedRequest; CodeOversizedBody; CodeBodyReadFailure]
  end.
Proof.
  intros Hfr Hw Hbig Hfuel. destruct st as [req w]. cbn [fst snd] in *. pose proof Hfr as [Hm Hv].
  unfold CaptureRequestBody. cbn [fst snd]. rewrite Hm.
  case_if.
  { eexists _, _. split; [done|]. split; [done|]. split; [|set_solver].
    split_and!; try done. by left. }
  set (n := normalizedBodyOptions o) in *.
  case_if.
  { eexists _, _. split; [done|]. split; [by apply closeStream_ok|]. split; [|set_solver].
    by apply closeStream_fresh. }
  assert (normalizedBodyOptions n = n) as Hnn.
  { unfold n, normalizedBodyOptions. destruct (MaxInMemoryBytes o <=? 0) eqn:E1;
      destruct (MaxSpoolBytes o <=? 0) eqn:E2; cbn; rewrite ?E1, ?E2; done. }
  destruct (captureStream_spec n (stream (BodyState req)) w Hw) as (out & w1 & E & Hw1 & Hcl & _ & H);
    [by rewrite Hnn|done|]. rewrite E, Hnn in *. destruct out as [p|e].
  - destruct H as (data & Hat & Hmax).
    destruct (closeStream_other req w1 Hv) as (req1 & k & -> & -> & Hh & Hlen & Hmode).
    set (w2 := mkWorld _ _ _ _ _) in *.
    assert (captured_at w w2 (stream (BodyState req)) p data) as Hat2 by done.
    assert (world_ok w2) as Hw2 by by destruct Hw1.
    destruct (setRequestBody fails (req1, w2) p) as [req2 w3] eqn:Eset.
    destruct (setRequestBody_spec _ _ _ _ _ _ _ _ Hw2 Hat2 Eset)
      as (Hw3 & Hat3 & Hcl3 & Hh3 & Hl3 & Hm3 & Hg3 & Hpm3 & Hview).
    eexists _, _. split; [done|]. split; [done|]. exists data. split; [|split; [|done]].
    + destruct Hh as (A1 & A2 & A3 & A4), Hh3 as (B1 & B2 & B3 & B4). unfold same_head.
      constructor; try done; cbn [fst snd].
      * unfold same_head. destruct (ContentLength req <? 0); cbn; split_and!; congruence.
      * by destruct (ContentLength req <? 0).
      * by destruct (ContentLength req <? 0).
      * by destruct (ContentLength req <? 0).
      * destruct (ContentLength req <? 0); cbn; congruence.
      * by destruct (ContentLength req <? 0).
    + cbn [fst snd]. rewrite Hcl3. cbn. by rewrite Hcl.
  - destruct H as (Hf & Hc & He). eexists _, _. split; [done|]. split; [by apply closeStream_ok|].
    split; [|done]. by apply closeStream_fresh.
Qed.

(** ** Closing *)

(** Nothing is left of a request: its stream was closed exactly once, the files
    are the ones there were, and any body it captured is released. *)
Definition cleaned (st st' : state (R := R)) : Prop :=
  same_head st.1 st'.1 /\ stream (BodyState st'.1) = NoBody /\
  closes st'.2 = (opens st.1 + closes st.2)%nat /\
  files (fsys st'.2) = files (fsys st.2) /\
  forall q c, cells st'.2 !! q = Some c -> cells st.2 !! q = Some c \/ released c.

Lemma closeRequestBody_refused (st st' : state (R := R)) : fresh st.1 -> refused_request st st' ->
  cleaned st (closeRequestBody st').
Proof.
  intros [_ Hv] (Hh & Hf & Hc & Hm & Hs). destruct st' as [req w]. cbn [fst snd] in *.
  assert (forall v, stream (BodyState req) <> View v) as Hv'.
  { intros v. destruct Hs as [[-> _]|[-> _]]; [apply Hv|done]. }
  destruct (closeStream_other req w Hv') as (req1 & k & E & -> & Hh1 & _).
  assert (stream (BodyState req1) = NoBody /\ marker (BodyState req1) = None) as [Hn Hm1].
  { unfold closeStream in E. destruct (stream (BodyState req)) as [| |v] eqn:Es;
      [by injection E as <-|by injection E as <- _|by destruct (Hv' v)]. }
  unfold closeRequestBody. rewrite E. unfold CloseBody. rewrite Hm1.
  destruct Hh as (A1 & A2 & A3 & A4), Hh1 as (B1 & B2 & B3 & B4).
  split_and!; cbn [fst snd fsys cells closes]; try done.
  - unfold same_head. split_and!; congruence.
  - unfold opens. destruct Hs as [[-> ->]|[-> ->]]; [by unfold opens|done].
  - rewrite Hc. by left.
Qed.

Lemma closeRequestBody_captured (st st' : state (R := R)) p data :
  world_ok st'.2 -> captured_request st st' p data ->
  closes st'.2 = (opens st.1 + closes st.2)%nat -> cleaned st (closeRequestBody st').
Proof.
  intros Hw [Hh Hat _ Hm _ _ (v & Ev & Hvp & _)] Hcl. destruct st' as [req w]. cbn [fst snd] in *.
  unfold closeRequestBody, closeStream. rewrite Ev. unfold CloseBody. cbn [marker BodyState withBody setStream].
  rewrite Hm. destruct (closeView_spec v w Hw) as [He Hw1].
  pose proof (captured_at_evolves _ _ _ _ _ _ Hat He (closeView_views p v w Hvp))
    as (Hnone & Hother & _ & c & Ec & (Hopen & _) & Hf).
  destruct (Close_spec p _ c Hw1 Ec) as (_ & Ecl & (c' & Ec' & Hrel) & Hq & _ & Hfiles).
  split_and!; cbn [fst snd]; try done.
  - rewrite Ecl, (ev_closes _ _ He). done.
  - rewrite Hfiles, Hopen. cbn [orb]. destruct (path (content c) =? "")%string; [done|].
    destruct Hf as [Hn ->]. by rewrite delete_insert_id.
  - intros q d Eq. destruct (decide (q = p)) as [->|Hne].
    + right. rewrite Ec' in Eq. by injection Eq as <-.
    + left. by rewrite Hq, Hother in Eq.
Qed.
End Facts.

Section Claims.
Context {R : Type} (Read : reader R).
Context (fails : nat -> bool) (tempName : gset string -> string).
Context (sha256 : string -> string) (fuel : nat).

(** Capturing a request body: the body holds exactly the bytes the
    request's stream delivered, with their digest and size; the request gets a
    view of it at offset zero that delivers those bytes however it is read, and
    keeps an unknown length unknown; the stream is closed once.  A refusal
    leaves no file and no body. *)
Theorem CaptureRequestBody_captures (o : BodyOptions) (st st' : state (R := R)) (out : res nat) :
  keeps_length Read -> (forall X, tempName X ∉ X) -> (forall X, tempName X <> "") ->
  MaxSpoolBytes (normalizedBodyOptions o) < 2 ^ 62 -> (enough (normalizedBodyOptions o) <= fuel)%nat ->
  fresh st.1 -> world_ok sha256 st.2 ->
  CaptureRequestBody Read fails tempName sha256 fuel o st = Some (out, st') ->
  world_ok sha256 st'.2 /\
  match out with
  | Good p => exists data,
      (exists rest, drains (readStream Read st.2) (stream (BodyState st.1)) data rest) /\
      slen data <= MaxSpoolBytes (normalizedBodyOptions o) /\
      SHA256 st'.2 p = hex_encode (sha256 data) /\ Size st'.2 p = slen data /\
      ContentLength st'.1 = (if ContentLength st.1 <? 0 then -1 else slen data) /\
      closes st'.2 = (opens st.1 + closes st.2)%nat /\
      exists v, stream (BodyState st'.1) = View v /\
        (v = ErrorReader \/ forall got v', drains (viewRead st'.2) v got v' -> got = data)
  | Bad e => refused_request st st' /\
      Code e ∈ [CodeMalformedRequest; CodeOversizedBody; CodeBodyReadFailure]
  end.
Proof.
  intros H1 H2 H3 H4 H5 H6 H7 E.
  destruct (CaptureRequestBody_spec Read fails tempName sha256 fuel H1 H2 H3 o st H6 H7 H4 H5)
    as (out1 & st1 & E1 & Hw & H). rewrite E in E1. injection E1 as <- <-.
  split; [done|]. destruct out as [p|e]; [|done]. destruct H as (data & [_ Hat Hl Hm _ _ Hv] & Hcl & Hmax).
  exists data. pose proof Hat as (_ & _ & Hd & c & Ec & (_ & Hh & Hs & _) & _).
  split_and!; try done.
  - unfold SHA256. by rewrite Ec, Hh.
  - unfold Size. by rewrite Ec.
  - destruct Hv as (v & Ev & _ & Hv). exists v. split; [done|]. destruct Hv as [|[Ho Hr]]; [by left|right].
    intros got v' Hdr. apply view_drains in Hdr; [congruence|lia].
Qed.

(** Whether or not its body was captured, closing a request afterwards
    leaves nothing behind: its stream has been closed exactly once, the file
    system is as it was, and the captured body, if any, has given up its memory
    and its descriptors. *)
Theorem closeRequestBody_releases (o : BodyOptions) (st st' : state (R := R)) (out : res nat) :
  keeps_length Read -> (forall X, tempName X ∉ X) -> (forall X, tempName X <> "") ->
  MaxSpoolBytes (normalizedBodyOptions o) < 2 ^ 62 -> (enough (normalizedBodyOptions o) <= fuel)%nat ->
  fresh st.1 -> world_ok sha256 st.2 ->
  CaptureRequestBody Read fails tempName sha256 fuel o st = Some (out, st') ->
  cleaned st (closeRequestBody st').
Proof.
  intros H1 H2 H3 H4 H5 H6 H7 E.
  destruct (CaptureRequestBody_spec Read fails tempName sha256 fuel H1 H2 H3 o st H6 H7 H4 H5)
    as (out1 & st1 & E1 & Hw & H). rewrite E in E1. injection E1 as <- <-.
  destruct out as [p|e].
  - destruct H as (data & Hc & Hcl & _). by eapply closeRequestBody_captured.
  - destruct H as [H _]. by apply closeRequestBody_refused.
Qed.
End Claims.

(** ** Concrete inputs *)

Definition emptyWorld : World := mkWorld (mkFS ∅ 0) ∅ 0 0 0.
Definition samplePost (chunks : list string) : request (R := list string) :=
  mkRequest "POST" None "" ∅ (-1) (mkReqBody (Raw chunks) GetNil None None).
Definition capture (chunks : list string) : option (res nat * state (R := list string)) :=
  CaptureRequestBody chunkRead (fun _ => false) longerName (fun s => s)
    (enough sampleOptions) sampleOptions (samplePost chunks, emptyWorld).

Lemma emptyWorld_ok : world_ok (fun s => s) emptyWorld.
Proof. constructor; cbn; intros p; try intros q; intros; by rewrite lookup_empty in *. Qed.

(** The request captured from "abc", "def" into a file, and from too much. *)
Definition capturedSample : state (R := list string) :=
  (withBody (samplePost []) (mkReqBody (View (FileReader 0 0 0)) (GetView 0) (Some 0%nat) None),
   mkWorld (mkFS {["t" := "abcdef"]} 8) {[0%nat := mkCell (mkBody "" "t" 6 "abcdef" false) {[0%nat]}]} 1 1 1).

Lemma CaptureRequestBody_captures_witness :
  exists data v, stream (BodyState capturedSample.1) = View v /\
    SHA256 capturedSample.2 0 = hex_encode data /\ Size capturedSample.2 0 = slen data.
Proof.
  destruct (CaptureRequestBody_captures chunkRead (fun _ => false) longerName (fun s => s)
    (enough sampleOptions) sampleOptions (samplePost ["abc"; "def"], emptyWorld) capturedSample (Good 0%nat)
    chunkRead_length longerName_fresh ltac:(done) ltac:(vm_compute; reflexivity) ltac:(done)
    ltac:(split; [done|by intros v]) emptyWorld_ok ltac:(vm_compute; reflexivity))
    as (_ & data & _ & _ & H1 & H2 & _ & _ & v & Hv & _).
  by exists data, v.
Defined.

Lemma closeRequestBody_releases_witness :
  cleaned (samplePost ["abc"; "def"], emptyWorld) (closeRequestBody capturedSample) /\
  (closeRequestBody capturedSample).2.(fsys).(files) = ∅.
Proof.
  split; [|vm_compute; reflexivity].
  exact (closeRequestBody_releases chunkRead (fun _ => false) longerName (fun s => s)
    (enough sampleOptions) sampleOptions (samplePost ["abc"; "def"], emptyWorld) capturedSample (Good 0%nat)
    chunkRead_length longerName_fresh ltac:(done) ltac:(vm_compute; reflexivity) ltac:(done)
    ltac:(split; [done|by intros v]) emptyWorld_ok ltac:(vm_compute; reflexivity)).
Defined.
End Sigv4Request.
