(* ===== verification/Sigv4Verify.v ===== *)
(** * Inbound SigV4 verification (internal/sigv4: verify.go)

    [NewVerifier] and [Verify] in the order of the source: the endpoint and
    query checks, the parsed Authorization header, the run's fake credential,
    the signing time, the captured body with its digest, and the signature over
    the canonical request.  HMAC, [http.ParseTime] and IDNA are parameters; the
    clock is the time it reads.  A nil context never ends. *)

From Stdlib Require Import ZArith Lia Ascii.
From stdpp Require Import base gmap strings list.
From S2P Require Import Prelude GoStrings GoEncoding AwsTypes Endpoint.
From S2P Require Import GoTime Credentials Sigv4Canonical Sigv4Body Sigv4Request.

Module Sigv4Verify.
Import AwsTypes.AwsTypes GoTime.GoTime Credentials.Credentials.
Import Sigv4Canonical.Sigv4Canonical Sigv4Body.Sigv4Body Sigv4Request.Sigv4Request.

(** ** Options *)

(** [Clock] is the time the clock reads, if there is one. *)
Record VerifyOptions := mkVerifyOptions {
  Clock : option Time; MaxClockSkew : Z;
  MaxInMemoryBodyBytes : Z; MaxSpoolBodyBytes : Z;
  AllowUnsignedPayload : bool;
}.
Definition VerifyOption : Type := VerifyOptions -> VerifyOptions.

Definition WithClock (clock : option Time) : VerifyOption := fun o =>
  mkVerifyOptions clock (MaxClockSkew o) (MaxInMemoryBodyBytes o) (MaxSpoolBodyBytes o) (AllowUnsignedPayload o).
Definition WithClockSkew (skew : Z) : VerifyOption := fun o =>
  mkVerifyOptions (Clock o) skew (MaxInMemoryBodyBytes o) (MaxSpoolBodyBytes o) (AllowUnsignedPayload o).
Definition WithBodyLimits (memory spool : Z) : VerifyOption := fun o =>
  mkVerifyOptions (Clock o) (MaxClockSkew o) memory spool (AllowUnsignedPayload o).
Definition WithAllowUnsignedPayload (allow : bool) : VerifyOption := fun o =>
  mkVerifyOptions (Clock o) (MaxClockSkew o) (MaxInMemoryBodyBytes o) (MaxSpoolBodyBytes o) allow.
Definition WithUnsignedPayload : VerifyOption := WithAllowUnsignedPayload true.

Definition defaultClockSkew : Z := 5 * Minute.

Record Verifier := mkVerifier { fake : FakeCredential; options : VerifyOptions }.

Definition validateFakeCredential (f : FakeCredential) : res unit :=
  let bad extra s := bytes_any (fun c => (c =? 0) || (c =? 13) || (c =? 10) || in_set extra c) s in
  if (slen (AccessKeyID f) <? 16) || (128 <? slen (AccessKeyID f)) || bad " /" (AccessKeyID f)
  then newError CodeMalformedCredential "fake access key is malformed"
  else if (SecretAccessKey f =? "")%string || (512 <? slen (SecretAccessKey f)) || bad "" (SecretAccessKey f)
  then newError CodeMalformedCredential "fake secret is malformed"
  else if (SessionToken f =? "")%string || (4096 <? slen (SessionToken f)) || bad "" (SessionToken f)
  then newError CodeMalformedCredential "fake session token is malformed"
  else Good tt.

(** [NewVerifier]; [now] is the system clock. *)
Definition NewVerifier (now : Time) (f : FakeCredential) (opts : list (option VerifyOption)) : res Verifier :=
  let selected := mkVerifyOptions None defaultClockSkew defaultBodyMemory defaultBodySpool false in
  let selected := fold_left (fun o opt => match opt with Some g => g o | None => o end) opts selected in
  let selected := match Clock selected with None => WithClock (Some now) selected | Some _ => selected end in
  _ ← validateFakeCredential f;
  if (MaxClockSkew selected <=? 0) || (24 * Hour <? MaxClockSkew selected)
  then newError CodeMalformedRequest "clock skew limit is invalid"
  else if (MaxInMemoryBodyBytes selected <=? 0) || (MaxSpoolBodyBytes selected <=? 0) ||
          (MaxSpoolBodyBytes selected <? MaxInMemoryBodyBytes selected)
  then newError CodeMalformedRequest "body limits are invalid"
  else Good (mkVerifier f selected).

(** ** Headers *)

Section Headers.
Context `{U : UnicodeTables}.

(** [requestHeader] over the entries in the order they are ranged over: the
    value, and whether it is present and duplicated. *)
Fixpoint requestHeaderIn (entries : list (string * list string)) (name : string)
    (value : string) (present : bool) : string * bool * bool :=
  match entries with
  | [] => (value, present, false)
  | (key, values) :: entries =>
    if negb (EqualFold key name) then requestHeaderIn entries name value present
    else match values with
         | [v] => if present then (EmptyString, true, true) else requestHeaderIn entries name v true
         | _ => (EmptyString, true, true)
         end
  end.
Definition requestHeader (h : header) (name : string) : string * bool * bool :=
  requestHeaderIn (map_to_list h) name EmptyString false.

(** ** The Authorization header *)

(** [strings.Split] at a separator of two bytes. *)
Fixpoint split2 (a b : Z) (s : string) : list string :=
  match s with
  | EmptyString => [EmptyString]
  | String x s1 =>
    match s1 with
    | EmptyString => [String x EmptyString]
    | String y s2 =>
      if (ord x =? a) && (ord y =? b) then EmptyString :: split2 a b s2
      else match split2 a b s1 with
           | part :: parts => String x part :: parts
           | [] => [String x EmptyString]
           end
    end
  end.

Definition badGrammar {A} : res A := newError CodeMalformedAuthorization "authorization grammar is invalid".

(** One of the three parts, by its name. *)
Definition authorizationPart (name part : string) : res string :=
  let '(key, item, ok) := Cut part "=" in
  if negb ok || (item =? "")%string || bytes_any (Z.eqb (ord "=")) item then badGrammar
  else if negb (key =? name)%string then badGrammar
  else Good item.

(** Algorithm, credential, signed headers and signature. *)
Definition parseAuthorization (value : string) : res (string * string * string * string) :=
  match index_byte value (ord " ") with
  | None => badGrammar
  | Some space =>
    if (space =? 0)%nat || (Z.of_nat space =? slen value - 1) then badGrammar
    else
      let algorithm := str_take space value in
      let rest := str_drop (S space) value in
      match split2 (ord ",") (ord " ") rest with
      | [p0; p1; p2] =>
        credential ← authorizationPart "Credential" p0;
        signedHeaders ← authorizationPart "SignedHeaders" p1;
        signature ← authorizationPart "Signature" p2;
        if negb (slen signature =? 64) || negb (bytes_all (fun c => 0 <=? hexValue c) signature)
        then newError CodeMalformedAuthorization "signature encoding is invalid"
        else Good (algorithm, credential, signedHeaders, signature)
      | _ => badGrammar
      end
  end.

(** Access key, date, Region and service. *)
Definition parseCredential (value : string) : res (string * string * string * string) :=
  match Split value "/" with
  | [key; date; region; service; terminator] =>
    if (key =? "")%string || negb (terminator =? "aws4_request")%string
    then newError CodeMalformedCredential "credential scope is malformed"
    else if negb (slen date =? 8) || negb (bytes_all is_digit date)
    then newError CodeMalformedCredential "credential date is malformed"
    else Good (key, date, region, service)
  | _ => newError CodeMalformedCredential "credential scope is malformed"
  end.

Definition containsString (values : list string) (value : string) : bool :=
  existsb (fun item => (item =? value)%string) values.

(** The loop of [parseSignedHeaders]; [last] is the name before, if any. *)
Fixpoint signedHeadersSorted (last : option string) (parts : list string) : bool :=
  match parts with
  | [] => true
  | part :: parts =>
    validHeaderName part && (part =? ToLower part)%string &&
    match last with Some l => negb (str_leb part l) | None => true end &&
    signedHeadersSorted (Some part) parts
  end.
Definition parseSignedHeaders (value : string) : res (list string) :=
  if (value =? "")%string || bytes_any (Z.eqb (ord " ")) value
  then newError CodeMalformedAuthorization "signed headers grammar is invalid"
  else
    let parts := Split value ";" in
    if negb (signedHeadersSorted None parts)
    then newError CodeMalformedAuthorization "signed headers are not sorted"
    else if negb (containsString parts "host")
    then newError CodeMalformedAuthorization "signed host header is missing"
    else Good parts.

(** ** The signing time *)

Definition requestSigningTime (ParseTime : string -> option Time) (h : header) : res (string * Time) :=
  let '(value, present, duplicate) := requestHeader h "x-amz-date" in
  if duplicate then newError CodeInvalidTimestamp "x-amz-date is duplicated"
  else if present then
    if (value =? "")%string then newError CodeInvalidTimestamp "x-amz-date is empty"
    else match parseAmz (TrimSpace value) with
         | None => newError CodeInvalidTimestamp "x-amz-date is malformed"
         | Some parsed => Good ("x-amz-date", parsed)
         end
  else
    let '(value, present, duplicate) := requestHeader h "date" in
    if duplicate || negb present || (value =? "")%string
    then newError CodeInvalidTimestamp "request date is unavailable"
    else match ParseTime (TrimSpace value) with
         | None => newError CodeInvalidTimestamp "request date is malformed"
         | Some parsed => Good ("date", parsed)
         end.

(** ** Endpoint and scope *)

Definition verifyRequestEndpoint {B} (ToASCII : string -> result string) (req : Request B)
    (endpoint : AWSEndpoint) : res unit :=
  match Url req with
  | None => newError CodeEndpointMismatch "request authority is unavailable"
  | Some u =>
    if User u then newError CodeEndpointMismatch "request authority contains user information"
    else
      let host := if (Host req =? "")%string then u_Host u else Host req in
      if (host =? "")%string then newError CodeEndpointMismatch "request host is unavailable"
      else match Endpoint.NormalizeEndpointHost ToASCII host with
      | Err _ => newError CodeEndpointMismatch "request host does not match endpoint"
      | Ok (name, port) =>
        if negb (port =? 443) || negb (name =? ep_Host endpoint)%string
        then newError CodeEndpointMismatch "request host does not match endpoint"
        else if negb (Host req =? "")%string && negb (u_Host u =? "")%string then
          match Endpoint.NormalizeEndpointHost ToASCII (u_Host u) with
          | Err _ => newError CodeEndpointMismatch "request URL authority does not match host"
          | Ok (urlName, urlPort) =>
            if negb (urlName =? name)%string || negb (urlPort =? port)
            then newError CodeEndpointMismatch "request URL authority does not match host"
            else Good tt
          end
        else Good tt
      end
  end.

Definition verifySignedHost {B} (ToASCII : string -> result string) (req : Request B)
    (signed : list string) (endpoint : AWSEndpoint) : res unit :=
  if negb (containsString signed "host")
  then newError CodeMalformedAuthorization "signed host header is missing"
  else
    value ← signedHeaderValue req "host";
    match Endpoint.NormalizeEndpointHost ToASCII value with
    | Err _ => newError CodeEndpointMismatch "signed host does not match endpoint"
    | Ok (name, port) =>
      if negb (port =? 443) || negb (name =? ep_Host endpoint)%string
      then newError CodeEndpointMismatch "signed host does not match endpoint"
      else Good tt
    end.

Definition verifySigningScope (endpoint : AWSEndpoint) (region service : string) : res unit :=
  let expectedService :=
    if (ep_SigningService endpoint =? "")%string then ep_Service endpoint else ep_SigningService endpoint in
  if negb (service =? expectedService)%string
  then newError CodeEndpointMismatch "credential service does not match endpoint signing identity"
  else
    let expectedRegion :=
      if (ep_SigningRegion endpoint =? "")%string && negb (IsGlobal endpoint) then ep_Region endpoint
      else ep_SigningRegion endpoint in
    if (expectedRegion =? "")%string || negb (region =? expectedRegion)%string
    then newError CodeEndpointMismatch "credential Region does not match endpoint signing identity"
    else Good tt.

Definition validScopeRegion (region : string) : bool :=
  if (region =? "")%string || (64 <? slen region) ||
     bytes_any (fun c => in_set "/ " c || (c =? 0) || (c =? 13) || (c =? 10)) region
  then false
  else forallb (fun c => is_lower c || is_digit c || (c =? ord "-")) (runes region).

Definition validScopeService (service : string) : bool :=
  (slen service <=? 128) && err_nil (ValidateSigningService service).

(** ** The query *)

Definition signingKeys : list string :=
  ["x-amz-algorithm"; "x-amz-credential"; "x-amz-signature"; "x-amz-signedheaders";
   "x-amz-expires"; "x-amz-date"; "x-amz-security-token"].

(** [None] is an invalid escape. *)
Fixpoint querySigningIn (parts : list string) : option bool :=
  match parts with
  | [] => Some false
  | part :: parts =>
    match percentDecodeQuery (cutQuery part).1 with
    | None => None
    | Some decoded => if mem_str (ToLower decoded) signingKeys then Some true else querySigningIn parts
    end
  end.
Definition querySigningPresent (raw : string) : option bool :=
  if (raw =? "")%string then Some false else querySigningIn (Split raw "&").

(** ** Content types *)

Definition mediaType (value : string) : string :=
  match SplitN value ";" 2 with first :: _ => TrimSpace first | [] => EmptyString end.
Definition isEventStreamContentType (value : string) : bool :=
  EqualFold (mediaType value) "application/vnd.amazon.eventstream" ||
  EqualFold (mediaType value) "application/x-amz-event-stream".

Definition inferProtocol {B} (req : Request B) : string :=
  let contentType := ToLower (mediaType (header_Get (Header req) "Content-Type")) in
  if (contentType =? "application/x-amz-json-1.0")%string then ProtocolJSON10
  else if (contentType =? "application/x-amz-json-1.1")%string then ProtocolJSON11
  else if (contentType =? "application/x-www-form-urlencoded")%string then ProtocolQuery
  else if (contentType =? "application/xml")%string || (contentType =? "text/xml")%string
  then ProtocolRESTXML
  else ProtocolRESTJSON.
End Headers.

(** [hex.DecodeString]. *)
Fixpoint hexDecodeString (s : string) : option string :=
  match s with
  | EmptyString => Some EmptyString
  | String a (String b s) =>
    if (hexValue (ord a) <? 0) || (hexValue (ord b) <? 0) then None
    else String (chr (hexValue (ord a) * 16 + hexValue (ord b))) <$> hexDecodeString s
  | String _ EmptyString => None
  end.

Section Signature.
Context (hmac : string -> string -> string).

Definition signingKey (secret date region service stringToSign : string) : string :=
  let dateKey := hmac ("AWS4" ++ secret) date in
  let regionKey := hmac dateKey region in
  let serviceKey := hmac regionKey service in
  let requestKey := hmac serviceKey "aws4_request" in
  hmac requestKey stringToSign.
End Signature.

(** ** Verification *)

Definition emptyPayloadHash : string := "e3b0c44298fc1c149afbf4c8996fb92427ae41e4649b934ca495991b7852b855".
Definition algorithmName : string := "AWS4-HMAC-SHA256".
Definition streamingModes : list string :=
  ["STREAMING-AWS4-HMAC-SHA256-PAYLOAD"; "STREAMING-AWS4-HMAC-SHA256-PAYLOAD-TRAILER";
   "AWS4-HMAC-SHA256-PAYLOAD"; "AWS4-HMAC-SHA256-PAYLOAD-TRAILER"].

Section Verification.
Context `{U : UnicodeTables} {R : Type} (Read : reader R).
Context (fails : nat -> bool) (tempName : gset string -> string) (fuel : nat).
Context (sha256 : string -> string) (hmac : string -> string -> string).
Context (ParseTime : string -> option Time) (ToASCII : string -> result string).

Notation state := (Sigv4Request.state (R := R)).
Notation request := (Sigv4Request.request (R := R)).

(** Steps over a request and its world; [None] when the fuel runs out. *)
Definition M (A : Type) : Type := state -> option (res A * state).
#[export] Instance M_ret : MRet M := fun A a st => Some (Good a, st).
#[export] Instance M_bind : MBind M := fun A B f m st =>
  match m st with
  | None => None
  | Some (Bad e, st) => Some (Bad e, st)
  | Some (Good a, st) => f a st
  end.
Definition lift {A} (r : res A) : M A := fun st => Some (r, st).
Definition reject {A} (code detail : string) : M A := lift (newError code detail).
Definition require (b : bool) (code detail : string) : M unit := if b then mret tt else reject code detail.
Definition current : M request := fun st => Some (Good st.1, st).
Definition update (f : state -> state) : M unit := fun st => Some (Good tt, f st).

(** [_ = body.Close()] before an error is returned. *)
Definition closing {A} (p : nat) (m : M A) : M A := fun st =>
  match m st with
  | Some (Bad e, (req, w)) => Some (Bad e, (req, Close p w))
  | r => r
  end.

(** [v.payload], with the body it returns next to an error; the mode returned
    with an error is not used. *)
Definition payloadRefused (code detail : string) : M (nat * string * string) :=
  _ ← update closeRequestBody; reject code detail.

Definition captureFor (v : Verifier) : M nat :=
  CaptureRequestBody Read fails tempName sha256 fuel
    (mkBodyOptions (MaxInMemoryBodyBytes (options v)) (MaxSpoolBodyBytes (options v))).

(** The comparison of the declared hash with the body's, after capture. *)
Definition checkPayloadHash (p : nat) (value : string) : M (nat * string * string) := fun st =>
  let w := st.2 in
  let actual := SHA256 w p in
  let value := if (value =? "")%string then actual else value in
  let same := match hexDecodeString value, hexDecodeString actual with
              | Some provided, Some actualBytes =>
                (slen provided =? 32) && (slen actualBytes =? 32) && (provided =? actualBytes)%string
              | _, _ => false
              end in
  if negb same
  then closing p (reject CodeInvalidSignature "payload hash does not match request body") st
  else
    let mode := if (Size w p =? 0) && EqualFold value emptyPayloadHash
                then PayloadHashEmpty else PayloadHashSHA256 in
    Some (Good (p, value, mode), st).

Definition payload (v : Verifier) : M (nat * string * string) :=
  req ← current;
  let '(contentType, present, duplicate) := requestHeader (Header req) "content-type" in
  if duplicate then payloadRefused CodeMalformedRequest "content type is duplicated"
  else if present && isEventStreamContentType contentType
  then payloadRefused CodeUnsupportedPayload "event stream payloads are unsupported"
  else
    let '(value, present, duplicate) := requestHeader (Header req) "x-amz-content-sha256" in
    if duplicate then payloadRefused CodeMalformedRequest "payload hash header is duplicated"
    else
      let value := TrimSpace value in
      if present && (value =? "UNSIGNED-PAYLOAD")%string && negb (AllowUnsignedPayload (options v))
      then payloadRefused CodeUnsupportedPayload "unsigned payloads are disabled"
      else if present && mem_str value streamingModes
      then payloadRefused CodeUnsupportedPayload "streaming payloads are unsupported"
      else if present && (value =? "")%string
      then payloadRefused CodeUnsupportedPayload "payload hash is empty"
      else if present && negb (value =? "UNSIGNED-PAYLOAD")%string && negb (validPayloadHash value)
      then payloadRefused CodeUnsupportedPayload "payload hash encoding is unsupported"
      else
        p ← captureFor v;
        if (value =? "UNSIGNED-PAYLOAD")%string then mret (p, value, PayloadHashUnsigned)
        else checkPayloadHash p value.

Definition setPayloadMode (mode : string) : M unit := update (fun st =>
  let b := BodyState st.1 in
  (withBody st.1 (mkReqBody (stream b) (getBody b) (marker b) (Some mode)), st.2)).

(** [awsrequest.VerifiedRequest], without the request it carries. *)
Record VerifiedRequest := mkVerified {
  vr_Endpoint : AWSEndpoint; vr_Protocol : string; vr_SigningScheme : string;
  vr_SigningRegion : string; vr_SigningService : string; vr_PayloadMode : string;
}.

(** The checks of the Authorization header and the run's credential. *)
Definition authenticate (v : Verifier) (req : request) (endpoint : AWSEndpoint)
  : M (string * string * string * string * string) :=
  let '(authorization, present, duplicate) := requestHeader (Header req) "authorization" in
  _ ← require (negb duplicate) CodeMalformedAuthorization "authorization is duplicated";
  _ ← require (present && negb (authorization =? "")%string)
        CodeUnsupportedSigning "request authentication is unsupported";
  _ ← require (match index_byte authorization (ord " ") with
               | Some 0%nat => true
               | Some space => (str_take space authorization =? algorithmName)%string
               | None => HasPrefix authorization algorithmName
               end) CodeUnsupportedSigning "request signing algorithm is unsupported";
  '(algorithm, credentialText, signedText, signature) ← lift (parseAuthorization authorization);
  _ ← require (algorithm =? algorithmName)%string
        CodeUnsupportedSigning "request signing algorithm is unsupported";
  '(accessKey, scopeDate, scopeRegion, scopeService) ← lift (parseCredential credentialText);
  _ ← require (accessKey =? AccessKeyID (fake v))%string
        CodeInvalidCredential "fake access key is invalid";
  let '(token, tokenPresent, tokenDuplicate) := requestHeader (Header req) "x-amz-security-token" in
  _ ← require (negb tokenDuplicate && tokenPresent && negb (token =? "")%string &&
               (token =? SessionToken (fake v))%string)
        CodeInvalidCredential "fake session token is invalid";
  _ ← require (validScopeRegion scopeRegion && validScopeService scopeService)
        CodeMalformedCredential "credential scope is malformed";
  _ ← lift (verifySigningScope endpoint scopeRegion scopeService);
  mret (scopeDate, scopeRegion, scopeService, signedText, signature).

(** The signing time against the scope, the clock and the signed names. *)
Definition checkTime (v : Verifier) (req : request) (scopeDate signedText : string)
  : M (list string * Time) :=
  signedHeaders ← lift (parseSignedHeaders signedText);
  '(dateName, signingTime) ← lift (requestSigningTime ParseTime (Header req));
  _ ← require (formatDate signingTime =? scopeDate)%string
        CodeMalformedCredential "credential date does not match request date";
  let now := default zeroTime (Clock (options v)) in
  _ ← require (negb (IsZero now)) CodeInvalidTimestamp "verification clock is invalid";
  let delta := Sub now signingTime in
  let skew := MaxClockSkew (options v) in
  _ ← require (negb ((skew <? delta) || (delta <? - skew)))
        CodeStaleTimestamp "request timestamp is outside the allowed skew";
  _ ← require (containsString signedHeaders dateName)
        CodeMalformedAuthorization "request date is not signed";
  _ ← require (containsString signedHeaders "x-amz-security-token")
        CodeMalformedAuthorization "session token is not signed";
  mret (signedHeaders, signingTime).

Definition stringToSign (signingTime : Time) (scopeDate scopeRegion scopeService hash : string) : string :=
  Join [algorithmName; formatAmz signingTime;
        (scopeDate ++ "/" ++ scopeRegion ++ "/" ++ scopeService ++ "/aws4_request")%string; hash] newline.

(** The body, the canonical request and the signature. *)
Definition checkSignature (v : Verifier) (signedHeaders : list string) (signingTime : Time)
    (scopeDate scopeRegion scopeService signature : string) : M string :=
  '(p, payloadHash, payloadMode) ← payload v;
  closing p (
    req ← current;
    canonical ← lift (BuildCanonicalRequest sha256 (Some req) signedHeaders payloadHash);
    let text := stringToSign signingTime scopeDate scopeRegion scopeService (Hash canonical) in
    let expected := signingKey hmac (SecretAccessKey (fake v)) scopeDate scopeRegion scopeService text in
    match hexDecodeString signature with
    | Some provided =>
      _ ← require ((slen provided =? 32) && (provided =? expected)%string)
            CodeInvalidSignature "request signature is invalid";
      mret payloadMode
    | None => reject CodeInvalidSignature "request signature is invalid"
    end).

(** [Verify] after the deferred cleanup is in place. *)
Definition verifyBody (v : Verifier) (cancelled : bool) (endpoint : AWSEndpoint) : M VerifiedRequest :=
  req ← current;
  _ ← require (negb cancelled) CodeMalformedRequest "verification was cancelled";
  match Url req with
  | None => reject CodeMalformedRequest "request URL is unavailable"
  | Some u =>
    _ ← require (err_nil (Endpoint_Validate endpoint))
          CodeEndpointMismatch "endpoint metadata is invalid";
    _ ← lift (verifyRequestEndpoint ToASCII req endpoint);
    match querySigningPresent (RawQuery u) with
    | None => reject CodeMalformedRequest "request query is malformed"
    | Some true => reject CodeUnsupportedSigning "query presigning is unsupported"
    | Some false =>
      '(scopeDate, scopeRegion, scopeService, signedText, signature) ← authenticate v req endpoint;
      '(signedHeaders, signingTime) ← checkTime v req scopeDate signedText;
      _ ← lift (verifySignedHost ToASCII req signedHeaders endpoint);
      payloadMode ← checkSignature v signedHeaders signingTime scopeDate scopeRegion scopeService signature;
      _ ← setPayloadMode payloadMode;
      mret (mkVerified endpoint (inferProtocol req) SigningHeaderV4 scopeRegion scopeService payloadMode)
    end
  end.

(** [Verify] on a request that is not nil: the deferred cleanup runs unless the
    request was verified. *)
Definition Verify (v : option Verifier) (cancelled : bool) (endpoint : AWSEndpoint) : M VerifiedRequest :=
  fun st =>
  match v with
  | None => reject CodeMalformedRequest "verifier is unavailable" st
  | Some v =>
    match verifyBody v cancelled endpoint st with
    | Some (Bad e, st) => Some (Bad e, closeRequestBody st)
    | r => r
    end
  end.

(** [VerifyRequest], the functional form, and its alias [Verify]. *)
Definition VerifyRequest (now : Time) (cancelled : bool) (endpoint : AWSEndpoint) (f : FakeCredential)
    (opts : list (option VerifyOption)) : M VerifiedRequest :=
  verifier ← lift (NewVerifier now f opts);
  Verify (Some verifier) cancelled endpoint.

(** [VerifiedRequest.Validate] of package awsrequest, the request not being
    nil. *)
Definition VerifiedRequest_Validate (r : VerifiedRequest) : option error :=
  match Endpoint_Validate (vr_Endpoint r) with
  | Some err => Some (ErrWrap "endpoint: %w" [] err)
  | None =>
    if negb (protocolSupported (vr_Protocol r))
    then Some (ErrFmt "unsupported AWS protocol %q" [vr_Protocol r])
    else if negb (schemeSupported (vr_SigningScheme r))
    then Some (ErrFmt "unsupported signing scheme %q" [vr_SigningScheme r])
    else if (vr_SigningRegion r =? "")%string || (vr_SigningService r =? "")%string
    then Some (ErrNew "signing Region and service are required")
    else if negb (ep_SigningService (vr_Endpoint r) =? "")%string &&
            (negb (vr_SigningService r =? ep_SigningService (vr_Endpoint r))%string ||
             negb (vr_SigningRegion r =? ep_SigningRegion (vr_Endpoint r))%string)
    then Some (ErrNew "authenticated signing identity disagrees with endpoint")
    else if negb (payloadValid (vr_PayloadMode r))
    then Some (ErrFmt "unsupported payload mode %q" [vr_PayloadMode r])
    else None
  end.
End Verification.
End Sigv4Verify.
