(* ===== verification/Sigv4Soundness.v ===== *)
(** * What SigV4 verification guarantees (internal/sigv4: verify.go)

    Soundness of [Verify], the binding of a signature to its request, the
    cleanup of every failure, and the round trips of the parsed texts. *)

From Stdlib Require Import ZArith Lia Ascii.
From stdpp Require Import base gmap strings list.
From S2P Require Import Prelude GoStrings GoEncoding AwsTypes Endpoint.
From S2P Require Import GoTime Credentials Sigv4Canonical Sigv4Body Sigv4Request.
From S2P Require Import Sigv4Verify.

Module Sigv4Soundness.
Import AwsTypes.AwsTypes GoTime.GoTime Credentials.Credentials.
Import Sigv4Canonical.Sigv4Canonical Sigv4Body.Sigv4Body Sigv4Request.Sigv4Request Sigv4Verify.Sigv4Verify.

(** ** Texts *)

Lemma string_two_ind (P : string -> Prop) :
  P "" -> (forall a, P (String a "")) -> (forall a b s, P s -> P (String b s) -> P (String a (String b s))) ->
  forall s, P s.
Proof.
  intros H0 H1 H2 s. assert (P s /\ forall a, P (String a s)) as [H _]; [|done].
  induction s as [|b s [IH1 IH2]]; [by split|]. split; [apply IH2|]. intros a. apply H2; [done|apply IH2].
Qed.

Definition sep2 (a b : ascii) : string := String a (String b EmptyString).

Lemma split2_cons a b x y s : split2 a b (String x (String y s)) =
  if (ord x =? a) && (ord y =? b) then EmptyString :: split2 a b s
  else match split2 a b (String y s) with part :: parts => String x part :: parts | [] => [String x EmptyString] end.
Proof. reflexivity. Qed.

Lemma split2_nonnil a b s : split2 a b s <> [].
Proof.
  induction s as [|x|x y s IH1 IH2] using string_two_ind; [done..|].
  rewrite split2_cons. destruct (_ && _); [done|].
  by destruct (split2 a b (String y s)).
Qed.

Lemma Join_split2 a b s : Join (split2 (ord a) (ord b) s) (sep2 a b) = s.
Proof.
  induction s as [|x|x y s IH1 IH2] using string_two_ind; [done..|].
  rewrite split2_cons. destruct ((ord x =? ord a) && (ord y =? ord b)) eqn:E.
  - apply andb_true_iff in E as [E1%Z.eqb_eq%ord_inj E2%Z.eqb_eq%ord_inj]. subst x y.
    pose proof (split2_nonnil (ord a) (ord b) s). destruct (split2 (ord a) (ord b) s) as [|p ps]; [done|].
    change (Join ("" :: p :: ps) (sep2 a b)) with ("" ++ sep2 a b ++ Join (p :: ps) (sep2 a b))%string.
    by rewrite IH1.
  - destruct (split2 (ord a) (ord b) (String y s)) as [|p ps] eqn:Es; [by apply split2_nonnil in Es|].
    destruct ps as [|q ps]; [cbn in IH2 |- *; by rewrite IH2|].
    change (Join (p :: q :: ps) (sep2 a b)) with (p ++ sep2 a b ++ Join (q :: ps) (sep2 a b))%string in IH2.
    change (Join (String x p :: q :: ps) (sep2 a b)) with (String x (p ++ sep2 a b ++ Join (q :: ps) (sep2 a b))).
    by rewrite IH2.
Qed.

(** Text without the separator's first byte is not split. *)
Lemma split2_plain a b s : count_byte s (ord a) = 0 -> split2 (ord a) (ord b) s = [s].
Proof.
  induction s as [|x|x y s _ IH] using string_two_ind; [done..|]. cbn [count_byte].
  pose proof (count_byte_nonneg s (ord a)). destruct (Z.eqb_spec (ord x) (ord a)); [destruct (ord y =? ord a); lia|].
  intros Hc. rewrite split2_cons. rewrite (proj2 (Z.eqb_neq (ord x) (ord a))) by done. cbn [andb].
  rewrite IH; [done|]. cbn [count_byte]. lia.
Qed.

Lemma split2_app a b s t : count_byte s (ord a) = 0 ->
  split2 (ord a) (ord b) (s ++ sep2 a b ++ t) = s :: split2 (ord a) (ord b) t.
Proof.
  induction s as [|x s IH]; intros Hc.
  - change ("" ++ sep2 a b ++ t)%string with (String a (String b t)). rewrite split2_cons. by rewrite !Z.eqb_refl.
  - cbn [count_byte] in Hc. pose proof (count_byte_nonneg s (ord a)).
    destruct (Z.eqb_spec (ord x) (ord a)); [lia|]. specialize (IH ltac:(lia)).
    change (String x s ++ sep2 a b ++ t)%string with (String x (s ++ sep2 a b ++ t)).
    destruct (s ++ sep2 a b ++ t)%string as [|y u] eqn:E; [by destruct s|].
    rewrite split2_cons, (proj2 (Z.eqb_neq (ord x) (ord a))) by done. cbn [andb].
    by rewrite IH.
Qed.

Definition credentialText (key date region service : string) : string :=
  (key ++ "/" ++ date ++ "/" ++ region ++ "/" ++ service ++ "/aws4_request")%string.
Definition authorizationText (algorithm credential signedHeaders signature : string) : string :=
  (algorithm ++ " Credential=" ++ credential ++ ", SignedHeaders=" ++ signedHeaders ++
   ", Signature=" ++ signature)%string.

Lemma authorizationPart_inv name part item : authorizationPart name part = Good item <->
  part = (name ++ String "=" item)%string /\ count_byte name (ord "=") = 0 /\ item <> "" /\
  bytes_any (Z.eqb (ord "=")) item = false.
Proof.
  unfold authorizationPart. destruct (Cut part "=") as [[k v] ok] eqn:E. split.
  - destruct ok; cbn [negb orb]; [|done]. destruct (v =? "")%string eqn:Ev; [done|].
    destruct (bytes_any _ v) eqn:Eb; [done|]. cbn [orb]. destruct (k =? name)%string eqn:Ek; [|done].
    cbn [negb]. intros [= <-]. apply eqb_true_str in Ek as ->. apply eqb_false_str in Ev.
    apply Cut_join in E as [-> Hc]. done.
  - intros (-> & Hc & Hi & Hb). rewrite (proj2 (Cut_join _ _ name item)) in E by done.
    injection E as <- <- <-. rewrite Hb, (proj2 (eqb_false_str item "")), (proj2 (eqb_true_str name name)) by done. done.
Qed.

Definition signature_ok (signature : string) : Prop :=
  slen signature = 64 /\ bytes_all (fun c => 0 <=? hexValue c) signature = true.

Lemma parseAuthorization_inv value algorithm credential signedHeaders signature :
  parseAuthorization value = Good (algorithm, credential, signedHeaders, signature) ->
  value = authorizationText algorithm credential signedHeaders signature /\ signature_ok signature.
Proof.
  unfold parseAuthorization. destruct (index_byte value (ord " ")) as [i|] eqn:Ei; [|done].
  case_if; [done|]. apply index_byte_split in Ei as (l & b & r & -> & <- & Hb & Hc). apply ord_inj in Hb as ->.
  rewrite str_take_app, str_drop_app.
  destruct (split2 (ord ",") (ord " ") r) as [|p0 [|p1 [|p2 [|]]]] eqn:Es; try done.
  destruct (authorizationPart "Credential" p0) as [c|] eqn:E0; [|done].
  destruct (authorizationPart "SignedHeaders" p1) as [h|] eqn:E1; [|done].
  destruct (authorizationPart "Signature" p2) as [s|] eqn:E2; [|done]. cbn [mbind res_bind].
  destruct (negb (slen s =? 64) || _) eqn:Eh; [done|]. intros [= <- <- <- <-].
  apply orb_false_iff in Eh as [E3%negb_false_iff%Z.eqb_eq E4%negb_false_iff].
  apply authorizationPart_inv in E0 as (-> & _), E1 as (-> & _), E2 as (-> & _).
  split; [|done]. pose proof (Join_split2 "," " " r) as Hj. rewrite Es in Hj. rewrite <-Hj. done.
Qed.

Lemma parseCredential_inv value key date region service :
  parseCredential value = Good (key, date, region, service) ->
  value = credentialText key date region service /\ key <> "" /\ slen date = 8 /\ bytes_all is_digit date = true.
Proof.
  unfold parseCredential. destruct (Split value "/") as [|k [|d [|r [|s [|t [|]]]]]] eqn:Es; try done.
  destruct ((k =? "")%string || _) eqn:E1; [done|]. destruct (negb (slen d =? 8) || _) eqn:E2; [done|].
  intros [= <- <- <- <-]. apply orb_false_iff in E1 as [E1%eqb_false_str E3%negb_false_iff%eqb_true_str].
  apply orb_false_iff in E2 as [E2%negb_false_iff%Z.eqb_eq E4%negb_false_iff]. split_and!; try done.
  pose proof (Join_split "/" value) as Hj. change (split_byte (ord "/") value) with (Split value "/") in Hj.
  rewrite Es, E3 in Hj. rewrite <-Hj. done.
Qed.

(** ** Headers *)

Section Headers.
Context `{U : UnicodeTables}.

Definition matching (entries : list (string * list string)) (name : string) : list (list string) :=
  snd <$> List.filter (fun kv => EqualFold kv.1 name) entries.

(** [requestHeader] reads the one value of the one entry of the name; the order
    of the entries is immaterial. *)
Lemma requestHeaderIn_spec entries name : forall value present,
  requestHeaderIn entries name value present =
  match matching entries name with
  | [] => (value, present, false)
  | [[v]] => if present then (EmptyString, true, true) else (v, true, false)
  | _ => (EmptyString, true, true)
  end.
Proof.
  induction entries as [|[key values] entries IH]; intros value present; [done|].
  cbn [requestHeaderIn]. unfold matching. cbn [List.filter fst].
  destruct (EqualFold key name); cbn [negb]; [|apply IH].
  cbn [fmap list_fmap snd]. fold (matching entries name).
  destruct values as [|v [|v' vs]]; try (by destruct (matching entries name)).
  destruct present; [by destruct (matching entries name)|].
  rewrite IH. destruct (matching entries name) as [|[|x [|]] [|]]; done.
Qed.

Lemma filter_Permutation_std {A} (p : A -> bool) l m : Permutation l m -> Permutation (List.filter p l) (List.filter p m).
Proof.
  induction 1 as [|x l m _ IH|x y l|l m n _ IH1 _ IH2]; cbn; [done| | |by etrans].
  - by destruct (p x); [constructor|].
  - destruct (p x), (p y); try done. by constructor.
Qed.

Lemma requestHeaderIn_order l m name value present : Permutation l m ->
  requestHeaderIn l name value present = requestHeaderIn m name value present.
Proof.
  intros Hp. rewrite !requestHeaderIn_spec. unfold matching.
  apply (filter_Permutation_std (fun kv => EqualFold kv.1 name)) in Hp.
  apply (fmap_Permutation snd) in Hp. revert Hp.
  generalize (snd <$> List.filter (fun kv => EqualFold kv.1 name) l) as a.
  generalize (snd <$> List.filter (fun kv => EqualFold kv.1 name) m) as b. intros b a Hp.
  destruct a as [|x [|y a]].
  - apply Permutation_nil_l in Hp. by subst.
  - apply Permutation_singleton_l in Hp. by subst.
  - destruct b as [|x' [|y' b]]; [by apply Permutation_nil_r in Hp|by apply Permutation_singleton_r in Hp|].
    destruct x as [|? []], x' as [|? []]; done.
Qed.

Lemma requestHeader_spec h name v : requestHeader h name = (v, true, false) ->
  exists key, h !! key = Some [v] /\ EqualFold key name = true /\
  forall key' vs, h !! key' = Some vs -> EqualFold key' name = true -> key' = key.
Proof.
  unfold requestHeader. rewrite requestHeaderIn_spec.
  destruct (matching (map_to_list h) name) as [|[|w [|]] [|]] eqn:E; try done. intros [= ->].
  unfold matching in E. destruct (List.filter _ _) as [|[key vs] [|]] eqn:Ef; try done. assert (vs = [v]) as -> by (cbn in E; congruence).
  assert (forall k ws, h !! k = Some ws /\ EqualFold k name = true <-> (k, ws) = (key, [v])) as H.
  { intros k ws. rewrite <-elem_of_map_to_list.
    assert ((k, ws) ∈ map_to_list h /\ EqualFold k name = true <-> (k, ws) ∈ [(key, [v])]) as ->.
    { rewrite <-Ef, !list_elem_of_In, filter_In. done. }
    by rewrite list_elem_of_singleton. }
  exists key. destruct (proj2 (H key [v]) eq_refl) as [H1 H2]. split_and!; [done..|].
  intros k ws Hk He. pose proof (proj1 (H k ws) (conj Hk He)). congruence.
Qed.
Lemma requestHeader_absent h name v dup : requestHeader h name = (v, false, dup) -> v = EmptyString.
Proof.
  unfold requestHeader. rewrite requestHeaderIn_spec.
  destruct (matching _ _) as [|[|? []] []]; by intros [= <-].
Qed.
End Headers.

(** ** Steps *)

Section Steps.
Context {R : Type}.
Notation state := (Sigv4Request.state (R := R)).

Lemma bind_good {A B} (m : M A) (f : A -> M B) (st st' : state) b :
  (m ≫= f) st = Some (Good b, st') <-> exists a st1, m st = Some (Good a, st1) /\ f a st1 = Some (Good b, st').
Proof.
  unfold mbind, M_bind. destruct (m st) as [[[a|e] st1]|]; split; try done; try naive_solver;
    by intros (? & ? & ? & _).
Qed.

Lemma lift_good {A} (r : res A) (st st' : state) a : lift r st = Some (Good a, st') <-> r = Good a /\ st' = st.
Proof. unfold lift. split; [by intros [= -> ->]|by intros [-> ->]]. Qed.

Lemma require_good b code detail (st st' : state) u :
  require b code detail st = Some (Good u, st') <-> b = true /\ st' = st.
Proof.
  destruct u. unfold require. destruct b; [|split; [done|by intros []]]. split; [by intros [= ->]|by intros [_ ->]].
Qed.

Lemma ret_good {A} (a b : A) (st st' : state) : (mret a : M A) st = Some (Good b, st') <-> b = a /\ st' = st.
Proof. split; [by intros [= -> ->]|by intros [-> ->]]. Qed.

Lemma closing_good {A} p (m : M A) (st st' : state) a :
  closing p m st = Some (Good a, st') <-> m st = Some (Good a, st').
Proof. unfold closing. destruct (m st) as [[[x|e] [req w]]|]; [done|split; done|done]. Qed.

(** Steps that leave the state alone and end. *)
Definition pure {A} (m : M A) : Prop := forall st : state, exists r, m st = Some (r, st).

Lemma pure_lift {A} (r : res A) : pure (lift r).
Proof. by exists r. Qed.
Lemma pure_ret {A} (a : A) : pure (mret a).
Proof. by exists (Good a). Qed.
Lemma pure_require b code detail : pure (require b code detail).
Proof. unfold require. intros st. destruct b; eexists; done. Qed.
Lemma pure_bind {A B} (m : M A) (f : A -> M B) : pure m -> (forall a, pure (f a)) -> pure (m ≫= f).
Proof.
  intros Hm Hf st. destruct (Hm st) as (r & E). unfold mbind, M_bind. rewrite E.
  destruct r as [a|e]; [apply Hf|by eexists].
Qed.
End Steps.

#[export] Hint Resolve pure_lift pure_ret pure_require : pure.
#[export] Hint Extern 2 (pure (_ ≫= _)) => apply pure_bind; [|intros] : pure.

(** ** Runs that end *)

(** [Content-Length] and the headers, not the body, make a canonical request. *)
Section SameCanonical.
Context `{U : UnicodeTables} {B : Type} (sha256 : string -> string).

Definition same_canonical (r1 r2 : Request B) : Prop :=
  Method r1 = Method r2 /\ Url r1 = Url r2 /\ Host r1 = Host r2 /\ Header r1 = Header r2 /\
  ContentLength r1 = ContentLength r2.

Lemma Build_same r1 r2 signed hash : same_canonical r1 r2 ->
  BuildCanonicalRequest sha256 (Some r1) signed hash = BuildCanonicalRequest sha256 (Some r2) signed hash.
Proof.
  intros (E1 & E2 & E3 & E4 & E5).
  assert (forall name, signedHeaderValue r1 name = signedHeaderValue r2 name) as Hv.
  { intros name. unfold signedHeaderValue. by rewrite E2, E3, E4, E5. }
  assert (forall names last seen, headerLines r1 last seen names = headerLines r2 last seen names) as Hl.
  { induction names as [|n names IH]; intros last seen; [done|]. cbn [headerLines]. by rewrite Hv, IH. }
  unfold BuildCanonicalRequest, CanonicalURI, CanonicalQuery, CanonicalHeaders.
  cbn [mbind option_bind]. by rewrite E1, E2, Hl.
Qed.
End SameCanonical.

Section Ends.
Context {R : Type}.
Notation state := (Sigv4Request.state (R := R)).

(** Closing the request now leaves nothing behind. *)
Definition settled (st0 st : state) : Prop := cleaned st0 (closeRequestBody st).

Context (F : Error -> state -> Prop).

(** A step ends: with [Q], or with an error in a state that [F] allows. *)
Definition ends {A} (m : M A) (Q : A -> state -> Prop) (st : state) : Prop :=
  exists r st', m st = Some (r, st') /\
  match r with Good a => Q a st' | Bad e => F e st' end.

Lemma ends_bind {A B} (m : M A) (f : A -> M B) Q st :
  ends m (fun a st1 => ends (f a) Q st1) st -> ends (m ≫= f) Q st.
Proof.
  intros (r & st1 & E & H). unfold ends, mbind, M_bind. rewrite E.
  destruct r as [a|e]; [exact H|]. by exists (Bad e), st1.
Qed.

Lemma ends_mono {A} (m : M A) (P Q : A -> state -> Prop) st :
  ends m P st -> (forall a st1, P a st1 -> Q a st1) -> ends m Q st.
Proof. intros (r & st1 & E & H) HPQ. exists r, st1. split; [done|]. destruct r; auto. Qed.

Lemma ends_lift {A} (r : res A) Q st : (forall e, r = Bad e -> F e st) -> (forall a, r = Good a -> Q a st) ->
  ends (lift r) Q st.
Proof. intros Hs HQ. exists r, st. split; [done|]. destruct r; auto. Qed.

Lemma ends_reject {A} code detail (Q : A -> state -> Prop) st :
  F (mkError code detail) st -> ends (reject code detail) Q st.
Proof. intros Hs. by eexists _, st. Qed.

Lemma ends_require b code detail Q st : (b = false -> F (mkError code detail) st) -> (b = true -> Q tt st) ->
  ends (require b code detail) Q st.
Proof. intros Hs HQ. destruct b; eexists _, st; (split; [reflexivity|]); [by apply HQ|by apply Hs]. Qed.

Lemma ends_ret {A} (a : A) (Q : A -> state -> Prop) st : Q a st -> ends (mret a) Q st.
Proof. intros HQ. by exists (Good a), st. Qed.

Lemma ends_current (Q : request -> state -> Prop) st : Q st.1 st -> ends current Q st.
Proof. intros HQ. by exists (Good st.1), st. Qed.

Lemma ends_update f (Q : unit -> state -> Prop) st : Q tt (f st) -> ends (update f) Q st.
Proof. intros HQ. by exists (Good tt), (f st). Qed.

(** A step that leaves the state alone, with the body closed on failure. *)
Lemma ends_closing {A} p (m : M A) Q st : pure m -> (forall e, F e (st.1, Close p st.2)) ->
  (forall a, m st = Some (Good a, st) -> Q a st) -> ends (closing p m) Q st.
Proof.
  intros Hm Hs HQ. destruct (Hm st) as (r & E). unfold ends, closing. rewrite E. destruct st as [req w].
  destruct r as [a|e]; [exists (Good a), (req, w); auto|by exists (Bad e), (req, Close p w)].
Qed.
End Ends.

(** ** The body *)

Lemma hexValue_hex_digit n : 0 <= n < 16 -> hexValue (ord (hex_digit n)) = n.
Proof.
  intros Hn. apply Z.eqb_eq.
  pose proof (every_byte_spec (fun n => negb (n <? 16) || (hexValue (ord (hex_digit n)) =? n)) n
    ltac:(vm_compute; reflexivity) ltac:(lia)) as H. cbn beta in H.
  by rewrite (proj2 (Z.ltb_lt n 16)) in H by lia.
Qed.

Lemma hexDecode_encode s : hexDecodeString (hex_encode s) = Some s.
Proof.
  induction s as [|c s IH]; [done|]. cbn [hex_encode hexDecodeString].
  pose proof (ord_range c) as Hc.
  assert (0 <= ord c / 16 < 16) as H1 by (split; [apply Z.div_pos; lia|apply Z.div_lt_upper_bound; lia]).
  pose proof (Z.mod_pos_bound (ord c) 16 ltac:(lia)) as H2.
  rewrite !hexValue_hex_digit by done.
  rewrite (proj2 (Z.ltb_ge (ord c / 16) 0)), (proj2 (Z.ltb_ge (ord c mod 16) 0)) by lia. cbn [orb].
  rewrite IH. cbn. do 2 f_equal. rewrite <-(chr_ord c) at 3. f_equal.
  rewrite (Z.div_mod (ord c) 16) at 3 by lia. lia.
Qed.

Section Body.
Context `{U : UnicodeTables} {R : Type} (Read : reader R).
Context (fails : nat -> bool) (tempName : gset string -> string) (fuel : nat).
Context (sha256 : string -> string).
Context (Hread : keeps_length Read).
Context (Hfresh : forall X, tempName X ∉ X) (Hname : forall X, tempName X <> "").
Notation state := (Sigv4Request.state (R := R)).
Context (v : Verifier) (st0 : state) (Hfr : fresh st0.1) (Hw : world_ok sha256 st0.2).

Definition bodyOptions : BodyOptions :=
  mkBodyOptions (MaxInMemoryBodyBytes (options v)) (MaxSpoolBodyBytes (options v)).
Context (Hbig : MaxSpoolBytes (normalizedBodyOptions bodyOptions) < 2 ^ 62).
Context (Hfuel : (enough (normalizedBodyOptions bodyOptions) <= fuel)%nat).

Lemma settled_refused st : refused_request st0 st -> settled st0 st.
Proof. by apply closeRequestBody_refused. Qed.

Lemma settled_start : settled st0 st0.
Proof. apply settled_refused. unfold refused_request, same_head. split_and!; try done; [apply Hfr|by left]. Qed.

Lemma settled_closed : settled st0 (closeRequestBody st0).
Proof.
  apply settled_refused. destruct st0 as [req w]. pose proof Hfr as [Hm _]. cbn [fst] in Hm.
  assert (closeRequestBody (req, w) = closeStream (req, w)) as ->.
  { unfold closeRequestBody, closeStream.
    destruct (stream (BodyState req)); unfold CloseBody; cbn; by rewrite Hm. }
  by apply closeStream_fresh.
Qed.

(** A request with its body captured. *)
Definition with_body (st : state) (p : nat) (data : string) : Prop :=
  captured_request Read sha256 st0 st p data /\ world_ok sha256 st.2 /\
  closes st.2 = (opens st0.1 + closes st0.2)%nat.

Lemma settled_captured st p data : with_body st p data -> settled st0 st.
Proof. intros (Hc & Hok & Hcl). by eapply closeRequestBody_captured. Qed.

Lemma Close_again p w c : cells w !! p = Some c -> closed (content c) = true -> Close p w = w.
Proof. intros E H. unfold Close. by rewrite E, H. Qed.

(** The body was closed already when the request is. *)
Lemma settled_body_closed st p data : with_body st p data -> settled st0 (st.1, Close p st.2).
Proof.
  intros ([Hh Hat _ Hm _ _ (u & Eu & Hu & _)] & Hok & Hcl). destruct st as [req w]. cbn [fst snd] in *.
  unfold settled, closeRequestBody, closeStream. rewrite Eu. unfold CloseBody.
  cbn [marker BodyState withBody setStream]. rewrite Hm.
  destruct Hat as (Hnone & Hother & _ & c & Ec & (Hopen & _) & Hf).
  destruct (Close_spec Read tempName sha256 Hread Hfresh Hname p w c Hok Ec) as (Hw1 & Ecl & (c1 & Ec1 & Hrel) & Hq & _ & Hfiles).
  destruct (closeView_spec Read tempName sha256 Hread Hfresh Hname u _ Hw1) as [He Hw2].
  pose proof (ev_cells _ _ He p) as Ep. rewrite Ec1 in Ep.
  destruct (cells (closeView u (Close p w)) !! p) as [c2|] eqn:Ec2; [|done]. injection Ep as Ep.
  rewrite (Close_again p _ c2) by (done || rewrite Ep; apply Hrel).
  split_and!; cbn [fst snd]; try done.
  - rewrite (ev_closes _ _ He), Ecl. done.
  - rewrite (ev_files _ _ He), Hfiles, Hopen. cbn [orb]. destruct (path (content c) =? "")%string; [done|].
    destruct Hf as [Hn ->]. by rewrite delete_insert_id.
  - intros q d Eq. destruct (decide (q = p)) as [->|Hne].
    + right. rewrite Ec2 in Eq. injection Eq as <-.
      destruct (ok_cell _ _ Hw2 p c2 Ec2) as [Hr|(x & Hx & _)]; [done|].
      destruct Hrel as [Hrel _]. congruence.
    + left. by rewrite (closeView_views p u _ Hu), Hq, Hother in Eq.
Qed.

Lemma payloadRefused_ends code detail Q : ends (fun _ => settled st0) (payloadRefused code detail) Q st0.
Proof. apply ends_bind, ends_update, ends_reject, settled_closed. Qed.

Lemma captureFor_ends : ends (fun _ => settled st0) (captureFor Read fails tempName fuel sha256 v)
  (fun p st => exists data, with_body st p data) st0.
Proof.
  destruct (CaptureRequestBody_spec Read fails tempName sha256 fuel Hread Hfresh Hname bodyOptions st0
    Hfr Hw Hbig Hfuel) as (out & st & E & Hok & H).
  exists out, st. split; [exact E|]. destruct out as [p|e].
  - destruct H as (data & Hc & Hcl & _). by exists data.
  - apply settled_refused, H.
Qed.

(** What the payload mode says of the delivered bytes. *)
Definition payload_checked (payloadHash mode data : string) : Prop :=
  (mode = PayloadHashUnsigned /\ payloadHash = "UNSIGNED-PAYLOAD" /\
   AllowUnsignedPayload (options v) = true) \/
  ((mode = PayloadHashSHA256 \/ mode = PayloadHashEmpty /\ data = "") /\
   hexDecodeString payloadHash = Some (sha256 data)).

(** What the headers say of the payload; [payloadHash] is theirs, or the body's. *)
Definition payload_declared (h : header) (payloadHash data : string) : Prop :=
  (exists contentType present, requestHeader h "content-type" = (contentType, present, false) /\
   present && isEventStreamContentType contentType = false) /\
  exists value present, requestHeader h "x-amz-content-sha256" = (value, present, false) /\
  if present then
    payloadHash = TrimSpace value /\ mem_str (TrimSpace value) streamingModes = false /\
    TrimSpace value <> "" /\ (TrimSpace value = "UNSIGNED-PAYLOAD" \/ validPayloadHash (TrimSpace value) = true)
  else payloadHash = hex_encode (sha256 data).

Lemma checkPayloadHash_ends st p data value : with_body st p data ->
  ends (fun _ => settled st0) (checkPayloadHash p value)
    (fun '(q, payloadHash, mode) st' => q = p /\ st' = st /\ payload_checked payloadHash mode data /\
       payloadHash = if (value =? "")%string then hex_encode (sha256 data) else value) st.
Proof.
  intros Hb. pose proof Hb as ([_ (_ & _ & _ & c & Ec & (_ & Hh & Hs & _) & _) _ _ _ _ _] & _ & _).
  unfold ends, checkPayloadHash, SHA256, Size. rewrite Ec, Hh, Hs, hexDecode_encode.
  set (value' := if (value =? "")%string then _ else _).
  destruct (hexDecodeString value') as [provided|] eqn:Ed.
  - destruct ((slen provided =? 32) && _ && _) eqn:Es; cbn [negb].
    + eexists _, st. split; [done|]. split_and!; [done..| |done]. right.
      apply andb_true_iff in Es as [_ ->%eqb_true_str]. split; [|done].
      destruct ((slen data =? 0) && _) eqn:Em; [right|by left]. split; [done|].
      apply andb_true_iff in Em as [Em%Z.eqb_eq _]. unfold slen in Em. by destruct data.
    + apply (ends_closing (fun _ => settled st0) p (reject _ _) _ st); [apply pure_lift|intros _; by eapply settled_body_closed|done].
  - apply (ends_closing (fun _ => settled st0) p (reject _ _) _ st); [apply pure_lift|intros _; by eapply settled_body_closed|done].
Qed.

Lemma payload_ends : ends (fun _ => settled st0) (payload Read fails tempName fuel sha256 v)
  (fun '(p, payloadHash, mode) st => exists data, with_body st p data /\ payload_checked payloadHash mode data /\
     payload_declared (Header st0.1) payloadHash data)
  st0.
Proof.
  unfold payload. apply ends_bind, ends_current.
  destruct (requestHeader (Header st0.1) "content-type") as [[contentType present] duplicate] eqn:Ec.
  destruct duplicate; [apply payloadRefused_ends|].
  destruct (present && _) eqn:Eev; [apply payloadRefused_ends|].
  destruct (requestHeader (Header st0.1) "x-amz-content-sha256") as [[value present'] duplicate] eqn:Eh.
  destruct duplicate; [apply payloadRefused_ends|].
  destruct (present' && _ && negb (AllowUnsignedPayload _)) eqn:E1; [apply payloadRefused_ends|].
  destruct (present' && mem_str _ _) eqn:E2; [apply payloadRefused_ends|].
  destruct (present' && (TrimSpace value =? "")%string) eqn:E3; [apply payloadRefused_ends|].
  destruct (present' && negb _ && negb (validPayloadHash _)) eqn:E4; [apply payloadRefused_ends|].
  assert (forall payloadHash data,
    payloadHash = (if (TrimSpace value =? "")%string then hex_encode (sha256 data) else TrimSpace value) ->
    payload_declared (Header st0.1) payloadHash data) as Hdecl.
  { intros payloadHash data ->. split; [by exists contentType, present|]. exists value, present'. split; [done|].
    destruct present'; cbn [andb] in *.
    - rewrite E3. split_and!; [done..|by apply eqb_false_str|].
      destruct (TrimSpace value =? "UNSIGNED-PAYLOAD")%string eqn:Eu; [left; by apply eqb_true_str|right].
      by apply negb_false_iff in E4.
    - apply requestHeader_absent in Eh as ->. done. }
  apply ends_bind. eapply ends_mono; [apply captureFor_ends|]. intros p st (data & Hb).
  destruct (TrimSpace value =? "UNSIGNED-PAYLOAD")%string eqn:Eu.
  - apply ends_ret. exists data. split; [done|]. apply eqb_true_str in Eu. split.
    + left. destruct present'; [|apply requestHeader_absent in Eh; by rewrite Eh in Eu].
      destruct (AllowUnsignedPayload (options v)); done.
    + apply Hdecl. by rewrite Eu.
  - eapply ends_mono; [by apply checkPayloadHash_ends|].
    intros [[q payloadHash] mode] st' (-> & -> & Hp & Hh). exists data. split_and!; [done..|by apply Hdecl].
Qed.
End Body.

(** ** What an accepted request proves *)

Section Accepted.
Context `{U : UnicodeTables} {R : Type} (Read : reader R).
Context (sha256 : string -> string) (hmac : string -> string -> string).
Context (ParseTime : string -> option Time) (ToASCII : string -> result string).
Notation state := (Sigv4Request.state (R := R)).
Notation request := (Sigv4Request.request (R := R)).

(** The header has exactly one entry of that name, whatever its case, with
    exactly one value. *)
Definition header_is (h : header) (name value : string) : Prop :=
  exists key, h !! key = Some [value] /\ EqualFold key name = true /\
  forall key' vs, h !! key' = Some vs -> EqualFold key' name = true -> key' = key.

(** The credential scope, the signed names and the signature of a request. *)
Record Claim := mkClaim {
  c_date : string; c_region : string; c_service : string; c_signedText : string; c_signature : string;
}.

(** The texts of a claim under a verifier's access key. *)
Definition credential_of (v : Verifier) (c : Claim) : string :=
  credentialText (AccessKeyID (fake v)) (c_date c) (c_region c) (c_service c).
Definition authorization_of (v : Verifier) (c : Claim) : string :=
  authorizationText algorithmName (credential_of v c) (c_signedText c) (c_signature c).

Definition authenticated (v : Verifier) (endpoint : AWSEndpoint) (h : header) (c : Claim) : Prop :=
  header_is h "authorization" (authorization_of v c) /\
  parseAuthorization (authorization_of v c) = Good (algorithmName, credential_of v c, c_signedText c, c_signature c) /\
  parseCredential (credential_of v c) =
    Good (AccessKeyID (fake v), c_date c, c_region c, c_service c) /\
  signature_ok (c_signature c) /\ slen (c_date c) = 8 /\ bytes_all is_digit (c_date c) = true /\
  header_is h "x-amz-security-token" (SessionToken (fake v)) /\
  validScopeRegion (c_region c) = true /\ validScopeService (c_service c) = true /\
  verifySigningScope endpoint (c_region c) (c_service c) = Good tt.

(** The time the request states: its date is the scope's, it is within the
    skew of the clock, and the header that states it is signed. *)
Definition timely (v : Verifier) (h : header) (c : Claim) (names : list string) (t : Time) : Prop :=
  c_signedText c = Join names ";" /\ "host" ∈ names /\ "x-amz-security-token" ∈ names /\
  (exists dateName, requestSigningTime ParseTime h = Good (dateName, t) /\ dateName ∈ names) /\
  formatDate t = c_date c /\
  exists now, Clock (options v) = Some now /\ IsZero now = false /\
  Z.abs (Sub now t) <= MaxClockSkew (options v).

Definition signed (v : Verifier) (req : request) (c : Claim) (names : list string) (t : Time)
    (payloadHash : string) (canonical : Canonical) : Prop :=
  BuildCanonicalRequest sha256 (Some req) names payloadHash = Good canonical /\
  hexDecodeString (c_signature c) =
    Some (signingKey hmac (SecretAccessKey (fake v)) (c_date c) (c_region c) (c_service c)
            (stringToSign t (c_date c) (c_region c) (c_service c) (Hash canonical))).

Lemma containsString_elem l s : containsString l s = true <-> s ∈ l.
Proof.
  unfold containsString. rewrite existsb_exists. setoid_rewrite <-list_elem_of_In. split.
  - by intros (x & Hx & ->%eqb_true_str).
  - intros H. exists s. split; [done|]. by apply eqb_true_str.
Qed.

Lemma parseSignedHeaders_inv value parts : parseSignedHeaders value = Good parts ->
  value = Join parts ";" /\ "host" ∈ parts /\ signedHeadersSorted None parts = true.
Proof.
  unfold parseSignedHeaders. case_if; [done|].
  destruct (signedHeadersSorted None (Split value ";")) eqn:E; [|done].
  destruct (containsString (Split value ";") "host") eqn:Eh; [|done]. intros [= <-].
  apply containsString_elem in Eh. split_and!; [|done..]. symmetry. apply Join_split.
Qed.

Lemma require_mono {A} (b : bool) code detail (m : M A) (F : Error -> state -> Prop) (Q : A -> state -> Prop) (st : state) :
  (b = false -> F (mkError code detail) st) -> (b = true -> ends F m Q st) ->
  ends F (require b code detail ≫= fun _ => m) Q st.
Proof. intros Hs H. by apply ends_bind, ends_require. Qed.

Lemma lift_mono {A B} (r : res A) (f : A -> M B) (F : Error -> state -> Prop) (Q : B -> state -> Prop) (st : state) :
  (forall e, r = Bad e -> F e st) -> (forall a, r = Good a -> ends F (f a) Q st) ->
  ends F (lift r ≫= f) Q st.
Proof. intros Hs H. by apply ends_bind, ends_lift. Qed.

Lemma authenticate_ends (v : Verifier) (endpoint : AWSEndpoint) (st0 st : state) : settled st0 st ->
  ends (fun _ => settled st0) (authenticate v st.1 endpoint)
    (fun '(date, region, service, signedText, signature) st' => st' = st /\
       authenticated v endpoint (Header st.1) (mkClaim date region service signedText signature)) st.
Proof.
  intros Hs. unfold authenticate.
  destruct (requestHeader (Header st.1) "authorization") as [[authorization present] dup] eqn:Ea.
  apply require_mono; [done|]. intros Hd%negb_true_iff. apply require_mono; [done|].
  intros [Hp _]%andb_true_iff. apply require_mono; [done|]. intros _.
  apply lift_mono; [done|]. intros [[[algorithm credential] signedText] signature] Eauth.
  apply require_mono; [done|]. intros ->%eqb_true_str.
  apply lift_mono; [done|]. intros [[[key date] region] service] Ecred.
  apply require_mono; [done|]. intros ->%eqb_true_str.
  destruct (requestHeader (Header st.1) "x-amz-security-token") as [[token tokenPresent] tokenDup] eqn:Et.
  apply require_mono; [done|]. intros [[[Ht1%negb_true_iff Ht2]%andb_true_iff _]%andb_true_iff
    Ht3%eqb_true_str]%andb_true_iff.
  apply require_mono; [done|]. intros [Hr Hsv]%andb_true_iff.
  apply lift_mono; [done|]. intros [] Hscope. apply ends_ret. split; [done|].
  subst. set (c := mkClaim date region service signedText signature).
  pose proof (parseCredential_inv _ _ _ _ _ Ecred) as (-> & _ & Hl & Hdig).
  pose proof (parseAuthorization_inv _ _ _ _ _ Eauth) as [-> Hsig].
  split_and!; try done; by apply requestHeader_spec.
Qed.

Lemma checkTime_ends (v : Verifier) (c : Claim) (st0 st : state) : settled st0 st ->
  ends (fun _ => settled st0) (checkTime ParseTime v st.1 (c_date c) (c_signedText c))
    (fun '(names, t) st' => st' = st /\ timely v (Header st.1) c names t) st.
Proof.
  intros Hs. unfold checkTime. apply lift_mono; [done|]. intros names En.
  apply lift_mono; [done|]. intros [dateName t] Et.
  apply require_mono; [done|]. intros Ed%eqb_true_str.
  apply require_mono; [done|]. intros Ez%negb_true_iff.
  apply require_mono; [done|]. intros [E1%Z.ltb_ge E2%Z.ltb_ge]%negb_true_iff%orb_false_iff.
  apply require_mono; [done|]. intros Hdn%containsString_elem.
  apply require_mono; [done|]. intros Htn%containsString_elem.
  apply ends_ret. split; [done|]. apply parseSignedHeaders_inv in En as (En & Hh & _).
  destruct (Clock (options v)) as [now|] eqn:Ec; [|done]. cbn [default] in *.
  split_and!; try done; [by exists dateName|]. exists now. split_and!; [done..|]. cbn in E1, E2. lia.
Qed.

(** The request is addressed to the endpoint and is not presigned. *)
Definition addressed (endpoint : AWSEndpoint) (req : request) (names : list string) : Prop :=
  Endpoint_Validate endpoint = None /\ verifyRequestEndpoint ToASCII req endpoint = Good tt /\
  verifySignedHost ToASCII req names endpoint = Good tt /\
  exists u, Url req = Some u /\ querySigningPresent (RawQuery u) = Some false.

(** [setPayloadMode] on a request. *)
Definition mode_set (st : state) (mode : string) : state :=
  let b := BodyState st.1 in
  (withBody st.1 (mkReqBody (stream b) (getBody b) (marker b) (Some mode)), st.2).

(** Everything an accepted request has been checked for. *)
Definition accepted (v : Verifier) (endpoint : AWSEndpoint) (st st' : state) (r : VerifiedRequest) : Prop :=
  exists c names t p data payloadHash canonical st1,
    authenticated v endpoint (Header st.1) c /\ timely v (Header st.1) c names t /\
    addressed endpoint st.1 names /\
    with_body Read sha256 st st1 p data /\ payload_checked sha256 v payloadHash (vr_PayloadMode r) data /\
    payload_declared sha256 (Header st.1) payloadHash data /\
    signed v st'.1 c names t payloadHash canonical /\
    st' = mode_set st1 (vr_PayloadMode r) /\
    r = mkVerified endpoint (inferProtocol st.1) SigningHeaderV4 (c_region c) (c_service c) (vr_PayloadMode r).
End Accepted.

Section Runs.
Context `{U : UnicodeTables} {R : Type} (Read : reader R).
Context (fails : nat -> bool) (tempName : gset string -> string) (fuel : nat).
Context (sha256 : string -> string) (hmac : string -> string -> string).
Context (ParseTime : string -> option Time) (ToASCII : string -> result string).
Context (Hread : keeps_length Read).
Context (Hfresh : forall X, tempName X ∉ X) (Hname : forall X, tempName X <> "").
Notation state := (Sigv4Request.state (R := R)).
Context (v : Verifier) (st0 : state) (Hfr : fresh st0.1) (Hw : world_ok sha256 st0.2).
Context (Hbig : MaxSpoolBytes (normalizedBodyOptions (bodyOptions v)) < 2 ^ 62).
Context (Hfuel : (enough (normalizedBodyOptions (bodyOptions v)) <= fuel)%nat).

Lemma pure_current : pure (current (R := R)).
Proof. intros st. by eexists. Qed.
#[local] Hint Resolve pure_current : pure.

Lemma checkSignature_ends names t c :
  ends (fun _ => settled st0) (checkSignature Read fails tempName fuel sha256 hmac v names t
              (c_date c) (c_region c) (c_service c) (c_signature c))
    (fun mode st => exists p data payloadHash canonical,
       with_body Read sha256 st0 st p data /\ payload_checked sha256 v payloadHash mode data /\
       payload_declared sha256 (Header st0.1) payloadHash data /\
       signed sha256 hmac v st.1 c names t payloadHash canonical) st0.
Proof.
  unfold checkSignature. apply ends_bind. eapply ends_mono; [by apply payload_ends|].
  intros [[p payloadHash] mode] st (data & Hb & Hp & Hd). apply ends_closing.
  - apply pure_bind; [apply pure_current|intros req]. apply pure_bind; [apply pure_lift|intros canonical].
    destruct (hexDecodeString _); [|apply pure_lift].
    apply pure_bind; [apply pure_require|intros _; apply pure_ret].
  - intros _. by eapply (settled_body_closed Read tempName sha256 Hread Hfresh Hname).
  - intros a (req & st1 & [= -> ->] & E)%bind_good.
    apply bind_good in E as (canonical & st2 & [Ec ->]%lift_good & E).
    destruct (hexDecodeString (c_signature c)) as [provided|] eqn:Ed; [|done].
    apply bind_good in E as ([] & st3 & [Eq ->]%require_good & [-> _]%ret_good).
    apply andb_true_iff in Eq as [_ ->%eqb_true_str].
    exists p, data, payloadHash, canonical. by split_and!.
Qed.

Lemma verifyBody_ends cancelled endpoint :
  ends (fun _ => settled st0) (verifyBody Read fails tempName fuel sha256 hmac ParseTime ToASCII v cancelled endpoint)
    (fun r st => accepted Read sha256 hmac ParseTime ToASCII v endpoint st0 st r) st0.
Proof.
  pose proof (settled_start st0 Hfr) as Hs.
  unfold verifyBody. apply ends_bind, ends_current. apply require_mono; [done|]. intros _.
  destruct (Url st0.1) as [u|] eqn:Eu; [|by apply ends_reject].
  apply require_mono; [done|]. intros Hv. apply lift_mono; [done|]. intros [] He.
  destruct (querySigningPresent (RawQuery u)) as [[|]|] eqn:Eq; [by apply ends_reject| |by apply ends_reject].
  apply ends_bind. eapply ends_mono; [by apply authenticate_ends|].
  intros [[[[date region] service] signedText] signature] st [-> Ha]. set (c := mkClaim _ _ _ _ _) in Ha.
  apply ends_bind. eapply ends_mono; [by apply (checkTime_ends ParseTime v c)|].
  intros [names t] st [-> Ht]. apply lift_mono; [done|]. intros [] Hh.
  apply ends_bind. eapply ends_mono; [by apply (checkSignature_ends names t c)|].
  intros mode st (p & data & payloadHash & canonical & Hb & Hp & Hd & Hsig).
  apply ends_bind, ends_update, ends_ret.
  exists c, names, t, p, data, payloadHash, canonical, st. split_and!; try done.
  - destruct (Endpoint_Validate endpoint) eqn:Ev; [done|]. split_and!; try done. by exists u.
  - destruct Hsig as [Hsig1 Hsig2]. split; [|done]. rewrite <-Hsig1. by apply Build_same.
Qed.
End Runs.

(** ** Binding *)

Lemma zeros_count n c : is_digit c = false -> count_byte (zeros n) c = 0.
Proof.
  intros Hc. induction n as [|n IH]; [done|]. cbn [zeros count_byte]. rewrite IH.
  destruct (Z.eqb_spec (ord "0") c) as [<-|]; [done|lia].
Qed.

Lemma padInt_newline x n : count_byte (padInt x n) 10 = 0.
Proof.
  unfold padInt. rewrite !count_byte_app, zeros_count, Itoa_count by (done || lia).
  by destruct (x <? 0).
Qed.

Lemma formatAmz_newline t : count_byte (formatAmz t) 10 = 0.
Proof. unfold formatAmz, formatDate. by rewrite !count_byte_app, !padInt_newline. Qed.

Lemma cut_inj sep a b x y : count_byte a (ord sep) = 0 -> count_byte b (ord sep) = 0 ->
  (a ++ String sep x)%string = (b ++ String sep y)%string -> a = b /\ x = y.
Proof.
  intros Ha Hb E. pose proof (proj2 (Cut_join _ sep a x) (conj eq_refl Ha)) as E1.
  pose proof (proj2 (Cut_join _ sep b y) (conj eq_refl Hb)) as E2. rewrite E, E2 in E1.
  by injection E1 as -> ->.
Qed.

(** A text to sign determines the time and the hash of the request. *)
Lemma stringToSign_inj t1 t2 d r s h1 h2 :
  stringToSign t1 d r s h1 = stringToSign t2 d r s h2 -> formatAmz t1 = formatAmz t2 /\ h1 = h2.
Proof.
  intros E.
  assert (forall t h, stringToSign t d r s h = (algorithmName ++ newline ++ formatAmz t ++
    String (chr 10) ((d ++ "/" ++ r ++ "/" ++ s ++ "/aws4_request") ++ newline ++ h))%string) as H by done.
  rewrite !H in E. apply str_app_length_inj in E as [_ E]; [|done].
  apply str_app_length_inj in E as [_ E]; [|done].
  apply cut_inj in E as [Et E]; [|apply formatAmz_newline..]. split; [done|].
  apply str_app_length_inj in E as [_ E]; [|done]. by apply str_app_length_inj in E as [_ E].
Qed.

Section HostClean.
Context `{U : UnicodeTables} {B : Type} (ToASCII : string -> result string).

Lemma NormalizeEndpointHost_newline host r : Endpoint.NormalizeEndpointHost ToASCII host = Ok r ->
  count_byte host 10 = 0.
Proof.
  unfold Endpoint.NormalizeEndpointHost.
  destruct (_ || bytes_any _ host) eqn:H; [done|]. intros _. apply orb_false_iff in H as [_ H]. rewrite bytes_any_all in H. apply negb_false_iff in H.
  by apply (bytes_all_count _ _ 10 H).
Qed.

(** The authority of an accepted request holds no line break. *)
Lemma addressed_clean (req : Request B) endpoint :
  verifyRequestEndpoint ToASCII req endpoint = Good tt -> host_clean req.
Proof.
  unfold verifyRequestEndpoint, host_clean. destruct (Url req) as [u|]; [|done].
  destruct (User u); [done|]. set (host := if (Host req =? "")%string then _ else _).
  case_if; [done|]. destruct (Endpoint.NormalizeEndpointHost ToASCII host) as [[name port]|] eqn:En; [|done].
  apply NormalizeEndpointHost_newline in En. case_if; [done|]. unfold host in *.
  destruct (Host req =? "")%string eqn:Eh.
  - apply eqb_true_str in Eh as ->. intros _. split; [done|]. by intros u' [= <-].
  - cbn [negb andb]. destruct (u_Host u =? "")%string eqn:Eu; cbn [negb].
    + intros _. split; [done|]. intros u' [= <-]. by apply eqb_true_str in Eu as ->.
    + destruct (Endpoint.NormalizeEndpointHost ToASCII (u_Host u)) as [[n p]|] eqn:En2; [|done].
      apply NormalizeEndpointHost_newline in En2. intros _. split; [done|]. by intros u' [= <-].
Qed.
End HostClean.

Section Bound.
Context `{U : UnicodeTables} {R : Type} (Read : reader R).
Context (sha256 : string -> string) (hmac : string -> string -> string).
Context (ParseTime : string -> option Time) (ToASCII : string -> result string).
Notation state := (Sigv4Request.state (R := R)).

Lemma header_is_unique h name v w : header_is h name v -> header_is h name w -> v = w.
Proof. intros (k & Hk & He & Hu) (k' & Hk' & He' & _). rewrite (Hu k' _ Hk' He') in Hk'. congruence. Qed.

Lemma authorization_unique v (endpoint1 endpoint2 : AWSEndpoint) h1 h2 c1 c2 a :
  authenticated v endpoint1 h1 c1 -> authenticated v endpoint2 h2 c2 ->
  header_is h1 "authorization" a -> header_is h2 "authorization" a -> c1 = c2.
Proof.
  intros (A1 & P1 & Q1 & _) (A2 & P2 & Q2 & _) H1 H2.
  rewrite (header_is_unique _ _ _ _ A1 H1) in P1. rewrite (header_is_unique _ _ _ _ A2 H2) in P2.
  rewrite P1 in P2. injection P2 as E1 E2 E3. rewrite E1, Q2 in Q1. injection Q1 as E4 E5 E6.
  destruct c1, c2. cbn in *. congruence.
Qed.

(** What it takes for two requests to share an accepted signature: the same
    keyed hash of two texts, or the same digest of two canonical requests. *)
Definition forged (v : Verifier) (c : Claim) (text1 text2 : string) : Prop :=
  text1 <> text2 /\
  signingKey hmac (SecretAccessKey (fake v)) (c_date c) (c_region c) (c_service c) text1 =
  signingKey hmac (SecretAccessKey (fake v)) (c_date c) (c_region c) (c_service c) text2.
Definition collides (a b : string) : Prop := a <> b /\ sha256 a = sha256 b.

Lemma signed_binds v c names1 names2 t1 t2 hash1 hash2 can1 can2 (req1 req2 : request (R := R)) :
  host_clean req1 -> host_clean req2 ->
  signed sha256 hmac v req1 c names1 t1 hash1 can1 -> signed sha256 hmac v req2 c names2 t2 hash2 can2 ->
  forged v c (stringToSign t1 (c_date c) (c_region c) (c_service c) (Hash can1))
             (stringToSign t2 (c_date c) (c_region c) (c_service c) (Hash can2)) \/
  collides (can_Request can1) (can_Request can2) \/
  formatAmz t1 = formatAmz t2 /\ same_request req1 req2 names1 names2 hash1 hash2.
Proof.
  intros Hh1 Hh2 [B1 S1] [B2 S2]. rewrite S1 in S2. injection S2 as S.
  destruct (decide (stringToSign t1 (c_date c) (c_region c) (c_service c) (Hash can1) =
    stringToSign t2 (c_date c) (c_region c) (c_service c) (Hash can2))) as [E|]; [|by left].
  apply stringToSign_inj in E as [Et Eh]. right.
  pose proof (Build_inv _ _ _ _ _ B1) as (l1 & H1). pose proof (Build_inv _ _ _ _ _ B2) as (l2 & H2).
  destruct H1 as (_ & _ & _ & _ & _ & _ & H1 & _), H2 as (_ & _ & _ & _ & _ & _ & H2 & _).
  rewrite H1, H2 in Eh. apply hex_encode_inj in Eh.
  destruct (decide (can_Request can1 = can_Request can2)) as [E|]; [right|by left].
  split; [done|]. by eapply canonical_request_binds.
Qed.

Lemma mode_set_head (st : state) mode : same_head st.1 (mode_set st mode).1.
Proof. done. Qed.

Lemma accepted_clean v endpoint (st st' : state) r :
  accepted Read sha256 hmac ParseTime ToASCII v endpoint st st' r -> host_clean st'.1.
Proof.
  intros (c & names & t & p & data & hash & can & st1 & _ & _ & (_ & Ha & _) & ([Hh _ _ _ _ _ _] & _) & _ & _ & _ & -> & _).
  apply addressed_clean in Ha as [H1 H2]. destruct Hh as (_ & Hu & Ho & _). unfold host_clean. cbn.
  rewrite Hu, Ho. by split.
Qed.
End Bound.

(** ** Properties *)

Section Claims.
Context `{U : UnicodeTables} {R : Type} (Read : reader R).
Context (fails : nat -> bool) (tempName : gset string -> string) (fuel : nat).
Context (sha256 : string -> string) (hmac : string -> string -> string).
Context (ParseTime : string -> option Time) (ToASCII : string -> result string).
Notation state := (Sigv4Request.state (R := R)).
Notation Verify := (Verify Read fails tempName fuel sha256 hmac ParseTime ToASCII).

(** The code's surroundings: a reader that fills its buffer, new file names, and
    a spool limit and fuel that fit each other. *)
Definition runs_well (v : Verifier) (st : state) : Prop :=
  keeps_length Read /\ (forall X, tempName X ∉ X) /\ (forall X, tempName X <> "") /\
  MaxSpoolBytes (normalizedBodyOptions (bodyOptions v)) < 2 ^ 62 /\
  (enough (normalizedBodyOptions (bodyOptions v)) <= fuel)%nat /\
  fresh st.1 /\ world_ok sha256 st.2.

Lemma Verify_ends v cancelled endpoint st : runs_well v st ->
  exists out st', Verify (Some v) cancelled endpoint st = Some (out, st') /\
  match out with
  | Good r => accepted Read sha256 hmac ParseTime ToASCII v endpoint st st' r
  | Bad _ => cleaned st st'
  end.
Proof.
  intros (H1 & H2 & H3 & H4 & H5 & H6 & H7).
  destruct (verifyBody_ends Read fails tempName fuel sha256 hmac ParseTime ToASCII H1 H2 H3 v st H6 H7 H4 H5
    cancelled endpoint) as (out & st' & E & H).
  unfold Sigv4Verify.Verify. rewrite E. destruct out as [r|e]; eexists _, _; (split; [reflexivity|done]).
Qed.

Lemma Verify_good v cancelled endpoint st st' r : runs_well v st ->
  Verify (Some v) cancelled endpoint st = Some (Good r, st') ->
  accepted Read sha256 hmac ParseTime ToASCII v endpoint st st' r.
Proof.
  intros Hr E. destruct (Verify_ends v cancelled endpoint st Hr) as (out & st1 & E1 & H).
  rewrite E in E1. by injection E1 as <- <-.
Qed.

(** C7. A verified request was authenticated: its one Authorization header has
    the AWS4-HMAC-SHA256 form over the run's fake access key, its one
    security token is the run's, the scope is the endpoint's, the host, date
    and token headers are signed, the stated time is within the skew of the
    clock and on the scope's date, the request is addressed to the endpoint
    without query signing, the captured bytes have the declared hash (or are
    declared unsigned where that is allowed), and the signature is the HMAC
    chain over the canonical request that the request still has. *)
Theorem Verify_sound (v : Verifier) (cancelled : bool) (endpoint : AWSEndpoint) (st st' : state)
    (r : VerifiedRequest) :
  runs_well v st -> Verify (Some v) cancelled endpoint st = Some (Good r, st') ->
  accepted Read sha256 hmac ParseTime ToASCII v endpoint st st' r.
Proof. apply Verify_good. Qed.

(** Verification always ends, and a request it refuses is cleaned up
    whatever the reason: its stream is closed exactly once, no file is left
    behind, and any body captured on the way is released. *)
Theorem Verify_releases (v : Verifier) (cancelled : bool) (endpoint : AWSEndpoint) (st : state) :
  runs_well v st ->
  exists out st', Verify (Some v) cancelled endpoint st = Some (out, st') /\
  forall e, out = Bad e -> cleaned st st'.
Proof.
  intros Hr. destruct (Verify_ends v cancelled endpoint st Hr) as (out & st' & E & H).
  exists out, st'. split; [done|]. by intros e ->.
Qed.

(** The request ends with the bytes of its body captured, and checked against
    the payload hash and the mode it was accepted under. *)
Definition carries (v : Verifier) (st st' : state) (data payloadHash mode : string) : Prop :=
  exists st1 p, with_body Read sha256 st st1 p data /\ st' = mode_set st1 mode /\
    payload_checked sha256 v payloadHash mode data.

(** Both bodies are declared unsigned, where that is allowed, or they have the
    same digest: they are the same bytes, unless the digest collides. *)
Definition same_body (v : Verifier) (mode1 mode2 data1 data2 : string) : Prop :=
  mode1 = PayloadHashUnsigned /\ mode2 = PayloadHashUnsigned /\ AllowUnsignedPayload (options v) = true \/
  mode1 <> PayloadHashUnsigned /\ mode2 <> PayloadHashUnsigned /\ sha256 data1 = sha256 data2 /\
    (data1 = data2 \/ collides sha256 data1 data2).

Lemma checked_same_body v payloadHash mode1 mode2 data1 data2 :
  payload_checked sha256 v payloadHash mode1 data1 -> payload_checked sha256 v payloadHash mode2 data2 ->
  same_body v mode1 mode2 data1 data2.
Proof.
  intros [(-> & -> & Ha)|[M1 H1]] [(-> & E & _)|[M2 H2]]; [by left|discriminate H2|by rewrite E in H1|].
  right. rewrite H1 in H2. injection H2 as E. split_and!; [naive_solver..|].
  destruct (decide (data1 = data2)); [by left|by right].
Qed.

(** C8. A signature is good for one request: two requests verified under the same
    Authorization header agree on the time, method, path, query, signed headers
    and payload hash, unless two different texts have the same keyed hash or
    two different canonical requests the same digest; and each payload hash
    being that of the body captured, the bodies are then either both declared
    unsigned (where that is allowed) or of one digest, that is the same bytes
    unless the digest collides on them. *)
Theorem Verify_binds (v : Verifier) (cancelled1 cancelled2 : bool) (endpoint1 endpoint2 : AWSEndpoint)
    (st1 st1' st2 st2' : state) (r1 r2 : VerifiedRequest) (authorization : string) :
  runs_well v st1 -> runs_well v st2 ->
  header_is (Header st1.1) "authorization" authorization ->
  header_is (Header st2.1) "authorization" authorization ->
  Verify (Some v) cancelled1 endpoint1 st1 = Some (Good r1, st1') ->
  Verify (Some v) cancelled2 endpoint2 st2 = Some (Good r2, st2') ->
  exists c names1 names2 t1 t2 hash1 hash2 can1 can2 data1 data2,
    signed sha256 hmac v st1'.1 c names1 t1 hash1 can1 /\
    signed sha256 hmac v st2'.1 c names2 t2 hash2 can2 /\
    carries v st1 st1' data1 hash1 (vr_PayloadMode r1) /\
    carries v st2 st2' data2 hash2 (vr_PayloadMode r2) /\
    (forged hmac v c (stringToSign t1 (c_date c) (c_region c) (c_service c) (Hash can1))
                     (stringToSign t2 (c_date c) (c_region c) (c_service c) (Hash can2)) \/
     collides sha256 (can_Request can1) (can_Request can2) \/
     formatAmz t1 = formatAmz t2 /\ same_request st1'.1 st2'.1 names1 names2 hash1 hash2 /\
     same_body v (vr_PayloadMode r1) (vr_PayloadMode r2) data1 data2).
Proof.
  intros W1 W2 H1 H2 E1%Verify_good E2%Verify_good; [|done..].
  pose proof (accepted_clean _ _ _ _ _ _ _ _ _ _ E1) as C1. pose proof (accepted_clean _ _ _ _ _ _ _ _ _ _ E2) as C2.
  destruct E1 as (c1 & n1 & t1 & p1 & d1 & h1 & k1 & s1 & A1 & _ & _ & B1 & P1 & _ & S1 & M1 & _).
  destruct E2 as (c2 & n2 & t2 & p2 & d2 & h2 & k2 & s2 & A2 & _ & _ & B2 & P2 & _ & S2 & M2 & _).
  rewrite <-(authorization_unique _ _ _ _ _ _ _ _ A1 A2 H1 H2) in S2.
  exists c1, n1, n2, t1, t2, h1, h2, k1, k2, d1, d2.
  split_and!; [done|done|by exists s1, p1|by exists s2, p2|].
  destruct (signed_binds sha256 hmac v c1 n1 n2 t1 t2 h1 h2 k1 k2 _ _ C1 C2 S1 S2)
    as [F|[F|[Ht Hr]]]; [by left|right; by left|right; right].
  split_and!; [done..|]. destruct Hr as (_ & _ & _ & _ & E & _). rewrite <-E in P2. by eapply checked_same_body.
Qed.

Lemma inferProtocol_supported (req : request (R := R)) : protocolSupported (inferProtocol req) = true.
Proof. unfold inferProtocol. by repeat case_if. Qed.

Lemma validScopeService_nonempty s : validScopeService s = true -> (s =? "")%string = false.
Proof. destruct s; [|done]. by vm_compute. Qed.

(** The verifier keeps its contract with the decoder: every request it returns
    passes [VerifiedRequest.Validate]. *)
Theorem Verify_validates (v : Verifier) (cancelled : bool) (endpoint : AWSEndpoint) (st st' : state)
    (r : VerifiedRequest) :
  runs_well v st -> Verify (Some v) cancelled endpoint st = Some (Good r, st') ->
  VerifiedRequest_Validate r = None.
Proof.
  intros Hr E%Verify_good; [|done].
  destruct E as (c & names & t & p & data & hash & can & st1 & A & _ & (Ev & _) & _ & Hp & _ & _ & _ & Er).
  rewrite Er. unfold VerifiedRequest_Validate. cbn [vr_Endpoint vr_Protocol vr_SigningScheme vr_SigningRegion
    vr_SigningService vr_PayloadMode]. rewrite Ev, inferProtocol_supported. cbn [negb].
  destruct A as (_ & _ & _ & _ & _ & _ & _ & Hreg & Hsvc & Hscope).
  rewrite (validScopeService_nonempty _ Hsvc).
  assert ((c_region c =? "")%string = false) as -> by (destruct (c_region c); [discriminate|done]).
  assert (payloadValid (vr_PayloadMode r) = true) as -> by (destruct Hp as [[-> _]|[[->|[-> _]] _]]; done).
  cbn [negb orb andb]. change (schemeSupported SigningHeaderV4) with true. cbn [negb].
  unfold verifySigningScope in Hscope. destruct (ep_SigningService endpoint =? "")%string eqn:Es; [done|].
  destruct (c_service c =? ep_SigningService endpoint)%string; [|done]. cbn [negb andb orb] in *.
  assert ((ep_SigningRegion endpoint =? "")%string = false) as Hsr.
  { unfold Endpoint_Validate in Ev. rewrite Es in Ev. cbn [negb andb] in Ev.
    destruct (ep_SigningRegion endpoint =? "")%string eqn:Esr; [|done]. cbn [negb andb] in Ev.
    by repeat case_match. }
  rewrite Hsr in Hscope. cbn [andb] in Hscope.
  destruct (c_region c =? ep_SigningRegion endpoint)%string; [done|]. by rewrite orb_true_r in Hscope.
Qed.
End Claims.

(** *** Generated credentials *)

Lemma base64_set (p : Z -> bool) s : Forall byte s ->
  every_byte (fun c => negb (base64Byte c) || negb (p c)) = true -> bytes_any p (base64Encode s) = false.
Proof.
  intros Hs Hp. rewrite bytes_any_all. apply negb_false_iff. eapply bytes_all_weaken; [|apply base64_bytes; [by eexists|done]].
  intros c Hc Hb. pose proof (every_byte_spec _ c Hp Hc) as H. cbn in H. rewrite Hb in H. done.
Qed.

(** The credentials of a run suit its verifier: for any 32 bytes of randomness
    per value, [Generate] succeeds and [NewVerifier] accepts the credential with
    its default limits, whatever the system clock reads. *)
Theorem Generate_accepted (random : nat -> option (list Z)) (created now : Time) :
  random_ok random ->
  exists secrets, Generate random created = Ok secrets /\
  NewVerifier now (Fake secrets) [] =
    Good (mkVerifier (Fake secrets)
      (mkVerifyOptions (Some now) defaultClockSkew defaultBodyMemory defaultBodySpool false)).
Proof.
  intros Hr. destruct (Generate_spec random created Hr) as (m0 & m1 & m2 & m3 & m4 & _ & _ & _ & _ & _ & E & Hm).
  eexists. split; [exact E|]. unfold NewVerifier. cbn [fold_left Clock Fake].
  inversion_clear Hm as [|? ? _ Hm1]. inversion_clear Hm1 as [|? ? [L1 B1] Hm2].
  inversion_clear Hm2 as [|? ? [L2 B2] Hm3]. inversion_clear Hm3 as [|? ? [L3 B3] _].
  assert (forall m, List.length m = 32%nat -> (base64Encode m =? "")%string = false) as Hne.
  { intros m Hl. apply base64_length in Hl. apply eqb_false_str. by intros Hz; rewrite Hz in Hl. }
  unfold validateFakeCredential. cbn [AccessKeyID SecretAccessKey SessionToken].
  assert (slen (accessKeyIDPrefix ++ base64Encode m1) = 48) as ->
    by (rewrite slen_app, base64_length by done; done).
  rewrite !Hne, !base64_length by done. cbn [Z.ltb Z.compare Pos.compare Pos.compare_cont orb].
  rewrite bytes_any_app, !base64_set by (done || by vm_compute). done.
Qed.

(** ** Concrete inputs *)

(** A digest of 32 bytes to run the verifier with. *)
Fixpoint toyFold (s : string) (n : Z) : Z :=
  match s with
  | EmptyString => n
  | String a s => toyFold s ((n * 257 + ord a + 1) mod 2 ^ 256)
  end.
Fixpoint toyBytes (k : nat) (n : Z) : string :=
  match k with O => EmptyString | S k => String (chr (n mod 256)) (toyBytes k (n / 256)) end.
Definition toyDigest (s : string) : string := toyBytes 32 (toyFold s 0).
Definition toyHmac (k m : string) : string := toyDigest (k ++ m).

Definition sampleFake : FakeCredential := mkFake "KORDN0123456789AB" "secret" "token" zeroTime.
Definition sampleVerifier : Verifier :=
  mkVerifier sampleFake (mkVerifyOptions (Some (mkTime 2024 1 2 3 5 5 0)) defaultClockSkew 4 6 false).
Definition sampleEndpoint : AWSEndpoint :=
  mkEndpoint "aws" "ec2.us-east-1.amazonaws.com" "ec2" "ec2" "us-east-1" "us-east-1" false "" false false "".
Definition sampleHash : string := hex_encode (toyDigest "abcdef").
Definition sampleClaim (signature : string) : Claim :=
  mkClaim "20240102" "us-east-1" "ec2" "host;x-amz-date;x-amz-security-token" signature.
Definition sampleHeaders (signature : string) : header :=
  list_to_map [("Authorization", [authorization_of sampleVerifier (sampleClaim signature)]);
    ("X-Amz-Date", ["20240102T030405Z"]); ("X-Amz-Security-Token", ["token"]);
    ("X-Amz-Content-Sha256", [sampleHash])].
Definition sampleRequest (signature : string) (chunks : list string) : request (R := list string) :=
  mkRequest "POST" (Some (mkURL false "ec2.us-east-1.amazonaws.com" "/" "" "" "Action=DescribeInstances"))
    "ec2.us-east-1.amazonaws.com" (sampleHeaders signature) (-1) (mkReqBody (Raw chunks) GetNil None None).
Definition sampleCanonical : res Canonical := let _ := ascii_tables in
  BuildCanonicalRequest toyDigest (Some (sampleRequest "" [])) ["host"; "x-amz-date"; "x-amz-security-token"] sampleHash.
Definition sampleSignature : string :=
  match sampleCanonical with
  | Good canonical => hex_encode (signingKey toyHmac "secret" "20240102" "us-east-1" "ec2"
      (stringToSign (mkTime 2024 1 2 3 4 5 0) "20240102" "us-east-1" "ec2" (Hash canonical)))
  | Bad _ => EmptyString
  end.
Definition sampleRun (signature : string) : option (res VerifiedRequest * Sigv4Request.state (R := list string)) :=
  Verify (U := ascii_tables) chunkRead (fun _ => false) longerName (enough (mkBodyOptions 4 6)) toyDigest toyHmac
    (fun _ => None) (fun s => Ok s) (Some sampleVerifier) false sampleEndpoint
    (sampleRequest signature ["abc"; "def"], emptyWorld).
Definition sampleStart (signature : string) : Sigv4Request.state (R := list string) :=
  (sampleRequest signature ["abc"; "def"], emptyWorld).
Definition sampleResult : VerifiedRequest :=
  mkVerified sampleEndpoint ProtocolRESTJSON SigningHeaderV4 "us-east-1" "ec2" PayloadHashSHA256.
Definition endOf (run : option (res VerifiedRequest * Sigv4Request.state (R := list string))) :
    Sigv4Request.state (R := list string) :=
  match run with Some (_, st) => st | None => sampleStart EmptyString end.
Definition sampleEnd : Sigv4Request.state (R := list string) := endOf (sampleRun sampleSignature).
Definition codeOf (run : option (res VerifiedRequest * Sigv4Request.state (R := list string))) : string :=
  match run with Some (Bad e, _) => Code e | _ => EmptyString end.

Lemma emptyWorld_good (sha256 : string -> string) : world_ok sha256 emptyWorld.
Proof. constructor; cbn; intros p; try intros q; intros; by rewrite lookup_empty in *. Qed.

Lemma sample_runs_well signature :
  runs_well chunkRead longerName (enough (mkBodyOptions 4 6)) toyDigest sampleVerifier (sampleStart signature).
Proof.
  assert (normalizedBodyOptions (bodyOptions sampleVerifier) = mkBodyOptions 4 6) as E by done.
  unfold runs_well. rewrite E. split; [exact chunkRead_length|]. split; [exact longerName_fresh|].
  split; [done|]. split; [reflexivity|]. split; [apply le_n|]. split; [|apply emptyWorld_good].
  split; [reflexivity|]. intros v. discriminate.
Qed.

Lemma Verify_sound_witness :
  let _ := ascii_tables in
  accepted chunkRead toyDigest toyHmac (fun _ => None) (fun s => Ok s) sampleVerifier sampleEndpoint
    (sampleStart sampleSignature) sampleEnd sampleResult.
Proof.
  apply (Verify_sound (U := ascii_tables) chunkRead (fun _ => false) longerName (enough (mkBodyOptions 4 6))
    toyDigest toyHmac (fun _ => None) (fun s => Ok s) sampleVerifier false sampleEndpoint);
    [apply sample_runs_well|vm_compute; reflexivity].
Defined.

(** A wrong signature: the captured body is released again. *)
Lemma Verify_releases_witness :
  let _ := ascii_tables in
  exists e st', sampleRun (hex_encode (toyDigest "forged")) = Some (Bad e, st') /\
  Code e = CodeInvalidSignature /\ cleaned (sampleStart (hex_encode (toyDigest "forged"))) st'.
Proof.
  destruct (Verify_releases (U := ascii_tables) chunkRead (fun _ => false) longerName (enough (mkBodyOptions 4 6))
    toyDigest toyHmac (fun _ => None) (fun s => Ok s) sampleVerifier false sampleEndpoint
    (sampleStart (hex_encode (toyDigest "forged"))) (sample_runs_well _)) as (out & st' & E & H).
  assert (codeOf (Some (out, st')) = CodeInvalidSignature) as Hc.
  { rewrite <-E. change (codeOf (sampleRun (hex_encode (toyDigest "forged"))) = CodeInvalidSignature).
    vm_compute. reflexivity. }
  destruct out as [r|e]; [discriminate Hc|]. exists e, st'. split; [exact E|]. split; [exact Hc|exact (H e eq_refl)].
Defined.

Lemma Verify_binds_witness :
  let _ := ascii_tables in
  exists c names1 names2 t1 t2 hash1 hash2 can1 can2 data1 data2,
    signed toyDigest toyHmac sampleVerifier sampleEnd.1 c names1 t1 hash1 can1 /\
    signed toyDigest toyHmac sampleVerifier sampleEnd.1 c names2 t2 hash2 can2 /\
    carries chunkRead toyDigest sampleVerifier (sampleStart sampleSignature) sampleEnd data1 hash1 PayloadHashSHA256 /\
    carries chunkRead toyDigest sampleVerifier (sampleStart sampleSignature) sampleEnd data2 hash2 PayloadHashSHA256.
Proof.
  assert (let _ := ascii_tables in header_is (Header (sampleStart sampleSignature).1) "authorization"
    (authorization_of sampleVerifier (sampleClaim sampleSignature))) as Ha
    by (apply requestHeader_spec; vm_compute; reflexivity).
  destruct (Verify_binds (U := ascii_tables) chunkRead (fun _ => false) longerName (enough (mkBodyOptions 4 6))
    toyDigest toyHmac (fun _ => None) (fun s => Ok s) sampleVerifier false false sampleEndpoint sampleEndpoint
    (sampleStart sampleSignature) sampleEnd (sampleStart sampleSignature) sampleEnd sampleResult sampleResult _
    (sample_runs_well _) (sample_runs_well _) Ha Ha ltac:(vm_compute; reflexivity) ltac:(vm_compute; reflexivity))
    as (c & n1 & n2 & t1 & t2 & h1 & h2 & k1 & k2 & d1 & d2 & H1 & H2 & H3 & H4 & _).
  by exists c, n1, n2, t1, t2, h1, h2, k1, k2, d1, d2.
Defined.

Lemma Verify_validates_witness : let _ := ascii_tables in VerifiedRequest_Validate sampleResult = None.
Proof.
  apply (Verify_validates (U := ascii_tables) chunkRead (fun _ => false) longerName (enough (mkBodyOptions 4 6))
    toyDigest toyHmac (fun _ => None) (fun s => Ok s) sampleVerifier false sampleEndpoint
    (sampleStart sampleSignature) sampleEnd); [apply sample_runs_well|vm_compute; reflexivity].
Defined.

Lemma Generate_accepted_witness : exists secrets,
  Generate (fun n => Some (repeat (Z.of_nat n) 32)) zeroTime = Ok secrets /\
  exists v, NewVerifier zeroTime (Fake secrets) [] = Good v.
Proof.
  destruct (Generate_accepted (fun n => Some (repeat (Z.of_nat n mod 256) 32)) zeroTime zeroTime) as (s & E & H).
  - intros n. eexists. split; [done|]. split; [apply repeat_length|]. apply List.Forall_forall.
    intros x Hx%repeat_spec. subst. apply Z.mod_pos_bound. lia.
  - exists s. split; [exact E|by eexists].
Defined.
End Sigv4Soundness.
