(* ===== verification/Sigv4Resign.v ===== *)
(** * Re-signing a request for the upstream (internal/sigv4: resign.go)

    [Resign] checks the inbound request again, makes the outgoing request from
    it without the caller's signature, hop headers and forwarding headers, gives
    it a view of the captured body, and signs it with the credentials the
    provider yields.  The SDK's signer and the provider are parameters: what a
    call of them returns.  The inbound request and the outgoing one share the
    body in the store. *)

From Stdlib Require Import ZArith Lia Ascii.
From stdpp Require Import base gmap strings list.
From S2P Require Import Prelude GoStrings GoEncoding AwsTypes Endpoint.
From S2P Require Import GoTime Credentials Sigv4Canonical Sigv4Body Sigv4Request.
From S2P Require Import Sigv4Verify Sigv4Soundness.

Module Sigv4Resign.
Import AwsTypes.AwsTypes GoTime.GoTime Credentials.Credentials.
Import Sigv4Canonical.Sigv4Canonical Sigv4Body.Sigv4Body Sigv4Request.Sigv4Request Sigv4Verify.Sigv4Verify.
Import Sigv4Soundness.Sigv4Soundness.

(** ** The query *)

Section Queries.
Context `{U : UnicodeTables}.

Definition isSigningQueryKey (value : string) : bool :=
  mem_str (ToLower value)
    ["x-amz-algorithm"; "x-amz-credential"; "x-amz-signature"; "x-amz-signedheaders";
     "x-amz-expires"; "x-amz-date"; "x-amz-security-token"].

(** The loop over the parts: the ones kept. *)
Fixpoint keptParts (parts : list string) : res (list string) :=
  match parts with
  | [] => Good []
  | part :: parts =>
    match percentDecodeQuery (cutQuery part).1 with
    | None => newError CodeMalformedRequest "request query contains an invalid escape"
    | Some decoded =>
      kept ← keptParts parts;
      Good (if isSigningQueryKey decoded then kept else part :: kept)
    end
  end.
Definition scrubAndCanonicalizeQuery (raw : string) : res string :=
  if (raw =? "")%string then Good EmptyString
  else kept ← keptParts (Split raw "&"); canonicalRawQuery (Join kept "&").
End Queries.

(** ** Headers *)

Section Headers.
Context `{U : UnicodeTables}.

(** The range over the map deletes the keys that fold to the name. *)
Definition deleteHeaderFold (h : header) (name : string) : header :=
  filter (fun kv => EqualFold kv.1 name = false) h.

(** The names the Connection headers nominate. *)
Definition nominatedBy (values : list string) : list string :=
  value ← values;
  List.filter (fun name => negb (name =? "")%string) (TrimSpace <$> Split value ",").
Definition nominatedIn (entries : list (string * list string)) : list string :=
  kv ← entries; if EqualFold kv.1 "connection" then nominatedBy kv.2 else [].

Definition forwardingHeader (key : string) : bool :=
  HasPrefix (ToLower key) "x-forwarded-" || (ToLower key =? "forwarded")%string.

(** The second range: a key deleted before it is reached is not visited. *)
Definition scrubForwarded (h : header) (keys : list string) : header :=
  fold_left (fun h key => if bool_decide (is_Some (h !! key)) && forwardingHeader key
                          then deleteHeaderFold h key else h) keys h.

Definition hopHeaders : list string :=
  ["authorization"; "proxy-authorization"; "proxy-authenticate"; "proxy-connection"; "connection";
   "keep-alive"; "te"; "trailer"; "transfer-encoding"; "upgrade"; "via"; "host"; "x-amz-algorithm";
   "x-amz-credential"; "x-amz-signature"; "x-amz-signedheaders"; "x-amz-expires"; "x-amz-date";
   "x-amz-security-token"; "date"; "x-real-ip"].

Definition scrubForwardingHeaders (h : header) : header :=
  let nominated := nominatedIn (map_to_list h) in
  let h := fold_left deleteHeaderFold nominated h in
  let h := scrubForwarded h (map_to_list h).*1 in
  fold_left deleteHeaderFold hopHeaders h.

(** ** The payload *)

Definition hexDigit (value : Z) : Z :=
  if between (ord "0") (ord "9") value then value - ord "0"
  else if between (ord "a") (ord "f") value then value - ord "a" + 10
  else if between (ord "A") (ord "F") value then value - ord "A" + 10
  else -1.

(** [hexDecode]; a last odd byte is left out. *)
Fixpoint hexDecode (value : string) : option string :=
  match value with
  | String a (String b s) =>
    let hi := hexDigit (ord a) in
    let lo := hexDigit (ord b) in
    if (hi <? 0) || (lo <? 0) then None
    else String (chr (Z.lor (Z.shiftl hi 4) lo)) <$> hexDecode s
  | _ => Some EmptyString
  end.

Fixpoint compareLoop (l r : string) (result : Z) : Z :=
  match l, r with
  | String a l, String b r => compareLoop l r (Z.lor result (Z.lxor (ord a) (ord b)))
  | _, _ => result
  end.
Definition subtleCompare (l r : string) : Z :=
  if negb (slen l =? slen r) then 0
  else if compareLoop l r 0 =? 0 then 1 else 0.

Definition validateResignPayloadHeaders {B} (req : Request B) (allowUnsigned : bool) : res unit :=
  let '(contentType, present, duplicate) := requestHeader (Header req) "content-type" in
  if duplicate then newError CodeMalformedRequest "content type is duplicated"
  else if present && isEventStreamContentType contentType
  then newError CodeUnsupportedPayload "event stream payloads are unsupported"
  else
    let '(value, present, duplicate) := requestHeader (Header req) "x-amz-content-sha256" in
    if duplicate then newError CodeMalformedRequest "payload hash header is duplicated"
    else if negb present then Good tt
    else
      let value := TrimSpace value in
      if (value =? "UNSIGNED-PAYLOAD")%string then
        if negb allowUnsigned then newError CodeUnsupportedPayload "unsigned payloads are disabled"
        else Good tt
      else if mem_str value streamingModes
      then newError CodeUnsupportedPayload "streaming payloads are unsupported"
      else if (value =? "")%string then newError CodeUnsupportedPayload "payload hash is empty"
      else if negb (validPayloadHash value)
      then newError CodeUnsupportedPayload "payload hash encoding is unsupported"
      else Good tt.

(** [resignPayloadHash] on a body that is not nil; [actual] is its digest. *)
Definition resignPayloadHash {B} (req : Request B) (actual : string) (allowUnsigned : bool) : res string :=
  let '(contentType, present, duplicate) := requestHeader (Header req) "content-type" in
  if duplicate then newError CodeMalformedRequest "content type is duplicated"
  else if present && isEventStreamContentType contentType
  then newError CodeUnsupportedPayload "event stream payloads are unsupported"
  else
    let '(value, present, duplicate) := requestHeader (Header req) "x-amz-content-sha256" in
    if duplicate then newError CodeMalformedRequest "payload hash header is duplicated"
    else
      let value := TrimSpace value in
      if present && (value =? "UNSIGNED-PAYLOAD")%string then
        if negb allowUnsigned then newError CodeUnsupportedPayload "unsigned payloads are disabled"
        else Good value
      else if present && negb (validPayloadHash value)
      then newError CodeUnsupportedPayload "payload hash encoding is unsupported"
      else if present then
        match hexDecode value, hexDecode actual with
        | Some provided, Some actualBytes =>
          if negb (slen provided =? slen actualBytes) || negb (subtleCompare provided actualBytes =? 1)
          then newError CodeInvalidSignature "payload hash does not match request body"
          else Good value
        | _, _ => newError CodeInvalidSignature "payload hash does not match request body"
        end
      else Good actual.
End Headers.

(** ** The resigner *)

Section Resigning.
Context `{U : UnicodeTables} {R : Type} (Read : reader R).
Context (fails : nat -> bool) (tempName : gset string -> string) (fuel : nat).
Context (sha256 : string -> string) (ToASCII : string -> result string).
Notation state := (Sigv4Request.state (R := R)).
Notation request := (Sigv4Request.request (R := R)).
Notation M := (M (R := R)).

(** [SignHTTP]: credentials, request, payload hash, service, region and time to
    the signed request, or an error. *)
Definition HTTPSigner : Type :=
  aws_Credentials -> request -> string -> string -> string -> Time -> option request.

Record ResignOptions := mkResignOptions {
  r_Clock : option Time; r_Signer : option HTTPSigner;
  r_MaxInMemoryBodyBytes : Z; r_MaxSpoolBodyBytes : Z; r_AllowUnsignedPayload : bool;
}.
Definition ResignOption : Type := ResignOptions -> ResignOptions.

Definition WithResignClock (clock : option Time) : ResignOption := fun o =>
  mkResignOptions clock (r_Signer o) (r_MaxInMemoryBodyBytes o) (r_MaxSpoolBodyBytes o) (r_AllowUnsignedPayload o).
Definition WithResignSigner (signer : option HTTPSigner) : ResignOption := fun o =>
  mkResignOptions (r_Clock o) signer (r_MaxInMemoryBodyBytes o) (r_MaxSpoolBodyBytes o) (r_AllowUnsignedPayload o).
Definition WithResignBodyLimits (memory spool : Z) : ResignOption := fun o =>
  mkResignOptions (r_Clock o) (r_Signer o) memory spool (r_AllowUnsignedPayload o).
Definition WithResignUnsignedPayload (allow : bool) : ResignOption := fun o =>
  mkResignOptions (r_Clock o) (r_Signer o) (r_MaxInMemoryBodyBytes o) (r_MaxSpoolBodyBytes o) allow.

(** The provider by what a call of [Retrieve] does. *)
Record Resigner := mkResigner { provider : called aws_Credentials; r_options : ResignOptions }.

(** [NewResigner]; [now] is the system clock, [sdk] the SDK's signer. *)
Definition NewResigner (now : Time) (sdk : HTTPSigner) (p : option (called aws_Credentials))
    (opts : list (option ResignOption)) : res Resigner :=
  match p with
  | None => newError CodeMalformedRequest "upstream credential provider is unavailable"
  | Some p =>
    let selected := mkResignOptions (Some now) (Some sdk) defaultBodyMemory defaultBodySpool false in
    let selected := fold_left (fun o opt => match opt with Some g => g o | None => o end) opts selected in
    let selected := match r_Clock selected with
                    | None => WithResignClock (Some now) selected | Some _ => selected end in
    match r_Signer selected with
    | None => newError CodeMalformedRequest "upstream signer is unavailable"
    | Some _ =>
      if (r_MaxInMemoryBodyBytes selected <=? 0) || (r_MaxSpoolBodyBytes selected <=? 0) ||
         (r_MaxSpoolBodyBytes selected <? r_MaxInMemoryBodyBytes selected)
      then newError CodeMalformedRequest "body limits are invalid"
      else Good (mkResigner p selected)
    end
  end.

Definition retrieveCredentials (p : called aws_Credentials) : res aws_Credentials :=
  let unavailable := newError CodeMalformedCredential "upstream credentials are unavailable" in
  match p with
  | Panicked | Failed => unavailable
  | Returned value =>
    if (aws_AccessKeyID value =? "")%string || (aws_SecretAccessKey value =? "")%string ||
       bytes_any (fun c => (c =? 0) || (c =? 13) || (c =? 10))
         (aws_AccessKeyID value ++ aws_SecretAccessKey value ++ aws_SessionToken value)
    then unavailable else Good value
  end.

Definition validateBodyAvailable (p : nat) : M unit := fun st =>
  let (v, w) := Reader fails p st.2 in
  match v with
  | None => reject CodeBodyReadFailure "request body is unavailable" (st.1, w)
  | Some v => Some (Good tt, (st.1, closeView v w))
  end.

(** The body a reader gives, which the caller closes; the request is left as it
    is. *)
Definition captureReader (o : BodyOptions) (s : Stream R) : M nat := fun st =>
  match captureStream Read fails tempName sha256 fuel o s st.2 with
  | None => None
  | Some (out, w) => Some (out, (st.1, match s with View v => closeView v w | _ => w end))
  end.

(** The one-shot body: it is read, closed and replaced by a view. *)
Definition captureOriginal (o : BodyOptions) : M nat := fun st =>
  match captureStream Read fails tempName sha256 fuel o (stream (BodyState st.1)) st.2 with
  | None => None
  | Some (out, w) =>
    let (req, w) := closeStream (st.1, w) in
    match out with
    | Bad e => Some (Bad e, (req, w))
    | Good p =>
      let (v, w) := newReader fails p w in
      let b := BodyState req in
      Some (Good p, (withBody req (mkReqBody (View v) (getBody b) (Some p) (payloadMode b)), w))
    end
  end.

(** [captureBodyForResign]; closing the reader of a caller's [GetBody] is the
    caller's own. *)
Definition captureBodyForResign (o : BodyOptions) : M nat := fun st =>
  match stream (BodyState st.1) with
  | NoBody => captureReader o NoBody st
  | _ =>
    match getBody (BodyState st.1) with
    | GetNil => captureOriginal o st
    | GetCaller None => reject CodeBodyReadFailure "request body is unavailable" st
    | GetCaller (Some r) => captureReader o (Raw r) st
    | GetView q => let (v, w) := newReader fails q st.2 in captureReader o (View v) (st.1, w)
    end
  end.

(** The clone under the context [ctx], whose payload mode is [mode], with its
    address, query and headers replaced. *)
Definition makeOutgoing (req : request) (u : URL) (mode : option string) (endpoint : AWSEndpoint)
    (canonicalQuery : string) : request :=
  mkRequest (Method req)
    (Some (mkURL false (ep_Host endpoint) (Path u) (RawPath u) (Opaque u) canonicalQuery))
    (ep_Host endpoint) (scrubForwardingHeaders (Header req)) (ContentLength req)
    (mkReqBody (stream (BodyState req)) (getBody (BodyState req)) None mode).

(** [attachBody], on the outgoing request. *)
Definition attachBody (out : request) (p : nat) (w : World) : request * World :=
  let (v, w) := newReader fails p w in
  (withLength (withBody out (mkReqBody (View v) (GetView p) (Some p) (payloadMode (BodyState out)))) (Size w p), w).

Definition currentWorld : M World := fun st => Some (Good st.2, st).
Definition attach (out : request) (p : nat) : M request := fun st =>
  let (out, w) := attachBody out p st.2 in Some (Good out, (st.1, w)).

Definition resignOptions (r : Resigner) : BodyOptions :=
  mkBodyOptions (r_MaxInMemoryBodyBytes (r_options r)) (r_MaxSpoolBodyBytes (r_options r)).

(** The signing identity of an endpoint. *)
Definition resignRegion (endpoint : AWSEndpoint) : string :=
  if (ep_SigningRegion endpoint =? "")%string && negb (IsGlobal endpoint) then ep_Region endpoint
  else ep_SigningRegion endpoint.
Definition resignService (endpoint : AWSEndpoint) : string :=
  if (ep_SigningService endpoint =? "")%string then ep_Service endpoint else ep_SigningService endpoint.

(** From the captured body on: every failure closes it. *)
Definition signOutgoing (r : Resigner) (u : URL) (mode : option string) (endpoint : AWSEndpoint)
    (canonicalQuery : string) (allowUnsigned : bool) (p : nat) : M request := closing p (
   req ← current; w ← currentWorld;
   payloadHash ← lift (resignPayloadHash req (SHA256 w p) allowUnsigned);
   out ← attach (makeOutgoing req u mode endpoint canonicalQuery) p;
   creds ← lift (retrieveCredentials (provider r));
   let signingTime := default zeroTime (r_Clock (r_options r)) in
   _ ← require (negb (IsZero signingTime)) CodeInvalidTimestamp "signing clock is invalid";
   match r_Signer (r_options r) ≫= (fun sign =>
           sign creds out payloadHash (resignService endpoint) (resignRegion endpoint) signingTime) with
   | Some signed => mret signed
   | None => reject CodeInvalidSignature "upstream signing failed"
   end).

Definition resignBody (r : Resigner) (u : URL) (mode : option string) (endpoint : AWSEndpoint) : M request :=
  req ← current;
  let captured := marker (BodyState req) in
  _ ← require (err_nil (Endpoint_Validate endpoint)) CodeEndpointMismatch "endpoint metadata is invalid";
  _ ← lift (verifyRequestEndpoint ToASCII req endpoint);
  _ ← require (negb ((resignRegion endpoint =? "")%string || (resignService endpoint =? "")%string))
        CodeEndpointMismatch "endpoint signing identity is unavailable";
  canonicalQuery ← lift (scrubAndCanonicalizeQuery (RawQuery u));
  let allowUnsigned := r_AllowUnsignedPayload (r_options r) ||
    match payloadMode (BodyState req) with Some m => (m =? PayloadHashUnsigned)%string | None => false end in
  _ ← lift (validateResignPayloadHeaders req allowUnsigned);
  p ← match captured with
      | Some p => _ ← validateBodyAvailable p; mret p
      | None => captureBodyForResign (resignOptions r)
      end;
  signOutgoing r u mode endpoint canonicalQuery allowUnsigned p.

(** [Resign] on a request that is not nil, under a context with the payload mode
    [mode]: the deferred cleanup closes the body the request came with. *)
Definition Resign (r : option Resigner) (mode : option string) (endpoint : AWSEndpoint) : M request :=
  fun st =>
  match r with
  | None => reject CodeMalformedRequest "resigner is unavailable" st
  | Some r =>
    match Url st.1 with
    | None => reject CodeMalformedRequest "request URL is unavailable" st
    | Some u =>
      match resignBody r u mode endpoint st with
      | Some (Bad e, (req, w)) =>
        Some (Bad e, (req, match marker (BodyState st.1) with Some p => Close p w | None => w end))
      | run => run
      end
    end
  end.

(** [ReSign], the functional form. *)
Definition ReSign (now : Time) (sdk : HTTPSigner) (p : option (called aws_Credentials))
    (opts : list (option ResignOption)) (mode : option string) (endpoint : AWSEndpoint) : M request :=
  resigner ← lift (NewResigner now sdk p opts);
  Resign (Some resigner) mode endpoint.
End Resigning.

(** ** Comparing digests *)

Lemma compareLoop_zero l : forall r n, slen l = slen r -> compareLoop l r n = 0 <-> n = 0 /\ l = r.
Proof.
  induction l as [|a l IH]; intros [|b r] n E; cbn [compareLoop]; try done; [by split; [|intros []]|].
  rewrite IH by (unfold slen in *; cbn [String.length] in E; lia).
  rewrite Z.lor_eq_0_iff. split.
  - intros [[-> H%Z.lxor_eq%ord_inj] ->]. by subst.
  - intros [-> [= -> ->]]. by rewrite Z.lxor_nilpotent.
Qed.

Lemma subtleCompare_spec l r : (subtleCompare l r =? 1) = (l =? r)%string.
Proof.
  unfold subtleCompare. destruct (Z.eqb_spec (slen l) (slen r)) as [E|E]; cbn [negb].
  - pose proof (compareLoop_zero l r 0 E) as H. destruct (Z.eqb_spec (compareLoop l r 0) 0) as [E0|E0].
    + apply H in E0 as [_ ->]. by rewrite (proj2 (eqb_true_str r r)).
    + symmetry. apply eqb_false_str. intros ->. by apply E0, H.
  - symmetry. apply eqb_false_str. by intros ->.
Qed.

(** On text of even length both decoders agree. *)
Lemma hexDecode_even s : Nat.Even (String.length s) -> hexDecode s = hexDecodeString s.
Proof.
  induction s as [|x|x y s IH _] using string_two_ind; [done|by intros [n Hn]; cbn in Hn; lia|].
  intros [n Hn]. cbn [hexDecode hexDecodeString]. rewrite IH by (exists (n - 1)%nat; cbn in Hn; lia).
  change hexDigit with hexValue. destruct (_ || _) eqn:E; [done|]. apply orb_false_iff in E as [E1%Z.ltb_ge E2%Z.ltb_ge].
  pose proof (hexValue_range (ord x)). pose proof (hexValue_range (ord y)). by rewrite nibbles by lia.
Qed.

Lemma hex_encode_even s : Nat.Even (String.length (hex_encode s)).
Proof. induction s as [|c s [n IH]]; [by exists 0%nat|]. exists (S n). cbn. lia. Qed.

(** ** What is scrubbed *)

Section Scrubbing.
Context `{U : UnicodeTables}.

Lemma decodePart_cut part : decodePart part =
  k ← percentDecodeQuery (cutQuery part).1; v ← percentDecodeQuery (cutQuery part).2; Some (k, v).
Proof. unfold decodePart. by destruct (cutQuery part). Qed.

Lemma mapM_decode part parts : mapM decodePart (part :: parts) =
  decodePart part ≫= (fun p => mapM decodePart parts ≫= (fun ps => Some (p :: ps))).
Proof. done. Qed.

Lemma keptParts_spec parts kept : keptParts parts = Good kept ->
  (forall part, part ∈ kept -> part ∈ parts /\ exists k, percentDecodeQuery (cutQuery part).1 = Some k /\
     isSigningQueryKey k = false) /\
  forall ps, mapM decodePart parts = Some ps ->
    mapM decodePart kept = Some (List.filter (fun p => negb (isSigningQueryKey p.1)) ps).
Proof.
  revert kept. induction parts as [|part parts IH]; intros kept; cbn [keptParts].
  { intros [= <-]. split; [intros ? []%not_elem_of_nil|]. by intros ps [= <-]. }
  destruct (percentDecodeQuery (cutQuery part).1) as [k|] eqn:Ek; [|done].
  destruct (keptParts parts) as [rest|] eqn:Er; [|done]. cbn [mbind res_bind]. intros [= <-].
  destruct (IH rest eq_refl) as [H1 H2]. split.
  - intros p. destruct (isSigningQueryKey k) eqn:Es.
    + intros Hp. apply H1 in Hp as [Hp Hk]. split; [by right|done].
    + rewrite elem_of_cons. intros [->|Hp]; [split; [by left|eauto]|].
      apply H1 in Hp as [Hp Hk]. split; [by right|done].
  - intros ps. rewrite mapM_decode, decodePart_cut, Ek. cbn [mbind option_bind].
    destruct (percentDecodeQuery (cutQuery part).2) as [w|] eqn:Ev; [|done]. cbn [mbind option_bind].
    destruct (mapM decodePart parts) as [qs|]; [|done]. cbn [mbind option_bind]. intros [= <-].
    cbn [List.filter fst]. destruct (isSigningQueryKey k); cbn [negb]; [by apply H2|].
    rewrite mapM_decode, decodePart_cut, Ek. cbn [mbind option_bind]. rewrite Ev. cbn [mbind option_bind].
    by rewrite (H2 qs eq_refl).
Qed.

(** Canonicalising keeps the pairs, and its result. *)
Lemma canonicalised raw q : canonicalRawQuery raw = Good q -> exists ps qs,
  decodedPairs raw = Some ps /\ decodedPairs q = Some qs /\ Permutation qs ps /\ canonicalRawQuery q = Good q.
Proof.
  intros E. pose proof (canonicalRawQuery_spec raw) as H.
  destruct (decodedPairs raw) as [ps|]; [|destruct H as (e & H & _); congruence].
  rewrite E in H. injection H as ->. destruct (decodedPairs_queryText ps) as (qs & Eq & Hp).
  exists ps, qs. split_and!; [done..|]. pose proof (canonicalRawQuery_spec (queryText ps)) as H.
  rewrite Eq in H. rewrite H. f_equal. by apply queryText_perm.
Qed.

(** Joined parts are empty only when there is none or a single empty one. *)
Lemma Join_empty l : Join l "&" = "" -> l = [] \/ l = [""].
Proof. destruct l as [|x [|y l]]; [by left|cbn; intros ->; by right|]. by destruct x. Qed.

(** The forwarded query is canonical and carries no signing parameter; otherwise
    it has the inbound pairs, a lone empty pair apart. *)
Lemma scrubQuery_spec raw q : scrubAndCanonicalizeQuery raw = Good q ->
  canonicalRawQuery q = Good q /\
  exists qs, decodedPairs q = Some qs /\ Forall (fun p => isSigningQueryKey p.1 = false) qs /\
  forall ps, decodedPairs raw = Some ps ->
    let rest := List.filter (fun p => negb (isSigningQueryKey p.1)) ps in
    Permutation qs rest \/ qs = [] /\ rest = [("", "")].
Proof.
  unfold scrubAndCanonicalizeQuery, decodedPairs. destruct (raw =? "")%string eqn:Er.
  { intros [= <-]. split; [done|]. exists []. split_and!; [done..|]. intros ps [= <-]. by left. }
  destruct (keptParts (Split raw "&")) as [kept|] eqn:Ek; [|done]. cbn [mbind res_bind].
  intros (ks & qs & E1 & E2 & Hp & E3)%canonicalised. fold (decodedPairs q).
  apply keptParts_spec in Ek as [Hkept Hps]. split; [done|]. exists qs. split; [done|].
  rewrite Hp. unfold decodedPairs in E1. destruct (Join kept "&" =? "")%string eqn:Ej.
  - injection E1 as <-. apply Permutation_nil_r in Hp. subst qs. split; [constructor|].
    intros ps Eps. specialize (Hps ps Eps). apply eqb_true_str, Join_empty in Ej as [->| ->].
    + injection Hps as <-. by left.
    + injection Hps as <-. by right.
  - assert (Split (Join kept "&") "&" = kept) as Es.
    { apply split_Join.
      - intros ->. done.
      - apply List.Forall_forall. intros part H%list_elem_of_In. apply Hkept in H as [H _].
        by apply split_byte_part in H. }
    rewrite Es in E1. split.
    + apply mapM_Some in E1. apply List.Forall_forall. intros p Hin%list_elem_of_In.
      apply list_elem_of_lookup in Hin as [i Hi].
      destruct (Forall2_lookup_r _ _ _ _ _ E1 Hi) as (part & Hpart & Hd).
      destruct (Hkept part) as (_ & k & Hk & Hs); [by eapply list_elem_of_lookup_2|].
      rewrite decodePart_cut, Hk in Hd. cbn [mbind option_bind] in Hd.
      destruct (percentDecodeQuery (cutQuery part).2); [|done]. by injection Hd as <-.
    + intros ps Eps. specialize (Hps ps Eps). rewrite E1 in Hps. injection Hps as ->. by left.
Qed.

(** *** Headers *)

Lemma deleteHeaderFold_lookup h name key vs :
  deleteHeaderFold h name !! key = Some vs <-> h !! key = Some vs /\ EqualFold key name = false.
Proof. unfold deleteHeaderFold. by rewrite map_lookup_filter_Some. Qed.

Lemma deleteAll_lookup names : forall h key vs,
  fold_left deleteHeaderFold names h !! key = Some vs <->
  h !! key = Some vs /\ forall name, name ∈ names -> EqualFold key name = false.
Proof.
  induction names as [|n names IH]; intros h key vs; cbn [fold_left].
  - split; [intros H; split; [done|]; intros ? []%not_elem_of_nil|by intros []].
  - rewrite IH, deleteHeaderFold_lookup. setoid_rewrite elem_of_cons. naive_solver.
Qed.

Lemma EqualFold_self s : EqualFold s s = true.
Proof. unfold EqualFold. induction (runes s) as [|r l IH]; [done|]. cbn. rewrite IH. unfold fold_eq. by rewrite Z.eqb_refl. Qed.

Lemma scrubForwarded_sub keys : forall h key vs, scrubForwarded h keys !! key = Some vs ->
  h !! key = Some vs /\ (key ∈ keys -> forwardingHeader key = false).
Proof.
  unfold scrubForwarded. induction keys as [|k keys IH]; intros h key vs; cbn [fold_left].
  { intros H. split; [done|]. intros []%not_elem_of_nil. }
  intros H. apply IH in H as [H Hk]. destruct (bool_decide (is_Some (h !! k)) && forwardingHeader k) eqn:E.
  - apply deleteHeaderFold_lookup in H as [H Hn]. split; [done|]. intros [->|Hin]%elem_of_cons; [|auto].
    by rewrite EqualFold_self in Hn.
  - split; [done|]. intros [->|Hin]%elem_of_cons; [|auto]. rewrite bool_decide_eq_true_2 in E by eauto. done.
Qed.

Lemma scrubForwarded_keeps keys key vs : forall h, h !! key = Some vs ->
  (forall k, is_Some (h !! k) -> forwardingHeader k = true -> EqualFold key k = false) ->
  scrubForwarded h keys !! key = Some vs.
Proof.
  unfold scrubForwarded. induction keys as [|k keys IH]; intros h H Hk; [done|]. cbn [fold_left].
  destruct (bool_decide (is_Some (h !! k)) && forwardingHeader k) eqn:E; [|by apply IH].
  apply andb_true_iff in E as [E1%bool_decide_eq_true E2]. apply IH.
  - apply deleteHeaderFold_lookup. auto.
  - intros k' [vs' H']. apply deleteHeaderFold_lookup in H' as [H' _]. by apply Hk; eauto.
Qed.

(** A Connection header of [h] nominates the name. *)
Definition nominates (h : header) (name : string) : Prop := exists key values value,
  h !! key = Some values /\ EqualFold key "connection" = true /\ value ∈ values /\
  name ∈ (TrimSpace <$> Split value ",") /\ name <> "".

Lemma nominatedIn_spec h name : name ∈ nominatedIn (map_to_list h) <-> nominates h name.
Proof.
  unfold nominatedIn, nominates. rewrite list_elem_of_bind. split.
  - intros ([key values] & Hn & Hin). cbn [fst snd] in *. destruct (EqualFold key "connection") eqn:E;
      [|by apply not_elem_of_nil in Hn].
    unfold nominatedBy in Hn. apply list_elem_of_bind in Hn as (value & Hn & Hv).
    apply list_elem_of_In, filter_In in Hn as [Hn Hne%negb_true_iff%eqb_false_str].
    apply list_elem_of_In in Hn. apply elem_of_map_to_list in Hin. by exists key, values, value.
  - intros (key & values & value & Hin & E & Hv & Hn & Hne). exists (key, values). cbn [fst snd].
    rewrite E. split; [|by apply elem_of_map_to_list]. apply list_elem_of_bind. exists value. split; [|done].
    apply list_elem_of_In, filter_In. split; [by apply list_elem_of_In|].
    apply negb_true_iff. by apply eqb_false_str.
Qed.

(** Exactly what is left of a header: nothing folds to a hop name, to a nominated
    name or to a forwarding header; everything else is untouched. *)
Lemma scrubForwardingHeaders_spec h key vs :
  (scrubForwardingHeaders h !! key = Some vs ->
   h !! key = Some vs /\ (forall name, name ∈ hopHeaders \/ nominates h name -> EqualFold key name = false) /\
   forwardingHeader key = false) /\
  (h !! key = Some vs -> (forall name, name ∈ hopHeaders \/ nominates h name -> EqualFold key name = false) ->
   (forall k, is_Some (h !! k) -> forwardingHeader k = true -> EqualFold key k = false) ->
   scrubForwardingHeaders h !! key = Some vs).
Proof.
  unfold scrubForwardingHeaders. set (h1 := fold_left deleteHeaderFold (nominatedIn _) h).
  assert (forall k ws, h1 !! k = Some ws <->
    h !! k = Some ws /\ forall name, nominates h name -> EqualFold k name = false) as H1.
  { intros k ws. unfold h1. rewrite deleteAll_lookup. by setoid_rewrite nominatedIn_spec. }
  rewrite deleteAll_lookup. split.
  - intros [H Hhop]. apply scrubForwarded_sub in H as [H Hf]. pose proof (proj1 (H1 _ _) H) as [H0 Hn].
    split_and!; [done|intros name [|]; auto|]. apply Hf. apply list_elem_of_fmap. exists (key, vs).
    by split; [|apply elem_of_map_to_list].
  - intros H Hn Hf. split; [|auto]. apply scrubForwarded_keeps.
    + apply H1. auto.
    + intros k [ws Hk]. apply H1 in Hk as [Hk _]. apply Hf. by exists ws.
Qed.
End Scrubbing.

(** ** Bodies during re-signing *)

Section Worlds.
Context {R : Type} (Read : reader R).
Context (fails : nat -> bool) (tempName : gset string -> string) (fuel : nat).
Context (sha256 : string -> string).
Context (Hread : keeps_length Read).
Context (Hfresh : forall X, tempName X ∉ X) (Hname : forall X, tempName X <> "").
Notation state := (Sigv4Request.state (R := R)).

(** A body that was there before, or one that has given everything up. *)
Definition settledCell (w0 : World) (q : nat) (c : Cell) : Prop :=
  released c \/ exists c0, cells w0 !! q = Some c0 /\ content c = content c0.

(** Nothing was added to [w0] that is still held. *)
Definition tidy (w0 w : World) : Prop :=
  world_ok sha256 w /\ files (fsys w) ⊆ files (fsys w0) /\
  forall q c, cells w !! q = Some c -> settledCell w0 q c.

(** The body at [p] holds some bytes, and nothing else was added. *)
Definition bodied (w0 w : World) (p : nat) (data : string) : Prop :=
  world_ok sha256 w /\
  (forall q c, q <> p -> cells w !! q = Some c -> settledCell w0 q c) /\
  exists c, cells w !! p = Some c /\ holds sha256 w c data /\
    (if (path (content c) =? "")%string then files (fsys w) else delete (path (content c)) (files (fsys w)))
      ⊆ files (fsys w0).

Lemma tidy_refl w : world_ok sha256 w -> tidy w w.
Proof. intros Hw. split_and!; [done..|]. intros q c E. right. by exists c. Qed.

Lemma settledCell_same w0 w q c d : world_ok sha256 w -> cells w !! q = Some c -> content d = content c ->
  settledCell w0 q d -> settledCell w0 q c.
Proof.
  intros Hw Ec E [(H1 & H2 & H3)|(c0 & E0 & H)]; [left|right; exists c0; split; [done|congruence]].
  destruct (ok_cell _ _ Hw q c Ec) as [Hr|(x & Hx & _)]; [done|congruence].
Qed.

Lemma tidy_evolves w0 w w' : tidy w0 w -> evolves w w' -> world_ok sha256 w' -> tidy w0 w'.
Proof.
  intros (Hw & Hf & Hc) He Hw'. split_and!; [done|by rewrite (ev_files _ _ He)|]. intros q c E.
  destruct (evolves_cell _ _ _ _ He E) as (d & Ed & Hd). by eapply settledCell_same; [..|eauto].
Qed.

Lemma bodied_evolves w0 w w' p data : bodied w0 w p data -> evolves w w' -> world_ok sha256 w' ->
  bodied w0 w' p data.
Proof.
  intros (Hw & Ho & c & Ec & Hh & Hf) He Hw'. split_and!; [done| |].
  - intros q d Hq E. destruct (evolves_cell _ _ _ _ He E) as (d' & Ed & Hd).
    by eapply settledCell_same; [..|eauto].
  - pose proof (ev_cells _ _ He p) as Ep. rewrite Ec in Ep. destruct (cells w' !! p) as [c'|] eqn:Ec'; [|done].
    injection Ep as Ep. exists c'. split; [done|]. rewrite Ep, (ev_files _ _ He). split; [|done].
    by apply (holds_ext sha256 w w' c c' data); [apply He|..].
Qed.

Lemma tidy_close w0 w p c : tidy w0 w -> cells w !! p = Some c ->
  tidy w0 (Close p w) /\ exists c', cells (Close p w) !! p = Some c' /\ released c'.
Proof.
  intros (Hw & Hf & Hc) Ec.
  destruct (Close_spec Read tempName sha256 Hread Hfresh Hname p w c Hw Ec)
    as (Hw' & _ & (c' & Ec' & Hr) & Hq & _ & Hfiles).
  split; [|by exists c']. split_and!; [done| |].
  - rewrite Hfiles. case_if; [done|]. etrans; [apply delete_subseteq|done].
  - intros q d E. destruct (decide (q = p)) as [->|Hne].
    + left. rewrite Ec' in E. by injection E as <-.
    + apply Hc. by rewrite Hq in E.
Qed.

Lemma bodied_close w0 w p data : bodied w0 w p data -> tidy w0 (Close p w).
Proof.
  intros (Hw & Ho & c & Ec & (Hopen & _) & Hf).
  destruct (Close_spec Read tempName sha256 Hread Hfresh Hname p w c Hw Ec)
    as (Hw' & _ & (c' & Ec' & Hr) & Hq & _ & Hfiles).
  split_and!; [done| |].
  - rewrite Hfiles, Hopen. by destruct (path (content c) =? "")%string.
  - intros q d E. destruct (decide (q = p)) as [->|Hne].
    + left. rewrite Ec' in E. by injection E as <-.
    + apply Ho; [done|]. by rewrite Hq in E.
Qed.

Lemma bodied_holding w0 w p data : bodied w0 w p data -> holding sha256 w p data.
Proof. intros (_ & _ & c & Ec & Hh & _). by exists c. Qed.

(** A body that was there before. *)
Lemma holding_bodied w p data : world_ok sha256 w -> holding sha256 w p data -> bodied w w p data.
Proof.
  intros Hw (c & Ec & Hh). split_and!; [done|intros q d _ E; right; by exists d|].
  exists c. split_and!; [done..|]. case_if; [done|apply delete_subseteq].
Qed.

Lemma captured_bodied w0 w w' s p data : tidy w0 w -> world_ok sha256 w' ->
  captured_at Read sha256 w w' s p data -> bodied w0 w' p data.
Proof.
  intros (_ & Hf & Hc) Hw' (Hnone & Hother & _ & c & Ec & Hh & Hfiles). split_and!; [done| |].
  - intros q d Hq E. rewrite Hother in E by done. by apply Hc.
  - exists c. split_and!; [done..|]. destruct (path (content c) =? "")%string.
    + by rewrite Hfiles.
    + destruct Hfiles as [Hn ->]. by rewrite delete_insert_id.
Qed.

Lemma holding_unique w p d1 d2 : holding sha256 w p d1 -> holding sha256 w p d2 -> d1 = d2.
Proof.
  intros (c & E & (_ & _ & _ & H1)) (c' & E' & (_ & _ & _ & H2)). rewrite E in E'. injection E' as <-.
  destruct (path (content c) =? "")%string; congruence.
Qed.

Lemma holding_digest w p data : holding sha256 w p data -> SHA256 w p = hex_encode (sha256 data) /\ Size w p = slen data.
Proof. intros (c & E & (_ & Hh & Hs & _)). unfold SHA256, Size. by rewrite E, Hh, Hs. Qed.
End Worlds.

(** ** The steps *)

Section Steps.
Context `{U : UnicodeTables} {R : Type} (Read : reader R).
Context (fails : nat -> bool) (tempName : gset string -> string) (fuel : nat).
Context (sha256 : string -> string) (ToASCII : string -> result string).
Context (Hread : keeps_length Read).
Context (Hfresh : forall X, tempName X ∉ X) (Hname : forall X, tempName X <> "").
Notation state := (Sigv4Request.state (R := R)).
Notation request := (Sigv4Request.request (R := R)).
Notation bodied := (bodied sha256).
Notation tidy := (tidy sha256).
Context (w0 : World).
Notation F := (fun (_ : Error) (st : state) => tidy w0 st.2).

Lemma ends_closing_any {A} (G : Error -> state -> Prop) p (m : M A) Q (st : state) :
  ends (fun e st => G e (st.1, Close p st.2)) m Q st -> ends G (closing p m) Q st.
Proof.
  intros (r & [req w] & E & H). unfold ends, closing. rewrite E.
  destruct r as [a|e]; [by exists (Good a), (req, w)|by exists (Bad e), (req, Close p w)].
Qed.

Lemma Reader_evolves p w ov w' : world_ok sha256 w -> Reader fails p w = (ov, w') ->
  evolves w w' /\ world_ok sha256 w'.
Proof.
  intros Hw E. by destruct (Reader_spec Read fails tempName sha256 Hread Hfresh Hname p w ov w' Hw E) as (H1 & H2 & _).
Qed.

Lemma closeView_evolves v w : world_ok sha256 w -> evolves w (closeView v w) /\ world_ok sha256 (closeView v w).
Proof. apply (closeView_spec Read tempName sha256 Hread Hfresh Hname). Qed.

Definition unavailableBody : Error := mkError CodeBodyReadFailure "request body is unavailable".

Lemma validateBodyAvailable_ends p (st : state) : w0 = st.2 -> tidy w0 st.2 ->
  ends (fun e st' => tidy w0 st'.2 /\ (Reader fails p w0).1 = None /\ e = unavailableBody)
    (validateBodyAvailable fails p)
    (fun _ st' => st'.1 = st.1 /\ exists data, holding sha256 w0 p data /\ bodied w0 st'.2 p data) st.
Proof.
  intros Hw0 Ht. unfold ends, validateBodyAvailable. destruct (Reader fails p st.2) as [ov w] eqn:E.
  pose proof E as E0. apply (Reader_spec Read fails tempName sha256 Hread Hfresh Hname) in E as (He & Hw & Hv); [|apply Ht].
  destruct ov as [v|].
  - destruct (Hv v eq_refl) as (_ & data & Hh & _). destruct (closeView_evolves v w Hw) as [He' Hw'].
    eexists _, _. split; [done|]. cbn [fst snd]. split; [done|]. exists data. rewrite Hw0. split; [done|].
    eapply bodied_evolves; [apply holding_bodied; [apply Ht|done]|by eapply evolves_trans|done].
  - eexists _, _. split; [done|]. cbn [fst snd]. split; [by eapply tidy_evolves|]. by rewrite Hw0, E0.
Qed.

(** What a capture leaves: the request apart from its body and context, and the
    body's bytes, delivered by some stream. *)
Definition bodyTaken (st st' : state) (p : nat) : Prop :=
  same_head st.1 st'.1 /\ exists data s w s', bodied w0 st'.2 p data /\ evolves st.2 w /\
  drains (readStream Read w) s data s'.

Section Capture.
Context (o : BodyOptions) (Hbig : MaxSpoolBytes (normalizedBodyOptions o) < 2 ^ 62).
Context (Hfuel : (enough o <= fuel)%nat).

Lemma captureReader_ends s (st st1 : state) : same_head st.1 st1.1 -> evolves st.2 st1.2 -> tidy w0 st1.2 ->
  ends F (captureReader Read fails tempName fuel sha256 o s) (fun p st' => bodyTaken st st' p) st1.
Proof.
  intros Hh He Ht. pose proof (proj1 Ht) as Hw.
  destruct (captureStream_spec Read fails tempName sha256 fuel Hread Hfresh Hname o s st1.2 Hw Hbig Hfuel)
    as (out & w & E & Hw1 & _ & _ & H).
  unfold ends, captureReader. rewrite E. eexists _, _. split; [done|].
  assert (evolves w (match s with View v => closeView v w | _ => w end) /\
    world_ok sha256 (match s with View v => closeView v w | _ => w end)) as [He' Hw'].
  { destruct s; try (by split; [apply evolves_refl|]). by apply closeView_evolves. }
  destruct out as [p|e]; cbn [fst snd].
  - destruct H as (data & Hat & _). split; [done|]. pose proof Hat as (_ & _ & (s' & Hd) & _).
    exists data, s, st1.2, s'. split_and!; [|done..]. eapply bodied_evolves; [|done..].
    by eapply captured_bodied.
  - destruct H as (Hf & Hc & _). eapply tidy_evolves; [|done..].
    destruct Ht as (_ & Ht1 & Ht2). split_and!; [done|by rewrite Hf|by rewrite Hc].
Qed.

Lemma closeStream_bodied (st : state) p data : bodied w0 st.2 p data -> bodied w0 (closeStream st).2 p data.
Proof.
  intros Hb. destruct st as [req w]. unfold closeStream. cbn [snd] in Hb.
  destruct (stream (BodyState req)) as [|r|v]; cbn [snd]; [done| |].
  - destruct Hb as ([] & Ho & Hc). split_and!; [by constructor|done..].
  - destruct (closeView_evolves v w (proj1 Hb)). by eapply bodied_evolves.
Qed.

Lemma closeStream_tidy (st : state) : tidy w0 st.2 -> tidy w0 (closeStream st).2.
Proof.
  intros Ht. destruct st as [req w]. unfold closeStream. cbn [snd] in Ht.
  destruct (stream (BodyState req)) as [|r|v]; cbn [snd]; [done| |].
  - destruct Ht as ([] & Hf & Hc). split_and!; [by constructor|done..].
  - destruct (closeView_evolves v w (proj1 Ht)). by eapply tidy_evolves.
Qed.

Lemma closeStream_head (st : state) : same_head st.1 (closeStream st).1.
Proof. destruct st as [req w]. unfold closeStream. by destruct (stream (BodyState req)). Qed.

Lemma captureOriginal_ends (st : state) : tidy w0 st.2 ->
  ends F (captureOriginal Read fails tempName fuel sha256 o) (fun p st' => bodyTaken st st' p) st.
Proof.
  intros Ht. pose proof (proj1 Ht) as Hw. set (s := stream (BodyState st.1)).
  destruct (captureStream_spec Read fails tempName sha256 fuel Hread Hfresh Hname o s st.2 Hw Hbig Hfuel)
    as (out & w & E & Hw1 & _ & _ & H).
  unfold ends, captureOriginal. fold s. rewrite E.
  pose proof (closeStream_head (st.1, w)) as Hh. pose proof (closeStream_bodied (st.1, w)) as Hb.
  pose proof (closeStream_tidy (st.1, w)) as Hty. destruct (closeStream (st.1, w)) as [req w1].
  cbn [fst snd] in *. destruct out as [p|e].
  - destruct H as (data & Hat & _). specialize (Hb p data ltac:(by eapply captured_bodied)).
    destruct (newReader fails p w1) as [v w2] eqn:Er.
    apply (newReader_spec Read fails tempName sha256 Hread Hfresh Hname) in Er as (He2 & Hw3 & _);
      [|apply Hb].
    eexists _, _. split; [done|]. cbn [fst snd]. split; [done|].
    pose proof Hat as (_ & _ & (s' & Hd) & _). exists data, s, st.2, s'.
    split_and!; [by eapply bodied_evolves|apply evolves_refl|done].
  - destruct H as (Hf & Hc & _). eexists _, _. split; [done|]. cbn [snd]. apply Hty.
    destruct Ht as (_ & Ht1 & Ht2). split_and!; [done|by rewrite Hf|by rewrite Hc].
Qed.

Lemma captureBodyForResign_ends (st : state) : tidy w0 st.2 ->
  ends F (captureBodyForResign Read fails tempName fuel sha256 o) (fun p st' => bodyTaken st st' p) st.
Proof.
  intros Ht. unfold captureBodyForResign.
  assert (forall s, ends F (captureReader Read fails tempName fuel sha256 o s)
    (fun p st' => bodyTaken st st' p) st) as Hs.
  { intros s. by apply captureReader_ends; [|apply evolves_refl|]. }
  assert (ends F (fun st => match getBody (BodyState st.1) with
    | GetNil => captureOriginal Read fails tempName fuel sha256 o st
    | GetCaller None => reject CodeBodyReadFailure "request body is unavailable" st
    | GetCaller (Some r) => captureReader Read fails tempName fuel sha256 o (Raw r) st
    | GetView q => let (v, w) := newReader fails q st.2 in
                   captureReader Read fails tempName fuel sha256 o (View v) (st.1, w)
    end) (fun p st' => bodyTaken st st' p) st) as Hg.
  { unfold ends. destruct (getBody (BodyState st.1)) as [|[r|]|q].
    - by apply captureOriginal_ends.
    - apply Hs.
    - by apply (ends_reject F).
    - destruct (newReader fails q st.2) as [v w] eqn:Er.
      apply (newReader_spec Read fails tempName sha256 Hread Hfresh Hname) in Er as (He & Hw & _); [|apply Ht].
      apply (captureReader_ends (View v) st (st.1, w)); [done..|]. by eapply tidy_evolves. }
  unfold ends in *. destruct (stream (BodyState st.1)); [apply Hs|exact Hg..].
Qed.
End Capture.

(** ** The whole of [Resign] *)

(** The request handed to the signer: the inbound method and path, the
    endpoint's address, the scrubbed query and headers, and a view of the body. *)
Definition outgoing (req : request) (u : URL) (mode : option string) (endpoint : AWSEndpoint)
    (canonicalQuery : string) (p : nat) (data : string) (v : view) : request :=
  withLength (withBody (makeOutgoing req u mode endpoint canonicalQuery)
    (mkReqBody (View v) (GetView p) (Some p) mode)) (slen data).

(** What was signed, with which credentials, hash and time. *)
Definition sent (r : Resigner (R := R)) (req : request) (w : World) (u : URL) (mode : option string)
    (endpoint : AWSEndpoint) (canonicalQuery : string) (allowUnsigned : bool) (p : nat) (data : string)
    (signed : request) : Prop :=
  exists v payloadHash creds sign now,
    (v = ErrorReader \/ offset v = 0 /\ remaining w v = Some data) /\
    resignPayloadHash req (hex_encode (sha256 data)) allowUnsigned = Good payloadHash /\
    retrieveCredentials (provider r) = Good creds /\
    r_Clock (r_options r) = Some now /\ IsZero now = false /\ r_Signer (r_options r) = Some sign /\
    sign creds (outgoing req u mode endpoint canonicalQuery p data v) payloadHash
      (resignService endpoint) (resignRegion endpoint) now = Some signed.

(** Why nothing was signed, with the body at hand and its hash settled: no
    credentials, no clock, or no signer that signs the request it is given. *)
Definition unsigned (r : Resigner (R := R)) (req : request) (u : URL) (mode : option string)
    (endpoint : AWSEndpoint) (canonicalQuery payloadHash : string) (p : nat) (data : string)
    (e : Error) : Prop :=
  retrieveCredentials (provider r) = Bad e \/
  IsZero (default zeroTime (r_Clock (r_options r))) = true /\
    e = mkError CodeInvalidTimestamp "signing clock is invalid" \/
  (exists w v creds now,
     (v = ErrorReader \/ offset v = 0 /\ remaining w v = Some data) /\
     retrieveCredentials (provider r) = Good creds /\ r_Clock (r_options r) = Some now /\
     forall sign, r_Signer (r_options r) = Some sign ->
       sign creds (outgoing req u mode endpoint canonicalQuery p data v) payloadHash
         (resignService endpoint) (resignRegion endpoint) now = None) /\
    e = mkError CodeInvalidSignature "upstream signing failed".

Lemma signOutgoing_ends r u mode endpoint canonicalQuery allowUnsigned p data (st : state) :
  bodied w0 st.2 p data ->
  ends (fun e st' => tidy w0 st'.2 /\
          match resignPayloadHash st.1 (hex_encode (sha256 data)) allowUnsigned with
          | Good payloadHash => unsigned r st.1 u mode endpoint canonicalQuery payloadHash p data e
          | Bad e' => e = e'
          end)
    (signOutgoing fails r u mode endpoint canonicalQuery allowUnsigned p)
    (fun signed st' => st'.1 = st.1 /\ bodied w0 st'.2 p data /\
       sent r st.1 st'.2 u mode endpoint canonicalQuery allowUnsigned p data signed) st.
Proof.
  intros Hb. unfold signOutgoing. apply ends_closing_any. cbn [snd].
  apply ends_bind, ends_current, ends_bind. exists (Good st.2), st. split; [done|].
  destruct (holding_digest _ _ _ _ (bodied_holding _ _ _ _ _ Hb)) as [-> _].
  assert (forall w, bodied w0 w p data -> tidy w0 (Close p w)) as Hcl.
  { intros w. by apply (bodied_close Read tempName). }
  apply lift_mono; [intros e E; split; [by apply Hcl|by rewrite E]|]. intros payloadHash Eh. rewrite Eh.
  apply ends_bind. unfold ends, attach, attachBody.
  destruct (newReader fails p st.2) as [v w] eqn:Er.
  apply (newReader_spec Read fails tempName sha256 Hread Hfresh Hname) in Er as (He & Hw & Hv); [|apply Hb].
  pose proof (bodied_evolves _ _ _ _ _ _ Hb He Hw) as Hb'. specialize (Hcl w Hb').
  destruct (holding_digest _ _ _ _ (bodied_holding _ _ _ _ _ Hb')) as [_ ->].
  eexists _, _. split; [reflexivity|].
  assert (v = ErrorReader \/ offset v = 0 /\ remaining w v = Some data) as Hview.
  { destruct Hv as [->|(Ho & data' & Hh & Hr)]; [by left|right]. split; [done|]. rewrite Hr. f_equal.
    eapply holding_unique; [exact Hh|by eapply bodied_holding]. }
  apply lift_mono; [intros e E; split; [done|by left]|].
  intros creds Ec. destruct (r_Clock (r_options r)) as [now|] eqn:Ek; cbn [default].
  2: { apply require_mono; [intros _; split; [done|right; left; by rewrite Ek]|done]. }
  apply require_mono; [intros Hz%negb_false_iff; split; [done|right; left; by rewrite Ek]|]. intros Hz%negb_true_iff.
  assert (forall w, tidy w0 (Close p w) -> r_Signer (r_options r) ≫= (fun sign =>
      sign creds (outgoing st.1 u mode endpoint canonicalQuery p data v) payloadHash (resignService endpoint)
        (resignRegion endpoint) now) = None ->
    tidy w0 (Close p w) /\ unsigned r st.1 u mode endpoint canonicalQuery payloadHash p data
      (mkError CodeInvalidSignature "upstream signing failed")) as Hno.
  { intros w' Ht Hs. split; [done|]. right; right. split; [|done]. exists w, v, creds, now.
    split_and!; [done..|]. intros sign Es. by rewrite Es in Hs. }
  destruct (r_Signer (r_options r)) as [sign|] eqn:Es; cbn [mbind option_bind] in Hno |- *;
    [|apply ends_reject; by apply Hno].
  destruct (sign _ _ _ _ _ _) as [signed|] eqn:Esig; [|apply ends_reject; by apply Hno].
  apply ends_ret. split_and!; [done..|]. by exists v, payloadHash, creds, sign, now.
Qed.

(** The inbound request is refused before its body is touched. *)
Definition refused (req : request) (u : URL) (endpoint : AWSEndpoint) (allowUnsigned : bool) (e : Error) : Prop :=
  err_nil (Endpoint_Validate endpoint) = false \/ verifyRequestEndpoint ToASCII req endpoint = Bad e \/
  resignRegion endpoint = "" \/ resignService endpoint = "" \/
  scrubAndCanonicalizeQuery (RawQuery u) = Bad e \/ validateResignPayloadHeaders req allowUnsigned = Bad e.

Definition allows (r : Resigner (R := R)) (req : request) : bool :=
  r_AllowUnsignedPayload (r_options r) ||
  match payloadMode (BodyState req) with Some m => (m =? PayloadHashUnsigned)%string | None => false end.

(** Why a run failed. *)
Definition failure (r : Resigner (R := R)) (req : request) (u : URL) (mode : option string)
    (endpoint : AWSEndpoint) (e : Error) : Prop :=
  refused req u endpoint (allows r req) e \/ marker (BodyState req) = None \/
  exists p, marker (BodyState req) = Some p /\
    ((Reader fails p w0).1 = None /\ e = unavailableBody \/
     exists data canonicalQuery, holding sha256 w0 p data /\
       scrubAndCanonicalizeQuery (RawQuery u) = Good canonicalQuery /\
       match resignPayloadHash req (hex_encode (sha256 data)) (allows r req) with
       | Good payloadHash => unsigned r req u mode endpoint canonicalQuery payloadHash p data e
       | Bad e' => e = e'
       end).

(** What a successful run has checked and sent. *)
Definition forwarded (r : Resigner (R := R)) (u : URL) (mode : option string) (endpoint : AWSEndpoint)
    (st st' : state) (signed : request) : Prop :=
  exists canonicalQuery p data,
    Endpoint_Validate endpoint = None /\ verifyRequestEndpoint ToASCII st.1 endpoint = Good tt /\
    scrubAndCanonicalizeQuery (RawQuery u) = Good canonicalQuery /\
    validateResignPayloadHeaders st.1 (allows r st.1) = Good tt /\
    same_head st.1 st'.1 /\ bodied w0 st'.2 p data /\
    sent r st'.1 st'.2 u mode endpoint canonicalQuery (allows r st.1) p data signed /\
    match marker (BodyState st.1) with
    | Some q => q = p /\ st'.1 = st.1 /\ holding sha256 w0 p data
    | None => exists s w s', evolves w0 w /\ drains (readStream Read w) s data s'
    end.

Lemma signed_forwarded r u mode endpoint canonicalQuery p data (st st1 : state) :
  Endpoint_Validate endpoint = None -> verifyRequestEndpoint ToASCII st.1 endpoint = Good tt ->
  scrubAndCanonicalizeQuery (RawQuery u) = Good canonicalQuery ->
  validateResignPayloadHeaders st.1 (allows r st.1) = Good tt ->
  same_head st.1 st1.1 -> bodied w0 st1.2 p data ->
  match marker (BodyState st.1) with
  | Some q => q = p /\ st1.1 = st.1 /\ holding sha256 w0 p data
  | None => exists s w s', evolves w0 w /\ drains (readStream Read w) s data s'
  end ->
  ends (fun e st' => tidy w0 st'.2 /\ failure r st.1 u mode endpoint e)
    (signOutgoing fails r u mode endpoint canonicalQuery (allows r st.1) p)
    (fun signed st' => forwarded r u mode endpoint st st' signed) st1.
Proof.
  intros H1 H2 H3 H4 H5 Hb Hm.
  destruct (signOutgoing_ends r u mode endpoint canonicalQuery (allows r st.1) p data st1 Hb)
    as (out & st' & E & H). exists out, st'. split; [done|]. destruct out as [signed|e].
  - destruct H as (Est & Hb' & Hs). rewrite <-Est in *. exists canonicalQuery, p, data. by split_and!.
  - destruct H as [Ht He]. split; [done|]. unfold failure.
    right. destruct (marker (BodyState st.1)) as [q|]; [right|by left].
    destruct Hm as (-> & Est & Hh). rewrite Est in He. exists p. split; [done|]. right.
    by exists data, canonicalQuery.
Qed.

Lemma resignBody_ends r u mode endpoint (st : state) : w0 = st.2 -> world_ok sha256 w0 ->
  MaxSpoolBytes (normalizedBodyOptions (resignOptions r)) < 2 ^ 62 -> (enough (resignOptions r) <= fuel)%nat ->
  ends (fun e st' => tidy w0 st'.2 /\ failure r st.1 u mode endpoint e)
    (resignBody Read fails tempName fuel sha256 ToASCII r u mode endpoint)
    (fun signed st' => forwarded r u mode endpoint st st' signed) st.
Proof.
  intros Hw0 Hok Hbig Hfuel. assert (tidy w0 st.2) as Ht by (rewrite <-Hw0; by apply tidy_refl).
  assert (forall e, refused st.1 u endpoint (allows r st.1) e -> tidy w0 st.2 /\
    failure r st.1 u mode endpoint e) as Href by (intros e He; split; [done|by left]).
  unfold refused in Href. unfold resignBody. apply ends_bind, ends_current.
  apply require_mono; [by intros; apply Href; left|]. intros Hv.
  assert (Endpoint_Validate endpoint = None) as Hv' by by destruct (Endpoint_Validate endpoint).
  apply lift_mono; [intros e He; apply Href; tauto|]. intros [] Hep.
  apply require_mono.
  { intros [Hx%eqb_true_str|Hx%eqb_true_str]%negb_false_iff%orb_true_iff; apply Href; tauto. }
  intros _. apply lift_mono; [intros e He; apply Href; tauto|]. intros canonicalQuery Eq.
  fold (allows r st.1). apply lift_mono; [intros e He; apply Href; tauto|]. intros [] Hpay.
  apply ends_bind. destruct (marker (BodyState st.1)) as [p|] eqn:Em.
  - apply ends_bind. destruct (validateBodyAvailable_ends p st Hw0 Ht) as (out & st1 & E & H).
    exists out, st1. split; [done|]. destruct out as [a|e].
    + destruct H as (Est & data & Hh & Hb). apply ends_ret.
      apply (signed_forwarded r u mode endpoint canonicalQuery p data); try done; rewrite ?Em, ?Est; try done.
    + destruct H as (Ht' & He & ->). split; [done|]. right; right. exists p. split; [done|by left].
  - destruct (captureBodyForResign_ends (resignOptions r) Hbig Hfuel st Ht) as (out & st1 & E & H).
    exists out, st1. split; [done|]. destruct out as [p|e].
    + destruct H as (Hh & data & s & w & s' & Hb & He & Hd).
      apply (signed_forwarded r u mode endpoint canonicalQuery p data); try done.
      rewrite Em. exists s, w, s'. by rewrite Hw0.
    + split; [done|]. right; by left.
Qed.
End Steps.

(** ** A verified request *)

Section Verified.
Context `{U : UnicodeTables} {R : Type}.
Context (sha256 : string -> string) (ToASCII : string -> result string).
Notation request := (Sigv4Request.request (R := R)).

Lemma verifyRequestEndpoint_head (req1 req2 : request) endpoint : same_head req1 req2 ->
  verifyRequestEndpoint ToASCII req2 endpoint = verifyRequestEndpoint ToASCII req1 endpoint.
Proof. intros (_ & Hu & Hh & _). unfold verifyRequestEndpoint. by rewrite Hu, Hh. Qed.

Lemma validPayloadHash_even value : validPayloadHash value = true -> value <> "UNSIGNED-PAYLOAD" ->
  Nat.Even (String.length value).
Proof.
  unfold validPayloadHash. intros H Hne. rewrite (proj2 (eqb_false_str _ _) Hne) in H. cbn [orb] in H.
  destruct (Z.eqb_spec (slen value) 64) as [E|]; [|done]. unfold slen in E. exists 32%nat. lia.
Qed.

(** The payload checks of verification are those of re-signing. *)
Lemma payload_agrees v (req : request) payloadHash mode data allowUnsigned :
  payload_checked sha256 v payloadHash mode data -> payload_declared sha256 (Header req) payloadHash data ->
  (mode = PayloadHashUnsigned -> allowUnsigned = true) ->
  validateResignPayloadHeaders req allowUnsigned = Good tt /\
  resignPayloadHash req (hex_encode (sha256 data)) allowUnsigned = Good payloadHash.
Proof.
  intros Hc ((contentType & cp & Ect & Eev) & value & present & Ev & Hd) Hallow.
  unfold validateResignPayloadHeaders, resignPayloadHash. rewrite Ect, Eev, Ev. destruct present; cbn [negb andb].
  2: by rewrite Hd.
  destruct Hd as (-> & -> & Hne & Hform). rewrite (proj2 (eqb_false_str _ _) Hne).
  destruct (TrimSpace value =? "UNSIGNED-PAYLOAD")%string eqn:Eu.
  - apply eqb_true_str in Eu. destruct Hc as [[Hm _]|[_ Hx]]; [|by rewrite Eu in Hx].
    by rewrite (Hallow Hm).
  - apply eqb_false_str in Eu. destruct Hform as [|Hvalid]; [done|]. rewrite Hvalid. cbn [negb].
    destruct Hc as [(_ & Hx & _)|[_ Hx]]; [done|].
    rewrite !hexDecode_even by (apply hex_encode_even || by apply validPayloadHash_even).
    rewrite Hx, hexDecode_encode, subtleCompare_spec, Z.eqb_refl.
    by rewrite (proj2 (eqb_true_str _ _) eq_refl).
Qed.

Lemma scope_identity endpoint region service : verifySigningScope endpoint region service = Good tt ->
  service = resignService endpoint /\ region = resignRegion endpoint /\ region <> "".
Proof.
  unfold verifySigningScope, resignService, resignRegion. set (s := if (_ =? "")%string then _ else _).
  destruct (service =? s)%string eqn:Es; [|done]. cbn [negb]. set (g := if (_ && _) then _ else _).
  destruct (g =? "")%string eqn:Eg; [done|]. destruct (region =? g)%string eqn:Er; [|done]. intros _.
  apply eqb_true_str in Es, Er. apply eqb_false_str in Eg. subst. done.
Qed.

(** Without signing parameters nothing is scrubbed from a query. *)
Lemma keptParts_all parts : querySigningIn parts = Some false -> keptParts parts = Good parts.
Proof.
  induction parts as [|part parts IH]; [done|]. cbn [querySigningIn keptParts].
  destruct (percentDecodeQuery (cutQuery part).1) as [k|]; [|done].
  change (mem_str (ToLower k) signingKeys) with (isSigningQueryKey k).
  destruct (isSigningQueryKey k); [done|]. intros H. by rewrite IH.
Qed.

Lemma scrub_unsigned raw : querySigningPresent raw = Some false ->
  scrubAndCanonicalizeQuery raw = canonicalRawQuery raw.
Proof.
  unfold querySigningPresent, scrubAndCanonicalizeQuery. destruct (raw =? "")%string eqn:E.
  - intros _. unfold canonicalRawQuery. by rewrite E.
  - intros H%keptParts_all. rewrite H. cbn [mbind res_bind]. by rewrite (Join_split "&" raw : Join (Split raw "&") "&" = raw).
Qed.

Lemma resignPayloadHash_sound (req : request) data allowUnsigned payloadHash :
  resignPayloadHash req (hex_encode (sha256 data)) allowUnsigned = Good payloadHash ->
  payloadHash = "UNSIGNED-PAYLOAD" /\ allowUnsigned = true \/ hexDecode payloadHash = Some (sha256 data).
Proof.
  unfold resignPayloadHash. destruct (requestHeader _ "content-type") as [[ct cp] cd].
  destruct cd; [done|]. destruct (cp && _); [done|].
  destruct (requestHeader _ "x-amz-content-sha256") as [[value present] dup]. destruct dup; [done|].
  destruct (present && (TrimSpace value =? "UNSIGNED-PAYLOAD")%string) eqn:Eu.
  - apply andb_true_iff in Eu as [_ Eu%eqb_true_str]. destruct allowUnsigned; [|done].
    intros [= <-]. by left.
  - destruct (present && negb _); [done|]. destruct present.
    + rewrite (hexDecode_even (hex_encode _) (hex_encode_even _)), hexDecode_encode.
      destruct (hexDecode (TrimSpace value)) as [provided|] eqn:Ed; [|done].
      rewrite subtleCompare_spec. destruct (negb _ || negb (provided =? sha256 data)%string) eqn:Es; [done|].
      intros [= <-]. apply orb_false_iff in Es as [_ Es%negb_false_iff%eqb_true_str]. subst. by right.
    + intros [= <-]. right. by rewrite (hexDecode_even _ (hex_encode_even _)), hexDecode_encode.
Qed.
End Verified.

(** ** Properties *)

Section Claims.
Context `{U : UnicodeTables} {R : Type} (Read : reader R).
Context (fails : nat -> bool) (tempName : gset string -> string) (fuel : nat).
Context (sha256 : string -> string) (hmac : string -> string -> string).
Context (ParseTime : string -> option Time) (ToASCII : string -> result string).
Notation state := (Sigv4Request.state (R := R)).
Notation request := (Sigv4Request.request (R := R)).
Notation Resign := (Resign Read fails tempName fuel sha256 ToASCII).

Definition resigns_well (r : Resigner (R := R)) (st : state) : Prop :=
  keeps_length Read /\ (forall X, tempName X ∉ X) /\ (forall X, tempName X <> "") /\
  MaxSpoolBytes (normalizedBodyOptions (resignOptions r)) < 2 ^ 62 /\
  (enough (resignOptions r) <= fuel)%nat /\ world_ok sha256 st.2.

(** The captured body the request came with, if any, is released. *)
Definition gaveUp (st st' : state) : Prop :=
  forall p c, marker (BodyState st.1) = Some p -> cells st'.2 !! p = Some c -> released c.

Lemma Resign_ends r mode endpoint (st : state) u : resigns_well r st -> Url st.1 = Some u ->
  exists out st', Resign (Some r) mode endpoint st = Some (out, st') /\
  match out with
  | Good signed => forwarded Read sha256 ToASCII st.2 r u mode endpoint st st' signed
  | Bad e => tidy sha256 st.2 st'.2 /\ gaveUp st st' /\
      failure fails sha256 ToASCII st.2 r st.1 u mode endpoint e
  end.
Proof.
  intros (H1 & H2 & H3 & H4 & H5 & H6) Hu.
  destruct (resignBody_ends Read fails tempName fuel sha256 ToASCII H1 H2 H3 st.2 r u mode endpoint st
    eq_refl H6 H4 H5) as (out & [req w] & E & H).
  unfold Sigv4Resign.Resign. rewrite Hu, E. destruct out as [signed|e]; [by exists (Good signed), (req, w)|].
  destruct H as [Ht Hf]. eexists _, _. split; [reflexivity|]. cbn [snd] in *.
  destruct (marker (BodyState st.1)) as [p|] eqn:Em.
  - destruct (cells w !! p) as [c|] eqn:Ec.
    + destruct (tidy_close Read tempName sha256 H1 H2 H3 st.2 w p c Ht Ec) as (Ht' & c' & Ec' & Hr).
      split_and!; [done| |done]. intros q d Eq Ed. cbn [snd] in Ed. rewrite Em in Eq. injection Eq as <-. congruence.
    + assert (Close p w = w) as -> by (unfold Close; by rewrite Ec).
      split_and!; [done| |done]. intros q d Eq Ed. cbn [snd] in Ed. congruence.
  - split_and!; [done| |done]. intros q d Eq. congruence.
Qed.

Lemma Resign_run r mode endpoint (st st' : state) out u : resigns_well r st -> Url st.1 = Some u ->
  Resign (Some r) mode endpoint st = Some (out, st') ->
  match out with
  | Good signed => forwarded Read sha256 ToASCII st.2 r u mode endpoint st st' signed
  | Bad e => tidy sha256 st.2 st'.2 /\ gaveUp st st' /\
      failure fails sha256 ToASCII st.2 r st.1 u mode endpoint e
  end.
Proof.
  intros Hr Hu E. destruct (Resign_ends r mode endpoint st u Hr Hu) as (out1 & st1 & E1 & H).
  rewrite E in E1. by injection E1 as <- <-.
Qed.

(** What the upstream gets to see of an inbound request: the endpoint's address,
    the same method and path, the inbound query without the signing parameters,
    and the inbound headers without the ones that belong to the hop. *)
Record scrubbed (endpoint : AWSEndpoint) (req out : request) : Prop := {
  sc_method : Method out = Method req;
  sc_host : Host out = ep_Host endpoint;
  sc_url : exists u uo, Url req = Some u /\ Url out = Some uo /\ User uo = false /\
    u_Host uo = ep_Host endpoint /\ Path uo = Path u /\ RawPath uo = RawPath u /\ Opaque uo = Opaque u /\
    canonicalRawQuery (RawQuery uo) = Good (RawQuery uo) /\
    exists qs, decodedPairs (RawQuery uo) = Some qs /\ Forall (fun p => isSigningQueryKey p.1 = false) qs /\
    forall ps, decodedPairs (RawQuery u) = Some ps ->
      let rest := List.filter (fun p => negb (isSigningQueryKey p.1)) ps in
      Permutation qs rest \/ qs = [] /\ rest = [("", "")];
  sc_headers : forall key vs, Header out !! key = Some vs ->
    Header req !! key = Some vs /\ forwardingHeader key = false /\
    forall name, name ∈ hopHeaders \/ nominates (Header req) name -> EqualFold key name = false;
}.

Lemma scrubbed_outgoing endpoint (req req0 : request) u mode q p data v : same_head req0 req -> Url req0 = Some u ->
  scrubAndCanonicalizeQuery (RawQuery u) = Good q ->
  scrubbed endpoint req0 (outgoing req u mode endpoint q p data v).
Proof.
  intros (Hm & Hu & Hh & Hhd) Eu [Hq Hqs]%scrubQuery_spec. constructor; [done|done| |].
  - exists u. eexists. split_and!; done.
  - intros key vs H. cbn in H. rewrite Hhd in H. by destruct (scrubForwardingHeaders_spec (Header req0) key vs)
      as [(H1 & H2 & H3) _].
Qed.

(** C10. What [Resign] hands to the signer and returns signed: a request with
    none of the caller's signing parameters, hop headers, nominated headers or
    forwarding headers, addressed to the endpoint, under the endpoint's signing
    identity, with usable credentials and a set clock, whose body is a view that
    delivers exactly the captured bytes, and whose payload hash is their
    digest, unless an unsigned payload is allowed. *)
Theorem Resign_forwards (r : Resigner) (mode : option string) (endpoint : AWSEndpoint) (st st' : state)
    (signed : request) :
  resigns_well r st -> Resign (Some r) mode endpoint st = Some (Good signed, st') ->
  exists sign creds out payloadHash now p data v,
    r_Signer (r_options r) = Some sign /\ r_Clock (r_options r) = Some now /\ IsZero now = false /\
    retrieveCredentials (provider r) = Good creds /\
    sign creds out payloadHash (resignService endpoint) (resignRegion endpoint) now = Some signed /\
    scrubbed endpoint st.1 out /\
    holding sha256 st'.2 p data /\ ContentLength out = slen data /\
    BodyState out = mkReqBody (View v) (GetView p) (Some p) mode /\
    (v = ErrorReader \/ forall got v', drains (viewRead st'.2) v got v' -> got = data) /\
    (payloadHash = "UNSIGNED-PAYLOAD" /\ allows r st.1 = true \/
     hexDecode payloadHash = Some (sha256 data)).
Proof.
  intros Hr E. destruct (Url st.1) as [u|] eqn:Eu; [|unfold Sigv4Resign.Resign in E; by rewrite Eu in E].
  destruct (Resign_run r mode endpoint st st' (Good signed) u Hr Eu E)
    as (q & p & data & _ & _ & Hq & _ & Hh & Hb & (v & hash & creds & sign & now & Hv & Hhash & Hc & Hk & Hz & Hs & Hsign) & _).
  exists sign, creds, (outgoing st'.1 u mode endpoint q p data v), hash, now, p, data, v.
  split_and!; try done; [by apply scrubbed_outgoing|by eapply bodied_holding| |].
  - destruct Hv as [|[Ho Hrem]]; [by left|right]. intros got v' Hd.
    pose proof (view_drains _ _ _ _ Hd ltac:(lia)). congruence.
  - by apply resignPayloadHash_sound in Hhash.
Qed.

(** [Resign] always ends, and when it fails it holds on to nothing: no file and
    no open body is added, and the captured body the request came with is
    released. *)
Theorem Resign_releases (r : Resigner) (mode : option string) (endpoint : AWSEndpoint) (st : state) (u : URL) :
  resigns_well r st -> Url st.1 = Some u ->
  exists out st', Resign (Some r) mode endpoint st = Some (out, st') /\
  forall e, out = Bad e -> tidy sha256 st.2 st'.2 /\ gaveUp st st'.
Proof.
  intros Hr Hu. destruct (Resign_ends r mode endpoint st u Hr Hu) as (out & st' & E & H).
  exists out, st'. split; [done|]. intros e ->. by destruct H as (H1 & H2 & _).
Qed.

(** The file a captured body was spooled to could not be opened again. *)
Definition spoolLost (w : World) (p : nat) : Prop :=
  exists c, cells w !! p = Some c /\ path (content c) <> "" /\ (attempt fails (fsys w)).1 = false.

Lemma Reader_lost w p data : holding sha256 w p data -> (Reader fails p w).1 = None -> spoolLost w p.
Proof.
  intros (c & Ec & Hc & _ & _ & Hd). unfold Reader. rewrite Ec, Hc.
  destruct (path (content c) =? "")%string eqn:Ep; [done|]. cbn [negb].
  destruct (attempt fails (fsys w)) as [opened f] eqn:Ea. destruct (negb opened || _) eqn:Eo; [|done].
  intros _. exists c. apply eqb_false_str in Ep. split_and!; [done..|]. rewrite Ea.
  unfold attempt in Ea. injection Ea as <- <-. apply orb_true_iff in Eo as [Eo%negb_true_iff|Eo]; [done|].
  apply bool_decide_eq_true in Eo. change (files (tickFS (fsys w))) with (files (fsys w)) in Eo. congruence.
Qed.

(** C14. Verification and re-signing agree: re-signing a verified request for its
    endpoint signs exactly the bytes and the payload hash that were verified,
    and the canonical query that was verified; it refuses nothing that
    verification accepted: it fails only when the file the body was spooled to
    cannot be opened again, when the credentials cannot be had, when there is
    no clock, or when there is no signer or the signer itself fails on that
    request, and then with the error of that cause. *)
Theorem verified_resigns (v : Verifier) (cancelled : bool) (r : Resigner) (mode : option string)
    (endpoint : AWSEndpoint) (st st1 st2 : state) (vr : VerifiedRequest) (out : res request) :
  runs_well Read tempName fuel sha256 v st ->
  Verify Read fails tempName fuel sha256 hmac ParseTime ToASCII (Some v) cancelled endpoint st = Some (Good vr, st1) ->
  resigns_well r st1 ->
  Resign (Some r) mode endpoint st1 = Some (out, st2) ->
  exists c names t payloadHash canonical data p u,
    signed sha256 hmac v st1.1 c names t payloadHash canonical /\
    marker (BodyState st1.1) = Some p /\ holding sha256 st1.2 p data /\ Url st1.1 = Some u /\
    resignService endpoint = c_service c /\ resignRegion endpoint = c_region c /\
    match out with
    | Good request => exists sign creds now view,
        r_Signer (r_options r) = Some sign /\ retrieveCredentials (provider r) = Good creds /\
        r_Clock (r_options r) = Some now /\ IsZero now = false /\
        sign creds (outgoing st1.1 u mode endpoint (can_Query canonical) p data view) payloadHash
          (c_service c) (c_region c) now = Some request
    | Bad e =>
        spoolLost st1.2 p /\ e = unavailableBody \/
        unsigned r st1.1 u mode endpoint (can_Query canonical) payloadHash p data e
    end.
Proof.
  intros Hv E1 Hr E2. apply Verify_good in E1; [|done].
  destruct E1 as (c & names & t & p & data & hash & can & stc & A & _ & (Ev & Ee & _ & u & Eu & Eq) & Hb & Hp & Hd & Hs & Est & _).
  destruct Hb as ([Hh (_ & _ & _ & cl & Ecl & Hcl & _) _ Hm _ _ _] & _ & _).
  assert (same_head st.1 st1.1) as Hh1 by by rewrite Est.
  assert (holding sha256 st1.2 p data) as Hhold by (rewrite Est; by exists cl).
  assert (marker (BodyState st1.1) = Some p) as Hm1 by by rewrite Est.
  assert (payloadMode (BodyState st1.1) = Some (vr_PayloadMode vr)) as Hmode by by rewrite Est.
  pose proof Hh1 as (_ & Hu1 & _ & Hhd1).
  assert (Url st1.1 = Some u) as Eu1 by congruence.
  destruct (payload_agrees sha256 v st1.1 hash (vr_PayloadMode vr) data (allows r st1.1)) as [Hpay Hhash];
    [done|by rewrite Hhd1| |].
  { intros Hun. unfold allows. rewrite Hmode, Hun. by rewrite orb_true_r. }
  pose proof A as (_ & _ & _ & _ & _ & _ & _ & _ & Hsvc & Hscope).
  apply scope_identity in Hscope as (Es & Er & Hr0).
  assert (c_service c <> "") as Hs0 by (intros Hx; by rewrite Hx in Hsvc).
  pose proof (Build_inv _ _ _ _ _ (proj1 Hs)) as (l & _ & Hcq & _).
  unfold CanonicalQuery in Hcq. cbn [mbind option_bind] in Hcq. rewrite Eu1 in Hcq.
  pose proof (scrub_unsigned (RawQuery u) Eq) as Hscrub. rewrite Hcq in Hscrub.
  assert (verifyRequestEndpoint ToASCII st1.1 endpoint = Good tt) as Ee1.
  { rewrite <-Ee. apply verifyRequestEndpoint_head. by rewrite Est. }
  pose proof (Resign_run r mode endpoint st1 st2 out u Hr Eu1 E2) as H.
  exists c, names, t, hash, can, data, p, u. split_and!; [done..|]. destruct out as [request|e].
  - destruct H as (q & p' & data' & _ & _ & Hq & _ & _ & _ & (view & hash' & creds & sign & now & _ & Hh' & Hc & Hk & Hz & Hsg & Hsign) & Hmk).
    rewrite Hm1 in Hmk. destruct Hmk as (<- & Est2 & Hhold').
    rewrite (holding_unique _ _ _ _ _ Hhold' Hhold) in *. rewrite Hscrub in Hq. injection Hq as <-.
    rewrite Est2, Hhash in Hh'. injection Hh' as <-. rewrite Est2, <-Es, <-Er in Hsign.
    by exists sign, creds, now, view.
  - destruct H as (_ & _ & [Href|[Hn|(p' & Em & H)]]); [|congruence|].
    + exfalso. unfold refused in Href. rewrite Ev, Ee1, Hscrub, Hpay, <-Es, <-Er in Href. naive_solver.
    + rewrite Hm1 in Em. injection Em as <-. destruct H as [[Hl ->]|(data' & q & Hhold' & Hq & H)].
      * left. split; [by eapply Reader_lost|done].
      * right. rewrite Hscrub in Hq. injection Hq as <-.
        by rewrite (holding_unique _ _ _ _ _ Hhold' Hhold), Hhash in H.
Qed.
End Claims.

(** ** Concrete inputs *)

(** A signer that marks the request, a provider with and one without
    credentials, and the request verified in [Sigv4Soundness]. *)
Definition markSigner : HTTPSigner (R := list string) := fun creds req payloadHash service region now =>
  Some (mkRequest (Method req) (Url req) (Host req)
    (<["Authorization" := [(aws_AccessKeyID creds ++ "/" ++ region ++ "/" ++ service ++ "/" ++ payloadHash)%string]]>
       (Header req)) (ContentLength req) (BodyState req)).
Definition sampleResigner (p : called aws_Credentials) : Resigner (R := list string) :=
  mkResigner p (mkResignOptions (Some (mkTime 2024 1 2 3 5 6 0)) (Some markSigner) 4 6 false).
Definition upstream : called aws_Credentials := Returned (mkAws "AKIAEXAMPLE" "upstream" "").
Definition resignRun (p : called aws_Credentials) :
    option (res (request (R := list string)) * Sigv4Request.state (R := list string)) :=
  Resign (U := ascii_tables) chunkRead (fun _ => false) longerName (enough (mkBodyOptions 4 6)) toyDigest
    (fun s => Ok s) (Some (sampleResigner p)) None sampleEndpoint sampleEnd.
Definition signedOf (run : option (res (request (R := list string)) * Sigv4Request.state (R := list string))) :
    request (R := list string) :=
  match run with Some (Good signed, _) => signed | _ => sampleRequest EmptyString [] end.
Definition stateOf (run : option (res (request (R := list string)) * Sigv4Request.state (R := list string))) :
    Sigv4Request.state (R := list string) :=
  match run with Some (_, st) => st | None => sampleEnd end.

Definition isBad (run : option (res (request (R := list string)) * Sigv4Request.state (R := list string))) : bool :=
  match run with Some (Bad _, _) => true | _ => false end.

Lemma sampleRun_good : sampleRun sampleSignature = Some (Good sampleResult, sampleEnd).
Proof. vm_compute. reflexivity. Qed.

Lemma sampleEnd_ok : world_ok toyDigest sampleEnd.2.
Proof.
  pose proof (Verify_good (U := ascii_tables) chunkRead (fun _ => false) longerName (enough (mkBodyOptions 4 6))
    toyDigest toyHmac (fun _ => None) (fun s => Ok s) sampleVerifier false sampleEndpoint
    (sampleStart sampleSignature) sampleEnd sampleResult (sample_runs_well _) sampleRun_good) as H.
  destruct H as (c & names & t & p & data & hash & can & st & _ & _ & _ & (_ & Hw & _) & _ & _ & _ & -> & _).
  exact Hw.
Qed.

Lemma sample_resigns_well p :
  resigns_well chunkRead longerName (enough (mkBodyOptions 4 6)) toyDigest (sampleResigner p) sampleEnd.
Proof.
  assert (normalizedBodyOptions (resignOptions (sampleResigner p)) = mkBodyOptions 4 6) as E by done.
  unfold resigns_well. rewrite E. split; [exact chunkRead_length|]. split; [exact longerName_fresh|].
  split; [done|]. split; [reflexivity|]. split; [apply le_n|]. exact sampleEnd_ok.
Qed.

Lemma Resign_forwards_witness :
  let _ := ascii_tables in
  exists out p data, scrubbed sampleEndpoint sampleEnd.1 out /\
    holding toyDigest (stateOf (resignRun upstream)).2 p data /\ ContentLength out = slen data.
Proof.
  destruct (Resign_forwards (U := ascii_tables) chunkRead (fun _ => false) longerName (enough (mkBodyOptions 4 6))
    toyDigest (fun s => Ok s) (sampleResigner upstream) None sampleEndpoint sampleEnd (stateOf (resignRun upstream))
    (signedOf (resignRun upstream)) (sample_resigns_well _) ltac:(vm_compute; reflexivity))
    as (_ & _ & out & _ & _ & p & data & _ & _ & _ & _ & _ & _ & H1 & H2 & H3 & _).
  exists out, p, data. exact (conj H1 (conj H2 H3)).
Defined.

Lemma Resign_releases_witness : exists e st',
  resignRun Failed = Some (Bad e, st') /\ tidy toyDigest sampleEnd.2 st'.2 /\ gaveUp sampleEnd st'.
Proof.
  destruct (Resign_releases (U := ascii_tables) chunkRead (fun _ => false) longerName (enough (mkBodyOptions 4 6))
    toyDigest (fun s => Ok s) (sampleResigner Failed) None sampleEndpoint sampleEnd
    (mkURL false "ec2.us-east-1.amazonaws.com" "/" "" "" "Action=DescribeInstances") (sample_resigns_well _)
    ltac:(vm_compute; reflexivity)) as (out & st' & E & H).
  assert (isBad (Some (out, st')) = true) as Hs.
  { rewrite <-E. change (isBad (resignRun Failed) = true). vm_compute. reflexivity. }
  destruct out as [signed|e]; [discriminate Hs|]. exists e, st'. exact (conj E (H e eq_refl)).
Defined.

Lemma verified_resigns_witness : exists c names t payloadHash canonical data p u (sign : HTTPSigner) creds now view,
  signed (U := ascii_tables) toyDigest toyHmac sampleVerifier sampleEnd.1 c names t payloadHash canonical /\
  holding toyDigest sampleEnd.2 p data /\
  sign creds (outgoing (U := ascii_tables) sampleEnd.1 u None sampleEndpoint (can_Query canonical) p data view) payloadHash
    (c_service c) (c_region c) now = Some (signedOf (resignRun upstream)).
Proof.
  destruct (verified_resigns (U := ascii_tables) chunkRead (fun _ => false) longerName (enough (mkBodyOptions 4 6))
    toyDigest toyHmac (fun _ => None) (fun s => Ok s) sampleVerifier false (sampleResigner upstream) None sampleEndpoint
    (sampleStart sampleSignature) sampleEnd (stateOf (resignRun upstream)) sampleResult
    (Good (signedOf (resignRun upstream))) (sample_runs_well _) sampleRun_good (sample_resigns_well _)
    ltac:(vm_compute; reflexivity)) as (c & names & t & hash & can & data & p & u & H1 & _ & H2 & _ & _ & _ &
      sign & creds & now & view & _ & _ & _ & _ & H3).
  exists c, names, t, hash, can, data, p, u, sign, creds, now, view. exact (conj H1 (conj H2 H3)).
Defined.
End Sigv4Resign.
