(* ===== verification/AuditEvent.v ===== *)
(** * Audit events (internal/audit: event.go, redact.go, jsonl.go, summary.go)

    The event record with its validator, the logged form of a mapping's
    requirements, resource hashing, the reader's queries and the summary.  HMAC
    is a parameter; the scan of [RedactString] is in [Redact], the JSON text is not
    modelled.  [nil] slices are [None] where the validator tells them apart. *)

From Stdlib Require Import ZArith Lia Ascii Floats.SpecFloat.
From stdpp Require Import base gmap strings list.
From S2P Require Import Prelude GoStrings GoEncoding AwsTypes GoTime.

Module AuditEvent.
Import AwsTypes.AwsTypes GoTime.GoTime.

Definition SchemaVersion : string := "kordn.audit/v1".

Definition RunStarted : string := "run.started".
Definition RunEnded : string := "run.ended".
Definition RequestDecision : string := "aws.request.decision".
Definition ForwardError : string := "aws.request.forward_error".
Definition AuthenticationFailed : string := "proxy.authentication_failed".
Definition UnsupportedRequest : string := "proxy.unsupported_request".
Definition WriterFailed : string := "audit.writer_failed".
Definition CleanupFailed : string := "runtime.cleanup_failed".

Record RootProcess := mkRoot { PID : Z; Argv0 : string; CommandHash : string }.
Record RequestInfo := mkInfo {
  ri_Host : string; ri_Partition : string; ri_Service : string; ri_Operation : string;
  ri_Region : string; ri_Protocol : string; ri_Method : string; ri_PayloadBytes : Z;
}.
Record Requirement := mkLogged {
  lr_Action : string; lr_Resources : list string; lr_ScopeKind : string; lr_Dependent : bool;
}.
Record MappingInfo := mkMappingInfo {
  mi_Confidence : string; mi_MapperVersion : string; mi_IamLiveVersion : string;
  mi_AuthorizationDataVersion : string;
}.
Record DecisionInfo := mkDecisionInfo {
  di_Result : string; di_ReasonCode : string; di_MatchedRuleIDs : list string; di_PolicyHash : string;
}.
Record UpstreamInfo := mkUpstreamInfo {
  ui_Profile : string; ui_PrincipalARN : string; ui_HTTPStatus : Z; ui_AWSRequestID : string;
}.

(** Timings and the metrics snapshot are measurements; an event only has them
    or not.  [InUTC] is [Timestamp.Location() == time.UTC]. *)
Record Event := mkEvent {
  ev_SchemaVersion : string; ev_EventID : string; ev_RunID : string;
  ev_Timestamp : Time; ev_InUTC : bool; ev_EventType : string;
  ev_RootProcess : option RootProcess; ev_ConnectionID : string; ev_Request : option RequestInfo;
  ev_IAMRequirements : option (list Requirement); ev_Mapping : option MappingInfo;
  ev_Decision : option DecisionInfo; ev_Upstream : option UpstreamInfo; ev_Timing : option unit;
  ev_Status : string; ev_ErrorCode : string; ev_ExitCode : option Z; ev_DurationMS : spec_float;
  ev_Metrics : option unit;
}.

(** ** Validation *)

Definition isHex (v : string) : bool :=
  if negb (slen v =? 64) then false
  else forallb (fun c => is_digit c || between (ord "a") (ord "f") c) (runes v).
Definition validHash (v : string) : bool :=
  (slen v =? 71) && HasPrefix v "sha256:" && isHex (str_drop 7 v).

Definition validateRoot (r : RootProcess) : option error :=
  if (PID r <? 1) || (Argv0 r =? "")%string || (256 <? slen (Argv0 r)) || negb (validHash (CommandHash r))
  then Some (ErrNew "invalid root process") else None.

Definition Requirement_Validate (r : Requirement) : option error :=
  if (lr_Action r =? "")%string || (List.length (lr_Resources r) =? 0)%nat || negb (scopeValid (lr_ScopeKind r))
  then Some (ErrNew "invalid audit IAM requirement")
  else if existsb (fun x => (x =? "")%string) (lr_Resources r)
  then Some (ErrNew "empty audit resource") else None.

Definition RequestInfo_Validate (r : RequestInfo) : option error :=
  if blank (ri_Host r) || (ri_Partition r =? "")%string || (ri_Service r =? "")%string ||
     (ri_Operation r =? "")%string || negb (protocolSupported (ri_Protocol r)) ||
     (ri_Method r =? "")%string || (ri_PayloadBytes r <? 0)
  then Some (ErrNew "invalid request audit information") else None.

Definition given {A} (o : option A) : bool := match o with Some _ => true | None => false end.
(** [len(s) != 0] of a slice that may be nil. *)
Definition nonempty {A} (o : option (list A)) : bool :=
  match o with Some (_ :: _) => true | _ => false end.
Definition nonzero (f : spec_float) : bool := negb (SFeqb f (S754_zero false)).

Fixpoint checkLogged (rs : list Requirement) : option error :=
  match rs with
  | [] => None
  | r :: rs => match Requirement_Validate r with Some err => Some err | None => checkLogged rs end
  end.

(** The cases of [Event.Validate], after the identity fields. *)
Definition validateStarted (e : Event) : option error :=
  if negb (ev_ConnectionID e =? "")%string || given (ev_Request e) || nonempty (ev_IAMRequirements e) ||
     given (ev_Mapping e) || given (ev_Decision e) || given (ev_Timing e) || negb (ev_Status e =? "")%string ||
     negb (ev_ErrorCode e =? "")%string || given (ev_ExitCode e) || nonzero (ev_DurationMS e) || given (ev_Metrics e)
  then Some (ErrNew "run.started contains fields for another event")
  else match ev_RootProcess e, ev_Upstream e with
  | Some root, Some upstream =>
    match validateRoot root with
    | Some err => Some err
    | None => if (ui_Profile upstream =? "")%string then Some (ErrNew "run.started profile is required") else None
    end
  | _, _ => Some (ErrNew "run.started is incomplete")
  end.

Definition validateEnded (e : Event) : option error :=
  if negb (ev_ConnectionID e =? "")%string || given (ev_Request e) || nonempty (ev_IAMRequirements e) ||
     given (ev_Mapping e) || given (ev_Decision e) || given (ev_Timing e) || negb (ev_ErrorCode e =? "")%string ||
     given (ev_Upstream e) || negb (given (ev_Metrics e))
  then Some (ErrNew "run.ended contains fields for another event")
  else match ev_RootProcess e, ev_ExitCode e with
  | Some root, Some code =>
    if (ev_Status e =? "")%string then Some (ErrNew "run.ended is incomplete")
    else match validateRoot root with
    | Some err => Some err
    | None => if (code <? 0) || (255 <? code) then Some (ErrNew "run exit code is invalid") else None
    end
  | _, _ => Some (ErrNew "run.ended is incomplete")
  end.

Definition validateDecision (e : Event) : option error :=
  if given (ev_RootProcess e) || given (ev_Upstream e) || negb (ev_Status e =? "")%string ||
     negb (ev_ErrorCode e =? "")%string || given (ev_ExitCode e) || nonzero (ev_DurationMS e) || given (ev_Metrics e)
  then Some (ErrNew "decision event contains fields for another event")
  else match ev_Request e, ev_IAMRequirements e, ev_Mapping e, ev_Decision e, ev_Timing e with
  | Some request, Some (r :: rs), Some mapping, Some decision, Some _ =>
    if (ev_ConnectionID e =? "")%string then Some (ErrNew "decision event is incomplete")
    else match RequestInfo_Validate request with
    | Some err => Some err
    | None =>
      if negb (di_Result decision =? "allow")%string && negb (di_Result decision =? "deny")%string
      then Some (ErrNew "decision result is invalid")
      else if negb (validHash (di_PolicyHash decision)) then Some (ErrNew "decision policy hash is invalid")
      else if negb (confidenceValid (mi_Confidence mapping)) || (mi_MapperVersion mapping =? "")%string
      then Some (ErrNew "decision mapping is incomplete")
      else checkLogged (r :: rs)
    end
  | _, _, _, _, _ => Some (ErrNew "decision event is incomplete")
  end.

Definition validateForward (e : Event) : option error :=
  if given (ev_RootProcess e) || given (ev_IAMRequirements e) || given (ev_Mapping e) || given (ev_Decision e) ||
     given (ev_Metrics e)
  then Some (ErrNew "forward error event contains fields for another event")
  else match ev_Request e with
  | Some request =>
    if (ev_ConnectionID e =? "")%string || (ev_ErrorCode e =? "")%string
    then Some (ErrNew "forward error event is incomplete")
    else RequestInfo_Validate request
  | None => Some (ErrNew "forward error event is incomplete")
  end.

Definition validateProxy (e : Event) : option error :=
  if given (ev_RootProcess e) || given (ev_Request e) || given (ev_IAMRequirements e) || given (ev_Mapping e) ||
     given (ev_Decision e) || given (ev_Upstream e) || given (ev_Timing e) || negb (ev_Status e =? "")%string ||
     given (ev_ExitCode e) || nonzero (ev_DurationMS e) || given (ev_Metrics e)
  then Some (ErrNew "proxy event contains fields for another event")
  else if (ev_ConnectionID e =? "")%string || (ev_ErrorCode e =? "")%string
  then Some (ErrNew "proxy event is incomplete") else None.

Definition validateFailure (e : Event) : option error :=
  if given (ev_RootProcess e) || negb (ev_ConnectionID e =? "")%string || given (ev_Request e) ||
     given (ev_IAMRequirements e) || given (ev_Mapping e) || given (ev_Decision e) || given (ev_Upstream e) ||
     given (ev_Timing e) || negb (ev_Status e =? "")%string || given (ev_ExitCode e) ||
     nonzero (ev_DurationMS e) || given (ev_Metrics e)
  then Some (ErrNew "failure event contains fields for another event")
  else if (ev_ErrorCode e =? "")%string then Some (ErrNew "failure event is incomplete") else None.

Definition Event_Validate (e : Event) : option error :=
  if negb (ev_SchemaVersion e =? SchemaVersion)%string || (ev_EventID e =? "")%string || (128 <? slen (ev_EventID e)) ||
     (ev_RunID e =? "")%string || (128 <? slen (ev_RunID e)) || (ev_EventType e =? "")%string ||
     IsZero (ev_Timestamp e) || negb (ev_InUTC e)
  then Some (ErrNew "invalid audit identity")
  else if (ev_EventType e =? RunStarted)%string then validateStarted e
  else if (ev_EventType e =? RunEnded)%string then validateEnded e
  else if (ev_EventType e =? RequestDecision)%string then validateDecision e
  else if (ev_EventType e =? ForwardError)%string then validateForward e
  else if (ev_EventType e =? AuthenticationFailed)%string || (ev_EventType e =? UnsupportedRequest)%string
  then validateProxy e
  else if (ev_EventType e =? WriterFailed)%string || (ev_EventType e =? CleanupFailed)%string
  then validateFailure e
  else Some (ErrFmt "unsupported audit event type %q" [ev_EventType e]).

(** ** Identities *)

(** What [NewID] draws: twelve random bytes, or the time in nanoseconds when the
    source fails. *)
Inductive drawn := Drawn (b : string) | Clocked (nanos : Z).
Definition ItoaSigned (z : Z) : string := if z <? 0 then ("-" ++ Itoa (- z))%string else Itoa z.
Definition NewID (d : drawn) : string :=
  match d with
  | Drawn b => ("evt_" ++ hex_encode b)%string
  | Clocked nanos => ("evt_" ++ ItoaSigned nanos)%string
  end.

Definition NewEvent (id : drawn) (now : Time) (runID typ : string) : Event :=
  mkEvent SchemaVersion (NewID id) runID now true typ None EmptyString None None None None None None
    EmptyString EmptyString None (S754_zero false) None.

(** ** Resources *)

Section Hashing.
Context (sha256 : string -> string) (hmac : string -> string -> string).

Definition HashResource (resource : string) : string := ("sha256:" ++ hex_encode (sha256 resource))%string.
Definition HashResourceForRun (runID resource : string) : string :=
  ("hmac-sha256:" ++
   hex_encode (hmac ("kordn-audit-resource" ++ String (chr 0) runID) resource))%string.
Definition DeterministicResourceHash (resource : string) : string := HashResource resource.
Definition RedactResource (resource : string) (logARNs hashNames : bool) : string :=
  if (resource =? "")%string then EmptyString
  else if negb logARNs then "[REDACTED]"
  else if hashNames then HashResource resource else resource.

Definition requirements (rs : list IAMRequirement) (redact : IAMRequirement -> string -> string) : list Requirement :=
  (fun r => mkLogged (Action r) (redact r <$> Resources r) (ScopeKind r) (Dependent r)) <$> rs.

(** [Requirements] of package audit. *)
Definition LoggedRequirements (rs : list IAMRequirement) (hashNames : bool) : list Requirement :=
  requirements rs (fun _ s => if hashNames then HashResource s else s).

Definition redactFor (runID : string) (logARNs hashNames : bool) (r : IAMRequirement) (s : string) : string :=
  if (ScopeKind r =? ScopeKnownGlobal)%string && (s =? "*")%string then s
  else if hashNames then HashResourceForRun runID s
  else if logARNs then s else "[REDACTED]".
Definition RequirementsForRun (runID : string) (rs : list IAMRequirement) (logARNs hashNames : bool)
  : list Requirement := requirements rs (redactFor runID logARNs hashNames).
End Hashing.

(** ** Queries over a log *)

Record Summary := mkSummary {
  Total : Z; Allowed : Z; Denied : Z; Unsupported : Z; ByReason : gmap string Z; sum_RunID : string;
}.

Definition summarizeStep (s : Summary) (e : Event) : Summary :=
  if negb (ev_EventType e =? RequestDecision)%string then s
  else
    let s := mkSummary (Total s + 1) (Allowed s) (Denied s) (Unsupported s) (ByReason s) (sum_RunID s) in
    let s := match ev_Decision e with
             | None => s
             | Some d =>
               if (di_Result d =? "allow")%string
               then mkSummary (Total s) (Allowed s + 1) (Denied s) (Unsupported s) (ByReason s) (sum_RunID s)
               else mkSummary (Total s) (Allowed s) (Denied s + 1) (Unsupported s)
                      (<[di_ReasonCode d := default 0 (ByReason s !! di_ReasonCode d) + 1]> (ByReason s)) (sum_RunID s)
             end in
    if (sum_RunID s =? "")%string
    then mkSummary (Total s) (Allowed s) (Denied s) (Unsupported s) (ByReason s) (ev_RunID e) else s.
Definition Summarize (events : list Event) : Summary :=
  fold_left summarizeStep events (mkSummary 0 0 0 0 ∅ EmptyString).

(** [Query] on the events read. *)
Definition Query (events : list Event) (runID : string) : list Event :=
  if (runID =? "")%string then events
  else List.filter (fun e => (ev_RunID e =? runID)%string) events.

Definition Reasons (s : Summary) : list string := sort_strings (map_to_list (ByReason s)).*1.
End AuditEvent.
