(* ===== verification/Metrics.v ===== *)
(** * Process-local metrics (internal/observe/metrics.go)

    Counters, bounded latency samples and the two gauges with their peaks, each
    operation under the mutex being one step.  Samples are binary64 values; a
    nil receiver is [None]. *)

From Stdlib Require Import ZArith Lia Ascii Permutation Floats.SpecFloat.
From stdpp Require Import base gmap strings list.
From S2P Require Import Prelude GoStrings.

Module Metrics.

Definition Intercepted : string := "requests_intercepted".
Definition Allowed : string := "requests_allowed".
Definition Denied : string := "requests_denied".
Definition Unsupported : string := "requests_unsupported".
Definition UpstreamErrors : string := "upstream_errors".
Definition UpstreamTransport : string := "upstream.transport".
Definition UpstreamCancellation : string := "upstream.cancel".
Definition UpstreamAuth : string := "upstream.401_403".
Definition UpstreamThrottled : string := "upstream.429".
Definition UpstreamClient : string := "upstream.other_4xx".
Definition UpstreamServer : string := "upstream.5xx".
Definition AuthFailures : string := "authentication_failures".
Definition AuditFailures : string := "audit_writer_failures".
Definition AuditBackpressure : string := "audit_backpressure".
Definition CacheEndpointHits : string := "cache_endpoint_hits".
Definition CacheEndpointMisses : string := "cache_endpoint_misses".
Definition CacheMappingHits : string := "cache_mapping_hits".
Definition CacheMappingMisses : string := "cache_mapping_misses".
Definition CacheDecisionHits : string := "cache_decision_hits".
Definition CacheDecisionMisses : string := "cache_decision_misses".
Definition CacheEvictions : string := "cache_evictions".
Definition UpstreamLatency : string := "upstream_latency_ms".
Definition QueueDepth : string := "audit_queue_depth".
Definition ConnectionBackpressure : string := "connection_backpressure".
Definition RequestBackpressure : string := "request_backpressure".
Definition ChildExit : string := "child_exit".
Definition ChildCleanupFailures : string := "child_cleanup_failures".
Definition PayloadBytes : string := "payload_bytes".
Definition SpoolBytes : string := "spool_bytes".
Definition DecodeLatency : string := "decode_latency_ms".
Definition MapLatency : string := "map_latency_ms".
Definition PolicyLatency : string := "policy_latency_ms".
Definition LocalLatency : string := "local_latency_ms".

Definition deterministicCounters : list string :=
  [Intercepted; Allowed; Denied; Unsupported; UpstreamErrors; UpstreamTransport; UpstreamCancellation;
   UpstreamAuth; UpstreamThrottled; UpstreamClient; UpstreamServer; AuthFailures; AuditFailures;
   AuditBackpressure; CacheEndpointHits; CacheEndpointMisses; CacheMappingHits; CacheMappingMisses;
   CacheDecisionHits; CacheDecisionMisses; CacheEvictions; QueueDepth; ConnectionBackpressure;
   RequestBackpressure; ChildExit; ChildCleanupFailures; PayloadBytes; SpoolBytes].
Definition deterministicHistograms : list string :=
  [LocalLatency; UpstreamLatency; DecodeLatency; MapLatency; PolicyLatency].

(** [safeLabel] and [DecisionCounter]. *)
Definition labelByte (c : ascii) : bool :=
  let c := ord c in is_lower c || is_upper c || is_digit c || (c =? ord "_") || (c =? ord "-").
Fixpoint safeBytes (s : string) : string :=
  match s with
  | EmptyString => EmptyString
  | String c s => String (if labelByte c then c else "_"%char) (safeBytes s)
  end.
Definition safeLabel (value : string) : string :=
  if (value =? "")%string then "unknown" else safeBytes value.
Definition DecisionCounter (service operation reason : string) : string :=
  ("decision." ++ safeLabel service ++ "." ++ safeLabel operation ++ "." ++ safeLabel reason)%string.

(** ** Binary64 *)

Definition float64 (z : Z) : spec_float := binary_normalize 53 1024 z 0 false.
Definition f64_div (a b : spec_float) : spec_float := SFdiv 53 1024 a b.
Definition f64_mul (a b : spec_float) : spec_float := SFmul 53 1024 a b.
(** Conversion to [int] of a finite value; the others do not occur. *)
Definition truncate (f : spec_float) : Z :=
  match f with
  | S754_finite s m e =>
    let q := if e <? 0 then Z.pos m / 2 ^ (- e) else Z.pos m * 2 ^ e in if s then - q else q
  | _ => 0
  end.

(** ** The state *)

Record Metrics := mkMetrics {
  counters : gmap string Z;
  samples : gmap string (list spec_float);
  activeConnections : Z; peakConnections : Z; activeRequests : Z; peakRequests : Z;
}.
Record Histogram := mkHistogram { Count : Z; P50 : spec_float; P95 : spec_float; P99 : spec_float }.
Record Snapshot := mkSnapshot {
  Counters : gmap string Z; Histograms : gmap string Histogram;
  ActiveConnections : Z; PeakConnections : Z; ActiveRequests : Z; PeakRequests : Z;
}.

Definition NewMetrics : Metrics := mkMetrics ∅ ∅ 0 0 0 0.

Definition withCounters (m : Metrics) (c : gmap string Z) : Metrics :=
  mkMetrics c (samples m) (activeConnections m) (peakConnections m) (activeRequests m) (peakRequests m).
Definition withConnections (m : Metrics) (active : Z) : Metrics :=
  mkMetrics (counters m) (samples m) active (Z.max active (peakConnections m)) (activeRequests m)
    (peakRequests m).
Definition withRequests (m : Metrics) (active : Z) : Metrics :=
  mkMetrics (counters m) (samples m) (activeConnections m) (peakConnections m) active
    (Z.max active (peakRequests m)).

(** A method on a receiver that may be nil. *)
Definition onMetrics (f : Metrics -> Metrics) (m : option Metrics) : option Metrics := f <$> m.

Definition Add (name : string) (n : Z) : option Metrics -> option Metrics := onMetrics (fun m =>
  withCounters m (<[name := (default 0 (counters m !! name) + n) mod 2 ^ 64]> (counters m))).
Definition Inc (name : string) : option Metrics -> option Metrics := onMetrics (fun m =>
  withCounters m (<[name := (default 0 (counters m !! name) + 1) mod 2 ^ 64]> (counters m))).
Definition IncCounter (name : string) : option Metrics -> option Metrics := Inc name.
Definition SetGauge (name : string) (value : Z) : option Metrics -> option Metrics := onMetrics (fun m =>
  withCounters m (<[name := if value <? 0 then 0 else value]> (counters m))).

Definition maxSamples : nat := 4096.
Definition Observe (name : string) (d : Z) : option Metrics -> option Metrics := onMetrics (fun m =>
  let d := if d <? 0 then 0 else d in
  let values := default [] (samples m !! name) ++ [f64_div (float64 d) (float64 1000000)] in
  let values := if (maxSamples <? List.length values)%nat
                then drop (List.length values - maxSamples) values else values in
  mkMetrics (counters m) (<[name := values]> (samples m)) (activeConnections m) (peakConnections m)
    (activeRequests m) (peakRequests m)).

Definition SetActiveConnections (n : Z) : option Metrics -> option Metrics :=
  onMetrics (fun m => withConnections m (if n <? 0 then 0 else n)).
Definition SetActiveRequests (n : Z) : option Metrics -> option Metrics :=
  onMetrics (fun m => withRequests m (if n <? 0 then 0 else n)).
Definition ConnectionStarted : option Metrics -> option Metrics :=
  onMetrics (fun m => withConnections m (activeConnections m + 1)).
Definition RequestStarted : option Metrics -> option Metrics :=
  onMetrics (fun m => withRequests m (activeRequests m + 1)).
Definition ConnectionFinished : option Metrics -> option Metrics := onMetrics (fun m =>
  if 0 <? activeConnections m
  then mkMetrics (counters m) (samples m) (activeConnections m - 1) (peakConnections m) (activeRequests m)
         (peakRequests m)
  else m).
Definition RequestFinished : option Metrics -> option Metrics := onMetrics (fun m =>
  if 0 <? activeRequests m
  then mkMetrics (counters m) (samples m) (activeConnections m) (peakConnections m) (activeRequests m - 1)
         (peakRequests m)
  else m).

(** ** Snapshots *)

(** The inner loop of [hist]: [x[j]] moves left while it is less; the prefix is
    kept reversed. *)
Fixpoint sift (before : list spec_float) (x : spec_float) : list spec_float :=
  match before with
  | [] => [x]
  | y :: before' => if SFltb x y then y :: sift before' x else x :: before
  end.
Definition insertionSort (v : list spec_float) : list spec_float := rev (fold_left sift v []).

(** [pick]: indexing panics out of range. *)
Definition pick (x : list spec_float) (p : spec_float) : option spec_float :=
  let idx := truncate (f64_mul (float64 (Z.of_nat (List.length x) - 1)) p) in
  if idx <? 0 then None else x !! Z.to_nat idx.
Definition half : spec_float := f64_div (float64 1) (float64 2).
Definition p95 : spec_float := f64_div (float64 95) (float64 100).
Definition p99 : spec_float := f64_div (float64 99) (float64 100).

Definition zeroHistogram : Histogram :=
  mkHistogram 0 (S754_zero false) (S754_zero false) (S754_zero false).
(** [None] is a panic. *)
Definition hist (v : list spec_float) : option Histogram :=
  match v with
  | [] => Some zeroHistogram
  | _ =>
    let x := insertionSort v in
    a ← pick x half; b ← pick x p95; c ← pick x p99;
    Some (mkHistogram (Z.of_nat (List.length v)) a b c)
  end.

(** The loop over the samples. *)
Definition addHistogram (acc : option (gmap string Histogram)) (kv : string * list spec_float)
  : option (gmap string Histogram) := h ← acc; x ← hist kv.2; Some (<[kv.1 := x]> h).
(** [Snapshot]; [None] is a panic. *)
Definition snapshotOf (m : option Metrics) : option Snapshot :=
  match m with
  | None => Some (mkSnapshot ∅ ∅ 0 0 0 0)
  | Some m =>
    let c := counters m ∪ list_to_map ((fun name => (name, 0)) <$> deterministicCounters) in
    let zero := list_to_map ((fun name => (name, zeroHistogram)) <$> deterministicHistograms) in
    h ← fold_left addHistogram (map_to_list (samples m)) (Some zero);
    Some (mkSnapshot c h (activeConnections m) (peakConnections m) (activeRequests m) (peakRequests m))
  end.
Definition SnapshotMetrics (m : option Metrics) : option Snapshot := snapshotOf m.

(** ** Every snapshot succeeds *)

(** The operations the program performs, each one critical section. *)
Inductive mop :=
| OpAdd (name : string) (n : Z) | OpInc (name : string) | OpGauge (name : string) (value : Z)
| OpObserve (name : string) (d : Z) | OpConnections (n : Z) | OpRequests (n : Z)
| OpConnectionStarted | OpConnectionFinished | OpRequestStarted | OpRequestFinished.
Definition perform (o : mop) : option Metrics -> option Metrics :=
  match o with
  | OpAdd name n => Add name n
  | OpInc name => Inc name
  | OpGauge name value => SetGauge name value
  | OpObserve name d => Observe name d
  | OpConnections n => SetActiveConnections n
  | OpRequests n => SetActiveRequests n
  | OpConnectionStarted => ConnectionStarted
  | OpConnectionFinished => ConnectionFinished
  | OpRequestStarted => RequestStarted
  | OpRequestFinished => RequestFinished
  end.

Record metrics_ok (m : Metrics) : Prop := {
  ok_samples : forall name v, samples m !! name = Some v -> (1 <= List.length v <= maxSamples)%nat;
  ok_connections : 0 <= activeConnections m <= peakConnections m;
  ok_requests : 0 <= activeRequests m <= peakRequests m;
}.

Lemma NewMetrics_ok : metrics_ok NewMetrics.
Proof. split; simpl; [|lia..]. intros name v H. by rewrite lookup_empty in H. Qed.

Lemma window_length {A} (v : list A) x :
  let v' := v ++ [x] in
  (1 <= List.length (if (maxSamples <? List.length v')%nat
                     then drop (List.length v' - maxSamples) v' else v') <= maxSamples)%nat.
Proof.
  intros v'. assert (1 <= List.length v')%nat by (unfold v'; rewrite length_app; simpl; lia).
  destruct (Nat.ltb_spec maxSamples (List.length v')); [|lia].
  rewrite length_drop. unfold maxSamples in *. lia.
Qed.

Lemma perform_ok o m : metrics_ok m -> exists m', perform o (Some m) = Some m' /\ metrics_ok m'.
Proof.
  intros [Hs Hc Hr]. destruct o; (eexists; split; [reflexivity|]).
  4: { split; simpl; [|done..]. intros name' v.
    destruct (decide (name = name')) as [->|Hne]; [|rewrite lookup_insert_ne by done; apply Hs].
    rewrite lookup_insert_eq. intros [= <-]. apply window_length. }
  all: repeat case_if; split; simpl; done || lia.
Qed.

Lemma performed_ok ops m : metrics_ok m ->
  exists m', fold_left (fun m o => perform o m) ops (Some m) = Some m' /\ metrics_ok m'.
Proof.
  revert m. induction ops as [|o ops IH]; intros m Hm; [by exists m|].
  destruct (perform_ok o m Hm) as (m1 & E & Hm1). cbn [fold_left]. rewrite E. by apply IH.
Qed.

(** *** The sort *)

(** No element is less than the one before it. *)
Inductive ascending : list spec_float -> Prop :=
| asc_nil : ascending []
| asc_one x : ascending [x]
| asc_cons x y l : SFltb y x = false -> ascending (y :: l) -> ascending (x :: y :: l).
(** The same of a reversed list. *)
Definition descends (l : list spec_float) : Prop := ascending (rev l).

Lemma ascending_snoc l x y : ascending (l ++ [x]) -> SFltb y x = false -> ascending (l ++ [x; y]).
Proof.
  induction l as [|a [|b l] IH]; intros H Hxy; simpl in *.
  - constructor; [done|constructor].
  - inversion H; subst. constructor; [done|]. by apply IH.
  - inversion H; subst. constructor; [done|]. by apply IH.
Qed.

Lemma ascending_init l x : ascending (l ++ [x]) -> ascending l.
Proof.
  induction l as [|a [|b l] IH]; intros H; simpl in *; [constructor..|].
  inversion H; subst. constructor; [done|]. by apply IH.
Qed.

Lemma descends_cons x y l : descends (y :: l) -> SFltb x y = false -> descends (x :: y :: l).
Proof.
  unfold descends. simpl. rewrite <-app_assoc. apply ascending_snoc.
Qed.
Lemma descends_tail x l : descends (x :: l) -> descends l.
Proof. apply ascending_init. Qed.
Lemma descends_head x y l : descends (x :: y :: l) -> SFltb x y = false.
Proof.
  unfold descends. simpl. rewrite <-app_assoc. simpl. generalize (rev l). clear l.
  intros l. induction l as [|a [|b l] IH]; intros H; simpl in *; inversion H; subst; auto.
Qed.

Lemma SFltb_asym x y : SFltb x y = true -> SFltb y x = false.
Proof.
  unfold SFltb, SFcompare.
  destruct x as [[]|[]| |[] m e], y as [[]|[]| |[] m' e']; try done.
  all: rewrite (Z.compare_antisym e' e); destruct (e' ?= e)%Z eqn:Ee; simpl; try done.
  all: change (Pos.compare_cont Eq m m') with (Pos.compare m m');
       change (Pos.compare_cont Eq m' m) with (Pos.compare m' m);
       rewrite (Pos.compare_antisym m m'); by destruct (Pos.compare m m').
Qed.

Lemma sift_head before x : exists z rest, sift before x = z :: rest /\ (z = x \/ exists b', before = z :: b').
Proof. destruct before as [|y before]; simpl; [by do 2 eexists; eauto|]. case_if; do 2 eexists; eauto. Qed.

Lemma sift_descends before x : descends before -> descends (sift before x).
Proof.
  induction before as [|y before IH]; intros H; [constructor|]. simpl.
  destruct (SFltb x y) eqn:Hlt; [|by apply descends_cons].
  specialize (IH (descends_tail _ _ H)). destruct (sift_head before x) as (z & rest & E & Hz).
  rewrite E in *. apply descends_cons; [done|].
  destruct Hz as [->|(b' & ->)]; [by apply SFltb_asym|]. by apply descends_head in H.
Qed.
Lemma sift_permutation before x : Permutation (sift before x) (x :: before).
Proof.
  induction before as [|y before IH]; [done|]. simpl. case_if; [|done]. rewrite IH. constructor.
Qed.

Lemma insertionSort_spec v : Permutation (insertionSort v) v /\ ascending (insertionSort v).
Proof.
  unfold insertionSort.
  assert (forall acc, descends acc ->
    Permutation (fold_left sift v acc) (acc ++ v) /\ descends (fold_left sift v acc)) as H.
  { induction v as [|x v IH]; intros acc Hacc; simpl; [by rewrite app_nil_r|].
    destruct (IH _ (sift_descends _ x Hacc)) as [Hp Hd]. split; [|done].
    rewrite Hp, sift_permutation. simpl. apply Permutation_middle. }
  destruct (H [] ltac:(constructor)) as [Hp Hd]. split; [|done].
  etransitivity; [symmetry; apply Permutation_rev|exact Hp].
Qed.

(** *** The quantiles *)

(** The indices of every list that fits the window, computed in binary64. *)
Definition inRange (p : spec_float) (n : nat) : bool :=
  let i := truncate (f64_mul (float64 (Z.of_nat n)) p) in (0 <=? i) && (i <=? Z.of_nat n).
Definition inWindow (p : spec_float) : Prop := forallb (inRange p) (seq 0 maxSamples) = true.

Lemma half_inWindow : inWindow half. Proof. vm_compute. reflexivity. Qed.
Lemma p95_inWindow : inWindow p95. Proof. vm_compute. reflexivity. Qed.
Lemma p99_inWindow : inWindow p99. Proof. vm_compute. reflexivity. Qed.

Lemma pick_inWindow p x : inWindow p -> (1 <= List.length x <= maxSamples)%nat ->
  exists v, pick x p = Some v /\ v ∈ x.
Proof.
  intros Hp Hl. unfold inWindow in Hp. rewrite forallb_forall in Hp.
  specialize (Hp (List.length x - 1)%nat ltac:(apply in_seq; lia)). unfold inRange in Hp. unfold pick.
  replace (Z.of_nat (List.length x) - 1) with (Z.of_nat (List.length x - 1)) by lia.
  set (i := truncate _) in *. apply andb_true_iff in Hp as [H0%Z.leb_le H1%Z.leb_le].
  destruct (Z.ltb_spec i 0); [lia|].
  destruct (lookup_lt_is_Some_2 x (Z.to_nat i)) as [v E]; [lia|].
  exists v. split; [done|]. by eapply list_elem_of_lookup_2.
Qed.

(** What a histogram of samples reports. *)
Definition describes (h : Histogram) (v : list spec_float) : Prop :=
  Count h = Z.of_nat (List.length v) /\ P50 h ∈ v /\ P95 h ∈ v /\ P99 h ∈ v.

Lemma hist_spec v : (1 <= List.length v <= maxSamples)%nat -> exists h, hist v = Some h /\ describes h v.
Proof.
  intros Hl. destruct (insertionSort_spec v) as [Hp _].
  assert (1 <= List.length (insertionSort v) <= maxSamples)%nat as Hl' by by rewrite Hp.
  destruct (pick_inWindow half _ half_inWindow Hl') as (a & Ea & Ha).
  destruct (pick_inWindow p95 _ p95_inWindow Hl') as (b & Eb & Hb).
  destruct (pick_inWindow p99 _ p99_inWindow Hl') as (c & Ec & Hc).
  rewrite Hp in Ha, Hb, Hc.
  exists (mkHistogram (Z.of_nat (List.length v)) a b c). unfold hist.
  destruct v as [|x v]; [simpl in Hl; lia|]. rewrite Ea, Eb, Ec. done.
Qed.

Lemma hist_fold (l : list (string * list spec_float)) (h : gmap string Histogram) :
  NoDup l.*1 -> (forall name v, (name, v) ∈ l -> (1 <= List.length v <= maxSamples)%nat) ->
  exists h', fold_left addHistogram l (Some h) = Some h' /\
    (forall name v, (name, v) ∈ l -> exists x, h' !! name = Some x /\ describes x v) /\
    (forall name, name ∉ l.*1 -> h' !! name = h !! name).
Proof.
  revert h. induction l as [|[name v] l IH]; intros h Hn Hl.
  { exists h. split; [done|]. split; [|done]. intros name v H. by apply not_elem_of_nil in H. }
  rewrite fmap_cons in Hn. apply NoDup_cons in Hn as [Hnot Hn]. simpl in Hnot.
  destruct (hist_spec v) as (x & E & Hx); [apply (Hl name); left|].
  destruct (IH (<[name := x]> h) Hn) as (h' & Ef & H1 & H2); [intros n w H; apply (Hl n); by right|].
  exists h'. split; [|split].
  - simpl. by rewrite E.
  - intros n w [[= -> ->]|H]%elem_of_cons; [|by apply H1].
    exists x. split; [|done]. rewrite H2 by done. apply lookup_insert_eq.
  - intros n Hn'. rewrite fmap_cons in Hn'. apply not_elem_of_cons in Hn' as [Hne Hn'].
    rewrite H2 by done. apply lookup_insert_ne. intros ->. by destruct Hne.
Qed.

(** Whatever the program has counted, gauged and observed since
    [NewMetrics], in any order, a snapshot succeeds: the percentile index, which
    is computed in binary64, stays inside the sorted window of at most 4096
    samples, each percentile is one of the samples, and the gauges lie between
    zero and their peaks. *)
Theorem snapshot_total (ops : list mop) :
  exists m s,
    fold_left (fun m o => perform o m) ops (Some NewMetrics) = Some m /\ snapshotOf (Some m) = Some s /\
    0 <= ActiveConnections s <= PeakConnections s /\ 0 <= ActiveRequests s <= PeakRequests s /\
    (forall name n, counters m !! name = Some n -> Counters s !! name = Some n) /\
    (forall name v, samples m !! name = Some v ->
       (1 <= List.length v <= maxSamples)%nat /\ Permutation (insertionSort v) v /\
       ascending (insertionSort v) /\
       exists h, Histograms s !! name = Some h /\ describes h v).
Proof.
  destruct (performed_ok ops _ NewMetrics_ok) as (m & E & Hm). exists m.
  pose proof (fun h => hist_fold (map_to_list (samples m)) h (NoDup_fst_map_to_list _)) as Hf.
  destruct (Hf (list_to_map ((fun name => (name, zeroHistogram)) <$> deterministicHistograms)))
    as (h & Eh & Hh & _).
  { intros name v Hin. apply elem_of_map_to_list in Hin. by apply (ok_samples _ Hm name). }
  eexists. split; [exact E|]. split; [unfold snapshotOf; rewrite Eh; reflexivity|].
  cbn [ActiveConnections PeakConnections ActiveRequests PeakRequests Counters Histograms].
  split; [apply Hm|]. split; [apply Hm|]. split.
  - intros name n Hn. by apply lookup_union_Some_l.
  - intros name v Hv. split; [by apply (ok_samples _ Hm name)|].
    destruct (insertionSort_spec v). split; [done|]. split; [done|].
    apply Hh. by apply elem_of_map_to_list.
Qed.
End Metrics.
