(* ===== verification/PipelineKeys.v ===== *)
(** * What the pipeline caches under (internal/proxy/server.go: the cache keys)

    The JSON text of the request fields a mapping or a decision depends on, the
    two cache keys built on it, and the copies the caches keep.  [fmtFloat] is
    [encoding/json]'s text of a finite float64; [sha256] is the digest.  Maps of
    the request are association lists, encoded in key order as [json.Marshal]
    does; a nil map or slice is not told apart from an empty one. *)

From Stdlib Require Import ZArith Lia Ascii Floats.SpecFloat.
From stdpp Require Import sorting base gmap strings list.
From S2P Require Import Prelude GoStrings GoEncoding AwsTypes.
From S2P Require Import Policy.
From S2P Require Import CacheKeys.

Module PipelineKeys.
Import Policy.Policy AwsTypes.AwsTypes CacheKeys.CacheKeys.

(** What of [proxy.Config] the pipeline reads: which dependencies are set,
    whether the audit writer implements [QueueLength] and [Failed], and the
    versions the mapper reports where it has the method. *)
Record Config := mkConfig {
  has_InboundAuthenticator : bool; has_Decoder : bool; has_Mapper : bool; has_Policy : bool;
  has_Audit : bool; has_Resigner : bool; has_Upstream : bool;
  has_QueueLength : bool; has_Failed : bool; has_caches : bool;
  cfg_RunID : string; cfg_PolicyHash : string; LogResourceARNs : bool; HashResourceNames : bool;
  cfg_MapperVersion : string; AdapterVersion : string; DataVersion : string;
  mapperReports : option string; adapterReports : option string; dataReports : option string;
}.

(** One of [mappingVersions]: configured, reported by the mapper, or unknown. *)
Definition versionOf (configured : string) (reported : option string) : string :=
  let v := if (configured =? "")%string then default configured reported else configured in
  if (v =? "")%string then "unknown" else v.
Definition mappingVersions (cfg : Config) : string * string * string :=
  (versionOf (cfg_MapperVersion cfg) (mapperReports cfg),
   versionOf (AdapterVersion cfg) (adapterReports cfg),
   versionOf (DataVersion cfg) (dataReports cfg)).

(** ** JSON *)

Section Json.
Context (fmtFloat : spec_float -> string).

Definition json_int (z : Z) : string := if z <? 0 then ("-" ++ Itoa (- z))%string else Itoa z.

(** A map with string keys, in key order, from encoded values. *)
Definition json_map (kvs : list (string * string)) : string :=
  json_object (sort_by (fun a b => str_leb a.1 b.1) kvs).
Definition json_array (vs : list string) : string := ("[" ++ Join vs "," ++ "]")%string.

(** [omitempty]. *)
Definition member (name : string) (empty : bool) (text : string) : list (string * string) :=
  if empty then [] else [(name, text)].

(** The text of a [Value]; only positive zero is an empty float. *)
Fixpoint json_value (v : Value) : string :=
  json_object
    (("kind", json_quote (Kind v)) ::
     member "string" (StringV v =? "")%string (json_quote (StringV v)) ++
     member "bool" (negb (BoolV v)) (json_bool (BoolV v)) ++
     member "int" (IntV v =? 0) (json_int (IntV v)) ++
     member "float" (match FloatV v with S754_zero false => true | _ => false end) (fmtFloat (FloatV v)) ++
     member "object" (match ObjectV v with [] => true | _ => false end)
       (json_map ((fun kv => (kv.1, json_value kv.2)) <$> ObjectV v)) ++
     member "array" (match ArrayV v with [] => true | _ => false end)
       (json_array (json_value <$> ArrayV v))).

(** [json.Marshal] refuses a float that is not finite, wherever it stands. *)
Definition marshalable (f : spec_float) : bool :=
  match f with S754_zero _ | S754_finite _ _ _ => true | _ => false end.
Fixpoint value_marshals (v : Value) : bool :=
  marshalable (FloatV v) && forallb (fun kv => value_marshals kv.2) (ObjectV v) &&
  forallb value_marshals (ArrayV v).

Definition json_query (q : gmap string (list string)) : string :=
  json_map ((fun kv => (kv.1, json_strings kv.2)) <$> map_to_list q).
Definition json_parameters (ps : list (string * Value)) : string :=
  json_map ((fun kv => (kv.1, json_value kv.2)) <$> ps).

(** [data, _ := json.Marshal(...)]: nothing when it fails. *)
Definition marshal (r : DecodedAWSRequest) (fields : list (string * string)) : string :=
  if forallb (fun kv => value_marshals kv.2) (Parameters r) then json_object fields else EmptyString.

Definition mappingRequest (r : DecodedAWSRequest) : string :=
  marshal r
    [("Partition", json_quote (Partition r)); ("Host", json_quote (EndpointHost r));
     ("Service", json_quote (Service r)); ("Region", json_quote (Region r));
     ("Protocol", json_quote (Protocol r)); ("Operation", json_quote (Operation r));
     ("Method", json_quote (Method r)); ("Path", json_quote (CanonicalPath r));
     ("Query", json_query (CanonicalQuery r)); ("Parameters", json_parameters (Parameters r));
     ("Account", json_quote (CallerAccountID r)); ("PayloadMode", json_quote (PayloadHashMode r));
     ("PayloadBytes", json_int (PayloadBytes r))].
Definition decisionRequest (r : DecodedAWSRequest) : string :=
  marshal r
    [("Partition", json_quote (Partition r)); ("Host", json_quote (EndpointHost r));
     ("Service", json_quote (Service r)); ("Region", json_quote (Region r));
     ("Protocol", json_quote (Protocol r)); ("Operation", json_quote (Operation r));
     ("Method", json_quote (Method r)); ("Path", json_quote (CanonicalPath r));
     ("Account", json_quote (CallerAccountID r)); ("PayloadMode", json_quote (PayloadHashMode r));
     ("Query", json_query (CanonicalQuery r)); ("Parameters", json_parameters (Parameters r));
     ("PayloadBytes", json_int (PayloadBytes r))].

Definition json_evidence (e : MappingEvidence) : string :=
  json_object [("source", json_quote (Source e)); ("field", json_quote (Field e));
               ("value", json_quote (EvValue e))].
Definition mappingMetadata (m : MappingResult) : string :=
  json_object
    [("Confidence", json_quote (Confidence m)); ("MapperVersion", json_quote (MapperVersion m));
     ("IamLiveVersion", json_quote (IamLiveVersion m));
     ("AuthorizationDataVersion", json_quote (AuthorizationDataVersion m));
     ("Evidence", match Evidence m with [] => "null" | es => json_array (json_evidence <$> es) end)].

(** ** The keys *)

Context (sha256 : string -> string).

Definition mappingCacheKey (cfg : Config) (runID : string) (endpoint : AWSEndpoint) (r : DecodedAWSRequest)
  : string :=
  if negb (has_caches cfg) then EmptyString
  else
    let '(mapper, adapter, version) := mappingVersions cfg in
    HashKey sha256
      ["mapping"; runID; ep_Partition endpoint; ep_Host endpoint; ep_Service endpoint; ep_Region endpoint;
       mappingRequest r; mapper; adapter; version].

Definition decisionCacheKey (cfg : Config) (runID : string) (endpoint : AWSEndpoint) (r : DecodedAWSRequest)
    (m : MappingResult) : string :=
  if negb (has_caches cfg) then EmptyString
  else
    let '(mapper, adapter, version) := mappingVersions cfg in
    HashKey sha256
      ["decision"; runID; cfg_PolicyHash cfg; ep_Partition endpoint; ep_Host endpoint; ep_Service endpoint;
       ep_Region endpoint; CallerAccountID r; MapperVersion m; mapper; adapter; version; decisionRequest r;
       RequirementsKey sha256 (reflectRequirements (Requirements m)); mappingMetadata m].
End Json.

(** ** The copies *)

(** Copies share nothing with what they copy, and values here are immutable;
    what is left of [cloneMapping] is the field-by-field copy. *)
Definition cloneRequirement (r : IAMRequirement) : IAMRequirement :=
  mkRequirement (Action r) ([] ++ Resources r) (ScopeKind r) (Dependent r)
    ((fun kv => (kv.1, [] ++ kv.2)) <$> ConditionHint r).
Definition cloneMapping (m : MappingResult) : MappingResult :=
  mkMapping (map_Service m) (map_Operation m) (cloneRequirement <$> Requirements m) (MapperVersion m)
    (IamLiveVersion m) (AuthorizationDataVersion m) (Confidence m) ([] ++ Evidence m).
Definition cloneDecision (d : Decision) : Decision :=
  mkDecision (Result d) (ReasonCode d) ([] ++ MatchedRuleIDs d).

Lemma cloneRequirement_id r : cloneRequirement r = r.
Proof.
  destruct r as [a rs k d cs]. unfold cloneRequirement. cbn. f_equal.
  induction cs as [|[k' v] cs IH]; [done|]. rewrite fmap_cons. by f_equal.
Qed.
Lemma cloneMapping_id m : cloneMapping m = m.
Proof.
  destruct m as [a b rs c d e f g]. unfold cloneMapping. cbn. f_equal.
  induction rs as [|r rs IH]; [done|]. rewrite fmap_cons, cloneRequirement_id. by f_equal.
Qed.
Lemma cloneDecision_id d : cloneDecision d = d.
Proof. by destruct d. Qed.
End PipelineKeys.
