(* ===== verification/Pipeline.v ===== *)
(** * The request pipeline (internal/proxy/server.go: handlePipeline and what it calls)

    The handler is a program over typed calls to the world outside it: the
    authenticator, decoder, mapper, policy engine, audit writer, re-signer and
    round tripper it is configured with, the run's caches, the metrics, the
    clock, and the response writer.  A [prog] is that program as data; what a
    call answers is free, so a property that holds of every answer holds
    whatever the components, the network and the other requests of the run do.
    The component behind an interface may be absent, as a nil field is.

    Timings are measured by calls and are not kept in the event.  A panic is
    modelled where the code recovers from it: in the policy engine. *)

From Stdlib Require Import ZArith Lia Ascii Floats.SpecFloat.
From stdpp Require Import base gmap strings list.
From S2P Require Import Prelude GoStrings GoEncoding AwsTypes.
From S2P Require Import Awserror.
From S2P Require Import Policy.
From S2P Require Import IamMapper.
From S2P Require Import GoTime.
From S2P Require Import Sigv4Canonical.
From S2P Require Import Sigv4Verify.
From S2P Require Import AuditEvent.
From S2P Require Import Metrics.
From S2P Require Import CacheKeys.
From S2P Require Import PipelineKeys.

Module Pipeline.
Import Policy.Policy AwsTypes.AwsTypes GoTime.GoTime AuditEvent.AuditEvent PipelineKeys.PipelineKeys.
Import (notations) Sigv4Canonical.Sigv4Canonical.
Abbreviation VerifiedRequest := Sigv4Verify.Sigv4Verify.VerifiedRequest.
Abbreviation gerr := IamMapper.IamMapper.gerr.
Abbreviation called := IamMapper.IamMapper.called.

(** ** Errors of the components *)

(** A Go error from the verifier: plain, a possibly nil [*sigv4.Error], or one
    that wraps another. *)
Inductive verr :=
| VPlain (msg : string)
| VTyped (e : option Sigv4Canonical.Sigv4Canonical.Error)
| VWrap (msg : string) (cause : verr).

(** [sigv4.CodeOf]: [errors.As] stops at the first typed error. *)
Fixpoint CodeOf (err : verr) : string :=
  match err with
  | VPlain _ => EmptyString
  | VTyped (Some e) => Sigv4Canonical.Sigv4Canonical.Code e
  | VTyped None => EmptyString
  | VWrap _ cause => CodeOf cause
  end.

Definition verifyReason (err : verr) : string :=
  let c := CodeOf err in
  if (c =? Sigv4Canonical.Sigv4Canonical.CodeUnsupportedSigning)%string then "unsupported_signing_scheme"
  else if (c =? Sigv4Canonical.Sigv4Canonical.CodeUnsupportedPayload)%string then "unsupported_payload_mode"
  else if (c =? Sigv4Canonical.Sigv4Canonical.CodeOversizedBody)%string then "request_too_large"
  else "invalid_inbound_signature".

(** [errors.Is(err, &MappingError{Kind: kind})]. *)
Fixpoint isMapping (kind : Z) (err : gerr) : bool :=
  match err with
  | IamMapper.IamMapper.GCtx _ | IamMapper.IamMapper.GPlain _ => false
  | IamMapper.IamMapper.GMapping k _ cause _ =>
    (k =? kind) || match cause with Some c => isMapping kind c | None => false end
  | IamMapper.IamMapper.GFailure _ _ _ cause => match cause with Some c => isMapping kind c | None => false end
  end.

Definition mapReason (err : option gerr) : string :=
  match err with
  | None => "mapping_low_confidence"
  | Some err =>
    if isMapping IamMapper.IamMapper.MappingFailureUnresolvedDependency err then "dependent_permission_unresolved"
    else if isMapping IamMapper.IamMapper.MappingFailureUnresolvedPrimaryResource err then "resource_unresolved"
    else if isMapping IamMapper.IamMapper.MappingFailureUnknownWireOperation err ||
            isMapping IamMapper.IamMapper.MappingFailureAmbiguousWireOperation err then "unknown_operation"
    else "mapping_low_confidence"
  end.

(** What the audit writer answers: an error, and whether it is
    [ErrBackpressure]. *)
Record auditErr := mkAuditErr { isBackpressure : bool }.
Definition audited (e : option auditErr) : bool := match e with None => true | Some _ => false end.

(** ** Values the handler makes *)

Definition safeMetricRune (r : Z) : bool :=
  is_lower r || is_upper r || is_digit r || (r =? ord "_") || (r =? ord "-").
Definition safeMetricLabel (value : string) : string :=
  if (value =? "")%string then "unknown"
  else foldr (fun r acc => String (if safeMetricRune r then chr r else "_"%char) acc) EmptyString (runes value).

Definition validPolicyHash (value : string) : string :=
  if (slen value =? 71) && HasPrefix value "sha256:" then value
  else ("sha256:" ++ zeros 64)%string.

Definition decodedEndpoint (r : option DecodedAWSRequest) : AWSEndpoint :=
  match r with
  | None => zeroEndpoint
  | Some r =>
    mkEndpoint (Partition r) (EndpointHost r) (Service r) (SigningService r) (SigningRegion r)
      (Region r) (Region r =? "")%string (Scope r) (FIPS r) (DualStack r) (AccountID r)
  end.

Definition noEvidence : DecodeFailureEvidence :=
  mkFailureEvidence EmptyString EmptyString false EmptyString EmptyString false EmptyString.

Definition HasProtocol (e : DecodeFailureEvidence) : bool :=
  ProtocolAvailable e && protocolSupported (AwsTypes.AwsTypes.ev_Protocol e).
Definition HasOperation (e : DecodeFailureEvidence) : bool :=
  OperationAvailable e && validEvidenceOperation (AwsTypes.AwsTypes.ev_Operation e).

Section Values.
Context `{U : UnicodeTables}.

Definition safeDecodeFailureEvidence (err : option chain) (ep : AWSEndpoint) (claimed : string)
  : DecodeFailureEvidence :=
  match DecodeFailureEvidenceFromError err with
  | None => noEvidence
  | Some evidence =>
    if negb (err_nil (Evidence_Validate evidence)) ||
       negb (AwsTypes.AwsTypes.ev_Service evidence =? ep_Service ep)%string ||
       (ProtocolAvailable evidence && negb (AwsTypes.AwsTypes.ev_Protocol evidence =? claimed)%string)
    then noEvidence else evidence
  end.

Definition failureDecoded (method : string) (ep : AWSEndpoint) (evidence : DecodeFailureEvidence)
  : DecodedAWSRequest :=
  let evidence :=
    if negb (err_nil (Evidence_Validate evidence)) ||
       (negb (AwsTypes.AwsTypes.ev_Service evidence =? "")%string &&
        negb (AwsTypes.AwsTypes.ev_Service evidence =? ep_Service ep)%string)
    then noEvidence else evidence in
  let method := if (method =? "")%string then "POST" else method in
  let protocol := if HasProtocol evidence then AwsTypes.AwsTypes.ev_Protocol evidence else ProtocolJSON11 in
  let service := if (ep_Service ep =? "")%string then "unknown" else ep_Service ep in
  let operation := if HasOperation evidence then AwsTypes.AwsTypes.ev_Operation evidence else "Unknown" in
  mkDecoded (ep_Partition ep) (ep_Host ep) service "" "" (ep_Region ep) "" false false "" "" protocol
    operation method "/" ∅ None [] PayloadHashEmpty 0.

Definition failureMapping (r : DecodedAWSRequest) (stage : string) : MappingResult :=
  let service := if (Service r =? "")%string then "unknown" else Service r in
  mkMapping service (Operation r)
    [mkRequirement (service ++ ":Unknown")%string ["unknown"] ScopeUnresolved false []]
    "kordn/unknown" "" "" "unknown" [mkEvidence stage "status" "rejected"].
End Values.

(** [header.Del], and the loops of [removeHopByHopHeaders]; the values of
    Connection are read before anything is deleted. *)
Definition header_Del (h : header) (name : string) : header := delete (CanonicalHeaderKey name) h.
Definition splitComma (value : string) : list string :=
  List.filter (fun part => negb (part =? "")%string) (TrimSpace <$> Split value ",").
Definition hopByHop : list string :=
  ["Connection"; "Proxy-Connection"; "Keep-Alive"; "Proxy-Authenticate"; "Proxy-Authorization"; "TE";
   "Trailer"; "Transfer-Encoding"; "Upgrade"].
Definition removeHopByHopHeaders (h : header) : header :=
  let h' := fold_left header_Del (header_Values h "Connection" ≫= splitComma) h in
  fold_left header_Del hopByHop h'.

(** ** The fields of events *)

Definition withConnection (e : Event) (id : string) : Event :=
  mkEvent (ev_SchemaVersion e) (ev_EventID e) (ev_RunID e) (ev_Timestamp e) (ev_InUTC e) (ev_EventType e)
    (ev_RootProcess e) id (ev_Request e) (ev_IAMRequirements e) (ev_Mapping e) (ev_Decision e)
    (ev_Upstream e) (ev_Timing e) (ev_Status e) (ev_ErrorCode e) (ev_ExitCode e) (ev_DurationMS e)
    (ev_Metrics e).
Definition withCode (e : Event) (code : string) : Event :=
  mkEvent (ev_SchemaVersion e) (ev_EventID e) (ev_RunID e) (ev_Timestamp e) (ev_InUTC e) (ev_EventType e)
    (ev_RootProcess e) (ev_ConnectionID e) (ev_Request e) (ev_IAMRequirements e) (ev_Mapping e)
    (ev_Decision e) (ev_Upstream e) (ev_Timing e) (ev_Status e) code (ev_ExitCode e) (ev_DurationMS e)
    (ev_Metrics e).

Definition requestInfo (r : DecodedAWSRequest) : RequestInfo :=
  mkInfo (EndpointHost r) (Partition r) (Service r) (Operation r) (Region r) (Protocol r) (Method r)
    (PayloadBytes r).

(** The fields [decisionEvent] fills in. *)
Definition decided (hmac : string -> string -> string) (e : Event) (id : string) (r : DecodedAWSRequest) (m : MappingResult) (d : Decision)
    (cfg : Config) : Event :=
  mkEvent (ev_SchemaVersion e) id (ev_RunID e) (ev_Timestamp e) (ev_InUTC e) (ev_EventType e)
    (ev_RootProcess e) (ev_ConnectionID e) (Some (requestInfo r))
    (Some (RequirementsForRun hmac (ev_RunID e) (Requirements m) (LogResourceARNs cfg) (HashResourceNames cfg)))
    (Some (mkMappingInfo (Confidence m) (MapperVersion m) (IamLiveVersion m) (AuthorizationDataVersion m)))
    (Some (mkDecisionInfo (Result d) (ReasonCode d) ([] ++ MatchedRuleIDs d)
             (validPolicyHash (cfg_PolicyHash cfg))))
    (ev_Upstream e) (Some tt) (ev_Status e) (ev_ErrorCode e) (ev_ExitCode e) (ev_DurationMS e) (ev_Metrics e).
Definition forwarded (e : Event) (r : DecodedAWSRequest) : Event :=
  mkEvent (ev_SchemaVersion e) (ev_EventID e) (ev_RunID e) (ev_Timestamp e) (ev_InUTC e) (ev_EventType e)
    (ev_RootProcess e) (ev_ConnectionID e) (Some (requestInfo r)) (ev_IAMRequirements e) (ev_Mapping e)
    (ev_Decision e) (ev_Upstream e) (ev_Timing e) (ev_Status e) "upstream_transport_error" (ev_ExitCode e)
    (ev_DurationMS e) (ev_Metrics e).
(** ** The program *)

(** [R] and [O] are the requests the verifier and the re-signer hand back. *)
Section Program.
Context `{U : UnicodeTables}.
Context (R O : Type).

(** [*awsrequest.VerifiedRequest]. *)
Record Verified := mkVerifiedBy { v_Request : option R; v_Identity : VerifiedRequest }.
Definition Verified_Validate (v : Verified) : option error :=
  match v_Request v with
  | None => Some (ErrNew "verified request is nil")
  | Some _ => Sigv4Verify.Sigv4Verify.VerifiedRequest_Validate (v_Identity v)
  end.

(** [*http.Response]: the reads its body answers until the one with an error. *)
Record Upstream := mkUpstream {
  up_StatusCode : Z; up_Header : header; up_Reads : list string; up_LastRead : string;
}.

Inductive cacheName := OperationsCache | DecisionsCache.
(** The dynamic type of a cached value. *)
Inductive cachedValue := CachedMapping (m : option MappingResult) | CachedDecision (d : Decision) | CachedOther.

(** A call and the type of its answer. *)
Inductive call : Type -> Type :=
| CVerify : call (option Verified * option verr)
| CDecode (v : Verified) : call (option DecodedAWSRequest * option chain)
| CMap (r : DecodedAWSRequest) : call (option MappingResult * option gerr)
| CEvaluate (i : DecisionInput) : call (called Decision)
| CAudit (e : Event) : call (option auditErr)
| CQueueLength : call Z
| CAuditFailed : call bool
| CResign (v : Verified) : call (Sigv4Canonical.Sigv4Canonical.Error + O)
| CRoundTrip (out : O) : call (option Upstream * option bool)
| CBody (v : Verified) : call (option (string * Z))
| CCloseBody (v : Verified) : call unit
| CGet (c : cacheName) (key : string) : call (option cachedValue)
| CAdd (c : cacheName) (key : string) (value : cachedValue) : call bool
| CNow : call Time
| CSince (t : Time) : call Z
| CDraw : call drawn
| CContextDone : call bool
| CMetric (o : Metrics.Metrics.mop) : call unit
| CAddHeaders (h : header) : call unit
| CWriteHeader (code : Z) : call unit
| CWrite (data : string) : call (Z * bool)
| CHttpError (msg : string) (code : Z) : call unit
| CCloseResponse : call unit.

Inductive prog (A : Type) : Type :=
| Ret (a : A)
| Vis {X : Type} (c : call X) (k : X -> prog A).
Arguments Ret {A} a.
Arguments Vis {A X} c k.

Fixpoint bind {A B} (p : prog A) (f : A -> prog B) : prog B :=
  match p with
  | Ret a => f a
  | Vis c k => Vis c (fun x => bind (k x) f)
  end.
#[export] Instance prog_ret : MRet prog := fun A => Ret.
#[export] Instance prog_bind : MBind prog := fun A B f p => bind p f.
Definition ask {X} (c : call X) : prog X := Vis c Ret.

Definition Inc (name : string) : prog unit := ask (CMetric (Metrics.Metrics.OpInc name)).
Definition AddMetric (name : string) (n : Z) : prog unit := ask (CMetric (Metrics.Metrics.OpAdd name n)).
Definition Observe (name : string) (d : Z) : prog unit := ask (CMetric (Metrics.Metrics.OpObserve name d)).
Definition SetGauge (name : string) (n : Z) : prog unit := ask (CMetric (Metrics.Metrics.OpGauge name n)).
Definition whenP (b : bool) (p : prog unit) : prog unit := if b then p else Ret tt.

Context (fmtFloat : spec_float -> string) (sha256 : string -> string) (hmac : string -> string -> string).

(** ** Answering the client *)

(** [copyResponse] over the reads of a body; the last one comes with the
    error that ends it. *)
Fixpoint copyResponse (reads : list string) (last : string) (n : Z) : prog Z :=
  match reads with
  | [] => if (last =? "")%string then mret n else '(x, _) ← ask (CWrite last); mret (n + x)
  | r :: reads =>
    if (r =? "")%string then copyResponse reads last n
    else '(x, ok) ← ask (CWrite r);
         if (ok : bool) then copyResponse reads last (n + x) else mret (n + x)
  end.
Definition ioCopy (reads : list string) (last : string) : prog Z := copyResponse reads last 0.

(** What [respondPipelineDeny] is given: a decoded request or the HTTP one. *)
Inductive subject := OfDecoded (r : DecodedAWSRequest) | OfRequest.

Definition respondPipelineDeny (ep : AWSEndpoint) (x : subject) (reason id : string) : prog unit :=
  let '(service, operation, protocol) :=
    match x with
    | OfDecoded r => (Service r, Operation r, Protocol r)
    | OfRequest => (ep_Service ep, "Unknown", ProtocolJSON11)
    end in
  match Awserror.Awserror.Encode protocol
          (Awserror.Awserror.mkDenial service operation reason "" id "" Awserror.Awserror.ClassificationLocalDeny
             None) with
  | None => ask (CHttpError "request denied" 403)
  | Some resp =>
    _ ← ask (CAddHeaders (Awserror.Awserror.Header resp));
    _ ← ask (CWriteHeader (Awserror.Awserror.StatusCode resp));
    _ ← ioCopy [Awserror.Awserror.Body resp] "";
    mret tt
  end.
Definition respondPipelineDenyHTTP (ep : AWSEndpoint) (reason id : string) : prog unit :=
  respondPipelineDeny ep OfRequest reason id.

(** ** Events *)

Definition newID : prog string := d ← ask CDraw; mret (NewID d).
Definition newEvent (run typ : string) : prog Event :=
  d ← ask CDraw; now ← ask CNow; mret (NewEvent d now run typ).
Definition decisionEvent (cfg : Config) (run id : string) (r : DecodedAWSRequest) (m : MappingResult)
    (d : Decision) (start : Time) : prog Event :=
  e ← newEvent run RequestDecision;
  connection ← newID;
  _ ← ask (CSince start);
  mret (decided hmac (withConnection e connection) id r m d cfg).

Definition forwardEvent (run : string) (r : DecodedAWSRequest) : prog Event :=
  e ← newEvent run ForwardError;
  connection ← newID;
  mret (forwarded (withConnection e connection) r).

Definition proxyEvent (run typ code : string) : prog Event :=
  e ← newEvent run typ; connection ← newID; mret (withCode (withConnection e connection) code).

(** ** The audit gate *)

Definition queueGauge (cfg : Config) : prog unit :=
  whenP (has_QueueLength cfg) (n ← ask CQueueLength; SetGauge Metrics.Metrics.QueueDepth n).
Definition acceptAudit (cfg : Config) (e : Event) : prog (option auditErr) :=
  if negb (has_Audit cfg) then _ ← Inc Metrics.Metrics.AuditFailures; mret (Some (mkAuditErr false))
  else
    err ← ask (CAudit e);
    match err with
    | Some err =>
      _ ← Inc Metrics.Metrics.AuditFailures;
      _ ← whenP (isBackpressure err) (Inc Metrics.Metrics.AuditBackpressure);
      _ ← queueGauge cfg;
      mret (Some err)
    | None => _ ← queueGauge cfg; mret None
    end.

Definition auditProxyEvent (cfg : Config) (typ code : string) : prog unit :=
  if negb (has_Audit cfg) || (cfg_RunID cfg =? "")%string then mret tt
  else
    e ← proxyEvent (cfg_RunID cfg) typ code;
    err ← ask (CAudit e);
    whenP (negb (audited err)) (Inc Metrics.Metrics.AuditFailures).

Definition finishAuthenticationFailure (cfg : Config) (ep : AWSEndpoint) (runID code : string) : prog unit :=
  _ ← Inc ("auth.failure." ++ safeMetricLabel code)%string;
  _ ← whenP (has_Audit cfg && negb (runID =? "")%string)
        (e ← proxyEvent runID AuthenticationFailed code;
         err ← ask (CAudit e);
         whenP (negb (audited err)) (Inc Metrics.Metrics.AuditFailures));
  _ ← Inc Metrics.Metrics.AuthFailures;
  id ← newID;
  respondPipelineDeny ep OfRequest "invalid_inbound_signature" id.

(** [pipelineFailureEvidence]. *)
Record FailureEvidence := mkFailed {
  fe_decoded : option DecodedAWSRequest; fe_decode : DecodeFailureEvidence;
}.

Definition finishFailedPipeline (cfg : Config) (method : string) (ep : AWSEndpoint) (runID : string) (start : Time)
    (reason stage : string) (evidence : FailureEvidence) : prog unit :=
  _ ← Inc ("pipeline." ++ safeMetricLabel stage ++ "." ++ safeMetricLabel reason)%string;
  id ← newID;
  let d := mkDecision DecisionDeny reason [] in
  let decoded := match fe_decoded evidence with
                 | Some r => r | None => failureDecoded method ep (fe_decode evidence) end in
  let mapping := failureMapping decoded stage in
  ev ← decisionEvent cfg runID id decoded mapping d start;
  err ← acceptAudit cfg ev;
  match err with
  | Some _ => respondPipelineDeny ep (OfDecoded decoded) "audit_unavailable" id
  | None =>
    _ ← Inc Metrics.Metrics.Denied;
    respondPipelineDeny ep (OfDecoded decoded) reason id
  end.

(** ** The stages *)

Definition failed (cfg : Config) (method : string) (ep : AWSEndpoint) (runID : string) (start : Time)
    (reason stage : string) (evidence : FailureEvidence) : prog Z :=
  _ ← finishFailedPipeline cfg method ep runID start reason stage evidence; mret 0.

(** The lookup in a run cache and its counters. *)
Definition lookupMapping (cfg : Config) (key : string) : prog (option MappingResult) :=
  if negb (has_caches cfg) then mret None
  else
    value ← ask (CGet OperationsCache key);
    match value with
    | Some (CachedMapping (Some cached)) =>
      _ ← Inc Metrics.Metrics.CacheMappingHits; mret (Some (cloneMapping cached))
    | _ => _ ← Inc Metrics.Metrics.CacheMappingMisses; mret None
    end.
Definition lookupDecision (cfg : Config) (key : string) : prog (option Decision) :=
  if negb (has_caches cfg) then mret None
  else
    value ← ask (CGet DecisionsCache key);
    match value with
    | Some (CachedDecision cached) =>
      if Decision_Valid cached
      then _ ← Inc Metrics.Metrics.CacheDecisionHits; mret (Some (cloneDecision cached))
      else _ ← Inc Metrics.Metrics.CacheDecisionMisses; mret None
    | _ => _ ← Inc Metrics.Metrics.CacheDecisionMisses; mret None
    end.
Definition remember (cfg : Config) (c : cacheName) (key : string) (value : cachedValue) : prog unit :=
  whenP (has_caches cfg)
    (evicted ← ask (CAdd c key value); whenP evicted (Inc Metrics.Metrics.CacheEvictions)).

(** The mapping: from the cache, or from the mapper. *)
Definition obtainMapping (cfg : Config) (key : string) (decoded : DecodedAWSRequest)
  : prog (option MappingResult * option gerr) :=
  cached ← lookupMapping cfg key;
  match cached with
  | Some m => mret (Some m, None)
  | None =>
    mapStart ← ask CNow;
    answer ← ask (CMap decoded);
    elapsed ← ask (CSince mapStart);
    _ ← Observe Metrics.Metrics.MapLatency elapsed;
    mret answer
  end.

(** [safeEvaluate]: a panic of the engine is an internal denial. *)
Definition safeEvaluate (i : DecisionInput) : prog Decision :=
  answer ← ask (CEvaluate i);
  mret (match answer with
        | IamMapper.IamMapper.Returned d => d
        | IamMapper.IamMapper.Panicked => mkDecision DecisionDeny Awserror.Awserror.ReasonInternalFailClosed []
        end).

(** The decision: from the cache, or evaluated; only a valid one is kept. *)
Definition obtainDecision (cfg : Config) (key : string) (i : DecisionInput) : prog Decision :=
  cached ← lookupDecision cfg key;
  match cached with
  | Some d => mret d
  | None =>
    policyStart ← ask CNow;
    d ← safeEvaluate i;
    elapsed ← ask (CSince policyStart);
    _ ← Observe Metrics.Metrics.PolicyLatency elapsed;
    if Decision_Valid d
    then _ ← remember cfg DecisionsCache key (CachedDecision (cloneDecision d)); mret d
    else mret (mkDecision DecisionDeny Awserror.Awserror.ReasonInternalFailClosed [])
  end.

(** What a round trip's status counts as. *)
Definition statusMetric (code : Z) : prog unit :=
  if (code =? 401) || (code =? 403) then Inc Metrics.Metrics.UpstreamAuth
  else if code =? 429 then Inc Metrics.Metrics.UpstreamThrottled
  else if (400 <=? code) && (code <? 500) then Inc Metrics.Metrics.UpstreamClient
  else if 500 <=? code then Inc Metrics.Metrics.UpstreamServer
  else mret tt.

(** From the send on: the time the round trip took is the result. *)
Definition send (cfg : Config) (runID : string) (decoded : DecodedAWSRequest) (outgoing : O) : prog Z :=
  upstreamStart ← ask CNow;
  '(response, err) ← ask (CRoundTrip outgoing);
  upstreamElapsed ← ask (CSince upstreamStart);
  _ ← Observe Metrics.Metrics.UpstreamLatency upstreamElapsed;
  match err, response with
  | None, Some response =>
    _ ← Inc ("upstream.status." ++ json_int (up_StatusCode response))%string;
    _ ← statusMetric (up_StatusCode response);
    _ ← ask (CAddHeaders (removeHopByHopHeaders (up_Header response)));
    _ ← ask (CWriteHeader (up_StatusCode response));
    _ ← ioCopy (up_Reads response) (up_LastRead response);
    _ ← ask CCloseResponse;
    mret upstreamElapsed
  | _, _ =>
    _ ← Inc Metrics.Metrics.UpstreamErrors;
    cancelled ← match err with Some true => mret true | _ => ask CContextDone end;
    _ ← (if (cancelled : bool) then Inc Metrics.Metrics.UpstreamCancellation
         else Inc Metrics.Metrics.UpstreamTransport);
    ev ← forwardEvent runID decoded;
    _ ← acceptAudit cfg ev;
    _ ← ask (CHttpError "upstream unavailable" 502);
    mret upstreamElapsed
  end.

(** After an audited decision. *)
Definition forward (cfg : Config) (method : string) (endpoint : AWSEndpoint) (runID : string) (started : Time)
    (verified : Verified) (decoded : DecodedAWSRequest) (eventID : string) : prog Z :=
  let denied reason := (_ ← respondPipelineDeny endpoint (OfDecoded decoded) reason eventID; mret 0) in
  if negb (has_Resigner cfg) || negb (has_Upstream cfg)
  then _ ← Inc "upstream.credential_failure"; denied "upstream_credential_unavailable"
  else if negb (SameEndpoint (decodedEndpoint (Some decoded)) endpoint) ||
          negb (SameEndpoint (Sigv4Verify.Sigv4Verify.vr_Endpoint (v_Identity verified)) endpoint)
  then failed cfg method endpoint runID started "internal_fail_closed" "forward" (mkFailed (Some decoded) noEvidence)
  else
    resigned ← ask (CResign verified);
    match resigned with
    | inl _ => _ ← Inc "upstream.credential_failure"; denied "upstream_credential_unavailable"
    | inr outgoing =>
      auditFailed ← (if has_Failed cfg then ask CAuditFailed else mret false);
      if (auditFailed : bool) then denied "audit_unavailable"
      else _ ← Inc Metrics.Metrics.Allowed; send cfg runID decoded outgoing
    end.

(** From the decision on. *)
Definition decide (cfg : Config) (method : string) (endpoint : AWSEndpoint) (runID : string) (started : Time)
    (verified : Verified) (decoded : DecodedAWSRequest) (mapping : MappingResult) : prog Z :=
  let input := mkInput runID endpoint (Some decoded) (Some mapping) (cfg_PolicyHash cfg) (MapperVersion mapping) in
  let fail := failed cfg method endpoint runID started "internal_fail_closed" "policy"
                (mkFailed (Some decoded) noEvidence) in
  if negb (has_Policy cfg) then fail
  else if negb (is_ok (Input_Validate input)) then fail
  else
    let decisionKey := decisionCacheKey fmtFloat sha256 cfg runID endpoint decoded mapping in
    decision ← obtainDecision cfg decisionKey input;
    _ ← Inc (Metrics.Metrics.DecisionCounter (Service decoded) (Operation decoded) (ReasonCode decision));
    _ ← AddMetric Metrics.Metrics.PayloadBytes (PayloadBytes decoded);
    body ← ask (CBody verified);
    _ ← match body with
        | Some (path, size) => whenP (negb (path =? "")%string) (AddMetric Metrics.Metrics.SpoolBytes size)
        | None => mret tt
        end;
    eventID ← newID;
    ev ← decisionEvent cfg runID eventID decoded mapping decision started;
    err ← acceptAudit cfg ev;
    match err with
    | Some _ => _ ← respondPipelineDeny endpoint (OfDecoded decoded) "audit_unavailable" eventID; mret 0
    | None =>
      if (Result decision =? DecisionDeny)%string
      then
        _ ← Inc Metrics.Metrics.Denied;
        _ ← respondPipelineDeny endpoint (OfDecoded decoded) (ReasonCode decision) eventID;
        mret 0
      else forward cfg method endpoint runID started verified decoded eventID
    end.

(** From the decoder on. *)
Definition afterVerified (cfg : Config) (method : string) (endpoint : AWSEndpoint) (runID : string)
    (started : Time) (verified : Verified) : prog Z :=
  let fail := failed cfg method endpoint runID started in
  if negb (has_Decoder cfg) then fail "internal_fail_closed" "decode" (mkFailed None noEvidence)
  else
    decodeStart ← ask CNow;
    '(decoded, err) ← ask (CDecode verified);
    decodeElapsed ← ask (CSince decodeStart);
    _ ← Observe Metrics.Metrics.DecodeLatency decodeElapsed;
    match err, decoded with
    | None, Some decoded =>
      if negb (err_nil (Decoded_Validate decoded)) ||
         negb (SameEndpoint (decodedEndpoint (Some decoded)) endpoint)
      then fail "internal_fail_closed" "decode" (mkFailed None noEvidence)
      else if negb (has_Mapper cfg)
      then fail "internal_fail_closed" "map" (mkFailed (Some decoded) noEvidence)
      else
        let mappingKey := mappingCacheKey fmtFloat sha256 cfg runID endpoint decoded in
        '(mapping, err) ← obtainMapping cfg mappingKey decoded;
        match err, mapping with
        | None, Some mapping =>
          if negb (err_nil (Mapping_Validate mapping)) ||
             negb (map_Service mapping =? Service decoded)%string ||
             negb (map_Operation mapping =? Operation decoded)%string
          then fail "mapping_low_confidence" "map" (mkFailed (Some decoded) noEvidence)
          else
            _ ← whenP (negb (mappingKey =? "")%string)
                  (remember cfg OperationsCache mappingKey (CachedMapping (Some (cloneMapping mapping))));
            decide cfg method endpoint runID started verified decoded mapping
        | err, _ => fail (mapReason err) "map" (mkFailed (Some decoded) noEvidence)
        end
    | err, _ =>
      fail "unknown_operation" "decode"
        (mkFailed None (safeDecodeFailureEvidence err endpoint
                          (Sigv4Verify.Sigv4Verify.vr_Protocol (v_Identity verified))))
    end.

(** The handler without its deferred latency sample. *)
Definition pipelineBody (cfg : Config) (method : string) (endpoint : AWSEndpoint) (runID : string)
    (started : Time) : prog Z :=
  let fail code := (_ ← finishAuthenticationFailure cfg endpoint runID code; mret 0) in
  _ ← Inc Metrics.Metrics.Intercepted;
  if negb (has_InboundAuthenticator cfg) then fail "internal_fail_closed"
  else
    '(verified, err) ← ask CVerify;
    match err, verified with
    | Some err, _ => fail (verifyReason err)
    | None, Some verified =>
      if negb (err_nil (Verified_Validate verified)) ||
         negb (SameEndpoint (Sigv4Verify.Sigv4Verify.vr_Endpoint (v_Identity verified)) endpoint)
      then fail "invalid_inbound_signature"
      else
        elapsed ← afterVerified cfg method endpoint runID started verified;
        _ ← ask (CCloseBody verified);
        mret elapsed
    | None, None => fail "invalid_inbound_signature"
    end.

Definition effectiveRunID (cfg : Config) : string :=
  if (cfg_RunID cfg =? "")%string then "run-unknown" else cfg_RunID cfg.

(** [handlePipeline] for a request with the given method. *)
Definition handlePipeline (cfg : Config) (method : string) (endpoint : AWSEndpoint) : prog unit :=
  started ← ask CNow;
  upstreamElapsed ← pipelineBody cfg method endpoint (effectiveRunID cfg) started;
  elapsed ← ask (CSince started);
  let localElapsed := elapsed - upstreamElapsed in
  Observe Metrics.Metrics.LocalLatency (if localElapsed <? 0 then 0 else localElapsed).
End Program.
Arguments Ret {R O A} a.
Arguments Vis {R O A X} c k.
Arguments ask {R O X} c.
Arguments mkVerifiedBy {R} v_Request v_Identity.
Arguments v_Request {R} v.
Arguments v_Identity {R} v.
Arguments Verified_Validate {U R} v.
Arguments CVerify {R O}.
Arguments CDecode {R O} _.
Arguments CMap {R O} _.
Arguments CEvaluate {R O} _.
Arguments CAudit {R O} _.
Arguments CQueueLength {R O}.
Arguments CAuditFailed {R O}.
Arguments CResign {R O} _.
Arguments CRoundTrip {R O} _.
Arguments CBody {R O} _.
Arguments CCloseBody {R O} _.
Arguments CGet {R O} _ _.
Arguments CAdd {R O} _ _ _.
Arguments CNow {R O}.
Arguments CSince {R O} _.
Arguments CDraw {R O}.
Arguments CContextDone {R O}.
Arguments CMetric {R O} _.
Arguments CAddHeaders {R O} _.
Arguments CWriteHeader {R O} _.
Arguments CWrite {R O} _.
Arguments CHttpError {R O} _ _.
Arguments CCloseResponse {R O}.
End Pipeline.
