(* ===== verification/PipelineSafety.v ===== *)
(** * The protocol every run of the pipeline follows

    A run is the list of its calls with their answers.  [wp p h Q] says that,
    whatever the calls of [p] answer (within [sane]), [p] ends with a history,
    extending [h], of which [Q] holds. *)

From Stdlib Require Import ZArith Lia Ascii Floats.SpecFloat.
From stdpp Require Import base gmap strings list.
From S2P Require Import Prelude GoStrings GoEncoding AwsTypes.
From S2P Require Import Awserror.
From S2P Require Import Policy.
From S2P Require Import IamMapper.
From S2P Require Import GoTime.
From S2P Require Import Sigv4Canonical.
From S2P Require Import Sigv4Verify.
From S2P Require Import AuditEvent.
From S2P Require Import Metrics.
From S2P Require Import PipelineKeys.
From S2P Require Import Pipeline.

Module PipelineSafety.
Import Policy.Policy AwsTypes.AwsTypes GoTime.GoTime AuditEvent.AuditEvent PipelineKeys.PipelineKeys Pipeline.Pipeline.

Section Runs.
Context {R O : Type}.
Notation call := (call R O).
Notation prog := (prog R O).

(** A call that was made and what it answered. *)
Inductive event :=
| Did {X : Type} (c : call X) (x : X).

Context (sane : forall X, call X -> X -> Prop).

Fixpoint wp {A} (p : prog A) (h : list event) (Q : list event -> A -> Prop) : Prop :=
  match p with
  | Ret a => Q h a
  | Vis c k => forall x, sane _ c x -> wp (k x) (h ++ [Did c x]) Q
  end.

Lemma wp_mono {A} (p : prog A) h (P Q : list event -> A -> Prop) :
  wp p h P -> (forall h' a, P h' a -> Q h' a) -> wp p h Q.
Proof.
  intros Hp HPQ. revert h Hp. induction p as [a|X c k IH]; intros h Hp; simpl in *; [by apply HPQ|].
  intros x Hx. apply IH. by apply Hp.
Qed.

Lemma wp_bind {A B} (p : prog A) (f : A -> prog B) h Q :
  wp p h (fun h' a => wp (f a) h' Q) -> wp (p ≫= f) h Q.
Proof.
  unfold mbind, prog_bind. revert h. induction p as [a|X c k IH]; intros h Hp; simpl in *; [done|].
  intros x Hx. apply IH. by apply Hp.
Qed.

Lemma wp_ret {A} (a : A) h (Q : list event -> A -> Prop) : Q h a -> wp (mret a) h Q.
Proof. done. Qed.

Lemma wp_ask {X} (c : call X) h (Q : list event -> X -> Prop) :
  (forall x, sane _ c x -> Q (h ++ [Did c x]) x) -> wp (ask c) h Q.
Proof. done. Qed.

(** Every answer in a history is one the call may give. *)
Definition answeredSanely (e : event) : Prop := match e with Did c x => sane _ c x end.
Lemma wp_sanely {A} (p : prog A) h (Q : list event -> A -> Prop) :
  wp p h Q -> Forall answeredSanely h -> wp p h (fun h' a => Q h' a /\ Forall answeredSanely h').
Proof.
  revert h. induction p as [a|X c k IH]; intros h Hp Hh; simpl in *; [done|].
  intros x Hx. apply IH; [by apply Hp|]. apply Forall_app. split; [done|]. by constructor.
Qed.

(** Calls with no bearing on the outcome of a request. *)
Definition background {X} (c : call X) : bool :=
  match c with
  | CQueueLength | CBody _ | CGet _ _ | CNow | CSince _ | CDraw | CContextDone | CMetric _ => true
  | _ => false
  end.

(** [p] makes only such calls, and what it returns satisfies [P]. *)
Fixpoint calm {A} (p : prog A) (P : A -> Prop) : Prop :=
  match p with
  | Ret a => P a
  | Vis c k => background c = true /\ forall x, sane _ c x -> calm (k x) P
  end.

Lemma calm_bind {A B} (p : prog A) (f : A -> prog B) (P : A -> Prop) Q :
  calm p P -> (forall a, P a -> calm (f a) Q) -> calm (p ≫= f) Q.
Proof.
  unfold mbind, prog_bind. induction p as [a|X c k IH]; intros Hp Hf; simpl in *; [by apply Hf|].
  destruct Hp as [Hc Hk]. split; [done|]. intros x Hx. apply IH; auto.
Qed.
Lemma calm_ret {A} (a : A) (P : A -> Prop) : P a -> calm (mret a) P.
Proof. done. Qed.
Lemma calm_ask {X} (c : call X) (P : X -> Prop) :
  background c = true -> (forall x, sane _ c x -> P x) -> calm (ask c) P.
Proof. done. Qed.
Lemma calm_when b (p : prog unit) : calm p (fun _ => True) -> calm (whenP R O b p) (fun _ => True).
Proof. by destruct b. Qed.
End Runs.
Arguments Did {R O X} c x.
Arguments background {R O X} c.

(** ** The protocol

    What a request may go through, as a transition system over the calls.  It
    says nothing of how the handler is written: from every phase before the send
    it may give up, and it may send only from the phase that has all of the
    permissions behind it. *)

Section Protocol.
Context `{U : UnicodeTables} {R O : Type}.
Context (sane : forall X, call R O X -> X -> Prop).
Context (fmtFloat : spec_float -> string) (sha256 : string -> string) (hmac : string -> string -> string).
Context (cfg : Config) (method : string) (endpoint : AWSEndpoint).
Notation event := (@event R O).
Notation Verified := (Verified R).
Notation runID := (effectiveRunID cfg).

Inductive phase :=
| Start
| Authentic (v : Verified)
| Understood (v : Verified) (d : DecodedAWSRequest)
| Mapped (v : Verified) (d : DecodedAWSRequest) (m : MappingResult)
| Decided (v : Verified) (d : DecodedAWSRequest) (m : MappingResult) (dec : Decision) (judged : bool)
| Recorded (v : Verified) (d : DecodedAWSRequest) (m : MappingResult) (dec : Decision)
| Signed (v : Verified) (d : DecodedAWSRequest) (out : O) (checked : bool)
| Sent (v : Verified) (d : DecodedAWSRequest) (answer : option Upstream)
| Reported (v : Verified)
| GaveUp (held : option Verified)
| Denying (held : option Verified)
| DenialHeaders (held : option Verified)
| DenialBody (held : option Verified)
| RelayHeaders (v : Verified) (u : Upstream)
| Relaying (v : Verified) (rest : list string)
| Answered (held : option Verified)
| Released.

(** Before the send: whose body is to be closed. *)
Definition unsent (p : phase) : option (option Verified) :=
  match p with
  | Start => Some None
  | Authentic v | Understood v _ | Mapped v _ _ | Decided v _ _ _ _ | Recorded v _ _ _ | Signed v _ _ _ =>
    Some (Some v)
  | GaveUp o | Denying o => Some o
  | _ => None
  end.
(** Before the send, with nothing recorded yet. *)
Definition unrecorded (p : phase) : option (option Verified) :=
  match p with
  | Start => Some None
  | Authentic v | Understood v _ | Mapped v _ _ | Decided v _ _ _ _ => Some (Some v)
  | GaveUp o => Some o
  | _ => None
  end.

(** What each permission asks of the answer. *)
Definition authentic (v : Verified) : Prop :=
  Verified_Validate v = None /\
  SameEndpoint (Sigv4Verify.Sigv4Verify.vr_Endpoint (v_Identity v)) endpoint = true.
Definition understood (d : DecodedAWSRequest) : Prop :=
  Decoded_Validate d = None /\ SameEndpoint (decodedEndpoint (Some d)) endpoint = true.
Definition mapped (d : DecodedAWSRequest) (m : MappingResult) : Prop :=
  Mapping_Validate m = None /\ map_Service m = Service d /\ map_Operation m = Operation d.
Definition inputOf (d : DecodedAWSRequest) (m : MappingResult) : DecisionInput :=
  mkInput runID endpoint (Some d) (Some m) (cfg_PolicyHash cfg) (MapperVersion m).
Definition admissible (d : DecodedAWSRequest) (m : MappingResult) : Prop :=
  is_ok (Input_Validate (inputOf d m)) = true.
Definition failClosed : Decision := mkDecision DecisionDeny Awserror.Awserror.ReasonInternalFailClosed [].

(** *** The audited events *)

Definition freshID (id : string) : Prop := exists d, sane _ CDraw d /\ id = NewID d.
Definition freshEvent (typ : string) (e : Event) : Prop :=
  exists d now connection,
    sane _ CDraw d /\ sane _ CNow now /\ freshID connection /\
    e = withConnection (NewEvent d now runID typ) connection.

(** The event records this decision on this request. *)
Definition records (e : Event) (d : DecodedAWSRequest) (m : MappingResult) (dec : Decision) : Prop :=
  exists e0 id, freshEvent RequestDecision e0 /\ freshID id /\ e = decided hmac e0 id d m dec cfg.

(** A request a denial may be recorded of: decoded, or made from what is known. *)
Definition blamed (d : DecodedAWSRequest) : Prop :=
  understood d \/ exists evidence, d = failureDecoded method endpoint evidence.
(** The event records a refusal. *)
Inductive refusal : Event -> Prop :=
| refused_caller e code : freshEvent AuthenticationFailed e -> code <> "" -> refusal (withCode e code)
| refused_request e d stage reason : blamed d -> stage <> "" ->
    records e d (failureMapping d stage) (mkDecision DecisionDeny reason []) -> refusal e.

Definition reports (e : Event) (d : DecodedAWSRequest) : Prop :=
  exists e0, freshEvent ForwardError e0 /\ e = forwarded e0 d.

(** The pieces of a body that are written. *)
Definition pieces (u : Upstream) : list string :=
  List.filter (fun s => negb (s =? "")%string) (up_Reads u ++ [up_LastRead u]).

Inductive step : phase -> event -> phase -> Prop :=
| s_background p X (c : call R O X) x : background c = true -> step p (Did c x) p
| s_verified v : authentic v -> step Start (Did CVerify (Some v, None)) (Authentic v)
| s_unverified a : (forall v, a = (Some v, None) -> ~ authentic v) -> step Start (Did CVerify a) (GaveUp None)
| s_decoded v d : understood d -> step (Authentic v) (Did (CDecode v) (Some d, None)) (Understood v d)
| s_undecoded v a : step (Authentic v) (Did (CDecode v) a) (GaveUp (Some v))
| s_mapped v d m : mapped d m -> step (Understood v d) (Did (CMap d) (Some m, None)) (Mapped v d m)
| s_mapped_cached v d m : has_caches cfg = true -> mapped d m ->
    step (Understood v d)
      (Did (CGet OperationsCache (mappingCacheKey fmtFloat sha256 cfg runID endpoint d))
         (Some (CachedMapping (Some m)))) (Mapped v d m)
| s_unmapped v d a : step (Understood v d) (Did (CMap d) a) (GaveUp (Some v))
| s_decided v d m dec : admissible d m -> Decision_Valid dec = true ->
    step (Mapped v d m) (Did (CEvaluate (inputOf d m)) (IamMapper.IamMapper.Returned dec)) (Decided v d m dec true)
| s_decided_cached v d m dec : has_caches cfg = true -> admissible d m -> Decision_Valid dec = true ->
    step (Mapped v d m)
      (Did (CGet DecisionsCache (decisionCacheKey fmtFloat sha256 cfg runID endpoint d m))
         (Some (CachedDecision dec))) (Decided v d m dec false)
| s_panicked v d m : admissible d m ->
    step (Mapped v d m) (Did (CEvaluate (inputOf d m)) IamMapper.IamMapper.Panicked) (Decided v d m failClosed true)
| s_undecided v d m a : admissible d m ->
    step (Mapped v d m) (Did (CEvaluate (inputOf d m)) a) (Decided v d m failClosed false)
| s_keep_mapping v d m b :
    step (Mapped v d m)
      (Did (CAdd OperationsCache (mappingCacheKey fmtFloat sha256 cfg runID endpoint d)
              (CachedMapping (Some m))) b) (Mapped v d m)
| s_keep_decision v d m dec b :
    step (Decided v d m dec true)
      (Did (CAdd DecisionsCache (decisionCacheKey fmtFloat sha256 cfg runID endpoint d m)
              (CachedDecision dec)) b) (Decided v d m dec true)
| s_recorded v d m dec j e : records e d m dec ->
    step (Decided v d m dec j) (Did (CAudit e) None) (Recorded v d m dec)
| s_unrecorded v d m dec j e a : records e d m dec ->
    step (Decided v d m dec j) (Did (CAudit e) (Some a)) (Denying (Some v))
| s_signed v d m dec out : Result dec = DecisionAllow ->
    step (Recorded v d m dec) (Did (CResign v) (inr out)) (Signed v d out (negb (has_Failed cfg)))
| s_unsigned v d m dec e : Result dec = DecisionAllow ->
    step (Recorded v d m dec) (Did (CResign v) (inl e)) (Denying (Some v))
| s_audit_alive v d out : step (Signed v d out false) (Did CAuditFailed false) (Signed v d out true)
| s_audit_dead v d out : step (Signed v d out false) (Did CAuditFailed true) (Denying (Some v))
| s_sent v d out u : step (Signed v d out true) (Did (CRoundTrip out) (Some u, None)) (Sent v d (Some u))
| s_unsent v d out a : (forall u, a <> (Some u, None)) ->
    step (Signed v d out true) (Did (CRoundTrip out) a) (Sent v d None)
| s_report v d e a : reports e d ->
    step (Sent v d None) (Did (CAudit e) a) (Reported v)
| s_unavailable v msg : step (Reported v) (Did (CHttpError msg 502) tt) (Answered (Some v))
| s_refuse p o e a : unrecorded p = Some o -> refusal e -> step p (Did (CAudit e) a) (Denying o)
| s_deny_plain p o msg : unsent p = Some o -> step p (Did (CHttpError msg 403) tt) (Answered o)
| s_deny_headers p o h : unsent p = Some o -> step p (Did (CAddHeaders h) tt) (DenialHeaders o)
| s_deny_status o : step (DenialHeaders o) (Did (CWriteHeader 403) tt) (DenialBody o)
| s_deny_body o s a : step (DenialBody o) (Did (CWrite s) a) (Answered o)
| s_relay_headers v d u :
    step (Sent v d (Some u)) (Did (CAddHeaders (removeHopByHopHeaders (up_Header u))) tt) (RelayHeaders v u)
| s_relay_status v u :
    step (RelayHeaders v u) (Did (CWriteHeader (up_StatusCode u)) tt) (Relaying v (pieces u))
| s_relay v s rest n : step (Relaying v (s :: rest)) (Did (CWrite s) (n, true)) (Relaying v rest)
| s_relay_broken v s rest n : step (Relaying v (s :: rest)) (Did (CWrite s) (n, false)) (Relaying v [])
| s_relayed v : step (Relaying v []) (Did CCloseResponse tt) (Answered (Some v))
| s_release v : step (Answered (Some v)) (Did (CCloseBody v) tt) Released.

(** [reaches h p]: the history [h] can bring a request to [p]. *)
Inductive reaches : list event -> phase -> Prop :=
| r_start : reaches [] Start
| r_step h p e p' : reaches h p -> step p e p' -> reaches (h ++ [e]) p'.

(** A request is done with: it has been answered, and what the verifier
    prepared has been released. *)
Definition finished (p : phase) : Prop := p = Answered None \/ p = Released.

(** *** Rules for programs that follow the protocol *)

Notation wp := (wp sane).
Notation calm := (calm sane).

Lemma wp_calm {A} (p : prog R O A) h q P (Q : list event -> A -> Prop) :
  calm p P -> reaches h q -> (forall h' a, P a -> reaches h' q -> Q h' a) -> wp p h Q.
Proof.
  intros Hc Hr HQ. revert h Hr. induction p as [a|X c k IH]; intros h Hr; simpl in *; [by apply HQ|].
  destruct Hc as [Hb Hk]. intros x Hx. apply IH; [by apply Hk|].
  eapply r_step; [exact Hr|]. by apply s_background.
Qed.

(** A calm prefix of a program. *)
Lemma wp_after {A B} (p : prog R O A) (f : A -> prog R O B) h q P (Q : list event -> B -> Prop) :
  calm p P -> reaches h q -> (forall h' a, P a -> reaches h' q -> wp (f a) h' Q) -> wp (p ≫= f) h Q.
Proof. intros Hc Hr HQ. apply wp_bind. by eapply wp_calm. Qed.

(** A call that moves the request on. *)
Lemma wp_call {X B} (c : call R O X) (f : X -> prog R O B) h q (Q : list event -> B -> Prop) :
  reaches h q ->
  (forall x, sane _ c x -> exists q', step q (Did c x) q' /\
     forall h', reaches h' q' -> wp (f x) h' Q) -> wp (ask c ≫= f) h Q.
Proof.
  intros Hr Hf. apply wp_bind, wp_ask. intros x Hx. destruct (Hf x Hx) as (q' & Hs & HQ).
  apply HQ. by eapply r_step.
Qed.

Lemma calm_metric o : calm (ask (CMetric o)) (fun _ => True). Proof. by apply calm_ask. Qed.
Lemma calm_newID : calm (newID R O) freshID.
Proof. split; [done|]. intros d Hd. by exists d. Qed.
Lemma calm_newEvent typ : calm (newEvent R O runID typ)
  (fun e => exists d now, sane _ CDraw d /\ sane _ CNow now /\ e = NewEvent d now runID typ).
Proof. split; [done|]. intros d Hd. split; [done|]. intros now Hn. by exists d, now. Qed.

Lemma calm_fresh typ :
  calm (e ← newEvent R O runID typ; connection ← newID R O; mret (withConnection e connection))
    (freshEvent typ).
Proof.
  eapply calm_bind; [apply calm_newEvent|]. intros e (d & now & Hd & Hn & ->).
  eapply calm_bind; [apply calm_newID|]. intros id Hid. by exists d, now, id.
Qed.

Lemma calm_proxyEvent typ code :
  calm (proxyEvent R O runID typ code) (fun e => exists e0, freshEvent typ e0 /\ e = withCode e0 code).
Proof.
  unfold proxyEvent. eapply calm_bind; [apply calm_newEvent|]. intros e (d & now & Hd & Hn & ->).
  eapply calm_bind; [apply calm_newID|]. intros id Hid. apply calm_ret.
  eexists. split; [by exists d, now, id|done].
Qed.

Lemma calm_decisionEvent id d m dec start : freshID id ->
  calm (decisionEvent R O hmac cfg runID id d m dec start) (fun e => records e d m dec).
Proof.
  intros Hid. unfold decisionEvent. eapply calm_bind; [apply calm_newEvent|].
  intros e (b & now & Hb & Hn & ->). eapply calm_bind; [apply calm_newID|]. intros c Hc.
  eapply calm_bind; [by apply (calm_ask _ _ (fun _ => True))|]. intros _ _.
  eexists _, id. split; [by exists b, now, c|]. done.
Qed.

Lemma calm_forwardEvent d : calm (forwardEvent R O runID d) (fun e => reports e d).
Proof.
  unfold forwardEvent. eapply calm_bind; [apply calm_newEvent|].
  intros e (b & now & Hb & Hn & ->). eapply calm_bind; [apply calm_newID|]. intros c Hc.
  eexists. split; [by exists b, now, c|]. done.
Qed.

Lemma calm_queueGauge : calm (queueGauge R O cfg) (fun _ => True).
Proof. apply calm_when. eapply calm_bind; [by apply (calm_ask _ _ (fun _ => True))|]. intros n _. apply calm_metric. Qed.

(** Keeping a value in a cache, in a phase that allows it. *)
Lemma wp_remember p c key value h (Q : list event -> unit -> Prop) :
  reaches h p -> (forall b, step p (Did (CAdd c key value) b) p) ->
  (forall h' u, reaches h' p -> Q h' u) -> wp (remember R O cfg c key value) h Q.
Proof.
  intros Hr Hs HQ. unfold remember. destruct (has_caches cfg); [|by apply HQ].
  eapply wp_call; [exact Hr|]. intros b _. exists p. split; [apply Hs|]. clear h Hr. intros h Hr.
  eapply wp_calm; [apply calm_when, calm_metric|exact Hr|]. intros h' u _. apply HQ.
Qed.

(** *** Denials *)

Lemma Encode_denial protocol service operation reason id r :
  Awserror.Awserror.Encode protocol
    (Awserror.Awserror.mkDenial service operation reason "" id "" Awserror.Awserror.ClassificationLocalDeny None)
  = Some r -> Awserror.Awserror.StatusCode r = 403 /\ Awserror.Awserror.Body r <> "".
Proof.
  unfold Awserror.Awserror.Encode. cbn [Awserror.Awserror.Classification].
  destruct (Awserror.Awserror.ClassificationLocalDeny =? _)%string eqn:E1; [by vm_compute in E1|].
  destruct (Awserror.Awserror.ClassificationLocalDeny =? Awserror.Awserror.ClassificationUpstreamError)%string
    eqn:E2; [by vm_compute in E2|]. cbn [orb].
  case_if; [done|]. destruct (Awserror.Awserror.normalizeDenial _) as [x|]; [|done].
  unfold Awserror.Awserror.encodeLocal. intros H.
  repeat (case_if; [injection H as <-; split; [reflexivity|done]|]). discriminate H.
Qed.

Lemma wp_deny p o x reason id h :
  reaches h p -> unsent p = Some o ->
  wp (respondPipelineDeny R O endpoint x reason id) h (fun h' _ => reaches h' (Answered o)).
Proof.
  intros Hr Hp. unfold respondPipelineDeny.
  destruct (match x with OfDecoded r => _ | OfRequest => _ end) as [[service operation] protocol].
  destruct (Awserror.Awserror.Encode _ _) as [r|] eqn:E.
  - apply Encode_denial in E as [Es Eb].
    eapply wp_call; [exact Hr|]. intros [] _. eexists. split; [by eapply s_deny_headers|]. clear h Hr. intros h Hr.
    eapply wp_call; [exact Hr|]. intros [] _. rewrite Es. eexists. split; [apply s_deny_status|].
    clear h Hr. intros h Hr. unfold ioCopy. cbn [copyResponse].
    destruct (String.eqb_spec (Awserror.Awserror.Body r) ""); [done|].
    apply wp_bind. eapply wp_call; [exact Hr|]. intros [k ok] _. eexists. split; [apply s_deny_body|].
    clear h Hr. intros h Hr. by destruct ok.
  - intros [] _. eapply r_step; [exact Hr|]. by eapply s_deny_plain.
Qed.

Lemma unrecorded_unsent p o : unrecorded p = Some o -> unsent p = Some o.
Proof. by destruct p. Qed.

(** The audit gate: [q] is where the writer's answer leads; without a writer,
    nothing is called. *)
Lemma wp_acceptAudit e h p (q : option auditErr -> phase) (Q : list event -> option auditErr -> Prop) :
  reaches h p -> (forall a, step p (Did (CAudit e) a) (q a)) ->
  (has_Audit cfg = true -> forall h', reaches h' (q None) -> Q h' None) ->
  (forall h' a b, reaches h' (q (Some a)) \/ (has_Audit cfg = false /\ reaches h' p) -> Q h' (Some b)) ->
  wp (acceptAudit R O cfg e) h Q.
Proof.
  intros Hr Hs Hn Hf. unfold acceptAudit. destruct (has_Audit cfg) eqn:Ha; cbn [negb].
  - eapply wp_call; [exact Hr|]. intros a _. exists (q a). split; [apply Hs|]. clear h Hr. intros h Hr.
    destruct a as [a|].
    + eapply wp_after; [apply calm_metric|exact Hr|]. clear h Hr. intros h _ _ Hr.
      eapply wp_after; [apply calm_when, calm_metric|exact Hr|]. clear h Hr. intros h _ _ Hr.
      eapply wp_after; [apply calm_queueGauge|exact Hr|]. clear h Hr. intros h _ _ Hr.
      apply wp_ret. apply (Hf h a). by left.
    + eapply wp_after; [apply calm_queueGauge|exact Hr|]. clear h Hr. intros h _ _ Hr. by apply wp_ret, Hn.
  - eapply wp_after; [apply calm_metric|exact Hr|]. clear h Hr. intros h _ _ Hr.
    apply wp_ret. apply (Hf h (mkAuditErr false)). by right.
Qed.

Lemma wp_finishFailed p o start reason stage evidence h :
  reaches h p -> unrecorded p = Some o -> stage <> "" ->
  (forall d, fe_decoded evidence = Some d -> understood d) ->
  wp (finishFailedPipeline R O hmac cfg method endpoint runID start reason stage evidence) h
    (fun h' _ => reaches h' (Answered o)).
Proof.
  intros Hr Hp Hst Hd. unfold finishFailedPipeline.
  eapply wp_after; [apply calm_metric|exact Hr|]. clear h Hr. intros h _ _ Hr.
  eapply wp_after; [apply calm_newID|exact Hr|]. clear h Hr. intros h id Hid Hr.
  set (d := match fe_decoded evidence with Some r => r | None => _ end).
  assert (blamed d) as Hb.
  { unfold d. destruct (fe_decoded evidence) as [r|]; [left; by apply Hd|right; by eexists]. }
  eapply wp_after; [by apply calm_decisionEvent|exact Hr|]. clear h Hr. intros h e He Hr.
  apply wp_bind. apply (wp_acceptAudit _ _ p (fun _ => Denying o)); [exact Hr| | |].
  - intros a. eapply s_refuse; [exact Hp|]. exact (refused_request e d stage reason Hb Hst He).
  - clear h Hr. intros _ h Hr. eapply wp_after; [apply calm_metric|exact Hr|]. clear h Hr. intros h _ _ Hr.
    by eapply wp_deny.
  - clear h Hr. intros h a b [Hr|[_ Hr]]; [by eapply wp_deny|].
    eapply wp_deny; [exact Hr|by apply unrecorded_unsent].
Qed.

Lemma wp_failed p o start reason stage evidence h :
  reaches h p -> unrecorded p = Some o -> stage <> "" ->
  (forall d, fe_decoded evidence = Some d -> understood d) ->
  wp (failed R O hmac cfg method endpoint runID start reason stage evidence) h
    (fun h' _ => reaches h' (Answered o)).
Proof.
  intros Hr Hp Hst Hd. apply wp_bind. eapply wp_mono; [by eapply wp_finishFailed|]. done.
Qed.

Lemma wp_authFailure p o code h :
  reaches h p -> unrecorded p = Some o -> code <> "" ->
  wp (finishAuthenticationFailure R O cfg endpoint runID code) h (fun h' _ => reaches h' (Answered o)).
Proof.
  intros Hr Hp Hcode. unfold finishAuthenticationFailure.
  assert (forall h, (reaches h p \/ reaches h (Denying o)) ->
    wp (_ ← Inc R O Metrics.Metrics.AuthFailures; id ← newID R O;
        respondPipelineDeny R O endpoint OfRequest "invalid_inbound_signature" id) h
      (fun h' _ => reaches h' (Answered o))) as Hend.
  { clear h Hr. intros h Hr.
    assert (exists q, reaches h q /\ unsent q = Some o) as (q & Hr' & Hq).
    { destruct Hr as [Hr|Hr]; eexists; (split; [exact Hr|]); [by apply unrecorded_unsent|done]. }
    clear Hr. eapply wp_after; [apply calm_metric|exact Hr'|]. clear h Hr'. intros h _ _ Hr.
    eapply wp_after; [apply calm_newID|exact Hr|]. clear h Hr. intros h id _ Hr. by eapply wp_deny. }
  eapply wp_after; [apply calm_metric|exact Hr|]. clear h Hr. intros h _ _ Hr.
  apply wp_bind. destruct (has_Audit cfg && _); [|by apply wp_ret, Hend; left].
  cbn [whenP]. eapply wp_after; [apply calm_proxyEvent|exact Hr|]. clear h Hr. intros h e (e0 & He0 & ->) Hr.
  eapply wp_call; [exact Hr|]. intros a _. exists (Denying o). split.
  { eapply s_refuse; [exact Hp|]. by apply refused_caller. }
  clear h Hr. intros h Hr. eapply wp_calm; [apply calm_when, calm_metric|exact Hr|].
  clear h Hr. intros h _ _ Hr. apply Hend. by right.
Qed.

(** *** The stages *)

Notation mappingKey := (mappingCacheKey fmtFloat sha256 cfg runID endpoint).
Notation decisionKey := (decisionCacheKey fmtFloat sha256 cfg runID endpoint).

Lemma mapped_dec d m : mapped d m \/ ~ mapped d m.
Proof.
  unfold mapped. destruct (Mapping_Validate m); [right; by intros [? _]|].
  destruct (String.eqb_spec (map_Service m) (Service d)), (String.eqb_spec (map_Operation m) (Operation d));
    naive_solver.
Qed.

(** The mapping phase, entered when what was obtained passes the checks. *)
Definition mappingPhase (v : Verified) (d : DecodedAWSRequest) (answer : option MappingResult * option gerr)
  (q : phase) : Prop :=
  match answer with
  | (Some m, None) => (mapped d m /\ q = Mapped v d m) \/ (~ mapped d m /\ unrecorded q = Some (Some v))
  | _ => unrecorded q = Some (Some v)
  end.

Lemma wp_obtainMapping v d h : reaches h (Understood v d) ->
  wp (obtainMapping R O cfg (mappingKey d) d) h
    (fun h' answer => exists q, reaches h' q /\ mappingPhase v d answer q).
Proof.
  intros Hr. unfold obtainMapping. apply wp_bind. unfold lookupMapping.
  assert (forall h, reaches h (Understood v d) ->
    wp (mapStart ← ask CNow; answer ← ask (CMap d); elapsed ← ask (CSince mapStart);
        _ ← Observe R O Metrics.Metrics.MapLatency elapsed; mret answer) h
      (fun h' answer => exists q, reaches h' q /\ mappingPhase v d answer q)) as Hmap.
  { clear h Hr. intros h Hr. eapply wp_after; [by apply (calm_ask _ _ (fun _ => True))|exact Hr|].
    clear h Hr. intros h mapStart _ Hr.
    eapply wp_call; [exact Hr|]. intros answer _.
    assert (exists q, step (Understood v d) (Did (CMap d) answer) q /\ mappingPhase v d answer q) as (q & Hs & Hq).
    { destruct answer as [[m|] [err|]]; try (by exists (GaveUp (Some v)); split; [apply s_unmapped|]).
      destruct (mapped_dec d m).
      - exists (Mapped v d m). split; [by apply s_mapped|by left].
      - exists (GaveUp (Some v)). split; [apply s_unmapped|by right]. }
    exists q. split; [done|]. clear h Hr. intros h Hr.
    eapply wp_after; [by apply (calm_ask _ _ (fun _ => True))|exact Hr|]. clear h Hr. intros h e _ Hr.
    eapply wp_after; [apply calm_metric|exact Hr|]. clear h Hr. intros h _ _ Hr. apply wp_ret. by exists q. }
  destruct (has_caches cfg) eqn:Hcaches; cbn [negb]; [|by apply wp_ret, Hmap].
  eapply wp_call; [exact Hr|]. intros value _.
  destruct value as [[[m|]|dec|]|];
    try (exists (Understood v d); split; [by apply s_background|]; clear h Hr; intros h Hr;
         eapply wp_after; [apply calm_metric|exact Hr|]; clear h Hr; intros h _ _ Hr; by apply wp_ret, Hmap).
  destruct (mapped_dec d m).
  - exists (Mapped v d m). split; [by apply s_mapped_cached|]. clear h Hr. intros h Hr.
    eapply wp_after; [apply calm_metric|exact Hr|]. clear h Hr. intros h _ _ Hr. apply wp_ret, wp_ret.
    rewrite cloneMapping_id. exists (Mapped v d m). split; [done|by left].
  - exists (Understood v d). split; [by apply s_background|]. clear h Hr. intros h Hr.
    eapply wp_after; [apply calm_metric|exact Hr|]. clear h Hr. intros h _ _ Hr. apply wp_ret, wp_ret.
    rewrite cloneMapping_id. exists (Understood v d). split; [done|by right].
Qed.

Lemma wp_obtainDecision v d m h : reaches h (Mapped v d m) -> admissible d m ->
  wp (obtainDecision R O cfg (decisionKey d m) (inputOf d m)) h
    (fun h' dec => exists j, reaches h' (Decided v d m dec j) /\ Decision_Valid dec = true).
Proof.
  intros Hr Ha. unfold obtainDecision. apply wp_bind. unfold lookupDecision.
  assert (forall h, reaches h (Mapped v d m) ->
    wp (policyStart ← ask CNow; dec ← safeEvaluate R O (inputOf d m); elapsed ← ask (CSince policyStart);
        _ ← Observe R O Metrics.Metrics.PolicyLatency elapsed;
        if Decision_Valid dec
        then _ ← remember R O cfg DecisionsCache (decisionKey d m) (CachedDecision (cloneDecision dec)); mret dec
        else mret failClosed) h
      (fun h' dec => exists j, reaches h' (Decided v d m dec j) /\ Decision_Valid dec = true)) as Heval.
  { clear h Hr. intros h Hr. eapply wp_after; [by apply (calm_ask _ _ (fun _ => True))|exact Hr|].
    clear h Hr. intros h start _ Hr. unfold safeEvaluate. apply wp_bind.
    eapply wp_call; [exact Hr|]. intros answer _.
    set (dec := match answer with IamMapper.IamMapper.Returned dec => dec | _ => _ end).
    set (final := if Decision_Valid dec then dec else failClosed).
    exists (Decided v d m final (Decision_Valid dec)). split.
    { unfold final, dec. destruct answer as [dec'|]; [|by apply s_panicked].
      destruct (Decision_Valid dec') eqn:Hv; [by apply s_decided|by apply s_undecided]. }
    clear h Hr. intros h Hr. apply wp_ret.
    eapply wp_after; [by apply (calm_ask _ _ (fun _ => True))|exact Hr|]. clear h Hr. intros h e _ Hr.
    eapply wp_after; [apply calm_metric|exact Hr|]. clear h Hr. intros h _ _ Hr.
    unfold final in *. destruct (Decision_Valid dec) eqn:Hv; [|apply wp_ret; by exists false].
    apply wp_bind. eapply wp_remember; [exact Hr|intros b; rewrite cloneDecision_id; apply s_keep_decision|].
    clear h Hr. intros h _ Hr. apply wp_ret. by exists true. }
  destruct (has_caches cfg) eqn:Hcaches; cbn [negb]; [|by apply wp_ret, Heval].
  eapply wp_call; [exact Hr|]. intros value _.
  destruct value as [[mo|dec|]|]; [|destruct (Decision_Valid dec) eqn:Hv|..];
    try (exists (Mapped v d m); split; [by apply s_background|]; clear h Hr; intros h Hr;
         eapply wp_after; [apply calm_metric|exact Hr|]; clear h Hr; intros h _ _ Hr; by apply wp_ret, Heval).
  exists (Decided v d m dec false). split; [by apply s_decided_cached|]. clear h Hr. intros h Hr.
  eapply wp_after; [apply calm_metric|exact Hr|]. clear h Hr. intros h _ _ Hr. apply wp_ret, wp_ret.
  rewrite cloneDecision_id. by exists false.
Qed.

(** *** Relaying the answer *)

Lemma wp_copyResponse v reads last n h :
  reaches h (Relaying v (List.filter (fun s => negb (s =? "")%string) (reads ++ [last]))) ->
  wp (copyResponse R O reads last n) h (fun h' _ => reaches h' (Relaying v [])).
Proof.
  revert n h. induction reads as [|r reads IH]; intros n h Hr; cbn [copyResponse app List.filter] in *.
  - destruct (last =? "")%string; cbn [negb] in Hr; [by apply wp_ret|].
    eapply wp_call; [exact Hr|]. intros [k []] _.
    + exists (Relaying v []). split; [apply s_relay|]. clear h Hr. intros h Hr. by apply wp_ret.
    + exists (Relaying v []). split; [apply s_relay_broken|]. clear h Hr. intros h Hr. by apply wp_ret.
  - destruct (r =? "")%string; cbn [negb] in Hr; [by apply IH|].
    eapply wp_call; [exact Hr|]. intros [k []] _; eexists.
    + split; [apply s_relay|]. clear h Hr. intros h Hr. by apply IH.
    + split; [apply s_relay_broken|]. clear h Hr. intros h Hr. by apply wp_ret.
Qed.

Lemma calm_statusMetric code : calm (statusMetric R O code) (fun _ => True).
Proof. unfold statusMetric. repeat case_if; [apply calm_metric..|done]. Qed.

Lemma wp_send v d out h : has_Audit cfg = true -> reaches h (Signed v d out true) ->
  wp (send R O cfg runID d out) h (fun h' _ => reaches h' (Answered (Some v))).
Proof.
  intros Hau Hr. unfold send. eapply wp_after; [by apply (calm_ask _ _ (fun _ => True))|exact Hr|].
  clear h Hr. intros h start _ Hr. eapply wp_call; [exact Hr|]. intros [response err] _.
  exists (Sent v d (match err, response with None, Some u => Some u | _, _ => None end)). split.
  { destruct err, response; [apply s_unsent; by intros ? ?..|apply s_sent|apply s_unsent; by intros ? ?]. }
  clear h Hr. intros h Hr.
  eapply wp_after; [by apply (calm_ask _ _ (fun _ => True))|exact Hr|]. clear h Hr. intros h elapsed _ Hr.
  eapply wp_after; [apply calm_metric|exact Hr|]. clear h Hr. intros h _ _ Hr.
  assert (forall h, reaches h (Sent v d None) ->
    wp (_ ← Inc R O Metrics.Metrics.UpstreamErrors;
        cancelled ← match err with Some true => mret true | _ => ask CContextDone end;
        _ ← (if (cancelled : bool) then Inc R O Metrics.Metrics.UpstreamCancellation
             else Inc R O Metrics.Metrics.UpstreamTransport);
        ev ← forwardEvent R O runID d; _ ← acceptAudit R O cfg ev;
        _ ← ask (CHttpError "upstream unavailable" 502); mret elapsed) h
      (fun h' _ => reaches h' (Answered (Some v)))) as Hfail.
  { clear h Hr. intros h Hr. eapply wp_after; [apply calm_metric|exact Hr|]. clear h Hr. intros h _ _ Hr.
    eapply (wp_after _ _ _ _ (fun _ => True)); [by destruct err as [[]|]|exact Hr|]. clear h Hr. intros h c _ Hr.
    eapply (wp_after _ _ _ _ (fun _ => True)); [by destruct c|exact Hr|]. clear h Hr. intros h _ _ Hr.
    eapply wp_after; [apply calm_forwardEvent|exact Hr|]. clear h Hr. intros h e He Hr.
    apply wp_bind. apply (wp_acceptAudit _ _ (Sent v d None) (fun _ => Reported v)); [exact Hr| | |].
    - intros a. by apply s_report.
    - intros _ h' Hr'. eapply wp_call; [exact Hr'|]. intros [] _. eexists. split; [apply s_unavailable|].
      intros h'' Hr''. by apply wp_ret.
    - intros h' a b [Hr'|[Hno _]]; [|congruence].
      eapply wp_call; [exact Hr'|]. intros [] _. eexists. split; [apply s_unavailable|].
      intros h'' Hr''. by apply wp_ret. }
  destruct err as [e|]; [by apply Hfail|]. destruct response as [u|]; [|by apply Hfail].
  eapply wp_after; [apply calm_metric|exact Hr|]. clear h Hr. intros h _ _ Hr.
  eapply wp_after; [apply calm_statusMetric|exact Hr|]. clear h Hr. intros h _ _ Hr.
  eapply wp_call; [exact Hr|]. intros [] _. eexists. split; [apply s_relay_headers|]. clear h Hr. intros h Hr.
  eapply wp_call; [exact Hr|]. intros [] _. eexists. split; [apply s_relay_status|]. clear h Hr. intros h Hr.
  apply wp_bind. eapply wp_mono; [by apply wp_copyResponse|]. clear h Hr. intros h n Hr.
  eapply wp_call; [exact Hr|]. intros [] _. eexists. split; [apply s_relayed|]. clear h Hr. intros h Hr.
  by apply wp_ret.
Qed.

(** *** The handler *)

Lemma wp_denied {B} p o x reason id (b : B) h :
  reaches h p -> unsent p = Some o ->
  wp (_ ← respondPipelineDeny R O endpoint x reason id; mret b) h (fun h' _ => reaches h' (Answered o)).
Proof. intros Hr Hp. apply wp_bind. eapply wp_mono; [by eapply wp_deny|]. done. Qed.

Lemma wp_forward v d m dec start id h :
  has_Audit cfg = true -> authentic v -> understood d -> Result dec = DecisionAllow ->
  reaches h (Recorded v d m dec) ->
  wp (forward R O hmac cfg method endpoint runID start v d id) h (fun h' _ => reaches h' (Answered (Some v))).
Proof.
  intros Hau [_ Hv] [_ Hd] Hallow Hr. unfold forward. rewrite Hv, Hd. cbn [negb orb].
  destruct (negb (has_Resigner cfg) || negb (has_Upstream cfg)).
  { eapply wp_after; [apply calm_metric|exact Hr|]. clear h Hr. intros h _ _ Hr. by eapply wp_denied. }
  eapply wp_call; [exact Hr|]. intros [e|out] _.
  { exists (Denying (Some v)). split; [by eapply s_unsigned|]. clear h Hr. intros h Hr.
    eapply wp_after; [apply calm_metric|exact Hr|]. clear h Hr. intros h _ _ Hr. by eapply wp_denied. }
  eexists. split; [by eapply s_signed|]. clear h Hr. intros h Hr.
  assert (forall h, reaches h (Signed v d out true) ->
    wp (_ ← Inc R O Metrics.Metrics.Allowed; send R O cfg runID d out) h
      (fun h' _ => reaches h' (Answered (Some v)))) as Hsend.
  { clear h Hr. intros h Hr. eapply wp_after; [apply calm_metric|exact Hr|]. clear h Hr. intros h _ _ Hr.
    by apply wp_send. }
  destruct (has_Failed cfg); cbn [negb] in Hr; [|by apply Hsend].
  eapply wp_call; [exact Hr|]. intros [] _.
  - exists (Denying (Some v)). split; [by apply s_audit_dead|]. clear h Hr. intros h Hr. by eapply wp_denied.
  - eexists. split; [by apply s_audit_alive|]. clear h Hr. intros h Hr. by apply Hsend.
Qed.

Lemma wp_decide v d m start h :
  authentic v -> understood d -> reaches h (Mapped v d m) ->
  wp (decide R O fmtFloat sha256 hmac cfg method endpoint runID start v d m) h
    (fun h' _ => reaches h' (Answered (Some v))).
Proof.
  intros Hv Hd Hr. unfold decide.
  assert (wp (failed R O hmac cfg method endpoint runID start "internal_fail_closed" "policy"
                (mkFailed (Some d) noEvidence)) h (fun h' _ => reaches h' (Answered (Some v)))) as Hfail.
  { eapply wp_failed; [exact Hr|done..|]. by intros d' [= <-]. }
  destruct (has_Policy cfg); cbn [negb]; [|exact Hfail].
  destruct (is_ok _) eqn:Ha; cbn [negb]; [|exact Hfail]. clear Hfail.
  apply wp_bind. eapply wp_mono; [by apply wp_obtainDecision|]. clear h Hr. intros h dec (j & Hr & Hdec).
  eapply wp_after; [apply calm_metric|exact Hr|]. clear h Hr. intros h _ _ Hr.
  eapply wp_after; [apply calm_metric|exact Hr|]. clear h Hr. intros h _ _ Hr.
  eapply wp_after; [by apply (calm_ask _ _ (fun _ => True))|exact Hr|]. clear h Hr. intros h body _ Hr.
  eapply (wp_after _ _ _ _ (fun _ => True));
    [destruct body as [[path size]|]; [apply calm_when, calm_metric|done]|exact Hr|].
  clear h Hr. intros h _ _ Hr.
  eapply wp_after; [apply calm_newID|exact Hr|]. clear h Hr. intros h id Hid Hr.
  eapply wp_after; [by apply calm_decisionEvent|exact Hr|]. clear h Hr. intros h e He Hr.
  apply wp_bind.
  apply (wp_acceptAudit _ _ (Decided v d m dec j)
    (fun a => match a with None => Recorded v d m dec | Some _ => Denying (Some v) end)); [exact Hr| | |].
  - intros [a|]; [by apply s_unrecorded|by apply s_recorded].
  - clear h Hr. intros Hau h Hr. destruct (String.eqb_spec (Result dec) DecisionDeny) as [Hdeny|Hdeny].
    + eapply wp_after; [apply calm_metric|exact Hr|]. clear h Hr. intros h _ _ Hr. by eapply wp_denied.
    + eapply wp_forward; [done..| |exact Hr]. unfold Decision_Valid, resultValid in Hdec.
      destruct (String.eqb_spec (Result dec) DecisionAllow); [done|].
      destruct (String.eqb_spec (Result dec) DecisionDeny); [done|]. discriminate Hdec.
  - clear h Hr. intros h a b [Hr|[_ Hr]]; by eapply wp_denied.
Qed.

Lemma understood_checks d :
  negb (err_nil (Decoded_Validate d)) || negb (SameEndpoint (decodedEndpoint (Some d)) endpoint) = false ->
  understood d.
Proof.
  intros [H1 H2]%orb_false_iff. apply negb_false_iff in H1, H2. split; [|done].
  by destruct (Decoded_Validate d).
Qed.
Lemma mapped_checks d m :
  negb (err_nil (Mapping_Validate m)) || negb (map_Service m =? Service d)%string ||
  negb (map_Operation m =? Operation d)%string = false <-> mapped d m.
Proof.
  unfold mapped. rewrite !orb_false_iff, !negb_false_iff, !String.eqb_eq.
  destruct (Mapping_Validate m); cbn; naive_solver.
Qed.

Lemma wp_afterVerified v start h :
  authentic v -> reaches h (Authentic v) ->
  wp (afterVerified R O fmtFloat sha256 hmac cfg method endpoint runID start v) h
    (fun h' _ => reaches h' (Answered (Some v))).
Proof.
  intros Hv Hr. unfold afterVerified.
  destruct (has_Decoder cfg); cbn [negb]; [|by eapply wp_failed; [exact Hr|..]].
  eapply wp_after; [by apply (calm_ask _ _ (fun _ => True))|exact Hr|]. clear h Hr. intros h t0 _ Hr.
  eapply wp_call; [exact Hr|]. intros [decoded err] _.
  set (good := match err, decoded with None, Some d =>
     negb (negb (err_nil (Decoded_Validate d)) || negb (SameEndpoint (decodedEndpoint (Some d)) endpoint))
     | _, _ => false end).
  exists (match decoded with Some d => if good then Understood v d else GaveUp (Some v) | None => GaveUp (Some v) end).
  split.
  { destruct decoded as [d|], err as [err|]; try apply s_undecoded.
    destruct good eqn:Hg; [|apply s_undecoded]. apply s_decoded, understood_checks.
    by apply negb_true_iff in Hg. }
  clear h Hr. intros h Hr.
  eapply wp_after; [by apply (calm_ask _ _ (fun _ => True))|exact Hr|]. clear h Hr. intros h t1 _ Hr.
  eapply wp_after; [apply calm_metric|exact Hr|]. clear h Hr. intros h _ _ Hr.
  destruct err as [err|], decoded as [d|]; try (by eapply wp_failed; [exact Hr|..]).
  subst good. cbn beta iota in Hr.
  destruct (negb (err_nil _) || _) eqn:Hgood; cbn [negb] in Hr; [by eapply wp_failed; [exact Hr|..]|].
  apply understood_checks in Hgood as Hd.
  assert (forall q reason, reaches h q -> unrecorded q = Some (Some v) ->
    wp (failed R O hmac cfg method endpoint runID start reason "map" (mkFailed (Some d) noEvidence)) h
      (fun h' _ => reaches h' (Answered (Some v)))) as Hfail.
  { intros q reason Hr' Hq. eapply wp_failed; [exact Hr'|exact Hq|done|]. by intros d' [= <-]. }
  destruct (has_Mapper cfg); cbn [negb]; [|by eapply Hfail]. clear Hfail.
  apply wp_bind. eapply wp_mono; [by apply wp_obtainMapping|].
  clear h Hr. intros h [mapping err] (q & Hr & Hq).
  assert (forall reason, unrecorded q = Some (Some v) ->
    wp (failed R O hmac cfg method endpoint runID start reason "map" (mkFailed (Some d) noEvidence)) h
      (fun h' _ => reaches h' (Answered (Some v)))) as Hfail.
  { intros reason Hq'. eapply wp_failed; [exact Hr|exact Hq'|done|]. by intros d' [= <-]. }
  destruct mapping as [m|], err as [err|]; try (by apply Hfail).
  destruct Hq as [[Hm ->]|[Hm Hq]].
  - apply mapped_checks in Hm as Hc. rewrite Hc.
    assert (forall h, reaches h (Mapped v d m) -> wp (decide R O fmtFloat sha256 hmac cfg method endpoint runID start v d m) h
      (fun h' _ => reaches h' (Answered (Some v)))) as Hdecide by (intros; by apply wp_decide).
    apply wp_bind. destruct (negb (_ =? "")%string); [|by apply wp_ret, Hdecide]. cbn [whenP].
    eapply wp_remember; [exact Hr|intros b; rewrite cloneMapping_id; apply s_keep_mapping|]. intros h' u. apply Hdecide.
  - destruct (_ || _ || _) eqn:Hc; [by apply Hfail|]. by apply mapped_checks in Hc.
Qed.

Lemma wp_pipelineBody start h : reaches h Start ->
  wp (pipelineBody R O fmtFloat sha256 hmac cfg method endpoint runID start) h
    (fun h' _ => exists p, reaches h' p /\ finished p).
Proof.
  intros Hr. unfold pipelineBody.
  assert (forall p code h, reaches h p -> unrecorded p = Some None -> code <> "" ->
    wp (_ ← finishAuthenticationFailure R O cfg endpoint runID code; mret 0) h
      (fun h' _ => exists p, reaches h' p /\ finished p)) as Hfail.
  { clear h Hr. intros p code h Hr Hp Hc. apply wp_bind. eapply wp_mono; [by eapply wp_authFailure|].
    clear h Hr. intros h u Hr. apply wp_ret. exists (Answered None). split; [exact Hr|by left]. }
  eapply wp_after; [apply calm_metric|exact Hr|]. clear h Hr. intros h _ _ Hr.
  destruct (has_InboundAuthenticator cfg); cbn [negb]; [|by eapply Hfail].
  eapply wp_call; [exact Hr|]. intros [verified err] _.
  destruct err as [err|].
  { exists (GaveUp None). split; [apply s_unverified; by intros v|]. clear h Hr. intros h Hr.
    eapply Hfail; [exact Hr|done|].
    unfold verifyReason. by repeat case_if. }
  destruct verified as [v|].
  2: { exists (GaveUp None). split; [apply s_unverified; by intros v|]. clear h Hr. intros h Hr. by eapply Hfail. }
  destruct (negb (err_nil _) || _) eqn:Hc.
  { exists (GaveUp None). split; [apply s_unverified|].
    - intros v' [= <-] [H1 H2]. rewrite H1, H2 in Hc. discriminate Hc.
    - clear h Hr. intros h Hr. by eapply Hfail. }
  assert (authentic v) as Hv.
  { apply orb_false_iff in Hc as [H1 H2]. apply negb_false_iff in H1, H2. split; [|done].
    by destruct (Verified_Validate v). }
  exists (Authentic v). split; [by apply s_verified|]. clear h Hr. intros h Hr.
  apply wp_bind. eapply wp_mono; [by apply wp_afterVerified|]. clear h Hr. intros h n Hr.
  eapply wp_call; [exact Hr|]. intros [] _. exists Released. split; [apply s_release|].
  clear h Hr. intros h Hr. apply wp_ret. exists Released. split; [exact Hr|by right].
Qed.

Lemma handlePipeline_follows :
  wp (handlePipeline R O fmtFloat sha256 hmac cfg method endpoint) []
    (fun h _ => exists p, reaches h p /\ finished p).
Proof.
  unfold handlePipeline. eapply wp_after; [by apply (calm_ask _ _ (fun _ => True))|apply r_start|].
  intros h start _ Hr. apply wp_bind. eapply wp_mono; [by apply wp_pipelineBody|].
  clear h Hr. intros h n (p & Hr & Hp).
  eapply wp_after; [by apply (calm_ask _ _ (fun _ => True))|exact Hr|]. clear h Hr. intros h e _ Hr.
  eapply wp_calm; [apply calm_metric|exact Hr|]. clear h Hr. intros h _ _ Hr. by exists p.
Qed.
End Protocol.
End PipelineSafety.
