(* ===== verification/PipelineOutcomes.v ===== *)
(** * What the pipeline guarantees

    Read off the protocol of PipelineSafety.v, which every run follows: what a
    send needs, what the client gets, what is released, and that every event
    offered to the audit log is one it accepts. *)

From Stdlib Require Import ZArith Lia Ascii Floats.SpecFloat.
From stdpp Require Import base gmap strings list.
From S2P Require Import Prelude GoStrings GoEncoding AwsTypes.
From S2P Require Import Awserror.
From S2P Require Import Policy.
From S2P Require Import IamMapper.
From S2P Require Import GoTime.
From S2P Require Import Sigv4Verify.
From S2P Require Import AuditEvent.
From S2P Require Import PipelineKeys.
From S2P Require Import Pipeline.
From S2P Require Import PipelineSafety.

Module PipelineOutcomes.
Import Policy.Policy AwsTypes.AwsTypes GoTime.GoTime AuditEvent.AuditEvent PipelineKeys.PipelineKeys Pipeline.Pipeline.
Import PipelineSafety.PipelineSafety.

Section Outcomes.
Context `{U : UnicodeTables} {R O : Type}.
Context (sane : forall X, call R O X -> X -> Prop).
Context (fmtFloat : spec_float -> string) (sha256 : string -> string) (hmac : string -> string -> string).
Context (cfg : Config) (method : string) (endpoint : AWSEndpoint).
Notation event := (@event R O).
Notation runID := (effectiveRunID cfg).
Notation reaches := (reaches sane fmtFloat sha256 hmac cfg method endpoint).
Notation step := (step sane fmtFloat sha256 hmac cfg method endpoint).
Notation authentic := (authentic endpoint).
Notation understood := (understood endpoint).
Notation admissible := (admissible cfg endpoint).
Notation records := (records sane hmac cfg).

(** The request an event sends, if it is a send. *)
Definition sends (e : event) : option O :=
  match e with Did (CRoundTrip out) _ => Some out | _ => None end.
Definition unsentIn (h : list event) : Prop := forall e, e ∈ h -> sends e = None.

(** The permissions behind a send, in the order in which they were given. *)
Definition obtained (d : DecodedAWSRequest) (m : MappingResult) (e : event) : Prop :=
  e = Did (CMap d) (Some m, None) \/
  e = Did (CGet OperationsCache (mappingCacheKey fmtFloat sha256 cfg runID endpoint d))
        (Some (CachedMapping (Some m))).
Definition concluded (d : DecodedAWSRequest) (m : MappingResult) (dec : Decision) (e : event) : Prop :=
  e = Did (CEvaluate (inputOf cfg endpoint d m)) (IamMapper.IamMapper.Returned dec) \/
  (has_caches cfg = true /\
   e = Did (CGet DecisionsCache (decisionCacheKey fmtFloat sha256 cfg runID endpoint d m))
         (Some (CachedDecision dec))).

Record authorised (h : list event) (v : Verified R) (d : DecodedAWSRequest) (m : MappingResult)
    (dec : Decision) (ev : Event) (out : O) : Prop := {
  a_authentic : authentic v;
  a_understood : understood d;
  a_mapped : mapped d m;
  a_admissible : admissible d m;
  a_allowed : Decision_Valid dec = true /\ Result dec = DecisionAllow;
  a_recorded : records ev d m dec;
  a_order : exists em ed, obtained d m em /\ concluded d m dec ed /\
    sublist [Did CVerify (Some v, None); Did (CDecode v) (Some d, None); em; ed;
             Did (CAudit ev) None; Did (CResign v) (inr out)] h;
}.

(** ** What a phase knows of its history *)

(** The answers given so far. *)
Definition gave (l h : list event) : Prop := sublist l h.
Lemma gave_next l h e : gave l h -> gave (l ++ [e]) (h ++ [e]).
Proof. intros H. by apply sublist_app. Qed.
Lemma gave_later l h e : gave l h -> gave l (h ++ [e]).
Proof. intros H. by apply sublist_inserts_r. Qed.
Lemma unsentIn_snoc h e : unsentIn h -> sends e = None -> unsentIn (h ++ [e]).
Proof. intros Hh He e' [H|H%list_elem_of_singleton]%elem_of_app; [by apply Hh|by subst]. Qed.

(** What an event may be sent with. *)
Definition cleared (h : list event) (out : O) : Prop :=
  (exists v d m dec ev, authorised h v d m dec ev out) /\
  (has_Failed cfg = true -> Did CAuditFailed false ∈ h).
Definition sentOnce (h : list event) : Prop :=
  exists pre out a post, h = pre ++ Did (CRoundTrip out) a :: post /\ cleared pre out /\ unsentIn pre /\ unsentIn post.

Lemma sentOnce_snoc h e : sentOnce h -> sends e = None -> sentOnce (h ++ [e]).
Proof.
  intros (pre & out & a & post & -> & Hc & Hpre & Hpost) He. exists pre, out, a, (post ++ [e]).
  rewrite <-app_assoc. split; [done|]. split; [done|]. split; [done|]. by apply unsentIn_snoc.
Qed.

Definition asked v : event := Did CVerify (Some v, None).
Definition read v d : event := Did (CDecode v) (Some d, None).
Definition logged ev : event := Did (CAudit ev) None.

Definition knows (p : @phase R O) (h : list event) : Prop :=
  match p with
  | Start => unsentIn h
  | Authentic v => unsentIn h /\ authentic v /\ gave [asked v] h
  | Understood v d => unsentIn h /\ authentic v /\ understood d /\ gave [asked v; read v d] h
  | Mapped v d m =>
    unsentIn h /\ authentic v /\ understood d /\ mapped d m /\
    exists em, obtained d m em /\ gave [asked v; read v d; em] h
  | Decided v d m dec _ =>
    unsentIn h /\ authentic v /\ understood d /\ mapped d m /\ admissible d m /\ Decision_Valid dec = true /\
    (Result dec = DecisionAllow -> exists em ed, obtained d m em /\ concluded d m dec ed /\
       gave [asked v; read v d; em; ed] h)
  | Recorded v d m dec =>
    unsentIn h /\ authentic v /\ understood d /\ mapped d m /\ admissible d m /\ Decision_Valid dec = true /\
    (Result dec = DecisionAllow -> exists em ed ev, obtained d m em /\ concluded d m dec ed /\ records ev d m dec /\
       gave [asked v; read v d; em; ed; logged ev] h)
  | Signed v d out checked =>
    unsentIn h /\ understood d /\ (exists v d m dec ev, authorised h v d m dec ev out) /\
    (checked = true -> has_Failed cfg = true -> Did CAuditFailed false ∈ h)
  | GaveUp _ | Denying _ | DenialHeaders _ | DenialBody _ => unsentIn h
  | Sent _ d _ => understood d /\ sentOnce h
  | Reported _ | RelayHeaders _ _ | Relaying _ _ => sentOnce h
  | Answered _ | Released => unsentIn h \/ sentOnce h
  end.

Lemma authorised_later h e v d m dec ev out :
  authorised h v d m dec ev out -> authorised (h ++ [e]) v d m dec ev out.
Proof.
  intros [? ? ? ? ? ? (em & ed & ? & ? & ?)]. split; [done..|]. exists em, ed. split; [done|]. split; [done|].
  by apply gave_later.
Qed.

Lemma background_unsent {X} (c : call R O X) x : background c = true -> sends (Did c x) = None.
Proof. by destruct c. Qed.

(** An event that is no send keeps what a phase knows. *)
Lemma knows_background p h e : knows p h -> sends e = None -> knows p (h ++ [e]).
Proof.
  intros Hk He.
  assert (unsentIn h -> unsentIn (h ++ [e])) by (intros; by apply unsentIn_snoc).
  assert (sentOnce h -> sentOnce (h ++ [e])) by (intros; by apply sentOnce_snoc).
  destruct p; cbn [knows] in *; try tauto.
  - destruct Hk as (? & ? & ?). auto using gave_later.
  - destruct Hk as (? & ? & ? & ?). auto using gave_later.
  - destruct Hk as (? & ? & ? & ? & em & ? & ?). split_and!; auto. exists em. auto using gave_later.
  - destruct Hk as (? & ? & ? & ? & ? & ? & Hd). split_and!; auto. intros Ha.
    destruct (Hd Ha) as (em & ed & ? & ? & ?). exists em, ed. auto using gave_later.
  - destruct Hk as (? & ? & ? & ? & ? & ? & Hd). split_and!; auto. intros Ha.
    destruct (Hd Ha) as (em & ed & ev & ? & ? & ? & ?). exists em, ed, ev. auto using gave_later.
  - destruct Hk as (? & ? & (v' & d' & m & dec & ev & Ha) & Hc). split_and!; auto.
    + exists v', d', m, dec, ev. by apply authorised_later.
    + intros Hch Hhf. apply elem_of_app. left. auto.
Qed.

Lemma knows_unsent p h o : knows p h -> unsent p = Some o -> unsentIn h.
Proof. destruct p; cbn; naive_solver. Qed.

Lemma knows_step p h e p' : knows p h -> step p e p' -> knows p' (h ++ [e]).
Proof.
  intros Hk Hs.
  assert (forall e', sends e' = None -> unsentIn h -> unsentIn (h ++ [e'])) as Hu
    by (intros; by apply unsentIn_snoc).
  assert (forall e', sends e' = None -> sentOnce h -> sentOnce (h ++ [e'])) as Ho
    by (intros; by apply sentOnce_snoc).
  destruct Hs; try solve [apply knows_background; [exact Hk|reflexivity]]; cbn [knows] in *;
    try solve [apply Hu; [reflexivity|tauto] | apply Ho; [reflexivity|tauto]
              | right; apply Ho; [reflexivity|tauto]
              | destruct Hk; [left; by apply Hu|right; by apply Ho]].
  - apply knows_background; [done|]. by apply background_unsent.
  - split_and!; [by apply Hu|done|]. by apply (gave_next [] h (asked v)), sublist_nil_l.
  - destruct Hk as (? & ? & ?). split_and!; auto. by apply (gave_next [asked v]).
  - destruct Hk as (? & ? & ? & ?). split_and!; auto. eexists. split; [by left|].
    by apply (gave_next [asked v; read v d]).
  - destruct Hk as (? & ? & ? & ?). split_and!; auto. eexists. split; [by right|].
    by apply (gave_next [asked v; read v d]).
  - destruct Hk as (? & ? & ? & ? & em & ? & ?). split_and!; auto. intros _. exists em. eexists.
    split; [done|]. split; [by left|]. by apply (gave_next [asked v; read v d; em]).
  - destruct Hk as (? & ? & ? & ? & em & ? & ?). split_and!; auto. intros _. exists em. eexists.
    split; [done|]. split; [by right|]. by apply (gave_next [asked v; read v d; em]).
  - destruct Hk as (? & ? & ? & ? & em & ? & ?). split_and!; auto. intros Hno. discriminate Hno.
  - destruct Hk as (? & ? & ? & ? & em & ? & ?). split_and!; auto. intros Hno. discriminate Hno.
  - destruct Hk as (? & ? & ? & ? & ? & ? & Hd). split_and!; auto. intros Ha.
    destruct (Hd Ha) as (em & ed & ? & ? & ?). exists em, ed, e. split_and!; [done..|].
    by apply (gave_next [asked v; read v d; em; ed]).
  - destruct Hk as (? & ? & ? & ? & ? & ? & Hd). split_and!; auto.
    + destruct (Hd H) as (em & ed & ev & ? & ? & ? & ?). exists v, d, m, dec, ev. split; [done..| |].
      * done.
      * exists em, ed. split; [done|]. split; [done|].
        by apply (gave_next [asked v; read v d; em; ed; logged ev]).
    + intros Hch Hhf. by rewrite Hhf in Hch.
  - destruct Hk as (? & ? & (v' & d' & m & dec & ev & Ha) & _). split_and!; auto.
    + exists v', d', m, dec, ev. by apply authorised_later.
    + intros _ _. apply elem_of_app. right. by left.
  - destruct Hk as (? & ? & Ha & Hc). split; [done|]. exists h, out. do 2 eexists. split; [reflexivity|].
    split; [split; auto|]. split; [done|]. intros e' He'. by apply not_elem_of_nil in He'.
  - destruct Hk as (? & ? & Ha & Hc). split; [done|]. exists h, out. do 2 eexists. split; [reflexivity|].
    split; [split; auto|]. split; [done|]. intros e' He'. by apply not_elem_of_nil in He'.
  - apply Hu; [done|]. eapply knows_unsent; [exact Hk|]. by apply unrecorded_unsent.
  - left. apply Hu; [done|]. by eapply knows_unsent.
  - apply Hu; [done|]. by eapply knows_unsent.
  - left. by apply Hu.
Qed.

Lemma reaches_knows h p : reaches h p -> knows p h.
Proof.
  induction 1 as [|h p e p' _ IH Hs]; [|by eapply knows_step].
  intros e He. by apply not_elem_of_nil in He.
Qed.


(** ** Answers and releases *)

(** The status lines of a history, what [http.Error] writes included. *)
Definition statusOf (e : event) : option Z :=
  match e with
  | Did (CWriteHeader code) _ => Some code
  | Did (CHttpError _ code) _ => Some code
  | _ => None
  end.
Definition statuses (h : list event) : list Z := omap statusOf h.

(** The status a send is answered with. *)
Definition relayed (e : event) : option Z :=
  match e with
  | Did (CRoundTrip _) (Some u, None) => Some (up_StatusCode u)
  | Did (CRoundTrip _) _ => Some 502
  | _ => None
  end.
Definition replies (h : list event) : list Z := omap relayed h.

(** The verified requests, and those released. *)
Definition authenticb (v : Verified R) : bool :=
  err_nil (Verified_Validate v) && SameEndpoint (Sigv4Verify.Sigv4Verify.vr_Endpoint (v_Identity v)) endpoint.
Definition acceptedBy (e : event) : option (Verified R) :=
  match e with
  | Did CVerify (Some v, None) => if authenticb v then Some v else None
  | _ => None
  end.
Definition releasedBy (e : event) : option (Verified R) :=
  match e with Did (CCloseBody v) _ => Some v | _ => None end.
Definition accepted (h : list event) : list (Verified R) := omap acceptedBy h.
Definition released (h : list event) : list (Verified R) := omap releasedBy h.

Lemma authenticb_spec v : authenticb v = true <-> authentic v.
Proof.
  unfold authenticb, PipelineSafety.PipelineSafety.authentic. rewrite andb_true_iff.
  destruct (Verified_Validate v); cbn; naive_solver.
Qed.

(** What is still to be released and answered in each phase. *)
Definition held (p : @phase R O) : list (Verified R) :=
  match p with
  | Start | Released => []
  | Authentic v | Understood v _ | Mapped v _ _ | Decided v _ _ _ _ | Recorded v _ _ _ | Signed v _ _ _
  | Sent v _ _ | Reported v | RelayHeaders v _ | Relaying v _ => [v]
  | GaveUp o | Denying o | DenialHeaders o | DenialBody o | Answered o => option_list o
  end.
(** The status lines that are due, and the one that has been written. *)
Definition due (p : @phase R O) (h : list event) : Prop :=
  match p with
  | Sent _ _ a => replies h = [match a with Some u => up_StatusCode u | None => 502 end] /\ statuses h = []
  | Reported _ => replies h = [502] /\ statuses h = []
  | RelayHeaders _ u => replies h = [up_StatusCode u] /\ statuses h = []
  | Relaying _ _ => exists c, replies h = [c] /\ statuses h = [c]
  | DenialBody _ => replies h = [] /\ statuses h = [403]
  | Answered _ | Released => statuses h = match replies h with [] => [403] | cs => cs end /\ (List.length (replies h) <= 1)%nat
  | _ => replies h = [] /\ statuses h = []
  end.

Lemma omap_snoc {A B} (f : A -> option B) l x : omap f (l ++ [x]) = omap f l ++ option_list (f x).
Proof. rewrite omap_app. cbn. by destruct (f x). Qed.

Lemma background_silent {X} (c : call R O X) x : background c = true ->
  relayed (Did c x) = None /\ statusOf (Did c x) = None /\ releasedBy (Did c x) = None /\
  acceptedBy (Did c x) = None.
Proof. by destruct c. Qed.

Lemma due_unsent p h o : due p h -> unsent p = Some o -> replies h = [] /\ statuses h = [].
Proof. by destruct p. Qed.

Lemma due_step p h e p' : due p h -> step p e p' -> due p' (h ++ [e]).
Proof.
  intros Hd Hs.
  assert (forall o, unsent p = Some o -> replies h = [] /\ statuses h = []) as Hu
    by (intros; by eapply due_unsent).
  unfold due, statuses, replies in *.
  destruct Hs; rewrite ?omap_snoc.
  { destruct (background_silent c x H) as (-> & -> & _ & _). cbn. by rewrite !app_nil_r. }
  all: cbn [relayed statusOf option_list]; rewrite ?app_nil_r; try exact Hd.
  - by destruct Hd as [-> ->].
  - destruct Hd as [-> ->]. split; [|done]. destruct a as [[u|] [b|]]; try done. by destruct (H u).
  - destruct Hd as [-> ->]. cbn. split; [done|lia].
  - apply unrecorded_unsent in H. by apply (Hu o).
  - destruct (Hu _ H) as [-> ->]. cbn. split; [done|lia].
  - by apply (Hu o).
  - by destruct Hd as [-> ->].
  - destruct Hd as [-> ->]. cbn. split; [done|lia].
  - destruct Hd as [-> ->]. by eexists.
  - destruct Hd as (c & -> & ->). cbn. split; [done|lia].
Qed.

Lemma held_step p h e p' :
  accepted h = released h ++ held p -> step p e p' -> accepted (h ++ [e]) = released (h ++ [e]) ++ held p'.
Proof.
  intros Hh Hs. unfold accepted, released in *.
  destruct Hs; rewrite !omap_snoc.
  { destruct (background_silent c x H) as (_ & _ & -> & ->). cbn. by rewrite !app_nil_r. }
  all: cbn [acceptedBy releasedBy option_list held] in *; rewrite ?app_nil_r in *; try exact Hh.
  - apply authenticb_spec in H. rewrite H. by rewrite Hh.
  - rewrite Hh. destruct a as [[v|] [e|]]; cbn; rewrite ?app_nil_r; try done.
    destruct (authenticb v) eqn:E; [|by rewrite app_nil_r]. apply authenticb_spec in E. by destruct (H v).
  - destruct p; cbn in H |- *; simplify_eq; exact Hh.
  - destruct p; cbn in H |- *; simplify_eq; cbn in *; rewrite ?app_nil_r in *; exact Hh.
  - destruct p; cbn in H |- *; simplify_eq; cbn in *; rewrite ?app_nil_r in *; exact Hh.
Qed.

Lemma reaches_due h p : reaches h p -> due p h.
Proof. induction 1 as [|h p e p' _ IH Hs]; [done|by eapply due_step]. Qed.
Lemma reaches_held h p : reaches h p -> accepted h = released h ++ held p.
Proof. induction 1 as [|h p e p' _ IH Hs]; [done|by eapply held_step]. Qed.

Lemma finished_outcome h p : reaches h p -> finished p ->
  (unsentIn h \/ sentOnce h) /\
  (statuses h = match replies h with [] => [403] | cs => cs end /\ (List.length (replies h) <= 1)%nat) /\
  accepted h = released h.
Proof.
  intros Hr Hf. pose proof (reaches_knows h p Hr) as Hk. pose proof (reaches_due h p Hr) as Hd.
  pose proof (reaches_held h p Hr) as Hh.
  destruct Hf as [-> | ->]; cbn [knows due held option_list] in *; rewrite app_nil_r in Hh; done.
Qed.

(** Where the only element with a property stands is determined. *)
Lemma split_unique {A} (P : A -> Prop) (pre pre' post post' : list A) e e' :
  pre' ++ e' :: post' = pre ++ e :: post -> (forall x, x ∈ pre' \/ x ∈ post' -> ~ P x) -> P e -> P e' ->
  pre' = pre /\ e' = e /\ post' = post.
Proof.
  revert pre. induction pre' as [|x pre' IH]; intros [|y pre] E Hn He He'; cbn in E.
  - injection E as -> ->. done.
  - injection E as _ E. destruct (Hn e); [right|done]. rewrite E. apply elem_of_app. right. by left.
  - injection E as -> _. destruct (Hn e); [left; by left|done].
  - injection E as -> E. destruct (IH pre E) as (-> & ? & ?); [|done..].
    intros x [Hx|Hx]; apply Hn; [left; by right|by right].
Qed.

Lemma sentOnce_split h pre out a post :
  unsentIn h \/ sentOnce h -> h = pre ++ Did (CRoundTrip out) a :: post ->
  cleared pre out /\ unsentIn pre /\ unsentIn post.
Proof.
  intros [Hu| (pre' & out' & a' & post' & E' & Hc & Hpre & Hpost)] E.
  { specialize (Hu (Did (CRoundTrip out) a : event)). rewrite E in Hu. discriminate Hu.
    apply elem_of_app. right. by left. }
  rewrite E' in E. clear h E'.
  destruct (split_unique (fun e => sends e <> None) _ _ _ _ _ _ E) as (-> & E1 & ->); [|done..|].
  { intros x [Hx|Hx] Hs; apply Hs; [by apply Hpre|by apply Hpost]. }
  apply (f_equal sends) in E1. injection E1 as ->. done.
Qed.

(** ** The claims *)

Notation run := (wp sane (handlePipeline R O fmtFloat sha256 hmac cfg method endpoint) []).

(** C5. Every run of the handler, whatever the components it calls answer,
    follows the protocol from its start to its end: each call is one the
    protocol allows in the phase the request is in, a phase that grants nothing
    gives up, and the run ends with the request answered and the verified
    request's body released. *)
Theorem pipeline_refines_protocol : run (fun h _ => exists p, reaches h p /\ finished p).
Proof. apply handlePipeline_follows. Qed.

(** C1. Nothing is forwarded without every permission: whenever a run sends a
    request upstream, the verifier has accepted the caller's request for this
    endpoint, the decoder has understood it as a valid request of the endpoint,
    a valid mapping of that very operation and a valid allow decision on exactly
    that request and mapping were obtained, the decision's event was accepted by
    the audit log, and the re-signer made the request that is sent, in this
    order; the audit log had not failed; and the run sends nothing else. *)
Theorem forwarded_authorised :
  run (fun h _ => forall pre out a post, h = pre ++ Did (CRoundTrip out) a :: post ->
    cleared pre out /\ unsentIn pre /\ unsentIn post).
Proof.
  eapply wp_mono; [apply handlePipeline_follows|]. intros h u (p & Hr & Hf) pre out a post E.
  destruct (finished_outcome h p Hr Hf) as (Hs & _ & _). by eapply sentOnce_split.
Qed.

(** C6. The client gets exactly one status line: the upstream's when the send was
    answered, 502 when it failed, and 403 when nothing was sent; and what the
    verifier prepared for an accepted request is released exactly once, on every
    outcome, and nothing else is. *)
Theorem pipeline_answers_once :
  run (fun h _ =>
    statuses h = match replies h with [] => [403] | cs => cs end /\ (List.length (replies h) <= 1)%nat /\
    released h = accepted h).
Proof.
  eapply wp_mono; [apply handlePipeline_follows|]. intros h u (p & Hr & Hf).
  destruct (finished_outcome h p Hr Hf) as (_ & [Hs Hl] & Hh). by rewrite Hh.
Qed.
End Outcomes.
End PipelineOutcomes.
