(* ===== verification/PipelineAudit.v ===== *)
(** * The events of the pipeline are ones the audit log accepts

    [Event.Validate] is run by the log on every event; an event it refuses
    costs the request.  Every event the pipeline offers passes it. *)

From Stdlib Require Import ZArith Lia Ascii Floats.SpecFloat.
From stdpp Require Import base gmap strings list.
From S2P Require Import Prelude GoStrings GoEncoding AwsTypes.
From S2P Require Import Awserror.
From S2P Require Import Policy.
From S2P Require Import Endpoint.
From S2P Require Import IamMapper.
From S2P Require Import GoTime.
From S2P Require Import Sigv4Verify.
From S2P Require Import AuditEvent.
From S2P Require Import PipelineKeys.
From S2P Require Import Pipeline.
From S2P Require Import PipelineSafety.
From S2P Require Import PipelineOutcomes.

Module PipelineAudit.
Import Policy.Policy AwsTypes.AwsTypes GoTime.GoTime AuditEvent.AuditEvent PipelineKeys.PipelineKeys Pipeline.Pipeline.
Import PipelineSafety.PipelineSafety PipelineOutcomes.PipelineOutcomes.

(** What [NewID] may draw: twelve random bytes, or a clock reading of at most
    twenty digits. *)
Definition drawn_ok (d : drawn) : Prop :=
  match d with Drawn b => slen b = 12 | Clocked nanos => slen (ItoaSigned nanos) <= 20 end.

Lemma slen_hex s : slen (hex_encode s) = 2 * slen s.
Proof.
  unfold slen. induction s as [|c s IH]; [done|]. cbn [hex_encode String.length]. lia.
Qed.
Lemma NewID_ok d : drawn_ok d -> (NewID d =? "")%string = false /\ (128 <? slen (NewID d)) = false.
Proof.
  intros Hd. unfold NewID. destruct d as [b|n]; (split; [done|]); rewrite slen_app; change (slen "evt_") with 4;
    cbn in Hd; [rewrite slen_hex, Hd; done|]. apply Z.ltb_ge. lia.
Qed.

(** Reads the fields off an event built by name. *)
Ltac ev_fields :=
  cbn [ev_SchemaVersion ev_EventID ev_RunID ev_Timestamp ev_InUTC ev_EventType ev_RootProcess ev_ConnectionID
       ev_Request ev_IAMRequirements ev_Mapping ev_Decision ev_Upstream ev_Timing ev_Status ev_ErrorCode
       ev_ExitCode ev_DurationMS ev_Metrics di_Result di_PolicyHash mi_Confidence mi_MapperVersion
       given nonempty negb orb].

Section Valid.
Context `{U : UnicodeTables} (hmac : string -> string -> string).

(** The identity of an event made by [NewEvent]. *)
Record made (e : Event) (typ : string) : Prop := {
  m_schema : ev_SchemaVersion e = SchemaVersion; m_type : ev_EventType e = typ;
  m_run : (ev_RunID e =? "")%string = false /\ (128 <? slen (ev_RunID e)) = false;
  m_id : (ev_EventID e =? "")%string = false /\ (128 <? slen (ev_EventID e)) = false;
  m_time : IsZero (ev_Timestamp e) = false /\ ev_InUTC e = true;
}.

Lemma made_identity e typ : made e typ -> typ <> "" ->
  (typ = RequestDecision -> Event_Validate e = validateDecision e) /\
  (typ = ForwardError -> Event_Validate e = validateForward e) /\
  (typ = AuthenticationFailed -> Event_Validate e = validateProxy e).
Proof.
  intros [E1 E2 [E3 E4] [E5 E6] [E7 E8]] Ht. unfold Event_Validate. rewrite E1, E3, E4, E5, E6, E7, E8, E2.
  split_and!; intros ->; reflexivity.
Qed.

Lemma blank_nonempty s : blank s = false -> (s =? "")%string = false.
Proof. intros H. apply String.eqb_neq. intros ->. by vm_compute in H. Qed.

(** A request that its validator accepts makes valid request information. *)
Lemma requestInfo_ok d : Decoded_Validate d = None -> RequestInfo_Validate (requestInfo d) = None.
Proof.
  unfold Decoded_Validate. intros H. destruct (validateCallerAccountID _); [done|].
  destruct (blank (Partition d)) eqn:E1; [done|]. destruct (blank (EndpointHost d)) eqn:E2; [done|].
  destruct (blank (Service d)) eqn:E3; [done|]. destruct (blank (Operation d)) eqn:E4; [done|].
  cbn [orb] in H. destruct (Endpoint_Validate _); [done|].
  destruct (protocolSupported (Protocol d)) eqn:E5; [|done]. cbn [negb] in H.
  destruct (mem_str _ _) eqn:E6; [|done]. cbn [negb] in H.
  destruct (_ || _); [done|]. destruct (negb (payloadValid _)); [done|].
  destruct (PayloadBytes d <? 0) eqn:E7; [done|].
  unfold RequestInfo_Validate, requestInfo.
  cbn [ri_Host ri_Partition ri_Service ri_Operation ri_Protocol ri_Method ri_PayloadBytes].
  rewrite E2, E5, E7, (blank_nonempty _ E1), (blank_nonempty _ E3), (blank_nonempty _ E4). cbn.
  destruct (String.eqb_spec (Method d) ""); [|done]. rewrite e in E6. by vm_compute in E6.
Qed.

(** A requirement that its validator accepts, with a resource, is logged as a
    valid one. *)
Lemma logged_ok run (logARNs hashNames : bool) r :
  AwsTypes.Requirement_Validate r = None -> Resources r <> [] ->
  AuditEvent.Requirement_Validate
    (mkLogged (Action r) (redactFor hmac run logARNs hashNames r <$> Resources r) (ScopeKind r) (Dependent r)) = None.
Proof.
  intros (_ & Hs & Hc & He & _)%Requirement_Validate_inv Hr. unfold AuditEvent.Requirement_Validate.
  cbn [lr_Action lr_Resources lr_ScopeKind lr_Dependent].
  destruct (String.eqb_spec (Action r) ""); [rewrite e in Hc; destruct Hc as [Hc _]; by vm_compute in Hc|].
  rewrite length_fmap. destruct (Resources r) as [|x xs] eqn:Ex; [done|]. cbn [List.length Nat.eqb orb].
  rewrite Hs. cbn [negb]. destruct (existsb _ _) eqn:Eb; [|done].
  apply existsb_elem in Eb as (y & Hy & E). apply String.eqb_eq in E as ->.
  apply list_elem_of_fmap in Hy as (z & E & Hz). unfold redactFor in E.
  destruct (_ && _) eqn:Ea.
  - apply andb_true_iff in Ea as [_ Ea]. apply String.eqb_eq in Ea. by subst.
  - destruct hashNames; [done|]. destruct logARNs; [|done]. by subst.
Qed.

Lemma loggedAll_ok run (logARNs hashNames : bool) rs :
  (forall r, r ∈ rs -> AwsTypes.Requirement_Validate r = None /\ Resources r <> []) ->
  checkLogged (RequirementsForRun hmac run rs logARNs hashNames) = None.
Proof.
  induction rs as [|r rs IH]; intros H; [done|]. cbn.
  destruct (H r ltac:(left)) as [Hv Hr]. change (checkLogged ?l) with (checkLogged l).
  rewrite logged_ok by done. apply IH. intros x Hx. apply H. by right.
Qed.

Lemma checkRequirements_all rs i : checkRequirements i rs = None ->
  forall r, r ∈ rs -> AwsTypes.Requirement_Validate r = None.
Proof.
  revert i. induction rs as [|r rs IH]; intros i H x Hx; [by apply not_elem_of_nil in Hx|].
  cbn in H. destruct (AwsTypes.Requirement_Validate r) eqn:E; [done|].
  apply elem_of_cons in Hx as [->|Hx]; [done|]. by eapply IH.
Qed.

(** What a decision event says of the mapping. *)
Definition loggable (m : MappingResult) : Prop :=
  Mapping_Validate m = None /\ forall r, r ∈ Requirements m -> Resources r <> [].

Lemma loggable_parts m : loggable m ->
  confidenceValid (Confidence m) = true /\ (MapperVersion m =? "")%string = false /\ Requirements m <> [] /\
  forall r, r ∈ Requirements m -> AwsTypes.Requirement_Validate r = None /\ Resources r <> [].
Proof.
  intros [H Hr]. unfold Mapping_Validate in H. destruct (_ || _); [done|].
  destruct (confidenceValid (Confidence m)); [|done]. cbn [negb] in H.
  destruct (blank (MapperVersion m)) eqn:E; [done|].
  destruct (Z.of_nat (List.length (Requirements m)) =? 0) eqn:El; [done|].
  destruct (checkRequirements 0 (Requirements m)) eqn:Ec; [done|].
  split; [done|]. split; [by apply blank_nonempty|]. split; [intros E0; by rewrite E0 in El|].
  intros r Hin. split; [by eapply checkRequirements_all|by apply Hr].
Qed.

(** What the log asks of the mapping of a decision event. *)
Definition logs (run : string) (cfg : Config) (m : MappingResult) : Prop :=
  confidenceValid (Confidence m) = true /\ (MapperVersion m =? "")%string = false /\ Requirements m <> [] /\
  checkLogged (RequirementsForRun hmac run (Requirements m) (LogResourceARNs cfg) (HashResourceNames cfg)) = None.

Lemma loggable_logs run cfg m : loggable m -> logs run cfg m.
Proof. intros (H1 & H2 & H3 & H4)%loggable_parts. split_and!; [done..|]. by apply loggedAll_ok. Qed.
Lemma failureMapping_logs run cfg d stage : logs run cfg (failureMapping d stage).
Proof.
  unfold logs, failureMapping. cbn [Confidence MapperVersion Requirements]. split_and!; [done..|].
  set (service := if (Service d =? "")%string then "unknown" else Service d). cbn [RequirementsForRun requirements fmap list_fmap checkLogged].
  cbn [AwsTypes.AwsTypes.Action AwsTypes.AwsTypes.Resources AwsTypes.AwsTypes.ScopeKind AwsTypes.AwsTypes.Dependent fmap list_fmap].
  unfold AuditEvent.Requirement_Validate. cbn [lr_Action lr_Resources lr_ScopeKind lr_Dependent].
  assert ((service ++ ":Unknown" =? "")%string = false) as -> by by destruct service.
  unfold redactFor. cbn [AwsTypes.AwsTypes.ScopeKind]. change (ScopeUnresolved =? ScopeKnownGlobal)%string with false.
  by destruct (HashResourceNames cfg), (LogResourceARNs cfg).
Qed.

Lemma decided_valid e id d m dec cfg :
  made e RequestDecision -> ev_ConnectionID e <> "" ->
  (id =? "")%string = false -> (128 <? slen id) = false ->
  ev_RootProcess e = None -> ev_Upstream e = None -> ev_Status e = "" -> ev_ErrorCode e = "" ->
  ev_ExitCode e = None -> ev_DurationMS e = S754_zero false -> ev_Metrics e = None ->
  RequestInfo_Validate (requestInfo d) = None -> logs (ev_RunID e) cfg m -> resultValid (Result dec) = true ->
  validHash (validPolicyHash (cfg_PolicyHash cfg)) = true ->
  Event_Validate (decided hmac e id d m dec cfg) = None.
Proof.
  intros Hm Hc Hi Hi' E1 E2 E3 E4 E5 E6 E7 Hd Hl Hr Hh.
  assert (Event_Validate (decided hmac e id d m dec cfg) = validateDecision (decided hmac e id d m dec cfg)) as ->
    by (apply (made_identity _ RequestDecision); [destruct Hm; by split|done|done]).
  unfold validateDecision, decided. ev_fields. rewrite E1, E2, E3, E4, E5, E6, E7.
  change (nonzero (S754_zero false)) with false. change ("" =? "")%string with true. ev_fields.
  destruct Hl as (Hcv & Hmv & Hne & Hlog).
  destruct (RequirementsForRun _ _ _ _) as [|r rs] eqn:Er.
  { destruct (Requirements m); [done|discriminate Er]. }
  destruct (String.eqb_spec (ev_ConnectionID e) ""); [done|]. rewrite Hd.
  assert (negb (Result dec =? "allow")%string && negb (Result dec =? "deny")%string = false) as ->.
  { unfold resultValid, DecisionAllow, DecisionDeny in Hr.
    by destruct (Result dec =? "allow")%string, (Result dec =? "deny")%string. }
  rewrite Hh, Hcv, Hmv. exact Hlog.
Qed.
End Valid.

(** ** The events of a run *)

Section Events.
Context `{U : UnicodeTables} {R O : Type}.
Context (sane : forall X, call R O X -> X -> Prop).
Context (fmtFloat : spec_float -> string) (sha256 : string -> string) (hmac : string -> string -> string).
Context (cfg : Config) (method : string) (endpoint : AWSEndpoint).
Notation event := (@event R O).
Notation runID := (effectiveRunID cfg).
Notation reaches := (reaches sane fmtFloat sha256 hmac cfg method endpoint).
Notation step := (step sane fmtFloat sha256 hmac cfg method endpoint).

(** Documented behaviour of the sources of randomness and time. *)
Record plain_world : Prop := {
  w_draw : forall d, sane _ CDraw d -> drawn_ok d;
  w_now : forall t, sane _ CNow t -> IsZero t = false;
}.

Context (Hw : plain_world) (Hep : Endpoint_Validate endpoint = None) (Hrun : slen runID <= 128).
Context (Hhash : validHash (validPolicyHash (cfg_PolicyHash cfg)) = true).

Record bare (e : Event) : Prop := {
  b_root : ev_RootProcess e = None; b_request : ev_Request e = None; b_reqs : ev_IAMRequirements e = None;
  b_mapping : ev_Mapping e = None; b_decision : ev_Decision e = None; b_upstream : ev_Upstream e = None;
  b_timing : ev_Timing e = None; b_status : ev_Status e = ""; b_code : ev_ErrorCode e = "";
  b_exit : ev_ExitCode e = None; b_duration : ev_DurationMS e = S754_zero false; b_metrics : ev_Metrics e = None;
  b_connection : (ev_ConnectionID e =? "")%string = false;
}.

Lemma freshID_ok id : freshID sane id -> (id =? "")%string = false /\ (128 <? slen id) = false.
Proof. intros (d & Hd & ->). apply NewID_ok. by apply (w_draw Hw). Qed.

Lemma fresh_made typ e : freshEvent sane cfg typ e -> made e typ /\ bare e.
Proof.
  intros (d & now & c & Hd & Hn & Hc & ->).
  destruct (freshID_ok c Hc) as [Hc1 _]. destruct (NewID_ok d (w_draw Hw d Hd)) as [H1 H2].
  split; [split; try done|by split].
  - split; [|cbn; apply Z.ltb_ge; exact Hrun]. cbn. unfold effectiveRunID.
    destruct (cfg_RunID cfg =? "")%string eqn:E; done.
  - split; [by apply (w_now Hw)|done].
Qed.

(** A request made from what is known of a failed one. *)
Lemma failureDecoded_ok evidence : RequestInfo_Validate (requestInfo (failureDecoded method endpoint evidence)) = None.
Proof.
  unfold failureDecoded, RequestInfo_Validate, requestInfo.
  set (ev := if _ || _ then noEvidence else evidence).
  cbn [ri_Host ri_Partition ri_Service ri_Operation ri_Protocol ri_Method ri_PayloadBytes
       AwsTypes.AwsTypes.EndpointHost AwsTypes.AwsTypes.Partition AwsTypes.AwsTypes.Service
       AwsTypes.AwsTypes.Operation AwsTypes.AwsTypes.Region AwsTypes.AwsTypes.Protocol
       AwsTypes.AwsTypes.Method AwsTypes.AwsTypes.PayloadBytes].
  pose proof Hep as E. unfold Endpoint_Validate in E.
  destruct (blank (ep_Partition endpoint)) eqn:E1; [done|].
  destruct (blank (ep_Host endpoint)) eqn:E2; [done|]. clear E.
  rewrite (blank_nonempty _ E1).
  assert (((if (ep_Service endpoint =? "")%string then "unknown" else ep_Service endpoint) =? "")%string = false) as ->
    by (destruct (ep_Service endpoint =? "")%string eqn:E; done).
  assert (((if (method =? "")%string then "POST" else method) =? "")%string = false) as ->
    by (destruct (method =? "")%string eqn:E; done).
  assert (protocolSupported (if HasProtocol ev then AwsTypes.AwsTypes.ev_Protocol ev else ProtocolJSON11) = true) as ->.
  { unfold HasProtocol. destruct (ProtocolAvailable ev), (protocolSupported (AwsTypes.AwsTypes.ev_Protocol ev)) eqn:E;
      done. }
  assert (((if HasOperation ev then AwsTypes.AwsTypes.ev_Operation ev else "Unknown") =? "")%string = false) as ->.
  { unfold HasOperation, validEvidenceOperation.
    destruct (OperationAvailable ev && _) eqn:E; [|done]. apply andb_true_iff in E as [_ E].
    apply andb_true_iff in E as [_ E]. apply String.eqb_neq. intros E0. rewrite E0 in E. by vm_compute in E. }
  done.
Qed.

Lemma blamed_ok d : blamed method endpoint d -> RequestInfo_Validate (requestInfo d) = None.
Proof. intros [[H _]|(evidence & ->)]; [by apply requestInfo_ok|apply failureDecoded_ok]. Qed.

(** ** Each kind of event *)

Lemma Valid_result d : Decision_Valid d = true -> resultValid (Result d) = true.
Proof. unfold Decision_Valid. destruct (resultValid (Result d)); [done|]. by intros H. Qed.

Lemma records_valid e d m dec :
  records sane hmac cfg e d m dec -> RequestInfo_Validate (requestInfo d) = None ->
  (forall run, logs hmac run cfg m) -> resultValid (Result dec) = true -> Event_Validate e = None.
Proof.
  intros (e0 & id & He0 & Hid & ->) Hd Hm Hr. destruct (fresh_made _ _ He0) as [Hmade []].
  destruct (freshID_ok id Hid). apply decided_valid; try done. by apply String.eqb_neq.
Qed.

Lemma reports_valid e d : reports sane cfg e d -> RequestInfo_Validate (requestInfo d) = None -> Event_Validate e = None.
Proof.
  intros (e0 & He0 & ->) Hd. destruct (fresh_made _ _ He0) as [Hmade Hb].
  assert (Event_Validate (forwarded e0 d) = validateForward (forwarded e0 d)) as ->
    by (apply (made_identity _ ForwardError); [destruct Hmade; by split|done|done]).
  destruct Hb. unfold validateForward, forwarded. ev_fields.
  rewrite b_root0, b_reqs0, b_mapping0, b_decision0, b_metrics0, b_connection0. ev_fields.
  change ("upstream_transport_error" =? "")%string with false. exact Hd.
Qed.

Lemma refusal_valid e : refusal sane hmac cfg method endpoint e -> Event_Validate e = None.
Proof.
  intros [e0 code He0 Hcode|e0 d stage reason Hd Hst Hr].
  - destruct (fresh_made _ _ He0) as [Hmade Hb].
    assert (Event_Validate (withCode e0 code) = validateProxy (withCode e0 code)) as ->
      by (apply (made_identity _ AuthenticationFailed); [destruct Hmade; by split|done|done]).
    destruct Hb. unfold validateProxy, withCode. ev_fields.
    rewrite b_root0, b_request0, b_reqs0, b_mapping0, b_decision0, b_upstream0, b_timing0, b_status0, b_exit0,
      b_duration0, b_metrics0, b_connection0.
    apply String.eqb_neq in Hcode. by rewrite Hcode.
  - eapply records_valid; [exact Hr|by apply blamed_ok| |done]. intros run. apply failureMapping_logs.
Qed.

(** ** Every event of a run *)

Definition auditedEvent (e : event) : option Event :=
  match e with Did (CAudit ev) _ => Some ev | _ => None end.

(** The mapper, or the cache of its mappings, answered with this mapping. *)
Definition answered (h : list event) (m : MappingResult) : Prop :=
  (exists d, Did (CMap d) (Some m, None) ∈ h) \/
  (exists key, Did (CGet OperationsCache key) (Some (CachedMapping (Some m))) ∈ h).

(** An event lists a requirement without a resource, because a mapping that was
    answered has one. *)
Definition bareRequirement (h : list event) (ev : Event) : Prop :=
  (exists rs r, ev_IAMRequirements ev = Some rs /\ r ∈ rs /\ lr_Resources r = []) /\
  exists m r, answered h m /\ r ∈ Requirements m /\ Resources r = [].
Definition fine (h : list event) (ev : Event) : Prop := Event_Validate ev = None \/ bareRequirement h ev.
Definition allFine (h : list event) : Prop := forall e ev, e ∈ h -> auditedEvent e = Some ev -> fine h ev.

Lemma answered_snoc h e m : answered h m -> answered (h ++ [e]) m.
Proof. intros [[d H]|[key H]]; [left; exists d|right; exists key]; apply elem_of_app; by left. Qed.
Lemma fine_snoc h e ev : fine h ev -> fine (h ++ [e]) ev.
Proof. intros [H|[H (m & r & Hm & Hr)]]; [by left|right]. split; [done|]. exists m, r. split; [by apply answered_snoc|done]. Qed.
Lemma allFine_snoc h e : allFine h -> (forall ev, auditedEvent e = Some ev -> fine (h ++ [e]) ev) ->
  allFine (h ++ [e]).
Proof. intros Hh He e' ev [H|H%list_elem_of_singleton]%elem_of_app Hev; [by eapply fine_snoc, Hh|subst; by apply He]. Qed.

Definition mappingIn (p : @phase R O) (h : list event) : Prop :=
  match p with Mapped _ _ m | Decided _ _ m _ _ => Mapping_Validate m = None /\ answered h m | _ => True end.
Lemma mappingIn_snoc p h e : mappingIn p h -> mappingIn p (h ++ [e]).
Proof. destruct p; cbn; try done; intros [Hv Ha]; (split; [done|by apply answered_snoc]). Qed.

(** A decision's event is valid, or the mapping leaves a requirement bare. *)
Lemma decision_fine e h d m dec : records sane hmac cfg e d m dec -> Mapping_Validate m = None -> answered h m ->
  RequestInfo_Validate (requestInfo d) = None -> resultValid (Result dec) = true -> fine h e.
Proof.
  intros Hrec Hm Ha Hd Hdec.
  destruct (existsb (fun r => (List.length (Resources r) =? 0)%nat) (Requirements m)) eqn:Hx.
  - right. apply existsb_elem in Hx as (r & Hin & Hr).
    assert (Resources r = []) as Hr0 by by destruct (Resources r).
    split; [|by exists m, r]. destruct Hrec as (e0 & id & _ & _ & ->). eexists _, _. split; [reflexivity|].
    split; [apply list_elem_of_fmap; exists r; by split|]. cbn. by rewrite Hr0.
  - left. eapply records_valid; [exact Hrec|done| |done]. intros run. apply loggable_logs. split; [done|].
    intros r Hr E. rewrite existsb_elem_false in Hx. specialize (Hx r Hr). by rewrite E in Hx.
Qed.

Lemma events_step p h e p' :
  PipelineOutcomes.PipelineOutcomes.knows sane fmtFloat sha256 hmac cfg endpoint p h ->
  mappingIn p h -> allFine h -> step p e p' -> mappingIn p' (h ++ [e]) /\ allFine (h ++ [e]).
Proof.
  intros Hk Hm Hh Hs.
  assert (forall ev a, fine h ev -> allFine (h ++ [Did (CAudit ev) a])) as Hnew
    by (intros ev a Hv; apply allFine_snoc; [done|]; intros ev' [= <-]; by apply fine_snoc).
  assert (forall e, e ∈ h ++ [e]) as Hlast by (intros e'; apply elem_of_app; right; by apply list_elem_of_singleton).
  destruct Hs; try solve [split; [exact (mappingIn_snoc _ _ _ Hm)|]; apply allFine_snoc; [exact Hh|discriminate]];
    cbn [mappingIn PipelineOutcomes.PipelineOutcomes.knows] in *;
    try solve [split; [exact I|apply allFine_snoc; [exact Hh|discriminate]]].
  - split; [by apply mappingIn_snoc|]. apply allFine_snoc; [exact Hh|]. by destruct c.
  - split; [|apply allFine_snoc; [exact Hh|discriminate]]. split; [by apply H|left; by exists d].
  - split; [|apply allFine_snoc; [exact Hh|discriminate]]. split; [by apply H0|right; by eexists].
  - destruct Hk as (_ & _ & [Hd _] & _ & _ & Hdec & _), Hm. split; [exact I|]. apply Hnew.
    eapply decision_fine; [exact H|done|done|by apply requestInfo_ok|by apply Valid_result].
  - destruct Hk as (_ & _ & [Hd _] & _ & _ & Hdec & _), Hm. split; [exact I|]. apply Hnew.
    eapply decision_fine; [exact H|done|done|by apply requestInfo_ok|by apply Valid_result].
  - destruct Hk as [[Hd _] _]. split; [exact I|]. apply Hnew. left. eapply reports_valid; [exact H|].
    by apply requestInfo_ok.
  - split; [exact I|]. apply Hnew. left. by apply refusal_valid.
Qed.

Lemma reaches_fine h p : reaches h p -> mappingIn p h /\ allFine h.
Proof.
  induction 1 as [|h p e p' Hr [IH1 IH2] Hs].
  - split; [exact I|]. intros e ev He. by apply not_elem_of_nil in He.
  - eapply (events_step p); [by eapply reaches_knows|done..].
Qed.

Lemma handlePipeline_valid :
  wp sane (handlePipeline R O fmtFloat sha256 hmac cfg method endpoint) [] (fun h _ => allFine h).
Proof.
  eapply wp_mono; [apply handlePipeline_follows|].
  intros h u (p & Hr & _). by destruct (reaches_fine h p Hr).
Qed.
End Events.

(** The sources of randomness and time behave as documented; every other
    component may answer anything. *)
Definition plain {R O : Type} (X : Type) (c : call R O X) : X -> Prop :=
  match c in call _ _ X return X -> Prop with
  | CDraw => drawn_ok
  | CNow => fun t => IsZero t = false
  | _ => fun _ => True
  end.

(** C19. Every event the pipeline offers to the audit log is one that the log
    accepts: decisions, refusals before and after decoding, and forward errors
    all pass [Event.Validate], for any request and whatever the components
    answer, with one exception: a decision's event that lists a requirement
    without a resource, which happens only when the mapper, or the cache of its
    mappings, has answered in this run with a mapping that has such a
    requirement (the repository's mapper never returns one). This is given a
    valid endpoint, a run id of at most 128 bytes, a policy hash that is a
    digest or gets replaced, random identifiers of the length asked for and a
    clock that is set. *)
Theorem pipeline_events_valid `{U : UnicodeTables} {R O : Type} fmtFloat sha256 hmac cfg method endpoint :
  Endpoint_Validate endpoint = None -> slen (effectiveRunID cfg) <= 128 ->
  validHash (validPolicyHash (cfg_PolicyHash cfg)) = true ->
  wp plain (handlePipeline R O fmtFloat sha256 hmac cfg method endpoint) []
    (fun h _ => forall ev a, Did (CAudit ev) a ∈ h -> Event_Validate ev = None \/ bareRequirement h ev).
Proof.
  intros Hep Hrun Hhash. eapply wp_mono; [apply handlePipeline_valid; [by split|done..]|].
  intros h u Hv ev a Hin. by apply (Hv _ ev Hin).
Qed.

#[local] Instance sample_tables : UnicodeTables := ascii_tables.
Lemma pipeline_events_valid_witness :
  let cfg := mkConfig true true true true true true true true true true "run-1" "sha256:" false true "" "" ""
               None None None in
  wp plain (handlePipeline unit unit (fun _ => "0") (fun s => s) (fun k s => s) cfg "POST" Endpoint.Endpoint.sampleEndpoint) []
    (fun h _ => forall ev a, Did (CAudit ev) a ∈ h -> Event_Validate ev = None \/ bareRequirement h ev).
Proof. apply pipeline_events_valid; vm_compute; congruence. Defined.
End PipelineAudit.
