(* ===== verification/PipelinePolicy.v ===== *)
(** * The pipeline with the policy engine behind it

    The engine of Policy.v answers the pipeline's evaluations, and what the
    decision cache answers was put there by a request of this run.  Then a
    request is sent only if the policy grants it, cached or not; and a denial
    that stands for an engine failure is kept like any other. *)

From Stdlib Require Import ZArith Lia Ascii Floats.SpecFloat.
From stdpp Require Import base gmap strings list.
From S2P Require Import Prelude GoStrings GoEncoding AwsTypes.
From S2P Require Import Awserror.
From S2P Require Import Policy.
From S2P Require Import IamMapper.
From S2P Require Import CacheKeys.
From S2P Require Import PipelineKeys.
From S2P Require Import Pipeline.
From S2P Require Import PipelineSafety.
From S2P Require Import PipelineOutcomes.

Module PipelinePolicy.
Import Policy.Policy AwsTypes.AwsTypes CacheKeys.CacheKeys PipelineKeys.PipelineKeys Pipeline.Pipeline.
Import PipelineSafety.PipelineSafety PipelineOutcomes.PipelineOutcomes.

Section Engine.
Context `{U : UnicodeTables} {R O : Type}.
Context (fmtFloat : spec_float -> string) (sha256 : string -> string) (hmac : string -> string -> string).
Context (cfg : Config) (method : string) (endpoint : AWSEndpoint) (engine : Policy.Policy.Engine).
Notation event := (@event R O).
Notation runID := (effectiveRunID cfg).
Notation mappingKey := (mappingCacheKey fmtFloat sha256 cfg runID endpoint).
Notation decisionKey := (decisionCacheKey fmtFloat sha256 cfg runID endpoint).
Notation understood := (understood endpoint).
Notation admissible := (PipelineSafety.PipelineSafety.admissible cfg endpoint).
Notation inputOf := (inputOf cfg endpoint).

(** A mapping whose resources are not empty and hold no NUL, as ARNs are. *)
Definition plainMapping (m : MappingResult) : Prop := forall r, r ∈ Requirements m -> plainResources r.

(** What the engine may answer: its evaluation under some context, or a panic. *)
Definition evaluates (i : DecisionInput) (a : IamMapper.IamMapper.called Decision) : Prop :=
  a = IamMapper.IamMapper.Panicked \/
  exists ctx, a = IamMapper.IamMapper.Returned (Evaluate (Some engine) ctx i).
(** What [safeEvaluate] makes of it. *)
Definition recovered (a : IamMapper.IamMapper.called Decision) : Decision :=
  match a with IamMapper.IamMapper.Returned dec => dec | IamMapper.IamMapper.Panicked => failClosed end.

(** A decision the run has reached under a key. *)
Definition judged (key : string) (dec : Decision) : Prop :=
  exists d m a, understood d /\ mapped d m /\ plainMapping m /\ admissible d m /\ key = decisionKey d m /\
    evaluates (inputOf d m) a /\ dec = recovered a.

(** The world of a run with this engine: the caches hold what the run has put
    there. *)
Definition policyWorld (X : Type) (c : call R O X) : X -> Prop :=
  match c in call _ _ X return X -> Prop with
  | CEvaluate i => evaluates i
  | CMap _ => fun a => forall m, a = (Some m, None) -> plainMapping m
  | CGet OperationsCache _ => fun a => forall m, a = Some (CachedMapping (Some m)) -> plainMapping m
  | CGet DecisionsCache key => fun a => forall dec, a = Some (CachedDecision dec) -> judged key dec
  | _ => fun _ => True
  end.

Notation reaches := (reaches policyWorld fmtFloat sha256 hmac cfg method endpoint).
Notation step := (step policyWorld fmtFloat sha256 hmac cfg method endpoint).

(** ** A key determines what the policy sees *)

Lemma understood_identity d : understood d ->
  Partition d = ep_Partition endpoint /\ Region d = ep_Region endpoint.
Proof.
  intros [_ H]. unfold SameEndpoint, EndpointIdentityEqual in H.
  cbn [decodedEndpoint ep_Partition ep_Region ep_Host ep_Service] in H.
  repeat match goal with H : _ && _ = true |- _ => apply andb_true_iff in H as [? ?] end.
  repeat match goal with H : (_ =? _)%string = true |- _ => apply String.eqb_eq in H end. done.
Qed.

Lemma decisionKey_determines d m d0 m0 :
  has_caches cfg = true -> plainMapping m -> plainMapping m0 -> decisionKey d m = decisionKey d0 m0 ->
  (CallerAccountID d = CallerAccountID d0 /\
   Permutation (retained <$> Requirements m) (retained <$> Requirements m0)) \/ collision sha256.
Proof.
  intros Hc Hm Hm0. unfold decisionCacheKey. rewrite Hc. cbn [negb].
  destruct (mappingVersions cfg) as [[mapper adapter] version]. intros [E|E]%HashKey_inj; [|by right].
  injection E as Ea _ _ Er _. apply RequirementsKey_retained in Er as [Hp|Hcol]; [left; done|by right|].
  intros r [Hr|Hr]%elem_of_app; [by apply Hm|by apply Hm0].
Qed.

(** Two requests of the endpoint by the same caller, and requirements that agree
    on all but the order of their resources, get the same verdict of a rule. *)
Lemma verdict_same d d0 r r0 resource rule :
  understood d -> understood d0 -> CallerAccountID d = CallerAccountID d0 ->
  Action r = Action r0 -> ScopeKind r = ScopeKind r0 ->
  grants d r resource rule = grants d0 r0 resource rule /\ denies d r resource rule = denies d0 r0 resource rule.
Proof.
  intros [E1 E2]%understood_identity [F1 F2]%understood_identity Ec Ea Es.
  unfold grants, denies, acknowledged, applies, ruleMatches.
  rewrite Ea, Es, E1, E2, F1, F2, Ec. done.
Qed.

Lemma allowed_transfer d m d0 m0 :
  understood d -> understood d0 -> CallerAccountID d = CallerAccountID d0 ->
  Permutation (retained <$> Requirements m) (retained <$> Requirements m0) ->
  allowedBy engine d0 m0 -> allowedBy engine d m.
Proof.
  intros Hd Hd0 Ec Hp Ha r Hr.
  assert (retained r ∈ retained <$> Requirements m0) as (r0 & E & Hr0)%list_elem_of_fmap
    by (rewrite <-Hp; by apply list_elem_of_fmap_2).
  unfold retained in E. injection E as Ea Es _ Er _.
  destruct (Ha r0 Hr0) as [Hs Hres]. split; [by rewrite Es|]. intros resource Hin.
  assert (resource ∈ Resources r0) as Hin0.
  { apply elem_of_sort_strings. rewrite <-Er. by apply elem_of_sort_strings. }
  destruct (Hres resource Hin0) as [(rule & Hrule & Hg) Hdeny]. split.
  - exists rule. split; [done|]. by destruct (verdict_same d d0 r r0 resource rule Hd Hd0 Ec Ea Es) as [-> _].
  - intros rule' Hrule'. destruct (verdict_same d d0 r r0 resource rule' Hd Hd0 Ec Ea Es) as [_ ->]. auto.
Qed.

(** An allowing evaluation grants the request it was given. *)
Lemma evaluates_allow i a : evaluates i a -> Result (recovered a) = DecisionAllow ->
  exists req mapping, Request i = Some req /\ Mapping i = Some mapping /\ allowedBy engine req mapping.
Proof.
  intros [->|(ctx & ->)] Hr; [done|]. cbn [recovered] in Hr. destruct ctx as [ctx|]; [|done].
  destruct (Evaluate_cases engine ctx i) as [E|[E _]]; rewrite E in Hr; [|done].
  destruct (pureEvaluate_allow engine i Hr) as (req & mapping & (Hi & _) & Ha).
  exists req, mapping. unfold Input_Validate in Hi.
  destruct (_ || _ || _); [done|]. destruct (Endpoint_Validate _); [done|].
  destruct (Request i) as [req'|]; [|done]. destruct (Mapping i) as [m'|]; [|done].
  destruct (Decoded_Validate req'); [done|]. destruct (Mapping_Validate m'); [done|].
  do 3 (case_if; [done|]). injection Hi as -> ->. done.
Qed.

Lemma judged_allow d m dec : has_caches cfg = true -> understood d -> plainMapping m ->
  judged (decisionKey d m) dec -> Result dec = DecisionAllow -> allowedBy engine d m \/ collision sha256.
Proof.
  intros Hc Hd Hm (d0 & m0 & a & Hd0 & _ & Hm0 & _ & Ek & Ha & ->) Hr.
  destruct (decisionKey_determines d m d0 m0 Hc Hm Hm0 Ek) as [[Ec Hp]|]; [|by right]. left.
  destruct (evaluates_allow _ _ Ha Hr) as (req & mapping & Ereq & Emap & Hall).
  cbn in Ereq, Emap. simplify_eq. by eapply (allowed_transfer d m req mapping).
Qed.

(** ** What a history of answers shows *)

Definition sane (e : event) : Prop := answeredSanely policyWorld e.
Notation obtained := (obtained fmtFloat sha256 cfg endpoint).
Notation concluded := (concluded fmtFloat sha256 cfg endpoint).
Notation authorised := (authorised policyWorld fmtFloat sha256 hmac cfg endpoint).
Notation cleared := (cleared policyWorld fmtFloat sha256 hmac cfg endpoint).

Lemma obtained_plain d m e : obtained d m e -> sane e -> plainMapping m.
Proof. intros [->| ->] Hs; by apply (Hs m). Qed.

Lemma concluded_granted d m dec e : understood d -> plainMapping m -> concluded d m dec e -> sane e ->
  Result dec = DecisionAllow -> allowedBy engine d m \/ collision sha256.
Proof.
  intros Hd Hm [->|[Hc ->]] Hs Hr.
  - left. destruct (evaluates_allow _ _ Hs Hr) as (req & mapping & E1 & E2 & Ha).
    cbn in E1, E2. by simplify_eq.
  - eapply judged_allow; [done..| |done]. by apply (Hs dec).
Qed.

Definition granted (h : list event) (out : O) : Prop :=
  exists v d m dec ev, authorised h v d m dec ev out /\ allowedBy engine d m.

Lemma cleared_granted h out : Forall sane h -> cleared h out -> granted h out \/ collision sha256.
Proof.
  intros Hs [(v & d & m & dec & ev & Ha) _]. pose proof Ha as [Hv Hd Hm Had [_ Hr] Hrec (em & ed & Ho & Hc & Hl)].
  assert (forall e, e ∈ [em; ed] -> sane e) as Hin.
  { intros e He. rewrite Forall_forall in Hs. apply Hs. eapply elem_of_submseteq, sublist_submseteq; [|exact Hl].
    set_solver. }
  assert (plainMapping m) as Hp by (eapply obtained_plain; [exact Ho|]; apply Hin; set_solver).
  assert (sane ed) as Hed by (apply Hin; set_solver).
  destruct (concluded_granted d m dec ed Hd Hp Hc Hed Hr) as [|]; [left|by right].
  by exists v, d, m, dec, ev.
Qed.

(** A decision entry an event adds. *)
Definition addsDecision (e : event) : option (string * cachedValue) :=
  match e with Did (CAdd DecisionsCache key value) _ => Some (key, value) | _ => None end.
Definition honest (h : list event) : Prop :=
  forall e key value, e ∈ h -> addsDecision e = Some (key, value) ->
    exists dec, value = CachedDecision dec /\ judged key dec.

Definition weighed (p : @phase R O) : Prop :=
  match p with
  | Mapped _ d m => plainMapping m
  | Decided _ d m dec true => plainMapping m /\ judged (decisionKey d m) dec
  | _ => True
  end.

Lemma background_adds_none {X} (c : call R O X) x : background c = true -> addsDecision (Did c x) = None.
Proof. by destruct c. Qed.

Lemma honest_snoc h e : honest h -> (forall key value, addsDecision e = Some (key, value) ->
  exists dec, value = CachedDecision dec /\ judged key dec) -> honest (h ++ [e]).
Proof. intros Hh He e' key value [Hin|Hin%list_elem_of_singleton]%elem_of_app; [by apply Hh|subst; auto]. Qed.

Lemma weighed_step h p e p' : reaches h p -> weighed p -> sane e -> step p e p' ->
  weighed p' /\ (forall key value, addsDecision e = Some (key, value) ->
    exists dec, value = CachedDecision dec /\ judged key dec).
Proof.
  intros Hr Hw He Hs. apply reaches_knows in Hr.
  destruct Hs; try (split; [exact I || exact Hw|]; intros key value E; discriminate E); cbn [knows] in Hr.
  - split; [done|]. rewrite background_adds_none by done. done.
  - split; [|done]. cbn. by apply (He m).
  - split; [|done]. cbn. by apply (He m).
  - split; [|done]. split; [done|]. destruct Hr as (_ & _ & Hd & Hm & _).
    exists d, m, (IamMapper.IamMapper.Returned dec). done.
  - split; [|done]. split; [done|]. destruct Hr as (_ & _ & Hd & Hm & _).
    exists d, m, IamMapper.IamMapper.Panicked. done.
  - split; [exact Hw|]. cbn. intros key value E. injection E as <- <-. exists dec. by destruct Hw.
Qed.

Lemma reaches_honest h p : reaches h p -> Forall sane h -> weighed p /\ honest h.
Proof.
  induction 1 as [|h p e p' Hr IH Hs]; intros Hall.
  - split; [done|]. intros e key value He. by apply not_elem_of_nil in He.
  - apply Forall_app in Hall as [Hh He]. apply Forall_cons in He as [He _]. destruct (IH Hh) as [Hw Hho].
    destruct (weighed_step h p e p' Hr Hw He Hs) as [? ?]. split; [done|]. by apply honest_snoc.
Qed.

(** ** The claims *)

Notation run := (wp policyWorld (handlePipeline R O fmtFloat sha256 hmac cfg method endpoint) []).
Lemma run_sane (Q : list event -> Prop) :
  (forall h p, reaches h p -> finished p -> Forall sane h -> Q h) -> run (fun h _ => Q h).
Proof.
  intros HQ. eapply wp_mono.
  - apply wp_sanely; [apply handlePipeline_follows|constructor].
  - intros h u [(p & Hr & Hf) Hs]. by eapply HQ.
Qed.

(** C3. With the policy engine behind the pipeline, a request is forwarded only
    if the policy grants it: for every requirement of the mapping that was made
    of the request, and every resource of it, some rule grants it and none
    denies it.  This holds when the decision is one the cache kept from another
    request of the run too, unless SHA-256 has a collision. *)
Theorem forwarded_granted :
  run (fun h _ => forall pre out a post, h = pre ++ Did (CRoundTrip out) a :: post ->
    granted pre out \/ collision sha256).
Proof.
  apply run_sane. intros h p Hr Hf Hs pre out a post E.
  destruct (finished_outcome _ _ _ _ _ _ _ h p Hr Hf) as (Ho & _ & _).
  destruct (sentOnce_split _ _ _ _ _ _ _ _ _ _ _ Ho E) as (Hc & _ & _).
  apply cleared_granted; [|done]. subst h. by apply Forall_app in Hs as [? _].
Qed.

(** C9. The decision cache stays honest: whatever a run adds to it, under any
    key, is a decision the engine reached (or the denial that stands for its
    panic) on a valid request of the endpoint and a valid mapping of it with
    that very key; so the cache's answers to later runs are again what the
    policy decided. *)
Theorem decisions_kept_honestly : run (fun h _ => honest h).
Proof. apply run_sane. intros h p Hr _ Hs. by apply (reaches_honest h p Hr Hs). Qed.
End Engine.

(** ** The denial for an engine failure *)

Section Failure.
Context {R O : Type} (cfg : Config) (key : string) (i : DecisionInput).
Notation event := (@event R O).
Notation anyWorld := (fun (X : Type) (_ : call R O X) (_ : X) => True).

(** What an event is to this: the engine asked, and panicking; a decision found
    in the cache, and one put there. *)
Definition asks (e : event) : bool := match e with Did (CEvaluate _) _ => true | _ => false end.
Definition panics (e : event) : bool :=
  match e with Did (CEvaluate _) IamMapper.IamMapper.Panicked => true | _ => false end.
Definition finds (e : event) : option Decision :=
  match e with Did (CGet DecisionsCache _) (Some (CachedDecision dec)) => Some dec | _ => None end.
Definition keeps (e : event) : option (string * cachedValue) :=
  match e with Did (CAdd DecisionsCache k value) _ => Some (k, value) | _ => None end.

(** The denial that stands for an engine's panic is remembered like a
    decision of the policy: when the engine panics, the internal denial is added
    to the decision cache under the request's key; and a request that finds it
    there is denied without the engine being asked. *)
Theorem panic_denial_is_remembered :
  wp anyWorld (obtainDecision R O cfg key i) [] (fun h dec => has_caches cfg = true ->
    (existsb panics h = true -> dec = failClosed /\ omap keeps h = [(key, CachedDecision failClosed)]) /\
    (omap finds h = [failClosed] -> dec = failClosed /\ existsb asks h = false)).
Proof.
  unfold obtainDecision, lookupDecision, remember, safeEvaluate.
  destruct (has_caches cfg); [|by intros t _ [dec|] _ el _ [] _; cbn -[Decision_Valid]; case_if].
  assert (Decision_Valid failClosed = true) as Hv by reflexivity. unfold failClosed in *.
  intros value _. destruct value as [[m|cached|]|]; cbn -[Decision_Valid]; [|destruct (Decision_Valid cached) eqn:Hf| |].
  2: { intros [] _ _. split; [intros E; discriminate E|]. intros E. by injection E as ->. }
  all: intros [] _ t _ [dec|] _ el _ [] _; cbn -[Decision_Valid]; rewrite ?Hv.
  all: repeat match goal with
    | |- context [if ?b then _ else _] => destruct b
    | |- wp _ (Vis _ _) _ _ => intros [] _; cbn -[Decision_Valid]
    | |- wp _ (mret _) _ _ => apply wp_ret
    | |- forall u : unit, _ => intros []
    | |- True -> _ => intros _
    | |- true = true -> _ => intros _; split; intros E; try discriminate E
    | |- _ /\ _ => split
    end; try reflexivity.
  all: injection E as ->; congruence.
Qed.
End Failure.
End PipelinePolicy.
