(* ===== verification/Connections.v ===== *)
(** * The proxy's connection slots (proxy/server.go)

    The accounting of client connections as a transition system: [connState],
    [trackConn], [untrackConn], [promoteHijackedConn] and the ends of the two
    CONNECT handlers, interleaved as their goroutines may be.  What runs under
    [s.mu] is one step; the receive from the slot channel and the gauge after it,
    which run outside the lock, are steps of their own. *)

From Stdlib Require Import ZArith Lia.
From stdpp Require Import base gmap sets list numbers.
From S2P Require Import Prelude.

Module Connections.

(** A [net.Conn] as a map key: the connection net/http owns, or the wrapper that
    stands for it once it is promoted. *)
Inductive conn := Raw (i : nat) | Promoted (i : nat).
#[export] Instance conn_eq_dec : EqDecision conn.
Proof. solve_decision. Defined.
#[export] Instance conn_countable : Countable conn.
Proof.
  apply (inj_countable' (fun c => match c with Raw i => inl i | Promoted i => inr i end)
           (fun s => match s with inl i => Raw i | inr i => Promoted i end)).
  by intros [].
Defined.

(** The fields of [Server] that the accounting uses, [promotedHijackedConn.closed]
    of every wrapper, and the two connection gauges. *)
Record server := mkServer {
  closed : bool; active : gset conn; slots : nat; wrapperClosed : gset nat;
  activeConnections : nat; peakConnections : nat;
}.

Section Accounting.
(** [cap(s.connectionSlots)]. *)
Context (cap : nat).

Definition isClosed (s : server) (i : nat) : bool := bool_decide (i ∈ wrapperClosed s).

Definition ConnectionStarted (s : server) : server :=
  mkServer (closed s) (active s) (slots s) (wrapperClosed s) (S (activeConnections s))
    (Nat.max (peakConnections s) (S (activeConnections s))).
Definition ConnectionFinished (s : server) : server :=
  mkServer (closed s) (active s) (slots s) (wrapperClosed s) (pred (activeConnections s)) (peakConnections s).

Definition withActive (s : server) (a : gset conn) : server :=
  mkServer (closed s) a (slots s) (wrapperClosed s) (activeConnections s) (peakConnections s).
Definition withSlots (s : server) (n : nat) : server :=
  mkServer (closed s) (active s) n (wrapperClosed s) (activeConnections s) (peakConnections s).

Definition trackConn (s : server) (c : conn) : server * bool :=
  if closed s then (s, false)
  else if bool_decide (c ∈ active s) then (s, true)
  else if (slots s <? cap)%nat
  then let s := ConnectionStarted (withSlots s (S (slots s))) in (withActive s ({[c]} ∪ active s), true)
  else (s, false).

(** [untrackConn] up to its unlock, and whether it goes on to the channel. *)
Definition untrackConn (s : server) (c : conn) : server * bool :=
  match c with
  | Promoted i => if negb (isClosed s i) then (s, false)
                  else if bool_decide (c ∈ active s) then (withActive s (active s ∖ {[c]}), true) else (s, false)
  | Raw _ => if bool_decide (c ∈ active s) then (withActive s (active s ∖ {[c]}), true) else (s, false)
  end.
(** The receive that follows; an empty channel is passed over. *)
Definition receiveSlot (s : server) : server * bool :=
  match slots s with O => (s, false) | S n => (withSlots s n, true) end.

Definition promoteHijackedConn (s : server) (i : nat) : server * conn :=
  if bool_decide (Raw i ∈ active s)
  then (withActive s ({[Promoted i]} ∪ active s ∖ {[Raw i]}), Promoted i) else (s, Raw i).

(** [promotedHijackedConn.Close]: only the first close goes on to untrack. *)
Definition closeWrapper (s : server) (i : nat) : server * bool :=
  if isClosed s i then (s, false)
  else (mkServer (closed s) (active s) (slots s) ({[i]} ∪ wrapperClosed s) (activeConnections s)
          (peakConnections s), true).

Definition CloseServer (s : server) : server :=
  mkServer true (active s) (slots s) (wrapperClosed s) (activeConnections s) (peakConnections s).

(** ** The life of a client connection

    net/http reports [StateNew] once, and then either [StateClosed] once or
    [StateHijacked], after which it reports nothing: a hijacked connection
    belongs to the handler. *)
Inductive phase :=
| Fresh                 (* accepted; the [StateNew] callback has not run *)
| Refused               (* the callback closed it *)
| Serving               (* net/http reads requests from it *)
| Hijacked (aws : bool) (* a CONNECT handler has it *)
| Abandoned             (* the handler has closed it and returned *)
| Tunnelled             (* [tunnel] relays *)
| Promoting             (* before [promoteHijackedConn] *)
| Intercepted           (* the nested server has the wrapper *)
| Closing (c : conn)    (* before [untrackConn] of this key *)
| Receiving             (* between the unlock and the receive *)
| Finishing             (* between the receive and the gauge *)
| Gone.

Record state := mkState { srv : server; phases : gmap nat phase }.
Definition at_phase (st : state) (i : nat) (p : phase) : Prop := phases st !! i = Some p.
Definition move (st : state) (s : server) (i : nat) (p : phase) : state := mkState s (<[i := p]> (phases st)).

Inductive step : state -> state -> Prop :=
| c_accept st i : phases st !! i = None -> step st (move st (srv st) i Fresh)
| c_new st i s ok : at_phase st i Fresh -> trackConn (srv st) (Raw i) = (s, ok) ->
    step st (move st s i (if ok then Serving else Refused))
| c_closed st i : at_phase st i Serving -> step st (move st (srv st) i (Closing (Raw i)))
| c_closed_refused st i s on : at_phase st i Refused -> untrackConn (srv st) (Raw i) = (s, on) ->
    step st (move st s i (if on then Receiving else Gone))
| c_hijack st i aws : at_phase st i Serving -> step st (move st (srv st) i (Hijacked aws))
(* [writeConnectEstablished] fails *)
| c_established_failed st i aws : at_phase st i (Hijacked aws) -> step st (move st (srv st) i Abandoned)
| c_established st i aws s ok : at_phase st i (Hijacked aws) -> trackConn (srv st) (Raw i) = (s, ok) ->
    step st (move st s i (if ok then (if aws then Promoting else Tunnelled) else Abandoned))
| c_tunnel_ends st i : at_phase st i Tunnelled -> step st (move st (srv st) i (Closing (Raw i)))
| c_promote st i s c : at_phase st i Promoting -> promoteHijackedConn (srv st) i = (s, c) ->
    step st (move st s i (if bool_decide (c = Promoted i) then Intercepted else Closing c))
(* [serveInterceptedTLS] returns, at any time: its deferred [untrackConn] *)
| c_listener_ends st i p s on : at_phase st i p -> p = Intercepted \/ p = Receiving \/ p = Finishing \/ p = Gone ->
    untrackConn (srv st) (Promoted i) = (s, on) -> step st (move st s i (if on then Receiving else p))
| c_wrapper_closed st i s : at_phase st i Intercepted -> closeWrapper (srv st) i = (s, true) ->
    step st (move st s i (Closing (Promoted i)))
| c_untrack st i c s on : at_phase st i (Closing c) -> untrackConn (srv st) c = (s, on) ->
    step st (move st s i (if on then Receiving else Gone))
| c_receive st i s on : at_phase st i Receiving -> receiveSlot (srv st) = (s, on) ->
    step st (move st s i (if on then Finishing else Gone))
| c_finished st i : at_phase st i Finishing -> step st (move st (ConnectionFinished (srv st)) i Gone)
| c_close st : step st (mkState (CloseServer (srv st)) (phases st)).

Definition initial : state := mkState (mkServer false ∅ 0 ∅ 0 0) ∅.
Definition reachable : state -> Prop := rtc step initial.

(** ** The invariant *)

Definition ident (c : conn) : nat := match c with Raw i | Promoted i => i end.

(** The key under which a phase keeps its connection in [active]. *)
Definition key (i : nat) (p : phase) : option conn :=
  match p with
  | Serving | Hijacked _ | Abandoned | Tunnelled | Promoting => Some (Raw i)
  | Intercepted => Some (Promoted i)
  | Closing c => Some c
  | _ => None
  end.
(** Whether the connection holds a slot, and whether it is still in the gauge. *)
Definition holds (p : phase) : nat :=
  match p with Fresh | Refused | Finishing | Gone => 0 | _ => 1 end.
Definition counted (p : phase) : nat := match p with Fresh | Refused | Gone => 0 | _ => 1 end.
Definition abandoned (p : phase) : nat := match p with Abandoned => 1 | _ => 0 end.

Definition tally (f : phase -> nat) (m : gmap nat phase) : nat := map_fold (fun _ p n => f p + n)%nat 0%nat m.

Lemma tally_split f m i : tally f m = (from_option f 0 (m !! i) + tally f (delete i m))%nat.
Proof.
  destruct (m !! i) as [p|] eqn:E; cbn; [|by rewrite delete_id].
  unfold tally. rewrite (map_fold_delete_L _ _ i p); [done| |done]. intros. lia.
Qed.
Lemma tally_insert f m i p : tally f (<[i := p]> m) = (f p + tally f (delete i m))%nat.
Proof. rewrite (tally_split f _ i), lookup_insert_eq. cbn. by rewrite delete_insert_eq. Qed.
Lemma tally_le f g m : (forall p, f p <= g p)%nat -> (tally f m <= tally g m)%nat.
Proof.
  intros H. unfold tally. induction m as [|i p m Hi Hf IH] using map_first_key_ind; [done|].
  rewrite !map_fold_insert_first_key by done. specialize (H p). lia.
Qed.

Definition keyed (m : gmap nat phase) (i : nat) : option conn := m !! i ≫= key i.

Record accounted (st : state) : Prop := {
  ac_active : forall c, c ∈ active (srv st) <-> keyed (phases st) (ident c) = Some c;
  ac_slots : slots (srv st) = tally holds (phases st);
  ac_cap : (slots (srv st) <= cap)%nat;
  ac_gauge : activeConnections (srv st) = tally counted (phases st);
  ac_closing : forall i c, at_phase st i (Closing c) -> ident c = i;
  ac_wrapper : forall i, i ∈ wrapperClosed (srv st) ->
    exists p, at_phase st i p /\ (p = Closing (Promoted i) \/ p = Receiving \/ p = Finishing \/ p = Gone);
  ac_closing_promoted : forall i, at_phase st i (Closing (Promoted i)) -> i ∈ wrapperClosed (srv st);
}.

(** A wrapper that has been closed is on its way out. *)
Definition late (i : nat) (p : phase) : Prop :=
  p = Closing (Promoted i) \/ p = Receiving \/ p = Finishing \/ p = Gone.

Lemma accounted_move st s i p :
  accounted st ->
  (forall c, ident c <> i -> c ∈ active s <-> c ∈ active (srv st)) ->
  (forall c, ident c = i -> c ∈ active s <-> key i p = Some c) ->
  (slots s + from_option holds 0%nat (phases st !! i) = slots (srv st) + holds p)%nat ->
  (slots s <= cap)%nat ->
  (activeConnections s + from_option counted 0%nat (phases st !! i) = activeConnections (srv st) + counted p)%nat ->
  (forall c, p = Closing c -> ident c = i) ->
  (forall j, j <> i -> j ∈ wrapperClosed s <-> j ∈ wrapperClosed (srv st)) ->
  (i ∈ wrapperClosed s -> late i p) -> (p = Closing (Promoted i) -> i ∈ wrapperClosed s) ->
  accounted (move st s i p).
Proof.
  intros [Ha Hs Hc Hg Hcl Hw Hcp] Hother Hown Hslots Hcap Hgauge Hid Hwo Hwi Hwp.
  rewrite (tally_split _ _ i) in Hs. rewrite (tally_split _ _ i) in Hg.
  split; cbn [srv phases move]; rewrite ?tally_insert; [|lia|done|lia| | |].
  - intros c. unfold keyed. destruct (decide (ident c = i)) as [E|E].
    + rewrite E, lookup_insert_eq. cbn. by apply Hown.
    + rewrite lookup_insert_ne by done. rewrite Hother by done. apply Ha.
  - intros j c. unfold at_phase. cbn. intros [[-> ->]|[_ H]]%lookup_insert_Some; [by apply Hid|by eapply Hcl].
  - intros j Hj. unfold at_phase. cbn. destruct (decide (j = i)) as [->|E].
    + exists p. rewrite lookup_insert_eq. split; [done|]. by apply Hwi.
    + rewrite lookup_insert_ne by done. apply Hw. by apply Hwo.
  - intros j. unfold at_phase. cbn. intros [[-> ->]|[E H]]%lookup_insert_Some; [by apply Hwp|].
    apply Hwo; [done|]. by apply Hcp.
Qed.

(** What is known of a connection in a phase that is not [late]. *)
Lemma not_late st i p : accounted st -> phases st !! i = p -> (forall q, p = Some q -> ~ late i q) ->
  i ∉ wrapperClosed (srv st).
Proof.
  intros Hac Hp Hn Hi. destruct (ac_wrapper st Hac i Hi) as (q & Hq & Hl).
  unfold at_phase in Hq. rewrite Hp in Hq. by eapply Hn.
Qed.

Lemma ident_own c i : ident c = i -> c = Raw i \/ c = Promoted i.
Proof. destruct c; cbn; intros ->; auto. Qed.

Lemma keyed_here st i p : at_phase st i p -> keyed (phases st) i = key i p.
Proof. unfold keyed, at_phase. by intros ->. Qed.

(** A step of the accounting that leaves the server alone. *)
Lemma accounted_stay st i p q :
  accounted st -> phases st !! i = p -> from_option holds 0%nat p = holds q ->
  from_option counted 0%nat p = counted q -> p ≫= key i = key i q -> (forall p', p = Some p' -> ~ late i p') ->
  (forall c, q = Closing c -> c = Raw i) -> accounted (move st (srv st) i q).
Proof.
  intros Hac Hp Hh Hc Hk Hl Hcl. pose proof (not_late st i p Hac Hp Hl) as Hw.
  apply accounted_move; rewrite ?Hp; try done; [|lia|by apply ac_cap|lia| |].
  - intros c Ec. rewrite (ac_active st Hac c), Ec. unfold keyed. by rewrite Hp, Hk.
  - intros c E. by rewrite (Hcl c E).
  - intros E. by specialize (Hcl _ E).
Qed.

Lemma trackConn_known s c : c ∈ active s -> trackConn s c = (s, negb (closed s)).
Proof. intros H. unfold trackConn. destruct (closed s); [done|]. by rewrite bool_decide_true. Qed.

Lemma untrackConn_spec s c s' on : untrackConn s c = (s', on) ->
  if on then c ∈ active s /\ s' = withActive s (active s ∖ {[c]}) /\ (forall i, c = Promoted i -> i ∈ wrapperClosed s)
  else s' = s /\ (c ∉ active s \/ exists i, c = Promoted i /\ i ∉ wrapperClosed s).
Proof.
  unfold untrackConn, isClosed. destruct c as [i|i]; intros E.
  - case_bool_decide; injection E as <- <-; auto. split_and!; [done..|]. intros j Ej. discriminate Ej.
  - case_bool_decide; cbn in E; [|injection E as <- <-; eauto].
    case_bool_decide; injection E as <- <-; auto. split_and!; [done..|]. intros j Ej. by injection Ej as <-.
Qed.

Lemma keyed_active st i p c : accounted st -> phases st !! i = Some p -> ident c = i ->
  c ∈ active (srv st) <-> key i p = Some c.
Proof. intros Hac Hp Hc. rewrite (ac_active st Hac c), Hc. unfold keyed. by rewrite Hp. Qed.

Lemma move_same st i p : phases st !! i = Some p -> move st (srv st) i p = st.
Proof. intros H. unfold move. rewrite insert_id by done. by destruct st. Qed.

(** Giving up the key of a connection that is closing. *)
Lemma accounted_release st i c : accounted st -> phases st !! i = Some (Closing c) ->
  accounted (move st (withActive (srv st) (active (srv st) ∖ {[c]})) i Receiving).
Proof.
  intros Hac Hp. pose proof (ac_closing st Hac i c Hp) as Hid.
  apply accounted_move; cbn [withActive slots active activeConnections wrapperClosed]; rewrite ?Hp; try done.
  - intros c' Hc'. rewrite elem_of_difference, elem_of_singleton. split; [by intros []|]. intros Hin.
    split; [done|]. by intros ->.
  - intros c' Hc'. rewrite elem_of_difference, elem_of_singleton.
    rewrite (keyed_active st i (Closing c) c' Hac Hp Hc'). cbn. split; [|done]. intros [E Hne]. by injection E as ->.
  - by apply ac_cap.
  - intros _. unfold late. auto.
Qed.

Lemma accounted_step st st' : accounted st -> step st st' -> accounted st'.
Proof.
  intros Hac Hs. destruct Hs; unfold at_phase in *;
    try solve [apply (accounted_stay _ _ _ _ Hac H); try done; unfold late; naive_solver].
  - (* StateNew *)
    unfold trackConn in H0. assert (Raw i ∉ active (srv st)) as Hn.
    { rewrite (keyed_active st i Fresh (Raw i) Hac H eq_refl). done. }
    rewrite bool_decide_false in H0 by done.
    destruct (closed (srv st)); [|destruct (Nat.ltb_spec (slots (srv st)) cap)]; injection H0 as <- <-.
    1,3: apply (accounted_stay _ _ _ _ Hac H); try done; unfold late; naive_solver.
    apply accounted_move; cbn; rewrite ?H; cbn; try done; try lia.
    + intros c Hc. set_solver.
    + intros c Hc. rewrite elem_of_union, elem_of_singleton, (keyed_active st i Fresh c Hac H Hc).
      cbn. split; [intros [->|]; done|]. intros E. injection E as <-. by left.
    + intros Hw. destruct (not_late st i _ Hac H); [|done]. unfold late. naive_solver.
  - (* a refused connection is closed *)
    apply untrackConn_spec in H0. destruct on.
    + destruct H0 as [Hin _]. by apply (keyed_active st i Refused (Raw i) Hac H eq_refl) in Hin.
    + destruct H0 as [-> _]. apply (accounted_stay _ _ _ _ Hac H); try done; unfold late; naive_solver.
  - (* the client has been told *)
    rewrite trackConn_known in H0 by (by rewrite (keyed_active st i _ (Raw i) Hac H eq_refl)).
    injection H0 as <- <-.
    destruct (closed (srv st)), aws; apply (accounted_stay _ _ _ _ Hac H); try done; unfold late; naive_solver.
  - (* promotion *)
    unfold promoteHijackedConn in H0. assert (Raw i ∈ active (srv st)) as Hin.
    { by apply (keyed_active st i _ (Raw i) Hac H eq_refl). }
    rewrite bool_decide_true in H0 by done. injection H0 as <- <-. rewrite bool_decide_true by done.
    assert (i ∉ wrapperClosed (srv st)) as Hw.
    { apply (not_late st i _ Hac H). unfold late. naive_solver. }
    apply accounted_move; cbn; rewrite ?H; cbn; try done; [| |by apply ac_cap].
    + intros c Hc. rewrite elem_of_union, elem_of_difference, !elem_of_singleton.
      split; [intros [->|[]]; done|]. intros Hc'. right. split; [done|]. intros E. by subst c.
    + intros c Hc. rewrite elem_of_union, elem_of_difference, !elem_of_singleton.
      rewrite (keyed_active st i _ c Hac H Hc). cbn. split; [|intros E; injection E as <-; by left].
      intros [->|[E Hne]]; [done|congruence].
  - (* the listener returns *)
    apply untrackConn_spec in H1. destruct on.
    + exfalso. destruct H1 as (Hin & _ & Hw).
      apply (keyed_active st i _ (Promoted i) Hac H eq_refl) in Hin.
      destruct H0 as [->|[->|[->| ->]]]; try done.
      destruct (not_late st i _ Hac H); [unfold late; naive_solver|]. by apply Hw.
    + destruct H1 as [-> _]. by rewrite move_same.
  - (* the wrapper is closed *)
    unfold closeWrapper, isClosed in H0. case_bool_decide; [done|]. injection H0 as <-.
    apply accounted_move; cbn; rewrite ?H; cbn; try done; [|by apply ac_cap| | | |].
    + intros c Hc. rewrite (keyed_active st i _ c Hac H Hc). done.
    + intros c E. by injection E as <-.
    + intros j Hj. set_solver.
    + intros _. unfold late. auto.
    + intros _. set_solver.
  - (* the key is given up *)
    pose proof (ac_closing st Hac i c H) as Hid.
    assert (c ∈ active (srv st)) as Hin by (by apply (keyed_active st i _ c Hac H Hid)).
    apply untrackConn_spec in H0. destruct on.
    + destruct H0 as (_ & -> & _). by apply accounted_release.
    + destruct H0 as [_ [|(j & -> & Hj)]]; [done|]. cbn in Hid. subst j. destruct Hj.
      by apply (ac_closing_promoted st Hac).
  - (* the receive *)
    assert (0 < slots (srv st))%nat as Hpos.
    { rewrite (ac_slots st Hac), (tally_split _ _ i), H. cbn. lia. }
    unfold receiveSlot in H0. destruct (slots (srv st)) as [|n] eqn:En; [lia|]. injection H0 as <- <-.
    pose proof (ac_cap st Hac). apply accounted_move; cbn; rewrite ?H; cbn; try done; try lia.
    + intros c Hc. rewrite (keyed_active st i _ c Hac H Hc). done.
    + intros _. unfold late. auto.
  - (* the gauge *)
    assert (0 < activeConnections (srv st))%nat as Hpos.
    { rewrite (ac_gauge st Hac), (tally_split _ _ i), H. cbn. lia. }
    apply accounted_move; cbn; rewrite ?H; cbn; try done; try lia; [|by apply ac_cap|].
    + intros c Hc. rewrite (keyed_active st i _ c Hac H Hc). done.
    + intros _. unfold late. auto.
  - by destruct Hac.
Qed.

Lemma accounted_initial : accounted initial.
Proof.
  split; cbn; unfold at_phase, keyed; cbn; try done; lia.
Qed.

Lemma reachable_accounted st : reachable st -> accounted st.
Proof.
  intros Hr. unfold reachable in Hr. eapply (rtc_ind_r (fun st => accounted st)); [| |exact Hr]; [apply accounted_initial|].
  intros. by eapply accounted_step.
Qed.

(** ** Abandoned connections *)

Lemma abandoned_step st st' i : step st st' -> at_phase st i Abandoned -> at_phase st' i Abandoned.
Proof.
  unfold at_phase. intros Hs Hi. destruct Hs; unfold at_phase in *; cbn; try done.
  all: rewrite lookup_insert_ne; [done|]; intros ->; rewrite Hi in H; try discriminate H.
  all: by destruct H0 as [->|[->|[->| ->]]].
Qed.
Lemma abandoned_stays st st' i : rtc step st st' -> at_phase st i Abandoned -> at_phase st' i Abandoned.
Proof. induction 1; [done|]. intros Hi. eauto using abandoned_step. Qed.

Lemma abandoned_tally n m : (forall i, (i < n)%nat -> m !! i = Some Abandoned) -> (n <= tally holds m)%nat.
Proof.
  revert m. induction n as [|n IH]; intros m Hm; [lia|].
  rewrite (tally_split _ _ n), (Hm n) by lia. cbn.
  assert (n <= tally holds (delete n m))%nat; [|lia].
  apply IH. intros i Hi. rewrite lookup_delete_ne by lia. apply Hm. lia.
Qed.

(** [n] connections, all abandoned. *)
Lemma all_abandoned n : (n <= cap)%nat -> exists st, reachable st /\ closed (srv st) = false /\ slots (srv st) = n /\
  (forall i, (i < n)%nat -> at_phase st i Abandoned) /\ (forall i, (n <= i)%nat -> phases st !! i = None).
Proof.
  induction n as [|n IH]; intros Hn.
  { exists initial. split_and!; try done; [apply rtc_refl|]. intros. lia. }
  destruct IH as (st & Hr & Hcl & Hsl & Hab & Hno); [lia|].
  pose proof (reachable_accounted st Hr) as Hac.
  assert (Raw n ∉ active (srv st)) as Hn'.
  { rewrite (ac_active st Hac). unfold keyed. cbn. by rewrite (Hno n). }
  set (st1 := move st (srv st) n Fresh).
  destruct (trackConn (srv st) (Raw n)) as [s ok] eqn:E.
  assert (ok = true /\ closed s = false /\ slots s = S n) as (-> & Hcl' & Hsl').
  { unfold trackConn in E. rewrite Hcl, bool_decide_false in E by done.
    destruct (Nat.ltb_spec (slots (srv st)) cap); [|lia]. injection E as <- <-. cbn. by rewrite Hcl, Hsl. }
  exists (move (move (move st1 s n Serving) s n (Hijacked true)) s n Abandoned).
  split.
  { eapply rtc_r; [eapply rtc_r; [eapply rtc_r; [eapply rtc_r; [exact Hr|]|]|]|].
    - by apply (c_accept st n), Hno.
    - apply (c_new st1 n s true); [|done]. apply lookup_insert_eq.
    - apply (c_hijack (move st1 s n Serving) n true). apply lookup_insert_eq.
    - apply (c_established_failed (move (move st1 s n Serving) s n (Hijacked true)) n true). apply lookup_insert_eq. }
  split_and!; cbn; try done.
  - intros i Hi. unfold at_phase. cbn. destruct (decide (i = n)) as [->|]; [by rewrite lookup_insert_eq|].
    rewrite !lookup_insert_ne by done. apply Hab. lia.
  - intros i Hi. rewrite !lookup_insert_ne by lia. apply Hno. lia.
Qed.

(** ** The claims *)

(** C29. Connection slots are accounted for: in every reachable state the slots
    taken are exactly those of the connections that hold one, never more than
    the channel has; every key of the active set is the one key of a connection
    in a phase that keeps it; and the gauge exceeds the slots only by the
    connections whose slot has just been received and whose gauge is about to be
    decremented. *)
Theorem connection_slots_accounted st : reachable st ->
  slots (srv st) = tally holds (phases st) /\ (slots (srv st) <= cap)%nat /\
  (forall c, c ∈ active (srv st) <-> keyed (phases st) (ident c) = Some c) /\
  activeConnections (srv st) = tally counted (phases st).
Proof. intros [Ha Hs Hc Hg _ _ _]%reachable_accounted. done. Qed.

(** A CONNECT whose acknowledgement cannot be written loses its slot: there
    is a reachable state in which no connection is alive, the server is not
    closed, and from which, whatever happens, every new connection is refused. *)
Theorem connection_slots_leak : exists st, reachable st /\ closed (srv st) = false /\
  (forall i p, at_phase st i p -> p = Abandoned) /\
  forall st' i, rtc step st st' -> at_phase st' i Fresh -> (trackConn (srv st') (Raw i)).2 = false.
Proof.
  destruct (all_abandoned cap) as (st & Hr & Hcl & _ & Hab & Hno); [lia|]. exists st. split_and!; [done..| |].
  - intros i p Hp. destruct (decide (i < cap)%nat) as [Hi|Hi].
    + apply Hab in Hi. unfold at_phase in *. congruence.
    + unfold at_phase in Hp. rewrite Hno in Hp by lia. done.
  - intros st' i Hs Hi. assert (reachable st') as Hr' by (unfold reachable in *; by etrans).
    pose proof (reachable_accounted st' Hr') as Hac.
    assert (cap <= slots (srv st'))%nat as Hfull.
    { rewrite (ac_slots st' Hac). apply abandoned_tally. intros j Hj.
      apply (abandoned_stays st st' j Hs). by apply Hab. }
    unfold trackConn. destruct (closed (srv st')); [done|]. rewrite bool_decide_false.
    + by destruct (Nat.ltb_spec (slots (srv st')) cap); [lia|].
    + intros Hin. by apply (keyed_active st' i Fresh (Raw i) Hac Hi eq_refl) in Hin.
Qed.
End Accounting.

(** Two connections and one slot: the second is refused. *)
Example one_slot : (trackConn 1 (trackConn 1 (srv initial) (Raw 0)).1 (Raw 1)).2 = false.
Proof. reflexivity. Qed.

Lemma connection_slots_accounted_witness :
  exists st, reachable 1 st /\ slots (srv st) = 1%nat /\
    (slots (srv st) = tally holds (phases st) /\ (slots (srv st) <= 1)%nat /\
     (forall c, c ∈ active (srv st) <-> keyed (phases st) (ident c) = Some c) /\
     activeConnections (srv st) = tally counted (phases st)).
Proof.
  set (st1 := move initial (srv initial) 0 Fresh).
  set (st2 := move st1 (trackConn 1 (srv initial) (Raw 0)).1 0 Serving).
  assert (reachable 1 st2) as Hr.
  { eapply rtc_r; [eapply rtc_r; [apply rtc_refl|]|].
    - by apply (c_accept 1 initial 0).
    - by apply (c_new 1 st1 0 _ true). }
  exists st2. split; [exact Hr|]. split; [reflexivity|]. exact (connection_slots_accounted 1 st2 Hr).
Defined.
End Connections.
