(* ===== verification/AuditWriter.v ===== *)
(** * The audit writer (audit/jsonl.go)

    The bounded queue, the writer goroutine, Write, Flush and Close as a
    transition system.  A step is what a goroutine does between two points where
    it may wait: for the mutex, for the queue, for a reply, or for the file.
    Opening the file and its path checks are the operating system's. *)

From Stdlib Require Import ZArith Lia Ascii.
From stdpp Require Import base gmap list strings.
From S2P Require Import Prelude GoStrings.
From S2P Require Import AwsTypes.
From S2P Require Import AuditEvent.

Module AuditWriter.
Import AuditEvent.AuditEvent.

(** [Options] after the defaults of [NewWriter]. *)
Record Options := mkOptions { QueueCapacity : Z; QueueSize : Z; BatchSize : Z; FsyncDecision : bool }.
Definition withDefaults (o : Options) : Options :=
  let capacity := if QueueCapacity o <=? 0 then QueueSize o else QueueCapacity o in
  let capacity := if capacity <=? 0 then 256 else capacity in
  mkOptions capacity (QueueSize o) (if BatchSize o <=? 0 then 32 else BatchSize o) (FsyncDecision o).

Inductive werr := ErrInvalid (e : error) | ErrWriterFailed | ErrClosed | ErrBackpressure | ErrContext.

(** [writerItem]: the channel of a barrier is named by its flush. *)
Inductive item := IEvent (e : Event) | IBarrier (f : nat).

(** Where the writer goroutine is; [drain] tells [drain]'s loop from [loop]'s. *)
Inductive lpc :=
| LIdle                              (* at the select *)
| LBarrier (f : nat) (drain : bool)  (* has a barrier; before [w.Failed()] *)
| LBarrierSync (f : nat) (drain : bool)
| LWriting (e : Event) (drain : bool)
| LSync                              (* a batch or a decision is to be synced *)
| LDrain
| LDrainSync
| LFail (lost : list Event)          (* before the lock of [fail]; the event that was not written *)
| LExited (lost : list Event).

(** Where a call of [Flush] is; [bounded] tells whether its context may end. *)
Inductive fpc :=
| FWaiting (bounded : bool)    (* before the lock *)
| FSending (bounded : bool)    (* has the lock; before the send *)
| FAwaiting (bounded : bool)   (* has sent its barrier *)
| FFailing                     (* its barrier failed; before the lock of [fail] *)
| FDone (r : option werr).

Record wstate := mkW {
  queue : list item; mu : option nat; failed : bool; closed : bool; loop : lpc; batch : Z; file : string;
  replies : gmap nat bool; flushes : gmap nat fpc;
  (* what the history of calls amounts to *)
  accepted : list Event; written : list Event; synced : nat; marks : gmap nat nat;
}.

Definition opened : wstate := mkW [] None false false LIdle 0 EmptyString ∅ ∅ [] [] 0 ∅.

Section Writer.
(** The options in force, and what [MarshalJSON] makes of an event. *)
Context (o : Options) (MarshalJSON : Event -> option string).

Notation full q := (QueueCapacity o <=? Z.of_nat (List.length q)).

Definition withQueue (w : wstate) (q : list item) (a : list Event) : wstate :=
  mkW q (mu w) (failed w) (closed w) (loop w) (batch w) (file w) (replies w) (flushes w) a (written w) (synced w) (marks w).
Definition withMu (w : wstate) (m : option nat) : wstate :=
  mkW (queue w) m (failed w) (closed w) (loop w) (batch w) (file w) (replies w) (flushes w) (accepted w) (written w)
    (synced w) (marks w).
Definition withLoop (w : wstate) (l : lpc) : wstate :=
  mkW (queue w) (mu w) (failed w) (closed w) l (batch w) (file w) (replies w) (flushes w) (accepted w) (written w)
    (synced w) (marks w).
Definition withBatch (w : wstate) (b : Z) : wstate :=
  mkW (queue w) (mu w) (failed w) (closed w) (loop w) b (file w) (replies w) (flushes w) (accepted w) (written w)
    (synced w) (marks w).
Definition withFlush (w : wstate) (f : nat) (p : fpc) : wstate :=
  mkW (queue w) (mu w) (failed w) (closed w) (loop w) (batch w) (file w) (replies w) (<[f := p]> (flushes w))
    (accepted w) (written w) (synced w) (marks w).
Definition fail (w : wstate) : wstate :=
  mkW (queue w) (mu w) true (closed w) (loop w) (batch w) (file w) (replies w) (flushes w) (accepted w) (written w)
    (synced w) (marks w).

(** [Write], given the lock. *)
Definition Write (w : wstate) (e : Event) : wstate * option werr :=
  match Event_Validate e with
  | Some err => (w, Some (ErrInvalid err))
  | None =>
    if failed w then (w, Some ErrWriterFailed)
    else if closed w then (w, Some ErrClosed)
    else if full (queue w) then (w, Some ErrBackpressure)
    else (withQueue w (queue w ++ [IEvent e]) (accepted w ++ [e]), None)
  end.

(** ** Flush *)

(** From the lock to the send. *)
Definition flushLock (w : wstate) (f : nat) (bounded : bool) : wstate :=
  if failed w then withFlush w f (FDone (Some ErrWriterFailed))
  else if closed w then withFlush w f (FDone (Some ErrClosed))
  else withFlush (withMu w (Some f)) f (FSending bounded).
Definition flushSend (w : wstate) (f : nat) (bounded : bool) : option wstate :=
  if full (queue w) then None
  else
    let w := withFlush (withMu (withQueue w (queue w ++ [IBarrier f]) (accepted w)) None) f (FAwaiting bounded) in
    Some (mkW (queue w) (mu w) (failed w) (closed w) (loop w) (batch w) (file w) (replies w) (flushes w)
            (accepted w) (written w) (synced w) (<[f := List.length (accepted w)]> (marks w))).
(** What a reply, or the end of the loop, makes of the call. *)
Definition flushReply (w : wstate) (f : nat) (ok : bool) : wstate :=
  withFlush w f (if ok then FDone None else FFailing).
Definition flushDone (w : wstate) (f : nat) : wstate :=
  withFlush w f (FDone (Some (if failed w then ErrWriterFailed else ErrClosed))).

(** ** The writer goroutine *)

Definition next (drain : bool) : lpc := if drain then LDrain else LIdle.

(** A received item. *)
Definition take (w : wstate) (it : item) (q : list item) (drain : bool) : wstate :=
  withLoop (withQueue w q (accepted w))
    (match it with IEvent e => LWriting e drain | IBarrier f => LBarrier f drain end).
Definition reply (w : wstate) (f : nat) (ok drain : bool) : wstate :=
  let w := withLoop w (next drain) in
  mkW (queue w) (mu w) (failed w) (closed w) (loop w) (batch w) (file w) (<[f := ok]> (replies w)) (flushes w)
    (accepted w) (written w) (synced w) (marks w).
(** A [Sync] that succeeds makes what is written durable. *)
Definition durable (w : wstate) : wstate :=
  mkW (queue w) (mu w) (failed w) (closed w) (loop w) (batch w) (file w) (replies w) (flushes w) (accepted w)
    (written w) (List.length (written w)) (marks w).

Definition newline : string := String (chr 10) EmptyString.
Definition append (w : wstate) (data : string) : wstate :=
  mkW (queue w) (mu w) (failed w) (closed w) (loop w) (batch w) (file w ++ data)%string (replies w) (flushes w)
    (accepted w) (written w) (synced w) (marks w).
Definition record (w : wstate) (e : Event) : wstate :=
  mkW (queue w) (mu w) (failed w) (closed w) (loop w) (batch w) (file w) (replies w) (flushes w) (accepted w)
    (written w ++ [e]) (synced w) (marks w).

(** [loop] after an event is written: when to sync. *)
Definition afterWrite (w : wstate) (e : Event) : wstate :=
  let w := withBatch w (batch w + 1) in
  if FsyncDecision o && (ev_EventType e =? RequestDecision)%string then withLoop w LSync
  else if BatchSize o <=? batch w then withLoop w LSync
  else withLoop w LIdle.
(** [writeOne] succeeds. *)
Definition wrote (w : wstate) (e : Event) (data : string) (drain : bool) : wstate :=
  let w := record (append w (data ++ newline)) e in
  if drain then withLoop w LDrain else afterWrite w e.

(** [Close] up to its wait. *)
Definition Close (w : wstate) : wstate :=
  mkW (queue w) (mu w) (failed w) true (loop w) (batch w) (file w) (replies w) (flushes w) (accepted w) (written w)
    (synced w) (marks w).

(** ** The steps *)

Inductive step : wstate -> wstate -> Prop :=
| s_write w e : mu w = None -> step w (Write w e).1
| s_flush w f bounded : flushes w !! f = None -> step w (withFlush w f (FWaiting bounded))
| s_flush_lock w f bounded : flushes w !! f = Some (FWaiting bounded) -> mu w = None -> step w (flushLock w f bounded)
| s_flush_send w f bounded w' : flushes w !! f = Some (FSending bounded) -> flushSend w f bounded = Some w' -> step w w'
| s_flush_unsent w f : flushes w !! f = Some (FSending true) ->
    step w (withFlush (withMu w None) f (FDone (Some ErrContext)))
| s_flush_reply w f bounded ok : flushes w !! f = Some (FAwaiting bounded) -> replies w !! f = Some ok ->
    step w (flushReply w f ok)
| s_flush_failed w f : flushes w !! f = Some FFailing -> mu w = None ->
    step w (withFlush (fail w) f (FDone (Some ErrWriterFailed)))
| s_flush_done w f bounded lost : flushes w !! f = Some (FAwaiting bounded) -> loop w = LExited lost -> mu w = None ->
    step w (flushDone w f)
| s_flush_cancelled w f : flushes w !! f = Some (FAwaiting true) -> step w (withFlush w f (FDone (Some ErrContext)))
| s_close w : mu w = None -> closed w = false -> step w (Close w)
| s_take w it q : loop w = LIdle -> queue w = it :: q -> step w (take w it q false)
| s_tick w : loop w = LIdle -> 0 < batch w -> step w (withLoop w LSync)
| s_stop w : loop w = LIdle -> closed w = true -> step w (withLoop w LDrain)
| s_barrier w f drain : loop w = LBarrier f drain -> mu w = None ->
    step w (if failed w then reply w f false drain else withLoop w (LBarrierSync f drain))
| s_barrier_synced w f drain : loop w = LBarrierSync f drain -> step w (reply (durable w) f true drain)
| s_barrier_unsynced w f drain : loop w = LBarrierSync f drain -> step w (reply w f false drain)
| s_unmarshalled w e drain : loop w = LWriting e drain -> MarshalJSON e = None -> step w (withLoop w (LFail [e]))
| s_wrote w e drain data : loop w = LWriting e drain -> MarshalJSON e = Some data -> step w (wrote w e data drain)
(* the write fails, or is short, after part of the line *)
| s_unwritten w e drain data part rest : loop w = LWriting e drain -> MarshalJSON e = Some data ->
    (data ++ newline = part ++ rest)%string -> step w (withLoop (append w part) (LFail [e]))
| s_synced w : loop w = LSync -> step w (withLoop (withBatch (durable w) 0) LIdle)
| s_unsynced w : loop w = LSync -> step w (withLoop w (LFail []))
| s_drain w it q : loop w = LDrain -> queue w = it :: q -> step w (take w it q true)
| s_drained w : loop w = LDrain -> queue w = [] -> step w (withLoop w LDrainSync)
| s_drain_synced w : loop w = LDrainSync -> step w (withLoop (durable w) (LExited []))
| s_drain_unsynced w : loop w = LDrainSync -> step w (withLoop w (LFail []))
| s_fail w lost : loop w = LFail lost -> mu w = None -> step w (withLoop (fail w) (LExited lost)).

Definition reachable : wstate -> Prop := rtc step opened.

(** ** The invariant *)

(** The accepted events that have left the queue and are not in the file. *)
Definition inHand (l : lpc) : list Event :=
  match l with LWriting e _ => [e] | LFail lost | LExited lost => lost | _ => [] end.
Definition eventOf (it : item) : option Event := match it with IEvent e => Some e | IBarrier _ => None end.
Definition events (q : list item) : list Event := omap eventOf q.
Definition lineOf (e : Event) : string := match MarshalJSON e with Some data => (data ++ newline)%string | None => EmptyString end.
Definition lines (es : list Event) : string := foldr (fun e s => (lineOf e ++ s)%string) EmptyString es.
Definition isDecision (e : Event) : bool := (ev_EventType e =? RequestDecision)%string.
(** The events that a crash could lose. *)
Definition volatile (w : wstate) : list Event := drop (synced w) (written w).

(** Whether the goroutine still runs [loop]'s select. *)
Definition looping (l : lpc) : bool :=
  match l with LIdle | LBarrier _ false | LBarrierSync _ false | LWriting _ false => true | _ => false end.

(** Whether it has seen the stop. *)
Definition draining (l : lpc) : bool :=
  match l with
  | LDrain | LDrainSync | LBarrier _ true | LBarrierSync _ true | LWriting _ true => true
  | _ => false
  end.

(** The flush that owns a barrier. *)
Definition barrierOf (l : lpc) : option nat := match l with LBarrier f _ | LBarrierSync f _ => Some f | _ => None end.

Record ordered (w : wstate) : Prop := {
  o_bound : Z.of_nat (List.length (queue w)) <= QueueCapacity o;
  o_fifo : accepted w = written w ++ inHand (loop w) ++ events (queue w);
  o_file : exists part, file w = (lines (written w) ++ part)%string /\
    ((forall lost, loop w = LFail lost \/ loop w = LExited lost -> lost = []) -> part = EmptyString);
  o_synced : (synced w <= List.length (written w))%nat;
  o_batch : looping (loop w) = true -> batch w < BatchSize o /\ Z.of_nat (List.length (volatile w)) <= batch w /\
    (FsyncDecision o = true -> forallb (fun e => negb (isDecision e)) (volatile w) = true);
  o_exit : forall lost, loop w = LExited lost ->
    failed w = true \/ (lost = [] /\ closed w = true /\ queue w = [] /\ volatile w = []);
  o_drain : draining (loop w) = true -> closed w = true;
  o_drained : loop w = LDrainSync -> queue w = [];
}.
(** Only a flush at its send keeps the lock, and the writer is open then. *)
Record locked (w : wstate) : Prop := {
  l_mu : forall f, mu w = Some f <-> exists b, flushes w !! f = Some (FSending b);
  l_open : mu w <> None -> closed w = false;
}.

Lemma locked_same w w' : locked w -> mu w' = mu w -> flushes w' = flushes w -> closed w' = closed w -> locked w'.
Proof. intros [H1 H2] E1 E2 E3. split; rewrite E1, ?E2, ?E3; done. Qed.

Lemma locked_flush w f p m : locked w ->
  (forall g, g <> f -> m = Some g <-> mu w = Some g) -> (m = Some f <-> exists b, p = FSending b) ->
  (m <> None -> closed w = false) -> locked (withFlush (withMu w m) f p).
Proof.
  intros [H1 H2] Hne Hf Hc. split; cbn; [|done]. intros g. destruct (decide (g = f)) as [->|E].
  - rewrite lookup_insert_eq, Hf. split; intros [b Hb]; exists b; congruence.
  - rewrite lookup_insert_ne by done. by rewrite Hne, H1.
Qed.

Lemma withMu_same w : withMu w (mu w) = w.
Proof. by destruct w. Qed.

(** A flush that neither takes nor has the lock moves on. *)
Lemma locked_move w f p : locked w -> (forall b, flushes w !! f <> Some (FSending b)) -> (forall b, p <> FSending b) ->
  locked (withFlush w f p).
Proof.
  intros Hl Hn Hp. rewrite <-(withMu_same w) at 1. apply locked_flush; [done|done| |by apply (l_open w)].
  split; [|by intros [b Hb]; destruct (Hp b)]. intros [b Hb]%(l_mu w Hl). by destruct (Hn b).
Qed.

Lemma Write_same w e : mu (Write w e).1 = mu w /\ flushes (Write w e).1 = flushes w /\ closed (Write w e).1 = closed w.
Proof. unfold Write. destruct (Event_Validate e); [done|]. by repeat (case_if; [done|]). Qed.

Lemma wrote_same w e data drain : mu (wrote w e data drain) = mu w /\ flushes (wrote w e data drain) = flushes w /\
  closed (wrote w e data drain) = closed w.
Proof. unfold wrote, afterWrite. destruct drain; [done|]. cbn. by repeat (case_if; [done|]). Qed.

Lemma locked_step w w' : locked w -> step w w' -> locked w'.
Proof.
  intros Hl Hs. destruct Hs; try solve [apply (locked_same w); done];
    try solve [apply locked_move; [done|intros b; congruence|done]].
  - destruct (Write_same w e) as (? & ? & ?). by apply (locked_same w).
  - unfold flushLock. case_if; [apply locked_move; [done|intros b; congruence|done]|].
    case_if; [apply locked_move; [done|intros b; congruence|done]|].
    apply locked_flush; [done| |naive_solver|done]. intros g Hg. rewrite H0. naive_solver.
  - unfold flushSend in H0. case_if; [done|]. injection H0 as <-.
    apply (locked_same (withFlush (withMu w None) f (FAwaiting bounded))); [|done..].
    apply locked_flush; [done| |naive_solver|done]. intros g Hg.
    assert (mu w = Some f) as -> by (apply (l_mu w Hl); eauto). naive_solver.
  - apply locked_flush; [done| |naive_solver|done]. intros g Hg.
    assert (mu w = Some f) as -> by (apply (l_mu w Hl); eauto). naive_solver.
  - unfold flushReply. apply locked_move; [done|intros b; congruence|]. by destruct ok.
  - apply (locked_same (withFlush w f (FDone (Some ErrWriterFailed)))); [|done..].
    apply locked_move; [done|intros b; congruence|done].
  - split; [by apply (l_mu w)|]. by intros [].
  - case_if; by apply (locked_same w).
  - destruct (wrote_same w e data drain) as (? & ? & ?). by apply (locked_same w).
Qed.

(** ** Order and durability *)

Lemma events_app q1 q2 : events (q1 ++ q2) = events q1 ++ events q2.
Proof. apply omap_app. Qed.
Lemma lines_app es e : lines (es ++ [e]) = (lines es ++ lineOf e)%string.
Proof.
  unfold lines. induction es as [|x es IH]; cbn; [by rewrite str_app_nil_r|]. by rewrite IH, str_app_assoc.
Qed.

(** The parts of the state that order and durability depend on. *)
Lemma ordered_same w w' : ordered w ->
  queue w' = queue w -> loop w' = loop w -> batch w' = batch w -> file w' = file w -> accepted w' = accepted w ->
  written w' = written w -> synced w' = synced w -> (closed w = true -> closed w' = true) ->
  (failed w = true -> failed w' = true) -> ordered w'.
Proof.
  intros [H1 H2 H3 H4 H5 H6 H7 H8] E1 E2 E3 E4 E5 E6 E7 Ec Ef.
  split; unfold volatile in *; rewrite ?E1, ?E2, ?E3, ?E4, ?E5, ?E6, ?E7; auto.
  intros lost Hl. destruct (H6 lost Hl) as [|(? & ? & ? & ?)]; auto.
Qed.
(** Splits on where the goroutine may be. *)
Ltac pcs :=
  intros; repeat match goal with
  | H : _ \/ _ |- _ => destruct H
  | H : _ /\ _ |- _ => destruct H
  | H : exists _, _ |- _ => destruct H
  | H : ?a = ?b :> lpc |- _ => discriminate H
  | H : LFail _ = LFail _ |- _ => injection H as ?
  | H : LExited _ = LExited _ |- _ => injection H as ?
  end.

Hypothesis Hcap : 0 < QueueCapacity o.
Hypothesis Hbatch : 0 < BatchSize o.

Lemma ordered_opened : ordered opened.
Proof.
  split; cbn; try done; try lia; try solve [pcs].
  by exists EmptyString.
Qed.

(** An item is taken: an event is in hand, or the barrier's events are written. *)
Lemma ordered_take w it q drain : ordered w -> loop w = next drain -> queue w = it :: q -> ordered (take w it q drain).
Proof.
  intros [H1 H2 H3 H4 H5 H6 H7 H8] Hl Hq. rewrite Hl, Hq in *.
  split; cbn.
  - cbn in H1. lia.
  - rewrite H2. by destruct drain, it.
  - destruct H3 as (part & -> & Hp). exists part. split; [done|]. intros _. apply Hp. destruct drain; pcs.
  - done.
  - destruct drain, it; try done; auto.
  - intros lost. by destruct it.
  - destruct drain, it; try done; auto.
  - by destruct it.
Qed.

(** A phase change that takes no event and leaves the file. *)
Lemma ordered_loop w l : ordered w -> inHand l = inHand (loop w) ->
  (forall lost, loop w = LFail lost \/ loop w = LExited lost -> lost = []) ->
  (looping l = true -> batch w < BatchSize o /\ Z.of_nat (List.length (volatile w)) <= batch w /\
    (FsyncDecision o = true -> forallb (fun e => negb (isDecision e)) (volatile w) = true)) ->
  (forall lost, l <> LExited lost) ->
  (draining l = true -> closed w = true) ->
  (l = LDrainSync -> queue w = []) -> ordered (withLoop w l).
Proof.
  intros [H1 H2 H3 H4 H5 H6 H7 H8] Hh Hp Hb He Hd Hq. split; cbn; try done.
  - by rewrite H2, Hh.
  - destruct H3 as (part & -> & Hp'). exists part. split; [done|]. intros _. by apply Hp'.
  - intros lost Hl. by destruct (He lost).
Qed.

(** What is written is made durable. *)
Lemma ordered_durable w : ordered w -> ordered (durable w).
Proof.
  intros [H1 H2 H3 H4 H5 H6 H7 H8]. assert (volatile (durable w) = []) as Hv.
  { unfold volatile. cbn. apply drop_all. }
  split; rewrite ?Hv; cbn; try done.
  - intros Hl. destruct (H5 Hl) as (? & ? & _). split_and!; [done| |done]. lia.
  - intros lost Hl. destruct (H6 lost Hl) as [|(? & ? & ? & _)]; [by left|]. right. by split_and!.
Qed.

Lemma ordered_lost w e data part rest drain : ordered w -> loop w = LWriting e drain ->
  (data ++ newline = part ++ rest)%string -> ordered (withLoop (append w part) (LFail [e])).
Proof.
  intros [H1 H2 H3 H4 H5 H6 H7 H8] Hl _. rewrite Hl in *. split; cbn; try done; try solve [pcs].
  destruct H3 as (part' & -> & Hp). rewrite Hp by pcs. exists part.
  rewrite str_app_nil_r. split; [done|]. intros Hlost. by discriminate (Hlost [e] (or_introl eq_refl)).
Qed.

Lemma volatile_record w e : (synced w <= List.length (written w))%nat -> volatile (record w e) = volatile w ++ [e].
Proof. intros H. unfold volatile. cbn. by rewrite drop_app_le. Qed.

(** A state with nothing in hand and no torn line. *)
Lemma ordered_settled w l b :
  Z.of_nat (List.length (queue w)) <= QueueCapacity o -> accepted w = written w ++ events (queue w) ->
  file w = lines (written w) -> (synced w <= List.length (written w))%nat ->
  l = LSync \/ l = LIdle \/ (l = LDrain /\ closed w = true) ->
  (l = LIdle -> b < BatchSize o /\ Z.of_nat (List.length (volatile w)) <= b /\
    (FsyncDecision o = true -> forallb (fun e => negb (isDecision e)) (volatile w) = true)) ->
  ordered (withLoop (withBatch w b) l).
Proof.
  intros Hq Ha Hf Hs Hl Hb.
  split; cbn; try done; try solve [pcs; first [congruence | by subst]].
  - exists EmptyString. by rewrite str_app_nil_r.
  - intros Hlo. apply Hb. by destruct Hl as [->|[->|[-> ?]]].
Qed.

Lemma ordered_wrote w e data drain : ordered w -> loop w = LWriting e drain -> MarshalJSON e = Some data ->
  ordered (wrote w e data drain).
Proof.
  intros Ho Hl Hm. pose proof Ho as [H1 H2 H3 H4 H5 H6 H7 H8].
  set (w1 := record (append w (data ++ newline)) e).
  assert (volatile w1 = volatile w ++ [e]) as Hv by (by apply (volatile_record (append w (data ++ newline)) e)).
  assert (file w1 = lines (written w1)) as Hf.
  { destruct H3 as (part & Hf & Hp). cbn.
    rewrite Hf, (Hp ltac:(rewrite Hl; pcs)), lines_app, !str_app_nil_r.
    unfold lineOf. by rewrite Hm. }
  assert (accepted w1 = written w1 ++ events (queue w1)) as Ha.
  { cbn. rewrite H2, Hl. cbn. by rewrite <-app_assoc. }
  assert (synced w1 <= List.length (written w1))%nat as Hs by (cbn; rewrite length_app; cbn; lia).
  unfold wrote. fold w1. destruct drain.
  - change (withLoop w1 LDrain) with (withLoop (withBatch w1 (batch w1)) LDrain).
    apply ordered_settled; try done. right. right. split; [done|]. apply H7. by rewrite Hl.
  - rewrite Hl in H5. destruct (H5 eq_refl) as (Hb & Hn & Hd).
    unfold afterWrite. cbn [batch withBatch].
    destruct (FsyncDecision o && _) eqn:Hc; [apply ordered_settled; auto; done|].
    destruct (Z.leb_spec (BatchSize o) (batch w1 + 1)); apply ordered_settled; auto; [done|]. intros _.
    split_and!; [done|rewrite Hv, length_app; cbn; lia|].
    intros Hfs. rewrite Hfs in Hc. cbn in Hc. rewrite Hv, forallb_app, (Hd Hfs). cbn. unfold isDecision. by rewrite Hc.
Qed.

Lemma ordered_write w e : locked w -> ordered w -> mu w = None -> ordered (Write w e).1.
Proof.
  intros Hl Ho Hm. unfold Write. destruct (Event_Validate e); [done|].
  destruct (failed w) eqn:Ef; [done|]. destruct (closed w) eqn:Ec; [done|].
  destruct (Z.leb_spec (QueueCapacity o) (Z.of_nat (List.length (queue w)))); [done|].
  destruct Ho as [H1 H2 H3 H4 H5 H6 H7 H8]. split; cbn; try done.
  - rewrite length_app. cbn. lia.
  - by rewrite H2, events_app, <-!app_assoc.
  - intros lost Hlo. destruct (H6 lost Hlo) as [|(_ & ? & _)]; congruence.
  - intros Hlo. rewrite H7 in Ec by (by rewrite Hlo). done.
Qed.

Lemma ordered_send w f bounded w' : locked w -> ordered w -> flushes w !! f = Some (FSending bounded) ->
  flushSend w f bounded = Some w' -> ordered w'.
Proof.
  intros Hl Ho Hf Hs. unfold flushSend in Hs.
  destruct (Z.leb_spec (QueueCapacity o) (Z.of_nat (List.length (queue w)))); [done|]. injection Hs as <-.
  assert (closed w = false) as Hc.
  { apply (l_open w Hl). assert (mu w = Some f) as -> by (apply (l_mu w Hl); eauto). done. }
  destruct Ho as [H1 H2 H3 H4 H5 H6 H7 H8]. split; cbn; try done.
  - rewrite length_app. cbn. lia.
  - by rewrite H2, events_app, !app_nil_r.
  - intros lost Hlo. destruct (H6 lost Hlo) as [|(_ & ? & _)]; [by left|congruence].
  - intros Hlo. rewrite H7 in Hc by (by rewrite Hlo). done.
Qed.

Lemma ordered_step w w' : locked w -> ordered w -> step w w' -> ordered w'.
Proof.
  intros Hl Ho Hs. destruct Hs; try solve [apply (ordered_same w); done].
  - by apply ordered_write.
  - unfold flushLock. repeat (case_if; [by apply (ordered_same w)|]). by apply (ordered_same w).
  - by eapply ordered_send.
  - by eapply (ordered_take w it q false).
  - apply ordered_loop; rewrite ?H; try done; pcs.
  - apply ordered_loop; rewrite ?H; try done; pcs.
  - assert (ordered (withLoop w (if failed w then next drain else LBarrierSync f drain))) as Hn.
    { pose proof (o_batch w Ho) as Hb. pose proof (o_drain w Ho) as Hd. rewrite H in Hb, Hd.
      apply ordered_loop; rewrite ?H; try done; destruct (failed w), drain; solve [pcs | auto]. }
    destruct (failed w) eqn:Ef; [|done]. by apply (ordered_same (withLoop w (next drain))).
  - apply (ordered_same (withLoop (durable w) (next drain))); try done.
    pose proof (ordered_durable w Ho) as Hw. pose proof (o_batch _ Hw) as Hb. pose proof (o_drain _ Hw) as Hd.
    cbn [loop durable] in Hb, Hd. rewrite H in Hb, Hd.
    apply ordered_loop; cbn [loop durable]; rewrite ?H; try done; destruct drain; solve [pcs | auto].
  - apply (ordered_same (withLoop w (next drain))); try done.
    pose proof (o_batch w Ho) as Hb. pose proof (o_drain w Ho) as Hd. rewrite H in Hb, Hd.
    apply ordered_loop; rewrite ?H; try done; destruct drain; solve [pcs | auto].
  - destruct (o_file w Ho) as (part & Hf & Hp). rewrite Hp in Hf by (rewrite H; pcs).
    destruct Ho as [H1 H2 H3 H4 H5 H6 H7 H8]. rewrite H in *. split; cbn; try done; try solve [pcs].
    by exists EmptyString.
  - by apply ordered_wrote.
  - by eapply ordered_lost.
  - (* a sync *)
    pose proof (ordered_durable w Ho) as Hw.
    destruct (o_file w Ho) as (part & Hf & Hp). rewrite Hp in Hf by (rewrite H; pcs).
    apply ordered_settled; try apply Hw; auto.
    + cbn. by rewrite (o_fifo w Ho), H.
    + cbn. by rewrite Hf, str_app_nil_r.
    + intros _. unfold volatile. cbn. rewrite drop_all. split_and!; [done|cbn; lia|done].
  - destruct (o_file w Ho) as (part & Hf & Hp). rewrite Hp in Hf by (rewrite H; pcs).
    destruct Ho as [H1 H2 H3 H4 H5 H6 H7 H8]. rewrite H in *. split; cbn; try done; try solve [pcs].
    by exists EmptyString.
  - by eapply (ordered_take w it q true).
  - pose proof (o_drain w Ho) as Hd. rewrite H in Hd. apply ordered_loop; rewrite ?H; try done; pcs.
  - pose proof (ordered_durable w Ho) as [H1 H2 H3 H4 H5 H6 H7 H8].
    cbn [loop durable file queue accepted written closed] in *. rewrite H in *.
    split; cbn; try done; try solve [pcs].
    + destruct H3 as (part & -> & Hp). exists part. split; [done|]. intros _. apply Hp. pcs.
    + intros lost E. injection E as <-. right. split_and!; auto. unfold volatile. cbn. apply drop_all.
  - destruct (o_file w Ho) as (part & Hf & Hp). rewrite Hp in Hf by (rewrite H; pcs).
    destruct Ho as [H1 H2 H3 H4 H5 H6 H7 H8]. rewrite H in *. split; cbn; try done; try solve [pcs].
    by exists EmptyString.
  - destruct Ho as [H1 H2 H3 H4 H5 H6 H7 H8]. rewrite H in *. split; cbn; try done; try solve [pcs].
    + destruct H3 as (part & -> & Hp). exists part. split; [done|]. intros Hlost. apply Hp.
      intros l [E|E]; [|done]. injection E as <-. apply Hlost. by right.
    + intros l _. by left.
Qed.
(** ** Barriers *)

(** The accepted events ahead of a point of the queue. *)
Definition ahead (w : wstate) (q : list item) : nat :=
  (List.length (written w) + List.length (inHand (loop w)) + List.length (events q))%nat.

Definition unsent (p : option fpc) : Prop :=
  match p with None | Some (FWaiting _) | Some (FSending _) => True | _ => False end.
(** The events accepted before a flush's barrier are durable. *)
Definition covered (w : wstate) (f : nat) : Prop := exists n, marks w !! f = Some n /\ (n <= synced w)%nat.

Record barriers (w : wstate) : Prop := {
  b_unsent : forall f, unsent (flushes w !! f) -> marks w !! f = None;
  b_queue : forall q1 f q2, queue w = q1 ++ IBarrier f :: q2 -> marks w !! f = Some (ahead w q1);
  b_loop : forall f, barrierOf (loop w) = Some f -> marks w !! f = Some (List.length (written w));
  b_reply : forall f, replies w !! f = Some true -> covered w f;
  b_done : forall f, flushes w !! f = Some (FDone None) -> covered w f;
}.

(** A step that neither sends nor receives nor replies. *)
Lemma barriers_keep w w' : barriers w ->
  queue w' = queue w -> marks w' = marks w -> replies w' = replies w ->
  (List.length (written w') + List.length (inHand (loop w')) =
   List.length (written w) + List.length (inHand (loop w)))%nat -> (synced w <= synced w')%nat ->
  (forall f, barrierOf (loop w') = Some f -> barrierOf (loop w) = Some f /\ written w' = written w) ->
  (forall f, unsent (flushes w' !! f) -> unsent (flushes w !! f)) ->
  (forall f, flushes w' !! f = Some (FDone None) -> flushes w !! f = Some (FDone None) \/ replies w !! f = Some true) ->
  barriers w'.
Proof.
  intros [H1 H2 H3 H4 H5] Eq Em Er Ea Es Hb Hu Hd. split; unfold covered, ahead; rewrite ?Eq, ?Em, ?Er.
  - auto.
  - intros q1 f q2 Hq. rewrite Ea. by apply (H2 q1 f q2).
  - intros f Hf. destruct (Hb f Hf) as [Hf' ->]. by apply H3.
  - intros f Hf. destruct (H4 f Hf) as (n & ? & ?). exists n. split; [done|lia].
  - intros f Hf. assert (covered w f) as (n & ? & ?) by (destruct (Hd f Hf); auto). exists n. split; [done|lia].
Qed.

Lemma unsent_insert (fs : gmap nat fpc) f p q :
  fs !! f = q -> (unsent (Some p) -> unsent q) -> forall g, unsent (<[f := p]> fs !! g) -> unsent (fs !! g).
Proof.
  intros Hq Hp g. destruct (decide (g = f)) as [->|]; [rewrite lookup_insert_eq, Hq; auto|].
  by rewrite lookup_insert_ne.
Qed.
Lemma done_insert (fs : gmap nat fpc) f p g :
  p <> FDone None -> <[f := p]> fs !! g = Some (FDone None) -> fs !! g = Some (FDone None).
Proof.
  intros Hp. destruct (decide (g = f)) as [->|]; [rewrite lookup_insert_eq; congruence|].
  by rewrite lookup_insert_ne.
Qed.

Lemma app_last_split {A} (q q1 q2 : list A) x y : q ++ [x] = q1 ++ y :: q2 ->
  (q2 = [] /\ q1 = q /\ y = x) \/ exists q2', q2 = q2' ++ [x] /\ q = q1 ++ y :: q2'.
Proof.
  destruct q2 as [|z q2 _] using rev_ind.
  - intros [-> E]%app_inj_tail. left. by rewrite E.
  - rewrite app_comm_cons, app_assoc. intros [-> ->]%app_inj_tail. right. by exists q2.
Qed.

Lemma barriers_write w e : barriers w -> barriers (Write w e).1.
Proof.
  intros Hb. unfold Write. destruct (Event_Validate e); [done|]. repeat (case_if; [done|]).
  destruct Hb as [H1 H2 H3 H4 H5]. split; cbn; try done.
  intros q1 f q2 [(_ & _ & E)|(q2' & _ & E)]%app_last_split; [discriminate E|]. by apply (H2 q1 f q2').
Qed.

Lemma barriers_send w f bounded w' : ordered w -> barriers w -> flushes w !! f = Some (FSending bounded) ->
  flushSend w f bounded = Some w' -> barriers w'.
Proof.
  intros Ho Hb Hf Hs. unfold flushSend in Hs. case_if; [done|]. injection Hs as <-.
  pose proof Hb as [H1 H2 H3 H4 H5].
  assert (marks w !! f = None) as Hn by (apply H1; by rewrite Hf).
  assert (forall g n, marks w !! g = Some n -> <[f := List.length (accepted w)]> (marks w) !! g = Some n) as Hg.
  { intros g n E. rewrite lookup_insert_ne; [done|]. intros ->. congruence. }
  split; unfold covered; cbn.
  - intros g Hu. destruct (decide (g = f)) as [->|]; [by rewrite lookup_insert_eq in Hu|].
    rewrite lookup_insert_ne in Hu by done. rewrite lookup_insert_ne by done. by apply H1.
  - intros q1 g q2 [(-> & -> & E)|(q2' & _ & E)]%app_last_split.
    + injection E as ->. rewrite lookup_insert_eq. f_equal.
      rewrite (o_fifo w Ho), !length_app. unfold ahead. cbn. lia.
    + apply Hg. by apply (H2 q1 g q2').
  - intros g Hl. by apply Hg, H3.
  - intros g Hr. destruct (H4 g Hr) as (n & ? & ?). eauto.
  - intros g Hd. apply done_insert in Hd; [|congruence]. destruct (H5 g Hd) as (n & ? & ?). eauto.
Qed.

Lemma barriers_take w it q drain : barriers w -> loop w = next drain -> queue w = it :: q ->
  barriers (take w it q drain).
Proof.
  intros [H1 H2 H3 H4 H5] Hl Hq. assert (inHand (loop w) = []) as Hh by (rewrite Hl; by destruct drain).
  split; cbn; try done.
  - intros q1 f q2 E. rewrite (H2 (it :: q1) f q2) by (by rewrite Hq, E). unfold ahead. cbn. rewrite Hh.
    f_equal. unfold events; destruct it; cbn; lia.
  - intros f Hf. destruct it as [e|g]; [done|]. cbn in Hf. injection Hf as ->.
    rewrite (H2 [] f q) by done. unfold ahead. rewrite Hh. cbn. f_equal. lia.
Qed.

Lemma barriers_reply w f ok drain : barriers w -> barrierOf (loop w) = Some f -> inHand (loop w) = [] ->
  (ok = true -> (List.length (written w) <= synced w)%nat) -> barriers (reply w f ok drain).
Proof.
  intros [H1 H2 H3 H4 H5] Hf Hh Hok. split; unfold covered; cbn; try done.
  - intros q1 g q2 Hq. rewrite (H2 q1 g q2 Hq). unfold ahead. cbn. rewrite Hh. by destruct drain.
  - intros g. by destruct drain.
  - intros g [[-> ->]|[_ Hr]]%lookup_insert_Some; [|by apply H4].
    exists (List.length (written w)). split; [by apply H3|auto].
Qed.

Lemma barriers_durable w : (synced w <= List.length (written w))%nat -> barriers w -> barriers (durable w).
Proof. intros Hs Hb. apply (barriers_keep w); cbn; auto. Qed.

Lemma barriers_step w w' : ordered w -> barriers w -> step w w' -> barriers w'.
Proof.
  intros Ho Hb Hs. destruct Hs.
  - by apply barriers_write.
  - apply (barriers_keep w); cbn; auto; [by eapply unsent_insert|]. intros g Hg. apply done_insert in Hg; [by left|congruence].
  - unfold flushLock. repeat case_if; (apply (barriers_keep w); cbn; auto;
      [by eapply unsent_insert|intros g Hg; apply done_insert in Hg; [by left|congruence]]).
  - by eapply barriers_send.
  - apply (barriers_keep w); cbn; auto; [by eapply unsent_insert|]. intros g Hg. apply done_insert in Hg; [by left|congruence].
  - apply (barriers_keep w); cbn; auto.
    + eapply unsent_insert; [done|]. by destruct ok.
    + intros g. destruct (decide (g = f)) as [->|]; [|rewrite lookup_insert_ne by done; auto].
      rewrite lookup_insert_eq. destruct ok; [by right|]. intros E. discriminate E.
  - apply (barriers_keep w); cbn; auto; [by eapply unsent_insert|]. intros g Hg. apply done_insert in Hg; [by left|congruence].
  - apply (barriers_keep w); cbn; auto; [by eapply unsent_insert|]. intros g Hg. apply done_insert in Hg; [by left|].
    by destruct (failed w).
  - apply (barriers_keep w); cbn; auto; [by eapply unsent_insert|]. intros g Hg. apply done_insert in Hg; [by left|congruence].
  - apply (barriers_keep w); cbn; auto.
  - by eapply barriers_take.
  - apply (barriers_keep w); cbn; rewrite ?H; auto; done.
  - apply (barriers_keep w); cbn; rewrite ?H; auto; done.
  - case_if.
    + apply barriers_reply; rewrite ?H; done.
    + apply (barriers_keep w); cbn; rewrite ?H; auto.
  - apply barriers_reply; cbn; rewrite ?H; auto. apply barriers_durable; [apply Ho|done].
  - apply barriers_reply; rewrite ?H; done.
  - apply (barriers_keep w); cbn; rewrite ?H; auto; done.
  - unfold wrote, afterWrite. destruct drain; [|repeat case_if];
      (apply (barriers_keep w); cbn; rewrite ?H, ?length_app; cbn; auto; done).
  - apply (barriers_keep w); cbn; rewrite ?H; auto; done.
  - apply (barriers_keep w); cbn; rewrite ?H; auto; first [apply Ho | done].
  - apply (barriers_keep w); cbn; rewrite ?H; auto; done.
  - by eapply barriers_take.
  - apply (barriers_keep w); cbn; rewrite ?H; auto; done.
  - apply (barriers_keep w); cbn; rewrite ?H; auto; first [apply Ho | done].
  - apply (barriers_keep w); cbn; rewrite ?H; auto; done.
  - apply (barriers_keep w); cbn; rewrite ?H; auto; done.
Qed.
Lemma reachable_invariants w : reachable w -> locked w /\ ordered w /\ barriers w.
Proof.
  intros Hr. unfold reachable in Hr.
  eapply (rtc_ind_r (fun w => locked w /\ ordered w /\ barriers w)); [| |exact Hr].
  - split_and!; [|apply ordered_opened|].
    + split; [|done]. intros f. cbn. rewrite lookup_empty. split; [done|by intros []].
    + split; unfold covered; cbn; try done; [|intros f; by rewrite lookup_empty..].
      intros q1 f q2 E. by destruct q1.
  - intros w1 w2 _ Hs (Hl & Ho & Hb). split_and!; [by eapply locked_step|by eapply ordered_step|by eapply barriers_step].
Qed.

(** ** A queue that nobody empties *)

(** A flush keeps the lock until the queue has room, and the goroutine that
    would make room waits for the lock. *)
Record stuck (w : wstate) (f : nat) : Prop := {
  k_mu : mu w = Some f;
  k_flush : flushes w !! f = Some (FSending false);
  k_full : QueueCapacity o <= Z.of_nat (List.length (queue w));
  k_loop : exists lost, loop w = LFail lost;
}.
Definition unchanged (w w' : wstate) : Prop :=
  queue w' = queue w /\ mu w' = mu w /\ loop w' = loop w /\ file w' = file w /\ accepted w' = accepted w /\
  failed w' = failed w.

Lemma stuck_move w f g p : stuck w f -> g <> f -> stuck (withFlush w g p) f /\ unchanged w (withFlush w g p).
Proof.
  intros [H1 H2 H3 H4] Hg. split; [|done]. split; cbn; try done. by rewrite lookup_insert_ne.
Qed.

Lemma stuck_step w w' f : locked w -> stuck w f -> step w w' -> stuck w' f /\ unchanged w w'.
Proof.
  intros Hl Hk Hs. pose proof Hk as [H1 H2 H3 (lost & H4)].
  destruct Hs; try congruence; try (apply stuck_move; [done|intros ->; congruence]).
  - unfold flushSend in H0. assert (f0 = f) as ->.
    { assert (mu w = Some f0); [|congruence]. apply (l_mu w Hl). eauto. }
    destruct (Z.leb_spec (QueueCapacity o) (Z.of_nat (List.length (queue w)))); [done|lia].
  - exfalso. assert (mu w = Some f0) as E by (apply (l_mu w Hl); eauto). congruence.
Qed.

Lemma stuck_forever w w' f : locked w -> stuck w f -> rtc step w w' -> stuck w' f /\ unchanged w w'.
Proof.
  intros Hl Hk Hs. revert Hl Hk. induction Hs as [|w1 w2 w3 Hs _ IH]; intros Hl Hk; [done|].
  destruct (stuck_step w1 w2 f Hl Hk Hs) as [Hk2 (E1 & E2 & E3 & E4 & E5 & E6)].
  destruct IH as [? (F1 & F2 & F3 & F4 & F5 & F6)]; [by eapply locked_step|done|].
  split; [done|]. unfold unchanged. split_and!; congruence.
Qed.
End Writer.

(** An event the writer takes. *)
Definition someFailure : Event :=
  mkEvent SchemaVersion "evt_0" "run" (GoTime.GoTime.mkTime 2025 1 1 0 0 0 0) true WriterFailed None EmptyString None None
    None None None None EmptyString "disk" None (SpecFloat.S754_zero false) None.
Lemma someFailure_valid : Event_Validate someFailure = None.
Proof. by vm_compute. Qed.

Lemma withDefaults_ok o : 0 < QueueCapacity (withDefaults o) /\ 0 < BatchSize (withDefaults o).
Proof.
  unfold withDefaults. cbn.
  repeat match goal with |- context [?a <=? ?b] => destruct (Z.leb_spec a b) end; lia.
Qed.

Section Claims.
Context (o : Options) (MarshalJSON : Event -> option string).
Notation opts := (withDefaults o).
Notation reachable := (reachable opts MarshalJSON).
Notation step := (step opts MarshalJSON).

Lemma reachable_ok w : reachable w -> locked w /\ ordered opts MarshalJSON w /\ barriers w.
Proof. destruct (withDefaults_ok o). by apply reachable_invariants. Qed.

(** A queue can be filled while an event is being written. *)
Lemma fills n : Z.of_nat n <= QueueCapacity opts -> exists w, reachable w /\ failed w = false /\ closed w = false /\
  mu w = None /\ flushes w = ∅ /\ loop w = LWriting someFailure false /\ List.length (queue w) = n.
Proof.
  destruct (withDefaults_ok o) as [Hc _]. induction n as [|n IH]; intros Hn.
  - set (w0 := (Write opts opened someFailure).1).
    assert (w0 = withQueue opened [IEvent someFailure] [someFailure]) as E.
    { unfold w0, Write. rewrite someFailure_valid. change (failed opened) with false. change (closed opened) with false.
      by destruct (Z.leb_spec (QueueCapacity opts) (Z.of_nat (List.length (queue opened)))) as [Hle|_]; [change (Z.of_nat (List.length (queue opened))) with 0 in Hle; lia|]. }
    exists (take w0 (IEvent someFailure) [] false). split; [|by rewrite E].
    eapply rtc_r; [eapply rtc_r; [apply rtc_refl|by apply (s_write opts MarshalJSON opened someFailure)]|].
    apply s_take; by rewrite E.
  - destruct IH as (w & Hr & Hf & Hcl & Hm & Hfl & Hlo & Hq); [lia|].
    exists (Write opts w someFailure).1. split; [eapply rtc_r; [exact Hr|by apply s_write]|].
    unfold Write. rewrite someFailure_valid, Hf, Hcl.
    destruct (Z.leb_spec (QueueCapacity opts) (Z.of_nat (List.length (queue w)))); [lia|]. cbn.
    split_and!; try done. rewrite length_app. cbn. lia.
Qed.

Lemma write_may_fail w : loop w = LWriting someFailure false -> step w (withLoop w (LFail [someFailure])).
Proof.
  intros Hl. destruct (MarshalJSON someFailure) as [data|] eqn:E; [|by eapply s_unmarshalled].
  replace w with (append w EmptyString) at 2 by (destruct w; unfold append; cbn; by rewrite str_app_nil_r).
  by eapply s_unwritten.
Qed.

(** ** The claims *)

(** C27. The audit log keeps the order of acceptance and loses nothing silently:
    in every reachable state the queue is within its bound, the events accepted
    are, in order, those written, the one in hand and those still queued; the
    file holds exactly the written events' lines, whole, unless the write of an
    event has failed; and when the writer has ended without having failed,
    everything accepted has been written and synced. *)
Theorem audit_log_in_order w : reachable w ->
  Z.of_nat (List.length (queue w)) <= QueueCapacity opts /\
  accepted w = written w ++ inHand (loop w) ++ events (queue w) /\
  (exists part, file w = (lines MarshalJSON (written w) ++ part)%string /\
    ((forall lost, loop w = LFail lost \/ loop w = LExited lost -> lost = []) -> part = EmptyString)) /\
  (forall lost, loop w = LExited lost -> failed w = false ->
     closed w = true /\ accepted w = written w /\ synced w = List.length (written w)).
Proof.
  intros (_ & [H1 H2 H3 H4 _ H6 _ _] & _)%reachable_ok. split_and!; try done.
  intros lost Hl Hf. destruct (H6 lost Hl) as [|(-> & Hc & Hq & Hv)]; [congruence|]. split_and!; [done| |].
  - by rewrite H2, Hl, Hq, app_nil_r.
  - unfold volatile in Hv. apply (f_equal (@List.length _)) in Hv. rewrite length_drop in Hv. cbn in Hv. lia.
Qed.

(** C28. Durability: when the writer is at rest, fewer than a batch of the written
    events are not yet synced, and when decisions are to be synced, none of
    those is a decision. *)
Theorem audit_decisions_durable w : reachable w -> loop w = LIdle ->
  Z.of_nat (List.length (volatile w)) < BatchSize opts /\
  (FsyncDecision opts = true -> forall e, e ∈ volatile w -> ev_EventType e <> RequestDecision).
Proof.
  intros (_ & Ho & _)%reachable_ok Hl. pose proof (o_batch _ _ w Ho) as Hb. rewrite Hl in Hb.
  destruct (Hb eq_refl) as (? & ? & Hd). split; [lia|]. intros Hf e He Ht.
  specialize (Hd Hf). rewrite forallb_forall in Hd. specialize (Hd e ltac:(by apply list_elem_of_In)).
  unfold isDecision in Hd. by rewrite Ht in Hd.
Qed.

(** [Flush] is a barrier: when it returns without an error, every event that
    had been accepted before its barrier entered the queue is in the file, in
    order, and synced. *)
Theorem flush_is_a_barrier w f : reachable w -> flushes w !! f = Some (FDone None) ->
  exists n, marks w !! f = Some n /\ (n <= synced w)%nat /\ (n <= List.length (accepted w))%nat /\
    firstn n (accepted w) = firstn n (written w).
Proof.
  intros (_ & Ho & Hb)%reachable_ok Hf. destruct (b_done w Hb f Hf) as (n & Hm & Hn). exists n.
  pose proof (o_synced _ _ w Ho). rewrite (o_fifo _ _ w Ho), length_app. split_and!; [done|done|lia|].
  rewrite take_app_le by lia. done.
Qed.

(** C30. The writer can stop for good: there is a reachable state, before any
    failure is recorded, in which a flush that waits without a deadline holds the
    lock for room in the queue while the goroutine that would make room waits for
    the lock to record that a write failed; from it, whatever happens, nothing
    changes: no event is written or accepted again and the failure is never
    seen. *)
Theorem audit_writer_deadlock : exists w f, reachable w /\ failed w = false /\
  flushes w !! f = Some (FSending false) /\
  forall w', rtc step w w' -> unchanged w w' /\ mu w' = Some f /\ flushes w' !! f = Some (FSending false).
Proof.
  destruct (withDefaults_ok o) as [Hc _].
  destruct (fills (Z.to_nat (QueueCapacity opts))) as (w & Hr & Hf & Hcl & Hm & Hfl & Hlo & Hq); [lia|].
  set (w1 := withFlush w 0 (FWaiting false)).
  set (w2 := flushLock w1 0 false).
  assert (w2 = withFlush (withMu w1 (Some 0%nat)) 0 (FSending false)) as E2 by (unfold w2, flushLock; cbn; by rewrite Hf, Hcl).
  assert (reachable w2) as Hr2.
  { eapply rtc_r; [eapply rtc_r; [exact Hr|]|].
    - apply s_flush. by rewrite Hfl.
    - apply s_flush_lock; [apply lookup_insert_eq|done]. }
  set (w3 := withLoop w2 (LFail [someFailure])).
  assert (reachable w3) as Hr3 by (eapply rtc_r; [exact Hr2|]; apply write_may_fail; by rewrite E2).
  assert (stuck opts w3 0) as Hk.
  { split; unfold w3; rewrite E2; [done|apply lookup_insert_eq| |by eexists].
    change (queue _) with (queue w). rewrite Hq. lia. }
  exists w3, 0%nat. split; [done|]. split; [unfold w3; by rewrite E2|]. split; [apply Hk|].
  intros w' Hs. destruct (reachable_ok w3 Hr3) as (Hl & _ & _).
  destruct (stuck_forever opts MarshalJSON w3 w' 0 Hl Hk Hs) as [[? ? _ _] ?]. done.
Qed.
End Claims.
(** ** A run: an event is written, and flushed *)

Definition sampleOptions : Options := mkOptions 0 4 0 true.
Definition sampleJSON (e : Event) : option string := Some (ev_EventID e).
Definition sampleWritten : wstate :=
  wrote (withDefaults sampleOptions) (take (Write (withDefaults sampleOptions) opened someFailure).1
    (IEvent someFailure) [] false) someFailure "evt_0" false.
Definition sampleSent : wstate :=
  let w := flushLock (withFlush sampleWritten 0 (FWaiting true)) 0 true in
  default w (flushSend (withDefaults sampleOptions) w 0 true).
Definition sampleFlushed : wstate :=
  flushReply (reply (durable (withLoop (take sampleSent (IBarrier 0) [] false) (LBarrierSync 0 false))) 0 true false) 0 true.

Lemma sampleWritten_reachable : reachable (withDefaults sampleOptions) sampleJSON sampleWritten.
Proof.
  eapply rtc_r; [eapply rtc_r; [eapply rtc_r; [apply rtc_refl|]|]|].
  - by apply (s_write _ _ opened someFailure).
  - by apply s_take.
  - by apply s_wrote.
Qed.
Lemma sampleFlushed_reachable : reachable (withDefaults sampleOptions) sampleJSON sampleFlushed.
Proof.
  eapply rtc_r; [eapply rtc_r; [eapply rtc_r; [eapply rtc_r; [eapply rtc_r; [eapply rtc_r; [eapply rtc_r;
    [apply sampleWritten_reachable|]|]|]|]|]|]|].
  - by apply (s_flush _ _ sampleWritten 0 true).
  - by apply (s_flush_lock _ _ _ 0 true).
  - by apply (s_flush_send _ _ _ 0 true sampleSent).
  - by apply (s_take _ _ sampleSent (IBarrier 0) []).
  - by apply (s_barrier _ _ (take sampleSent (IBarrier 0) [] false) 0 false).
  - by apply s_barrier_synced.
  - by eapply (s_flush_reply _ _ _ 0 true true).
Qed.

Lemma audit_log_in_order_witness : file sampleFlushed = ("evt_0" ++ newline)%string /\
  (Z.of_nat (List.length (queue sampleFlushed)) <= QueueCapacity (withDefaults sampleOptions) /\
   accepted sampleFlushed = written sampleFlushed ++ inHand (loop sampleFlushed) ++ events (queue sampleFlushed) /\
   (exists part, file sampleFlushed = (lines sampleJSON (written sampleFlushed) ++ part)%string /\
     ((forall lost, loop sampleFlushed = LFail lost \/ loop sampleFlushed = LExited lost -> lost = []) ->
      part = EmptyString)) /\
   (forall lost, loop sampleFlushed = LExited lost -> failed sampleFlushed = false ->
     closed sampleFlushed = true /\ accepted sampleFlushed = written sampleFlushed /\
     synced sampleFlushed = List.length (written sampleFlushed))).
Proof.
  split; [by vm_compute|]. exact (audit_log_in_order sampleOptions sampleJSON _ sampleFlushed_reachable).
Defined.

Lemma audit_decisions_durable_witness : loop sampleWritten = LIdle /\ List.length (volatile sampleWritten) = 1%nat /\
  (Z.of_nat (List.length (volatile sampleWritten)) < BatchSize (withDefaults sampleOptions) /\
   (FsyncDecision (withDefaults sampleOptions) = true ->
    forall e, e ∈ volatile sampleWritten -> ev_EventType e <> RequestDecision)).
Proof.
  split; [by vm_compute|]. split; [by vm_compute|].
  exact (audit_decisions_durable sampleOptions sampleJSON _ sampleWritten_reachable eq_refl).
Defined.

Lemma flush_is_a_barrier_witness : flushes sampleFlushed !! 0%nat = Some (FDone None) /\
  exists n, marks sampleFlushed !! 0%nat = Some n /\ (n <= synced sampleFlushed)%nat /\
    (n <= List.length (accepted sampleFlushed))%nat /\
    firstn n (accepted sampleFlushed) = firstn n (written sampleFlushed).
Proof.
  split; [by vm_compute|]. exact (flush_is_a_barrier sampleOptions sampleJSON _ 0 sampleFlushed_reachable eq_refl).
Defined.
End AuditWriter.
