(* ===== verification/ProxyNet.v ===== *)
(** * Where the proxy may connect (proxy/transport.go)

    Addresses as [net.IP] has them, a list of four or sixteen bytes: their
    classes, their text, the policy on resolved addresses, and resolution that
    is done once and pinned. *)

From Stdlib Require Import ZArith Lia ZifyBool Ascii.
From stdpp Require Import base gmap strings list.
From S2P Require Import Prelude GoStrings GoEncoding GoNet.
From S2P Require Import AwsTypes.

Module ProxyNet.
Import AwsTypes.AwsTypes.

Notation ip := (list Z) (only parsing).

(** ** Package net *)

Definition v4InV6Prefix : ip := replicate 10 0 ++ [255; 255].
(** [To4], [To16]: [None] is nil. *)
Definition To4 (a : ip) : option ip :=
  if (List.length a =? 4)%nat then Some a
  else if (List.length a =? 16)%nat && bool_decide (take 12 a = v4InV6Prefix) then Some (drop 12 a)
  else None.
Definition To16 (a : ip) : option ip :=
  if (List.length a =? 4)%nat then Some (v4InV6Prefix ++ a)
  else if (List.length a =? 16)%nat then Some a else None.
(** [ip.Equal] of one of the two lengths. *)
Definition Equal (a b : ip) : bool :=
  match To16 a, To16 b with Some x, Some y => bool_decide (x = y) | _, _ => false end.

Definition byteOf (a : ip) (i : nat) : Z := nth i a 0.

Definition IPv4zero : ip := [0; 0; 0; 0].
Definition IPv4bcast : ip := [255; 255; 255; 255].
Definition IPv6unspecified : ip := replicate 16 0.
Definition IPv6loopback : ip := replicate 15 0 ++ [1].

Definition IsUnspecified (a : ip) : bool := Equal a IPv4zero || Equal a IPv6unspecified.
Definition IPIsLoopback (a : ip) : bool :=
  match To4 a with Some v4 => byteOf v4 0 =? 127 | None => Equal a IPv6loopback end.
Definition IsPrivate (a : ip) : bool :=
  match To4 a with
  | Some v4 =>
    (byteOf v4 0 =? 10) || ((byteOf v4 0 =? 172) && (Z.land (byteOf v4 1) 240 =? 16)) ||
    ((byteOf v4 0 =? 192) && (byteOf v4 1 =? 168))
  | None => (List.length a =? 16)%nat && (Z.land (byteOf a 0) 254 =? 252)
  end.
Definition IsMulticast (a : ip) : bool :=
  match To4 a with
  | Some v4 => Z.land (byteOf v4 0) 240 =? 224
  | None => (List.length a =? 16)%nat && (byteOf a 0 =? 255)
  end.
Definition IsLinkLocalMulticast (a : ip) : bool :=
  match To4 a with
  | Some v4 => (byteOf v4 0 =? 224) && (byteOf v4 1 =? 0) && (byteOf v4 2 =? 0)
  | None => (List.length a =? 16)%nat && (byteOf a 0 =? 255) && (Z.land (byteOf a 1) 15 =? 2)
  end.
Definition IsLinkLocalUnicast (a : ip) : bool :=
  match To4 a with
  | Some v4 => (byteOf v4 0 =? 169) && (byteOf v4 1 =? 254)
  | None => (List.length a =? 16)%nat && (byteOf a 0 =? 254) && (Z.land (byteOf a 1) 192 =? 128)
  end.
Definition IsGlobalUnicast (a : ip) : bool :=
  ((List.length a =? 4)%nat || (List.length a =? 16)%nat) && negb (Equal a IPv4bcast) && negb (IsUnspecified a) &&
  negb (IPIsLoopback a) && negb (IsMulticast a) && negb (IsLinkLocalUnicast a).

(** ** The text of an address *)

Fixpoint hexOf (fuel : nat) (n : Z) : string :=
  match fuel with
  | O => EmptyString
  | S fuel =>
    let front := if n <? 16 then EmptyString else hexOf fuel (n / 16) in
    let digit := String (hex_digit (n mod 16)) EmptyString in
    (front ++ digit)%string
  end.
(** The sixteen-bit groups of an address. *)
Fixpoint groups (a : ip) : list Z :=
  match a with x :: y :: a => x * 256 + y :: groups a | _ => [] end.

Fixpoint zeros_ahead (gs : list Z) : nat :=
  match gs with g :: gs => if g =? 0 then S (zeros_ahead gs) else O | [] => O end.
(** The first of the longest runs of at least two zero groups: its start and its
    end; [i] is the position of [gs]. *)
Fixpoint zeroRun (gs : list Z) (i : nat) (best : nat * nat) : nat * nat :=
  match gs with
  | [] => best
  | _ :: gs' =>
    let n := zeros_ahead gs in
    let best := if (2 <=? n)%nat && (best.2 - best.1 <? n)%nat then (i, i + n)%nat else best in
    zeroRun gs' (S i) best
  end.
(** The groups from [i] on; those of the run are elided. *)
Fixpoint join_groups (gs : list Z) (i : nat) (run : nat * nat) : string :=
  match gs with
  | [] => EmptyString
  | g :: gs =>
    let rest := join_groups gs (S i) run in
    if (run.1 =? i)%nat && (run.1 <? run.2)%nat then ("::" ++ rest)%string
    else if (run.1 <? i)%nat && (i <? run.2)%nat then rest
    else ((if (i =? 0)%nat || ((i =? run.2)%nat && (run.1 <? run.2)%nat) then EmptyString else ":") ++ hexOf 4 g ++ rest)%string
  end.
Definition ipv6Text (a : ip) : string := join_groups (groups a) 0 (zeroRun (groups a) 0 (0, 0)%nat).

(** [ip.String()] of a slice of one of the two lengths. *)
Definition IPString (a : ip) : string :=
  match To4 a with
  | Some v4 => Join (Itoa <$> v4) "."
  | None => ipv6Text a
  end.

Example IPString_ex :
  (fun s => IPString <$> ParseAddr s) <$>
    ["10.0.0.255"; "::ffff:1.2.3.4"; "2001:db8:0:0:1:0:0:1"; "::1"; "fe80::"; "1:0:0:2:0:0:0:3"; "::"; "1:2:3:4:5:6:7:8";
     "fd00:ec2::254"; "0:1:0:1:0:1:0:1"; "1:0:0:0:0:0:0:0"] =
  Some <$> ["10.0.0.255"; "1.2.3.4"; "2001:db8::1:0:0:1"; "::1"; "fe80::"; "1:0:0:2::3"; "::"; "1:2:3:4:5:6:7:8";
            "fd00:ec2::254"; "0:1:0:1:0:1:0:1"; "1::"].
Proof. vm_compute. reflexivity. Qed.

(** [net.ParseIP]: sixteen bytes, whichever form it reads. *)
Definition netParseIP (s : string) : option ip :=
  match ParseAddr s with Some a => To16 a | None => None end.

(** [net.JoinHostPort]. *)
Definition JoinHostPort (host port : string) : string :=
  if bytes_any (Z.eqb (ord ":")) host then ("[" ++ host ++ "]:" ++ port)%string else (host ++ ":" ++ port)%string.

(** ** Ports (proxy/connect.go) *)

Fixpoint portLoop (rs : list Z) (port : Z) : Z :=
  match rs with
  | [] => if (port <? 1) || (65535 <? port) then 0 else port
  | char :: rs =>
    if (char <? ord "0") || (ord "9" <? char) then 0
    else let port := port * 10 + (char - ord "0") in if 65535 <? port then 0 else portLoop rs port
  end.
Definition parsePort (value : string) : Z :=
  if (value =? "")%string || (5 <? slen value) then 0 else portLoop (runes value) 0.

(** ** The policy on addresses *)

Definition prohibitedMetadata : list string := ["169.254.169.254"; "169.254.170.2"; "fd00:ec2::254"].

Definition normalizedIP (a : option ip) : option ip :=
  match a with
  | None => None
  | Some a => match To4 a with Some four => Some four | None => To16 a end
  end.

Definition IsUnsafeIP (a : option ip) : bool :=
  match normalizedIP a with
  | None => true
  | Some a =>
    if mem_str (IPString a) prohibitedMetadata then true
    else if IPIsLoopback a || IsUnspecified a || IsMulticast a || IsLinkLocalUnicast a || IsLinkLocalMulticast a ||
            IsPrivate a || negb (IsGlobalUnicast a) then true
    else match To4 a with
    | Some v4 =>
      ((byteOf v4 0 =? 100) && (Z.land (byteOf v4 1) 192 =? 64)) ||
      ((byteOf v4 0 =? 192) && (byteOf v4 1 =? 0) && (byteOf v4 2 =? 0)) ||
      ((byteOf v4 0 =? 198) && (Z.land (byteOf v4 1) 254 =? 18)) ||
      ((byteOf v4 0 =? 192) && (byteOf v4 1 =? 0) && (byteOf v4 2 =? 2)) ||
      ((byteOf v4 0 =? 198) && (byteOf v4 1 =? 51) && (byteOf v4 2 =? 100)) ||
      ((byteOf v4 0 =? 203) && (byteOf v4 1 =? 0) && (byteOf v4 2 =? 113)) ||
      (240 <=? byteOf v4 0)
    | None => false
    end
  end.

(** [TargetAllowFunc]; [None] is nil. *)
Definition TargetAllowFunc := string -> ip -> bool.

Fixpoint checkAnswers (host : string) (ips : list (option ip)) (allow : option TargetAllowFunc) : option error :=
  match ips with
  | [] => None
  | original :: ips =>
    let bad := match normalizedIP original with
               | None => true
               | Some a => IsUnsafeIP (Some a) && match allow with None => true | Some f => negb (f host a) end
               end in
    if bad then Some (ErrNew "destination resolves to a prohibited address") else checkAnswers host ips allow
  end.
Definition ValidateResolvedIPs (host : string) (ips : list (option ip)) (allow : option TargetAllowFunc) : option error :=
  match ips with
  | [] => Some (ErrNew "destination has no DNS answers")
  | _ => checkAnswers host ips allow
  end.

Section Resolving.
(** [resolver.LookupIP(ctx, "ip", host)]. *)
Context (LookupIP : string -> result (list (option ip))).

(** The bytes of ["\x00\r\n /:@[]%\\"]. *)
Definition badHostByte (c : Z) : bool := (c =? 0) || (c =? 13) || (c =? 10) || (c =? 92) || in_set " /:@[]%" c.

Definition ResolveAndValidate (host : string) (allow : option TargetAllowFunc) : result (list (option ip)) :=
  match netParseIP host with
  | Some a =>
    match ValidateResolvedIPs host [Some a] allow with
    | Some err => Err err
    | None => Ok [normalizedIP (Some a)]
    end
  | None =>
    if (host =? "")%string || bytes_any badHostByte host then Err (ErrNew "destination hostname is malformed")
    else match LookupIP host with
    | Err _ => Err (ErrNew "destination resolution failed")
    | Ok ips =>
      match ValidateResolvedIPs host ips allow with
      | Some err => Err err
      | None => Ok (normalizedIP <$> ips)
      end
    end
  end.

(** [ip.String()], nil included. *)
Definition textOf (a : option ip) : string := match a with Some a => IPString a | None => "<nil>" end.

(** A loop over addresses that stops at the first that connects.  A dialer
    answers by the number of the call and the address. *)
Context {C : Type} (DialContext : nat -> string -> result C).
Fixpoint dialEach (n : nat) (addresses : list string) : list string * option C :=
  match addresses with
  | [] => ([], None)
  | address :: addresses =>
    match DialContext n address with
    | Ok conn => ([address], Some conn)
    | Err _ => let '(dialled, conn) := dialEach (S n) addresses in (address :: dialled, conn)
    end
  end.

(** The addresses that are dialled, and the result; the error of the last attempt
    is returned as one. *)
Definition DialValidated (hostport : string) (allow : option TargetAllowFunc) : list string * result C :=
  match SplitHostPort hostport with
  | Some (host, port) =>
    if (host =? "")%string || (parsePort port =? 0) then ([], Err (ErrNew "destination address is malformed"))
    else match ResolveAndValidate host allow with
    | Err err => ([], Err err)
    | Ok ips =>
      let '(dialled, conn) := dialEach 0 ((fun a => JoinHostPort (textOf a) port) <$> ips) in
      (dialled, match conn with Some c => Ok c | None => Err (ErrNew "destination connection failed") end)
    end
  | None => ([], Err (ErrNew "destination address is malformed"))
  end.
End Resolving.
(** ** The policy as address blocks *)

(** A block in CIDR form: the whole bytes of the prefix agree, and so do the
    leading bits of the next. *)
Definition inBlock (a : ip) (block : ip * nat) : bool :=
  let '(base, bits) := block in
  let k := Nat.div bits 8 in let r := Nat.modulo bits 8 in
  (List.length a =? List.length base)%nat && bool_decide (take k a = take k base) &&
  ((r =? 0)%nat || (byteOf a k / 2 ^ (8 - Z.of_nat r) =? byteOf base k / 2 ^ (8 - Z.of_nat r))).

(** This host, private use, shared address space, loopback, link local, private
    use, protocol assignments, documentation, private use, benchmarking,
    documentation (twice), multicast, reserved. *)
Definition blocks4 : list (ip * nat) :=
  [([0; 0; 0; 0], 32%nat); ([10; 0; 0; 0], 8%nat); ([100; 64; 0; 0], 10%nat); ([127; 0; 0; 0], 8%nat);
   ([169; 254; 0; 0], 16%nat); ([172; 16; 0; 0], 12%nat); ([192; 0; 0; 0], 24%nat); ([192; 0; 2; 0], 24%nat);
   ([192; 168; 0; 0], 16%nat); ([198; 18; 0; 0], 15%nat); ([198; 51; 100; 0], 24%nat); ([203; 0; 113; 0], 24%nat);
   ([224; 0; 0; 0], 4%nat); ([240; 0; 0; 0], 4%nat)].
(** Unspecified, loopback, unique local, link local, multicast. *)
Definition blocks6 : list (ip * nat) :=
  [(IPv6unspecified, 128%nat); (IPv6loopback, 128%nat); (252 :: replicate 15 0, 7%nat);
   (254 :: 128 :: replicate 14 0, 10%nat); (255 :: replicate 15 0, 8%nat)].

Definition isByte (b : Z) : Prop := 0 <= b < 256.

(** A property of a byte that is checked on all of them. *)
Lemma byte_check (p : Z -> bool) : forallb p (seqZ 0 256) = true -> forall b, isByte b -> p b = true.
Proof. intros H b Hb. rewrite forallb_forall in H. apply H, list_elem_of_In, elem_of_seqZ. unfold isByte in Hb. lia. Qed.
Lemma byte_eq (p q : Z -> bool) : forallb (fun b => Bool.eqb (p b) (q b)) (seqZ 0 256) = true ->
  forall b, isByte b -> p b = q b.
Proof. intros H b Hb. by apply eqb_prop, (byte_check (fun b => Bool.eqb (p b) (q b)) H). Qed.

(** ** The text of an address determines what the table of metadata asks *)

Lemma hex_value_app s c acc :
  hex_value acc (s ++ String c EmptyString) = hex_value acc s * 16 + default 0 (unhex (ord c)).
Proof. revert acc. induction s as [|d s IH]; intros acc; cbn; [done|]. apply IH. Qed.

Lemma unhex_digit n : 0 <= n < 16 -> default 0 (unhex (ord (hex_digit n))) = n.
Proof.
  intros Hn. pose proof (byte_check (fun n => (16 <=? n) || (default 0 (unhex (ord (hex_digit n))) =? n)) eq_refl n) as H.
  specialize (H ltac:(unfold isByte; lia)). cbv beta in H. destruct (Z.leb_spec 16 n); [lia|]. by apply Z.eqb_eq.
Qed.

Lemma hexOf_value fuel n : 0 <= n < 16 ^ Z.of_nat fuel -> hex_value 0 (hexOf fuel n) = n.
Proof.
  revert n. induction fuel as [|fuel IH]; intros n Hn; [cbn in *; lia|]. cbn [hexOf].
  rewrite Nat2Z.inj_succ, Z.pow_succ_r in Hn by lia. pose proof (Z.mod_pos_bound n 16 ltac:(lia)).
  rewrite hex_value_app, unhex_digit by lia. pose proof (Z.div_mod n 16 ltac:(lia)).
  destruct (Z.ltb_spec n 16); [cbn; rewrite Z.mod_small in * by lia; lia|].
  rewrite IH; [lia|]. split; [apply Z.div_pos; lia|]. apply Z.div_lt_upper_bound; lia.
Qed.

Lemma hexOf_count fuel n c : 0 <= n -> is_digit c = false -> between (ord "a") (ord "f") c = false ->
  count_byte (hexOf fuel n) c = 0.
Proof.
  intros Hn Hd Ha. revert n Hn. induction fuel as [|fuel IH]; intros n Hn; [done|]. cbn [hexOf].
  rewrite count_byte_app.
  assert (count_byte (if n <? 16 then EmptyString else hexOf fuel (n / 16)) c = 0) as ->.
  { case_if; [done|]. apply IH. apply Z.div_pos; lia. }
  cbn [count_byte]. pose proof (Z.mod_pos_bound n 16 ltac:(lia)).
  rewrite hex_digit_ord by lia. unfold is_digit, between in *. revert Hd Ha. ords.
  destruct (Z.eqb_spec (if n mod 16 <? 10 then 48 + n mod 16 else 87 + n mod 16) c); [|done].
  destruct (Z.ltb_spec (n mod 16) 10); lia.
Qed.

Lemma join_groups_dot gs i run : Forall (fun g => 0 <= g) gs -> count_byte (join_groups gs i run) (ord ".") = 0.
Proof.
  intros H. revert i. induction H as [|g gs Hg _ IH]; intros i; cbn [join_groups]; [done|].
  repeat case_if; rewrite ?count_byte_app, ?IH, ?hexOf_count by done; done.
Qed.

Lemma groups_range a : Forall isByte a -> Forall (fun g => 0 <= g < 65536) (groups a).
Proof.
  revert a. fix IH 1. intros [|x [|y a]] H; cbn; [done..|].
  apply Forall_cons in H as [Hx H]. apply Forall_cons in H as [Hy H]. unfold isByte in *.
  constructor; [lia|]. by apply IH.
Qed.

(** What follows the first group begins with a colon, if there is any. *)
Lemma join_groups_next gs run : (run.1 = 0%nat -> run.2 = 0%nat) ->
  join_groups gs 1 run = EmptyString \/ exists rest, join_groups gs 1 run = String ":"%char rest.
Proof.
  intros Hr. destruct gs as [|g gs]; cbn [join_groups]; [by left|]. right.
  destruct ((run.1 =? 1)%nat && (run.1 <? 2)%nat) eqn:E0.
  all: destruct run as [s e]; cbn [fst snd] in *.
  all: destruct (Nat.eqb_spec s 1), (Nat.ltb_spec s e), (Nat.ltb_spec s 1), (Nat.ltb_spec 1 e), (Nat.eqb_spec 1 e);
    cbn; try lia; by eexists.
Qed.

Lemma v6_metadata a : List.length a = 16%nat -> Forall isByte a -> ipv6Text a = "fd00:ec2::254" -> byteOf a 0 = 253.
Proof.
  intros Hl Ha E. pose proof (groups_range a Ha) as Hg. unfold ipv6Text in E.
  destruct a as [|x [|y a]]; try done. cbn [groups byteOf nth] in *.
  apply Forall_cons in Ha as [Hx Ha]. apply Forall_cons in Ha as [Hy _]. apply Forall_cons in Hg as [Hg _].
  set (run := zeroRun _ _ _) in E. cbn [join_groups] in E.
  destruct ((run.1 =? 0)%nat && (run.1 <? run.2)%nat) eqn:E0; [discriminate E|].
  destruct ((run.1 <? 0)%nat && (0 <? run.2)%nat) eqn:E1.
  { destruct (Nat.ltb_spec run.1 0); [lia|discriminate E1]. }
  cbn [Nat.eqb orb] in E.
  assert (run.1 = 0%nat -> run.2 = 0%nat) as Hr.
  { intros H0. rewrite H0 in E0. destruct (Nat.ltb_spec 0 run.2); [discriminate E0|lia]. }
  assert (hexOf 4 (x * 256 + y) = "fd00") as Hh.
  { destruct (join_groups_next (groups a) run Hr) as [E2| (rest & E2)]; rewrite E2 in E.
    - exfalso. assert (count_byte (hexOf 4 (x * 256 + y)) (ord ":") = 0) as Hc by (apply hexOf_count; [lia|done..]).
      rewrite str_app_nil_r in E. change ((EmptyString ++ hexOf 4 (x * 256 + y))%string) with (hexOf 4 (x * 256 + y)) in E.
      rewrite E in Hc. discriminate Hc.
    - apply (app_sep_inj ":"%char _ rest "fd00" "ec2::254"); [apply hexOf_count; [lia|done..]|done|exact E]. }
  assert (x * 256 + y = 64768) by (rewrite <-(hexOf_value 4 (x * 256 + y)) by (cbn; lia); by rewrite Hh).
  unfold isByte in *. lia.
Qed.

Lemma Itoa_list_inj a b : Forall isByte a -> Forall isByte b -> Itoa <$> a = Itoa <$> b -> a = b.
Proof.
  intros Ha. revert b. induction Ha as [|x a Hx _ IH]; intros [|y b] Hb E; try done.
  apply Forall_cons in Hb as [Hy Hb]. cbn in E. injection E as E1 E2. unfold isByte in *.
  rewrite (Itoa_inj x y) by (lia || done). f_equal. by apply IH.
Qed.

Lemma v4_text a b : Forall isByte a -> Forall isByte b -> a <> [] -> b <> [] ->
  Join (Itoa <$> a) "." = Join (Itoa <$> b) "." -> a = b.
Proof.
  intros Ha Hb Na Nb E. apply Itoa_list_inj; [done..|].
  assert (forall l, Forall isByte l -> Forall (fun s => count_byte s (ord ".") = 0) (Itoa <$> l)) as Hc.
  { intros l Hl. apply Forall_fmap. eapply Forall_impl; [exact Hl|]. intros z Hz.
    apply Itoa_count; [unfold isByte in Hz; lia|done]. }
  apply (Join_sep_inj "."%char); [by destruct a|by destruct b|by apply Hc|by apply Hc|exact E].
Qed.

(** What the table asks, read off the bytes. *)
Lemma metadata_bytes a : (List.length a = 4%nat \/ List.length a = 16%nat) -> Forall isByte a -> To4 a = None \/ To4 a = Some a ->
  mem_str (IPString a) prohibitedMetadata = true ->
  (To4 a = Some a /\ byteOf a 0 = 169 /\ byteOf a 1 = 254) \/ (To4 a = None /\ byteOf a 0 = 253).
Proof.
  intros Hl Ha H4 Hm. unfold mem_str in Hm. apply existsb_exists in Hm as (t & Ht & E). apply String.eqb_eq in E.
  assert (forall l, count_byte (Join (Itoa <$> l) ".") (ord ".") = 0 -> (List.length l <= 1)%nat) as Hdots.
  { intros [|x [|y l]] H0; [cbn; lia..|].
    change (Join (Itoa <$> x :: y :: l) ".") with (Itoa x ++ "." ++ Join (Itoa <$> y :: l) ".")%string in H0.
    rewrite !count_byte_app in H0. change (count_byte "." (ord ".")) with 1 in H0.
    pose proof (count_byte_nonneg (Itoa x) (ord ".")).
    pose proof (count_byte_nonneg (Join (Itoa <$> y :: l) ".") (ord ".")). lia. }
  unfold IPString in E. destruct H4 as [H4|H4]; rewrite H4 in E.
  - right. split; [done|]. destruct Hl as [Hl|Hl]; [unfold To4 in H4; by rewrite Hl in H4|].
    destruct Ht as [<-|[<-|[<-|[]]]]; [| |by apply v6_metadata].
    all: exfalso; assert (count_byte (ipv6Text a) (ord ".") = 0) as Hc
      by (apply join_groups_dot; eapply Forall_impl; [by apply groups_range|]; intros g [Hg _]; exact Hg).
    all: rewrite E in Hc; discriminate Hc.
  - left. split; [done|]. assert (a <> []) by (by destruct a, Hl).
    destruct Ht as [<-|[<-|[<-|[]]]].
    + rewrite (v4_text a [169; 254; 169; 254]); [done|done| |done|done|exact E].
      repeat constructor; done.
    + rewrite (v4_text a [169; 254; 170; 2]); [done|done| |done|done|exact E].
      repeat constructor; done.
    + exfalso. specialize (Hdots a). rewrite E in Hdots. specialize (Hdots eq_refl). destruct Hl; lia.
Qed.
(** ** Classes by bytes *)

Lemma bool_decide_cons (x y : Z) (l m : list Z) :
  bool_decide (x :: l = y :: m) = (x =? y) && bool_decide (l = m).
Proof.
  destruct (Z.eqb_spec x y) as [->|Hn]; cbn.
  - apply bool_decide_ext. split; [by intros [= ->]|by intros ->].
  - apply bool_decide_eq_false. congruence.
Qed.

(** Masks as quotients. *)
Lemma mask_multicast b : isByte b -> (Z.land b 240 =? 224) = (b / 16 =? 14).
Proof. apply (byte_eq (fun b => Z.land b 240 =? 224) (fun b => b / 16 =? 14) eq_refl). Qed.
Lemma mask_172 b : isByte b -> (Z.land b 240 =? 16) = (b / 16 =? 1).
Proof. apply (byte_eq (fun b => Z.land b 240 =? 16) (fun b => b / 16 =? 1) eq_refl). Qed.
Lemma mask_100 b : isByte b -> (Z.land b 192 =? 64) = (b / 64 =? 1).
Proof. apply (byte_eq (fun b => Z.land b 192 =? 64) (fun b => b / 64 =? 1) eq_refl). Qed.
Lemma mask_198 b : isByte b -> (Z.land b 254 =? 18) = (b / 2 =? 9).
Proof. apply (byte_eq (fun b => Z.land b 254 =? 18) (fun b => b / 2 =? 9) eq_refl). Qed.
Lemma mask_ula b : isByte b -> (Z.land b 254 =? 252) = (b / 2 =? 126).
Proof. apply (byte_eq (fun b => Z.land b 254 =? 252) (fun b => b / 2 =? 126) eq_refl). Qed.
Lemma mask_link b : isByte b -> (Z.land b 192 =? 128) = (b / 64 =? 2).
Proof. apply (byte_eq (fun b => Z.land b 192 =? 128) (fun b => b / 64 =? 2) eq_refl). Qed.

Lemma top_reserved b : isByte b -> (240 <=? b) = (b / 16 =? 15).
Proof. apply (byte_eq (fun b => 240 <=? b) (fun b => b / 16 =? 15) eq_refl). Qed.

(** Comparisons of constants evaluated, and a byte split on a constant; what is
    left is a tautology of the comparisons. *)
Ltac eval_eqb :=
  repeat match goal with
  | |- context [Z.eqb ?x ?y] =>
    let v := eval vm_compute in (Z.eqb x y) in
    first [unify v true | unify v false]; change (Z.eqb x y) with v
  | |- context [Z.leb ?x ?y] =>
    let v := eval vm_compute in (Z.leb x y) in
    first [unify v true | unify v false]; change (Z.leb x y) with v
  end; cbn [andb orb negb].
Ltac by_atoms :=
  repeat (match goal with |- context [Z.eqb ?x ?y] => destruct (Z.eqb x y) end; cbn [andb orb negb]; try reflexivity);
  reflexivity.
Ltac at_byte b c := destruct (Z.eqb_spec b c) as [->|]; [eval_eqb; by_atoms|]; cbn [andb orb negb].

Lemma unsafe_v4 b0 b1 b2 b3 : isByte b0 -> isByte b1 -> isByte b2 -> isByte b3 ->
  IsUnsafeIP (Some [b0; b1; b2; b3]) = existsb (inBlock [b0; b1; b2; b3]) blocks4.
Proof.
  intros H0 H1 H2 H3. unfold IsUnsafeIP. cbn [normalizedIP To4 List.length Nat.eqb].
  destruct (mem_str _ _) eqn:Em.
  { assert (Forall isByte [b0; b1; b2; b3]) as Hb by (repeat (apply Forall_cons; split; [done|]); constructor).
    destruct (metadata_bytes [b0; b1; b2; b3]) as [(_ & E0 & E1)|[E _]]; [by left|done|by right|done| |done].
    cbn in E0, E1. subst. by vm_compute. }
  unfold IsGlobalUnicast, IsUnspecified, IPIsLoopback, IsMulticast, IsLinkLocalUnicast, IsLinkLocalMulticast, IsPrivate, Equal.
  unfold IPv4zero, IPv4bcast, IPv6unspecified.
  cbn -[Z.land Z.div Z.eqb Z.leb bool_decide].
  rewrite !bool_decide_cons, !bool_decide_true by done.
  rewrite mask_multicast, mask_172, mask_100, mask_198, top_reserved by done.
  change (2 ^ (8 - Z.of_nat 2)) with 64. change (2 ^ (8 - Z.of_nat 4)) with 16. change (2 ^ (8 - Z.of_nat 7)) with 2.
  change (64 / 64) with 1. change (16 / 16) with 1. change (18 / 2) with 9. change (224 / 16) with 14. change (240 / 16) with 15.
  eval_eqb. clear Em H3. unfold isByte in *.
  at_byte b0 127. at_byte b0 0. at_byte b0 169. at_byte b0 224. at_byte b0 10. at_byte b0 172. at_byte b0 192.
  at_byte b0 100. at_byte b0 198. at_byte b0 203. at_byte b0 255.
  by_atoms.
Qed.
Lemma Equal_v6 a b : List.length a = 16%nat -> List.length b = 16%nat -> Equal a b = bool_decide (a = b).
Proof. intros Ha Hb. unfold Equal, To16. by rewrite Ha, Hb. Qed.
Lemma Equal_v4 a b : List.length a = 16%nat -> To4 a = None -> List.length b = 4%nat -> Equal a b = false.
Proof.
  intros Ha H4 Hb. unfold Equal, To16. rewrite Ha, Hb. cbn [Nat.eqb]. apply bool_decide_eq_false. intros ->.
  unfold To4 in H4. rewrite Ha in H4. cbn [Nat.eqb andb] in H4.
  rewrite take_app_length' in H4 by done. by rewrite bool_decide_true in H4.
Qed.

Lemma inBlock_all a base : List.length a = 16%nat -> List.length base = 16%nat ->
  inBlock a (base, 128%nat) = bool_decide (a = base).
Proof.
  intros Ha Hb. unfold inBlock. rewrite Ha, Hb. change (Nat.div 128 8) with 16%nat.
  rewrite !take_ge by lia. cbn. by rewrite andb_true_r.
Qed.

Lemma unsafe_v6 a : List.length a = 16%nat -> To4 a = None -> Forall isByte a ->
  IsUnsafeIP (Some a) = existsb (inBlock a) blocks6.
Proof.
  intros Hl H4 Ha. assert (isByte (byteOf a 0) /\ isByte (byteOf a 1)) as [H0 H1].
  { destruct a as [|x [|y a]]; try done. apply Forall_cons in Ha as [? Ha]. by apply Forall_cons in Ha as [? _]. }
  unfold blocks6. cbn [existsb]. rewrite !inBlock_all by done.
  assert (inBlock a (252 :: replicate 15 0, 7%nat) = (byteOf a 0 / 2 =? 126)) as ->
    by (unfold inBlock; rewrite Hl; done).
  assert (inBlock a (254 :: 128 :: replicate 14 0, 10%nat) = (byteOf a 0 =? 254) && (byteOf a 1 / 64 =? 2)) as ->.
  { destruct a as [|x [|y a]]; try done. unfold inBlock. rewrite Hl.
    change (Nat.div 10 8) with 1%nat. cbn [take List.length Nat.eqb]. rewrite bool_decide_cons, bool_decide_true by done.
    cbn. by rewrite andb_true_r. }
  assert (inBlock a (255 :: replicate 15 0, 8%nat) = (byteOf a 0 =? 255)) as ->.
  { destruct a as [|x a]; try done. unfold inBlock. rewrite Hl.
    change (Nat.div 8 8) with 1%nat. cbn [take List.length Nat.eqb]. rewrite bool_decide_cons, bool_decide_true by done.
    cbn. by rewrite !andb_true_r. }
  unfold IsUnsafeIP. cbn [normalizedIP]. rewrite H4. unfold To16. rewrite Hl. cbn [Nat.eqb].
  destruct (mem_str _ _) eqn:Em.
  { destruct (metadata_bytes a) as [[E _]|[_ E]]; [by right|done|by left|done|congruence|].
    rewrite E. cbn. by rewrite !orb_true_r. }
  unfold IsGlobalUnicast, IsUnspecified, IPIsLoopback, IsMulticast, IsLinkLocalUnicast, IsLinkLocalMulticast, IsPrivate.
  rewrite H4, Hl, (Equal_v4 a IPv4zero), (Equal_v4 a IPv4bcast), !Equal_v6 by done. cbn [Nat.eqb andb orb negb].
  rewrite mask_ula, mask_link by done.
  destruct (bool_decide (a = IPv6loopback)), (bool_decide (a = IPv6unspecified)), (byteOf a 0 =? 255),
    (byteOf a 0 =? 254), (byteOf a 1 / 64 =? 2), (byteOf a 0 / 2 =? 126), (Z.land (byteOf a 1) 15 =? 2); reflexivity.
Qed.

(** The proxy's address policy is exactly a list of address blocks: an address
    is refused if it is no IPv4 or IPv6 address, or lies, an IPv4-mapped one
    unwrapped, in one of the blocks of [blocks4] or [blocks6]; the metadata
    addresses the code lists besides are in them. *)
Theorem IsUnsafeIP_blocks a : Forall isByte a ->
  IsUnsafeIP (Some a) =
  match normalizedIP (Some a) with
  | None => true
  | Some n => existsb (inBlock n) (if (List.length n =? 4)%nat then blocks4 else blocks6)
  end.
Proof.
  intros Ha. unfold normalizedIP. destruct (To4 a) as [v4|] eqn:E4.
  - assert (List.length v4 = 4%nat /\ Forall isByte v4 /\ To4 v4 = Some v4) as (Hl & Hv & H4).
    { unfold To4 in *. destruct (Nat.eqb_spec (List.length a) 4); [injection E4 as <-; by rewrite e|].
      destruct (Nat.eqb_spec (List.length a) 16) as [E16|]; [|done]. case_bool_decide; [|done]. injection E4 as <-.
      rewrite length_drop, E16. split_and!; [done|by apply Forall_drop|done]. }
    assert (normalizedIP (Some a) = normalizedIP (Some v4)) as En by (cbn [normalizedIP]; by rewrite E4, H4).
    assert (IsUnsafeIP (Some a) = IsUnsafeIP (Some v4)) as -> by (unfold IsUnsafeIP; by rewrite En).
    rewrite Hl. destruct v4 as [|b0 [|b1 [|b2 [|b3 [|]]]]]; try done.
    repeat (apply Forall_cons in Hv as [? Hv]). by apply unsafe_v4.
  - unfold To16. unfold To4 in E4. destruct (Nat.eqb_spec (List.length a) 4); [done|].
    destruct (Nat.eqb_spec (List.length a) 16) as [E16|]; cbn in *.
    + rewrite E16. cbn [Nat.eqb]. apply unsafe_v6; [done| |done]. unfold To4. rewrite E16. exact E4.
    + unfold IsUnsafeIP, normalizedIP, To4, To16.
      destruct (Nat.eqb_spec (List.length a) 4); [done|]. by destruct (Nat.eqb_spec (List.length a) 16).
Qed.

(** Addresses that embed the metadata address for a translator (NAT64, 6to4) lie
    in no block. *)
Example embedded_metadata :
  (fun s => IsUnsafeIP (netParseIP s)) <$> ["169.254.169.254"; "::ffff:169.254.169.254"; "64:ff9b::169.254.169.254"; "2002:a9fe:a9fe::"] =
  [true; true; false; false].
Proof. vm_compute. reflexivity. Qed.
Lemma IsUnsafeIP_blocks_witness : Forall isByte (replicate 10 0 ++ [255; 255; 100; 127; 0; 9]) /\
  IsUnsafeIP (Some (replicate 10 0 ++ [255; 255; 100; 127; 0; 9])) =
  match normalizedIP (Some (replicate 10 0 ++ [255; 255; 100; 127; 0; 9])) with
  | None => true
  | Some n => existsb (inBlock n) (if (List.length n =? 4)%nat then blocks4 else blocks6)
  end.
Proof.
  assert (Forall isByte (replicate 10 0 ++ [255; 255; 100; 127; 0; 9])) as H
    by (cbn; repeat (apply Forall_cons; split; [done|]); constructor).
  split; [exact H|]. exact (IsUnsafeIP_blocks _ H).
Defined.

(** ** Resolution *)

(** An address the policy lets through for a host. *)
Definition permitted (host : string) (allow : option TargetAllowFunc) (a : ip) : Prop :=
  IsUnsafeIP (Some a) = false \/ exists f, allow = Some f /\ f host a = true.

Lemma checkAnswers_None host ips allow : checkAnswers host ips allow = None ->
  forall x, x ∈ ips -> exists a, normalizedIP x = Some a /\ permitted host allow a.
Proof.
  induction ips as [|y ips IH]; intros H x Hx; [by apply not_elem_of_nil in Hx|]. cbn in H.
  destruct (normalizedIP y) as [a|] eqn:Ey; [|done].
  destruct (IsUnsafeIP (Some a) && _) eqn:Eb; [done|].
  apply elem_of_cons in Hx as [->|Hx]; [|by apply IH]. exists a. split; [done|]. unfold permitted.
  destruct (IsUnsafeIP (Some a)); [|by left]. right. destruct allow as [f|]; [|done]. exists f. split; [done|].
  by destruct (f host a).
Qed.

Section Resolved.
Context (LookupIP : string -> result (list (option ip))).

Lemma ResolveAndValidate_ok host allow ips : ResolveAndValidate LookupIP host allow = Ok ips ->
  ips <> [] /\ (forall x, x ∈ ips -> exists a, x = Some a /\ permitted host allow a) /\
  match netParseIP host with
  | Some a => ips = [normalizedIP (Some a)]
  | None => exists answers, LookupIP host = Ok answers /\ ips = normalizedIP <$> answers
  end.
Proof.
  unfold ResolveAndValidate. destruct (netParseIP host) as [a|].
  - unfold ValidateResolvedIPs. destruct (checkAnswers host [Some a] allow) eqn:E; [done|]. intros H. injection H as <-.
    split; [done|]. split; [|done]. intros x Hx%list_elem_of_singleton. subst x.
    destruct (checkAnswers_None _ _ _ E (Some a)) as (b & Eb & Hb); [by apply list_elem_of_singleton|]. eauto.
  - destruct (_ || _); [done|]. destruct (LookupIP host) as [answers|]; [|done].
    unfold ValidateResolvedIPs. destruct answers as [|y answers]; [done|].
    destruct (checkAnswers host (y :: answers) allow) eqn:E; [done|]. intros H. injection H as <-.
    split; [done|]. split; [|by eexists]. intros x Hx.
    assert (x ∈ normalizedIP <$> y :: answers) as (z & -> & Hz)%list_elem_of_fmap by exact Hx.
    destruct (checkAnswers_None _ _ _ E z Hz) as (b & -> & Hb). eauto.
Qed.

Context {C : Type} (DialContext : nat -> string -> result C).

Lemma dialEach_spec n addresses dialled conn : dialEach DialContext n addresses = (dialled, conn) ->
  dialled `prefix_of` addresses /\
  (forall i address, S i < List.length dialled -> dialled !! i = Some address -> is_ok (DialContext (n + i) address) = false)%nat /\
  match conn with
  | None => dialled = addresses
  | Some c => exists before address, dialled = before ++ [address] /\ DialContext (n + List.length before)%nat address = Ok c
  end.
Proof.
  revert n dialled. induction addresses as [|a addresses IH]; intros n dialled; cbn [dialEach].
  - intros H. injection H as <- <-. split_and!; [done|intros i address Hi; cbn in Hi; lia|done].
  - destruct (DialContext n a) eqn:Ea.
    + intros H. injection H as <- <-. split_and!; [by exists addresses|intros i address Hi; cbn in Hi; lia|].
      exists [], a. split; [done|]. by rewrite Nat.add_0_r.
    + destruct (dialEach DialContext (S n) addresses) as [d c] eqn:E. intros H. injection H as <- <-.
      destruct (IH _ _ E) as ([k ->] & Hb & Hc). split_and!; [by exists k| |].
      * intros [|i] address Hi Hl; [cbn in Hl; injection Hl as ->; by rewrite Nat.add_0_r, Ea|].
        cbn in Hi, Hl. rewrite Nat.add_succ_r, <-Nat.add_succ_l. apply Hb; [lia|done].
      * destruct c as [c|]; [|by f_equal]. destruct Hc as (before & address & -> & Hc). exists (a :: before), address.
        split; [done|]. cbn [List.length]. by rewrite Nat.add_succ_r, <-Nat.add_succ_l.
Qed.

Lemma parsePort_nonneg port : 0 <= parsePort port.
Proof.
  unfold parsePort. destruct (_ || _); [lia|]. generalize 0 at 2. induction (runes port) as [|c rs IH]; intros z; cbn.
  - destruct (Z.ltb_spec z 1), (Z.ltb_spec 65535 z); cbn; lia.
  - repeat (case_if; [lia|]). apply IH.
Qed.

(** What a host stands for: the address it spells, or the answers of its one
    resolution. *)
Definition answersOf (host : string) (answers : list (option ip)) : Prop :=
  match netParseIP host with
  | Some a => answers = [Some a]
  | None => LookupIP host = Ok answers
  end.

Lemma ResolveAndValidate_answers host allow ips : ResolveAndValidate LookupIP host allow = Ok ips ->
  exists answers, answersOf host answers /\ answers <> [] /\ ips = normalizedIP <$> answers /\
  forall x, x ∈ answers -> exists a, normalizedIP x = Some a /\ permitted host allow a.
Proof.
  intros H. pose proof (ResolveAndValidate_ok host allow ips H) as (Hne & Hall & Hips). unfold answersOf.
  destruct (netParseIP host) as [a|].
  - exists [Some a]. split_and!; [done..|]. intros x ->%list_elem_of_singleton. apply Hall. rewrite Hips.
    by apply list_elem_of_singleton.
  - destruct Hips as (answers & Hl & ->). exists answers. split_and!; [done| |done|].
    + by intros ->.
    + intros x Hx. apply Hall. by apply list_elem_of_fmap_2.
Qed.

(** C26. A validated dial connects nowhere else. Either nothing is dialled and
    the dial fails, or the host and port are well formed and the host has
    answers (the one it spells itself, or those that the one resolution of it
    gave), of which the policy permits every single one, so that nothing is
    dialled when any answer is prohibited; then what is dialled is a beginning
    of the list of the answers' literals with the port asked for, in the order
    of the answers, each but the last to no avail: up to the connection that is
    returned, or, when the dial fails, every one of them. *)
Theorem DialValidated_pinned hostport allow :
  let '(dialled, r) := DialValidated LookupIP DialContext hostport allow in
  dialled = [] /\ is_ok r = false \/
  exists host port answers, SplitHostPort hostport = Some (host, port) /\ host <> EmptyString /\ 0 < parsePort port /\
    answersOf host answers /\ answers <> [] /\
    (forall x, x ∈ answers -> exists a, normalizedIP x = Some a /\ permitted host allow a) /\
    let addresses := (fun x => JoinHostPort (textOf (normalizedIP x)) port) <$> answers in
    dialled `prefix_of` addresses /\
    (forall i address, S i < List.length dialled -> dialled !! i = Some address -> is_ok (DialContext i address) = false)%nat /\
    match r with
    | Ok c => exists before address, dialled = before ++ [address] /\ DialContext (List.length before) address = Ok c
    | Err _ => dialled = addresses
    end.
Proof.
  unfold DialValidated. destruct (SplitHostPort hostport) as [[host port]|]; [|by left].
  destruct ((host =? "")%string || (parsePort port =? 0)) eqn:Ep; [by left|].
  destruct (ResolveAndValidate LookupIP host allow) as [ips|err] eqn:Er; [|by left].
  destruct (dialEach DialContext 0 _) as [dialled conn] eqn:Ed. right.
  apply dialEach_spec in Ed as (Hp & Hb & Hc).
  apply ResolveAndValidate_answers in Er as (answers & Ha & Hne & -> & Hall). exists host, port, answers.
  apply orb_false_iff in Ep as [Eh%eqb_false_str Ep]. pose proof (parsePort_nonneg port).
  rewrite <-list_fmap_compose in Hp, Hc. unfold compose in Hp, Hc.
  split_and!; try done; [lia|]. by destruct conn.
Qed.
End Resolved.
End ProxyNet.
