(* ===== verification/ProxyFront.v ===== *)
(** * The proxy's boundary (proxy/connect.go, auth.go, limits.go, transport.go)

    What a client's request has to be before anything is done with it: its
    credential, its size, its destination; and how the parent proxy is addressed. *)

From Stdlib Require Import ZArith Lia Ascii.
From stdpp Require Import base gmap strings list.
From S2P Require Import Prelude GoStrings GoEncoding GoNet.
From S2P Require Import AwsTypes.
From S2P Require Import Endpoint.
From S2P Require Import ProxyNet.

Module ProxyFront.
Import AwsTypes.AwsTypes ProxyNet.ProxyNet.

(** ** Basic credentials (auth.go, and encodeStdBase64 of transport.go) *)

Definition alphabet : string := "ABCDEFGHIJKLMNOPQRSTUVWXYZabcdefghijklmnopqrstuvwxyz0123456789+/".
Definition alphabetAt (i : Z) : ascii := match String.get (Z.to_nat i) alphabet with Some c => c | None => "000"%char end.

(** [encodeStdBase64], over the bytes. *)
Fixpoint encodeBytes (value : list Z) : string :=
  match value with
  | [] => EmptyString
  | [a] =>
    String (alphabetAt (Z.shiftr a 2)) (String (alphabetAt (Z.lor (Z.shiftl (Z.land a 3) 4) (Z.shiftr 0 4))) "==")
  | [a; b] =>
    String (alphabetAt (Z.shiftr a 2)) (String (alphabetAt (Z.lor (Z.shiftl (Z.land a 3) 4) (Z.shiftr b 4)))
      (String (alphabetAt (Z.lor (Z.shiftl (Z.land b 15) 2) (Z.shiftr 0 6))) "="))
  | a :: b :: c :: value =>
    String (alphabetAt (Z.shiftr a 2)) (String (alphabetAt (Z.lor (Z.shiftl (Z.land a 3) 4) (Z.shiftr b 4)))
      (String (alphabetAt (Z.lor (Z.shiftl (Z.land b 15) 2) (Z.shiftr c 6)))
        (String (alphabetAt (Z.land c 63)) (encodeBytes value))))
  end.
Definition encodeStdBase64 (value : string) : string := encodeBytes (bytes value).
Definition base64Encode (value : string) : string := encodeStdBase64 value.

(** [base64.StdEncoding.DecodeString]: line breaks are skipped, padding is
    required, and the unused bits of a last quantum are not looked at. *)
Definition symbol (c : Z) : option Z :=
  if is_upper c then Some (c - ord "A")
  else if is_lower c then Some (c - ord "a" + 26)
  else if is_digit c then Some (c - ord "0" + 52)
  else if c =? ord "+" then Some 62 else if c =? ord "/" then Some 63 else None.

Fixpoint decodeQuanta (cs : list Z) : option (list Z) :=
  match cs with
  | [] => Some []
  | a :: b :: c :: d :: cs =>
    match symbol a, symbol b with
    | Some va, Some vb =>
      let x := (va * 4 + vb / 16) mod 256 in
      if c =? ord "=" then if (d =? ord "=") && (List.length cs =? 0)%nat then Some [x] else None
      else match symbol c with
      | None => None
      | Some vc =>
        let y := (vb * 16 + vc / 4) mod 256 in
        if d =? ord "=" then if (List.length cs =? 0)%nat then Some [x; y] else None
        else match symbol d with
        | None => None
        | Some vd => cons x <$> (cons y <$> (cons ((vc * 64 + vd) mod 256) <$> decodeQuanta cs))
        end
      end
    | _, _ => None
    end
  | _ => None
  end.
Definition textOfBytes (bs : list Z) : string := foldr (fun b s => String (chr b) s) EmptyString bs.
Definition DecodeString (s : string) : option string :=
  let cs := List.filter (fun c => negb ((c =? 13) || (c =? 10))) (bytes s) in
  (fun bs => textOfBytes bs) <$> decodeQuanta cs.

Section Authentication.
Context `{U : UnicodeTables} (sha256 : string -> string).

(** [Authenticator]: the digest of the credential expected. *)
Record Authenticator := mkAuthenticator { expectedDigest : string }.

Definition NewAuthenticator (username password : string) : result Authenticator :=
  if (username =? "")%string || (password =? "")%string ||
     bytes_any (fun c => (c =? 0) || (c =? 13) || (c =? 10)) (username ++ password)
  then Err (ErrNew "proxy Basic credentials are required")
  else Ok (mkAuthenticator (sha256 (username ++ ":" ++ password))).

Definition hasBasicCredentialSeparator (decoded : string) : bool := 0 <=? IndexByte decoded (ord ":").

(** [Authenticate] of the request's header; [ConstantTimeCompare] compares. *)
Definition Authenticate (a : option Authenticator) (h : header) : bool :=
  match a with
  | None => false
  | Some a =>
    let value := TrimSpace (header_Get h "Proxy-Authorization") in
    if (slen value <? slen "Basic ") || negb (EqualFold (str_take 6 value) "Basic ") then false
    else match DecodeString (TrimSpace (str_drop 6 value)) with
    | None => false
    | Some decoded =>
      if negb (hasBasicCredentialSeparator decoded) then false
      else (sha256 decoded =? expectedDigest a)%string
    end
  end.
Definition CheckBasicAuth (h : header) (username password : string) : bool :=
  match NewAuthenticator username password with Err _ => false | Ok auth => Authenticate (Some auth) h end.
End Authentication.

(** ** Limits (limits.go); durations in nanoseconds *)

Record Limits := mkLimits {
  MaxHeaderBytes : Z; MaxHeaderCount : Z; MaxRequestLine : Z; MaxBodyBytes : Z; MaxInMemoryBodyBytes : Z;
  MaxSpoolBodyBytes : Z; ReadHeaderTimeout : Z; ReadTimeout : Z; WriteTimeout : Z; IdleTimeout : Z; ConnectTimeout : Z;
}.
Definition second : Z := 1000000000.
Definition DefaultMaxHeaderBytes : Z := 65536.
Definition DefaultMaxHeaderCount : Z := 100.
Definition DefaultMaxRequestLine : Z := 8192.
Definition DefaultMaxInMemoryBodyBytes : Z := 8388608.
Definition DefaultMaxSpoolBodyBytes : Z := 67108864.
Definition DefaultLimits : Limits :=
  mkLimits DefaultMaxHeaderBytes DefaultMaxHeaderCount DefaultMaxRequestLine DefaultMaxSpoolBodyBytes
    DefaultMaxInMemoryBodyBytes DefaultMaxSpoolBodyBytes (10 * second) (30 * second) (30 * second) (60 * second)
    (10 * second).

Definition orDefault (v d : Z) : Z := if v <=? 0 then d else v.
Definition withDefaults (l : Limits) : Limits :=
  let spool := if MaxSpoolBodyBytes l <=? 0
               then if 0 <? MaxBodyBytes l then MaxBodyBytes l else MaxSpoolBodyBytes DefaultLimits
               else MaxSpoolBodyBytes l in
  let body := if MaxBodyBytes l <=? 0 then spool else MaxBodyBytes l in
  let memory := orDefault (MaxInMemoryBodyBytes l) (MaxInMemoryBodyBytes DefaultLimits) in
  let memory := if spool <? memory then spool else memory in
  mkLimits (orDefault (MaxHeaderBytes l) (MaxHeaderBytes DefaultLimits))
    (orDefault (MaxHeaderCount l) (MaxHeaderCount DefaultLimits))
    (orDefault (MaxRequestLine l) (MaxRequestLine DefaultLimits)) body memory spool
    (orDefault (ReadHeaderTimeout l) (ReadHeaderTimeout DefaultLimits))
    (orDefault (ReadTimeout l) (ReadTimeout DefaultLimits)) (orDefault (WriteTimeout l) (WriteTimeout DefaultLimits))
    (orDefault (IdleTimeout l) (IdleTimeout DefaultLimits)) (orDefault (ConnectTimeout l) (ConnectTimeout DefaultLimits)).

(** The loops of [validateRequest] over the header, in the order of iteration. *)
Fixpoint checkValues (l : Limits) (key : string) (values : list string) : option error :=
  match values with
  | [] => None
  | value :: values =>
    if (MaxHeaderBytes l <? slen value) || (MaxHeaderBytes l <? slen key + slen value)
    then Some (ErrNew "proxy header exceeds limit") else checkValues l key values
  end.
Fixpoint checkHeader (l : Limits) (h : list (string * list string)) (count : Z) : Z + error :=
  match h with
  | [] => inl count
  | (key, values) :: h =>
    let count := count + Z.of_nat (List.length values) in
    if (List.length values =? 0)%nat || (MaxHeaderBytes l <? slen key) then inr (ErrNew "proxy header is invalid")
    else match checkValues l key values with Some err => inr err | None => checkHeader l h count end
  end.
Definition validateRequest (l : Limits) (requestURI : string) (h : list (string * list string)) (contentLength : Z)
  : option error :=
  if MaxRequestLine l <? slen requestURI then Some (ErrNew "proxy request line exceeds limit")
  else match checkHeader l h 0 with
  | inr err => Some err
  | inl count =>
    if MaxHeaderCount l <? count then Some (ErrNew "proxy header count exceeds limit")
    else if MaxSpoolBodyBytes l <? contentLength then Some (ErrNew "proxy request body exceeds limit") else None
  end.

(** ** Destinations (connect.go) *)

Record destination := mkDest { d_Host : string; d_Port : Z }.
Definition authority (d : destination) : string := JoinHostPort (d_Host d) (Itoa (d_Port d)).
Definition dest_equal (d other : destination) : bool := (d_Host d =? d_Host other)%string && (d_Port d =? d_Port other).

Section Destinations.
Context `{U : UnicodeTables} (ToASCII : string -> result string).

Definition normalizeHostOnly (host : string) (port : Z) : result (string * Z) :=
  match netParseIP host with
  | Some a => Ok (IPString a, port)
  | None =>
    match Endpoint.Endpoint.NormalizeEndpointHost ToASCII host with
    | Err _ => Err (ErrNew "destination hostname is malformed")
    | Ok (normalized, _) => Ok (normalized, port)
    end
  end.

(** The bracketed form: [end_] is the place of the closing bracket. *)
Definition normalizeBracketed (authority : string) : result (string * Z) :=
  let malformed := Err (ErrNew "destination IPv6 authority is malformed") in
  match index_byte authority (ord "]") with
  | None => malformed
  | Some end_ =>
    if (end_ =? 1)%nat then malformed
    else
      let host := str_drop 1 (str_take end_ authority) in
      if bytes_any (Z.eqb (ord "%")) host then malformed
      else match netParseIP host with
      | None => malformed
      | Some a =>
        let rest := str_drop (S end_) authority in
        match (if (rest =? "")%string then inl 443
               else if negb (bool_decide (byte_at rest 0 = Some (ord ":"))) then inr (ErrNew "destination IPv6 authority is malformed")
               else let port := parsePort (str_drop 1 rest) in
                    if port =? 0 then inr (ErrNew "destination port is invalid") else inl port) with
        | inr err => Err err
        | inl port => match To4 a with Some _ => malformed | None => Ok (IPString a, port) end
        end
      end
  end.

Definition NormalizeAuthority (authority : string) : result (string * Z) :=
  if (authority =? "")%string || negb (TrimSpace authority =? authority)%string ||
     bytes_any (fun c => (c =? 0) || (c =? 13) || (c =? 10) || in_set "/@" c) authority
  then Err (ErrNew "destination authority is malformed")
  else if HasPrefix authority "[" then normalizeBracketed authority
  else if 1 <? count_byte authority (ord ":") then Err (ErrNew "unbracketed IPv6 authority is malformed")
  else match index_byte authority (ord ":") with
  | Some i =>
    let host := str_take i authority in let portText := str_drop (S i) authority in
    if (host =? "")%string || (portText =? "")%string then Err (ErrNew "destination authority port is malformed")
    else
      let port := parsePort portText in
      if port =? 0 then Err (ErrNew "destination port is invalid") else normalizeHostOnly host port
  | None => normalizeHostOnly authority 443
  end.

(** What the destination is read from: [req.Host], [req.RequestURI], and the
    URL: its scheme and host, when there is one. *)
Record target := mkTarget { t_Host : string; t_RequestURI : string; t_URL : option (string * string) }.
Definition requestAuthority (req : target) (connect : bool) : string :=
  if connect then if negb (t_Host req =? "")%string then t_Host req else t_RequestURI req
  else match t_URL req with
  | Some (scheme, host) => if negb (scheme =? "")%string && negb (host =? "")%string then host else t_Host req
  | None => t_Host req
  end.
Definition parseRequestDestination (req : target) (connect : bool) : result destination :=
  let a := requestAuthority req connect in
  let a := match t_URL req with
           | Some (scheme, _) =>
             if negb connect && negb (EqualFold scheme "https") && negb (bytes_any (Z.eqb (ord ":")) a)
             then (a ++ ":80")%string else a
           | None => a
           end in
  match NormalizeAuthority a with Err err => Err err | Ok (host, port) => Ok (mkDest host port) end.

(** [parseInnerDestination] (server.go). *)
Definition parseInnerDestination (req : target) : result destination :=
  if (t_Host req =? "")%string then Err (ErrNew "inner Host is required")
  else match NormalizeAuthority (t_Host req) with
  | Err err => Err err
  | Ok (name, port) =>
    let disagrees := match t_URL req with
      | Some (scheme, host) =>
        if negb (scheme =? "")%string && negb (host =? "")%string
        then match NormalizeAuthority host with
             | Err _ => true
             | Ok (urlName, urlPort) => negb (urlName =? name)%string || negb (urlPort =? port)
             end
        else false
      | None => false
      end in
    if disagrees then Err (ErrNew "inner URL authority does not match Host") else Ok (mkDest name port)
  end.

Definition validateHostAgreement (connectHost innerHost : string) : option error :=
  match NormalizeAuthority connectHost with
  | Err err => Some err
  | Ok (connectName, connectPort) =>
    match NormalizeAuthority innerHost with
    | Err err => Some err
    | Ok (innerName, innerPort) =>
      if negb (connectName =? innerName)%string || negb (connectPort =? innerPort)
      then Some (ErrNew "inner Host does not match CONNECT authority") else None
    end
  end.

(** [classifyDestination] with the answer of the classifier on the host. *)
Definition classifyDestination (answer : result AWSEndpoint) (dest : destination) : result (option AWSEndpoint) :=
  match answer with
  | Ok endpoint =>
    if negb (d_Port dest =? 443) || negb (ep_Host endpoint =? d_Host dest)%string
    then Err (ErrNew "AWS endpoint port is not TLS")
    else if negb (err_nil (Endpoint_Validate endpoint)) then Err (ErrNew "AWS endpoint metadata is invalid")
    else Ok (Some endpoint)
  | Err _ =>
    if Endpoint.Endpoint.LooksLikeAWSHost ToASCII (d_Host dest)
    then Err (ErrNew "unsupported or unsafe AWS endpoint") else Ok None
  end.
End Destinations.

(** [validateListenAddr] (server.go). *)
Definition validateListenAddr (value : string) : option error :=
  match SplitHostPort value with
  | Some (host, portText) =>
    if negb (host =? "127.0.0.1")%string || (portText =? "")%string
    then Some (ErrNew "proxy must bind to 127.0.0.1")
    else match Atoi portText with
    | Some port => if (port <? 0) || (65535 <? port) then Some (ErrNew "proxy listen port is invalid") else None
    | None => Some (ErrNew "proxy listen port is invalid")
    end
  | None => Some (ErrNew "proxy must bind to 127.0.0.1")
  end.

(** ** base64 *)

(** A test of a closed interval, by computation. *)
Lemma interval_check (p : Z -> bool) (n : nat) :
  forallb (fun i => p (Z.of_nat i)) (seq 0 n) = true -> forall z, 0 <= z < Z.of_nat n -> p z = true.
Proof.
  intros H z Hz. rewrite forallb_forall in H. rewrite <-(Z2Nat.id z) by lia. apply H. apply in_seq. lia.
Qed.
Lemma alphabet_symbol i : 0 <= i < 64 ->
  symbol (ord (alphabetAt i)) = Some i /\ 43 <= ord (alphabetAt i) < 123 /\ ord (alphabetAt i) <> 61.
Proof.
  intros Hi.
  assert (H : (bool_decide (symbol (ord (alphabetAt i)) = Some i) && between 43 122 (ord (alphabetAt i)) &&
               negb (ord (alphabetAt i) =? 61))%bool = true).
  { revert i Hi. apply (interval_check _ 64). vm_compute. reflexivity. }
  apply andb_true_iff in H as [H ?]. apply andb_true_iff in H as [H1 H2].
  apply bool_decide_eq_true in H1. unfold between in H2. split; [done|]. lia.
Qed.
Lemma join_4_2 x y : 0 <= x < 4 -> 0 <= y < 16 -> Z.lor (Z.shiftl x 4) y = x * 16 + y.
Proof.
  intros Hx Hy. apply Z.eqb_eq. revert y Hy. apply (interval_check _ 16). revert x Hx.
  apply (interval_check _ 4). vm_compute. reflexivity.
Qed.
Lemma join_2_4 x y : 0 <= x < 16 -> 0 <= y < 4 -> Z.lor (Z.shiftl x 2) y = x * 4 + y.
Proof.
  intros Hx Hy. apply Z.eqb_eq. revert y Hy. apply (interval_check _ 4). revert x Hx.
  apply (interval_check _ 16). vm_compute. reflexivity.
Qed.
Lemma land_low a : Z.land a 3 = a mod 4 /\ Z.land a 15 = a mod 16 /\ Z.land a 63 = a mod 64.
Proof. split_and!; [apply (Z.land_ones a 2)|apply (Z.land_ones a 4)|apply (Z.land_ones a 6)]; lia. Qed.
Lemma shiftr_high a : Z.shiftr a 2 = a / 4 /\ Z.shiftr a 4 = a / 16 /\ Z.shiftr a 6 = a / 64.
Proof.
  split_and!; [apply (Z.shiftr_div_pow2 a 2)|apply (Z.shiftr_div_pow2 a 4)|apply (Z.shiftr_div_pow2 a 6)]; lia.
Qed.
#[local] Ltac bits := Z.to_euclidean_division_equations; lia.
(** The four groups of six bits, as arithmetic. *)
Lemma groups a b c : 0 <= a < 256 -> 0 <= b < 256 -> 0 <= c < 256 ->
  Z.shiftr a 2 = a / 4 /\ Z.lor (Z.shiftl (Z.land a 3) 4) (Z.shiftr b 4) = a mod 4 * 16 + b / 16 /\
  Z.lor (Z.shiftl (Z.land b 15) 2) (Z.shiftr c 6) = b mod 16 * 4 + c / 64 /\ Z.land c 63 = c mod 64.
Proof.
  intros Ha Hb Hc. destruct (land_low a) as (Ha3 & _), (land_low b) as (_ & Hb15 & _), (land_low c) as (_ & _ & ->).
  destruct (shiftr_high a) as (-> & _), (shiftr_high b) as (_ & Hb4 & _), (shiftr_high c) as (_ & _ & Hc6).
  rewrite Ha3, Hb15, Hb4, Hc6, join_4_2, join_2_4; [done|..]; bits.
Qed.

(** An encoded text: its bytes are of the alphabet or padding, no line breaks
    among them, and the quanta decode to the value. *)
Lemma encodeBytes_decodes : forall value, Forall (fun b => 0 <= b < 256) value ->
  decodeQuanta (bytes (encodeBytes value)) = Some value /\
  Forall (fun c => 43 <= c < 123) (bytes (encodeBytes value)).
Proof.
  fix IH 1. intros value Hv. destruct value as [|a [|b [|c value]]]; [done|..];
    repeat match goal with H : Forall _ (_ :: _) |- _ => apply Forall_cons in H as [? H] end.
  - destruct (groups a 0 0) as (E1 & E2 & _); [lia..|]. cbn [encodeBytes bytes]. rewrite E1, E2.
    destruct (alphabet_symbol (a / 4)) as (S1 & ? & _); [bits|].
    destruct (alphabet_symbol (a mod 4 * 16 + 0 / 16)) as (S2 & ? & _); [bits|].
    split; [|repeat (apply Forall_cons; split; [by vm_compute || lia|]); by repeat constructor].
    cbn [decodeQuanta]. rewrite S1, S2. cbn. repeat f_equal. bits.
  - destruct (groups a b 0) as (E1 & E2 & E3 & _); [lia..|]. cbn [encodeBytes bytes]. rewrite E1, E2, E3.
    destruct (alphabet_symbol (a / 4)) as (S1 & ? & _); [bits|].
    destruct (alphabet_symbol (a mod 4 * 16 + b / 16)) as (S2 & ? & _); [bits|].
    destruct (alphabet_symbol (b mod 16 * 4 + 0 / 64)) as (S3 & ? & N3); [bits|].
    split; [|repeat (apply Forall_cons; split; [by vm_compute || lia|]); by repeat constructor].
    cbn [decodeQuanta]. rewrite S1, S2, S3. change (ord "=") with 61. rewrite (proj2 (Z.eqb_neq _ _) N3). cbn. repeat f_equal; bits.
  - destruct (IH value Hv) as [Hd Hr]. destruct (groups a b c) as (E1 & E2 & E3 & E4); [lia..|].
    cbn [encodeBytes bytes]. rewrite E1, E2, E3, E4.
    destruct (alphabet_symbol (a / 4)) as (S1 & ? & _); [bits|].
    destruct (alphabet_symbol (a mod 4 * 16 + b / 16)) as (S2 & ? & _); [bits|].
    destruct (alphabet_symbol (b mod 16 * 4 + c / 64)) as (S3 & ? & N3); [bits|].
    destruct (alphabet_symbol (c mod 64)) as (S4 & ? & N4); [bits|].
    split; [|by repeat (apply Forall_cons; split; [lia|])].
    cbn [decodeQuanta]. rewrite S1, S2, S3, S4, Hd. change (ord "=") with 61.
    rewrite (proj2 (Z.eqb_neq _ _) N3), (proj2 (Z.eqb_neq _ _) N4). cbn [fmap option_fmap option_map].
    repeat f_equal; bits.
Qed.
Lemma textOfBytes_bytes s : textOfBytes (bytes s) = s.
Proof. induction s as [|c s IH]; [done|].
  change (String (chr (ord c)) (textOfBytes (bytes s)) = String c s). by rewrite chr_ord, IH.
Qed.

(** Base64 loses nothing: what the standard library's decoder reads from a
    text of the proxy's own encoder is the value that was encoded. *)
Theorem base64_roundtrip (value : string) : DecodeString (base64Encode value) = Some value.
Proof.
  unfold DecodeString, base64Encode, encodeStdBase64.
  destruct (encodeBytes_decodes (bytes value) (bytes_range value)) as [Hd Hr].
  rewrite (List.forallb_filter_id _ _); [rewrite Hd; by apply (f_equal Some), textOfBytes_bytes|].
  apply forallb_forall. intros c Hc. rewrite Forall_forall in Hr. apply list_elem_of_In, Hr in Hc. lia.
Qed.

(** ** The proxy credential *)

Lemma decode_ascii s : is_ascii s = true -> decode s = (fun b => (b, 1)) <$> bytes s.
Proof.
  unfold is_ascii. induction s as [|c s IH]; [done|]. cbn [bytes_all bytes]. intros H.
  apply andb_true_iff in H as [Hc H]. rewrite decode_ascii_cons by lia. by rewrite IH.
Qed.
Lemma content_length_full (l : list Z) : forall pos best, l <> [] -> IsSpace (List.last l 0) = false ->
  content_length ((fun b => (b, 1)) <$> l) pos best = pos + Z.of_nat (List.length l).
Proof.
  induction l as [|b l IH]; [done|]. intros pos best _ Hl. cbn [fmap list_fmap content_length].
  destruct l as [|b' l]; [cbn in *; rewrite Hl; lia|]. rewrite IH; [cbn [List.length]; lia|done|done].
Qed.
Lemma str_take_full s : str_take (String.length s) s = s.
Proof. induction s as [|c s IH]; [done|]. cbn. by rewrite IH. Qed.

(** ASCII text that neither starts nor ends in white space is left as it is. *)
Lemma TrimSpace_tight s : is_ascii s = true -> IsSpace (List.hd 0 (bytes s)) = false ->
  IsSpace (List.last (bytes s) 0) = false -> TrimSpace s = s.
Proof.
  intros Ha Hh Hl. unfold TrimSpace. rewrite (decode_ascii s Ha).
  assert (Ht : trim_left_space ((fun b => (b, 1)) <$> bytes s) s = s).
  { destruct s as [|c s]; [done|]. cbn in *. by rewrite Hh. }
  rewrite Ht, (decode_ascii s Ha). destruct (decide (bytes s = [])) as [E|E].
  - by apply (bytes_inj s "") in E as ->.
  - rewrite content_length_full by done. rewrite bytes_length, Z.add_0_l, Nat2Z.id. apply str_take_full.
Qed.
Lemma is_ascii_bytes s : Forall (fun c => 43 <= c < 123) (bytes s) -> is_ascii s = true.
Proof.
  unfold is_ascii. rewrite bytes_all_forallb. intros H. apply forallb_forall. intros c Hc.
  rewrite Forall_forall in H. apply list_elem_of_In, H in Hc. lia.
Qed.
Lemma graphic_ends (l : list Z) : Forall (fun c => 43 <= c < 123) l ->
  IsSpace (List.hd 48 l) = false /\ IsSpace (List.last l 48) = false.
Proof.
  intros H. assert (Hs : forall c, 43 <= c < 123 -> IsSpace c = false) by (intros c ?; unfold IsSpace, between; lia).
  split; apply Hs; [destruct H; cbn; lia|].
  destruct l as [|x l] using rev_ind; [cbn; lia|]. rewrite last_last. apply Forall_app in H as [_ H]. by inversion H.
Qed.
Lemma last_default (d d' : Z) (b : Z) l : List.last (b :: l) d = List.last (b :: l) d'.
Proof. revert b. induction l as [|b' l IH]; [done|]. intros b. apply (IH b'). Qed.
Lemma encoded_tight value : is_ascii (encodeStdBase64 value) = true /\
  TrimSpace (encodeStdBase64 value) = encodeStdBase64 value.
Proof.
  destruct (encodeBytes_decodes (bytes value) (bytes_range value)) as [_ Hr].
  pose proof (is_ascii_bytes _ Hr) as Ha. split; [done|].
  destruct (graphic_ends _ Hr) as [Hh Hl]. change (encodeBytes (bytes value)) with (encodeStdBase64 value) in *.
  destruct (bytes (encodeStdBase64 value)) as [|b l] eqn:E; [by apply (bytes_inj _ "") in E as ->|].
  apply TrimSpace_tight; [done|by rewrite E|]. by rewrite E, (last_default 0 48).
Qed.

Lemma encoded_nonempty u v : encodeStdBase64 (u ++ ":" ++ v) <> EmptyString.
Proof.
  intros E. pose proof (base64_roundtrip (u ++ ":" ++ v)) as R. unfold base64Encode in R. rewrite E in R.
  destruct u; discriminate.
Qed.
Lemma str_cut n s : s = (str_take n s ++ str_drop n s)%string.
Proof. revert s. induction n as [|n IH]; intros [|c s]; [done..|]. exact (f_equal (String c) (IH s)). Qed.

(** What a header with the credential of [value] is taken apart to. *)
Lemma basic_header value : encodeStdBase64 value <> EmptyString ->
  let sent := ("Basic " ++ encodeStdBase64 value)%string in
  TrimSpace sent = sent /\ str_take 6 sent = "Basic "%string /\
  TrimSpace (str_drop 6 sent) = encodeStdBase64 value /\ (slen sent <? 6) = false.
Proof.
  intros Hne sent. destruct (encoded_tight value) as [Ha Ht].
  assert (Hb : bytes sent = bytes "Basic " ++ bytes (encodeStdBase64 value)) by apply bytes_app.
  split_and!.
  - apply TrimSpace_tight; [done|done|]. rewrite Hb. destruct (encodeBytes_decodes (bytes value) (bytes_range value)) as [_ Hr].
    change (encodeBytes (bytes value)) with (encodeStdBase64 value) in Hr. apply graphic_ends in Hr as [_ Hl].
    destruct (bytes (encodeStdBase64 value)) as [|b l] eqn:E; [by apply (bytes_inj _ "") in E|].
    rewrite (last_default 48 0) in Hl. exact Hl.
  - done.
  - exact Ht.
  - unfold sent. rewrite slen_app. change (slen "Basic ") with 6. pose proof (slen_nonneg (encodeStdBase64 value)). lia.
Qed.

Section AuthenticationTheorems.
Context `{U : UnicodeTables} (sha256 : string -> string).

(** The proxy admits the holder of the run's credential and, up to a
    collision of SHA-256, nobody else: the header a client builds from the
    username and password is accepted, and what is accepted is a Basic
    credential that decodes to exactly [username:password], or to another text
    with the same digest. *)
Theorem Authenticate_exact (username password : string) (a : Authenticator) (h : header) :
  NewAuthenticator sha256 username password = Ok a ->
  let credential := (username ++ ":" ++ password)%string in
  (header_Get h "Proxy-Authorization" = ("Basic " ++ base64Encode credential)%string ->
   Authenticate sha256 (Some a) h = true) /\
  (Authenticate sha256 (Some a) h = true ->
   exists scheme sent decoded,
     TrimSpace (header_Get h "Proxy-Authorization") = (scheme ++ sent)%string /\ EqualFold scheme "Basic " = true /\
     DecodeString (TrimSpace sent) = Some decoded /\
     (decoded = credential \/ decoded <> credential /\ sha256 decoded = sha256 credential)).
Proof.
  intros Hnew credential. unfold NewAuthenticator in Hnew.
  destruct (_ || _) in Hnew; [done|]. injection Hnew as <-.
  split.
  - intros Hh. unfold Authenticate. rewrite Hh. unfold base64Encode.
    destruct (basic_header credential (encoded_nonempty username password)) as (-> & -> & -> & Hlen).
    change (slen "Basic ") with 6. rewrite Hlen. cbn [orb negb].
    replace (EqualFold "Basic " "Basic ") with true by reflexivity.
    pose proof (base64_roundtrip credential) as Hr. unfold base64Encode in Hr. rewrite Hr. cbn [negb].
    assert (Hs : hasBasicCredentialSeparator credential = true).
    { unfold hasBasicCredentialSeparator, IndexByte, credential.
      destruct (index_byte (username ++ ":" ++ password) (ord ":")) eqn:E; [lia|exfalso].
      revert E. clear. induction username as [|c u IH]; [done|]. intros E. apply IH.
      change (index_byte (String c (u ++ ":" ++ password)) (ord ":") = None) in E. cbn [index_byte] in E.
      destruct (ord c =? ord ":"); [done|]. by apply fmap_None in E. }
    rewrite Hs. apply String.eqb_refl.
  - unfold Authenticate. set (value := TrimSpace _). destruct (_ || negb _) eqn:Es; [done|].
    apply orb_false_iff in Es as [_ Hf%negb_false_iff].
    destruct (DecodeString _) as [decoded|] eqn:Ed; [|done]. destruct (negb _); [done|].
    intros Heq%String.eqb_eq. exists (str_take 6 value), (str_drop 6 value), decoded.
    split_and!; [apply str_cut|done|done|].
    destruct (decide (decoded = credential)); [by left|by right].
Qed.
End AuthenticationTheorems.

Lemma Authenticate_exact_witness :
  let digest := fun s : string => s in
  let h : header := {[ "Proxy-Authorization"%string := ["Basic a29yZG46c2VjcmV0"%string] ]} in
  NewAuthenticator digest "kordn" "secret" = Ok (mkAuthenticator "kordn:secret") /\
  @Authenticate ascii_tables digest (Some (mkAuthenticator "kordn:secret")) h = true /\
  (exists scheme sent decoded,
     TrimSpace (header_Get h "Proxy-Authorization") = (scheme ++ sent)%string /\
     @EqualFold ascii_tables scheme "Basic " = true /\ DecodeString (TrimSpace sent) = Some decoded /\
     (decoded = "kordn:secret"%string \/ decoded <> "kordn:secret"%string /\ decoded = "kordn:secret"%string)).
Proof.
  intros digest h. assert (Hn : NewAuthenticator digest "kordn" "secret" = Ok (mkAuthenticator "kordn:secret")) by reflexivity.
  destruct (@Authenticate_exact ascii_tables digest "kordn" "secret" _ h Hn) as [Hok Hsound].
  assert (Ha : @Authenticate ascii_tables digest (Some (mkAuthenticator "kordn:secret")) h = true)
    by (apply Hok; vm_compute; reflexivity).
  split; [done|]. split; [done|]. exact (Hsound Ha).
Defined.

(** ** Limits *)

Lemma orDefault_pos v d : 0 < d -> 0 < orDefault v d.
Proof. unfold orDefault. case_if; lia. Qed.
Lemma orDefault_id v d : 0 < v -> orDefault v d = v.
Proof. unfold orDefault. case_if; lia. Qed.
Definition sane (m : Limits) : Prop :=
  0 < MaxHeaderBytes m /\ 0 < MaxHeaderCount m /\ 0 < MaxRequestLine m /\ 0 < MaxBodyBytes m /\
  0 < MaxInMemoryBodyBytes m <= MaxSpoolBodyBytes m /\
  0 < ReadHeaderTimeout m /\ 0 < ReadTimeout m /\ 0 < WriteTimeout m /\ 0 < IdleTimeout m /\ 0 < ConnectTimeout m.
Lemma withDefaults_fixed m : sane m -> withDefaults m = m.
Proof.
  destruct m. unfold sane, withDefaults. cbn -[Z.leb Z.ltb]. intros (?&?&?&?&?&?&?&?&?&?).
  assert (E : forall v, 0 < v -> (v <=? 0) = false) by lia.
  rewrite !orDefault_id, !E by lia. f_equal. case_if; lia.
Qed.
(** Every limit in force is positive, bodies kept in memory are no larger than
    bodies that may be spooled, and normalising twice changes nothing. *)
Theorem withDefaults_sane (l : Limits) : sane (withDefaults l) /\ withDefaults (withDefaults l) = withDefaults l.
Proof.
  assert (Hs : sane (withDefaults l)); [|split; [done|by apply withDefaults_fixed]].
  unfold sane, withDefaults. cbn -[Z.leb Z.ltb DefaultLimits].
  assert (0 < MaxSpoolBodyBytes DefaultLimits) by reflexivity.
  pose proof (orDefault_pos (MaxInMemoryBodyBytes l) (MaxInMemoryBodyBytes DefaultLimits) eq_refl).
  split_and!; try (apply orDefault_pos; reflexivity); repeat case_if; lia.
Qed.

(** What [validateRequest] accepts: every header has a value, no name, value or
    pair is over the limit, nor are their number, the request line and the
    announced body. *)
Lemma checkValues_spec l key values : checkValues l key values = None <->
  Forall (fun v => slen v <= MaxHeaderBytes l /\ slen key + slen v <= MaxHeaderBytes l) values.
Proof.
  induction values as [|v values IH]; cbn; [by split; [constructor|]|].
  rewrite Forall_cons. case_if; [split; [done|lia]|]. rewrite IH. split; [|naive_solver]. intros ?. split; [lia|done].
Qed.
Definition valueCount (h : list (string * list string)) : Z :=
  foldr (fun e n => Z.of_nat (List.length e.2) + n) 0 h.
Lemma checkHeader_spec l h : forall count n, checkHeader l h count = inl n <->
  n = count + valueCount h /\
  Forall (fun e => e.2 <> [] /\ slen e.1 <= MaxHeaderBytes l /\
    Forall (fun v => slen v <= MaxHeaderBytes l /\ slen e.1 + slen v <= MaxHeaderBytes l) e.2) h.
Proof.
  induction h as [|[key values] h IH]; intros count n; cbn [checkHeader].
  - unfold valueCount. cbn. rewrite Forall_nil. split; [intros [= <-]; split; [lia|done]|intros [-> _]; f_equal; lia].
  - rewrite Forall_cons. change (valueCount ((key, values) :: h)) with (Z.of_nat (List.length values) + valueCount h).
    cbn [fst snd]. rewrite <-checkValues_spec.
    destruct ((List.length values =? 0)%nat || (MaxHeaderBytes l <? slen key)) eqn:Ek.
    + split; [done|]. intros (_ & (Hne & Hle & _) & _). destruct values; [done|]. cbn in Ek. lia.
    + apply orb_false_iff in Ek as [Hne Hle]. destruct (checkValues l key values).
      * naive_solver.
      * rewrite IH. assert (values <> []) by (by intros ->). split.
        -- intros [-> ?]. split; [lia|]. split; [|done]. split_and!; [done|lia|done].
        -- intros (-> & (_ & _ & _) & ?). split; [lia|done].
Qed.
Theorem validateRequest_spec (l : Limits) (requestURI : string) (h : list (string * list string)) (contentLength : Z) :
  validateRequest l requestURI h contentLength = None <->
  slen requestURI <= MaxRequestLine l /\ contentLength <= MaxSpoolBodyBytes l /\ valueCount h <= MaxHeaderCount l /\
  Forall (fun e => e.2 <> [] /\ slen e.1 <= MaxHeaderBytes l /\
    Forall (fun v => slen v <= MaxHeaderBytes l /\ slen e.1 + slen v <= MaxHeaderBytes l) e.2) h.
Proof.
  unfold validateRequest. case_match eqn:Hu; [split; [done|lia]|].
  destruct (checkHeader l h 0) as [n|err] eqn:E.
  - apply checkHeader_spec in E as [-> HF]. rewrite Z.add_0_l.
    case_if; [split; [done|lia]|]. case_if; [split; [done|lia]|]. split; [|done]. intros _. split_and!; [lia..|done].
  - split; [done|]. intros (_ & _ & _ & HF).
    assert (checkHeader l h 0 = inl (0 + valueCount h)) by (by apply checkHeader_spec). congruence.
Qed.

(** ** Ports *)

Lemma portLoop_spec s : is_ascii s = true -> forall port, 0 <= port <= 65535 ->
  portLoop (runes s) port =
  if bytes_all is_digit s && between 1 65535 (decimal port s) then decimal port s else 0.
Proof.
  unfold is_ascii. induction s as [|c s IH]; cbn [bytes_all decimal]; intros Ha port Hp.
  - cbn. unfold between. repeat case_if; lia.
  - apply andb_true_iff in Ha as [Hc Ha]. rewrite runes_ascii_cons by lia. cbn [portLoop].
    unfold is_digit at 1, between at 1. change (ord "0") with 48. change (ord "9") with 57.
    destruct ((ord c <? 48) || (57 <? ord c)) eqn:Ed.
    + replace ((48 <=? ord c) && (ord c <=? 57)) with false by lia. done.
    + replace ((48 <=? ord c) && (ord c <=? 57)) with true by lia. cbn [andb].
      case_match eqn:Hbig; [|rewrite IH by (done || lia); done].
      destruct (bytes_all is_digit s) eqn:Es; [|done]. cbn [andb].
      assert (forall t p, bytes_all is_digit t = true -> 0 <= p -> p <= decimal p t) as Hmono.
      { clear. induction t as [|c t IH]; cbn [bytes_all decimal]; intros p H Hp; [lia|].
        apply andb_true_iff in H as [Hc H]. unfold is_digit, between in Hc. change (ord "0") with 48 in *. change (ord "9") with 57 in *.
        specialize (IH (p * 10 + (ord c - 48)) H). lia. }
      specialize (Hmono s (port * 10 + (ord c - 48)) Es). unfold between. case_if; lia.
Qed.

(** A port is read exactly when its text is one to five digits for a number
    from 1 to 65535: no sign, no white space, no overflow. *)
Theorem parsePort_spec (value : string) (n : Z) :
  parsePort value = n /\ n <> 0 <->
  slen value <= 5 /\ bytes_all is_digit value = true /\ decimal 0 value = n /\ 1 <= n <= 65535.
Proof.
  unfold parsePort. destruct ((value =? "")%string || (5 <? slen value)) eqn:E.
  - split; [lia|]. intros (? & _ & Hd & ?). apply orb_true_iff in E as [E%String.eqb_eq|E]; [subst value; cbn in Hd; lia|lia].
  - apply orb_false_iff in E as [_ E]. destruct (is_ascii value) eqn:Ea.
    + rewrite portLoop_spec by (done || lia). unfold between. case_match eqn:Hc.
      * split; [intros [<- ?]; apply andb_true_iff in Hc as [? ?]; split_and!; try done; lia|intros (_ & _ & <- & ?); split; [done|lia]].
      * split; [lia|]. intros (_ & Hd & Hn & ?). rewrite Hd in Hc. cbn [andb] in Hc. lia.
    + assert (bytes_all is_digit value = false) as Hnd.
      { apply not_true_is_false. intros Hd. unfold is_ascii in Ea. rewrite (bytes_all_weaken is_digit) in Ea; [done| |done].
        intros b _. unfold is_digit, between. change (ord "9") with 57. lia. }
      rewrite Hnd. split; [|naive_solver]. intros [Hp Hn]. exfalso. apply Hn. rewrite <-Hp. clear -Hnd.
      rewrite <-(runes_all_ascii is_digit) in Hnd; [|intros r Hr; unfold is_digit, between; change (ord "9") with 57; lia].
      assert (forall l p, forallb is_digit l = false -> portLoop l p = 0) as Hloop; [|by apply Hloop].
      clear. induction l as [|r l IH]; [done|]. cbn [forallb portLoop]. intros p Hl.
      unfold is_digit, between in Hl. case_match eqn:Hr; [done|]. case_match; [done|]. apply IH.
      apply andb_false_iff in Hl as [Hl|Hl]; [lia|done].
Qed.

(** ** Destinations *)

Section DestinationTheorems.
Context `{U : UnicodeTables} (ToASCII : string -> result string).

Lemma parsePort_range value : parsePort value <> 0 -> 1 <= parsePort value <= 65535.
Proof. intros H. destruct (proj1 (parsePort_spec value _) (conj eq_refl H)) as (_ & _ & _ & ?). done. Qed.
Lemma normalizeHostOnly_port host port name p : normalizeHostOnly ToASCII host port = Ok (name, p) -> p = port.
Proof.
  unfold normalizeHostOnly. destruct (netParseIP host); [by intros [= _ <-]|].
  destruct (Endpoint.Endpoint.NormalizeEndpointHost _ _) as [[? ?]|?]; [by intros [= _ <-]|done].
Qed.
Lemma index_byte_cut s c n : index_byte s c = Some n ->
  s = (str_take n s ++ String (chr c) (str_drop (S n) s))%string.
Proof.
  intros H. destruct (index_byte_split s c n H) as (l & a & r & -> & <- & <- & _).
  by rewrite str_take_app, str_drop_app, chr_ord.
Qed.

(** How a port can be written, and what is meant when none is. *)
Definition portWritten (text : string) (port : Z) : Prop :=
  text = EmptyString /\ port = 443 \/
  exists digits, text = (":" ++ digits)%string /\ parsePort digits = port /\ 1 <= port <= 65535.

(** What is accepted names one place: a name or an address, bare or in
    brackets (an IPv6 address only), then a port from 1 to 65535, 443 when none
    is written; no user information, no path, no control byte is in the text. *)
Theorem NormalizeAuthority_sound (a host : string) (port : Z) :
  NormalizeAuthority ToASCII a = Ok (host, port) ->
  1 <= port <= 65535 /\ bytes_any (fun c => (c =? 0) || (c =? 13) || (c =? 10) || in_set "/@" c) a = false /\
  exists written text, portWritten text port /\ normalizeHostOnly ToASCII written port = Ok (host, port) /\
    (a = (written ++ text)%string \/
     a = ("[" ++ written ++ "]" ++ text)%string /\
     exists ip, netParseIP written = Some ip /\ To4 ip = None /\ host = IPString ip).
Proof.
  assert (H443 : portWritten "" 443) by by left.
  unfold NormalizeAuthority. destruct (_ || _) eqn:Eb; [done|]. apply orb_false_iff in Eb as [_ Eb].
  destruct (HasPrefix a "[") eqn:Ep.
  - apply HasPrefix_app in Ep as [t ->]. unfold normalizeBracketed.
    destruct (index_byte _ _) as [e|] eqn:Ei; [|done]. destruct (e =? 1)%nat; [done|].
    assert (exists m, e = S m /\ index_byte t (ord "]") = Some m) as (m & -> & Ei').
    { change (index_byte (String "[" t) (ord "]") = Some e) in Ei. cbn [index_byte] in Ei.
      change (ord "[" =? ord "]") with false in Ei. cbn [fmap option_fmap option_map] in Ei.
      destruct (index_byte t _) as [m|]; [|done]. injection Ei as <-. by exists m. }
    change (str_drop 1 (str_take (S m) ("[" ++ t))) with (str_take m t).
    change (str_drop (S (S m)) ("[" ++ t)) with (str_drop (S m) t).
    pose proof (index_byte_cut t _ m Ei') as Et. change (chr (ord "]")) with "]"%char in Et.
    set (written := str_take m t) in *. set (rest := str_drop (S m) t) in *.
    destruct (bytes_any _ written); [done|]. destruct (netParseIP written) as [ip|] eqn:Eip; [|done].
    intros H.
    assert (portWritten rest port /\ To4 ip = None /\ host = IPString ip) as (Hw & H4 & ->).
    { destruct (rest =? "")%string eqn:Er.
      - apply String.eqb_eq in Er as ->. destruct (To4 ip); [done|]. injection H as <- <-. done.
      - destruct (negb _) eqn:Ec in H; [done|]. apply negb_false_iff, bool_decide_eq_true in Ec.
        destruct (parsePort _ =? 0) eqn:Ez in H; [done|]. apply Z.eqb_neq, parsePort_range in Ez. destruct (To4 ip); [done|]. injection H as <- <-.
        split; [|done]. right. exists (str_drop 1 rest). split; [|split; [done|exact Ez]].
        destruct rest as [|c rest]; [done|]. cbn in Ec. injection Ec as Ec. apply (ord_inj c ":") in Ec as ->.
        by destruct rest. }
    split; [destruct Hw as [[_ ->]|(? & _ & _ & ?)]; lia|]. split; [done|]. exists written, rest.
    split_and!; [done|unfold normalizeHostOnly; by rewrite Eip|]. right.
    split; [|by exists ip]. rewrite Et. done.
  - destruct (1 <? count_byte a _); [done|]. destruct (index_byte a (ord ":")) as [i|] eqn:Ei.
    + destruct (_ || _); [done|]. destruct (parsePort _ =? 0) eqn:Ez; [done|]. intros H.
      pose proof (normalizeHostOnly_port _ _ _ _ H) as Hport. rewrite <-Hport in H.
      assert (1 <= port <= 65535) by (rewrite Hport; apply parsePort_range; lia).
      split; [done|]. split; [done|]. exists (str_take i a), (":" ++ str_drop (S i) a)%string.
      split_and!; [right; by exists (str_drop (S i) a)|done|left]. exact (index_byte_cut a _ i Ei).
    + intros H. pose proof (normalizeHostOnly_port _ _ _ _ H) as ->. split; [lia|]. split; [done|].
      exists a, EmptyString. split_and!; [done|done|left]. by rewrite str_app_nil_r.
Qed.

(** What the proxy takes for an AWS endpoint is one: its port is 443, its
    name is the name asked for and its metadata passes the endpoint's validator;
    what it lets through as any other host is nothing that looks like an AWS
    host. A request for such a host that the classifier does not place is
    refused, whatever the port. *)
Theorem classifyDestination_safe (answer : result AWSEndpoint) (dest : destination) (found : option AWSEndpoint) :
  classifyDestination ToASCII answer dest = Ok found ->
  match found with
  | Some endpoint => answer = Ok endpoint /\ d_Port dest = 443 /\ ep_Host endpoint = d_Host dest /\
                     Endpoint_Validate endpoint = None
  | None => (exists err, answer = Err err) /\ Endpoint.Endpoint.LooksLikeAWSHost ToASCII (d_Host dest) = false
  end.
Proof.
  unfold classifyDestination. destruct answer as [endpoint|err].
  - destruct (_ || _) eqn:Ep; [done|]. apply orb_false_iff in Ep as [Ep Eh].
    destruct (Endpoint_Validate endpoint) eqn:Ev; [done|]. intros [= <-].
    apply negb_false_iff in Ep, Eh. apply String.eqb_eq in Eh. split_and!; [done|lia|done|done].
  - destruct (Endpoint.Endpoint.LooksLikeAWSHost _ _); [done|]. intros [= <-]. split; [by exists err|done].
Qed.

(** An inner request is for the host its header names, and a URL that names
    another is refused. *)
Lemma parseInnerDestination_agrees (req : target) (dest : destination) :
  parseInnerDestination ToASCII req = Ok dest ->
  NormalizeAuthority ToASCII (t_Host req) = Ok (d_Host dest, d_Port dest) /\
  (forall scheme host, t_URL req = Some (scheme, host) -> scheme <> EmptyString -> host <> EmptyString ->
   NormalizeAuthority ToASCII host = Ok (d_Host dest, d_Port dest)).
Proof.
  unfold parseInnerDestination. destruct (t_Host req =? "")%string; [done|].
  destruct (NormalizeAuthority ToASCII (t_Host req)) as [[name port]|err]; [|done].
  destruct (match t_URL req with Some _ => _ | None => _ end) eqn:Ed; [done|]. intros [= <-]. split; [done|].
  intros scheme host Hu Hs Hh. rewrite Hu in Ed. cbn [d_Host d_Port].
  rewrite (proj2 (String.eqb_neq _ _) Hs), (proj2 (String.eqb_neq _ _) Hh) in Ed. cbn [negb andb] in Ed.
  destruct (NormalizeAuthority ToASCII host) as [[n p]|]; [|done].
  apply orb_false_iff in Ed as [->%negb_false_iff%String.eqb_eq ->%negb_false_iff%Z.eqb_eq]. done.
Qed.
End DestinationTheorems.

Lemma classifyDestination_safe_witness :
  @classifyDestination ascii_tables (fun s => Ok s) (Err (ErrNew "unsupported")) (mkDest "example.com" 8443) = Ok None /\
  (exists err, Err (ErrNew "unsupported") = Err (A := AWSEndpoint) err) /\
  @Endpoint.Endpoint.LooksLikeAWSHost ascii_tables (fun s => Ok s) "example.com" = false.
Proof.
  assert (H : @classifyDestination ascii_tables (fun s => Ok s) (Err (ErrNew "unsupported")) (mkDest "example.com" 8443)
              = Ok None) by (vm_compute; reflexivity).
  split; [done|]. exact (@classifyDestination_safe ascii_tables (fun s => Ok s) _ _ _ H).
Defined.

(** A plaintext request without a port goes to port 80, except when the host is
    an IPv6 address: its brackets hold colons, so [:80] is not appended and
    [NormalizeAuthority] takes the TLS default. *)
Example plaintext_ports :
  let plain host := @parseRequestDestination ascii_tables (fun s => Ok s)
                      (mkTarget host ("http://" ++ host ++ "/") (Some ("http", host)%string)) false in
  plain "192.0.2.1"%string = Ok (mkDest "192.0.2.1" 80) /\ plain "[2001:db8::1]"%string = Ok (mkDest "2001:db8::1" 443).
Proof. split; vm_compute; reflexivity. Qed.
End ProxyFront.
