(* ===== verification/WireIndex.v ===== *)
(** * The wire index (awsrequest/wire_index.go, and the matchers of decode_json.go
      and decode_query.go that read it)

    What the pinned catalog says about the wire of each operation, indexed by
    what a request shows: its protocol, its Action and Version, its target, its
    route.  The catalog is the list of (service, operation) pairs that
    [ForEachWireOperation] visits, in its order. *)

From Stdlib Require Import ZArith Lia Ascii.
From stdpp Require Import base gmap strings list.
From S2P Require Import Prelude GoStrings GoEncoding.
From S2P Require Import AwsTypes.
From S2P Require Import CatalogTypes.

Module WireIndex.
Import AwsTypes.AwsTypes.
Export CatalogTypes.WireTypes.

(** [url.Values]. *)
Abbreviation Values := (gmap string (list string)).

(** [url.QueryUnescape]: as [PathUnescape], and a [+] is a space. *)
Fixpoint QueryUnescape (s : string) : option string :=
  match s with
  | EmptyString => Some EmptyString
  | String c s1 =>
    if ord c =? ord "%" then
      match s1 with
      | String h (String l s2) =>
        match unhex (ord h), unhex (ord l) with
        | Some h, Some l => String (chr (h * 16 + l)) <$> QueryUnescape s2
        | _, _ => None
        end
      | _ => None
      end
    else String (if ord c =? ord "+" then " "%char else c) <$> QueryUnescape s1
  end.

(** ** The index *)

Record protocolEvidence := mkPE { pe_protocol : string; valid : bool }.
Record wireCandidate := mkCandidate {
  name : string; apiVersion : string; targetPrefix : string; protocol : string; method : string;
  routeTarget : string; queryBindings : list QueryBinding; fixedQuery : Values; routePath : string;
  known : bool; routeValid : bool;
}.
(** The keys of the five maps, field by field. *)
Abbreviation key4 := (string * string * string * string)%type.

Record wireIndex := mkIndex {
  authority : gmap string (list protocolEvidence);
  query : gmap key4 (list wireCandidate);
  json : gmap key4 (list wireCandidate);
  variants : gmap key4 Z;
  rest : gmap key4 (list wireCandidate);
  modeled : gmap key4 (list wireCandidate);
}.
Definition emptyIndex : wireIndex := mkIndex ∅ ∅ ∅ ∅ ∅ ∅.

(** [m[k] = append(m[k], v)] and what a missing key reads as. *)
Definition bucket {K V} `{Countable K} (m : gmap K (list V)) (k : K) : list V := default [] (m !! k).
Definition appendTo {K V} `{Countable K} (m : gmap K (list V)) (k : K) (v : V) : gmap K (list V) :=
  <[k := bucket m k ++ [v]]> m.

(** The loop of [modeledWireQuery]. *)
Fixpoint modeledFields (fields : list string) (fixed : Values) : option Values :=
  match fields with
  | [] => Some fixed
  | field :: fields =>
    let '(k, v, has) := Cut field "=" in
    match QueryUnescape k with
    | None => None
    | Some key =>
      if (key =? "")%string then None
      else match (if has then QueryUnescape v else Some EmptyString) with
      | None => None
      | Some value =>
        match fixed !! key with Some _ => None | None => modeledFields fields (<[key := [value]]> fixed) end
      end
    end
  end.
Definition modeledWireQuery (raw : string) (present : bool) : option Values :=
  if negb present || (raw =? "")%string then Some ∅ else modeledFields (Split raw "&") ∅.

Definition indexRouteQuery (uri : string) : string * option Values :=
  let '(path, raw, present) := Cut uri "?" in
  (if (path =? "")%string then "/"%string else path, modeledWireQuery raw present).

Definition catalogProtocol (protocol jsonVersion : string) : option string :=
  if (protocol =? "query")%string then Some ProtocolQuery
  else if (protocol =? "ec2")%string then Some ProtocolEC2Query
  else if (protocol =? "rest-json")%string then Some ProtocolRESTJSON
  else if (protocol =? "rest-xml")%string then Some ProtocolRESTXML
  else if (protocol =? "json")%string then
    if (jsonVersion =? "1.0")%string then Some ProtocolJSON10
    else if (jsonVersion =? "1.1")%string then Some ProtocolJSON11 else None
  else None.

Definition isJSON (p : string) : bool := mem_str p [ProtocolJSON10; ProtocolJSON11].
Definition isQuery (p : string) : bool := mem_str p [ProtocolQuery; ProtocolEC2Query].
Definition isREST (p : string) : bool := mem_str p [ProtocolRESTJSON; ProtocolRESTXML].

Section Index.
Context `{U : UnicodeTables}.

(** [visit], with the models whose authority has been recorded; [None] is the
    malformed fixed query. *)
Definition nul : string := String (chr 0) EmptyString.
Definition authorityKey (s : WireService) (o : WireOperation) : string :=
  (EndpointPrefix s ++ nul ++ APIVersion s ++ nul ++ TargetPrefix s ++ nul ++ ws_Protocol s ++ nul ++
   JSONVersion (op_Route o))%string.
Definition recordAuthority (s : WireService) (o : WireOperation) (st : wireIndex * gset string) : wireIndex * gset string :=
  let (idx, models) := st in
  let key := authorityKey s o in
  if (ws_Protocol s =? "json")%string || negb (bool_decide (key ∈ models)) then
    let p := catalogProtocol (ws_Protocol s) (JSONVersion (op_Route o)) in
    (mkIndex (appendTo (authority idx) (EndpointPrefix s) (mkPE (default EmptyString p) (bool_decide (is_Some p))))
       (query idx) (json idx) (variants idx) (rest idx) (modeled idx), {[key]} ∪ models)
  else st.
Definition candidateOf (s : WireService) (o : WireOperation) (p : string) (fixed : Values) (path : string) : wireCandidate :=
  let r := op_Route o in
  mkCandidate (Name o) (APIVersion s) (TargetPrefix s) p (r_Method r) (r_TargetPrefix r) (op_QueryBindings o) fixed path
    (State o =? EvidenceKnown)%string (negb (URI r =? "")%string).
(** The buckets a candidate goes into. *)
Definition queryKey (c : wireCandidate) (prefix : string) : key4 := (prefix, protocol c, apiVersion c, name c).
Definition jsonKey (c : wireCandidate) (prefix : string) : key4 := (prefix, protocol c, targetPrefix c, name c).
Definition variantKey (c : wireCandidate) (prefix : string) : key4 := (prefix, protocol c, name c, routeTarget c).
Definition restKey (c : wireCandidate) (prefix : string) : key4 := (prefix, protocol c, ToUpper (method c), EmptyString).
Definition modeledKey (c : wireCandidate) (prefix : string) : key4 :=
  (prefix, protocol c, routePath c, ToUpper (method c)).
Definition addCandidate (prefix : string) (c : wireCandidate) (idx : wireIndex) : wireIndex :=
  let p := protocol c in
  mkIndex (authority idx)
    (if isQuery p then appendTo (query idx) (queryKey c prefix) c else query idx)
    (if isJSON p then appendTo (json idx) (jsonKey c prefix) c else json idx)
    (if isJSON p && negb (routeTarget c =? "")%string
     then <[variantKey c prefix := (default 0 (variants idx !! variantKey c prefix) + 1) mod 2 ^ 32]> (variants idx)
     else variants idx)
    (if isREST p then appendTo (rest idx) (restKey c prefix) c else rest idx)
    (if isJSON p || isQuery p then appendTo (modeled idx) (modeledKey c prefix) c else modeled idx).
Definition visit (st : wireIndex * gset string) (so : WireService * WireOperation) : option (wireIndex * gset string) :=
  let (s, o) := so in
  let (idx, models) := recordAuthority s o st in
  let (routePath, fixed) := indexRouteQuery (URI (op_Route o)) in
  match fixed with
  | None => None
  | Some fixed =>
    match catalogProtocol (ws_Protocol s) (JSONVersion (op_Route o)) with
    | None => Some (idx, models)
    | Some p => Some (addCandidate (EndpointPrefix s) (candidateOf s o p fixed routePath) idx, models)
    end
  end.
Fixpoint visitAll (st : wireIndex * gset string) (source : list (WireService * WireOperation)) : option (wireIndex * gset string) :=
  match source with
  | [] => Some st
  | so :: source => match visit st so with Some st => visitAll st source | None => None end
  end.
(** [defaultWireIndexOrNil]: the index of a source that has no malformed query. *)
Definition buildWireIndex (source : list (WireService * WireOperation)) : option wireIndex :=
  fst <$> visitAll (emptyIndex, ∅) source.

Definition indexRouteCandidates (c : wireIndex) (service protocol path method : string) : list wireCandidate :=
  bucket (modeled c) (service, protocol, path, ToUpper method).

(** ** What the index says of a request *)

(** [authoritativeProtocolFor]: the set of the protocols seen, once all are valid. *)
Definition authoritativeProtocolFor (c : option wireIndex) (service : string) : option string :=
  match c with
  | None => None
  | Some c =>
    if (service =? "")%string then None
    else
      let evidence := bucket (authority c) service in
      if negb (forallb valid evidence) then None
      else match elements (list_to_set (pe_protocol <$> evidence) : gset string) with
           | [found] => Some found
           | _ => None
           end
  end.

Definition catalogQueryOperation (c : option wireIndex) (service version protocol action : string) : bool :=
  match c with
  | None => false
  | Some c =>
    if (service =? "")%string || (version =? "")%string || (action =? "")%string then false
    else match bucket (query c) (service, protocol, version, action) with
         | [candidate] => known candidate
         | _ => false
         end
  end.

(** [targetOperationFor]; [protocol] empty stands for either JSON version. *)
Definition splitTarget (target : string) (max : Z) : option (string * string) :=
  if (slen target =? 0) || (max <? slen target) ||
     bytes_any (fun b => (b =? 0) || (b =? 13) || (b =? 10)) target then None
  else
    let sep := if bytes_any (Z.eqb (ord "#")) target then "#"%char else "."%char in
    if negb (count_byte target (ord sep) =? 1) then None
    else match SplitN target sep 2 with
    | [prefix; op] =>
      if (prefix =? "")%string || (op =? "")%string || negb (validOperation op) then None else Some (prefix, op)
    | _ => None
    end.
Definition targetOperationFor (target service protocol : string) (c : option wireIndex) (max : Z) : result string :=
  let ambiguous := Err (ErrNew "JSON operation is absent, contradictory, or ambiguous") in
  match c with
  | None => ambiguous
  | Some c =>
    match splitTarget target max with
    | None => Err (ErrNew "JSON target is malformed")
    | Some (prefix, op) =>
      let candidates :=
        if (protocol =? "")%string
        then bucket (json c) (service, ProtocolJSON10, prefix, op) ++ bucket (json c) (service, ProtocolJSON11, prefix, op)
        else bucket (json c) (service, protocol, prefix, op) in
      match candidates with
      | [candidate] =>
        if (1 <? default 0 (variants c !! (service, WireIndex.protocol candidate, op, prefix))) ||
           negb (routeTarget candidate =? prefix)%string then ambiguous
        else if negb (known candidate) then ambiguous else Ok op
      | _ => ambiguous
      end
    end
  end.

(** [wireQueryValuesMatch], and [wireQueryMatches] with the protocol. *)
Definition wireQueryValuesMatch (fixed actual : Values) : bool :=
  forallb (fun kv => bool_decide (actual !! kv.1 = Some kv.2)) (map_to_list fixed).
Definition wireQueryMatches (fixed actual : Values) (protocol : string) : bool :=
  wireQueryValuesMatch fixed actual && (if isJSON protocol then bool_decide (actual = ∅) else true).

(** [validateModeledWireRoute]: what the request selects, and the loop over the
    candidates of its route. *)
Definition selectedTarget (targets : list string) : string * string :=
  match targets with
  | [t] =>
    match Split t (if bytes_any (Z.eqb (ord "#")) t then "#"%char else "."%char) with
    | [prefix; name] => (prefix, name)
    | _ => (EmptyString, EmptyString)
    end
  | _ => (EmptyString, EmptyString)
  end.
(** Name, prefix and version; empty ones select nothing. *)
Definition selection (protocol : string) (q : Values) (targets : list string) : string * string * string :=
  if isJSON protocol then let (prefix, name) := selectedTarget targets in (name, prefix, EmptyString)
  else match q !! "Action"%string with
       | Some [action] =>
         if validOperation action
         then (action, EmptyString, match q !! "Version"%string with Some [v] => v | _ => EmptyString end)
         else (EmptyString, EmptyString, EmptyString)
       | _ => (EmptyString, EmptyString, EmptyString)
       end.
Definition selects (sel actual : string) : bool := (sel =? "")%string || (actual =? sel)%string.
Fixpoint routeMatches (service protocol : string) (sel : string * string * string) (method : string) (q : Values)
    (candidates : list wireCandidate) (matches : nat) : nat + error :=
  match candidates with
  | [] => inl matches
  | c :: candidates =>
    if negb (validEvidenceService service) || negb (validEvidenceOperation (name c)) ||
       (WireIndex.method c =? "")%string || negb (routeValid c)
    then inr (ErrNew "wire route model is malformed")
    else
      let on := EqualFold (WireIndex.method c) method && selects sel.1.1 (name c) && selects sel.1.2 (targetPrefix c) &&
                selects sel.2 (apiVersion c) && wireQueryMatches (fixedQuery c) q protocol in
      routeMatches service protocol sel method q candidates (if on then S matches else matches)
  end.
Definition validateModeledWireRoute (c : option wireIndex) (service protocol path method : string) (q : Values)
    (targets : list string) : option error :=
  match c with
  | None => Some (ErrNew "wire route is unavailable")
  | Some c =>
    if (service =? "")%string || negb (isJSON protocol || isQuery protocol) then Some (ErrNew "wire route is unavailable")
    else
      let path := if (path =? "")%string then "/"%string else path in
      if negb (HasPrefix path "/") || bytes_any (fun b => (b =? 0) || (b =? 13) || (b =? 10)) path
      then Some (ErrNew "wire route is malformed")
      else
        let method := ToUpper method in
        match routeMatches service protocol (selection protocol q targets) method q
                (indexRouteCandidates c service protocol path method) 0 with
        | inr err => Some err
        | inl O => Some (ErrNew "wire route conflicts with protocol operation")
        | inl (S _) => None
        end
  end.
End Index.

(** ** Lemmas: buckets *)

Lemma bucket_append {K V} `{Countable K} (m : gmap K (list V)) k v k' :
  bucket (appendTo m k v) k' = bucket m k' ++ (if decide (k = k') then [v] else []).
Proof.
  unfold bucket, appendTo. destruct (decide (k = k')) as [->|Hne].
  - by rewrite lookup_insert_eq.
  - by rewrite lookup_insert_ne, app_nil_r by done.
Qed.
Lemma bucket_append_if {K V} `{Countable K} (b : bool) (m : gmap K (list V)) k v k' :
  bucket (if b then appendTo m k v else m) k' = bucket m k' ++ (if b && bool_decide (k = k') then [v] else []).
Proof.
  destruct b; [|by rewrite app_nil_r]. rewrite bucket_append. cbn [andb].
  by destruct (decide (k = k')); [rewrite bool_decide_true|rewrite bool_decide_false].
Qed.

Section IndexTheorems.
Context `{U : UnicodeTables}.

(** The candidate an operation of the catalog makes, with its service's prefix. *)
Definition entry (so : WireService * WireOperation) : option (string * wireCandidate) :=
  let (s, o) := so in
  match catalogProtocol (ws_Protocol s) (JSONVersion (op_Route o)), indexRouteQuery (URI (op_Route o)) with
  | Some p, (routePath, Some fixed) => Some (EndpointPrefix s, candidateOf s o p fixed routePath)
  | _, _ => None
  end.
(** The candidates of a source under a key, one for each occurrence. *)
Definition occurrences (p : string -> bool) (key : wireCandidate -> string -> key4)
    (source : list (WireService * WireOperation)) (k : key4) : list wireCandidate :=
  snd <$> filter (fun e => p (protocol e.2) = true /\ key e.2 e.1 = k) (omap entry source).

Lemma recordAuthority_rest s o idx models idx' models' : recordAuthority s o (idx, models) = (idx', models') ->
  query idx' = query idx /\ json idx' = json idx /\ variants idx' = variants idx /\ rest idx' = rest idx /\ modeled idx' = modeled idx.
Proof. unfold recordAuthority. case_match; by intros [= <- <-]. Qed.

Definition indexed (get : wireIndex -> gmap key4 (list wireCandidate)) (p : string -> bool)
    (key : wireCandidate -> string -> key4) : Prop :=
  (forall s o idx models idx' models', recordAuthority s o (idx, models) = (idx', models') -> get idx' = get idx) /\
  (forall prefix c idx, get (addCandidate prefix c idx) =
     if p (protocol c) then appendTo (get idx) (key c prefix) c else get idx).
Lemma indexed_query : indexed query isQuery queryKey.
Proof. split; [|done]. intros * H. by apply recordAuthority_rest in H as (? & ? & ? & ? & ?). Qed.
Lemma indexed_json : indexed json isJSON jsonKey.
Proof. split; [|done]. intros * H. by apply recordAuthority_rest in H as (? & ? & ? & ? & ?). Qed.
Lemma indexed_rest : indexed rest isREST restKey.
Proof. split; [|done]. intros * H. by apply recordAuthority_rest in H as (? & ? & ? & ? & ?). Qed.
Lemma indexed_modeled : indexed modeled (fun p => isJSON p || isQuery p) modeledKey.
Proof. split; [|done]. intros * H. by apply recordAuthority_rest in H as (? & ? & ? & ? & ?). Qed.

Lemma occurrences_cons p key so source k : occurrences p key (so :: source) k =
  match entry so with
  | Some (prefix, c) => if p (protocol c) && bool_decide (key c prefix = k) then [c] else []
  | None => []
  end ++ occurrences p key source k.
Proof.
  unfold occurrences. cbn [omap list_omap]. destruct (entry so) as [[prefix c]|]; [|done].
  rewrite filter_cons. cbn [fst snd]. destruct (p (protocol c)) eqn:Ep; cbn [andb].
  - destruct (decide (key c prefix = k)).
    + rewrite decide_True by done. by rewrite bool_decide_true.
    + rewrite decide_False by naive_solver. by rewrite bool_decide_false.
  - by rewrite decide_False by naive_solver.
Qed.

Lemma visitAll_bucket get p key : indexed get p key -> forall source st st' k,
  visitAll st source = Some st' -> bucket (get st'.1) k = bucket (get st.1) k ++ occurrences p key source k.
Proof.
  intros [Hrec Hadd]. induction source as [|[s o] source IH]; intros st st' k H.
  - injection H as <-. unfold occurrences. by rewrite app_nil_r.
  - cbn [visitAll] in H. destruct (visit st (s, o)) as [st1|] eqn:Ev; [|done].
    rewrite (IH _ _ _ H), occurrences_cons, app_assoc. f_equal. clear H IH.
    unfold visit in Ev. destruct (recordAuthority s o st) as [idx models] eqn:Er. destruct st as [i0 m0].
    apply Hrec in Er. cbn [fst]. unfold entry.
    destruct (indexRouteQuery (URI (op_Route o))) as [routePath [fixed|]]; [|done].
    destruct (catalogProtocol _ _) as [pr|].
    + injection Ev as <-. cbn [fst]. rewrite Hadd, bucket_append_if. by rewrite Er.
    + injection Ev as <-. cbn [fst]. by rewrite Er, app_nil_r.
Qed.

(** The index forgets nothing and adds nothing: each bucket holds exactly the
    candidates of the catalog's operations that have its key, one for each
    occurrence and in the catalog's order, so a duplicated operation shows as two. *)
Theorem buildWireIndex_spec (source : list (WireService * WireOperation)) (idx : wireIndex) :
  buildWireIndex source = Some idx ->
  forall k, bucket (query idx) k = occurrences isQuery queryKey source k /\
            bucket (json idx) k = occurrences isJSON jsonKey source k /\
            bucket (rest idx) k = occurrences isREST restKey source k /\
            bucket (modeled idx) k = occurrences (fun p => isJSON p || isQuery p) modeledKey source k.
Proof.
  unfold buildWireIndex. destruct (visitAll (emptyIndex, ∅) source) as [st|] eqn:E; [|done]. intros [= <-] k.
  split_and!; [by apply (visitAll_bucket _ _ _ indexed_query _ _ _ k) in E|by apply (visitAll_bucket _ _ _ indexed_json _ _ _ k) in E
    |by apply (visitAll_bucket _ _ _ indexed_rest _ _ _ k) in E|by apply (visitAll_bucket _ _ _ indexed_modeled _ _ _ k) in E].
Qed.

(** ** One operation of the catalog *)

(** [x] is the only element of [l] of its kind. *)
Definition only {A} (P : A -> Prop) (l : list A) (x : A) : Prop :=
  exists pre post, l = pre ++ x :: post /\ P x /\ Forall (fun y => ~ P y) (pre ++ post).
Lemma only_in {A} (P : A -> Prop) l x : only P l x -> x ∈ l /\ P x.
Proof. intros (pre & post & -> & HP & _). split; [set_solver|done]. Qed.
Lemma only_weaken {A} (P Q : A -> Prop) l x :
  (forall y, y ∈ l -> P y <-> Q y) -> only P l x -> only Q l x.
Proof.
  intros HPQ (pre & post & -> & HP & HF). exists pre, post. split; [done|].
  split; [apply HPQ; [set_solver|done]|]. apply Forall_forall. intros y Hy HQ. rewrite Forall_forall in HF.
  apply (HF y Hy), HPQ; [set_solver|done].
Qed.
Lemma omap_filter_single {A B} (f : A -> option B) (P : B -> Prop) `{forall b, Decision (P b)} l b :
  filter P (omap f l) = [b] -> exists x, only (fun x => exists b, f x = Some b /\ P b) l x /\ f x = Some b.
Proof.
  induction l as [|x l IH]; [done|]. cbn [omap list_omap].
  assert (Hnone : filter P (omap f l) = [] -> Forall (fun y => ~ exists b, f y = Some b /\ P b) l).
  { clear. induction l as [|y l IH]; [constructor|]. cbn [omap list_omap]. destruct (f y) as [c|] eqn:E.
    - rewrite filter_cons. case_decide; [done|]. intros HF. constructor; [naive_solver|by apply IH].
    - intros HF. constructor; [naive_solver|by apply IH]. }
  destruct (f x) as [c|] eqn:E.
  - rewrite filter_cons. case_decide as HP.
    + intros [= -> HF]. exists x. split; [|done]. exists [], l. split_and!; [done|by exists b|by apply Hnone].
    + intros HF. destruct (IH HF) as (x' & (pre & post & -> & HP' & HF') & Hx'). exists x'. split; [|done].
      exists (x :: pre), post. split_and!; [done..|]. constructor; [naive_solver|done].
  - intros HF. destruct (IH HF) as (x' & (pre & post & -> & HP' & HF') & Hx'). exists x'. split; [|done].
    exists (x :: pre), post. split_and!; [done..|]. constructor; [naive_solver|done].
Qed.

(** An operation of a service, on a protocol. *)
Definition wireOf (so : WireService * WireOperation) (service protocol : string) : Prop :=
  EndpointPrefix so.1 = service /\ catalogProtocol (ws_Protocol so.1) (JSONVersion (op_Route so.2)) = Some protocol.

Lemma visitAll_fixed source : forall st st', visitAll st source = Some st' ->
  Forall (fun so => is_Some (indexRouteQuery (URI (op_Route so.2))).2) source.
Proof.
  induction source as [|[s o] source IH]; intros st st' H; [constructor|]. cbn [visitAll] in H.
  destruct (visit st (s, o)) as [st1|] eqn:Ev; [|done]. constructor; [|by eapply IH]. unfold visit in Ev.
  destruct (recordAuthority s o st). cbn [snd]. destruct (indexRouteQuery _) as [? [?|]]; [by eexists|done].
Qed.
Lemma build_entry source idx : buildWireIndex source = Some idx -> forall so, so ∈ source ->
  forall prefix c, entry so = Some (prefix, c) <->
    exists p fixed path, wireOf so prefix p /\ indexRouteQuery (URI (op_Route so.2)) = (path, Some fixed) /\
      c = candidateOf so.1 so.2 p fixed path.
Proof.
  unfold buildWireIndex. destruct (visitAll _ source) as [st|] eqn:E; [|done]. intros _ [s o] Hin prefix c.
  apply visitAll_fixed in E. rewrite Forall_forall in E. specialize (E _ Hin) as [fixed E].
  unfold entry, wireOf. cbn [fst snd] in *. destruct (indexRouteQuery _) as [path q]. cbn [snd] in E. subst q.
  destruct (catalogProtocol _ _) as [p|]; [|naive_solver]. split.
  - intros [= <- <-]. by exists p, fixed, path.
  - intros (p' & fixed' & path' & [<- [= <-]] & [= <- <-] & ->). done.
Qed.

Lemma bucket_single source idx p key k c :
  buildWireIndex source = Some idx -> occurrences p key source k = [c] ->
  exists so prefix, entry so = Some (prefix, c) /\ so ∈ source /\ p (protocol c) = true /\ key c prefix = k /\
    only (fun so => exists e, entry so = Some e /\ p (protocol e.2) = true /\ key e.2 e.1 = k) source so.
Proof.
  intros Hb H. unfold occurrences in H.
  destruct (filter _ _) as [|[prefix c'] [|]] eqn:Ef; [done| |done]. injection H as ->.
  apply omap_filter_single in Ef as (so & Ho & He). exists so, prefix. destruct Ho as (pre & post & -> & (e & He' & HP) & HF).
  rewrite He in He'. injection He' as <-. cbn [fst snd] in HP. destruct HP as [Hp Hk].
  split_and!; [done|set_solver|done|done|]. exists pre, post. split_and!; [done| |done]. by exists (prefix, c).
Qed.

(** A bucket with one candidate, when its key says the service, the protocol and
    [Q]: one operation of the catalog is all of that. *)
Lemma bucket_operation source idx p key service protocol (k : key4) c (Q : WireService * WireOperation -> Prop) :
  buildWireIndex source = Some idx -> occurrences p key source k = [c] ->
  (forall so pr p' fixed path, key (candidateOf so.1 so.2 p' fixed path) pr = k <-> pr = service /\ p' = protocol /\ Q so) ->
  exists so fixed path, c = candidateOf so.1 so.2 protocol fixed path /\
    indexRouteQuery (URI (op_Route so.2)) = (path, Some fixed) /\
    only (fun so => wireOf so service protocol /\ Q so) source so.
Proof.
  intros Hb Eo Hkey. destruct (bucket_single _ _ _ _ _ _ Hb Eo) as (so & pr & He & Hin & Hp & Hk & Ho).
  apply (build_entry _ _ Hb _ Hin) in He as (p1 & fixed & path & Hw & Hr & ->).
  apply Hkey in Hk as (-> & -> & HQ). exists so, fixed, path. split_and!; [done|done|].
  revert Ho. apply only_weaken. intros so' Hin'. split.
  - intros ([pr' c'] & He' & _ & Hk'). apply (build_entry _ _ Hb _ Hin') in He' as (p' & fixed' & path' & Hw' & _ & ->).
    cbn [fst snd] in Hk'. apply Hkey in Hk' as (-> & -> & HQ'). done.
  - intros (Hw' & HQ'). assert (is_Some (indexRouteQuery (URI (op_Route so'.2))).2) as [fixed' Hf].
    { unfold buildWireIndex in Hb. destruct (visitAll _ _) eqn:Ev in Hb; [|done]. apply visitAll_fixed in Ev.
      rewrite Forall_forall in Ev. exact (Ev _ Hin'). }
    destruct (indexRouteQuery (URI (op_Route so'.2))) as [path' q'] eqn:Eq'. cbn [snd] in Hf. subst q'.
    exists (service, candidateOf so'.1 so'.2 protocol fixed' path'). split_and!; [|done|by apply Hkey].
    apply (build_entry _ _ Hb _ Hin'). by exists protocol, fixed', path'.
Qed.

(** What a Query or a JSON request names is one operation of the pinned
    catalog, and the catalog vouches for it: exactly one operation of the service
    on that protocol has the request's Version and Action (its target prefix and
    name, for JSON), its evidence is known, and a JSON operation's own route has
    the target prefix that the request used. *)
Theorem operation_identified (source : list (WireService * WireOperation)) (idx : wireIndex)
    (service protocol : string) :
  buildWireIndex source = Some idx ->
  (forall version action, catalogQueryOperation (Some idx) service version protocol action = true ->
   exists so, State so.2 = EvidenceKnown /\
     only (fun so => wireOf so service protocol /\ APIVersion so.1 = version /\ Name so.2 = action) source so) /\
  (forall target max op, protocol <> EmptyString -> targetOperationFor target service protocol (Some idx) max = Ok op ->
   exists prefix so, splitTarget target max = Some (prefix, op) /\ State so.2 = EvidenceKnown /\
     r_TargetPrefix (op_Route so.2) = prefix /\
     only (fun so => wireOf so service protocol /\ TargetPrefix so.1 = prefix /\ Name so.2 = op) source so).
Proof.
  intros Hb. split.
  - intros version action. unfold catalogQueryOperation. destruct (_ || _ || _); [done|].
    destruct (buildWireIndex_spec _ _ Hb (service, protocol, version, action)) as (-> & _).
    destruct (occurrences _ _ _ _) as [|c [|]] eqn:Eo; [done| |done]. intros Hk.
    apply (bucket_operation _ _ _ _ service protocol _ _ (fun so => APIVersion so.1 = version /\ Name so.2 = action) Hb) in Eo
      as (so & fixed & path & -> & _ & Ho); [|unfold queryKey; cbn; naive_solver].
    exists so. split; [by apply String.eqb_eq in Hk|done].
  - intros target max op Hne. unfold targetOperationFor.
    destruct (splitTarget target max) as [[prefix op']|]; [|done].
    rewrite (proj2 (String.eqb_neq _ _) Hne).
    destruct (buildWireIndex_spec _ _ Hb (service, protocol, prefix, op')) as (_ & -> & _).
    destruct (occurrences _ _ _ _) as [|c [|]] eqn:Eo; [done| |done].
    destruct (_ || _) eqn:Ec; [done|]. destruct (negb (known c)) eqn:Ek; [done|]. intros [= <-].
    apply (bucket_operation _ _ _ _ service protocol _ _ (fun so => TargetPrefix so.1 = prefix /\ Name so.2 = op') Hb) in Eo
      as (so & fixed & path & -> & _ & Ho); [|unfold jsonKey; cbn; naive_solver].
    apply orb_false_iff in Ec as [_ Ec]. apply negb_false_iff in Ec, Ek. apply String.eqb_eq in Ec, Ek.
    by exists prefix, so.
Qed.

(** ** The protocol of a service *)

(** No field of an operation's record that goes into its authority key holds a NUL. *)
Definition nulFree (so : WireService * WireOperation) : Prop :=
  Forall (fun f => count_byte f 0 = 0)
    [EndpointPrefix so.1; APIVersion so.1; TargetPrefix so.1; ws_Protocol so.1].
Definition evidenceOf (so : WireService * WireOperation) : protocolEvidence :=
  let p := catalogProtocol (ws_Protocol so.1) (JSONVersion (op_Route so.2)) in
  mkPE (default EmptyString p) (bool_decide (is_Some p)).
Lemma authorityKey_inj a b : nulFree a -> nulFree b -> authorityKey a.1 a.2 = authorityKey b.1 b.2 ->
  EndpointPrefix a.1 = EndpointPrefix b.1 /\ evidenceOf a = evidenceOf b.
Proof.
  unfold nulFree, authorityKey, nul, evidenceOf. rewrite !Forall_cons. intros (A1 & A2 & A3 & A4 & _) (B1 & B2 & B3 & B4 & _) E.
  apply (app_sep_inj (chr 0)) in E as [-> E]; [|done..]. apply (app_sep_inj (chr 0)) in E as [_ E]; [|done..].
  apply (app_sep_inj (chr 0)) in E as [_ E]; [|done..]. apply (app_sep_inj (chr 0)) in E as [-> ->]; done.
Qed.

(** What has been visited has its evidence in its service's bucket. *)
Definition authorised (seen : list (WireService * WireOperation)) (st : wireIndex * gset string) : Prop :=
  (forall so, so ∈ seen -> evidenceOf so ∈ bucket (authority st.1) (EndpointPrefix so.1)) /\
  (forall k, k ∈ st.2 -> exists so, so ∈ seen /\ authorityKey so.1 so.2 = k).
Lemma recordAuthority_authorised seen so st : Forall nulFree (so :: seen) -> authorised seen st ->
  authorised (so :: seen) (recordAuthority so.1 so.2 st).
Proof.
  intros Hn [Hs Hm]. apply Forall_cons in Hn as [Hn Hns]. unfold recordAuthority. destruct st as [idx models].
  destruct (_ || _) eqn:E.
  - split; cbn [fst snd authority].
    + intros so' Hin. rewrite bucket_append. apply elem_of_app. apply elem_of_cons in Hin as [->|Hin]; [|left; by apply Hs].
      right. rewrite decide_True by done. by left.
    + intros k. rewrite elem_of_union, elem_of_singleton. intros [->|Hk]; [exists so; split; [left|done]|].
      destruct (Hm k Hk) as (so' & ? & ?). exists so'. split; [by right|done].
  - apply orb_false_iff in E as [_ E%negb_false_iff%bool_decide_eq_true]. cbn [fst snd]. split.
    + intros so' Hin. apply elem_of_cons in Hin as [->|Hin]; [|by apply Hs].
      destruct (Hm _ E) as (so0 & Hin0 & Hk). rewrite Forall_forall in Hns.
      destruct (authorityKey_inj so0 so (Hns _ Hin0) Hn Hk) as [<- <-]. by apply Hs.
    + intros k Hk. destruct (Hm k Hk) as (so' & ? & ?). exists so'. split; [by right|done].
Qed.
Lemma visitAll_authorised source : forall seen st st', Forall nulFree (rev source ++ seen) ->
  authorised seen st -> visitAll st source = Some st' -> authorised (rev source ++ seen) st'.
Proof.
  induction source as [|[s o] source IH]; intros seen st st' Hn Ha H; [by injection H as <-|].
  cbn [visitAll rev] in *. rewrite <-app_assoc in *. cbn [app] in *.
  destruct (visit st (s, o)) as [st1|] eqn:Ev; [|done]. apply (IH ((s, o) :: seen) st1 st' Hn); [|done].
  apply Forall_app in Hn as [_ Hn]. pose proof (recordAuthority_authorised seen (s, o) st Hn Ha) as Hr.
  cbn [fst snd] in Hr. unfold visit in Ev. destruct (recordAuthority s o st) as [idx models].
  destruct (indexRouteQuery _) as [? [?|]]; [|done]. by destruct (catalogProtocol _ _); injection Ev as <-.
Qed.

(** The protocol the index holds a service to is the protocol of every
    operation the catalog has under its endpoint prefix: one operation on another
    protocol, or on none that is known, and the service has no protocol. *)
Lemma protocol_unanimous (source : list (WireService * WireOperation)) (idx : wireIndex) (service p : string) :
  Forall nulFree source -> buildWireIndex source = Some idx -> authoritativeProtocolFor (Some idx) service = Some p ->
  forall so, so ∈ source -> EndpointPrefix so.1 = service ->
  catalogProtocol (ws_Protocol so.1) (JSONVersion (op_Route so.2)) = Some p.
Proof.
  intros Hn Hb Ha so Hin Hs. unfold buildWireIndex in Hb. destruct (visitAll _ source) as [st|] eqn:E; [|done].
  injection Hb as <-. apply (visitAll_authorised source []) in E as [Hev _].
  - specialize (Hev so). rewrite app_nil_r, Hs in Hev.
    specialize (Hev (proj2 (list_elem_of_In _ _) (proj1 (in_rev _ _) (proj1 (list_elem_of_In _ _) Hin)))).
    unfold authoritativeProtocolFor in Ha. destruct (service =? "")%string; [done|].
    destruct (forallb valid _) eqn:Ev in Ha; [|done]. cbn [negb] in Ha.
    destruct (elements _) as [|found [|]] eqn:El in Ha; [done| |done]. injection Ha as ->.
    rewrite forallb_forall in Ev. pose proof (Ev _ (proj1 (list_elem_of_In _ _) Hev)) as Hv.
    assert (pe_protocol (evidenceOf so) ∈ (list_to_set (pe_protocol <$> bucket (authority st.1) service) : gset string)) as Hp.
    { apply elem_of_list_to_set, list_elem_of_fmap. by eexists. }
    apply elem_of_elements in Hp. rewrite El in Hp. apply list_elem_of_singleton in Hp.
    unfold evidenceOf in Hv, Hp. cbn in Hv, Hp. apply bool_decide_eq_true in Hv as [q Hq]. rewrite Hq in *. cbn in Hp. by subst q.
  - rewrite app_nil_r. by apply Forall_rev.
  - split; [intros so' H; by apply not_elem_of_nil in H|intros k H; by apply not_elem_of_empty in H].
Qed.
End IndexTheorems.

(** A catalog of three operations, on three protocols. *)
#[local] Instance sample_tables : UnicodeTables := ascii_tables.
Definition sampleSource : list (WireService * WireOperation) :=
  [(mkWireService "dynamodb" "2012-08-10" "DynamoDB_20120810" ["json"] "json" [],
    mkWireOperation "GetItem" EvidenceKnown (mkRoute "POST" "/" 200 "DynamoDB_20120810.GetItem" "DynamoDB_20120810" "1.0") []);
   (mkWireService "s3" "2006-03-01" "" ["rest-xml"] "rest-xml" [],
    mkWireOperation "GetObject" EvidenceKnown (mkRoute "GET" "/{Bucket}/{Key+}" 200 "/{Bucket}/{Key+}" "" "") [mkBinding "VersionId" "versionId" false]);
   (mkWireService "ec2" "2016-11-15" "" ["ec2"] "ec2" [],
    mkWireOperation "DescribeInstances" EvidenceKnown (mkRoute "POST" "/" 200 "/" "" "") [])]%string.
Definition sampleIndex : wireIndex := default emptyIndex (buildWireIndex sampleSource).
Lemma sampleIndex_built : buildWireIndex sampleSource = Some sampleIndex.
Proof. vm_compute. reflexivity. Qed.
End WireIndex.
