(* ===== verification/RestRoute.v ===== *)
(** * REST routes (awsrequest/decode_restjson.go)

    The matcher of a request's path and query against the modelled routes of the
    REST protocols, and the one operation a request names. *)

From Stdlib Require Import ZArith Lia Ascii.
From stdpp Require Import base gmap strings list.
From S2P Require Import Prelude GoStrings GoEncoding.
From S2P Require Import AwsTypes.
From S2P Require Import WireIndex.

Module RestRoute.
Import AwsTypes.AwsTypes WireIndex.WireIndex.

(** [DecodeLimits] (decode_json.go). *)
Record DecodeLimits := mkLimits {
  MaxBodyBytes : Z; MaxParameters : Z; MaxDepth : Z; MaxTokenBytes : Z; MaxPathBytes : Z;
}.

Definition validPathValue (v : string) (l : DecodeLimits) : bool :=
  negb (v =? "")%string && (slen v <=? MaxTokenBytes l) &&
  negb (bytes_any (fun b => (b =? 0) || (b =? 13) || (b =? 10) || in_set "*?" b) v).

Definition validateRESTQuery (q : Values) (l : DecodeLimits) : option error :=
  if MaxParameters l <? Z.of_nat (size q) then Some (ErrNew "REST query parameter limit exceeded")
  else if forallb (fun kv => match kv.2 with
                             | [value] => negb (kv.1 =? "")%string && (slen kv.1 <=? MaxTokenBytes l) &&
                                          (slen value <=? MaxTokenBytes l)
                             | _ => false
                             end) (map_to_list q)
  then None else Some (ErrNew "malformed REST query parameter").

Definition restPathParts (path : string) : option (list string) :=
  if (path =? "/")%string then Some []
  else if negb (HasPrefix path "/") then None
  else
    let path := TrimSuffix path "/" in
    if (path =? "")%string then None
    else
      let parts := Split (str_drop 1 path) "/" in
      if existsb (fun part => (part =? "")%string) parts then None else Some parts.

(** A label of a template: its name, and whether it is greedy. *)
Definition label (part : string) : option (string * bool) :=
  if HasPrefix part "{" && HasSuffix part "}" then
    let name := TrimSuffix (TrimPrefix part "{") "}" in
    if HasSuffix name "+" then Some (TrimSuffix name "+", true) else Some (name, false)
  else None.

(** The values of a label's segments. *)
Fixpoint pathValues (l : DecodeLimits) (segments : list string) : option (list string) :=
  match segments with
  | [] => Some []
  | segment :: segments =>
    match PathUnescape segment with
    | Some decoded => if validPathValue decoded l then cons decoded <$> pathValues l segments else None
    | None => None
    end
  end.

(** The loop of [matchRESTURI] over the template, with the segments not yet
    matched; [Ok None] is no match. *)
Fixpoint matchParts (l : DecodeLimits) (template request : list string) (params : gmap string string)
  : result (option (gmap string string)) :=
  match template with
  | [] => Ok (match request with [] => Some params | _ => None end)
  | part :: template =>
    match label part with
    | Some (name, greedy) =>
      if negb (validOperation name) || (greedy && negb (List.length template =? 0)%nat)
      then Err (ErrNew "REST catalog route is malformed")
      else
        let count := if greedy then List.length request else 1%nat in
        if (count <? 1)%nat || (List.length request <? count)%nat then Ok None
        else match pathValues l (take count request) with
        | None => Err (ErrNew "REST path parameter is malformed")
        | Some values => matchParts l template (drop count request) (<[name := Join values "/"]> params)
        end
    | None =>
      match request with
      | segment :: request => if (segment =? part)%string then matchParts l template request params else Ok None
      | [] => Ok None
      end
    end
  end.

(** The query that a template asks for. *)
Fixpoint templateFields (fields : list string) (want : Values) : result Values :=
  match fields with
  | [] => Ok want
  | field :: fields =>
    let '(k, v, has) := Cut field "=" in
    let malformed := Err (ErrNew "REST catalog query is malformed") in
    match QueryUnescape k with
    | None => malformed
    | Some key =>
      if (key =? "")%string then malformed
      else match (if has then QueryUnescape v else Some EmptyString) with
      | None => malformed
      | Some value =>
        match want !! key with
        | Some _ => Err (ErrNew "REST catalog query is ambiguous")
        | None => templateFields fields (<[key := [value]]> want)
        end
      end
    end
  end.

(** [matchRESTURI]; the parameters are string values. *)
Definition trailing (path : string) : bool := negb (path =? "/")%string && HasSuffix path "/".
Definition matchRESTURI (uri requestPath : string) (q : Values) (l : DecodeLimits)
  : result (option (gmap string string)) :=
  let '(templatePath, templateQuery, _) := Cut uri "?" in
  if negb (Bool.eqb (trailing templatePath) (trailing requestPath)) then Ok None
  else match restPathParts templatePath with
  | None => Err (ErrNew "REST catalog route is malformed")
  | Some template =>
    match restPathParts requestPath with
    | None => Err (ErrNew "REST path is malformed")
    | Some request =>
      match matchParts l template request ∅ with
      | Err err => Err err
      | Ok None => Ok None
      | Ok (Some params) =>
        match (if (templateQuery =? "")%string then Ok ∅ else templateFields (Split templateQuery "&") ∅) with
        | Err err => Err err
        | Ok want => if wireQueryValuesMatch want q then Ok (Some params) else Ok None
        end
      end
    end
  end.

(** The bindings by location name. *)
Fixpoint modelBindings (l : DecodeLimits) (bindings : list QueryBinding) (m : gmap string QueryBinding)
  : option (gmap string QueryBinding) :=
  match bindings with
  | [] => Some m
  | b :: bindings =>
    if (LocationName b =? "")%string || (MaxTokenBytes l <? slen (LocationName b)) then None
    else match m !! LocationName b with
         | Some _ => None
         | None => modelBindings l bindings (<[LocationName b := b]> m)
         end
  end.
Definition matchRESTQueryBindingsFixed (fixed : Values) (bindings : list QueryBinding) (q : Values) (l : DecodeLimits) : bool :=
  match modelBindings l bindings ∅ with
  | None => false
  | Some m =>
    forallb (fun kv => bool_decide (is_Some (fixed !! kv.1)) || bool_decide (is_Some (m !! kv.1))) (map_to_list q) &&
    forallb (fun kb => negb (Required kb.2) || bool_decide (is_Some (q !! kb.1))) (map_to_list m)
  end.
Definition matchRESTQueryBindings (uri : string) (bindings : list QueryBinding) (q : Values) (l : DecodeLimits) : bool :=
  let '(_, query, present) := Cut uri "?" in
  match (if present then modeledWireQuery query true else Some ∅) with
  | None => false
  | Some fixed => matchRESTQueryBindingsFixed fixed bindings q l
  end.

Definition MatchRESTRoute (uri requestPath : string) (q : Values) (bindings : list QueryBinding) (l : DecodeLimits)
  : result (option (gmap string string)) :=
  if (MaxPathBytes l <? slen requestPath) || negb (HasPrefix requestPath "/")
  then Err (ErrNew "REST path is malformed")
  else match validateRESTQuery q l with
  | Some err => Err err
  | None =>
    match matchRESTURI uri requestPath q l with
    | Err err => Err err
    | Ok None => Ok None
    | Ok (Some params) => Ok (if matchRESTQueryBindings uri bindings q l then Some params else None)
    end
  end.

(** ** The operation of a request *)

Section Operations.
Context `{U : UnicodeTables}.

Fixpoint restLoop (service path method : string) (q : Values) (l : DecodeLimits) (candidates : list wireCandidate)
    (matches : nat) (found : string * gmap string string) : result (nat * (string * gmap string string)) :=
  match candidates with
  | [] => Ok (matches, found)
  | c :: candidates =>
    if negb (validEvidenceService service) || negb (validEvidenceOperation (name c)) ||
       (WireIndex.method c =? "")%string || negb (routeValid c)
    then Err (ErrNew "REST catalog route is malformed")
    else if negb (EqualFold (WireIndex.method c) method) then restLoop service path method q l candidates matches found
    else match matchRESTURI (routePath c) path q l with
    | Err err => Err err
    | Ok None => restLoop service path method q l candidates matches found
    | Ok (Some params) =>
      if negb (wireQueryValuesMatch (fixedQuery c) q) ||
         negb (matchRESTQueryBindingsFixed (fixedQuery c) (queryBindings c) q l)
      then restLoop service path method q l candidates matches found
      else if negb (known c) then Err (ErrNew "REST operation is contradictory or unsupported")
      else restLoop service path method q l candidates (S matches) (name c, params)
    end
  end.
Definition restOperationFromCatalog (service path method : string) (q : Values) (protocol : string)
    (c : option wireIndex) (l : DecodeLimits) : result (string * gmap string string) :=
  if (MaxPathBytes l <? slen path) || negb (HasPrefix path "/") then Err (ErrNew "REST path is malformed")
  else match validateRESTQuery q l with
  | Some err => Err err
  | None =>
    let method := ToUpper method in
    match c with
    | None => Err (ErrNew "REST operation is unavailable")
    | Some c =>
      match restLoop service path method q l (bucket (rest c) (service, protocol, method, EmptyString)) 0 ("", ∅) with
      | Err err => Err err
      | Ok (O, _) => Err (ErrNew "unknown REST operation")
      | Ok (S O, found) => Ok found
      | Ok _ => Err (ErrNew "ambiguous REST operation")
      end
    end
  end.
Definition restXMLOperationFromCatalog (service path method : string) (q : Values) (c : option wireIndex) (l : DecodeLimits) :=
  restOperationFromCatalog service path method q ProtocolRESTXML c l.
End Operations.

(** ** Lemmas and theorems: paths *)

Definition pathValue (l : DecodeLimits) (segment value : string) : Prop :=
  PathUnescape segment = Some value /\ validPathValue value l = true.

(** How a path's segments fill a template: literals are themselves, a label takes
    one segment and a last greedy label all that are left, each decoded by itself. *)
Inductive fills (l : DecodeLimits) : list string -> list string -> list (string * string) -> Prop :=
| f_end : fills l [] [] []
| f_literal part template request bs : label part = None -> fills l template request bs ->
    fills l (part :: template) (part :: request) bs
| f_label part name template segment value request bs :
    label part = Some (name, false) -> validOperation name = true -> pathValue l segment value ->
    fills l template request bs -> fills l (part :: template) (segment :: request) ((name, value) :: bs)
| f_greedy part name request values :
    label part = Some (name, true) -> validOperation name = true -> request <> [] ->
    Forall2 (pathValue l) request values -> fills l [part] request [(name, Join values "/")].
(** The parameters bound, the last binding of a name winning. *)
Definition bindAll (bs : list (string * string)) (params : gmap string string) : gmap string string :=
  fold_left (fun m b => <[b.1 := b.2]> m) bs params.

Lemma pathValues_spec l segments values : pathValues l segments = Some values <-> Forall2 (pathValue l) segments values.
Proof.
  revert values. induction segments as [|segment segments IH]; intros values; cbn [pathValues].
  - split; [intros [= <-]; constructor|by inversion 1].
  - unfold pathValue at 1. destruct (PathUnescape segment) as [d|] eqn:Ed.
    + destruct (validPathValue d l) eqn:Ev.
      * rewrite fmap_Some. split.
        -- intros (vs & Hvs & ->). constructor; [done|by apply IH].
        -- inversion 1 as [|? v ? vs [E ?] HF]; subst. assert (d = v) as -> by congruence. exists vs. split; [by apply IH|done].
      * split; [done|]. inversion 1 as [|? v ? vs [E ?] HF]; subst. congruence.
    + split; [done|]. inversion 1 as [|? v ? vs [E ?] HF]; subst. congruence.
Qed.

Theorem matchParts_fills (l : DecodeLimits) (template request : list string) (params out : gmap string string) :
  matchParts l template request params = Ok (Some out) <-> exists bs, fills l template request bs /\ out = bindAll bs params.
Proof.
  split.
  - revert request params. induction template as [|part template IH]; intros request params; cbn [matchParts].
    + destruct request; [|done]. intros [= <-]. exists []. split; [constructor|done].
    + destruct (label part) as [[name greedy]|] eqn:El.
      * destruct (_ || _) eqn:Em; [done|]. apply orb_false_iff in Em as [Ev Eg]. apply negb_false_iff in Ev.
        destruct (_ || _) eqn:Ec; [done|]. destruct (pathValues l _) as [values|] eqn:Ep; [|done].
        apply pathValues_spec in Ep. intros H. destruct (IH _ _ H) as (bs & Hf & ->). destruct greedy.
        -- assert (template = []) as -> by (destruct template; [done|cbn in Eg; lia]).
           rewrite take_ge in Ep by lia. rewrite drop_ge in Hf by lia. inversion Hf; subst.
           exists [(name, Join values "/")]. split; [|done]. apply f_greedy; [done|done| |done]. intros ->. cbn in Ec. lia.
        -- destruct request as [|segment request]; [cbn in Ec; lia|]. cbn [take drop] in *.
           inversion Ep as [|? v ? vs Hv HF]; subst. inversion HF; subst. exists ((name, v) :: bs).
           split; [by eapply f_label|done].
      * destruct request as [|segment request]; [done|]. destruct (segment =? part)%string eqn:Es; [|done].
        apply String.eqb_eq in Es as ->. intros H. destruct (IH _ _ H) as (bs & Hf & ->). exists bs. split; [by apply f_literal|done].
  - intros (bs & Hf & ->). revert params. induction Hf as [|part template request bs El Hf IH|part name template segment value request bs El Ev Hp Hf IH|
      part name request values El Ev Hne HF]; intros params; cbn [matchParts].
    + done.
    + by rewrite El, String.eqb_refl.
    + rewrite El, Ev. cbn [negb orb andb take drop List.length Nat.ltb Nat.leb]. rewrite take_0, drop_0.
      rewrite (proj2 (pathValues_spec l [segment] [value])) by (by constructor; [exact Hp|constructor]). apply IH.
    + rewrite El, Ev. cbn [negb orb andb List.length Nat.eqb]. destruct request as [|s request]; [done|].
      rewrite Nat.ltb_irrefl. cbn [List.length]. cbn [Nat.ltb Nat.leb orb].
      rewrite take_ge, drop_ge by done. by rewrite (proj2 (pathValues_spec l _ values)).
Qed.

(** What a path matches: the values come from the very segments of the path,
    each decoded by itself, non-empty, without wildcards; the rest of the path is
    the template's literals, segment by segment, and nothing is left over. *)
Theorem matchRESTURI_sound (uri requestPath : string) (q : Values) (l : DecodeLimits) (params : gmap string string) :
  matchRESTURI uri requestPath q l = Ok (Some params) ->
  exists template request bs,
    restPathParts (Cut uri "?").1.1 = Some template /\ restPathParts requestPath = Some request /\
    fills l template request bs /\ params = bindAll bs ∅ /\
    trailing (Cut uri "?").1.1 = trailing requestPath /\
    (forall name value, params !! name = Some value -> value <> EmptyString /\ ContainsAny value "*?" = false).
Proof.
  unfold matchRESTURI. destruct (Cut uri "?") as [[templatePath templateQuery] ?]. cbn [fst].
  destruct (negb _) eqn:Et; [done|]. apply negb_false_iff, Bool.eqb_prop in Et.
  destruct (restPathParts templatePath) as [template|]; [|done]. destruct (restPathParts requestPath) as [request|]; [|done].
  destruct (matchParts l template request ∅) as [[out|]|] eqn:Em; [|done..]. intros H.
  assert (out = params) as ->.
  { destruct (if (templateQuery =? "")%string then _ else _); [|done]. destruct (wireQueryValuesMatch _ _); [|done]. by injection H. }
  apply matchParts_fills in Em as (bs & Hf & ->). exists template, request, bs. split_and!; [done..|].
  assert (Hb : Forall (fun b => b.2 <> EmptyString /\ ContainsAny b.2 "*?" = false) bs).
  { clear -Hf. assert (Hv : forall s v, pathValue l s v -> v <> EmptyString /\ bytes_any (in_set "*?") v = false).
    { intros s v [_ Hv]. unfold validPathValue in Hv. apply andb_true_iff in Hv as [Hv Hn]. apply andb_true_iff in Hv as [Hv _].
      apply negb_true_iff in Hv, Hn. apply String.eqb_neq in Hv. split; [done|]. clear -Hn.
      induction v as [|c v IH]; [done|]. cbn [bytes_any] in *. apply orb_false_iff in Hn as [Hc Hn].
      apply orb_false_iff in Hc as [_ Hc]. by rewrite Hc, IH. }
    induction Hf as [| |part name template segment value request bs El Ev Hp Hf IH|part name request values El Ev Hne HF]; [constructor|done| |].
    - constructor; [by eapply Hv|done].
    - constructor; [|constructor]. cbn [snd]. destruct HF as [|s v ss vs Hsv HF]; [done|]. clear Hne.
      revert v s Hsv. unfold ContainsAny. induction HF as [|s' v' ss vs Hsv' HF IH]; intros v s Hsv; [by eapply Hv|].
      change (Join (v :: v' :: vs) "/") with (v ++ "/" ++ Join (v' :: vs) "/")%string.
      destruct (Hv _ _ Hsv) as [Hne Hc]. destruct (IH v' s' Hsv') as [_ Hr]. split; [by destruct v|].
      rewrite !bytes_any_app, Hc. exact Hr. }
  clear -Hb. unfold bindAll. assert (H0 : forall n v, (∅ : gmap string string) !! n = Some v -> v <> EmptyString /\ ContainsAny v "*?" = false)
    by (intros n v; by rewrite lookup_empty). revert H0. generalize (∅ : gmap string string).
  induction Hb as [|b bs Hb _ IH]; intros m Hm; [done|]. apply IH. intros n v. rewrite lookup_insert_Some. intros [[<- <-]|[_ H]]; [done|].
  by eapply Hm.
Qed.

(** ** Lemmas and theorems: operations *)

Section OperationTheorems.
Context `{U : UnicodeTables}.

(** A candidate takes the request: method, path, fixed query and bindings. *)
Definition takes (path method : string) (q : Values) (l : DecodeLimits) (c : wireCandidate) : Prop :=
  EqualFold (WireIndex.method c) method = true /\
  (exists params, matchRESTURI (routePath c) path q l = Ok (Some params)) /\
  wireQueryValuesMatch (fixedQuery c) q = true /\
  matchRESTQueryBindingsFixed (fixedQuery c) (queryBindings c) q l = true.
#[local] Instance takes_dec path method q l c : Decision (takes path method q l c).
Proof.
  unfold takes. destruct (EqualFold _ _); [|right; naive_solver].
  destruct (matchRESTURI _ _ _ _) as [[params|]|] eqn:Em; [|right; intros (_ & [? ?] & _); congruence..].
  destruct (wireQueryValuesMatch _ _); [|right; naive_solver]. destruct (matchRESTQueryBindingsFixed _ _ _ _); [|right; naive_solver].
  left. split_and!; [done|by exists params|done|done].
Defined.

Lemma restLoop_takes service path method q l cs : forall m found n found',
  restLoop service path method q l cs m found = Ok (n, found') ->
  n = (m + List.length (filter (takes path method q l) cs))%nat /\
  match last (filter (takes path method q l) cs) with
  | None => found' = found
  | Some c => known c = true /\ found'.1 = name c /\ matchRESTURI (routePath c) path q l = Ok (Some found'.2)
  end.
Proof.
  induction cs as [|c cs IH]; intros m found n found' H; [injection H as <- <-; cbn; split; [lia|done]|].
  cbn [restLoop] in H. destruct (_ || _); [done|]. rewrite filter_cons. destruct (decide (takes path method q l c)) as [Ht|Ht].
  - pose proof Ht as (Hm & [params Hp] & Hq & Hb). rewrite Hm, Hp, Hq, Hb in H. cbn [negb orb] in H.
    destruct (known c) eqn:Ek; [|done]. apply IH in H as [-> H]. split; [cbn; lia|].
    destruct (filter _ cs) as [|c' cs']; [cbn in H |- *; by subst found'|]. change (last (c :: c' :: cs')) with (last (c' :: cs')).
    destruct (last (c' :: cs')) eqn:E; [exact H|by apply last_None in E].
  - assert (restLoop service path method q l cs m found = Ok (n, found')) as H'; [|by apply IH in H'].
    destruct (EqualFold _ _) eqn:Hm; [|done]. cbn [negb] in H. destruct (matchRESTURI _ _ _ _) as [[params|]|] eqn:Hp; [|done..].
    destruct (wireQueryValuesMatch _ _) eqn:Hq; [|done]. destruct (matchRESTQueryBindingsFixed _ _ _ _) eqn:Hb; [|done].
    exfalso. apply Ht. split_and!; [done|by exists params|done|done].
Qed.

Lemma filter_fmap_filter {A B} (f : A -> B) (P : B -> Prop) (Q : A -> Prop) `{forall b, Decision (P b)} `{forall a, Decision (Q a)} (l : list A) :
  filter P (f <$> filter Q l) = f <$> filter (fun a => P (f a) /\ Q a) l.
Proof.
  induction l as [|a l IH]; [done|]. rewrite !filter_cons. destruct (decide (Q a)) as [HQ|HQ].
  - cbn [fmap list_fmap]. rewrite filter_cons. destruct (decide (P (f a))).
    + rewrite decide_True by done. cbn. by rewrite <-IH.
    + rewrite decide_False by naive_solver. apply IH.
  - rewrite decide_False by naive_solver. apply IH.
Qed.

(** A REST request names one operation of the pinned catalog: of the service's
    operations on that protocol and method, exactly one has a route that takes
    the request's path and query; the catalog vouches for it, and the parameters
    are what its route binds. *)
Theorem rest_operation_identified (source : list (WireService * WireOperation)) (idx : wireIndex)
    (service path method : string) (q : Values) (protocol : string) (l : DecodeLimits) (op : string)
    (params : gmap string string) :
  buildWireIndex source = Some idx ->
  restOperationFromCatalog service path method q protocol (Some idx) l = Ok (op, params) ->
  exists so fixed route, Name so.2 = op /\ State so.2 = EvidenceKnown /\
    indexRouteQuery (URI (op_Route so.2)) = (route, Some fixed) /\ matchRESTURI route path q l = Ok (Some params) /\
    only (fun so => wireOf so service protocol /\ ToUpper (r_Method (op_Route so.2)) = ToUpper method /\
            exists fixed route, indexRouteQuery (URI (op_Route so.2)) = (route, Some fixed) /\
              takes path (ToUpper method) q l (candidateOf so.1 so.2 protocol fixed route)) source so.
Proof.
  intros Hb. unfold restOperationFromCatalog. destruct (_ || _); [done|]. destruct (validateRESTQuery q l); [done|].
  destruct (restLoop _ _ _ _ _ _ _ _) as [[n found]|] eqn:El; [|done]. apply restLoop_takes in El as [-> El].
  destruct (buildWireIndex_spec _ _ Hb (service, protocol, ToUpper method, EmptyString)) as (_ & _ & Hr & _). rewrite Hr in El |- *.
  unfold occurrences in *. set (P := takes path (ToUpper method) q l) in *.
  destruct (filter P _) as [|c [|]] eqn:Ef; [done| |done]. cbn in El. destruct El as (Hk & Hn & Hm).
  intros [= ->]. cbn [fst snd] in Hn, Hm.
  rewrite filter_fmap_filter in Ef.
  destruct (filter _ (omap entry source)) as [|[pr c'] [|]] eqn:Eo; [done| |done]. cbn in Ef. injection Ef as ->.
  apply omap_filter_single in Eo as (so & Ho & He). pose proof Ho as (pre & post & Es & (e & He' & HP & HQ) & _).
  assert (Hin : so ∈ source) by (rewrite Es; set_solver). rewrite He in He'. injection He' as <-. cbn [fst snd] in HP, HQ.
  apply (build_entry _ _ Hb _ Hin) in He as (p & fixed & route & Hw & Hroute & ->).
  destruct HQ as [Hrest [= -> -> Hmethod]]. apply String.eqb_eq in Hk.
  exists so, fixed, route. split_and!; [done..|]. revert Ho. apply only_weaken. intros so' Hin'. split.
  - intros ([pr' c'] & He' & HP' & Hrest' & Hkey'). cbn [fst snd] in HP', Hrest', Hkey'.
    apply (build_entry _ _ Hb _ Hin') in He' as (p' & fixed' & route' & Hw' & Hroute' & ->).
    injection Hkey' as -> -> Hmethod'. split_and!; [done|done|]. by exists fixed', route'.
  - intros (Hw' & Hmethod' & fixed' & route' & Hroute' & HP'). exists (service, candidateOf so'.1 so'.2 protocol fixed' route').
    split; [|split; [done|split; [done|unfold restKey; cbn; by rewrite Hmethod']]].
    apply (build_entry _ _ Hb _ Hin'). by exists protocol, fixed', route'.
Qed.

End OperationTheorems.

Definition sampleLimits : DecodeLimits := mkLimits 8388608 2048 32 4096 8192.
Example greedy_label : let _ := ascii_tables in
  restOperationFromCatalog "s3" "/bucket/a%2Fb/c%20d" "GET" {["versionId" := ["7"]]} ProtocolRESTXML (Some sampleIndex) sampleLimits =
  Ok ("GetObject", {["Bucket" := "bucket"; "Key" := "a/b/c d"]})%string.
Proof. vm_compute. reflexivity. Qed.
(** The same values from another path: the parameters do not say which. *)
Example greedy_ambiguous : let _ := ascii_tables in
  restOperationFromCatalog "s3" "/bucket/a/b/c%20d" "GET" {["versionId" := ["7"]]} ProtocolRESTXML (Some sampleIndex) sampleLimits =
  Ok ("GetObject", {["Bucket" := "bucket"; "Key" := "a/b/c d"]})%string.
Proof. vm_compute. reflexivity. Qed.
End RestRoute.
