(* ===== verification/JsonDecode.v ===== *)
(** * JSON bodies (awsrequest/decode_json.go: parseJSONValue, decodeJSONBody)

    The token stream of [encoding/json] over the bytes of a body, and the
    decoder's own recursive descent over it, which refuses duplicate members and
    bounds depth, sizes and numbers. *)

From Stdlib Require Import ZArith Lia Ascii Floats.SpecFloat.
From stdpp Require Import base gmap strings list.
From S2P Require Import Prelude GoStrings GoEncoding.
From S2P Require Import AwsTypes.
From S2P Require Import WireIndex.
From S2P Require Import RestRoute.

Module JsonDecode.
Import AwsTypes.AwsTypes WireIndex.WireIndex RestRoute.RestRoute.

(** ** encoding/json: one scalar *)

Definition isJSONSpace (c : Z) : bool := (c =? 32) || (c =? 9) || (c =? 13) || (c =? 10).
Fixpoint skipSpace (s : string) : string :=
  match s with String c s' => if isJSONSpace (ord c) then skipSpace s' else s | EmptyString => s end.

(** Digits up to the first byte that is none. *)
Fixpoint spanDigits (s : string) : string * string :=
  match s with
  | String c s' => if is_digit (ord c) then let (d, r) := spanDigits s' in (String c d, r) else (EmptyString, s)
  | EmptyString => (EmptyString, EmptyString)
  end.
(** The scanner's number: sign, integer, fraction, exponent; the longest text. *)
Definition scanFraction (s : string) : option (string * string) :=
  match s with
  | String c s' =>
    if ord c =? ord "." then
      let (d, r) := spanDigits s' in if (d =? "")%string then None else Some (String c d, r)
    else Some (EmptyString, s)
  | EmptyString => Some (EmptyString, EmptyString)
  end.
Definition scanExponent (s : string) : option (string * string) :=
  match s with
  | String c s' =>
    if (ord c =? ord "e") || (ord c =? ord "E") then
      let '(sign, s') := match s' with
        | String x s'' => if (ord x =? ord "+") || (ord x =? ord "-") then (String x EmptyString, s'') else (EmptyString, s')
        | EmptyString => (EmptyString, EmptyString)
        end in
      let (d, r) := spanDigits s' in if (d =? "")%string then None else Some (String c (sign ++ d), r)
    else Some (EmptyString, s)
  | EmptyString => Some (EmptyString, EmptyString)
  end.
Definition scanInteger (s : string) : option (string * string) :=
  match s with
  | String c s' =>
    if ord c =? ord "0" then Some (String c EmptyString, s')
    else let (d, r) := spanDigits s in if (d =? "")%string then None else Some (d, r)
  | EmptyString => None
  end.
Definition scanNumber (s : string) : option (string * string) :=
  let '(sign, s) := match s with
    | String c s' => if ord c =? ord "-" then ("-"%string, s') else (EmptyString, s)
    | EmptyString => (EmptyString, s)
    end in
  '(i, s) ← scanInteger s; '(f, s) ← scanFraction s; '(e, s) ← scanExponent s; Some ((sign ++ i ++ f ++ e)%string, s).

(** String literals: the escapes resolved, then invalid UTF-8 replaced. *)
Definition hex4 (s : string) : option (Z * string) :=
  match s with
  | String a (String b (String c (String d s))) =>
    match unhex (ord a), unhex (ord b), unhex (ord c), unhex (ord d) with
    | Some a, Some b, Some c, Some d => Some (((a * 16 + b) * 16 + c) * 16 + d, s)
    | _, _, _, _ => None
    end
  | _ => None
  end.
Definition isSurrogate (r : Z) : bool := between 55296 57343 r.
(** [utf16.DecodeRune] of a pair, when it is one. *)
Definition surrogatePair (r1 r2 : Z) : option Z :=
  if between 55296 56319 r1 && between 56320 57343 r2
  then Some ((r1 - 55296) * 1024 + (r2 - 56320) + 65536) else None.
Definition simpleEscape (c : Z) : option Z :=
  if (c =? 34) || (c =? 92) || (c =? 47) then Some c
  else if c =? ord "b" then Some 8 else if c =? ord "f" then Some 12 else if c =? ord "n" then Some 10
  else if c =? ord "r" then Some 13 else if c =? ord "t" then Some 9 else None.
(** From after the opening quote; [pending] is a first half of a surrogate pair
    that has just been read. *)
Fixpoint scanString (s : string) (pending : option Z) : option (string * string) :=
  let flush text := match pending with Some _ => (encode_rune RuneError ++ text)%string | None => text end in
  match s with
  | EmptyString => None
  | String c s =>
    if ord c =? 34 then Some (flush EmptyString, s)
    else if ord c <? 32 then None
    else if ord c =? 92 then
      match s with
      | String u (String h1 (String h2 (String h3 (String h4 s'))) as rest) =>
        if ord u =? ord "u" then
          match hex4 (String h1 (String h2 (String h3 (String h4 EmptyString)))) with
          | None => None
          | Some (r, _) =>
            match pending with
            | Some r1 =>
              match surrogatePair r1 r with
              | Some x => '(text, s) ← scanString s' None; Some ((encode_rune x ++ text)%string, s)
              | None =>
                if isSurrogate r
                then '(text, s) ← scanString s' (Some r); Some ((encode_rune RuneError ++ text)%string, s)
                else '(text, s) ← scanString s' None; Some ((encode_rune RuneError ++ encode_rune r ++ text)%string, s)
              end
            | None =>
              if isSurrogate r then scanString s' (Some r)
              else '(text, s) ← scanString s' None; Some ((encode_rune r ++ text)%string, s)
            end
          end
        else match simpleEscape (ord u) with
        | Some b => '(text, s) ← scanString rest None; Some (flush (String (chr b) text), s)
        | None => None
        end
      | String u rest =>
        match simpleEscape (ord u) with
        | Some b => '(text, s) ← scanString rest None; Some (flush (String (chr b) text), s)
        | None => None
        end
      | EmptyString => None
      end
    else '(text, s) ← scanString s None; Some (flush (String c text), s)
  end.
(** Each byte that is no part of a valid encoding becomes U+FFFD. *)
Definition sanitize (s : string) : string := foldr (fun r t => (encode_rune r ++ t)%string) EmptyString (runes s).
Definition readString (s : string) : option (string * string) :=
  '(text, s) ← scanString s None; Some (sanitize text, s).

(** ** encoding/json: tokens *)

Inductive tokenState :=
| tokenTopValue | tokenArrayStart | tokenArrayValue | tokenArrayComma | tokenObjectStart | tokenObjectKey
| tokenObjectColon | tokenObjectValue | tokenObjectComma.
Record decoder := mkDecoder { input : string; tstate : tokenState; tstack : list tokenState }.
Inductive token := TDelim (c : Z) | TString (s : string) | TBool (b : bool) | TNull | TNumber (s : string).

Definition tokenValueAllowed (t : tokenState) : bool :=
  match t with tokenTopValue | tokenArrayStart | tokenArrayValue | tokenObjectValue => true | _ => false end.
Definition tokenValueEnd (t : tokenState) : tokenState :=
  match t with
  | tokenArrayStart | tokenArrayValue => tokenArrayComma
  | tokenObjectValue => tokenObjectComma
  | t => t
  end.
(** [peek]: the next byte that is not white space. *)
Definition peek (d : decoder) : option (Z * string) :=
  match skipSpace (input d) with String c s => Some (ord c, s) | EmptyString => None end.
Definition More (d : decoder) : bool :=
  match peek d with Some (c, _) => negb (c =? ord "]") && negb (c =? ord "}") | None => false end.

Definition literal (s : string) : option (token * string) :=
  if HasPrefix s "true" then Some (TBool true, str_drop 4 s)
  else if HasPrefix s "false" then Some (TBool false, str_drop 5 s)
  else if HasPrefix s "null" then Some (TNull, str_drop 4 s)
  else '(n, s) ← scanNumber s; Some (TNumber n, s).
Definition pop (d : decoder) (s : string) : decoder :=
  match tstack d with
  | t :: stack => mkDecoder s (tokenValueEnd t) stack
  | [] => mkDecoder s tokenTopValue []
  end.
(** [Token] once any separators are behind. *)
Definition tokenHere (d : decoder) (c : Z) (s : string) : option (token * decoder) :=
  let t := tstate d in
  if (c =? ord "[") || (c =? ord "{") then
    if tokenValueAllowed t
    then Some (TDelim c, mkDecoder s (if c =? ord "[" then tokenArrayStart else tokenObjectStart) (t :: tstack d))
    else None
  else if c =? ord "]" then
    match t with tokenArrayStart | tokenArrayComma => Some (TDelim c, pop d s) | _ => None end
  else if c =? ord "}" then
    match t with tokenObjectStart | tokenObjectComma => Some (TDelim c, pop d s) | _ => None end
  else if c =? 34 then
    match t with
    | tokenObjectStart | tokenObjectKey =>
      '(x, s) ← readString s; Some (TString x, mkDecoder s tokenObjectColon (tstack d))
    | _ => if tokenValueAllowed t
           then '(x, s) ← readString s; Some (TString x, mkDecoder s (tokenValueEnd t) (tstack d))
           else None
    end
  else if tokenValueAllowed t
  then '(x, s) ← literal (String (chr c) s); Some (x, mkDecoder s (tokenValueEnd t) (tstack d))
  else None.
(** One separator: the state after it, when it is due. *)
Definition separator (t : tokenState) (c : Z) : option tokenState :=
  match t with
  | tokenObjectColon => if c =? ord ":" then Some tokenObjectValue else None
  | tokenArrayComma => if c =? ord "," then Some tokenArrayValue else None
  | tokenObjectComma => if c =? ord "," then Some tokenObjectKey else None
  | _ => None
  end.
(** [Token]; after a separator no other one is due, so the loop runs at most
    twice. Every error, the end of input included, is [None]. *)
Definition Token (d : decoder) : option (token * decoder) :=
  '(c, s) ← peek d;
  match separator (tstate d) c with
  | Some t =>
    let d := mkDecoder s t (tstack d) in
    '(c, s) ← peek d; if (c =? ord ":") || (c =? ord ",") then None else tokenHere d c s
  | None => if (c =? ord ":") || (c =? ord ",") then None else tokenHere d c s
  end.

(** ** Numbers *)

Definition vbool (b : bool) : Value := mkValue ValueBoolean EmptyString b 0 (S754_zero false) [] [].
Definition vnull : Value := mkValue ValueNull EmptyString false 0 (S754_zero false) [] [].
Definition vint (z : Z) : Value := mkValue ValueInteger EmptyString false z (S754_zero false) [] [].
Definition vnumber (f : spec_float) : Value := mkValue ValueNumber EmptyString false 0 f [] [].

(** [strconv.ParseInt] of a JSON integer. *)
Definition parseInt (x : string) : option Z :=
  let v := match x with
           | String c s => if ord c =? ord "-" then - decimal 0 s else decimal 0 x
           | EmptyString => 0
           end in
  if between (- 2 ^ 63) (2 ^ 63 - 1) v then Some v else None.

(** [strconv.ParseFloat] of a JSON number: the decimal is [mantissa * 10 ^ exponent],
    rounded to the nearest float64.  The exponent stops growing at five digits. *)
Fixpoint exponentDigits (e : Z) (s : string) : Z :=
  match s with
  | String c s => exponentDigits (if e <? 10000 then e * 10 + (ord c - 48) else e) s
  | EmptyString => e
  end.
Definition roundDecimal (negative : bool) (mantissa exponent : Z) : spec_float :=
  match mantissa with
  | Zpos _ =>
    if 0 <=? exponent
    then binary_normalize 53 1024 (if negative then - (mantissa * 10 ^ exponent) else mantissa * 10 ^ exponent) 0 negative
    else SFdiv 53 1024 (S754_finite negative (Z.to_pos mantissa) 0) (S754_finite false (Z.to_pos (10 ^ (- exponent))) 0)
  | _ => S754_zero negative
  end.
Definition parseFloat (x : string) : option spec_float :=
  let '(negative, x) := match x with
    | String c s => if ord c =? ord "-" then (true, s) else (false, x)
    | EmptyString => (false, x)
    end in
  let (i, x) := spanDigits x in
  let (f, x) := match x with
    | String c s => if ord c =? ord "." then spanDigits s else (EmptyString, x)
    | EmptyString => (EmptyString, x)
    end in
  let e := match x with
    | String _ (String c s as digits) =>
      if ord c =? ord "-" then - exponentDigits 0 s
      else if ord c =? ord "+" then exponentDigits 0 s else exponentDigits 0 digits
    | _ => 0
    end in
  let v := roundDecimal negative (decimal 0 (i ++ f)) (e - slen f) in
  match v with S754_infinity _ | S754_nan => None | _ => Some v end.

Definition numberValue (x : string) : result Value :=
  if bytes_any (in_set ".eE") x
  then match parseFloat x with Some f => Ok (vnumber f) | None => Err (ErrNew "JSON number is invalid") end
  else match parseInt x with Some i => Ok (vint i) | None => Err (ErrNew "JSON integer is invalid") end.

(** ** parseJSONValue *)

Section Parse.
Context (l : DecodeLimits).

Definition malformed {A} (msg : string) : option (result A) := Some (Err (ErrNew msg)).

(** The descent, with a bound on its calls ([None] when it runs out); the loops
    over members and elements carry what has been collected. *)
Fixpoint parseJSONValue (fuel : nat) (depth : Z) (d : decoder) : option (result (Value * decoder)) :=
  match fuel with
  | O => None
  | S fuel =>
    if MaxDepth l <? depth then malformed "JSON nesting exceeds limit"
    else match Token d with
    | None => malformed "malformed JSON body"
    | Some (TDelim c, d) =>
      if c =? ord "{" then parseMembers fuel depth [] d
      else if c =? ord "[" then parseElements fuel depth [] d
      else malformed "malformed JSON delimiter"
    | Some (TString x, d) =>
      if MaxTokenBytes l <? slen x then malformed "JSON string exceeds limit" else Some (Ok (vstring x, d))
    | Some (TBool b, d) => Some (Ok (vbool b, d))
    | Some (TNull, d) => Some (Ok (vnull, d))
    | Some (TNumber x, d) =>
      Some (match numberValue x with Ok v => Ok (v, d) | Err err => Err err end)
    end
  end
with parseMembers (fuel : nat) (depth : Z) (m : list (string * Value)) (d : decoder)
  : option (result (Value * decoder)) :=
  match fuel with
  | O => None
  | S fuel =>
    if More d then
      match Token d with
      | None => malformed "malformed JSON object"
      | Some (TString s, d) =>
        if (s =? "")%string || (MaxTokenBytes l <? slen s) then malformed "invalid JSON object key"
        else if existsb (fun kv => (kv.1 =? s)%string) m
        then Some (Err (ErrFmt "duplicate JSON member %q" [s]))
        else match parseJSONValue fuel (depth + 1) d with
        | Some (Ok (v, d)) =>
          let m := m ++ [(s, v)] in
          if MaxParameters l <? Z.of_nat (List.length m) then malformed "JSON parameter limit exceeded"
          else parseMembers fuel depth m d
        | other => other
        end
      | Some _ => malformed "invalid JSON object key"
      end
    else match Token d with
    | None => malformed "malformed JSON object"
    | Some (_, d) => Some (Ok (vobject m, d))
    end
  end
with parseElements (fuel : nat) (depth : Z) (a : list Value) (d : decoder) : option (result (Value * decoder)) :=
  match fuel with
  | O => None
  | S fuel =>
    if More d then
      match parseJSONValue fuel (depth + 1) d with
      | Some (Ok (v, d)) =>
        let a := a ++ [v] in
        if MaxParameters l <? Z.of_nat (List.length a) then malformed "JSON parameter limit exceeded"
        else parseElements fuel depth a d
      | other => other
      end
    else match Token d with
    | None => malformed "malformed JSON array"
    | Some (_, d) => Some (Ok (varray a, d))
    end
  end.

Definition newDecoder (body : string) : decoder := mkDecoder body tokenTopValue [].
(** Calls enough for a body. *)
Definition enough (body : string) : nat := 2 * String.length body + 2.

(** A whole body: one value and nothing after it but white space. *)
Inductive bodyResult := BodyValue (v : Value) | BodyTrailing (v : Value) | BodyInvalid (err : error).
Definition parseBody (body : string) : option bodyResult :=
  match parseJSONValue (enough body) 0 (newDecoder body) with
  | None => None
  | Some (Err err) => Some (BodyInvalid err)
  | Some (Ok (v, d)) => Some (if (skipSpace (input d) =? "")%string then BodyValue v else BodyTrailing v)
  end.
End Parse.

Definition sampleLimits : DecodeLimits := mkLimits 8388608 2048 32 4096 8192.
(** JSON text with its quotes written as apostrophes. *)
Definition js (s : string) : string := map_bytes (fun c => if c =? 39 then 34 else c) s.
Example parse_ex :
  parseBody sampleLimits (js "{'a':[1,-2.5e1,true],'b':null} ") =
  Some (BodyValue (vobject [("a", varray [vint 1; vnumber (S754_finite true 7036874417766400 (-48)); vbool true]);
                            ("b", vnull)]%string)).
Proof. vm_compute. reflexivity. Qed.
Example duplicate_ex : parseBody sampleLimits (js "{'a':1,'a':2}") =
  Some (BodyInvalid (ErrFmt "duplicate JSON member %q" ["a"%string])).
Proof. vm_compute. reflexivity. Qed.
Example trailing_ex : parseBody sampleLimits "{} {}" = Some (BodyTrailing (vobject [])).
Proof. vm_compute. reflexivity. Qed.
Example surrogate_ex : readString (js "\ud83d\ude00\ud83dx'") =
  Some ((encode_rune 128512 ++ encode_rune RuneError ++ "x")%string, EmptyString).
Proof. vm_compute. reflexivity. Qed.
Example comma_ex : parseBody sampleLimits "[1,]" = Some (BodyInvalid (ErrNew "malformed JSON body")).
Proof. vm_compute. reflexivity. Qed.

(** ** Lemmas: consumption *)

Lemma skipSpace_le s : (String.length (skipSpace s) <= String.length s)%nat.
Proof. induction s as [|c s IH]; cbn; [lia|]. case_match; cbn; lia. Qed.
Lemma spanDigits_app s : s = ((spanDigits s).1 ++ (spanDigits s).2)%string.
Proof.
  induction s as [|c s IH]; [done|]. cbn [spanDigits]. case_match; [|done]. destruct (spanDigits s) as [d r]. exact (f_equal (String c) IH).
Qed.
Lemma spanDigits_le s d r : spanDigits s = (d, r) -> (String.length r <= String.length s)%nat /\
  ((d =? "")%string = false -> (String.length r < String.length s)%nat).
Proof.
  intros E. pose proof (spanDigits_app s) as H. rewrite E in H. cbn in H. rewrite H, str_length_app. split; [lia|].
  destruct d; cbn; [done|lia].
Qed.
Lemma scanNumber_lt s n r : scanNumber s = Some (n, r) -> (String.length r < String.length s)%nat.
Proof.
  unfold scanNumber. intros H.
  destruct (match s with String c s' => if ord c =? ord "-" then _ else _ | EmptyString => _ end) as [sign s0] eqn:E0.
  assert (String.length s0 <= String.length s)%nat as H0.
  { destruct s as [|c s]; [by injection E0 as <- <-|]. destruct (ord c =? ord "-"); injection E0 as <- <-; cbn; lia. }
  destruct (scanInteger s0) as [[i s1]|] eqn:E1; [|done]. cbn in H. destruct (scanFraction s1) as [[f s2]|] eqn:E2; [|done].
  cbn in H. destruct (scanExponent s2) as [[e s3]|] eqn:E3; [|done]. injection H as <- <-.
  assert (String.length s1 < String.length s0)%nat.
  { unfold scanInteger in E1. destruct s0 as [|c s0]; [done|]. case_match; [injection E1 as <- <-; cbn; lia|].
    destruct (spanDigits _) as [d r] eqn:Es. case_match eqn:Ed; [done|]. injection E1 as <- <-.
    by apply (proj2 (spanDigits_le _ _ _ Es)). }
  assert (String.length s2 <= String.length s1)%nat.
  { unfold scanFraction in E2. destruct s1 as [|c s1]; [by injection E2 as <- <-|]. case_match; [|by injection E2 as <- <-].
    destruct (spanDigits s1) as [d r] eqn:Es. case_match; [done|]. injection E2 as <- <-.
    pose proof (proj1 (spanDigits_le _ _ _ Es)). cbn. lia. }
  assert (String.length s3 <= String.length s2)%nat; [|lia].
  unfold scanExponent in E3. destruct s2 as [|c s2]; [by injection E3 as <- <-|]. case_match; [|by injection E3 as <- <-].
  destruct (match s2 with String x s'' => _ | EmptyString => _ end) as [sg s4] eqn:E4.
  assert (String.length s4 <= String.length s2)%nat.
  { destruct s2 as [|x s2]; [by injection E4 as <- <-|]. destruct (_ || _) in E4; injection E4 as <- <-; cbn; lia. }
  destruct (spanDigits s4) as [d r] eqn:Es. case_match; [done|]. injection E3 as <- <-.
  pose proof (proj1 (spanDigits_le _ _ _ Es)). cbn. lia.
Qed.
Lemma scanString_lt s : forall p x r, scanString s p = Some (x, r) -> (String.length r < String.length s)%nat.
Proof.
  induction s as [s IH] using string_len_ind. intros p x r H. destruct s as [|c s]; [done|].
  assert (Hrec : forall s' p' (f : string -> string), (String.length s' <= String.length s)%nat ->
    (scanString s' p' ≫= fun '(t, r) => Some (f t, r)) = Some (x, r) -> (String.length r < String.length (String c s))%nat).
  { intros s' p' f Hl E. destruct (scanString s' p') as [[t r']|] eqn:Es; [|done]. injection E as _ <-.
    apply IH in Es; cbn; lia. }
  cbn [scanString] in H. destruct (ord c =? 34); [injection H as _ <-; cbn; lia|]. destruct (ord c <? 32); [done|].
  destruct (ord c =? 92).
  - destruct s as [|u rest]; [done|].
    assert (Hs : match simpleEscape (ord u) with
      | Some b => '(text, s) ← scanString rest None;
          Some ((match p with Some _ => (encode_rune RuneError ++ String (chr b) text)%string | None => String (chr b) text end), s)
      | None => None end = Some (x, r) -> (String.length r < String.length (String c (String u rest)))%nat).
    { destruct (simpleEscape (ord u)) as [b|]; [|done].
      apply (Hrec rest None (fun t => match p with Some _ => _ | None => _ end)). cbn. lia. }
    destruct rest as [|h1 [|h2 [|h3 [|h4 s']]]]; [by apply Hs..|].
    destruct (ord u =? ord "u"); [|by apply Hs].
    destruct (hex4 _) as [[h ?]|]; [|done]. destruct p as [r1|].
    + destruct (surrogatePair r1 h) as [y|]; [apply Hrec in H; [done|cbn; lia]|].
      destruct (isSurrogate h); [apply Hrec in H; [done|cbn; lia]|].
      apply (Hrec s' None (fun t => (encode_rune RuneError ++ encode_rune h ++ t)%string)) in H; [done|cbn; lia].
    + destruct (isSurrogate h); [|apply Hrec in H; [done|cbn; lia]]. apply IH in H; cbn in *; lia.
  - apply (Hrec s None (fun t => match p with Some _ => _ | None => _ end)) in H; [done|lia].
Qed.
Lemma readString_lt s x r : readString s = Some (x, r) -> (String.length r < String.length s)%nat.
Proof. unfold readString. destruct (scanString s None) as [[t r']|] eqn:E; [|done]. intros [= _ <-]. by apply scanString_lt in E. Qed.
Lemma str_drop_le n s : (String.length (str_drop n s) <= String.length s)%nat.
Proof. revert s. induction n as [|n IH]; intros [|c s]; cbn; [lia..|]. specialize (IH s). lia. Qed.
Lemma literal_lt s t r : literal s = Some (t, r) -> (String.length r < String.length s)%nat.
Proof.
  assert (Hd : forall p k, HasPrefix s p = true -> String.length p = S k ->
    (String.length (str_drop (S k) s) < String.length s)%nat).
  { intros p k Hp Hk. apply HasPrefix_app in Hp as [u ->]. destruct p as [|c p]; [done|]. rewrite str_length_app.
    change (str_drop (S k) (String c p ++ u)) with (str_drop k (p ++ u)). pose proof (str_drop_le k (p ++ u)) as Hl.
    rewrite str_length_app in Hl. cbn in *. lia. }
  unfold literal. destruct (HasPrefix s "true") eqn:E1; [intros [= _ <-]; by apply (Hd "true"%string 3%nat)|].
  destruct (HasPrefix s "false") eqn:E2; [intros [= _ <-]; by apply (Hd "false"%string 4%nat)|].
  destruct (HasPrefix s "null") eqn:E3; [intros [= _ <-]; by apply (Hd "null"%string 3%nat)|].
  destruct (scanNumber s) as [[n r']|] eqn:E; [|done]. intros [= _ <-]. by apply scanNumber_lt in E.
Qed.

Lemma peek_lt d c s : peek d = Some (c, s) -> (String.length s < String.length (input d))%nat.
Proof.
  unfold peek. pose proof (skipSpace_le (input d)). destruct (skipSpace _); [done|]. intros [= _ <-]. cbn in *. lia.
Qed.
Lemma pop_input d s : input (pop d s) = s.
Proof. unfold pop. by destruct (tstack d). Qed.
Lemma tokenHere_le d c s t d' : tokenHere d c s = Some (t, d') -> (String.length (input d') <= String.length s)%nat.
Proof.
  assert (Hs : forall st stack x, (readString s ≫= fun '(x, s) => Some (TString x, mkDecoder s st stack)) = Some x ->
    (String.length (input x.2) <= String.length s)%nat).
  { intros st stack x H. destruct (readString s) as [[y r]|] eqn:E; [|done]. injection H as <-. apply readString_lt in E. cbn. lia. }
  assert (Hl : forall st stack x, (literal (String (chr c) s) ≫= fun '(x, s) => Some (x, mkDecoder s st stack)) = Some x ->
    (String.length (input x.2) <= String.length s)%nat).
  { intros st stack x H. destruct (literal _) as [[y r]|] eqn:E; [|done]. injection H as <-. apply literal_lt in E. cbn in *. lia. }
  unfold tokenHere. intros H. change d' with (t, d').2. revert H.
  destruct (_ || _); [destruct (tokenValueAllowed _); [|done]; by intros [= <- <-]|].
  destruct (c =? ord "]"); [destruct (tstate d); try done; intros [= <- <-]; cbn [snd]; by rewrite pop_input|].
  destruct (c =? ord "}"); [destruct (tstate d); try done; intros [= <- <-]; cbn [snd]; by rewrite pop_input|].
  destruct (c =? 34).
  - destruct (tstate d); cbn [tokenValueAllowed]; try done; by apply Hs.
  - destruct (tokenValueAllowed _); [|done]. by apply Hl.
Qed.
Lemma Token_lt d t d' : Token d = Some (t, d') -> (String.length (input d') < String.length (input d))%nat.
Proof.
  unfold Token. destruct (peek d) as [[c s]|] eqn:Ep; [|done]. apply peek_lt in Ep. cbn.
  destruct (separator _ _) as [st|].
  - destruct (peek (mkDecoder s st (tstack d))) as [[c' s']|] eqn:Ep'; [|done]. apply peek_lt in Ep'. cbn in *.
    destruct (_ || _); [done|]. intros H%tokenHere_le. lia.
  - destruct (_ || _); [done|]. intros H%tokenHere_le. lia.
Qed.

Section ParseTheorems.
Context (l : DecodeLimits).

#[local] Abbreviation size d := (String.length (input d)).

(** Every part of the descent consumes input, and has an answer when its fuel is
    twice what is left. *)
Lemma parse_consumes fuel :
  (forall depth d v d', parseJSONValue l fuel depth d = Some (Ok (v, d')) -> (size d' < size d)%nat) /\
  (forall depth m d v d', parseMembers l fuel depth m d = Some (Ok (v, d')) -> (size d' < size d)%nat) /\
  (forall depth a d v d', parseElements l fuel depth a d = Some (Ok (v, d')) -> (size d' < size d)%nat).
Proof.
  induction fuel as [|fuel (IHv & IHm & IHe)]; [done|]. split_and!.
  - intros depth d v d'. cbn [parseJSONValue]. destruct (_ <? _); [done|].
    destruct (Token d) as [[[c|x|b| |x] d1]|] eqn:E; [| | | | |done]; apply Token_lt in E.
    + destruct (_ =? _); [intros H%IHm; lia|]. destruct (_ =? _); [intros H%IHe; lia|done].
    + destruct (_ <? _); [done|]. by intros [= _ <-].
    + by intros [= _ <-].
    + by intros [= _ <-].
    + destruct (numberValue x); [|done]. by intros [= _ <-].
  - intros depth m d v d'. cbn [parseMembers]. destruct (More d).
    + destruct (Token d) as [[[c|x|b| |x] d1]|] eqn:E; [done| |done..]. apply Token_lt in E.
      destruct (_ || _); [done|]. destruct (existsb _ _); [done|].
      destruct (parseJSONValue l fuel (depth + 1) d1) as [[[w d2]|]|] eqn:Ev; [|done..]. apply IHv in Ev.
      destruct (_ <? _); [done|]. intros H%IHm. lia.
    + destruct (Token d) as [[t d1]|] eqn:E; [|done]. apply Token_lt in E. by intros [= _ <-].
  - intros depth a d v d'. cbn [parseElements]. destruct (More d).
    + destruct (parseJSONValue l fuel (depth + 1) d) as [[[w d2]|]|] eqn:Ev; [|done..]. apply IHv in Ev.
      destruct (_ <? _); [done|]. intros H%IHe. lia.
    + destruct (Token d) as [[t d1]|] eqn:E; [|done]. apply Token_lt in E. by intros [= _ <-].
Qed.
Lemma parse_answers fuel :
  (forall depth d, (2 * size d + 2 <= fuel)%nat -> is_Some (parseJSONValue l fuel depth d)) /\
  (forall depth m d, (2 * size d + 1 <= fuel)%nat -> is_Some (parseMembers l fuel depth m d)) /\
  (forall depth a d, (2 * size d + 3 <= fuel)%nat -> is_Some (parseElements l fuel depth a d)).
Proof.
  induction fuel as [|fuel (IHv & IHm & IHe)]; [split_and!; intros; lia|].
  destruct (parse_consumes fuel) as (Cv & Cm & Ce). split_and!.
  - intros depth d Hf. cbn [parseJSONValue]. destruct (_ <? _); [done|].
    destruct (Token d) as [[[c|x|b| |x] d1]|] eqn:E; [| | | | |done]; apply Token_lt in E.
    + destruct (_ =? _); [apply IHm; lia|]. destruct (_ =? _); [apply IHe; lia|done].
    + by destruct (_ <? _).
    + done.
    + done.
    + done.
  - intros depth m d Hf. cbn [parseMembers]. destruct (More d).
    + destruct (Token d) as [[[c|x|b| |x] d1]|] eqn:E; [done| |done..]. apply Token_lt in E.
      destruct (_ || _); [done|]. destruct (existsb _ _); [done|].
      destruct (IHv (depth + 1) d1) as [r Hr]; [lia|]. rewrite Hr. destruct r as [[w d2]|]; [|done].
      apply Cv in Hr. destruct (_ <? _); [done|]. apply IHm. lia.
    + by destruct (Token d) as [[t d1]|].
  - intros depth a d Hf. cbn [parseElements]. destruct (More d).
    + destruct (IHv (depth + 1) d) as [r Hr]; [lia|]. rewrite Hr. destruct r as [[w d2]|]; [|done].
      apply Cv in Hr. destruct (_ <? _); [done|]. apply IHe. lia.
    + by destruct (Token d) as [[t d1]|].
Qed.

(** Decoding a body always ends with an answer: the calls that the descent makes,
    over any bytes and any limits, are bounded by the body's length. *)
Theorem parseBody_total body : is_Some (parseBody l body).
Proof.
  unfold parseBody, enough. destruct (parse_answers (2 * String.length body + 2)) as (Hv & _).
  destruct (Hv 0 (newDecoder body)) as [r Hr]; [cbn; lia|]. rewrite Hr. by destruct r as [[v d]|].
Qed.

Definition finiteFloat (f : spec_float) : bool := match f with S754_zero _ | S754_finite _ _ _ => true | _ => false end.
(** What a decoded value is: within the limits at every level, objects without
    duplicate members, 64-bit integers, finite numbers. *)
Inductive bounded : Z -> Value -> Prop :=
| b_null depth : depth <= MaxDepth l -> bounded depth vnull
| b_bool depth b : depth <= MaxDepth l -> bounded depth (vbool b)
| b_string depth s : depth <= MaxDepth l -> slen s <= MaxTokenBytes l -> bounded depth (vstring s)
| b_int depth z : depth <= MaxDepth l -> - 2 ^ 63 <= z < 2 ^ 63 -> bounded depth (vint z)
| b_number depth f : depth <= MaxDepth l -> finiteFloat f = true -> bounded depth (vnumber f)
| b_object depth m : depth <= MaxDepth l -> NoDup m.*1 -> Z.of_nat (List.length m) <= Z.max 0 (MaxParameters l) ->
    Forall (fun kv => kv.1 <> EmptyString /\ slen kv.1 <= MaxTokenBytes l) m ->
    Forall (fun kv => bounded (depth + 1) kv.2) m -> bounded depth (vobject m)
| b_array depth a : depth <= MaxDepth l -> Z.of_nat (List.length a) <= Z.max 0 (MaxParameters l) ->
    Forall (bounded (depth + 1)) a -> bounded depth (varray a).

Lemma numberValue_bounded depth x v : depth <= MaxDepth l -> numberValue x = Ok v -> bounded depth v.
Proof.
  intros Hd. unfold numberValue. destruct (bytes_any _ x).
  - destruct (parseFloat x) as [f|] eqn:E; [|done]. intros [= <-]. apply b_number; [done|].
    unfold parseFloat in E. destruct (match x with String _ _ => _ | EmptyString => _ end) as [negative y].
    destruct (spanDigits y) as [i z]. destruct (match z with String _ _ => _ | EmptyString => _ end) as [g w].
    destruct (roundDecimal _ _ _); try done; by injection E as <-.
  - unfold parseInt. destruct (between _ _ _) eqn:E; [|done]. intros [= <-]. apply b_int; [done|]. unfold between in E. lia.
Qed.
Lemma parse_bounded fuel :
  (forall depth d v d', parseJSONValue l fuel depth d = Some (Ok (v, d')) -> bounded depth v) /\
  (forall depth m d v d', depth <= MaxDepth l -> bounded depth (vobject m) ->
     parseMembers l fuel depth m d = Some (Ok (v, d')) -> bounded depth v) /\
  (forall depth a d v d', depth <= MaxDepth l -> bounded depth (varray a) ->
     parseElements l fuel depth a d = Some (Ok (v, d')) -> bounded depth v).
Proof.
  induction fuel as [|fuel (IHv & IHm & IHe)]; [done|]. split_and!.
  - intros depth d v d'. cbn [parseJSONValue]. destruct (_ <? depth) eqn:Ed; [done|].
    destruct (Token d) as [[[c|x|b| |x] d1]|]; [| | | | |done].
    + destruct (_ =? _); [apply IHm; [lia|]|destruct (_ =? _); [apply IHe; [lia|]|done]].
      * apply b_object; [lia|constructor|cbn; lia|constructor|constructor].
      * apply b_array; [lia|cbn; lia|constructor].
    + destruct (MaxTokenBytes l <? slen x) eqn:Es; [done|]. intros [= <- _]. apply b_string; lia.
    + intros [= <- _]. apply b_bool; lia.
    + intros [= <- _]. apply b_null; lia.
    + destruct (numberValue x) as [w|] eqn:En; [|done]. intros [= <- _]. apply (numberValue_bounded _ x); [lia|done].
  - intros depth m d v d' Hd Hm. cbn [parseMembers]. destruct (More d).
    + destruct (Token d) as [[[c|x|b| |x] d1]|]; [done| |done..].
      destruct (_ || _) eqn:Ek; [done|]. apply orb_false_iff in Ek as [Ek El]. destruct (existsb _ _) eqn:Ex; [done|].
      destruct (parseJSONValue l fuel (depth + 1) d1) as [[[w d2]|]|] eqn:Ev; [|done..]. apply IHv in Ev.
      destruct (MaxParameters l <? _) eqn:Ep; [done|]. apply IHm; [done|].
      inversion Hm as [| | | | |? ? _ Hn Hl Hk HF|]; subst. apply b_object; [done| |lia| |].
      * rewrite fmap_app. apply NoDup_app. split_and!; [done| |apply NoDup_singleton].
        intros k Hin Hx. apply list_elem_of_singleton in Hx. cbn [fst] in Hx. subst k.
        apply list_elem_of_fmap in Hin as ([k w'] & Hk' & Hin). cbn [fst] in Hk'. subst k.
        apply not_true_iff_false in Ex. apply Ex. apply existsb_exists. exists (x, w'). split; [by apply list_elem_of_In|apply String.eqb_refl].
      * apply Forall_app. split; [done|]. constructor; [|constructor]. cbn. apply String.eqb_neq in Ek. split; [done|lia].
      * apply Forall_app. split; [done|]. by constructor.
    + destruct (Token d) as [[t d1]|]; [|done]. by intros [= <- _].
  - intros depth a d v d' Hd Ha. cbn [parseElements]. destruct (More d).
    + destruct (parseJSONValue l fuel (depth + 1) d) as [[[w d2]|]|] eqn:Ev; [|done..]. apply IHv in Ev.
      destruct (MaxParameters l <? _) eqn:Ep; [done|]. apply IHe; [done|]. inversion Ha as [| | | | | |? ? _ Hl HF]; subst.
      apply b_array; [done|lia|]. apply Forall_app. split; [done|]. by constructor.
    + destruct (Token d) as [[t d1]|]; [|done]. by intros [= <- _].
Qed.
Theorem parseBody_bounded body v : parseBody l body = Some (BodyValue v) -> bounded 0 v.
Proof.
  unfold parseBody. destruct (parseJSONValue _ _ _ _) as [[[w d]|]|] eqn:E; [|done..].
  destruct (_ =? _)%string; [|done]. intros [= <-]. by apply parse_bounded in E.
Qed.
End ParseTheorems.
End JsonDecode.
