(* ===== verification/JsonRoundTrip.v ===== *)
(** * JSON bodies: the round trip

    A writer of the decoder's values, and what the decoder makes of its output. *)

From Stdlib Require Import ZArith Lia Ascii Floats.SpecFloat.
From stdpp Require Import base gmap strings list.
From S2P Require Import Prelude GoStrings GoEncoding.
From S2P Require Import AwsTypes.
From S2P Require Import RestRoute.
From S2P Require Import JsonDecode.

Module JsonRoundTrip.
Import AwsTypes.AwsTypes RestRoute.RestRoute JsonDecode.JsonDecode.

(** ** The writer *)

Definition quoteByte (c : ascii) : string :=
  if (ord c =? 34) || (ord c =? 92) then String (chr 92) (String c EmptyString)
  else if ord c <? 32 then json_u00 (ord c) else String c EmptyString.
Fixpoint quoteBody (s : string) : string :=
  match s with String c s => (quoteByte c ++ quoteBody s)%string | EmptyString => EmptyString end.
Definition quote (s : string) : string := (dquote ++ quoteBody s ++ dquote)%string.
Definition renderInt (z : Z) : string := if z <? 0 then ("-" ++ Itoa (- z))%string else Itoa z.

Fixpoint render (v : Value) : string :=
  if (Kind v =? ValueString)%string then quote (StringV v)
  else if (Kind v =? ValueBoolean)%string then (if BoolV v then "true" else "false")
  else if (Kind v =? ValueInteger)%string then renderInt (IntV v)
  else if (Kind v =? ValueObject)%string then
    ("{" ++ (fix members (first : bool) (m : list (string * Value)) : string :=
       match m with
       | [] => "}"
       | (k, w) :: m => ((if first then "" else ",") ++ quote k ++ ":" ++ render w ++ members false m)
       end) true (ObjectV v))%string
  else if (Kind v =? ValueArray)%string then
    ("[" ++ (fix elements (first : bool) (a : list Value) : string :=
       match a with
       | [] => "]"
       | w :: a => ((if first then "" else ",") ++ render w ++ elements false a)
       end) true (ArrayV v))%string
  else "null".
Fixpoint members (first : bool) (m : list (string * Value)) : string :=
  match m with
  | [] => "}"
  | (k, w) :: m => ((if first then "" else ",") ++ quote k ++ ":" ++ render w ++ members false m)%string
  end.
Fixpoint elements (first : bool) (a : list Value) : string :=
  match a with
  | [] => "]"
  | w :: a => ((if first then "" else ",") ++ render w ++ elements false a)%string
  end.
Lemma render_object m : render (vobject m) = ("{" ++ members true m)%string.
Proof. reflexivity. Qed.
Lemma render_array a : render (varray a) = ("[" ++ elements true a)%string.
Proof. reflexivity. Qed.

(** Values whose text is UTF-8 and that hold no fraction. *)
Inductive textual : Value -> Prop :=
| t_null : textual vnull
| t_bool b : textual (vbool b)
| t_int z : textual (vint z)
| t_string s : ValidString s = true -> textual (vstring s)
| t_object m : Forall (fun kv => ValidString kv.1 = true) m -> Forall (fun kv => textual kv.2) m -> textual (vobject m)
| t_array a : Forall textual a -> textual (varray a).

(** ** Strings *)

Lemma encode_decoded_two b0 b1 c0 c1 : ord c0 = b0 -> ord c1 = b1 -> two_ok b0 b1 = true ->
  encode_rune ((b0 - 192) * 64 + (b1 - 128)) = String c0 (String c1 EmptyString).
Proof.
  intros E0 E1 H. unfold two_ok, is_cont, between in H. unfold encode_rune.
  rewrite (proj2 (andb_false_iff _ _)) by (right; lia). rewrite (proj2 (andb_true_iff _ _)) by lia.
  rewrite <-(chr_ord c0), <-(chr_ord c1), E0, E1. repeat f_equal; Z.to_euclidean_division_equations; lia.
Qed.
Lemma encode_decoded_three b0 b1 b2 c0 c1 c2 : ord c0 = b0 -> ord c1 = b1 -> ord c2 = b2 -> three_ok b0 b1 b2 = true ->
  encode_rune ((b0 - 224) * 4096 + (b1 - 128) * 64 + (b2 - 128)) = String c0 (String c1 (String c2 EmptyString)).
Proof.
  intros E0 E1 E2 H. set (r := (b0 - 224) * 4096 + (b1 - 128) * 64 + (b2 - 128)).
  assert (Hr : 2048 <= r < 65536 /\ (r < 55296 \/ 57343 < r) /\ 128 <= b1 < 192 /\ 128 <= b2 < 192 /\ 224 <= b0 < 240).
  { unfold three_ok, is_cont, between in H. unfold r. lia. }
  unfold encode_rune. rewrite (proj2 (andb_false_iff _ _)) by (right; lia). rewrite (proj2 (andb_false_iff _ _)) by (right; lia).
  replace ((r <? 0) || (1114111 <? r) || between 55296 57343 r) with false by (unfold between; lia).
  replace (r <? 65536) with true by lia.
  rewrite <-(chr_ord c0), <-(chr_ord c1), <-(chr_ord c2), E0, E1, E2.
  assert (r / 4096 = b0 - 224 /\ r / 64 mod 64 = b1 - 128 /\ r mod 64 = b2 - 128) as (-> & -> & ->).
  { clear -Hr. subst r. split_and!; Z.to_euclidean_division_equations; lia. }
  repeat f_equal; lia.
Qed.
Lemma encode_decoded_four b0 b1 b2 b3 c0 c1 c2 c3 : ord c0 = b0 -> ord c1 = b1 -> ord c2 = b2 -> ord c3 = b3 ->
  four_ok b0 b1 b2 b3 = true ->
  encode_rune ((b0 - 240) * 262144 + (b1 - 128) * 4096 + (b2 - 128) * 64 + (b3 - 128)) =
  String c0 (String c1 (String c2 (String c3 EmptyString))).
Proof.
  intros E0 E1 E2 E3 H. set (r := (b0 - 240) * 262144 + (b1 - 128) * 4096 + (b2 - 128) * 64 + (b3 - 128)).
  assert (Hr : 65536 <= r <= 1114111 /\ 128 <= b1 < 192 /\ 128 <= b2 < 192 /\ 128 <= b3 < 192 /\ 240 <= b0 < 248).
  { unfold four_ok, is_cont, between in H. unfold r. lia. }
  unfold encode_rune. rewrite (proj2 (andb_false_iff _ _)) by (right; lia). rewrite (proj2 (andb_false_iff _ _)) by (right; lia).
  replace ((r <? 0) || (1114111 <? r) || between 55296 57343 r) with false by (unfold between; lia).
  replace (r <? 65536) with false by lia.
  rewrite <-(chr_ord c0), <-(chr_ord c1), <-(chr_ord c2), <-(chr_ord c3), E0, E1, E2, E3.
  assert (r / 262144 = b0 - 240 /\ r / 4096 mod 64 = b1 - 128 /\ r / 64 mod 64 = b2 - 128 /\ r mod 64 = b3 - 128)
    as (-> & -> & -> & ->).
  { clear -Hr. subst r. split_and!; Z.to_euclidean_division_equations; lia. }
  repeat f_equal; lia.
Qed.

(** Valid UTF-8 is left as it is. *)
Lemma sanitize_valid s : ValidString s = true -> sanitize s = s.
Proof.
  unfold sanitize, runes, ValidString. induction s as [s IH] using string_len_ind. destruct s as [|c0 s1]; [done|].
  assert (Hone : forallb (fun rw => negb ((rw.1 =? RuneError) && (rw.2 =? 1))) ((RuneError, 1) :: decode s1) = true -> False)
    by done.
  cbn [decode]. destruct (Z.ltb_spec (ord c0) 128) as [H0|H0].
  - cbn [forallb fst snd fmap list_fmap foldr]. intros H%andb_true_iff. destruct H as [_ H].
    rewrite IH by (cbn; done || lia). rewrite encode_ascii by (pose proof (ord_range c0); lia). by rewrite chr_ord.
  - destruct s1 as [|c1 s2]; [done|]. destruct (two_ok _ _) eqn:E2.
    { cbn [forallb fst snd fmap list_fmap foldr]. intros H%andb_true_iff. destruct H as [_ H].
      rewrite IH by (cbn; done || lia). by rewrite (encode_decoded_two _ _ c0 c1). }
    destruct s2 as [|c2 s3]; [by intros ?%Hone|]. destruct (three_ok _ _ _) eqn:E3.
    { cbn [forallb fst snd fmap list_fmap foldr]. intros H%andb_true_iff. destruct H as [_ H].
      rewrite IH by (cbn; done || lia). by rewrite (encode_decoded_three _ _ _ c0 c1 c2). }
    destruct s3 as [|c3 s4]; [by intros ?%Hone|]. destruct (four_ok _ _ _ _) eqn:E4; [|by intros ?%Hone].
    cbn [forallb fst snd fmap list_fmap foldr]. intros H%andb_true_iff. destruct H as [_ H].
    rewrite IH by (cbn; done || lia). by rewrite (encode_decoded_four _ _ _ _ c0 c1 c2 c3).
Qed.

Lemma unhex_hex_digit n : 0 <= n < 16 -> unhex (ord (hex_digit n)) = Some n.
Proof.
  intros Hn. rewrite hex_digit_ord by done. unfold unhex, is_digit, between.
  change (ord "0") with 48. change (ord "9") with 57. change (ord "a") with 97. change (ord "f") with 102.
  destruct (Z.ltb_spec n 10).
  - replace ((48 <=? 48 + n) && (48 + n <=? 57)) with true by lia. f_equal. lia.
  - replace ((48 <=? 87 + n) && (87 + n <=? 57)) with false by lia.
    replace ((97 <=? 87 + n) && (87 + n <=? 102)) with true by lia. f_equal. lia.
Qed.
Lemma scanString_quote s rest : scanString (quoteBody s ++ dquote ++ rest) None = Some (s, rest).
Proof.
  induction s as [|c s IH]; [done|]. cbn [quoteBody]. rewrite str_app_assoc. unfold quoteByte. pose proof (ord_range c) as Hc.
  destruct ((ord c =? 34) || (ord c =? 92)) eqn:Eq.
  - assert (simpleEscape (ord c) = Some (ord c)) as He.
    { unfold simpleEscape. by rewrite Eq. }
    assert (Hu : ord c =? ord "u" = false) by (change (ord "u") with 117; lia).
    change (scanString (String (chr 92) (String c (quoteBody s ++ dquote ++ rest))) None = Some (String c s, rest)).
    cbn [scanString]. change (ord (chr 92) =? 34) with false. change (ord (chr 92) <? 32) with false. change (ord (chr 92) =? 92) with true.
    cbv iota. rewrite Hu, He. rewrite IH. cbn [mbind option_bind].
    replace (String (chr (ord c)) s) with (String c s) by by rewrite chr_ord.
    destruct (quoteBody s ++ dquote ++ rest)%string as [|? [|? [|? [|? ?]]]]; done.
  - destruct (Z.ltb_spec (ord c) 32) as [Hlow|Hlow].
    + unfold json_u00.
      change (scanString (String (chr 92) (String "u" (String "0" (String "0" (String (hex_digit (ord c / 16)) (String (hex_digit (ord c mod 16))
        (quoteBody s ++ dquote ++ rest))))))) None = Some (String c s, rest)).
      cbn [scanString]. change (ord (chr 92) =? 34) with false. change (ord (chr 92) <? 32) with false. change (ord (chr 92) =? 92) with true.
      change (ord "u" =? ord "u") with true. cbv iota. unfold hex4. rewrite !unhex_hex_digit by (Z.to_euclidean_division_equations; lia).
      change (unhex (ord "0")) with (Some 0). cbv iota beta.
      replace (((0 * 16 + 0) * 16 + ord c / 16) * 16 + ord c mod 16) with (ord c) by (Z.to_euclidean_division_equations; lia).
      unfold isSurrogate, between. replace ((55296 <=? ord c) && (ord c <=? 57343)) with false by lia.
      rewrite IH. cbn [mbind option_bind]. rewrite encode_ascii by lia. by rewrite chr_ord.
    + change (scanString (String c (quoteBody s ++ dquote ++ rest)) None = Some (String c s, rest)). cbn [scanString].
      apply orb_false_iff in Eq as [-> E92]. rewrite (proj2 (Z.ltb_ge _ _) Hlow), E92. by rewrite IH.
Qed.
Lemma readString_quote s rest : ValidString s = true -> readString (quoteBody s ++ dquote ++ rest) = Some (s, rest).
Proof. intros Hv. unfold readString. rewrite scanString_quote. cbn. by rewrite sanitize_valid. Qed.

(** ** Integers *)

(** What may follow a number without becoming part of it. *)
Definition stops (rest : string) : Prop :=
  match rest with String c _ => is_digit (ord c) = false /\ in_set ".eE" (ord c) = false | EmptyString => True end.

Lemma spanDigits_all d rest : bytes_all is_digit d = true ->
  match rest with String c _ => is_digit (ord c) = false | EmptyString => True end -> spanDigits (d ++ rest) = (d, rest).
Proof.
  intros Hd Hr. induction d as [|c d IH].
  - destruct rest as [|c rest]; [done|]. cbn [spanDigits]. change ("" ++ String c rest)%string with (String c rest). cbn [spanDigits]. by rewrite Hr.
  - cbn [bytes_all] in Hd. apply andb_true_iff in Hd as [Hc Hd]. change (String c d ++ rest)%string with (String c (d ++ rest)).
    cbn [spanDigits]. by rewrite Hc, (IH Hd).
Qed.
(** The numeral of a positive number: digits, the first of them not zero. *)
Lemma numeral_shape fuel : forall n acc, 0 < n < 2 ^ Z.of_nat fuel -> bytes_all is_digit acc = true ->
  exists c d, itoa_fuel fuel n acc = String c d /\ is_digit (ord c) = true /\ ord c <> 48 /\ bytes_all is_digit d = true.
Proof.
  induction fuel as [|fuel IH]; intros n acc Hn Ha; [cbn in Hn; lia|]. cbn [itoa_fuel].
  assert (Hmod : 0 <= n mod 10 < 10) by (apply Z.mod_pos_bound; lia).
  assert (Hd : is_digit (ord (chr (48 + n mod 10))) = true).
  { rewrite ord_chr by lia. unfold is_digit, between. change (ord "0") with 48. change (ord "9") with 57. lia. }
  destruct (Z.ltb_spec n 10).
  - exists (chr (48 + n mod 10)), acc. split_and!; [done|done| |done]. rewrite ord_chr by lia. rewrite Z.mod_small by lia. lia.
  - apply IH; [|cbn [bytes_all]; by rewrite Hd, Ha]. rewrite Nat2Z.inj_succ, Z.pow_succ_r in Hn by lia.
    Z.to_euclidean_division_equations; lia.
Qed.
Lemma Itoa_shape n : 0 < n ->
  exists c d, Itoa n = String c d /\ is_digit (ord c) = true /\ ord c <> 48 /\ bytes_all is_digit d = true.
Proof.
  intros Hn. apply numeral_shape; [|done]. split; [done|]. rewrite Nat2Z.inj_succ, Z2Nat.id by apply Z.log2_nonneg.
  apply Z.log2_spec. lia.
Qed.
Lemma scanInteger_Itoa n rest : 0 <= n -> stops rest -> scanInteger (Itoa n ++ rest) = Some (Itoa n, rest).
Proof.
  intros Hn Hr. destruct (Z.eq_dec n 0) as [->|Hn0]; [done|].
  destruct (Itoa_shape n) as (c & d & E & Hc & H0 & Hd); [lia|]. rewrite E. unfold scanInteger.
  change (String c d ++ rest)%string with (String c (d ++ rest)). change (ord "0") with 48. cbv iota beta.
  rewrite (proj2 (Z.eqb_neq _ _) H0). change (String c (d ++ rest)) with (String c d ++ rest)%string.
  rewrite spanDigits_all; [done|cbn [bytes_all]; by rewrite Hc, Hd|]. destruct rest; [done|]. by destruct Hr.
Qed.
Lemma scanFraction_stops rest : stops rest -> scanFraction rest = Some (EmptyString, rest).
Proof.
  destruct rest as [|c rest]; [done|]. intros [_ Hs]. unfold in_set in Hs. cbn [bytes_any] in Hs. unfold scanFraction.
  apply orb_false_iff in Hs as [-> _]. done.
Qed.
Lemma scanExponent_stops rest : stops rest -> scanExponent rest = Some (EmptyString, rest).
Proof.
  destruct rest as [|c rest]; [done|]. intros [_ Hs]. unfold in_set in Hs. cbn [bytes_any] in Hs. unfold scanExponent.
  apply orb_false_iff in Hs as [_ Hs]. apply orb_false_iff in Hs as [-> Hs]. by apply orb_false_iff in Hs as [-> _].
Qed.
Lemma Itoa_head n : 0 <= n -> exists c d, Itoa n = String c d /\ is_digit (ord c) = true /\ bytes_all is_digit d = true.
Proof.
  intros Hn. destruct (Z.eq_dec n 0) as [->|Hn0]; [by exists "0"%char, EmptyString|].
  destruct (Itoa_shape n) as (c & d & ? & ? & _ & ?); [lia|]. by exists c, d.
Qed.
Lemma scanNumber_render z rest : stops rest -> scanNumber (renderInt z ++ rest) = Some (renderInt z, rest).
Proof.
  intros Hr. unfold renderInt. destruct (Z.ltb_spec z 0).
  - unfold scanNumber. change (("-" ++ Itoa (- z)) ++ rest)%string with (String "-" (Itoa (- z) ++ rest)).
    cbv iota beta zeta. change (ord "-" =? ord "-") with true. cbv iota beta zeta. rewrite scanInteger_Itoa by (done || lia). cbn [mbind option_bind].
    rewrite scanFraction_stops by done. cbn [mbind option_bind]. rewrite scanExponent_stops by done. cbn [mbind option_bind].
    by rewrite !str_app_nil_r.
  - destruct (Itoa_head z) as (c & d & E & Hc & _); [done|]. unfold scanNumber.
    assert (ord c =? ord "-" = false) as Hm.
    { unfold is_digit, between in Hc. change (ord "0") with 48 in Hc. change (ord "-") with 45. lia. }
    rewrite E. change (String c d ++ rest)%string with (String c (d ++ rest)). cbv iota beta zeta. rewrite Hm.
    change (String c (d ++ rest)) with (String c d ++ rest)%string. rewrite <-E. cbv iota beta zeta. rewrite scanInteger_Itoa by (done || lia).
    cbn [mbind option_bind].
    rewrite scanFraction_stops by done. cbn [mbind option_bind]. rewrite scanExponent_stops by done. cbn [mbind option_bind].
    by rewrite !str_app_nil_r.
Qed.
Lemma numberValue_render z : - 2 ^ 63 <= z < 2 ^ 63 -> numberValue (renderInt z) = Ok (vint z).
Proof.
  intros Hz. unfold numberValue.
  assert (Hdig : forall d, bytes_all is_digit d = true -> bytes_any (in_set ".eE") d = false).
  { intros d Hd. rewrite bytes_any_all. apply negb_false_iff. revert Hd. apply bytes_all_weaken. intros b _ Hb.
    unfold is_digit, between in Hb. change (ord "0") with 48 in Hb. change (ord "9") with 57 in Hb.
    unfold in_set. cbn [bytes_any]. change (ord ".") with 46. change (ord "e") with 101. change (ord "E") with 69. lia. }
  unfold renderInt, parseInt. destruct (Z.ltb_spec z 0).
  - destruct (Itoa_head (- z)) as (c & d & E & Hc & Hd); [lia|].
    change (bytes_any (in_set ".eE") ("-" ++ Itoa (- z))) with (bytes_any (in_set ".eE") (Itoa (- z))).
    rewrite Hdig by (rewrite E; cbn [bytes_all]; by rewrite Hc, Hd).
    change (("-" ++ Itoa (- z))%string) with (String "-" (Itoa (- z))). cbv iota beta zeta. change (ord "-" =? ord "-") with true. cbv iota.
    rewrite Itoa_decimal by lia. unfold between. replace ((- 2 ^ 63 <=? - - z) && (- - z <=? 2 ^ 63 - 1)) with true by lia.
    do 2 f_equal. lia.
  - destruct (Itoa_head z) as (c & d & E & Hc & Hd); [lia|].
    rewrite Hdig by (rewrite E; cbn [bytes_all]; by rewrite Hc, Hd).
    assert (ord c =? ord "-" = false) as Hm.
    { unfold is_digit, between in Hc. change (ord "0") with 48 in Hc. change (ord "-") with 45. lia. }
    rewrite E. cbv iota. rewrite Hm, <-E, Itoa_decimal by lia. unfold between.
    by replace ((- 2 ^ 63 <=? z) && (z <=? 2 ^ 63 - 1)) with true by lia.
Qed.

(** ** Tokens *)

(** The separator due in a state, and the state behind it. *)
Definition sep (t : tokenState) : string :=
  match t with tokenArrayComma | tokenObjectComma => "," | tokenObjectColon => ":" | _ => "" end.
Definition after (t : tokenState) : tokenState :=
  match t with
  | tokenArrayComma => tokenArrayValue | tokenObjectComma => tokenObjectKey | tokenObjectColon => tokenObjectValue | t => t
  end.
(** A byte that starts a token or ends a container. *)
Definition starts (c : ascii) : Prop := isJSONSpace (ord c) = false /\ ord c <> ord ":" /\ ord c <> ord ",".
Lemma peek_starts c s t stack : isJSONSpace (ord c) = false -> peek (mkDecoder (String c s) t stack) = Some (ord c, s).
Proof. intros H. unfold peek. cbn [input skipSpace]. by rewrite H. Qed.
Lemma Token_after c s t stack : starts c ->
  Token (mkDecoder (sep t ++ String c s) t stack) = tokenHere (mkDecoder s (after t) stack) (ord c) s.
Proof.
  intros (Hs & Hc1 & Hc2). apply Z.eqb_neq in Hc1, Hc2.
  assert (Hnone : separator t (ord c) = None) by (destruct t; cbn [separator]; by rewrite ?Hc1, ?Hc2).
  assert (Hplain : sep t = EmptyString -> Token (mkDecoder (sep t ++ String c s) t stack) = tokenHere (mkDecoder s t stack) (ord c) s).
  { intros ->. unfold Token. change ("" ++ String c s)%string with (String c s). rewrite (peek_starts _ _ _ _ Hs).
    cbn [mbind option_bind tstate tstack]. by rewrite Hnone, Hc1, Hc2. }
  assert (Hsep : forall x, sep t = String x EmptyString -> isJSONSpace (ord x) = false -> separator t (ord x) = Some (after t) ->
    Token (mkDecoder (sep t ++ String c s) t stack) = tokenHere (mkDecoder s (after t) stack) (ord c) s).
  { intros x -> Hx Hsx. unfold Token. change (String x "" ++ String c s)%string with (String x (String c s)).
    rewrite (peek_starts _ _ _ _ Hx). cbn [mbind option_bind tstate tstack]. rewrite Hsx.
    rewrite (peek_starts _ _ _ _ Hs). cbn [mbind option_bind]. by rewrite Hc1, Hc2. }
  destruct t; first [by apply Hplain | by eapply Hsep].
Qed.
Lemma More_after c s t stack : isJSONSpace (ord c) = false ->
  More (mkDecoder (String c s) t stack) = negb (ord c =? ord "]") && negb (ord c =? ord "}").
Proof. intros H. unfold More. by rewrite (peek_starts _ _ _ _ H). Qed.
Lemma More_sep c s t stack : starts c -> ord c <> ord "]" -> ord c <> ord "}" ->
  More (mkDecoder (sep t ++ String c s) t stack) = true.
Proof.
  intros (Hs & _ & _) H1 H2. apply Z.eqb_neq in H1, H2.
  assert (sep t = "" \/ sep t = "," \/ sep t = ":")%string as [-> | [-> | ->]] by (destruct t; auto).
  - change ("" ++ String c s)%string with (String c s). rewrite More_after by done. by rewrite H1, H2.
  - change ("," ++ String c s)%string with (String "," (String c s)). by rewrite More_after.
  - change (":" ++ String c s)%string with (String ":" (String c s)). by rewrite More_after.
Qed.

Lemma Token_string s rest t stack : ValidString s = true -> tokenValueAllowed (after t) = true ->
  Token (mkDecoder (sep t ++ quote s ++ rest) t stack) = Some (TString s, mkDecoder rest (tokenValueEnd (after t)) stack).
Proof.
  intros Hv Ht. unfold quote, dquote. rewrite !str_app_assoc.
  change (String (chr 34) "" ++ quoteBody s ++ String (chr 34) "" ++ rest)%string with (String (chr 34) (quoteBody s ++ dquote ++ rest)).
  rewrite Token_after by done. unfold tokenHere. change (ord (chr 34)) with 34. cbn [tstate tstack].
  change ((34 =? ord "[") || (34 =? ord "{")) with false. change (34 =? ord "]") with false. change (34 =? ord "}") with false.
  change (34 =? 34) with true. cbv iota. rewrite (readString_quote s rest Hv). cbn [mbind option_bind]. by destruct t.
Qed.
Lemma Token_key s rest t stack : ValidString s = true -> t = tokenObjectStart \/ t = tokenObjectComma ->
  Token (mkDecoder (sep t ++ quote s ++ rest) t stack) = Some (TString s, mkDecoder rest tokenObjectColon stack).
Proof.
  intros Hv Ht. unfold quote, dquote. rewrite !str_app_assoc.
  change (String (chr 34) "" ++ quoteBody s ++ String (chr 34) "" ++ rest)%string with (String (chr 34) (quoteBody s ++ dquote ++ rest)).
  rewrite Token_after by done. unfold tokenHere. change (ord (chr 34)) with 34. cbn [tstate tstack].
  change ((34 =? ord "[") || (34 =? ord "{")) with false. change (34 =? ord "]") with false. change (34 =? ord "}") with false.
  change (34 =? 34) with true. cbv iota. rewrite (readString_quote s rest Hv). cbn [mbind option_bind]. by destruct Ht as [-> | ->].
Qed.
(** Literals and numbers: a first byte that is no delimiter and no quote. *)
Lemma Token_literal c s x rest t stack : starts c -> in_set "[]{}" (ord c) = false -> ord c <> 34 ->
  tokenValueAllowed (after t) = true -> literal (String c s) = Some (x, rest) ->
  Token (mkDecoder (sep t ++ String c s) t stack) = Some (x, mkDecoder rest (tokenValueEnd (after t)) stack).
Proof.
  intros Hs Hd Hq Ht Hl. rewrite Token_after by done. unfold tokenHere. cbn [tstate tstack].
  unfold in_set in Hd. cbn [bytes_any] in Hd. apply orb_false_iff in Hd as [D1 Hd]. apply orb_false_iff in Hd as [D2 Hd].
  apply orb_false_iff in Hd as [D3 Hd]. apply orb_false_iff in Hd as [D4 _]. apply Z.eqb_neq in Hq.
  rewrite D1, D2, D3, D4, Hq. cbn [orb]. rewrite Ht, chr_ord, Hl. done.
Qed.
Lemma Token_int z rest t stack : stops rest -> tokenValueAllowed (after t) = true ->
  Token (mkDecoder (sep t ++ renderInt z ++ rest) t stack) =
  Some (TNumber (renderInt z), mkDecoder rest (tokenValueEnd (after t)) stack).
Proof.
  intros Hr Ht.
  assert (exists c s, renderInt z = String c s /\ (is_digit (ord c) = true \/ ord c = 45)) as (c & s & E & Hc).
  { unfold renderInt. destruct (Z.ltb_spec z 0); [exists "-"%char, (Itoa (- z)); split; [done|by right]|].
    destruct (Itoa_head z) as (c & d & -> & ? & _); [done|]. exists c, d. split; [done|by left]. }
  assert (Hrange : 45 <= ord c <= 57).
  { destruct Hc as [Hc | ->]; [|lia]. unfold is_digit, between in Hc. change (ord "0") with 48 in Hc. change (ord "9") with 57 in Hc. lia. }
  rewrite E. change (String c s ++ rest)%string with (String c (s ++ rest)). apply Token_literal; [| | |done|].
  - unfold starts, isJSONSpace. change (ord ":") with 58. change (ord ",") with 44. split_and!; lia.
  - unfold in_set. cbn [bytes_any]. change (ord "[") with 91. change (ord "]") with 93. change (ord "{") with 123. change (ord "}") with 125. lia.
  - lia.
  - change (String c (s ++ rest)) with (String c s ++ rest)%string. rewrite <-E. unfold literal.
    assert (Hno : forall p q, 57 < ord p -> HasPrefix (renderInt z ++ rest) (String p q) = false).
    { intros p q Hpq. rewrite E. unfold HasPrefix. change (String c s ++ rest)%string with (String c (s ++ rest)).
      cbn [String.prefix]. destruct (Ascii.ascii_dec p c) as [->|]; [lia|done]. }
    rewrite !Hno by reflexivity. by rewrite scanNumber_render.
Qed.

(** ** Values *)

Lemma Token_open c s t stack : c = ord "[" \/ c = ord "{" -> tokenValueAllowed (after t) = true ->
  Token (mkDecoder (sep t ++ String (chr c) s) t stack) =
  Some (TDelim c, mkDecoder s (if c =? ord "[" then tokenArrayStart else tokenObjectStart) (after t :: stack)).
Proof.
  intros [-> | ->] Ht; (rewrite Token_after by done); unfold tokenHere; cbn [tstate tstack]; by rewrite Ht.
Qed.
Lemma render_head v : textual v -> exists c s, render v = String c s /\ starts c /\ ord c <> ord "]" /\ ord c <> ord "}".
Proof.
  destruct 1 as [|b|z|s Hs|m Hk Hm|a Ha].
  - by exists "n"%char, "ull"%string.
  - destruct b; [by exists "t"%char, "rue"%string|by exists "f"%char, "alse"%string].
  - change (render (vint z)) with (renderInt z). unfold renderInt. destruct (Z.ltb_spec z 0); [by exists "-"%char, (Itoa (- z))|].
    destruct (Itoa_head z) as (c & d & E & Hc & _); [done|]. exists c, d. split; [done|].
    unfold is_digit, between in Hc. change (ord "0") with 48 in Hc. change (ord "9") with 57 in Hc.
    unfold starts, isJSONSpace. change (ord ":") with 58. change (ord ",") with 44. change (ord "]") with 93. change (ord "}") with 125.
    split_and!; lia.
  - by exists (chr 34), (quoteBody s ++ dquote)%string.
  - by exists "{"%char, (members true m).
  - by exists "["%char, (elements true a).
Qed.

Lemma HasPrefix_self p s : HasPrefix (p ++ s) p = true.
Proof. apply HasPrefix_app. by exists s. Qed.
Lemma literal_true rest : literal (String "t" ("rue" ++ rest)) = Some (TBool true, rest).
Proof. change (String "t" ("rue" ++ rest)) with ("true" ++ rest)%string. unfold literal. by rewrite HasPrefix_self. Qed.
Lemma literal_false rest : literal (String "f" ("alse" ++ rest)) = Some (TBool false, rest).
Proof. change (String "f" ("alse" ++ rest)) with ("false" ++ rest)%string. unfold literal. by rewrite HasPrefix_self. Qed.
Lemma literal_null rest : literal (String "n" ("ull" ++ rest)) = Some (TNull, rest).
Proof. change (String "n" ("ull" ++ rest)) with ("null" ++ rest)%string. unfold literal. by rewrite HasPrefix_self. Qed.

Section RoundTrip.
Context (l : DecodeLimits).
#[local] Abbreviation size s := (String.length s).

(** The members and elements that are left, with the separator their state is due. *)
Lemma members_sep (b : bool) m : m <> [] ->
  members b m = (sep (if b then tokenObjectStart else tokenObjectComma) ++ members true m)%string.
Proof. destruct m as [|[k w] m]; [done|]. by destruct b. Qed.
Lemma elements_sep (b : bool) a : a <> [] ->
  elements b a = (sep (if b then tokenArrayStart else tokenArrayComma) ++ elements true a)%string.
Proof. destruct a as [|w a]; [done|]. by destruct b. Qed.

Definition valueTrips (fuel : nat) : Prop := forall depth v t stack rest,
  bounded l depth v -> textual v -> tokenValueAllowed (after t) = true -> stops rest ->
  (2 * size (sep t ++ render v ++ rest)%string + 2 <= fuel)%nat ->
  parseJSONValue l fuel depth (mkDecoder (sep t ++ render v ++ rest) t stack) =
  Some (Ok (v, mkDecoder rest (tokenValueEnd (after t)) stack)).
Definition membersTrip (fuel : nat) : Prop := forall depth m ms t stack rest,
  bounded l depth (vobject (m ++ ms)) -> textual (vobject ms) ->
  (2 * size (members (bool_decide (m = [])) ms ++ rest)%string + 1 <= fuel)%nat ->
  parseMembers l fuel depth m
    (mkDecoder (members (bool_decide (m = [])) ms ++ rest) (if bool_decide (m = []) then tokenObjectStart else tokenObjectComma) (t :: stack)) =
  Some (Ok (vobject (m ++ ms), mkDecoder rest (tokenValueEnd t) stack)).
Definition elementsTrip (fuel : nat) : Prop := forall depth a vs t stack rest,
  bounded l depth (varray (a ++ vs)) -> textual (varray vs) ->
  (2 * size (elements (bool_decide (a = [])) vs ++ rest)%string + 3 <= fuel)%nat ->
  parseElements l fuel depth a
    (mkDecoder (elements (bool_decide (a = [])) vs ++ rest) (if bool_decide (a = []) then tokenArrayStart else tokenArrayComma) (t :: stack)) =
  Some (Ok (varray (a ++ vs), mkDecoder rest (tokenValueEnd t) stack)).

Lemma bounded_depth depth v : bounded l depth v -> MaxDepth l <? depth = false.
Proof. inversion 1; lia. Qed.
Lemma value_trips fuel : membersTrip fuel -> elementsTrip fuel -> valueTrips (S fuel).
Proof.
  intros HM HE depth v t stack rest Hb Hv Ht Hr Hf. cbn [parseJSONValue]. rewrite (bounded_depth _ _ Hb).
  rewrite !str_length_app in Hf. destruct Hv as [|b|z|s Hs|m Hk Hm|a Ha].
  - change (render vnull) with "null"%string. change ("null" ++ rest)%string with (String "n" ("ull" ++ rest)).
    by rewrite (Token_literal "n" _ _ _ _ _ (ltac:(done)) (eq_refl) (ltac:(done)) Ht (literal_null rest)).
  - destruct b.
    + change (render (vbool true)) with "true"%string. change ("true" ++ rest)%string with (String "t" ("rue" ++ rest)).
      by rewrite (Token_literal "t" _ _ _ _ _ (ltac:(done)) (eq_refl) (ltac:(done)) Ht (literal_true rest)).
    + change (render (vbool false)) with "false"%string. change ("false" ++ rest)%string with (String "f" ("alse" ++ rest)).
      by rewrite (Token_literal "f" _ _ _ _ _ (ltac:(done)) (eq_refl) (ltac:(done)) Ht (literal_false rest)).
  - change (render (vint z)) with (renderInt z). rewrite Token_int by done. inversion Hb; subst. rewrite numberValue_render by lia. done.
  - change (render (vstring s)) with (quote s). rewrite Token_string by done. inversion Hb; subst.
    by rewrite (proj2 (Z.ltb_ge _ _)) by lia.
  - rewrite render_object, str_app_assoc in *. change ("{" ++ members true m ++ rest)%string with (String (chr (ord "{")) (members true m ++ rest)).
    rewrite Token_open by (by auto). change (ord "{" =? ord "[") with false. change (ord "{" =? ord "{") with true. cbv iota.
    apply (HM depth [] m (after t) stack rest Hb); [by apply t_object|].
    rewrite !str_length_app in *. cbn [String.length] in Hf. cbn. lia.
  - rewrite render_array, str_app_assoc in *. change ("[" ++ elements true a ++ rest)%string with (String (chr (ord "[")) (elements true a ++ rest)).
    rewrite Token_open by (by auto). change (ord "[" =? ord "[") with true. change (ord "[" =? ord "{") with false. cbv iota.
    apply (HE depth [] a (after t) stack rest Hb); [by apply t_array|].
    rewrite !str_length_app in *. cbn [String.length] in Hf. cbn. lia.
Qed.

Lemma members_stops m rest : stops (members false m ++ rest).
Proof. destruct m as [|[k w] m]; by split. Qed.
Lemma elements_stops a rest : stops (elements false a ++ rest).
Proof. destruct a as [|w a]; by split. Qed.
Lemma app_nonempty {A} (m : list A) x : bool_decide (m ++ [x] = []) = false.
Proof. apply bool_decide_eq_false. by destruct m. Qed.

Lemma members_trip fuel : valueTrips fuel -> membersTrip fuel -> membersTrip (S fuel).
Proof.
  intros HV HM depth m ms t stack rest Hb Hx Hf. cbn [parseMembers].
  set (st := if bool_decide (m = []) then tokenObjectStart else tokenObjectComma).
  assert (Hst : st = tokenObjectStart \/ st = tokenObjectComma) by (subst st; case_bool_decide; auto).
  destruct ms as [|[k w] ms].
  - change (members (bool_decide (m = [])) [] ++ rest)%string with (String "}" rest).
    rewrite More_after by done. change (negb (ord "}" =? ord "]") && negb (ord "}" =? ord "}")) with false. cbv iota.
    assert (Token (mkDecoder (String "}" rest) st (t :: stack)) = Some (TDelim 125, mkDecoder rest (tokenValueEnd t) stack)) as ->
      by (by destruct Hst as [-> | ->]).
    by rewrite app_nil_r.
  - inversion Hx as [| | | |? Hk Ht|]; subst. apply Forall_cons in Hk as [Hk Hks]. apply Forall_cons in Ht as [Ht Hts]. cbn [fst snd] in *.
    assert (Htext : (members (bool_decide (m = [])) ((k, w) :: ms) ++ rest)%string =
      (sep st ++ quote k ++ (":" ++ render w ++ members false ms ++ rest))%string).
    { cbn [members]. rewrite !str_app_assoc. subst st. by case_bool_decide. }
    rewrite Htext in *. inversion Hb as [| | | | |? ? _ Hn Hl Hkl HF|]; subst.
    apply Forall_app in Hkl as [Hkm Hkl]. apply Forall_cons in Hkl as [[Hke Hkl] _]. cbn [fst] in Hke, Hkl.
    apply Forall_app in HF as [_ HF]. apply Forall_cons in HF as [Hw _].
    assert (More (mkDecoder (sep st ++ quote k ++ ":" ++ render w ++ members false ms ++ rest) st (t :: stack)) = true) as ->
      by (by apply (More_sep (chr 34) ((quoteBody k ++ dquote) ++ ":" ++ render w ++ members false ms ++ rest))).
    rewrite Token_key by done. cbv iota beta.
    rewrite (proj2 (String.eqb_neq _ _) Hke), (proj2 (Z.ltb_ge _ _)) by lia. cbn [orb].
    assert (existsb (fun kv => (kv.1 =? k)%string) m = false) as ->.
    { apply not_true_is_false. intros ([k' w'] & Hin & Hk')%existsb_exists. apply String.eqb_eq in Hk'. cbn in Hk'. subst k'.
      rewrite fmap_app in Hn. apply NoDup_app in Hn as (_ & Hd & _). apply (Hd k); [|left].
      apply list_elem_of_fmap. exists (k, w'). split; [done|by apply list_elem_of_In]. }
    rewrite !str_length_app in Hf. assert (size (quote k) > 0)%nat by (unfold quote, dquote; rewrite str_length_app; cbn [String.length]; lia).
    change (":" ++ render w ++ members false ms ++ rest)%string with (sep tokenObjectColon ++ render w ++ members false ms ++ rest)%string.
    rewrite (HV (depth + 1) w tokenObjectColon (t :: stack) (members false ms ++ rest)%string Hw Ht eq_refl (members_stops ms rest));
      [|rewrite !str_length_app; cbn [sep String.length] in *; lia].
    rewrite (proj2 (Z.ltb_ge _ _)).
    + pose proof (HM depth (m ++ [(k, w)]) ms t stack rest) as HI. rewrite app_nonempty, <-app_assoc in HI. cbn [app] in HI.
      apply HI; [done|by apply t_object|]. rewrite str_length_app. cbn [String.length] in Hf. lia.
    + rewrite !length_app in *. cbn [List.length] in *. lia.
Qed.
Lemma elements_trip fuel : valueTrips fuel -> elementsTrip fuel -> elementsTrip (S fuel).
Proof.
  intros HV HE depth a vs t stack rest Hb Hx Hf. cbn [parseElements].
  set (st := if bool_decide (a = []) then tokenArrayStart else tokenArrayComma).
  assert (Hst : st = tokenArrayStart \/ st = tokenArrayComma) by (subst st; case_bool_decide; auto).
  destruct vs as [|w vs].
  - change (elements (bool_decide (a = [])) [] ++ rest)%string with (String "]" rest).
    rewrite More_after by done. change (negb (ord "]" =? ord "]") && negb (ord "]" =? ord "}")) with false. cbv iota.
    assert (Token (mkDecoder (String "]" rest) st (t :: stack)) = Some (TDelim 93, mkDecoder rest (tokenValueEnd t) stack)) as ->
      by (by destruct Hst as [-> | ->]).
    by rewrite app_nil_r.
  - inversion Hx as [| | | | |? Ht]; subst. apply Forall_cons in Ht as [Ht Hts].
    assert (Htext : (elements (bool_decide (a = [])) (w :: vs) ++ rest)%string = (sep st ++ render w ++ elements false vs ++ rest)%string).
    { cbn [elements]. rewrite !str_app_assoc. subst st. by case_bool_decide. }
    rewrite Htext in *. inversion Hb as [| | | | | |? ? _ Hl HF]; subst.
    apply Forall_app in HF as [_ HF]. apply Forall_cons in HF as [Hw _].
    destruct (render_head w Ht) as (c & s & E & Hs & Hc1 & Hc2).
    assert (More (mkDecoder (sep st ++ render w ++ elements false vs ++ rest) st (t :: stack)) = true) as ->.
    { rewrite E. change (String c s ++ elements false vs ++ rest)%string with (String c (s ++ elements false vs ++ rest)). by rewrite More_sep. }
    rewrite !str_length_app in Hf. assert (size (render w) > 0)%nat by (rewrite E; cbn [String.length]; lia).
    rewrite (HV (depth + 1) w st (t :: stack) (elements false vs ++ rest)%string Hw Ht); [|by destruct Hst as [-> | ->]|apply elements_stops|rewrite !str_length_app; lia].
    rewrite (proj2 (Z.ltb_ge _ _)).
    + pose proof (HE depth (a ++ [w]) vs t stack rest) as HI. rewrite app_nonempty, <-app_assoc in HI. cbn [app] in HI.
      replace (tokenValueEnd (after st)) with tokenArrayComma by (by destruct Hst as [-> | ->]).
      apply HI; [done|by apply t_array|]. rewrite str_length_app. lia.
    + rewrite !length_app in *. cbn [List.length] in *. lia.
Qed.
Lemma all_trip fuel : valueTrips fuel /\ membersTrip fuel /\ elementsTrip fuel.
Proof.
  induction fuel as [|fuel (HV & HM & HE)].
  - split_and!; intros ? **; lia.
  - split_and!; [by apply value_trips|by apply members_trip|by apply elements_trip].
Qed.

(** C31. Decoding undoes writing: a value within the limits, with UTF-8 text and
    without fractions, is read back from the text that writes it, whole and with
    nothing after it; so every such request body can be expressed, and no two
    values share a text. *)
Theorem json_roundtrip (v : Value) : bounded l 0 v -> textual v -> parseBody l (render v) = Some (BodyValue v).
Proof.
  intros Hb Hv. unfold parseBody, enough, newDecoder. destruct (all_trip (2 * size (render v) + 2)) as (HV & _).
  specialize (HV 0 v tokenTopValue [] EmptyString Hb Hv eq_refl I). cbn [sep] in HV.
  change ("" ++ render v ++ "")%string with (render v ++ "")%string in HV. rewrite str_app_nil_r in HV. by rewrite HV.
Qed.
End RoundTrip.

Lemma json_roundtrip_witness :
  let v := vobject [("Name", vstring "t"); ("Keys", varray [vnull; vint (-7)])]%string in
  render v = js "{'Name':'t','Keys':[null,-7]}" /\ parseBody sampleLimits (render v) = Some (BodyValue v).
Proof.
  intros v. split; [vm_compute; reflexivity|]. apply json_roundtrip.
  - unfold v. apply b_object; [done|by apply (bool_decide_unpack _); vm_compute|done| |].
    + constructor; [done|]. constructor; [done|]. constructor.
    + constructor; [by apply b_string|]. constructor; [|constructor]. apply b_array; [done|done|].
      constructor; [by apply b_null|]. constructor; [by apply b_int|constructor].
  - unfold v. apply t_object.
    + constructor; [done|]. constructor; [done|]. constructor.
    + constructor; [by apply t_string|]. constructor; [|constructor]. apply t_array.
      constructor; [apply t_null|]. constructor; [apply t_int|constructor].
Defined.
End JsonRoundTrip.
