(* ===== verification/Decoder.v ===== *)
(** * The request decoder (awsrequest/decode_json.go, decode_query.go,
      decode_restjson.go, decode_restxml.go)

    From an authenticated request to the operation and parameters that
    authorisation works on: the checks of the request's identity, the protocol
    and the route, the bounded read of the body, and the four body decoders. *)

From Stdlib Require Import ZArith Lia Ascii Floats.SpecFloat.
From stdpp Require Import base gmap strings list.
From S2P Require Import Prelude GoStrings GoEncoding Sigv4Canonical.
From S2P Require Import AwsTypes.
From S2P Require Import Endpoint.
From S2P Require Import Sigv4Verify.
From S2P Require Import WireIndex.
From S2P Require Import RestRoute.
From S2P Require Import JsonDecode.

Module Decoder.
Import AwsTypes.AwsTypes WireIndex.WireIndex RestRoute.RestRoute JsonDecode.JsonDecode.

(** A decoding stage: its result, or the error chain. *)
Definition plain {A} (msg : string) : A + chain := inr (CPlain (ErrNew msg)).

(** What is known of a failure once the protocol is, and once the operation is. *)
Definition protocolKnown (service protocol : string) : DecodeFailureEvidence :=
  mkFailureEvidence service protocol true EvidenceAuthoritative EmptyString false EmptyString.
Definition operationKnown (service protocol op : string) : DecodeFailureEvidence :=
  mkFailureEvidence service protocol true EvidenceAuthoritative op true EvidenceValidated.

(** ** Query strings (decode_query.go) *)

Fixpoint queryFields (l : DecodeLimits) (fields : list string) (v : Values) : result Values :=
  match fields with
  | [] => Ok v
  | f :: fields =>
    if (f =? "")%string then Err (ErrNew "empty query field")
    else
      let '(key, value, has) := Cut f "=" in
      match QueryUnescape key with
      | None => Err (ErrNew "malformed query key")
      | Some k =>
        if (k =? "")%string then Err (ErrNew "malformed query key")
        else match (if has then QueryUnescape value else Some EmptyString) with
        | None => Err (ErrNew "malformed query value")
        | Some x =>
          if (MaxTokenBytes l <? slen k) || (MaxTokenBytes l <? slen x) then Err (ErrNew "query token exceeds limit")
          else match v !! k with
          | Some _ => Err (ErrFmt "duplicate query parameter %q" [k])
          | None =>
            let v := <[k := [x]]> v in
            if MaxParameters l <? Z.of_nat (size v) then Err (ErrNew "query parameter limit exceeded")
            else queryFields l fields v
          end
        end
      end
  end.
Definition parseQueryString (raw : string) (l : DecodeLimits) : result Values :=
  if (raw =? "")%string then Ok ∅
  else if MaxBodyBytes l <? slen raw then Err (ErrNew "query exceeds decoder limit")
  else queryFields l (Split raw "&") ∅.

Definition Values_Get (v : Values) (k : string) : string := match v !! k with Some (x :: _) => x | _ => EmptyString end.

(** The loop over the combined parameters, in an order of iteration. *)
Fixpoint queryParams (entries : list (string * list string)) (params : gmap string Value) (indexed : gmap Z string)
  : (gmap string Value * gmap Z string) + error :=
  match entries with
  | [] => inl (params, indexed)
  | (k, x) :: entries =>
    if (k =? "Action")%string then queryParams entries params indexed
    else match x with
    | [value] =>
      let params := <[k := vstring value]> params in
      if HasPrefix k "InstanceId." then
        match Atoi (TrimPrefix k "InstanceId.") with
        | Some n => if n <? 1 then inr (ErrNew "malformed indexed query parameter")
                    else queryParams entries params (<[n := value]> indexed)
        | None => inr (ErrNew "malformed indexed query parameter")
        end
      else queryParams entries params indexed
    | _ => inr (ErrNew "duplicate query parameter")
    end
  end.
(** The indexed values in order; [None] when an index is missing. *)
Fixpoint contiguous (indexed : gmap Z string) (i : Z) (keys : list Z) : option (list Value) :=
  match keys with
  | [] => Some []
  | n :: keys =>
    if i + 1 =? n then cons (vstring (default EmptyString (indexed !! n))) <$> contiguous indexed (i + 1) keys else None
  end.
Definition sortedKeys (m : gmap Z string) : list Z := sort_by Z.leb (map_to_list m).*1.

Section Bodies.
Context `{U : UnicodeTables}.
Definition failing {A} (ev : DecodeFailureEvidence) (err : error) : A + chain :=
  match NewDecodeFailureError ev (Some (CPlain err)) with Some c => inr c | None => inr (CPlain err) end.
(** The order in which Go ranges over a map of values. *)
Context (iterate : Values -> list (string * list string)).
Context (c : option wireIndex) (l : DecodeLimits).

Definition decodeQueryBody (body : string) (q : Values) (service protocol : string)
  : (string * gmap string Value * Values) + chain :=
  match parseQueryString body l with
  | Err err => inr (CPlain err)
  | Ok b =>
    match List.find (fun kv => bool_decide (is_Some (q !! kv.1))) (iterate b) with
    | Some (k, _) => inr (CPlain (ErrFmt "query/body parameter %q conflicts" [k]))
    | None =>
      let all := b ∪ q in
      let a := Values_Get all "Action" in let version := Values_Get all "Version" in
      if (a =? "")%string || negb (validOperation a) then plain "query Action is missing or malformed"
      else if (version =? "")%string then plain "query Version is missing"
      else if negb (catalogQueryOperation c service version protocol a)
      then plain "query Action is absent, contradictory, or ambiguous"
      else
        let validated := operationKnown service protocol a in
        if (protocol =? ProtocolQuery)%string && (service =? "ec2")%string
        then failing validated (ErrNew "EC2 must use ec2-query protocol")
        else if (protocol =? ProtocolEC2Query)%string && negb (service =? "ec2")%string
        then failing validated (ErrNew "ec2-query is only valid for EC2")
        else match queryParams (iterate all) ∅ ∅ with
        | inr err => failing validated err
        | inl (params, indexed) =>
          if bool_decide (indexed = ∅) then inl (a, params, all)
          else match contiguous indexed 0 (sortedKeys indexed) with
          | None => failing validated (ErrNew "indexed query parameters are not contiguous")
          | Some values => inl (a, <["InstanceIds"%string := varray values]> params, all)
          end
        end
    end
  end.

(** ** JSON bodies (decode_json.go) *)

Definition decodeJSONBody (body : string) (targets : list string) (service protocol : string)
  : (string * gmap string Value) + chain :=
  match targets with
  | [t] =>
    match targetOperationFor t service protocol c (MaxTokenBytes l) with
    | Err err => inr (CPlain err)
    | Ok op =>
      let validated := operationKnown service protocol op in
      if (body =? "")%string then failing validated (ErrNew "JSON body is empty")
      else match parseBody l body with
      | Some (BodyValue v) =>
        if negb (Kind v =? ValueObject)%string then failing validated (ErrNew "JSON body must be an object")
        else inl (op, list_to_map (ObjectV v))
      | Some (BodyTrailing _) => failing validated (ErrNew "JSON body has trailing data")
      | Some (BodyInvalid err) => failing validated err
      | None => failing validated (ErrNew "malformed JSON body") (* no body runs out of fuel *)
      end
    end
  | _ => plain "JSON operation target is missing or duplicated"
  end.

(** ** REST bodies (decode_restjson.go, decode_restxml.go) *)

(** [reflect.DeepEqual] of a value and a string value. *)
Definition equalsString (v : Value) (s : string) : bool :=
  (Kind v =? ValueString)%string && (StringV v =? s)%string && negb (BoolV v) && (IntV v =? 0) &&
  SFeqb (FloatV v) (S754_zero false) && (List.length (ObjectV v) =? 0)%nat && (List.length (ArrayV v) =? 0)%nat.
(** New string values over old ones, unless one is already there with another value. *)
Definition merge (old : gmap string Value) (new : gmap string string) : option (gmap string Value) :=
  if forallb (fun kv => match old !! kv.1 with Some v => equalsString v kv.2 | None => true end) (map_to_list new)
  then Some ((vstring <$> new) ∪ old) else None.

Definition decodeRESTJSONBody (body service path method : string) (q : Values) : (string * gmap string Value) + chain :=
  match restOperationFromCatalog service path method q ProtocolRESTJSON c l with
  | Err err => inr (CPlain err)
  | Ok (op, route) =>
    let validated := operationKnown service ProtocolRESTJSON op in
    let body := TrimSpace body in
    let merged p := match merge p route with
                    | Some p => inl (op, p)
                    | None => failing validated (ErrNew "REST path/body evidence conflicts")
                    end in
    if (body =? "")%string then merged ∅
    else
      let object v := (Kind v =? ValueObject)%string in
      match parseBody l body with
      | Some (BodyValue v) =>
        if object v then merged (list_to_map (ObjectV v)) else failing validated (ErrNew "REST-JSON body is malformed")
      | Some (BodyTrailing v) =>
        failing validated (ErrNew (if object v then "REST-JSON body has trailing data" else "REST-JSON body is malformed"))
      | _ => failing validated (ErrNew "REST-JSON body is malformed")
      end
  end.

(** The tokens of [encoding/xml] that the loop tells apart, and how they end. *)
Inductive xmlToken := StartElement (local : string) | EndElement | CharData (s : string) | Declaration | Comment.
Fixpoint xmlLoop (tokens : list xmlToken) (clean : bool) (out : gmap string string) (stack count : Z) (current : string)
  : gmap string string + error :=
  match tokens with
  | [] =>
    if negb clean then inr (ErrNew "malformed REST-XML body")
    else if negb (stack =? 0) then inr (ErrNew "malformed REST-XML body") else inl out
  | t :: tokens =>
    let count := count + 1 in
    if (8192 <? count) || (MaxParameters l * 4 <? count) then inr (ErrNew "REST-XML token limit exceeded")
    else match t with
    | StartElement local =>
      let stack := stack + 1 in
      if MaxDepth l <? stack then inr (ErrNew "REST-XML nesting exceeds limit")
      else xmlLoop tokens clean out stack count local
    | EndElement => xmlLoop tokens clean out (stack - 1) count current
    | CharData s =>
      let s := TrimSpace s in
      if (s =? "")%string then xmlLoop tokens clean out stack count current
      else if MaxTokenBytes l <? slen s then inr (ErrNew "REST-XML value exceeds limit")
      else xmlLoop tokens clean (<[current := s]> out) stack count current
    | Declaration => inr (ErrNew "REST-XML declaration is unsupported")
    | Comment => xmlLoop tokens clean out stack count current
    end
  end.
(** [encoding/xml] in strict mode: the tokens of a body, and whether it ends well. *)
Context (xmlTokens : string -> list xmlToken * bool).
Definition parseXMLParameters (body : string) : gmap string string + error :=
  let (tokens, clean) := xmlTokens body in xmlLoop tokens clean ∅ 0 0 EmptyString.
Definition decodeRESTXMLBody (body service path method : string) (q : Values) : (string * gmap string Value) + chain :=
  match restXMLOperationFromCatalog service path method q c l with
  | Err err => inr (CPlain err)
  | Ok (op, p) =>
    let validated := operationKnown service ProtocolRESTXML op in
    if (body =? "")%string || (op =? "PutObject")%string then inl (op, vstring <$> p)
    else match parseXMLParameters body with
    | inr err => failing validated err
    | inl x =>
      match merge (vstring <$> p) x with
      | Some p => inl (op, p)
      | None => failing validated (ErrNew "REST-XML path/body evidence conflicts")
      end
    end
  end.
End Bodies.

(** ** The decoder (decode_json.go) *)

Import Sigv4Canonical.Sigv4Canonical.

(** A request's body: what is left to read, how it ends ([None] is EOF), and what
    closing it reports. *)
Record Stream := mkStream { data : string; endErr : option error; closeErr : option error }.
Abbreviation request := (Request (option Stream)).

(** [readAndRestore]: the bytes read, the error, and the body the request has
    afterwards. At most [max + 1] bytes are read; what was read of a body that
    is too long or fails goes in front of its rest. *)
Definition readAndRestore (r : request) (max : Z) : string * option chain * option Stream :=
  if max <=? 0 then (EmptyString, Some (CPlain (ErrNew "body limit is invalid")), BodyState r)
  else match BodyState r with
  | None => (EmptyString, None, None)
  | Some b =>
    if max <? ContentLength r
    then (EmptyString, Some (CPlain (ErrNew "request body exceeds decoder limit")), Some b)
    else if max <? slen (data b)
    then (str_take (Z.to_nat (max + 1)) (data b), Some (CPlain (ErrNew "request body exceeds decoder limit")), Some b)
    else match endErr b with
    | Some e => (data b, Some (CWrap "request body: %w" (CPlain e)), Some b)
    | None =>
      (data b, (fun e => CWrap "request body close: %w" (CPlain e)) <$> closeErr b, Some (mkStream (data b) None None))
    end
  end.

(** [Decoder], and [NewConfiguredDecoder]'s limits and errors; [catalog] and its
    error are what the default wire index came to. *)
Record Decoder := mkDecoderConfig {
  limits : DecodeLimits; classifier : option (string -> result AWSEndpoint); callerAccountID : string;
  catalog : option wireIndex; configErr : option error;
}.
Definition DefaultDecodeLimits : DecodeLimits := mkLimits 8388608 2048 32 4096 8192.
Definition newDecoder (x : DecodeLimits) (cl : option (string -> result AWSEndpoint)) (account : string)
    (index : option wireIndex) (indexErr : option error) : Decoder :=
  let d := DefaultDecodeLimits in
  let pick v dv := if 0 <? v then v else dv in
  let err := validateCallerAccountID account in
  let err := match err, index with
             | None, None => Some (default (ErrNew "wire index is unavailable") indexErr)
             | _, _ => err
             end in
  mkDecoderConfig
    (mkLimits (pick (MaxBodyBytes x) (MaxBodyBytes d)) (pick (MaxParameters x) (MaxParameters d)) (pick (MaxDepth x) (MaxDepth d))
       (pick (MaxTokenBytes x) (MaxTokenBytes d)) (pick (MaxPathBytes x) (MaxPathBytes d)))
    cl account index err.
Definition NewConfiguredDecoder (x : DecodeLimits) (cl : option (string -> result AWSEndpoint))
    (defaultClassifier : string -> result AWSEndpoint) (account : string) (index : option wireIndex) (indexErr : option error)
  : Decoder + error :=
  match validateCallerAccountID account with
  | Some err => inr (ErrWrap "caller account ID: %w" [] err)
  | None =>
    let x := if MaxBodyBytes x =? 0 then DefaultDecodeLimits else x in
    let d := newDecoder x (Some (default defaultClassifier cl)) account index indexErr in
    match configErr d with
    | Some err => inr (ErrWrap "decoder configuration: %w" [] err)
    | None => inl d
    end
  end.

Section Decode.
Context `{U : UnicodeTables} (ToASCII : string -> result string).
Context (iterate : Values -> list (string * list string)) (xmlTokens : string -> list xmlToken * bool).

Definition protocolFromHeaders (claimed : string) (h : header) (path : string) : string + chain :=
  match header_Values h "Content-Type" with
  | _ :: _ :: _ => plain "content type is duplicated"
  | v =>
    let ct := match v with [v] => ToLower (TrimSpace (hd EmptyString (Split v ";"))) | _ => EmptyString end in
    let inferred :=
      if (ct =? "application/x-amz-json-1.0")%string then Some ProtocolJSON10
      else if (ct =? "application/x-amz-json-1.1")%string then Some ProtocolJSON11
      else if (ct =? "application/x-www-form-urlencoded")%string then Some ProtocolQuery
      else if (ct =? "application/json")%string then Some ProtocolRESTJSON
      else if (ct =? "application/xml")%string || (ct =? "text/xml")%string then Some ProtocolRESTXML
      else if (ct =? "")%string then Some claimed else None in
    match inferred with
    | None => inr (CPlain (ErrFmt "unsupported content type %q" [ct]))
    | Some inferred =>
      let inferred := if (claimed =? ProtocolEC2Query)%string && (inferred =? ProtocolQuery)%string then claimed else inferred in
      if negb (inferred =? claimed)%string
      then inr (CPlain (ErrFmt "protocol evidence disagrees: %q and %q" [claimed; inferred]))
      else if (path =? "")%string then plain "invalid request path" else inl inferred
    end
  end.

Definition sensitiveHeader (k : string) : bool :=
  let k := ToLower k in
  mem_str k ["authorization"; "proxy-authorization"; "x-amz-security-token"; "cookie"] || Contains k "signature".
Definition safeHeaders (h : header) : header := filter (fun kv => negb (sensitiveHeader kv.1) = true) h.

(** The identity of the request: the checks before anything of it is parsed. The
    result is the protocol. *)
Definition checkIdentity (d : Decoder) (v : Sigv4Verify.Sigv4Verify.VerifiedRequest) (r : request) (u : URL) (e : AWSEndpoint)
  : string + chain :=
  let host := match Endpoint.Endpoint.NormalizeEndpointHost ToASCII (Host r) with
              | Ok (host, _) => Some host
              | Err _ => match Endpoint.Endpoint.NormalizeEndpointHost ToASCII (u_Host u) with
                         | Ok (host, _) => Some host | Err _ => None end
              end in
  if negb (bool_decide (host = Some (ep_Host e))) then plain "request host disagrees with endpoint"
  else
    let service := if (ep_SigningService e =? "")%string then ep_Service e else ep_SigningService e in
    let region := if (ep_SigningRegion e =? "")%string && negb (IsGlobal e) then ep_Region e else ep_SigningRegion e in
    if negb (Sigv4Verify.Sigv4Verify.vr_SigningService v =? service)%string ||
       negb (Sigv4Verify.Sigv4Verify.vr_SigningRegion v =? region)%string
    then plain "credential scope disagrees with endpoint"
    else if negb (ep_AccountID e =? "")%string && negb (ep_AccountID e =? callerAccountID d)%string
    then plain "endpoint account disagrees with caller context"
    else if negb (Sigv4Verify.Sigv4Verify.vr_SigningScheme v =? SigningHeaderV4)%string ||
            negb (payloadValid (Sigv4Verify.Sigv4Verify.vr_PayloadMode v))
    then plain "unsupported authenticated request"
    else if MaxPathBytes (limits d) <? slen (EscapedPath u) then plain "request path exceeds limit"
    else match protocolFromHeaders (Sigv4Verify.Sigv4Verify.vr_Protocol v) (Header r) (Path u) with
    | inr err => inr err
    | inl protocol =>
      if bool_decide (authoritativeProtocolFor (catalog d) (ep_Service e) = Some protocol) then inl protocol
      else inr (CPlain (ErrFmt "protocol %q is not authoritative for endpoint service %q" [protocol; ep_Service e]))
    end.

(** The route indicators, checked before the body is read. *)
Definition checkRoute (d : Decoder) (service protocol : string) (r : request) (u : URL) (q : Values) : option error :=
  let targets := header_Values (Header r) "X-Amz-Target" in
  let action := bool_decide (is_Some (q !! "Action"%string)) in
  let targeted := negb (List.length targets =? 0)%nat in
  if isQuery protocol && targeted then Some (ErrNew "JSON target is not valid for this protocol")
  else if isREST protocol && targeted then Some (ErrNew "JSON target is not valid for this protocol")
  else if isREST protocol && action then Some (ErrNew "query Action conflicts with protocol operation")
  else if isJSON protocol && action then Some (ErrNew "query Action conflicts with protocol operation")
  else if isJSON protocol || isQuery protocol
  then validateModeledWireRoute (catalog d) service protocol (EscapedPath u) (Method r) q targets
  else if negb (isREST protocol) then Some (ErrNew "unsupported AWS protocol") else None.

(** The operation that is known before the body is. *)
Definition prevalidated (d : Decoder) (service protocol : string) (r : request) (u : URL) (q : Values) : option string :=
  if isJSON protocol then
    match header_Values (Header r) "X-Amz-Target" with
    | [t] => match targetOperationFor t service protocol (catalog d) (MaxTokenBytes (limits d)) with Ok op => Some op | Err _ => None end
    | _ => None
    end
  else if isREST protocol then
    match restOperationFromCatalog service (EscapedPath u) (Method r) q protocol (catalog d) (limits d) with
    | Ok (op, _) => Some op | Err _ => None
    end
  else None.

Definition decodeBody (d : Decoder) (service protocol path : string) (r : request) (q : Values) (body : string)
  : (string * gmap string Value * Values) + chain :=
  let keepQuery out := match out with inl (op, params) => inl (op, params, q) | inr err => inr err end in
  if isJSON protocol
  then keepQuery (decodeJSONBody (catalog d) (limits d) body (header_Values (Header r) "X-Amz-Target") service protocol)
  else if isQuery protocol then decodeQueryBody iterate (catalog d) (limits d) body q service protocol
  else if (protocol =? ProtocolRESTJSON)%string
  then keepQuery (decodeRESTJSONBody (catalog d) (limits d) body service path (Method r) q)
  else keepQuery (decodeRESTXMLBody (catalog d) (limits d) xmlTokens body service path (Method r) q).

Definition attached {A} (err : chain) (ev : DecodeFailureEvidence) : A + chain :=
  inr (default err (AttachDecodeFailureEvidence (Some err) ev)).

(** From the protocol on: the outcome, and the request's body afterwards. *)
Definition decodeOn (d : Decoder) (v : Sigv4Verify.Sigv4Verify.VerifiedRequest) (r : request) (u : URL) (e : AWSEndpoint)
    (protocol : string) : (DecodedAWSRequest + chain) * option Stream :=
  let service := ep_Service e in
  let protocolEvidence := protocolKnown service protocol in
  match parseQueryString (RawQuery u) (limits d) with
  | Err err => (failing protocolEvidence err, BodyState r)
  | Ok q =>
    match checkRoute d service protocol r u q with
    | Some err => (failing protocolEvidence err, BodyState r)
    | None =>
      let pre := prevalidated d service protocol r u q in
      let '(body, berr, rest) := readAndRestore r (MaxBodyBytes (limits d)) in
      match berr with
      | Some berr =>
        let ev := match pre with Some op => operationKnown service protocol op | None => protocolEvidence end in
        (inr (default berr (NewDecodeFailureError ev (Some berr))), rest)
      | None =>
        let path := if (EscapedPath u =? "")%string then "/"%string else EscapedPath u in
        match decodeBody d service protocol path r q body with
        | inr err => (attached err protocolEvidence, rest)
        | inl (op, params, query) =>
          let signingService := if (ep_SigningService e =? "")%string then ep_Service e else ep_SigningService e in
          let signingRegion := if (ep_SigningRegion e =? "")%string && negb (IsGlobal e) then ep_Region e else ep_SigningRegion e in
          let out := mkDecoded (ep_Partition e) (ep_Host e) service signingService signingRegion (ep_Region e) (EffectiveScope e)
                       (ep_FIPS e) (ep_DualStack e) (ep_AccountID e) (callerAccountID d) protocol op (Method r) path query
                       (Some (safeHeaders (Header r))) (map_to_list params) (Sigv4Verify.Sigv4Verify.vr_PayloadMode v) (slen body) in
          match Decoded_Validate out with
          | Some err => (attached (CWrap "decoded request: %w" (CPlain err)) (operationKnown service protocol op), rest)
          | None => (inl out, rest)
          end
        end
      end
    end
  end.

(** [Decoder.Decode] of a verified request and the request it carries; [ended]
    is what [ctx.Err()] returns. *)
Definition Decode (d : option Decoder) (ended : option error) (v : option (Sigv4Verify.Sigv4Verify.VerifiedRequest * option request))
    (e : AWSEndpoint) : (DecodedAWSRequest + chain) * option Stream :=
  let body := match v with Some (_, Some r) => BodyState r | _ => None end in
  match ended with
  | Some err => (inr (CWrap "decode cancelled: %w" (CPlain err)), body)
  | None =>
    match v with
    | None => (plain "verified request is required", body)
    | Some (_, None) => (inr (CWrap "verified request: %w" (CPlain (ErrNew "verified request is nil"))), body)
    | Some (v, Some r) =>
      match Sigv4Verify.Sigv4Verify.VerifiedRequest_Validate v with
      | Some err => (inr (CWrap "verified request: %w" (CPlain err)), body)
      | None =>
        match d with
        | None => (plain "decoder is unavailable", body)
        | Some d =>
          match classifier d with
          | None => (plain "decoder is unavailable", body)
          | Some classify =>
            match configErr d with
            | Some err => (inr (CWrap "decoder configuration: %w" (CPlain err)), body)
            | None =>
              if negb (err_nil (Endpoint_Validate e)) || negb (SameEndpoint e (Sigv4Verify.Sigv4Verify.vr_Endpoint v))
              then (plain "endpoint evidence disagrees", body)
              else if negb (match classify (ep_Host e) with Ok ce => SameEndpoint ce e | Err _ => false end)
              then (plain "endpoint identity could not be revalidated", body)
              else match Url r with
              | None => (plain "request URL is unavailable", body)
              | Some u =>
                match checkIdentity d v r u e with
                | inr err => (inr err, body)
                | inl protocol => decodeOn d v r u e protocol
                end
              end
            end
          end
        end
      end
    end
  end.
End Decode.
End Decoder.
