(* ===== verification/DecoderSoundness.v ===== *)
(** * What the decoder promises

    Theorems on [Decoder.Decode]: where the operation it reports comes from, what
    its errors may say, and what it leaves of the request. *)

From Stdlib Require Import ZArith Lia Ascii.
From stdpp Require Import base gmap strings list.
From S2P Require Import Prelude GoStrings GoEncoding Sigv4Canonical.
From S2P Require Import AwsTypes.
From S2P Require Import Endpoint.
From S2P Require Import Sigv4Verify.
From S2P Require Import WireIndex.
From S2P Require Import RestRoute.
From S2P Require Import JsonDecode.
From S2P Require Import Decoder.

Module DecoderSoundness.
Import AwsTypes.AwsTypes WireIndex.WireIndex RestRoute.RestRoute JsonDecode.JsonDecode Decoder.Decoder.

(** ** Query strings *)

(** A field of a query, decoded. *)
Definition field (f : string) : option (string * string) :=
  let '(key, value, has) := Cut f "=" in
  k ← QueryUnescape key; x ← (if has then QueryUnescape value else Some EmptyString); Some (k, x).

Lemma queryFields_spec l fields : forall v out, queryFields l fields v = Ok out ->
  exists pairs, mapM field fields = Some pairs /\
    NoDup pairs.*1 /\ (forall k, k ∈ pairs.*1 -> v !! k = None) /\
    Forall (fun kx => kx.1 <> EmptyString /\ slen kx.1 <= MaxTokenBytes l /\ slen kx.2 <= MaxTokenBytes l) pairs /\
    (pairs <> [] -> Z.of_nat (size out) <= MaxParameters l) /\
    forall k, out !! k = match (list_to_map pairs : gmap string string) !! k with Some x => Some [x] | None => v !! k end.
Proof.
  induction fields as [|f fields IH]; intros v out H.
  - injection H as <-. exists []. split_and!; [done|constructor|intros k Hk; by apply not_elem_of_nil in Hk|constructor|done|].
    intros k. cbn. by rewrite lookup_empty.
  - cbn [queryFields] in H. destruct (f =? "")%string; [done|].
    destruct (Cut f "=") as [[key value] has] eqn:Ec. destruct (QueryUnescape key) as [k|] eqn:Ek; [|done].
    destruct (k =? "")%string eqn:Ee; [done|]. apply String.eqb_neq in Ee.
    destruct (if has then QueryUnescape value else Some EmptyString) as [x|] eqn:Ex; [|done].
    destruct (_ || _) eqn:Et; [done|]. apply orb_false_iff in Et as [Et1 Et2].
    destruct (v !! k) eqn:Ev; [done|]. destruct (MaxParameters l <? _) eqn:Ep; [done|].
    destruct (IH _ _ H) as (pairs & Hm & Hn & Hd & HF & Hs & Hout). exists ((k, x) :: pairs).
    assert (Hk : k ∉ pairs.*1).
    { intros Hk. apply Hd in Hk. by rewrite lookup_insert_eq in Hk. }
    split_and!.
    + assert (field f = Some (k, x)) as Hf by (unfold field; rewrite Ec; cbn [mbind option_bind]; rewrite Ek; cbn [mbind option_bind]; by rewrite Ex).
      cbn [mapM]. rewrite Hf. cbn [mbind option_bind]. by rewrite Hm.
    + cbn. by constructor.
    + intros k' Hk'. apply elem_of_cons in Hk' as [->|Hk']; [done|]. specialize (Hd k' Hk').
      by apply lookup_insert_None in Hd as [? _].
    + constructor; [|done]. cbn. split; [done|lia].
    + intros _. destruct pairs as [|p pairs]; [|by apply Hs]. apply mapM_Some in Hm. inversion Hm; subst. injection H as <-. lia.
    + intros k'. rewrite Hout. cbn. destruct (decide (k = k')) as [->|Hne].
      * rewrite lookup_insert_eq. assert ((list_to_map pairs : gmap string string) !! k' = None) as -> by (by apply not_elem_of_list_to_map).
        by rewrite lookup_insert_eq.
      * rewrite !lookup_insert_ne by done. done.
Qed.

(** A query is read without ambiguity: every field is decoded, no two fields
    have the same name, each name and value is within the limits, and the result
    is exactly the names with their values. *)
Lemma parseQueryString_fields (raw : string) (l : DecodeLimits) (v : Values) :
  parseQueryString raw l = Ok v -> raw <> EmptyString ->
  exists pairs, mapM field (Split raw "&") = Some pairs /\ NoDup pairs.*1 /\
    v = (fun x => [x]) <$> (list_to_map pairs : gmap string string) /\
    Forall (fun kx => kx.1 <> EmptyString /\ slen kx.1 <= MaxTokenBytes l /\ slen kx.2 <= MaxTokenBytes l) pairs /\
    Z.of_nat (size v) <= MaxParameters l.
Proof.
  unfold parseQueryString. intros H Hne. rewrite (proj2 (String.eqb_neq _ _) Hne) in H. destruct (_ <? _); [done|].
  destruct (queryFields_spec _ _ _ _ H) as (pairs & Hm & Hn & _ & HF & Hs & Hout). exists pairs. split_and!; [done|done| |done|].
  - apply map_eq. intros k. rewrite Hout, lookup_fmap, lookup_empty. by destruct (_ !! k).
  - apply Hs. intros ->. destruct (Split raw "&") as [|f fields] eqn:E; [by apply split_byte_nonnil in E|].
    apply mapM_Some in Hm. inversion Hm.
Qed.

(** ** Where an operation comes from *)

Section Named.
Context `{U : UnicodeTables}.

(** What a request's body delivers when it is read to its end. *)
Definition delivers (r : request) (body : string) : Prop :=
  match Sigv4Canonical.Sigv4Canonical.BodyState r with
  | None => body = EmptyString
  | Some b => data b = body /\ endErr b = None
  end.

(** The parameters of the query and of the body, which [agree], have one Action
    and one Version between them, and the catalog knows the operation by them. *)
Definition queryNames (agree : Values -> Values -> Prop) (d : Decoder) (service protocol body : string)
    (q : Values) (op : string) : Prop :=
  exists b version, parseQueryString body (limits d) = Ok b /\ agree b q /\
    (b ∪ q) !! "Action"%string = Some [op] /\ (b ∪ q) !! "Version"%string = Some [version] /\
    catalogQueryOperation (catalog d) service version protocol op = true.

(** The catalog names [op] for what a request shows: its one target header, the
    Action of its query and body, or its method and path. *)
Definition named_by (agree : Values -> Values -> Prop) (d : Decoder) (service protocol : string) (r : request)
    (u : Sigv4Canonical.Sigv4Canonical.URL) (op : string) : Prop :=
  let h := Sigv4Canonical.Sigv4Canonical.Header r in
  if isJSON protocol then
    exists t, header_Values h "X-Amz-Target" = [t] /\ targetOperationFor t service protocol (catalog d) (MaxTokenBytes (limits d)) = Ok op
  else if isQuery protocol then
    exists q body, parseQueryString (Sigv4Canonical.Sigv4Canonical.RawQuery u) (limits d) = Ok q /\ delivers r body /\
      queryNames agree d service protocol body q op
  else exists path q params, path = (if (Sigv4Canonical.Sigv4Canonical.EscapedPath u =? "")%string then "/"%string else Sigv4Canonical.Sigv4Canonical.EscapedPath u) /\
    parseQueryString (Sigv4Canonical.Sigv4Canonical.RawQuery u) (limits d) = Ok q /\
    restOperationFromCatalog service path (Sigv4Canonical.Sigv4Canonical.Method r) q protocol (catalog d) (limits d) = Ok (op, params).

(** Where the operation is a parameter, no parameter is both in the query and in
    the body. *)
Definition named := named_by (fun b q => b ##ₘ q).

Lemma named_by_mono (P Q : Values -> Values -> Prop) d service protocol r u op : (forall b q, P b q -> Q b q) ->
  named_by P d service protocol r u op -> named_by Q d service protocol r u op.
Proof.
  unfold named_by, queryNames. intros H. destruct (isJSON protocol); [done|]. destruct (isQuery protocol); [|done].
  intros (q & body & Hq & Hb & b & version & Hp & Ha & Hr). exists q, body. split_and!; [done..|].
  destruct Hr as (H1 & H2 & H3). exists b, version. split_and!; [exact Hp|by apply H|exact H1|exact H2|exact H3].
Qed.

(** A parameter that a reading of a query has, it has once. *)
Lemma parseQueryString_single raw l v k x vs : parseQueryString raw l = Ok v -> v !! k = Some (x :: vs) -> vs = [].
Proof.
  intros H Hk. destruct (decide (raw = EmptyString)) as [->|Hne]; [injection H as <-; by rewrite lookup_empty in Hk|].
  destruct (parseQueryString_fields raw l v H Hne) as (pairs & _ & _ & -> & _). rewrite lookup_fmap in Hk.
  destruct (_ !! k); [by injection Hk as _ <-|done].
Qed.
Lemma Values_Get_single (b q : Values) k : (forall x vs, b !! k = Some (x :: vs) -> vs = []) ->
  (forall x vs, q !! k = Some (x :: vs) -> vs = []) -> Values_Get (b ∪ q) k <> EmptyString ->
  (b ∪ q) !! k = Some [Values_Get (b ∪ q) k].
Proof.
  unfold Values_Get. intros Hb Hq. destruct ((b ∪ q) !! k) as [[|x vs]|] eqn:E; [done| |done]. intros _.
  apply lookup_union_Some_raw in E as [E|[_ E]]; [by rewrite (Hb _ _ E)|by rewrite (Hq _ _ E)].
Qed.

Context (iterate : Values -> list (string * list string)) (xmlTokens : string -> list xmlToken * bool).

(** What the loop over the body's parameters has seen. *)
Definition checked (b q : Values) : Prop := Forall (fun kv => q !! kv.1 = None) (iterate b).
Notation found := (named_by checked).
Lemma checked_disjoint b q : (forall v, iterate v ≡ₚ map_to_list v) -> checked b q -> b ##ₘ q.
Proof.
  unfold checked. intros Hi. rewrite Hi, List.Forall_forall. intros H. apply map_disjoint_spec. intros k x y Hb Hq.
  apply elem_of_map_to_list, list_elem_of_In, H in Hb. cbn in Hb. congruence.
Qed.

(** An error that says which operation, when it says one. *)
Definition saysOnly (P : string -> Prop) (err : chain) : Prop :=
  forall ev, DecodeFailureEvidenceFromError (Some err) = Some ev -> OperationAvailable ev = true -> P (ev_Operation ev).
Lemma says_plain P e : saysOnly P (CPlain e).
Proof. intros ev H. done. Qed.
Lemma asDecodeFailure_new ev cause err : NewDecodeFailureError ev (Some cause) = Some err ->
  exists ev', asDecodeFailure err = Some ev' /\
    (ev' = unknownEvidence \/ OperationAvailable ev' = OperationAvailable ev /\ ev_Operation ev' = ev_Operation ev).
Proof.
  unfold NewDecodeFailureError. intros [= <-]. eexists. split; [reflexivity|]. destruct (err_nil _); [by right|by left].
Qed.
Lemma says_new P ev cause err : NewDecodeFailureError ev (Some cause) = Some err ->
  (OperationAvailable ev = true -> P (ev_Operation ev)) -> saysOnly P err.
Proof.
  intros H HP ev' Hev Ha. destruct (asDecodeFailure_new _ _ _ H) as (ev1 & E & Hc). unfold DecodeFailureEvidenceFromError in Hev.
  rewrite E in Hev. destruct (err_nil _); [|done]. injection Hev as <-. destruct Hc as [-> | [Hoa ->]]; [done|]. apply HP. congruence.
Qed.
Lemma says_default (P : string -> Prop) ev cause : (OperationAvailable ev = true -> P (ev_Operation ev)) ->
  saysOnly P (default cause (NewDecodeFailureError ev (Some cause))).
Proof. intros HP. destruct (NewDecodeFailureError ev (Some cause)) eqn:E; [|discriminate E]. by eapply says_new. Qed.
Lemma says_failing {A} P ev e err : failing (A := A) ev e = inr err -> (OperationAvailable ev = true -> P (ev_Operation ev)) -> saysOnly P err.
Proof. unfold failing. destruct (NewDecodeFailureError _ _) eqn:E; [|discriminate E]. intros [= <-]. by eapply says_new. Qed.
Lemma says_attached {A} P err ev err' : attached (A := A) err ev = inr err' -> saysOnly P err ->
  (OperationAvailable ev = true -> P (ev_Operation ev)) -> saysOnly P err'.
Proof.
  unfold attached. intros H Herr HP. assert (err' = default err (AttachDecodeFailureEvidence (Some err) ev)) as -> by congruence. clear H.
  unfold AttachDecodeFailureEvidence. destruct (negb _); [done|].
  destruct (DecodeFailureEvidenceFromError (Some err)) as [existing|] eqn:E.
  - destruct (evidenceConflict existing ev).
    + destruct (NewDecodeFailureError unknownEvidence (Some err)) as [w|] eqn:En; [|discriminate En]. cbn [default]. eapply says_new; [exact En|done].
    + destruct (NewDecodeFailureError _ (Some err)) as [w|] eqn:En; [|discriminate En]. cbn [default]. eapply says_new; [exact En|].
      cbn [OperationAvailable ev_Operation]. destruct (OperationAvailable existing) eqn:Eo.
      * intros _. by apply Herr.
      * destruct (OperationAvailable ev) eqn:Ev; [|done]. intros _. by apply HP.
  - destruct (NewDecodeFailureError ev (Some err)) as [w|] eqn:En; [|discriminate En]. cbn [default]. by eapply says_new.
Qed.

(** ** The body decoders *)

Lemma decodeQueryBody_named d body raw q service protocol out : parseQueryString raw (limits d) = Ok q ->
  decodeQueryBody iterate (catalog d) (limits d) body q service protocol = out ->
  let P op := queryNames checked d service protocol body q op in
  match out with inl (op, _, _) => P op | inr err => saysOnly P err end.
Proof.
  intros Hq <- P. unfold decodeQueryBody. destruct (parseQueryString body (limits d)) as [b|] eqn:Eb; [|apply says_plain].
  destruct (List.find _ _) as [[k ?]|] eqn:Ef; [apply says_plain|].
  assert (checked b q) as Hc.
  { apply List.Forall_forall. intros kv Hkv. pose proof (find_none _ _ Ef kv Hkv) as H. cbn beta in H.
    apply bool_decide_eq_false, eq_None_not_Some in H. exact H. }
  destruct ((_ =? "")%string || negb (validOperation _)) eqn:Ea; [apply says_plain|]. apply orb_false_iff in Ea as [Ea%eqb_false_str _].
  destruct (Values_Get (b ∪ q) "Version" =? "")%string eqn:Evs; [apply says_plain|]. apply eqb_false_str in Evs.
  assert (forall k, Values_Get (b ∪ q) k <> EmptyString -> (b ∪ q) !! k = Some [Values_Get (b ∪ q) k]) as Hget.
  { intros k. apply Values_Get_single; intros x vs; by eapply parseQueryString_single. }
  apply Hget in Ea, Evs. destruct (catalogQueryOperation _ _ _ _ _) eqn:Ecat; [|apply says_plain]. cbn [negb].
  assert (P (Values_Get (b ∪ q) "Action")) as HP by (by exists b, (Values_Get (b ∪ q) "Version")).
  set (a := Values_Get (b ∪ q) "Action") in *.
  assert (Hf : forall A e err, failing (A := A) (operationKnown service protocol a) e = inr err -> saysOnly P err).
  { intros A e err H. by apply (says_failing _ _ _ _ H). }
  destruct (_ && _); [by destruct (failing _ _) as [[[? ?] ?]|err] eqn:E; [discriminate E|eapply Hf]|].
  destruct (_ && _); [by destruct (failing _ _) as [[[? ?] ?]|err] eqn:E; [discriminate E|eapply Hf]|].
  destruct (queryParams _ _ _) as [[params indexed]|e]; [|by destruct (failing _ _) as [[[? ?] ?]|err] eqn:E; [discriminate E|eapply Hf]].
  case_bool_decide; [done|]. destruct (contiguous _ _ _); [done|].
  by destruct (failing _ _) as [[[? ?] ?]|err] eqn:E; [discriminate E|eapply Hf].
Qed.
Lemma decodeJSONBody_named c l body targets service protocol out :
  decodeJSONBody c l body targets service protocol = out ->
  let P op := exists t, targets = [t] /\ targetOperationFor t service protocol c (MaxTokenBytes l) = Ok op in
  match out with inl (op, _) => P op | inr err => saysOnly P err end.
Proof.
  intros <- P. unfold decodeJSONBody. destruct targets as [|t [|]]; [apply says_plain| |apply says_plain].
  destruct (targetOperationFor t service protocol c _) as [op|] eqn:Et; [|apply says_plain].
  assert (Hop : P op) by (by exists t).
  assert (Hf : forall A e err, failing (A := A) (operationKnown service protocol op) e = inr err -> saysOnly P err).
  { intros A e err H. by apply (says_failing _ _ _ _ H). }
  destruct (body =? "")%string; [by destruct (failing _ _) as [[? ?]|err] eqn:E; [discriminate E|eapply Hf]|].
  destruct (parseBody l body) as [[v|v|e]|]; [destruct (negb _); [|done]|..];
    by destruct (failing _ _) as [[? ?]|err] eqn:E; [discriminate E|eapply Hf].
Qed.
Lemma decodeRESTJSONBody_named c l body service path method q out :
  decodeRESTJSONBody c l body service path method q = out ->
  let P op := exists params, restOperationFromCatalog service path method q ProtocolRESTJSON c l = Ok (op, params) in
  match out with inl (op, _) => P op | inr err => saysOnly P err end.
Proof.
  intros <- P. unfold decodeRESTJSONBody. destruct (restOperationFromCatalog _ _ _ _ _ _ _) as [[op route]|] eqn:Er; [|apply says_plain].
  assert (Hop : P op) by (by exists route).
  assert (Hf : forall A e err, failing (A := A) (operationKnown service ProtocolRESTJSON op) e = inr err -> saysOnly P err).
  { intros A e err H. by apply (says_failing _ _ _ _ H). }
  destruct (TrimSpace body =? "")%string; [destruct (merge _ _); [done|]|destruct (parseBody l _) as [[v|v|e]|]; [destruct (Kind v =? _)%string; [destruct (merge _ _); [done|]|]|..]];
    by destruct (failing _ _) as [[? ?]|err] eqn:E; [discriminate E|eapply Hf].
Qed.
Lemma decodeRESTXMLBody_named c l body service path method q out :
  decodeRESTXMLBody c l xmlTokens body service path method q = out ->
  let P op := exists params, restOperationFromCatalog service path method q ProtocolRESTXML c l = Ok (op, params) in
  match out with inl (op, _) => P op | inr err => saysOnly P err end.
Proof.
  intros <- P. unfold decodeRESTXMLBody, restXMLOperationFromCatalog.
  destruct (restOperationFromCatalog _ _ _ _ _ _ _) as [[op route]|] eqn:Er; [|apply says_plain].
  assert (Hop : P op) by (by exists route).
  assert (Hf : forall A e err, failing (A := A) (operationKnown service ProtocolRESTXML op) e = inr err -> saysOnly P err).
  { intros A e err H. by apply (says_failing _ _ _ _ H). }
  destruct (_ || _); [done|]. destruct (parseXMLParameters _ _ _) as [x|e]; [destruct (merge _ _); [done|]|];
    by destruct (failing _ _) as [[? ?]|err] eqn:E; [discriminate E|eapply Hf].
Qed.

(** ** The decoder *)

Lemma isREST_cases p : isREST p = true -> p = ProtocolRESTJSON \/ p = ProtocolRESTXML.
Proof.
  unfold isREST, mem_str. cbn [existsb]. rewrite orb_false_r. intros [H|H]%orb_true_iff; apply String.eqb_eq in H; auto.
Qed.
Lemma rest_path service path method q p c l op params : restOperationFromCatalog service path method q p c l = Ok (op, params) ->
  (if (path =? "")%string then "/"%string else path) = path.
Proof. unfold restOperationFromCatalog. destruct path; [|done]. by rewrite orb_true_r. Qed.
Lemma checkRoute_protocol d service p r u q : checkRoute d service p r u q = None -> isJSON p = false -> isQuery p = false -> isREST p = true.
Proof.
  unfold checkRoute. intros H E1 E2. rewrite E1, E2 in H. cbn [andb orb] in H. destruct (isREST p); [done|]. by cbn in H.
Qed.
Lemma prevalidated_named d service p r u q op : parseQueryString (Sigv4Canonical.Sigv4Canonical.RawQuery u) (limits d) = Ok q ->
  isQuery p = false -> prevalidated d service p r u q = Some op -> found d service p r u op.
Proof.
  unfold prevalidated, named_by. intros Hq Hnq. destruct (isJSON p).
  - destruct (header_Values _ _) as [|t [|]]; [done| |done]. destruct (targetOperationFor _ _ _ _ _) as [o|] eqn:E; [|done].
    intros [= <-]. by exists t.
  - rewrite Hnq. destruct (isREST p); [|done]. destruct (restOperationFromCatalog _ _ _ _ _ _ _) as [[o params]|] eqn:E; [|done].
    intros [= <-]. exists (Sigv4Canonical.Sigv4Canonical.EscapedPath u), q, params. split; [|done]. symmetry. by eapply rest_path.
Qed.
Lemma prevalidated_query d service p r u q : isQuery p = true -> prevalidated d service p r u q = None.
Proof.
  unfold prevalidated, isQuery, isJSON, isREST, mem_str. cbn [existsb]. rewrite !orb_false_r.
  intros [H|H]%orb_true_iff; apply String.eqb_eq in H as ->; reflexivity.
Qed.
Lemma decodeBody_named d service p r u q body : parseQueryString (Sigv4Canonical.Sigv4Canonical.RawQuery u) (limits d) = Ok q ->
  delivers r body ->
  checkRoute d service p r u q = None ->
  let path := if (Sigv4Canonical.Sigv4Canonical.EscapedPath u =? "")%string then "/"%string else Sigv4Canonical.Sigv4Canonical.EscapedPath u in
  match decodeBody iterate xmlTokens d service p path r q body with
  | inl (op, _, _) => found d service p r u op
  | inr err => saysOnly (found d service p r u) err
  end.
Proof.
  intros Hq Hdel Hroute path. unfold decodeBody, named_by. pose proof (checkRoute_protocol _ _ _ _ _ _ Hroute) as Hp.
  destruct (isJSON p).
  - pose proof (decodeJSONBody_named (catalog d) (limits d) body (header_Values (Sigv4Canonical.Sigv4Canonical.Header r) "X-Amz-Target") service p _ eq_refl) as H.
    by destruct (decodeJSONBody _ _ _ _ _ _) as [[op params]|err].
  - destruct (isQuery p).
    + pose proof (decodeQueryBody_named d body _ q service p _ Hq eq_refl) as H. cbv zeta in H.
      destruct (decodeQueryBody _ _ _ _ _ _ _) as [[[op params] ?]|err]; [by exists q, body|].
      intros ev Hev Ha. exists q, body. by split_and!; [| |apply H].
    + specialize (Hp eq_refl eq_refl). apply isREST_cases in Hp.
      assert (Hw : forall op params, restOperationFromCatalog service path (Sigv4Canonical.Sigv4Canonical.Method r) q p (catalog d) (limits d) = Ok (op, params) ->
        exists path q params, path = (if (Sigv4Canonical.Sigv4Canonical.EscapedPath u =? "")%string then "/"%string else Sigv4Canonical.Sigv4Canonical.EscapedPath u) /\
          parseQueryString (Sigv4Canonical.Sigv4Canonical.RawQuery u) (limits d) = Ok q /\
          restOperationFromCatalog service path (Sigv4Canonical.Sigv4Canonical.Method r) q p (catalog d) (limits d) = Ok (op, params))
        by (intros op params H; by exists path, q, params).
      destruct Hp as [-> | ->].
      * change (ProtocolRESTJSON =? ProtocolRESTJSON)%string with true. cbv iota.
        pose proof (decodeRESTJSONBody_named (catalog d) (limits d) body service path (Sigv4Canonical.Sigv4Canonical.Method r) q _ eq_refl) as H.
        destruct (decodeRESTJSONBody _ _ _ _ _ _ _) as [[op params]|err]; [destruct H as [ps H]; by eapply Hw|].
        intros ev Hev Ha. destruct (H ev Hev Ha) as [ps H']. by eapply Hw.
      * change (ProtocolRESTXML =? ProtocolRESTJSON)%string with false. cbv iota.
        pose proof (decodeRESTXMLBody_named (catalog d) (limits d) body service path (Sigv4Canonical.Sigv4Canonical.Method r) q _ eq_refl) as H.
        destruct (decodeRESTXMLBody _ _ _ _ _ _ _ _) as [[op params]|err]; [destruct H as [ps H]; by eapply Hw|].
        intros ev Hev Ha. destruct (H ev Hev Ha) as [ps H']. by eapply Hw.
Qed.

(** A body is left as it was found: the same bytes are still to be read, with the
    same end. *)
Definition reads (b : option Stream) : option (string * option error) := (fun b => (data b, endErr b)) <$> b.
Lemma readAndRestore_reads r max bytes err rest : readAndRestore r max = (bytes, err, rest) ->
  reads rest = reads (Sigv4Canonical.Sigv4Canonical.BodyState r) /\
  (err = None -> bytes = default EmptyString (data <$> rest) /\ slen bytes <= max).
Proof.
  unfold readAndRestore. destruct (Z.leb_spec max 0); [by intros [= <- <- <-]|].
  destruct (Sigv4Canonical.Sigv4Canonical.BodyState r) as [b|]; [|intros [= <- <- <-]; split; [done|]; intros _; split; [done|change (slen EmptyString) with 0; lia]].
  destruct (max <? _); [by intros [= <- <- <-]|]. destruct (Z.ltb_spec max (slen (data b))); [by intros [= <- <- <-]|].
  destruct (endErr b) as [e|] eqn:E; [by intros [= <- <- <-]|]. intros [= <- <- <-]. unfold reads. cbn. rewrite E.
  split; [done|]. intros _. split; [done|lia].
Qed.

Lemma readAndRestore_delivers r max bytes rest : readAndRestore r max = (bytes, None, rest) -> delivers r bytes.
Proof.
  unfold readAndRestore, delivers. destruct (max <=? 0); [done|].
  destruct (Sigv4Canonical.Sigv4Canonical.BodyState r) as [b|]; [|by intros [= <- _]].
  destruct (max <? _); [done|]. destruct (max <? _); [done|]. by destruct (endErr b); [|intros [= <- _ _]].
Qed.

Lemma decodeOn_spec d v r u e p out rest : decodeOn iterate xmlTokens d v r u e p = (out, rest) ->
  reads rest = reads (Sigv4Canonical.Sigv4Canonical.BodyState r) /\
  match out with
  | inr err => saysOnly (found d (ep_Service e) p r u) err
  | inl out => found d (ep_Service e) p r u (Operation out) /\ Decoded_Validate out = None /\ Protocol out = p /\
      PayloadBytes out <= MaxBodyBytes (limits d) /\ requestEndpoint out = mkEndpoint (ep_Partition e) (ep_Host e) (ep_Service e)
        (if (ep_SigningService e =? "")%string then ep_Service e else ep_SigningService e)
        (if (ep_SigningRegion e =? "")%string && negb (IsGlobal e) then ep_Region e else ep_SigningRegion e)
        (ep_Region e) (ep_Region e =? "")%string (EffectiveScope e) (ep_FIPS e) (ep_DualStack e) (ep_AccountID e) /\
      CallerAccountID out = callerAccountID d /\ Method out = Sigv4Canonical.Sigv4Canonical.Method r /\
      PayloadHashMode out = Sigv4Verify.Sigv4Verify.vr_PayloadMode v
  end.
Proof.
  unfold decodeOn. destruct (parseQueryString _ _) as [q|e'] eqn:Eq.
  2: { intros H. destruct (failing _ _) as [?|err] eqn:E in H; [discriminate E|]. injection H as <- <-. split; [done|]. by eapply says_failing. }
  destruct (checkRoute d _ p r u q) as [e'|] eqn:Er.
  { intros H. destruct (failing _ _) as [?|err] eqn:E in H; [discriminate E|]. injection H as <- <-. split; [done|]. by eapply says_failing. }
  destruct (readAndRestore r _) as [[body berr] rest'] eqn:Eb. pose proof Eb as Eb0. apply readAndRestore_reads in Eb as [Hreads Hok].
  destruct berr as [berr|].
  - intros H. injection H as <- <-. split; [done|].
    destruct (prevalidated d _ p r u q) as [op|] eqn:Ep; [|by apply says_default].
    apply says_default. intros _. cbn [ev_Operation operationKnown].
    eapply prevalidated_named; [exact Eq| |exact Ep]. apply not_true_is_false. intros Hp. by rewrite (prevalidated_query _ _ _ _ _ _ Hp) in Ep.
  - pose proof (decodeBody_named d (ep_Service e) p r u q body Eq (readAndRestore_delivers _ _ _ _ Eb0) Er) as Hn.
    cbv zeta in Hn. destruct (decodeBody _ _ _ _ _ _ _ _ _) as [[[op params] query]|err].
    + destruct (Decoded_Validate _) as [err|] eqn:Ev; intros H.
      * destruct (attached _ _) as [?|err'] eqn:Ea in H; [discriminate Ea|]. injection H as <- <-. split; [done|].
        apply (says_attached _ _ _ _ Ea); [done|]. intros _. exact Hn.
      * injection H as <- <-. split; [done|]. split_and!; try done. cbn [PayloadBytes]. by apply Hok.
    + intros H. destruct (attached _ _) as [?|err'] eqn:Ea in H; [discriminate Ea|]. injection H as <- <-. split; [done|].
      by apply (says_attached _ _ _ _ Ea).
Qed.

Context (ToASCII : string -> result string).

Lemma checkIdentity_spec d v r u e p : checkIdentity ToASCII d v r u e = inl p ->
  Sigv4Verify.Sigv4Verify.vr_SigningService v = (if (ep_SigningService e =? "")%string then ep_Service e else ep_SigningService e) /\
  Sigv4Verify.Sigv4Verify.vr_SigningRegion v = (if (ep_SigningRegion e =? "")%string && negb (IsGlobal e) then ep_Region e else ep_SigningRegion e) /\
  (ep_AccountID e = EmptyString \/ ep_AccountID e = callerAccountID d) /\
  Sigv4Verify.Sigv4Verify.vr_SigningScheme v = SigningHeaderV4 /\
  authoritativeProtocolFor (catalog d) (ep_Service e) = Some p.
Proof.
  unfold checkIdentity. destruct (negb _); [done|].
  set (service := if (ep_SigningService e =? "")%string then ep_Service e else ep_SigningService e).
  set (region := if (ep_SigningRegion e =? "")%string && negb (IsGlobal e) then ep_Region e else ep_SigningRegion e).
  destruct (negb (_ =? service)%string || _) eqn:E1; [done|]. destruct (negb (ep_AccountID e =? "")%string && _) eqn:E2; [done|].
  destruct (_ || negb (payloadValid _)) eqn:E3; [done|]. destruct (_ <? _); [done|]. destruct (protocolFromHeaders _ _ _) as [p'|]; [|done].
  case_bool_decide as Ha; [|done]. intros [= <-].
  apply orb_false_iff in E1 as [S1 S2]. apply orb_false_iff in E3 as [S3 _]. apply negb_false_iff in S1, S2, S3.
  apply String.eqb_eq in S1, S2, S3. split_and!; [done|done| |done|done].
  destruct (ep_AccountID e =? "")%string eqn:Ea; [left; by apply String.eqb_eq|right].
  cbn [negb andb] in E2. apply negb_false_iff in E2. by apply String.eqb_eq.
Qed.

(** What a decoded request went through. *)
Lemma Decode_accepts d ended v e out rest : Decode ToASCII iterate xmlTokens (Some d) ended v e = (inl out, rest) ->
  ended = None /\ exists verified r u classify ce p, v = Some (verified, Some r) /\ Sigv4Canonical.Sigv4Canonical.Url r = Some u /\
    Sigv4Verify.Sigv4Verify.VerifiedRequest_Validate verified = None /\ Endpoint_Validate e = None /\
    SameEndpoint e (Sigv4Verify.Sigv4Verify.vr_Endpoint verified) = true /\
    classifier d = Some classify /\ classify (ep_Host e) = Ok ce /\ SameEndpoint ce e = true /\
    checkIdentity ToASCII d verified r u e = inl p /\ decodeOn iterate xmlTokens d verified r u e p = (inl out, rest).
Proof.
  unfold Decode. destruct ended; [done|]. destruct v as [[verified [r|]]|]; [|done..].
  destruct (Sigv4Verify.Sigv4Verify.VerifiedRequest_Validate verified) eqn:Ev; [done|].
  destruct (classifier d) as [classify|] eqn:Ec; [|done]. destruct (configErr d); [done|].
  destruct (_ || _) eqn:Ee; [done|]. apply orb_false_iff in Ee as [E1 E2]. apply negb_false_iff in E1, E2.
  destruct (Endpoint_Validate e) eqn:Eval; [done|].
  destruct (negb _) eqn:Ecl; [done|]. apply negb_false_iff in Ecl. destruct (classify (ep_Host e)) as [ce|] eqn:Ece; [|done].
  destruct (Sigv4Canonical.Sigv4Canonical.Url r) as [u|] eqn:Eu; [|done]. destruct (checkIdentity _ _ _ _ _ _) as [p|] eqn:Ei; [|done].
  intros H. split; [done|]. by exists verified, r, u, classify, ce, p.
Qed.

(** C11. What the decoder reports is what was authenticated, and what the catalog
    knows: the request was verified for this very endpoint, which the classifier
    still confirms; the reported identity is the endpoint's, signed for under its
    service and Region, in no other account than the caller's; the protocol is
    the only one the catalog has for the service; the operation is the one that
    the catalog names for the request, that is by its one target header, by the
    one Action and Version among the parameters of its query and of its body
    (which have none in common), or by its method and path; and the record is
    valid and within the body limit. The iteration of a map visits its entries. *)
Theorem Decode_sound (d : Decoder) (ended : option error)
    (v : option (Sigv4Verify.Sigv4Verify.VerifiedRequest * option request)) (e : AWSEndpoint)
    (out : DecodedAWSRequest) (rest : option Stream) :
  (forall m, iterate m ≡ₚ map_to_list m) ->
  Decode ToASCII iterate xmlTokens (Some d) ended v e = (inl out, rest) ->
  ended = None /\ Decoded_Validate out = None /\
  exists verified r u classify ce, v = Some (verified, Some r) /\ Sigv4Canonical.Sigv4Canonical.Url r = Some u /\
    Sigv4Verify.Sigv4Verify.VerifiedRequest_Validate verified = None /\ Endpoint_Validate e = None /\
    SameEndpoint e (Sigv4Verify.Sigv4Verify.vr_Endpoint verified) = true /\
    classifier d = Some classify /\ classify (ep_Host e) = Ok ce /\ SameEndpoint ce e = true /\
    (EndpointHost out = ep_Host e /\ Service out = ep_Service e /\ Region out = ep_Region e /\
     SigningService out = Sigv4Verify.Sigv4Verify.vr_SigningService verified /\
     SigningRegion out = Sigv4Verify.Sigv4Verify.vr_SigningRegion verified) /\
    (AccountID out = EmptyString \/ AccountID out = callerAccountID d) /\ CallerAccountID out = callerAccountID d /\
    authoritativeProtocolFor (catalog d) (Service out) = Some (Protocol out) /\
    named d (Service out) (Protocol out) r u (Operation out) /\ PayloadBytes out <= MaxBodyBytes (limits d).
Proof.
  intros Hi0 (-> & verified & r & u & classify & ce & p & -> & Hu & Hv & He & Hs & Hc & Hce & Hsame & Hi & Hd)%Decode_accepts.
  apply decodeOn_spec in Hd as [_ (Hn & Hval & Hp & Hb & Hep & Hcaller & _)]. apply checkIdentity_spec in Hi as (I1 & I2 & I3 & _ & I5).
  split; [done|]. split; [done|]. exists verified, r, u, classify, ce. injection Hep as ? ? Hsvc ? ? ? ? ? ? ? Hacc.
  assert (named d (ep_Service e) p r u (Operation out)) as Hn'.
  { eapply named_by_mono; [intros b q; by apply checked_disjoint|exact Hn]. }
  rewrite Hsvc, Hp. split_and!; try done; congruence.
Qed.

(** C12. The operation reported is one of the pinned catalog's, under the endpoint's
    service and on the reported protocol, and the catalog vouches for it; when the
    fields of the catalog's keys are free of NUL, every operation that the catalog
    has of that service is on that protocol. *)
Theorem decoded_operation_pinned (source : list (WireService * WireOperation)) (idx : wireIndex) (d : Decoder)
    (ended : option error) (v : option (Sigv4Verify.Sigv4Verify.VerifiedRequest * option request)) (e : AWSEndpoint)
    (out : DecodedAWSRequest) (rest : option Stream) :
  buildWireIndex source = Some idx -> catalog d = Some idx ->
  Decode ToASCII iterate xmlTokens (Some d) ended v e = (inl out, rest) ->
  (exists so, so ∈ source /\ wireOf so (ep_Service e) (Protocol out) /\ Name so.2 = Operation out /\ State so.2 = EvidenceKnown) /\
  (Forall nulFree source -> forall so, so ∈ source -> EndpointPrefix so.1 = ep_Service e -> wireOf so (ep_Service e) (Protocol out)).
Proof.
  intros Hb Hcat (_ & verified & r & u & classify & ce & p & _ & _ & _ & _ & _ & _ & _ & _ & Hi & Hd)%Decode_accepts.
  apply decodeOn_spec in Hd as [_ (Hn & _ & -> & _)]. apply checkIdentity_spec in Hi as (_ & _ & _ & _ & Hauth).
  rewrite Hcat in Hauth. split; [|intros Hnul so Hin Hs; split; [done|]; by eapply protocol_unanimous].
  unfold named_by in Hn. rewrite Hcat in Hn. destruct (isJSON p) eqn:Ej; [|destruct (isQuery p)].
  - destruct Hn as (t & _ & Hn). assert (Hne : p <> EmptyString) by (by intros ->).
    destruct (proj2 (operation_identified _ _ (ep_Service e) p Hb) _ _ _ Hne Hn) as (prefix & so & _ & Hk & _ & [Hin (Hw & _ & Ho)]%only_in).
    by exists so.
  - destruct Hn as (q & body & _ & _ & b & version & _ & _ & _ & _ & Hn). rewrite Hcat in Hn.
    destruct (proj1 (operation_identified _ _ (ep_Service e) p Hb) _ _ Hn) as (so & Hk & [Hin (Hw & _ & Ho)]%only_in). by exists so.
  - destruct Hn as (path & q & params & _ & _ & Hn).
    destruct (rest_operation_identified _ _ _ _ _ _ _ _ _ _ Hb Hn) as (so & fixed & route & Ho & Hk & _ & _ & [Hin (Hw & _)]%only_in).
    by exists so.
Qed.

(** C32. An error tells no more than is known: when what the decoder returns says
    which operation was asked for, the verified request named it by the catalog
    (by its target header, by the one Action and Version of its query and body,
    or by its method and path), so that a failure never carries an operation
    the client made up. The iteration of a map visits its entries. *)
Theorem Decode_errors_say_known (d : Decoder) (ended : option error)
    (v : option (Sigv4Verify.Sigv4Verify.VerifiedRequest * option request)) (e : AWSEndpoint)
    (err : chain) (rest : option Stream) (ev : DecodeFailureEvidence) :
  (forall m, iterate m ≡ₚ map_to_list m) ->
  Decode ToASCII iterate xmlTokens (Some d) ended v e = (inr err, rest) ->
  DecodeFailureEvidenceFromError (Some err) = Some ev -> OperationAvailable ev = true ->
  exists verified r u protocol, v = Some (verified, Some r) /\ Sigv4Canonical.Sigv4Canonical.Url r = Some u /\
    SameEndpoint e (Sigv4Verify.Sigv4Verify.vr_Endpoint verified) = true /\
    authoritativeProtocolFor (catalog d) (ep_Service e) = Some protocol /\
    named d (ep_Service e) protocol r u (ev_Operation ev).
Proof.
  intros Hi0.
  assert (Hp : forall msg rest', ((plain msg : DecodedAWSRequest + chain), rest') = (inr err, rest) ->
    DecodeFailureEvidenceFromError (Some err) <> Some ev) by (by intros msg rest' [= <- _]).
  assert (Hw : forall w e' rest', ((inr (CWrap w (CPlain e')) : DecodedAWSRequest + chain), rest') = (inr err, rest) ->
    DecodeFailureEvidenceFromError (Some err) <> Some ev) by (by intros w e' rest' [= <- _]).
  unfold Decode. destruct ended; [by intros H%Hw|]. destruct v as [[verified [r|]]|]; [|by intros H%Hw|by intros H%Hp].
  destruct (Sigv4Verify.Sigv4Verify.VerifiedRequest_Validate verified) eqn:Ev; [by intros H%Hw|].
  destruct (classifier d) as [classify|]; [|by intros H%Hp]. destruct (configErr d); [by intros H%Hw|].
  destruct (_ || _) eqn:Ee; [by intros H%Hp|]. apply orb_false_iff in Ee as [_ E2]. apply negb_false_iff in E2.
  destruct (negb _); [by intros H%Hp|].
  destruct (Sigv4Canonical.Sigv4Canonical.Url r) as [u|] eqn:Eu; [|by intros H%Hp].
  destruct (checkIdentity _ _ _ _ _ _) as [p|err'] eqn:Ei.
  - intros H Hev Ha. apply decodeOn_spec in H as [_ H]. apply checkIdentity_spec in Ei as (_ & _ & _ & _ & Hauth).
    exists verified, r, u, p. split_and!; [done..|]. eapply named_by_mono; [intros b q; by apply checked_disjoint|by apply H].
  - intros [= <- <-] Hev. exfalso. clear Hp Hw. unfold checkIdentity, plain in Ei.
    repeat (case_match; try discriminate); unfold protocolFromHeaders, plain in *;
      repeat (case_match; try discriminate); simplify_eq; done.
Qed.

(** Decoding leaves the request's body as it was, whatever the outcome: the
    same bytes are still to be read and they end the same way, so that what is
    forwarded is what was decoded. *)
Theorem Decode_keeps_body (d : option Decoder) (ended : option error) (verified : Sigv4Verify.Sigv4Verify.VerifiedRequest)
    (r : request) (e : AWSEndpoint) :
  reads (Decode ToASCII iterate xmlTokens d ended (Some (verified, Some r)) e).2 = reads (Sigv4Canonical.Sigv4Canonical.BodyState r).
Proof.
  unfold Decode. destruct ended; [done|]. destruct (Sigv4Verify.Sigv4Verify.VerifiedRequest_Validate verified); [done|].
  destruct d as [d|]; [|done]. destruct (classifier d); [|done]. destruct (configErr d); [done|]. destruct (_ || _); [done|].
  destruct (negb _); [done|]. destruct (Sigv4Canonical.Sigv4Canonical.Url r) as [u|]; [|done].
  destruct (checkIdentity _ _ _ _ _ _) as [p|]; [|done].
  destruct (decodeOn _ _ _ _ _ _ _ _) as [out rest] eqn:E. by apply decodeOn_spec in E as [? _].
Qed.
End Named.

(** ** A request for three instances *)

#[local] Instance sample_tables : UnicodeTables := ascii_tables.
Definition sampleEndpoint : AWSEndpoint :=
  mkEndpoint "aws" "ec2.us-east-1.amazonaws.com" "ec2" "ec2" "us-east-1" "us-east-1" false "" false false "".
Definition sampleVerified : Sigv4Verify.Sigv4Verify.VerifiedRequest :=
  Sigv4Verify.Sigv4Verify.mkVerified sampleEndpoint ProtocolEC2Query SigningHeaderV4 "us-east-1" "ec2" PayloadHashSHA256.
Definition sampleBody : string := "Action=DescribeInstances&Version=2016-11-15&InstanceId.2=i-b&InstanceId.1=i-a".
Definition sampleRequest (body : string) : request :=
  Sigv4Canonical.Sigv4Canonical.mkRequest "POST"
    (Some (Sigv4Canonical.Sigv4Canonical.mkURL false "ec2.us-east-1.amazonaws.com" "/" "" "" ""))
    "ec2.us-east-1.amazonaws.com" (list_to_map [("X-Amz-Date", ["20240102T030405Z"]); ("Authorization", ["secret"])])%string
    (slen body) (Some (mkStream body None None)).
Definition sampleDecoder : Decoder :=
  newDecoder DefaultDecodeLimits (Some (fun _ => Ok sampleEndpoint)) "123456789012" (Some sampleIndex) None.
Definition ascending (v : Values) : list (string * list string) := map_to_list v.
Definition noXML (_ : string) : list xmlToken * bool := ([], true).
Definition sampleRun (body : string) : (DecodedAWSRequest + chain) * option Stream :=
  Decode (fun s => Ok s) ascending noXML (Some sampleDecoder) None (Some (sampleVerified, Some (sampleRequest body))) sampleEndpoint.
Definition sampleDecoded : DecodedAWSRequest :=
  let text s := vstring s in
  mkDecoded "aws" "ec2.us-east-1.amazonaws.com" "ec2" "ec2" "us-east-1" "us-east-1" ScopeRegional false false "" "123456789012"
    ProtocolEC2Query "DescribeInstances" "POST" "/"
    (list_to_map [("Action", ["DescribeInstances"]); ("Version", ["2016-11-15"]); ("InstanceId.1", ["i-a"]); ("InstanceId.2", ["i-b"])])
    (Some (list_to_map [("X-Amz-Date", ["20240102T030405Z"])]))
    (map_to_list (list_to_map [("Version", text "2016-11-15"); ("InstanceId.1", text "i-a"); ("InstanceId.2", text "i-b");
                               ("InstanceIds", varray [text "i-a"; text "i-b"])] : gmap string Value))%string
    PayloadHashSHA256 (slen sampleBody).
Lemma sample_decodes : sampleRun sampleBody = (inl sampleDecoded, Some (mkStream sampleBody None None)).
Proof. vm_compute. reflexivity. Qed.

Lemma Decode_sound_witness :
  named sampleDecoder "ec2" ProtocolEC2Query (sampleRequest sampleBody)
    (Sigv4Canonical.Sigv4Canonical.mkURL false "ec2.us-east-1.amazonaws.com" "/" "" "" "") "DescribeInstances".
Proof.
  destruct (Decode_sound ascending noXML (fun s => Ok s) _ _ _ _ _ _ (fun m => Permutation_refl _) sample_decodes) as
    (_ & _ & verified & r & u & classify & ce & Hv & Hu & _ & _ & _ & _ & _ & _ & _ & _ & _ & _ & H & _).
  injection Hv as _ <-. injection Hu as <-. exact H.
Defined.
Lemma decoded_operation_pinned_witness :
  exists so, so ∈ sampleSource /\ wireOf so "ec2" ProtocolEC2Query /\ Name so.2 = "DescribeInstances"%string /\ State so.2 = EvidenceKnown.
Proof.
  apply (decoded_operation_pinned ascending noXML (fun s => Ok s) sampleSource sampleIndex sampleDecoder _ _ _ _ _
    sampleIndex_built eq_refl sample_decodes).
Defined.

(** A body with a gap in its indices: the failure says the operation, which the
    catalog knows. *)
Definition gapBody : string := "Action=DescribeInstances&Version=2016-11-15&InstanceId.2=i-b".
Definition gapFailure : chain := match (sampleRun gapBody).1 with inr err => err | inl _ => CPlain (ErrNew "") end.
Definition gapEvidence : DecodeFailureEvidence := operationKnown "ec2" ProtocolEC2Query "DescribeInstances".
Lemma gap_fails : sampleRun gapBody = (inr gapFailure, Some (mkStream gapBody None None)).
Proof. vm_compute. reflexivity. Qed.
Lemma Decode_errors_say_known_witness :
  named sampleDecoder "ec2" ProtocolEC2Query (sampleRequest gapBody)
    (Sigv4Canonical.Sigv4Canonical.mkURL false "ec2.us-east-1.amazonaws.com" "/" "" "" "") "DescribeInstances".
Proof.
  destruct (Decode_errors_say_known ascending noXML (fun s => Ok s) sampleDecoder None _ sampleEndpoint gapFailure _ gapEvidence
    (fun m => Permutation_refl _) gap_fails)
    as (verified & r & u & p & Hv & Hu & _ & Hp & H); [vm_compute; reflexivity..|].
  vm_compute in Hp. injection Hp as <-. injection Hv as _ <-. injection Hu as <-. exact H.
Defined.

(** ** What the order of a map decides *)

(** Two spellings of one index, as two parameters: which value the operation's
    instances have depends on the order in which the map is iterated. *)
Definition twiceBody : string := "Action=DescribeInstances&Version=2016-11-15&InstanceId.1=i-a&InstanceId.01=i-b".
Definition descending (v : Values) : list (string * list string) := rev (map_to_list v).
Definition instancesOf (iterate : Values -> list (string * list string)) : option Value :=
  match decodeQueryBody iterate (Some sampleIndex) DefaultDecodeLimits twiceBody ∅ "ec2" ProtocolEC2Query with
  | inl (_, params, _) => params !! "InstanceIds"%string
  | inr _ => None
  end.
Example instances_by_order :
  (instancesOf ascending = Some (varray [vstring "i-a"]) /\ instancesOf descending = Some (varray [vstring "i-b"])) \/
  (instancesOf ascending = Some (varray [vstring "i-b"]) /\ instancesOf descending = Some (varray [vstring "i-a"])).
Proof. vm_compute. tauto. Qed.

(** Of the elements of an XML body that have one name, the last one's text is kept. *)
Example xml_last_wins :
  parseXMLParameters DefaultDecodeLimits
    (fun _ => ([StartElement "Delete"; StartElement "Key"; CharData "a"; EndElement; StartElement "Key"; CharData "b"; EndElement;
                EndElement], true)) "" = inl {["Key"%string := "b"%string]}.
Proof. vm_compute. reflexivity. Qed.
End DecoderSoundness.
