(* ===== verification/DecoderForward.v ===== *)
(** * What is forwarded is what was decoded

    The decoder and the re-signer both read the query of a request, each with its
    own decoder.  The theorems compare what [Decoder.parseQueryString] makes of the
    query a request came with and of the query it is forwarded with
    ([Sigv4Resign.scrubAndCanonicalizeQuery]). *)

From Stdlib Require Import ZArith Lia Ascii.
From stdpp Require Import base gmap strings list.
From S2P Require Import Prelude GoStrings GoEncoding Sigv4Canonical.
From S2P Require Import AwsTypes.
From S2P Require Import Sigv4Resign.
From S2P Require Import WireIndex.
From S2P Require Import RestRoute.
From S2P Require Import Decoder.
From S2P Require Import DecoderSoundness.

Module DecoderForward.
Import WireIndex.WireIndex RestRoute.RestRoute Decoder.Decoder DecoderSoundness.DecoderSoundness.
Import Sigv4Canonical.Sigv4Canonical Sigv4Resign.Sigv4Resign.

Definition plus : Z := ord "+".

Lemma QueryUnescape_plain s : count_byte s plus = 0 -> QueryUnescape s = PathUnescape s.
Proof.
  induction s as [s IH] using string_len_ind. destruct s as [|a s]; [done|]. cbn [count_byte]. intros H.
  pose proof (count_byte_nonneg s plus). cbn [QueryUnescape PathUnescape].
  destruct (ord a =? plus) eqn:Ea; [lia|]. destruct (ord a =? ord "%").
  - destruct s as [|h [|x s]]; [done|done|]. cbn [count_byte] in H. pose proof (count_byte_nonneg s plus).
    rewrite IH; [done|cbn; lia|destruct (ord h =? plus), (ord x =? plus); lia].
  - unfold plus in Ea. rewrite Ea, IH; [done|cbn; lia|lia].
Qed.
Lemma split_count sep c s part : count_byte s c = 0 -> part ∈ split_byte sep s -> count_byte part c = 0.
Proof.
  revert part. induction s as [|a s IH]; intros part; cbn [count_byte split_byte].
  { intros _ H. by apply list_elem_of_singleton in H as ->. }
  pose proof (count_byte_nonneg s c) as Hpos. intros H. assert (count_byte s c = 0) as Hs by (destruct (ord a =? c); lia).
  assert (Ha : (ord a =? c) = false) by (destruct (ord a =? c); [lia|done]).
  destruct (ord a =? sep); [intros [->|Hin]%elem_of_cons; [done|by apply IH]|].
  destruct (split_byte sep s) as [|x parts] eqn:E; [by apply split_byte_nonnil in E|].
  intros [->|Hin]%elem_of_cons; [|by apply IH; [|right]]. cbn [count_byte]. rewrite Ha, (IH x); [done|done|by left].
Qed.
Lemma cutQuery_count part c : count_byte part c = 0 ->
  count_byte (cutQuery part).1 c = 0 /\ count_byte (cutQuery part).2 c = 0.
Proof.
  intros H. unfold cutQuery. destruct (index_byte part (ord "=")) as [i|] eqn:Ei; [|done].
  apply index_byte_split in Ei as (x & a & r & -> & <- & _). rewrite str_take_app, str_drop_app. cbn [fst snd].
  rewrite count_byte_app in H. cbn [count_byte] in H. pose proof (count_byte_nonneg x c). pose proof (count_byte_nonneg r c).
  destruct (ord a =? c); lia.
Qed.

(** Without a [+], the two decoders read a field alike. *)
Lemma field_decodePart part : count_byte part plus = 0 -> field part = decodePart part.
Proof.
  intros [Hk Hv]%cutQuery_count. rewrite decodePart_cut, !percentDecode_unescape, <-!QueryUnescape_plain by done.
  unfold field, Cut, cutQuery. by destruct (index_byte part (ord "=")).
Qed.
Lemma fields_decodeParts parts : (forall part, part ∈ parts -> count_byte part plus = 0) -> mapM field parts = mapM decodePart parts.
Proof.
  induction parts as [|part parts IH]; intros H; [done|]. cbn [mapM]. rewrite field_decodePart by (apply H; by left).
  destruct (decodePart part); [|done]. cbn [mbind option_bind]. rewrite IH; [done|]. intros x Hx. apply H. by right.
Qed.

(** The fields of a query, as a form's. *)
Definition formPairs (raw : string) : option (list (string * string)) :=
  if (raw =? "")%string then Some [] else mapM field (Split raw "&").
Lemma formPairs_plain raw : count_byte raw plus = 0 -> formPairs raw = decodedPairs raw.
Proof.
  intros H. unfold formPairs, decodedPairs. destruct (raw =? "")%string; [done|]. apply fields_decodeParts.
  intros part. by apply split_count.
Qed.
Lemma formPairs_canonical raw q : canonicalRawQuery raw = Good q -> formPairs q = decodedPairs q.
Proof.
  intros E. pose proof (canonicalRawQuery_spec raw) as H. destruct (decodedPairs raw) as [ps|]; [|destruct H as (e & H & _); congruence].
  rewrite E in H. injection H as ->. destruct (decide (ps = [])) as [->|Hn]; [done|].
  unfold formPairs, decodedPairs. rewrite rendered_split by done. destruct (_ =? "")%string; [done|]. apply fields_decodeParts.
  intros part (x & -> & Hx)%list_elem_of_fmap. rewrite sort_by_perm in Hx. apply list_elem_of_fmap in Hx as (p & -> & _).
  by apply renderPair_count.
Qed.

Section Forwarded.
Context `{U : UnicodeTables}.

Definition kept (p : string * string) : bool := negb (isSigningQueryKey p.1).
Lemma filter_map (ps : list (string * string)) : NoDup ps.*1 ->
  (list_to_map (List.filter kept ps) : gmap string string) =
  filter (fun kv => kept kv = true) (list_to_map ps : gmap string string).
Proof.
  induction ps as [|[k x] ps IH]; [done|]. cbn [fmap list_fmap fst List.filter]. intros [Hk Hn]%NoDup_cons.
  change (list_to_map ((k, x) :: ps) : gmap string string) with (<[k := x]> (list_to_map ps : gmap string string)).
  assert (Hnone : (list_to_map ps : gmap string string) !! k = None) by (by apply not_elem_of_list_to_map).
  destruct (kept (k, x)) eqn:E.
  - rewrite map_filter_insert_True by done. cbn [list_to_map foldr]. by rewrite <-IH.
  - rewrite map_filter_insert_not'; [|by rewrite E|intros y Hy; congruence]. by rewrite IH.
Qed.
Lemma filter_keys (ps : list (string * string)) : NoDup ps.*1 -> NoDup (List.filter kept ps).*1.
Proof.
  induction ps as [|p ps IH]; [constructor|]. cbn [fmap list_fmap List.filter]. intros [Hp Hn]%NoDup_cons.
  destruct (kept p); [|by apply IH]. cbn [fmap list_fmap]. constructor; [|by apply IH].
  intros (x & E & Hx)%list_elem_of_fmap. apply Hp. apply list_elem_of_fmap. exists x. split; [done|].
  apply list_elem_of_In, List.filter_In in Hx as [Hx _]. by apply list_elem_of_In.
Qed.

(** C13. What the upstream reads in the query is what was decided on: when the query
    has no literal [+], the forwarded query, read as a form is, has exactly the
    parameters that the decoder found, with the values it found, less the
    parameters of a signature. *)
Theorem forwarded_query_agrees (raw q : string) (l : DecodeLimits) (v : Values) :
  count_byte raw plus = 0 -> parseQueryString raw l = Ok v -> scrubAndCanonicalizeQuery raw = Good q ->
  exists pairs, formPairs q = Some pairs /\ NoDup pairs.*1 /\
    filter (fun kv => isSigningQueryKey kv.1 = false) v = (fun x => [x]) <$> (list_to_map pairs : gmap string string).
Proof.
  intros Hplus Hv Hq. destruct (decide (raw = EmptyString)) as [->|Hne].
  { injection Hv as <-. injection Hq as <-. exists []. split; [done|]. split; [constructor|]. by rewrite map_filter_empty. }
  pose proof (formPairs_plain raw Hplus) as Hraw. unfold formPairs in Hraw. rewrite (proj2 (eqb_false_str _ _) Hne) in Hraw.
  destruct (parseQueryString_fields _ _ _ Hv Hne) as (ps & Hm & Hn & -> & HF & _). rewrite Hm in Hraw.
  apply scrubQuery_spec in Hq as (Hc & qs & Hqs & _ & Hall). specialize (Hall ps (eq_sym Hraw)). cbv zeta in Hall.
  assert (Permutation qs (List.filter kept ps)) as Hp.
  { destruct Hall as [H|[_ H]]; [done|]. exfalso. assert (In ("", "")%string (List.filter kept ps)) as Hin by (unfold kept; rewrite H; by left).
    apply List.filter_In in Hin as [Hin _]. apply list_elem_of_In in Hin. rewrite Forall_forall in HF. by apply HF in Hin as []. }
  exists qs. rewrite (formPairs_canonical _ _ Hc). split; [done|].
  assert (NoDup qs.*1) as Hnq by (rewrite Hp; by apply filter_keys). split; [done|].
  rewrite (list_to_map_proper qs (List.filter kept ps)) by done. rewrite filter_map by done.
  symmetry. apply map_eq. intros k. rewrite lookup_fmap, !map_lookup_filter, lookup_fmap.
  destruct (list_to_map ps !! k) as [x|]; [|done]. cbn [fmap option_fmap mbind option_bind]. unfold kept. cbn [fst].
  destruct (isSigningQueryKey k); cbn [negb]; by rewrite ?option_guard_False, ?option_guard_True by done.
Qed.
End Forwarded.

#[local] Instance sample_tables : UnicodeTables := ascii_tables.
Definition sampleQuery : string := "prefix=a%20b&X-Amz-Date=1&list-type=2".
Definition sampleForwarded : string := "list-type=2&prefix=a%20b".
Definition sampleValues : Values := list_to_map [("prefix", ["a b"]); ("X-Amz-Date", ["1"]); ("list-type", ["2"])]%string.
Lemma forwarded_query_agrees_witness :
  exists pairs, formPairs sampleForwarded = Some pairs /\ NoDup pairs.*1 /\
    filter (fun kv => isSigningQueryKey kv.1 = false) sampleValues = (fun x => [x]) <$> (list_to_map pairs : gmap string string).
Proof.
  apply (forwarded_query_agrees sampleQuery sampleForwarded DefaultDecodeLimits sampleValues); vm_compute; reflexivity.
Defined.

(** A literal [+] is a space to the decoder and a plus to the re-signer: what is
    decided on is not what the upstream is sent. *)
Example plus_disagrees :
  parseQueryString "prefix=a+b" DefaultDecodeLimits = Ok {["prefix"%string := ["a b"%string]]} /\
  scrubAndCanonicalizeQuery "prefix=a+b" = Good "prefix=a%2Bb"%string /\
  parseQueryString "prefix=a%2Bb" DefaultDecodeLimits = Ok {["prefix"%string := ["a+b"%string]]}.
Proof. split_and!; vm_compute; reflexivity. Qed.
End DecoderForward.
