(* ===== verification/Adapter.v ===== *)
(** * The wire lookup (iammap/iamliveadapter: adapter.go, types.go)

    From a decoded operation and the wire identity of its request to the IAM
    actions it needs: the one record of the catalog that the identity selects, the
    conditions of its mappings evaluated on the request's parameters, its primary
    actions and its dependencies.  The catalog is the interface the Go code calls
    ([OperationOccurrences]); the failures, [FindContext] and what the mapper
    reads of the result are in [IamMapper]. *)

From Stdlib Require Import ZArith Lia Ascii.
From stdpp Require Import base gmap strings list.
From S2P Require Import Prelude GoStrings GoEncoding.
From S2P Require Import AwsTypes.
From S2P Require Import CatalogTypes.
From S2P Require Import IamMapper.
From S2P Require Import WireIndex.
From S2P Require Import RestRoute.
From S2P Require Import Decoder.

Module Adapter.
Import AwsTypes.AwsTypes WireIndex.WireIndex RestRoute.RestRoute CatalogTypes.CatalogTypes.
Abbreviation CatAction := IamMapper.IamMapper.CatAction.
Abbreviation gerr := IamMapper.IamMapper.gerr.
Abbreviation GFailure := IamMapper.IamMapper.GFailure.
Abbreviation GCtx := IamMapper.IamMapper.GCtx.
Abbreviation WireIdentity := IamMapper.IamMapper.WireIdentity.
Abbreviation Applicability := IamMapper.IamMapper.Applicability.
Abbreviation cancelledAt := IamMapper.IamMapper.cancelledAt.
Abbreviation FindContext := IamMapper.IamMapper.FindContext.

(** A Go map of parameters, in an order of iteration. *)
Abbreviation Params := (list (string * Value)).

Record Adapter := mkAdapter { OperationOccurrences : string -> string -> list OperationOccurrence }.

(** ** types.go *)

Record PrimaryOccurrence := mkPrimary {
  p_ID : Z; p_OperationID : Z; p_DefinitionID : Z; p_Operation : string; p_Action : CatAction;
  p_Mapping : ActionMapping; p_Definition : ActionDefinition; p_ResourceType : string;
  ResourceTypeOccurrence : Z; p_Scope : string; DefinitionDependencies : list string;
}.
Record DependencyOccurrence := mkDependency {
  d_ID : Z; d_OperationID : Z; d_DefinitionID : Z; DefinitionEdgeID : Z; MappingID : Z; dep_Action : CatAction;
  dep_Resources : list string; ParameterNames : list string; dep_Applicability : Applicability;
}.
Record LookupResult := mkLookup {
  lk_Operation : string; PrimaryOccurrences : list PrimaryOccurrence; DependencyOccurrences : list DependencyOccurrence;
}.
Definition noLookup : LookupResult := mkLookup EmptyString [] [].
(** What the mapper reads of it. *)
Definition mapperView (r : LookupResult) : IamMapper.IamMapper.LookupResult :=
  IamMapper.IamMapper.mkLookup (lk_Operation r)
    ((fun p => IamMapper.IamMapper.mkPrimary (p_Operation p) (p_Action p) (p_ResourceType p) (p_Scope p) (DefinitionDependencies p))
       <$> PrimaryOccurrences r)
    ((fun d => IamMapper.IamMapper.mkDependency (dep_Action d) (dep_Resources d) (ParameterNames d) (dep_Applicability d))
       <$> DependencyOccurrences r).

(** Values, presence and validity. *)
Abbreviation pathResult := (list string * bool * bool)%type.

Section Lookup.
Context `{U : UnicodeTables}.
Notation L A := (G (LookupResult * option gerr) A).

Definition NormalizeOperation (operation : string) : string :=
  let operation := TrimSpace operation in
  if (operation =? "")%string then EmptyString
  else if existsb (fun r => negb (IsLetter r) && negb (IsDigit r)) (runes operation) then EmptyString
  else operation.

Definition uniqueStringsContext (ctx : context) (values : list string) : nat -> list string * nat :=
  grun (s ← grange values (fun value (s : list string * list string) =>
              _ ← poll ctx (fun _ => []);
              let '(seen, out) := s in
              let key := ToLower value in
              if negb (value =? "")%string && negb (mem_str key seen) then mret (key :: seen, out ++ [value]) else mret s) ([], []);
        mret s.2).

(** The names of [${...}] in a template; each turn of the loop drops a part of
    the template, so its length bounds the turns. *)
Fixpoint namesLoop (fuel : nat) (ctx : context) (template : string) (out : list string) : G (list string) (list string) :=
  match fuel with
  | O => mret out
  | S fuel =>
    _ ← poll ctx (fun _ => []);
    match Index template "${" with
    | None => mret out
    | Some i =>
      let template := str_drop (i + 2) template in
      match index_byte template (ord "}") with
      | None => mret out
      | Some j =>
        let name := str_take j template in
        let name := match LastIndexAny name ".[]" with Some k => str_drop (S k) name | None => name end in
        namesLoop fuel ctx (str_drop (S j) template) (if (name =? "")%string then out else out ++ [name])
      end
    end
  end.
Definition templateNames (ctx : context) (template : string) : nat -> list string * nat :=
  grun (out ← namesLoop (S (String.length template)) ctx template []; call (uniqueStringsContext ctx out)).
Definition templateValues (ctx : context) (template : string) (parameters : Params) : nat -> list string * nat :=
  grun (names ← call (templateNames ctx template);
        grange names (fun name out =>
          _ ← poll ctx (fun _ => []);
          found ← call (FindContext ctx parameters [name]); mret (out ++ found)) []).

Definition resourceTemplatesContext (ctx : context) (mapping : ActionMapping) : nat -> list string * nat :=
  grun (out ← grange (m_Resources mapping) (fun r out => _ ← poll ctx (fun _ => []); mret (out ++ [Template r])) [];
        grange (ConditionMappings mapping) (fun r out => _ ← poll ctx (fun _ => []); mret (out ++ [Template r.2])) out).
Definition defaultParameterNames : list string := ["Role"; "RoleArn"; "TaskRoleArn"; "ExecutionRoleArn"; "IamRoleArn"].
Definition dependencyParameterNames (ctx : context) (mapping : ActionMapping) : nat -> list string * nat :=
  grun (templates ← call (resourceTemplatesContext ctx mapping);
        names ← grange (ARNOverride mapping :: templates) (fun template names =>
                  _ ← poll ctx (fun _ => []); ns ← call (templateNames ctx template); mret (names ++ ns)) [];
        call (uniqueStringsContext ctx (match names with [] => defaultParameterNames | _ => names end))).

(** ** Conditions *)

Definition invalidPath : pathResult := ([], false, false).
Definition absentPath : pathResult := ([], false, true).
Definition pollPath (ctx : context) : G pathResult unit := poll ctx (fun _ => invalidPath).
(** One part: the values under a name in every parent, each of which is an object. *)
Definition children (ctx : context) (name : string) (current : list Value) : G pathResult (list Value) :=
  grange current (fun parent next =>
    _ ← pollPath ctx;
    if negb (Kind parent =? ValueObject)%string then greturn invalidPath
    else grange (ObjectV parent) (fun kv next =>
           _ ← pollPath ctx; mret (if EqualFold kv.1 name then next ++ [kv.2] else next)) next) [].
Definition expand (ctx : context) (values : list Value) : G pathResult (list Value) :=
  grange values (fun value expanded =>
    _ ← pollPath ctx;
    if negb (Kind value =? ValueArray)%string then greturn invalidPath else mret (expanded ++ ArrayV value)) [].
Definition strings_of (ctx : context) (values : list Value) : G pathResult (list string) :=
  grange values (fun value out =>
    _ ← pollPath ctx;
    if negb (Kind value =? ValueString)%string then greturn invalidPath else mret (out ++ [StringV value])) [].
Fixpoint pathLoop (ctx : context) (parts : list string) (current : list Value) : G pathResult pathResult :=
  match parts with
  | [] => greturn absentPath
  | part :: parts =>
    _ ← pollPath ctx;
    next ← children ctx (TrimSuffix part "[]") current;
    if (List.length next =? 0)%nat then greturn absentPath
    else
      next ← (if HasSuffix part "[]" then expand ctx next else mret next);
      match parts with
      | [] => out ← strings_of ctx next; greturn (out, negb (List.length out =? 0)%nat, true)
      | _ => pathLoop ctx parts next
      end
  end.
Definition pathValues (ctx : context) (root : Params) (path : string) (n : nat) : pathResult * nat :=
  if (path =? "")%string then (invalidPath, n)
  else grun (pathLoop ctx (Split path ".") [vobject root]) n.

Fixpoint anyString (ctx : context) (values : list string) (predicate : string -> bool) (n : nat) : bool * nat :=
  match values with
  | [] => (false, n)
  | v :: values =>
    if cancelledAt ctx n then (false, S n) else if predicate v then (true, S n) else anyString ctx values predicate (S n)
  end.

Inductive conditionState := conditionUnknown | conditionFalse | conditionTrue.
#[export] Instance conditionState_eq_dec : EqDecision conditionState.
Proof. solve_decision. Defined.

(** The test an operator makes of a value; whether it is negated. *)
Definition operator (op rhs : string) : option ((string -> bool) * bool) :=
  if (op =? "equals")%string then Some (String.eqb rhs, false)
  else if (op =? "notequals")%string then Some (String.eqb rhs, true)
  else if (op =? "contains")%string then Some (fun v => Contains v rhs, false)
  else if (op =? "icontains")%string then Some (fun v => Contains (ToLower v) (ToLower rhs), false)
  else if (op =? "startswith")%string then Some (fun v => HasPrefix v rhs, false)
  else if (op =? "notstartswith")%string then Some (fun v => HasPrefix v rhs, true)
  else None.
Definition compare (ctx : context) (op rhs : string) (values : list string) (present : bool) : G conditionState bool :=
  if (op =? "exists")%string then mret present
  else if (op =? "notexists")%string then mret (negb present)
  else match operator op rhs with
  | None => greturn conditionUnknown
  | Some (predicate, negated) =>
    found ← (if present then call (anyString ctx values predicate) else mret false); mret (xorb negated found)
  end.
Definition stateOf (b : bool) : conditionState := if b then conditionTrue else conditionFalse.
Fixpoint evaluateCondition (ctx : context) (condition : Condition) (parameters : Params) (n : nat) : conditionState * nat :=
  match condition with
  | mkCondition lhs op rhs next =>
    grun (_ ← poll ctx (fun _ => conditionUnknown);
          r ← call (pathValues ctx parameters lhs);
          let '(values, present, valid) := r : pathResult in
          if negb valid then greturn conditionUnknown
          else
            result ← compare ctx (ToLower op) rhs values present;
            match next with
            | None => mret (stateOf result)
            | Some next =>
              right ← call (evaluateCondition ctx next parameters);
              mret (match right with
                    | conditionUnknown => conditionUnknown
                    | conditionFalse => conditionFalse
                    | conditionTrue => stateOf result
                    end)
            end) n
  end.

(** ** Dependencies *)

Inductive dependencyState := dependencyUnknown | dependencyFalse | dependencyTrue.

(** The closure [walk] of [invalidNamedValueContext], on the object it is given. *)
Fixpoint invalidWalk (ctx : context) (wanted : list string) (v : Value) (depth : Z) (n : nat) : bool * nat :=
  if 16 <? depth then (true, n)
  else
    match v with
    | mkValue _ _ _ _ _ entries _ =>
      (fix loop (m : list (string * Value)) (n : nat) : bool * nat :=
         match m with
         | [] => (false, n)
         | (key, value) :: m =>
           if cancelledAt ctx n then (true, S n)
           else if mem_str (ToLower key) wanted && negb (Kind value =? ValueString)%string then (true, S n)
           else
             let (bad, n) := if (Kind value =? ValueObject)%string then invalidWalk ctx wanted value (depth + 1) (S n) else (false, S n) in
             if bad then (true, n)
             else
               let (bad, n) :=
                 if (Kind value =? ValueArray)%string then
                   match value with
                   | mkValue _ _ _ _ _ _ items =>
                     (fix inner (a : list Value) (n : nat) : bool * nat :=
                        match a with
                        | [] => (false, n)
                        | item :: a =>
                          let (bad, n) := if (Kind item =? ValueObject)%string then invalidWalk ctx wanted item (depth + 1) n else (false, n) in
                          if bad then (true, n) else inner a n
                        end) items n
                   end
                 else (false, n) in
               if bad then (true, n) else loop m n
         end) entries n
    end.
Definition invalidNamedValueContext (ctx : context) (parameters : Params) (names : list string) (n : nat) : bool * nat :=
  invalidWalk ctx (ToLower <$> names) (vobject parameters) 0 n.

Definition dependencyValues (ctx : context) (mapping : ActionMapping) (parameters : Params)
  : nat -> list string * dependencyState * nat :=
  let unknown := ([], dependencyUnknown) in
  let pollD := poll ctx (fun _ => unknown) in
  grun (_ ← pollD;
        state ← match m_Condition mapping with
                | None => mret conditionTrue
                | Some condition => call (evaluateCondition ctx condition parameters)
                end;
        match state with
        | conditionFalse => greturn ([], dependencyFalse)
        | conditionUnknown => greturn unknown
        | conditionTrue =>
          names ← call (dependencyParameterNames ctx mapping);
          _ ← pollD;
          values ← (if negb (ARNOverride mapping =? "")%string
                    then call (templateValues ctx (ARNOverride mapping) parameters)
                    else
                      templates ← call (resourceTemplatesContext ctx mapping);
                      grange templates (fun template values =>
                        _ ← pollD; vs ← call (templateValues ctx template parameters); mret (values ++ vs)) []);
          let decided : list string * dependencyState :=
            if (List.length values =? 0)%nat then unknown else (values, dependencyTrue) in
          if Contains (ToLower (ARNOverride mapping)) "iftruthy" then
            invalid ← call (invalidNamedValueContext ctx parameters names);
            if (invalid : bool) then greturn unknown
            else
              found ← call (FindContext ctx parameters names);
              if (List.length found =? 0)%nat then greturn ([], dependencyFalse) else greturn decided
          else greturn decided
        end).

(** ** Entries (data/version.go: Entry) *)

Record Entry := mkEntry {
  e_Service : string; e_Operation : string; e_Action : string; Resource : string; e_Scope : string; Dependencies : list string;
}.
Definition resourceMatched (params : list string) (name : string) : bool :=
  let n := ToLower (TrimSuffix name "*") in
  let has p := mem_str p params in
  ((n =? "object")%string && (has "key" || has "objectname")) ||
  ((n =? "table")%string && has "tablename") ||
  ((n =? "task-definition")%string && (has "taskdefinition" || has "taskdefinitionfamilyname")) ||
  ((n =? "log-stream")%string && (has "logstreamname" || has "loggroupname")).
Definition entryForAction (action : CatAction) (definition : ActionDefinition) (operation : string) (mapping : ActionMapping) : Entry :=
  let resources := def_Resources definition in
  let deps := r ← resources; DependentActions r in
  let named := List.filter (fun name => negb (name =? "")%string) (rt_Name <$> resources) in
  let entry resource scope :=
    mkEntry (ToLower (act_Service action)) operation (act_Service action ++ ":" ++ act_Name action) resource scope deps in
  if EqualFold (act_Service action) "dynamodb" && (operation =? "BatchExecuteStatement")%string &&
     bool_decide (is_Some (m_Condition mapping))
  then entry "table*" "exact"
  else match named with
  | [name] => entry name "exact"
  | _ :: _ :: _ =>
    let params := (fun r => ToLower (rm_Parameter r)) <$> m_Resources mapping in
    match List.filter (resourceMatched params) named with
    | [name] => entry name "exact"
    | _ => entry "global" "unresolved"
    end
  | [] => if (1 <? List.length resources)%nat then entry "global" "unresolved" else entry "global" "known_global"
  end.

(** [uint32(index + 1)] of the first resource of that name. *)
Definition u32 (z : Z) : Z := z mod 2 ^ 32.
Definition bareName (s : string) : string := TrimSuffix (ToLower (TrimSpace s)) "*".
Fixpoint firstNamed (resources : list ResourceTypeDef) (want : string) (index : Z) : option Z :=
  match resources with
  | [] => None
  | candidate :: resources =>
    if negb (want =? "")%string && (bareName (rt_Name candidate) =? want)%string then Some (u32 (index + 1))
    else firstNamed resources want (index + 1)
  end.
Definition resourceTypeOccurrence (definition : ActionDefinition) (resource : string) : Z :=
  match firstNamed (def_Resources definition) (bareName resource) 0 with
  | Some i => i
  | None => if (List.length (def_Resources definition) =? 1)%nat then 1 else 0
  end.

(** ** One operation *)

Definition adapterFailure (kind : Z) : gerr := GFailure kind false EmptyString None.
Definition adapterStaticFailure (kind : Z) (detail : string) : gerr := GFailure kind true detail None.
Definition FailureUnknownWireOperation : Z := IamMapper.IamMapper.FailureUnknownWireOperation.
Definition FailureAmbiguousWireOperation : Z := IamMapper.IamMapper.FailureAmbiguousWireOperation.
Definition FailureIncompleteWireIdentity : Z := IamMapper.IamMapper.FailureIncompleteWireIdentity.
Definition FailureCatalogInconsistency : Z := IamMapper.IamMapper.FailureCatalogInconsistency.
Definition FailureUnresolvedApplicability : Z := IamMapper.IamMapper.FailureUnresolvedApplicability.
Definition FailureUnresolvedDependency : Z := IamMapper.IamMapper.FailureUnresolvedDependency.

Fixpoint runtimePlanFailure (diagnostics : list ValidationDiagnostic) : Z * string :=
  match diagnostics with
  | [] => (FailureCatalogInconsistency, EmptyString)
  | d :: diagnostics =>
    if (d_Detail d =? "missing dependent action mapping occurrence")%string || negb (RelatedAction d =? "")%string
    then (FailureUnresolvedDependency, d_Action d)
    else if (d_Detail d =? "mapping has no primary action")%string then (FailureUnresolvedApplicability, EmptyString)
    else runtimePlanFailure diagnostics
  end.

Definition refuse (e : gerr) : LookupResult * option gerr := (noLookup, Some e).
Definition pollL (ctx : context) : L unit := poll ctx (fun e => refuse (GCtx e)).

Record mappingRecord := mkRecord {
  mr_id : Z; mr_definitionID : Z; mr_action : CatAction; mr_definition : ActionDefinition; mr_mapping : ActionMapping;
  inapplicable : bool; dependent : bool;
}.
(** The records so far, the definition identities, the next of them and the index. *)
Definition recordState : Type := list mappingRecord * gmap string Z * Z * Z.
Definition nul : string := String (chr 0) EmptyString.
Definition recordStep (ctx : context) (parameters : Params) (compiled : StaticMapping) (s : recordState) : L recordState :=
  let '(records, definitionIDs, next, index) := s in
  _ ← pollL ctx;
  let action := s_Action compiled in
  if (act_Service action =? "")%string || (act_Name action =? "")%string
  then greturn (refuse (adapterFailure FailureCatalogInconsistency))
  else
    state ← match m_Condition (s_Mapping compiled) with
            | None => mret conditionTrue
            | Some condition => call (evaluateCondition ctx condition parameters)
            end;
    if bool_decide (state = conditionUnknown) then greturn (refuse (adapterFailure FailureUnresolvedApplicability))
    else
      let id := if Occurrence compiled =? 0 then u32 (index + 1) else Occurrence compiled in
      let key := (ToLower (act_Service action) ++ nul ++ ToLower (act_Name action))%string in
      let known := default 0 (definitionIDs !! key) in
      let '(definitionID, next, definitionIDs) :=
        if known =? 0 then (next, u32 (next + 1), <[key := next]> definitionIDs) else (known, next, definitionIDs) in
      mret (records ++ [mkRecord id definitionID action (s_Definition compiled) (s_Mapping compiled)
                          (bool_decide (state = conditionFalse)) (s_Dependent compiled)],
            definitionIDs, next, index + 1).
Definition isRoot (r : mappingRecord) : bool := negb (dependent r) && negb (inapplicable r).

(** The addresses of the definition edges of the roots. *)
Definition edgeState : Type := gmap string (list Z) * Z.
Definition addEdge (s : edgeState) (dependency : string) : edgeState :=
  let (edges, next) := s in (appendTo edges (ToLower dependency) next, u32 (next + 1)).
Definition edgeStep (ctx : context) (root : mappingRecord) (s : edgeState) : L edgeState :=
  _ ← pollL ctx;
  grange (def_Resources (mr_definition root)) (fun resource s =>
    _ ← pollL ctx; mret (fold_left addEdge (DependentActions resource) s)) s.

Definition primaryOf (service : string) (operation : Operation) (operationID : Z) (root : mappingRecord) : PrimaryOccurrence :=
  let name := o_Name operation in
  let entry := entryForAction (mr_action root) (mr_definition root) name (mr_mapping root) in
  mkPrimary (mr_id root) operationID (mr_definitionID root) name (mr_action root) (ActionMapping_Clone (mr_mapping root)) (mr_definition root)
    (Resource entry) (resourceTypeOccurrence (mr_definition root) (Resource entry)) (e_Scope entry) (Dependencies entry).

(** Applicability and resources of a dependent record. *)
Definition decideDependency (ctx : context) (parameters : Params) (record : mappingRecord) : L (list string * Applicability) :=
  if inapplicable record then mret ([], IamMapper.IamMapper.ApplicabilityInapplicable)
  else
    r ← call (dependencyValues ctx (mr_mapping record) parameters);
    _ ← pollL ctx;
    let '(values, state) := r : list string * dependencyState in
    mret (match state with
          | dependencyFalse => ([], IamMapper.IamMapper.ApplicabilityInapplicable)
          | dependencyUnknown => ([], IamMapper.IamMapper.ApplicabilityUnknown)
          | dependencyTrue =>
            if (List.length values =? 0)%nat then ([], IamMapper.IamMapper.ApplicabilityUnknown)
            else (values, IamMapper.IamMapper.ApplicabilityApplicable)
          end).
(** The occurrences so far, the edges used per action, and the next address. *)
Definition dependentState : Type := list DependencyOccurrence * gmap string nat * Z.
Definition dependentStep (ctx : context) (parameters : Params) (operationID : Z) (edges : gmap string (list Z))
    (record : mappingRecord) (s : dependentState) : L dependentState :=
  _ ← pollL ctx;
  if negb (dependent record) then mret s
  else
    let '(out, used, next) := s in
    parameterNames ← call (dependencyParameterNames ctx (mr_mapping record));
    _ ← pollL ctx;
    let key := (ToLower (act_Service (mr_action record)) ++ ":" ++ ToLower (act_Name (mr_action record)))%string in
    let index := default 0%nat (used !! key) in
    let '(edgeID, used) := match bucket edges key !! index with
                           | Some edge => (edge, <[key := S index]> used)
                           | None => (0, used)
                           end in
    let '(edgeID, next) := if edgeID =? 0 then (next, u32 (next + 1)) else (edgeID, next) in
    d ← decideDependency ctx parameters record;
    mret (out ++ [mkDependency (mr_id record) operationID (mr_definitionID record) edgeID (mr_id record) (mr_action record)
                    d.1 parameterNames d.2], used, next).

Definition lookupOperationContext (ctx : context) (service : string) (operation : Operation) (plan : StaticPlan)
    (parameters : Params) : nat -> LookupResult * option gerr * nat :=
  grun (_ ← pollL ctx;
        if negb (Plan_Valid plan) then
          let (kind, detail) := runtimePlanFailure (Diagnostics plan) in greturn (refuse (adapterStaticFailure kind detail))
        else if negb (o_State operation =? EvidenceKnown)%string || negb (MappingState operation =? EvidenceKnown)%string ||
                (List.length (pl_Mappings plan) =? 0)%nat
        then greturn (refuse (adapterFailure FailureCatalogInconsistency))
        else
          rs ← grange (pl_Mappings plan) (recordStep ctx parameters) (([], ∅, 1, 0) : recordState);
          let records := rs.1.1.1 in
          let roots := List.filter isRoot records in
          if (List.length roots =? 0)%nat then greturn (refuse (adapterFailure FailureUnresolvedApplicability))
          else
            es ← grange roots (edgeStep ctx) ((∅, 1) : edgeState);
            let operationID := if pl_Occurrence plan =? 0 then 1 else pl_Occurrence plan in
            primaries ← grange roots (fun root out => _ ← pollL ctx; mret (out ++ [primaryOf service operation operationID root])) [];
            ds ← grange records (dependentStep ctx parameters operationID es.1) (([], ∅, es.2) : dependentState);
            greturn (mkLookup (o_Name operation) primaries ds.1.1, None)).

(** ** Wire selection *)

Definition recordProtocol (protocol version : string) : option string :=
  if (protocol =? "query")%string then Some ProtocolQuery
  else if (protocol =? "ec2")%string then Some ProtocolEC2Query
  else if (protocol =? "rest-json")%string then Some ProtocolRESTJSON
  else if (protocol =? "rest-xml")%string then Some ProtocolRESTXML
  else if (protocol =? "json")%string then
    if (version =? "1.0")%string then Some ProtocolJSON10
    else if (version =? "1.1")%string then Some ProtocolJSON11 else None
  else None.
Definition jsonVersion (p : string) : string := if (p =? ProtocolJSON10)%string then "1.0" else "1.1".
Definition routeMatches (record : Operation) (service : WireService) (operation : string) (id : WireIdentity) : bool :=
  let protocol := IamMapper.IamMapper.w_Protocol id in
  let q := IamMapper.IamMapper.w_Query id in
  if negb (EqualFold (r_Method (o_Route record)) (IamMapper.IamMapper.w_Method id)) then false
  else if isQuery protocol then
    match q !! "Action"%string, q !! "Version"%string with
    | Some [action], Some [version] => (action =? operation)%string && (version =? APIVersion service)%string
    | _, _ => false
    end
  else if isJSON protocol then
    match Split (IamMapper.IamMapper.w_Target id) "." with
    | [prefix; name] =>
      negb (prefix =? "")%string && negb (name =? "")%string && (prefix =? TargetPrefix service)%string &&
      (name =? operation)%string && (r_TargetPrefix (o_Route record) =? prefix)%string &&
      (JSONVersion (o_Route record) =? jsonVersion protocol)%string
    | _ => false
    end
  else if isREST protocol then
    match MatchRESTRoute (URI (o_Route record)) (IamMapper.IamMapper.w_Path id) q (o_QueryBindings record)
            Decoder.Decoder.DefaultDecodeLimits with
    | Ok (Some _) => true
    | _ => false
    end
  else false.
Definition selects (op : string) (identity : WireIdentity) (occurrence : OperationOccurrence) : bool :=
  let record := oc_Operation occurrence in
  (o_State record =? EvidenceKnown)%string &&
  bool_decide (recordProtocol (ws_Protocol (oc_Service occurrence)) (JSONVersion (o_Route record)) =
               Some (IamMapper.IamMapper.w_Protocol identity)) &&
  routeMatches record (oc_Service occurrence) op identity.

(** [LookupRequestContext]; a nil context is [Background]. *)
Definition LookupRequestContext (a : option Adapter) (c : option context) (service operation : string)
    (identity : WireIdentity) (parameters : Params) : nat -> LookupResult * option gerr * nat :=
  let ctx := ctxOf c in
  grun (_ ← pollL ctx;
        match a with
        | None => greturn (refuse (adapterFailure FailureCatalogInconsistency))
        | Some a =>
          let op := NormalizeOperation operation in
          if (op =? "")%string || negb (protocolSupported (IamMapper.IamMapper.w_Protocol identity)) ||
             (TrimSpace (IamMapper.IamMapper.w_Method identity) =? "")%string || (IamMapper.IamMapper.w_Path identity =? "")%string
          then greturn (refuse (adapterFailure FailureIncompleteWireIdentity))
          else
            selected ← grange (OperationOccurrences a service op) (fun occurrence selected =>
                         _ ← pollL ctx; mret (if selects op identity occurrence then selected ++ [occurrence] else selected)) [];
            match selected with
            | [occurrence] => call (lookupOperationContext ctx service (oc_Operation occurrence) (Plan occurrence) parameters)
            | [] => greturn (refuse (adapterFailure FailureUnknownWireOperation))
            | _ => greturn (refuse (adapterFailure FailureAmbiguousWireOperation))
            end
        end).
Definition LookupRequest (a : option Adapter) (service operation : string) (identity : WireIdentity) (parameters : Params)
  : LookupResult * option gerr :=
  (LookupRequestContext a (Some Background) service operation identity parameters 0%nat).1.

(** [Lookup]: by name only, with at most one set of parameters. *)
Definition Lookup (a : option Adapter) (service operation : string) (parameters : list Params) : LookupResult * option gerr :=
  match a with
  | None => refuse (adapterFailure FailureCatalogInconsistency)
  | Some a =>
    if (1 <? List.length parameters)%nat then refuse (adapterFailure FailureIncompleteWireIdentity)
    else
      let op := NormalizeOperation operation in
      if (op =? "")%string then refuse (adapterFailure FailureUnknownWireOperation)
      else match OperationOccurrences a service op with
      | [] => refuse (adapterFailure FailureUnknownWireOperation)
      | [occurrence] =>
        (lookupOperationContext Background service (oc_Operation occurrence) (Plan occurrence) (hd [] parameters) 0%nat).1
      | _ => refuse (adapterFailure FailureAmbiguousWireOperation)
      end
  end.
Definition LookupOperation (a : option Adapter) (service operation : string) : option (string * Entry) * option gerr :=
  let (result, err) := Lookup a service operation [] in
  match err with
  | Some err => (None, Some err)
  | None =>
    match PrimaryOccurrences result with
    | [] => (None, Some (adapterFailure FailureCatalogInconsistency))
    | p :: _ =>
      let e := entryForAction (p_Action p) (p_Definition p) (lk_Operation result) (p_Mapping p) in
      (Some (lk_Operation result, mkEntry (ToLower service) (e_Operation e) (e_Action e) (p_ResourceType p) (p_Scope p) (Dependencies e)),
       None)
    end
  end.
End Lookup.
End Adapter.
