(* ===== verification/AdapterSoundness.v ===== *)
(** * What the wire lookup promises

    Theorems on [Adapter.LookupRequestContext]: which record is selected, and what
    its primary and dependent occurrences are. *)

From Stdlib Require Import ZArith Lia Ascii.
From stdpp Require Import base gmap strings list.
From S2P Require Import Prelude GoStrings GoEncoding.
From S2P Require Import AwsTypes.
From S2P Require Import CatalogTypes.
From S2P Require Import IamMapper.
From S2P Require Import WireIndex.
From S2P Require Import RestRoute.
From S2P Require Import Adapter.

Module AdapterSoundness.
Import AwsTypes.AwsTypes WireIndex.WireIndex RestRoute.RestRoute CatalogTypes.CatalogTypes Adapter.Adapter.

(** ** Polls *)

Section Steady.
Context `{U : UnicodeTables}.

Lemma steady_cancelledAt {X} (x : X) (m : context -> nat -> X * nat) : steady m ->
  steady (fun c n => if cancelledAt c n then (x, S n) else m c (S n)).
Proof.
  intros Hm. eapply steady_ext; [|exact (steady_check (fun _ => x) m Hm)]. intros c n.
  unfold IamMapper.IamMapper.cancelledAt. destruct (c n); [by rewrite bool_decide_true by eauto|]. rewrite bool_decide_false; [done|]. by intros [? ?].
Qed.
Lemma steady_anyString values p : steady (fun c => anyString c values p).
Proof.
  induction values as [|v values IH]; [apply steady_const|]. cbn [anyString].
  apply (steady_cancelledAt false (fun c n => if p v then (true, n) else anyString c values p n)).
  destruct (p v); [apply steady_const|exact IH].
Qed.
Lemma steady_uniqueStrings values : steady (fun c => uniqueStringsContext c values).
Proof. unfold uniqueStringsContext. steadily. Qed.
Hint Resolve steady_anyString steady_uniqueStrings : kordn.
Lemma steady_namesLoop fuel : forall template out, steady (fun c => namesLoop fuel c template out).
Proof. induction fuel as [|fuel IH]; intros template out; cbn [namesLoop]; steadily. Qed.
Hint Resolve steady_namesLoop : kordn.
Lemma steady_templateNames template : steady (fun c => templateNames c template).
Proof. unfold templateNames. steadily. Qed.
Hint Resolve steady_templateNames : kordn.
Lemma steady_resourceTemplates mapping : steady (fun c => resourceTemplatesContext c mapping).
Proof. unfold resourceTemplatesContext. steadily. Qed.
Hint Resolve steady_resourceTemplates : kordn.
Lemma steady_parameterNames mapping : steady (fun c => dependencyParameterNames c mapping).
Proof. unfold dependencyParameterNames. steadily. Qed.
Hint Resolve steady_parameterNames : kordn.

(** Induction that reaches the entries of an array's objects. *)
Lemma value_ind_deep (P : Value -> Prop) :
  (forall v, (forall k x, (k, x) ∈ ObjectV v -> P x) ->
     (forall x, x ∈ ArrayV v -> forall k y, (k, y) ∈ ObjectV x -> P y) -> P v) ->
  forall v, P v.
Proof.
  intros HP v. assert (H : P v /\ forall k x, (k, x) ∈ ObjectV v -> P x); [|by destruct H].
  induction v as [v IHo IHa] using value_ind. assert (Ho : forall k x, (k, x) ∈ ObjectV v -> P x) by (intros k x Hin; by apply (IHo k x)).
  split; [|done]. apply HP; [done|]. intros x Hx. by apply (IHa x).
Qed.

(** Loops over a list that thread a state through their calls. *)
Lemma steady_loop {A S} (step : context -> A -> S * nat -> S * nat) (l : list A) :
  (forall a s, a ∈ l -> steady (fun c n => step c a (s, n))) ->
  forall s, steady (fun c n => fold_left (fun st a => step c a st) l (s, n)).
Proof.
  induction l as [|a l IH]; intros Hs s; [apply steady_const|]. cbn [fold_left].
  eapply steady_ext; [|refine (steady_seq (fun c n => step c a (s, n)) (fun c s n => fold_left (fun st a => step c a st) l (s, n)) _ _)].
  - intros c n. cbn. by destruct (step c a (s, n)).
  - apply Hs. by left.
  - intros s'. apply IH. intros a' s'' Ha. apply Hs. by right.
Qed.

Definition findEntriesOf (c : context) (want : list string) (depth : Z) (o : list (string * Value)) (s : list string * nat) : list string * nat :=
  fold_left (fun s kv => IamMapper.IamMapper.findWalk c want kv.1 kv.2 (depth + 1) s) o s.
Fixpoint findItems (c : context) (want : list string) (depth : Z) (a : list Value) (s : list string * nat) : list string * nat :=
  match a with
  | [] => s
  | item :: a =>
    let '(out, n) := s in
    if cancelledAt c n then (out, S n)
    else findItems c want depth a (if (Kind item =? ValueObject)%string then findEntriesOf c want depth (ObjectV item) (out, S n) else (out, S n))
  end.
Lemma findWalk_unfold c want key v depth out n : IamMapper.IamMapper.findWalk c want key v depth (out, n) =
  if cancelledAt c n then (out, S n)
  else if 16 <? depth then (out, S n)
  else
    let out := if (Kind v =? ValueString)%string && mem_str (ToLower key) want && negb (StringV v =? "")%string
               then out ++ [StringV v] else out in
    let s := if (Kind v =? ValueObject)%string then findEntriesOf c want depth (ObjectV v) (out, S n) else (out, S n) in
    if (Kind v =? ValueArray)%string then findItems c want depth (ArrayV v) s else s.
Proof.
  destruct v as [k s b i f o a]. cbn [IamMapper.IamMapper.findWalk Kind StringV ObjectV ArrayV].
  destruct (cancelledAt c n); [done|]. destruct (16 <? depth); [done|].
  set (out' := if _ && _ && _ then _ else _). clearbody out'. cbv zeta.
  assert (He : forall m s, (fix entries (m : list (string * Value)) (s : list string * nat) :=
         match m with [] => s | (k, x) :: m => entries m (IamMapper.IamMapper.findWalk c want k x (depth + 1) s) end) m s =
       findEntriesOf c want depth m s).
  { induction m as [|[k' x] m IH]; intros st; [done|]. unfold findEntriesOf in *. cbn [fold_left fst snd]. by rewrite <-IH. }
  rewrite He. destruct (k =? ValueArray)%string; [|done].
  generalize (if (k =? ValueObject)%string then findEntriesOf c want depth o (out', S n) else (out', S n)). clear out'.
  induction a as [|item a IH]; intros [o' n']; [done|]. cbn [findItems].
  destruct (cancelledAt c n') eqn:Ec; [done|]. destruct item as [ik ? ? ? ? io ia]. cbn [Kind ObjectV]. rewrite <-He. apply IH.
Qed.
Lemma steady_findWalk want v : forall key depth out, steady (fun c n => IamMapper.IamMapper.findWalk c want key v depth (out, n)).
Proof.
  induction v as [v IHo IHa] using value_ind_deep. intros key depth out.
  eapply steady_ext; [intros c n; apply findWalk_unfold|].
  assert (He : forall o out, (forall k x, (k, x) ∈ o -> forall key depth out, steady (fun c n => IamMapper.IamMapper.findWalk c want key x depth (out, n))) ->
    steady (fun c n => findEntriesOf c want depth o (out, n))).
  { intros o out' Ho. unfold findEntriesOf. apply (steady_loop (fun c kv s => IamMapper.IamMapper.findWalk c want kv.1 kv.2 (depth + 1) s)).
    intros [k x] s Hin. by apply (Ho k x). }
  apply (steady_cancelledAt out (fun c n => if 16 <? depth then (out, n) else _)).
  destruct (16 <? depth); [apply steady_const|]. set (out' := if _ && _ && _ then _ else _). clearbody out'. cbv zeta.
  assert (Hi : forall a out, (forall x, x ∈ a -> forall k y, (k, y) ∈ ObjectV x -> forall key depth out, steady (fun c n => IamMapper.IamMapper.findWalk c want key y depth (out, n))) ->
    steady (fun c n => findItems c want depth a (out, n))).
  { induction a as [|x a IH]; intros o2 Ha; [apply steady_const|]. cbn [findItems].
    refine (steady_cancelledAt o2 (fun c n => findItems c want depth a (if (Kind x =? ValueObject)%string then findEntriesOf c want depth (ObjectV x) (o2, n) else (o2, n))) _).
    assert (Hrest : forall o3, steady (fun c n => findItems c want depth a (o3, n))) by (intros o3; apply IH; intros y Hy; apply Ha; by right).
    destruct (Kind x =? ValueObject)%string; [|apply Hrest].
    eapply steady_ext; [|refine (steady_seq _ (fun c s n => findItems c want depth a (s, n)) (He (ObjectV x) o2 _) Hrest)].
    - intros c n. cbn. by destruct (findEntriesOf _ _ _ _ _).
    - intros k y Hky. exact (Ha x ltac:(by left) k y Hky). }
  eapply steady_ext; [|refine (steady_seq (fun c n => if (Kind v =? ValueObject)%string then findEntriesOf c want depth (ObjectV v) (out', n) else (out', n))
    (fun c s n => if (Kind v =? ValueArray)%string then findItems c want depth (ArrayV v) (s, n) else (s, n)) _ _)].
  - intros c n. cbn. by destruct (if (Kind v =? ValueObject)%string then _ else _).
  - destruct (Kind v =? ValueObject)%string; [by apply He|apply steady_const].
  - intros s. destruct (Kind v =? ValueArray)%string; [by apply Hi|apply steady_const].
Qed.
Lemma steady_FindContext values names : steady (fun c => FindContext c values names).
Proof.
  unfold IamMapper.IamMapper.FindContext. generalize (ToLower <$> names). intros want.
  assert (H : forall m out, steady (fun c n => IamMapper.IamMapper.findEntries c want m (out, n))).
  { induction m as [|[key v] m IH]; intros out; [apply steady_const|]. cbn [IamMapper.IamMapper.findEntries].
    refine (steady_cancelledAt [] (fun c n => IamMapper.IamMapper.findEntries c want m (IamMapper.IamMapper.findWalk c want key v 0 (out, n))) _).
    eapply steady_ext; [|refine (steady_seq _ (fun c s n => IamMapper.IamMapper.findEntries c want m (s, n)) (steady_findWalk want v key 0 out) IH)].
    intros c n. cbn. by destruct (IamMapper.IamMapper.findWalk _ _ _ _ _ _). }
  apply H.
Qed.
Hint Resolve steady_FindContext : kordn.

(** The loops of [invalidWalk], given what the walk does below. *)
Section InvalidLoops.
Context (walk : context -> Value -> nat -> bool * nat) (wanted : list string).
Fixpoint invalidItems (c : context) (a : list Value) (n : nat) : bool * nat :=
  match a with
  | [] => (false, n)
  | item :: a =>
    let (bad, n) := if (Kind item =? ValueObject)%string then walk c item n else (false, n) in
    if bad then (true, n) else invalidItems c a n
  end.
Fixpoint invalidEntries (c : context) (m : list (string * Value)) (n : nat) : bool * nat :=
  match m with
  | [] => (false, n)
  | (key, value) :: m =>
    if cancelledAt c n then (true, S n)
    else if mem_str (ToLower key) wanted && negb (Kind value =? ValueString)%string then (true, S n)
    else
      let (bad, n) := if (Kind value =? ValueObject)%string then walk c value (S n) else (false, S n) in
      if bad then (true, n)
      else
        let (bad, n) := if (Kind value =? ValueArray)%string then invalidItems c (ArrayV value) n else (false, n) in
        if bad then (true, n) else invalidEntries c m n
  end.
Lemma steady_stop (m f : context -> nat -> bool * nat) : steady m -> steady f ->
  steady (fun c n => let (bad, n) := m c n in if bad then (true, n) else f c n).
Proof.
  intros Hm Hf. refine (steady_seq m (fun c (bad : bool) n => if bad then (true, n) else f c n) Hm _).
  intros []; [apply steady_const|exact Hf].
Qed.
Lemma steady_when (b : bool) (m : context -> nat -> bool * nat) : (b = true -> steady m) ->
  steady (fun c n => if b then m c n else (false, n)).
Proof. intros H. destruct b; [by apply H|apply steady_const]. Qed.
Lemma steady_invalidItems a : (forall x, x ∈ a -> steady (fun c => walk c x)) -> steady (fun c => invalidItems c a).
Proof.
  induction a as [|item a IH]; intros Ha; [apply steady_const|]. cbn [invalidItems].
  apply (steady_stop (fun c n => if (Kind item =? ValueObject)%string then walk c item n else (false, n))).
  - apply steady_when. intros _. apply Ha. by left.
  - apply IH. intros x Hx. apply Ha. by right.
Qed.
Lemma steady_invalidEntries m : (forall k x, (k, x) ∈ m -> steady (fun c => walk c x)) ->
  (forall k x, (k, x) ∈ m -> forall y, y ∈ ArrayV x -> steady (fun c => walk c y)) -> steady (fun c => invalidEntries c m).
Proof.
  induction m as [|[key value] m IH]; intros Ho Ha; [apply steady_const|]. cbn [invalidEntries].
  refine (steady_cancelledAt true (fun c n => if mem_str (ToLower key) wanted && negb (Kind value =? ValueString)%string then (true, n) else
    let (bad, n) := if (Kind value =? ValueObject)%string then walk c value n else (false, n) in
    if bad then (true, n) else let (bad, n) := if (Kind value =? ValueArray)%string then invalidItems c (ArrayV value) n else (false, n) in
    if bad then (true, n) else invalidEntries c m n) _).
  destruct (_ && _); [apply steady_const|].
  apply (steady_stop (fun c n => if (Kind value =? ValueObject)%string then walk c value n else (false, n))).
  { apply steady_when. intros _. apply (Ho key). by left. }
  apply (steady_stop (fun c n => if (Kind value =? ValueArray)%string then invalidItems c (ArrayV value) n else (false, n))).
  { apply steady_when. intros _. apply steady_invalidItems. apply (Ha key). by left. }
  apply IH; [intros k x Hx; apply (Ho k); by right|intros k x Hx; apply (Ha k); by right].
Qed.
End InvalidLoops.
Lemma invalidWalk_unfold c wanted v depth n : invalidWalk c wanted v depth n =
  if 16 <? depth then (true, n) else invalidEntries (fun c v => invalidWalk c wanted v (depth + 1)) wanted c (ObjectV v) n.
Proof.
  destruct v as [k s b i f o a]. cbn [invalidWalk ObjectV]. destruct (16 <? depth); [done|].
  revert n. induction o as [|[key value] o IH]; intros n; [done|]. cbn [invalidEntries].
  destruct (cancelledAt c n); [done|]. destruct (_ && _); [done|].
  destruct (if (Kind value =? ValueObject)%string then _ else _) as [[|] n1]; [done|].
  destruct value as [vk ? ? ? ? vo va]. cbn [Kind ArrayV].
  match goal with |- context [if (vk =? ValueArray)%string then ?g va n1 else _] => set (inner := g) end.
  assert (inner va n1 = invalidItems (fun c v => invalidWalk c wanted v (depth + 1)) c va n1) as ->.
  { clear. revert n1. induction va as [|item va IH]; intros n1; [done|]. cbn [invalidItems]. cbn.
    destruct (if (Kind item =? ValueObject)%string then _ else _) as [[|] n2]; [done|apply IH]. }
  destruct (if (vk =? ValueArray)%string then _ else _) as [[|] n2]; [done|apply IH].
Qed.
Lemma steady_invalidWalk wanted v : forall depth, steady (fun c => invalidWalk c wanted v depth).
Proof.
  assert (H : (forall depth, steady (fun c => invalidWalk c wanted v depth)) /\
    forall x, x ∈ ArrayV v -> forall depth, steady (fun c => invalidWalk c wanted x depth)); [|by destruct H].
  induction v as [v IHo IHa] using value_ind. split; [|intros x Hx; exact (proj1 (IHa x Hx))].
  intros depth. eapply steady_ext; [intros c n; apply invalidWalk_unfold|]. destruct (16 <? depth); [apply steady_const|].
  apply (steady_invalidEntries (fun c v => invalidWalk c wanted v (depth + 1))).
  - intros k x Hx. exact (proj1 (IHo k x Hx) _).
  - intros k x Hx y Hy. exact (proj2 (IHo k x Hx) y Hy _).
Qed.
Lemma steady_invalidNamed parameters names : steady (fun c => invalidNamedValueContext c parameters names).
Proof. apply steady_invalidWalk. Qed.
Hint Resolve steady_invalidNamed : kordn.

Lemma steady_templateValues template parameters : steady (fun c => templateValues c template parameters).
Proof. unfold templateValues. steadily. Qed.
Hint Resolve steady_templateValues : kordn.
Lemma steady_pathLoop parts : forall current, steady (fun c => pathLoop c parts current).
Proof.
  induction parts as [|part parts IH]; intros current; cbn [pathLoop]; unfold children, expand, strings_of, pollPath; steadily.
Qed.
Lemma steady_pathValues root path : steady (fun c => pathValues c root path).
Proof.
  unfold pathValues. destruct (path =? "")%string; [apply steady_const|].
  exact (steady_grun (fun c => pathLoop c _ _) (steady_pathLoop _ _)).
Qed.
Hint Resolve steady_pathValues : kordn.
Lemma steady_evaluate parameters : forall condition, steady (fun c => evaluateCondition c condition parameters).
Proof.
  fix IH 1. intros [lhs op rhs [next|]]; cbn [evaluateCondition]; unfold compare.
  - specialize (IH next). clear -IH. match goal with |- steady (fun c n => grun (@?m c) n) => change (steady (fun c => grun (m c))); cbv beta end. steadily.
  - clear IH. match goal with |- steady (fun c n => grun (@?m c) n) => change (steady (fun c => grun (m c))); cbv beta end. steadily.
Qed.
Hint Resolve steady_evaluate : kordn.
Lemma steady_dependencyValues mapping parameters : steady (fun c => dependencyValues c mapping parameters).
Proof. unfold dependencyValues. steadily. Qed.
Hint Resolve steady_dependencyValues : kordn.
Lemma steady_lookupOperation service operation plan parameters :
  steady (fun c => lookupOperationContext c service operation plan parameters).
Proof.
  unfold lookupOperationContext, pollL, recordStep, edgeStep, dependentStep, decideDependency, pollL. steadily.
Qed.
Hint Resolve steady_lookupOperation : kordn.
Lemma steady_lookup a service operation identity parameters :
  steady (fun c => LookupRequestContext a (Some c) service operation identity parameters).
Proof. unfold LookupRequestContext, pollL. cbn [ctxOf]. steadily. Qed.

(** ** Success is uncancelled

    Every success comes right after a poll that observed nothing. *)

Section Late.
Context (c : context).
Abbreviation answer := (LookupResult * option gerr)%type.
Definition passes {A} (m : G answer A) : Prop := forall n a n', m n = (inr a, n') -> (n < n')%nat /\ c (pred n') = None.
Definition late {A} (m : G answer A) : Prop := forall n r n', m n = (inl (r, None), n') -> (n < n')%nat /\ c (pred n') = None.
Definition refuses (x : answer) : Prop := x.2 <> None.

Lemma late_gwp {A} (m : G answer A) : gwp refuses m (fun _ => True) -> late m.
Proof. intros H n r n' E. specialize (H n). rewrite E in H. by destruct H. Qed.
Lemma grows {A} (m : context -> nat -> A * nat) n x n' : steady m -> m c n = (x, n') -> (n <= n')%nat.
Proof. intros H E. destruct (steady_value m H c n) as [Hn _]. by rewrite E in Hn. Qed.
Lemma late_bind {A B} (m : context -> G answer A) (f : A -> G answer B) : steady m -> late (m c) -> (forall a, late (f a)) -> late (m c ≫= f).
Proof.
  intros Hs Hm Hf n r n' E. unfold mbind, G_bind in E. destruct (m c n) as [[x|a] n1] eqn:Em.
  - injection E as -> ->. by apply Hm in Em.
  - apply grows in Em; [|done]. apply Hf in E as [? ?]. split; [lia|done].
Qed.
Lemma late_return {A B} (m : G answer A) (g : A -> answer) : passes m -> gwp refuses m (fun _ => True) -> late (m ≫= fun a => greturn (R := answer) (A := B) (g a)).
Proof.
  intros Hp Hr n r n' E. unfold mbind, G_bind, greturn in E. destruct (m n) as [[x|a] n1] eqn:Em.
  - injection E as -> ->. specialize (Hr n). rewrite Em in Hr. by destruct Hr.
  - injection E as _ ->. by apply Hp in Em.
Qed.
Lemma passes_bind_r {A B} (m : context -> G answer A) (f : A -> G answer B) : steady m -> (forall a, passes (f a)) -> passes (m c ≫= f).
Proof.
  intros Hs Hf n b n' E. unfold mbind, G_bind in E. destruct (m c n) as [[x|a] n1] eqn:Em; [done|].
  apply grows in Em; [|done]. apply Hf in E as [? ?]. split; [lia|done].
Qed.
Lemma passes_ret {A B} (m : G answer A) (g : A -> B) : passes m -> passes (m ≫= fun a => mret (g a)).
Proof.
  intros Hm n b n' E. unfold mbind, G_bind, mret, G_ret in E. destruct (m n) as [[x|a] n1] eqn:Em; [done|].
  injection E as _ <-. by apply Hm in Em.
Qed.
Lemma passes_poll : passes (pollL c).
Proof.
  intros n a n' E. unfold pollL in E. destruct (c n) as [e|] eqn:Ec; [by rewrite (poll_some _ _ _ e) in E|].
  rewrite poll_none in E by done. injection E as <- <-. split; [lia|done].
Qed.
Lemma passes_grange {S X} (xs : list X) (body : context -> X -> S -> G answer S) : (forall x s, steady (fun c => body c x s)) ->
  (forall x s, passes (body c x s)) -> forall s, xs <> [] -> passes (grange xs (body c) s).
Proof.
  intros Hs Hb. induction xs as [|x xs IH]; intros s Hne; [done|]. cbn [grange]. destruct xs as [|y xs].
  - intros n a n' E. cbn [grange] in E. unfold mbind, G_bind, mret, G_ret in E.
    destruct (body c x s n) as [[r|b] n1] eqn:Eb; [done|]. injection E as <- <-. by apply Hb in Eb.
  - apply (passes_bind_r (fun c => body c x s)); [apply Hs|]. intros s'. by apply IH.
Qed.
Definition keeps {A} (m : G answer A) : Prop := forall n a n', m n = (inr a, n') -> n' = n \/ ((n < n')%nat /\ c (pred n') = None).
Lemma keeps_ret {A} (a : A) : keeps (mret a).
Proof. intros n b n' [= <- <-]. by left. Qed.
Lemma keeps_passes {A} (m : G answer A) : passes m -> keeps m.
Proof. intros H n a n' E. right. by apply H in E. Qed.
Lemma keeps_bind_ret {A B} (m : G answer A) (g : A -> B) : keeps m -> keeps (m ≫= fun a => mret (g a)).
Proof.
  intros Hm n b n' E. unfold mbind, G_bind, mret, G_ret in E. destruct (m n) as [[x|a] n1] eqn:Em; [done|].
  injection E as _ <-. by apply Hm in Em.
Qed.
Lemma passes_bind_l {A B} (m : G answer A) (f : A -> G answer B) : passes m -> (forall a, keeps (f a)) -> passes (m ≫= f).
Proof.
  intros Hm Hf n b n' E. unfold mbind, G_bind in E. destruct (m n) as [[x|a] n1] eqn:Em; [done|].
  apply Hm in Em as [Hn Hc]. apply Hf in E as [->|[? ?]]; [done|]. split; [lia|done].
Qed.

Lemma passes_decide parameters record : keeps (decideDependency c parameters record).
Proof.
  unfold decideDependency. destruct (inapplicable record); [apply keeps_ret|]. apply keeps_passes.
  apply (passes_bind_r (fun c => call (dependencyValues c (mr_mapping record) parameters))); [steadily|]. intros [values state].
  apply (passes_ret (pollL c) (fun _ => _)), passes_poll.
Qed.
Lemma passes_dependentStep parameters operationID edges record s : passes (dependentStep c parameters operationID edges record s).
Proof.
  unfold dependentStep. destruct (negb (dependent record)); [apply (passes_ret (pollL c) (fun _ => s)), passes_poll|].
  apply (passes_bind_r (fun c => pollL c)); [unfold pollL; steadily|]. intros _. destruct s as [[out used] next].
  apply (passes_bind_r (fun c => call (dependencyParameterNames c (mr_mapping record)))); [steadily|]. intros names.
  apply passes_bind_l; [apply passes_poll|]. intros _.
  destruct (match bucket _ _ !! _ with Some _ => _ | None => _ end) as [edgeID used']. destruct (if edgeID =? 0 then _ else _) as [edgeID' next'].
  apply keeps_bind_ret, passes_decide.
Qed.

Lemma steady_pollL : steady (fun c => pollL c).
Proof. unfold pollL. steadily. Qed.
Lemma refuses_poll : gwp refuses (pollL c) (fun _ => True).
Proof. by apply gwp_poll. Qed.
Lemma refuses_call {A} (m : nat -> A * nat) : gwp refuses (call m) (fun _ => True).
Proof. by apply gwp_call. Qed.
Lemma refuses_bind {A B} (m : G answer A) (f : A -> G answer B) : gwp refuses m (fun _ => True) -> (forall a, gwp refuses (f a) (fun _ => True)) ->
  gwp refuses (m ≫= f) (fun _ => True).
Proof. intros Hm Hf. by apply gwp_true. Qed.
Lemma refuses_grange {S X} (xs : list X) (body : X -> S -> G answer S) s : (forall x s, gwp refuses (body x s) (fun _ => True)) ->
  gwp refuses (grange xs body s) (fun _ => True).
Proof. intros Hb. by apply gwp_grange. Qed.
Lemma refuses_ret {A} (a : A) : gwp refuses (mret a) (fun _ => True).
Proof. by apply gwp_ret. Qed.
Lemma refuses_refuse {A} e : gwp refuses (greturn (R := answer) (A := A) (refuse e)) (fun _ => True).
Proof. by apply gwp_return. Qed.
End Late.

Ltac refusing := repeat first
  [ apply refuses_poll | apply refuses_call | apply refuses_ret | apply refuses_refuse
  | apply refuses_bind; [|intros] | apply refuses_grange; intros
  | match goal with |- gwp _ (match ?x with _ => _ end) _ => destruct x end ].
Lemma refuses_recordStep c parameters m s : gwp refuses (recordStep c parameters m s) (fun _ => True).
Proof. unfold recordStep. refusing. Qed.
Lemma refuses_edgeStep c root s : gwp refuses (edgeStep c root s) (fun _ => True).
Proof. unfold edgeStep. refusing. Qed.
Lemma refuses_dependentStep c parameters operationID edges record s : gwp refuses (dependentStep c parameters operationID edges record s) (fun _ => True).
Proof. unfold dependentStep, decideDependency. refusing. Qed.
Lemma late_refuse {A} c e : late c (greturn (R := LookupResult * option gerr) (A := A) (refuse e)).
Proof. apply late_gwp, refuses_refuse. Qed.

(** A body that ends in [return] does not fall through. *)
Lemma gwp_anything {R A} (m : G R A) : gwp (fun _ => True) m (fun _ => True).
Proof. intros n. by destruct (m n).1. Qed.
Ltac returning := repeat first
  [ apply gwp_return; exact I | apply gwp_true; [apply gwp_anything|intros]
  | match goal with |- gwp _ (match ?x with _ => _ end) _ => destruct x end ].
Ltac settled := unfold pollL, recordStep, edgeStep, dependentStep, decideDependency, pollL; steadily.
Lemma lookupOperation_late c service operation plan parameters n r n' :
  lookupOperationContext c service operation plan parameters n = ((r, None), n') -> (n < n')%nat /\ c (pred n') = None.
Proof.
  unfold lookupOperationContext, grun. intros E.
  match type of E with (match ?m n with _ => _ end) = _ => assert (Hl : late c m); [|destruct (m n) as [[x|x] n1] eqn:Em] end.
  - apply (late_bind c (fun c => pollL c)); [settled|apply late_gwp, refuses_poll|]. intros _.
    destruct (negb (Plan_Valid plan)); [destruct (runtimePlanFailure _); apply late_refuse|].
    destruct (_ || _ || _); [apply late_refuse|].
    apply (late_bind c (fun c => grange (pl_Mappings plan) (recordStep c parameters) _)); [settled|apply late_gwp, refuses_grange, refuses_recordStep|].
    intros rs. destruct (List.length _ =? 0)%nat eqn:Er; [apply late_refuse|].
    apply (late_bind c (fun c => grange (List.filter isRoot rs.1.1.1) (edgeStep c) _)); [settled|apply late_gwp, refuses_grange, refuses_edgeStep|]. intros es.
    apply (late_bind c (fun c => grange (List.filter isRoot rs.1.1.1) (fun root out => _ ← pollL c; mret (out ++ [primaryOf service operation _ root])) []));
      [settled|apply late_gwp; refusing|]. intros primaries.
    apply (late_return c (grange rs.1.1.1 (dependentStep c parameters _ es.1) _) (fun ds => (mkLookup _ _ ds.1.1, None))).
    + apply (passes_grange c rs.1.1.1 (fun c => dependentStep c parameters _ es.1)); [intros; settled|intros; apply passes_dependentStep|]. intros Hn. by rewrite Hn in Er.
    + apply refuses_grange, refuses_dependentStep.
  - injection E as -> ->. by apply Hl in Em.
  - exfalso. match type of Em with ?m n = _ => assert (Hg : gwp (fun _ => True) m (fun _ => False)); [|specialize (Hg n); by rewrite Em in Hg] end.
    clear. returning.
Qed.

(** ** What a lookup comes to *)

(** The state of a mapping's condition on the request's parameters, and what a
    dependent mapping comes to, when nothing is cancelled. *)
Definition applies (parameters : Params) (m : StaticMapping) : conditionState :=
  match m_Condition (s_Mapping m) with
  | None => conditionTrue
  | Some condition => (evaluateCondition Background condition parameters 0%nat).1
  end.
Definition settle (r : list string * dependencyState) : list string * Applicability :=
  match r with
  | (_, dependencyFalse) => ([], IamMapper.IamMapper.ApplicabilityInapplicable)
  | (_, dependencyUnknown) | ([], dependencyTrue) => ([], IamMapper.IamMapper.ApplicabilityUnknown)
  | (values, dependencyTrue) => (values, IamMapper.IamMapper.ApplicabilityApplicable)
  end.
Definition resolves (parameters : Params) (m : StaticMapping) : list string * Applicability :=
  if bool_decide (applies parameters m = conditionFalse) then ([], IamMapper.IamMapper.ApplicabilityInapplicable)
  else settle (dependencyValues Background (s_Mapping m) parameters 0%nat).1.
Definition primary (parameters : Params) (m : StaticMapping) : bool :=
  negb (s_Dependent m) && bool_decide (applies parameters m = conditionTrue).

(** The lookup of one plan: every mapping's condition is decided; the primary
    occurrences are the mappings that are not dependent and apply, and the
    dependent occurrences are all the dependent ones, in the plan's order. *)
Record looked_up (parameters : Params) (operation : Operation) (plan : StaticPlan) (r : LookupResult) : Prop := {
  lu_plan : Diagnostics plan = [];
  lu_known : o_State operation = EvidenceKnown /\ MappingState operation = EvidenceKnown;
  lu_name : lk_Operation r = o_Name operation;
  lu_decided : Forall (fun m => applies parameters m <> conditionUnknown) (pl_Mappings plan);
  lu_primary : (fun p => (p_Action p, p_Definition p, p_Mapping p)) <$> PrimaryOccurrences r =
               (fun m => (s_Action m, s_Definition m, ActionMapping_Clone (s_Mapping m))) <$> List.filter (primary parameters) (pl_Mappings plan);
  lu_nonempty : PrimaryOccurrences r <> [];
  lu_scopes : Forall (fun p => let e := entryForAction (p_Action p) (p_Definition p) (p_Operation p) (p_Mapping p) in
                p_Operation p = lk_Operation r /\ p_ResourceType p = Resource e /\ p_Scope p = e_Scope e /\
                DefinitionDependencies p = Dependencies e) (PrimaryOccurrences r);
  lu_dependent : (fun d => (dep_Action d, (dep_Resources d, dep_Applicability d))) <$> DependencyOccurrences r =
               (fun m => (s_Action m, resolves parameters m)) <$> List.filter s_Dependent (pl_Mappings plan);
}.

Definition mappingOf (m : StaticMapping) (parameters : Params) : CatAction * ActionDefinition * ActionMapping * bool * bool :=
  (s_Action m, s_Definition m, s_Mapping m, bool_decide (applies parameters m = conditionFalse), s_Dependent m).
Definition recordOf (r : mappingRecord) : CatAction * ActionDefinition * ActionMapping * bool * bool :=
  (mr_action r, mr_definition r, mr_mapping r, inapplicable r, dependent r).

Lemma evaluate_background parameters condition n :
  (evaluateCondition Background condition parameters n).1 = (evaluateCondition Background condition parameters 0%nat).1.
Proof. apply (steady_Background (fun c => evaluateCondition c condition parameters)), steady_evaluate. Qed.

Section Plain.
Context (parameters : Params) (QR : LookupResult * option gerr -> Prop) (HQR : forall x, x.2 <> None -> QR x).

Lemma gwp_pollL : gwp QR (pollL Background) (fun _ => True).
Proof using HQR. apply gwp_poll; [|done]. intros e. by apply HQR. Qed.
Lemma gwp_refuse {A} (e : gerr) (Q : A -> Prop) : gwp QR (greturn (refuse e)) Q.
Proof using HQR. apply gwp_return. by apply HQR. Qed.

Definition recordsOf (seen : list StaticMapping) (s : recordState) : Prop :=
  recordOf <$> s.1.1.1 = (fun m => mappingOf m parameters) <$> seen /\ Forall (fun m => applies parameters m <> conditionUnknown) seen.
Lemma recordStep_records seen m s : recordsOf seen s -> gwp QR (recordStep Background parameters m s) (recordsOf (seen ++ [m])).
Proof using HQR.
  intros [Hr Hd]. destruct s as [[[records ids] next] index]. unfold recordStep. eapply gwp_bind; [apply gwp_pollL|]. intros _ _.
  destruct (_ || _); [apply gwp_refuse|].
  eapply (gwp_bind QR _ _ (fun state => state = applies parameters m)).
  { unfold applies. destruct (m_Condition (s_Mapping m)) as [condition|]; [|by apply gwp_ret]. apply gwp_call. intros n. apply evaluate_background. }
  intros state ->. destruct (bool_decide (applies parameters m = conditionUnknown)) eqn:Eu; [apply gwp_refuse|].
  apply bool_decide_eq_false in Eu.
  match goal with |- gwp _ (let '(_, _) := ?x in _) _ => destruct x as [[definitionID next'] ids'] end. apply gwp_ret. split.
  - cbn [fst] in *. rewrite !fmap_app, Hr. done.
  - apply Forall_app. split; [done|]. by constructor.
Qed.

Lemma decide_background record n : recordOf record = recordOf record ->
  match (decideDependency Background parameters record n).1 with
  | inl r => False
  | inr d => d = if inapplicable record then ([], IamMapper.IamMapper.ApplicabilityInapplicable)
                 else settle (dependencyValues Background (mr_mapping record) parameters 0%nat).1
  end.
Proof.
  intros _. unfold decideDependency. destruct (inapplicable record); [done|]. unfold mbind, G_bind, call.
  pose proof (steady_Background (fun c => dependencyValues c (mr_mapping record) parameters) n (steady_dependencyValues _ _)) as E. cbv beta in E.
  destruct (dependencyValues Background _ _ n) as [[values state] n1]. cbn [fst] in E. rewrite <-E. unfold pollL.
  rewrite poll_none by done. unfold mret, G_ret. cbn [fst]. by destruct state, values.
Qed.

Definition dependentsOf (seen : list mappingRecord) (s : dependentState) : Prop :=
  (fun d => (dep_Action d, (dep_Resources d, dep_Applicability d))) <$> s.1.1 =
  (fun r => (mr_action r, if inapplicable r then ([], IamMapper.IamMapper.ApplicabilityInapplicable)
                 else settle (dependencyValues Background (mr_mapping r) parameters 0%nat).1)) <$> List.filter dependent seen.
Lemma dependentStep_dependents operationID edges seen record s : dependentsOf seen s ->
  gwp QR (dependentStep Background parameters operationID edges record s) (dependentsOf (seen ++ [record])).
Proof using HQR.
  intros Hd. unfold dependentStep. eapply gwp_bind; [apply gwp_pollL|]. intros _ _. unfold dependentsOf. rewrite List.filter_app. cbn [List.filter].
  destruct (dependent record) eqn:Ed; cbn [negb]; [|apply gwp_ret; by rewrite app_nil_r].
  destruct s as [[out used] next]. apply gwp_true; [by apply gwp_call|]. intros names. eapply gwp_bind; [apply gwp_pollL|]. intros _ _.
  destruct (match bucket _ _ !! _ with Some _ => _ | None => _ end) as [edgeID used']. destruct (if edgeID =? 0 then _ else _) as [edgeID' next'].
  eapply (gwp_bind QR _ _ (fun d => d = _)).
  { intros n. pose proof (decide_background record n eq_refl) as H. destruct (decideDependency _ _ _ n).1 as [x|d]; [done|exact H]. }
  intros d ->. apply gwp_ret. cbn [fst snd]. rewrite !fmap_app. unfold dependentsOf in Hd. cbn [fst] in Hd. rewrite Hd. cbn [fmap list_fmap dep_Action dep_Resources dep_Applicability].
  by rewrite <-surjective_pairing.
Qed.

Lemma filter_records records ms : recordOf <$> records = (fun m => mappingOf m parameters) <$> ms ->
  Forall (fun m => applies parameters m <> conditionUnknown) ms ->
  (fun r => (mr_action r, mr_definition r, ActionMapping_Clone (mr_mapping r))) <$> List.filter isRoot records =
    (fun m => (s_Action m, s_Definition m, ActionMapping_Clone (s_Mapping m))) <$> List.filter (primary parameters) ms /\
  (fun r => (mr_action r, if inapplicable r then ([], IamMapper.IamMapper.ApplicabilityInapplicable)
                          else settle (dependencyValues Background (mr_mapping r) parameters 0%nat).1)) <$> List.filter dependent records =
    (fun m => (s_Action m, resolves parameters m)) <$> List.filter s_Dependent ms.
Proof.
  revert ms. induction records as [|r records IH]; intros [|m ms]; try done. cbn [fmap list_fmap]. intros E Hd.
  apply Forall_cons in Hd as [Hm Hd]. assert (E' : recordOf <$> records = (fun m => mappingOf m parameters) <$> ms) by (by injection E).
  destruct (IH ms E' Hd) as [H1 H2]. assert (Er : recordOf r = mappingOf m parameters) by congruence. clear E E' IH.
  injection Er as Ea Edf Emp Ei Edp. cbn [List.filter]. unfold isRoot, primary. rewrite Edp, Ei.
  assert (Hb : negb (bool_decide (applies parameters m = conditionFalse)) = bool_decide (applies parameters m = conditionTrue)).
  { destruct (applies parameters m); [done|done|done]. }
  rewrite Hb. split.
  - destruct (negb (s_Dependent m) && _); [|exact H1]. cbn [fmap list_fmap]. rewrite Ea, Edf, Emp. f_equal. exact H1.
  - destruct (s_Dependent m); [|exact H2]. cbn [fmap list_fmap]. f_equal; [|exact H2]. rewrite Ea, Ei, Emp. unfold resolves.
    by destruct (bool_decide _).
Qed.

End Plain.

Lemma lookupOperation_spec service operation plan parameters r n :
  (lookupOperationContext Background service operation plan parameters n).1 = (r, None) -> looked_up parameters operation plan r.
Proof.
  intros E. set (QR := fun x : LookupResult * option gerr => x.2 = None -> looked_up parameters operation plan x.1).
  assert (HQR : forall x, x.2 <> None -> QR x) by (intros x Hx Hx'; done).
  cut (QR (lookupOperationContext Background service operation plan parameters n).1); [rewrite E; intros H; by apply H|]. clear E r.
  unfold lookupOperationContext. apply gwp_grun.
  eapply gwp_bind; [by apply gwp_pollL|]. intros _ _.
  destruct (negb (Plan_Valid plan)) eqn:Ev; [destruct (runtimePlanFailure _); by apply gwp_refuse|].
  apply negb_false_iff, Nat.eqb_eq, nil_length_inv in Ev. destruct (_ || _ || _) eqn:Ek; [by apply gwp_refuse|].
  apply orb_false_iff in Ek as [[Ek1%negb_false_iff%String.eqb_eq Ek2%negb_false_iff%String.eqb_eq]%orb_false_iff _].
  eapply (gwp_bind QR _ _ (recordsOf parameters (pl_Mappings plan))).
  { apply gwp_grange_visited; [done|]. intros seen m s _ Hs. by apply recordStep_records. }
  intros [[[records ids] next] index] [Hr Hd]. cbn [fst] in Hr |- *.
  destruct (List.length (List.filter isRoot records) =? 0)%nat eqn:Er; [by apply gwp_refuse|].
  apply gwp_true.
  { apply gwp_grange; [done|]. intros root s _ _. unfold edgeStep. eapply gwp_bind; [by apply gwp_pollL|]. intros _ _.
    apply gwp_grange; [done|]. intros resource s' _ _. eapply gwp_bind; [by apply gwp_pollL|]. intros _ _. by apply gwp_ret. }
  intros es. set (id := if pl_Occurrence plan =? 0 then 1 else pl_Occurrence plan).
  eapply (gwp_bind QR _ _ (fun out => out = primaryOf service operation id <$> List.filter isRoot records)).
  { apply (gwp_grange_visited QR (List.filter isRoot records) _ (fun seen out => out = primaryOf service operation id <$> seen)); [done|].
    intros seen root out _ ->. eapply gwp_bind; [by apply gwp_pollL|]. intros _ _. apply gwp_ret. by rewrite fmap_app. }
  intros primaries ->. eapply (gwp_bind QR _ _ (dependentsOf parameters records)).
  { apply (gwp_grange_visited QR records _ (dependentsOf parameters)); [done|]. intros seen record s _ Hs. by apply dependentStep_dependents. }
  intros [[out used] next'] Hdep. apply gwp_return. intros _. unfold dependentsOf in Hdep. cbn [fst snd] in Hdep |- *.
  destruct (filter_records parameters records (pl_Mappings plan) Hr Hd) as [H1 H2].
  constructor; cbn [lk_Operation PrimaryOccurrences DependencyOccurrences]; try done.
  - rewrite <-H1, <-list_fmap_compose. done.
  - intros En. apply fmap_nil_inv in En. by rewrite En in Er.
  - apply Forall_fmap, List.Forall_forall. intros root _. done.
  - by rewrite Hdep.
Qed.

(** The same for the whole lookup, whose last step is the call above. *)
Definition ends (c : context) (m : G (LookupResult * option gerr) (LookupResult * option gerr)) : Prop :=
  forall n r n', grun m n = ((r, None), n') -> (n < n')%nat /\ c (pred n') = None.
Lemma lookup_ends_bind {A} c (m : context -> G (LookupResult * option gerr) A) f : steady m -> gwp refuses (m c) (fun _ => True) ->
  (forall a, ends c (f a)) -> ends c (m c ≫= f).
Proof.
  intros Hs Hr Hf n r n' E. unfold grun, mbind, G_bind in E. destruct (m c n) as [[x|x] n1] eqn:Em.
  - injection E as -> ->. specialize (Hr n). rewrite Em in Hr. by destruct Hr.
  - destruct (Hf x n1 r n' E) as [? ?]. apply grows in Em; [|done]. split; [lia|done].
Qed.
Lemma ends_refuse c e : ends c (greturn (refuse e)).
Proof. by intros n r n' E. Qed.
Lemma lookup_late a c service operation identity parameters n r n' :
  LookupRequestContext a (Some c) service operation identity parameters n = ((r, None), n') -> (n < n')%nat /\ c (pred n') = None.
Proof.
  unfold LookupRequestContext. cbn [ctxOf]. match goal with |- grun ?m _ = _ -> _ => cut (ends c m); [intros H; apply H|] end.
  apply (lookup_ends_bind c (fun c => pollL c)); [apply steady_pollL|apply refuses_poll|]. intros _. destruct a as [a|]; [|apply ends_refuse].
  destruct (_ || _); [apply ends_refuse|].
  apply (lookup_ends_bind c (fun c => grange _ (fun occurrence selected => _ ← pollL c; mret (if selects _ identity occurrence then selected ++ [occurrence] else selected)) []));
    [settled|refusing|]. intros [|occurrence [|]]; [apply ends_refuse| |apply ends_refuse].
  intros n1 r1 n1' E. unfold grun, call in E. destruct (lookupOperationContext _ _ _ _ _ n1) as [x n2] eqn:El. injection E as -> ->.
  by apply lookupOperation_late in El.
Qed.

(** What is selected, when nothing is cancelled. *)
Lemma lookup_selected a service operation identity parameters r n :
  (LookupRequestContext a (Some Background) service operation identity parameters n).1 = (r, None) ->
  exists ad occurrence, a = Some ad /\
    List.filter (selects (NormalizeOperation operation) identity) (OperationOccurrences ad service (NormalizeOperation operation)) = [occurrence] /\
    looked_up parameters (oc_Operation occurrence) (Plan occurrence) r.
Proof.
  intros E. set (QR := fun x : LookupResult * option gerr => x.2 = None -> exists ad occurrence, a = Some ad /\
    List.filter (selects (NormalizeOperation operation) identity) (OperationOccurrences ad service (NormalizeOperation operation)) = [occurrence] /\
    looked_up parameters (oc_Operation occurrence) (Plan occurrence) x.1).
  assert (HQR : forall x, x.2 <> None -> QR x) by (intros x Hx Hx'; done).
  cut (QR (LookupRequestContext a (Some Background) service operation identity parameters n).1); [rewrite E; intros H; by apply H|]. clear E r.
  unfold LookupRequestContext. cbn [ctxOf]. apply gwp_grun. eapply gwp_bind; [by apply gwp_pollL|]. intros _ _.
  destruct a as [a|]; [|by apply gwp_refuse]. destruct (_ || _); [by apply gwp_refuse|].
  set (op := NormalizeOperation operation) in *.
  eapply (gwp_bind QR _ _ (fun out => out = List.filter (selects op identity) (OperationOccurrences a service op))).
  { apply (gwp_grange_visited QR _ _ (fun seen out => out = List.filter (selects op identity) seen)); [done|].
    intros seen o out _ ->. eapply gwp_bind; [by apply gwp_pollL|]. intros _ _. apply gwp_ret. rewrite List.filter_app. cbn [List.filter].
    destruct (selects op identity o); [done|by rewrite app_nil_r]. }
  intros selected Hsel. destruct selected as [|occurrence [|]]; [by apply gwp_refuse| |by apply gwp_refuse].
  apply gwp_call. intros n1 Hx. exists a, occurrence. split; [done|]. split; [done|].
  apply (lookupOperation_spec service _ _ _ _ n1). by destruct (lookupOperationContext _ _ _ _ _ n1).1 as [r [e|]].
Qed.

(** C16. The wire lookup picks one record and reads its plan exactly: when it
    succeeds, under any context that stays cancelled once it is, exactly one
    occurrence of the operation in the catalog is known and has the protocol and
    the route of the request; its plan has no diagnostic, every condition in it
    was decided, and the result is the plan's primary mappings that apply and all
    of its dependent ones, in order and with multiplicity, each dependent one
    with the values the request has for it. *)
Theorem lookup_exact (a : option Adapter) (c : context) (service operation : string) (identity : WireIdentity)
    (parameters : Params) (n : nat) (r : LookupResult) :
  ctx_monotone c -> (LookupRequestContext a (Some c) service operation identity parameters n).1 = (r, None) ->
  exists ad occurrence, a = Some ad /\
    List.filter (selects (NormalizeOperation operation) identity) (OperationOccurrences ad service (NormalizeOperation operation)) = [occurrence] /\
    looked_up parameters (oc_Operation occurrence) (Plan occurrence) r.
Proof.
  intros Hmono E. destruct (LookupRequestContext a (Some c) service operation identity parameters n) as [x n'] eqn:El. cbn [fst] in E. subst x.
  pose proof (lookup_late _ _ _ _ _ _ _ _ _ El) as [Hn Hc].
  assert (Hq : quiet c n n').
  { split; [lia|]. intros k Hk. destruct (c k) eqn:Ec; [|done]. exfalso. apply (Hmono k (pred n')); [lia| |done]. by rewrite Ec. }
  pose proof (steady_value _ (steady_lookup a service operation identity parameters) c n) as [_ Hv]. rewrite El in Hv. cbn [fst snd] in Hv.
  specialize (Hv Hq). symmetry in Hv. by apply lookup_selected in Hv.
Qed.
End Steady.

(** ** A task with a role *)

#[local] Instance sample_tables : UnicodeTables := ascii_tables.
Definition sampleRunTask : OperationOccurrence :=
  let run := mkDefinition 11 "ecs" "RunTask" "Write" "" [mkResourceTypeDef 12 "task-definition*" [] ["iam:PassRole"] [13]] EvidenceKnown in
  let pass := mkDefinition 14 "iam" "PassRole" "Write" "" [mkResourceTypeDef 15 "role*" [] [] []] EvidenceKnown in
  let hasRole := mkCondition "overrides.taskRoleArn" "Exists" "" (Some (mkCondition "launchType" "NotEquals" "EXTERNAL" None)) in
  let mappings :=
    [mkMappingEvidence 3 "ecs:RunTask" EvidenceKnown [mkResourceMapping 5 "taskDefinition" "${taskDefinition}" None] [] None [] [] "" "";
     mkMappingEvidence 4 "iam:PassRole" EvidenceKnown [] [] (Some hasRole) [] [] "%%iftruthy%${overrides.taskRoleArn}%%" ""] in
  mkOccurrence (mkWireService "ecs" "2014-11-13" "AmazonEC2ContainerServiceV20141113" ["json"] "json" [])
    (mkOperation 7 "ecs" "RunTask" "RunTaskRequest" "RunTaskResponse"
       (mkRoute "POST" "/" 200 "AmazonEC2ContainerServiceV20141113.RunTask" "AmazonEC2ContainerServiceV20141113" "1.1") [] mappings
       EvidenceKnown EvidenceKnown [])
    (mkPlan "ecs" "RunTask" 7
       (zip_with (fun (ad : ActionReference * ActionDefinition) (md : ActionMapping * bool) => mkStaticMapping ad.1 md.1 ad.2 md.2)
          [(mkAction "ecs" "RunTask", run); (mkAction "iam" "PassRole", pass)] (zip mappings [false; true])) [])%string.
Definition sampleAdapter : Adapter := mkAdapter (fun service op => if (service =? "ecs")%string && (op =? "RunTask")%string then [sampleRunTask] else []).
Definition sampleIdentity : WireIdentity :=
  IamMapper.IamMapper.mkWire ProtocolJSON11 "POST" "/" ∅ "AmazonEC2ContainerServiceV20141113.RunTask".
Definition sampleRole : string := "arn:aws:iam::123456789012:role/task".
Definition sampleParameters (launch : string) : Params :=
  [("taskDefinition", vstring "web:1"); ("launchType", vstring launch); ("Overrides", vobject [("taskRoleArn", vstring sampleRole)])]%string.
Definition sampleLookup (launch : string) : LookupResult * option gerr :=
  LookupRequest (Some sampleAdapter) "ecs" "RunTask" sampleIdentity (sampleParameters launch).
Example pass_role_needed :
  (fun d => (act_Name (dep_Action d), dep_Resources d, dep_Applicability d)) <$> DependencyOccurrences (sampleLookup "FARGATE").1 =
    [("PassRole"%string, [sampleRole], IamMapper.IamMapper.ApplicabilityApplicable)] /\
  (fun d => dep_Applicability d) <$> DependencyOccurrences (sampleLookup "EXTERNAL").1 = [IamMapper.IamMapper.ApplicabilityInapplicable].
Proof. split; vm_compute; reflexivity. Qed.
Lemma lookup_exact_witness :
  (sampleLookup "FARGATE").2 = None /\ looked_up (sampleParameters "FARGATE") (oc_Operation sampleRunTask) (Plan sampleRunTask) (sampleLookup "FARGATE").1.
Proof.
  split; [vm_compute; reflexivity|].
  destruct (lookup_exact (Some sampleAdapter) Background "ecs" "RunTask" sampleIdentity (sampleParameters "FARGATE") 0%nat (sampleLookup "FARGATE").1)
    as (ad & occurrence & [= <-] & Hs & H).
  - by intros i j _ Hi.
  - vm_compute. reflexivity.
  - assert (occurrence = sampleRunTask) as -> by (vm_compute in Hs; injection Hs as <-; reflexivity). exact H.
Defined.
End AdapterSoundness.
