(* ===== verification/CatalogStore.v ===== *)
(** * The compact store of the catalog (iamlivecatalog/catalog.go, types.go)

    A published catalog is one normalised store: strings are identifiers into a
    pool, lists are spans into shared arrays, records refer to each other by
    index.  Every accessor rebuilds a value from it and checks each reference on
    the way; a reference that does not hold makes the whole value unavailable.
    A nil catalog and a catalog without a store are the same to every accessor:
    [None]. *)

From Stdlib Require Import ZArith Lia Ascii.
From stdpp Require Import base gmap strings list.
From S2P Require Import Prelude GoStrings.
From S2P Require Import CatalogTypes.

Module CatalogStore.
Import CatalogTypes.CatalogTypes.

(** ** Records (types.go) *)

Definition invalidStringID : Z := 0.
Definition invalidOccurrenceID : Z := 0.
Definition maxCatalogItems : Z := 2 ^ 32 - 2.
Definition u32 (z : Z) : Z := z mod 2 ^ 32.

Abbreviation stringID := Z (only parsing).
Abbreviation stringSpan := mappingSpan.
Abbreviation mkSpan := mkMappingSpan.

(** A record by its index, with the occurrence that it must still have. *)
Record position := mkPosition { at_index : Z; at_occurrence : Z }.
Record mappingPosition := mkMappingPosition { storeIndex : Z; mp_occurrence : Z; mp_key : string }.
Record compactService := mkCompactService {
  cs_key : stringID; cs_id : stringID; cs_endpoint : stringID; cs_signing : stringID; cs_target : stringID;
  cs_apiVersion : stringID; cs_protocol : stringID; cs_protocols : stringSpan; cs_aliases : stringSpan;
}.
Record compactRoute := mkCompactRoute {
  cr_method : stringID; cr_uri : stringID; cr_discriminator : stringID; cr_target : stringID; cr_jsonVersion : stringID;
  cr_responseCode : Z;
}.
Record compactOperation := mkCompactOperation {
  co_occurrence : Z; co_service : stringID; co_name : stringID; co_input : stringID; co_output : stringID;
  co_route : compactRoute; co_queries : stringSpan; co_state : string; co_mappingState : string;
  co_mappings : list mappingSpan;
}.
Record compactQuery := mkCompactQuery { cq_member : stringID; cq_location : stringID; cq_required : bool }.
Record compactMapping := mkCompactMapping {
  cm_occurrence : Z; cm_action : stringID; cm_state : string; cm_resources : stringSpan; cm_arn : stringSpan;
  cm_conditionMappings : stringSpan; cm_condition : Z; cm_arnOverride : stringID; cm_notice : stringID;
}.
Record compactResourceMapping := mkCompactResourceMapping {
  crm_occurrence : Z; crm_parameter : stringID; crm_template : stringID; crm_condition : Z;
}.
Record compactMapPair := mkCompactMapPair { mpair_key : stringID; mpair_value : stringID; mpair_resource : Z }.
Record compactCondition := mkCompactCondition { cc_lhs : stringID; cc_op : stringID; cc_rhs : stringID; cc_and : Z }.
Record compactAction := mkCompactAction {
  ca_occurrence : Z; ca_service : stringID; ca_name : stringID; ca_access : stringID; ca_description : stringID;
  ca_resources : stringSpan; ca_state : string;
}.
Record compactResource := mkCompactResource {
  cre_occurrence : Z; cre_name : stringID; cre_conditionKeys : stringSpan; cre_dependentActions : stringSpan;
  cre_dependentIDs : list Z; cre_dependents : stringSpan;
}.
Record compactDependent := mkCompactDependent { cd_occurrence : Z; cd_action : stringID }.
Record compactStaticMapping := mkCompactStaticMapping { csm_mapping : Z; csm_action : Z; csm_dependent : bool }.
Record compactPlan := mkCompactPlan { cp_mappings : list compactStaticMapping; cp_diagnostics : list ValidationDiagnostic }.

(** The pool while it grows ([strings], [stringIndex]) and once packed
    ([stringBlob], [stringOffsets]). *)
Record compactStore := mkStore {
  pool : list string; stringBlob : string; stringOffsets : list Z; stringIndex : gmap string Z;
  services : list compactService; operations : list compactOperation; serviceOps : list (list position);
  operationIndex : option (gmap string (list position)); occurrences : gmap string (list position);
  mappings : list compactMapping; mappingIndex : gmap string (list mappingSpan); mappingOrder : list mappingPosition;
  actions : list compactAction; actionIndex : gmap string (list position); actionOrder : list position;
  resources : list compactResource; mappingResources : list compactResourceMapping; dependents : list compactDependent;
  conditions : list compactCondition; mapPairs : list compactMapPair; queryRecords : list compactQuery; refs : list stringID;
  compactPlans : list compactPlan;
}.

(** ** References *)

(** [l[i]] under a check of the bounds. *)
Definition at_ {A} (l : list A) (i : Z) : option A := if i <? 0 then None else l !! Z.to_nat i.
Definition lengthZ {A} (l : list A) : Z := Z.of_nat (List.length l).

Definition compactStringCount (s : compactStore) : Z :=
  if 0 <? lengthZ (stringOffsets s) then lengthZ (stringOffsets s) - 1 else lengthZ (pool s).
Definition validStringID (s : compactStore) (id : Z) : bool :=
  if id =? invalidStringID then false
  else if 0 <? lengthZ (stringOffsets s) then id + 1 <? lengthZ (stringOffsets s)
  else id <? compactStringCount s.
Definition compactString (s : compactStore) (id : Z) : option string :=
  if id =? invalidStringID then Some EmptyString
  else if negb (validStringID s id) then None
  else if lengthZ (stringOffsets s) =? 0 then at_ (pool s) id
  else
    first ← at_ (stringOffsets s) id;
    last ← at_ (stringOffsets s) (u32 (id + 1));
    if (last <? first) || (slen (stringBlob s) <? last) then None
    else Some (str_take (Z.to_nat (last - first)) (str_drop (Z.to_nat first) (stringBlob s))).
Definition validSpan (sp : stringSpan) (length : Z) : bool := sp_start sp + sp_count sp <=? length.
(** The elements [l[start], ..., l[start+count-1]] of a checked span. *)
Definition spanned {A} (l : list A) (sp : stringSpan) : option (list A) :=
  if validSpan sp (lengthZ l) then mapM (fun i => at_ l (u32 (sp_start sp + i))) (seqZ 0 (sp_count sp)) else None.
Definition stringsOf (s : compactStore) (sp : stringSpan) : option (list string) :=
  ids ← spanned (refs s) sp; mapM (compactString s) ids.

(** ** Mappings *)

(** [walk]; a condition seen again is refused, so one more turn than there are
    conditions is enough. *)
Fixpoint walkCondition (fuel : nat) (s : compactStore) (i : Z) (seen : list Z) : option (option Condition) :=
  match fuel with
  | O => None
  | S fuel =>
    if i <? 0 then Some None
    else
      r ← at_ (conditions s) i;
      if bool_decide (i ∈ seen) then None
      else
        lhs ← compactString s (cc_lhs r);
        op ← compactString s (cc_op r);
        rhs ← compactString s (cc_rhs r);
        and ← walkCondition fuel s (cc_and r) (i :: seen);
        Some (Some (mkCondition lhs op rhs and))
  end.
Definition conditionAt (s : compactStore) (index : Z) : option (option Condition) :=
  if index =? -1 then Some None
  else if index <? -1 then None
  else if lengthZ (conditions s) <=? index then None
  else walkCondition (S (List.length (conditions s))) s index [].

Definition resourceMappingAt (s : compactStore) (r : compactResourceMapping) : option ResourceMapping :=
  p ← compactString s (crm_parameter r);
  t ← compactString s (crm_template r);
  if crm_occurrence r =? invalidOccurrenceID then None
  else condition ← conditionAt s (crm_condition r); Some (mkResourceMapping (crm_occurrence r) p t condition).
Definition arnPairAt (s : compactStore) (p : compactMapPair) : option (string * string) :=
  k ← compactString s (mpair_key p);
  if negb (mpair_resource p =? -1) then None else v ← compactString s (mpair_value p); Some (k, v).
Definition conditionPairAt (s : compactStore) (p : compactMapPair) : option (string * ResourceMapping) :=
  k ← compactString s (mpair_key p);
  if negb (mpair_value p =? invalidStringID) then None
  else r ← at_ (mappingResources s) (mpair_resource p); rm ← resourceMappingAt s r; Some (k, rm).
Definition setAll {V} (kvs : list (string * V)) : list (string * V) := fold_left (fun m kv => mapSet m kv.1 kv.2) kvs [].
Definition mappingView (s : compactStore) (m : compactMapping) : option ActionMapping :=
  if cm_occurrence m =? invalidOccurrenceID then None
  else
    action ← compactString s (cm_action m);
    override ← compactString s (cm_arnOverride m);
    notice ← compactString s (cm_notice m);
    rs ← spanned (mappingResources s) (cm_resources m);
    arn ← spanned (mapPairs s) (cm_arn m);
    cms ← spanned (mapPairs s) (cm_conditionMappings m);
    condition ← conditionAt s (cm_condition m);
    rs ← mapM (resourceMappingAt s) rs;
    arn ← mapM (arnPairAt s) arn;
    cms ← mapM (conditionPairAt s) cms;
    Some (mkMappingEvidence (cm_occurrence m) action (cm_state m) rs (setAll arn) condition (setAll cms) cms.*1 override notice).
Definition mappingAt (s : compactStore) (index : Z) : option ActionMapping := at_ (mappings s) index ≫= mappingView s.

(** ** Operations and services *)

Definition routeAt (s : compactStore) (r : compactRoute) : option Route :=
  method ← compactString s (cr_method r);
  uri ← compactString s (cr_uri r);
  discriminator ← compactString s (cr_discriminator r);
  target ← compactString s (cr_target r);
  version ← compactString s (cr_jsonVersion r);
  Some (mkRoute method uri (cr_responseCode r) discriminator target version).
Definition queryAt (s : compactStore) (q : compactQuery) : option QueryBinding :=
  member ← compactString s (cq_member q); location ← compactString s (cq_location q); Some (mkBinding member location (cq_required q)).
Definition validMappingSpan (sp : mappingSpan) (length : Z) : bool := sp_start sp + sp_count sp <=? length.
Definition spanIndexes (s : compactStore) (sp : mappingSpan) : option (list Z) :=
  if validMappingSpan sp (lengthZ (mappings s)) then Some ((fun i => u32 (sp_start sp + i)) <$> seqZ 0 (sp_count sp)) else None.
Definition operationView (s : compactStore) (r : compactOperation) : option Operation :=
  if co_occurrence r =? invalidOccurrenceID then None
  else
    service ← compactString s (co_service r);
    name ← compactString s (co_name r);
    input ← compactString s (co_input r);
    output ← compactString s (co_output r);
    route ← routeAt s (co_route r);
    qs ← spanned (queryRecords s) (co_queries r);
    qs ← mapM (queryAt s) qs;
    indexes ← mapM (spanIndexes s) (co_mappings r);
    ms ← mapM (mappingAt s) (concat indexes);
    Some (mkOperation (co_occurrence r) service name input output route qs ms (co_mappingState r) (co_state r) []).
Definition operationAt (s : compactStore) (index : Z) : option Operation := at_ (operations s) index ≫= operationView s.

(** The operation that a position names, if it is still there. *)
Definition operationOf (s : compactStore) (p : position) : option compactOperation :=
  r ← at_ (operations s) (at_index p); if co_occurrence r =? at_occurrence p then Some r else None.
Definition serviceAt (s : compactStore) (index : Z) : option ServiceModel :=
  r ← at_ (services s) index;
  key ← compactString s (cs_key r);
  id ← compactString s (cs_id r);
  endpoint ← compactString s (cs_endpoint r);
  signing ← compactString s (cs_signing r);
  target ← compactString s (cs_target r);
  version ← compactString s (cs_apiVersion r);
  protocol ← compactString s (cs_protocol r);
  ops ← at_ (serviceOps s) index;
  protocols ← stringsOf s (cs_protocols r);
  aliases ← stringsOf s (cs_aliases r);
  views ← mapM (fun p =>
            if at_occurrence p =? invalidOccurrenceID then None
            else _ ← operationOf s p; view ← operationAt s (at_index p);
                 if (o_Service view =? endpoint)%string then Some view else None) ops;
  Some (mkService key id endpoint signing target version protocols protocol aliases views).
Definition wireServiceAt (s : compactStore) (index : Z) : option WireService :=
  r ← at_ (services s) index;
  endpoint ← compactString s (cs_endpoint r);
  version ← compactString s (cs_apiVersion r);
  target ← compactString s (cs_target r);
  protocol ← compactString s (cs_protocol r);
  _ ← at_ (serviceOps s) index;
  protocols ← stringsOf s (cs_protocols r);
  Some (mkWireService endpoint version target protocols protocol []).
Definition wireOperationAt (s : compactStore) (index : Z) : option WireOperation :=
  r ← at_ (operations s) index;
  if co_occurrence r =? invalidOccurrenceID then None
  else
    qs ← spanned (queryRecords s) (co_queries r);
    name ← compactString s (co_name r);
    route ← routeAt s (co_route r);
    qs ← mapM (queryAt s) qs;
    Some (mkWireOperation name (co_state r) route qs).

(** ** Action definitions *)

Definition dependentAt (s : compactStore) (x : string * Z * compactDependent) : option (string * Z) :=
  let '(value, id, dependency) := x in
  action ← compactString s (cd_action dependency);
  if (id =? invalidOccurrenceID) || negb (cd_occurrence dependency =? id) || negb (action =? value)%string then None
  else Some (value, id).
Definition resourceAt (s : compactStore) (r : compactResource) : option ResourceTypeDef :=
  if (cre_occurrence r =? invalidOccurrenceID) || negb (lengthZ (cre_dependentIDs r) =? sp_count (cre_dependentActions r)) ||
     negb (sp_count (cre_dependents r) =? sp_count (cre_dependentActions r))
  then None
  else
    name ← compactString s (cre_name r);
    keys ← stringsOf s (cre_conditionKeys r);
    values ← stringsOf s (cre_dependentActions r);
    ds ← spanned (dependents s) (cre_dependents r);
    pairs ← mapM (dependentAt s) (zip (zip values (cre_dependentIDs r)) ds);
    Some (mkResourceTypeDef (cre_occurrence r) name keys pairs.*1 pairs.*2).
Definition actionView (s : compactStore) (r : compactAction) : option ActionDefinition :=
  if ca_occurrence r =? invalidOccurrenceID then None
  else
    rs ← spanned (resources s) (ca_resources r);
    service ← compactString s (ca_service r);
    name ← compactString s (ca_name r);
    access ← compactString s (ca_access r);
    description ← compactString s (ca_description r);
    views ← mapM (resourceAt s) rs;
    Some (mkDefinition (ca_occurrence r) service name access description views (ca_state r)).
Definition actionAt (s : compactStore) (index : Z) : option ActionDefinition := at_ (actions s) index ≫= actionView s.
Definition validActionPosition (s : compactStore) (p : position) : bool :=
  negb (at_occurrence p =? invalidOccurrenceID) &&
  match at_ (actions s) (at_index p) with Some r => ca_occurrence r =? at_occurrence p | None => false end.

(** ** Plans (validation.go) *)

Definition staticMappingAt (s : compactStore) (item : compactStaticMapping) : option StaticMapping :=
  mapping ← mappingAt s (csm_mapping item);
  definition ← actionAt s (csm_action item);
  match SplitN (m_Action mapping) ":" 2 with
  | [service; name] => Some (mkStaticMapping (mkAction service name) mapping definition (csm_dependent item))
  | _ => None
  end.
Definition staticPlan (s : compactStore) (index : Z) : option StaticPlan :=
  operation ← at_ (operations s) index;
  compact ← at_ (compactPlans s) index;
  service ← compactString s (co_service operation);
  name ← compactString s (co_name operation);
  ms ← mapM (staticMappingAt s) (cp_mappings compact);
  Some (mkPlan service name (co_occurrence operation) ms (cp_diagnostics compact)).
End CatalogStore.
