(* ===== verification/CatalogAccess.v ===== *)
(** * The accessors of the catalog (iamlivecatalog/catalog.go)

    What the catalog answers: services and operations by name, every occurrence
    of an operation with its plan, action definitions, and the visitors.  An
    accessor answers nothing when any reference it reads is broken.  A visitor is
    a callback that may fail, with the caller's state. *)

From Stdlib Require Import ZArith Lia Ascii.
From stdpp Require Import base gmap strings list.
From S2P Require Import Prelude GoStrings.
From S2P Require Import CatalogTypes.
From S2P Require Import CatalogStore.

Module CatalogAccess.
Import CatalogTypes.CatalogTypes CatalogStore.CatalogStore.

Definition nul : string := String (chr 0) EmptyString.
Definition unavailable : error := ErrNew "catalog unavailable".

(** A loop that calls back, until an error. *)
Fixpoint visit {X S} (body : X -> S -> S * option error) (xs : list X) (st : S) : S * option error :=
  match xs with
  | [] => (st, None)
  | x :: xs => match body x st with (st, None) => visit body xs st | (st, Some err) => (st, Some err) end
  end.
Definition stop {S} (st : S) (msg : string) : S * option error := (st, Some (ErrNew msg)).

Section Access.
Context `{U : UnicodeTables}.

Definition operationKey (service operation : string) : string :=
  (ToLower (TrimSpace service) ++ nul ++ ToLower (TrimSpace operation))%string.
Definition lookupAll {V} (m : gmap string (list V)) (k : string) : list V := default [] (m !! k).

(** ** Services *)

Definition ServiceIdentities (c : option compactStore) : list ServiceIdentity :=
  match c with
  | None => []
  | Some s => default [] (mapM (fun r =>
      endpoint ← compactString s (cs_endpoint r); signing ← compactString s (cs_signing r); Some (mkIdentity endpoint signing)) (services s))
  end.
Definition Services (c : option compactStore) : list ServiceModel :=
  match c with
  | None => []
  | Some s => default [] (mapM (serviceAt s) (seqZ 0 (lengthZ (services s))))
  end.
Definition WireServices (c : option compactStore) : list WireService :=
  match c with
  | None => []
  | Some s => default [] (mapM (fun i =>
      w ← wireServiceAt s i;
      ops ← at_ (serviceOps s) i;
      os ← mapM (fun p => _ ← operationOf s p; wireOperationAt s (at_index p)) ops;
      Some (mkWireService (EndpointPrefix w) (APIVersion w) (TargetPrefix w) (Protocols w) (ws_Protocol w) os))
      (seqZ 0 (lengthZ (services s))))
  end.
Definition ForEachWireOperation {S} (c : option compactStore) (fn : option (WireService -> WireOperation -> S -> S * option error)) (st : S)
  : S * option error :=
  match c, fn with
  | None, _ => (st, Some unavailable)
  | _, None => stop st "wire operation visitor is nil"
  | Some s, Some fn =>
    visit (fun i st =>
      match wireServiceAt s i, at_ (serviceOps s) i with
      | Some service, Some ops =>
        visit (fun p st =>
          match operationOf s p with
          | None => stop st "catalog operation index is corrupt"
          | Some _ =>
            match wireOperationAt s (at_index p) with
            | None => stop st "catalog wire operation is corrupt"
            | Some operation => fn service operation st
            end
          end) ops st
      | _, _ => stop st "catalog canonical service is corrupt"
      end) (seqZ 0 (lengthZ (services s))) st
  end.

(** Whether one of the aliases is the name: the loop stops at the first that is. *)
Fixpoint aliasNamed (s : compactStore) (normalized : string) (ids : list Z) : option bool :=
  match ids with
  | [] => Some false
  | id :: ids =>
    value ← compactString s id; if (ToLower value =? normalized)%string then Some true else aliasNamed s normalized ids
  end.
Definition storeServiceIndex (c : option compactStore) (name : string) : list Z :=
  match c with
  | None => []
  | Some s =>
    let normalized := ToLower (TrimSpace name) in
    match mapM (fun r => ids ← spanned (refs s) (cs_aliases r); aliasNamed s normalized ids) (services s) with
    | None => []
    | Some named => (fun x => x.1) <$> List.filter snd (zip (seqZ 0 (lengthZ (services s))) named)
    end
  end.
Definition Service (c : option compactStore) (name : string) : result ServiceModel :=
  match c with
  | None => Err unavailable
  | Some s =>
    match storeServiceIndex c name with
    | [] => Err (ErrFmt "unknown service %q" [name])
    | [i] =>
      match serviceAt s i with
      | Some service => Ok service
      | None => Err (ErrNew "catalog service canonical record is corrupt")
      end
    | _ => Err (ErrFmt "ambiguous service %q" [name])
    end
  end.

(** ** Operations *)

Definition Operations (c : option compactStore) : list Operation :=
  match c with
  | None => []
  | Some s => default [] (mapM (operationAt s) (seqZ 0 (lengthZ (operations s))))
  end.
(** The positions of one service's operations of that name. *)
Definition namedPositions (s : compactStore) (operation : string) (serviceIndex : Z) : option (list position) :=
  ops ← at_ (serviceOps s) serviceIndex;
  named ← mapM (fun p =>
            if at_occurrence p =? invalidOccurrenceID then None
            else r ← operationOf s p; name ← compactString s (co_name r); Some (p, EqualFold name operation)) ops;
  Some ((fun x => x.1) <$> List.filter snd named).
Definition OperationNamed (c : option compactStore) (service operation : string) : result Operation :=
  match c with
  | None => Err unavailable
  | Some s =>
    let corrupt := Err (ErrNew "catalog operation index is corrupt") in
    match mapM (namedPositions s (TrimSpace operation)) (storeServiceIndex c service) with
    | None => corrupt
    | Some found =>
      match concat found with
      | [] => Err (ErrFmt "unknown operation %s:%s" [service; TrimSpace operation])
      | [p] => match operationAt s (at_index p) with Some view => Ok view | None => corrupt end
      | _ => Err (ErrFmt "ambiguous operation %s:%s" [service; TrimSpace operation])
      end
    end
  end.

(** The first service whose operations hold that position. *)
Fixpoint serviceHolding (p : position) (serviceOps : list (list position)) (i : Z) : Z :=
  match serviceOps with
  | [] => -1
  | ops :: rest =>
    if existsb (fun q => (at_index q =? at_index p) && (at_occurrence q =? at_occurrence p)) ops then i
    else serviceHolding p rest (i + 1)
  end.
Definition occurrenceAt (s : compactStore) (p : position) : option OperationOccurrence :=
  _ ← operationOf s p;
  view ← operationAt s (at_index p);
  service ← serviceAt s (serviceHolding p (serviceOps s) 0);
  plan ← staticPlan s (at_index p);
  Some (mkOccurrence (mkWireService (s_EndpointPrefix service) (s_APIVersion service) (s_TargetPrefix service)
                        (s_Protocols service) (s_Protocol service) []) view plan).
Definition OperationOccurrences (c : option compactStore) (service operation : string) : list OperationOccurrence :=
  match c with
  | None => []
  | Some s => default [] (mapM (occurrenceAt s) (lookupAll (occurrences s) (operationKey service operation)))
  end.
Definition OperationCardinality (c : option compactStore) (service operation : string) : Z :=
  match c with
  | None => 0
  | Some s =>
    let positions := lookupAll (occurrences s) (operationKey service operation) in
    if forallb (fun p => negb (at_occurrence p =? invalidOccurrenceID) && bool_decide (is_Some (operationOf s p))) positions
    then lengthZ positions else 0
  end.

Definition ForEachOperation {S} (c : option compactStore) (fn : option (string -> Operation -> S -> S * option error)) (st : S)
  : S * option error :=
  match c, fn with
  | None, _ => (st, Some unavailable)
  | _, None => stop st "operation visitor is nil"
  | Some s, Some fn =>
    visit (fun (ir : Z * compactService) st =>
      match compactString s (cs_endpoint ir.2), at_ (serviceOps s) ir.1 with
      | Some endpoint, Some ops =>
        visit (fun p st =>
          if at_occurrence p =? invalidOccurrenceID then stop st "catalog operation index is corrupt"
          else match operationOf s p with
          | None => stop st "catalog operation index is corrupt"
          | Some _ =>
            match operationAt s (at_index p) with
            | Some operation =>
              if (o_Service operation =? endpoint)%string then fn endpoint operation st
              else stop st "catalog operation canonical record is corrupt"
            | None => stop st "catalog operation canonical record is corrupt"
            end
          end) ops st
      | _, _ => stop st "catalog operation index is corrupt"
      end) (zip (seqZ 0 (lengthZ (services s))) (services s)) st
  end.
Definition ForEachOperationOccurrence {S} (c : option compactStore) (fn : option (OperationOccurrence -> S -> S * option error)) (st : S)
  : S * option error :=
  match c, fn with
  | None, _ => (st, Some unavailable)
  | _, None => stop st "operation occurrence visitor is nil"
  | Some s, Some fn =>
    visit (fun (iops : Z * list position) st =>
      match wireServiceAt s iops.1 with
      | None => stop st "catalog service index is corrupt"
      | Some service =>
        visit (fun p st =>
          match operationOf s p, operationAt s (at_index p), staticPlan s (at_index p) with
          | None, _, _ => stop st "catalog operation index is corrupt"
          | _, None, _ => stop st "catalog operation canonical record is corrupt"
          | _, _, None => stop st "catalog static plan index is corrupt"
          | Some _, Some operation, Some plan =>
            if negb (o_Service operation =? EndpointPrefix service)%string then stop st "catalog operation service index is corrupt"
            else fn (mkOccurrence service operation plan) st
          end) iops.2 st
      end) (zip (seqZ 0 (lengthZ (serviceOps s))) (serviceOps s)) st
  end.

(** ** Mappings and action definitions *)

Definition InternedStringCardinality (c : option compactStore) : Z :=
  match c with None => 0 | Some s => compactStringCount s - 1 end.
Definition MappingOccurrenceCardinality (c : option compactStore) : Z :=
  match c with
  | None => 0
  | Some s => if existsb (fun m => cm_occurrence m =? invalidOccurrenceID) (mappings s) then 0 else lengthZ (mappings s)
  end.
Definition compactMappingList (s : compactStore) (indices : list Z) : option (list ActionMapping) := mapM (mappingAt s) indices.
Definition MappingOccurrences (c : option compactStore) (service operation : string) : list ActionMapping :=
  match c with
  | None => []
  | Some s =>
    default [] (indexes ← mapM (spanIndexes s) (lookupAll (mappingIndex s) (operationKey service operation));
                compactMappingList s (concat indexes))
  end.
Definition orderedMapping (s : compactStore) (p : mappingPosition) : option ActionMapping :=
  m ← at_ (mappings s) (storeIndex p);
  if negb (cm_occurrence m =? mp_occurrence p) then None else mappingAt s (storeIndex p).
Definition AllMappingOccurrences (c : option compactStore) : list ActionMapping :=
  match c with None => [] | Some s => default [] (mapM (orderedMapping s) (mappingOrder s)) end.
Definition ForEachMappingOccurrence {S} (c : option compactStore) (fn : option (ActionMapping -> S -> S * option error)) (st : S)
  : S * option error :=
  match c, fn with
  | None, _ => (st, Some unavailable)
  | _, None => stop st "mapping visitor is nil"
  | Some s, Some fn =>
    visit (fun p st =>
      match at_ (mappings s) (storeIndex p) with
      | Some m =>
        if negb (cm_occurrence m =? mp_occurrence p) then stop st "catalog mapping occurrence index is corrupt"
        else match mappingAt s (storeIndex p) with
             | Some view => fn view st
             | None => stop st "catalog mapping occurrence is corrupt"
             end
      | None => stop st "catalog mapping occurrence index is corrupt"
      end) (mappingOrder s) st
  end.

Definition definitionAt (s : compactStore) (p : position) : option ActionDefinition :=
  if validActionPosition s p then actionAt s (at_index p) else None.
Definition Actions (c : option compactStore) : list ActionDefinition :=
  match c with None => [] | Some s => default [] (mapM (definitionAt s) (actionOrder s)) end.
Definition actionKey (service name : string) : string := (ToLower service ++ nul ++ ToLower name)%string.
Definition ActionNamed (c : option compactStore) (action : string) : result ActionDefinition :=
  match c with
  | None => Err unavailable
  | Some s =>
    match SplitN action ":" 2 with
    | [service; name] =>
      match lookupAll (actionIndex s) (actionKey service name) with
      | [] => Err (ErrFmt "unknown action %q" [action])
      | [p] =>
        if negb (validActionPosition s p) then Err (ErrNew "catalog action index is corrupt")
        else match actionAt s (at_index p) with
        | Some view =>
          if (def_State view =? EvidenceContradictory)%string then Err (ErrFmt "contradictory action evidence %q" [action]) else Ok view
        | None => Err (ErrFmt "contradictory action evidence %q" [action])
        end
      | _ => Err (ErrFmt "contradictory action evidence %q" [action])
      end
    | _ => Err (ErrFmt "malformed action %q" [action])
    end
  end.
Definition ActionDefinitionOccurrences (c : option compactStore) (action : string) : list ActionDefinition :=
  match c with
  | None => []
  | Some s =>
    match SplitN action ":" 2 with
    | [service; name] => default [] (mapM (definitionAt s) (lookupAll (actionIndex s) (actionKey service name)))
    | _ => []
    end
  end.
Definition ResourceTypeOccurrences (c : option compactStore) (action : string) : list ResourceTypeDef :=
  concat (def_Resources <$> ActionDefinitionOccurrences c action).
Definition DependentActionOccurrences (c : option compactStore) (action : string) : list string :=
  concat (DependentActions <$> ResourceTypeOccurrences c action).

(** The visitors of definitions, of their resources and of their dependents. *)
Definition visitDefinitions {S} (c : option compactStore) (missing corrupt : string)
    (fn : option (ActionDefinition -> S -> S * option error)) (st : S) : S * option error :=
  match c, fn with
  | None, _ => (st, Some unavailable)
  | _, None => stop st missing
  | Some s, Some fn =>
    visit (fun p st => match definitionAt s p with Some view => fn view st | None => stop st corrupt end) (actionOrder s) st
  end.
Definition ForEachActionDefinitionOccurrence {S} (c : option compactStore) (fn : option (ActionDefinition -> S -> S * option error)) (st : S)
  : S * option error := visitDefinitions c "action visitor is nil" "catalog action occurrence is corrupt" fn st.
Definition ForEachResourceTypeOccurrence {S} (c : option compactStore) (fn : option (ResourceTypeDef -> S -> S * option error)) (st : S)
  : S * option error :=
  visitDefinitions c "resource visitor is nil" "catalog resource occurrence is corrupt"
    ((fun fn definition => visit fn (def_Resources definition)) <$> fn) st.
Definition ForEachDependentActionOccurrence {S} (c : option compactStore) (fn : option (string -> S -> S * option error)) (st : S)
  : S * option error :=
  visitDefinitions c "dependent visitor is nil" "catalog dependent occurrence is corrupt"
    ((fun fn definition => visit (fun r => visit fn (DependentActions r)) (def_Resources definition)) <$> fn) st.
End Access.
End CatalogAccess.
