(* ===== verification/CatalogPlan.v ===== *)
(** * Static plans of the catalog (iamlivecatalog/validation.go)

    When the catalog is loaded, each operation's mappings are checked once against
    the action definitions: each mapped action has one known definition, and the
    mapped actions are those of the roots and of the dependencies that the
    definitions name, occurrence by occurrence.  What does not agree is a
    diagnostic of the plan, and a plan with diagnostics is not used.  The walk over
    the dependencies has a stack and a budget of steps; it cannot nest deeper than
    there are actions, which is the fuel. *)

From Stdlib Require Import ZArith Lia Ascii.
From stdpp Require Import base gmap strings list.
From S2P Require Import Prelude GoStrings.
From S2P Require Import CatalogTypes.
From S2P Require Import CatalogStore.
From S2P Require Import CatalogAccess.

Module CatalogPlan.
Import CatalogTypes.CatalogTypes CatalogStore.CatalogStore CatalogAccess.CatalogAccess.

Definition maxPlanDiagnostics : Z := 32.
Definition maxStaticTraversal : Z := 2 ^ 20.

(** A loop that may fail. *)
Fixpoint foldM {S X} (f : X -> S -> result S) (xs : list X) (st : S) : result S :=
  match xs with
  | [] => Ok st
  | x :: xs => match f x st with Ok st => foldM f xs st | Err err => Err err end
  end.
Definition need {A} (o : option A) (msg : string) : result A := match o with Some a => Ok a | None => Err (ErrNew msg) end.

Record expectedMapping := mkExpected { ex_key : string; sourceOccurrence : Z; resourceOccurrence : Z; ex_dependencyID : Z }.
Record planMapping := mkPlanMapping { pm_mapping : Z; pm_action : Z; pm_key : string; pm_dependent : bool }.
Record planEdge := mkPlanEdge { ed_key : string; ed_resource : Z; ed_dependencyID : Z; ed_index : Z }.

(** ** Diagnostics *)

(** The first diagnostic that is not a cycle gives way to one. *)
Fixpoint replaceOther (d : ValidationDiagnostic) (ds : list ValidationDiagnostic) : list ValidationDiagnostic :=
  match ds with
  | [] => []
  | old :: ds => if negb (d_Code old =? ValidationCyclic)%string then d :: ds else old :: replaceOther d ds
  end.
Definition diagnostic (d : ValidationDiagnostic) (ds : list ValidationDiagnostic) : list ValidationDiagnostic :=
  if maxPlanDiagnostics <=? lengthZ ds
  then if (d_Code d =? ValidationCyclic)%string then replaceOther d ds else ds
  else ds ++ [d].
Definition validationState (state : string) : string :=
  if (state =? EvidenceAbsent)%string then ValidationMissing
  else if (state =? EvidenceContradictory)%string then ValidationContradictory
  else ValidationIncomplete.

Section Plan.
Context `{U : UnicodeTables}.

Definition staticActionKey (value : string) : option string :=
  match Split value ":" with
  | [service; name] =>
    if (service =? "")%string || (name =? "")%string ||
       bytes_any (fun b => (b =? 32) || (b =? 9) || (b =? 13) || (b =? 10)) value
    then None else Some (ToLower service ++ nul ++ ToLower name)%string
  | _ => None
  end.
(** [strings.Replace(value, "\x00", ":", 1)]. *)
Definition displayActionKey (value : string) : string :=
  match index_byte value 0 with Some i => (str_take i value ++ ":" ++ str_drop (S i) value)%string | None => value end.

(** ** The mappings with a definition *)

Section Operation.
Context (s : compactStore) (service operation : string).

Definition report (code action related : string) (occurrence relatedOccurrence : Z) (detail : string)
  : list ValidationDiagnostic -> list ValidationDiagnostic :=
  diagnostic (mkDiagnostic code service operation action related occurrence relatedOccurrence detail).

Definition collected : Type := list ValidationDiagnostic * list planMapping.
Definition collectMapping (index : Z) (st : collected) : result collected :=
  let (ds, ms) := st in
  mapping ← need (at_ (mappings s) index) "catalog: compact mapping span is corrupt";
  action ← need (compactString s (cm_action mapping)) "catalog: compact mapping action is corrupt";
  let occurrence := cm_occurrence mapping in
  match staticActionKey action with
  | None => Ok (report ValidationIncomplete action "" occurrence 0 "malformed action mapping" ds, ms)
  | Some key =>
    match lookupAll (actionIndex s) key with
    | first :: _ :: _ =>
      Ok (report ValidationAmbiguous action "" occurrence (at_occurrence first) "action definition has multiple occurrences" ds, ms)
    | definitions =>
      if negb (cm_state mapping =? EvidenceKnown)%string
      then Ok (report (validationState (cm_state mapping)) action "" occurrence 0 "action mapping evidence is not known" ds, ms)
      else match definitions with
      | [] => Ok (report ValidationMissing action "" occurrence 0 "action definition is absent" ds, ms)
      | definition :: _ =>
        r ← need (at_ (actions s) (at_index definition)) "catalog: compact action index is corrupt";
        if negb (ca_occurrence r =? at_occurrence definition) then Err (ErrNew "catalog: compact action index is corrupt")
        else if negb (ca_state r =? EvidenceKnown)%string
        then Ok (report (validationState (ca_state r)) action "" occurrence (at_occurrence definition) "action definition is not known" ds, ms)
        else Ok (ds, ms ++ [mkPlanMapping index (at_index definition) key false])
      end
    end
  end.
Definition collectSpan (sp : mappingSpan) (st : collected) : result collected :=
  if negb (validMappingSpan sp (lengthZ (mappings s))) then Err (ErrNew "catalog: compact mapping span is corrupt")
  else foldM collectMapping ((fun i => u32 (sp_start sp + i)) <$> seqZ 0 (sp_count sp)) st.

(** ** Dependency edges *)

Definition edgeAt {S} (resource : compactResource) (fn : planEdge -> S -> result S) (id : Z * compactDependent) (st : S) : result S :=
  action ← need (compactString s (cd_action id.2)) "catalog: compact dependency action is corrupt";
  fn (mkPlanEdge (default EmptyString (staticActionKey action)) (cre_occurrence resource) (cd_occurrence id.2) id.1) st.
Definition edgesAt {S} (fn : planEdge -> S -> result S) (resource : compactResource) (st : S) : result S :=
  ds ← need (spanned (dependents s) (cre_dependents resource)) "catalog: compact dependency span is corrupt";
  foldM (edgeAt resource fn) (zip (seqZ 0 (lengthZ ds)) ds) st.
Definition forEachCompactEdge {S} (actionIndex : Z) (fn : planEdge -> S -> result S) (st : S) : result S :=
  action ← need (at_ (actions s) actionIndex) "catalog: compact action index is corrupt";
  rs ← need (spanned (resources s) (ca_resources action)) "catalog: compact action resource span is corrupt";
  foldM (edgesAt fn) rs st.

(** The actions that some mapped action depends on. *)
Definition nameEdges (m : planMapping) (names : list string) : result (list string) :=
  forEachCompactEdge (pm_action m) (fun edge names => Ok (if (ed_key edge =? "")%string then names else ed_key edge :: names)) names.

(** ** The walk over the dependencies *)

Record walk := mkWalk {
  wk_diagnostics : list ValidationDiagnostic; wk_expected : list expectedMapping; wk_stack : gset Z;
  wk_cycles : list (Z * Z * Z * Z); wk_traversed : Z; wk_budgetReported : bool;
}.
Definition say (d : list ValidationDiagnostic -> list ValidationDiagnostic) (w : walk) : walk :=
  mkWalk (d (wk_diagnostics w)) (wk_expected w) (wk_stack w) (wk_cycles w) (wk_traversed w) (wk_budgetReported w).
Definition expect (e : expectedMapping) (w : walk) : walk :=
  mkWalk (wk_diagnostics w) (wk_expected w ++ [e]) (wk_stack w) (wk_cycles w) (wk_traversed w) (wk_budgetReported w).
Definition step (w : walk) : walk :=
  mkWalk (wk_diagnostics w) (wk_expected w) (wk_stack w) (wk_cycles w) (wk_traversed w + 1) (wk_budgetReported w).
Definition stacked (st : gset Z) (w : walk) : walk :=
  mkWalk (wk_diagnostics w) (wk_expected w) st (wk_cycles w) (wk_traversed w) (wk_budgetReported w).
Definition overBudget (sourceOccurrence : Z) (w : walk) : walk :=
  if wk_budgetReported w then w
  else mkWalk (report ValidationIncomplete "" "" sourceOccurrence 0 "dependency occurrence expansion exceeds parser bound" (wk_diagnostics w))
         (wk_expected w) (wk_stack w) (wk_cycles w) (wk_traversed w) true.
(** A cycle is reported once. *)
Definition reportCycle (identity target : Z) (edge : planEdge) (source : string) (occurrence : Z) (w : walk) : walk :=
  let cycle := (if target =? invalidOccurrenceID then u32 (ed_index edge) else identity, ed_resource edge, ed_dependencyID edge, target) in
  if bool_decide (cycle ∈ wk_cycles w) then w
  else mkWalk (report ValidationCyclic (displayActionKey (ed_key edge)) source (ed_resource edge) occurrence
                 "dependency graph is cyclic" (wk_diagnostics w))
         (wk_expected w) (wk_stack w) (cycle :: wk_cycles w) (wk_traversed w) (wk_budgetReported w).

Definition outOfFuel : error := ErrNew "walk: out of fuel".
(** One edge of the visited action; [visit] is the recursive call. *)
Definition visitEdge (visit : string -> Z -> Z -> bool -> walk -> result walk) (source : string) (identity sourceOccurrence : Z)
    (countEdges : bool) (edge : planEdge) (w : walk) : result walk :=
  let key := ed_key edge in
  let relate code occurrence detail := report code (displayActionKey key) (displayActionKey source) (ed_resource edge) occurrence detail in
  if (key =? "")%string
  then Ok (say (report ValidationIncomplete "" (displayActionKey source) (ed_resource edge) (ed_dependencyID edge) "malformed dependency edge") w)
  else
    let w := if countEdges then expect (mkExpected key sourceOccurrence (ed_resource edge) (ed_dependencyID edge)) w else w in
    match lookupAll (actionIndex s) key with
    | [] => Ok (say (relate ValidationMissing (ed_dependencyID edge) "dependency action definition is absent") w)
    | first :: _ :: _ =>
      Ok (say (relate ValidationAmbiguous (at_occurrence first) "dependency action definition has multiple occurrences") w)
    | [definition] =>
      r ← need (at_ (actions s) (at_index definition)) "catalog: compact dependency action index is corrupt";
      if negb (ca_occurrence r =? at_occurrence definition) then Err (ErrNew "catalog: compact dependency action index is corrupt")
      else if negb (ca_state r =? EvidenceKnown)%string
      then Ok (say (relate (validationState (ca_state r)) (at_occurrence definition) "dependency action definition is not known") w)
      else
        let target := ca_occurrence r in
        if bool_decide (target ∈ wk_stack w) then Ok (reportCycle identity target edge source (at_occurrence definition) w)
        else visit key (at_index definition) (ed_resource edge) countEdges w
    end.
Fixpoint visit (fuel : nat) (source : string) (actionIndex sourceOccurrence : Z) (countEdges : bool) (w : walk) : result walk :=
  match fuel with
  | O => Err outOfFuel
  | S fuel =>
    if maxStaticTraversal <=? wk_traversed w then Ok (overBudget sourceOccurrence w)
    else
      let w := step w in
      action ← need (at_ (actions s) actionIndex) "catalog: compact action index is corrupt";
      let identity := ca_occurrence action in
      if bool_decide (identity ∈ wk_stack w) then Ok w
      else
        w ← forEachCompactEdge actionIndex (visitEdge (visit fuel) source identity sourceOccurrence countEdges)
              (stacked ({[identity]} ∪ wk_stack w) w);
        Ok (stacked (wk_stack w ∖ {[identity]}) w)
  end.
Definition walkFuel : nat := S (List.length (actions s)).
Definition occurrenceOf (m : planMapping) : Z := match at_ (mappings s) (pm_mapping m) with Some r => cm_occurrence r | None => 0 end.
Definition walkRoot (m : planMapping) (w : walk) : result walk :=
  visit walkFuel (pm_key m) (pm_action m) (occurrenceOf m) true (expect (mkExpected (pm_key m) (occurrenceOf m) 0 0) w).
Definition walkMapping (countEdges : bool) (m : planMapping) (w : walk) : result walk :=
  visit walkFuel (pm_key m) (pm_action m) (occurrenceOf m) countEdges w.

(** ** The agreement of the mapped actions with the expected ones *)

(** [actual[key]], and the first index of it that is not used. *)
Definition actual (ms : list planMapping) (key : string) : list nat :=
  (fun x => x.1) <$> List.filter (fun x => (pm_key x.2 =? key)%string) (zip (seq 0 (List.length ms)) ms).
Definition firstUnused (used : list bool) (indexes : list nat) : option nat :=
  List.find (fun i => negb (default true (used !! i))) indexes.
Definition matchSlot (ms : list planMapping) (slot : expectedMapping) (st : list ValidationDiagnostic * list bool)
  : list ValidationDiagnostic * list bool :=
  let (ds, used) := st in
  match firstUnused used (actual ms (ex_key slot)) with
  | Some i => (ds, <[i := true]> used)
  | None => (report ValidationIncomplete (displayActionKey (ex_key slot)) "" (sourceOccurrence slot) (ex_dependencyID slot)
               "missing dependent action mapping occurrence" ds, used)
  end.
Definition reportExtra (mu : planMapping * bool) (ds : list ValidationDiagnostic) : list ValidationDiagnostic :=
  if mu.2 then ds
  else report ValidationExtra (displayActionKey (pm_key mu.1)) "" (occurrenceOf mu.1) 0
         "mapping occurrence is not explained by dependency evidence" ds.
Definition agree (ms : list planMapping) (expected : list expectedMapping) (ds : list ValidationDiagnostic) : list ValidationDiagnostic :=
  let (ds, used) := fold_left (fun st slot => matchSlot ms slot st) expected (ds, replicate (List.length ms) false) in
  fold_left (fun ds mu => reportExtra mu ds) (zip ms used) ds.
End Operation.

(** ** The plan of an operation *)

Definition mark (names : list string) (m : planMapping) : planMapping :=
  mkPlanMapping (pm_mapping m) (pm_action m) (pm_key m) (existsb (String.eqb (pm_key m)) names).
Definition compileCompactPlan (s : compactStore) (service : string) (operationIndex : Z) : result compactPlan :=
  operation ← need (at_ (operations s) operationIndex) "catalog: compact operation index is corrupt";
  name ← need (compactString s (co_name operation)) "catalog: compact operation string is corrupt";
  let say := report service name in
  c ← foldM (collectSpan s service name) (co_mappings operation) ([], []);
  let mappingCount := foldr Z.add 0 (sp_count <$> co_mappings operation) in
  names ← foldM (nameEdges s) c.2 [];
  let ms := mark names <$> c.2 in
  let roots := List.filter (fun m => negb (pm_dependent m)) ms in
  let noPrimary := (0 <? lengthZ ms) && (lengthZ roots =? 0) in
  w ← foldM (walkRoot s service name) roots (mkWalk c.1 [] ∅ [] 0 false);
  w ← foldM (walkMapping s service name (lengthZ roots =? 0)) ms w;
  let ds := agree s service name ms (wk_expected w) (wk_diagnostics w) in
  let ds := if noPrimary then say ValidationIncomplete "" "" (co_occurrence operation) 0 "mapping has no primary action" ds else ds in
  let ds := if negb (co_state operation =? EvidenceKnown)%string
            then say (validationState (co_state operation)) "" "" (co_occurrence operation) 0 "operation evidence is not known" ds else ds in
  let ds := if negb (co_mappingState operation =? EvidenceKnown)%string || (mappingCount =? 0)
            then say (validationState (co_mappingState operation)) "" "" (co_occurrence operation) 0 "operation mapping evidence is incomplete" ds
            else ds in
  Ok (mkCompactPlan ((fun m => mkCompactStaticMapping (pm_mapping m) (pm_action m) (pm_dependent m)) <$> ms) ds).

(** ** All the plans *)

(** [offsets], up to [total] of the strings before. *)
Fixpoint packOffsets (strings : list string) (total : Z) : result (list Z) :=
  match strings with
  | [] => Ok [u32 total]
  | value :: strings =>
    if maxCatalogItems <? total + slen value then Err (ErrNew "catalog: compact string data exceeds bound")
    else rest ← packOffsets strings (total + slen value); Ok (u32 total :: rest)
  end.
Definition withPool (s : compactStore) (strings : list string) (blob : string) (offsets : list Z) : compactStore :=
  mkStore strings blob offsets (stringIndex s) (services s) (operations s) (serviceOps s) (operationIndex s) (occurrences s)
    (mappings s) (mappingIndex s) (mappingOrder s) (actions s) (actionIndex s) (actionOrder s) (resources s)
    (mappingResources s) (dependents s) (conditions s) (mapPairs s) (queryRecords s) (refs s) (compactPlans s).
Definition packCompactStrings (s : compactStore) : result compactStore :=
  if lengthZ (pool s) =? 0 then Err (ErrNew "catalog: compact string store is empty")
  else offsets ← packOffsets (pool s) 0; Ok (withPool s [] (String.concat EmptyString (pool s)) offsets).

Definition withPlans (s : compactStore) (plans : list compactPlan) : compactStore :=
  mkStore (pool s) (stringBlob s) (stringOffsets s) ∅ (services s) (operations s) (serviceOps s) None (occurrences s)
    (mappings s) (mappingIndex s) (mappingOrder s) (actions s) (actionIndex s) (actionOrder s) (resources s)
    (mappingResources s) (dependents s) (conditions s) (mapPairs s) (queryRecords s) (refs s) plans.
Definition planPosition (s : compactStore) (service : string) (p : position) (plans : list compactPlan) : result (list compactPlan) :=
  _ ← need (operationOf s p) "catalog: compact operation index is corrupt";
  plan ← compileCompactPlan s service (at_index p);
  Ok (<[Z.to_nat (at_index p) := plan]> plans).
Definition planService (s : compactStore) (ips : Z * list position) (plans : list compactPlan) : result (list compactPlan) :=
  r ← need (at_ (services s) ips.1) "catalog: compact service index is corrupt";
  service ← need (compactString s (cs_endpoint r)) "catalog: compact service string is corrupt";
  foldM (planPosition s service) ips.2 plans.
Definition compileCompactPlans (c : option compactStore) : result compactStore :=
  match c with
  | None => Err (ErrNew "catalog: compact validation target unavailable")
  | Some s =>
    plans ← foldM (planService s) (zip (seqZ 0 (lengthZ (serviceOps s))) (serviceOps s))
              (replicate (List.length (operations s)) (mkCompactPlan [] []));
    packCompactStrings (withPlans s plans)
  end.
End Plan.
End CatalogPlan.
