(* ===== verification/CatalogPlanSoundness.v ===== *)
(** * Static plans: what a plan without diagnostics says, and that plans end

    The walk of [CatalogPlan] against a declarative reading: the unfolding of an
    action is the tree of the dependencies that its definition names.  Packing the
    strings changes no view. *)

From Stdlib Require Import ZArith Lia ZifyBool Ascii.
From stdpp Require Import base gmap strings list.
From S2P Require Import Prelude GoStrings.
From S2P Require Import CatalogTypes.
From S2P Require Import CatalogStore.
From S2P Require Import CatalogAccess.
From S2P Require Import CatalogPlan.

Module CatalogPlanSoundness.
Import CatalogTypes.CatalogTypes CatalogStore.CatalogStore CatalogAccess.CatalogAccess CatalogPlan.CatalogPlan.

(** ** Loops *)

Lemma foldM_inv {S X} (f : X -> S -> result S) (I : list X -> S -> Prop) xs st st' :
  foldM f xs st = Ok st' -> I [] st ->
  (forall seen x st st', f x st = Ok st' -> I seen st -> I (seen ++ [x]) st') -> I xs st'.
Proof.
  intros E H0 Hs. cut (forall seen, I seen st -> I (seen ++ xs) st'); [intros H; by apply (H [])|]. clear H0.
  revert st E. induction xs as [|x xs IH]; intros st E seen H0; cbn in E.
  - injection E as ->. by rewrite app_nil_r.
  - destruct (f x st) as [st1|err] eqn:E1; [|done]. specialize (IH st1 E (seen ++ [x])). rewrite <-app_assoc in IH.
    apply IH. by apply (Hs _ _ st).
Qed.
Lemma foldM_read {S X Y} (h : X -> S -> result S) (g : X -> option Y) (f : Y -> S -> result S) xs st st' :
  (forall x st st', h x st = Ok st' <-> exists y, g x = Some y /\ f y st = Ok st') ->
  foldM h xs st = Ok st' <-> exists ys, mapM g xs = Some ys /\ foldM f ys st = Ok st'.
Proof.
  intros H. revert st. induction xs as [|x xs IH]; intros st; cbn [foldM mapM].
  - split; [intros E; by exists []|]. intros (ys & [= <-] & E). exact E.
  - split.
    + destruct (h x st) as [st1|] eqn:E1; [|done]. intros E. apply H in E1 as (y & Ey & Ef). apply IH in E as (ys & Eys & Efs).
      exists (y :: ys). rewrite Ey. cbn [mbind option_bind]. rewrite Eys. split; [done|]. cbn. by rewrite Ef.
    + intros (ys & Eys & Efs). destruct (g x) as [y|] eqn:Ey; [|done]. cbn [mbind option_bind] in Eys.
      destruct (mapM g xs) as [ys'|] eqn:Em; [|done]. injection Eys as <-. cbn [foldM] in Efs.
      destruct (f y st) as [st1|] eqn:Ef; [|done]. rewrite (proj2 (H x st st1)) by (by exists y). apply IH. by exists ys'.
Qed.
Lemma foldM_concat {S X} (f : X -> S -> result S) xss st : foldM (foldM f) xss st = foldM f (concat xss) st.
Proof.
  revert st. induction xss as [|xs xss IH]; intros st; [done|]. cbn [foldM concat].
  assert (H : foldM f (xs ++ concat xss) st = match foldM f xs st with Ok st => foldM f (concat xss) st | Err err => Err err end).
  { clear IH. revert st. induction xs as [|x xs IHx]; intros st; [done|]. cbn [app foldM]. destruct (f x st); [apply IHx|done]. }
  rewrite H. destruct (foldM f xs st); [apply IH|done].
Qed.
Lemma need_ok {A B} (o : option A) msg (f : A -> result B) b : (need o msg ≫= f) = Ok b <-> exists a, o = Some a /\ f a = Ok b.
Proof. destruct o as [a|]; cbn; [|naive_solver]. split; [naive_solver|]. by intros (a' & [= ->] & H). Qed.

(** ** Diagnostics only accumulate *)

Lemma diagnostic_some d ds : diagnostic d ds <> [].
Proof.
  unfold diagnostic, maxPlanDiagnostics, lengthZ. destruct (_ <=? _) eqn:E; [|intros H; by apply app_eq_nil in H as [_ H]].
  apply Z.leb_le in E. destruct ds as [|old ds]; [cbn in E; lia|]. destruct (_ =? _)%string; [|done]. cbn. by destruct (negb _).
Qed.
Lemma replaceOther_length d ds : List.length (replaceOther d ds) = List.length ds.
Proof. induction ds as [|old ds IH]; [done|]. cbn. destruct (negb _); cbn; [done|by rewrite IH]. Qed.
Lemma diagnostic_length d ds : lengthZ ds <= maxPlanDiagnostics -> lengthZ (diagnostic d ds) <= maxPlanDiagnostics.
Proof.
  unfold diagnostic, maxPlanDiagnostics, lengthZ. intros H. destruct (_ <=? _) eqn:E.
  - destruct (_ =? _)%string; [by rewrite replaceOther_length|done].
  - apply Z.leb_gt in E. rewrite length_app. cbn. lia.
Qed.

Section Sound.
Context `{U : UnicodeTables} (s : compactStore).

(** ** The declarative reading *)

(** A key has one definition, which is known: the action with that index. *)
Definition defines (key : string) (j : Z) : Prop :=
  exists p r, lookupAll (actionIndex s) key = [p] /\ at_index p = j /\ at_ (actions s) j = Some r /\
  ca_occurrence r = at_occurrence p /\ ca_state r = EvidenceKnown.

(** The edges of an action, as a list. *)
Definition edgeOf (resource : compactResource) (id : Z * compactDependent) : option planEdge :=
  action ← compactString s (cd_action id.2);
  Some (mkPlanEdge (default EmptyString (staticActionKey action)) (cre_occurrence resource) (cd_occurrence id.2) id.1).
Definition resourceEdges (resource : compactResource) : option (list planEdge) :=
  ds ← spanned (dependents s) (cre_dependents resource); mapM (edgeOf resource) (zip (seqZ 0 (lengthZ ds)) ds).
Definition edgesOf (i : Z) : option (list planEdge) :=
  action ← at_ (actions s) i; rs ← spanned (resources s) (ca_resources action); ess ← mapM resourceEdges rs; Some (concat ess).

(** The unfolding of an action: for each edge the key it names, then the
    unfolding of the action that the key defines. *)
Inductive unfolds : Z -> list string -> Prop :=
| unfolds_action i es l : edgesOf i = Some es -> unfoldsAll es l -> unfolds i l
with unfoldsAll : list planEdge -> list string -> Prop :=
| unfolds_nil : unfoldsAll [] []
| unfolds_cons e es j sub l : ed_key e <> EmptyString -> defines (ed_key e) j -> unfolds j sub -> unfoldsAll es l ->
    unfoldsAll (e :: es) (ed_key e :: sub ++ l).

Lemma defines_unique key j1 j2 : defines key j1 -> defines key j2 -> j1 = j2.
Proof. intros (p1 & r1 & E1 & <- & _) (p2 & r2 & E2 & <- & _). congruence. Qed.

Lemma edgeAt_read {S} (fn : planEdge -> S -> result S) r id st st' :
  edgeAt s r fn id st = Ok st' <-> exists e, edgeOf r id = Some e /\ fn e st = Ok st'.
Proof.
  unfold edgeAt. rewrite need_ok. unfold edgeOf. split.
  - intros (a & -> & H). cbn. by eexists.
  - intros (e & H & Hf). destruct (compactString s _) as [a|]; [|done]. injection H as <-. by exists a.
Qed.
Lemma edgesAt_read {S} (fn : planEdge -> S -> result S) r st st' :
  edgesAt s fn r st = Ok st' <-> exists es, resourceEdges r = Some es /\ foldM fn es st = Ok st'.
Proof.
  unfold edgesAt. rewrite need_ok. unfold resourceEdges. setoid_rewrite (foldM_read _ (edgeOf r) fn); [|apply edgeAt_read].
  split.
  - intros (ds & -> & es & H). cbn. by exists es.
  - intros (es & H & Hf). destruct (spanned _ _) as [ds|]; [|done]. exists ds. split; [done|]. by exists es.
Qed.
Lemma forEachCompactEdge_fold {S} i (fn : planEdge -> S -> result S) st st' :
  forEachCompactEdge s i fn st = Ok st' <-> exists es, edgesOf i = Some es /\ foldM fn es st = Ok st'.
Proof.
  unfold forEachCompactEdge. rewrite need_ok. setoid_rewrite need_ok.
  setoid_rewrite (foldM_read _ resourceEdges (foldM fn)); [|apply edgesAt_read]. setoid_rewrite foldM_concat. unfold edgesOf. split.
  - intros (a & -> & rs & Ers & ess & Em & Hf). cbn [mbind option_bind]. rewrite Ers. cbn [mbind option_bind]. rewrite Em. by eexists.
  - intros (es & H & Hf). destruct (at_ (actions s) i) as [a|]; [|done]. cbn [mbind option_bind] in H.
    destruct (spanned _ _) as [rs|] eqn:Ers; [|done]. cbn [mbind option_bind] in H. destruct (mapM resourceEdges rs) as [ess|] eqn:Em; [|done].
    injection H as <-. exists a. split; [done|]. exists rs. split; [done|]. by exists ess.
Qed.

(** ** The walk *)

Context (service operation : string).
Notation walk := (walk).
Definition keys (w : walk) : list string := ex_key <$> wk_expected w.
(** The budget is exceeded, and a cycle is found, only with a diagnostic. *)
Definition honest (w : walk) : Prop := wk_diagnostics w = [] -> wk_budgetReported w = false /\ wk_cycles w = [].
(** What a part of the walk that adds no diagnostic has done: it has seen the
    unfolding [P] of what it visits, and expects it if it counts. *)
Definition seen (count : bool) (P : list string -> Prop) (w w' : walk) : Prop :=
  honest w' /\ wk_stack w' = wk_stack w /\
  (wk_diagnostics w' = [] -> wk_diagnostics w = [] /\ exists l, P l /\ keys w' = keys w ++ if count then l else []).

Lemma report_some code action related o r detail ds : report service operation code action related o r detail ds <> [].
Proof. apply diagnostic_some. Qed.
Lemma noisy count P w w' : wk_diagnostics w' <> [] -> wk_stack w' = wk_stack w -> seen count P w w'.
Proof. intros H Hs. split; [by intros H'|]. split; [done|]. by intros H'. Qed.

Lemma visitEdge_seen visit source identity occurrence count e w w' :
  (forall source i o w w', visit source i o count w = Ok w' -> honest w ->
     (forall a, at_ (actions s) i = Some a -> ca_occurrence a ∉ wk_stack w) -> seen count (unfolds i) w w') ->
  visitEdge s service operation visit source identity occurrence count e w = Ok w' -> honest w ->
  seen count (fun l => exists j sub, ed_key e <> EmptyString /\ defines (ed_key e) j /\ unfolds j sub /\ l = ed_key e :: sub) w w'.
Proof.
  intros IH. unfold visitEdge. destruct (String.eqb_spec (ed_key e) "") as [Ek|Ek].
  { intros [= <-] Hw. apply noisy; [apply report_some|done]. }
  set (w1 := if count then _ else w). assert (H1 : wk_stack w1 = wk_stack w /\ wk_diagnostics w1 = wk_diagnostics w /\
    wk_budgetReported w1 = wk_budgetReported w /\ wk_cycles w1 = wk_cycles w /\ keys w1 = keys w ++ if count then [ed_key e] else []).
  { unfold w1, keys. destruct count; [|by rewrite app_nil_r]. by cbn; rewrite fmap_app. }
  clearbody w1. destruct H1 as (Hs & Hd & Hb & Hc & Hk).
  destruct (lookupAll _ _) as [|p [|p' ps]] eqn:El.
  - intros [= <-] Hw. apply noisy; [apply report_some|exact Hs].
  - intros E Hw. apply need_ok in E as (r & Er & E). destruct (ca_occurrence r =? at_occurrence p) eqn:Eo; [|done]. cbn [negb] in E.
    destruct (String.eqb_spec (ca_state r) EvidenceKnown) as [Est|Est].
    2:{ cbn [negb] in E. injection E as <-. apply noisy; [apply report_some|exact Hs]. }
    cbn [negb] in E. case_bool_decide as Hin.
    + injection E as <-. unfold reportCycle. case_bool_decide as Hcy; [|apply noisy; [apply report_some|exact Hs]].
      apply noisy; [|exact Hs]. intros H0. rewrite Hd in H0. destruct (Hw H0) as [_ H2]. rewrite Hc, H2 in Hcy. by apply elem_of_nil in Hcy.
    + apply IH in E; [|by unfold honest; rewrite Hb, Hc, Hd|].
      2:{ intros a Ea. congruence. }
      destruct E as (Hw' & Hs' & Hd'). split; [done|]. split; [congruence|]. intros H0. destruct (Hd' H0) as (H0' & l & Hl & Hkl).
      split; [congruence|]. exists (ed_key e :: l). split.
      { exists (at_index p), l. split_and!; try done. exists p, r. split_and!; try done. by apply Z.eqb_eq. }
      rewrite Hkl, Hk, <-app_assoc. f_equal. by destruct count.
  - intros [= <-] Hw. apply noisy; [apply report_some|exact Hs].
Qed.
Lemma visitEdges_seen visit source identity occurrence count es w w' :
  (forall source i o w w', visit source i o count w = Ok w' -> honest w ->
     (forall a, at_ (actions s) i = Some a -> ca_occurrence a ∉ wk_stack w) -> seen count (unfolds i) w w') ->
  foldM (visitEdge s service operation visit source identity occurrence count) es w = Ok w' -> honest w ->
  seen count (unfoldsAll es) w w'.
Proof.
  intros IH. revert w. induction es as [|e es IHes]; intros w; cbn [foldM].
  - intros [= <-] Hw. split; [done|]. split; [done|]. intros H0. split; [done|]. exists []. split; [constructor|].
    by destruct count; rewrite app_nil_r.
  - destruct (visitEdge _ _ _ _ _ _ _ _ e w) as [w1|] eqn:E1; [|done]. intros E Hw.
    apply visitEdge_seen in E1 as (Hw1 & Hs1 & Hd1); [|done|done]. apply IHes in E as (Hw2 & Hs2 & Hd2); [|done].
    split; [done|]. split; [congruence|]. intros H0. destruct (Hd2 H0) as (H1 & l2 & Hl2 & Hk2).
    destruct (Hd1 H1) as (H & l1 & (j & sub & Hne & Hj & Hsub & ->) & Hk1). split; [done|].
    exists (ed_key e :: sub ++ l2). split; [by apply (unfolds_cons e es j)|]. rewrite Hk2, Hk1, <-app_assoc. f_equal.
    by destruct count.
Qed.
Lemma visit_seen fuel : forall source i occurrence count w w', visit s service operation fuel source i occurrence count w = Ok w' -> honest w ->
  (forall a, at_ (actions s) i = Some a -> ca_occurrence a ∉ wk_stack w) -> seen count (unfolds i) w w'.
Proof.
  induction fuel as [|fuel IH]; [done|]. intros source i occurrence count w w' E Hw Hfresh. cbn [visit] in E.
  destruct (maxStaticTraversal <=? wk_traversed w).
  { injection E as <-. unfold overBudget. destruct (wk_budgetReported w) eqn:Eb.
    - apply noisy; [|done]. intros H0. destruct (Hw H0). congruence.
    - apply noisy; [apply report_some|done]. }
  apply need_ok in E as (a & Ea & E). specialize (Hfresh a Ea). case_bool_decide as Hin; [done|].
  cbn [mbind result_bind] in E. destruct (forEachCompactEdge _ _ _ _) as [w1|] eqn:E1; [|done]. injection E as <-.
  apply forEachCompactEdge_fold in E1 as (es & Ees & E1). apply visitEdges_seen in E1 as (Hw1 & Hs1 & Hd1); [| |exact Hw].
  2:{ intros source' i' o' w1' w2' H1 H2 H3. by eapply IH. }
  cbn in Hs1. split; [exact Hw1|]. split.
  { cbn. rewrite Hs1. set_solver. }
  cbn. intros H0. destruct (Hd1 H0) as (H & l & Hl & Hk). split; [done|]. exists l. split; [by econstructor|done].
Qed.

(** ** The mapped actions *)

(** A mapping whose action has one known definition. *)
Definition mapped (index action : Z) (key : string) : Prop :=
  exists mapping text, at_ (mappings s) index = Some mapping /\ cm_state mapping = EvidenceKnown /\
  compactString s (cm_action mapping) = Some text /\ staticActionKey text = Some key /\ defines key action.
Definition collectedAll (indexes : list Z) (c : collected) : Prop :=
  c.1 = [] -> pm_mapping <$> c.2 = indexes /\ Forall (fun m => mapped (pm_mapping m) (pm_action m) (pm_key m)) c.2.

Lemma collectMapping_all indexes index c c' : collectMapping s service operation index c = Ok c' ->
  collectedAll indexes c -> collectedAll (indexes ++ [index]) c'.
Proof.
  destruct c as [ds ms]. unfold collectMapping, collectedAll. intros E IH. apply need_ok in E as (mapping & Em & E).
  apply need_ok in E as (text & Et & E).
  assert (Hnoisy : forall code action related o r detail, c' = (report service operation code action related o r detail ds, ms) ->
            c'.1 = [] -> False) by (intros * -> H; by apply report_some in H).
  destruct (staticActionKey text) as [key|] eqn:Ek; [|injection E as <-; intros H; exfalso; by eapply Hnoisy].
  destruct (lookupAll (actionIndex s) key) as [|p [|p' ps]] eqn:El.
  - destruct (negb _); injection E as <-; intros H; exfalso; by eapply Hnoisy.
  - destruct (String.eqb_spec (cm_state mapping) EvidenceKnown) as [Es|]; cbn [negb] in E;
      [|injection E as <-; intros H; exfalso; by eapply Hnoisy].
    apply need_ok in E as (r & Er & E). destruct (ca_occurrence r =? at_occurrence p) eqn:Eo; [|done]. cbn [negb] in E.
    destruct (String.eqb_spec (ca_state r) EvidenceKnown) as [Est|]; cbn [negb] in E;
      [|injection E as <-; intros H; exfalso; by eapply Hnoisy].
    injection E as <-. cbn [fst snd] in *. intros H0. destruct (IH H0) as [<- HF]. split; [by rewrite fmap_app|].
    apply Forall_app. split; [done|]. apply Forall_singleton. cbn. exists mapping, text. split_and!; try done.
    exists p, r. split_and!; try done. by apply Z.eqb_eq.
  - injection E as <-. intros H. exfalso. by eapply Hnoisy.
Qed.
Lemma collectSpan_read sp c c' : collectSpan s service operation sp c = Ok c' <->
  exists ix, spanIndexes s sp = Some ix /\ foldM (collectMapping s service operation) ix c = Ok c'.
Proof.
  unfold collectSpan, spanIndexes. destruct (validMappingSpan _ _); cbn [negb]; [|naive_solver]. split; [intros H; by eexists|].
  by intros (ix & [= <-] & H).
Qed.
Lemma collected_all spans c : foldM (collectSpan s service operation) spans ([], []) = Ok c ->
  exists indexes, mapM (spanIndexes s) spans = Some indexes /\ collectedAll (concat indexes) c.
Proof.
  rewrite (foldM_read _ (spanIndexes s) (foldM (collectMapping s service operation))) by apply collectSpan_read.
  intros (indexes & Em & E). exists indexes. split; [done|]. rewrite foldM_concat in E.
  apply (foldM_inv _ collectedAll _ _ _ E); [done|]. intros seen index st st'. apply collectMapping_all.
Qed.

(** An edge of the mapped actions: what makes a mapping dependent. *)
Definition named (ms : list planMapping) (key : string) : Prop :=
  key <> EmptyString /\ exists m es e, m ∈ ms /\ edgesOf (pm_action m) = Some es /\ e ∈ es /\ ed_key e = key.
Lemma nameEdges_named ms names : foldM (nameEdges s) ms [] = Ok names -> forall key, key ∈ names <-> named ms key.
Proof.
  intros E. apply (foldM_inv _ (fun seen names => forall key, key ∈ names <-> named seen key) _ _ _ E).
  { intros key. split; [by intros H%elem_of_nil|]. intros (_ & m & es & e & Hm & _). by apply elem_of_nil in Hm. }
  clear. intros seen m names names' E IH. unfold nameEdges in E. apply forEachCompactEdge_fold in E as (es & Ees & E).
  assert (H : forall key, key ∈ names' <-> key ∈ names \/ key <> EmptyString /\ exists e, e ∈ es /\ ed_key e = key).
  { apply (foldM_inv _ (fun seen names' => forall key, key ∈ names' <-> key ∈ names \/ key <> EmptyString /\ exists e, e ∈ seen /\ ed_key e = key) _ _ _ E).
    { intros key. split; [by left|]. intros [H|(_ & e & H & _)]; [done|by apply elem_of_nil in H]. }
    clear. intros seen e st st' E IH key. setoid_rewrite elem_of_app. setoid_rewrite list_elem_of_singleton.
    destruct (String.eqb_spec (ed_key e) "") as [Ek|Ek]; injection E as <-.
    - rewrite IH. split; [intros [H|(Hne & e' & He & Hk)]; [by left|right; split; [done|exists e'; auto]]|].
      intros [H|(Hne & e' & [He| ->] & Hk)]; [by left|right; split; [done|by exists e']|congruence].
    - rewrite elem_of_cons, IH. split.
      + intros [->|[H|(Hne & e' & He & Hk)]]; [right; split; [done|exists e; auto]|by left|right; split; [done|exists e'; auto]].
      + intros [H|(Hne & e' & [He| ->] & Hk)]; [auto|right; right; split; [done|by exists e']|by left]. }
  intros key. rewrite H, IH. unfold named. setoid_rewrite elem_of_app. setoid_rewrite list_elem_of_singleton. split.
  - intros [(Hne & m' & es' & e & Hm & Hes & He & Hk)|(Hne & e & He & Hk)]; (split; [done|]).
    + exists m', es', e. split_and!; try done. by left.
    + exists m, es, e. split_and!; try done. by right.
  - intros (Hne & m' & es' & e & [Hm| ->] & Hes & He & Hk).
    + left. split; [done|]. by exists m', es', e.
    + right. split; [done|]. exists e. split; [congruence|done].
Qed.

(** ** The two passes of the walk *)

Definition unfoldings (ms : list planMapping) (ls : list (list string)) : Prop := Forall2 (fun m l => unfolds (pm_action m) l) ms ls.
Definition trees (ms : list planMapping) (ls : list (list string)) : list string := concat (zip_with (fun m l => pm_key m :: l) ms ls).
Definition passed (K : list string) (f : list planMapping -> list (list string) -> list string) (ms : list planMapping) (w0 w : walk) : Prop :=
  honest w /\ wk_stack w = ∅ /\
  (wk_diagnostics w = [] -> wk_diagnostics w0 = [] /\ exists ls, unfoldings ms ls /\ keys w = K ++ f ms ls).

Lemma zip_with_snoc {A B C} (f : A -> B -> C) l1 l2 x y : List.length l1 = List.length l2 ->
  zip_with f (l1 ++ [x]) (l2 ++ [y]) = zip_with f l1 l2 ++ [f x y].
Proof. revert l2. induction l1 as [|a l1 IH]; intros [|b l2] H; try done. cbn. f_equal. apply IH. by injection H. Qed.
Lemma walkRoots_passed ms w0 w : foldM (walkRoot s service operation) ms w0 = Ok w -> honest w0 -> wk_stack w0 = ∅ ->
  passed (keys w0) trees ms w0 w.
Proof.
  intros E Hw Hs. apply (foldM_inv _ (fun seen w => passed (keys w0) trees seen w0 w) _ _ _ E).
  { split; [done|]. split; [done|]. intros H0. split; [done|]. exists []. split; [constructor|]. by rewrite app_nil_r. }
  clear E. intros prev m w1 w2 E (Hw1 & Hs1 & Hd1). apply visit_seen in E as (Hw2 & Hs2 & Hd2); [|done|].
  2:{ intros a _. change (ca_occurrence a ∉ wk_stack w1). rewrite Hs1. set_solver. }
  split; [done|]. split; [rewrite Hs2; exact Hs1|]. intros H2. destruct (Hd2 H2) as (H1 & l & Hl & Hk2).
  destruct (Hd1 H1) as (H0 & ls & Hls & Hk1). split; [done|]. exists (ls ++ [l]). split; [by apply Forall2_app; [|apply Forall2_cons]|].
  rewrite Hk2. unfold keys in *. cbn. rewrite fmap_app, Hk1. cbn. unfold trees.
  rewrite zip_with_snoc by by eapply Forall2_length. rewrite concat_app. cbn. by rewrite <-!app_assoc, app_nil_r.
Qed.
Lemma walkMappings_passed count ms w0 w : foldM (walkMapping s service operation count) ms w0 = Ok w -> honest w0 -> wk_stack w0 = ∅ ->
  passed (keys w0) (fun _ ls => if count then concat ls else []) ms w0 w.
Proof.
  intros E Hw Hs. apply (foldM_inv _ (fun seen w => passed (keys w0) (fun _ ls => if count then concat ls else []) seen w0 w) _ _ _ E).
  { split; [done|]. split; [done|]. intros H0. split; [done|]. exists []. split; [constructor|]. by destruct count; rewrite app_nil_r. }
  clear E. intros prev m w1 w2 E (Hw1 & Hs1 & Hd1). apply visit_seen in E as (Hw2 & Hs2 & Hd2); [|done|].
  2:{ intros a _. rewrite Hs1. set_solver. }
  split; [done|]. split; [congruence|]. intros H2. destruct (Hd2 H2) as (H1 & l & Hl & Hk2).
  destruct (Hd1 H1) as (H0 & ls & Hls & Hk1). split; [done|]. exists (ls ++ [l]). split; [by apply Forall2_app; [|apply Forall2_cons]|].
  rewrite Hk2, Hk1. destruct count; [|by rewrite !app_nil_r]. rewrite concat_app. cbn. by rewrite <-!app_assoc, app_nil_r.
Qed.

(** ** The agreement *)

Definition usedKeys (ms : list planMapping) (used : list bool) : list string :=
  (fun x => pm_key x.1) <$> List.filter snd (zip ms used).
Lemma usedKeys_insert ms used i m : ms !! i = Some m -> used !! i = Some false ->
  usedKeys ms (<[i := true]> used) ≡ₚ pm_key m :: usedKeys ms used.
Proof.
  revert used i. induction ms as [|m0 ms IH]; [done|]. intros [|u used] [|i]; try done; cbn; unfold usedKeys in *.
  - by intros [= ->] [= ->].
  - intros Hm Hu. specialize (IH used i Hm Hu). cbn. destruct u; cbn; [|done]. rewrite IH. apply Permutation_swap.
Qed.
Lemma usedKeys_none ms n : usedKeys ms (replicate n false) = [].
Proof. revert n. induction ms as [|m ms IH]; intros [|n]; try done. unfold usedKeys. cbn. apply IH. Qed.
Lemma usedKeys_all ms used : List.length used = List.length ms -> Forall (fun u => u = true) used -> usedKeys ms used = pm_key <$> ms.
Proof.
  revert used. induction ms as [|m ms IH]; intros [|u used] Hl; try done. intros [-> HF]%Forall_cons. unfold usedKeys. cbn. f_equal.
  apply IH; [by injection Hl|done].
Qed.
Lemma firstUnused_some ms used key i : firstUnused used (actual ms key) = Some i ->
  exists m, ms !! i = Some m /\ pm_key m = key /\ used !! i = Some false.
Proof.
  unfold firstUnused, actual. intros (Hin & Hu)%find_some. apply list_elem_of_In, list_elem_of_fmap in Hin as ([k m] & -> & Hin).
  apply list_elem_of_In, filter_In in Hin as [Hin Hk]. cbn in *. apply list_elem_of_In in Hin.
  apply list_elem_of_lookup in Hin as (n & Hn). apply lookup_zip_with_Some in Hn as (x & y & [= Ek Em] & Hx & Hy). subst x y.
  apply lookup_seq in Hx as [-> _]. cbn in Hk, Hu. exists m. split; [done|]. split; [by apply String.eqb_eq|].
  change (used !! n = Some false). by destruct (used !! n) as [[]|].
Qed.

Lemma matchSlot_length ms slot st : List.length (matchSlot service operation ms slot st).2 = List.length st.2.
Proof. destruct st as [ds used]. unfold matchSlot. destruct (firstUnused _ _); [apply length_insert|done]. Qed.
Lemma matchSlots_used ms expected ds used ds' used' : List.length used = List.length ms ->
  fold_left (fun st slot => matchSlot service operation ms slot st) expected (ds, used) = (ds', used') ->
  List.length used' = List.length ms /\
  (ds' = [] -> ds = [] /\ usedKeys ms used' ≡ₚ (ex_key <$> expected) ++ usedKeys ms used).
Proof.
  revert ds used. induction expected as [|slot expected IH]; intros ds used Hl E; cbn [fold_left] in E.
  { injection E as <- <-. split; [done|]. by intros H. }
  pose proof (matchSlot_length ms slot (ds, used)) as Hl1. destruct (matchSlot service operation ms slot (ds, used)) as [ds1 used1] eqn:E1.
  cbn [snd] in Hl1. destruct (IH ds1 used1 ltac:(congruence) E) as [Hl' H']. split; [done|]. intros H0. destruct (H' H0) as [H1 HP].
  unfold matchSlot in E1. destruct (firstUnused _ _) as [i|] eqn:Ef.
  - injection E1 as <- <-. split; [done|]. rewrite HP. apply firstUnused_some in Ef as (m & Hm & Hk & Hu).
    rewrite (usedKeys_insert ms used i m Hm Hu), Hk. cbn. by rewrite Permutation_middle.
  - injection E1 as <- <-. by apply report_some in H1.
Qed.
Lemma reportExtras ms used ds : List.length used = List.length ms ->
  fold_left (fun ds mu => reportExtra s service operation mu ds) (zip ms used) ds = [] ->
  ds = [] /\ Forall (fun u => u = true) used.
Proof.
  revert used ds. induction ms as [|m ms IH]; intros [|u used] ds Hl; try done. cbn [zip zip_with fold_left]. intros E.
  apply IH in E as [E HF]; [|by injection Hl]. unfold reportExtra in E. cbn [fst snd] in E. destruct u; [by auto|]. by apply report_some in E.
Qed.
Lemma agree_exact ms expected ds : agree s service operation ms expected ds = [] ->
  ds = [] /\ pm_key <$> ms ≡ₚ ex_key <$> expected.
Proof.
  unfold agree. destruct (fold_left _ expected _) as [ds' used'] eqn:E.
  apply matchSlots_used in E as [Hl H]; [|by rewrite length_replicate]. intros E'. apply reportExtras in E' as [-> HF]; [|done].
  destruct (H eq_refl) as [-> HP]. split; [done|]. rewrite (usedKeys_all _ _ Hl HF), usedKeys_none, app_nil_r in HP. done.
Qed.

(** ** The plan *)

Scheme unfolds_ind2 := Induction for unfolds Sort Prop with unfoldsAll_ind2 := Induction for unfoldsAll Sort Prop.
Lemma unfolds_unique i l1 : unfolds i l1 -> forall l2, unfolds i l2 -> l1 = l2.
Proof.
  intros H. induction H as [i es l Ees Hall IH| |e es j sub l Hne Hj Hsub IH1 Hall IH2]
    using unfolds_ind2 with (P0 := fun es l1 _ => forall l2, unfoldsAll es l2 -> l1 = l2); intros l2 H2; inversion H2; subst.
  - apply IH. congruence.
  - done.
  - assert (j0 = j) as -> by by eapply defines_unique. f_equal. f_equal; auto.
Qed.
Lemma trees_filter p ms ls ls' : unfoldings ms ls -> unfoldings (List.filter p ms) ls' ->
  trees (List.filter p ms) ls' = concat ((fun x => pm_key x.1 :: x.2) <$> List.filter (fun x => p x.1) (zip ms ls)).
Proof.
  intros H. revert ls'. induction H as [|m l ms ls Hl H IH]; intros ls' H'; cbn in *; [by inversion H'|].
  destruct (p m); cbn in *; [|by apply IH]. inversion H' as [|? l' ? ls'' Hl' H'']; subst.
  rewrite (unfolds_unique _ _ Hl _ Hl'). unfold trees. cbn. do 2 f_equal. by apply IH.
Qed.
Lemma staticActionKey_nonempty text key : staticActionKey text = Some key -> key <> EmptyString.
Proof.
  unfold staticActionKey. destruct (Split text ":") as [|a [|b [|]]]; try done. destruct (_ || _); [done|]. intros [= <-].
  by destruct (ToLower a).
Qed.

(** A mapping of the plan with its key and the unfolding of its action. *)
Definition row : Type := compactStaticMapping * string * list string.
Definition depended (plan : compactPlan) (key : string) : Prop :=
  exists m es e, m ∈ cp_mappings plan /\ edgesOf (csm_action m) = Some es /\ e ∈ es /\ ed_key e = key.
(** A plan that agrees with its evidence, as [rows] says. *)
Record agrees (op : compactOperation) (plan : compactPlan) (rows : list row) : Prop := {
  ag_rows : (fun r => r.1.1) <$> rows = cp_mappings plan;
  ag_known : co_state op = EvidenceKnown /\ co_mappingState op = EvidenceKnown;
  ag_indexes : exists indexes, mapM (spanIndexes s) (co_mappings op) = Some indexes /\ csm_mapping <$> cp_mappings plan = concat indexes;
  ag_mapped : Forall (fun r => mapped (csm_mapping r.1.1) (csm_action r.1.1) r.1.2) rows;
  ag_unfolds : Forall (fun r => unfolds (csm_action r.1.1) r.2) rows;
  ag_dependent : Forall (fun r => csm_dependent r.1.1 = true <-> depended plan r.1.2) rows;
  ag_rooted : exists r, r ∈ rows /\ csm_dependent r.1.1 = false;
  ag_exact : (fun r => r.1.2) <$> rows ≡ₚ
             concat ((fun r => r.1.2 :: r.2) <$> List.filter (fun r => negb (csm_dependent r.1.1)) rows);
}.
Definition toStatic (m : planMapping) : compactStaticMapping := mkCompactStaticMapping (pm_mapping m) (pm_action m) (pm_dependent m).
Definition rowOf (x : planMapping * list string) : row := (toStatic x.1, pm_key x.1, x.2).

Lemma rows_mappings ms ls : unfoldings ms ls -> (fun r => r.1.1) <$> (rowOf <$> zip ms ls) = toStatic <$> ms /\
  (fun r => r.1.2) <$> (rowOf <$> zip ms ls) = pm_key <$> ms.
Proof. induction 1 as [|m l ms ls Hl H [IH1 IH2]]; [done|]. cbn. split; f_equal; done. Qed.
Lemma rows_forall (P : planMapping -> Prop) (Q : row -> Prop) ms ls : unfoldings ms ls -> Forall P ms ->
  (forall m l, unfolds (pm_action m) l -> P m -> Q (rowOf (m, l))) -> Forall Q (rowOf <$> zip ms ls).
Proof.
  intros H HP HQ. induction H as [|m l ms ls Hl H IH]; [constructor|]. apply Forall_cons in HP as [Hm HP]. cbn. constructor; auto.
Qed.
Lemma rows_trees p ms ls : (fun r : row => r.1.2 :: r.2) <$> List.filter (fun r : row => p (csm_dependent r.1.1)) (rowOf <$> zip ms ls) =
  (fun x => pm_key x.1 :: x.2) <$> List.filter (fun x => p (pm_dependent x.1)) (zip ms ls).
Proof. induction (zip ms ls) as [|x xs IH]; [done|]. cbn. destruct (p (pm_dependent x.1)); cbn; [f_equal|]; exact IH. Qed.

Lemma spanIndexes_nonempty spans indexes : mapM (spanIndexes s) spans = Some indexes -> Forall (fun sp => 0 <= sp_count sp) spans ->
  concat indexes = [] -> foldr Z.add 0 (sp_count <$> spans) = 0.
Proof.
  revert indexes. induction spans as [|sp spans IH]; [done|]. intros indexes E [Hc HF]%Forall_cons. cbn [mapM] in E.
  destruct (spanIndexes s sp) as [ix|] eqn:Es; [|done]. cbn [mbind option_bind] in E. destruct (mapM _ spans) as [ixs|]; [|done].
  injection E as <-. cbn. intros [E1 E2]%app_eq_nil. rewrite (IH ixs) by done. unfold spanIndexes in Es. destruct (validMappingSpan _ _); [|done].
  injection Es as <-. apply fmap_nil_inv in E1. pose proof (length_seqZ 0 (sp_count sp)) as Hl. rewrite E1 in Hl. cbn in Hl. lia.
Qed.
End Sound.

Section Theorems.
Context `{U : UnicodeTables}.

Lemma guarded_nil (b : bool) (ds : list ValidationDiagnostic) d : (if b then diagnostic d ds else ds) = [] -> b = false /\ ds = [].
Proof. destruct b; [intros H; by apply diagnostic_some in H|done]. Qed.

Lemma named_depended s names c ds key : key <> EmptyString ->
  named s c key <-> depended s (mkCompactPlan (toStatic <$> (mark names <$> c)) ds) key.
Proof.
  intros Hne. unfold named, depended. cbn [cp_mappings]. split.
  - intros (_ & m & es & e & Hm & Hes & He & Hk). exists (toStatic (mark names m)), es, e. split_and!; try done.
    by do 2 apply list_elem_of_fmap_2.
  - intros (m & es & e & Hm & Hes & He & Hk). split; [done|]. apply list_elem_of_fmap in Hm as (m1 & -> & Hm1).
    apply list_elem_of_fmap in Hm1 as (m0 & -> & Hm0). by exists m0, es, e.
Qed.

(** A plan without diagnostics is exact: the operation and its mappings are
    known, every mapped action has one known definition, every dependency that a
    definition names, however far, has one known definition too and never leads
    back to itself, and the mapped actions are, occurrence by occurrence, the roots
    of the plan and what their dependencies unfold to: none missing, none extra. *)
Lemma valid_plan_exact (s : compactStore) (service : string) (i : Z) (op : compactOperation) (plan : compactPlan) :
  compileCompactPlan s service i = Ok plan -> at_ (operations s) i = Some op ->
  Forall (fun sp => 0 <= sp_count sp) (co_mappings op) ->
  cp_diagnostics plan = [] -> exists rows, agrees s op plan rows.
Proof.
  unfold compileCompactPlan. intros E Eop Hcounts. apply need_ok in E as (op' & Eop' & E). assert (op' = op) as -> by congruence.
  apply need_ok in E as (name & Ename & E). apply result_bind_ok in E as (c & Ec & E). apply result_bind_ok in E as (names & En & E).
  set (ms := mark names <$> c.2) in E. set (roots := List.filter (fun m => negb (pm_dependent m)) ms) in E.
  apply result_bind_ok in E as (w1 & E1 & E). apply result_bind_ok in E as (w2 & E2 & E). injection E as <-. cbn [cp_diagnostics].
  unfold report at 1 2 3. intros [Hk2 [Hk1 [Hk0 Hag]%guarded_nil]%guarded_nil]%guarded_nil.
  apply negb_false_iff, String.eqb_eq in Hk1. apply orb_false_iff in Hk2 as [Hk2%negb_false_iff%String.eqb_eq Hcount].
  apply agree_exact in Hag as [Hw2 HP].
  apply collected_all in Ec as (indexes & Ei & Hc). pose proof (nameEdges_named s _ _ En) as Hnames.
  apply walkRoots_passed in E1; [|done|done]. destruct E1 as (Hh1 & Hs1 & Hd1).
  apply walkMappings_passed in E2; [|done|done]. destruct E2 as (Hh2 & Hs2 & Hd2).
  destruct (Hd2 Hw2) as (Hw1 & ls & Hls & Hkeys2). destruct (Hd1 Hw1) as (Hw0 & ls' & Hls' & Hkeys1).
  destruct (Hc Hw0) as [Hix Hmapped].
  assert (Hne : ms <> []).
  { intros Hms. assert (Hnil : c.2 = []) by by apply fmap_nil_inv in Hms. rewrite Hnil in Hix. cbn in Hix. symmetry in Hix.
    rewrite (spanIndexes_nonempty s _ _ Ei Hcounts Hix) in Hcount. done. }
  assert (Hroots : (lengthZ roots =? 0) = false).
  { destruct (lengthZ roots =? 0) eqn:Er; [|done]. unfold lengthZ at 1 in Hk0. destruct ms; [done|]. by rewrite andb_true_r in Hk0. }
  assert (Hpm : pm_mapping <$> ms = pm_mapping <$> c.2) by by unfold ms; rewrite <-list_fmap_compose.
  assert (Hkey : forall m, m ∈ ms -> pm_dependent m = true <-> named s c.2 (pm_key m)).
  { intros m (m0 & -> & Hm0)%list_elem_of_fmap. cbn. rewrite <-Hnames. rewrite existsb_elem. split.
    - intros (x & Hx & ->%String.eqb_eq). done.
    - intros H. eexists. split; [exact H|]. apply String.eqb_refl. }
  exists (rowOf <$> zip ms ls). destruct (rows_mappings s ms ls Hls) as [Hrm Hrk]. constructor; cbn [cp_mappings].
  - exact Hrm.
  - done.
  - exists indexes. split; [done|]. rewrite <-Hix, <-Hpm. by rewrite <-list_fmap_compose.
  - apply (rows_forall s (fun m => mapped s (pm_mapping m) (pm_action m) (pm_key m)) _ ms ls Hls); [by apply Forall_fmap|done].
  - by apply (rows_forall s (fun _ => True) _ ms ls Hls); [apply Forall_true|].
  - apply (rows_forall s (fun m => m ∈ ms /\ pm_key m <> EmptyString) _ ms ls Hls).
    + apply Forall_forall. intros m Hm. split; [done|]. apply list_elem_of_fmap in Hm as (m0 & -> & Hm0).
      rewrite Forall_forall in Hmapped. destruct (Hmapped m0 Hm0) as (mp & text & _ & _ & _ & Ht & _). by eapply staticActionKey_nonempty.
    + intros m l _ [Hm Hmk]. cbn. rewrite (Hkey m Hm). by apply named_depended.
  - destruct roots as [|m rest] eqn:Er; [done|]. assert (Hm : m ∈ roots) by (rewrite Er; left).
    apply list_elem_of_In, filter_In in Hm as [Hm Hd%negb_true_iff]. apply list_elem_of_In in Hm.
    pose proof (list_elem_of_fmap_2 toStatic ms m Hm) as Hin. rewrite <-Hrm in Hin.
    apply list_elem_of_fmap in Hin as (r & Hr & Hin). exists r. split; [done|]. by rewrite <-Hr.
  - rewrite Hrk, HP. change (ex_key <$> wk_expected w2) with (keys w2). rewrite Hkeys2, Hkeys1, Hroots, app_nil_r. cbn [keys wk_expected fmap list_fmap app].
    rewrite (rows_trees negb). by rewrite <-(trees_filter s (fun m => negb (pm_dependent m)) ms ls ls' Hls Hls').
Qed.

(** ** The walk ends *)

(** A computation that does not run out of fuel. *)
Definition finishes {A} (r : result A) : Prop := r <> Err outOfFuel.
Lemma finishes_bind {A B} (r : result A) (f : A -> result B) : finishes r -> (forall a, r = Ok a -> finishes (f a)) -> finishes (r ≫= f).
Proof. unfold finishes. intros Hr Hf. destruct r as [a|e]; cbn; [by apply Hf|]. congruence. Qed.
Lemma finishes_need {A} (o : option A) msg : (msg =? "walk: out of fuel")%string = false -> finishes (need o msg).
Proof. intros H. destruct o; cbn; [done|]. intros [= ->]. by rewrite String.eqb_refl in H. Qed.
Lemma finishes_foldM {S X} (f : X -> S -> result S) (P : S -> Prop) xs st : P st ->
  (forall x st, P st -> finishes (f x st)) -> (forall x st st', P st -> f x st = Ok st' -> P st') -> finishes (foldM f xs st).
Proof.
  intros H0 Hf HP. revert st H0. induction xs as [|x xs IH]; intros st H0; [done|]. cbn. pose proof (Hf x st H0) as Hx.
  destruct (f x st) as [st1|e] eqn:E; [|congruence]. apply IH. by eapply HP.
Qed.
Lemma finishes_edges {S} s i (fn : planEdge -> S -> result S) (P : S -> Prop) st : P st ->
  (forall e st, P st -> finishes (fn e st)) -> (forall e st st', P st -> fn e st = Ok st' -> P st') -> finishes (forEachCompactEdge s i fn st).
Proof.
  intros H0 Hf HP. unfold forEachCompactEdge. apply finishes_bind; [by apply finishes_need|]. intros a _.
  apply finishes_bind; [by apply finishes_need|]. intros rs _. apply (finishes_foldM _ P); [done| |].
  - clear st H0. intros r st H0. apply finishes_bind; [by apply finishes_need|]. intros ds _. apply (finishes_foldM _ P); [done| |].
    + intros id st1 H1. apply finishes_bind; [by apply finishes_need|]. intros text _. by apply Hf.
    + intros id st1 st2 H1 E. apply edgeAt_read in E as (e & _ & E). by eapply HP.
  - intros r st1 st2 H1 E. apply edgesAt_read in E as (es & _ & E). apply (foldM_inv _ (fun _ => P) _ _ _ E); [done|].
    intros _ x st3 st4 E3 H3. by eapply HP.
Qed.

Section Walk.
Context (s : compactStore) (service operation : string).

Lemma visitEdge_stack visit source identity occurrence count e w w' :
  (forall source i o w w', visit source i o count w = Ok w' -> wk_stack w' = wk_stack w) ->
  visitEdge s service operation visit source identity occurrence count e w = Ok w' -> wk_stack w' = wk_stack w.
Proof.
  intros IH. unfold visitEdge. destruct (_ =? _)%string; [by intros [= <-]|]. set (w1 := if count then _ else w).
  assert (H1 : wk_stack w1 = wk_stack w) by (unfold w1; by destruct count). clearbody w1.
  destruct (lookupAll _ _) as [|p [|p' ps]]; [by intros [= <-]| |by intros [= <-]]. intros E. apply need_ok in E as (r & _ & E).
  destruct (negb _); [done|]. destruct (negb _); [by injection E as <-|]. case_bool_decide.
  - injection E as <-. unfold reportCycle. by case_bool_decide.
  - apply IH in E. congruence.
Qed.
Lemma visit_stack fuel : forall source i occurrence count w w',
  visit s service operation fuel source i occurrence count w = Ok w' -> wk_stack w' = wk_stack w.
Proof.
  induction fuel as [|fuel IH]; [done|]. intros source i occurrence count w w'. cbn [visit]. destruct (_ <=? _).
  { intros [= <-]. unfold overBudget. by destruct (wk_budgetReported w). }
  intros E. apply need_ok in E as (a & _ & E). case_bool_decide as Hin; [by injection E as <-|].
  apply result_bind_ok in E as (w1 & E1 & E). injection E as <-. apply forEachCompactEdge_fold in E1 as (es & _ & E1). cbn.
  assert (H : wk_stack w1 = {[ca_occurrence a]} ∪ wk_stack w).
  { apply (foldM_inv _ (fun _ w1 => wk_stack w1 = {[ca_occurrence a]} ∪ wk_stack w) _ _ _ E1); [done|].
    intros _ e w2 w3 E2 H2. apply visitEdge_stack in E2; [congruence|]. intros. by eapply IH. }
  rewrite H. change (wk_stack (step w)) with (wk_stack w) in Hin. set_solver.
Qed.

Definition identities : gset Z := list_to_set (ca_occurrence <$> actions s).
Lemma visit_finishes fuel : forall source i occurrence count w, (size (identities ∖ wk_stack w) < fuel)%nat ->
  finishes (visit s service operation fuel source i occurrence count w).
Proof.
  induction fuel as [|fuel IH]; [intros; lia|]. intros source i occurrence count w Hf. cbn [visit]. destruct (_ <=? _); [done|].
  apply finishes_bind; [by apply finishes_need|]. intros a Ea. case_bool_decide as Hin; [done|].
  change (wk_stack (step w)) with (wk_stack w) in *. set (st := {[ca_occurrence a]} ∪ wk_stack w).
  assert (Ha : ca_occurrence a ∈ identities).
  { apply elem_of_list_to_set, list_elem_of_fmap_2. unfold need, at_ in Ea. destruct (i <? 0); [done|].
    destruct (actions s !! Z.to_nat i) as [a'|] eqn:Ea'; [|done]. injection Ea as ->. by eapply list_elem_of_lookup_2. }
  assert (Hst : (size (identities ∖ st) < fuel)%nat).
  { assert (identities ∖ st ⊂ identities ∖ wk_stack w) as Hsub by set_solver. apply subset_size in Hsub. lia. }
  apply finishes_bind; [|done]. apply (finishes_edges s i _ (fun w => wk_stack w = st)); [done| |].
  - intros e w1 H1. unfold visitEdge. destruct (_ =? _)%string; [done|]. set (w2 := if count then _ else w1).
    assert (H2 : wk_stack w2 = st) by (unfold w2; by destruct count). clearbody w2.
    destruct (lookupAll _ _) as [|p [|p' ps]]; [done| |done]. apply finishes_bind; [by apply finishes_need|]. intros r _.
    destruct (negb _); [done|]. destruct (negb _); [done|]. case_bool_decide; [done|]. apply IH. by rewrite H2.
  - intros e w1 w2 H1 E. apply visitEdge_stack in E; [congruence|]. intros. by eapply visit_stack.
Qed.
Lemma size_list_to_set_le (l : list Z) : (size (list_to_set l : gset Z) <= List.length l)%nat.
Proof.
  induction l as [|x l IH]; cbn; [by rewrite size_empty|]. rewrite size_union_alt, size_singleton.
  assert (size (list_to_set l ∖ {[x]} : gset Z) <= size (list_to_set l : gset Z))%nat by (apply subseteq_size; set_solver). lia.
Qed.
Lemma walkFuel_enough source i occurrence count w :
  finishes (visit s service operation (walkFuel s) source i occurrence count w).
Proof.
  apply visit_finishes. unfold walkFuel. apply Nat.lt_succ_r. etrans; [apply (subseteq_size _ identities); set_solver|].
  unfold identities. pose proof (size_list_to_set_le (ca_occurrence <$> actions s)) as H. by rewrite length_fmap in H.
Qed.
End Walk.

Lemma collectMapping_finishes s service name x st : finishes (collectMapping s service name x st).
Proof.
  destruct st as [ds ms]. unfold collectMapping. apply finishes_bind; [by apply finishes_need|]. intros mapping _.
  apply finishes_bind; [by apply finishes_need|]. intros text _. destruct (staticActionKey text); [|done].
  destruct (lookupAll _ _) as [|p [|]]; [by destruct (negb _)| |done]. destruct (negb _); [done|].
  apply finishes_bind; [by apply finishes_need|]. intros r _. destruct (negb _); [done|]. by destruct (negb _).
Qed.
Lemma compileCompactPlan_finishes s service i : finishes (compileCompactPlan s service i).
Proof.
  assert (HT : forall S X (f : X -> S -> result S) xs st, (forall x st, finishes (f x st)) -> finishes (foldM f xs st)).
  { intros S X f xs st H. by apply (finishes_foldM f (fun _ => True)). }
  unfold compileCompactPlan. apply finishes_bind; [by apply finishes_need|]. intros op _.
  apply finishes_bind; [by apply finishes_need|]. intros name _. apply finishes_bind.
  { apply HT. intros sp st. unfold collectSpan. destruct (negb _); [done|]. apply HT. apply collectMapping_finishes. }
  intros c _. apply finishes_bind.
  { apply HT. intros m names. by apply (finishes_edges s _ _ (fun _ => True)). }
  intros names _. apply finishes_bind; [apply HT; intros m w; apply walkFuel_enough|]. intros w _.
  apply finishes_bind; [apply HT; intros m w'; apply walkFuel_enough|]. done.
Qed.
Lemma packOffsets_finishes l total : finishes (packOffsets l total).
Proof.
  revert total. induction l as [|v l IH]; intros total; [done|]. cbn [packOffsets]. destruct (_ <? _); [done|].
  apply finishes_bind; [apply IH|done].
Qed.

(** C34. Compiling the plans ends: whatever the store, the walk over the dependencies
    never nests deeper than the actions there are, cyclic definitions included. *)
Theorem plans_end (c : option compactStore) : compileCompactPlans c <> Err outOfFuel.
Proof.
  change (finishes (compileCompactPlans c)). destruct c as [s|]; [|done]. cbn [compileCompactPlans]. apply finishes_bind.
  - apply (finishes_foldM _ (fun _ => True)); [done| |done]. intros [i ps] plans _. apply finishes_bind; [by apply finishes_need|].
    intros r _. apply finishes_bind; [by apply finishes_need|]. intros service _. apply (finishes_foldM _ (fun _ => True)); [done| |done].
    intros p plans' _. apply finishes_bind; [by apply finishes_need|]. intros op _.
    apply finishes_bind; [apply compileCompactPlan_finishes|done].
  - intros plans _. unfold packCompactStrings. destruct (_ =? _); [done|]. apply finishes_bind; [apply packOffsets_finishes|done].
Qed.

(** ** Packing the strings *)

Lemma str_take_drop_app a b : str_take (String.length a) (a ++ b)%string = a /\ str_drop (String.length a) (a ++ b)%string = b.
Proof. induction a as [|ch a [IH1 IH2]]; cbn; [by destruct b|]. split; [by f_equal|done]. Qed.
Lemma str_drop_prefix a b n : str_drop (String.length a + n) (a ++ b)%string = str_drop n b.
Proof. induction a as [|ch a IH]; cbn; [done|exact IH]. Qed.
Lemma concat_cons v l : String.concat EmptyString (v :: l) = (v ++ String.concat EmptyString l)%string.
Proof. destruct l; cbn; [by rewrite str_app_nil_r|done]. Qed.

(** The offsets of the strings, when the bound holds. *)
Lemma packOffsets_at l total offsets : packOffsets l total = Ok offsets -> 0 <= total <= maxCatalogItems ->
  List.length offsets = S (List.length l) /\
  total + slen (String.concat EmptyString l) <= maxCatalogItems /\
  forall (i : nat) v, l !! i = Some v -> exists first, offsets !! i = Some first /\ offsets !! S i = Some (first + slen v) /\
    total <= first /\ first + slen v <= total + slen (String.concat EmptyString l) /\
    str_take (String.length v) (str_drop (Z.to_nat (first - total)) (String.concat EmptyString l)) = v.
Proof.
  assert (Hu : forall z, 0 <= z <= maxCatalogItems -> u32 z = z) by (intros z Hz; apply Z.mod_small; unfold maxCatalogItems in Hz; lia).
  revert total offsets. induction l as [|v l IH]; intros total offsets E Ht; cbn [packOffsets] in E.
  { injection E as <-. change (slen (String.concat EmptyString [])) with 0. split; [done|]. split; [lia|done]. }
  destruct (_ <? _) eqn:Eb; [done|]. apply Z.ltb_ge in Eb. apply result_bind_ok in E as (rest & E & [= <-]).
  pose proof (slen_nonneg v) as Hv. destruct (IH _ _ E ltac:(lia)) as (Hl & Hb & H).
  rewrite concat_cons, slen_app. split; [cbn; by rewrite Hl|]. split; [lia|]. intros [|i] v' Hi; cbn in Hi |- *.
  - injection Hi as <-. exists total. rewrite Hu by lia. pose proof (slen_nonneg (String.concat EmptyString l)).
    assert (Hrest : rest !! 0%nat = Some (total + slen v)).
    { destruct l as [|v' l]; cbn [packOffsets] in E; [injection E as <-; cbn; by rewrite Hu by lia|].
      destruct (_ <? _); [done|]. apply result_bind_ok in E as (rest' & _ & [= <-]). cbn. by rewrite Hu by lia. }
    split_and!; try done; try lia. rewrite Z.sub_diag. cbn. apply str_take_drop_app.
  - destruct (H i v' Hi) as (first & H1 & H2 & H3 & H4 & H5). exists first. split_and!; try done; try lia.
    replace (Z.to_nat (first - total)) with (String.length v + Z.to_nat (first - (total + slen v)))%nat by (unfold slen in *; lia).
    by rewrite str_drop_prefix.
Qed.

(** Packing the strings of the catalog into one text changes no string: the
    packed store reads every identifier as the store did, and the texts of
    identifiers out of range stay unavailable. *)
Theorem pack_exact (s s' : compactStore) (id : Z) :
  packCompactStrings s = Ok s' -> stringOffsets s = [] -> lengthZ (pool s) <= maxCatalogItems -> compactString s' id = compactString s id.
Proof.
  unfold packCompactStrings. destruct (_ =? _) eqn:E0; [done|]. intros E Hs Hbound. apply result_bind_ok in E as (offsets & E & [= <-]).
  destruct (packOffsets_at _ _ _ E ltac:(unfold maxCatalogItems; lia)) as (Hl & Hb & H). unfold compactString, validStringID, compactStringCount, lengthZ.
  cbn [pool stringBlob stringOffsets withPool]. rewrite Hs, Hl. cbn [List.length]. change (0 <? Z.of_nat 0) with false. cbv iota.
  change (Z.of_nat 0 =? 0) with true. cbv iota.
  destruct (id =? invalidStringID); [done|]. replace (0 <? Z.of_nat (S (List.length (pool s)))) with true by lia.
  replace (Z.of_nat (S (List.length (pool s))) =? 0) with false by lia.
  replace (id + 1 <? Z.of_nat (S (List.length (pool s)))) with (id <? Z.of_nat (List.length (pool s))) by lia.
  destruct (id <? _) eqn:Ei; [|done]. cbn [negb]. apply Z.ltb_lt in Ei. unfold at_. destruct (id <? 0) eqn:Eneg; [done|].
  destruct (lookup_lt_is_Some_2 (pool s) (Z.to_nat id)) as [v Hv]; [lia|]. rewrite Hv.
  destruct (H _ _ Hv) as (first & H1 & H2 & H3 & H4 & H5). rewrite H1. cbn [mbind option_bind].
  assert (Hlt : id + 1 < 2 ^ 32) by (unfold lengthZ, maxCatalogItems in Hbound; lia).
  unfold u32. rewrite (Z.mod_small (id + 1)) by lia. replace (id + 1 <? 0) with false by lia.
  replace (Z.to_nat (id + 1)) with (S (Z.to_nat id)) by lia. rewrite H2. cbn [mbind option_bind].
  pose proof (slen_nonneg v). replace (first + slen v <? first) with false by lia.
  replace (slen _ <? first + slen v) with false by lia. cbn [orb].
  replace (Z.to_nat (first + slen v - first)) with (String.length v) by (unfold slen; lia).
  rewrite Z.sub_0_r in H5. by rewrite H5.
Qed.
End Theorems.

(** ** One store: ecs:RunTask, which needs iam:PassRole *)

Definition none : stringSpan := mkSpan 0 0.
Definition sampleStore : compactStore :=
  let U := ascii_tables in
  {| pool := [""; "ecs"; "RunTask"; "ecs:RunTask"; "iam:PassRole"; "iam"; "PassRole"; "Write"; "task-definition*"; "role*"; "POST"; "/";
              "json"; "2014-11-13"; "AmazonECS"; "1.1"; "${taskRoleArn}"];
     stringBlob := ""; stringOffsets := []; stringIndex := ∅;
     services := [mkCompactService 1 1 1 1 14 13 12 (mkSpan 0 1) (mkSpan 1 1)];
     operations := [mkCompactOperation 1 1 2 0 0 (mkCompactRoute 10 11 0 14 15 200) none EvidenceKnown EvidenceKnown [mkSpan 0 2]];
     serviceOps := [[mkPosition 0 1]]; operationIndex := None; occurrences := {[operationKey "ecs" "RunTask" := [mkPosition 0 1]]};
     mappings := [mkCompactMapping 2 3 EvidenceKnown none none none (-1) 0 0; mkCompactMapping 3 4 EvidenceKnown none none none (-1) 16 0];
     mappingIndex := {[operationKey "ecs" "RunTask" := [mkSpan 0 2]]};
     mappingOrder := [mkMappingPosition 0 2 "ecs.RunTask"; mkMappingPosition 1 3 "ecs.RunTask"];
     actions := [mkCompactAction 10 1 2 7 0 (mkSpan 0 1) EvidenceKnown; mkCompactAction 11 5 6 7 0 (mkSpan 1 1) EvidenceKnown];
     actionIndex := {[actionKey "ecs" "RunTask" := [mkPosition 0 10]; actionKey "iam" "PassRole" := [mkPosition 1 11]]};
     actionOrder := [mkPosition 0 10; mkPosition 1 11];
     resources := [mkCompactResource 12 8 none (mkSpan 2 1) [14] (mkSpan 0 1); mkCompactResource 13 9 none (mkSpan 3 0) [] (mkSpan 1 0)];
     mappingResources := []; dependents := [mkCompactDependent 14 4]; conditions := []; mapPairs := []; queryRecords := [];
     refs := [12; 1; 4]; compactPlans := [] |}%string.
Definition samplePlan : compactPlan :=
  mkCompactPlan [mkCompactStaticMapping 0 0 false; mkCompactStaticMapping 1 1 true] [].
Example sample_plan : compileCompactPlan (U := ascii_tables) sampleStore "ecs" 0 = Ok samplePlan.
Proof. vm_compute. reflexivity. Qed.
(** The same without the mapping of iam:PassRole, or with a definition of it that
    leads back: diagnostics. *)
Example missing_dependency :
  match compileCompactPlan (U := ascii_tables)
     {| pool := pool sampleStore; stringBlob := ""; stringOffsets := []; stringIndex := ∅; services := services sampleStore;
        operations := [mkCompactOperation 1 1 2 0 0 (mkCompactRoute 10 11 0 0 0 200) none EvidenceKnown EvidenceKnown [mkSpan 0 1]];
        serviceOps := serviceOps sampleStore; operationIndex := None; occurrences := ∅; mappings := mappings sampleStore; mappingIndex := ∅;
        mappingOrder := []; actions := actions sampleStore; actionIndex := actionIndex sampleStore; actionOrder := [];
        resources := resources sampleStore; mappingResources := []; dependents := dependents sampleStore; conditions := []; mapPairs := [];
        queryRecords := []; refs := refs sampleStore; compactPlans := [] |} "ecs" 0 with Ok p => d_Detail <$> cp_diagnostics p | Err _ => [] end
  = ["missing dependent action mapping occurrence"%string].
Proof. vm_compute. reflexivity. Qed.
Lemma pack_exact_witness : exists s', packCompactStrings sampleStore = Ok s' /\ pool s' = [] /\
  compactString s' 3 = Some "ecs:RunTask"%string /\ compactString s' 17 = None.
Proof.
  destruct (packCompactStrings sampleStore) as [s'|] eqn:E; [|by vm_compute in E]. exists s'. split; [done|].
  split; [by apply result_bind_ok in E as (offsets & _ & [= <-])|].
  split; (rewrite (pack_exact sampleStore s') by first [exact E|reflexivity|vm_compute; discriminate]; vm_compute; reflexivity).
Defined.
End CatalogPlanSoundness.
