(* ===== verification/CatalogLookup.v ===== *)
(** * From the evidence to a lookup (iamlivecatalog with iamliveadapter)

    The catalog as the adapter's dependency: the plans are compiled and packed when
    the catalog is loaded, and a lookup that succeeds has used the plan of one
    operation that agrees with the evidence. *)

From Stdlib Require Import ZArith Lia Ascii.
From stdpp Require Import base gmap strings list.
From S2P Require Import Prelude GoStrings.
From S2P Require Import AwsTypes.
From S2P Require Import CatalogTypes.
From S2P Require Import WireIndex.
From S2P Require Import IamMapper.
From S2P Require Import CatalogStore.
From S2P Require Import CatalogAccess.
From S2P Require Import CatalogPlan.
From S2P Require Import CatalogPlanSoundness.
From S2P Require Import Adapter.
From S2P Require Import AdapterSoundness.

Module CatalogLookup.
Import AwsTypes.AwsTypes CatalogTypes.CatalogTypes CatalogStore.CatalogStore CatalogAccess.CatalogAccess CatalogPlan.CatalogPlan
  CatalogPlanSoundness.CatalogPlanSoundness.
Abbreviation looked_up := AdapterSoundness.AdapterSoundness.looked_up.
Abbreviation LookupRequest := Adapter.Adapter.LookupRequest.
Abbreviation NormalizeOperation := Adapter.Adapter.NormalizeOperation.

Section Lookup.
Context `{U : UnicodeTables}.

(** The adapter of a published catalog ([New]). *)
Definition adapterOf (c : option compactStore) : Adapter.Adapter.Adapter := Adapter.Adapter.mkAdapter (OperationOccurrences c).

(** The plan that the load leaves at a position. *)
Definition planned (s : compactStore) (plans : list compactPlan) (p : position) : Prop :=
  exists service plan op, operationOf s p = Some op /\ compileCompactPlan s service (at_index p) = Ok plan /\
  plans !! Z.to_nat (at_index p) = Some plan.

Lemma operationOf_range s p op : operationOf s p = Some op -> 0 <= at_index p /\ at_ (operations s) (at_index p) = Some op /\
  (Z.to_nat (at_index p) < List.length (operations s))%nat.
Proof.
  unfold operationOf, at_. destruct (at_index p <? 0) eqn:E; [done|]. cbn. destruct (operations s !! _) as [r|] eqn:Er; [|done]. cbn.
  destruct (_ =? _); [|done]. intros [= ->]. split; [by apply Z.ltb_ge|]. split; [done|]. by eapply lookup_lt_Some.
Qed.
Lemma planPosition_planned s service p plans plans' : List.length plans = List.length (operations s) ->
  planPosition s service p plans = Ok plans' ->
  List.length plans' = List.length (operations s) /\ planned s plans' p /\ forall q, planned s plans q -> planned s plans' q.
Proof.
  intros Hl E. unfold planPosition in E. apply need_ok in E as (op & Eop & E). apply result_bind_ok in E as (plan & Eplan & [= <-]).
  pose proof (operationOf_range _ _ _ Eop) as (H0 & Hat & Hlt).
  assert (Hset : <[Z.to_nat (at_index p) := plan]> plans !! Z.to_nat (at_index p) = Some plan) by (apply list_lookup_insert_eq; lia).
  split; [by rewrite length_insert|]. split; [by exists service, plan, op|].
  intros q (sv & pl & opq & Eq & Epl & Hq). pose proof (operationOf_range _ _ _ Eq) as (Hq0 & _ & _).
  destruct (decide (at_index q = at_index p)) as [Hpq|Hne].
  - exists service, plan, opq. rewrite Hpq. done.
  - exists sv, pl, opq. split_and!; try done. rewrite list_lookup_insert_ne by lia. done.
Qed.
Lemma compiled_plans s s' : compileCompactPlans (Some s) = Ok s' ->
  exists plans blob offsets, s' = withPool (withPlans s plans) [] blob offsets /\
  forall ops p, ops ∈ serviceOps s -> p ∈ ops -> planned s plans p.
Proof.
  cbn [compileCompactPlans]. intros E. apply result_bind_ok in E as (plans & E & Ep). unfold packCompactStrings in Ep.
  destruct (_ =? _); [done|]. apply result_bind_ok in Ep as (offsets & _ & [= <-]). exists plans, (String.concat EmptyString (pool s)), offsets.
  split; [done|].
  set (P := fun (seen : list (Z * list position)) (plans : list compactPlan) =>
    List.length plans = List.length (operations s) /\ forall ips p, ips ∈ seen -> p ∈ ips.2 -> planned s plans p).
  assert (HP : P (zip (seqZ 0 (lengthZ (serviceOps s))) (serviceOps s)) plans).
  { apply (foldM_inv _ P _ _ _ E).
    - split; [by rewrite length_replicate|]. by intros ips p H%elem_of_nil.
    - clear. intros seen [i ps] plans plans' E [Hl Hs]. unfold planService in E. apply need_ok in E as (r & _ & E).
      apply need_ok in E as (service & _ & E). cbn [snd] in E.
      set (Q := fun (done_ : list position) (plans : list compactPlan) =>
        List.length plans = List.length (operations s) /\ (forall p, p ∈ done_ -> planned s plans p) /\
        forall ips p, ips ∈ seen -> p ∈ ips.2 -> planned s plans p).
      assert (HQ : Q ps plans').
      { apply (foldM_inv _ Q _ _ _ E).
        - split; [done|]. split; [by intros p H%elem_of_nil|done].
        - clear. intros prev p plans plans' E (Hl & Hd & Hs). apply planPosition_planned in E as (Hl' & Hp & Hq); [|done].
          split; [done|]. split; [|by intros; eapply Hq, Hs]. intros q [Hin|Hin]%elem_of_app; [by apply Hq, Hd|].
          by apply list_elem_of_singleton in Hin as ->. }
      destruct HQ as (Hl' & Hd & Hs'). split; [done|]. intros ips p [Hin|Hin]%elem_of_app Hp; [by eapply Hs'|].
      apply list_elem_of_singleton in Hin as ->. by apply Hd. }
  intros ops p Hops Hp. destruct HP as [_ HP]. apply list_elem_of_lookup in Hops as (n & Hn).
  apply (HP (Z.of_nat n, ops)); [|done]. apply (list_elem_of_lookup_2 _ n). apply lookup_zip_with_Some.
  exists (Z.of_nat n), ops. split; [done|]. split; [|done]. apply lookup_seqZ. split; [lia|]. apply lookup_lt_Some in Hn. unfold lengthZ. lia.
Qed.

Lemma serviceHolding_in p l i : 0 <= i -> serviceHolding p l i <> -1 -> exists ops, ops ∈ l /\ p ∈ ops.
Proof.
  revert i. induction l as [|ops l IH]; intros i Hi H; [done|]. cbn in H. destruct (existsb _ ops) eqn:E.
  - apply existsb_elem in E as (q & Hq & E). apply andb_true_iff in E as [E1%Z.eqb_eq E2%Z.eqb_eq]. exists ops. split; [left|].
    destruct p, q. cbn in *. by subst.
  - apply IH in H as (ops' & Hin & Hp); [|lia]. exists ops'. split; [by right|done].
Qed.
Lemma occurrenceAt_plan s p o : occurrenceAt s p = Some o -> exists op ops plan,
  operationOf s p = Some op /\ ops ∈ serviceOps s /\ p ∈ ops /\ compactPlans s !! Z.to_nat (at_index p) = Some plan /\
  mapM (staticMappingAt s) (cp_mappings plan) = Some (pl_Mappings (Plan o)) /\ Diagnostics (Plan o) = cp_diagnostics plan.
Proof.
  unfold occurrenceAt. destruct (operationOf s p) as [op|] eqn:Eop; [|done]. cbn [mbind option_bind].
  destruct (operationAt s _) as [view|]; [|done]. cbn [mbind option_bind].
  destruct (serviceAt s (serviceHolding p (serviceOps s) 0)) as [sv|] eqn:Es; [|done]. cbn [mbind option_bind].
  destruct (staticPlan s (at_index p)) as [pl|] eqn:Ep; [|done]. intros [= <-]. cbn [Plan].
  destruct (serviceHolding_in p (serviceOps s) 0) as (ops & Hops & Hp); [done|by intros H; rewrite H in Es|].
  unfold staticPlan in Ep. destruct (at_ (operations s) (at_index p)) as [r|]; [|done]. cbn [mbind option_bind] in Ep. unfold at_ in Ep.
  destruct (at_index p <? 0); [done|]. destruct (compactPlans s !! _) as [plan|] eqn:Epl; [|done]. cbn [mbind option_bind] in Ep.
  destruct (compactString s (co_service r)); [|done]. destruct (compactString s (co_name r)); [|done]. cbn [mbind option_bind] in Ep.
  destruct (mapM _ (cp_mappings plan)) as [ms|] eqn:Em; [|done]. injection Ep as <-. exists op, ops, plan. done.
Qed.

(** C17. A lookup over the loaded catalog is grounded in its evidence: when it
    succeeds, it has used one occurrence of the operation, whose compiled plan
    agrees with the mappings and the action definitions of the catalog (each mapped
    action with one known definition, the mapped actions exactly the roots and what
    their dependencies unfold to), and the result is that plan, evaluated on the
    request. *)
Theorem catalog_lookup_exact (s s' : compactStore) (service operation : string) (identity : IamMapper.IamMapper.WireIdentity)
    (parameters : Adapter.Adapter.Params) (r : Adapter.Adapter.LookupResult) :
  compileCompactPlans (Some s) = Ok s' -> Forall (fun op => Forall (fun sp => 0 <= sp_count sp) (co_mappings op)) (operations s) ->
  LookupRequest (Some (adapterOf (Some s'))) service operation identity parameters = (r, None) ->
  exists p op plan rows o,
    p ∈ lookupAll (occurrences s) (operationKey service (NormalizeOperation operation)) /\
    operationOf s p = Some op /\ agrees s op plan rows /\
    mapM (staticMappingAt s') (cp_mappings plan) = Some (pl_Mappings (Plan o)) /\
    looked_up parameters (oc_Operation o) (Plan o) r.
Proof.
  intros E Hcounts El. destruct (compiled_plans _ _ E) as (plans & blob & offsets & -> & Hplans). clear E.
  set (s' := withPool _ _ _ _) in *.
  apply AdapterSoundness.AdapterSoundness.lookup_selected in El as (ad & o & [= <-] & Hsel & Hl). cbn [adapterOf Adapter.Adapter.OperationOccurrences] in Hsel.
  assert (Ho : o ∈ OperationOccurrences (Some s') service (NormalizeOperation operation)).
  { apply list_elem_of_In. apply (filter_In (Adapter.Adapter.selects (NormalizeOperation operation) identity)). rewrite Hsel. by left. }
  clear Hsel. cbn [OperationOccurrences] in Ho.
  destruct (mapM (occurrenceAt s') _) as [os|] eqn:Em; [|by apply elem_of_nil in Ho]. cbn [default] in Ho.
  apply mapM_Some in Em. apply list_elem_of_lookup in Ho as (n & Hn). destruct (Forall2_lookup_r _ _ _ _ _ Em Hn) as (p & Hp & Hpo).
  apply occurrenceAt_plan in Hpo as (op & ops & plan & Eop & Hops & Hpin & Hplan & Hms & Hd).
  destruct (Hplans ops p Hops Hpin) as (sv & plan0 & op0 & Eop0 & Ecomp & Hplan0).
  assert (plan0 = plan) as -> by (cbn in Hplan; congruence). destruct (operationOf_range _ _ _ Eop0) as (_ & Hat & _).
  destruct (valid_plan_exact s sv (at_index p) op0 plan Ecomp Hat) as (rows & Hrows).
  { rewrite Forall_forall in Hcounts. apply Hcounts. unfold at_ in Hat. destruct (_ <? _); [done|]. by eapply list_elem_of_lookup_2. }
  { rewrite <-Hd. apply (AdapterSoundness.AdapterSoundness.lu_plan _ _ _ _ Hl). }
  exists p, op0, plan, rows, o. split_and!; try done. by eapply list_elem_of_lookup_2.
Qed.
End Lookup.

(** ** A task with a role, from the sample store *)

#[local] Instance sample_tables : UnicodeTables := ascii_tables.
Definition loadedStore : compactStore := match compileCompactPlans (Some sampleStore) with Ok s => s | Err _ => sampleStore end.
Definition sampleIdentity : IamMapper.IamMapper.WireIdentity :=
  IamMapper.IamMapper.mkWire ProtocolJSON11 "POST" "/" ∅ "AmazonECS.RunTask".
Definition sampleParameters : Adapter.Adapter.Params := [("taskRoleArn", vstring "arn:aws:iam::123456789012:role/task")]%string.
Definition sampleResult : Adapter.Adapter.LookupResult * option IamMapper.IamMapper.gerr :=
  LookupRequest (Some (adapterOf (Some loadedStore))) "ecs" "RunTask" sampleIdentity sampleParameters.
Example sample_result :
  ((fun p => act_Name (Adapter.Adapter.p_Action p)) <$> Adapter.Adapter.PrimaryOccurrences sampleResult.1,
   (fun d => (act_Name (Adapter.Adapter.dep_Action d), Adapter.Adapter.dep_Resources d)) <$> Adapter.Adapter.DependencyOccurrences sampleResult.1)
  = (["RunTask"], [("PassRole", ["arn:aws:iam::123456789012:role/task"])])%string.
Proof. vm_compute. reflexivity. Qed.
Lemma catalog_lookup_exact_witness : exists p op plan rows o,
  p ∈ lookupAll (occurrences sampleStore) (operationKey "ecs" (NormalizeOperation "RunTask")) /\
  operationOf sampleStore p = Some op /\ agrees sampleStore op plan rows /\
  mapM (staticMappingAt loadedStore) (cp_mappings plan) = Some (pl_Mappings (Plan o)) /\
  looked_up sampleParameters (oc_Operation o) (Plan o) sampleResult.1.
Proof.
  apply (catalog_lookup_exact sampleStore loadedStore "ecs" "RunTask" sampleIdentity sampleParameters).
  - vm_compute. reflexivity.
  - apply Forall_singleton, Forall_singleton. cbn. lia.
  - vm_compute. reflexivity.
Defined.
End CatalogLookup.
