(* ===== verification/CatalogBuild.v ===== *)
(** * Building the compact store (iamlivecatalog/catalog.go)

    While the catalog is loaded, API models, action definitions and mappings are
    decoded into a temporary graph, and [compactEvidence] moves it into the store,
    one part at a time.  Strings are interned, evidence gets increasing occurrence
    identities, and mappings are attached to the operations that they name.  The
    decoded JSON ([rawAPI], [rawService], [rawMapping]) is the input; Go maps are
    association lists in an order of iteration. *)

From Stdlib Require Import ZArith Lia Ascii.
From stdpp Require Import base gmap strings list.
From S2P Require Import Prelude GoStrings.
From S2P Require Import CatalogTypes.
From S2P Require Import CatalogStore.
From S2P Require Import CatalogAccess.

Module CatalogBuild.
Import CatalogTypes.CatalogTypes CatalogStore.CatalogStore CatalogAccess.CatalogAccess.

(** ** Changes of the store *)

Definition pushString (value : string) (s : compactStore) : compactStore :=
  mkStore (pool s ++ [value]) (stringBlob s) (stringOffsets s) (<[value := lengthZ (pool s)]> (stringIndex s))
    (services s) (operations s) (serviceOps s) (operationIndex s) (occurrences s) (mappings s) (mappingIndex s)
    (mappingOrder s) (actions s) (actionIndex s) (actionOrder s) (resources s) (mappingResources s) (dependents s)
    (conditions s) (mapPairs s) (queryRecords s) (refs s) (compactPlans s).
Definition pushRef (x : stringID) (s : compactStore) : compactStore :=
  mkStore (pool s) (stringBlob s) (stringOffsets s) (stringIndex s) (services s) (operations s) (serviceOps s)
    (operationIndex s) (occurrences s) (mappings s) (mappingIndex s) (mappingOrder s) (actions s) (actionIndex s)
    (actionOrder s) (resources s) (mappingResources s) (dependents s) (conditions s) (mapPairs s) (queryRecords s)
    (refs s ++ [x]) (compactPlans s).
Definition pushService (x : compactService) (s : compactStore) : compactStore :=
  mkStore (pool s) (stringBlob s) (stringOffsets s) (stringIndex s) (services s ++ [x]) (operations s) (serviceOps s)
    (operationIndex s) (occurrences s) (mappings s) (mappingIndex s) (mappingOrder s) (actions s) (actionIndex s)
    (actionOrder s) (resources s) (mappingResources s) (dependents s) (conditions s) (mapPairs s) (queryRecords s)
    (refs s) (compactPlans s).
Definition pushQuery (x : compactQuery) (s : compactStore) : compactStore :=
  mkStore (pool s) (stringBlob s) (stringOffsets s) (stringIndex s) (services s) (operations s) (serviceOps s)
    (operationIndex s) (occurrences s) (mappings s) (mappingIndex s) (mappingOrder s) (actions s) (actionIndex s)
    (actionOrder s) (resources s) (mappingResources s) (dependents s) (conditions s) (mapPairs s)
    (queryRecords s ++ [x]) (refs s) (compactPlans s).
Definition pushMapping (x : compactMapping) (s : compactStore) : compactStore :=
  mkStore (pool s) (stringBlob s) (stringOffsets s) (stringIndex s) (services s) (operations s) (serviceOps s)
    (operationIndex s) (occurrences s) (mappings s ++ [x]) (mappingIndex s) (mappingOrder s) (actions s)
    (actionIndex s) (actionOrder s) (resources s) (mappingResources s) (dependents s) (conditions s) (mapPairs s)
    (queryRecords s) (refs s) (compactPlans s).
Definition pushMappingResource (x : compactResourceMapping) (s : compactStore) : compactStore :=
  mkStore (pool s) (stringBlob s) (stringOffsets s) (stringIndex s) (services s) (operations s) (serviceOps s)
    (operationIndex s) (occurrences s) (mappings s) (mappingIndex s) (mappingOrder s) (actions s) (actionIndex s)
    (actionOrder s) (resources s) (mappingResources s ++ [x]) (dependents s) (conditions s) (mapPairs s)
    (queryRecords s) (refs s) (compactPlans s).
Definition pushPair (x : compactMapPair) (s : compactStore) : compactStore :=
  mkStore (pool s) (stringBlob s) (stringOffsets s) (stringIndex s) (services s) (operations s) (serviceOps s)
    (operationIndex s) (occurrences s) (mappings s) (mappingIndex s) (mappingOrder s) (actions s) (actionIndex s)
    (actionOrder s) (resources s) (mappingResources s) (dependents s) (conditions s) (mapPairs s ++ [x])
    (queryRecords s) (refs s) (compactPlans s).
Definition pushCondition (x : compactCondition) (s : compactStore) : compactStore :=
  mkStore (pool s) (stringBlob s) (stringOffsets s) (stringIndex s) (services s) (operations s) (serviceOps s)
    (operationIndex s) (occurrences s) (mappings s) (mappingIndex s) (mappingOrder s) (actions s) (actionIndex s)
    (actionOrder s) (resources s) (mappingResources s) (dependents s) (conditions s ++ [x]) (mapPairs s)
    (queryRecords s) (refs s) (compactPlans s).
Definition pushResource (x : compactResource) (s : compactStore) : compactStore :=
  mkStore (pool s) (stringBlob s) (stringOffsets s) (stringIndex s) (services s) (operations s) (serviceOps s)
    (operationIndex s) (occurrences s) (mappings s) (mappingIndex s) (mappingOrder s) (actions s) (actionIndex s)
    (actionOrder s) (resources s ++ [x]) (mappingResources s) (dependents s) (conditions s) (mapPairs s)
    (queryRecords s) (refs s) (compactPlans s).
Definition pushDependent (x : compactDependent) (s : compactStore) : compactStore :=
  mkStore (pool s) (stringBlob s) (stringOffsets s) (stringIndex s) (services s) (operations s) (serviceOps s)
    (operationIndex s) (occurrences s) (mappings s) (mappingIndex s) (mappingOrder s) (actions s) (actionIndex s)
    (actionOrder s) (resources s) (mappingResources s) (dependents s ++ [x]) (conditions s) (mapPairs s)
    (queryRecords s) (refs s) (compactPlans s).
Definition pushActionOrder (x : position) (s : compactStore) : compactStore :=
  mkStore (pool s) (stringBlob s) (stringOffsets s) (stringIndex s) (services s) (operations s) (serviceOps s)
    (operationIndex s) (occurrences s) (mappings s) (mappingIndex s) (mappingOrder s) (actions s) (actionIndex s)
    (actionOrder s ++ [x]) (resources s) (mappingResources s) (dependents s) (conditions s) (mapPairs s)
    (queryRecords s) (refs s) (compactPlans s).
Definition pushMappingOrder (x : mappingPosition) (s : compactStore) : compactStore :=
  mkStore (pool s) (stringBlob s) (stringOffsets s) (stringIndex s) (services s) (operations s) (serviceOps s)
    (operationIndex s) (occurrences s) (mappings s) (mappingIndex s) (mappingOrder s ++ [x]) (actions s)
    (actionIndex s) (actionOrder s) (resources s) (mappingResources s) (dependents s) (conditions s) (mapPairs s)
    (queryRecords s) (refs s) (compactPlans s).
Definition setMappingIndex (m : gmap string (list mappingSpan)) (s : compactStore) : compactStore :=
  mkStore (pool s) (stringBlob s) (stringOffsets s) (stringIndex s) (services s) (operations s) (serviceOps s)
    (operationIndex s) (occurrences s) (mappings s) m (mappingOrder s) (actions s) (actionIndex s) (actionOrder s)
    (resources s) (mappingResources s) (dependents s) (conditions s) (mapPairs s) (queryRecords s) (refs s)
    (compactPlans s).
Definition setOperations (os : list compactOperation) (s : compactStore) : compactStore :=
  mkStore (pool s) (stringBlob s) (stringOffsets s) (stringIndex s) (services s) os (serviceOps s) (operationIndex s)
    (occurrences s) (mappings s) (mappingIndex s) (mappingOrder s) (actions s) (actionIndex s) (actionOrder s)
    (resources s) (mappingResources s) (dependents s) (conditions s) (mapPairs s) (queryRecords s) (refs s)
    (compactPlans s).
Definition setActions (xs : list compactAction) (s : compactStore) : compactStore :=
  mkStore (pool s) (stringBlob s) (stringOffsets s) (stringIndex s) (services s) (operations s) (serviceOps s)
    (operationIndex s) (occurrences s) (mappings s) (mappingIndex s) (mappingOrder s) xs (actionIndex s)
    (actionOrder s) (resources s) (mappingResources s) (dependents s) (conditions s) (mapPairs s) (queryRecords s)
    (refs s) (compactPlans s).
Definition setOperationIndex (m : option (gmap string (list position))) (s : compactStore) : compactStore :=
  mkStore (pool s) (stringBlob s) (stringOffsets s) (stringIndex s) (services s) (operations s) (serviceOps s) m
    (occurrences s) (mappings s) (mappingIndex s) (mappingOrder s) (actions s) (actionIndex s) (actionOrder s)
    (resources s) (mappingResources s) (dependents s) (conditions s) (mapPairs s) (queryRecords s) (refs s)
    (compactPlans s).
Definition setServiceOps (x : list (list position)) (s : compactStore) : compactStore :=
  mkStore (pool s) (stringBlob s) (stringOffsets s) (stringIndex s) (services s) (operations s) x (operationIndex s)
    (occurrences s) (mappings s) (mappingIndex s) (mappingOrder s) (actions s) (actionIndex s) (actionOrder s)
    (resources s) (mappingResources s) (dependents s) (conditions s) (mapPairs s) (queryRecords s) (refs s)
    (compactPlans s).
Definition setOccurrences (m : gmap string (list position)) (s : compactStore) : compactStore :=
  mkStore (pool s) (stringBlob s) (stringOffsets s) (stringIndex s) (services s) (operations s) (serviceOps s)
    (operationIndex s) m (mappings s) (mappingIndex s) (mappingOrder s) (actions s) (actionIndex s) (actionOrder s)
    (resources s) (mappingResources s) (dependents s) (conditions s) (mapPairs s) (queryRecords s) (refs s)
    (compactPlans s).
Definition setActionIndex (m : gmap string (list position)) (s : compactStore) : compactStore :=
  mkStore (pool s) (stringBlob s) (stringOffsets s) (stringIndex s) (services s) (operations s) (serviceOps s)
    (operationIndex s) (occurrences s) (mappings s) (mappingIndex s) (mappingOrder s) (actions s) m (actionOrder s)
    (resources s) (mappingResources s) (dependents s) (conditions s) (mapPairs s) (queryRecords s) (refs s)
    (compactPlans s).
Definition setPool (strings : list string) (index : gmap string Z) (s : compactStore) : compactStore :=
  mkStore strings (stringBlob s) (stringOffsets s) index (services s) (operations s) (serviceOps s) (operationIndex s)
    (occurrences s) (mappings s) (mappingIndex s) (mappingOrder s) (actions s) (actionIndex s) (actionOrder s)
    (resources s) (mappingResources s) (dependents s) (conditions s) (mapPairs s) (queryRecords s) (refs s)
    (compactPlans s).

(** A step of the construction, which may fail; [B] is a step on the store. *)
Definition Step (S A : Type) : Type := S -> result (A * S).
#[export] Instance Step_ret {S} : MRet (Step S) := fun A a s => Ok (a, s).
#[export] Instance Step_bind {S} : MBind (Step S) := fun A B f m s => match m s with Ok (a, s) => f a s | Err err => Err err end.
Definition gets {S A} (f : S -> A) : Step S A := fun s => Ok (f s, s).
Definition modify {S} (f : S -> S) : Step S unit := fun s => Ok (tt, f s).
Definition failed {S A} (err : error) : Step S A := fun _ => Err err.
Definition each {S X} (f : X -> Step S unit) (xs : list X) : Step S unit := _ ← mapM f xs; mret tt.
Abbreviation B := (Step compactStore).

(** ** Strings and conditions *)

Definition internString (value : string) : B stringID := fun s =>
  if (value =? "")%string then Ok (invalidStringID, s)
  else match stringIndex s !! value with
  | Some id => Ok (id, s)
  | None =>
    if maxCatalogItems <=? lengthZ (pool s) then Err (ErrNew "catalog: interned string count exceeds bound")
    else Ok (lengthZ (pool s), pushString value s)
  end.
Definition addStrings (values : list string) : B stringSpan :=
  start ← gets (fun s => lengthZ (refs s));
  _ ← mapM (fun value => id ← internString value; modify (pushRef id)) values;
  mret (mkSpan (u32 start) (u32 (lengthZ values))).
Fixpoint addCondition (c : Condition) : B Z :=
  match c with
  | mkCondition lhs op rhs and =>
    lhs ← internString lhs;
    op ← internString op;
    rhs ← internString rhs;
    and ← match and with None => mret (-1) | Some c => addCondition c end;
    index ← gets (fun s => lengthZ (conditions s));
    _ ← modify (pushCondition (mkCompactCondition lhs op rhs and));
    mret index
  end.
Definition addOptional (c : option Condition) : B Z := match c with None => mret (-1) | Some c => addCondition c end.

Section Build.
Context `{U : UnicodeTables}.

(** ** Services and operations *)

Definition appendAt {V} (m : gmap string (list V)) (k : string) (v : V) : gmap string (list V) := <[k := lookupAll m k ++ [v]]> m.
Definition addService (service : ServiceModel) : B unit :=
  key ← internString (s_Key service);
  id ← internString (s_ID service);
  endpoint ← internString (s_EndpointPrefix service);
  signing ← internString (SigningName service);
  target ← internString (s_TargetPrefix service);
  version ← internString (s_APIVersion service);
  protocol ← internString (s_Protocol service);
  protocols ← addStrings (s_Protocols service);
  aliases ← addStrings (Aliases service);
  modify (pushService (mkCompactService key id endpoint signing target version protocol protocols aliases)).
Definition addRoute (r : Route) : B compactRoute :=
  method ← internString (r_Method r);
  uri ← internString (URI r);
  discriminator ← internString (QueryDiscriminator r);
  target ← internString (r_TargetPrefix r);
  jsonVersion ← internString (JSONVersion r);
  mret (mkCompactRoute method uri discriminator target jsonVersion (ResponseCode r)).
Definition addQuery (q : QueryBinding) : B unit :=
  member ← internString (Member q); location ← internString (LocationName q);
  modify (pushQuery (mkCompactQuery member location (Required q))).
Definition pushOperation (serviceIndex : nat) (endpoint : string) (aliases : list string) (op : Operation) (record : compactOperation)
    (s : compactStore) : compactStore :=
  let p := mkPosition (lengthZ (operations s)) (o_occurrenceID op) in
  let s := setOperations (operations s ++ [record]) s in
  let s := setServiceOps (alter (fun ops => ops ++ [p]) serviceIndex (serviceOps s)) s in
  let s := setOccurrences (appendAt (occurrences s) (operationKey endpoint (o_Name op)) p) s in
  setOperationIndex ((fun m => fold_left (fun m alias => appendAt m (operationKey alias (o_Name op)) p) aliases m) <$> operationIndex s) s.
Definition addOperation (serviceIndex : nat) (service : ServiceModel) (op : Operation) : B unit :=
  serviceID ← internString (o_Service op);
  name ← internString (o_Name op);
  input ← internString (InputShape op);
  output ← internString (OutputShape op);
  route ← addRoute (o_Route op);
  qstart ← gets (fun s => lengthZ (queryRecords s));
  _ ← mapM addQuery (o_QueryBindings op);
  modify (pushOperation serviceIndex (s_EndpointPrefix service) (Aliases service) op
    (mkCompactOperation (o_occurrenceID op) serviceID name input output route
       (mkSpan (u32 qstart) (u32 (lengthZ (o_QueryBindings op)))) (o_State op) (MappingState op) (mappingSpans op))).
Definition growServiceOps (index : nat) (s : compactStore) : compactStore :=
  setServiceOps (serviceOps s ++ replicate (S index - List.length (serviceOps s)) []) s.
Definition addOperations (base : nat) (x : nat * ServiceModel) : B unit :=
  _ ← modify (growServiceOps (base + x.1));
  each (addOperation (base + x.1) x.2) (CatalogTypes.CatalogTypes.Operations x.2).
Definition addServices (services_ : list ServiceModel) : B unit :=
  base ← gets (fun s => List.length (services s));
  _ ← mapM addService services_;
  each (addOperations base) (zip (seq 0 (List.length services_)) services_).

(** ** Mappings *)

Definition addResourceMapping (r : ResourceMapping) : B unit :=
  p ← internString (rm_Parameter r);
  t ← internString (Template r);
  condition ← addOptional (rm_Condition r);
  modify (pushMappingResource (mkCompactResourceMapping (rm_occurrenceID r) p t condition)).
Definition addARNPair (kv : string * string) : B unit :=
  k ← internString kv.1; v ← internString kv.2; modify (pushPair (mkCompactMapPair k v (-1))).
Definition addConditionPair (m : ActionMapping) (k : string) : B unit :=
  match mapGet (ConditionMappings m) k with
  | None => failed (ErrFmt "catalog: condition mapping %q missing" [k])
  | Some v =>
    key ← internString k;
    index ← (p ← internString (rm_Parameter v);
             t ← internString (Template v);
             condition ← addOptional (rm_Condition v);
             index ← gets (fun s => lengthZ (mappingResources s));
             _ ← modify (pushMappingResource (mkCompactResourceMapping (rm_occurrenceID v) p t condition));
             mret index);
    modify (pushPair (mkCompactMapPair key invalidStringID index))
  end.
Definition addMapping (m : ActionMapping) : B unit :=
  action ← internString (m_Action m);
  override ← internString (ARNOverride m);
  notice ← internString (Notice m);
  rstart ← gets (fun s => lengthZ (mappingResources s));
  _ ← mapM addResourceMapping (m_Resources m);
  astart ← gets (fun s => lengthZ (mapPairs s));
  _ ← mapM addARNPair (ResourceARNMappings m);
  cstart ← gets (fun s => lengthZ (mapPairs s));
  _ ← mapM (addConditionPair m) (conditionMappingOrder m);
  cend ← gets (fun s => lengthZ (mapPairs s));
  condition ← addOptional (m_Condition m);
  modify (pushMapping (mkCompactMapping (occurrenceID m) action (m_State m)
    (mkSpan (u32 rstart) (u32 (lengthZ (m_Resources m)))) (mkSpan (u32 astart) (u32 (cstart - astart)))
    (mkSpan (u32 cstart) (u32 (cend - cstart))) condition override notice)).
Definition addSpan (base count : Z) (ks : string * mappingSpan) : B unit :=
  let '(key, sp) := ks in
  if negb (validMappingSpan sp count) || (maxCatalogItems <? base + sp_start sp)
  then failed (ErrNew "catalog: mapping span exceeds canonical store")
  else modify (fun s => setMappingIndex (appendAt (mappingIndex s) key (mkMappingSpan (u32 (sp_start sp + base)) (sp_count sp))) s).
Definition addMappingOrder (base count : Z) (p : mappingPosition) : B unit :=
  if (u32 count <=? storeIndex p) || (maxCatalogItems <? base + storeIndex p)
  then failed (ErrNew "catalog: mapping occurrence order is corrupt")
  else modify (pushMappingOrder (mkMappingPosition (u32 (storeIndex p + base)) (mp_occurrence p) (mp_key p))).
(** [index] is [c.mappingIndex], in an order of iteration. *)
Definition addMappings (ms : list ActionMapping) (index : list (string * list mappingSpan)) (order : list mappingPosition) : B unit :=
  base ← gets (fun s => u32 (lengthZ (mappings s)));
  _ ← each (fun ks : string * list mappingSpan => each (fun sp => addSpan base (lengthZ ms) (ks.1, sp)) ks.2) index;
  _ ← each (addMappingOrder base (lengthZ ms)) order;
  each addMapping ms.

(** ** Action definitions *)

Definition addDependent (dn : string * option Z) : B unit :=
  action ← internString dn.1; modify (pushDependent (mkCompactDependent (default invalidOccurrenceID dn.2) action)).
Definition addResource (r : ResourceTypeDef) : B unit :=
  name ← internString (rt_Name r);
  keys ← addStrings (ConditionKeys r);
  ds ← addStrings (DependentActions r);
  start ← gets (fun s => lengthZ (dependents s));
  _ ← mapM addDependent (zip (DependentActions r) ((Some <$> dependentActionIDs r) ++ replicate (List.length (DependentActions r)) None));
  modify (pushResource (mkCompactResource (rt_occurrenceID r) name keys ds (dependentActionIDs r)
    (mkSpan (u32 start) (u32 (lengthZ (DependentActions r)))))).
Definition pushAction (key : string) (d : ActionDefinition) (record : compactAction) (s : compactStore) : compactStore :=
  let p := mkPosition (lengthZ (actions s)) (def_occurrenceID d) in
  let s := setActions (actions s ++ [record]) s in setActionIndex (appendAt (actionIndex s) key p) s.
Definition addAction (key : string) (d : ActionDefinition) : B Z :=
  service ← internString (def_Service d);
  name ← internString (def_Name d);
  access ← internString (AccessLevel d);
  description ← internString (Description d);
  start ← gets (fun s => lengthZ (resources s));
  _ ← mapM addResource (def_Resources d);
  index ← gets (fun s => lengthZ (actions s));
  _ ← modify (pushAction key d (mkCompactAction (def_occurrenceID d) service name access description
        (mkSpan (u32 start) (u32 (lengthZ (def_Resources d)))) (def_State d)));
  mret index.
Definition orderCorrupt : error := ErrNew "catalog: action occurrence order is corrupt".
(** [buildActions] and [buildActionOrder]; the result is the index of each. *)
Definition addOrdered (definitions : gmap string (list ActionDefinition)) (p : string * Z) : B Z :=
  match at_ (lookupAll definitions p.1) p.2 with None => failed orderCorrupt | Some d => addAction p.1 d end.
Definition addActionOrder (definitions : gmap string (list ActionDefinition)) (compacted : list (string * Z)) (p : string * Z) : B unit :=
  let indexes := (fun x => x.2) <$> List.filter (fun x => (x.1 =? p.1)%string) compacted in
  match at_ indexes p.2, at_ (lookupAll definitions p.1) p.2 with
  | Some index, Some d => fun s =>
    match at_ (actions s) index with
    | Some r =>
      if ca_occurrence r =? def_occurrenceID d then Ok (tt, pushActionOrder (mkPosition index (ca_occurrence r)) s)
      else Err (ErrNew "catalog: action occurrence identity is corrupt")
    | None => Err (ErrNew "catalog: action occurrence identity is corrupt")
    end
  | _, _ => failed orderCorrupt
  end.
Definition addActions (definitions : gmap string (list ActionDefinition)) (order : list (string * Z)) : B unit :=
  indexes ← mapM (addOrdered definitions) order;
  each (addActionOrder definitions (zip order.*1 indexes)) order.

(** ** The temporary graph, and its conversion *)

Record indexedOperation := mkIndexed { modelKey : string; ix_serviceIndex : Z; ix_operationIndex : Z; ix_occurrence : Z }.
Record Catalog := mkCatalog {
  c_store : option compactStore; c_services : list ServiceModel; c_serviceIndex : gmap string (list Z);
  c_operations : gmap string (list indexedOperation); c_buildActions : gmap string (list ActionDefinition);
  c_buildActionOrder : list (string * Z); c_mappingStore : list ActionMapping; c_mappingIndex : list (string * list mappingSpan);
  c_mappingOrder : list mappingPosition; c_permissionless : list string; c_strings : list string; c_stringIndex : gmap string Z;
  nextEvidenceID : Z;
}.
Definition emptyStore : compactStore :=
  {| pool := []; stringBlob := EmptyString; stringOffsets := []; stringIndex := ∅; services := []; operations := []; serviceOps := [];
     operationIndex := Some ∅; occurrences := ∅; mappings := []; mappingIndex := ∅; mappingOrder := []; actions := []; actionIndex := ∅;
     actionOrder := []; resources := []; mappingResources := []; dependents := []; conditions := []; mapPairs := []; queryRecords := [];
     refs := []; compactPlans := [] |}.
Definition convert (c : Catalog) : B unit :=
  _ ← (if (List.length (c_services c) =? 0)%nat then mret tt else addServices (c_services c));
  _ ← (if (List.length (c_mappingStore c) =? 0)%nat then mret tt
       else addMappings (c_mappingStore c) (c_mappingIndex c) (c_mappingOrder c));
  if (List.length (c_buildActionOrder c) =? 0)%nat then mret tt else addActions (c_buildActions c) (c_buildActionOrder c).
(** The strings of the store are [c.strings] throughout; the graph is cleared. *)
Definition compactEvidence (c : Catalog) : result Catalog :=
  let s := setPool (c_strings c) (c_stringIndex c) (default emptyStore (c_store c)) in
  match convert c s with
  | Err err => Err err
  | Ok (_, s) => Ok (mkCatalog (Some s) [] ∅ ∅ ∅ [] [] [] [] (c_permissionless c) [] ∅ (nextEvidenceID c))
  end.
End Build.
End CatalogBuild.
