(* ===== verification/CatalogRoundTrip.v ===== *)
(** * Building the catalog: what is put in is what is read back

    A store only grows while it is built, and growing loses no view.  Each part of
    the temporary graph that [compactEvidence] moves into the store is read back by
    the accessors as it was. *)

From Stdlib Require Import ZArith Lia ZifyBool Ascii.
From stdpp Require Import base gmap strings list.
From S2P Require Import Prelude GoStrings.
From S2P Require Import CatalogTypes.
From S2P Require Import CatalogStore.
From S2P Require Import CatalogAccess.
From S2P Require Import CatalogBuild.

Module CatalogRoundTrip.
Import CatalogTypes.CatalogTypes CatalogStore.CatalogStore CatalogAccess.CatalogAccess CatalogBuild.CatalogBuild.

(** ** Views that survive *)

(** What the first computation reads, the second reads too. *)
Definition kept {A} (o o' : option A) : Prop := forall v, o = Some v -> o' = Some v.
Lemma kept_refl {A} (o : option A) : kept o o.
Proof. by intros v. Qed.
Lemma kept_bind {A B} (o o' : option A) (f f' : A -> option B) :
  kept o o' -> (forall a, kept (f a) (f' a)) -> kept (o ≫= f) (o' ≫= f').
Proof. intros Ho Hf v. destruct o as [a|]; [|done]. cbn. rewrite (Ho a) by done. apply Hf. Qed.
Lemma kept_mapM {A B} (f f' : A -> option B) l : (forall a, kept (f a) (f' a)) -> kept (mapM f l) (mapM f' l).
Proof. intros Hf. induction l as [|a l IH]; cbn; [apply kept_refl|]. apply kept_bind; [apply Hf|].
  intros b. apply kept_bind; [exact IH|]. intros k. apply kept_refl.
Qed.
Lemma kept_guard {A} (b : bool) (o o' : option A) : kept o o' -> kept (if b then None else o) (if b then None else o').
Proof. by destruct b. Qed.

(** ** Stores that grow *)

Record grows (s s' : compactStore) : Prop := {
  gr_pool : pool s `prefix_of` pool s'; gr_packed : stringOffsets s = [] /\ stringOffsets s' = [];
  gr_services : services s `prefix_of` services s'; gr_operations : operations s `prefix_of` operations s';
  gr_mappings : mappings s `prefix_of` mappings s'; gr_actions : actions s `prefix_of` actions s';
  gr_resources : resources s `prefix_of` resources s'; gr_mappingResources : mappingResources s `prefix_of` mappingResources s';
  gr_dependents : dependents s `prefix_of` dependents s'; gr_conditions : conditions s `prefix_of` conditions s';
  gr_mapPairs : mapPairs s `prefix_of` mapPairs s'; gr_queryRecords : queryRecords s `prefix_of` queryRecords s';
  gr_refs : refs s `prefix_of` refs s';
}.
Lemma grows_refl s : stringOffsets s = [] -> grows s s.
Proof. by constructor. Qed.
Lemma grows_trans s1 s2 s3 : grows s1 s2 -> grows s2 s3 -> grows s1 s3.
Proof. intros [] []. constructor; try (by etrans). naive_solver. Qed.

Lemma compactString_unpacked s id : stringOffsets s = [] ->
  compactString s id = if id =? invalidStringID then Some EmptyString else at_ (pool s) id.
Proof.
  intros E. unfold compactString, validStringID, compactStringCount. rewrite E. change (0 <? lengthZ []) with false. cbv iota.
  change (lengthZ (@nil Z) =? 0) with true. cbv iota. destruct (id =? invalidStringID); [done|]. destruct (id <? _) eqn:Ei; [done|].
  unfold at_. destruct (id <? 0) eqn:E0; [done|]. symmetry. apply lookup_ge_None. unfold lengthZ in Ei. cbn. lia.
Qed.

Section Kept.
Context (s s' : compactStore) (G : grows s s').

Lemma kept_at {A} (l l' : list A) i : l `prefix_of` l' -> kept (at_ l i) (at_ l' i).
Proof. intros [k ->] v. unfold at_. destruct (_ <? _); [done|]. apply lookup_app_l_Some. Qed.
Lemma kept_spanned {A} (l l' : list A) sp : l `prefix_of` l' -> kept (spanned l sp) (spanned l' sp).
Proof.
  intros Hl v. unfold spanned, validSpan. destruct (_ <=? _) eqn:E; [|done]. replace (_ <=? lengthZ l') with true.
  - apply kept_mapM. intros i. by apply kept_at.
  - destruct Hl as [k ->]. unfold lengthZ in *. rewrite length_app. lia.
Qed.
Lemma kept_string id : kept (compactString s id) (compactString s' id).
Proof.
  destruct (gr_packed _ _ G) as [E E']. rewrite !compactString_unpacked by done. destruct (_ =? _); [apply kept_refl|]. apply kept_at, G.
Qed.
Hint Resolve kept_refl kept_string : kept.
Hint Extern 3 (kept (at_ _ _) (at_ _ _)) => apply kept_at; apply G : kept.
Hint Extern 3 (kept (spanned _ _) (spanned _ _)) => apply kept_spanned; apply G : kept.
Ltac keep := repeat first
  [ solve [eauto with kept]
  | apply kept_bind; [|intros ?]
  | apply kept_mapM; intros ?
  | apply kept_guard
  | match goal with |- kept (let (_, _) := ?x in _) _ => destruct x | |- kept (match ?x with _ => _ end) _ => destruct x end ].

Lemma kept_strings sp : kept (stringsOf s sp) (stringsOf s' sp).
Proof. unfold stringsOf. keep. Qed.
Lemma kept_walk fuel i seen fuel' : (fuel <= fuel')%nat -> kept (walkCondition fuel s i seen) (walkCondition fuel' s' i seen).
Proof.
  revert i seen fuel'. induction fuel as [|fuel IH]; intros i seen [|fuel'] Hf; try done; [lia|]. cbn [walkCondition].
  destruct (i <? 0); [apply kept_refl|]. apply kept_bind; [apply kept_at, G|]. intros r. case_bool_decide; [done|]. keep. apply IH. lia.
Qed.
Lemma kept_condition i : kept (conditionAt s i) (conditionAt s' i).
Proof.
  unfold conditionAt. destruct (i =? -1); [apply kept_refl|]. destruct (i <? -1); [done|]. intros v.
  destruct (gr_conditions _ _ G) as [k Ek]. assert (Hl : (List.length (conditions s) <= List.length (conditions s'))%nat) by (rewrite Ek, length_app; lia).
  unfold lengthZ. destruct (_ <=? i) eqn:E; [done|]. replace (_ <=? i) with false by lia. apply kept_walk. lia.
Qed.
Hint Resolve kept_strings kept_condition : kept.
Lemma kept_resourceMapping r : kept (resourceMappingAt s r) (resourceMappingAt s' r).
Proof. unfold resourceMappingAt. keep. Qed.
Hint Resolve kept_resourceMapping : kept.
Lemma kept_arnPair p : kept (arnPairAt s p) (arnPairAt s' p).
Proof. unfold arnPairAt. keep. Qed.
Lemma kept_conditionPair p : kept (conditionPairAt s p) (conditionPairAt s' p).
Proof. unfold conditionPairAt. keep. Qed.
Hint Resolve kept_arnPair kept_conditionPair : kept.
Lemma kept_mapping m : kept (mappingView s m) (mappingView s' m).
Proof. unfold mappingView. keep. Qed.
Hint Resolve kept_mapping : kept.
Lemma kept_mappingAt i : kept (mappingAt s i) (mappingAt s' i).
Proof. unfold mappingAt. keep. Qed.
Lemma kept_route r : kept (routeAt s r) (routeAt s' r).
Proof. unfold routeAt. keep. Qed.
Lemma kept_query q : kept (queryAt s q) (queryAt s' q).
Proof. unfold queryAt. keep. Qed.
Lemma kept_spanIndexes sp : kept (spanIndexes s sp) (spanIndexes s' sp).
Proof.
  unfold spanIndexes, validMappingSpan, lengthZ. destruct (gr_mappings _ _ G) as [k ->]. rewrite length_app. intros v.
  destruct (_ <=? _) eqn:E; [|done]. by replace (_ <=? _) with true by lia.
Qed.
Hint Resolve kept_mappingAt kept_route kept_query kept_spanIndexes : kept.
Lemma kept_operation r : kept (operationView s r) (operationView s' r).
Proof. unfold operationView. keep. Qed.
Hint Resolve kept_operation : kept.
Lemma kept_operationAt i : kept (operationAt s i) (operationAt s' i).
Proof. unfold operationAt. keep. Qed.
Lemma kept_dependent x : kept (dependentAt s x) (dependentAt s' x).
Proof. unfold dependentAt. keep. Qed.
Hint Resolve kept_dependent : kept.
Lemma kept_resource r : kept (resourceAt s r) (resourceAt s' r).
Proof. unfold resourceAt. keep. Qed.
Hint Resolve kept_resource : kept.
Lemma kept_action r : kept (actionView s r) (actionView s' r).
Proof. unfold actionView. keep. Qed.
Hint Resolve kept_action : kept.
Lemma kept_actionAt i : kept (actionAt s i) (actionAt s' i).
Proof. unfold actionAt. keep. Qed.
End Kept.

(** ** Steps of the construction *)

(** The pool and its index agree. *)
Definition good (s : compactStore) : Prop :=
  stringOffsets s = [] /\ forall v id, stringIndex s !! v = Some id -> id <> invalidStringID /\ at_ (pool s) id = Some v.
(** The pool holds the empty string first. *)
Definition pooled (s : compactStore) : Prop := good s /\ pool s <> [].
(** What a step that succeeds does. *)
Definition does {A} (m : B A) (s : compactStore) (Q : A -> compactStore -> Prop) : Prop :=
  pooled s -> forall a s', m s = Ok (a, s') -> grows s s' /\ pooled s' /\ Q a s'.

Lemma does_ret {A} (a : A) s (Q : A -> compactStore -> Prop) : Q a s -> does (mret a) s Q.
Proof. intros HQ Hp a' s' [= <- <-]. split; [apply grows_refl, Hp|done]. Qed.
Lemma does_bind {A A'} (m : B A) (f : A -> B A') s P Q : does m s P ->
  (forall a s1, grows s s1 -> pooled s1 -> P a s1 -> does (f a) s1 Q) -> does (m ≫= f) s Q.
Proof.
  intros Hm Hf Hp a' s' E. unfold mbind, Step_bind in E. destruct (m s) as [[a s1]|] eqn:E1; [|done].
  destruct (Hm Hp a s1 E1) as (G1 & Hp1 & HP). destruct (Hf a s1 G1 Hp1 HP Hp1 a' s' E) as (G2 & Hp2 & HQ).
  split; [by eapply grows_trans|done].
Qed.
Lemma does_gets {A} (f : compactStore -> A) s (Q : A -> compactStore -> Prop) : Q (f s) s -> does (gets f) s Q.
Proof. intros HQ Hp a s' [= <- <-]. split; [apply grows_refl, Hp|done]. Qed.
Lemma does_modify g s (Q : unit -> compactStore -> Prop) : (pooled s -> grows s (g s)) -> (pooled s -> pooled (g s)) -> Q tt (g s) ->
  does (modify g) s Q.
Proof. intros HG HP HQ Hp a s' [= <- <-]. auto. Qed.
Lemma does_failed {A} err s (Q : A -> compactStore -> Prop) : does (failed err) s Q.
Proof. intros Hp a s' E. done. Qed.
Lemma does_weaken {A} (m : B A) s (P Q : A -> compactStore -> Prop) : does m s P ->
  (forall a s', grows s s' -> pooled s' -> P a s' -> Q a s') -> does m s Q.
Proof. intros Hm HPQ Hp a s' E. destruct (Hm Hp a s' E) as (G & Hp' & HP). auto. Qed.

(** The arrays below and above the strings. *)
Definition top (s : compactStore) := (services s, operations s, mappings s, actions s).
Definition rest (s : compactStore) := (queryRecords s, resources s, mappingResources s, dependents s, mapPairs s, top s).

(** Pushes grow the store, by computation. *)
Ltac growing := intros [[? ?] ?]; constructor; cbn; solve [reflexivity | apply prefix_app_r; reflexivity | by split].
Ltac push := apply does_modify; [growing|by intros Hp; exact Hp|].

(** A loop whose turns append records to an array, here some for each, here one. *)
Lemma does_loop {X I Y R T} (arr : compactStore -> list R) (K : compactStore -> T) (f : X -> B Y) (items : X -> list I)
    (dec : I -> R -> compactStore -> Prop) xs :
  (forall i r s s', grows s s' -> dec i r s -> dec i r s') ->
  (forall x s, x ∈ xs -> does (f x) s (fun _ s' => K s' = K s /\ exists rs, arr s' = arr s ++ rs /\ Forall2 (fun i r => dec i r s') (items x) rs)) ->
  forall s, does (mapM f xs) s (fun _ s' => K s' = K s /\ exists rs, arr s' = arr s ++ rs /\
    Forall2 (fun i r => dec i r s') (concat (items <$> xs)) rs).
Proof.
  intros Hst. induction xs as [|x xs IH]; intros Hf s; cbn [mapM].
  - apply does_ret. split; [done|]. exists []. by rewrite app_nil_r.
  - eapply does_bind; [apply Hf; left|]. intros y s1 G1 P1 (K1 & r & A1 & D1).
    eapply does_bind; [apply IH; intros; apply Hf; by right|]. intros ys s2 G2 P2 (K2 & rs & A2 & D2).
    apply does_ret. split; [congruence|]. exists (r ++ rs). rewrite A2, A1, <-app_assoc. split; [done|]. cbn.
    apply Forall2_app; [|done]. eapply Forall2_impl; [exact D1|]. intros i r0. by apply Hst.
Qed.
Lemma does_mapM {X Y R T} (arr : compactStore -> list R) (K : compactStore -> T) (f : X -> B Y) (dec : X -> R -> compactStore -> Prop) xs :
  (forall x r s s', grows s s' -> dec x r s -> dec x r s') ->
  (forall x s, x ∈ xs -> does (f x) s (fun _ s' => K s' = K s /\ exists r, arr s' = arr s ++ [r] /\ dec x r s')) ->
  forall s, does (mapM f xs) s (fun _ s' => K s' = K s /\ exists rs, arr s' = arr s ++ rs /\ Forall2 (fun x r => dec x r s') xs rs).
Proof.
  intros Hst Hf s. eapply does_weaken; [apply (does_loop arr K f (fun x => [x]) dec xs Hst)|].
  - intros x s0 Hx. eapply does_weaken; [by apply Hf|]. intros y s1 G P (HK & r & A & D). split; [done|]. exists [r]. by repeat constructor.
  - intros ys s1 G P (HK & rs & A & D). split; [done|]. exists rs. split; [done|]. replace xs with (concat ((fun x => [x]) <$> xs)); [done|].
    clear. induction xs as [|x xs IH]; [done|]. cbn. by f_equal.
Qed.
Lemma does_each {X} (f : X -> B unit) xs s (Q : compactStore -> Prop) : does (mapM f xs) s (fun _ s' => Q s') -> does (each f xs) s (fun _ s' => Q s').
Proof. intros H. unfold each. eapply does_bind; [exact H|]. intros ys s1 G P HQ. by apply does_ret. Qed.

(** Spans of arrays that are not too long. *)
Definition short {A} (l : list A) : Prop := lengthZ l < 2 ^ 32.
Lemma spanned_slice {A} (l0 rs l : list A) : (l0 ++ rs) `prefix_of` l -> short l ->
  spanned l (mkSpan (u32 (lengthZ l0)) (u32 (lengthZ rs))) = Some rs.
Proof.
  intros [k ->] Hl. unfold short, lengthZ in *. rewrite !length_app in Hl. unfold spanned, validSpan, u32, lengthZ. cbn [sp_start sp_count].
  rewrite !(Z.mod_small (Z.of_nat _)) by lia. rewrite !length_app. replace (_ <=? _) with true by lia.
  apply mapM_Some, Forall2_same_length_lookup. split; [rewrite length_seqZ; lia|].
  intros i x y [-> Hi]%lookup_seqZ Hy. rewrite Z.add_0_l, Z.mod_small by lia. unfold at_.
  replace (_ <? 0) with false by lia. replace (Z.to_nat _) with (List.length l0 + i)%nat by lia.
  apply lookup_app_l_Some. rewrite lookup_app_r by lia. by rewrite Nat.add_comm, Nat.add_sub.
Qed.
Lemma at_snoc {A} (l : list A) x : at_ (l ++ [x]) (lengthZ l) = Some x.
Proof. unfold at_, lengthZ. replace (_ <? 0) with false by lia. rewrite Nat2Z.id. by apply list_lookup_middle. Qed.

(** ** Strings and conditions *)

Lemma internString_does v s : does (internString v) s (fun id s' =>
  refs s' = refs s /\ conditions s' = conditions s /\ rest s' = rest s /\ compactString s' id = Some v).
Proof.
  intros [[Hoff Hidx] Hp] id s' E. unfold internString in E. destruct (String.eqb_spec v "") as [->|Hv].
  { injection E as <- <-. split; [by apply grows_refl|]. split; [done|]. by rewrite compactString_unpacked. }
  destruct (stringIndex s !! v) as [id0|] eqn:Ei.
  { injection E as <- <-. destruct (Hidx _ _ Ei) as [Hid Hat]. split; [by apply grows_refl|]. split; [done|].
    rewrite compactString_unpacked by done. by replace (id0 =? invalidStringID) with false by lia. }
  destruct (_ <=? _); [done|]. injection E as <- <-.
  assert (G : grows s (pushString v s)) by (constructor; cbn; solve [reflexivity|apply prefix_app_r; reflexivity|by split]).
  assert (Hn : lengthZ (pool s) <> invalidStringID) by (destruct (pool s); [done|unfold lengthZ, invalidStringID; cbn; lia]).
  split; [done|]. split; [split; [split; [done|]|cbn; by destruct (pool s)]|].
  - cbn. intros w id [[<- <-]|[Hne Hw]]%lookup_insert_Some; [split; [done|apply at_snoc]|].
    destruct (Hidx _ _ Hw) as [H1 H2]. split; [done|]. apply (kept_at (pool s)); [by apply prefix_app_r|done].
  - split; [done|]. split; [done|]. split; [done|]. rewrite compactString_unpacked by done.
    replace (_ =? invalidStringID) with false by lia. cbn. apply at_snoc.
Qed.

(** An index of the conditions stands for a condition: the rest of it comes before. *)
Fixpoint stands (s : compactStore) (i : Z) (c : Condition) : Prop :=
  match c with
  | mkCondition lhs op rhs and =>
    exists r, 0 <= i /\ at_ (conditions s) i = Some r /\ compactString s (cc_lhs r) = Some lhs /\ compactString s (cc_op r) = Some op /\
    compactString s (cc_rhs r) = Some rhs /\
    match and with None => cc_and r = -1 | Some c => cc_and r < i /\ stands s (cc_and r) c end
  end.
Fixpoint stands_grows s s' (G : grows s s') i c {struct c} : stands s i c -> stands s' i c.
Proof.
  destruct c as [lhs op rhs and]. cbn. intros (r & Hi & Hr & Hl & Ho & Hrh & Ha). exists r.
  split_and!; try done; try by apply (kept_string _ _ G). { apply (kept_at _ _ _ (gr_conditions _ _ G) _ Hr). }
  destruct and as [c|]; [|done]. destruct Ha as [H1 H2]. split; [done|]. by apply (stands_grows s s' G).
Qed.
Fixpoint walk_stands s i c fuel seen {struct c} : stands s i c -> (S (Z.to_nat i) < fuel)%nat -> Forall (fun x => i < x) seen ->
  walkCondition fuel s i seen = Some (Some c).
Proof.
  destruct c as [lhs op rhs and]. cbn [stands]. intros (r & Hi & Hr & Hl & Ho & Hrh & Ha) Hf Hseen. destruct fuel as [|fuel]; [lia|].
  cbn [walkCondition]. replace (i <? 0) with false by lia. rewrite Hr. cbn [mbind option_bind]. rewrite bool_decide_eq_false_2.
  2:{ intros Hin. rewrite Forall_forall in Hseen. specialize (Hseen i Hin). lia. }
  rewrite Hl, Ho, Hrh. cbn [mbind option_bind]. destruct and as [c|].
  - destruct Ha as [H1 H2]. assert (0 <= cc_and r) by (destruct c; by destruct H2 as (? & ? & _)).
    rewrite (walk_stands s (cc_and r) c fuel (i :: seen) H2); [done|lia|].
    constructor; [lia|]. eapply Forall_impl; [exact Hseen|]. cbn. lia.
  - rewrite Ha. destruct fuel as [|fuel]; [lia|]. done.
Qed.
Lemma stands_condition s i c : stands s i c -> conditionAt s i = Some (Some c).
Proof.
  intros H. assert (Hi : 0 <= i < lengthZ (conditions s)).
  { destruct c. destruct H as (r & Hi & Hr & _). unfold at_ in Hr. destruct (i <? 0); [done|]. apply lookup_lt_Some in Hr. unfold lengthZ. lia. }
  unfold conditionAt, lengthZ in *. replace (i =? -1) with false by lia. replace (i <? -1) with false by lia. replace (_ <=? i) with false by lia.
  apply walk_stands; [done|lia|constructor].
Qed.
Fixpoint addCondition_does c s {struct c} : does (addCondition c) s (fun i s' => refs s' = refs s /\ rest s' = rest s /\ stands s' i c).
Proof.
  destruct c as [lhs op rhs and]. cbn [addCondition].
  eapply does_bind; [apply internString_does|]. intros l s1 G1 P1 (R1 & C1 & T1 & D1).
  eapply does_bind; [apply internString_does|]. intros o s2 G2 P2 (R2 & C2 & T2 & D2).
  eapply does_bind; [apply internString_does|]. intros r s3 G3 P3 (R3 & C3 & T3 & D3).
  eapply does_bind with (P := fun a s4 => refs s4 = refs s3 /\ rest s4 = rest s3 /\
    match and with None => a = -1 | Some c => stands s4 a c end).
  { destruct and as [c|]; [apply addCondition_does|by apply does_ret]. }
  intros a s4 G4 P4 (R4 & T4 & D4). eapply (does_bind _ _ _ (fun i s5 => s5 = s4 /\ i = lengthZ (conditions s4))); [by apply does_gets|].
  intros i s5 _ _ [-> ->].
  eapply (does_bind _ _ _ (fun _ s5 => s5 = pushCondition (mkCompactCondition l o r a) s4)); [push; done|].
  intros [] s5 G5 P5 E5. apply does_ret.
  assert (Hr : at_ (conditions s5) (lengthZ (conditions s4)) = Some (mkCompactCondition l o r a)) by (rewrite E5; apply at_snoc).
  split; [rewrite E5; change (refs s4 = refs s); congruence|].
  split; [rewrite E5; change (rest s4 = rest s); congruence|].
  assert (G35 : grows s3 s5) by (by eapply grows_trans). assert (G25 : grows s2 s5) by (by eapply grows_trans).
  assert (G15 : grows s1 s5) by (by eapply grows_trans). cbn. exists (mkCompactCondition l o r a). cbn.
  split_and!; [unfold lengthZ; lia|exact Hr|by apply (kept_string _ _ G15)|by apply (kept_string _ _ G25)|by apply (kept_string _ _ G35)|].
  destruct and as [c|]; [|done]. split; [|by apply (stands_grows _ _ G5)].
  destruct c. destruct D4 as (r' & _ & Hr' & _). unfold at_ in Hr'. destruct (a <? 0) eqn:Ea; [done|]. apply lookup_lt_Some in Hr'. unfold lengthZ. lia.
Qed.
Lemma addOptional_does c s : does (addOptional c) s (fun i s' => refs s' = refs s /\ rest s' = rest s /\ conditionAt s' i = Some c).
Proof.
  destruct c as [c|]; [|by apply does_ret]. eapply does_weaken; [apply addCondition_does|].
  intros i s' G P (R & T & D). split; [done|]. split; [done|]. by apply stands_condition.
Qed.

(** A store whose spans do not wrap. *)
Definition fits (s : compactStore) : Prop :=
  short (refs s) /\ short (queryRecords s) /\ short (resources s) /\ short (mappingResources s) /\ short (dependents s) /\ short (mapPairs s).
Lemma short_prefix {A} (l l' : list A) : l `prefix_of` l' -> short l' -> short l.
Proof. intros [k ->]. unfold short, lengthZ. rewrite length_app. lia. Qed.
Lemma fits_grows s s' : grows s s' -> fits s' -> fits s.
Proof.
  intros G (H1 & H2 & H3 & H4 & H5 & H6). unfold fits.
  split_and!; (eapply short_prefix; [|eassumption]; apply G).
Qed.
(** A record that a view reads as a value, once the store fits. *)
Definition reads {X R} (view : compactStore -> R -> option X) (x : X) (r : R) (s : compactStore) : Prop := fits s -> view s r = Some x.
Lemma reads_grows {X R} (view : compactStore -> R -> option X) : (forall s s' r, grows s s' -> kept (view s r) (view s' r)) ->
  forall x r s s', grows s s' -> reads view x r s -> reads view x r s'.
Proof. intros Hk x r s s' G H Hf. apply (Hk s s' r G). apply H. by eapply fits_grows. Qed.
Lemma reads_all {X R} (view : compactStore -> R -> option X) xs rs s : fits s -> Forall2 (fun x r => reads view x r s) xs rs ->
  mapM (view s) rs = Some xs.
Proof. intros Hf H. apply mapM_Some, Forall2_flip. eapply Forall2_impl; [exact H|]. intros x r Hx. by apply Hx. Qed.

(** ** Lists of strings, routes and queries *)

Lemma addStrings_does vs s : does (addStrings vs) s (fun sp s' => rest s' = rest s /\
  (fits s' -> stringsOf s' sp = Some vs) /\ (fits s' -> sp_count sp = lengthZ vs)).
Proof.
  unfold addStrings. eapply (does_bind _ _ _ (fun n s1 => s1 = s /\ n = lengthZ (refs s))); [by apply does_gets|].
  intros n s1 _ _ [-> ->]. eapply does_bind.
  { apply (does_mapM refs rest _ (reads compactString)); [apply reads_grows; intros; by apply kept_string|]. intros v s0 _.
    eapply does_bind; [apply internString_does|]. intros id s1 G1 P1 (R1 & C1 & T1 & D1). push.
    split; [done|]. exists id. cbn. rewrite R1. split; [done|]. intros _.
    eapply (kept_string s1); [|exact D1]. revert P1. growing. }
  intros ys s1 G1 P1 (T1 & rs & A1 & D1). apply does_ret. split; [done|].
  assert (Hl : List.length rs = List.length vs) by (symmetry; by eapply Forall2_length). split.
  2:{ intros (Hf & _). unfold short, lengthZ in *. rewrite A1, length_app in Hf. cbn. apply Z.mod_small. lia. }
  intros Hf. unfold stringsOf.
  replace (lengthZ vs) with (lengthZ rs) by (unfold lengthZ; f_equal; symmetry; by eapply Forall2_length).
  rewrite (spanned_slice _ rs); [|by rewrite A1|apply Hf]. cbn [mbind option_bind]. by apply (reads_all compactString).
Qed.

(** What was read at an earlier store is read at the last one. *)
Ltac chain := repeat first [eassumption | eapply grows_trans; [eassumption|]].
Ltac lifted := match goal with
  | D : compactString ?s ?id = Some ?v |- compactString ?s ?id = Some _ => exact D
  | D : conditionAt ?s ?id = Some ?v |- conditionAt ?s ?id = Some _ => exact D
  | D : routeAt ?s ?id = Some ?v |- routeAt ?s ?id = Some _ => exact D
  | D : compactString ?sk ?id = Some ?v |- compactString ?s' ?id = Some _ => apply (kept_string sk s'); [chain|exact D]
  | D : conditionAt ?sk ?id = Some ?v |- conditionAt ?s' ?id = Some _ => apply (kept_condition sk s'); [chain|exact D]
  | D : routeAt ?sk ?id = Some ?v |- routeAt ?s' ?id = Some _ => apply (kept_route sk s'); [chain|exact D]
  | D : fits ?sk -> stringsOf ?sk ?id = Some ?v, F : fits ?s' |- stringsOf ?s' ?id = Some _ =>
      apply (kept_strings sk s'); [chain|apply D; eapply fits_grows; [|exact F]; chain]
  end.
(** A read that is a sequence of lifted reads. *)
Ltac reading := repeat (match goal with |- (?o ≫= _) = Some _ =>
  let H := fresh in eassert (H : o = Some _) by lifted; rewrite H; clear H; cbn [mbind option_bind] end).

Lemma addRoute_does r s : does (addRoute r) s (fun c s' => refs s' = refs s /\ rest s' = rest s /\ routeAt s' c = Some r).
Proof.
  unfold addRoute. eapply does_bind; [apply internString_does|]. intros i1 s1 G1 P1 (R1 & _ & T1 & D1).
  eapply does_bind; [apply internString_does|]. intros i2 s2 G2 P2 (R2 & _ & T2 & D2).
  eapply does_bind; [apply internString_does|]. intros i3 s3 G3 P3 (R3 & _ & T3 & D3).
  eapply does_bind; [apply internString_does|]. intros i4 s4 G4 P4 (R4 & _ & T4 & D4).
  eapply does_bind; [apply internString_does|]. intros i5 s5 G5 P5 (R5 & _ & T5 & D5).
  apply does_ret. split; [congruence|]. split; [congruence|].
  unfold routeAt. cbn [cr_method cr_uri cr_discriminator cr_target cr_jsonVersion cr_responseCode]. reading. by destruct r.
Qed.
Lemma addQuery_does q s : does (addQuery q) s (fun _ s' => top s' = top s /\ exists r, queryRecords s' = queryRecords s ++ [r] /\ reads queryAt q r s').
Proof.
  unfold addQuery. eapply does_bind; [apply internString_does|]. intros i1 s1 G1 P1 (R1 & _ & T1 & D1).
  eapply does_bind; [apply internString_does|]. intros i2 s2 G2 P2 (R2 & _ & T2 & D2). push.
  assert (T : rest s2 = rest s) by congruence. injection T as Eq _ _ _ _ Et1 Et2 Et3 Et4.
  split; [unfold top; cbn; congruence|]. eexists. cbn. rewrite Eq. split; [done|]. intros _.
  apply (kept_query s2); [revert P2; growing|]. unfold queryAt. cbn [cq_member cq_location cq_required]. reading. by destruct q.
Qed.

(** ** Operations *)

(** An operation as [addAPI] makes it: no mapping is attached yet. *)
Definition fresh_operation (op : Operation) : Prop := o_occurrenceID op <> invalidOccurrenceID /\ Mappings op = [] /\ mappingSpans op = [].
Definition beside_operations (s : compactStore) := (mappings s, actions s).
Section Operations.
Context `{U : UnicodeTables}.

Lemma addOperation_does i service op s : fresh_operation op ->
  does (addOperation i service op) s (fun _ s' => beside_operations s' = beside_operations s /\
    exists r, operations s' = operations s ++ [r] /\ reads operationView op r s').
Proof.
  intros (Hid & Hm & Hsp). unfold addOperation. eapply does_bind; [apply internString_does|]. intros i1 s1 G1 P1 (_ & _ & T1 & D1).
  eapply does_bind; [apply internString_does|]. intros i2 s2 G2 P2 (_ & _ & T2 & D2).
  eapply does_bind; [apply internString_does|]. intros i3 s3 G3 P3 (_ & _ & T3 & D3).
  eapply does_bind; [apply internString_does|]. intros i4 s4 G4 P4 (_ & _ & T4 & D4).
  eapply does_bind; [apply addRoute_does|]. intros ro s5 G5 P5 (_ & T5 & D5).
  eapply (does_bind _ _ _ (fun n s6 => s6 = s5 /\ n = lengthZ (queryRecords s5))); [by apply does_gets|]. intros n s6 _ _ [-> ->].
  eapply does_bind.
  { apply (does_mapM queryRecords top _ (reads queryAt)); [apply reads_grows; intros; by apply kept_query|].
    intros q s0 _. apply addQuery_does. }
  intros ys s7 G7 P7 (T7 & rs & A7 & D7). push.
  assert (T : top s7 = top s) by (rewrite T7; unfold rest in *; congruence). injection T as E1 E2 E3 E4.
  split; [unfold beside_operations; cbn; congruence|]. eexists. cbn [operations pushOperation setOperationIndex setOccurrences setServiceOps setOperations].
  rewrite E2. split; [done|]. intros Hf. assert (Hf7 : fits s7) by exact Hf.
  apply (kept_operation s7); [revert P7; growing|]. unfold operationView.
  cbn [co_occurrence co_service co_name co_input co_output co_route co_queries co_state co_mappingState co_mappings].
  replace (o_occurrenceID op =? invalidOccurrenceID) with false by lia. reading.
  replace (lengthZ (o_QueryBindings op)) with (lengthZ rs) by (unfold lengthZ; f_equal; symmetry; by eapply Forall2_length).
  rewrite (spanned_slice _ rs); [|by rewrite A7|apply Hf7]. cbn [mbind option_bind]. rewrite (reads_all queryAt _ _ _ Hf7 D7). cbn [mbind option_bind].
  rewrite Hsp. cbn. destruct op. cbn in *. by subst.
Qed.
Lemma addServices_does ss s : Forall (fun sv => Forall fresh_operation (CatalogTypes.CatalogTypes.Operations sv)) ss ->
  does (addServices ss) s (fun _ s' => beside_operations s' = beside_operations s /\
    exists rs, operations s' = operations s ++ rs /\
    Forall2 (fun op r => reads operationView op r s') (concat (CatalogTypes.CatalogTypes.Operations <$> ss)) rs).
Proof.
  intros Hss. unfold addServices. eapply (does_bind _ _ _ (fun _ s1 => s1 = s)); [by apply does_gets|]. intros base s1 _ _ ->.
  eapply does_bind.
  { apply (does_mapM services (fun s => (operations s, beside_operations s)) _ (fun _ _ _ => True)); [done|]. intros sv s0 _. unfold addService.
    do 7 (eapply does_bind; [apply internString_does|]; intros ? ? ? ? (_ & _ & ? & _)).
    do 2 (eapply does_bind; [apply addStrings_does|]; intros ? ? ? ? (? & _ & _)). push.
    match goal with |- context [pushService _ ?s9] => assert (T : rest s9 = rest s0) by congruence end. injection T as _ _ _ _ _ E1 E2 E3 E4.
    split; [unfold beside_operations; cbn; congruence|]. eexists. cbn. by rewrite E1. }
  intros ys s2 G2 P2 (K2 & _). injection K2 as E1 E2 E3. apply does_each.
  eapply does_weaken; [apply (does_loop operations beside_operations _ (fun x => CatalogTypes.CatalogTypes.Operations x.2) (reads operationView))|].
  - apply reads_grows. intros. by apply kept_operation.
  - intros [k sv] s0 Hin. unfold addOperations.
    eapply (does_bind _ _ _ (fun _ s1 => beside_operations s1 = beside_operations s0 /\ operations s1 = operations s0)).
    { push. done. }
    intros [] s3 G3 P3 (K3 & O3). apply does_each. eapply does_weaken; [apply (does_mapM operations beside_operations _ (reads operationView))|].
    + apply reads_grows. intros. by apply kept_operation.
    + intros op s4 Hop. apply addOperation_does. apply list_elem_of_lookup in Hin as (n & Hn).
      apply lookup_zip_with_Some in Hn as (x & y & [= -> ->] & _ & Hy). apply list_elem_of_lookup_2 in Hy.
      rewrite Forall_forall in Hss. specialize (Hss _ Hy). rewrite Forall_forall in Hss. by apply Hss.
    + cbn [snd fst]. rewrite K3, O3. intros _ s5 _ _ [? ?]. done.
  - intros _ s3 _ _ (K3 & rs & A3 & D3). split; [unfold beside_operations in *; congruence|]. exists rs. rewrite A3, E1. split; [done|].
    replace (CatalogTypes.CatalogTypes.Operations <$> ss) with ((fun x : nat * ServiceModel => CatalogTypes.CatalogTypes.Operations x.2) <$> zip (seq 0 (List.length ss)) ss); [done|].
    change (fun x : nat * ServiceModel => CatalogTypes.CatalogTypes.Operations x.2) with (CatalogTypes.CatalogTypes.Operations ∘ snd (A := nat)).
    rewrite list_fmap_compose, snd_zip; [done|]. by rewrite length_seq.
Qed.
End Operations.

(** ** Mappings *)

(** A mapping with its identities, whose maps have each key once. *)
Record canonical_mapping (m : ActionMapping) : Prop := {
  cam_id : occurrenceID m <> invalidOccurrenceID;
  cam_resources : Forall (fun r => rm_occurrenceID r <> invalidOccurrenceID) (m_Resources m);
  cam_arn : NoDup (ResourceARNMappings m).*1;
  cam_conditions : NoDup (ConditionMappings m).*1; cam_order : conditionMappingOrder m = (ConditionMappings m).*1;
  cam_condition_ids : Forall (fun kv => rm_occurrenceID kv.2 <> invalidOccurrenceID) (ConditionMappings m);
}.
Lemma setAll_id {V} (m : list (string * V)) : NoDup m.*1 -> setAll m = m.
Proof.
  unfold setAll. change m with ([] ++ m) at 1 3. generalize (@nil (string * V)) at 1 2 3 as acc. induction m as [|[k v] m IH]; intros acc Hn; cbn.
  { by rewrite app_nil_r. }
  rewrite mapSet_fresh.
  - rewrite (IH (acc ++ [(k, v)])); [by rewrite <-app_assoc|]. by rewrite <-app_assoc.
  - rewrite fmap_app in Hn. apply NoDup_app in Hn as (_ & Hd & _). intros Hin. apply (Hd k Hin). cbn. left.
Qed.
Lemma mapGet_in {V} (m : list (string * V)) k v : NoDup m.*1 -> (k, v) ∈ m -> mapGet m k = Some v.
Proof.
  induction m as [|[k' v'] m IH]; cbn; [by intros _ H%elem_of_nil|]. intros [Hn Hnd]%NoDup_cons [[= -> ->]|Hin]%elem_of_cons.
  { by rewrite String.eqb_refl. }
  destruct (String.eqb_spec k' k) as [->|]; [|by apply IH]. exfalso. apply Hn. apply list_elem_of_fmap. by exists (k, v).
Qed.

Lemma addResourceMapping_does r s : rm_occurrenceID r <> invalidOccurrenceID ->
  does (addResourceMapping r) s (fun _ s' => top s' = top s /\ exists c, mappingResources s' = mappingResources s ++ [c] /\ reads resourceMappingAt r c s').
Proof.
  intros Hid. unfold addResourceMapping. eapply does_bind; [apply internString_does|]. intros i1 s1 G1 P1 (_ & _ & T1 & D1).
  eapply does_bind; [apply internString_does|]. intros i2 s2 G2 P2 (_ & _ & T2 & D2).
  eapply does_bind; [apply addOptional_does|]. intros i3 s3 G3 P3 (_ & T3 & D3). push.
  assert (T : rest s3 = rest s) by congruence. injection T as _ _ Em _ _ E1 E2 E3 E4.
  split; [unfold top; cbn; congruence|]. eexists. cbn. rewrite Em. split; [done|]. intros _.
  apply (kept_resourceMapping s3); [revert P3; growing|]. unfold resourceMappingAt. cbn [crm_parameter crm_template crm_occurrence crm_condition].
  reading. replace (_ =? _) with false by lia. reading. by destruct r.
Qed.
Lemma addARNPair_does kv s :
  does (addARNPair kv) s (fun _ s' => top s' = top s /\ exists c, mapPairs s' = mapPairs s ++ [c] /\ reads arnPairAt kv c s').
Proof.
  unfold addARNPair. eapply does_bind; [apply internString_does|]. intros i1 s1 G1 P1 (_ & _ & T1 & D1).
  eapply does_bind; [apply internString_does|]. intros i2 s2 G2 P2 (_ & _ & T2 & D2). push.
  assert (T : rest s2 = rest s) by congruence. injection T as _ _ _ _ Em E1 E2 E3 E4.
  split; [unfold top; cbn; congruence|]. eexists. cbn. rewrite Em. split; [done|]. intros _.
  apply (kept_arnPair s2); [revert P2; growing|]. unfold arnPairAt. cbn [mpair_key mpair_value mpair_resource].
  reading. cbn. reading. by destruct kv.
Qed.
Lemma addConditionPair_does m k v s : mapGet (ConditionMappings m) k = Some v -> rm_occurrenceID v <> invalidOccurrenceID ->
  does (addConditionPair m k) s (fun _ s' => top s' = top s /\ exists c, mapPairs s' = mapPairs s ++ [c] /\ reads conditionPairAt (k, v) c s').
Proof.
  intros Hv Hid. unfold addConditionPair. rewrite Hv. eapply does_bind; [apply internString_does|]. intros i0 s1 G1 P1 (_ & _ & T1 & D1).
  eapply (does_bind _ _ _ (fun index s' => top s' = top s1 /\ mapPairs s' = mapPairs s1 /\
    exists r, at_ (mappingResources s') index = Some r /\ resourceMappingAt s' r = Some v)).
  { eapply does_bind; [apply internString_does|]. intros i1 s2 G2 P2 (_ & _ & T2 & D2).
    eapply does_bind; [apply internString_does|]. intros i2 s3 G3 P3 (_ & _ & T3 & D3).
    eapply does_bind; [apply addOptional_does|]. intros i3 s4 G4 P4 (_ & T4 & D4).
    eapply (does_bind _ _ _ (fun n s5 => s5 = s4 /\ n = lengthZ (mappingResources s4))); [by apply does_gets|]. intros n s5 _ _ [-> ->].
    set (r := mkCompactResourceMapping _ _ _ _). eapply (does_bind _ _ _ (fun _ s6 => s6 = pushMappingResource r s4)); [by push|].
    intros [] s6 G6 P6 ->. apply does_ret. assert (T : rest s4 = rest s1) by congruence. injection T as _ _ _ _ Em E1 E2 E3 E4.
    split; [unfold top; cbn; congruence|]. split; [by cbn|]. exists r. split; [apply at_snoc|].
    apply (kept_resourceMapping s4); [done|]. unfold resourceMappingAt. cbn [r crm_parameter crm_template crm_occurrence crm_condition].
    reading. replace (_ =? _) with false by lia. reading. by destruct v. }
  intros index s2 G2 P2 (T2 & M2 & r & Hr & Dr). push. assert (T : rest s1 = rest s) by congruence. injection T as _ _ _ _ Em E1 E2 E3 E4.
  injection T2 as F1 F2 F3 F4. split; [unfold top; cbn; congruence|]. eexists. cbn. rewrite M2, Em. split; [done|]. intros _.
  apply (kept_conditionPair s2); [revert P2; growing|]. unfold conditionPairAt. cbn [mpair_key mpair_value mpair_resource].
  reading. cbn. rewrite Hr. cbn [mbind option_bind]. by rewrite Dr.
Qed.

Lemma slice_of {A} (l0 rs l1 l : list A) n : l1 = l0 ++ rs -> n = lengthZ rs -> l1 `prefix_of` l -> short l ->
  spanned l (mkSpan (u32 (lengthZ l0)) (u32 n)) = Some rs.
Proof. intros -> -> Hp Hl. by apply spanned_slice. Qed.
Lemma addMapping_does m s : canonical_mapping m ->
  does (addMapping m) s (fun _ s' => (operations s', actions s') = (operations s, actions s) /\
    exists c, mappings s' = mappings s ++ [c] /\ reads mappingView m c s').
Proof.
  intros C. unfold addMapping. eapply does_bind; [apply internString_does|]. intros i1 s1 G1 P1 (_ & _ & T1 & D1).
  eapply does_bind; [apply internString_does|]. intros i2 s2 G2 P2 (_ & _ & T2 & D2).
  eapply does_bind; [apply internString_does|]. intros i3 s3 G3 P3 (_ & _ & T3 & D3).
  eapply (does_bind _ _ _ (fun n s4 => s4 = s3 /\ n = lengthZ (mappingResources s3))); [by apply does_gets|]. intros n1 s4 _ _ [-> ->].
  eapply does_bind.
  { apply (does_mapM mappingResources top _ (reads resourceMappingAt)); [apply reads_grows; intros; by apply kept_resourceMapping|].
    intros r s0 Hr. apply addResourceMapping_does. pose proof (cam_resources m C) as H. rewrite Forall_forall in H. by apply H. }
  intros _ s5 G5 P5 (T5 & rs1 & A5 & D5).
  eapply (does_bind _ _ _ (fun n s6 => s6 = s5 /\ n = lengthZ (mapPairs s5))); [by apply does_gets|]. intros n2 s6 _ _ [-> ->].
  eapply does_bind.
  { apply (does_mapM mapPairs top _ (reads arnPairAt)); [apply reads_grows; intros; by apply kept_arnPair|]. intros r s0 _. apply addARNPair_does. }
  intros _ s7 G7 P7 (T7 & rs2 & A7 & D7).
  eapply (does_bind _ _ _ (fun n s8 => s8 = s7 /\ n = lengthZ (mapPairs s7))); [by apply does_gets|]. intros n3 s8 _ _ [-> ->].
  eapply does_bind.
  { apply (does_mapM mapPairs top _ (fun k r s => forall v, mapGet (ConditionMappings m) k = Some v -> reads conditionPairAt (k, v) r s)).
    { intros k r sa sb G H v Hv. apply (reads_grows conditionPairAt) with (s := sa); [intros; by apply kept_conditionPair|done|by apply H]. }
    intros k s0 Hk. rewrite (cam_order m C) in Hk. apply list_elem_of_fmap in Hk as ([k' v] & -> & Hkv). cbn [fst].
    pose proof (mapGet_in _ _ _ (cam_conditions m C) Hkv) as Hv. pose proof (cam_condition_ids m C) as Hid. rewrite Forall_forall in Hid.
    eapply does_weaken; [apply (addConditionPair_does m k' v); [done|by apply (Hid _ Hkv)]|].
    intros _ s' _ _ (T & c & A & D). split; [done|]. exists c. split; [done|]. intros v' Hv'. by assert (v' = v) as -> by congruence. }
  intros _ s9 G9 P9 (T9 & rs3 & A9 & D9).
  eapply (does_bind _ _ _ (fun n s10 => s10 = s9 /\ n = lengthZ (mapPairs s9))); [by apply does_gets|]. intros n4 s10 _ _ [-> ->].
  eapply does_bind; [apply addOptional_does|]. intros i11 s11 G11 P11 (_ & T11 & D11). push.
  assert (T : top s11 = top s) by (unfold rest in *; congruence). injection T as E1 E2 E3 E4.
  split; [cbn; congruence|]. eexists. cbn [mappings pushMapping]. rewrite E3. split; [done|]. intros Hf. assert (Hf11 : fits s11) by exact Hf.
  assert (D9' : Forall2 (fun kv r => reads conditionPairAt kv r s9) (ConditionMappings m) rs3).
  { rewrite (cam_order m C) in D9. pose proof (cam_conditions m C) as Hn.
    apply Forall2_fmap_l in D9. apply Forall2_same_length_lookup. apply Forall2_same_length_lookup in D9 as [Hl D9]. split; [done|].
    intros i [k v] r Hkv Hr. apply (D9 i (k, v) r Hkv Hr). apply mapGet_in; [done|]. by eapply list_elem_of_lookup_2. }
  apply (kept_mapping s11); [revert P11; growing|]. unfold mappingView.
  cbn [cm_occurrence cm_action cm_state cm_resources cm_arn cm_conditionMappings cm_condition cm_arnOverride cm_notice].
  replace (_ =? invalidOccurrenceID) with false by (pose proof (cam_id m C); lia). reading.
  assert (G5' : grows s5 s11) by chain. assert (G7' : grows s7 s11) by chain. assert (G9' : grows s9 s11) by chain.
  rewrite (slice_of _ rs1 _ _ _ A5); [|unfold lengthZ; f_equal; by eapply Forall2_length|apply G5'|apply Hf11]. cbn [mbind option_bind].
  replace (lengthZ (mapPairs s7) - lengthZ (mapPairs s5)) with (lengthZ rs2) by (rewrite A7; unfold lengthZ; rewrite length_app; lia).
  rewrite (slice_of _ rs2 _ _ _ A7); [|done|apply G7'|apply Hf11]. cbn [mbind option_bind].
  replace (lengthZ (mapPairs s9) - lengthZ (mapPairs s7)) with (lengthZ rs3) by (rewrite A9; unfold lengthZ; rewrite length_app; lia).
  rewrite (slice_of _ rs3 _ _ _ A9); [|done|apply G9'|apply Hf11]. cbn [mbind option_bind]. reading.
  rewrite (reads_all resourceMappingAt (m_Resources m)); [|done|].
  2:{ eapply Forall2_impl; [exact D5|]. intros x r Hx. apply (reads_grows resourceMappingAt) with (s := s5); [intros; by apply kept_resourceMapping|exact G5'|exact Hx]. }
  cbn [mbind option_bind]. rewrite (reads_all arnPairAt (ResourceARNMappings m)); [|done|].
  2:{ eapply Forall2_impl; [exact D7|]. intros x r Hx. apply (reads_grows arnPairAt) with (s := s7); [intros; by apply kept_arnPair|exact G7'|exact Hx]. }
  cbn [mbind option_bind]. rewrite (reads_all conditionPairAt (ConditionMappings m)); [|done|].
  2:{ eapply Forall2_impl; [exact D9'|]. intros x r Hx. apply (reads_grows conditionPairAt) with (s := s9); [intros; by apply kept_conditionPair|exact G9'|exact Hx]. }
  cbn [mbind option_bind]. rewrite !setAll_id by apply C. rewrite <-(cam_order m C). by destruct m.
Qed.

Definition beside_mappings (s : compactStore) := (operations s, actions s).
Definition same_arrays (s : compactStore) := (mappings s, beside_mappings s).
Lemma does_each_same {X T} (K : compactStore -> T) (f : X -> B unit) xs s :
  (forall x s, x ∈ xs -> does (f x) s (fun _ s' => K s' = K s)) -> does (each f xs) s (fun _ s' => K s' = K s).
Proof.
  intros Hf. apply does_each. eapply does_weaken; [apply (does_loop (fun _ => []) K f (fun _ => @nil unit) (fun _ (_ : unit) _ => True))|].
  - done.
  - intros x s0 Hx. eapply does_weaken; [by apply Hf|]. intros [] s1 _ _ HK. split; [done|]. exists []. by constructor.
  - by intros _ s1 _ _ [HK _].
Qed.
Lemma addMappings_does ms index order s : Forall canonical_mapping ms ->
  does (addMappings ms index order) s (fun _ s' => beside_mappings s' = beside_mappings s /\
    exists rs, mappings s' = mappings s ++ rs /\ Forall2 (fun m r => reads mappingView m r s') ms rs).
Proof.
  intros Hms. unfold addMappings. eapply (does_bind _ _ _ (fun _ s1 => s1 = s)); [by apply does_gets|]. intros base s1 _ _ ->.
  eapply does_bind.
  { apply (does_each_same same_arrays). intros [k spans] s0 _. apply (does_each_same same_arrays). intros sp s1 _. unfold addSpan. cbn.
    destruct (_ || _); [apply does_failed|]. by push. }
  intros [] s2 G2 P2 K2. eapply does_bind.
  { apply (does_each_same same_arrays). intros p s0 _. unfold addMappingOrder. destruct (_ || _); [apply does_failed|]. by push. }
  intros [] s3 G3 P3 K3. apply does_each. eapply does_weaken; [apply (does_mapM mappings beside_mappings _ (reads mappingView))|].
  - apply reads_grows. intros. by apply kept_mapping.
  - intros m s0 Hm. apply addMapping_does. rewrite Forall_forall in Hms. by apply Hms.
  - cbn beta. intros _ s4 _ _ (K4 & rs & A4 & D4). unfold same_arrays, beside_mappings in *. injection K2 as E1 E2 E3. injection K3 as F1 F2 F3.
    split; [congruence|]. exists rs. by rewrite A4, F1, E1.
Qed.

(** ** Action definitions *)

Record canonical_resource (r : ResourceTypeDef) : Prop := {
  car_id : rt_occurrenceID r <> invalidOccurrenceID;
  car_ids : List.length (dependentActionIDs r) = List.length (DependentActions r);
  car_dependents : Forall (fun id => id <> invalidOccurrenceID) (dependentActionIDs r);
}.
Record canonical_definition (d : ActionDefinition) : Prop := {
  cad_id : def_occurrenceID d <> invalidOccurrenceID; cad_resources : Forall canonical_resource (def_Resources d);
}.
Definition beside_actions (s : compactStore) := (operations s, mappings s).
Definition dependent (x : string * option Z) (c : compactDependent) (s : compactStore) : Prop :=
  compactString s (cd_action c) = Some x.1 /\ cd_occurrence c = default invalidOccurrenceID x.2.

Lemma addDependent_does x s :
  does (addDependent x) s (fun _ s' => (resources s', top s') = (resources s, top s) /\
    exists c, dependents s' = dependents s ++ [c] /\ dependent x c s').
Proof.
  unfold addDependent. eapply does_bind; [apply internString_does|]. intros i1 s1 G1 P1 (_ & _ & T1 & D1). push.
  injection T1 as _ E0 _ Em _ E1 E2 E3 E4. split; [unfold top; cbn; congruence|]. eexists. cbn. rewrite Em. split; [done|]. split; [|done].
  apply (kept_string s1); [revert P1; growing|done].
Qed.
Lemma zip_longer {X Y} (xs : list X) (ys zs : list Y) : List.length ys = List.length xs -> zip xs (ys ++ zs) = zip xs ys.
Proof. revert ys. induction xs as [|x xs IH]; intros [|y ys] H; try done. cbn. f_equal. apply IH. by injection H. Qed.
(** The dependent actions of a resource are read back with their identities. *)
Lemma dependents_read s (xs : list string) ids cs : List.length ids = List.length xs -> Forall (fun id => id <> invalidOccurrenceID) ids ->
  Forall2 (fun x c => dependent x c s) (zip xs (Some <$> ids)) cs ->
  exists pairs, mapM (dependentAt s) (zip (zip xs ids) cs) = Some pairs /\ pairs.*1 = xs /\ pairs.*2 = ids.
Proof.
  revert ids cs. induction xs as [|x xs IH]; intros [|id ids] cs Hl; try done; cbn [zip zip_with fmap list_fmap].
  { intros _ H. exists []. by destruct cs. }
  intros [Hid Hids]%Forall_cons H. apply Forall2_cons_inv_l in H as (c & cs' & [Hs Ho] & H & ->). cbn in Hs, Ho.
  destruct (IH ids cs') as (pairs & Ep & E1 & E2); [by injection Hl|done|done|].
  assert (E : dependentAt s (x, id, c) = Some (x, id)).
  { unfold dependentAt. rewrite Hs. cbn [mbind option_bind]. rewrite Ho. replace (id =? invalidOccurrenceID) with false by lia.
    by rewrite Z.eqb_refl, String.eqb_refl. }
  exists ((x, id) :: pairs). change (zip _ (c :: cs')) with ((x, id, c) :: zip (zip xs ids) cs'). cbn [mapM]. rewrite E. cbn [mbind option_bind].
  rewrite Ep. cbn. by rewrite E1, E2.
Qed.
Lemma addResource_does r s : canonical_resource r ->
  does (addResource r) s (fun _ s' => top s' = top s /\ exists c, resources s' = resources s ++ [c] /\ reads resourceAt r c s').
Proof.
  intros C. unfold addResource. eapply does_bind; [apply internString_does|]. intros i1 s1 G1 P1 (_ & _ & T1 & D1).
  eapply does_bind; [apply addStrings_does|]. intros sp2 s2 G2 P2 (T2 & D2 & _).
  eapply does_bind; [apply addStrings_does|]. intros sp3 s3 G3 P3 (T3 & D3 & N3).
  eapply (does_bind _ _ _ (fun n s4 => s4 = s3 /\ n = lengthZ (dependents s3))); [by apply does_gets|]. intros n s4 _ _ [-> ->].
  eapply does_bind.
  { apply (does_mapM dependents (fun s => (resources s, top s)) _ dependent); [|intros x s0 _; apply addDependent_does].
    intros x c sa sb G [H1 H2]. split; [|done]. by apply (kept_string _ _ G). }
  intros _ s5 G5 P5 (T5 & rs & A5 & D5). push. assert (T : rest s3 = rest s) by congruence. injection T as _ Er _ _ _ E1 E2 E3 E4.
  injection T5 as F0 F1 F2 F3 F4. split; [unfold top; cbn; congruence|]. eexists. cbn [resources pushResource]. rewrite F0, Er. split; [done|].
  intros Hf. assert (Hf5 : fits s5) by (eapply fits_grows; [|exact Hf]; revert P5; growing). apply (kept_resource s5); [revert P5; growing|]. unfold resourceAt.
  cbn [cre_occurrence cre_name cre_conditionKeys cre_dependentActions cre_dependentIDs cre_dependents].
  replace (rt_occurrenceID r =? invalidOccurrenceID) with false by (pose proof (car_id r C); lia).
  rewrite N3 by (eapply fits_grows; [|exact Hf5]; chain). pose proof (car_ids r C) as Hl.
  replace (lengthZ (dependentActionIDs r)) with (lengthZ (DependentActions r)) by (unfold lengthZ; congruence). rewrite Z.eqb_refl.
  rewrite zip_longer in D5 by by rewrite length_fmap. assert (Hrs : List.length rs = List.length (DependentActions r)).
  { rewrite <-(Forall2_length _ _ _ D5), length_zip_with, length_fmap. lia. }
  assert (Hn : u32 (lengthZ (DependentActions r)) = lengthZ (DependentActions r)).
  { destruct Hf5 as (_ & _ & _ & _ & Hs & _). unfold short, lengthZ in *. rewrite A5, length_app in Hs. apply Z.mod_small. lia. }
  cbn [sp_count]. rewrite Hn, Z.eqb_refl. cbn [negb orb]. reading.
  rewrite <-Hn, (slice_of _ rs _ _ _ A5); [|unfold lengthZ; congruence|done|apply Hf5]. cbn [mbind option_bind].
  destruct (dependents_read s5 (DependentActions r) (dependentActionIDs r) rs) as (pairs & -> & E5 & E6); [done|by apply C|done|].
  cbn [mbind option_bind]. rewrite E5, E6. by destruct r.
Qed.
Lemma addAction_does key d s : canonical_definition d ->
  does (addAction key d) s (fun _ s' => beside_actions s' = beside_actions s /\ exists c, actions s' = actions s ++ [c] /\ reads actionView d c s').
Proof.
  intros C. unfold addAction. eapply does_bind; [apply internString_does|]. intros i1 s1 G1 P1 (_ & _ & T1 & D1).
  eapply does_bind; [apply internString_does|]. intros i2 s2 G2 P2 (_ & _ & T2 & D2).
  eapply does_bind; [apply internString_does|]. intros i3 s3 G3 P3 (_ & _ & T3 & D3).
  eapply does_bind; [apply internString_does|]. intros i4 s4 G4 P4 (_ & _ & T4 & D4).
  eapply (does_bind _ _ _ (fun n s5 => s5 = s4 /\ n = lengthZ (resources s4))); [by apply does_gets|]. intros n s5 _ _ [-> ->].
  eapply does_bind.
  { apply (does_mapM resources top _ (reads resourceAt)); [apply reads_grows; intros; by apply kept_resource|].
    intros r s0 Hr. apply addResource_does. pose proof (cad_resources d C) as H. rewrite Forall_forall in H. by apply H. }
  intros _ s6 G6 P6 (T6 & rs & A6 & D6).
  eapply (does_bind _ _ _ (fun n s7 => s7 = s6)); [by apply does_gets|]. intros n s7 _ _ ->.
  eapply (does_bind _ _ _ (fun _ s7 => beside_actions s7 = beside_actions s /\ exists c, actions s7 = actions s ++ [c] /\ reads actionView d c s7)).
  2:{ intros [] s7 G7 P7 H7. by apply does_ret. }
  push. assert (T : top s6 = top s) by (unfold rest in *; congruence). injection T as E1 E2 E3 E4.
  split; [unfold beside_actions; cbn; congruence|]. eexists. cbn [actions pushAction setActionIndex setActions]. rewrite E4. split; [done|].
  intros Hf. assert (Hf6 : fits s6) by (eapply fits_grows; [|exact Hf]; revert P6; growing). apply (kept_action s6); [revert P6; growing|].
  unfold actionView. cbn [ca_occurrence ca_service ca_name ca_access ca_description ca_resources ca_state].
  replace (_ =? invalidOccurrenceID) with false by (pose proof (cad_id d C); lia).
  rewrite (slice_of _ rs _ _ _ A6); [|unfold lengthZ; f_equal; by eapply Forall2_length|done|apply Hf6]. cbn [mbind option_bind]. reading.
  rewrite (reads_all resourceAt (def_Resources d)) by done. cbn [mbind option_bind]. by destruct d.
Qed.

(** The definition at a place of [buildActionOrder]. *)
Definition ordered (definitions : gmap string (list ActionDefinition)) (p : string * Z) : option ActionDefinition :=
  at_ (lookupAll definitions p.1) p.2.
Section Convert.
Context `{U : UnicodeTables}.
Definition canonical_ordered definitions (p : string * Z) : Prop := forall d, ordered definitions p = Some d -> canonical_definition d.

Lemma addActions_does definitions order s : Forall (canonical_ordered definitions) order ->
  does (addActions definitions order) s (fun _ s' => beside_actions s' = beside_actions s /\
    exists rs, actions s' = actions s ++ rs /\
    Forall2 (fun p r => exists d, ordered definitions p = Some d /\ reads actionView d r s') order rs).
Proof.
  intros Hc. unfold addActions. eapply does_bind.
  { apply (does_mapM actions beside_actions _ (fun p r s => exists d, ordered definitions p = Some d /\ reads actionView d r s)).
    { intros p r sa sb G (d & Hd & H). exists d. split; [done|]. apply (reads_grows actionView) with (s := sa); [intros; by apply kept_action|done|done]. }
    intros p s0 Hp. unfold addOrdered. destruct (at_ _ _) as [d|] eqn:Ed; [|apply does_failed].
    assert (Hd : ordered definitions p = Some d) by exact Ed. rewrite Forall_forall in Hc.
    eapply does_weaken; [by apply addAction_does, (Hc p Hp)|]. intros _ s1 _ _ (K & c & A & D). split; [done|]. exists c. split; [done|]. by exists d. }
  intros indexes s1 G1 P1 (K1 & rs & A1 & D1).
  eapply does_weaken; [apply (does_each_same (fun s => (actions s, beside_actions s)))|].
  - intros p s0 Hp. unfold addActionOrder. destruct (at_ _ p.2) as [index|]; [|apply does_failed]. destruct (at_ _ p.2) as [d|]; [|apply does_failed].
    intros Hp0 [] s' E. destruct (at_ (actions s0) index) as [r|]; [|done]. destruct (_ =? _); [|done]. injection E as <-.
    split; [revert Hp0; growing|]. split; [exact Hp0|done].
  - cbn beta. intros _ s2 G2 P2 K2. injection K2 as E1 E2 E3. injection K1 as F1 F2.
    split; [unfold beside_actions; congruence|]. exists rs. split; [congruence|].
    eapply Forall2_impl; [exact D1|]. intros p r (d & Hd & H). exists d. split; [done|].
    apply (reads_grows actionView) with (s := s1); [intros; by apply kept_action|done|done].
Qed.

(** The store that [compactEvidence] starts from, and the graph in canonical form. *)
Definition before (c : Catalog) : compactStore := setPool (c_strings c) (c_stringIndex c) (default emptyStore (c_store c)).
Record canonical (c : Catalog) : Prop := {
  can_pool : pooled (before c);
  can_operations : Forall (fun sv => Forall fresh_operation (CatalogTypes.CatalogTypes.Operations sv)) (c_services c);
  can_mappings : Forall canonical_mapping (c_mappingStore c);
  can_definitions : Forall (canonical_ordered (c_buildActions c)) (c_buildActionOrder c);
}.
(** What is read at the end of an array is what was put in. *)
Definition appended {X R} (view : compactStore -> R -> option X) (l l' : list R) (xs : list X) (s : compactStore) : Prop :=
  forall i x, xs !! i = Some x -> (at_ l' (lengthZ l + Z.of_nat i) ≫= view s) = Some x.
Lemma appended_reads {X R} (view : compactStore -> R -> option X) l l' rs xs s : l' = l ++ rs -> fits s ->
  Forall2 (fun x r => reads view x r s) xs rs -> appended view l l' xs s.
Proof.
  intros -> Hf HF i x Hx. destruct (Forall2_lookup_l _ _ _ _ _ HF Hx) as (r & Hr & Hv).
  unfold at_, lengthZ. replace (_ <? 0) with false by lia. replace (Z.to_nat _) with (List.length l + i)%nat by lia.
  rewrite lookup_app_r by lia. replace (_ - _)%nat with i by lia. rewrite Hr. by apply Hv.
Qed.
Lemma does_unless {X} (l : list X) (m : B unit) s (Q : compactStore -> Prop) : (l = [] -> Q s) -> does m s (fun _ s' => Q s') ->
  does (if (List.length l =? 0)%nat then mret tt else m) s (fun _ s' => Q s').
Proof. intros H0 Hm. destruct l; [by apply does_ret, H0|exact Hm]. Qed.

Definition grown {X R} (arr : compactStore -> list R) (P : X -> R -> compactStore -> Prop) (xs : list X) (s s' : compactStore) : Prop :=
  exists rs, arr s' = arr s ++ rs /\ Forall2 (fun x r => P x r s') xs rs.
Lemma grown_nil {X R} (arr : compactStore -> list R) (P : X -> R -> compactStore -> Prop) s : grown arr P [] s s.
Proof. exists []. by rewrite app_nil_r. Qed.
Lemma grown_later {X R} (arr : compactStore -> list R) (P : X -> R -> compactStore -> Prop) xs s s1 s2 :
  (forall x r, P x r s1 -> P x r s2) -> arr s2 = arr s1 -> grown arr P xs s s1 -> grown arr P xs s s2.
Proof. intros HP Ha (rs & E & H). exists rs. rewrite Ha. split; [done|]. eapply Forall2_impl; [exact H|]. intros x r. apply HP. Qed.
Lemma grown_earlier {X R} (arr : compactStore -> list R) (P : X -> R -> compactStore -> Prop) xs s0 s1 s2 :
  arr s1 = arr s0 -> grown arr P xs s1 s2 -> grown arr P xs s0 s2.
Proof. intros Ha (rs & E & H). exists rs. by rewrite <-Ha. Qed.
Definition orderedView (definitions : gmap string (list ActionDefinition)) (p : string * Z) (r : compactAction) (s : compactStore) : Prop :=
  exists d, ordered definitions p = Some d /\ reads actionView d r s.

Lemma convert_does c s : Forall (fun sv => Forall fresh_operation (CatalogTypes.CatalogTypes.Operations sv)) (c_services c) ->
  Forall canonical_mapping (c_mappingStore c) -> Forall (canonical_ordered (c_buildActions c)) (c_buildActionOrder c) ->
  does (convert c) s (fun _ s' =>
    grown operations (reads operationView) (concat (CatalogTypes.CatalogTypes.Operations <$> c_services c)) s s' /\
    grown mappings (reads mappingView) (c_mappingStore c) s s' /\
    grown actions (orderedView (c_buildActions c)) (c_buildActionOrder c) s s').
Proof.
  intros Ho Hm Hd. unfold convert.
  eapply (does_bind _ _ _ (fun _ s1 => beside_operations s1 = beside_operations s /\
    grown operations (reads operationView) (concat (CatalogTypes.CatalogTypes.Operations <$> c_services c)) s s1)).
  { apply does_unless; [intros ->; split; [done|apply grown_nil]|by apply addServices_does]. }
  intros [] s1 G1 P1 [B1 O1]. injection B1 as Em1 Ea1.
  eapply (does_bind _ _ _ (fun _ s2 => beside_mappings s2 = beside_mappings s1 /\ grown mappings (reads mappingView) (c_mappingStore c) s1 s2)).
  { apply does_unless; [intros ->; split; [done|apply grown_nil]|by apply addMappings_does]. }
  intros [] s2 G2 P2 [B2 M2]. injection B2 as Eo2 Ea2.
  eapply (does_weaken _ _ (fun _ s3 => beside_actions s3 = beside_actions s2 /\
    grown actions (orderedView (c_buildActions c)) (c_buildActionOrder c) s2 s3)).
  { apply does_unless; [intros ->; split; [done|apply grown_nil]|by apply addActions_does]. }
  intros [] s3 G3 P3 [B3 A3]. injection B3 as Eo3 Em3. split_and!.
  - eapply (grown_later _ _ _ _ s1); [|congruence|exact O1]. intros op r H.
    apply (reads_grows operationView) with (s := s1); [intros; by apply kept_operation|by eapply grows_trans|exact H].
  - eapply (grown_earlier _ _ _ s s1); [done|]. eapply (grown_later _ _ _ _ s2); [|done|exact M2]. intros m r H.
    apply (reads_grows mappingView) with (s := s2); [intros; by apply kept_mapping|done|exact H].
  - eapply (grown_earlier _ _ _ s s2); [congruence|exact A3].
Qed.
Lemma ordered_all definitions order rs s : Forall2 (fun p r => orderedView definitions p r s) order rs ->
  Forall2 (fun d r => reads actionView d r s) (omap (ordered definitions) order) rs.
Proof. induction 1 as [|p r order rs (d & Ed & H) HF IH]; [constructor|]. cbn. rewrite Ed. by constructor. Qed.

(** What the load moves into the compact store is what the catalog reads back:
    after [compactEvidence], each operation, mapping and action definition of the
    temporary graph is read at its place with every field as it was, strings,
    conditions, templates, dependencies and identities included, and everything
    that the store held before is read as before. *)
Lemma compact_roundtrip (c c' : Catalog) (s' : compactStore) :
  compactEvidence c = Ok c' -> c_store c' = Some s' -> canonical c -> fits s' ->
  appended operationView (operations (before c)) (operations s') (concat (CatalogTypes.CatalogTypes.Operations <$> c_services c)) s' /\
  appended mappingView (mappings (before c)) (mappings s') (c_mappingStore c) s' /\
  appended actionView (actions (before c)) (actions s') (omap (ordered (c_buildActions c)) (c_buildActionOrder c)) s' /\
  (forall i op, operationAt (before c) i = Some op -> operationAt s' i = Some op) /\
  (forall i m, mappingAt (before c) i = Some m -> mappingAt s' i = Some m) /\
  (forall i d, actionAt (before c) i = Some d -> actionAt s' i = Some d).
Proof.
  unfold compactEvidence. fold (before c). intros E Es' [Hp Ho Hm Hd] Hf.
  destruct (convert c (before c)) as [[[] s1]|] eqn:Ec; [|done]. injection E as <-. cbn in Es'. injection Es' as ->.
  destruct (convert_does c (before c) Ho Hm Hd Hp tt s' Ec) as (G & _ & (rs1 & E1 & F1) & (rs2 & E2 & F2) & (rs3 & E3 & F3)).
  split_and!; [by eapply appended_reads|by eapply appended_reads| | | |].
  - by eapply appended_reads, ordered_all.
  - intros i op. apply (kept_operationAt _ _ G).
  - intros i m. apply (kept_mappingAt _ _ G).
  - intros i d. apply (kept_actionAt _ _ G).
Qed.
End Convert.
End CatalogRoundTrip.
