(* ===== verification/CatalogSources.v ===== *)
(** * The sources of the catalog (iamlivecatalog/catalog.go)

    From decoded API models, action definitions and mapping entries to the
    temporary graph of the catalog: the checks of an API model, the identities of
    the evidence, the state that duplicates and disagreements give it, and the
    mappings that an operation gets.  Decoding the JSON is not modelled: a Go map is
    an association list in an order of iteration, next to the order of its keys in
    the source. *)

From Stdlib Require Import ZArith Lia Ascii.
From stdpp Require Import base gmap strings list.
From S2P Require Import Prelude GoStrings GoPath.
From S2P Require Import CatalogTypes.
From S2P Require Import CatalogStore.
From S2P Require Import CatalogAccess.
From S2P Require Import CatalogBuild.
From S2P Require Import CatalogPlan.

Module CatalogSources.
Import CatalogTypes.CatalogTypes CatalogStore.CatalogStore CatalogAccess.CatalogAccess CatalogBuild.CatalogBuild
  CatalogPlan.CatalogPlan.
Abbreviation Dir := GoPath.GoPath.Dir.

#[export] Instance QueryBinding_eq_dec : EqDecision QueryBinding.
Proof. solve_decision. Defined.
#[export] Instance Route_eq_dec : EqDecision Route.
Proof. solve_decision. Defined.

(** ** Decoded sources *)

Record rawMember := mkRawMember { rm_Shape : string; rm_Location : string; rm_LocationName : option string }.
Record rawShape := mkRawShape { sh_Type : string; sh_Required : list string; sh_Members : list (string * rawMember) }.
Record rawOperation := mkRawOperation {
  ro_Name : string; ro_Method : string; ro_RequestURI : string; ro_ResponseCode : Z; ro_Input : string; ro_Output : string;
}.
Record rawMetadata := mkRawMetadata {
  md_APIVersion : string; md_EndpointPrefix : string; md_Protocol : string; md_ServiceFullName : string; md_ServiceID : string;
  md_SigningName : string; md_TargetPrefix : string; md_UID : string; md_JSONVersion : string; md_Protocols : list string;
}.
Record rawAPI := mkRawAPI {
  Metadata : rawMetadata; ra_Operations : list (string * rawOperation); operationOrder : list string;
  Shapes : list (string * rawShape); shapeMemberOrder : list (string * list string);
}.
Record rawResource := mkRawResource { rr_ConditionKeys : list string; rr_DependentActions : list string; rr_ResourceType : string }.
Record rawPrivilege := mkRawPrivilege {
  pv_AccessLevel : string; pv_Description : string; Privilege : string; ResourceTypes : list rawResource;
}.
Record rawService := mkRawService { rs_Prefix : string; Privileges : list rawPrivilege }.
Inductive rawCondition := mkRawCondition (LHS Op RHS : string) (And : option rawCondition).
Record rawResourceMapping := mkRawResourceMapping { rrm_Template : string; rrm_Conditions : option rawCondition }.
Record rawMapping := mkRawMapping {
  rw_Action : string; ResourceMappings : list (string * rawResourceMapping); rw_ResourceARNMappings : list (string * string);
  rw_Condition : option rawCondition; rw_ConditionMappings : list (string * rawResourceMapping); rw_ARNOverride : option string;
  rw_Notice : string; resourceOrder : list string; conditionOrder : list string;
}.

(** ** API models *)

Definition zeroShape : rawShape := mkRawShape "" [] [].
Definition zeroMember : rawMember := mkRawMember "" "" None.
Definition zeroOperation : rawOperation := mkRawOperation "" "" "" 0 "" "".

(** A step on the counter [nextEvidenceID]. *)
Abbreviation Numbering := (Step Z).

Section Sources.
Context `{U : UnicodeTables}.

(** The required members of an input shape: each is named once, and exists. *)
Fixpoint checkRequired (args : string -> list string) (shape : rawShape) (members required : list string) : option error :=
  match members with
  | [] => None
  | member :: members =>
    if (member =? "")%string then Some (ErrFmt "%s: operation %q input shape %q has empty required member" (args member))
    else if existsb (String.eqb member) required
    then Some (ErrFmt "%s: operation %q input shape %q has duplicate required member %q" (args member))
    else match mapGet (sh_Members shape) member with
    | None => Some (ErrFmt "%s: operation %q input shape %q has absent required member %q" (args member))
    | Some _ => checkRequired args shape members (member :: required)
    end
  end.
Fixpoint checkMembers (args : string -> list string) (shapes : list (string * rawShape)) (members : list (string * rawMember))
    (queryNames : list (string * string)) : option error :=
  match members with
  | [] => None
  | (memberName, member) :: members =>
    if (memberName =? "")%string || (rm_Shape member =? "")%string ||
       (sh_Type (default zeroShape (mapGet shapes (rm_Shape member))) =? "")%string
    then Some (ErrFmt "%s: operation %q input shape %q has malformed member %q" (args memberName))
    else if negb (rm_Location member =? "querystring")%string then checkMembers args shapes members queryNames
    else if match rm_LocationName member with Some n => (TrimSpace n =? "")%string | None => false end
    then Some (ErrFmt "%s: operation %q input shape %q member %q has empty query locationName" (args memberName))
    else
      let locationName := default memberName (rm_LocationName member) in
      match mapGet queryNames locationName with
      | Some prior =>
        Some (ErrFmt "%s: operation %q input shape %q has duplicate query locationName %q for members %q and %q"
                (args locationName ++ [prior; memberName]))
      | None => checkMembers args shapes members (mapSet queryNames locationName memberName)
      end
  end.
Definition validateOperation (file : string) (a : rawAPI) (x : string * rawOperation) : option error :=
  let (operation, raw) := x in
  let shapeName := ro_Input raw in
  if (shapeName =? "")%string then None
  else
    let missing := Some (ErrFmt "%s: operation %q input shape %q is missing or malformed" [file; operation; shapeName]) in
    match mapGet (Shapes a) shapeName with
    | None => missing
    | Some shape =>
      if negb (sh_Type shape =? "structure")%string then missing
      else
        let args x := [file; operation; shapeName; x] in
        match checkRequired args shape (sh_Required shape) [] with
        | Some err => Some err
        | None => checkMembers args (Shapes a) (sh_Members shape) []
        end
    end.
Fixpoint firstError {X} (f : X -> option error) (xs : list X) : option error :=
  match xs with
  | [] => None
  | x :: xs => match f x with Some err => Some err | None => firstError f xs end
  end.
Definition validateAPI (file : string) (a : rawAPI) : option error := firstError (validateOperation file a) (ra_Operations a).

Definition queryBindings (a : rawAPI) (operation file shapeName : string) : result (list QueryBinding) :=
  if (shapeName =? "")%string then Ok []
  else match mapGet (Shapes a) shapeName with
  | None => Err (ErrFmt "%s: operation %q input shape %q is missing" [file; operation; shapeName])
  | Some shape =>
    let order := match default [] (mapGet (shapeMemberOrder a) shapeName) with [] => (sh_Members shape).*1 | order => order end in
    Ok (omap (fun memberName =>
          let member := default zeroMember (mapGet (sh_Members shape) memberName) in
          if negb (rm_Location member =? "querystring")%string then None
          else Some (mkBinding memberName (default memberName (rm_LocationName member)) (existsb (String.eqb memberName) (sh_Required shape))))
        order)
  end.
Fixpoint uniqueStrings (input seen : list string) : list string :=
  match input with
  | [] => []
  | x :: input =>
    if negb (x =? "")%string && negb (existsb (String.eqb (ToLower x)) seen) then x :: uniqueStrings input (ToLower x :: seen)
    else uniqueStrings input seen
  end.

(** ** Identities *)

Definition nextID : Numbering Z := fun n =>
  if maxCatalogItems <=? n then Err (ErrNew "catalog: evidence occurrence ID overflow") else Ok (n + 1, n + 1).
Definition lift {A} (r : result A) : Numbering A := fun n => match r with Ok a => Ok (a, n) | Err err => Err err end.

(** ** Adding an API model *)

Definition discriminatorOf (m : rawMetadata) (n : string) (o : rawOperation) : string :=
  let protocol := ToLower (md_Protocol m) in
  if (protocol =? "query")%string then n
  else if (protocol =? "json")%string then (md_TargetPrefix m ++ "." ++ n)%string else ro_RequestURI o.
Definition operationFrom (file : string) (a : rawAPI) (n : string) : Numbering Operation :=
  let m := Metadata a in
  let o := default zeroOperation (mapGet (ra_Operations a) n) in
  occurrence ← nextID;
  let name := if (ro_Name o =? "")%string then n else ro_Name o in
  if (name =? "")%string then failed (ErrFmt "%s: operation %q has no name" [file; n])
  else
    bindings ← lift (queryBindings a n file (ro_Input o));
    mret (mkOperation occurrence (md_EndpointPrefix m) n (ro_Input o) (ro_Output o)
            (mkRoute (ro_Method o) (ro_RequestURI o) (ro_ResponseCode o) (discriminatorOf m n o) (md_TargetPrefix m) (md_JSONVersion m))
            bindings [] EmptyString (if (name =? n)%string then EvidenceKnown else EvidenceContradictory) []).
Definition operationEquivalent (a b : Operation) : bool :=
  (o_Service a =? o_Service b)%string && EqualFold (o_Name a) (o_Name b) && (InputShape a =? InputShape b)%string &&
  (OutputShape a =? OutputShape b)%string && bool_decide (o_Route a = o_Route b) && bool_decide (o_QueryBindings a = o_QueryBindings b).
(** Whether a service of the store has that key already. *)
Fixpoint storedKey (s : compactStore) (key : string) (rs : list compactService) : result bool :=
  match rs with
  | [] => Ok false
  | r :: rs =>
    match compactString s (cs_key r) with
    | None => Err (ErrNew "catalog: compact service key is corrupt")
    | Some prior => if EqualFold prior key then Ok true else storedKey s key rs
    end
  end.
Definition priorOperation (services : list ServiceModel) (key : string) (prior : indexedOperation) : option Operation :=
  if negb (modelKey prior =? key)%string then None
  else sv ← at_ services (ix_serviceIndex prior); at_ (CatalogTypes.CatalogTypes.Operations sv) (ix_operationIndex prior).
Definition indexOperation (services : list ServiceModel) (key alias : string) (idx : Z) (m : gmap string (list indexedOperation)) (x : Z * Operation)
  : gmap string (list indexedOperation) :=
  let k := operationKey alias (o_Name x.2) in
  if existsb (fun prior => match priorOperation services key prior with Some o => operationEquivalent o x.2 | None => false end) (lookupAll m k)
  then m else appendAt m k (mkIndexed key idx x.1 (o_occurrenceID x.2)).
Definition withGraph (c : Catalog) (services : list ServiceModel) (index : gmap string (list Z))
    (operations : gmap string (list indexedOperation)) (n : Z) : Catalog :=
  mkCatalog (c_store c) services index operations (c_buildActions c) (c_buildActionOrder c) (c_mappingStore c) (c_mappingIndex c)
    (c_mappingOrder c) (c_permissionless c) (c_strings c) (c_stringIndex c) n.
Definition addAPI (c : Catalog) (file : string) (a : rawAPI) : result Catalog :=
  let m := Metadata a in
  if (md_EndpointPrefix m =? "")%string || (md_Protocol m =? "")%string || (md_UID m =? "")%string
  then Err (ErrFmt "%s: incomplete API metadata" [file])
  else
    let indexed := (0 <? List.length (lookupAll (c_serviceIndex c) (ToLower (md_UID m))))%nat in
    duplicate ← (if indexed then Ok true else match c_store c with None => Ok false | Some s => storedKey s (md_UID m) (services s) end);
    let key := if (duplicate : bool) then (Dir file ++ "/" ++ md_UID m)%string else md_UID m in
    let protocols := match md_Protocols m with [] => [md_Protocol m] | ps => ps end in
    let aliases := uniqueStrings [md_EndpointPrefix m; md_ServiceID m; md_ServiceFullName m; key] [] in
    let names := match operationOrder a with [] => (ra_Operations a).*1 | names => names end in
    match mapM (operationFrom file a) names (nextEvidenceID c) with
    | Err err => Err err
    | Ok (ops, n) =>
      let s := mkService key (md_ServiceID m) (md_EndpointPrefix m) (md_SigningName m) (md_TargetPrefix m) (md_APIVersion m)
                 protocols (md_Protocol m) aliases ops in
      let idx := lengthZ (c_services c) in
      let services := c_services c ++ [s] in
      let index := fold_left (fun index alias => appendAt index (ToLower alias) idx) aliases (c_serviceIndex c) in
      let operations := fold_left (fun m alias => fold_left (indexOperation services key alias idx) (zip (seqZ 0 (lengthZ ops)) ops) m)
                          aliases (c_operations c) in
      Ok (withGraph c services index operations n)
    end.

(** ** Adding action definitions *)

(** The resource types of a privilege, and whether one is named twice. *)
Definition resourceFrom (seen : list string) (r : rawResource) : Numbering (ResourceTypeDef * bool) :=
  id ← nextID;
  let twice := existsb (String.eqb (ToLower (rr_ResourceType r))) seen in
  ids ← mapM (fun _ => nextID) (rr_DependentActions r);
  mret (mkResourceTypeDef id (rr_ResourceType r) (rr_ConditionKeys r) (rr_DependentActions r) ids, twice).
Fixpoint resourcesFrom (seen : list string) (rs : list rawResource) : Numbering (list ResourceTypeDef * bool) :=
  match rs with
  | [] => mret ([], false)
  | r :: rs =>
    x ← resourceFrom seen r;
    y ← resourcesFrom (ToLower (rr_ResourceType r) :: seen) rs;
    let '(d, twice) := (x : ResourceTypeDef * bool) in
    let '(ds, later) := (y : list ResourceTypeDef * bool) in
    mret (d :: ds, twice || later)
  end.
Definition definitionFrom (prefix : string) (p : rawPrivilege) : Numbering ActionDefinition :=
  id ← nextID;
  x ← resourcesFrom [] (ResourceTypes p);
  let '(rs, twice) := (x : list ResourceTypeDef * bool) in
  let state := if EqualFold (pv_AccessLevel p) "Unknown" then EvidenceUndocumented else EvidenceKnown in
  mret (mkDefinition id prefix (Privilege p) (pv_AccessLevel p) (pv_Description p) rs (if twice then EvidenceContradictory else state)).
Definition contradict (d : ActionDefinition) : ActionDefinition :=
  mkDefinition (def_occurrenceID d) (def_Service d) (def_Name d) (AccessLevel d) (Description d) (def_Resources d) EvidenceContradictory.
Definition contradictAction (r : compactAction) : compactAction :=
  mkCompactAction (ca_occurrence r) (ca_service r) (ca_name r) (ca_access r) (ca_description r) (ca_resources r) EvidenceContradictory.
(** The records that the store has for the key become contradictory. *)
Fixpoint contradictAll (s : compactStore) (ps : list position) (actions_ : list compactAction) : result (list compactAction) :=
  match ps with
  | [] => Ok actions_
  | p :: ps =>
    match at_ actions_ (at_index p) with
    | Some r =>
      if ca_occurrence r =? at_occurrence p
      then contradictAll s ps (<[Z.to_nat (at_index p) := contradictAction r]> actions_)
      else Err (ErrNew "catalog: compact action index is corrupt")
    | None => Err (ErrNew "catalog: compact action index is corrupt")
    end
  end.
Definition withDefinitions (c : Catalog) (store : option compactStore) (definitions : gmap string (list ActionDefinition))
    (order : list (string * Z)) (n : Z) : Catalog :=
  mkCatalog store (c_services c) (c_serviceIndex c) (c_operations c) definitions order (c_mappingStore c) (c_mappingIndex c)
    (c_mappingOrder c) (c_permissionless c) (c_strings c) (c_stringIndex c) n.
(** The code panics when there is no store yet. *)
Definition nilStore : error := ErrNew "runtime error: invalid memory address or nil pointer dereference".
Definition addPrivilege (prefix : string) (c : Catalog) (p : rawPrivilege) : result Catalog :=
  if (Privilege p =? "")%string then Err (ErrFmt "iam_definition.json: empty privilege in %s" [prefix])
  else match definitionFrom prefix p (nextEvidenceID c) with
  | Err err => Err err
  | Ok (a, n) =>
    let k := actionKey prefix (Privilege p) in
    let prior := lookupAll (c_buildActions c) k in
    match c_store c with
    | None => Err nilStore
    | Some s =>
      let compactPrior := lookupAll (actionIndex s) k in
      let order := c_buildActionOrder c ++ [(k, lengthZ prior)] in
      if (0 <? List.length prior + List.length compactPrior)%nat then
        xs ← contradictAll s compactPrior (actions s);
        Ok (withDefinitions c (Some (setActions xs s)) (<[k := (contradict <$> prior) ++ [contradict a]]> (c_buildActions c)) order n)
      else Ok (withDefinitions c (Some s) (<[k := prior ++ [a]]> (c_buildActions c)) order n)
    end
  end.
Fixpoint addPrivileges (prefix : string) (c : Catalog) (ps : list rawPrivilege) : result Catalog :=
  match ps with
  | [] => Ok c
  | p :: ps => c ← addPrivilege prefix c p; addPrivileges prefix c ps
  end.
Definition addDefinition (c : Catalog) (d : rawService) : result Catalog :=
  if (rs_Prefix d =? "")%string then Err (ErrNew "iam_definition.json: empty service prefix")
  else addPrivileges (rs_Prefix d) c (Privileges d).

(** ** Mappings *)

Fixpoint convertCondition (c : rawCondition) : Condition :=
  match c with
  | mkRawCondition lhs op rhs and => mkCondition lhs op rhs (match and with Some c => Some (convertCondition c) | None => None end)
  end.
Definition resourceMappingFrom (kx : string * rawResourceMapping) : ResourceMapping :=
  mkResourceMapping invalidOccurrenceID kx.1 (rrm_Template kx.2) (convertCondition <$> rrm_Conditions kx.2).
(** The entries of a map in the order of its keys in the source; without that
    order, in an order of iteration. *)
Definition inOrder (what : string) (order : list string) (m : list (string * rawResourceMapping)) : result (list (string * rawResourceMapping)) :=
  match order with
  | [] => Ok m
  | _ =>
    mapM (fun k => match mapGet m k with
                   | Some x => Ok (k, x)
                   | None => Err (ErrFmt (what ++ " mapping %q disappeared during ordered decode") [k])
                   end) order
  end.
Definition convertMapping (r : rawMapping) : result ActionMapping :=
  if (rw_Action r =? "")%string then Err (ErrNew "mapping has empty action")
  else
    rs ← inOrder "resource" (resourceOrder r) (ResourceMappings r);
    cs ← inOrder "condition" (conditionOrder r) (rw_ConditionMappings r);
    Ok (mkMappingEvidence invalidOccurrenceID (rw_Action r) EvidenceKnown (resourceMappingFrom <$> rs) (setAll (rw_ResourceARNMappings r))
          (convertCondition <$> rw_Condition r) (setAll ((fun kx => (kx.1, resourceMappingFrom kx)) <$> cs)) cs.*1
          (default EmptyString (rw_ARNOverride r)) (rw_Notice r)).
Definition identified (r : ResourceMapping) (id : Z) : ResourceMapping :=
  mkResourceMapping id (rm_Parameter r) (Template r) (rm_Condition r).
(** The condition mappings get their identities in the order of the source. *)
Fixpoint identifyConditions (order : list string) (m : list (string * ResourceMapping)) : Numbering (list (string * ResourceMapping)) :=
  match order with
  | [] => mret m
  | key :: order =>
    match mapGet m key with
    | None => failed (ErrFmt "catalog: condition mapping %q is not addressable" [key])
    | Some value => id ← nextID; identifyConditions order (mapSet m key (identified value id))
    end
  end.
Definition assignMappingIDs (m : ActionMapping) : Numbering ActionMapping :=
  if occurrenceID m =? invalidOccurrenceID then failed (ErrNew "catalog: mapping occurrence ID is invalid")
  else
    rs ← mapM (fun r => id ← nextID; mret (identified r id)) (m_Resources m);
    cms ← identifyConditions (conditionMappingOrder m) (ConditionMappings m);
    mret (mkMappingEvidence (occurrenceID m) (m_Action m) (m_State m) rs (ResourceARNMappings m) (m_Condition m) cms
            (conditionMappingOrder m) (ARNOverride m) (Notice m)).
Definition withIdentity (m : ActionMapping) (id : Z) : ActionMapping :=
  mkMappingEvidence id (m_Action m) (m_State m) (m_Resources m) (ResourceARNMappings m) (m_Condition m) (ConditionMappings m)
    (conditionMappingOrder m) (ARNOverride m) (Notice m).
Definition withState (m : ActionMapping) (state : string) : ActionMapping :=
  mkMappingEvidence (occurrenceID m) (m_Action m) state (m_Resources m) (ResourceARNMappings m) (m_Condition m) (ConditionMappings m)
    (conditionMappingOrder m) (ARNOverride m) (Notice m).
(** The state of a mapping: what is known of the action it names. *)
Definition mappingEvidence (s : compactStore) (action : string) : result string :=
  match SplitN action ":" 2 with
  | [service; name] =>
    match lookupAll (actionIndex s) (actionKey service name) with
    | [] => Ok EvidenceAbsent
    | [p] =>
      match at_ (actions s) (at_index p) with
      | Some r => if ca_occurrence r =? at_occurrence p then Ok (ca_state r) else Err (ErrNew "catalog: compact action index is corrupt")
      | None => Err (ErrNew "catalog: compact action index is corrupt")
      end
    | _ => Ok EvidenceContradictory
    end
  | _ => Ok EvidenceContradictory
  end.
Definition mappingFrom (s : compactStore) (r : rawMapping) : Numbering ActionMapping :=
  id ← nextID;
  mapping ← lift (convertMapping r);
  mapping ← assignMappingIDs (withIdentity mapping id);
  state ← lift (mappingEvidence s (m_Action mapping));
  mret (withState mapping state).

(** ** The operation of a mapping *)

Fixpoint hasNamed (s : compactStore) (operation : string) (ps : list position) : option bool :=
  match ps with
  | [] => Some false
  | p :: ps =>
    r ← operationOf s p; name ← compactString s (co_name r);
    if EqualFold name operation then Some true else hasNamed s operation ps
  end.
Fixpoint foldedAlias (s : compactStore) (service : string) (ids : list Z) : option bool :=
  match ids with
  | [] => Some false
  | id :: ids => alias ← compactString s id; if EqualFold alias service then Some true else foldedAlias s service ids
  end.
(** [None]: the store is corrupt, which the code answers with [false]. *)
Fixpoint hasInServices (s : compactStore) (service operation : string) (xs : list (Z * compactService)) : option bool :=
  match xs with
  | [] => Some false
  | (i, r) :: xs =>
    ops ← at_ (serviceOps s) i; ids ← spanned (refs s) (cs_aliases r); matches ← foldedAlias s service ids;
    if (matches : bool) then (found ← hasNamed s operation ops; if (found : bool) then Some true else hasInServices s service operation xs)
    else hasInServices s service operation xs
  end.
Definition hasOperationKey (c : Catalog) (key : string) : bool :=
  match c_store c with
  | None => (0 <? List.length (lookupAll (c_operations c) key))%nat
  | Some s =>
    match operationIndex s with
    | Some m => (0 <? List.length (lookupAll m key))%nat
    | None =>
      match index_byte key 0 with
      | None | Some O => false
      | Some separator =>
        if (separator =? String.length key - 1)%nat then false
        else default false (hasInServices s (str_take separator key) (str_drop (S separator) key)
                              (zip (seqZ 0 (lengthZ (services s))) (services s)))
      end
    end
  end.
(** The services that a key of the SDK names: itself, then its aliases. *)
Definition sdkToService (serviceSDK : list (string * list string)) : gmap string (list string) :=
  fold_left (fun m sn => fold_left (fun m name => appendAt m (ToLower name) sn.1) sn.2 m) serviceSDK ∅.
Definition matchedKey (c : Catalog) (sdk : gmap string (list string)) (service operation : string) : option string :=
  List.find (hasOperationKey c) ((fun s => operationKey s operation) <$> (service :: lookupAll sdk (ToLower service))).
Definition splitKey (k : string) : option (string * string) :=
  match SplitN k "." 2 with
  | [service; operation] => if (service =? "")%string || (operation =? "")%string then None else Some (service, operation)
  | _ => None
  end.
Definition withMappings (c : Catalog) (ms : list ActionMapping) (index : list (string * list mappingSpan)) (order : list mappingPosition)
    (permissionless : list string) (n : Z) : Catalog :=
  mkCatalog (c_store c) (c_services c) (c_serviceIndex c) (c_operations c) (c_buildActions c) (c_buildActionOrder c) ms index order
    permissionless (c_strings c) (c_stringIndex c) n.
Fixpoint addPermissionless (c : Catalog) (sdk : gmap string (list string)) (ks : list string) : result Catalog :=
  match ks with
  | [] => Ok c
  | k :: ks =>
    match splitKey k with
    | None => Err (ErrFmt "map.json: malformed permissionless operation key %q" [k])
    | Some (service, operation) =>
      let c := match matchedKey c sdk service operation with
               | Some key => withMappings c (c_mappingStore c) (c_mappingIndex c) (c_mappingOrder c) (key :: c_permissionless c) (nextEvidenceID c)
               | None => c
               end in
      addPermissionless c sdk ks
    end
  end.
(** The graph moved into the store, whose strings the catalog shares again. *)
Definition synced (c : Catalog) : Catalog :=
  mkCatalog (c_store c) (c_services c) (c_serviceIndex c) (c_operations c) (c_buildActions c) (c_buildActionOrder c) (c_mappingStore c)
    (c_mappingIndex c) (c_mappingOrder c) (c_permissionless c) (match c_store c with Some s => pool s | None => [] end)
    (match c_store c with Some s => stringIndex s | None => ∅ end) (nextEvidenceID c).
Definition compacted (c : Catalog) : result Catalog := c ← compactEvidence c; Ok (synced c).
(** One entry of [sdk_method_iam_mappings]. *)
Definition addMappingEntry (sdk : gmap string (list string)) (c : Catalog) (k : string) (values : list rawMapping) : result Catalog :=
  match c_store c with
  | None => Err (ErrNew "catalog: compact operation store unavailable")
  | Some s =>
    if maxCatalogItems <? lengthZ (mappings s) + lengthZ (c_mappingStore c) + lengthZ values
    then Err (ErrNew "map.json: mapping occurrence count exceeds catalog bound")
    else match mapM (mappingFrom s) values (nextEvidenceID c) with
    | Err err => Err err
    | Ok (ms, n) =>
      let start := lengthZ (c_mappingStore c) in
      let order := c_mappingOrder c ++ ((fun im => mkMappingPosition (u32 (start + im.1)) (occurrenceID im.2) k) <$> zip (seqZ 0 (lengthZ ms)) ms) in
      match splitKey k with
      | None => Err (ErrFmt "map.json: malformed operation key %q" [k])
      | Some (service, operation) =>
        let index := match matchedKey c sdk service operation with
                     | Some key => mapSet (c_mappingIndex c) key (default [] (mapGet (c_mappingIndex c) key) ++ [mkSpan (u32 start) (u32 (lengthZ values))])
                     | None => c_mappingIndex c
                     end in
        let c := withMappings c (c_mappingStore c ++ ms) index order (c_permissionless c) n in
        if (512 <=? List.length (c_mappingStore c))%nat then
          c ← compacted c; Ok (withMappings c (c_mappingStore c) [] (c_mappingOrder c) (c_permissionless c) (nextEvidenceID c))
        else Ok c
      end
    end
  end.

(** ** Attaching mappings to operations *)

(** The spans of the first alias that has mappings, with those without any before it. *)
Fixpoint aliasSpans (s : compactStore) (name : string) (ids : list Z) (spans : list mappingSpan) (count : Z) : result (list mappingSpan * Z) :=
  match ids with
  | [] => Ok (spans, count)
  | id :: ids =>
    match compactString s id with
    | None => Err (ErrNew "catalog: compact service alias is corrupt")
    | Some alias =>
      let found := lookupAll (mappingIndex s) (operationKey alias name) in
      if forallb (fun sp => validMappingSpan sp (lengthZ (mappings s))) found then
        let count := count + foldr Z.add 0 (sp_count <$> found) in
        if 0 <? count then Ok (spans ++ found, count) else aliasSpans s name ids (spans ++ found) count
      else Err (ErrNew "catalog: mapping span exceeds canonical store")
    end
  end.
Definition mappingStates (s : compactStore) (spans : list mappingSpan) : list string :=
  sp ← spans; omap (fun i => cm_state <$> at_ (mappings s) (u32 (sp_start sp + i))) (seqZ 0 (sp_count sp)).
Definition attachedState (states : list string) (count : Z) (permissionless : bool) : string :=
  if (0 <? count) && permissionless then EvidencePermissionless
  else if 0 <? count then
    if forallb (fun st => (st =? EvidenceAbsent)%string) states then EvidenceAbsent
    else if existsb (fun st => (st =? EvidenceContradictory)%string) states then EvidenceContradictory else EvidenceKnown
  else if permissionless then EvidencePermissionless else EvidenceAbsent.
Definition attached (r : compactOperation) (spans : list mappingSpan) (state : string) : compactOperation :=
  mkCompactOperation (co_occurrence r) (co_service r) (co_name r) (co_input r) (co_output r) (co_route r) (co_queries r) (co_state r) state spans.
Definition attachOperation (permissionless : list string) (ids : list Z) (endpoint : string) (p : position) : B unit := fun s =>
  match operationOf s p with
  | None => Err (ErrNew "catalog: compact operation index is corrupt")
  | Some r =>
    match compactString s (co_name r) with
    | None => Err (ErrNew "catalog: compact operation name is corrupt")
    | Some name =>
      match aliasSpans s name ids [] 0 with
      | Err err => Err err
      | Ok (spans, count) =>
        let state := attachedState (mappingStates s spans) count (existsb (String.eqb (operationKey endpoint name)) permissionless) in
        Ok (tt, setOperations (<[Z.to_nat (at_index p) := attached r spans state]> (operations s)) s)
      end
    end
  end.
Definition attachService (permissionless : list string) (ir : Z * compactService) : B unit := fun s =>
  match at_ (serviceOps s) ir.1, spanned (refs s) (cs_aliases ir.2) with
  | Some ops, Some ids =>
    match compactString s (cs_endpoint ir.2) with
    | None => Err (ErrNew "catalog: compact service endpoint is corrupt")
    | Some endpoint => each (attachOperation permissionless ids endpoint) ops s
    end
  | _, _ => Err (ErrNew "catalog: compact service operation index is corrupt")
  end.
Definition attachCompactMappings (c : Catalog) : result Catalog :=
  match c_store c with
  | None => Err (ErrNew "catalog: compact operation store unavailable")
  | Some s =>
    match each (attachService (c_permissionless c)) (zip (seqZ 0 (lengthZ (services s))) (services s)) s with
    | Err err => Err err
    | Ok (_, s) =>
      Ok (mkCatalog (Some s) (c_services c) (c_serviceIndex c) (c_operations c) (c_buildActions c) (c_buildActionOrder c) (c_mappingStore c)
            (c_mappingIndex c) (c_mappingOrder c) (c_permissionless c) (c_strings c) (c_stringIndex c) (nextEvidenceID c))
    end
  end.

(** ** The whole load *)

(** The decoded contents of the bundle: the API models in the order of the archive,
    and of [iam_definition.json] and [map.json] what is present. *)
Record bundle := mkBundle {
  licenseFound : bool; noticeFound : bool; apis : list (string * rawAPI); iamDefinitions : option (list rawService);
  mapSchema : option string; ServiceSDK : list (string * list string); Permissionless : list string;
  methodMappings : option (list (string * list rawMapping));
}.
Definition initialCatalog : Catalog := mkCatalog None [] ∅ ∅ ∅ [] [] [] [] [] [EmptyString] ∅ 0.
Fixpoint loadAPIs (c : Catalog) (xs : list (string * rawAPI)) : result Catalog :=
  match xs with
  | [] => Ok c
  | (name, a) :: xs =>
    let file := ("upstream/" ++ name)%string in
    match validateAPI file a with
    | Some err => Err err
    | None => c ← addAPI c file a; c ← compacted c; loadAPIs c xs
    end
  end.
Fixpoint loadDefinitions (c : Catalog) (ds : list rawService) : result Catalog :=
  match ds with
  | [] => Ok c
  | d :: ds => c ← addDefinition c d; c ← compacted c; loadDefinitions c ds
  end.
Fixpoint loadEntries (sdk : gmap string (list string)) (c : Catalog) (es : list (string * list rawMapping)) : result Catalog :=
  match es with
  | [] => Ok c
  | (k, values) :: es => c ← addMappingEntry sdk c k values; loadEntries sdk c es
  end.
Definition withStore (f : compactStore -> compactStore) (c : Catalog) : Catalog :=
  mkCatalog (f <$> c_store c) (c_services c) (c_serviceIndex c) (c_operations c) (c_buildActions c) (c_buildActionOrder c) (c_mappingStore c)
    (c_mappingIndex c) (c_mappingOrder c) (c_permissionless c) (c_strings c) (c_stringIndex c) (nextEvidenceID c).
(** The maps of the next phase start empty. *)
Definition resetMaps (c : Catalog) : Catalog := withMappings c (c_mappingStore c) [] (c_mappingOrder c) [] (nextEvidenceID c).
Definition parse (b : bundle) : result Catalog :=
  c ← loadAPIs initialCatalog (apis b);
  if negb (licenseFound b) || negb (noticeFound b) then Err (ErrNew "bundle: license or notice is empty")
  else
    c ← compacted c;
    c ← match iamDefinitions b with
        | None | Some [] => Err (ErrNew "iam_definition.json: empty")
        | Some ds => loadDefinitions (resetMaps c) ds
        end;
    c ← compacted c;
    let c := resetMaps (withStore (setOperationIndex None) c) in
    if (default EmptyString (mapSchema b) =? "")%string then Err (ErrNew "map.json: missing schema_version")
    else
      let sdk := sdkToService (ServiceSDK b) in
      c ← addPermissionless c sdk (Permissionless b);
      c ← match methodMappings b with
          | None | Some [] => Err (ErrNew "map.json: missing sdk_method_iam_mappings")
          | Some es => loadEntries sdk c es
          end;
      c ← compacted c;
      c ← attachCompactMappings c;
      c ← compactEvidence (withMappings c (c_mappingStore c) (c_mappingIndex c) (c_mappingOrder c) [] (nextEvidenceID c));
      match compileCompactPlans (c_store c) with
      | Err err => Err err
      | Ok s => Ok (withStore (fun _ => s) c)
      end.
End Sources.
End CatalogSources.
