(* ===== verification/CatalogEvidence.v ===== *)
(** * The evidence of the catalog: identities, duplicates, canonical form

    What the construction of [CatalogSources] guarantees: evidence is numbered in
    source order and never twice, definitions of one action are all contradictory,
    and what is added is in the form that [CatalogRoundTrip] reads back. *)

From Stdlib Require Import ZArith Lia ZifyBool Ascii.
From stdpp Require Import base gmap strings list.
From S2P Require Import Prelude GoStrings.
From S2P Require Import CatalogTypes.
From S2P Require Import CatalogStore.
From S2P Require Import CatalogAccess.
From S2P Require Import CatalogBuild.
From S2P Require Import CatalogPlan.
From S2P Require Import CatalogRoundTrip.
From S2P Require Import CatalogSources.

Module CatalogEvidence.
Import CatalogTypes.CatalogTypes CatalogStore.CatalogStore CatalogAccess.CatalogAccess CatalogBuild.CatalogBuild
  CatalogRoundTrip.CatalogRoundTrip CatalogPlan.CatalogPlan CatalogSources.CatalogSources.

(** ** Numbering *)

(** A step that takes consecutive identities, the ones that [ids] finds in its result. *)
Definition numbers {A} (m : Numbering A) (ids : A -> list Z) : Prop := forall n a n', 0 <= n -> m n = Ok (a, n') ->
  n <= n' /\ ids a = seqZ (n + 1) (n' - n) /\ (n < n' -> n' <= maxCatalogItems).

Lemma numbers_ret {A} (a : A) ids : ids a = [] -> numbers (mret a) ids.
Proof. intros H n a' n' Hn [= <- <-]. rewrite H, Z.sub_diag. split; [lia|]. split; [done|lia]. Qed.
Lemma numbers_next : numbers nextID (fun id => [id]).
Proof.
  intros n a n' Hn. unfold nextID. destruct (_ <=? n) eqn:E; [done|]. intros [= <- <-]. split; [lia|].
  split; [|lia]. replace (n + 1 - n) with 1 by lia. done.
Qed.
Lemma numbers_bind_of {A B} (m : Numbering A) (f : A -> Numbering B) ids ids' jds : numbers m ids ->
  (forall a n n', m n = Ok (a, n') -> numbers (f a) (ids' a)) ->
  (forall a b n n' n'', m n = Ok (a, n') -> f a n' = Ok (b, n'') -> jds b = ids a ++ ids' a b) -> numbers (m ≫= f) jds.
Proof.
  intros Hm Hf Hj n b n'' Hn E. unfold mbind, Step_bind in E. destruct (m n) as [[a n']|] eqn:E1; [|done].
  destruct (Hm n a n' Hn E1) as (H1 & I1 & M1). destruct (Hf a n n' E1 n' b n'' ltac:(lia) E) as (H2 & I2 & M2).
  split; [lia|]. split.
  - rewrite (Hj a b n n' n'' E1 E), I1, I2. replace (n'' - n) with ((n' - n) + (n'' - n')) by lia. rewrite seqZ_app by lia.
    do 2 f_equal; lia.
  - intros Hlt. destruct (decide (n' < n'')); [by apply M2|]. replace n'' with n' by lia. apply M1. lia.
Qed.
Lemma numbers_bind {A B} (m : Numbering A) (f : A -> Numbering B) ids ids' jds : numbers m ids -> (forall a, numbers (f a) (ids' a)) ->
  (forall a b n n' n'', m n = Ok (a, n') -> f a n' = Ok (b, n'') -> jds b = ids a ++ ids' a b) -> numbers (m ≫= f) jds.
Proof. intros Hm Hf. apply (numbers_bind_of _ _ ids ids'); [done|]. by intros a _ _ _. Qed.
Lemma bind_inv {A B} (m : Numbering A) (f : A -> Numbering B) n b n'' : (m ≫= f) n = Ok (b, n'') ->
  exists a n', m n = Ok (a, n') /\ f a n' = Ok (b, n'').
Proof. unfold mbind, Step_bind. destruct (m n) as [[a n']|] eqn:E; [|done]. intros H. by exists a, n'. Qed.
Lemma numbers_mapM {X A} (f : X -> Numbering A) (ids : A -> list Z) xs : (forall x, numbers (f x) ids) ->
  numbers (mapM f xs) (fun l => concat (ids <$> l)).
Proof.
  intros Hf. induction xs as [|x xs IH]; cbn [mapM]; [by apply numbers_ret|].
  eapply numbers_bind; [apply Hf| |].
  - intros a. eapply (numbers_bind _ _ _ (fun _ _ => [])); [exact IH|intros l; by apply numbers_ret|].
    intros l b n n' n'' _ [= <- <-]. instantiate (1 := fun a l => concat (ids <$> tail l)). cbn. by rewrite app_nil_r.
  - intros a b n n' n'' _ E. apply bind_inv in E as (l & n1 & _ & [= <- <-]). done.
Qed.
Lemma numbers_lift {A} (r : result A) ids : (forall a, r = Ok a -> ids a = []) -> numbers (lift r) ids.
Proof.
  intros H n a n' Hn. unfold lift. destruct r as [a0|]; [|done]. intros [= <- <-]. rewrite H by done. rewrite Z.sub_diag.
  split; [lia|]. split; [done|lia].
Qed.
Lemma numbers_failed {A} err (ids : A -> list Z) : numbers (failed err) ids.
Proof. by intros n a n' Hn E. Qed.

(** The identities of a resource type, a definition, a mapping, in source order. *)
Definition resource_ids (r : ResourceTypeDef) : list Z := rt_occurrenceID r :: dependentActionIDs r.
Definition definition_ids (d : ActionDefinition) : list Z := def_occurrenceID d :: concat (resource_ids <$> def_Resources d).
Definition condition_ids (order : list string) (m : list (string * ResourceMapping)) : list Z :=
  omap (fun k => rm_occurrenceID <$> mapGet m k) order.
Definition mapping_ids (m : ActionMapping) : list Z :=
  occurrenceID m :: (rm_occurrenceID <$> m_Resources m) ++ condition_ids (conditionMappingOrder m) (ConditionMappings m).

Section Evidence.
Context `{U : UnicodeTables}.

Lemma numbers_resource seen r : numbers (resourceFrom seen r) (fun x => resource_ids x.1).
Proof.
  unfold resourceFrom. eapply (numbers_bind _ _ _ (fun _ x => dependentActionIDs x.1)); [apply numbers_next| |].
  - intros id. eapply (numbers_bind _ _ _ (fun _ _ => [])); [apply numbers_mapM; intros; apply numbers_next|intros; by apply numbers_ret|].
    intros ids x n n' n'' _ [= <- <-]. cbn. rewrite app_nil_r. clear. induction ids as [|i ids IH]; [done|]. cbn. by f_equal.
  - intros id x n n' n'' _ E. apply bind_inv in E as (ids & n1 & _ & [= <- <-]). done.
Qed.
Lemma numbers_resources rs seen : numbers (resourcesFrom seen rs) (fun x => concat (resource_ids <$> x.1)).
Proof.
  revert seen. induction rs as [|r rs IH]; intros seen; cbn [resourcesFrom]; [by apply numbers_ret|].
  eapply (numbers_bind _ _ _ (fun _ y => concat (resource_ids <$> tail y.1))); [apply numbers_resource| |].
  - intros [d twice]. eapply (numbers_bind _ _ _ (fun _ _ => [])); [apply IH|intros [ds later]; by apply numbers_ret|].
    intros [ds later] x n n' n'' _ [= <- <-]. cbn. by rewrite app_nil_r.
  - intros [d twice] x n n' n'' _ E. apply bind_inv in E as ([ds later] & n1 & _ & [= <- <-]). done.
Qed.
Lemma numbers_definition prefix p : numbers (definitionFrom prefix p) definition_ids.
Proof.
  unfold definitionFrom. eapply (numbers_bind _ _ _ (fun _ d => concat (resource_ids <$> def_Resources d))); [apply numbers_next| |].
  - intros id. eapply (numbers_bind _ _ _ (fun _ _ => [])); [apply numbers_resources|intros [rs twice]; by apply numbers_ret|].
    intros [rs twice] d n n' n'' _ [= <- <-]. cbn. by rewrite app_nil_r.
  - intros id d n n' n'' _ E. apply bind_inv in E as ([rs twice] & n1 & _ & [= <- <-]). done.
Qed.
Lemma numbers_operation file a name : numbers (operationFrom file a name) (fun o => [o_occurrenceID o]).
Proof.
  unfold operationFrom. eapply (numbers_bind _ _ _ (fun _ _ => [])); [apply numbers_next| |].
  - intros id. destruct (_ =? _)%string; [apply numbers_failed|].
    eapply (numbers_bind _ _ (fun _ => []) (fun _ _ => [])); [by apply numbers_lift|intros; by apply numbers_ret|done].
  - intros id o n n' n'' _ E. destruct (_ =? _)%string; [done|]. apply bind_inv in E as (b & n1 & _ & [= <- <-]). done.
Qed.
Lemma condition_ids_set order m k v : k ∉ order -> condition_ids order (mapSet m k v) = condition_ids order m.
Proof.
  intros Hn. unfold condition_ids. induction order as [|k' order IH]; [done|]. apply not_elem_of_cons in Hn as [Hne Hn]. cbn.
  rewrite mapGet_set. destruct (String.eqb_spec k k') as [->|_]; [done|]. by rewrite IH.
Qed.
Lemma identify_kept order m k : k ∉ order -> forall n m' n', identifyConditions order m n = Ok (m', n') -> mapGet m' k = mapGet m k.
Proof.
  revert m. induction order as [|k' order IH]; intros m Hn n m' n' E; cbn [identifyConditions] in E; [by injection E as <- <-|].
  apply not_elem_of_cons in Hn as [Hne Hn]. destruct (mapGet m k') as [v|]; [|done]. apply bind_inv in E as (id & n1 & _ & E). rewrite (IH _ Hn _ _ _ E), mapGet_set. by destruct (String.eqb_spec k' k) as [->|_].
Qed.
Lemma numbers_conditions order : NoDup order -> forall m, numbers (identifyConditions order m) (condition_ids order).
Proof.
  induction 1 as [|k order Hn Hnd IH]; intros m; cbn [identifyConditions]; [by apply numbers_ret|].
  destruct (mapGet m k) as [v|] eqn:Ev; [|apply numbers_failed].
  eapply (numbers_bind _ _ _ (fun _ m' => condition_ids order m')); [apply numbers_next|intros id; apply IH|].
  intros id m' n n' n'' _ E. unfold condition_ids. cbn. rewrite (identify_kept _ _ _ Hn _ _ _ E), mapGet_set, String.eqb_refl. done.
Qed.
Definition inner_ids (m : ActionMapping) : list Z :=
  (rm_occurrenceID <$> m_Resources m) ++ condition_ids (conditionMappingOrder m) (ConditionMappings m).
Lemma numbers_identify rs : numbers (mapM (fun r => id ← nextID; mret (identified r id)) rs) (fun rs => rm_occurrenceID <$> rs).
Proof.
  induction rs as [|r rs IH]; cbn [mapM]; [by apply numbers_ret|].
  eapply (numbers_bind _ _ (fun r => [rm_occurrenceID r]) (fun _ rs => rm_occurrenceID <$> tail rs)).
  - eapply (numbers_bind _ _ _ (fun _ _ => [])); [apply numbers_next|intros id; by apply numbers_ret|].
    intros id r' n n' n'' _ [= <- <-]. done.
  - intros r'. eapply (numbers_bind _ _ _ (fun _ _ => [])); [exact IH|intros l; by apply numbers_ret|].
    intros l b n n' n'' _ [= <- <-]. cbn. by rewrite app_nil_r.
  - intros r' b n n' n'' _ E. apply bind_inv in E as (l & n1 & _ & [= <- <-]). done.
Qed.
Lemma numbers_assign m : NoDup (conditionMappingOrder m) -> numbers (assignMappingIDs m) inner_ids.
Proof.
  intros Hnd. unfold assignMappingIDs. destruct (_ =? _); [apply numbers_failed|].
  eapply (numbers_bind _ _ _ (fun _ m' => condition_ids (conditionMappingOrder m') (ConditionMappings m'))); [apply numbers_identify| |].
  - intros rs. eapply (numbers_bind _ _ _ (fun _ _ => [])); [by apply numbers_conditions|intros cms; by apply numbers_ret|].
    intros cms b n n' n'' _ [= <- <-]. cbn. by rewrite app_nil_r.
  - intros rs b n n' n'' _ E. apply bind_inv in E as (cms & n1 & _ & [= <- <-]). done.
Qed.
Lemma assign_kept m n m' n' : assignMappingIDs m n = Ok (m', n') -> occurrenceID m' = occurrenceID m.
Proof.
  unfold assignMappingIDs. destruct (_ =? _); [done|]. intros E. apply bind_inv in E as (rs & n1 & _ & E).
  apply bind_inv in E as (cms & n2 & _ & [= <- <-]). done.
Qed.
Lemma inOrder_keys what order m cs : inOrder what order m = Ok cs -> NoDup order -> NoDup m.*1 -> NoDup cs.*1.
Proof.
  unfold inOrder. destruct order as [|k order]; [by intros [= <-]|]. generalize (k :: order). clear k order.
  intros order E Hno _. cut (cs.*1 = order); [by intros ->|]. clear Hno. revert cs E.
  induction order as [|k order IH]; cbn [mapM]; intros cs E; [by injection E as <-|].
  destruct (mapGet m k) as [x|]; [|done]. cbn in E. destruct (mapM _ order) as [cs'|] eqn:E'; [|done]. injection E as <-. cbn.
  f_equal. by apply IH.
Qed.
Lemma convertMapping_order r m : convertMapping r = Ok m -> NoDup (conditionOrder r) -> NoDup (rw_ConditionMappings r).*1 ->
  NoDup (conditionMappingOrder m).
Proof.
  unfold convertMapping. destruct (_ =? _)%string; [done|]. destruct (inOrder _ (resourceOrder r) _) as [rs|]; [|done]. cbn.
  destruct (inOrder _ (conditionOrder r) _) as [cs|] eqn:E; [|done]. intros [= <-]. by apply (inOrder_keys _ _ _ _ E).
Qed.
Lemma numbers_mapping s r : NoDup (conditionOrder r) -> NoDup (rw_ConditionMappings r).*1 -> numbers (mappingFrom s r) mapping_ids.
Proof.
  intros Hno Hnm. unfold mappingFrom.
  eapply (numbers_bind _ _ (fun id => [id]) (fun _ m => inner_ids m)); [apply numbers_next| |].
  - intros id. eapply (numbers_bind_of _ _ (fun _ => []) (fun _ m => inner_ids m)); [by apply numbers_lift| |done].
    intros m n n' E. unfold lift in E. destruct (convertMapping r) as [m0|] eqn:Em; [|done]. injection E as <- <-.
    eapply (numbers_bind _ _ inner_ids (fun _ _ => [])); [apply numbers_assign; exact (convertMapping_order r m0 Em Hno Hnm)| |].
    + intros m'. eapply (numbers_bind _ _ (fun _ => []) (fun _ _ => [])); [by apply numbers_lift|intros; by apply numbers_ret|done].
    + intros m' b n1 n2 n3 _ E. apply bind_inv in E as (st & n4 & _ & [= <- <-]). by rewrite app_nil_r.
  - intros id b n n' n'' _ E. apply bind_inv in E as (m & n1 & _ & E). apply bind_inv in E as (m' & n2 & Ea & E).
    apply bind_inv in E as (st & n3 & _ & [= <- <-]). apply assign_kept in Ea. cbn in Ea. unfold mapping_ids. cbn. by rewrite Ea.
Qed.

(** ** Every identity of the graph is issued once *)

Definition graph_definitions (c : Catalog) : list ActionDefinition := omap (ordered (c_buildActions c)) (c_buildActionOrder c).
Definition graph_ids (c : Catalog) : list Z :=
  (o_occurrenceID <$> concat (CatalogTypes.CatalogTypes.Operations <$> c_services c)) ++
  concat (definition_ids <$> graph_definitions c) ++ concat (mapping_ids <$> c_mappingStore c).
Record well_numbered (c : Catalog) : Prop := {
  wn_next : 0 <= nextEvidenceID c <= maxCatalogItems;
  wn_placed : Forall (fun p => is_Some (ordered (c_buildActions c) p)) (c_buildActionOrder c);
  wn_once : NoDup (graph_ids c);
  wn_issued : Forall (fun id => 0 < id <= nextEvidenceID c) (graph_ids c);
}.
(** The identities of [c'] are those of [c] and the ones issued since, some of them
    moved into the store. *)
Definition issues (c c' : Catalog) : Prop :=
  nextEvidenceID c <= nextEvidenceID c' <= maxCatalogItems /\
  Forall (fun p => is_Some (ordered (c_buildActions c') p)) (c_buildActionOrder c') /\
  graph_ids c' ⊆+ graph_ids c ++ seqZ (nextEvidenceID c + 1) (nextEvidenceID c' - nextEvidenceID c).
Lemma issues_refl c : well_numbered c -> issues c c.
Proof. intros [Hn Hp _ _]. split; [lia|]. split; [done|]. rewrite Z.sub_diag. by rewrite app_nil_r. Qed.
Lemma issues_trans c1 c2 c3 : 0 <= nextEvidenceID c1 -> issues c1 c2 -> issues c2 c3 -> issues c1 c3.
Proof.
  intros H0 (N1 & _ & S1) (N2 & P2 & S2). split; [lia|]. split; [done|]. etrans; [exact S2|].
  replace (nextEvidenceID c3 - nextEvidenceID c1) with ((nextEvidenceID c2 - nextEvidenceID c1) + (nextEvidenceID c3 - nextEvidenceID c2)) by lia.
  rewrite seqZ_app by lia. rewrite app_assoc.
  replace (nextEvidenceID c1 + 1 + (nextEvidenceID c2 - nextEvidenceID c1)) with (nextEvidenceID c2 + 1) by lia.
  by apply submseteq_skips_r.
Qed.
Lemma issues_numbered c c' : well_numbered c -> issues c c' -> well_numbered c'.
Proof.
  intros [Hn Hp Hnd Hf] (N & P & Sub). rewrite Forall_forall in Hf.
  assert (Hall : NoDup (graph_ids c ++ seqZ (nextEvidenceID c + 1) (nextEvidenceID c' - nextEvidenceID c))).
  { apply NoDup_app. split; [done|]. split; [|apply NoDup_seqZ]. intros x Hx Hs%elem_of_seqZ. specialize (Hf x Hx). lia. }
  split; [lia|done| |].
  - apply submseteq_Permutation in Sub as (k & Pk). rewrite Pk in Hall. by apply NoDup_app in Hall as (? & _).
  - apply Forall_forall. intros x Hx. eapply elem_of_submseteq in Hx; [|exact Sub]. apply elem_of_app in Hx as [Hx|Hx%elem_of_seqZ]; [|lia].
    specialize (Hf x Hx). lia.
Qed.
Lemma issued_above c c' id : well_numbered c -> issues c c' -> id ∈ graph_ids c' -> id ∈ graph_ids c \/ nextEvidenceID c < id.
Proof. intros _ (_ & _ & Sub) Hx. eapply elem_of_submseteq in Hx; [|exact Sub]. apply elem_of_app in Hx as [?|?%elem_of_seqZ]; [by left|right; lia]. Qed.

Lemma mapM_operations file a names : numbers (mapM (operationFrom file a) names) (fun ops => o_occurrenceID <$> ops).
Proof.
  intros n ops n' Hn E. destruct (numbers_mapM _ _ names (numbers_operation file a) n ops n' Hn E) as (H & I & M).
  split; [done|]. split; [|done]. rewrite <-I. clear. induction ops as [|o ops IH]; [done|]. cbn. by f_equal.
Qed.
Lemma bound_next n n' : (n < n' -> n' <= maxCatalogItems) -> n <= n' -> n <= maxCatalogItems -> n' <= maxCatalogItems.
Proof. intros H Hl Hm. destruct (decide (n < n')); [by apply H|lia]. Qed.
Lemma addAPI_issues c file a c' : well_numbered c -> addAPI c file a = Ok c' -> issues c c'.
Proof.
  intros [Hn Hp _ _]. unfold addAPI. destruct (_ || _); [done|].
  destruct (if (_ <? _)%nat then _ else _) as [duplicate|]; [|done]. cbn [mbind result_bind].
  destruct (mapM (M:=Step Z) (operationFrom file a) _ (nextEvidenceID c)) as [[ops n']|] eqn:E; [|done]. intros [= <-]. unfold issues. cbn.
  destruct (mapM_operations _ _ _ _ _ _ (proj1 Hn) E) as (H1 & I1 & M1).
  split; [split; [done|exact (bound_next _ _ M1 H1 (proj2 Hn))]|]. split; [done|]. unfold graph_ids, graph_definitions. cbn.
  rewrite fmap_app, concat_app, fmap_app. cbn. rewrite app_nil_r, I1. rewrite <-!app_assoc. apply submseteq_skips_l.
  apply Permutation_submseteq. etrans; [apply Permutation_app_comm|]. by rewrite <-app_assoc.
Qed.

Lemma ids_contradict d : definition_ids (contradict d) = definition_ids d.
Proof. done. Qed.
Lemma at_fmap {X Y} (f : X -> Y) l i : at_ (f <$> l) i = f <$> at_ l i.
Proof. unfold at_. destruct (i <? 0); [done|]. apply list_lookup_fmap. Qed.
Lemma at_app {X} (l k : list X) i x : at_ l i = Some x -> at_ (l ++ k) i = Some x.
Proof. unfold at_. destruct (i <? 0); [done|]. apply lookup_app_l_Some. Qed.
Lemma lookupAll_insert {V} (m : gmap string (list V)) k v k' : lookupAll (<[k := v]> m) k' = if String.eqb k k' then v else lookupAll m k'.
Proof.
  unfold lookupAll. destruct (String.eqb_spec k k') as [->|Hne]; [by rewrite lookup_insert_eq|by rewrite lookup_insert_ne].
Qed.
(** The definition put last under its key is there, and the others keep their places
    and identities. *)
Lemma ordered_last definitions k l a : lengthZ l = lengthZ (lookupAll definitions k) ->
  ordered (<[k := l ++ [a]]> definitions) (k, lengthZ (lookupAll definitions k)) = Some a.
Proof. intros E. unfold ordered. cbn. rewrite lookupAll_insert, String.eqb_refl, <-E. apply at_snoc. Qed.
Lemma ordered_before definitions k l a p : definition_ids <$> l = definition_ids <$> lookupAll definitions k -> is_Some (ordered definitions p) ->
  definition_ids <$> ordered (<[k := l ++ [a]]> definitions) p = definition_ids <$> ordered definitions p.
Proof.
  intros E [d Hd]. unfold ordered in *. rewrite lookupAll_insert. destruct (String.eqb_spec k p.1) as [->|_]; [|done].
  assert (H : definition_ids <$> at_ l p.2 = definition_ids <$> at_ (lookupAll definitions p.1) p.2) by by rewrite <-!at_fmap, E.
  rewrite Hd in H |- *. cbn in H. destruct (at_ l p.2) as [d'|] eqn:El; [|done]. by rewrite (at_app _ _ _ _ El).
Qed.
Lemma definitions_kept (definitions definitions' : gmap string (list ActionDefinition)) order :
  Forall (fun p => definition_ids <$> ordered definitions' p = definition_ids <$> ordered definitions p) order ->
  definition_ids <$> omap (ordered definitions') order = definition_ids <$> omap (ordered definitions) order.
Proof.
  induction 1 as [|p order E HF IH]; [done|]. cbn. destruct (ordered definitions' p) as [d'|], (ordered definitions p) as [d|]; [|done|done|done].
  cbn in *. congruence.
Qed.
Lemma addDefinitionAt_issues c a n' k l store : well_numbered c -> definition_ids <$> l = definition_ids <$> lookupAll (c_buildActions c) k ->
  nextEvidenceID c <= n' <= maxCatalogItems -> definition_ids a = seqZ (nextEvidenceID c + 1) (n' - nextEvidenceID c) ->
  issues c (withDefinitions c store (<[k := l ++ [a]]> (c_buildActions c))
    (c_buildActionOrder c ++ [(k, lengthZ (lookupAll (c_buildActions c) k))]) n').
Proof.
  intros [Hn Hp _ _] El Hb Ia. unfold issues. cbn.
  assert (Hl : lengthZ l = lengthZ (lookupAll (c_buildActions c) k)).
  { unfold lengthZ. f_equal. by rewrite <-(length_fmap definition_ids l), El, length_fmap. }
  assert (Hk : Forall (fun p => definition_ids <$> ordered (<[k := l ++ [a]]> (c_buildActions c)) p = definition_ids <$> ordered (c_buildActions c) p) (c_buildActionOrder c)).
  { eapply Forall_impl; [exact Hp|]. intros p Hs. by apply ordered_before. }
  split; [done|]. split.
  - apply Forall_app. split; [|constructor; [|constructor]; rewrite ordered_last by done; by eexists].
    rewrite Forall_forall in Hk, Hp |- *. intros p Hin. destruct (Hp p Hin) as [d Hd]. specialize (Hk p Hin). rewrite Hd in Hk.
    destruct (ordered (<[_ := _]> _) p); [by eexists|done].
  - unfold graph_ids, graph_definitions. cbn. rewrite omap_app, fmap_app, (definitions_kept (c_buildActions c)) by done. cbn.
    rewrite ordered_last by done. cbn [fmap list_fmap]. rewrite concat_app. cbn [concat]. rewrite app_nil_r, Ia. rewrite <-!app_assoc. do 2 apply submseteq_skips_l.
    apply Permutation_submseteq, Permutation_app_comm.
Qed.
Definition keyOf (prefix : string) (p : rawPrivilege) : string := actionKey prefix (Privilege p).
(** What an addition has done, for an action that is new or defined already. *)
Inductive added (prefix : string) (c : Catalog) (p : rawPrivilege) (s : compactStore) (a : ActionDefinition) (n : Z) : Catalog -> Prop :=
| added_again xs : (0 < List.length (lookupAll (c_buildActions c) (keyOf prefix p)) + List.length (lookupAll (actionIndex s) (keyOf prefix p)))%nat ->
    contradictAll s (lookupAll (actionIndex s) (keyOf prefix p)) (actions s) = Ok xs ->
    added prefix c p s a n (withDefinitions c (Some (setActions xs s))
      (<[keyOf prefix p := (contradict <$> lookupAll (c_buildActions c) (keyOf prefix p)) ++ [contradict a]]> (c_buildActions c))
      (c_buildActionOrder c ++ [(keyOf prefix p, lengthZ (lookupAll (c_buildActions c) (keyOf prefix p)))]) n)
| added_new : (List.length (lookupAll (c_buildActions c) (keyOf prefix p)) + List.length (lookupAll (actionIndex s) (keyOf prefix p)) = 0)%nat ->
    added prefix c p s a n (withDefinitions c (Some s)
      (<[keyOf prefix p := lookupAll (c_buildActions c) (keyOf prefix p) ++ [a]]> (c_buildActions c))
      (c_buildActionOrder c ++ [(keyOf prefix p, lengthZ (lookupAll (c_buildActions c) (keyOf prefix p)))]) n).
Lemma addPrivilege_added prefix c p c' : addPrivilege prefix c p = Ok c' ->
  exists a n s, definitionFrom prefix p (nextEvidenceID c) = Ok (a, n) /\ c_store c = Some s /\ added prefix c p s a n c'.
Proof.
  unfold addPrivilege. destruct (_ =? _)%string; [done|]. destruct (definitionFrom _ _ _) as [[a n]|]; [|done].
  destruct (c_store c) as [s|] eqn:Es; [|done]. fold (keyOf prefix p). cbn zeta. intros E. exists a, n, s. split; [done|]. split; [done|].
  destruct (_ <? _)%nat eqn:Ec; [|injection E as <-; apply added_new; apply Nat.ltb_ge in Ec; lia].
  apply result_bind_ok in E as (xs & Ex & [= <-]). apply added_again; [by apply Nat.ltb_lt|done].
Qed.
Lemma addPrivilege_issues prefix c p c' : well_numbered c -> addPrivilege prefix c p = Ok c' -> issues c c'.
Proof.
  intros W (a & n' & s & E & _ & A)%addPrivilege_added.
  destruct (numbers_definition prefix p _ _ _ (proj1 (wn_next c W)) E) as (H1 & I1 & M1).
  assert (Hb : nextEvidenceID c <= n' <= maxCatalogItems) by (split; [done|exact (bound_next _ _ M1 H1 (proj2 (wn_next c W)))]).
  destruct A; apply addDefinitionAt_issues; try done. by rewrite <-list_fmap_compose.
Qed.
Lemma addDefinition_issues d c c' : well_numbered c -> addDefinition c d = Ok c' -> issues c c'.
Proof.
  unfold addDefinition. destruct (_ =? _)%string; [done|]. generalize (Privileges d). intros ps. revert c.
  induction ps as [|p ps IH]; intros c W; cbn [addPrivileges]; [intros [= <-]; by apply issues_refl|].
  destruct (addPrivilege _ c p) as [c1|] eqn:E; [|done]. cbn. intros E'. pose proof (addPrivilege_issues _ _ _ _ W E) as I.
  eapply issues_trans; [apply W|exact I|]. apply IH; [by eapply issues_numbered|done].
Qed.

(** The entries of a mapping list its condition mappings once. *)
Definition entry_orders (r : rawMapping) : Prop := NoDup (conditionOrder r) /\ NoDup (rw_ConditionMappings r).*1.
Lemma numbers_entries s values : Forall entry_orders values -> numbers (mapM (mappingFrom s) values) (fun ms => concat (mapping_ids <$> ms)).
Proof.
  induction 1 as [|r values [Ho Hm] HF IH]; cbn [mapM]; [by apply numbers_ret|].
  eapply (numbers_bind _ _ _ (fun _ ms => concat (mapping_ids <$> tail ms))); [by apply numbers_mapping| |].
  - intros m. eapply (numbers_bind _ _ _ (fun _ _ => [])); [exact IH|intros l; by apply numbers_ret|].
    intros l b n n' n'' _ [= <- <-]. cbn. by rewrite app_nil_r.
  - intros m b n n' n'' _ E. apply bind_inv in E as (l & n1 & _ & [= <- <-]). done.
Qed.
Lemma addMappingEntry_issues sdk c k values c' : well_numbered c -> Forall entry_orders values -> addMappingEntry sdk c k values = Ok c' -> issues c c'.
Proof.
  intros W Ho. unfold addMappingEntry. destruct (c_store c) as [s|]; [|done]. destruct (_ <? _); [done|].
  destruct (mapM (M:=Step Z) (mappingFrom s) values (nextEvidenceID c)) as [[ms n']|] eqn:E; [|done].
  destruct (numbers_entries s values Ho _ _ _ (proj1 (wn_next c W)) E) as (H1 & I1 & M1).
  assert (Hb : nextEvidenceID c <= n' <= maxCatalogItems) by (split; [done|exact (bound_next _ _ M1 H1 (proj2 (wn_next c W)))]).
  destruct (splitKey k) as [[service operation]|]; [|done]. cbn zeta. destruct (_ <=? _)%nat.
  - unfold compacted, compactEvidence. destruct (convert _ _) as [[u s']|]; [|done]. cbn. intros [= <-]. unfold issues. cbn.
    split; [done|]. split; [done|]. apply submseteq_nil_l.
  - intros [= <-]. unfold issues. cbn. split; [done|]. split; [apply W|]. unfold graph_ids, graph_definitions. cbn.
    rewrite fmap_app, concat_app, I1. by rewrite !app_assoc.
Qed.

(** A step of the load that adds evidence. *)
Inductive evidence_step : Catalog -> Catalog -> Prop :=
| step_api c file a c' : addAPI c file a = Ok c' -> evidence_step c c'
| step_definition c d c' : addDefinition c d = Ok c' -> evidence_step c c'
| step_entry c sdk k values c' : Forall entry_orders values -> addMappingEntry sdk c k values = Ok c' -> evidence_step c c'
| step_compacted c c' : compacted c = Ok c' -> evidence_step c c'
| step_permissionless c sdk ks c' : addPermissionless c sdk ks = Ok c' -> evidence_step c c'
| step_reset c : evidence_step c (resetMaps c)
| step_unindexed c : evidence_step c (withStore (setOperationIndex None) c).
(** The steps that only move the maps of the builder. *)
Record same_evidence (c c' : Catalog) : Prop := {
  sm_graph : (c_services c', c_buildActions c', c_buildActionOrder c', c_mappingStore c') =
    (c_services c, c_buildActions c, c_buildActionOrder c, c_mappingStore c);
  sm_next : nextEvidenceID c' = nextEvidenceID c;
  sm_strings : (c_strings c', c_stringIndex c', stringOffsets (default emptyStore (c_store c'))) =
    (c_strings c, c_stringIndex c, stringOffsets (default emptyStore (c_store c)));
}.
Lemma same_refl c : same_evidence c c.
Proof. by constructor. Qed.
Lemma same_trans c1 c2 c3 : same_evidence c1 c2 -> same_evidence c2 c3 -> same_evidence c1 c3.
Proof. intros [] []. constructor; congruence. Qed.
Lemma permissionless_same c sdk ks c' : addPermissionless c sdk ks = Ok c' -> same_evidence c c'.
Proof.
  revert c. induction ks as [|k ks IH]; intros c; cbn [addPermissionless]; [intros [= <-]; apply same_refl|].
  destruct (splitKey k) as [[service operation]|]; [|done]. intros E%IH. eapply same_trans; [|exact E].
  destruct (matchedKey _ _ _ _); [by constructor|apply same_refl].
Qed.
Lemma reset_same c : same_evidence c (resetMaps c).
Proof. by constructor. Qed.
Lemma unindexed_same c : same_evidence c (withStore (setOperationIndex None) c).
Proof. constructor; try done. cbn. by destruct (c_store c). Qed.
Lemma same_issues c c' : well_numbered c -> same_evidence c c' -> issues c c'.
Proof.
  intros W [Eg En _]. injection Eg as E1 E2 E3 E4. unfold issues, graph_ids, graph_definitions. rewrite E1, E2, E3, E4, En.
  by apply issues_refl.
Qed.
Lemma compacted_graph c c' : compacted c = Ok c' ->
  graph_ids c' = [] /\ c_buildActionOrder c' = [] /\ nextEvidenceID c' = nextEvidenceID c.
Proof. unfold compacted, compactEvidence. destruct (convert _ _) as [[u s']|]; [|done]. cbn. by intros [= <-]. Qed.
Lemma compacted_issues c c' : well_numbered c -> compacted c = Ok c' -> issues c c'.
Proof.
  intros W (Eg & Eo & En)%compacted_graph. unfold issues. rewrite Eg, Eo, En. split; [split; [done|apply W]|]. split; [done|].
  apply submseteq_nil_l.
Qed.
Lemma step_issues c c' : well_numbered c -> evidence_step c c' -> issues c c'.
Proof. intros W St. destruct St as [c file a c' E|c d c' E|c sdk k values c' Ho E|c c' E|c sdk ks c' E|c|c];
  [by eapply addAPI_issues|by eapply addDefinition_issues|by eapply addMappingEntry_issues|by apply compacted_issues|apply same_issues..]; try done.
  - by eapply permissionless_same.
  - apply unindexed_same.
Qed.

Lemma steps_issues c c' : well_numbered c -> rtc evidence_step c c' -> issues c c'.
Proof.
  intros W R. revert W. induction R as [c|c c1 c' St R IH]; intros W; [by apply issues_refl|].
  pose proof (step_issues _ _ W St) as I. eapply issues_trans; [apply W|exact I|]. apply IH. by eapply issues_numbered.
Qed.
(** Evidence identities are issued once: however the load interleaves API models,
    action definitions, mapping entries and compactions, the occurrence identities of the
    operations, definitions, resource types, dependent actions, mappings and
    conditions in the catalog are pairwise distinct, positive and at most
    [nextEvidenceID], which never decreases and never passes the bound; those that
    a step adds are above every identity issued before it. *)
Theorem identities_issued_once c c' : rtc evidence_step c c' -> well_numbered c ->
  well_numbered c' /\ nextEvidenceID c <= nextEvidenceID c' /\
  (forall id, id ∈ graph_ids c' -> id ∈ graph_ids c \/ nextEvidenceID c < id).
Proof.
  intros R W. pose proof (steps_issues _ _ W R) as I. split; [by eapply issues_numbered|]. split; [apply I|]. intros id. by apply issued_above.
Qed.

(** ** Definitions of one action *)

(** Both the graph and the store have contradictory definitions of the key only. *)
Definition settled (c : Catalog) (k : string) : Prop :=
  Forall (fun d => def_State d = EvidenceContradictory) (lookupAll (c_buildActions c) k) /\
  forall s p, c_store c = Some s -> p ∈ lookupAll (actionIndex s) k ->
    exists r, at_ (actions s) (at_index p) = Some r /\ ca_occurrence r = at_occurrence p /\ ca_state r = EvidenceContradictory.
Definition copies (c : Catalog) (k : string) : nat :=
  (List.length (lookupAll (c_buildActions c) k) + match c_store c with Some s => List.length (lookupAll (actionIndex s) k) | None => 0 end)%nat.
Definition duplicates_settled (c : Catalog) : Prop := forall k, (2 <= copies c k)%nat -> settled c k.

Definition settled_at (xs : list compactAction) (p : position) : Prop :=
  exists r, at_ xs (at_index p) = Some r /\ ca_occurrence r = at_occurrence p /\ ca_state r = EvidenceContradictory.
Lemma at_update {X} (l : list X) i j x : is_Some (at_ l i) -> at_ (<[Z.to_nat i := x]> l) j = if i =? j then Some x else at_ l j.
Proof.
  unfold at_. intros [y Hy]. destruct (i <? 0) eqn:Ei; [done|]. apply lookup_lt_Some in Hy. destruct (Z.eqb_spec i j) as [->|Hne].
  - rewrite Ei. by apply list_lookup_insert_eq.
  - destruct (j <? 0) eqn:Ej; [done|]. apply list_lookup_insert_ne. lia.
Qed.
Lemma settled_update xs p q r : at_ xs (at_index p) = Some r -> settled_at xs q -> settled_at (<[Z.to_nat (at_index p) := contradictAction r]> xs) q.
Proof.
  intros Ep (x & Eq & Ho & Hs). unfold settled_at. rewrite at_update by by eexists. destruct (Z.eqb_spec (at_index p) (at_index q)) as [E|_].
  - rewrite E in Ep. exists (contradictAction r). split; [done|]. by simplify_eq.
  - by exists x.
Qed.
Lemma contradictAll_settled s ps xs ys : contradictAll s ps xs = Ok ys ->
  (forall q, settled_at xs q -> settled_at ys q) /\ (forall p, p ∈ ps -> settled_at ys p).
Proof.
  revert xs. induction ps as [|p ps IH]; cbn [contradictAll]; intros xs E.
  - injection E as ->. split; [done|]. by intros p ?%elem_of_nil.
  - destruct (at_ xs (at_index p)) as [r|] eqn:Ep; [|done]. destruct (Z.eqb_spec (ca_occurrence r) (at_occurrence p)) as [Eo|]; [|done].
    destruct (IH _ E) as [Hkeep Hall]. split; [intros q Hq; by apply Hkeep, settled_update|]. intros q [->|Hin]%elem_of_cons; [|by apply Hall].
    apply Hkeep. exists (contradictAction r). split; [|done]. rewrite at_update by by eexists. by rewrite Z.eqb_refl.
Qed.
Lemma settled_other c k k' l store order n : k <> k' ->
  (forall s', store = Some s' -> exists s, c_store c = Some s /\ actionIndex s' = actionIndex s /\
     (forall q, settled_at (actions s) q -> settled_at (actions s') q)) ->
  settled c k' -> settled (withDefinitions c store (<[k := l]> (c_buildActions c)) order n) k'.
Proof.
  intros Hne Hs [Hb Hst]. split; cbn.
  - rewrite lookupAll_insert. by apply String.eqb_neq in Hne as ->.
  - intros s' p E Hp. destruct (Hs s' E) as (s & Es & Ei & Hk). rewrite Ei in Hp. by apply Hk, Hst.
Qed.
Lemma all_contradict l : Forall (fun d => def_State d = EvidenceContradictory) (contradict <$> l).
Proof. induction l; by constructor. Qed.
Lemma addPrivilege_settled prefix c p c' : addPrivilege prefix c p = Ok c' -> duplicates_settled c -> duplicates_settled c'.
Proof.
  intros (a & n & s & _ & Es & A)%addPrivilege_added D k' Hk'.
  assert (Hc : keyOf prefix p <> k' -> copies c' k' = copies c k').
  { intros Hne%String.eqb_neq. unfold copies. destruct A; cbn; rewrite lookupAll_insert, Hne, Es; done. }
  destruct (String.eqb_spec (keyOf prefix p) k') as [<-|Hne].
  - destruct A as [xs _ Ex|Hn].
    + split; cbn; [rewrite lookupAll_insert, String.eqb_refl; apply Forall_app; split; [apply all_contradict|by repeat constructor]|].
      intros s' q [= <-] Hq. by apply (contradictAll_settled _ _ _ _ Ex).
    + exfalso. revert Hk'. unfold copies. cbn. rewrite lookupAll_insert, String.eqb_refl, length_app. cbn. lia.
  - rewrite (Hc Hne) in Hk'. specialize (D k' Hk'). destruct A as [xs _ Ex|_]; (apply settled_other; [done| |done]); intros s' [= <-]; exists s; [|done].
    split; [done|]. split; [done|]. apply (contradictAll_settled _ _ _ _ Ex).
Qed.
(** Duplicate definitions disagree for good: after a service definition is added,
    every action that the graph and the store together define twice or more has
    contradictory definitions only, in the graph and in the store, whatever their
    access levels said, and the stored records keep their identities. *)
Theorem duplicates_contradict c d c' : addDefinition c d = Ok c' -> duplicates_settled c -> duplicates_settled c'.
Proof.
  unfold addDefinition. destruct (_ =? _)%string; [done|]. generalize (Privileges d). intros ps. revert c.
  induction ps as [|p ps IH]; intros c; cbn [addPrivileges]; [by intros [= <-]|].
  destruct (addPrivilege _ c p) as [c1|] eqn:E; [|done]. cbn. intros E' D. by eapply IH, addPrivilege_settled.
Qed.

(** ** The graph in canonical form *)

Lemma issued_ids l n m : 0 <= n -> l = seqZ (n + 1) m -> Forall (fun id => id <> invalidOccurrenceID) l.
Proof. intros Hn ->. apply Forall_forall. intros x Hx%elem_of_seqZ. unfold invalidOccurrenceID. lia. Qed.
Lemma mapM_all {X A} (P : A -> Prop) (f : X -> Numbering A) xs : (forall x n a n', 0 <= n -> f x n = Ok (a, n') -> n <= n' /\ P a) ->
  forall n l n', 0 <= n -> mapM f xs n = Ok (l, n') -> Forall P l.
Proof.
  intros Hf. induction xs as [|x xs IH]; intros n l n' Hn E; cbn [mapM] in E; [injection E as <- <-; constructor|].
  apply bind_inv in E as (a & n1 & E1 & E). apply bind_inv in E as (l1 & n2 & E2 & [= <- <-]). destruct (Hf _ _ _ _ Hn E1) as [Hle Ha].
  constructor; [done|]. apply (IH n1 l1 n2); [lia|done].
Qed.
Lemma operation_fresh file a x n op n' : 0 <= n -> operationFrom file a x n = Ok (op, n') -> n <= n' /\ fresh_operation op.
Proof.
  intros Hn E. destruct (numbers_operation file a x n op n' Hn E) as (Hle & I & _). split; [done|].
  apply (issued_ids _ _ _ Hn) in I. apply Forall_cons in I as [I _]. unfold operationFrom in E. apply bind_inv in E as (id & n1 & _ & E).
  destruct (_ =? _)%string; [done|]. apply bind_inv in E as (b & n2 & _ & [= <- <-]). split; [exact I|done].
Qed.

Lemma resource_length seen r n x n' : resourceFrom seen r n = Ok (x, n') -> List.length (dependentActionIDs x.1) = List.length (DependentActions x.1).
Proof.
  unfold resourceFrom. intros E. apply bind_inv in E as (id & n1 & _ & E). apply bind_inv in E as (ids & n2 & E & [= <- <-]). cbn.
  revert n1 ids n2 E. induction (rr_DependentActions r) as [|y ys IH]; intros n1 ids n2 E; cbn [mapM] in E; [by injection E as <- <-|].
  apply bind_inv in E as (i & n3 & _ & E). apply bind_inv in E as (is' & n4 & E & [= <- <-]). cbn. f_equal. by eapply IH.
Qed.
Lemma resources_length seen rs n x n' : resourcesFrom seen rs n = Ok (x, n') ->
  Forall (fun r => List.length (dependentActionIDs r) = List.length (DependentActions r)) x.1.
Proof.
  revert seen n x n'. induction rs as [|r rs IH]; intros seen n x n' E; cbn [resourcesFrom] in E; [by injection E as <- <-|].
  apply bind_inv in E as ([d twice] & n1 & E1 & E). apply bind_inv in E as ([ds later] & n2 & E2 & [= <- <-]). cbn.
  constructor; [by apply resource_length in E1|by apply IH in E2].
Qed.
Lemma definition_canonical prefix p n d n' : 0 <= n -> definitionFrom prefix p n = Ok (d, n') -> canonical_definition d.
Proof.
  intros Hn E. destruct (numbers_definition prefix p n d n' Hn E) as (_ & I & _). apply (issued_ids _ _ _ Hn) in I.
  apply Forall_cons in I as [Hid I]. split; [done|]. unfold definitionFrom in E. apply bind_inv in E as (id & n1 & _ & E).
  apply bind_inv in E as ([rs twice] & n2 & E & [= <- <-]). apply resources_length in E. cbn in *. clear Hid.
  induction E as [|r rs Hl HF IH]; [constructor|]. cbn in I. apply Forall_cons in I as [Hr I]. apply Forall_app in I as [Hd I].
  constructor; [by constructor|by apply IH].
Qed.

Lemma mapSet_keys {V} (m : list (string * V)) k v : k ∈ m.*1 -> (mapSet m k v).*1 = m.*1.
Proof.
  induction m as [|[k' v'] m IH]; cbn; [by intros ?%elem_of_nil|]. intros Hk. destruct (String.eqb_spec k' k) as [->|Hne]; [done|]. cbn.
  f_equal. apply IH. by apply elem_of_cons in Hk as [->|?].
Qed.
Lemma mapSet_NoDup {V} (m : list (string * V)) k v : NoDup m.*1 -> NoDup (mapSet m k v).*1.
Proof.
  intros Hn. destruct (decide (k ∈ m.*1)) as [Hk|Hk]; [by rewrite mapSet_keys|]. rewrite mapSet_fresh, fmap_app by done.
  apply NoDup_app. split; [done|]. split; [|apply NoDup_singleton]. by intros x Hx ->%list_elem_of_singleton.
Qed.
Lemma setAll_NoDup {V} (kvs : list (string * V)) : NoDup (setAll kvs).*1.
Proof.
  unfold setAll. assert (H : NoDup (@nil (string * V)).*1) by constructor. revert H. generalize (@nil (string * V)).
  induction kvs as [|kv kvs IH]; intros m H; [done|]. cbn. by apply IH, mapSet_NoDup.
Qed.
Lemma mapGet_key {V} (m : list (string * V)) k v : mapGet m k = Some v -> k ∈ m.*1.
Proof.
  induction m as [|[k' v'] m IH]; cbn; [done|]. destruct (String.eqb_spec k' k) as [->|_]; [intros _; left|intros H; right; by apply IH].
Qed.
Lemma identify_keys order m n m' n' : identifyConditions order m n = Ok (m', n') -> m'.*1 = m.*1.
Proof.
  revert m n. induction order as [|k order IH]; intros m n E; cbn [identifyConditions] in E; [by injection E as <- <-|].
  destruct (mapGet m k) as [v|] eqn:Ev; [|done]. apply bind_inv in E as (id & n1 & _ & E). rewrite (IH _ _ E).
  by eapply mapSet_keys, mapGet_key.
Qed.
Record canonical_conversion (m : ActionMapping) : Prop := {
  cc_arn : NoDup (ResourceARNMappings m).*1; cc_conditions : NoDup (ConditionMappings m).*1;
  cc_order : conditionMappingOrder m = (ConditionMappings m).*1;
}.
Lemma convertMapping_canonical r m : convertMapping r = Ok m -> entry_orders r -> canonical_conversion m.
Proof.
  intros E [Ho Hm]. pose proof (convertMapping_order r m E Ho Hm) as Hnd. unfold convertMapping in E.
  destruct (_ =? _)%string; [done|]. destruct (inOrder _ (resourceOrder r) _) as [rs|]; [|done]. cbn in E.
  destruct (inOrder _ (conditionOrder r) _) as [cs|]; [|done]. injection E as <-. cbn in Hnd.
  assert (Hk : ((fun kx => (kx.1, resourceMappingFrom kx)) <$> cs).*1 = cs.*1).
  { clear. induction cs as [|kx cs IH]; [done|]. cbn. by rewrite IH. }
  constructor; cbn; [apply setAll_NoDup|apply setAll_NoDup|]. rewrite setAll_id; by rewrite Hk.
Qed.
Lemma mapping_canonical s r n m n' : entry_orders r -> 0 <= n -> mappingFrom s r n = Ok (m, n') -> n <= n' /\ canonical_mapping m.
Proof.
  intros Ho Hn E. destruct (numbers_mapping s r (proj1 Ho) (proj2 Ho) n m n' Hn E) as (Hle & I & _). split; [done|].
  apply (issued_ids _ _ _ Hn) in I. unfold mapping_ids in I. apply Forall_cons in I as [Hid I]. apply Forall_app in I as [Hrs Hcs].
  assert (C : canonical_conversion m).
  { unfold mappingFrom in E. apply bind_inv in E as (id & n1 & _ & E). apply bind_inv in E as (m0 & n2 & Em & E).
    unfold lift in Em. destruct (convertMapping r) as [m1|] eqn:Ec; [|done]. injection Em as <- <-.
    apply convertMapping_canonical in Ec as [C1 C2 C3]; [|done]. apply bind_inv in E as (m2 & n3 & Ea & E).
    apply bind_inv in E as (st & n4 & _ & [= <- <-]). unfold assignMappingIDs in Ea. destruct (_ =? _); [done|].
    apply bind_inv in Ea as (rs & n5 & _ & Ea). apply bind_inv in Ea as (cms & n6 & Ei & [= <- <-]). apply identify_keys in Ei. cbn in *.
    constructor; cbn; [done|by rewrite Ei|by rewrite Ei]. }
  destruct C as [C1 C2 C3]. constructor; try done; [exact (proj1 (Forall_fmap _ _ _) Hrs)|]. rewrite C3 in Hcs. clear -Hcs C2. unfold condition_ids in Hcs.
  apply Forall_forall. intros [k v] Hin. apply (proj1 (Forall_forall _ _) Hcs), list_elem_of_omap. exists k.
  split; [apply list_elem_of_fmap; by exists (k, v)|]. by rewrite (mapGet_in _ k v).
Qed.

Lemma canonical_contradict d : canonical_definition d -> canonical_definition (contradict d).
Proof. by intros []. Qed.
Lemma addAPI_canonical c file a c' : well_numbered c -> canonical c -> addAPI c file a = Ok c' -> canonical c'.
Proof.
  intros W [Cp Co Cm Cd]. unfold addAPI. destruct (_ || _); [done|].
  destruct (if (_ <? _)%nat then _ else _) as [duplicate|]; [|done]. cbn [mbind result_bind].
  destruct (mapM (M:=Step Z) (operationFrom file a) _ (nextEvidenceID c)) as [[ops n']|] eqn:E; [|done]. intros [= <-].
  constructor; cbn; [exact Cp| |done|done]. apply Forall_app. split; [done|]. constructor; [|constructor]. cbn.
  eapply (mapM_all fresh_operation); [apply operation_fresh|apply (wn_next c W)|exact E].
Qed.
Lemma addDefinitionAt_canonical c a n' k l store : well_numbered c -> canonical c -> canonical_definition a ->
  (forall i d, at_ l i = Some d -> exists d', at_ (lookupAll (c_buildActions c) k) i = Some d' /\ (d = d' \/ d = contradict d')) ->
  lengthZ l = lengthZ (lookupAll (c_buildActions c) k) -> pooled (setPool (c_strings c) (c_stringIndex c) (default emptyStore store)) ->
  canonical (withDefinitions c store (<[k := l ++ [a]]> (c_buildActions c))
    (c_buildActionOrder c ++ [(k, lengthZ (lookupAll (c_buildActions c) k))]) n').
Proof.
  intros W [Cp Co Cm Cd] Ha Hl El Hp. constructor; cbn; [exact Hp|done|done|].
  apply Forall_app. split; [|constructor; [|constructor]; intros d; rewrite ordered_last by done; by intros [= <-]].
  pose proof (wn_placed c W) as Hpl. rewrite Forall_forall in Cd, Hpl |- *. intros p Hin d. destruct (Hpl p Hin) as [d0 Hd0].
  specialize (Cd p Hin d0 Hd0). unfold ordered in *. rewrite lookupAll_insert. destruct (String.eqb_spec k p.1) as [->|_]; [|by rewrite Hd0; intros [= <-]].
  assert (is_Some (at_ l p.2)) as [d1 Hd1].
  { revert Hd0 El. unfold at_, lengthZ. destruct (p.2 <? 0); [done|]. intros Hd0%lookup_lt_Some El. apply lookup_lt_is_Some. lia. }
  rewrite (at_app _ _ _ _ Hd1). intros [= <-]. destruct (Hl _ _ Hd1) as (d' & Hd' & [->| ->]); simplify_eq; [done|by apply canonical_contradict].
Qed.
Lemma addPrivilege_canonical prefix c p c' : well_numbered c -> canonical c -> addPrivilege prefix c p = Ok c' -> canonical c'.
Proof.
  intros W C (a & n & s & E & Es & A)%addPrivilege_added. pose proof (can_pool c C) as Hp. unfold before in Hp. rewrite Es in Hp.
  pose proof (definition_canonical _ _ _ _ _ (proj1 (wn_next c W)) E) as Ha. destruct A as [xs _ _|_].
  - apply addDefinitionAt_canonical; [done|done|by apply canonical_contradict| |by unfold lengthZ; rewrite length_fmap|exact Hp].
    intros i d. rewrite at_fmap. destruct (at_ _ i) as [d'|]; [|done]. intros [= <-]. exists d'. split; [done|by right].
  - apply addDefinitionAt_canonical; [done|done|done| |done|exact Hp]. intros i d Hd. exists d. split; [done|by left].
Qed.
Lemma addDefinition_canonical d c c' : well_numbered c -> canonical c -> addDefinition c d = Ok c' -> canonical c'.
Proof.
  unfold addDefinition. destruct (_ =? _)%string; [done|]. generalize (Privileges d). intros ps. revert c.
  induction ps as [|p ps IH]; intros c W C; cbn [addPrivileges]; [by intros [= <-]|].
  destruct (addPrivilege _ c p) as [c1|] eqn:E; [|done]. cbn.
  apply IH; [eapply issues_numbered; [done|by eapply addPrivilege_issues]|by eapply addPrivilege_canonical].
Qed.
Lemma compacted_canonical c c' : canonical c -> compacted c = Ok c' -> canonical c'.
Proof.
  intros [Cp Co Cm Cd]. unfold compacted, compactEvidence. fold (before c). destruct (convert c (before c)) as [[[] s]|] eqn:E; [|done]. cbn.
  intros [= <-]. constructor; cbn; [|constructor|constructor|constructor].
  by destruct (convert_does c (before c) Co Cm Cd Cp tt s E) as (_ & Hp & _).
Qed.
Lemma addMappingEntry_canonical sdk c k values c' : well_numbered c -> canonical c -> Forall entry_orders values ->
  addMappingEntry sdk c k values = Ok c' -> canonical c'.
Proof.
  intros W C Ho. unfold addMappingEntry. destruct (c_store c) as [s|] eqn:Es; [|done]. destruct (_ <? _); [done|].
  destruct (mapM (M:=Step Z) (mappingFrom s) values (nextEvidenceID c)) as [[ms n']|] eqn:E; [|done].
  destruct (splitKey k) as [[service operation]|]; [|done]. cbn zeta.
  assert (Hms : Forall canonical_mapping ms).
  { pose proof (wn_next c W) as [Hn _]. revert E Hn. generalize (nextEvidenceID c). intros n. revert n n' ms.
    induction Ho as [|r values Hr Ho IH]; intros n n1 ms E Hn; cbn [mapM] in E; [injection E as <- <-; constructor|].
    apply bind_inv in E as (m & n2 & Em & E). apply bind_inv in E as (l & n3 & El & [= <- <-]).
    destruct (mapping_canonical s r n m n2 Hr Hn Em) as [Hle Hm]. constructor; [done|]. eapply IH; [exact El|lia]. }
  assert (Cg : forall index order ps, canonical (withMappings c (c_mappingStore c ++ ms) index order ps n')).
  { intros index order ps. destruct C as [Cp Co Cm Cd]. constructor; cbn; [exact Cp|done|by apply Forall_app|done]. }
  destruct (_ <=? _)%nat; [|by intros [= <-]]. destruct (compacted _) as [c1|] eqn:Ec; [|done]. cbn. intros [= <-].
  apply (compacted_canonical _ _ (Cg _ _ _)) in Ec as [Cp Co Cm Cd]. by constructor.
Qed.
Lemma same_canonical c c' : canonical c -> same_evidence c c' -> canonical c'.
Proof.
  intros [[[Hoff Hg] Hne] Co Cm Cd] [Eg _ Es]. injection Eg as E1 E2 E3 E4. injection Es as F1 F2 F3.
  constructor; [|by rewrite E1|by rewrite E4|by rewrite E2, E3]. unfold pooled, good, before in *. cbn in *. by rewrite F1, F2, F3.
Qed.
Lemma step_canonical c c' : well_numbered c -> canonical c -> evidence_step c c' -> canonical c'.
Proof.
  intros W C St. destruct St as [c file a c' E|c d c' E|c sdk k values c' Ho E|c c' E|c sdk ks c' E|c|c];
  [by eapply addAPI_canonical|by eapply addDefinition_canonical|by eapply addMappingEntry_canonical|by eapply compacted_canonical|
   apply (same_canonical c); [done|]..].
  - by eapply permissionless_same.
  - apply reset_same.
  - apply unindexed_same.
Qed.
Lemma initial_numbered : well_numbered initialCatalog.
Proof. constructor; [done|constructor|constructor|constructor]. Qed.
Lemma initial_canonical : canonical initialCatalog.
Proof. constructor; [|constructor|constructor|constructor]. split; [|done]. split; [done|]. by intros v id. Qed.
Lemma steps_canonical c c' : rtc evidence_step c c' -> well_numbered c -> canonical c -> canonical c'.
Proof.
  induction 1 as [c|c c1 c' St R IH]; intros W C; [done|]. apply IH; [|by eapply step_canonical].
  eapply issues_numbered; [done|by apply step_issues].
Qed.

(** C33. What the load has decoded is what the catalog reads back: at any moment of the
    load, moving the graph into the compact store keeps each operation, mapping and
    action definition, read at the end of its array with every field as it was
    built from the source, strings, conditions, templates, dependencies and
    identities included, and all that the store held before is read as before. *)
Theorem evidence_read_back (c c' : Catalog) (s' : compactStore) :
  rtc evidence_step initialCatalog c -> compactEvidence c = Ok c' -> c_store c' = Some s' -> fits s' ->
  appended operationView (operations (before c)) (operations s') (concat (CatalogTypes.CatalogTypes.Operations <$> c_services c)) s' /\
  appended mappingView (mappings (before c)) (mappings s') (c_mappingStore c) s' /\
  appended actionView (actions (before c)) (actions s') (graph_definitions c) s' /\
  (forall i op, operationAt (before c) i = Some op -> operationAt s' i = Some op) /\
  (forall i m, mappingAt (before c) i = Some m -> mappingAt s' i = Some m) /\
  (forall i d, actionAt (before c) i = Some d -> actionAt s' i = Some d).
Proof.
  intros R E Es Hf. apply (compact_roundtrip c c' s' E Es); [|done].
  by eapply steps_canonical; [|apply initial_numbered|apply initial_canonical].
Qed.

(** ** The load is a run of these steps *)

Lemma loadAPIs_steps xs c c' : loadAPIs c xs = Ok c' -> rtc evidence_step c c' /\ Forall (fun x => validateAPI ("upstream/" ++ x.1) x.2 = None) xs.
Proof.
  revert c. induction xs as [|[name a] xs IH]; intros c; cbn [loadAPIs]; [by intros [= <-]|].
  destruct (validateAPI _ a) eqn:Ev; [done|]. destruct (addAPI _ _ a) as [c1|] eqn:E1; [|done]. cbn. destruct (compacted c1) as [c2|] eqn:E2; [|done].
  cbn. intros [R V]%IH. split; [|by constructor]. eapply rtc_l; [by eapply step_api|]. eapply rtc_l; [by eapply step_compacted|done].
Qed.
Lemma loadDefinitions_steps ds c c' : loadDefinitions c ds = Ok c' -> rtc evidence_step c c'.
Proof.
  revert c. induction ds as [|d ds IH]; intros c; cbn [loadDefinitions]; [by intros [= <-]|].
  destruct (addDefinition c d) as [c1|] eqn:E1; [|done]. cbn. destruct (compacted c1) as [c2|] eqn:E2; [|done].
  cbn. intros R%IH. eapply rtc_l; [by eapply step_definition|]. eapply rtc_l; [by eapply step_compacted|done].
Qed.
Lemma loadEntries_steps sdk es c c' : Forall (fun e => Forall entry_orders e.2) es -> loadEntries sdk c es = Ok c' -> rtc evidence_step c c'.
Proof.
  intros H. revert c. induction H as [|[k values] es He H IH]; intros c; cbn [loadEntries]; [by intros [= <-]|].
  destruct (addMappingEntry sdk c k values) as [c1|] eqn:E1; [|done]. cbn. intros R%IH. eapply rtc_l; [by eapply step_entry|done].
Qed.
(** Every source is there. *)
Record complete (b : bundle) : Prop := {
  bn_license : licenseFound b = true /\ noticeFound b = true;
  bn_apis : Forall (fun x => validateAPI ("upstream/" ++ x.1) x.2 = None) (apis b);
  bn_definitions : exists ds, iamDefinitions b = Some ds /\ ds <> [];
  bn_schema : exists schema, mapSchema b = Some schema /\ schema <> EmptyString;
  bn_mappings : exists es, methodMappings b = Some es /\ es <> [];
}.
Definition orderly (b : bundle) : Prop := Forall (fun e => Forall entry_orders e.2) (default [] (methodMappings b)).

(** A load that succeeds has every source and is a run of the steps above: the
    bundle has its license and notice, valid API models only, definitions, a schema
    and mappings; the catalog reached before the mappings are attached is reachable
    from the empty one by evidence steps, so that its identities are issued once
    and what it holds is read back; and the plans are compiled from its store with
    the mappings attached. *)
Theorem load_runs_in_steps b c : parse b = Ok c -> orderly b ->
  complete b /\ exists c1 c2 c3 s, rtc evidence_step initialCatalog c1 /\ well_numbered c1 /\ canonical c1 /\ graph_ids c1 = [] /\
    attachCompactMappings c1 = Ok c2 /\ compactEvidence (withMappings c2 (c_mappingStore c2) (c_mappingIndex c2) (c_mappingOrder c2) [] (nextEvidenceID c2)) = Ok c3 /\
    compileCompactPlans (c_store c3) = Ok s /\ c_store c = Some s.
Proof.
  unfold parse, orderly. destruct (loadAPIs _ _) as [ca|] eqn:Ea; [|done]. cbn [mbind result_bind]. apply loadAPIs_steps in Ea as [Ra Va].
  destruct (_ || _) eqn:El; [done|]. apply orb_false_iff in El as [El%negb_false_iff En%negb_false_iff].
  destruct (compacted ca) as [cb|] eqn:Eb; [|done]. cbn [mbind result_bind].
  destruct (iamDefinitions b) as [[|d ds]|] eqn:Ed; [done| |done].
  destruct (loadDefinitions _ _) as [cd|] eqn:Edd; [|done]. cbn [mbind result_bind]. apply loadDefinitions_steps in Edd.
  destruct (compacted cd) as [ce|] eqn:Ee; [|done]. cbn [mbind result_bind]. destruct (mapSchema b) as [schema|] eqn:Em; [|done].
  change (default EmptyString (Some schema)) with schema. destruct (String.eqb_spec schema EmptyString) as [|Hs]; [done|].
  destruct (addPermissionless _ _ _) as [cf|] eqn:Ef; [|done]. cbn [mbind result_bind].
  destruct (methodMappings b) as [[|e es]|] eqn:Emm; [done| |done]. cbn [default].
  destruct (loadEntries _ _ _) as [cg|] eqn:Eg; [|done]. cbn [mbind result_bind]. destruct (compacted cg) as [c1|] eqn:Eh; [|done].
  cbn [mbind result_bind]. destruct (attachCompactMappings c1) as [c2|] eqn:Ei; [|done]. cbn [mbind result_bind].
  destruct (compactEvidence _) as [c3|] eqn:Ej; [|done]. cbn [mbind result_bind]. destruct (compileCompactPlans _) as [s|] eqn:Ek; [|done].
  intros [= <-] Ho. apply (loadEntries_steps _ _ _ _ Ho) in Eg.
  assert (R : rtc evidence_step initialCatalog c1).
  { etrans; [exact Ra|]. eapply rtc_l; [by eapply step_compacted|]. eapply rtc_l; [by apply step_reset|]. etrans; [exact Edd|].
    eapply rtc_l; [by eapply step_compacted|]. eapply rtc_l; [by apply step_unindexed|]. eapply rtc_l; [by apply step_reset|].
    eapply rtc_l; [by eapply step_permissionless|]. etrans; [exact Eg|]. eapply rtc_l; [by eapply step_compacted|done]. }
  split; [constructor; [done|done|by eexists|by eexists|by eexists]|]. exists c1, c2, c3, s. split_and!; try done.
  - eapply issues_numbered; [apply initial_numbered|]. by apply steps_issues; [apply initial_numbered|].
  - by apply (steps_canonical _ _ R); [apply initial_numbered|apply initial_canonical].
  - by apply compacted_graph in Eh as (? & _).
  - cbn. by destruct (c_store c3).
Qed.
End Evidence.

(** ** A small bundle *)

#[local] Instance sample_tables : UnicodeTables := ascii_tables.
Definition sampleAPI : rawAPI :=
  mkRawAPI (mkRawMetadata "2014-11-13" "ecs" "json" "Amazon EC2 Container Service" "ECS" "ecs" "AmazonEC2ContainerService" "ecs-2014-11-13" "1.1" [])
    [("RunTask", mkRawOperation "RunTask" "POST" "/" 200 "RunTaskRequest" "RunTaskResponse")] ["RunTask"]
    [("RunTaskRequest", mkRawShape "structure" ["taskDefinition"] [("taskDefinition", mkRawMember "String" "" None); ("pageToken", mkRawMember "String" "querystring" (Some "token"))]);
     ("String", mkRawShape "string" [] [])] [].
Definition sampleDefinition : rawService :=
  mkRawService "ecs" [mkRawPrivilege "Write" "Runs a task" "RunTask" [mkRawResource ["ecs:cluster"] ["iam:PassRole"] "task-definition*"];
                      mkRawPrivilege "Write" "Runs a task, again" "RunTask" []].
Definition sampleEntry : rawMapping :=
  mkRawMapping "ecs:RunTask" [("taskDefinition", mkRawResourceMapping "${taskDefinition}" (Some (mkRawCondition "${cluster}" "StringNotEquals" "" None)))]
    [("task-definition*", "${taskDefinition}")] None [("ecs:cluster", mkRawResourceMapping "${cluster}" None)] None "" ["taskDefinition"] ["ecs:cluster"].
Definition sampleBundle : bundle :=
  mkBundle true true [("apis/ecs/2014-11-13/api-2.json", sampleAPI)] (Some [sampleDefinition]) (Some "1.0") [("ecs", ["ECS"])] ["ecs.ListTasks"]
    (Some [("ecs.RunTask", [sampleEntry])]).
Definition catalogOr (r : result Catalog) : Catalog := match r with Ok c => c | Err _ => initialCatalog end.
Definition withAPI : Catalog := catalogOr (addAPI initialCatalog "apis/ecs/2014-11-13/api-2.json" sampleAPI).
Definition withStoredAPI : Catalog := catalogOr (compacted withAPI).
Definition withDefinition : Catalog := catalogOr (addDefinition withStoredAPI sampleDefinition).
Definition withBoth : Catalog := catalogOr (addAPI withDefinition "apis/ecs/2014-11-13/api-2.json" sampleAPI).
Definition succeeds {A} (r : result A) : bool := match r with Ok _ => true | Err _ => false end.
Lemma catalogOr_ok r : succeeds r = true -> r = Ok (catalogOr r).
Proof. by destruct r. Qed.
Lemma sample_run : rtc evidence_step initialCatalog withBoth.
Proof.
  eapply rtc_l; [apply (step_api _ "apis/ecs/2014-11-13/api-2.json" sampleAPI withAPI), catalogOr_ok; vm_compute; reflexivity|].
  eapply rtc_l; [apply (step_compacted _ withStoredAPI), catalogOr_ok; vm_compute; reflexivity|].
  eapply rtc_l; [apply (step_definition _ sampleDefinition withDefinition), catalogOr_ok; vm_compute; reflexivity|].
  eapply rtc_l; [apply (step_api _ "apis/ecs/2014-11-13/api-2.json" sampleAPI withBoth), catalogOr_ok; vm_compute; reflexivity|].
  apply rtc_refl.
Qed.
Lemma identities_issued_once_witness : graph_ids withBoth = [6; 2; 3; 4; 5] /\ well_numbered withBoth /\
  (forall id, id ∈ graph_ids withBoth -> id ∈ graph_ids initialCatalog \/ nextEvidenceID initialCatalog < id).
Proof.
  split; [vm_compute; reflexivity|]. destruct (identities_issued_once _ _ sample_run initial_numbered) as (W & _ & H). by split.
Defined.
Lemma duplicates_contradict_witness : copies withDefinition (actionKey "ecs" "RunTask") = 2%nat /\ duplicates_settled withDefinition /\
  (def_State <$> graph_definitions withDefinition) = [EvidenceContradictory; EvidenceContradictory].
Proof.
  split; [vm_compute; reflexivity|]. split; [|vm_compute; reflexivity].
  apply (duplicates_contradict withStoredAPI sampleDefinition withDefinition); [apply catalogOr_ok; vm_compute; reflexivity|].
  assert (Hb : c_buildActions withStoredAPI = ∅) by (vm_compute; reflexivity).
  assert (Hs : actionIndex <$> c_store withStoredAPI = Some ∅) by (vm_compute; reflexivity).
  intros k Hk. exfalso. revert Hk. unfold copies, lookupAll. rewrite Hb, lookup_empty. destruct (c_store withStoredAPI) as [s|]; [|done].
  injection Hs as Hs. rewrite Hs, lookup_empty. cbn. lia.
Defined.
Definition fitting (s : compactStore) : bool :=
  forallb (fun n => n <? 2 ^ 32) [lengthZ (refs s); lengthZ (queryRecords s); lengthZ (resources s); lengthZ (mappingResources s);
    lengthZ (dependents s); lengthZ (mapPairs s)].
Lemma fitting_fits s : fitting s = true -> fits s.
Proof. unfold fitting, fits, short. cbn [forallb]. lia. Qed.
Definition movesFitting (c : Catalog) : bool :=
  match compactEvidence c with Ok c' => match c_store c' with Some s => fitting s | None => false end | Err _ => false end.
Lemma evidence_read_back_witness : exists c' s', compactEvidence withBoth = Ok c' /\ c_store c' = Some s' /\
  appended operationView (operations (before withBoth)) (operations s') (concat (CatalogTypes.CatalogTypes.Operations <$> c_services withBoth)) s' /\
  appended actionView [] (actions s') (graph_definitions withBoth) s' /\ List.length (graph_definitions withBoth) = 2%nat.
Proof.
  assert (H : movesFitting withBoth = true) by (vm_compute; reflexivity). unfold movesFitting in H.
  destruct (compactEvidence withBoth) as [c'|] eqn:E; [|discriminate H]. destruct (c_store c') as [s'|] eqn:Es; [|discriminate H].
  exists c', s'. destruct (evidence_read_back withBoth c' s' sample_run E Es (fitting_fits s' H)) as (Ho & _ & Ha & _).
  split; [reflexivity|]. split; [exact Es|]. split; [exact Ho|]. split; [exact Ha|vm_compute; reflexivity].
Defined.
Lemma load_runs_in_steps_witness : complete sampleBundle /\
  exists c1 c2 c3 s, rtc evidence_step initialCatalog c1 /\ well_numbered c1 /\ canonical c1 /\ graph_ids c1 = [] /\
    attachCompactMappings c1 = Ok c2 /\ compactEvidence (withMappings c2 (c_mappingStore c2) (c_mappingIndex c2) (c_mappingOrder c2) [] (nextEvidenceID c2)) = Ok c3 /\
    compileCompactPlans (c_store c3) = Ok s /\ c_store (catalogOr (parse sampleBundle)) = Some s.
Proof.
  apply (load_runs_in_steps sampleBundle (catalogOr (parse sampleBundle))); [apply catalogOr_ok; vm_compute; reflexivity|].
  constructor; [|constructor]. constructor; [|constructor]. split; repeat constructor; by intros ?%elem_of_nil.
Defined.
End CatalogEvidence.
