(* ===== verification/Files.v ===== *)
(** * Private files (the Go package os, as internal/runtime and internal/pki use it)

    A file system is the finite map of its entries by cleaned absolute path, with
    an oracle for the operations that fail and one for how far a failing
    [RemoveAll] has come.  Symbolic links are entries; an operation that would
    follow one at its last component fails here unless the code looks at the entry
    first, as it does.  Nothing else changes the files meanwhile. *)

From Stdlib Require Import ZArith Lia Ascii.
From stdpp Require Import base gmap strings list.
From S2P Require Import Prelude GoStrings GoPath.

Module Files.
Import GoPath.GoPath.

(** ** Entries *)

(** [KSymlink true] leads to a directory. *)
Inductive kind := KDir | KFile | KSymlink (toDir : bool) | KOther.
#[export] Instance kind_eq_dec : EqDecision kind.
Proof. solve_decision. Defined.
Record Entry := mkEntry { e_kind : kind; e_perm : Z; e_modTime : Z; e_data : string }.
#[export] Instance Entry_eq_dec : EqDecision Entry.
Proof. solve_decision. Defined.
Record FS := mkFS { entries : gmap string Entry; ticks : nat }.
Inductive ioError := ErrNotExist | ErrIO.
#[export] Instance ioError_eq_dec : EqDecision ioError.
Proof. solve_decision. Defined.
Definition IsDir (e : Entry) : bool := bool_decide (e_kind e = KDir).
Definition isSymlink (e : Entry) : bool := match e_kind e with KSymlink _ => true | _ => false end.
Lemma IsDir_kind e : IsDir e = true -> e_kind e = KDir.
Proof. unfold IsDir. by intros ?%bool_decide_eq_true. Qed.
(** What [os.Stat] would call a directory. *)
Definition leadsToDir (e : Entry) : bool := match e_kind e with KDir | KSymlink true => true | _ => false end.

(** A path and what is below it. *)
Definition inside (top path : string) : bool := (path =? top)%string || HasPrefix path (top ++ "/").
Fixpoint prefixes (base : string) (parts : list string) : list string :=
  match parts with
  | [] => []
  | part :: parts => let path := (base ++ "/" ++ part)%string in path :: prefixes path parts
  end.
(** The directories from the root down to a path. *)
Definition chain (path : string) : list string := prefixes EmptyString (Split (str_drop 1 path) "/").

(** ** Operations *)

Section Ops.
Context (fails : nat -> bool) (removed : nat -> string -> bool) (umask now : Z).

Definition tick (f : FS) : FS := mkFS (entries f) (S (ticks f)).
Definition update (g : gmap string Entry -> gmap string Entry) (f : FS) : FS := mkFS (g (entries f)) (S (ticks f)).
Definition masked (perm : Z) : Z := Z.ldiff perm umask.

Definition Lstat (path : string) (f : FS) : ioError + Entry :=
  if fails (ticks f) then inl ErrIO else match entries f !! path with Some e => inr e | None => inl ErrNotExist end.
Definition Mkdir (path : string) (perm : Z) (f : FS) : bool * FS :=
  if fails (ticks f) then (false, tick f)
  else match entries f !! path, entries f !! Dir path with
  | None, Some parent =>
    if leadsToDir parent then (true, update <[path := mkEntry KDir (masked perm) now EmptyString]> f) else (false, tick f)
  | _, _ => (false, tick f)
  end.
Fixpoint makeChain (perm : Z) (paths : list string) (f : FS) : bool * FS :=
  match paths with
  | [] => (true, f)
  | path :: paths =>
    match entries f !! path with
    | Some e => if leadsToDir e then makeChain perm paths f else (false, tick f)
    | None =>
      if fails (ticks f) then (false, tick f)
      else makeChain perm paths (update <[path := mkEntry KDir (masked perm) now EmptyString]> f)
    end
  end.
Definition MkdirAll (path : string) (perm : Z) (f : FS) : bool * FS := makeChain perm (chain path) f.
Definition withPerm (perm : Z) (e : Entry) : Entry := mkEntry (e_kind e) perm (e_modTime e) (e_data e).
Definition Chmod (path : string) (perm : Z) (f : FS) : bool * FS :=
  if fails (ticks f) then (false, tick f)
  else match entries f !! path with
  | Some e => if isSymlink e then (false, tick f) else (true, update (alter (withPerm perm) path) f)
  | None => (false, tick f)
  end.
Definition hasChild (path : string) (m : gmap string Entry) : bool :=
  existsb (fun kv => negb (kv.1 =? path)%string && inside path kv.1) (map_to_list m).
(** [os.Remove]: [Some ErrNotExist] when there was nothing. *)
Definition Remove (path : string) (f : FS) : option ioError * FS :=
  if fails (ticks f) then (Some ErrIO, tick f)
  else match entries f !! path with
  | None => (Some ErrNotExist, tick f)
  | Some e => if IsDir e && hasChild path (entries f) then (Some ErrIO, tick f) else (None, update (delete path) f)
  end.
(** [os.RemoveAll]: when it fails, some of what is inside may be gone. *)
Definition RemoveAll (path : string) (f : FS) : bool * FS :=
  if fails (ticks f)
  then (false, update (filter (fun kv => inside path kv.1 && removed (ticks f) kv.1 = false)) f)
  else (true, update (filter (fun kv => inside path kv.1 = false)) f).
(** The names directly below a directory, sorted. *)
Definition childName (root path : string) : option string :=
  if HasPrefix path (root ++ "/")
  then let name := str_drop (S (String.length root)) path in
       if (name =? "")%string || Contains name "/" then None else Some name
  else None.
Definition ReadDir (root : string) (f : FS) : option (list string) :=
  if fails (ticks f) then None else Some (sort_strings (omap (fun kv => childName root kv.1) (map_to_list (entries f)))).
(** [os.OpenFile] with [O_WRONLY|O_CREATE|O_EXCL]. *)
Definition CreateExclusive (path : string) (perm : Z) (f : FS) : bool * FS :=
  if fails (ticks f) then (false, tick f)
  else match entries f !! path, entries f !! Dir path with
  | None, Some parent =>
    if leadsToDir parent then (true, update <[path := mkEntry KFile (masked perm) now EmptyString]> f) else (false, tick f)
  | _, _ => (false, tick f)
  end.
Definition withData (data : string) (e : Entry) : Entry := mkEntry (e_kind e) (e_perm e) now (e_data e ++ data)%string.
(** A write that fails may have written a part. *)
Context (written : nat -> nat).
Definition FileWrite (path data : string) (f : FS) : bool * FS :=
  if fails (ticks f) then (false, update (alter (withData (str_take (written (ticks f)) data)) path) f)
  else (true, update (alter (withData data) path) f).
(** [Sync] and [Close] of an open file. *)
Definition Attempt (f : FS) : bool * FS := (negb (fails (ticks f)), tick f).

(** ** What operations leave alone *)

(** Only the paths that satisfy [P] may differ. *)
Definition confined (P : string -> Prop) (f f' : FS) : Prop := forall path, ~ P path -> entries f' !! path = entries f !! path.
Lemma confined_refl P f : confined P f f.
Proof. done. Qed.
Lemma confined_trans P f1 f2 f3 : confined P f1 f2 -> confined P f2 f3 -> confined P f1 f3.
Proof. intros H1 H2 path Hp. by rewrite (H2 path Hp), (H1 path Hp). Qed.
Lemma confined_weaken (P Q : string -> Prop) f f' : (forall path, P path -> Q path) -> confined P f f' -> confined Q f f'.
Proof. intros H C path Hq. apply C. auto. Qed.
Lemma confined_tick P f : confined P f (tick f).
Proof. done. Qed.
Lemma confined_insert (P : string -> Prop) path e f : P path -> confined P f (update <[path := e]> f).
Proof. intros H p Hp. cbn. apply lookup_insert_ne. by intros ->. Qed.
Lemma confined_alter (P : string -> Prop) g path f : P path -> confined P f (update (alter g path) f).
Proof. intros H p Hp. cbn. apply lookup_alter_ne. by intros ->. Qed.
Lemma confined_delete (P : string -> Prop) path f : P path -> confined P f (update (delete path) f).
Proof. intros H p Hp. cbn. apply lookup_delete_ne. by intros ->. Qed.
Lemma confined_filter (P : string -> Prop) (drop : string -> bool) f : (forall path, drop path = true -> P path) ->
  confined P f (update (filter (fun kv => drop kv.1 = false)) f).
Proof.
  intros H p Hp. cbn. apply option_eq. intros e. rewrite map_lookup_filter_Some. cbn. split; [by intros []|]. intros E. split; [done|].
  destruct (drop p) eqn:Ek; [|done]. by specialize (H p Ek).
Qed.
Lemma confined_RemoveAll (P : string -> Prop) path f : (forall p, inside path p = true -> P p) -> confined P f (RemoveAll path f).2.
Proof.
  intros H. unfold RemoveAll. destruct (fails _); cbn [snd].
  - apply (confined_filter P (fun p => inside path p && removed (ticks f) p)). intros p [Hi _]%andb_true_iff. by apply H.
  - by apply (confined_filter P (inside path)).
Qed.
Lemma confined_Chmod (P : string -> Prop) path perm f : P path -> confined P f (Chmod path perm f).2.
Proof.
  intros H. unfold Chmod. destruct (fails _); [done|]. destruct (entries f !! path) as [e|]; [|done].
  destruct (isSymlink e); [done|]. by apply confined_alter.
Qed.
Lemma confined_Mkdir (P : string -> Prop) path perm f : P path -> confined P f (Mkdir path perm f).2.
Proof.
  intros H. unfold Mkdir. destruct (fails _); [done|]. destruct (entries f !! path) as [old|], (entries f !! Dir path) as [e|]; try done.
  destruct (leadsToDir e); [|done]. by apply confined_insert.
Qed.
Lemma confined_Remove (P : string -> Prop) path f : P path -> confined P f (Remove path f).2.
Proof.
  intros H. unfold Remove. destruct (fails _); [done|]. destruct (entries f !! path) as [e|]; [|done].
  destruct (IsDir e && _); [done|]. by apply confined_delete.
Qed.
Lemma confined_Create (P : string -> Prop) path perm f : P path -> confined P f (CreateExclusive path perm f).2.
Proof.
  intros H. unfold CreateExclusive. destruct (fails _); [done|]. destruct (entries f !! path) as [old|], (entries f !! Dir path) as [e|]; try done.
  destruct (leadsToDir e); [|done]. by apply confined_insert.
Qed.
Lemma confined_Write (P : string -> Prop) path data f : P path -> confined P f (FileWrite path data f).2.
Proof. intros H. unfold FileWrite. destruct (fails _); by apply confined_alter. Qed.
Lemma Remove_shrinks path f : entries (Remove path f).2 ⊆ entries f.
Proof.
  unfold Remove. destruct (fails _); [done|]. destruct (entries f !! path); [|done]. destruct (_ && _); [done|]. apply delete_subseteq.
Qed.
Lemma Remove_gone path f err f' : Remove path f = (err, f') -> err <> Some ErrIO -> entries f' !! path = None.
Proof.
  unfold Remove. destruct (fails _); [by intros [= <- <-] []|]. destruct (entries f !! path) eqn:E.
  - destruct (_ && _); [by intros [= <- <-] []|]. intros [= <- <-] _. apply lookup_delete_eq.
  - by intros [= <- <-] _.
Qed.
Lemma shrinks_none f f' path : entries f' ⊆ entries f -> entries f !! path = None -> entries f' !! path = None.
Proof. intros H E. by eapply lookup_weaken_None. Qed.
(** [MkdirAll] only touches the directories down to its path. *)
Lemma confined_makeChain (P : string -> Prop) perm l f : (forall p, p ∈ l -> P p) -> confined P f (makeChain perm l f).2.
Proof.
  intros HP. revert f. induction l as [|p l IH]; intros f; cbn [makeChain]; [done|].
  assert (HP' : forall q, q ∈ l -> P q) by (intros q Hq; apply HP; by right). destruct (entries f !! p) as [e|].
  - destruct (leadsToDir e); [|done]. by apply IH.
  - destruct (fails _); [done|]. eapply confined_trans; [|by apply IH]. apply confined_insert, HP. by left.
Qed.
(** Only what was missing is created. *)
Lemma makeChain_absent perm l f :
  confined (fun p => p ∈ l /\ entries f !! p = None) f (makeChain perm l f).2.
Proof.
  revert f. induction l as [|p l IH]; intros f; cbn [makeChain]; [done|].
  destruct (entries f !! p) as [e|] eqn:Ep.
  - destruct (leadsToDir e); [|done]. eapply confined_weaken; [|apply IH]. intros q [H1 H2]. split; [by right|done].
  - destruct (fails _); [done|]. eapply confined_trans.
    + apply (confined_insert (fun q => q ∈ p :: l /\ entries f !! q = None)). split; [by left|done].
    + eapply confined_weaken; [|apply IH]. intros q [H1 H2]. cbn in H2. apply lookup_insert_None in H2 as [H2 _].
      split; [by right|done].
Qed.
Lemma confined_MkdirAll path perm f : confined (fun p => p ∈ chain path) f (MkdirAll path perm f).2.
Proof. by apply confined_makeChain. Qed.
(** Creating directories and changing modes remove nothing. *)
Lemma makeChain_keeps perm l f path : entries (makeChain perm l f).2 !! path = None -> entries f !! path = None.
Proof.
  revert f. induction l as [|p l IH]; intros f; cbn [makeChain]; [done|].
  destruct (entries f !! p) as [e|] eqn:Ep; [destruct (leadsToDir e); [apply IH|done]|].
  destruct (fails _); [done|]. intros H%IH. cbn in H. by apply lookup_insert_None in H as [? _].
Qed.
Lemma Chmod_keeps path' perm f path : entries (Chmod path' perm f).2 !! path = None -> entries f !! path = None.
Proof.
  unfold Chmod. destruct (fails _); [done|]. destruct (entries f !! path') as [e|]; [|done]. destruct (isSymlink e); [done|].
  cbn. by rewrite lookup_alter_None.
Qed.
End Ops.
End Files.
