(* ===== verification/SessionDir.v ===== *)
(** * The session directory (internal/runtime/sessiondir.go)

    The private directory of a run: its creation, the synthetic AWS files, its
    cleanup and the reaping of abandoned runs, over the file system of [Files].
    The home and working directories, the clock and the umask are parameters. *)

From Stdlib Require Import ZArith Lia ZifyBool Ascii.
From stdpp Require Import base gmap strings list.
From S2P Require Import Prelude GoStrings GoPath Files GoTime Credentials ChildEnv.

Module SessionDir.
Import GoPath.GoPath Files.Files.
Abbreviation FakeCredential := Credentials.Credentials.FakeCredential.
Abbreviation AccessKeyID := Credentials.Credentials.AccessKeyID.
Abbreviation SecretAccessKey := Credentials.Credentials.SecretAccessKey.
Abbreviation SessionToken := Credentials.Credentials.SessionToken.
Abbreviation AWSFiles := ChildEnv.ChildEnv.AWSFiles.
Abbreviation mkFiles := ChildEnv.ChildEnv.mkFiles.
Abbreviation CredentialsPath := ChildEnv.ChildEnv.CredentialsPath.
Abbreviation ConfigPath := ChildEnv.ChildEnv.ConfigPath.

Definition defaultStaleRuntimeAge : Z := 24 * GoTime.GoTime.Hour.
Definition runDirectoryPrefix : string := "run-".
Record SessionDir := mkSession { Path : string; RunID : string; root : string }.

(** [runIDPattern]. *)
Definition runIDByte (b : Z) : bool := is_alnum b || in_set "._-" b.
Definition validRunID (s : string) : bool :=
  match s with
  | EmptyString => false
  | String c rest => is_alnum (ord c) && bytes_all runIDByte rest && (String.length rest <=? 127)%nat
  end.
Definition safeINIValue (value : string) : bool :=
  negb (value =? "")%string && negb (ContainsAny value (String (chr 0) (String (chr 13) (String (chr 10) EmptyString)))).

Definition privateMode (e : Entry) : bool := Z.land (e_perm e) 63 =? 0. (* 0o077 *)
Definition verifyPrivateInfo (info : Entry) : option error :=
  if isSymlink info || negb (IsDir info) then Some (ErrNew "path is not a private directory")
  else if negb (privateMode info) then Some (ErrNew "directory is accessible by group or other users")
  else None.
Definition ownedRunPath (s : SessionDir) : bool :=
  if (root s =? "")%string || (Path s =? "")%string || (RunID s =? "")%string then false
  else
    let path := Clean (Path s) in
    let root := Clean (root s) in
    IsAbs path && IsAbs root && (Dir path =? root)%string && (Base path =? (runDirectoryPrefix ++ RunID s))%string.

Section Runtime.
Context `{U : UnicodeTables}.
Context (fails : nat -> bool) (removed : nat -> string -> bool) (written : nat -> nat) (umask now : Z).
Context (home cwd : option string).

Definition Abs (path : string) : option string :=
  if IsAbs path then Some (Clean path) else (fun wd => FilepathJoin [wd; path]) <$> cwd.
Definition DefaultRuntimeRoot : result string :=
  match home with None => Err (ErrNew "resolve Kordn home") | Some home => Ok (FilepathJoin [home; ".kordn"; "runs"]) end.
Definition resolveRoot (root : string) : result string :=
  root ← (if (TrimSpace root =? "")%string then DefaultRuntimeRoot else Ok root);
  match Abs (Clean root) with None => Err (ErrNew "resolve runtime root") | Some root => Ok root end.

(** An [Lstat] and the check of what it finds. *)
Inductive checked := Private | Absent | Refused (e : error).
Definition verifyPrivateDirectory (path : string) (f : FS) : checked :=
  match Lstat fails path f with
  | inl ErrNotExist => Absent
  | inl ErrIO => Refused (ErrNew "lstat")
  | inr info => match verifyPrivateInfo info with Some e => Refused e | None => Private end
  end.
Definition isPrivate (c : checked) : bool := match c with Private => true | _ => false end.

Definition ensurePrivateDirectory (path : string) (f : FS) : option error * FS :=
  let again f := match verifyPrivateDirectory path f with
                 | Private => (None, tick f)
                 | Absent => (Some (ErrNew "file does not exist"), tick f)
                 | Refused e => (Some e, tick f)
                 end in
  match Lstat fails path f with
  | inl ErrNotExist =>
    let (made, f) := MkdirAll fails umask now path 448 (tick f) in
    if made then again f else (Some (ErrNew "mkdir"), f)
  | inl ErrIO => (Some (ErrNew "lstat"), tick f)
  | inr info =>
    match verifyPrivateInfo info with
    | None => (None, tick f)
    | Some e =>
      if isSymlink info || negb (IsDir info) then (Some e, tick f)
      else
        let (changed, f) := Chmod fails path 448 (tick f) in
        if changed then again f else (Some e, f)
    end
  end.

(** One entry of the runtime root. *)
Definition reap (root : string) (cutoff : Z) (name : string) (f : FS) : bool * FS :=
  if negb (HasPrefix name runDirectoryPrefix) then (true, f)
  else
    let path := FilepathJoin [root; name] in
    match Lstat fails path f with
    | inl _ => (true, tick f)
    | inr info =>
      if isSymlink info || negb (IsDir info) then (true, tick f)
      else if e_modTime info <? cutoff then RemoveAll fails removed path (tick f) else (true, tick f)
    end.
Fixpoint reapAll (root : string) (cutoff : Z) (names : list string) (f : FS) : option error * FS :=
  match names with
  | [] => (None, f)
  | name :: names =>
    let (ok, f) := reap root cutoff name f in
    if ok then reapAll root cutoff names f else (Some (ErrNew "remove stale runtime"), f)
  end.
Definition cleanupStaleAt (root : string) (olderThan : Z) (f : FS) : option error * FS :=
  match resolveRoot root with
  | Err e => (Some e, f)
  | Ok root =>
    match verifyPrivateDirectory root f with
    | Absent => (None, tick f)
    | Refused _ => (Some (ErrNew "runtime root is unavailable"), tick f)
    | Private =>
      let f := tick f in
      match ReadDir fails root f with
      | None => (Some (ErrNew "list runtime root"), tick f)
      | Some names => reapAll root (now - olderThan) names (tick f)
      end
    end
  end.
Definition CleanupStale (root : string) (olderThan : Z) (f : FS) : option error * FS :=
  if olderThan <? GoTime.GoTime.Hour then (Some (ErrNew "stale runtime age is too short"), f)
  else cleanupStaleAt root olderThan f.
Definition CleanupStaleRuntime (root : string) (f : FS) : option error * FS := CleanupStale root defaultStaleRuntimeAge f.

Definition NewSessionDir (root runID : string) (f : FS) : result SessionDir * FS :=
  match resolveRoot root with
  | Err e => (Err e, f)
  | Ok root =>
    let (err, f) := ensurePrivateDirectory root f in
    match err with
    | Some e => (Err (ErrWrap "runtime root: %w" [] e), f)
    | None =>
      if negb (validRunID runID) || ContainsAny runID (String "/" (String "\" (String (chr 0) EmptyString)))
      then (Err (ErrNew "invalid run identity"), f)
      else
        let (err, f) := cleanupStaleAt root defaultStaleRuntimeAge f in
        match err with
        | Some _ => (Err (ErrNew "clean up abandoned runtime state"), f)
        | None =>
          let path := FilepathJoin [root; (runDirectoryPrefix ++ runID)%string] in
          if negb (Dir path =? root)%string then (Err (ErrNew "runtime path escapes root"), f)
          else
            let (made, f) := Mkdir fails umask now path 448 f in
            if negb made then (Err (ErrNew "create private run directory"), f)
            else
              let (changed, f) := Chmod fails path 448 f in
              if negb changed then
                let (_, f) := Remove fails path f in (Err (ErrNew "set private run directory mode"), f)
              else (Ok (mkSession path runID root), f)
        end
    end
  end.

(** ** The synthetic files *)

(** The deferred part of [writePrivateFile]: the file is closed, and removed when
    something has failed. *)
Definition finishFile (path : string) (ok : bool) (f : FS) : bool * FS :=
  let (closed, f) := Attempt fails f in
  if ok && closed then (true, f) else let (_, f) := Remove fails path f in (false, f).
Definition writePrivateFile (path data : string) (f : FS) : bool * FS :=
  let (opened, f) := CreateExclusive fails umask now path 384 f in
  if negb opened then (false, f)
  else
    let (changed, f) := Chmod fails path 384 f in
    if negb changed then finishFile path false f
    else
      let (wrote, f) := FileWrite fails now written path data f in
      if negb wrote then finishFile path false f
      else let (synced, f) := Attempt fails f in finishFile path synced f.

Definition newline : string := String (chr 10) EmptyString.
Definition iniLine (key value : string) : string := (key ++ " = " ++ value ++ newline)%string.
Definition credentialData (fake : FakeCredential) : string :=
  ("[kordn]" ++ newline ++ iniLine "aws_access_key_id" (AccessKeyID fake) ++
   iniLine "aws_secret_access_key" (SecretAccessKey fake) ++ iniLine "aws_session_token" (SessionToken fake))%string.
Definition configData (region caPath : string) : string :=
  ("[profile kordn]" ++ newline ++ iniLine "region" region ++ iniLine "ca_bundle" caPath)%string.
Definition WriteSyntheticAWSFiles (s : option SessionDir) (fake : FakeCredential) (region caPath : string) (f : FS) : result AWSFiles * FS :=
  match s with
  | None => (Err (ErrNew "session directory is not initialized"), f)
  | Some s =>
    if (Path s =? "")%string || (RunID s =? "")%string || (root s =? "")%string
    then (Err (ErrNew "session directory is not initialized"), f)
    else if negb (isPrivate (verifyPrivateDirectory (root s) f)) || negb (ownedRunPath s)
    then (Err (ErrNew "private runtime root is unavailable"), tick f)
    else
      let f := tick f in
      if negb (isPrivate (verifyPrivateDirectory (Path s) f))
      then (Err (ErrNew "private run directory is unavailable"), tick f)
      else
        let f := tick f in
        if negb (safeINIValue (AccessKeyID fake)) || negb (safeINIValue (SecretAccessKey fake)) || negb (safeINIValue (SessionToken fake))
        then (Err (ErrNew "fake credential is incomplete"), f)
        else if negb (safeINIValue region) || negb (safeINIValue caPath) || (TrimSpace region =? "")%string || (TrimSpace caPath =? "")%string
        then (Err (ErrNew "synthetic AWS settings are incomplete"), f)
        else
          let files := mkFiles (FilepathJoin [Path s; "credentials"]) (FilepathJoin [Path s; "config"]) caPath in
          let (wrote, f) := writePrivateFile (CredentialsPath files) (credentialData fake) f in
          if negb wrote then (Err (ErrNew "write synthetic credentials"), f)
          else
            let (wrote, f) := writePrivateFile (ConfigPath files) (configData region caPath) f in
            if negb wrote then
              let (_, f) := Remove fails (CredentialsPath files) f in (Err (ErrNew "write synthetic AWS config"), f)
            else (Ok files, f)
  end.

Definition Cleanup (s : option SessionDir) (f : FS) : option error * FS :=
  match s with
  | None => (None, f)
  | Some s =>
    if (Path s =? "")%string then (None, f)
    else if (root s =? "")%string || negb (ownedRunPath s)
    then (Some (ErrNew "refusing runtime cleanup without a private root"), f)
    else if negb (isPrivate (verifyPrivateDirectory (root s) f))
    then (Some (ErrNew "runtime root is unavailable"), tick f)
    else
      let f := tick f in
      match Lstat fails (Path s) f with
      | inl ErrNotExist => (None, tick f)
      | inl ErrIO => (Some (ErrNew "inspect run directory for cleanup"), tick f)
      | inr info =>
        if isSymlink info || negb (IsDir info) then (Some (ErrNew "run directory is not a directory"), tick f)
        else
          let (ok, f) := RemoveAll fails removed (Path s) (tick f) in
          if ok then (None, f) else (Some (ErrNew "remove run directory"), f)
      end
  end.

(** ** The files of a run *)

(** A file as it was written: its mode is private and its contents are the data. *)
Definition holds (path data : string) (f : FS) : Prop :=
  exists e, entries f !! path = Some e /\ e_kind e = KFile /\ e_perm e = 384 /\ e_data e = data.
Lemma entries_Attempt f : entries (Attempt fails f).2 = entries f.
Proof. done. Qed.
Lemma finishFile_spec path ok f f' : finishFile path ok f = (true, f') -> ok = true /\ entries f' = entries f.
Proof.
  unfold finishFile. destruct (Attempt fails f) as [closed g] eqn:E. pose proof (entries_Attempt f) as Ee. rewrite E in Ee. cbn in Ee.
  destruct (ok && closed) eqn:Eo; [|by destruct (Remove _ _ _)]. apply andb_true_iff in Eo as [-> _]. by intros [= <-].
Qed.
Lemma writePrivateFile_spec path data f f' : writePrivateFile path data f = (true, f') ->
  entries f !! path = None /\ holds path data f' /\ confined (fun p => p = path) f f'.
Proof.
  unfold writePrivateFile. destruct (CreateExclusive _ _ _ _ _ _) as [opened f1] eqn:E1. destruct opened; [|done]. cbn [negb].
  unfold CreateExclusive in E1. destruct (fails _); [done|]. destruct (entries f !! path) eqn:Eold; [done|].
  destruct (entries f !! Dir path) as [parent|]; [|done]. destruct (leadsToDir parent); [|done]. injection E1 as <-.
  destruct (Chmod _ _ _ _) as [changed f2] eqn:E2. destruct changed; cbn [negb];
    [|by destruct (finishFile _ _ _) as [b g] eqn:Ef; intros [= -> ->]; destruct (finishFile_spec _ _ _ _ Ef)].
  unfold Chmod in E2. destruct (fails _); [done|]. cbn [entries update] in E2. rewrite lookup_insert_eq in E2. cbn [isSymlink e_kind] in E2. injection E2 as <-.
  destruct (FileWrite _ _ _ _ _ _) as [wrote f3] eqn:E3. destruct wrote; cbn [negb];
    [|by destruct (finishFile _ _ _) as [b g] eqn:Ef; intros [= -> ->]; destruct (finishFile_spec _ _ _ _ Ef)].
  unfold FileWrite in E3. destruct (fails _); [done|]. injection E3 as <-.
  destruct (Attempt _ _) as [synced f4] eqn:E4. intros Ef. destruct (finishFile_spec _ _ _ _ Ef) as [-> Ee].
  assert (Ee' : entries f' = alter (withData now data) path (alter (withPerm 384) path (<[path := mkEntry KFile (masked umask 384) now EmptyString]> (entries f)))).
  { rewrite Ee. unfold Attempt in E4. by injection E4 as _ <-. }
  split; [done|]. split.
  - exists (mkEntry KFile 384 now data). rewrite Ee', !lookup_alter_eq, lookup_insert_eq. done.
  - intros p Hp. rewrite Ee', !lookup_alter_ne, lookup_insert_ne by (by intros ->). done.
Qed.

(** ** What a run may remove *)

Lemma cleanStack_app rooted xs ys st : cleanStack rooted (xs ++ ys) st = cleanStack rooted ys (cleanStack rooted xs st).
Proof. revert st. induction xs as [|x xs IH]; intros st; [done|]. cbn [app cleanStack]. by rewrite IH. Qed.
Lemma stack_rendered rooted l : clean_stack rooted l -> cleanStack rooted (Split (render rooted l) "/") [] = l.
Proof.
  intros H. unfold render. destruct rooted.
  - unfold Split. rewrite split_byte_cons_sep by done. cbn [cleanStack]. change (("" =? "")%string || _) with true. cbv iota.
    destruct l as [|c l]; [done|]. change (split_byte (ord "/") ?x) with (Split x "/"). rewrite (Split_rendered true) by done.
    rewrite <-(app_nil_r (rev (c :: l))). by apply (cleanStack_render true (c :: l) 0).
  - destruct (decide (l = [])) as [->|Hl]; [done|]. rewrite bool_decide_eq_false_2 by done. rewrite (Split_rendered false) by done.
    rewrite <-(app_nil_r (rev l)). by apply (cleanStack_render false l 0).
Qed.
Lemma render_prefix rooted l t : clean_stack rooted l -> HasPrefix (render rooted l ++ t) "/" = rooted.
Proof.
  intros H. unfold render. destruct rooted; [apply abs_prefix|]. destruct (decide (l = [])) as [->|Hl]; [done|].
  rewrite bool_decide_eq_false_2 by done. pose proof (rendered_relative false l H Hl) as Hr.
  destruct (Join (rev l) "/") as [|a x] eqn:E; [by apply (rendered_nonempty false) in Hl|].
  change (String a x ++ t)%string with (String a (x ++ t)). destruct (HasPrefix (String a (x ++ t)) "/") eqn:Ep; [|done].
  apply HasPrefix_app in Ep as (t' & Et). change ("/" ++ t')%string with (String "/" t') in Et. injection Et as -> _. by rewrite abs_prefix in Hr.
Qed.
Lemma render_nonempty rooted l : clean_stack rooted l -> render rooted l <> EmptyString.
Proof. intros H. unfold render. destruct rooted; [done|]. destruct (bool_decide_reflect (l = [])); [done|]. by apply (rendered_nonempty false). Qed.
(** A name joined to a cleaned directory is a child of it. *)
Definition plainName (name : string) : Prop := component name /\ name <> "..".
Lemma join_child rooted l name : clean_stack rooted l -> plainName name -> FilepathJoin [render rooted l; name] = render rooted (name :: l).
Proof.
  intros Hl [Hc Hne]. pose proof Hc as (Hn0 & Hn1 & Hn2). pose proof (render_nonempty rooted l Hl) as Hr.
  unfold FilepathJoin. cbn [List.filter]. rewrite (proj2 (eqb_false_str _ _) Hr), (proj2 (eqb_false_str _ _) Hn0). cbn [negb].
  change (Join [render rooted l; name] "/") with (render rooted l ++ String "/" name)%string.
  unfold Clean. rewrite render_prefix by done. unfold Split. rewrite split_byte_app. change (split_byte (ord "/") ?x) with (Split x "/").
  rewrite cleanStack_app, stack_rendered by done. unfold Split. rewrite split_byte_plain by done. cbn [cleanStack].
  rewrite (proj2 (eqb_false_str _ _) Hn0), (proj2 (eqb_false_str _ _) Hn1), (proj2 (eqb_false_str _ _) Hne). cbn [orb]. unfold render.
  destruct rooted; [done|]. rewrite bool_decide_eq_false_2 by done.
  rewrite (proj2 (eqb_false_str _ _)); [done|]. apply (rendered_nonempty false); [|done]. by constructor.
Qed.
Lemma Dir_child rooted l name : clean_stack rooted l -> plainName name -> Dir (FilepathJoin [render rooted l; name]) = render rooted l.
Proof. intros Hl Hn. rewrite join_child by done. apply Dir_render. destruct Hn as [Hc Hne]. by constructor. Qed.
Lemma resolveRoot_clean r root : resolveRoot r = Ok root -> exists rooted l, root = render rooted l /\ clean_stack rooted l.
Proof.
  unfold resolveRoot. intros (r' & _ & E)%result_bind_ok. unfold Abs in E. destruct (IsAbs (Clean r')).
  - injection E as <-. apply Clean_rendered.
  - destruct cwd as [wd|]; [|done]. injection E as <-. unfold FilepathJoin. cbn [List.filter].
    destruct (Clean_rendered r') as (rooted & l & Er & Hl). rewrite Er, (proj2 (eqb_false_str _ _) (render_nonempty _ _ Hl)). cbn [negb].
    destruct (negb _); apply Clean_rendered.
Qed.

(** A run directory that is to be reaped: a directory below the root whose name has
    the prefix and that is older than the cutoff. *)
Definition abandoned (root : string) (cutoff : Z) (f : FS) (top : string) : Prop :=
  exists name e, top = FilepathJoin [root; name] /\ HasPrefix name runDirectoryPrefix = true /\ count_byte name (ord "/") = 0 /\
    entries f !! top = Some e /\ e_kind e = KDir /\ e_modTime e < cutoff.
Definition reaped (root : string) (cutoff : Z) (f0 f f' : FS) : Prop :=
  entries f' ⊆ entries f /\ forall p, entries f' !! p <> entries f !! p -> exists top, abandoned root cutoff f0 top /\ inside top p = true.
Lemma reaped_refl root cutoff f0 f : reaped root cutoff f0 f f.
Proof. by split. Qed.
Lemma reaped_tick root cutoff f0 f : reaped root cutoff f0 f (tick f).
Proof. by split. Qed.
Lemma reap_spec root cutoff f0 name f b f' : count_byte name (ord "/") = 0 -> entries f ⊆ entries f0 -> reap root cutoff name f = (b, f') -> reaped root cutoff f0 f f'.
Proof.
  intros Hn Hsub. unfold reap. destruct (HasPrefix name _) eqn:Ep; cbn [negb]; [|intros [= _ <-]; apply reaped_refl].
  destruct (Lstat _ _ _) as [err|info] eqn:El; [intros [= _ <-]; apply reaped_tick|].
  destruct (isSymlink info || negb (IsDir info)) eqn:Ek; [intros [= _ <-]; apply reaped_tick|].
  destruct (e_modTime info <? cutoff) eqn:Et; [|intros [= _ <-]; apply reaped_tick]. intros E.
  pose proof (confined_RemoveAll fails removed (fun p => inside (FilepathJoin [root; name]) p = true) (FilepathJoin [root; name]) (tick f) (fun _ H => H)) as C.
  rewrite E in C. split.
  - unfold RemoveAll in E. destruct (fails _); injection E as _ <-; apply map_filter_subseteq.
  - intros p Hp. exists (FilepathJoin [root; name]). destruct (inside _ p) eqn:Ei; [|by destruct Hp; apply C; rewrite Ei].
    split; [|done]. exists name, info. unfold Lstat in El. destruct (fails _); [done|]. destruct (entries f !! _) as [e|] eqn:Ee; [|done].
    injection El as ->. apply orb_false_iff in Ek as [_ Ek%negb_false_iff]. unfold IsDir in Ek.
    split_and!; [done|done|done|by eapply lookup_weaken|by apply bool_decide_eq_true in Ek|lia].
Qed.
Lemma reapAll_spec root cutoff f0 names f err f' : Forall (fun name => count_byte name (ord "/") = 0) names -> entries f ⊆ entries f0 ->
  reapAll root cutoff names f = (err, f') -> reaped root cutoff f0 f f'.
Proof.
  intros HF. revert f. induction HF as [|name names Hn HF IH]; intros f Hsub; cbn [reapAll]; [intros [= _ <-]; apply reaped_refl|].
  destruct (reap root cutoff name f) as [ok f1] eqn:E. destruct (reap_spec _ _ _ _ _ _ _ Hn Hsub E) as [S1 D1].
  destruct ok; [|by intros [= _ <-]]. intros E'. destruct (IH f1 ltac:(by etrans) E') as [S2 D2]. split; [by etrans|].
  intros p Hp. destruct (decide (entries f1 !! p = entries f !! p)) as [Eq|Hne]; [|by apply D1]. apply D2. by rewrite Eq.
Qed.
Lemma Contains_count s c : Contains s (String c EmptyString) = false -> count_byte s (ord c) = 0.
Proof.
  induction s as [|a s IH]; [done|]. cbn [Contains count_byte]. intros [Hp Hs]%orb_false_iff. rewrite IH by done.
  destruct (Z.eqb_spec (ord a) (ord c)) as [E|_]; [|done]. apply ord_inj in E as ->. exfalso. revert Hp. unfold HasPrefix. cbn [String.prefix].
  destruct (ascii_dec c c) as [|Hne]; [by destruct s|done].
Qed.
Lemma ReadDir_plain root f names : ReadDir fails root f = Some names -> Forall (fun name => count_byte name (ord "/") = 0) names.
Proof.
  unfold ReadDir. destruct (fails _); [done|]. intros [= <-]. unfold sort_strings. rewrite sort_by_perm. apply Forall_forall.
  intros name (kv & _ & E)%list_elem_of_omap. unfold childName in E. destruct (HasPrefix _ _); [|done].
  destruct (_ || _) eqn:Eo; [done|]. injection E as <-. apply orb_false_iff in Eo as [_ Eo]. by apply Contains_count.
Qed.

Lemma isPrivate_dir path f : isPrivate (verifyPrivateDirectory path f) = true ->
  exists e, entries f !! path = Some e /\ e_kind e = KDir /\ privateMode e = true.
Proof.
  unfold verifyPrivateDirectory, Lstat, verifyPrivateInfo. destruct (fails _); [done|]. destruct (entries f !! path) as [e|]; [|done].
  destruct (_ || _) eqn:E; [done|]. destruct (privateMode e) eqn:Ep; [|done]. intros _. exists e. split_and!; try done. bool_hyps.
  by apply IsDir_kind.
Qed.

(** ** The lines of the synthetic files *)

Fixpoint unlines (l : list string) : string :=
  match l with [] => EmptyString | line :: l => (line ++ String (chr 10) (unlines l))%string end.
Lemma Split_unlines l : Forall (fun line => count_byte line 10 = 0) l -> Split (unlines l) (chr 10) = l ++ [""].
Proof.
  induction 1 as [|line l Hl _ IH]; [done|]. cbn [unlines]. unfold Split in *. by rewrite split_byte_app, IH, split_byte_plain.
Qed.
Lemma safe_line value : safeINIValue value = true -> count_byte value 10 = 0.
Proof.
  unfold safeINIValue, ContainsAny. rewrite bytes_any_all. intros [_ H]%andb_true_iff.
  eapply bytes_all_count; [by rewrite negb_involutive in H|done].
Qed.
Definition credentialLines (fake : FakeCredential) : list string :=
  ["[kordn]"; "aws_access_key_id = " ++ AccessKeyID fake; "aws_secret_access_key = " ++ SecretAccessKey fake;
   "aws_session_token = " ++ SessionToken fake]%string.
Definition configLines (region caPath : string) : list string :=
  ["[profile kordn]"; "region = " ++ region; "ca_bundle = " ++ caPath]%string.
Lemma iniLine_app key value rest : (iniLine key value ++ rest = ((key ++ " = ") ++ value) ++ String (chr 10) rest)%string.
Proof. unfold iniLine. by rewrite (str_app_assoc key), !str_app_assoc. Qed.
Lemma credentialData_unlines fake : credentialData fake = unlines (credentialLines fake).
Proof.
  unfold credentialData. rewrite !iniLine_app.
  rewrite <-(str_app_nil_r (iniLine "aws_session_token" _)), iniLine_app. reflexivity.
Qed.
Lemma configData_unlines region caPath : configData region caPath = unlines (configLines region caPath).
Proof.
  unfold configData. rewrite iniLine_app.
  rewrite <-(str_app_nil_r (iniLine "ca_bundle" _)), iniLine_app. reflexivity.
Qed.
Lemma credentialData_lines fake : safeINIValue (AccessKeyID fake) = true -> safeINIValue (SecretAccessKey fake) = true ->
  safeINIValue (SessionToken fake) = true -> Split (credentialData fake) (chr 10) = credentialLines fake ++ [""].
Proof.
  intros H1%safe_line H2%safe_line H3%safe_line. rewrite credentialData_unlines. apply Split_unlines.
  unfold credentialLines. repeat (apply List.Forall_cons; [by rewrite ?count_byte_app, ?H1, ?H2, ?H3|]). constructor.
Qed.
Lemma configData_lines region caPath : safeINIValue region = true -> safeINIValue caPath = true ->
  Split (configData region caPath) (chr 10) = configLines region caPath ++ [""].
Proof.
  intros H1%safe_line H2%safe_line. rewrite configData_unlines. apply Split_unlines.
  unfold configLines. repeat (apply List.Forall_cons; [by rewrite ?count_byte_app, ?H1, ?H2|]). constructor.
Qed.
Lemma confined_finish path ok f : confined (fun p => p = path) f (finishFile path ok f).2.
Proof.
  unfold finishFile. destruct (Attempt fails f) as [closed g] eqn:E. assert (Ee : entries g = entries f) by (by injection E as _ <-).
  destruct (ok && closed); [by intros p _; cbn; rewrite Ee|].
  pose proof (confined_Remove fails (fun p => p = path) path g (reflexivity _)) as C.
  destruct (Remove _ _ _) as [r h]. intros p Hp. cbn in *. by rewrite <-Ee, (C p Hp).
Qed.
Lemma confined_private path data f : confined (fun p => p = path) f (writePrivateFile path data f).2.
Proof.
  unfold writePrivateFile.
  pose proof (confined_Create fails umask now (fun p => p = path) path 384 f (reflexivity _)) as C1.
  destruct (CreateExclusive _ _ _ _ _ _) as [opened f1]. destruct opened; [|done]. cbn [negb].
  pose proof (confined_Chmod fails (fun p => p = path) path 384 f1 (reflexivity _)) as C2.
  destruct (Chmod _ _ _ _) as [changed f2]. destruct changed; cbn [negb];
    [|by eapply confined_trans; [exact C1|]; eapply confined_trans; [exact C2|apply confined_finish]].
  pose proof (confined_Write fails now written (fun p => p = path) path data f2 (reflexivity _)) as C3.
  destruct (FileWrite _ _ _ _ _ _) as [wrote f3].
  do 2 (eapply confined_trans; [eassumption|]). eapply confined_trans; [exact C3|].
  destruct wrote; cbn [negb]; [|apply confined_finish]. destruct (Attempt fails f3) as [synced f4] eqn:E.
  eapply confined_trans; [|apply confined_finish]. intros p _. by injection E as _ <-.
Qed.

(** C38. The reaping of abandoned runs stays where it belongs: whatever fails, and
    however far a failing removal has come, nothing is created or altered, and
    what is gone was inside a directory that stood directly below the private
    runtime root, was no symbolic link, had a name with the run prefix and was
    older than the age asked for. *)
Theorem stale_cleanup_confined (rootText : string) (age : Z) (f : FS) (err : option error) (f' : FS) :
  cleanupStaleAt rootText age f = (err, f') ->
  entries f' ⊆ entries f /\
  forall p, entries f' !! p <> entries f !! p ->
    exists root rootEntry name e, resolveRoot rootText = Ok root /\
      entries f !! root = Some rootEntry /\ e_kind rootEntry = KDir /\ privateMode rootEntry = true /\
      Dir (FilepathJoin [root; name]) = root /\ HasPrefix name runDirectoryPrefix = true /\
      entries f !! FilepathJoin [root; name] = Some e /\ e_kind e = KDir /\ e_modTime e < now - age /\
      inside (FilepathJoin [root; name]) p = true.
Proof.
  unfold cleanupStaleAt. destruct (resolveRoot rootText) as [root|] eqn:Er; [|by intros [= _ <-]].
  unfold verifyPrivateDirectory. destruct (Lstat _ _ _) as [[]|info] eqn:El; [by intros [= _ <-]|by intros [= _ <-]|].
  destruct (verifyPrivateInfo info) as [?|] eqn:Ev; [by intros [= _ <-]|].
  destruct (ReadDir _ _ _) as [names|] eqn:Ed; [|by intros [= _ <-]]. intros E.
  destruct (reapAll_spec root (now - age) f names (tick (tick f)) err f' (ReadDir_plain _ _ _ Ed) (reflexivity _) E) as [Hsub HD].
  split; [done|]. intros p Hp. destruct (HD p Hp) as (top & (name & e & -> & Hpre & Hc & He & Hk & Ht) & Hi).
  exists root, info, name, e. destruct (resolveRoot_clean _ _ Er) as (rooted & l & -> & Hl).
  unfold verifyPrivateInfo in Ev. destruct (isSymlink info || negb (IsDir info)) eqn:Ek; [done|].
  destruct (privateMode info) eqn:Ep; [|done]. apply orb_false_iff in Ek as [_ Ek%negb_false_iff%bool_decide_eq_true].
  unfold Lstat in El. destruct (fails _); [done|]. destruct (entries f !! render rooted l) as [e0|] eqn:Ee; [|done]. injection El as ->.
  split_and!; try done. apply Dir_child; [done|]. apply HasPrefix_app in Hpre as (t & ->). split; [split_and!; [done|done|exact Hc]|done].
Qed.
(** The synthetic files of a run: whatever happens, nothing but the two files
    changes; and when their paths are returned, they lie in the private directory
    of the run, neither existed before, and their modes are 0600 and their lines are
    exactly the section and the settings, so that no value can add a line. *)
Lemma session_files_exact (s : SessionDir) (fake : FakeCredential) (region caPath : string) (f : FS) (r : result AWSFiles) (f' : FS) :
  WriteSyntheticAWSFiles (Some s) fake region caPath f = (r, f') ->
  confined (fun p => p = FilepathJoin [Path s; "credentials"] \/ p = FilepathJoin [Path s; "config"]) f f' /\
  forall files, r = Ok files ->
    files = mkFiles (FilepathJoin [Path s; "credentials"]) (FilepathJoin [Path s; "config"]) caPath /\
    ownedRunPath s = true /\
    (exists e, entries f !! Path s = Some e /\ e_kind e = KDir /\ privateMode e = true) /\
    (exists e, entries f !! root s = Some e /\ e_kind e = KDir /\ privateMode e = true) /\
    entries f !! CredentialsPath files = None /\ entries f !! ConfigPath files = None /\
    (exists data, holds (CredentialsPath files) data f' /\ Split data (chr 10) = credentialLines fake ++ [""]) /\
    (exists data, holds (ConfigPath files) data f' /\ Split data (chr 10) = configLines region caPath ++ [""]).
Proof.
  unfold WriteSyntheticAWSFiles. destruct (_ || _ || _); [by intros [= <- <-]|].
  destruct (negb (isPrivate (verifyPrivateDirectory (root s) f)) || negb (ownedRunPath s)) eqn:E1; [by intros [= <- <-]|].
  apply orb_false_iff in E1 as [E1%negb_false_iff Eo%negb_false_iff].
  destruct (negb (isPrivate (verifyPrivateDirectory (Path s) (tick f)))) eqn:E2; [by intros [= <- <-]|]. apply negb_false_iff in E2.
  destruct (_ || _ || _) eqn:E3; [by intros [= <- <-]|].
  destruct (negb (safeINIValue region) || _ || _ || _) eqn:E4; [by intros [= <- <-]|]. bool_hyps.
  cbn [CredentialsPath ConfigPath ChildEnv.ChildEnv.CredentialsPath ChildEnv.ChildEnv.ConfigPath].
  set (g := tick (tick f)). set (cred := FilepathJoin [Path s; "credentials"]). set (conf := FilepathJoin [Path s; "config"]).
  pose proof (confined_private cred (credentialData fake) g) as C1. destruct (writePrivateFile cred _ g) as [wrote f1] eqn:W1.
  destruct wrote; cbn [negb];
    [|intros [= <- <-]; split; [|done]; eapply confined_weaken; [|exact C1]; naive_solver].
  pose proof (confined_private conf (configData region caPath) f1) as C2. destruct (writePrivateFile conf _ f1) as [wrote f2] eqn:W2.
  assert (C : confined (fun p => p = cred \/ p = conf) f f2)
    by (eapply (confined_trans _ f f1); (eapply confined_weaken; [|eassumption]); naive_solver).
  destruct wrote; cbn [negb].
  - intros [= <- <-]. split; [exact C|]. intros files [= <-]. split; [done|]. split; [exact Eo|].
    apply writePrivateFile_spec in W1 as (Na & Ha & _). apply writePrivateFile_spec in W2 as (Nb & Hb & Db).
    assert (Hne : cred <> conf) by (intros Hq; destruct Ha as (e & Hx & _); rewrite Hq in Hx; congruence).
    assert (Nc : entries f !! conf = None) by (transitivity (entries f1 !! conf); [symmetry; apply C1; intros Hq; by destruct Hne|exact Nb]).
    split; [by apply (isPrivate_dir _ (tick f))|]. split; [by apply isPrivate_dir|]. split; [exact Na|].
    split; [exact Nc|]. split; [|eexists; split; [exact Hb|by apply configData_lines]].
    eexists. split; [|by apply credentialData_lines]. destruct Ha as (e & Hx & Hr). exists e. split; [|exact Hr].
    transitivity (entries f1 !! cred); [by apply Db|exact Hx].
  - pose proof (confined_Remove fails (fun p => p = cred \/ p = conf) cred f2 ltac:(by left)) as C3. destruct (Remove _ _ _) as [r3 f3].
    intros [= <- <-]. split; [|done]. by eapply confined_trans.
Qed.

(** A run's cleanup: whatever fails, nothing is created or altered, and what is
    gone was inside the run's own directory, a plain directory named for the run
    directly below a private root; when it succeeds on a directory that was
    there, nothing of it is left. *)
Lemma session_cleanup_exact (s : SessionDir) (f : FS) (err : option error) (f' : FS) :
  Cleanup (Some s) f = (err, f') ->
  entries f' ⊆ entries f /\
  (forall p, entries f' !! p <> entries f !! p -> inside (Path s) p = true /\ ownedRunPath s = true /\
    (exists e, entries f !! root s = Some e /\ e_kind e = KDir /\ privateMode e = true) /\
    (exists e, entries f !! Path s = Some e /\ e_kind e = KDir)) /\
  (err = None -> Path s <> EmptyString -> entries f !! Path s = None \/ forall p, inside (Path s) p = true -> entries f' !! p = None).
Proof.
  unfold Cleanup. destruct (String.eqb_spec (Path s) "") as [E0|E0]; [by intros [= <- <-]|].
  destruct ((root s =? "")%string || negb (ownedRunPath s)) eqn:E1; [by intros [= <- <-]|].
  destruct (negb (isPrivate (verifyPrivateDirectory (root s) f))) eqn:E2; [by intros [= <- <-]|]. bool_hyps.
  destruct (Lstat fails (Path s) (tick f)) as [[]|info] eqn:El; [|by intros [= <- <-]|].
  - intros [= <- <-]. split_and!; [done|done|]. intros _ _. left. unfold Lstat in El. destruct (fails _); [done|]. cbn in El. by destruct (entries f !! Path s).
  - destruct (isSymlink info || negb (IsDir info)) eqn:E3; [by intros [= <- <-]|]. bool_hyps.
    pose proof (confined_RemoveAll fails removed (fun p => inside (Path s) p = true) (Path s) (tick (tick f)) (fun _ H => H)) as C.
    destruct (RemoveAll _ _ _ _) as [ok f1] eqn:ER. intros E.
    assert (f1 = f') as -> by (by destruct ok; injection E). split_and!.
    + unfold RemoveAll in ER. destruct (fails _); injection ER as _ <-; apply map_filter_subseteq.
    + intros p Hp. destruct (inside _ p) eqn:Ei; [|by destruct Hp; apply C; rewrite Ei].
      split_and!; [done|done|by apply isPrivate_dir|]. exists info. unfold Lstat in El. destruct (fails _); [done|]. cbn in El.
      destruct (entries f !! Path s); [|done]. injection El as ->. split; [done|]. by apply IsDir_kind.
    + intros -> _. right. destruct ok; [|done]. intros p Hp. unfold RemoveAll in ER. destruct (fails _); [done|]. injection ER as <-.
      apply map_lookup_filter_None. right. intros x _. cbn. by rewrite Hp.
Qed.
End Runtime.

(** ** A sample *)

#[local] Instance sample_tables : UnicodeTables := ascii_tables.
Definition sample_entries : gmap string Entry :=
  let dir perm time := mkEntry KDir perm time EmptyString in
  list_to_map [("/", dir 493 0); ("/h", dir 493 0); ("/h/runs", dir 448 0);
    ("/h/runs/run-old", dir 448 1); ("/h/runs/run-old/config", mkEntry KFile 384 1 "x"); ("/h/runs/run-link", mkEntry (KSymlink true) 511 1 EmptyString);
    ("/h/runs/run-a1", dir 448 (100 * GoTime.GoTime.Hour)); ("/h/runs/other", dir 448 1)]%string.
Definition sample_fs : FS := mkFS sample_entries 0.
Definition sample_session : SessionDir := mkSession "/h/runs/run-a1" "a1" "/h/runs".
Definition sample_fake : FakeCredential := Credentials.Credentials.mkFake "AKIAFAKE" "secret" "token" GoTime.GoTime.zeroTime.
Definition sample_run (f : FS) : result AWSFiles * FS :=
  WriteSyntheticAWSFiles (fun _ => false) (fun _ => 0%nat) 18 (100 * GoTime.GoTime.Hour) (Some sample_session) sample_fake "eu-west-1" "/h/ca.pem" f.
Definition sample_reaped : option error * FS :=
  cleanupStaleAt (fun _ => false) (fun _ _ => false) (100 * GoTime.GoTime.Hour) (Some "/h") (Some "/h") "/h/runs" defaultStaleRuntimeAge sample_fs.
Example sample_reaped_entries : bool_decide (entries sample_reaped.2 = delete "/h/runs/run-old" (delete "/h/runs/run-old/config" sample_entries)) = true.
Proof. vm_compute. reflexivity. Qed.
Lemma stale_cleanup_confined_witness :
  entries sample_reaped.2 !! "/h/runs/run-old/config" <> entries sample_fs !! "/h/runs/run-old/config" /\
  entries sample_reaped.2 ⊆ entries sample_fs.
Proof.
  split; [by vm_compute|].
  apply (stale_cleanup_confined (fun _ => false) (fun _ _ => false) (100 * GoTime.GoTime.Hour) (Some "/h") (Some "/h") "/h/runs"
    defaultStaleRuntimeAge sample_fs sample_reaped.1 sample_reaped.2). vm_compute. reflexivity.
Defined.
Lemma session_files_exact_witness :
  exists files, (sample_run sample_fs).1 = Ok files /\ holds (ConfigPath files)
    (configData "eu-west-1" "/h/ca.pem") (sample_run sample_fs).2 /\
    confined (fun p => p = "/h/runs/run-a1/credentials" \/ p = "/h/runs/run-a1/config") sample_fs (sample_run sample_fs).2.
Proof.
  exists (mkFiles "/h/runs/run-a1/credentials" "/h/runs/run-a1/config" "/h/ca.pem").
  split; [vm_compute; reflexivity|]. split; [eexists; vm_compute; eauto|].
  apply (session_files_exact (fun _ => false) (fun _ => 0%nat) 18 (100 * GoTime.GoTime.Hour) sample_session sample_fake "eu-west-1" "/h/ca.pem" sample_fs
    (sample_run sample_fs).1 (sample_run sample_fs).2). vm_compute. reflexivity.
Defined.
Lemma session_cleanup_exact_witness :
  let clean := Cleanup (fun _ => false) (fun _ _ => false) (Some sample_session) (sample_run sample_fs).2 in
  clean.1 = None /\ entries clean.2 !! "/h/runs/run-a1/config" = None /\ entries clean.2 ⊆ entries (sample_run sample_fs).2.
Proof.
  split; [by vm_compute|]. split; [by vm_compute|].
  apply (session_cleanup_exact (fun _ => false) (fun _ _ => false) sample_session (sample_run sample_fs).2 _ _ (surjective_pairing _)).
Defined.
End SessionDir.
