(* ===== verification/Pki.v ===== *)
(** * The certificate authority of a run (internal/pki: ca.go, leafcache.go)

    The authority's files over the file system of [Files], the certificates it
    issues and the bounded cache of them, on top of [Lru].  Keys, ASN.1 and PEM
    are parameters; [r] is what the random source yields to a call.  Times are
    nanoseconds.  The locks make every operation a single step. *)

From Stdlib Require Import ZArith Lia ZifyBool Ascii.
From stdpp Require Import base gmap strings list.
From S2P Require Import Prelude GoStrings GoNet AwsTypes GoPath Files GoTime Lru Endpoint SessionDir.

Module Pki.
Import GoPath.GoPath Files.Files AwsTypes.AwsTypes.
Abbreviation LRU := Lru.Lru.LRU.
Abbreviation Minute := GoTime.GoTime.Minute.
Abbreviation Hour := GoTime.GoTime.Hour.
Abbreviation Second := GoTime.GoTime.Second.
Abbreviation dnsName := Endpoint.Endpoint.dnsName.
Abbreviation privateMode := SessionDir.SessionDir.privateMode.

Definition defaultCAValidity : Z := 24 * Hour.
Definition certificateSkew : Z := 5 * Minute.
Definition defaultLeafCacheCapacity : Z := 128.

(** ** Data *)

(** The fields of [x509.Certificate] the package sets: a template as well as what
    is parsed. *)
Record Certificate := mkCertificate {
  SerialNumber : Z; CommonName : string; NotBefore : Z; NotAfter : Z; DNSNames : list string;
  ExtKeyUsage : list Z; KeyUsage : Z; BasicConstraintsValid : bool; IsCA : bool; MaxPathLenZero : bool }.
#[export] Instance Certificate_eq_dec : EqDecision Certificate.
Proof. solve_decision. Defined.
Definition KeyUsageDigitalSignature : Z := 1.
Definition KeyUsageCertSign : Z := 32.
Definition KeyUsageCRLSign : Z := 64.
Definition ExtKeyUsageServerAuth : Z := 1.

(** [tls.Certificate] of a leaf. *)
Record LeafOf (Key : Type) := mkLeaf { l_der : string; l_key : Key; Leaf : Certificate }.
Arguments mkLeaf {Key}. Arguments l_der {Key}. Arguments l_key {Key}. Arguments Leaf {Key}.
Record CAOf (Key : Type) := mkCA {
  dir : string; certPath : string; keyPath : string; cert : option Certificate; privateKey : option Key;
  certPEM : string; keyPEM : string; createdDir : bool; closed : bool }.
Arguments mkCA {Key}. Arguments dir {Key}. Arguments certPath {Key}. Arguments keyPath {Key}. Arguments cert {Key}.
Arguments privateKey {Key}. Arguments certPEM {Key}. Arguments keyPEM {Key}. Arguments createdDir {Key}. Arguments closed {Key}.
(** The authority is shared with the cache: operations of the cache are given its
    present state. *)
Record LeafCacheOf (Key : Type) := mkCache { entries_ : option (LRU string (LeafOf Key)); capacity_ : Z; cacheClosed : bool }.
Arguments mkCache {Key}. Arguments entries_ {Key}. Arguments capacity_ {Key}. Arguments cacheClosed {Key}.

(** ** Host names *)

Section Names.
Context `{U : UnicodeTables}.
Definition normalizeDNSName (host : string) : result string :=
  if (host =? "")%string || negb (TrimSpace host =? host)%string ||
     ContainsAny host (String (chr 0) (String (chr 13) (String (chr 10) ":/@[]"))) || GoNet.ParseIP host
  then Err (ErrNew "leaf hostname is malformed")
  else
    let host := TrimSuffix host "." in
    if (host =? "")%string || HasSuffix host "." || (253 <? slen host)
    then Err (ErrNew "leaf hostname is malformed")
    else
      match checkLabels lowerDNSRune "leaf hostname label is invalid" "leaf hostname must use ASCII DNS labels" (Split (ToLower host) ".") with
      | Some e => Err e
      | None => Ok (ToLower host)
      end.
End Names.

(** ** The authority *)

Definition verifyPrivateDir (fails : nat -> bool) (path : string) (f : FS) : option error :=
  match Lstat fails path f with
  | inl _ => Some (ErrNew "private CA directory is unavailable")
  | inr info =>
    if isSymlink info || negb (IsDir info) then Some (ErrNew "private CA directory is unavailable")
    else if negb (privateMode info) then Some (ErrNew "private CA directory is not mode 0700")
    else None
  end.
Definition pathInside (dir path : string) : bool :=
  let dir := Clean dir in
  let path := Clean path in
  IsAbs dir && IsAbs path && (Dir path =? dir)%string.

Section Authority.
Context `{U : UnicodeTables}.
Context (fails : nat -> bool) (written : nat -> nat) (umask : Z) (cwd : option string).
Context {Key : Type} (GenerateKey : nat -> option Key) (randInt : nat -> option Z).
Context (CreateCertificate : nat -> Certificate -> Certificate -> Key -> Key -> option string) (ParseCertificate : string -> option Certificate).
Context (MarshalECPrivateKey : Key -> option string) (EncodeToMemory : string -> string -> string).
Abbreviation CA := (CAOf Key).
Abbreviation LeafCert := (LeafOf Key).
Abbreviation LeafCache := (LeafCacheOf Key).

(** [rand.Int] below 2^120. *)
Definition randomSerial (r : nat) : result Z :=
  match randInt r with
  | None => Err (ErrNew "generate certificate serial")
  | Some value => Ok (if value =? 0 then 1 else value)
  end.

Definition discard (path : string) (f : FS) : bool * FS := let (_, f) := Remove fails path f in (false, f).
Definition writeOwnedFile (now : Z) (path data : string) (f : FS) : bool * FS :=
  let (opened, f) := CreateExclusive fails umask now path 384 f in
  if negb opened then (false, f)
  else
    let (changed, f) := Chmod fails path 384 f in
    if negb changed then let (_, f) := Attempt fails f in discard path f
    else
      let (wrote, f) := FileWrite fails now written path data f in
      if negb wrote then let (_, f) := Attempt fails f in discard path f
      else
        let (synced, f) := Attempt fails f in
        if negb synced then let (_, f) := Attempt fails f in discard path f
        else
          let (closed, f) := Attempt fails f in
          if negb closed then discard path f else (true, f).

Definition caTemplate (serial now : Z) : Certificate :=
  mkCertificate serial "Kordn run CA" (now - certificateSkew) (now + defaultCAValidity) [] []
    (Z.lor (Z.lor KeyUsageCertSign KeyUsageCRLSign) KeyUsageDigitalSignature) true true true.
(** The directory, and whether it was created. *)
Definition prepareDir (dir : string) (now : Z) (f : FS) : result bool * FS :=
  match Lstat fails dir f with
  | inl ErrNotExist =>
    let (made, f) := MkdirAll fails umask now dir 448 (tick f) in
    if made then (Ok true, f) else (Err (ErrNew "create private CA directory"), f)
  | inl ErrIO => (Err (ErrNew "private CA directory is unavailable"), tick f)
  | inr info => if IsDir info then (Ok false, tick f) else (Err (ErrNew "private CA directory is unavailable"), tick f)
  end.
(** The key, the certificate and their encodings. *)
Definition mintCA (now : Z) (r : nat) : result (Key * Certificate * string * string) :=
  match GenerateKey r with
  | None => Err (ErrNew "generate CA key")
  | Some key =>
    serial ← randomSerial r;
    let template := caTemplate serial now in
    match CreateCertificate r template template key key with
    | None => Err (ErrNew "create CA certificate")
    | Some der =>
      match ParseCertificate der with
      | None => Err (ErrNew "parse CA certificate")
      | Some cert =>
        match MarshalECPrivateKey key with
        | None => Err (ErrNew "encode CA key")
        | Some keyDER => Ok (key, cert, EncodeToMemory "CERTIFICATE" der, EncodeToMemory "EC PRIVATE KEY" keyDER)
        end
      end
    end
  end.
Definition removeCreated (created : bool) (dir : string) (f : FS) : FS := if created then (Remove fails dir f).2 else f.
Definition NewCA (dirText : string) (now : Z) (r : nat) (f : FS) : result CA * FS :=
  if (TrimSpace dirText =? "")%string then (Err (ErrNew "private CA directory is required"), f)
  else match SessionDir.SessionDir.Abs cwd (Clean dirText) with
  | None => (Err (ErrNew "private CA directory is invalid"), f)
  | Some dir =>
    if (dir =? "/")%string then (Err (ErrNew "private CA directory is invalid"), f)
    else
      let (prepared, f) := prepareDir dir now f in
      match prepared with
      | Err e => (Err e, f)
      | Ok created =>
        let (changed, f) := if created then Chmod fails dir 448 f else (true, f) in
        if negb changed then (Err (ErrNew "set private CA directory mode"), f)
        else match verifyPrivateDir fails dir f with
        | Some e => (Err e, tick f)
        | None =>
          let f := tick f in
          match mintCA now r with
          | Err e => (Err e, f)
          | Ok (key, cert, certPEM, keyPEM) =>
            let ca := mkCA dir (FilepathJoin [dir; "ca.pem"]) (FilepathJoin [dir; "ca.key"]) (Some cert) (Some key) certPEM keyPEM created false in
            let (wrote, f) := writeOwnedFile now (certPath ca) certPEM f in
            if negb wrote then (Err (ErrNew "write CA certificate"), removeCreated created dir f)
            else
              let (wrote, f) := writeOwnedFile now (keyPath ca) keyPEM f in
              if negb wrote then
                let (_, f) := Remove fails (certPath ca) f in
                (Err (ErrNew "write CA key"), removeCreated created dir f)
              else (Ok ca, f)
          end
        end
      end
  end.

Definition leafTemplate (serial notBefore notAfter : Z) (host : string) : Certificate :=
  mkCertificate serial EmptyString notBefore notAfter [host] [ExtKeyUsageServerAuth] KeyUsageDigitalSignature true false false.
Definition IssueLeaf (c : option CA) (host : string) (now : Z) (r : nat) : result LeafCert :=
  match c with
  | None => Err (ErrNew "CA is unavailable")
  | Some c =>
    host ← normalizeDNSName host;
    match closed c, cert c, privateKey c with
    | false, Some caCert, Some caKey =>
      match GenerateKey r with
      | None => Err (ErrNew "generate leaf key")
      | Some key =>
        let notBefore := now - Minute in
        let notBefore := if notBefore <? NotBefore caCert then NotBefore caCert else notBefore in
        let notAfter := now + 30 * Minute in
        let notAfter := if NotAfter caCert <? notAfter then NotAfter caCert else notAfter in
        if negb (notBefore <? notAfter) then Err (ErrNew "CA validity window is exhausted")
        else
          serial ← randomSerial r;
          match CreateCertificate r (leafTemplate serial notBefore notAfter host) caCert key caKey with
          | None => Err (ErrNew "create leaf certificate")
          | Some der =>
            match ParseCertificate der with
            | None => Err (ErrNew "parse leaf certificate")
            | Some leaf => Ok (mkLeaf der key leaf)
            end
          end
      end
    | _, _, _ => Err (ErrNew "CA is closed")
    end
  end.

Definition CA_Certificate (c : option CA) : option Certificate := match c with None => None | Some c => cert c end.
Definition CertificatePEM (c : option CA) : string := match c with None => EmptyString | Some c => certPEM c end.
Definition KeyPath (c : option CA) : string := match c with None => EmptyString | Some c => keyPath c end.
Definition CertPath (c : option CA) : string := match c with None => EmptyString | Some c => certPath c end.
(** The part of [tls.Config] that is set. *)
Record tlsConfig := mkTLS { MinVersion : Z; MaxVersion : Z; Certificates : list LeafCert; NextProtos : list string }.
Definition TLSConfig (leaf : LeafCert) : tlsConfig := mkTLS 771 772 [leaf] ["http/1.1"].
Definition CA_TLSConfig (c : option CA) (host : string) (now : Z) (r : nat) : result tlsConfig :=
  leaf ← IssueLeaf c host now r; Ok (TLSConfig leaf).

(** One step of [Cleanup]'s loop. *)
Definition removeOwned (dir : string) (acc : option error * FS) (path : string) : option error * FS :=
  let (first, f) := acc in
  if negb (pathInside dir path)
  then (match first with None => Some (ErrNew "refusing CA cleanup outside private directory") | _ => first end, f)
  else
    let (err, f) := Remove fails path f in
    (match err, first with Some ErrIO, None => Some (ErrNew "remove CA material") | _, _ => first end, f).
Definition Cleanup (c : option CA) (f : FS) : option error * option CA * FS :=
  match c with
  | None => (None, None, f)
  | Some c =>
    if closed c then (None, Some c, f)
    else match verifyPrivateDir fails (dir c) f with
    | Some e => (Some e, Some c, tick f)
    | None =>
      let (first, f) := foldl (removeOwned (dir c)) (None, tick f) [keyPath c; certPath c] in
      let (first, f) :=
        if createdDir c then
          let (err, f) := Remove fails (dir c) f in
          (match err, first with Some ErrIO, None => Some (ErrNew "remove private CA directory") | _, _ => first end, f)
        else (first, f) in
      (first, Some (mkCA (dir c) (certPath c) (keyPath c) None None EmptyString EmptyString (createdDir c) true), f)
    end
  end.

(** ** The cache *)

Definition NewLeafCache (ca : option CA) (capacity : Z) : result LeafCache :=
  match ca with
  | None => Err (ErrNew "leaf cache CA is required")
  | Some _ =>
    let capacity := if capacity <=? 0 then defaultLeafCacheCapacity else capacity in
    entries ← Lru.Lru.NewLRU capacity;
    Ok (mkCache (Some entries) capacity false)
  end.
Definition LeafCache_Get (ca : option CA) (c : option LeafCache) (host : string) (now : Z) (r : nat) : result LeafCert * option LeafCache :=
  match c with
  | None => (Err (ErrNew "leaf cache is unavailable"), None)
  | Some c =>
    match normalizeDNSName host with
    | Err e => (Err e, Some c)
    | Ok host =>
      if cacheClosed c then (Err (ErrNew "leaf cache is closed"), Some c)
      else
        let (found, entries) := Lru.Lru.Get (entries_ c) host in
        match found with
        | Some leaf => (Ok leaf, Some (mkCache entries (capacity_ c) false))
        | None =>
          match IssueLeaf ca host now r with
          | Err e => (Err e, Some (mkCache entries (capacity_ c) false))
          | Ok leaf => (Ok leaf, Some (mkCache (Lru.Lru.Put entries host leaf) (capacity_ c) false))
          end
        end
    end
  end.
Definition LeafCache_Len (c : option LeafCache) : Z := match c with None => 0 | Some c => Lru.Lru.Len (entries_ c) end.
Definition LeafCache_Capacity (c : option LeafCache) : Z := match c with None => 0 | Some c => capacity_ c end.
Definition LeafCache_Close (c : option LeafCache) : option LeafCache :=
  match c with None => None | Some c => Some (mkCache (Lru.Lru.Clear (entries_ c)) (capacity_ c) true) end.

(** ** What is issued *)

Lemma normalized_dnsName host name : normalizeDNSName host = Ok name -> dnsName name.
Proof.
  unfold normalizeDNSName. destruct (_ || _); [done|]. destruct (_ || _); [done|].
  destruct (checkLabels _ _ _ _) eqn:E; [done|]. intros [= <-]. by eapply Endpoint.Endpoint.checkLabels_None.
Qed.
(** A normalised name is normal, unless it is refused. *)
Lemma normalize_again name name' : dnsName name -> normalizeDNSName name = Ok name' -> name' = name.
Proof.
  intros H. unfold normalizeDNSName. destruct (_ || _); [done|]. destruct (_ || _); [done|].
  destruct (checkLabels _ _ _ _); [done|]. intros [= <-].
  pose proof (Endpoint.Endpoint.dnsName_no_trailing_dot _ H) as Hd. unfold TrimSuffix. rewrite Hd. by apply Endpoint.Endpoint.dnsName_lower.
Qed.

(** X.509 times have whole seconds. *)
Definition seconds (t : Z) : Z := t / Second * Second.
Definition stored (t : Certificate) : Certificate :=
  mkCertificate (SerialNumber t) (CommonName t) (seconds (NotBefore t)) (seconds (NotAfter t)) (DNSNames t)
    (ExtKeyUsage t) (KeyUsage t) (BasicConstraintsValid t) (IsCA t) (MaxPathLenZero t).
(** What a leaf of an authority for a name is, issued at a time. *)
Record leafFor (caCert : Certificate) (name : string) (now : Z) (leaf : Certificate) : Prop := {
  leaf_names : DNSNames leaf = [name] /\ CommonName leaf = EmptyString;
  leaf_purpose : ExtKeyUsage leaf = [ExtKeyUsageServerAuth] /\ KeyUsage leaf = KeyUsageDigitalSignature;
  leaf_not_ca : BasicConstraintsValid leaf = true /\ IsCA leaf = false;
  leaf_serial : 0 < SerialNumber leaf < 2 ^ 120;
  leaf_window : NotBefore caCert <= NotBefore leaf <= NotAfter leaf /\ NotAfter leaf <= NotAfter caCert;
  leaf_life : now - Minute - Second < NotBefore leaf /\ NotAfter leaf <= now + 30 * Minute;
}.

(** ** The authority's files *)

Abbreviation holds := SessionDir.SessionDir.holds.
Lemma writeOwnedFile_private now path data f :
  writeOwnedFile now path data f = SessionDir.SessionDir.writePrivateFile fails written umask now path data f.
Proof.
  unfold writeOwnedFile, SessionDir.SessionDir.writePrivateFile, SessionDir.SessionDir.finishFile, discard.
  destruct (CreateExclusive _ _ _ _ _ _) as [[] f1]; [|done]. cbn [negb].
  destruct (Chmod _ _ _ _) as [[] f2]; [|done]. cbn [negb].
  destruct (FileWrite _ _ _ _ _ _) as [[] f3]; [|done]. cbn [negb].
  destruct (Attempt fails f3) as [[] f4]; [|done]. cbn [negb].
  by destruct (Attempt fails f4) as [[] f5].
Qed.
Lemma verifyPrivateDir_none path f : verifyPrivateDir fails path f = None ->
  exists e, entries f !! path = Some e /\ e_kind e = KDir /\ privateMode e = true.
Proof.
  unfold verifyPrivateDir, Lstat. destruct (fails _); [done|]. destruct (entries f !! path) as [e|]; [|done].
  destruct (_ || _) eqn:E; [done|]. destruct (privateMode e) eqn:Ep; [|done]. intros _. exists e. bool_hyps. split_and!; try done. by apply IsDir_kind.
Qed.
Lemma prepareDir_keeps dir now f path : entries (prepareDir dir now f).2 !! path = None -> entries f !! path = None.
Proof.
  unfold prepareDir. destruct (Lstat _ _ _) as [[]|info]; [|done|by destruct (IsDir info)].
  unfold MkdirAll. pose proof (makeChain_keeps fails umask now 448 (Files.Files.chain dir) (tick f) path) as K.
  destruct (makeChain _ _ _ _ _ _) as [made f1]. by destruct made.
Qed.
Lemma prepareDir_confined dir now f created f' : prepareDir dir now f = (Ok created, f') ->
  confined (fun p => created = true /\ p ∈ Files.Files.chain dir /\ entries f !! p = None) f f' /\
  (created = true -> entries f !! dir = None).
Proof.
  unfold prepareDir. destruct (Lstat _ _ _) as [[]|info] eqn:El; [|done|].
  - assert (entries f !! dir = None) as Hn by (unfold Lstat in El; destruct (fails _); [done|]; by destruct (entries f !! dir)).
    pose proof (makeChain_absent fails umask now 448 (Files.Files.chain dir) (tick f)) as C. unfold MkdirAll.
    destruct (makeChain _ _ _ _ _ _) as [made f1]. destruct made; [|done].
    intros [= <- <-]. split; [|done]. eapply confined_weaken; [|exact C]. intros p [H1 H2]. by split_and!.
  - destruct (IsDir info); [|done]. by intros [= <- <-].
Qed.
(** The directories an authority had to create over [f]: its own and those
    above it that were missing. *)
Definition createdOver (f : FS) (ca : CA) (path : string) : Prop :=
  createdDir ca = true /\ (path = dir ca \/ path ∈ Files.Files.chain (dir ca)) /\ entries f !! path = None.
(** The entries it may touch. *)
Definition owned (f : FS) (ca : CA) (path : string) : Prop :=
  path = certPath ca \/ path = keyPath ca \/ createdOver f ca path.
Lemma NewCA_files dirText now r f ca f' : NewCA dirText now r f = (Ok ca, f') ->
  (exists key c, ca = mkCA (dir ca) (FilepathJoin [dir ca; "ca.pem"]) (FilepathJoin [dir ca; "ca.key"]) (Some c) (Some key)
     (certPEM ca) (keyPEM ca) (createdDir ca) false /\ mintCA now r = Ok (key, c, certPEM ca, keyPEM ca)) /\
  (exists e, entries f' !! dir ca = Some e /\ e_kind e = KDir /\ privateMode e = true) /\
  entries f !! certPath ca = None /\ entries f !! keyPath ca = None /\
  holds (certPath ca) (certPEM ca) f' /\ holds (keyPath ca) (keyPEM ca) f' /\ confined (owned f ca) f f' /\
  (createdDir ca = true -> entries f !! dir ca = None).
Proof.
  unfold NewCA. destruct (_ =? "")%string; [done|]. destruct (SessionDir.SessionDir.Abs _ _) as [d|]; [|done].
  destruct (d =? "/")%string; [done|]. destruct (prepareDir d now f) as [[created|] f1] eqn:E0; [|done].
  pose proof (prepareDir_confined _ _ _ _ _ E0) as [E1 Hnew].
  assert (C2 : confined (fun p => created = true /\ (p = d \/ p ∈ Files.Files.chain d) /\ entries f !! p = None) f (if created then Chmod fails d 448 f1 else (true, f1)).2).
  { eapply confined_trans; [eapply confined_weaken; [|exact E1]; naive_solver|]. destruct created; [|done]. apply confined_Chmod. auto. }
  destruct (if created then _ else _) as [changed f2] eqn:E2. destruct changed; [|done]. cbn [negb snd] in *.
  destruct (verifyPrivateDir _ _ _) eqn:Ev; [done|]. apply verifyPrivateDir_none in Ev as (e & He & Hk & Hm).
  destruct (mintCA now r) as [[[[key c] cpem] kpem]|] eqn:Em; [|done].
  cbn [certPath keyPath]. set (cp := FilepathJoin [d; "ca.pem"]). set (kp := FilepathJoin [d; "ca.key"]). rewrite !writeOwnedFile_private.
  destruct (SessionDir.SessionDir.writePrivateFile _ _ _ _ cp _ _) as [wrote f3] eqn:W1. destruct wrote; [|done]. cbn [negb]. rewrite writeOwnedFile_private.
  destruct (SessionDir.SessionDir.writePrivateFile _ _ _ _ kp _ _) as [wrote f4] eqn:W2. destruct wrote; cbn [negb]; [|by destruct (Remove _ _ _)].
  intros [= <- <-]. cbn.
  apply SessionDir.SessionDir.writePrivateFile_spec in W1 as (N1 & H1 & D1). apply SessionDir.SessionDir.writePrivateFile_spec in W2 as (N2 & H2 & D2).
  pose proof (prepareDir_keeps d now f) as K1. rewrite E0 in K1. cbn [snd] in K1.
  assert (K : forall p, entries f2 !! p = None -> entries f !! p = None).
  { intros p Hp. apply K1. destruct created; [|by injection E2 as <-]. pose proof (Chmod_keeps fails d 448 f1 p) as K2. rewrite E2 in K2. auto. }
  assert (Hdc : d <> cp) by (intros Hq; rewrite Hq in He; cbn in N1; congruence).
  assert (He3 : entries f3 !! d = Some e) by (by rewrite (D1 d Hdc)).
  assert (Hdk : d <> kp) by (intros Hq; rewrite Hq in He3; congruence).
  assert (Hck : cp <> kp) by (intros Hq; destruct H1 as (e1 & H1 & _); rewrite Hq in H1; congruence).
  split; [by exists key, c|]. split; [exists e; by rewrite (D2 d Hdk)|]. split; [by apply K|].
  split; [by apply K; transitivity (entries f3 !! kp); [symmetry; apply D1; congruence|]|].
  split; [destruct H1 as (e1 & H1 & Hr); exists e1; by rewrite (D2 cp Hck)|]. split; [exact H2|].
  split; [|exact Hnew].
  eapply confined_trans; [eapply confined_weaken; [|exact C2]; unfold owned, createdOver; naive_solver|].
  eapply confined_trans; [eapply confined_weaken; [|exact D1]; unfold owned; naive_solver|].
  eapply confined_weaken; [|exact D2]; unfold owned; naive_solver.
Qed.
Lemma removeOwned_spec d first f path first' f' : removeOwned d (first, f) path = (first', f') ->
  entries f' ⊆ entries f /\ confined (fun p => p = path) f f' /\
  (first' = None -> first = None /\ entries f' !! path = None).
Proof.
  unfold removeOwned. destruct (pathInside d path); cbn [negb]; [|by destruct first; intros [= <- <-]].
  pose proof (Remove_shrinks fails path f) as Hs. pose proof (confined_Remove fails (fun p => p = path) path f (reflexivity _)) as Hc.
  pose proof (Remove_gone fails path f) as Hg. destruct (Remove fails path f) as [err f1]. intros [= <- <-]. cbn [snd] in *.
  split; [done|]. split; [done|]. intros H. assert (first = None /\ err <> Some ErrIO) as [? ?] by (destruct err as [[]|], first; naive_solver).
  split; [done|]. by apply (Hg err f1).
Qed.
Lemma Cleanup_files ca g err c' g' : closed ca = false -> Cleanup (Some ca) g = (err, c', g') ->
  entries g' ⊆ entries g /\ confined (fun p => p = certPath ca \/ p = keyPath ca \/ createdDir ca = true /\ p = dir ca) g g' /\
  (err = None -> entries g' !! certPath ca = None /\ entries g' !! keyPath ca = None /\ (createdDir ca = true -> entries g' !! dir ca = None) /\
    exists ca', c' = Some ca' /\ closed ca' = true /\ privateKey ca' = None /\ cert ca' = None /\ keyPEM ca' = EmptyString).
Proof.
  intros Hcl. unfold Cleanup. rewrite Hcl. destruct (verifyPrivateDir _ _ _) eqn:Ev; [by intros [= <- <- <-]|]. cbn [foldl].
  destruct (removeOwned (dir ca) (None, tick g) (keyPath ca)) as [e1 g1] eqn:E1.
  destruct (removeOwned (dir ca) (e1, g1) (certPath ca)) as [e2 g2] eqn:E2.
  apply removeOwned_spec in E1 as (S1 & C1 & G1). apply removeOwned_spec in E2 as (S2 & C2 & G2). cbn in S1, C1.
  assert (S : entries g2 ⊆ entries g) by (by etrans).
  assert (C : confined (fun p => p = certPath ca \/ p = keyPath ca \/ createdDir ca = true /\ p = dir ca) g g2).
  { eapply (confined_trans _ _ g1); (eapply confined_weaken; [|eassumption]); naive_solver. }
  assert (G : e2 = None -> entries g2 !! certPath ca = None /\ entries g2 !! keyPath ca = None).
  { intros [Hx Hy]%G2. split; [done|]. eapply shrinks_none; [exact S2|]. by apply G1. }
  destruct (createdDir ca).
  - pose proof (Remove_shrinks fails (dir ca) g2) as Hs. pose proof (confined_Remove fails (fun p => p = dir ca) (dir ca) g2 (reflexivity _)) as Hc.
    pose proof (Remove_gone fails (dir ca) g2) as Hg. destruct (Remove fails (dir ca) g2) as [e3 g3]. cbn [snd] in *. intros [= <- <- <-].
    split; [by etrans|]. split; [eapply confined_trans; [exact C|]; eapply confined_weaken; [|exact Hc]; naive_solver|].
    intros H. assert (e2 = None /\ e3 <> Some ErrIO) as [He2 He3] by (destruct e3 as [[]|], e2; naive_solver).
    destruct (G He2) as [Gc Gk]. split_and!; [by eapply shrinks_none|by eapply shrinks_none|by intros _; apply (Hg e3 g3)|by eexists].
  - intros [= <- <- <-]. split; [done|]. split; [done|]. intros H. destruct (G H) as [Gc Gk]. split_and!; [done|done|done|by eexists].
Qed.

(** C37. The files of the authority: a new one overwrites nothing, leaves its
    certificate and key as they were encoded, with mode 0600, in a private
    directory, and touches nothing but these, its directory if it was missing
    and the missing ones above that; its cleanup removes nothing but its two
    files and the directory it created, whatever fails, and when it reports no
    error they are gone and no leaf can be issued; right after the creation it
    restores every entry as it was, but for directories above its own that
    were created with it: these stay. *)
Theorem ca_files_exact (dirText : string) (now : Z) (r : nat) (f : FS) (ca : CA) (f' : FS) :
  NewCA dirText now r f = (Ok ca, f') ->
  (entries f !! certPath ca = None /\ entries f !! keyPath ca = None /\
   holds (certPath ca) (certPEM ca) f' /\ holds (keyPath ca) (keyPEM ca) f' /\
   (exists e, entries f' !! dir ca = Some e /\ e_kind e = KDir /\ privateMode e = true) /\ confined (owned f ca) f f') /\
  forall g err ca' g', Cleanup (Some ca) g = (err, ca', g') ->
    entries g' ⊆ entries g /\ confined (fun p => p = certPath ca \/ p = keyPath ca \/ createdDir ca = true /\ p = dir ca) g g' /\
    (err = None ->
      entries g' !! certPath ca = None /\ entries g' !! keyPath ca = None /\ (createdDir ca = true -> entries g' !! dir ca = None) /\
      (forall host later r', exists e, IssueLeaf ca' host later r' = Err e) /\
      (g = f' -> confined (fun p => createdOver f ca p /\ p <> dir ca) f g')).
Proof.
  intros H. destruct (NewCA_files _ _ _ _ _ _ H) as ((key & c & Eca & _) & Hd & Nc & Nk & Hc & Hk & Cf & Nd). split; [by split_and!|].
  intros g err ca' g' E. assert (Hcl : closed ca = false) by (by rewrite Eca). destruct (Cleanup_files _ _ _ _ _ Hcl E) as (S & C & G).
  split; [done|]. split; [done|]. intros He. destruct (G He) as (Gc & Gk & Gd & ca1 & -> & Hcl1 & _). split_and!; [done|done|done| |].
  - intros host later r'. unfold IssueLeaf. destruct (normalizeDNSName host) as [name|e]; [|by exists e]. cbn [mbind result_bind]. rewrite Hcl1. by eexists.
  - intros -> p Hp. destruct (decide (p = certPath ca)) as [->|Hpc]; [by rewrite Gc, Nc|].
    destruct (decide (p = keyPath ca)) as [->|Hpk]; [by rewrite Gk, Nk|].
    destruct (decide (createdDir ca = true /\ p = dir ca)) as [[Hcr ->]|Hpd]; [by rewrite Gd, Nd|].
    rewrite (C p), (Cf p); [done| |naive_solver]. unfold owned. intros [?|[?|Ho]]; [done..|]. apply Hp. split; [done|].
    intros ->. apply Hpd. split; [apply Ho|done].
Qed.

(** ** Certificates *)

(** What the code relies on of [crypto/x509] and [crypto/rand]. *)
Context (Hrand : forall r v, randInt r = Some v -> 0 <= v < 2 ^ 120).
Context (Hparse : forall r t parent k k' der c, CreateCertificate r t parent k k' = Some der -> ParseCertificate der = Some c -> c = stored t).

Lemma randomSerial_range r v : randomSerial r = Ok v -> 0 < v < 2 ^ 120.
Proof. unfold randomSerial. destruct (randInt r) as [w|] eqn:E; [|done]. apply Hrand in E. intros [= <-]. destruct (Z.eqb_spec w 0); lia. Qed.
Lemma seconds_bounds t : seconds t <= t < seconds t + Second.
Proof. unfold seconds, Second, GoTime.GoTime.Second. pose proof (Z.div_mod t 1000000000 ltac:(lia)). pose proof (Z.mod_pos_bound t 1000000000 ltac:(lia)). lia. Qed.
Lemma seconds_mono a b : a <= b -> seconds a <= seconds b.
Proof. intros H. unfold seconds. apply Z.mul_le_mono_nonneg_r; [done|]. by apply Z.div_le_mono. Qed.
Lemma seconds_idem t : seconds (seconds t) = seconds t.
Proof. unfold seconds. by rewrite Z.div_mul. Qed.

Lemma IssueLeaf_for ca caCert host now r leaf name : IssueLeaf (Some ca) host now r = Ok leaf -> normalizeDNSName host = Ok name ->
  cert ca = Some caCert -> seconds (NotBefore caCert) = NotBefore caCert -> seconds (NotAfter caCert) = NotAfter caCert -> leafFor caCert name now (Leaf leaf).
Proof.
  unfold IssueLeaf. intros E Hn Hc Hb Ha. rewrite Hn, Hc in E. cbn [mbind result_bind] in E. destruct (closed ca); [done|]. destruct (privateKey ca) as [caKey|]; [|done].
  destruct (GenerateKey r) as [key|]; [|done]. revert E.
  set (nb := if now - Minute <? _ then _ else _). set (na := if _ <? now + 30 * Minute then _ else _).
  destruct (Z.ltb_spec nb na) as [Hlt|]; cbn [negb]; [|done]. intros (serial & Hs & E)%result_bind_ok.
  destruct (CreateCertificate _ _ _ _ _) as [der|] eqn:Ec; [|done]. destruct (ParseCertificate der) as [c|] eqn:Ep; [|done].
  injection E as <-. rewrite (Hparse _ _ _ _ _ _ _ Ec Ep). apply randomSerial_range in Hs.
  assert (Hnb : NotBefore caCert <= nb /\ now - Minute <= nb) by (subst nb; destruct (Z.ltb_spec (now - Minute) (NotBefore caCert)); lia).
  assert (Hna : na <= NotAfter caCert /\ na <= now + 30 * Minute) by (subst na; destruct (Z.ltb_spec (NotAfter caCert) (now + 30 * Minute)); lia).
  pose proof (seconds_bounds nb). pose proof (seconds_bounds na). pose proof (seconds_mono nb na ltac:(lia)).
  pose proof (seconds_mono _ _ (proj1 Hnb)). pose proof (seconds_mono _ _ (proj1 Hna)). split; cbn; lia || done.
Qed.

(** The leaf's certificate was created under the authority's certificate, signed
    with the authority's key over the leaf's fresh one, for the name. *)
Definition issuedBy (caCert : Certificate) (caKey : Key) (name : string) (r : nat) (leaf : LeafCert) : Prop :=
  GenerateKey r = Some (l_key leaf) /\ ParseCertificate (l_der leaf) = Some (Leaf leaf) /\
  exists serial notBefore notAfter,
    CreateCertificate r (leafTemplate serial notBefore notAfter name) caCert (l_key leaf) caKey = Some (l_der leaf).
Lemma IssueLeaf_by ca caCert host now r leaf name : IssueLeaf (Some ca) host now r = Ok leaf -> normalizeDNSName host = Ok name ->
  cert ca = Some caCert -> exists caKey, privateKey ca = Some caKey /\ issuedBy caCert caKey name r leaf.
Proof.
  unfold IssueLeaf, issuedBy. intros E Hn Hc. rewrite Hn, Hc in E. cbn [mbind result_bind] in E. destruct (closed ca); [done|].
  destruct (privateKey ca) as [caKey|]; [|done]. exists caKey. split; [done|].
  destruct (GenerateKey r) as [key|] eqn:Ek; [|done]. destruct (negb _); [done|]. apply result_bind_ok in E as (serial & Hs & E).
  destruct (CreateCertificate _ _ _ _ _) as [der|] eqn:Ec; [|done]. destruct (ParseCertificate der) as [leafCert|] eqn:Ep; [|done].
  injection E as <-. split_and!; [done..|]. by eexists _, _, _.
Qed.

Lemma mintCA_stored now r key c certPEM keyPEM : mintCA now r = Ok (key, c, certPEM, keyPEM) ->
  exists serial, 0 < serial < 2 ^ 120 /\ c = stored (caTemplate serial now).
Proof.
  unfold mintCA. destruct (GenerateKey r); [|done]. intros (serial & Hs & E)%result_bind_ok. exists serial. split; [by eapply randomSerial_range|].
  destruct (CreateCertificate _ _ _ _ _) eqn:Ec; [|done]. destruct (ParseCertificate _) eqn:Ep; [|done]. destruct (MarshalECPrivateKey _); [|done].
  injection E as <- <- _ _. by eapply Hparse.
Qed.

(** ** Histories of requests *)

Inductive request := AskLeaf (host : string) (now : Z) (r : nat) | CloseLeaves | CleanupCA (f : FS).
Abbreviation answer := (option (result LeafCert)).
Abbreviation state := (option CA * option LeafCache)%type.
Definition serve (s : state) (q : request) : answer * state :=
  match q with
  | AskLeaf host now r => let (leaf, c) := LeafCache_Get s.1 s.2 host now r in (Some leaf, (s.1, c))
  | CloseLeaves => (None, (s.1, LeafCache_Close s.2))
  | CleanupCA f => (None, ((Cleanup s.1 f).1.2, s.2))
  end.
Fixpoint history (s : state) (qs : list request) : list (request * answer) * state :=
  match qs with
  | [] => ([], s)
  | q :: qs => let (a, s) := serve s q in let (h, s) := history s qs in ((q, a) :: h, s)
  end.

Lemma get_spec (l : LRU string LeafCert) z k : Lru.Lru.bounded l z -> exists l' z',
  Lru.Lru.Get (Some l) k = (Lru.Lru.assoc k z.*2, Some l') /\ Lru.Lru.bounded l' z' /\ Lru.Lru.capacity l' = Lru.Lru.capacity l /\
  (forall kv, kv ∈ z'.*2 -> kv ∈ z.*2) /\ Lru.Lru.assoc k z'.*2 = Lru.Lru.assoc k z.*2.
Proof.
  intros B. pose proof (Lru.Lru.Get_assoc l z k B) as Ha.
  destruct (Lru.Lru.get_refines l z k B) as (l' & z' & E & B' & Ez & Ec). exists l', z'. cbn [Lru.Lru.step] in E.
  destruct (Lru.Lru.Get (Some l) k) as [v c]. cbn [fst] in Ha. subst v. injection E as _ ->. split_and!; try done.
  all: rewrite Ez; cbn [Lru.Lru.spec_step]; destruct (Lru.Lru.assoc k z.*2) as [v|] eqn:Ea; [|done]; cbn [snd].
  2:{ by rewrite Lru.Lru.assoc_cons, decide_True. } intros kv [->|[_ H]%list_elem_of_filter]%elem_of_cons; [|done].
  apply Lru.Lru.assoc_Some; [|done]. apply B.
Qed.
Lemma put_spec (l : LRU string LeafCert) z k v : Lru.Lru.bounded l z -> exists l' z',
  Lru.Lru.Put (Some l) k v = Some l' /\ Lru.Lru.bounded l' z' /\ Lru.Lru.capacity l' = Lru.Lru.capacity l /\
  Lru.Lru.assoc k z'.*2 = Some v /\ (forall kv, kv ∈ z'.*2 -> kv = (k, v) \/ kv ∈ z.*2).
Proof.
  intros B. destruct (Lru.Lru.add_refines l z k v B) as (l' & z' & E & B' & Ez & Ec). exists l', z'. cbn [Lru.Lru.step] in E.
  unfold Lru.Lru.Put. destruct (Lru.Lru.Add (Some l) k v) as [[r1 r2] c0]. injection E as _ ->. split_and!; try done; rewrite Ez; cbn [Lru.Lru.spec_step].
  - by destruct (Lru.Lru.assoc k z.*2); [|case_if]; cbn [snd]; rewrite Lru.Lru.assoc_cons, decide_True.
  - destruct (Lru.Lru.assoc k z.*2); [|case_if]; cbn [snd]; intros kv [->|H]%elem_of_cons; auto.
    + right. by apply list_elem_of_filter in H as [_ H].
    + right. destruct (z.*2) as [|x l0] eqn:Ez2; [done|]. rewrite (app_removelast_last x (l := x :: l0)) by done. apply elem_of_app. by left.
Qed.

Definition made (ca : CA) (past : list (request * answer)) (name : string) (leaf : LeafCert) : Prop :=
  exists host0 now0 r0, (AskLeaf host0 now0 r0, Some (Ok leaf)) ∈ past /\ normalizeDNSName host0 = Ok name /\ IssueLeaf (Some ca) name now0 r0 = Ok leaf.
(** The authority is the one of the start or closed, and what is cached was issued
    by it in the past. *)
Definition served (ca : CA) (cap : Z) (past : list (request * answer)) (s : state) : Prop :=
  (exists ca', s.1 = Some ca' /\ (ca' = ca \/ closed ca' = true)) /\
  exists c l z, s.2 = Some c /\ entries_ c = Some l /\ Lru.Lru.bounded l z /\ Lru.Lru.capacity l = cap /\ capacity_ c = cap /\
    forall kv, kv ∈ z.*2 -> made ca past kv.1 kv.2.
Lemma made_weaken ca past past' name leaf : (forall x, x ∈ past -> x ∈ past') -> made ca past name leaf -> made ca past' name leaf.
Proof. intros H (h & n & r & ? & ? & ?). exists h, n, r. auto. Qed.
Lemma IssueLeaf_closed ca host now r leaf : IssueLeaf (Some ca) host now r = Ok leaf -> closed ca = false.
Proof. unfold IssueLeaf. destruct (normalizeDNSName host); [|done]. cbn [mbind result_bind]. by destruct (closed ca). Qed.
Lemma IssueLeaf_again ca name now r leaf : dnsName name -> IssueLeaf (Some ca) name now r = Ok leaf -> normalizeDNSName name = Ok name.
Proof.
  intros Hd. unfold IssueLeaf. destruct (normalizeDNSName name) as [name'|] eqn:E; [|done]. intros _. by rewrite (normalize_again _ _ Hd E).
Qed.
Lemma Cleanup_state ca f : exists ca', (Cleanup (Some ca) f).1.2 = Some ca' /\ (ca' = ca \/ closed ca' = true).
Proof.
  unfold Cleanup. destruct (closed ca); [by exists ca; auto|]. destruct (verifyPrivateDir _ _ _); [by exists ca; auto|].
  destruct (foldl (removeOwned (dir ca)) _ _) as [first f1]. destruct (createdDir ca); [destruct (Remove _ _ _)|]; eexists; (split; [done|]); by right.
Qed.
Lemma serve_served ca cap past s q a s' : served ca cap past s -> serve s q = (a, s') ->
  served ca cap (past ++ [(q, a)]) s' /\
  forall host now r leaf, q = AskLeaf host now r -> a = Some (Ok leaf) -> exists name, normalizeDNSName host = Ok name /\ made ca (past ++ [(q, a)]) name leaf.
Proof.
  intros ((ca1 & Hs1 & Hca) & c & l & z & Hs2 & Hl & B & Ecap & Ecap' & HF). destruct s as [s1 s2]. cbn [fst snd] in *. subst s1 s2.
  assert (Hold : forall x, x ∈ past -> x ∈ past ++ [(q, a)]) by (intros x Hx; apply elem_of_app; by left).
  destruct q as [host now r| |f]; cbn [serve fst snd]; [|intros [= <- <-]; split; [|done]..].
  - unfold LeafCache_Get. destruct (normalizeDNSName host) as [name|e] eqn:En; cbn -[IssueLeaf Lru.Lru.Get Lru.Lru.Put].
    2:{ intros [= <- <-]. split; [|done]. split; [by exists ca1|]. exists c, l, z. split_and!; try done. intros kv Hkv. by eapply made_weaken, HF. }
    destruct (cacheClosed c).
    { intros [= <- <-]. split; [|done]. split; [by exists ca1|]. exists c, l, z. split_and!; try done. intros kv Hkv. by eapply made_weaken, HF. }
    rewrite Hl. destruct (get_spec l z name B) as (l1 & z1 & -> & B1 & Ec1 & Hz1 & _).
    destruct (Lru.Lru.assoc name z.*2) as [leaf|] eqn:Ea.
    { intros [= <- <-]. split.
      - split; [by exists ca1|]. eexists _, l1, z1. split_and!; try done; cbn; [congruence|]. intros kv Hkv. eapply made_weaken; eauto.
      - intros ? ? ? ? [= <- <- <-] [= <-]. exists name. split; [done|]. eapply made_weaken; [exact Hold|].
        apply (HF (name, leaf)). apply Lru.Lru.assoc_Some; [apply B|done]. }
    destruct (IssueLeaf (Some ca1) name now r) as [leaf|e] eqn:Ei; intros [= <- <-].
    2:{ split; [|done]. split; [by exists ca1|]. eexists _, l1, z1. split_and!; try done; cbn; [congruence|]. intros kv Hkv. eapply made_weaken; eauto. }
    assert (ca1 = ca) as -> by (destruct Hca as [|Hc]; [done|]; by rewrite (IssueLeaf_closed _ _ _ _ _ Ei) in Hc).
    assert (Hm : made ca (past ++ [(AskLeaf host now r, Some (Ok leaf))]) name leaf).
    { exists host, now, r. split_and!; try done. apply elem_of_app. right. by left. }
    destruct (put_spec l1 z1 name leaf B1) as (l2 & z2 & -> & B2 & Ec2 & _ & Hz2). split.
    + split; [by exists ca; auto|]. eexists _, l2, z2. split_and!; try done; cbn; [congruence|].
      intros kv [->|Hkv]%Hz2; [done|]. eapply made_weaken; eauto.
    + intros ? ? ? ? [= <- <- <-] [= <-]. by exists name.
  - split; [by exists ca1|]. destruct (Lru.Lru.step_refines l z Lru.Lru.OClear B) as (l1 & z1 & E & B1 & Ez & Ec).
    cbn in E, Ez. rewrite Hl. eexists _, l1, z1. split_and!; try done; cbn; [by injection E as ->|congruence|]. rewrite Ez. by intros kv ?%elem_of_nil.
  - split; [|exists c, l, z; split_and!; try done; intros kv Hkv; by eapply made_weaken, HF]. cbn [fst snd].
    destruct (Cleanup_state ca1 f) as (ca2 & Hc2 & Hor). exists ca2. split; [exact Hc2|]. destruct Hor as [->|]; [done|by right].
Qed.
Lemma history_served ca cap past s qs h s' : served ca cap past s -> history s qs = (h, s') ->
  served ca cap (past ++ h) s' /\
  forall pre host now r leaf post, h = pre ++ (AskLeaf host now r, Some (Ok leaf)) :: post ->
    exists name, normalizeDNSName host = Ok name /\ made ca (past ++ pre ++ [(AskLeaf host now r, Some (Ok leaf))]) name leaf.
Proof.
  revert past s h. induction qs as [|q qs IH]; intros past s h HS; cbn [history].
  { intros [= <- <-]. split; [by rewrite app_nil_r|]. by intros []. }
  destruct (serve s q) as [a s1] eqn:E. destruct (history s1 qs) as [h1 s2] eqn:E'. intros [= <- <-].
  destruct (serve_served _ _ _ _ _ _ _ HS E) as [HS1 Ha]. destruct (IH _ _ _ HS1 E') as [HS2 Hh].
  rewrite <-app_assoc in HS2. split; [done|]. intros [|x pre] host now r leaf post Heq; cbn [app] in Heq.
  - injection Heq as -> -> _. by apply (Ha host now r leaf).
  - injection Heq as <- Er. destruct (Hh pre host now r leaf post Er) as (name & En & Hm). exists name. split; [done|]. by rewrite <-app_assoc in Hm.
Qed.

(** ** A run's leaves *)

Lemma NewLeafCache_served ca cap cache : NewLeafCache (Some ca) cap = Ok cache ->
  0 < capacity_ cache /\ served ca (capacity_ cache) [] (Some ca, Some cache).
Proof.
  unfold NewLeafCache. set (n := if cap <=? 0 then _ else cap). intros (l & El & E)%result_bind_ok.
  destruct (Lru.Lru.new_bounded n l El) as [B Ec]. injection E as <-. cbn. split; [unfold Lru.Lru.bounded in B; lia|].
  split; [by exists ca; auto|]. eexists _, l, []. split_and!; try done. by intros kv ?%elem_of_nil.
Qed.
Lemma NewCA_cert dirText now r f ca f' : NewCA dirText now r f = (Ok ca, f') ->
  exists c, cert ca = Some c /\ IsCA c = true /\ NotBefore c <= now /\ NotAfter c <= now + defaultCAValidity /\
    seconds (NotBefore c) = NotBefore c /\ seconds (NotAfter c) = NotAfter c.
Proof.
  intros H. destruct (NewCA_files _ _ _ _ _ _ H) as ((key & c & Eca & Em) & _). apply mintCA_stored in Em as (serial & _ & ->).
  rewrite Eca. eexists. split; [done|]. cbn. rewrite !seconds_idem. pose proof (seconds_bounds (now - certificateSkew)). pose proof (seconds_bounds (now + defaultCAValidity)).
  split_and!; try done; [|lia]. unfold certificateSkew, GoTime.GoTime.Minute, GoTime.GoTime.Second in *. lia.
Qed.
Lemma made_for dirText now r f ca f' past name leaf : NewCA dirText now r f = (Ok ca, f') -> made ca past name leaf ->
  exists c caKey host0 now0 r0, cert ca = Some c /\ privateKey ca = Some caKey /\ (AskLeaf host0 now0 r0, Some (Ok leaf)) ∈ past /\
    normalizeDNSName host0 = Ok name /\ leafFor c name now0 (Leaf leaf) /\ issuedBy c caKey name r0 leaf.
Proof.
  intros HC (h & n & r0 & Hin & En & Ei). destruct (NewCA_cert _ _ _ _ _ _ HC) as (c & Hc & _ & _ & _ & Hb & Ha).
  assert (normalizeDNSName name = Ok name) as Hn by (eapply IssueLeaf_again; [|done]; by eapply normalized_dnsName).
  destruct (IssueLeaf_by _ _ _ _ _ _ _ Ei Hn Hc) as (caKey & Hk & Hby).
  exists c, caKey, h, n, r0. split_and!; try done. by eapply IssueLeaf_for.
Qed.

(** C36. The leaves of a run: whatever hosts are asked for, whenever, and whether the
    cache or the authority is closed on the way, a leaf that is served is for
    exactly the normalised name asked for, a lower-case DNS name; it was issued
    by this authority in answer to a request for this name: created under the
    certificate that the authority was made with and signed with the key that
    was made with it, the one its key file encodes, over a fresh key of the
    leaf's own; it can only identify servers, is no authority, lies inside the
    authority's own window, and its validity ends at most thirty minutes after
    it was issued; and the cache never holds more than its capacity. *)
Theorem leaves_for_their_names (dirText : string) (now0 : Z) (r0 : nat) (f f' : FS) (ca : CA) (cap : Z) (cache : LeafCache)
    (qs : list request) (h : list (request * answer)) (s' : state) :
  NewCA dirText now0 r0 f = (Ok ca, f') -> NewLeafCache (Some ca) cap = Ok cache ->
  history (Some ca, Some cache) qs = (h, s') ->
  LeafCache_Len s'.2 <= capacity_ cache /\
  forall pre host now r leaf post, h = pre ++ (AskLeaf host now r, Some (Ok leaf)) :: post ->
    exists name c caKey host1 now1 r1, normalizeDNSName host = Ok name /\ dnsName name /\
      cert ca = Some c /\ privateKey ca = Some caKey /\ mintCA now0 r0 = Ok (caKey, c, certPEM ca, keyPEM ca) /\
      (AskLeaf host1 now1 r1, Some (Ok leaf)) ∈ pre ++ [(AskLeaf host now r, Some (Ok leaf))] /\
      normalizeDNSName host1 = Ok name /\ leafFor c name now1 (Leaf leaf) /\ issuedBy c caKey name r1 leaf.
Proof.
  intros HC HL E. destruct (NewCA_files _ _ _ _ _ _ HC) as ((key & c0 & Eca & Emint) & _). destruct (NewLeafCache_served _ _ _ HL) as [Hcap HS]. destruct (history_served _ _ _ _ _ _ _ HS E) as [HS' Hh]. split.
  - destruct HS' as (_ & c & l & z & -> & Hl & B & Ec & Ec' & _). cbn. rewrite Hl. cbn. destruct B as (R & _ & Hb).
    rewrite (Lru.Lru.rep_size l z R). lia.
  - intros pre host now r leaf post Heq. destruct (Hh pre host now r leaf post Heq) as (name & En & Hm).
    destruct (made_for _ _ _ _ _ _ _ _ _ HC Hm) as (c & caKey & h1 & n1 & r1 & Hc & Hk & Hin & En1 & Hf & Hby). exists name, c, caKey, h1, n1, r1.
    assert (c0 = c /\ key = caKey) as [-> ->] by (rewrite Eca in Hc, Hk; cbn in Hc, Hk; by simplify_eq).
    split_and!; try done. by eapply normalized_dnsName.
Qed.

(** A leaf outlives its validity in the cache: once a leaf was served for a name,
    the next request for the name is served the same leaf, however late it
    comes, also when the leaf has expired. *)
Lemma expired_leaf_served (ca ca' : option CA) (c : LeafCache) (l : LRU string LeafCert) (z : list (nat * (string * LeafCert)))
    (host host' : string) (now later : Z) (r r' : nat) (leaf : LeafCert) (c1 : option LeafCache) :
  entries_ c = Some l -> Lru.Lru.bounded l z -> normalizeDNSName host' = normalizeDNSName host ->
  LeafCache_Get ca (Some c) host now r = (Ok leaf, c1) ->
  (LeafCache_Get ca' c1 host' later r').1 = Ok leaf.
Proof.
  intros Hl B En. unfold LeafCache_Get. rewrite En. destruct (normalizeDNSName host) as [name|]; [|done]. destruct (cacheClosed c); [done|]. rewrite Hl.
  destruct (get_spec l z name B) as (l1 & z1 & -> & B1 & _ & Hz1 & Hz2). destruct (Lru.Lru.assoc name z.*2) as [leaf1|] eqn:Ea.
  - intros [= <- <-]. cbn [cacheClosed entries_]. destruct (get_spec l1 z1 name B1) as (l2 & z2 & -> & _). by rewrite Hz2.
  - destruct (IssueLeaf ca name now r) as [leaf1|]; [|done]. destruct (put_spec l1 z1 name leaf1 B1) as (l2 & z2 & -> & B2 & _ & Ha & _).
    intros [= <- <-]. cbn [cacheClosed entries_]. destruct (get_spec l2 z2 name B2) as (l3 & z3 & -> & _). by rewrite Ha.
Qed.
End Authority.

(** ** A sample *)

#[local] Instance sample_tables : UnicodeTables := ascii_tables.
Example normalize_ex :
  (normalizeDNSName <$> ["s3.EU-west-1.amazonaws.com."; "1.2.3.4"; "1.2.3.4."; "-a.com"; "a..com"]) =
  [Ok "s3.eu-west-1.amazonaws.com"; Err (ErrNew "leaf hostname is malformed"); Ok "1.2.3.4";
   Err (ErrNew "leaf hostname label is invalid"); Err (ErrNew "leaf hostname label is invalid")].
Proof. vm_compute. reflexivity. Qed.

Definition sample_now : Z := 100 * Hour + 1.
Definition sample_ca_template : Certificate := caTemplate 7 sample_now.
Definition sample_host : string := "S3.eu-west-1.amazonaws.com.".
Definition sample_name : string := "s3.eu-west-1.amazonaws.com".
Definition sample_leaf_template : Certificate := leafTemplate 7 (sample_now - Minute) (sample_now + 30 * Minute) sample_name.
Definition sample_create (r : nat) (t parent : Certificate) (k k' : nat) : option string :=
  if decide (t = sample_ca_template) then Some "ca" else if decide (t = sample_leaf_template) then Some "leaf" else None.
Definition sample_parse (der : string) : option Certificate :=
  if (der =? "ca")%string then Some (stored sample_ca_template) else if (der =? "leaf")%string then Some (stored sample_leaf_template) else None.
Lemma sample_parses r t parent k k' der c : sample_create r t parent k k' = Some der -> sample_parse der = Some c -> c = stored t.
Proof. unfold sample_create, sample_parse. repeat case_decide; intros [= <-]; cbn; by intros [= <-]; subst. Qed.
Definition sample_fs : FS :=
  mkFS (list_to_map [("/", mkEntry KDir 493 0 EmptyString); ("/h", mkEntry KDir 448 0 EmptyString)]) 0.
Definition sample_encode (kind data : string) : string := (kind ++ ":" ++ data)%string.
Abbreviation sample_NewCA := (NewCA (fun _ => false) (fun _ => 0%nat) 18 (Some "/") (fun r => Some r) (fun _ => Some 7) sample_create sample_parse (fun _ => Some "key") sample_encode).
Abbreviation sample_history := (history (fun _ => false) (fun r => Some r) (fun _ => Some 7) sample_create sample_parse).
Definition sample_ca : CAOf nat :=
  mkCA "/h/ca" "/h/ca/ca.pem" "/h/ca/ca.key" (Some (stored sample_ca_template)) (Some 3%nat) "CERTIFICATE:ca" "EC PRIVATE KEY:key" true false.
Definition sample_cache : LeafCacheOf nat := mkCache (Some (Lru.Lru.mkLRU 2 ∅ [] ∅ 0 0 0 0)) 2 false.
Definition sample_leaf : LeafOf nat := mkLeaf "leaf" 4%nat (stored sample_leaf_template).
Definition sample_requests : list request :=
  [AskLeaf sample_host sample_now 4; AskLeaf sample_name (sample_now + 40 * Minute) 5; CloseLeaves; AskLeaf sample_name sample_now 6].
Definition sample_created : FS := (sample_NewCA "/h/ca" sample_now 3%nat sample_fs).2.

Lemma ca_files_exact_witness :
  sample_NewCA "/h/ca" sample_now 3%nat sample_fs = (Ok sample_ca, sample_created) /\
  entries sample_fs !! "/h/ca/ca.key" = None /\
  entries (Cleanup (fun _ => false) (Some sample_ca) sample_created).2 !! "/h/ca/ca.key" = None.
Proof.
  assert (E : sample_NewCA "/h/ca" sample_now 3%nat sample_fs = (Ok sample_ca, sample_created))
    by (apply injective_projections; [vm_compute; reflexivity|reflexivity]).
  split; [exact E|]. destruct (ca_files_exact _ _ _ _ _ _ _ _ _ _ _ _ _ _ _ _ E) as [(_ & Hk & _) HC]. split; [exact Hk|].
  assert (EC : Cleanup (fun _ => false) (Some sample_ca) sample_created =
    (None, (Cleanup (fun _ => false) (Some sample_ca) sample_created).1.2, (Cleanup (fun _ => false) (Some sample_ca) sample_created).2))
    by (apply injective_projections; [apply injective_projections; [vm_compute; reflexivity|reflexivity]|reflexivity]).
  destruct (HC _ _ _ _ EC) as (_ & _ & HG). exact (proj1 (proj2 (HG eq_refl))).
Defined.
Lemma leaves_for_their_names_witness :
  (sample_history (Some sample_ca, Some sample_cache) sample_requests).1.*2 =
    [Some (Ok sample_leaf); Some (Ok sample_leaf); None; Some (Err (ErrNew "leaf cache is closed"))] /\
  LeafCache_Len (sample_history (Some sample_ca, Some sample_cache) sample_requests).2.2 <= 2 /\
  exists c caKey r1, cert sample_ca = Some c /\ privateKey sample_ca = Some caKey /\
    issuedBy (fun r => Some r) sample_create sample_parse c caKey sample_name r1 sample_leaf.
Proof.
  split; [vm_compute; reflexivity|].
  destruct (leaves_for_their_names (fun _ => false) (fun _ => 0%nat) 18 (Some "/") (fun r => Some r) (fun _ => Some 7) sample_create sample_parse
    (fun _ => Some "key") sample_encode ltac:(by intros r v [= <-]) sample_parses "/h/ca" sample_now 3%nat sample_fs sample_created sample_ca 2 sample_cache
    sample_requests (sample_history (Some sample_ca, Some sample_cache) sample_requests).1
    (sample_history (Some sample_ca, Some sample_cache) sample_requests).2) as [Hlen H]; [|reflexivity|apply surjective_pairing|].
  - apply injective_projections; [vm_compute; reflexivity|reflexivity].
  - split; [exact Hlen|].
    destruct (H [] sample_host sample_now 4%nat sample_leaf (drop 1 (sample_history (Some sample_ca, Some sample_cache) sample_requests).1))
      as (name & c & caKey & host1 & now1 & r1 & Hn & _ & Hc & Hk & _ & _ & _ & _ & Hby); [vm_compute; reflexivity|].
    vm_compute in Hn. injection Hn as <-. exists c, caKey, r1. exact (conj Hc (conj Hk Hby)).
Defined.
(** Forty minutes after its issue the leaf of thirty minutes is served. *)
Lemma expired_leaf_served_witness :
  let first := LeafCache_Get (fun r => Some r) (fun _ => Some 7) sample_create sample_parse (Some sample_ca) (Some sample_cache) sample_host sample_now 4 in
  NotAfter (Leaf sample_leaf) < sample_now + 40 * Minute /\
  (LeafCache_Get (fun r => Some r) (fun _ => Some 7) sample_create sample_parse (Some sample_ca) first.2 sample_name (sample_now + 40 * Minute) 5).1 = Ok sample_leaf.
Proof.
  split; [vm_compute; reflexivity|].
  apply (expired_leaf_served (fun r => Some r) (fun _ => Some 7) sample_create sample_parse (Some sample_ca) (Some sample_ca) sample_cache
    (Lru.Lru.mkLRU 2 ∅ [] ∅ 0 0 0 0) [] sample_host sample_name sample_now (sample_now + 40 * Minute) 4 5 sample_leaf); [reflexivity| |vm_compute; reflexivity|vm_compute; reflexivity].
  apply (Lru.Lru.new_bounded 2). reflexivity.
Defined.
End Pki.
