(* ===== verification/Child.v ===== *)
(** * The child's supervisor (internal/runtime: child.go, terminal_unix.go, signals_unix.go)

    [RunChild] as a function from what its environment does, the hooks' outcomes,
    the answers of the system and the order in which the channels of its select
    become ready, to its result and the trace of what it does.  It has no result
    while it goes on waiting. *)

From Stdlib Require Import ZArith Lia ZifyBool.
From stdpp Require Import base strings list.
From S2P Require Import Prelude GoStrings GoTime.

Module Child.

Definition ExitStartup : Z := 78.
Definition ExitSafety : Z := 70.
Definition ExitExec : Z := 126.
Definition defaultDrainTimeout : Z := 2 * GoTime.GoTime.Second.
Definition defaultCleanupTimeout : Z := 2 * GoTime.GoTime.Second.
Definition defaultKillGrace : Z := 500 * 1000000.
Definition terminalIOCTLAttempts : nat := 16.
Definition SIGKILL : Z := 9.
Definition SIGTERM : Z := 15.

(** ** The terminal *)

Inductive ioctl := IoOk (pgid : Z) | Interrupted | IoError.
Fixpoint retry (n : nat) (k : nat) (answers : nat -> ioctl) : option Z :=
  match n with
  | O => None
  | S n => match answers k with IoOk pgid => Some pgid | Interrupted => retry n (S k) answers | IoError => None end
  end.
Definition terminalForegroundPGID (answers : nat -> ioctl) : option Z := retry terminalIOCTLAttempts 0 answers.
(** A file, with what asking it for its terminal's group yields, or not a file. *)
Inductive stream := AFile (answers : nat -> ioctl) | NotAFile.
Definition usableTerminalStream (s : stream) : bool :=
  match s with
  | NotAFile => false
  | AFile answers => match terminalForegroundPGID answers with Some pgid => 0 <? pgid | None => false end
  end.
(** The terminal's original group. *)
Definition prepareTerminal (stdin stdout stderr : stream) (tty : option (nat -> ioctl)) (ownGroup : Z) : option Z :=
  if negb (usableTerminalStream stdin) || negb (usableTerminalStream stdout) || negb (usableTerminalStream stderr) then None
  else match tty with
  | None => None
  | Some answers =>
    match terminalForegroundPGID answers with
    | None => None
    | Some pgid => if (pgid <=? 0) || negb (ownGroup =? pgid) then None else Some pgid
    end
  end.

(** ** Data *)

Record ChildSpec := mkSpec {
  Argv : list string; Env : option (list string); Dir : string; Stdin : option stream; Stdout : option stream; Stderr : option stream }.
Inductive outcome := HookOk | HookErr | HookPanic.
(** A hook run with a time limit. *)
Inductive bounded := Finished (o : outcome) | TimedOut.
(** A hook that is not nil is what it will do. *)
Record LifecycleHooks := mkHooks {
  Prelaunch : list (option outcome); Start : option outcome; Drain : option bounded; CleanupHook : option bounded }.
Record SupervisorOptions := mkOptions { Hooks : LifecycleHooks; DrainTimeout : Z; KillGrace : Z; CleanupTimeout : Z }.
Record ChildResult := mkResult { ExitCode : Z; Signal : option Z; Started : bool; SafetyFailure : bool }.
(** What [Wait] reports. *)
Inductive waited := WaitNil | WaitFailed | ExitStatus (status : Z) | Signaled (sig : Z) | StatusOther.
(** The select's ready channels, in order. *)
Inductive event := SafetyClosed | SafetyNil | SafetyFailed | SignalSent (sig : option Z) | SignalsClosed | ContextDone | ChildWaited (w : waited).
Record World := mkWorld {
  cancelledBefore : bool; cancelledDuring : bool; osStdin : stream; osStdout : stream; osStderr : stream;
  tty : option (nat -> ioctl); ownGroup : Z; startFails : bool; pid : Z; events : list event;
  reapedInGrace : bool; reapedAfterKill : bool }.

Inductive action :=
| RanPrelaunch (i : nat) | RanStart | NotifySignals | StopSignals
| Launched (argv : list string) (env : option (list string)) (dir : string) (foreground : bool)
| Kill (group : Z) (sig : Z) | AwaitChild (grace : Z)
| RestoreTerminal (pgid : Z) | RanDrain (timeout : Z) | RanCleanup (timeout : Z).
Definition outcomeError (o : outcome) : option error :=
  match o with HookOk => None | HookErr => Some (ErrNew "hook") | HookPanic => Some (ErrNew "runtime hook failed") end.
Definition boundedError (b : bounded) : option error :=
  match b with Finished o => outcomeError o | TimedOut => Some (ErrNew "context deadline exceeded") end.

(** ** Cleanup and shutdown *)

Definition firstPositive (timeouts : list Z) : Z := from_option id defaultCleanupTimeout (List.find (fun t => 0 <? t) timeouts).
Definition cleanupBeforeLaunch (o : SupervisorOptions) : list action :=
  match CleanupHook (Hooks o) with
  | None => []
  | Some _ => [RanCleanup (firstPositive [CleanupTimeout o; DrainTimeout o])]
  end.
Definition forwardToProcessGroup (group sig : Z) : list action := [Kill group sig].
Definition terminateProcessGroup (pid : Z) : list action := if pid <=? 0 then [] else forwardToProcessGroup pid SIGTERM.
Definition forceKillProcessGroup (pid : Z) : list action := if pid <=? 0 then [] else forwardToProcessGroup pid SIGKILL.
Definition waitForChild (o : SupervisorOptions) (w : World) : list action :=
  let grace := if KillGrace o <=? 0 then defaultKillGrace else KillGrace o in
  AwaitChild grace :: if reapedInGrace w then [] else forceKillProcessGroup (pid w) ++ [AwaitChild grace].
Definition restore (terminal : option Z) : list action := match terminal with None => [] | Some pgid => [RestoreTerminal pgid] end.
Definition failedResult (r : ChildResult) : ChildResult := mkResult ExitSafety (Signal r) (Started r) true.
(** A hook of the shutdown: its failure replaces a result that is no failure yet. *)
Definition runHook (hook : option bounded) (ran : action) (msg : string) (r : ChildResult) (cause : option error) : ChildResult * option error * list action :=
  match hook with
  | None => (r, cause, [])
  | Some b =>
    match boundedError b with
    | Some _ => if negb (SafetyFailure r) then (failedResult r, Some (ErrNew msg), [ran]) else (r, cause, [ran])
    | None => (r, cause, [ran])
    end
  end.
Definition finishChild (r : ChildResult) (terminal : option Z) (o : SupervisorOptions) (cause : option error) : ChildResult * option error * list action :=
  let drainTimeout := if DrainTimeout o <=? 0 then defaultDrainTimeout else DrainTimeout o in
  let '(r, cause, drained) := runHook (Drain (Hooks o)) (RanDrain drainTimeout) "runtime drain failed" r cause in
  let cleanupTimeout := if CleanupTimeout o <=? 0 then drainTimeout else CleanupTimeout o in
  let '(r, cause, cleaned) := runHook (CleanupHook (Hooks o)) (RanCleanup cleanupTimeout) "runtime cleanup failed" r cause in
  (r, cause, restore terminal ++ drained ++ cleaned).
Definition statusResult (r : ChildResult) (w : waited) : ChildResult :=
  match w with
  | WaitNil => mkResult 0 (Signal r) (Started r) (SafetyFailure r)
  | WaitFailed | StatusOther => failedResult r
  | ExitStatus status => mkResult status (Signal r) (Started r) (SafetyFailure r)
  | Signaled sig => mkResult (128 + sig) (Some sig) (Started r) (SafetyFailure r)
  end.

(** ** Supervision *)

Definition stopChild (o : SupervisorOptions) (w : World) : list action :=
  terminateProcessGroup (pid w) ++ waitForChild o w ++ forceKillProcessGroup (pid w).
(** [safety] and [signals]: the channels that are not nil. *)
Fixpoint supervise (o : SupervisorOptions) (w : World) (terminal : option Z) (safety signals : bool) (es : list event) : option (ChildResult * option error * list action) :=
  let running := mkResult 0 None true false in
  match es with
  | [] => None
  | e :: es =>
    match e with
    | SafetyClosed | SafetyNil => supervise o w terminal false signals es
    | SafetyFailed =>
      if negb safety then supervise o w terminal safety signals es
      else
        let '(r, err, tr) := finishChild (failedResult running) terminal o (Some (ErrNew "post-launch safety failure")) in
        Some (r, err, stopChild o w ++ tr)
    | SignalsClosed => supervise o w terminal safety false es
    | SignalSent sig =>
      if negb signals then supervise o w terminal safety signals es
      else
        '(r, err, tr) ← supervise o w terminal safety signals es;
        Some (r, err, from_option (forwardToProcessGroup (pid w)) [] sig ++ tr)
    | ContextDone =>
      let '(r, err, tr) := finishChild (failedResult running) terminal o (Some (ErrNew "child context cancelled")) in
      Some (r, err, stopChild o w ++ tr)
    | ChildWaited status => Some (finishChild (statusResult running status) terminal o None)
    end
  end.

(** The prelaunch hooks from the [i]-th on: whether all went well, and what ran. *)
Fixpoint runPrelaunch (i : nat) (hooks : list (option outcome)) : bool * list action :=
  match hooks with
  | [] => (true, [])
  | None :: hooks => runPrelaunch (S i) hooks
  | Some out :: hooks =>
    match outcomeError out with
    | Some _ => (false, [RanPrelaunch i])
    | None => let (ok, tr) := runPrelaunch (S i) hooks in (ok, RanPrelaunch i :: tr)
    end
  end.
Definition runStart (h : option outcome) : bool * list action :=
  match h with None => (true, []) | Some out => (match outcomeError out with None => true | Some _ => false end, [RanStart]) end.
Definition unlaunched (code : Z) (msg : string) : ChildResult * option error := (mkResult code None false false, Some (ErrNew msg)).
Definition RunChild (spec : ChildSpec) (o : SupervisorOptions) (w : World) : option (ChildResult * option error * list action) :=
  match Argv spec with
  | [] => Some (unlaunched ExitStartup "child command is required", [])
  | argv0 :: _ =>
    if (argv0 =? "")%string then Some (unlaunched ExitStartup "child command is required", [])
    else if cancelledBefore w then Some (unlaunched ExitStartup "protected startup was cancelled", cleanupBeforeLaunch o)
    else
      let (ok, prelaunched) := runPrelaunch 0 (Prelaunch (Hooks o)) in
      if negb ok then Some (unlaunched ExitStartup "protected startup failed", prelaunched ++ cleanupBeforeLaunch o)
      else
        let (ok, started) := runStart (Start (Hooks o)) in
        if negb ok then Some (unlaunched ExitStartup "protected runtime start failed", prelaunched ++ started ++ cleanupBeforeLaunch o)
        else if cancelledDuring w then Some (unlaunched ExitStartup "protected startup was cancelled", prelaunched ++ started ++ cleanupBeforeLaunch o)
        else
          let terminal := prepareTerminal (default (osStdin w) (Stdin spec)) (default (osStdout w) (Stdout spec)) (default (osStderr w) (Stderr spec)) (tty w) (ownGroup w) in
          let foreground := match terminal with Some _ => true | None => false end in
          let setup := prelaunched ++ started ++ [NotifySignals; Launched (Argv spec) (Env spec) (Dir spec) foreground] in
          if startFails w
          then Some (unlaunched ExitExec "child exec failed", setup ++ restore terminal ++ cleanupBeforeLaunch o ++ [StopSignals])
          else
            '(r, err, tr) ← supervise o w terminal true true (events w);
            Some (r, err, setup ++ tr ++ [StopSignals])
  end.
Definition Execute (spec : ChildSpec) (o : SupervisorOptions) (w : World) : option Z :=
  '(r, _, _) ← RunChild spec o w; Some (ExitCode r).

(** ** The shape of a run *)

Definition ranDrain (o : SupervisorOptions) (tr : list action) : Prop :=
  match Drain (Hooks o) with None => tr = [] | Some _ => exists t, 0 < t /\ tr = [RanDrain t] end.
Definition ranCleanup (o : SupervisorOptions) (tr : list action) : Prop :=
  match CleanupHook (Hooks o) with None => tr = [] | Some _ => exists t, 0 < t /\ tr = [RanCleanup t] end.
Lemma cleanupBeforeLaunch_ran o : ranCleanup o (cleanupBeforeLaunch o).
Proof.
  unfold ranCleanup, cleanupBeforeLaunch. destruct (CleanupHook (Hooks o)); [|done]. eexists. split; [|done].
  unfold firstPositive. cbn. repeat case_match; try done; cbn in *; simplify_eq; by apply Z.ltb_lt.
Qed.
Definition kept (r r' : ChildResult) (cause err : option error) : Prop :=
  (r' = r /\ err = cause) \/ (SafetyFailure r = false /\ Started r' = Started r /\ ExitCode r' = ExitSafety /\ SafetyFailure r' = true /\ err <> None).
Lemma runHook_shape hook ran msg r cause r' err tr : runHook hook ran msg r cause = (r', err, tr) ->
  tr = match hook with None => [] | Some _ => [ran] end /\ kept r r' cause err.
Proof.
  unfold runHook, kept. destruct hook as [b|]; [|intros [= <- <- <-]; auto]. destruct (boundedError b); [|intros [= <- <- <-]; auto].
  destruct (SafetyFailure r) eqn:E; cbn [negb]; intros [= <- <- <-]; (split; [done|]); [auto|right; by split_and!].
Qed.
Lemma kept_trans r1 r2 r3 e1 e2 e3 : kept r1 r2 e1 e2 -> kept r2 r3 e2 e3 -> kept r1 r3 e1 e3.
Proof.
  unfold kept. intros [[-> ->]|(H1 & H2 & H3 & H4 & H5)] [[-> ->]|(H6 & H7 & H8 & H9 & H10)]; [by left|right; by split_and!|right; by split_and!|congruence].
Qed.
Lemma finishChild_shape r terminal o cause r' err tr : finishChild r terminal o cause = (r', err, tr) ->
  exists drained cleaned, tr = restore terminal ++ drained ++ cleaned /\ ranDrain o drained /\ ranCleanup o cleaned /\ kept r r' cause err.
Proof.
  unfold finishChild. set (dt := if DrainTimeout o <=? 0 then _ else _).
  assert (Hdt : 0 < dt) by (subst dt; destruct (Z.leb_spec (DrainTimeout o) 0); [done|lia]).
  set (ct := if CleanupTimeout o <=? 0 then _ else _).
  assert (Hct : 0 < ct) by (subst ct; destruct (Z.leb_spec (CleanupTimeout o) 0); lia).
  destruct (runHook (Drain (Hooks o)) _ _ _ _) as [[r1 e1] drained] eqn:E1. destruct (runHook (CleanupHook (Hooks o)) _ _ _ _) as [[r2 e2] cleaned] eqn:E2.
  intros [= <- <- <-]. apply runHook_shape in E1 as [-> K1]. apply runHook_shape in E2 as [-> K2]. eexists _, _. split; [reflexivity|].
  split; [unfold ranDrain; destruct (Drain _); eauto|]. split; [unfold ranCleanup; destruct (CleanupHook _); eauto|]. by eapply kept_trans.
Qed.

(** A hook of the shutdown failed, panicked or took too long. *)
Definition shutdownFailed (o : SupervisorOptions) : bool :=
  let failed h := match h with Some b => negb (err_nil (boundedError b)) | None => false end in
  failed (Drain (Hooks o)) || failed (CleanupHook (Hooks o)).
Lemma finishChild_result r terminal o cause r' err tr : finishChild r terminal o cause = (r', err, tr) ->
  if shutdownFailed o && negb (SafetyFailure r) then r' = failedResult r /\ err <> None else r' = r /\ err = cause.
Proof.
  unfold finishChild, shutdownFailed, runHook. destruct (Drain (Hooks o)) as [d|], (CleanupHook (Hooks o)) as [c|];
    try destruct (boundedError d); try destruct (boundedError c); destruct (SafetyFailure r) eqn:E; cbn; rewrite ?E; by intros [= <- <- <-].
Qed.

(** ** When supervision ends *)

(** An event ends the supervision, after those before it: the failure of the
    safety monitor does unless the monitor had been done with. *)
Definition ends (before : list event) (e : event) : Prop :=
  match e with
  | ContextDone | ChildWaited _ => True
  | SafetyFailed => SafetyClosed ∉ before /\ SafetyNil ∉ before
  | _ => False
  end.
(** The first event that does. *)
Definition verdict (es before : list event) (e : event) : Prop :=
  (exists after, es = before ++ e :: after) /\ ends before e /\
  forall b e' a, before = b ++ e' :: a -> ~ ends b e'.
(** The signals that arrive while the channel is open. *)
Fixpoint arriving (es : list event) : list Z :=
  match es with
  | [] | SignalsClosed :: _ => []
  | SignalSent (Some sig) :: es => sig :: arriving es
  | _ :: es => arriving es
  end.
(** What is done to stop a child: SIGTERM, a wait of the grace, SIGKILL and another
    one when it was in vain, and a last SIGKILL for its group. *)
Definition stopping (o : SupervisorOptions) (w : World) : list action :=
  let grace := if KillGrace o <=? 0 then defaultKillGrace else KillGrace o in
  [Kill (pid w) SIGTERM; AwaitChild grace] ++
  (if reapedInGrace w then [] else [Kill (pid w) SIGKILL; AwaitChild grace]) ++ [Kill (pid w) SIGKILL].
Lemma stopChild_stopping o w : 0 < pid w -> stopChild o w = stopping o w.
Proof.
  intros H. unfold stopChild, stopping, waitForChild, terminateProcessGroup, forceKillProcessGroup. destruct (Z.leb_spec (pid w) 0); [lia|].
  by destruct (reapedInGrace w).
Qed.
(** What a verdict comes to: what stops the child, its result and the cause. *)
Definition running : ChildResult := mkResult 0 None true false.
Definition concluded (o : SupervisorOptions) (w : World) (e : event) : list action * ChildResult * option error :=
  match e with
  | ChildWaited status => ([], statusResult running status, None)
  | SafetyFailed => (stopChild o w, failedResult running, Some (ErrNew "post-launch safety failure"))
  | _ => (stopChild o w, failedResult running, Some (ErrNew "child context cancelled"))
  end.

(** The same from the middle on, with the channels that are still looked at. *)
Definition endsFrom (safety : bool) (before : list event) (e : event) : Prop :=
  ends before e /\ (e = SafetyFailed -> safety = true).
Definition safetyAfter (safety : bool) (e : event) : bool := match e with SafetyClosed | SafetyNil => false | _ => safety end.
Lemma endsFrom_cons safety x before e : endsFrom safety (x :: before) e <-> endsFrom (safetyAfter safety x) before e.
Proof.
  unfold endsFrom. destruct e; cbn [ends]; try (split; intros [? _]; done).
  rewrite !not_elem_of_cons. destruct x; cbn [safetyAfter]; naive_solver.
Qed.
Definition arrivingFrom (signals : bool) (es : list event) : list Z := if signals then arriving es else [].
Definition superviseSpec (o : SupervisorOptions) (w : World) (terminal : option Z) (safety signals : bool) (es : list event)
    (res : ChildResult * option error * list action) : Prop :=
  exists before e after tr, es = before ++ e :: after /\ endsFrom safety before e /\
    (forall b e' a, before = b ++ e' :: a -> ~ endsFrom safety b e') /\
    let '(stop, r0, cause) := concluded o w e in
    finishChild r0 terminal o cause = (res.1.1, res.1.2, tr) /\
    res.2 = (Kill (pid w) <$> arrivingFrom signals before) ++ stop ++ tr.
Lemma superviseSpec_here o w terminal safety signals e es r err stop r0 cause tr : endsFrom safety [] e ->
  concluded o w e = (stop, r0, cause) -> finishChild r0 terminal o cause = (r, err, tr) ->
  superviseSpec o w terminal safety signals (e :: es) (r, err, stop ++ tr).
Proof.
  intros He Hc Hf. exists [], e, es, tr. split; [done|]. split; [done|]. split; [by intros []|]. rewrite Hc. split; [done|].
  by destruct signals.
Qed.
Lemma superviseSpec_later o w terminal safety signals signals' x es r err tr fwd : ~ endsFrom safety [] x ->
  superviseSpec o w terminal (safetyAfter safety x) signals' es (r, err, tr) ->
  (forall l, Kill (pid w) <$> arrivingFrom signals (x :: l) = fwd ++ (Kill (pid w) <$> arrivingFrom signals' l)) ->
  superviseSpec o w terminal safety signals (x :: es) (r, err, fwd ++ tr).
Proof.
  intros Hx (before & e & after & tr0 & -> & He & Hb & Hrest) Hfwd. exists (x :: before), e, after, tr0. split; [done|].
  split; [by apply endsFrom_cons|]. split.
  - intros [|y b] e' a [= <- E]; [done|]. rewrite endsFrom_cons. by eapply Hb.
  - destruct (concluded o w e) as [[stop r0] cause]. destruct Hrest as [Hf Ht]. cbn [fst snd] in *. split; [done|].
    rewrite Hfwd, Ht. by rewrite !app_assoc.
Qed.
Lemma supervise_spec o w terminal safety signals es res :
  supervise o w terminal safety signals es = Some res -> superviseSpec o w terminal safety signals es res.
Proof.
  revert safety signals res. induction es as [|e es IH]; intros safety signals [[r err] tr]; cbn [supervise]; [done|].
  assert (Hno : forall x, (forall b, ~ ends b x) -> ~ endsFrom safety [] x) by (intros x Hx [? _]; by eapply Hx).
  assert (Hskip : forall safety' signals', safetyAfter safety e = safety' -> ~ endsFrom safety [] e ->
    (forall l, arrivingFrom signals (e :: l) = arrivingFrom signals' l) ->
    supervise o w terminal safety' signals' es = Some (r, err, tr) -> superviseSpec o w terminal safety signals (e :: es) (r, err, tr)).
  { intros safety' signals' <- He Hl E. by eapply (superviseSpec_later _ _ _ _ _ _ _ _ _ _ tr []); [done|apply IH|intros l; rewrite Hl]. }
  assert (Hhere : forall stop r0 cause, endsFrom safety [] e -> concluded o w e = (stop, r0, cause) ->
    (let '(r1, err1, tr1) := finishChild r0 terminal o cause in Some (r1, err1, stop ++ tr1)) = Some (r, err, tr) ->
    superviseSpec o w terminal safety signals (e :: es) (r, err, tr)).
  { intros stop r0 cause He Hc. destruct (finishChild r0 terminal o cause) as [[r1 err1] tr1] eqn:Ef. intros [= <- <- <-]. by eapply superviseSpec_here. }
  destruct e as [| | |sig| | |status].
  - apply Hskip; [done|by apply Hno; cbn; auto|by destruct signals].
  - apply Hskip; [done|by apply Hno; cbn; auto|by destruct signals].
  - destruct safety; cbn [negb]; [apply Hhere; [|done]; split; [split; by apply not_elem_of_nil|done]|].
    apply Hskip; [done|by intros [_ H]; specialize (H eq_refl)|by destruct signals].
  - destruct signals; cbn [negb]; [|apply Hskip; [done|by apply Hno; cbn; auto|done]].
    destruct (supervise o w terminal safety true es) as [[[r0 err0] tr0]|] eqn:Es; [|done]. cbn [mbind option_bind]. intros [= <- <- <-].
    eapply (superviseSpec_later _ _ _ _ _ true); [by apply Hno; cbn; auto|by apply IH|]. intros l. by destruct sig.
  - apply Hskip; [done|by apply Hno; cbn; auto|by destruct signals].
  - apply Hhere; [by split|done].
  - destruct (finishChild _ _ _ _) as [[r0 err0] tr0] eqn:Ef. intros [= <- <- <-].
    by eapply (superviseSpec_here _ _ _ _ _ (ChildWaited status) _ _ _ []); [split| |exact Ef].
Qed.
Lemma supervise_ends o w terminal safety signals es : (exists e, e ∈ es /\ (e = ContextDone \/ exists status, e = ChildWaited status)) ->
  supervise o w terminal safety signals es <> None.
Proof.
  revert safety signals. induction es as [|e es IH]; intros safety signals (e' & Hin & H); [by apply elem_of_nil in Hin|].
  apply elem_of_cons in Hin as [->|Hin].
  - destruct H as [->|[status ->]]; cbn [supervise]; [|done]. by destruct (finishChild _ _ _ _) as [[? ?] ?].
  - assert (IH' : forall safety signals, supervise o w terminal safety signals es <> None) by (intros; apply IH; eauto).
    destruct e as [| | |sig| | |status]; cbn [supervise]; try apply IH'; try done.
    + destruct safety; cbn [negb]; [|apply IH']. by destruct (finishChild _ _ _ _) as [[? ?] ?].
    + destruct signals; cbn [negb]; [|apply IH']. specialize (IH' safety true). by destruct (supervise o w terminal safety true es) as [[[? ?] ?]|].
    + by destruct (finishChild _ _ _ _) as [[? ?] ?].
Qed.

(** ** Before the launch *)

Definition hookFine (h : option outcome) : Prop := h = None \/ h = Some HookOk.
(** The hooks that there are, in order, with what they will do. *)
Fixpoint prelaunches (i : nat) (hooks : list (option outcome)) : list (action * outcome) :=
  match hooks with
  | [] => []
  | None :: hooks => prelaunches (S i) hooks
  | Some out :: hooks => (RanPrelaunch i, out) :: prelaunches (S i) hooks
  end.
Definition starts (h : option outcome) : list (action * outcome) := match h with None => [] | Some out => [(RanStart, out)] end.
Definition setupHooks (o : SupervisorOptions) : list (action * outcome) := prelaunches 0 (Prelaunch (Hooks o)) ++ starts (Start (Hooks o)).
(** Those that run: up to the first that does not go well, which runs too. *)
Fixpoint untilFailure (hooks : list (action * outcome)) : list action :=
  match hooks with
  | [] => []
  | (ran, HookOk) :: hooks => ran :: untilFailure hooks
  | (ran, _) :: _ => [ran]
  end.
Lemma runPrelaunch_spec i hooks ok tr : runPrelaunch i hooks = (ok, tr) -> tr = untilFailure (prelaunches i hooks) /\
  (if ok then Forall hookFine hooks else ~ Forall hookFine hooks) /\
  (forall l, untilFailure (prelaunches i hooks ++ l) = if ok then tr ++ untilFailure l else tr).
Proof.
  revert i ok tr. induction hooks as [|h hooks IH]; intros i ok tr; [by intros [= <- <-]|].
  destruct h as [out|]; cbn [runPrelaunch prelaunches].
  - destruct out; cbn [outcomeError]; [destruct (runPrelaunch (S i) hooks) as [ok' tr'] eqn:E; specialize (IH _ _ _ E) as (-> & Hok & Hl)| |];
      intros [= <- <-]; (split; [done|]);
      [|split; [by intros [[|[= ?]] _]%Forall_cons|done]|split; [by intros [[|[= ?]] _]%Forall_cons|done]].
    split; [destruct ok'; [by constructor; [right|]|by intros [_ ?]%Forall_cons]|]. intros l. cbn [untilFailure app]. rewrite Hl. by destruct ok'.
  - intros E. specialize (IH _ _ _ E) as (-> & Hok & Hl). split; [done|]. split; [|done].
    destruct ok; [by constructor; [left|]|by intros [_ ?]%Forall_cons].
Qed.
Lemma runStart_spec h ok tr : runStart h = (ok, tr) -> tr = untilFailure (starts h) /\ (ok = true <-> hookFine h).
Proof.
  unfold hookFine. destruct h as [out|]; intros [= <- <-]; [destruct out|]; (split; [done|]); naive_solver.
Qed.
(** A child is launched when nothing before it failed and the context lived. *)
Definition ready (o : SupervisorOptions) (w : World) : Prop :=
  cancelledBefore w = false /\ Forall hookFine (Prelaunch (Hooks o)) /\ hookFine (Start (Hooks o)) /\ cancelledDuring w = false.
Lemma ready_setup o w : ready o w -> untilFailure (setupHooks o) = (setupHooks o).*1.
Proof.
  intros (_ & Hp & Hs & _). unfold setupHooks. rewrite fmap_app. generalize O.
  induction Hp as [|h hooks Hh Hp IH]; intros i; cbn [prelaunches app]; [by destruct Hs as [->| ->]|].
  destruct Hh as [->| ->]; [apply IH|]. cbn [untilFailure app fmap list_fmap]. by rewrite IH.
Qed.
(** The terminal's group to give the terminal back to. *)
Definition terminalOf (spec : ChildSpec) (w : World) : option Z :=
  prepareTerminal (default (osStdin w) (Stdin spec)) (default (osStdout w) (Stdout spec)) (default (osStderr w) (Stderr spec)) (tty w) (ownGroup w).
(** Asked at most sixteen times as long as it is interrupted, a terminal names its
    foreground group. *)
Definition foregroundIs (answers : nat -> ioctl) (pgid : Z) : Prop :=
  exists k, (k < terminalIOCTLAttempts)%nat /\ answers k = IoOk pgid /\ forall j, (j < k)%nat -> answers j = Interrupted.
Definition onTerminal (s : stream) : Prop := exists answers pgid, s = AFile answers /\ foregroundIs answers pgid /\ 0 < pgid.
(** The child's three streams are terminals, and Kordn's group is the controlling
    terminal's foreground group. *)
Definition inForeground (spec : ChildSpec) (w : World) : Prop :=
  onTerminal (default (osStdin w) (Stdin spec)) /\ onTerminal (default (osStdout w) (Stdout spec)) /\ onTerminal (default (osStderr w) (Stderr spec)) /\
  (exists answers, tty w = Some answers /\ foregroundIs answers (ownGroup w)) /\ 0 < ownGroup w.
Lemma retry_spec n k answers pgid : retry n k answers = Some pgid <->
  exists i, (i < n)%nat /\ answers (k + i)%nat = IoOk pgid /\ forall j, (j < i)%nat -> answers (k + j)%nat = Interrupted.
Proof.
  revert k. induction n as [|n IH]; intros k; cbn [retry]; [split; [done|intros (i & ? & _); lia]|]. destruct (answers k) as [p| |] eqn:E.
  - split; [intros [= ->]; exists O; rewrite Nat.add_0_r; split_and!; [lia|done|intros; lia]|].
    intros (i & Hi & Ha & Hb). destruct i as [|i]; [rewrite Nat.add_0_r in Ha; congruence|]. specialize (Hb O ltac:(lia)). rewrite Nat.add_0_r in Hb. congruence.
  - rewrite IH. split.
    + intros (i & Hi & Ha & Hb). exists (S i). split_and!; [lia|by replace (k + S i)%nat with (S k + i)%nat by lia|].
      intros [|j] Hj; [by rewrite Nat.add_0_r|]. replace (k + S j)%nat with (S k + j)%nat by lia. apply Hb. lia.
    + intros (i & Hi & Ha & Hb). destruct i as [|i]; [rewrite Nat.add_0_r in Ha; congruence|]. exists i.
      split_and!; [lia|by replace (S k + i)%nat with (k + S i)%nat by lia|]. intros j Hj. replace (S k + j)%nat with (k + S j)%nat by lia. apply Hb. lia.
  - split; [done|]. intros (i & Hi & Ha & Hb). destruct i as [|i]; [rewrite Nat.add_0_r in Ha; congruence|]. specialize (Hb O ltac:(lia)). rewrite Nat.add_0_r in Hb. congruence.
Qed.
Lemma foregroundIs_spec answers pgid : terminalForegroundPGID answers = Some pgid <-> foregroundIs answers pgid.
Proof. unfold terminalForegroundPGID, foregroundIs. by rewrite retry_spec. Qed.
Lemma usable_spec s : usableTerminalStream s = true <-> onTerminal s.
Proof.
  unfold onTerminal, usableTerminalStream. destruct s as [answers|]; [|split; [done|by intros (? & ? & ? & _)]].
  destruct (terminalForegroundPGID answers) as [p|] eqn:E.
  - rewrite Z.ltb_lt. split; [intros H; exists answers, p; split_and!; [done|by apply foregroundIs_spec|done]|].
    intros (? & q & [= <-] & Hq%foregroundIs_spec & ?). congruence.
  - split; [done|]. intros (? & q & [= <-] & Hq%foregroundIs_spec & _). congruence.
Qed.
Lemma terminalOf_spec spec w pgid : terminalOf spec w = Some pgid <-> inForeground spec w /\ pgid = ownGroup w.
Proof.
  unfold terminalOf, prepareTerminal, inForeground. rewrite <-!usable_spec.
  destruct (usableTerminalStream (default (osStdin w) _)); cbn [negb orb]; [|naive_solver].
  destruct (usableTerminalStream (default (osStdout w) _)); cbn [negb orb]; [|naive_solver].
  destruct (usableTerminalStream (default (osStderr w) _)); cbn [negb orb]; [|naive_solver].
  destruct (tty w) as [answers|]; [|naive_solver].
  destruct (terminalForegroundPGID answers) as [p|] eqn:E.
  - apply foregroundIs_spec in E as Hp. destruct (Z.leb_spec p 0); cbn [orb].
    + split; [done|]. intros ((_ & _ & _ & (? & [= <-] & Hq%foregroundIs_spec) & ?) & _). rewrite E in Hq. injection Hq as ->. lia.
    + destruct (Z.eqb_spec (ownGroup w) p) as [->|Hne]; cbn [negb].
      * split; [intros [= <-]; split_and!; eauto|by intros [_ ->]].
      * split; [done|]. intros ((_ & _ & _ & (? & [= <-] & Hq%foregroundIs_spec) & ?) & _). congruence.
  - split; [done|]. intros ((_ & _ & _ & (? & [= <-] & Hq%foregroundIs_spec) & ?) & _). congruence.
Qed.

(** A run that launches the child: the hooks, the launch, what follows it, and
    the signals let go at the end. *)
Definition launching (spec : ChildSpec) (o : SupervisorOptions) (w : World) (after : list action) : list action :=
  (setupHooks o).*1 ++
  [NotifySignals; Launched (Argv spec) (Env spec) (Dir spec) (match terminalOf spec w with Some _ => true | None => false end)] ++
  after ++ [StopSignals].
Definition givenBack (spec : ChildSpec) (w : World) : list action :=
  match terminalOf spec w with Some pgid => [RestoreTerminal pgid] | None => [] end.

(** What a run of a supervised child does and results in, by the event that ends it. *)
Definition supervisedBy (spec : ChildSpec) (o : SupervisorOptions) (w : World) (before : list event) (e : event)
    (r : ChildResult) (err : option error) (tr : list action) : Prop :=
  exists drained cleaned, ranDrain o drained /\ ranCleanup o cleaned /\
    match e with
    | ChildWaited status =>
        tr = launching spec o w ((Kill (pid w) <$> arriving before) ++ givenBack spec w ++ drained ++ cleaned) /\
        let own := statusResult running status in
        if shutdownFailed o && negb (SafetyFailure own) then r = failedResult own /\ err <> None else r = own /\ err = None
    | _ =>
        tr = launching spec o w ((Kill (pid w) <$> arriving before) ++ stopping o w ++ givenBack spec w ++ drained ++ cleaned) /\
        r = mkResult ExitSafety None true true /\ err <> None
    end.

Lemma concluded_supervised spec o w before e stop r0 cause r err tr : 0 < pid w -> ends before e ->
  concluded o w e = (stop, r0, cause) -> finishChild r0 (terminalOf spec w) o cause = (r, err, tr) ->
  supervisedBy spec o w before e r err (launching spec o w ((Kill (pid w) <$> arriving before) ++ stop ++ tr)).
Proof.
  intros Hpid He Ec Hf. unfold supervisedBy.
  destruct (finishChild_shape _ _ _ _ _ _ _ Hf) as (drained & cleaned & -> & Hd & Hc & _). exists drained, cleaned.
  pose proof (finishChild_result _ _ _ _ _ _ _ Hf) as Hr. split; [done|]. split; [done|].
  destruct e; cbn [ends] in He; try done; cbn [concluded] in Ec; injection Ec as <- <- <-; (split; [by rewrite ?(stopChild_stopping _ _ Hpid)|]);
    try exact Hr; cbn in Hr; rewrite andb_false_r in Hr; by destruct Hr as [-> ->].
Qed.
Lemma supervised_run spec o w r err tr : 0 < pid w ->
  supervise o w (terminalOf spec w) true true (events w) = Some (r, err, tr) ->
  exists before e, verdict (events w) before e /\ supervisedBy spec o w before e r err (launching spec o w tr).
Proof.
  intros Hpid (before & e & after & tr0 & Hes & [He _] & Hb & H)%supervise_spec. exists before, e. split.
  - split; [by exists after|]. split; [done|]. intros b e' a Eb Hx. eapply (Hb b e' a Eb). by split.
  - destruct (concluded o w e) as [[stop r0] cause] eqn:Ec. destruct H as [Hf Ht]. cbn [fst snd arrivingFrom] in Hf, Ht. rewrite Ht.
    by eapply concluded_supervised.
Qed.

(** C40. The supervision of the child.  Without a command nothing is done and the
    code is 78.  With one, whatever the hooks and the system do: the hooks run in
    their order, up to the first that fails or panics, none when the context was
    cancelled before; a child is launched exactly when none failed and the context
    was not cancelled, once, with exactly the arguments and environment of the
    specification.  (The system's process identifiers are positive.)  A run
    without a launch then runs the cleanup hook alone and
    has the code 78; a failed launch gives the terminal back, runs the cleanup
    hook and has the code 126.  A launched child is supervised until the first of
    these events: the safety monitor fails (unless it had ended before), the
    context is done, or the child has been waited for.  The signals that arrive
    before it are forwarded to the child's group, all of them and in order.  After
    the first two the group is sent SIGTERM, SIGKILL after the grace if that was
    in vain, and a last SIGKILL, and the code is 70; after the third the code is
    the child's, or 70 if a hook of the shutdown fails.  Then the terminal is given
    back to Kordn's group exactly when the child's streams are terminals and Kordn
    was in its foreground, and the drain hook and the cleanup hook, if any, run
    once, in this order and with a positive time limit; and the run ends once the
    child is waited for or the context is done. *)
Theorem child_supervised (spec : ChildSpec) (o : SupervisorOptions) (w : World) :
  (Argv spec = [] \/ head (Argv spec) = Some EmptyString -> exists err, RunChild spec o w = Some (mkResult ExitStartup None false false, Some err, [])) /\
  (Argv spec <> [] -> head (Argv spec) <> Some EmptyString -> 0 < pid w ->
   forall r err tr, RunChild spec o w = Some (r, err, tr) ->
   (~ ready o w /\ exists cleaned, ranCleanup o cleaned /\ tr = (if cancelledBefore w then [] else untilFailure (setupHooks o)) ++ cleaned /\
      r = mkResult ExitStartup None false false /\ err <> None) \/
   (ready o w /\ startFails w = true /\ exists cleaned, ranCleanup o cleaned /\
      tr = launching spec o w (givenBack spec w ++ cleaned) /\ r = mkResult ExitExec None false false /\ err <> None) \/
   (ready o w /\ startFails w = false /\ exists before e, verdict (events w) before e /\ supervisedBy spec o w before e r err tr)) /\
  (forall pgid, terminalOf spec w = Some pgid <-> inForeground spec w /\ pgid = ownGroup w) /\
  ((exists e, e ∈ events w /\ (e = ContextDone \/ exists status, e = ChildWaited status)) -> RunChild spec o w <> None).
Proof.
  split; [|split; [|split; [apply terminalOf_spec|]]]; unfold RunChild.
  - intros [->|H]; [by eexists|]. destruct (Argv spec) as [|argv0 args]; [by eexists|]. injection H as ->. by eexists.
  - intros Hne Hhd Hpid r err tr. destruct (Argv spec) as [|argv0 args] eqn:Ea; [done|]. destruct (String.eqb_spec argv0 "") as [->|_]; [done|].
    pose proof (cleanupBeforeLaunch_ran o) as Hcb.
    assert (Hno : forall setup msg, ~ ready o w -> setup = (if cancelledBefore w then [] else untilFailure (setupHooks o)) ->
      Some (unlaunched ExitStartup msg, setup ++ cleanupBeforeLaunch o) = Some (r, err, tr) ->
      ~ ready o w /\ exists cleaned, ranCleanup o cleaned /\ tr = (if cancelledBefore w then [] else untilFailure (setupHooks o)) ++ cleaned /\
        r = mkResult ExitStartup None false false /\ err <> None).
    { intros setup msg Hr -> [= <- <- <-]. split; [done|]. by exists (cleanupBeforeLaunch o). }
    destruct (cancelledBefore w) eqn:Eb.
    { intros Hrun. left. eapply (Hno []); [intros [Hx _]; congruence|done|exact Hrun]. }
    destruct (runPrelaunch 0 (Prelaunch (Hooks o))) as [ok prelaunched] eqn:Ep. apply runPrelaunch_spec in Ep as (_ & Hpok & Hp).
    specialize (Hp (starts (Start (Hooks o)))). fold (setupHooks o) in Hp.
    destruct ok; cbn [negb].
    2:{ rewrite <-Hp. intros Hrun. left. eapply Hno; [intros (_ & ? & _); done|reflexivity|exact Hrun]. }
    destruct (runStart (Start (Hooks o))) as [ok started] eqn:Es. apply runStart_spec in Es as [Hs Hsok].
    rewrite <-Hs in Hp. rewrite !(app_assoc prelaunched started), <-!Hp.
    destruct ok; cbn [negb].
    2:{ intros Hrun. left. eapply Hno; [|reflexivity|exact Hrun]. intros (_ & _ & Hx & _). by apply Hsok in Hx. }
    destruct (cancelledDuring w) eqn:Ed.
    { intros Hrun. left. eapply Hno; [|reflexivity|exact Hrun]. intros (_ & _ & _ & Hx). congruence. }
    assert (Hready : ready o w) by (unfold ready; split_and!; try done; by apply Hsok).
    rewrite (ready_setup o w Hready). fold (terminalOf spec w). intros Hrun. right.
    destruct (startFails w).
    + left. injection Hrun as <- <- <-. split; [done|]. split; [done|]. exists (cleanupBeforeLaunch o). split_and!; try done.
      unfold launching. rewrite Ea. by rewrite <-!app_assoc.
    + right. destruct (supervise _ _ _ _ _ _) as [[[r0 err0] tr0]|] eqn:Ev; [|done]. cbn [mbind option_bind] in Hrun. injection Hrun as <- <- <-.
      split; [done|]. split; [done|]. destruct (supervised_run _ _ _ _ _ _ Hpid Ev) as (before & e & Hv & Hsup). exists before, e.
      split; [done|]. revert Hsup. unfold launching. rewrite Ea. by rewrite <-!app_assoc.
  - intros He. destruct (Argv spec) as [|argv0 args]; [done|]. destruct (argv0 =? "")%string; [done|]. destruct (cancelledBefore w); [done|].
    destruct (runPrelaunch _ _) as [ok prelaunched]. destruct ok; cbn [negb]; [|done]. destruct (runStart _) as [ok started]. destruct ok; cbn [negb]; [|done].
    destruct (cancelledDuring w); [done|]. destruct (startFails w); [done|].
    match goal with |- context [supervise o w ?t true true ?es] => pose proof (supervise_ends o w t true true es He) as Hends; by destruct (supervise o w t true true es) as [[[? ?] ?]|] end.
Qed.

(** A run whose child is stopped by a safety failure. *)
Definition sample_spec : ChildSpec := mkSpec ["aws"; "s3"; "ls"] (Some ["A=b"]) EmptyString None None None.
Definition sample_options : SupervisorOptions := mkOptions (mkHooks [Some HookOk; None] (Some HookOk) (Some TimedOut) (Some (Finished HookOk))) 0 0 0.
Definition sample_world (es : list event) : World :=
  let term := AFile (fun k => match k with O => Interrupted | _ => IoOk 7 end) in
  mkWorld false false term term term (Some (fun _ => IoOk 7)) 7 false 42 es false true.
Lemma child_supervised_witness :
  RunChild sample_spec sample_options (sample_world [SignalSent (Some 28); SafetyFailed]) =
    Some (mkResult 70 None true true, Some (ErrNew "post-launch safety failure"),
      [RanPrelaunch 0; RanStart; NotifySignals; Launched ["aws"; "s3"; "ls"] (Some ["A=b"]) "" true; Kill 42 28; Kill 42 15; AwaitChild 500000000;
       Kill 42 9; AwaitChild 500000000; Kill 42 9; RestoreTerminal 7; RanDrain 2000000000; RanCleanup 2000000000; StopSignals]) /\
  (exists before e, verdict [SignalSent (Some 28); SafetyFailed] before e) /\
  RunChild sample_spec sample_options (sample_world [ChildWaited (ExitStatus 3)]) <> None.
Proof.
  split; [vm_compute; reflexivity|]. split.
  - destruct (child_supervised sample_spec sample_options (sample_world [SignalSent (Some 28); SafetyFailed])) as (_ & H & _).
    destruct (H ltac:(done) ltac:(done) ltac:(done) _ _ _ ltac:(vm_compute; reflexivity)) as [[Hn _]|[(_ & Hf & _)|(_ & _ & before & e & Hv & _)]];
      [|discriminate Hf|by exists before, e].
    exfalso. apply Hn. split_and!; [done|repeat (constructor; [by (left + right)|]); constructor|by right|done].
  - apply (child_supervised sample_spec sample_options (sample_world [ChildWaited (ExitStatus 3)])).
    exists (ChildWaited (ExitStatus 3)). split; [by left|right; by eexists].
Defined.
End Child.
