(* ===== verification/Version.v ===== *)
(** * The authorization data (internal/iammap/data: version.go)

    The flat entries derived from the catalog, their validation against it, the
    version that mappings carry, and the check that one set of entries does not
    widen another.  [Load] is the loaded catalog or its error, [version] and
    [sourceHash] what the catalog says of itself. *)

From Stdlib Require Import ZArith Lia Ascii.
From stdpp Require Import base gmap strings list.
From S2P Require Import Prelude GoStrings CatalogTypes CatalogStore CatalogAccess.

Module Version.
Import CatalogTypes.CatalogTypes CatalogStore.CatalogStore CatalogAccess.CatalogAccess.

Record Entry := mkEntry { Service : string; Operation : string; Action : string; Resource : string; Scope : string; Dependencies : list string }.
#[export] Instance Entry_eq_dec : EqDecision Entry.
Proof. solve_decision. Defined.

Section Data.
Context `{U : UnicodeTables}.
Context (Load : result (option compactStore)) (version sourceHash UpstreamCommit : string).

Definition SnapshotVersion : string := ("iamlive-catalog/v3@" ++ UpstreamCommit)%string.
Definition named (rs : list ResourceTypeDef) : list ResourceTypeDef := filter (fun r => rt_Name r <> EmptyString) rs.
Definition dependentActions (rs : list ResourceTypeDef) : list string := List.flat_map DependentActions rs.
Definition entryOf (c : option compactStore) (occurrence : OperationOccurrence) : option Entry :=
  let s := EndpointPrefix (oc_Service occurrence) in
  let o := oc_Operation occurrence in
  if negb (OperationCardinality c s (o_Name o) =? 1) || negb (o_State o =? EvidenceKnown)%string ||
     negb (MappingState o =? EvidenceKnown)%string || negb (Plan_Valid (Plan occurrence)) then None
  else match pl_Mappings (Plan occurrence) with
  | [] => None
  | compiled :: _ =>
    let m := s_Mapping compiled in
    let a := s_Definition compiled in
    if negb (m_State m =? EvidenceKnown)%string || negb (List.length (SplitN (m_Action m) ":" 2) =? 2)%nat then None
    else if negb (def_State a =? EvidenceKnown)%string then None
    else
      let '(resource, scope) :=
        match named (def_Resources a) with
        | [] => ("global", "known_global")
        | [r] => (rt_Name r, "exact")
        | r :: _ => (rt_Name r, "unresolved")
        end%string in
      Some (mkEntry (ToLower s) (o_Name o) (m_Action m) resource scope (sort_strings (dependentActions (def_Resources a))))
  end.
Definition entryLeb (x y : Entry) : bool := if (Service x =? Service y)%string then str_leb (Operation x) (Operation y) else str_leb (Service x) (Service y).
Definition Entries : result (list Entry) :=
  match Load with
  | Err e => Err e
  | Ok c =>
    match ForEachOperationOccurrence c (Some (fun occurrence out => (match entryOf c occurrence with Some x => out ++ [x] | None => out end, None))) [] with
    | (_, Some e) => Err e
    | (out, None) =>
      if (List.length out =? 0)%nat then Err (ErrNew "catalog has no mapped operations") else Ok (sort_by entryLeb out)
    end
  end.

Definition operationRecordCount (c : option compactStore) (service operation : string) : Z := OperationCardinality c service operation.
(** The definition of the first mapping of an action. *)
Fixpoint mappedAction (action : string) (ms : list StaticMapping) : option StaticMapping :=
  match ms with [] => None | m :: ms => if (m_Action (s_Mapping m) =? action)%string then Some m else mappedAction action ms end.
Definition resourceMetadata (e : Entry) (names : list string) : option error :=
  if (Resource e =? "global")%string then
    if negb (List.length names =? 0)%nat || negb (Scope e =? "known_global")%string
    then Some (ErrFmt "global resource metadata disagreement: %s" [Action e]) else None
  else
    let disagreement := Some (ErrFmt "catalog resource metadata disagreement: %s/%s" [Action e; Resource e]) in
    match names with
    | [name] => if negb (name =? Resource e)%string || negb (Scope e =? "exact")%string then disagreement else None
    | name :: _ :: _ => if negb (name =? Resource e)%string || negb (Scope e =? "unresolved")%string then disagreement else None
    | [] => disagreement
    end.
Definition ValidateEntry (e : Entry) : option error :=
  if (Service e =? "")%string || (Operation e =? "")%string || (Action e =? "")%string || (Resource e =? "")%string
  then Some (ErrNew "incomplete catalog entry")
  else match Load with
  | Err err => Some err
  | Ok c =>
    if negb (operationRecordCount c (Service e) (Operation e) =? 1) then Some (ErrFmt "ambiguous catalog operation: %s:%s" [Service e; Operation e])
    else match OperationOccurrences c (Service e) (Operation e) with
    | [occurrence] =>
      let op := oc_Operation occurrence in
      let plan := Plan occurrence in
      if negb (o_State op =? EvidenceKnown)%string || negb (MappingState op =? EvidenceKnown)%string || negb (Plan_Valid plan)
      then Some (ErrFmt "catalog static validation failed: %s:%s" [Service e; Operation e])
      else
        let disagreement := Some (ErrFmt "catalog operation/action disagreement: %s:%s" [Service e; Operation e]) in
        match mappedAction (Action e) (pl_Mappings plan) with
        | None => disagreement
        | Some compiled =>
          let state := m_State (s_Mapping compiled) in
          let a := s_Definition compiled in
          if negb (state =? EvidenceKnown)%string then Some (ErrFmt "catalog action mapping evidence is %s: %s" [state; Action e])
          else if negb (def_State a =? EvidenceKnown)%string then disagreement
          else match resourceMetadata e (rt_Name <$> named (def_Resources a)) with
          | Some err => Some err
          | None =>
            let need := sort_strings (dependentActions (def_Resources a)) in
            let have := sort_strings (Dependencies e) in
            if negb (List.length need =? List.length have)%nat then Some (ErrNew "catalog dependency disagreement")
            else match filter (fun nh => nh.1 <> nh.2) (zip need have) with
            | (n, _) :: _ => Some (ErrFmt "catalog dependency disagreement: %s" [n])
            | [] => None
            end
          end
        end
    | _ => Some (ErrFmt "catalog operation occurrence unavailable: %s:%s" [Service e; Operation e])
    end
  end.
Definition AuthorizationDataVersion : string :=
  match Load with Err _ => SnapshotVersion | Ok _ => (version ++ "+sha256:" ++ sourceHash)%string end.
Definition SourceVersion : string := SnapshotVersion.
Definition BaselineEntries : result (list Entry) := Entries.
End Data.

(** ** Widening *)

Definition entryKey (x : Entry) : string := (Service x ++ nul ++ Operation x)%string.
Fixpoint indexBase (base : list Entry) (bm : gmap string Entry) : string + gmap string Entry :=
  match base with
  | [] => inr bm
  | x :: base => match bm !! entryKey x with Some _ => inl (entryKey x) | None => indexBase base (<[entryKey x := x]> bm) end
  end.
Fixpoint indexCandidate (bm : gmap string Entry) (candidate : list Entry) (cm : gmap string Entry) : error + gmap string Entry :=
  match candidate with
  | [] => inr cm
  | x :: candidate =>
    match cm !! entryKey x with
    | Some _ => inl (ErrFmt "widening: duplicate operation %s" [entryKey x])
    | None =>
      match bm !! entryKey x with
      | None => inl (ErrFmt "widening: new operation %s" [entryKey x])
      | Some _ => indexCandidate bm candidate (<[entryKey x := x]> cm)
      end
    end
  end.
Definition compareEntry (k : string) (b c : Entry) : option error :=
  if negb (Action c =? Action b)%string || negb (Resource c =? Resource b)%string || negb (Scope c =? Scope b)%string
  then Some (ErrFmt "widening: metadata changed for %s" [k])
  else
    let need := sort_strings (Dependencies b) in
    let have := sort_strings (Dependencies c) in
    if negb (List.length need =? List.length have)%nat then Some (ErrFmt "widening: dependency multiplicity changed for %s" [k])
    else if existsb (fun nh => negb (nh.1 =? nh.2)%string) (zip need have) then Some (ErrFmt "widening: dependency changed for %s" [k])
    else None.
Fixpoint compareAll (bm cm : gmap string Entry) (keys : list string) : option error :=
  match keys with
  | [] => None
  | k :: keys =>
    match bm !! k, cm !! k with
    | Some b, Some c => match compareEntry k b c with Some e => Some e | None => compareAll bm cm keys end
    | _, _ => Some (ErrFmt "widening: removed operation %s" [k])
    end
  end.
(** [keys]: the order in which the base's map is iterated. *)
Definition CheckNoWidening (keys : list string) (base candidate : list Entry) : option error :=
  match indexBase base ∅ with
  | inl k => Some (ErrFmt "widening: duplicate operation %s" [k])
  | inr bm =>
    match indexCandidate bm candidate ∅ with
    | inl e => Some e
    | inr cm => compareAll bm cm keys
    end
  end.
Fixpoint uniqueLoop (seen : list string) (l : list string) : list string :=
  match l with
  | [] => []
  | x :: l => if (x =? "")%string || bool_decide (x ∈ seen) then uniqueLoop seen l else x :: uniqueLoop (x :: seen) l
  end.
Definition unique (l : list string) : list string := sort_strings (uniqueLoop [] l).

(** The same entry, up to the order of its dependencies. *)
Definition sameEntry (b c : Entry) : Prop :=
  entryKey c = entryKey b /\ Action c = Action b /\ Resource c = Resource b /\ Scope c = Scope b /\ Dependencies c ≡ₚ Dependencies b.

Lemma indexBase_spec base bm bm' : indexBase base bm = inr bm' ->
  NoDup (entryKey <$> base) /\ (forall x, x ∈ base -> bm !! entryKey x = None) /\
  (forall k e, bm' !! k = Some e <-> bm !! k = Some e \/ (e ∈ base /\ entryKey e = k)).
Proof.
  revert bm. induction base as [|x base IH]; intros bm; cbn [indexBase]; [intros [= <-]; split_and!; [constructor|by intros x ?%elem_of_nil|by intros k e; split; [by left|intros [?|[?%elem_of_nil _]]]]|].
  destruct (bm !! entryKey x) eqn:Ex; [done|]. intros (Hn & Hd & Hl)%IH. split_and!.
  - constructor; [|done]. intros (y & E & Hy)%list_elem_of_fmap. specialize (Hd y Hy). by rewrite <-E, lookup_insert_eq in Hd.
  - intros y [->|Hy]%elem_of_cons; [done|]. specialize (Hd y Hy). by apply lookup_insert_None in Hd as [? _].
  - intros k e. rewrite Hl, elem_of_cons. destruct (decide (entryKey x = k)) as [<-|Hne].
    + rewrite lookup_insert_eq. split; [intros [[= <-]|[? ?]]; auto|]. intros [?|[[->|?] ?]]; [congruence|by left|by right].
    + rewrite lookup_insert_ne by done. naive_solver.
Qed.
Lemma indexBase_total base bm : NoDup (entryKey <$> base) -> (forall x, x ∈ base -> bm !! entryKey x = None) -> exists bm', indexBase base bm = inr bm'.
Proof.
  revert bm. induction base as [|x base IH]; intros bm Hn Hd; cbn [indexBase]; [by eexists|].
  rewrite (Hd x) by left. apply NoDup_cons in Hn as [Hx Hn]. apply IH; [done|]. intros y Hy.
  rewrite lookup_insert_ne; [apply Hd; by right|]. intros E. apply Hx. rewrite E. by apply list_elem_of_fmap_2.
Qed.
(** A candidate's map is the base's with the additional test. *)
Lemma indexCandidate_base bm candidate cm cm' : indexCandidate bm candidate cm = inr cm' <->
  indexBase candidate cm = inr cm' /\ forall x, x ∈ candidate -> is_Some (bm !! entryKey x).
Proof.
  revert cm. induction candidate as [|x candidate IH]; intros cm; cbn [indexCandidate indexBase].
  - split; [intros [= <-]; split; [done|by intros x ?%elem_of_nil]|by intros [[= <-] _]].
  - destruct (cm !! entryKey x); [naive_solver|]. destruct (bm !! entryKey x) eqn:Eb.
    + rewrite IH. split; intros [H1 H2]; (split; [done|]); intros y; [intros [->|?]%elem_of_cons; eauto|intros Hy; apply H2; by right].
    + split; [done|]. intros [_ H]. destruct (H x) as [? Hx]; [by left|congruence].
Qed.
Lemma compareEntry_same k b c : entryKey c = entryKey b -> compareEntry k b c = None <-> sameEntry b c.
Proof.
  intros Hk. unfold compareEntry, sameEntry. split.
  - destruct (_ || _ || _) eqn:E; [done|]. destruct (negb (_ =? _)%nat) eqn:El; [done|]. destruct (existsb _ _) eqn:Ez; [done|]. intros _.
    apply orb_false_iff in E as [[E1%negb_false_iff E2%negb_false_iff]%orb_false_iff E3%negb_false_iff].
    split_and!; [done|by apply String.eqb_eq..|]. rewrite <-(sort_by_perm str_leb (Dependencies c)), <-(sort_by_perm str_leb (Dependencies b)).
    change (sort_by str_leb ?l) with (sort_strings l). apply negb_false_iff, Nat.eqb_eq in El.
    assert (Heq : sort_strings (Dependencies b) = sort_strings (Dependencies c)); [|by rewrite Heq].
    revert El Ez. generalize (sort_strings (Dependencies b)) (sort_strings (Dependencies c)). intros l1. induction l1 as [|x l1 IH]; intros [|y l2]; try done.
    cbn. intros [= El] [E%negb_false_iff%String.eqb_eq Ez]%orb_false_iff. f_equal; auto.
  - intros (_ & -> & -> & -> & Hd). rewrite !String.eqb_refl. cbn [negb orb].
    rewrite (sort_strings_unique _ _ Hd), Nat.eqb_refl. cbn [negb]. replace (existsb _ _) with false; [done|].
    symmetry. generalize (sort_strings (Dependencies b)). intros l. induction l as [|x l IH]; [done|]. cbn. by rewrite String.eqb_refl, IH.
Qed.
Lemma compareAll_none bm cm keys : compareAll bm cm keys = None <->
  Forall (fun k => exists b c, bm !! k = Some b /\ cm !! k = Some c /\ compareEntry k b c = None) keys.
Proof.
  induction keys as [|k keys IH]; cbn [compareAll]; [by split|]. rewrite Forall_cons, <-IH.
  destruct (bm !! k) as [b|], (cm !! k) as [c|]; [|naive_solver..]. destruct (compareEntry k b c) eqn:E; [|naive_solver].
  split; [done|]. intros [(b' & c' & Hb & Hc & E') _]. naive_solver.
Qed.

(** The check against widening accepts exactly the same authorizations: whatever
    the order in which it looks at the base, there is no error just when the base
    names every operation once and the candidate, taken in some order, has for
    every entry of the base one of the same operation, action, resource and scope
    with the same dependencies up to their order, and nothing else. *)
Lemma no_widening_exact (keys : list string) (base candidate : list Entry) :
  keys ≡ₚ (entryKey <$> base) ->
  CheckNoWidening keys base candidate = None <->
  NoDup (entryKey <$> base) /\ exists candidate', candidate' ≡ₚ candidate /\ Forall2 sameEntry base candidate'.
Proof.
  intros HK. unfold CheckNoWidening. split.
  - destruct (indexBase base ∅) as [k|bm] eqn:Eb; [done|]. destruct (indexCandidate bm candidate ∅) as [e|cm] eqn:Ec; [done|].
    apply indexCandidate_base in Ec as [Ec Hin]. apply indexBase_spec in Eb as (Hnb & _ & Hb). apply indexBase_spec in Ec as (Hnc & _ & Hc).
    rewrite compareAll_none, HK, Forall_fmap. intros HF. split; [done|].
    assert (HF' : Forall (fun b => exists c, c ∈ candidate /\ sameEntry b c) base).
    { apply Forall_forall. intros x Hx. rewrite Forall_forall in HF. destruct (HF x Hx) as (b & c & H1 & H2 & H3).
      apply Hb in H1 as [H1|[H1 E1]]; [done|]. apply Hc in H2 as [H2|[H2 E2]]; [done|].
      rewrite (NoDup_fmap_inj entryKey _ b x Hnb H1 Hx E1) in *. exists c. split; [done|]. by eapply compareEntry_same. }
    apply Forall_exists_Forall2_l in HF' as [cs HF']. exists cs. split; [|by eapply Forall2_impl; [exact HF'|intros ? ? [_ ?]]].
    assert (Ek : entryKey <$> cs = entryKey <$> base).
    { clear -HF'. induction HF' as [|b c base cs [_ [E _]] _ IH]; [done|]. cbn. by rewrite E, IH. }
    apply NoDup_Permutation.
    + apply (NoDup_fmap_1 entryKey). by rewrite Ek.
    + by apply (NoDup_fmap_1 entryKey).
    + intros c. split.
      * intros Hc'. apply list_elem_of_lookup in Hc' as [n Hn]. destruct (Forall2_lookup_r _ _ _ _ _ HF' Hn) as (b & _ & ? & _). done.
      * intros Hc'. destruct (Hin c Hc') as [b Hb']. apply Hb in Hb' as [?|[Hb' E]]; [done|].
        apply list_elem_of_lookup in Hb' as [n Hn]. destruct (Forall2_lookup_l _ _ _ _ _ HF' Hn) as (c' & Hn' & Hc'' & [E' _]).
        rewrite (NoDup_fmap_inj entryKey _ c c' Hnc Hc' Hc'' ltac:(congruence)). by eapply list_elem_of_lookup_2.
  - intros [Hnb (cs & HP & HF)].
    assert (Ek : entryKey <$> cs = entryKey <$> base).
    { clear -HF. induction HF as [|b c base cs [E _] _ IH]; [done|]. cbn. by rewrite E, IH. }
    assert (Hnc : NoDup (entryKey <$> candidate)) by (rewrite <-HP, Ek; done).
    destruct (indexBase_total base ∅ Hnb) as [bm Eb]; [intros; apply lookup_empty|]. destruct (indexBase_total candidate ∅ Hnc) as [cm Ec]; [intros; apply lookup_empty|].
    rewrite Eb. pose proof (indexBase_spec _ _ _ Eb) as (_ & _ & Hb). pose proof (indexBase_spec _ _ _ Ec) as (_ & _ & Hc).
    rewrite (proj2 (indexCandidate_base bm candidate ∅ cm)).
    + apply compareAll_none. rewrite HK, Forall_fmap. apply Forall_forall. intros b Hb'. cbn.
      apply list_elem_of_lookup in Hb' as [n Hn]. destruct (Forall2_lookup_l _ _ _ _ _ HF Hn) as (c & Hn' & HS). exists b, c.
      split_and!; [apply Hb; right; split; [by eapply list_elem_of_lookup_2|done]| |by apply compareEntry_same; [apply HS|]].
      apply Hc. right. split; [rewrite <-HP; by eapply list_elem_of_lookup_2|apply HS].
    + split; [done|]. intros c Hc'. rewrite <-HP in Hc'. apply list_elem_of_lookup in Hc' as [n Hn].
      destruct (Forall2_lookup_r _ _ _ _ _ HF Hn) as (b & Hn' & E & _). exists b. apply Hb. right. split; [by eapply list_elem_of_lookup_2|done].
Qed.
Definition sample_entry (dependencies : list string) : Entry := mkEntry "ec2" "RunInstances" "ec2:RunInstances" "instance" "exact" dependencies.
Lemma no_widening_exact_witness :
  let other := mkEntry "s3" "ListBuckets" "s3:ListAllMyBuckets" "global" "known_global" [] in
  CheckNoWidening [entryKey other; entryKey (sample_entry [])] [sample_entry ["a"; "b"]; other] [other; sample_entry ["b"; "a"]] = None /\
  CheckNoWidening [entryKey (sample_entry [])] [sample_entry ["a"]] [sample_entry ["b"]] <> None.
Proof.
  split; [|vm_compute; done]. apply no_widening_exact; [apply perm_swap|]. split; [by apply (bool_decide_unpack _); vm_compute|].
  eexists. split; [apply perm_swap|]. repeat constructor.
Defined.
End Version.
